(* ===== verification/_CoqProject ===== *)
-Q . S2P
Prelude.v
BTree.v
Text.v
Floats.v
Types.v
Command.v
Lifecycle.v
Clock.v
Actions.v
Queues.v
Automation.v
Timers.v
TimerLaws.v
Controller.v
Plans.v
Scheduler.v
Ramp.v
FadeToBlack.v
Overlay.v
SwitcherTypes.v
Switcher.v
Capabilities.v
Graph.v
GraphPlan.v
Playback.v
Playlist.v
ReplayTypes.v
ReplayStorage.v
ReplayEvents.v
ReplayDecks.v
ReplayExports.v
Settle.v
EngineShow.v
Engine.v
EngineSim.v
EngineRun.v
EngineCalm.v
EngineSnapshot.v
EngineSafety.v
Protocol.v
CodecValue.v
ValueLaws.v
Encode.v
Decode.v
StateLaws.v
RecordLaws.v
CodecLaws.v
CodecSafety.v
Auth.v
ControlWire.v
Control.v
UiModel.v
Client.v
Server.v
SessionLaws.v
Handshake.v
Daemon.v
EngineEffect.v
ControlView.v
ControlRun.v
ControlSafety.v
ControlLaws.v
AutomationPlane.v
PlaneLaws.v
AutomationSafety.v
ReplicaValid.v
Replica.v
Reconnect.v
Guest.v
GuestLaws.v
GuestSafety.v
PluginExchange.v
PluginHost.v
PluginLaws.v
ProjectModel.v
Validation.v
ProjectEdits.v
ProjectLaws.v
EditLaws.v
ProjectSafety.v
