(* ===== verification/Prelude.v ===== *)
(** * FreeMix: a verification library for the deterministic core of the engine

    FreeMix is a live production engine.  Around a core that is deterministic by
    design sit adapters (devices, codecs, networks, GPU, user interfaces) and
    applications (daemon, command line, studio).  This library models the core:
    how commands are accepted, how time is kept, how frames are scheduled, how
    the switcher decides what each frame shows, how the engine composes these,
    how a media graph is validated and compiled into a plan, how clients and
    the server share the show, and beside it the project document, guests and
    the plugin host.

    ** Parts and how they interact

    A client sends a command to the command machine ([fm-command]); the machine
    decides it once, runs the mutation of the domain (the switcher is one) on a
    draft, and commits draft, revision, durable events and receipt together.
    What an accepted revision causes later is followed by a [Lifecycle].  The
    scheduler ([fm-scheduler]) realizes one frame after the other on the exact
    timeline of a rational rate; at each boundary it takes the actions and the
    execution plan that are due.  The plans come from the graph compiler
    ([fm-graph]), which matches the requirements of the nodes against the
    registered capabilities ([fm-capabilities]).  With each frame the switcher
    ([fm-switcher]) advances its transition, Fade-to-Black and overlays, and its
    inputs are pulled: clips and playlists ([fm-playback]) and replayed events
    ([fm-replay]).  The engine ([fm-engine]) keeps two switchers: a command changes
    the desired one at once and schedules an action for the next frame, where a
    tick runs it on the realized one.  The control service ([fm-control]) owns the
    engine: it authorizes ([fm-auth]) and submits the commands of clients, keeps a
    bounded log of durable events and tells what became of each command, in the
    messages of [fm-protocol], which travel as lines of escaped fields.  The server ([fm-server]) admits clients to it and
    accounts for their sessions; the daemon ([freemixd]) joins both.  A client
    ([fm-client]) follows the log with a model of the show ([fm-ui-model]).
    Automation ([fm-automation]) turns key chords, timers, observed events and
    programmed GO lists into command intents; at the authority ([automation.rs] of
    [fm-control]) they become ordinary submissions of whoever armed them.
    A project document ([fm-model]) describes a show at rest: inputs, scenes, buses,
    outputs and streaming targets.  Guests ([fm-guest]) are admitted to slots and
    heard through a mix-minus matrix; plugins ([fm-plugin-host-api]) are loaded,
    granted capabilities and put in quarantine by a host that logs all it does.
    [fm-clock] maps the clocks of the sources to the master clock, and [fm-types]
    holds what all share.

    ** Files

    - [Prelude] (this file): the [result] monad of fallible functions; [stm], the
      monad of methods ([&mut self], an error, or a panic) with its weakest
      precondition [wp] and the tactic [wp_run]; machine integers ([in_ty],
      [checked], [saturating]); strings as byte strings; list lemmas.
    - [BTree]: [BTreeMap] and [BTreeSet] as increasing association lists, against
      the interface [OrdKey] / [OrdKeyLaws] of total orders.
    - [Text]: the operations of [str] that the wire format uses, their laws, and the
      percent escapes; the rewrite database [text] and the tactic of its name decide
      which separators a string lacks and that it is ASCII.
    - [Floats]: the floating point numbers of Rust ([f32], [f64]), which controllers and
      guests compute with, over the IEEE 754 specification of the Standard Library.
    - [Types]: crates/foundation/fm-types ([time.rs], [id.rs], [video.rs],
      [color.rs], [audio.rs], [lib.rs]).
    - [Command], [Lifecycle]: crates/foundation/fm-command ([counters.rs],
      [envelope.rs], [transaction.rs], [machine.rs]; [lifecycle.rs]).
      [CommandState::apply], [prepare], [commit] and their transactions are
      [apply], [prepare], [commit], [prepare_transaction]; the domain's closures
      are arguments.  The two-phase protocol is the step relation [authority_step] of
      a client that keeps any number of decisions outstanding, each with the request it
      was prepared for.
    - [Clock]: crates/media/fm-clock ([clock.rs], [cadence.rs], [mapping.rs]).
    - [Actions], [Queues], [Plans], [Scheduler]: crates/media/fm-scheduler
      ([action.rs]; [queue.rs]; [pacing.rs] and [plan.rs]; [scheduler.rs] and
      [telemetry.rs]).  [call_step] executes any call of the scheduler.
    - [Ramp], [FadeToBlack], [Overlay], [SwitcherTypes], [Switcher]:
      crates/features/fm-switcher ([fade_to_black.rs]; [overlay.rs];
      [transition.rs], [stinger.rs], [stream.rs], [command.rs]; [state.rs]).
      [SwitcherState::apply] and [advance_frame_events] are [apply] and
      [advance_frame_events].
    - [Automation], [Timers], [Controller]: crates/features/fm-automation
      ([condition.rs], [intent.rs], [shortcut.rs], [macros.rs]; [schedule.rs],
      [trigger.rs], [go.rs]; [controller.rs], its floats computed exactly).
      [Automation] and [Controller] end with their theorems, those of [Timers] are in
      [TimerLaws].
    - [Capabilities]: crates/foundation/fm-capabilities ([descriptor.rs],
      [value.rs], [registry.rs], [matching.rs]).
    - [Graph], [GraphPlan]: crates/media/fm-graph ([model.rs], [validation.rs];
      [plan.rs]).
    - [Playback], [Playlist]: crates/media/fm-playback ([types.rs], [clip.rs],
      [transport.rs]; [playlist.rs]).  [Transport::pull_frame] is [pull_frame];
      the codec is an argument, of the class [FrameCodec].
    - [ReplayTypes], [ReplayStorage], [ReplayEvents], [ReplayDecks],
      [ReplayExports]: crates/media/fm-replay ([types.rs], [source.rs];
      [storage.rs], [capacity.rs]; [event.rs]; [channel.rs]; [highlight.rs]).
    - [EngineShow], [Engine]: crates/services/fm-engine ([state.rs]; [engine.rs],
      [error.rs]).  [Engine::execute], [tick], [snapshot], [restore] are
      [execute], [tick], [snapshot], [restore]; [EngineMutation::apply] is
      [mutation_apply].  Their proofs are layered: [Settle] (a switcher at the end
      of its animations, and the calculus [sim] of methods that agree on it),
      [EngineSim] (a mutation and its action agree), [EngineRun] (the invariant
      [engine_wf], ticks and commands), [EngineCalm] (the weaker invariant [calm], which
      every history keeps), [EngineSnapshot] (rest and restoring),
      [EngineSafety] (histories, and the theorems), [EngineEffect] (what each
      command changes and which event tells it, and that the outputs of overlays
      are known).
    - [Protocol]: crates/foundation/fm-protocol ([dto.rs]).  [Auth]:
      crates/services/fm-auth ([id.rs], [policy.rs], [pairing.rs]).
    - [CodecValue], [Encode], [Decode]: crates/foundation/fm-protocol/src/codec
      ([mod.rs] and [value.rs]; [encode.rs]; [decode.rs]).  An [encode_] function is a
      method of the record of fields, a [decode_] function one of the map of fields,
      both in [stm]; [unreachable!] is a panic.  Proofs: [ValueLaws], [StateLaws] (the
      lists of each kind come back), [RecordLaws] (a line is the fields that were
      written; [holds] relates a map of fields to a list of them, and the rules [wp_required]
      and so on take from it), [CodecLaws] (each message: the tactic [round_trip] runs
      the encoder and then the decoder), [CodecSafety] (no panic, framing, the stream
      byte by byte, and the theorems).
    - [ControlWire], [Control]: crates/services/fm-control ([lib.rs]).
      [ControlService::submit], [prepare_submit], [commit], [resume],
      [tick_with_realizer_inner], [publish], [subscribe] are definitions of these
      names.  Layers of proof: the end of [Control] (subscribers), [ControlView] (what
      clients see), [ControlRun] (the invariant [control_wf]), [ControlSafety]
      (the histories [served]), [ControlLaws] (the theorems).
    - [AutomationPlane]: crates/services/fm-control ([automation.rs]).
      [AutomationPlane::tick] and [press] are [automation_tick] and [press], on the
      plane and the service together.  [PlaneLaws] has its invariant [plane_wf] and
      its histories, [AutomationSafety] the theorems.
    - [UiModel]: crates/ui/fm-ui-model ([lib.rs]).  [Client]:
      crates/services/fm-client ([lib.rs]).
    - [Server]: crates/services/fm-server ([config.rs], [status.rs], [control.rs],
      [server.rs], [session.rs]); the trait [ControlPlane] is a class, whose laws
      the handshake relies on.  [SessionLaws] and [Handshake] hold its theorems.
    - [Daemon]: the parts of apps/freemixd ([main.rs], [non_native_sessions.rs])
      that decide how a client joins; [ControlHandle] is the instance of
      [ControlPlane].
    - [ReplicaValid], [Replica], [Reconnect]: clients and the server together.
    - [Guest]: crates/features/fm-guest ([lib.rs]); [guest_step] executes any call of
      [GuestManager].  [GuestLaws] holds the invariants over histories of calls,
      [GuestSafety] the theorems.
    - [PluginExchange], [PluginHost]: crates/features/fm-plugin-host-api ([exchange.rs],
      [types.rs]; [host.rs]); [PluginLaws] holds the theorems.
    - [ProjectModel], [Validation], [ProjectEdits]: crates/foundation/fm-model
      ([stream.rs] and the data of [project.rs]; [validation.rs] and [cycles.rs], whose
      three searches share [reaches]; the methods of [Project]).  [Project::validate]
      is [validate_project], an edit is the definition of its name.  Proofs:
      [ProjectLaws] (what a report says, as the proposition [project_valid], and the
      calculus of changes), [EditLaws] (each edit), [ProjectSafety] (the theorems).

    A record of the source is a record, its field names prefixed where two types
    share one; a method that mutates is a [stm]; a newtype is what it wraps, with
    its range as an invariant; [HashMap] and [HashSet] are [gmap] and [gset], as
    the code never observes their order.

    ** What the theorems show

    - Command: a decision that commits does what the request it was prepared for would
      do now, in every interleaving of prepared decisions ([commit_linearizable]), a
      stale one is refused ([commit_stale]); commands are atomic ([apply_atomic],
      [transaction_atomic]), decided exactly once ([apply_exactly_once]) and
      accepted when they should be ([apply_accepts]); events are numbered without
      gap ([run_gapless]).
    - Lifecycle: every history refines an abstract event system
      ([lifecycle_refines]); final states are final ([terminal_absorbing]) and are
      reached ([realize_all_completes]).
    - Types and Clock: rates are normalized and [gcd] ends; frame times neither
      drift nor lose frames; mappings are the exact affine maps rounded down, and
      invert up to that rounding.
    - Scheduling: over any history of calls every action is delivered or withdrawn
      exactly once ([actions_exactly_once]), frames are consecutive and on their
      deadlines ([ticks_consecutive]), queues are first-in first-out and bounded
      ([input_queues_fifo]); the action queue refines an ordered list
      ([action_queue_refines]); each tick has its exact effect ([tick_exact]).
    - Switcher: an invariant that every operation keeps, with no panic and no
      change on error ([switcher_safe]); a transition of [d] frames is a cut
      [d] frames later ([transition_is_delayed_cut]); a manual transition can be
      taken back ([t_bar_reversible]); the events tell the route
      ([events_replay_route]); fades follow the exact ramp and end on time.
    - Graphs: the cycle search is exact ([find_cycle_exact]), validation is sound
      and complete ([validation_exact]), so is capability matching
      ([compatibility_exact]), and compilation orders every valid graph that fits
      its budget ([compile_exact]).
    - Playback: a looping transport is where modular arithmetic puts it for the frames
      it has shown, whatever reads failed ([loop_exact]), a single pass shows each frame once ([play_through_exact]),
      and no call leaves the marks or panics ([transport_safe]); a playlist player
      answers as specified ([player_answers]) and executes each programmed GO at
      most once ([gos_exactly_once]).
    - Replay: deletion is exact and oldest first ([reclaim_exact],
      [retention_enforced]) and never touches what is protected
      ([protected_until_released]); linked decks stay in lockstep
      ([linked_lockstep]) and play exactly to the end ([replay_play_exact]); quad
      views show the latest observations ([quad_view_exact]); the event database
      stays consistent ([events_consistent]) and export jobs only move forward
      ([export_jobs_monotone]).
    - Engine.  There is one accident in it: a stinger whose fallback keeps the program is
      accepted while a T-bar is held, its action fails in the next tick, and the tick
      loses the other commands of the frame ([held_stinger_breaks_tick]).  Over every
      history, these and failed ticks included ([operated]), nothing panics, a mutation
      that panicked being a panic of the engine, commands fail only when identifiers
      run out, and ticks only as [tick_failure] says ([engine_safe]).  The histories
      [reached] are those that never fire a stinger while a T-bar is held ([fires_idle]
      of EngineSim): there a tick fails only when the timeline is exhausted, each tick
      realizes exactly what was accepted ([tick_realizes], [commands_accounted]); a
      command is executed once ([execute_once]); at rest the engine shows what is
      desired and can be saved ([engine_converges], [snapshot_restorable]), and a
      restart changes no later answer ([restart_transparent]); names stay with their
      inputs ([names_follow_inputs]).
    - Control service, over every history [served], which are [reached] ones of its
      engine: it never panics and keeps [control_wf] ([control_safe]); resuming from a
      cursor gives exactly the events after it ([resume_exact]); subscribers get
      everything in order or are dropped ([subscriber_fifo]); commands are decided once
      ([submit_once]: a repetition is answered with the first result, or with a denial
      that an unauthorized attempt under the key left behind) and reported in the next
      tick ([commands_reported]); the unauthorized have no effect.
    - Automation: a repeating schedule fires for its boundaries and no others, as long as
      the boundaries that follow fit in 64 bits ([schedule_anchored], [polls_fit]; a
      poll that fails loses what was due with it, [poll_loses_schedules]), a GO run
      exactly its steps ([go_run_exact]), a button
      on rising edges ([button_refines]), a macro within its attempts
      ([macro_bounded]); no chord has two meanings ([shortcuts_unambiguous]).  At
      the authority, over every history of calls ([plane_reached]), a frame plans
      exactly what is due, specified without the polls ([due_commands]), and all that is
      planned is accounted for ([automation_accounts]), under a key that names the
      action ([automation_key_injective]), within every cap
      ([automation_bounded]); who is revoked is silent ([revoked_is_silent]), who is
      armed is not forgotten ([arming_remembered]).
    - Wire format: what is encoded is decoded ([wire_roundtrip]), with the exact
      exception of fields whose escapes outgrow their bound; [wire_ok] says what the
      types allow, and excludes the values that only one direction accepts, which
      [codec_disagrees] lists.  Nothing panics and every line that is written is framed
      ([codec_total]); a stream of such messages is understood wherever it is cut, in
      chunks of at most 1024 lines ([stream_delivers], [push_bytewise]).
    - Sessions: [session_safe] (what is in flight and queued is exactly what the
      answers so far make it), [rate_limited] (no span of a
      window admits more than twice its maximum), [handshake_exact] (who is
      admitted, and with what) and [session_scoped] (no more than the principal
      may).
    - Clients: a model that follows the log shows what the engine shows, and a
      client that connects again, resumed or not, gets there
      ([reconnect_converges]).
    - Guests: who is admitted gets the reserved or the first free slot
      ([admission_exact]), no slot has two holders and no invitation two guests
      ([slots_exclusive]), nobody hears itself ([mix_minus_exact]), and chat is shown to
      those whom the calls made members of its audience ([chat_exact]).
    - Plugins: the registry is its event log ([host_replays]), and quarantine is final
      ([quarantine_final]).
    - Projects: validation always ends, reports nothing exactly for well-formed projects
      and every cycle ([project_report_exact]), no edit of a valid project makes it
      invalid or panics ([edits_keep_valid]), and an edit is refused as a cycle exactly
      when it would close one ([cycles_refused_exactly]).

    ** Bounds and fuel

    Integers are [Z] within the bounds of their Rust types ([in_ty]); arithmetic
    the code checks is [checked], arithmetic it leaves unchecked is a panic when it
    overflows, and the theorems rule that out.  [gcd] has fuel 65, enough for the
    32-bit parts of a rate, since two steps halve the remainder
    ([rate_new_normalizes]).  [start_transition] calls itself once, through the
    fallback of a stinger, so its fuel is 2 ([switcher_safe]).  The cycle search
    recurses at most once per node and once more ([find_cycle_exact]); the
    ordering loop runs once per node ([compile_exact]).  No animation lasts more
    than 3600 frames, hence the 3601 of [engine_converges].  The searches for cycles
    of a project have one more fuel than there are nodes ([project_report_exact]).
    All other loops are structural.

    ** What is not modelled

    [Display], [Error] and the derived traits; plain getters; hashing and
    random generation of identifiers; the mutex in [ManualClock] (one caller at a
    time); sharing by [Arc], whose values are immutable.  The syntax checks of
    capability keys and graph identifiers ([key.rs], [id.rs]).  Of the crates
    outside the list above, I/O, GPU, codec, user-interface and application code
    is out of scope: sockets, encoders, devices and native libraries decide
    little that could be stated without them.  Of the daemon only the joining of
    clients is modelled.  Journal recovery ([fm-persistence]) and recording ([fm-record])
    are left out: what they guarantee rests on the file system.
    [inspect_recovery] of fm-replay reads directories. *)
From Stdlib Require Export ZArith Lia.
From stdpp Require Export base tactics numbers countable strings gmap sets sorting list.

#[global] Open Scope Z_scope.
#[global] Set Default Goal Selector "!".
#[global] Set Warnings "-clear-no-such-hyp".

Declare Scope fm_scope.
Delimit Scope fm_scope with fm.
#[global] Open Scope fm_scope.

(** ** Results: Rust's [Result<A, E>] *)

Inductive result (E A : Type) : Type :=
  | Ok (a : A)
  | Err (e : E).
Arguments Ok {E A} a.
Arguments Err {E A} e.

#[global] Instance result_eq_dec `{EqDecision E} `{EqDecision A} :
  EqDecision (result E A).
Proof. solve_decision. Defined.

#[global] Instance result_ret {E} : MRet (result E) := @Ok E.
#[global] Instance result_throw {E} : MThrow E (result E) := @Err E.
#[global] Instance result_bind {E} : MBind (result E) := λ A B f r,
  match r with
  | Ok a => f a
  | Err e => Err e
  end.

(** [map_err]: replace the error, keep the value. *)
Definition result_map_err {E E' A} (f : E → E') (r : result E A) : result E' A :=
  match r with
  | Ok a => Ok a
  | Err e => Err (f e)
  end.

(** [Option::ok_or]. *)
Definition ok_or {E A} (e : E) (o : option A) : result E A :=
  match o with
  | Some a => Ok a
  | None => Err e
  end.

Definition is_ok {E A} (r : result E A) : bool :=
  match r with
  | Ok _ => true
  | Err _ => false
  end.

Lemma ok_or_Ok {E A} (e : E) (o : option A) a : ok_or e o = Ok a ↔ o = Some a.
Proof. split; destruct o; by intros; simplify_eq/=. Qed.
Lemma ok_or_Err {E A} (e e' : E) (o : option A) :
  ok_or e o = Err e' ↔ o = None ∧ e = e'.
Proof. split; destruct o; intros; destruct_and?; by simplify_eq/=. Qed.
Lemma result_bind_Ok {E A B} (r : result E A) (f : A → result E B) b :
  (r ≫= f) = Ok b ↔ ∃ a, r = Ok a ∧ f a = Ok b.
Proof. destruct r; split; [|by intros (?&[= ->]&?)| |by intros (?&?&?)]; eauto; done. Qed.

(** ** Stateful methods

    A method [fn op(&mut self, ..) -> Result<A, E>] is a state transformer that
    returns the object it leaves behind in every case: an early [?] keeps the
    mutations that were made before it.  [Panic] is a failed [expect], an index
    out of range, a division by zero or an arithmetic overflow (the last is a
    panic in a debug build and wraps in a release build; a method that never
    panics behaves alike in both). *)

Inductive outcome (E A : Type) : Type :=
  | Ret (a : A)
  | Throw (e : E)
  | Panic.
Arguments Ret {E A} a.
Arguments Throw {E A} e.
Arguments Panic {E A}.

#[global] Instance outcome_eq_dec `{EqDecision E} `{EqDecision A} :
  EqDecision (outcome E A).
Proof. solve_decision. Defined.

Definition stm (S E A : Type) : Type := S → S * outcome E A.

#[global] Instance stm_ret {S E} : MRet (stm S E) := λ A a s, (s, Ret a).
#[global] Instance stm_throw {S E} : MThrow E (stm S E) := λ A e s, (s, Throw e).
#[global] Instance stm_bind {S E} : MBind (stm S E) := λ A B f m s,
  match m s with
  | (s', Ret a) => f a s'
  | (s', Throw e) => (s', Throw e)
  | (s', Panic) => (s', Panic)
  end.

Definition st_get {S E} : stm S E S := λ s, (s, Ret s).
Definition st_gets {S E A} (f : S → A) : stm S E A := λ s, (s, Ret (f s)).
Definition st_put {S E} (s' : S) : stm S E unit := λ _, (s', Ret tt).
Definition st_modify {S E} (f : S → S) : stm S E unit := λ s, (f s, Ret tt).
Definition st_panic {S E A} : stm S E A := λ s, (s, Panic).
Definition st_lift {S E A} (r : result E A) : stm S E A := λ s,
  match r with
  | Ok a => (s, Ret a)
  | Err e => (s, Throw e)
  end.
(** [.expect(..)], indexing: [None] panics. *)
Definition st_expect {S E A} (o : option A) : stm S E A := λ s,
  match o with
  | Some a => (s, Ret a)
  | None => (s, Panic)
  end.
(** Run a method of a field of the object. *)
Definition st_zoom {S T E A} (get : S → T) (put : T → S → S) (m : stm T E A) :
    stm S E A := λ s,
  let '(t, r) := m (get s) in (put t s, r).
Definition outcome_map_err {E E' A} (f : E → E') (r : outcome E A) : outcome E' A :=
  match r with
  | Ret a => Ret a
  | Throw e => Throw (f e)
  | Panic => Panic
  end.
Definition st_map_err {S E E' A} (f : E → E') (m : stm S E A) : stm S E' A := λ s,
  let '(s', r) := m s in (s', outcome_map_err f r).
(** [.expect(..)] of a method's result: an error panics. *)
Definition st_unwrap {S E E' A} (m : stm S E A) : stm S E' A := λ s,
  match m s with
  | (s', Ret a) => (s', Ret a)
  | (s', Throw _) | (s', Panic) => (s', Panic)
  end.
(** [if !cond { return Err(e) }]. *)
Definition st_require {S E} (P : Prop) `{Decision P} (e : E) : stm S E unit := λ s,
  if decide P then (s, Ret tt) else (s, Throw e).

(** Weakest preconditions of methods: the post-condition sees the outcome and
    the object left behind. *)
Definition wp {S E A} (m : stm S E A) (Q : outcome E A → S → Prop) (s : S) : Prop :=
  Q (m s).2 (m s).1.

Section wp_rules.
Context {S E : Type}.

Lemma wp_mono {A} (m : stm S E A) (Q Q' : outcome E A → S → Prop) s :
  wp m Q s → (∀ r s', Q r s' → Q' r s') → wp m Q' s.
Proof. unfold wp. auto. Qed.
Lemma wp_ret {A} (a : A) Q s : Q (Ret a) s → wp (mret a : stm S E A) Q s.
Proof. done. Qed.
Lemma wp_throw {A} (e : E) (Q : outcome E A → S → Prop) s :
  Q (Throw e) s → wp (mthrow e) Q s.
Proof. done. Qed.
Lemma wp_panic {A} (Q : outcome E A → S → Prop) s : Q Panic s → wp st_panic Q s.
Proof. done. Qed.
Lemma wp_bind {A B} (m : stm S E A) (f : A → stm S E B) Q s :
  wp m (λ r s', match r with
                | Ret a => wp (f a) Q s'
                | Throw e => Q (Throw e) s'
                | Panic => Q Panic s'
                end) s →
  wp (m ≫= f) Q s.
Proof.
  unfold wp, mbind, stm_bind. by destruct (m s) as [s' [a|e|]].
Qed.
Lemma wp_get (Q : outcome E S → S → Prop) s : Q (Ret s) s → wp st_get Q s.
Proof. done. Qed.
Lemma wp_gets {A} (f : S → A) (Q : outcome E A → S → Prop) s :
  Q (Ret (f s)) s → wp (st_gets f) Q s.
Proof. done. Qed.
Lemma wp_put s' (Q : outcome E unit → S → Prop) s : Q (Ret tt) s' → wp (st_put s') Q s.
Proof. done. Qed.
Lemma wp_modify (f : S → S) (Q : outcome E unit → S → Prop) s :
  Q (Ret tt) (f s) → wp (st_modify f) Q s.
Proof. done. Qed.
Lemma wp_lift {A} (r : result E A) (Q : outcome E A → S → Prop) s :
  (∀ a, r = Ok a → Q (Ret a) s) → (∀ e, r = Err e → Q (Throw e) s) →
  wp (st_lift r) Q s.
Proof. unfold wp, st_lift. destruct r; naive_solver. Qed.
Lemma wp_expect {A} (o : option A) (Q : outcome E A → S → Prop) s :
  (∀ a, o = Some a → Q (Ret a) s) → (o = None → Q Panic s) →
  wp (st_expect o) Q s.
Proof. unfold wp, st_expect. destruct o; naive_solver. Qed.
Lemma wp_require (P : Prop) `{Decision P} (e : E) (Q : outcome E unit → S → Prop) s :
  (P → Q (Ret tt) s) → (¬ P → Q (Throw e) s) → wp (st_require P e) Q s.
Proof. intros ??. unfold wp, st_require. by case_decide; simpl; auto. Qed.
Lemma wp_zoom {T A} (g : S → T) (p : T → S → S) (m : stm T E A) Q s :
  wp m (λ r t, Q r (p t s)) (g s) → wp (st_zoom g p m) Q s.
Proof. unfold wp, st_zoom. by destruct (m (g s)). Qed.
Lemma wp_map_err {E' A} (f : E' → E) (m : stm S E' A) (Q : outcome E A → S → Prop) s :
  wp m (λ r s', Q (outcome_map_err f r) s') s → wp (st_map_err f m) Q s.
Proof. unfold wp, st_map_err. by destruct (m s). Qed.
End wp_rules.

(** Symbolic execution of a method: [wp_step] applies the rule of the first
    command, [wp_run] all of them, splitting on the tests the method makes. *)
Ltac wp_step :=
  lazymatch goal with
  | |- wp (mbind _ _) _ _ => apply wp_bind
  | |- wp (mret _) _ _ => apply wp_ret
  | |- wp (mthrow _) _ _ => apply wp_throw
  | |- wp st_panic _ _ => apply wp_panic
  | |- wp st_get _ _ => apply wp_get
  | |- wp (st_gets _) _ _ => apply wp_gets
  | |- wp (st_put _) _ _ => apply wp_put
  | |- wp (st_modify _) _ _ => apply wp_modify
  | |- wp (st_lift _) _ _ => apply wp_lift; intros ? ?
  | |- wp (st_expect _) _ _ => apply wp_expect; [intros ? ?|intros ?]
  | |- wp (st_require _ _) _ _ => apply wp_require; intros ?
  | |- wp (st_zoom _ _ _) _ _ => apply wp_zoom
  | |- wp (st_map_err _ _) _ _ => apply wp_map_err
  | |- wp (match ?x with _ => _ end) _ _ => destruct x eqn:?
  | |- match ?x with _ => _ end => progress simpl
  | |- (λ _ _, _) _ _ => progress cbn beta
  end.
Ltac wp_run := repeat (wp_step; cbn beta iota).

(** From a weakest precondition to what a run returns. *)
Lemma wp_elim {S E A} (m : stm S E A) Q s s' r :
  wp m Q s → m s = (s', r) → Q r s'.
Proof. unfold wp. intros H Heq. by rewrite Heq in H. Qed.
Lemma wp_pair {S E A} (m : stm S E A) (Q : S → outcome E A → Prop) s :
  wp m (λ r s', Q s' r) s → let '(s', r) := m s in Q s' r.
Proof. unfold wp. by destruct (m s). Qed.

(** ** Machine integers

    A [w]-bit integer is a [Z]; [in_ty t x] says it is a value of the type.
    [usize] is 64 bits wide. *)

Inductive int_ty : Set := U8 | U16 | U32 | U64 | U128 | I32 | I64 | I128.

Definition ty_min (t : int_ty) : Z :=
  match t with
  | U8 | U16 | U32 | U64 | U128 => 0
  | I32 => -2147483648
  | I64 => -9223372036854775808
  | I128 => -170141183460469231731687303715884105728
  end.
Definition ty_max (t : int_ty) : Z :=
  match t with
  | U8 => 255
  | U16 => 65535
  | U32 => 4294967295
  | U64 => 18446744073709551615
  | U128 => 340282366920938463463374607431768211455
  | I32 => 2147483647
  | I64 => 9223372036854775807
  | I128 => 170141183460469231731687303715884105727
  end.

Definition in_ty (t : int_ty) (x : Z) : Prop := ty_min t ≤ x ≤ ty_max t.
#[global] Instance in_ty_dec t x : Decision (in_ty t x).
Proof. unfold in_ty. apply _. Defined.

(** [checked_*] and [try_from]: the exact value if the type has it. *)
Definition checked (t : int_ty) (x : Z) : option Z :=
  if decide (in_ty t x) then Some x else None.
(** [saturating_*]. *)
Definition saturating (t : int_ty) (x : Z) : Z := Z.max (ty_min t) (Z.min (ty_max t) x).

Definition abs_diff (x y : Z) : Z := Z.abs (x - y).

Lemma checked_Some t x y : checked t x = Some y ↔ x = y ∧ in_ty t x.
Proof. unfold checked. case_decide; split; intros; destruct_and?; by simplify_eq. Qed.
Lemma checked_None t x : checked t x = None ↔ ¬ in_ty t x.
Proof. unfold checked. case_decide; split; intros; destruct_and?; by simplify_eq. Qed.
Lemma checked_in t x : in_ty t x → checked t x = Some x.
Proof. intros. by apply checked_Some. Qed.
Lemma saturating_in t x : ty_min t ≤ ty_max t → in_ty t (saturating t x).
Proof. unfold in_ty, saturating. lia. Qed.
Lemma saturating_id t x : in_ty t x → saturating t x = x.
Proof. unfold in_ty, saturating. lia. Qed.

(** [int_lia]: linear arithmetic over machine ranges. *)
Ltac int_lia := unfold in_ty in *; simpl in *; lia.

(** ** Strings

    A Rust [str] is its UTF-8 bytes; [len] is the number of bytes. *)

Definition byte_of (a : Ascii.ascii) : Z := Z.of_nat (Ascii.nat_of_ascii a).
Definition str_bytes (s : string) : list Z := byte_of <$> String.list_ascii_of_string s.
Definition str_len (s : string) : nat := String.length s.

(** [s.trim().is_empty()]: every character has the property [White_Space]:
    the bytes are a sequence of the UTF-8 encodings of U+0009..U+000D, U+0020,
    U+0085, U+00A0, U+1680, U+2000..U+200A, U+2028, U+2029, U+202F, U+205F and
    U+3000. *)
Fixpoint bytes_blank (l : list Z) : bool :=
  match l with
  | [] => true
  | a :: l1 =>
      if bool_decide (9 ≤ a ≤ 13 ∨ a = 32) then bytes_blank l1 else
      match l1 with
      | [] => false
      | b :: l2 =>
          if bool_decide (a = 194 ∧ (b = 133 ∨ b = 160)) then bytes_blank l2 else
          match l2 with
          | [] => false
          | c :: l3 =>
              bool_decide
                ((a = 225 ∧ b = 154 ∧ c = 128) ∨
                 (a = 226 ∧ b = 128 ∧ (128 ≤ c ≤ 138 ∨ c = 168 ∨ c = 169 ∨ c = 175)) ∨
                 (a = 226 ∧ b = 129 ∧ c = 159) ∨
                 (a = 227 ∧ b = 128 ∧ c = 128)) && bytes_blank l3
          end
      end
  end.
Definition str_blank (s : string) : bool := bytes_blank (str_bytes s).

(** ** Lists *)

(** The scan [for (index, x) in l.iter().enumerate() { if l[..index].contains(x)
    .. }]: the first element that occurs before itself. *)
Fixpoint first_repeat {A} `{EqDecision A} (seen l : list A) : option A :=
  match l with
  | [] => None
  | x :: l' => if decide (x ∈ seen) then Some x else first_repeat (seen ++ [x]) l'
  end.

Lemma first_repeat_None {A} `{EqDecision A} (seen l : list A) :
  NoDup seen → first_repeat seen l = None ↔ NoDup (seen ++ l).
Proof.
  revert seen. induction l as [|x l IH]; intros seen Hs; simpl.
  { by rewrite app_nil_r. }
  case_decide as Hx.
  - split; [done|]. intros (_&Hd&_)%NoDup_app.
    by destruct (Hd x Hx); left.
  - rewrite IH.
    { by rewrite <-(assoc_L (++)). }
    clear IH. apply NoDup_app. split_and!; [done| |apply NoDup_singleton].
    intros y Hy ->%list_elem_of_singleton. done.
Qed.
Lemma first_repeat_Some {A} `{EqDecision A} (seen l : list A) x :
  first_repeat seen l = Some x → x ∈ l.
Proof.
  revert seen. induction l as [|y l IH]; intros seen; simpl; [done|].
  case_decide; intros; simplify_eq; set_solver.
Qed.

(** A duplicate-free list as long as the one that holds all its elements is a
    permutation of it. *)
Lemma NoDup_length_Permutation {A} (l k : list A) :
  NoDup l → l ⊆ k → (length k ≤ length l)%nat → l ≡ₚ k.
Proof.
  intros Hl Hsub Hlen.
  destruct (submseteq_Permutation l k) as [k' Hk].
  { by apply NoDup_submseteq. }
  rewrite Hk in Hlen. rewrite length_app in Hlen.
  assert (k' = []) as -> by (apply nil_length_inv; lia).
  by rewrite Hk, app_nil_r.
Qed.

Lemma filter_none {A} (P : A → Prop) `{∀ x, Decision (P x)} (l : list A) :
  (∀ x, x ∈ l → ¬ P x) → filter P l = [].
Proof.
  induction l as [|x l IH]; intros Hl; [done|].
  rewrite filter_cons_False by (apply Hl; by left). apply IH. intros y Hy. apply Hl. by right.
Qed.
Lemma filter_all {A} (P : A → Prop) `{∀ x, Decision (P x)} (l : list A) :
  (∀ x, x ∈ l → P x) → filter P l = l.
Proof.
  induction l as [|x l IH]; intros Hl; [done|].
  rewrite filter_cons_True by (apply Hl; by left). f_equal. apply IH. intros y Hy. apply Hl. by right.
Qed.

Lemma list_filter_iff_elem {A} (P Q : A → Prop) `{∀ x, Decision (P x)} `{∀ x, Decision (Q x)}
    (l : list A) :
  (∀ x, x ∈ l → P x ↔ Q x) → filter P l = filter Q l.
Proof.
  induction l as [|x l IH]; intros Hl; [done|].
  rewrite !filter_cons, IH by (intros; apply Hl; by right).
  pose proof (Hl x (list_elem_of_here _ _)). repeat case_decide; naive_solver.
Qed.

(** Appending to a sorted list what follows its last element. *)
Lemma StronglySorted_snoc_last {A} (R : relation A) `{!Transitive R} (l : list A) (y : A) :
  StronglySorted R l → (∀ x, last l = Some x → R x y) → StronglySorted R (l ++ [y]).
Proof.
  intros Hl Hy. apply StronglySorted_app. split_and!; [|done|repeat constructor].
  intros x1 x2 Hx1 ->%list_elem_of_singleton.
  destruct l as [|z l _] using rev_ind; [by apply not_elem_of_nil in Hx1|].
  rewrite last_snoc in Hy. apply elem_of_app in Hx1 as [Hx1| ->%list_elem_of_singleton]; [|by apply Hy].
  apply StronglySorted_app in Hl as (Hl&_&_). etrans; [|by apply Hy].
  apply Hl; [done|by left].
Qed.
