(* ===== verification/BTree.v ===== *)
(** Ordered maps and sets: the [BTreeMap] and [BTreeSet] of Rust's standard
    library, as association lists kept in increasing key order, so that
    iteration, [range] and [pop_first] see the order the program sees.

    Keys carry a total order [key_cmp] ([OrdKey], [OrdKeyLaws]): integers,
    byte strings and lexicographic pairs.  Lookup laws hold of every list; the
    order of the keys ([bt_sorted]) is an invariant that [bt_insert] and
    [bt_remove] preserve. *)
From S2P Require Import Prelude.

(** ** Ordered keys *)

Class OrdKey (K : Type) := key_cmp : K → K → comparison.
Class OrdKeyLaws (K : Type) `{OrdKey K} := {
  key_cmp_eq : ∀ x y : K, key_cmp x y = Eq ↔ x = y;
  key_cmp_antisym : ∀ x y : K, key_cmp y x = CompOpp (key_cmp x y);
  key_cmp_trans : ∀ x y z : K, key_cmp x y = Lt → key_cmp y z = Lt → key_cmp x z = Lt
}.

Definition key_lt `{OrdKey K} (x y : K) : Prop := key_cmp x y = Lt.
Definition key_le `{OrdKey K} (x y : K) : Prop := key_cmp x y ≠ Gt.
#[global] Instance key_lt_dec `{OrdKey K} (x y : K) : Decision (key_lt x y).
Proof. unfold key_lt. solve_decision. Defined.
#[global] Instance key_le_dec `{OrdKey K} (x y : K) : Decision (key_le x y).
Proof. unfold key_le. apply _. Defined.

#[global] Instance Z_ord_key : OrdKey Z := Z.compare.
#[global] Instance Z_ord_key_laws : OrdKeyLaws Z.
Proof.
  split.
  - apply Z.compare_eq_iff.
  - intros x y. apply Z.compare_antisym.
  - unfold key_cmp, Z_ord_key. intros x y z. rewrite !Z.compare_lt_iff. lia.
Qed.

#[global] Instance string_ord_key : OrdKey string := String.compare.
Lemma ascii_compare_trans (a b c : Ascii.ascii) :
  Ascii.compare a b = Lt → Ascii.compare b c = Lt → Ascii.compare a c = Lt.
Proof. unfold Ascii.compare. rewrite !N.compare_lt_iff. lia. Qed.
Lemma ascii_compare_Eq (a b : Ascii.ascii) : Ascii.compare a b = Eq ↔ a = b.
Proof.
  split.
  - unfold Ascii.compare. intros H%N.compare_eq_iff.
    by rewrite <-(Ascii.ascii_N_embedding a), <-(Ascii.ascii_N_embedding b), H.
  - intros ->. unfold Ascii.compare. apply N.compare_refl.
Qed.
#[global] Instance string_ord_key_laws : OrdKeyLaws string.
Proof.
  split; unfold key_cmp, string_ord_key.
  - intros x y. split; [apply String.compare_eq_iff|]. intros <-.
    induction x as [|a x IH]; simpl; [done|].
    by rewrite (proj2 (ascii_compare_Eq a a)).
  - intros x y. apply String.compare_antisym.
  - intros x. induction x as [|a x IH]; intros [|b y] [|c z]; simpl; try done.
    destruct (Ascii.compare a b) eqn:Hab; try done.
    + apply ascii_compare_Eq in Hab as ->. intros ?.
      destruct (Ascii.compare b c) eqn:Hbc; try done. eauto.
    + intros _. destruct (Ascii.compare b c) eqn:Hbc; try done.
      * apply ascii_compare_Eq in Hbc as ->. by rewrite Hab.
      * by rewrite (ascii_compare_trans _ _ _ Hab Hbc).
Qed.

#[global] Instance prod_ord_key {K L} `{OrdKey K} `{OrdKey L} : OrdKey (K * L) := λ x y,
  match key_cmp x.1 y.1 with
  | Eq => key_cmp x.2 y.2
  | c => c
  end.
#[global] Instance prod_ord_key_laws {K L} `{OrdKeyLaws K} `{OrdKeyLaws L} :
  OrdKeyLaws (K * L).
Proof.
  assert (Hk : ∀ p q : K * L, key_cmp p q =
    match key_cmp p.1 q.1 with Eq => key_cmp p.2 q.2 | c => c end) by done.
  split; setoid_rewrite Hk.
  - intros [a b] [c d]; simpl. pose proof (key_cmp_eq a c) as Hac.
    pose proof (key_cmp_eq b d). destruct (key_cmp a c); naive_solver.
  - intros [a b] [c d]; simpl. rewrite (key_cmp_antisym a c).
    destruct (key_cmp a c); simpl; [|done..]. apply key_cmp_antisym.
  - intros [a b] [c d] [e f]; simpl.
    destruct (key_cmp a c) eqn:Hac; [|intros _|done].
    + apply key_cmp_eq in Hac as ->. intros ?.
      destruct (key_cmp c e); try done. by apply key_cmp_trans.
    + destruct (key_cmp c e) eqn:Hce; [intros _|intros _|done].
      * apply key_cmp_eq in Hce as ->. by rewrite Hac.
      * by rewrite (key_cmp_trans _ _ _ Hac Hce).
Qed.

Section order.
Context `{OrdKeyLaws K}.

Lemma key_cmp_refl (x : K) : key_cmp x x = Eq.
Proof. by apply key_cmp_eq. Qed.
Lemma key_lt_irrefl (x : K) : ¬ key_lt x x.
Proof. unfold key_lt. by rewrite key_cmp_refl. Qed.
Lemma key_lt_trans (x y z : K) : key_lt x y → key_lt y z → key_lt x z.
Proof. apply key_cmp_trans. Qed.
Lemma key_gt_lt (x y : K) : key_cmp x y = Gt ↔ key_lt y x.
Proof. unfold key_lt. rewrite (key_cmp_antisym x y). by destruct (key_cmp x y). Qed.
Lemma key_le_lteq (x y : K) : key_le x y ↔ key_lt x y ∨ x = y.
Proof.
  unfold key_le, key_lt. rewrite <-(key_cmp_eq x y). destruct (key_cmp x y); naive_solver.
Qed.
Lemma key_not_le (x y : K) : ¬ key_le x y ↔ key_lt y x.
Proof. unfold key_le. rewrite <-key_gt_lt. destruct (key_cmp x y); naive_solver. Qed.
Lemma key_le_trans (x y z : K) : key_le x y → key_le y z → key_le x z.
Proof. rewrite !key_le_lteq. intros [?| ->] [?| ->]; eauto using key_lt_trans. Qed.
Lemma key_lt_le_trans (x y z : K) : key_lt x y → key_le y z → key_lt x z.
Proof. rewrite !key_le_lteq. intros ? [?| ->]; eauto using key_lt_trans. Qed.
#[global] Instance key_le_transitive : Transitive (key_le (K := K)).
Proof. exact key_le_trans. Qed.
#[global] Instance key_le_total : Total (key_le (K := K)).
Proof.
  intros x y. rewrite !key_le_lteq. unfold key_lt. rewrite (key_cmp_antisym x y).
  destruct (key_cmp x y) eqn:Hxy; simpl; [|by auto..]. left. right. by apply key_cmp_eq.
Qed.
End order.

(** An order derived through an injective rank. *)
Lemma ord_key_laws_via {A K} `{OrdKey A} `{OrdKeyLaws K} (f : A → K) :
  (∀ x y, f x = f y → x = y) → (∀ x y, key_cmp x y = key_cmp (f x) (f y)) → OrdKeyLaws A.
Proof.
  intros Hinj Hk. split; setoid_rewrite Hk.
  - intros x y. rewrite key_cmp_eq. split; [apply Hinj|by intros ->].
  - intros x y. apply key_cmp_antisym.
  - intros x y z. apply key_cmp_trans.
Qed.

(** ** Maps *)

Abbreviation btmap K V := (list (K * V)).

Fixpoint bt_get `{EqDecision K} {V} (k : K) (m : btmap K V) : option V :=
  match m with
  | [] => None
  | (k', v) :: m' => if decide (k = k') then Some v else bt_get k m'
  end.
Definition bt_contains `{EqDecision K} {V} (k : K) (m : btmap K V) : bool :=
  bool_decide (is_Some (bt_get k m)).
(** [insert]; the value it returns is [bt_get k m]. *)
Fixpoint bt_insert `{OrdKey K} {V} (k : K) (v : V) (m : btmap K V) : btmap K V :=
  match m with
  | [] => [(k, v)]
  | (k', v') :: m' =>
      match key_cmp k k' with
      | Lt => (k, v) :: (k', v') :: m'
      | Eq => (k, v) :: m'
      | Gt => (k', v') :: bt_insert k v m'
      end
  end.
Definition bt_remove `{EqDecision K} {V} (k : K) (m : btmap K V) : btmap K V :=
  filter (λ p, p.1 ≠ k) m.
Definition bt_keys {K V} (m : btmap K V) : list K := m.*1.
Definition bt_values {K V} (m : btmap K V) : list V := m.*2.
(** [range(..=k)]. *)
Definition bt_range_le `{OrdKey K} {V} (k : K) (m : btmap K V) : btmap K V :=
  filter (λ p, key_le p.1 k) m.
(** Collecting an iterator of pairs: later entries replace earlier ones. *)
Definition bt_of_list `{OrdKey K} {V} (l : list (K * V)) : btmap K V :=
  foldl (λ m p, bt_insert p.1 p.2 m) [] l.

Definition bt_sorted `{OrdKey K} {V} (m : btmap K V) : Prop :=
  StronglySorted key_lt (bt_keys m).

Section map_lookup.
Context `{OrdKeyLaws K} `{EqDecision K} {V : Type}.
Implicit Types (m : btmap K V) (k : K) (v : V).

Lemma bt_get_insert k k' v m :
  bt_get k' (bt_insert k v m) = if decide (k = k') then Some v else bt_get k' m.
Proof.
  induction m as [|[k0 v0] m IH]; simpl.
  { by repeat case_decide; subst. }
  destruct (key_cmp k k0) eqn:Hk; simpl.
  - apply key_cmp_eq in Hk as ->. by repeat case_decide; subst.
  - by repeat case_decide; subst.
  - rewrite IH. repeat case_decide; subst; try done.
    by rewrite key_cmp_refl in Hk.
Qed.
Lemma bt_get_insert_eq k v m : bt_get k (bt_insert k v m) = Some v.
Proof. rewrite bt_get_insert. by case_decide. Qed.
Lemma bt_get_insert_ne k k' v m : k ≠ k' → bt_get k' (bt_insert k v m) = bt_get k' m.
Proof. rewrite bt_get_insert. by case_decide. Qed.

Lemma bt_get_remove k k' m :
  bt_get k' (bt_remove k m) = if decide (k = k') then None else bt_get k' m.
Proof.
  unfold bt_remove. induction m as [|[k0 v0] m IH]; simpl.
  { by case_decide. }
  destruct (decide (k0 = k)) as [->|Hk].
  - rewrite filter_cons_False by (simpl; congruence). rewrite IH.
    repeat case_decide; congruence.
  - rewrite filter_cons_True by done. simpl. rewrite IH.
    repeat case_decide; congruence.
Qed.
Lemma bt_get_remove_eq k m : bt_get k (bt_remove k m) = None.
Proof. rewrite bt_get_remove. by case_decide. Qed.
Lemma bt_get_remove_ne k k' m : k ≠ k' → bt_get k' (bt_remove k m) = bt_get k' m.
Proof. rewrite bt_get_remove. by case_decide. Qed.

Lemma bt_get_elem k v m : bt_get k m = Some v → (k, v) ∈ m.
Proof.
  induction m as [|[k0 v0] m IH]; simpl; [done|].
  case_decide; intros; simplify_eq; [by left|right; auto].
Qed.
Lemma bt_get_None k m : bt_get k m = None ↔ k ∉ bt_keys m.
Proof.
  unfold bt_keys. induction m as [|[k0 v0] m IH]; simpl.
  { split; [intros _; apply not_elem_of_nil|done]. }
  rewrite not_elem_of_cons. case_decide; naive_solver.
Qed.
Lemma bt_get_is_Some k m : is_Some (bt_get k m) ↔ k ∈ bt_keys m.
Proof.
  rewrite <-not_eq_None_Some, bt_get_None. destruct (decide (k ∈ bt_keys m)); naive_solver.
Qed.
End map_lookup.

Section map_order.
Context `{OrdKeyLaws K} `{EqDecision K} {V : Type}.
Implicit Types (m : btmap K V) (k : K) (v : V).

Lemma StronglySorted_key_NoDup (l : list K) : StronglySorted key_lt l → NoDup l.
Proof.
  induction 1 as [|x l Hl IH Hx]; constructor; [|done].
  intros Hin. rewrite Forall_forall in Hx. by apply (key_lt_irrefl x), Hx.
Qed.
Lemma bt_sorted_NoDup m : bt_sorted m → NoDup (bt_keys m).
Proof. apply StronglySorted_key_NoDup. Qed.
Lemma bt_sorted_nil : bt_sorted ([] : btmap K V).
Proof. constructor. Qed.

Lemma bt_elem_get k v m : bt_sorted m → (k, v) ∈ m → bt_get k m = Some v.
Proof.
  intros Hs%bt_sorted_NoDup. unfold bt_keys in Hs.
  induction m as [|[k0 v0] m IH]; simpl in *; [by intros ?%not_elem_of_nil|].
  apply NoDup_cons in Hs as [Hk Hs].
  intros [[= <- <-]|Hin]%elem_of_cons; [by rewrite decide_True|].
  rewrite decide_False; [by apply IH|].
  intros ->. apply Hk, list_elem_of_fmap. by exists (k0, v).
Qed.
Lemma bt_get_Some k v m : bt_sorted m → bt_get k m = Some v ↔ (k, v) ∈ m.
Proof. intros. split; [apply bt_get_elem|by apply bt_elem_get]. Qed.

Lemma bt_keys_insert k v m k' :
  k' ∈ bt_keys (bt_insert k v m) ↔ k' = k ∨ k' ∈ bt_keys m.
Proof.
  rewrite <-!bt_get_is_Some, bt_get_insert. case_decide; [|naive_solver].
  subst. split; [by left|by eexists].
Qed.
Lemma bt_keys_remove k m k' : k' ∈ bt_keys (bt_remove k m) ↔ k' ≠ k ∧ k' ∈ bt_keys m.
Proof.
  rewrite <-!bt_get_is_Some, bt_get_remove. case_decide; [|naive_solver].
  subst. split; [by intros [??]|naive_solver].
Qed.

Lemma bt_sorted_cons k v m :
  bt_sorted ((k, v) :: m) ↔ bt_sorted m ∧ ∀ p, p ∈ m → key_lt k p.1.
Proof.
  unfold bt_sorted, bt_keys. rewrite fmap_cons. split.
  - intros [? Hk]%StronglySorted_inv. split; [done|].
    rewrite Forall_forall in Hk. intros p Hp.
    apply Hk. by apply (list_elem_of_fmap_2 fst).
  - intros [? Hk]. constructor; [done|].
    rewrite Forall_forall. by intros ? (p&->&?)%list_elem_of_fmap; apply Hk.
Qed.
Lemma bt_insert_sorted k v m : bt_sorted m → bt_sorted (bt_insert k v m).
Proof.
  induction m as [|[k0 v0] m IH]; simpl; intros Hs.
  { by apply bt_sorted_cons; split; [|intros ? ?%not_elem_of_nil]. }
  pose proof Hs as [Hs' Hk0]%bt_sorted_cons.
  destruct (key_cmp k k0) eqn:Hk.
  - apply key_cmp_eq in Hk as ->. by apply bt_sorted_cons.
  - apply bt_sorted_cons. split; [done|].
    intros p [->|Hp]%elem_of_cons; [done|]. apply key_lt_trans with k0; [done|by apply Hk0].
  - apply bt_sorted_cons. split; [by apply IH|]. intros [k' v'] Hp.
    assert (k' ∈ bt_keys (bt_insert k v m)) as [->|Hin]%bt_keys_insert.
    { apply list_elem_of_fmap. by exists (k', v'). }
    + by apply key_gt_lt.
    + apply list_elem_of_fmap in Hin as ([? v1]&->&Hin). by apply (Hk0 (_, v1)).
Qed.
Lemma bt_filter_sorted (P : K * V → Prop) `{∀ p, Decision (P p)} m :
  bt_sorted m → bt_sorted (filter P m).
Proof.
  induction m as [|[k0 v0] m IH]; intros Hs; [done|].
  apply bt_sorted_cons in Hs as [Hs Hk0]. rewrite filter_cons.
  case_decide; [|by apply IH]. apply bt_sorted_cons. split; [by apply IH|].
  intros p [_ Hp]%list_elem_of_filter. by apply Hk0.
Qed.
Lemma bt_remove_sorted k m : bt_sorted m → bt_sorted (bt_remove k m).
Proof. apply bt_filter_sorted. Qed.
Lemma bt_range_le_sorted k m : bt_sorted m → bt_sorted (bt_range_le k m).
Proof. apply bt_filter_sorted. Qed.
Lemma elem_of_bt_range_le k p m : p ∈ bt_range_le k m ↔ key_le p.1 k ∧ p ∈ m.
Proof. unfold bt_range_le. by rewrite list_elem_of_filter. Qed.
Lemma bt_of_list_sorted (l : list (K * V)) : bt_sorted (bt_of_list l).
Proof.
  unfold bt_of_list. generalize (bt_sorted_nil). generalize (@nil (K * V)).
  induction l as [|[k v] l IH]; intros m Hm; simpl; [done|].
  by apply IH, bt_insert_sorted.
Qed.

(** The entries above [k]. *)
Definition bt_range_gt k m : btmap K V := filter (λ p, ¬ key_le p.1 k) m.

Lemma bt_range_split k m : bt_sorted m → m = bt_range_le k m ++ bt_range_gt k m.
Proof.
  unfold bt_range_le, bt_range_gt. induction m as [|p m IH]; intros Hs; [done|].
  destruct p as [k0 v0]. apply bt_sorted_cons in Hs as [Hs Hk0]. rewrite !filter_cons; simpl.
  destruct (decide (key_le k0 k)) as [Hle|Hgt].
  - rewrite (decide_False (P := ¬ _)) by naive_solver. simpl. by rewrite <-IH.
  - rewrite decide_True by done.
    assert (filter (λ p, key_le p.1 k) m = []) as ->.
    { apply filter_none. intros p Hp Hle. apply Hgt. apply key_le_lteq. left.
      eapply key_lt_le_trans; [by apply Hk0|done]. }
    simpl. f_equal. symmetry. apply filter_all.
    intros p Hp Hle. apply Hgt, key_le_lteq. left.
    eapply key_lt_le_trans; [by apply Hk0|done].
Qed.
Lemma elem_of_bt_range_gt k p m : p ∈ bt_range_gt k m ↔ key_lt k p.1 ∧ p ∈ m.
Proof. unfold bt_range_gt. by rewrite list_elem_of_filter, key_not_le. Qed.
(** Where a fresh key goes. *)
Lemma bt_insert_split k v m :
  bt_sorted m → bt_get k m = None →
  bt_insert k v m = bt_range_le k m ++ (k, v) :: bt_range_gt k m.
Proof.
  unfold bt_range_le, bt_range_gt. induction m as [|p m IH]; intros Hs; [done|].
  destruct p as [k0 v0]. pose proof Hs as [Hs' Hk0]%bt_sorted_cons. simpl.
  case_decide as Hne; [done|]. intros Hg.
  rewrite !filter_cons; simpl. destruct (key_cmp k k0) eqn:Hk.
  - by apply key_cmp_eq in Hk.
  - assert (Hnot : ∀ p, p ∈ (k0, v0) :: m → ¬ key_le p.1 k).
    { intros p [->|Hp]%elem_of_cons; simpl; apply key_not_le; [done|].
      apply key_lt_trans with k0; [done|by apply Hk0]. }
    rewrite decide_False by (apply (Hnot (k0, v0)); by left).
    rewrite decide_True by (apply (Hnot (k0, v0)); by left).
    assert (filter (λ p, key_le p.1 k) m = []) as ->.
    { apply filter_none. intros p Hp. apply Hnot. by right. }
    simpl. do 2 f_equal. symmetry. apply filter_all.
    intros p Hp. apply Hnot. by right.
  - apply key_gt_lt in Hk. assert (key_le k0 k) by (apply key_le_lteq; by left).
    rewrite decide_True by done. rewrite decide_False by naive_solver.
    simpl. by rewrite IH.
Qed.

Lemma bt_length_insert_fresh k v m :
  bt_get k m = None → length (bt_insert k v m) = S (length m).
Proof.
  induction m as [|[k0 v0] m IH]; simpl; [done|]. case_decide; [done|]. intros Hg.
  destruct (key_cmp k k0) eqn:Hk; simpl; [|done|by rewrite IH].
  by apply key_cmp_eq in Hk.
Qed.

(** [for v in m.values_mut() { .. }]. *)
Definition bt_map (f : V → V) m : btmap K V := (λ p, (p.1, f p.2)) <$> m.
Lemma bt_get_map f k m : bt_get k (bt_map f m) = f <$> bt_get k m.
Proof. induction m as [|[k0 v0] m IH]; simpl; [done|]. by case_decide. Qed.
Lemma bt_map_sorted f m : bt_sorted m → bt_sorted (bt_map f m).
Proof.
  unfold bt_sorted, bt_keys, bt_map. by rewrite <-list_fmap_compose.
Qed.
Lemma bt_elem_values v m : bt_sorted m → v ∈ bt_values m ↔ ∃ k, bt_get k m = Some v.
Proof.
  intros Hs. unfold bt_values. rewrite list_elem_of_fmap. split.
  - intros ([k w]&->&Hw). exists k. by apply bt_elem_get.
  - intros [k Hk%bt_get_elem]. by exists (k, v).
Qed.

(** Two increasing association lists with the same lookups are equal. *)
Lemma bt_ext m1 m2 :
  bt_sorted m1 → bt_sorted m2 → (∀ k, bt_get k m1 = bt_get k m2) → m1 = m2.
Proof.
  revert m2. induction m1 as [|[k1 v1] m1 IH]; intros [|[k2 v2] m2] Hs1 Hs2 Hg.
  - done.
  - specialize (Hg k2). simpl in Hg. by rewrite decide_True in Hg.
  - specialize (Hg k1). simpl in Hg. by rewrite decide_True in Hg.
  - assert (Hin : ∀ p, p ∈ (k1, v1) :: m1 ↔ p ∈ (k2, v2) :: m2).
    { intros [k v]. by rewrite <-!bt_get_Some, Hg. }
    pose proof Hs1 as [Hs1' Hk1]%bt_sorted_cons.
    pose proof Hs2 as [Hs2' Hk2]%bt_sorted_cons.
    assert ((k1, v1) = (k2, v2)) as [= -> ->].
    { pose proof (proj1 (Hin (k1, v1)) ltac:(left)) as [?|H1]%elem_of_cons; [done|].
      pose proof (proj2 (Hin (k2, v2)) ltac:(left)) as [?|H2]%elem_of_cons; [done|].
      apply Hk2 in H1. apply Hk1 in H2. simpl in *.
      destruct (key_lt_irrefl k1). by apply key_lt_trans with k2. }
    f_equal. apply IH; [done..|]. intros k. specialize (Hg k). simpl in Hg.
    case_decide as Hk; [|done]. subst.
    transitivity (@None V); [|symmetry]; apply bt_get_None; unfold bt_keys;
      intros [[k' v] [-> Hv]]%list_elem_of_fmap.
    + by apply Hk1, key_lt_irrefl in Hv.
    + by apply Hk2, key_lt_irrefl in Hv.
Qed.
End map_order.

(** ** Sets *)

Abbreviation btset K := (list K).

(** [insert]; it returns whether the element was new. *)
Fixpoint bs_insert `{OrdKey K} (k : K) (s : btset K) : btset K :=
  match s with
  | [] => [k]
  | k' :: s' =>
      match key_cmp k k' with
      | Lt => k :: k' :: s'
      | Eq => k' :: s'
      | Gt => k' :: bs_insert k s'
      end
  end.
Definition bs_sorted `{OrdKey K} (s : btset K) : Prop := StronglySorted key_lt s.
Definition bs_of_list `{OrdKey K} (l : list K) : btset K :=
  foldl (λ s k, bs_insert k s) [] l.

Section sets.
Context `{OrdKeyLaws K} `{EqDecision K}.
Implicit Types (s : btset K) (k : K).

Lemma elem_of_bs_insert k s x : x ∈ bs_insert k s ↔ x = k ∨ x ∈ s.
Proof.
  induction s as [|k' s IH]; simpl; [set_solver|].
  destruct (key_cmp k k') eqn:Hk; rewrite ?elem_of_cons, ?IH; [|naive_solver..].
  apply key_cmp_eq in Hk as ->. naive_solver.
Qed.
Lemma bs_insert_sorted k s : bs_sorted s → bs_sorted (bs_insert k s).
Proof.
  unfold bs_sorted. induction s as [|k' s IH]; simpl; intros Hs; [repeat constructor|].
  apply StronglySorted_inv in Hs as [Hs Hk'].
  destruct (key_cmp k k') eqn:Hk; simpl.
  - by constructor.
  - repeat (constructor; try done).
    eapply Forall_impl; [exact Hk'|]. simpl. intros ?. by apply key_lt_trans.
  - constructor; [by apply IH|]. apply Forall_forall. intros x Hx.
    apply elem_of_bs_insert in Hx as [->|Hx]; [by apply key_gt_lt|].
    rewrite Forall_forall in Hk'. by apply Hk'.
Qed.
Lemma bs_insert_NoDup k s : bs_sorted s → NoDup (bs_insert k s).
Proof. intros. by apply StronglySorted_key_NoDup, bs_insert_sorted. Qed.
End sets.

Lemma elem_of_bs_of_list `{OrdKeyLaws K} (l : list K) x : x ∈ bs_of_list l ↔ x ∈ l.
Proof.
  unfold bs_of_list. assert (∀ s, x ∈ foldl (λ s k, bs_insert k s) s l ↔ x ∈ s ∨ x ∈ l) as ->; [|set_solver].
  induction l as [|k l IH]; intros s; simpl; [set_solver|].
  rewrite IH, elem_of_bs_insert, elem_of_cons. tauto.
Qed.
Lemma bs_of_list_sorted `{OrdKeyLaws A} (l : list A) : bs_sorted (bs_of_list l).
Proof.
  unfold bs_of_list. assert (bs_sorted ([] : btset A)) as Hs by constructor. revert Hs.
  generalize ([] : btset A). induction l as [|x l IH]; intros s Hs; simpl; [done|].
  by apply IH, bs_insert_sorted.
Qed.

Create HintDb btree discriminated.
#[export] Hint Resolve bt_sorted_nil bt_insert_sorted bt_remove_sorted bt_range_le_sorted
  bs_insert_sorted bs_of_list_sorted : btree.
