(* ===== verification/Text.v ===== *)
(** Text: the operations of Rust's [str] and [String] that the wire format uses, on
    byte strings.  Splitting and joining at a separator, decimal integers as
    [to_string] writes and [parse] reads them, and the validity of UTF-8, with the
    laws that make what was written readable ([split_concat], [parse_pretty]). *)
From S2P Require Import Prelude.
From Stdlib Require Import Ascii.
From stdpp Require Import pretty.
#[local] Open Scope Z_scope.

(** ** Characters that do not occur *)

Fixpoint lacks (c : Ascii.ascii) (s : string) : bool :=
  match s with
  | EmptyString => true
  | String d s => bool_decide (d ≠ c) && lacks c s
  end.
Lemma lacks_app c s t : lacks c (s +:+ t) = lacks c s && lacks c t.
Proof. induction s as [|d s IH]; [done|]. simpl. by rewrite IH, andb_assoc. Qed.
(** A separator that the first part lacks splits a string in one way, and so does one
    that the last part lacks. *)
Lemma split_first c a b x y :
  lacks c a = true → lacks c b = true → a +:+ String c x = b +:+ String c y → a = b ∧ x = y.
Proof.
  revert b. induction a as [|d a IH]; intros [|e b]; simpl; intros Ha Hb Heq; simplify_eq; try done.
  - by rewrite bool_decide_eq_false_2 in Hb by auto.
  - by rewrite bool_decide_eq_false_2 in Ha by auto.
  - apply andb_true_iff in Ha as [_ Ha], Hb as [_ Hb]. by destruct (IH b Ha Hb) as [-> ->].
Qed.
Lemma split_last c a b x y :
  lacks c x = true → lacks c y = true → a +:+ String c x = b +:+ String c y → a = b ∧ x = y.
Proof.
  revert b. induction a as [|d a IH]; intros [|e b]; simpl; intros Hx Hy Heq; simplify_eq; try done.
  - rewrite lacks_app in Hx. simpl in Hx. rewrite bool_decide_eq_false_2 in Hx by auto.
    by rewrite andb_false_r in Hx.
  - rewrite lacks_app in Hy. simpl in Hy. rewrite bool_decide_eq_false_2 in Hy by auto.
    by rewrite andb_false_r in Hy.
  - by destruct (IH b Hx Hy) as [-> ->].
Qed.
Lemma app_inj_first s x y : s +:+ x = s +:+ y → x = y.
Proof. induction s as [|c s IH]; [done|]. intros [= Heq]. by apply IH. Qed.
Lemma string_app_nil_r s : s +:+ "" = s.
Proof. induction s as [|c s IH]; [done|]. exact (f_equal (String c) IH). Qed.
Lemma string_app_assoc s t u : s +:+ (t +:+ u) = (s +:+ t) +:+ u.
Proof. induction s as [|c s IH]; [done|]. exact (f_equal (String c) IH). Qed.
Lemma str_len_app s t : str_len (s +:+ t) = (str_len s + str_len t)%nat.
Proof. unfold str_len. induction s as [|c s IH]; [done|]. exact (f_equal S IH). Qed.

(** ** Case *)

(** [to_ascii_lowercase]. *)
Definition ascii_lower (a : Ascii.ascii) : Ascii.ascii :=
  let n := byte_of a in
  if decide (65 ≤ n ≤ 90) then Ascii.ascii_of_nat (Z.to_nat (n + 32)) else a.
Fixpoint to_ascii_lowercase (s : string) : string :=
  match s with
  | EmptyString => EmptyString
  | String a s => String (ascii_lower a) (to_ascii_lowercase s)
  end.

(** ** Splitting *)

(** [s.split(c)]. *)
Fixpoint str_split (c : Ascii.ascii) (s : string) : list string :=
  match s with
  | EmptyString => [""]
  | String d s =>
      if decide (d = c) then "" :: str_split c s
      else match str_split c s with
           | [] => [String d ""]
           | piece :: rest => String d piece :: rest
           end
  end.
(** [s.split_once(c)]. *)
Fixpoint str_split_once (c : Ascii.ascii) (s : string) : option (string * string) :=
  match s with
  | EmptyString => None
  | String d s =>
      if decide (d = c) then Some ("", s)
      else '(a, b) ← str_split_once c s; Some (String d a, b)
  end.
(** [l.join(c)]. *)
Definition str_join (c : Ascii.ascii) (l : list string) : string := String.concat (String c "") l.

Lemma split_app c a s : lacks c a = true → str_split c (a +:+ String c s) = a :: str_split c s.
Proof.
  induction a as [|d a IH]; simpl.
  - by rewrite decide_True.
  - intros [Hd%bool_decide_eq_true Ha]%andb_true_iff. by rewrite decide_False, IH.
Qed.
Lemma split_none c a : lacks c a = true → str_split c a = [a].
Proof.
  induction a as [|d a IH]; simpl; [done|].
  intros [Hd%bool_decide_eq_true Ha]%andb_true_iff. by rewrite decide_False, IH.
Qed.
Lemma join_cons c x l : l ≠ [] → str_join c (x :: l) = x +:+ String c (str_join c l).
Proof. by destruct l. Qed.
Lemma split_join c l : l ≠ [] → Forall (λ s, lacks c s = true) l → str_split c (str_join c l) = l.
Proof.
  induction l as [|x [|y l] IH]; intros Hne Hl; [done| |].
  - apply Forall_cons in Hl as [Hx _]. by apply split_none.
  - apply Forall_cons in Hl as [Hx Hl]. rewrite join_cons by done. rewrite split_app by done.
    by rewrite IH.
Qed.
Lemma split_once_app c a s : lacks c a = true → str_split_once c (a +:+ String c s) = Some (a, s).
Proof.
  induction a as [|d a IH]; simpl.
  - by rewrite decide_True.
  - intros [Hd%bool_decide_eq_true Ha]%andb_true_iff. by rewrite decide_False, IH.
Qed.
Lemma lacks_join c d l :
  lacks c (String d "") = true → Forall (λ s, lacks c s = true) l → lacks c (str_join d l) = true.
Proof.
  intros Hd. induction l as [|x [|y l] IH]; intros Hl; [done| |].
  - by apply Forall_cons in Hl as [Hx _].
  - apply Forall_cons in Hl as [Hx Hl]. rewrite join_cons by done.
    rewrite lacks_app, Hx. change (String d (str_join d (y :: l))) with (String d "" +:+ str_join d (y :: l)).
    rewrite lacks_app, Hd. by apply IH.
Qed.
Lemma join_nonempty c x l : x ≠ "" → str_join c (x :: l) ≠ "".
Proof. intros Hx. destruct l as [|y l]; [done|]. rewrite join_cons by done. by destruct x. Qed.

(** ** Decimal integers *)

Definition digits : list Ascii.ascii := ["0";"1";"2";"3";"4";"5";"6";"7";"8";"9";"-"]%char.
Lemma pretty_char_lacks c n : c ∉ digits → pretty_N_char n ≠ c.
Proof. intros Hc Heq. apply Hc. subst. unfold pretty_N_char, digits. repeat case_match; set_solver. Qed.
Lemma pretty_N_lacks c (n : N) : c ∉ digits → lacks c (pretty n) = true.
Proof.
  intros Hc. cut (∀ s, lacks c s = true → lacks c (pretty_N_go n s) = true).
  { intros Hgo. unfold pretty, pretty_N. case_decide; [|by apply Hgo]. simpl.
    rewrite bool_decide_eq_true_2; [done|]. intros <-. by apply Hc; left. }
  induction (N.lt_wf_0 n) as [n _ IH]. intros s Hs. destruct (decide (0 < n)%N) as [Hn|Hn].
  - rewrite pretty_N_go_step by done. apply IH; [apply N.div_lt; lia|]. simpl.
    rewrite bool_decide_eq_true_2; [done|]. by apply pretty_char_lacks.
  - assert (n = 0%N) as -> by lia. by rewrite pretty_N_go_0.
Qed.
Lemma pretty_nat_lacks c (n : nat) : c ∉ digits → lacks c (pretty n) = true.
Proof. intros Hc. by apply (pretty_N_lacks c (N.of_nat n)). Qed.
Lemma pretty_Z_lacks c (z : Z) : c ∉ digits → lacks c (pretty z) = true.
Proof.
  intros Hc. destruct z as [|p|p].
  - by apply (pretty_N_lacks c 0).
  - by apply (pretty_N_lacks c (Npos p)).
  - change (pretty (Zneg p)) with ("-" +:+ pretty (Npos p)). rewrite lacks_app, pretty_N_lacks by done.
    simpl. rewrite bool_decide_eq_true_2; [done|]. intros <-. apply Hc. unfold digits. set_solver.
Qed.

(** The value of a decimal digit. *)
Definition digit_value (c : Ascii.ascii) : option Z :=
  let n := byte_of c in if decide (48 ≤ n ∧ n ≤ 57) then Some (n - 48) else None.
Fixpoint digits_value (acc : Z) (s : string) : option Z :=
  match s with
  | EmptyString => Some acc
  | String c s => d ← digit_value c; digits_value (acc * 10 + d) s
  end.
Definition is_signed (t : int_ty) : bool :=
  match t with
  | I32 | I64 | I128 => true
  | _ => false
  end.
(** [s.parse::<t>().ok()]: an optional sign, at least one digit, no overflow. *)
Definition parse_int (t : int_ty) (s : string) : option Z :=
  match s with
  | EmptyString => None
  | String "+" rest =>
      if decide (rest = "") then None else digits_value 0 rest ≫= checked t
  | String "-" rest =>
      if decide (rest = "" ∨ is_signed t = false) then None
      else v ← digits_value 0 rest; checked t (- v)
  | _ => digits_value 0 s ≫= checked t
  end.

Lemma digit_value_pretty n : (n < 10)%N → digit_value (pretty_N_char n) = Some (Z.of_N n).
Proof.
  intros Hn. assert (Hc : (n = 0 ∨ n = 1 ∨ n = 2 ∨ n = 3 ∨ n = 4 ∨ n = 5 ∨ n = 6 ∨ n = 7 ∨ n = 8 ∨ n = 9)%N) by lia.
  repeat (destruct Hc as [->|Hc]; [done|]). by subst.
Qed.
Lemma digits_value_go n s : digits_value 0 (pretty_N_go n s) = digits_value (Z.of_N n) s.
Proof.
  revert s. induction (N.lt_wf_0 n) as [n _ IH]. intros s. destruct (decide (0 < n)%N) as [Hn|Hn].
  - rewrite pretty_N_go_step, IH by (done || (apply N.div_lt; lia)). cbn [digits_value].
    rewrite digit_value_pretty by (apply N.mod_lt; lia). simpl. f_equal.
    pose proof (N.div_mod n 10 ltac:(lia)). lia.
  - assert (n = 0%N) as -> by lia. by rewrite pretty_N_go_0.
Qed.
Lemma digits_value_pretty (n : N) : digits_value 0 (pretty n) = Some (Z.of_N n).
Proof.
  unfold pretty, pretty_N. case_decide as Hn; [by subst|]. by rewrite digits_value_go.
Qed.
(** The first character of a numeral is a digit. *)
Lemma pretty_N_head (n : N) : ∃ c s, pretty n = String c s ∧ is_Some (digit_value c).
Proof.
  pose proof (digits_value_pretty n) as Hv. destruct (pretty n) as [|c s] eqn:Hp.
  - assert (n = 0%N) as ->; [|done]. simpl in Hv. injection Hv as Hv. lia.
  - exists c, s. split; [done|]. simpl in Hv. destruct (digit_value c); [by eexists|done].
Qed.
Lemma parse_unsigned t (n : N) : in_ty t (Z.of_N n) → parse_int t (pretty n) = Some (Z.of_N n).
Proof.
  intros Ht. destruct (pretty_N_head n) as (c&s&Hp&Hc). pose proof (digits_value_pretty n) as Hv.
  assert (Hch : (digits_value 0 (pretty n) ≫= checked t) = Some (Z.of_N n)).
  { rewrite Hv. simpl. by apply checked_Some. }
  rewrite Hp in *. unfold parse_int.
  assert (Hplus : c ≠ "+"%char) by (intros ->; by destruct Hc).
  assert (Hminus : c ≠ "-"%char) by (intros ->; by destruct Hc).
  destruct c as [[] [] [] [] [] [] [] []]; try done.
Qed.
(** What [to_string] writes, [parse] reads. *)
Lemma parse_pretty t z : in_ty t z → parse_int t (pretty z) = Some z.
Proof.
  intros Ht. destruct z as [|p|p].
  - by apply (parse_unsigned t 0).
  - by apply (parse_unsigned t (Npos p)).
  - change (pretty (Zneg p)) with ("-" +:+ pretty (Npos p)). change (Zneg p) with (- Z.of_N (Npos p)) in *.
    remember (Npos p) as n eqn:Hn. assert (Hpos : 0 < Z.of_N n) by lia. clear p Hn.
    destruct (pretty_N_head n) as (c&s&Hp&_). simpl.
    change ("" +:+ pretty n) with (pretty n). rewrite decide_False.
    + rewrite digits_value_pretty. simpl. by apply checked_Some.
    + rewrite Hp. intros [?|Hs]; [done|]. destruct t; try done; int_lia.
Qed.

(** ** UTF-8 *)

Definition cont (b : Z) : bool := bool_decide (128 ≤ b ≤ 191).
(** What [String::from_utf8] accepts. *)
Fixpoint utf8_valid (l : list Z) : bool :=
  match l with
  | [] => true
  | a :: l1 =>
      if bool_decide (a < 128) then utf8_valid l1 else
      match l1 with
      | [] => false
      | b :: l2 =>
          if bool_decide (194 ≤ a ≤ 223) then cont b && utf8_valid l2 else
          match l2 with
          | [] => false
          | c :: l3 =>
              if bool_decide ((a = 224 ∧ 160 ≤ b ≤ 191) ∨ (225 ≤ a ≤ 236 ∧ 128 ≤ b ≤ 191) ∨
                              (a = 237 ∧ 128 ≤ b ≤ 159) ∨ (238 ≤ a ≤ 239 ∧ 128 ≤ b ≤ 191))
              then cont c && utf8_valid l3 else
              match l3 with
              | [] => false
              | d :: l4 =>
                  bool_decide ((a = 240 ∧ 144 ≤ b ≤ 191) ∨ (241 ≤ a ≤ 243 ∧ 128 ≤ b ≤ 191) ∨
                               (a = 244 ∧ 128 ≤ b ≤ 143)) &&
                  cont c && cont d && utf8_valid l4
              end
          end
      end
  end.
(** The invariant of [str]. *)
Definition utf8 (s : string) : bool := utf8_valid (str_bytes s).

Lemma utf8_valid_app l k : utf8_valid l = true → utf8_valid (l ++ k) = utf8_valid k.
Proof.
  remember (length l) as n eqn:Hn. assert (Hle : (length l ≤ n)%nat) by lia. clear Hn.
  revert l Hle. induction n as [|n IH]; intros [|a l1] Hle Hl; simpl in Hle; try done; try lia.
  simpl in *. destruct (bool_decide (a < 128)); [apply IH; [lia|done]|].
  destruct l1 as [|b l2]; [done|]. simpl in *. destruct (bool_decide (194 ≤ a ≤ 223)).
  { apply andb_true_iff in Hl as [-> Hl]. simpl. apply IH; [lia|done]. }
  destruct l2 as [|c l3]; [done|]. simpl in *. case_match.
  { apply andb_true_iff in Hl as [-> Hl]. simpl. apply IH; [lia|done]. }
  destruct l3 as [|d l4]; [done|]. simpl in *.
  repeat (apply andb_true_iff in Hl as [Hl ?]). rewrite Hl. 
  repeat match goal with H : cont _ = true |- _ => rewrite H end. simpl. apply IH; [lia|done].
Qed.
Lemma str_bytes_app s t : str_bytes (s +:+ t) = str_bytes s ++ str_bytes t.
Proof. unfold str_bytes. induction s as [|c s IH]; [done|]. simpl. f_equal. exact IH. Qed.
Lemma utf8_app s t : utf8 s = true → utf8 (s +:+ t) = utf8 t.
Proof. unfold utf8. rewrite str_bytes_app. apply utf8_valid_app. Qed.
Lemma utf8_app_true s t : utf8 s = true → utf8 t = true → utf8 (s +:+ t) = true.
Proof. intros Hs Ht. by rewrite utf8_app. Qed.

(** [s.is_ascii()]. *)
Definition ascii_only (s : string) : bool := forallb (λ b, bool_decide (b < 128)) (str_bytes s).
Lemma ascii_only_utf8 s : ascii_only s = true → utf8 s = true.
Proof.
  unfold ascii_only, utf8. induction (str_bytes s) as [|a l IH]; [done|]. simpl.
  intros [-> Hl]%andb_true_iff. by apply IH.
Qed.
Lemma ascii_only_app s t : ascii_only (s +:+ t) = ascii_only s && ascii_only t.
Proof. unfold ascii_only. by rewrite str_bytes_app, forallb_app. Qed.
Lemma ascii_only_join c l :
  ascii_only (String c "") = true → Forall (λ s, ascii_only s = true) l → ascii_only (str_join c l) = true.
Proof.
  intros Hc. induction l as [|x [|y l] IH]; intros Hl; [done| |].
  - by apply Forall_cons in Hl as [Hx _].
  - apply Forall_cons in Hl as [Hx Hl]. rewrite join_cons by done.
    rewrite ascii_only_app, Hx. change (String c (str_join c (y :: l))) with (String c "" +:+ str_join c (y :: l)).
    rewrite ascii_only_app, Hc. by apply IH.
Qed.
Lemma pretty_N_ascii (n : N) : ascii_only (pretty n) = true.
Proof.
  cut (∀ s, ascii_only s = true → ascii_only (pretty_N_go n s) = true).
  { intros Hgo. unfold pretty, pretty_N. case_decide; [done|by apply Hgo]. }
  induction (N.lt_wf_0 n) as [n _ IH]. intros s Hs. destruct (decide (0 < n)%N) as [Hn|Hn].
  - rewrite pretty_N_go_step by done. apply IH; [apply N.div_lt; lia|].
    change (String ?c s) with (String c "" +:+ s).
    rewrite (ascii_only_app (String _ "")), Hs, andb_true_r. unfold pretty_N_char. by repeat case_match.
  - assert (n = 0%N) as -> by lia. by rewrite pretty_N_go_0.
Qed.
Lemma pretty_Z_ascii (z : Z) : ascii_only (pretty z) = true.
Proof.
  destruct z as [|p|p].
  - by apply (pretty_N_ascii 0).
  - by apply (pretty_N_ascii (Npos p)).
  - change (pretty (Zneg p)) with ("-" +:+ pretty (Npos p)). by rewrite ascii_only_app, pretty_N_ascii.
Qed.

(** ** Percent escapes *)

(** The bytes that are written as they are. *)
Definition plain (c : Ascii.ascii) : bool :=
  let b := byte_of c in
  bool_decide (48 ≤ b ≤ 57 ∨ 65 ≤ b ≤ 90 ∨ 97 ≤ b ≤ 122 ∨ b = 45 ∨ b = 95 ∨ b = 46).
Definition ascii_of (b : Z) : Ascii.ascii := ascii_of_N (Z.to_N b).
(** [{:X}] of a nibble. *)
Definition hex_char (n : Z) : Ascii.ascii := if decide (n < 10) then ascii_of (48 + n) else ascii_of (55 + n).
(** The escape of one byte: itself, or [%{byte:02X}]. *)
Definition escape_byte (c : Ascii.ascii) : string :=
  if plain c then String c ""
  else let b := byte_of c in
       String "%" (String (hex_char (Z.shiftr b 4)) (String (hex_char (Z.land b 15)) "")).
Fixpoint escape (s : string) : string :=
  match s with
  | EmptyString => ""
  | String c s => escape_byte c +:+ escape s
  end.

(** A property of every byte. *)
Lemma all_bytes (P : Ascii.ascii → Prop) `{∀ c, Decision (P c)} :
  forallb (λ n, bool_decide (P (ascii_of_N (N.of_nat n)))) (seq 0 256) = true → ∀ c, P c.
Proof.
  intros Hall c. rewrite forallb_forall in Hall. specialize (Hall (N.to_nat (N_of_ascii c))).
  rewrite N2Nat.id, ascii_N_embedding in Hall. apply (bool_decide_eq_true_1 _), Hall, in_seq.
  pose proof (N_ascii_bounded c). lia.
Qed.
(** Separators do not occur in what is escaped. *)
Lemma escape_byte_lacks c d :
  plain d = false → d ≠ "%"%char → lacks d (escape_byte c) = true.
Proof.
  intros Hd Hp. apply not_true_iff_false in Hd.
  assert (Hall : ∀ c, Forall (λ e, plain e = true ∨ e = "%"%char) (String.list_ascii_of_string (escape_byte c))).
  { apply (all_bytes (λ c, Forall _ _)). vm_compute. reflexivity. }
  specialize (Hall c). induction (escape_byte c) as [|e s IH]; [done|]. simpl in Hall.
  apply Forall_cons in Hall as [He Hs]. simpl. rewrite IH, andb_true_r by done.
  apply bool_decide_eq_true. intros ->. by destruct He.
Qed.
Lemma escape_lacks c s : plain c = false → c ≠ "%"%char → lacks c (escape s) = true.
Proof.
  intros Hc Hp. induction s as [|d s IH]; [done|]. simpl. by rewrite lacks_app, escape_byte_lacks, IH.
Qed.
Lemma escape_ascii s : ascii_only (escape s) = true.
Proof.
  induction s as [|c s IH]; [done|]. simpl. rewrite ascii_only_app, IH, andb_true_r. revert c.
  apply (all_bytes (λ c, ascii_only _ = true)). vm_compute. reflexivity.
Qed.
Lemma escape_byte_length c : (1 ≤ str_len (escape_byte c))%nat.
Proof. revert c. apply (all_bytes (λ c, (1 ≤ _)%nat)). vm_compute. reflexivity. Qed.
Lemma escape_length s : (str_len s ≤ str_len (escape s))%nat.
Proof.
  induction s as [|c s IH]; [done|]. simpl. rewrite str_len_app. pose proof (escape_byte_length c).
  unfold str_len in *. simpl. lia.
Qed.
Lemma escape_empty s : escape s = "" ↔ s = "".
Proof.
  split; [|by intros ->]. intros He. pose proof (escape_length s) as Hl. rewrite He in Hl.
  destruct s; [done|]. simpl in Hl. unfold str_len in Hl. simpl in Hl. lia.
Qed.

(** ** Automation: separators and ASCII *)

Lemma pretty_lacks c (z : Z) : bool_decide (c ∈ digits) = false → lacks c (pretty z) = true.
Proof. intros Hc%bool_decide_eq_false. by apply pretty_Z_lacks. Qed.
Lemma escape_lacks_b c s : plain c = false → bool_decide (c = "%"%char) = false → lacks c (escape s) = true.
Proof. intros Hc Hp%bool_decide_eq_false. by apply escape_lacks. Qed.
Lemma join2 c x y : str_join c [x; y] = x +:+ String c "" +:+ y.
Proof. done. Qed.
Lemma lacks_cons_char c d s : lacks c (String d s) = bool_decide (d ≠ c) && lacks c s.
Proof. done. Qed.
Create Rewrite HintDb text.
#[export] Hint Rewrite lacks_app ascii_only_app escape_ascii pretty_Z_ascii : text.
#[export] Hint Rewrite pretty_lacks escape_lacks_b using reflexivity : text.
(** [text]: a string that is put together from numerals, escapes and constants lacks a
    separator, or is ASCII. *)
Ltac text :=
  repeat first [progress autorewrite with text
    | rewrite lacks_join by (reflexivity || (repeat (apply Forall_cons; split); [..|apply Forall_nil; exact I]; text))
    | rewrite ascii_only_join by (reflexivity || (repeat (apply Forall_cons; split); [..|apply Forall_nil; exact I]; text))
    | match goal with H : lacks _ _ = true |- _ => rewrite H | H : ascii_only _ = true |- _ => rewrite H end ];
  try reflexivity; try done.
