(* ===== verification/Floats.v ===== *)
(** Floating-point numbers of Rust: an [f32] or [f64] is a [spec_float] of the Standard
    Library's IEEE 754 specification, in the normal form that a value of the format has;
    the operations round to nearest with 24 and 53 bits of precision. *)
From S2P Require Import Prelude.
From Stdlib Require Export Floats.SpecFloat.
#[local] Open Scope Z_scope.

#[global] Instance spec_float_eq_dec : EqDecision spec_float.
Proof. solve_decision. Defined.

Abbreviation f64 := spec_float (only parsing).
Definition f64_add : f64 → f64 → f64 := SFadd 53 1024.
Definition f64_sub : f64 → f64 → f64 := SFsub 53 1024.
Definition f64_mul : f64 → f64 → f64 := SFmul 53 1024.
Definition f64_div : f64 → f64 → f64 := SFdiv 53 1024.
Definition f64_of_Z (x : Z) : f64 := binary_normalize 53 1024 x 0 false.

Abbreviation f32 := spec_float (only parsing).
Definition f32_of_Z (x : Z) : f32 := binary_normalize 24 128 x 0 false.

Definition is_finite (x : spec_float) : bool :=
  match x with
  | S754_zero _ | S754_finite _ _ _ => true
  | S754_infinity _ | S754_nan => false
  end.
(** [x.clamp(min, max)]. *)
Definition clamp (min max x : spec_float) : spec_float :=
  let x := if SFltb x min then min else x in
  if SFltb max x then max else x.

(** ** Comparison *)

Lemma SFcompare_swap x y : SFcompare y x = CompOpp <$> SFcompare x y.
Proof.
  destruct x as [sx|sx| |sx mx ex], y as [sy|sy| |sy my ey]; simpl; try done; try (by destruct sx);
    try (by destruct sy); try (by destruct sx, sy).
  destruct sx, sy; simpl; try done; rewrite (Z.compare_antisym ex ey); destruct (ex ?= ey) eqn:He; simpl; try done.
  - change (Pos.compare_cont Eq my mx) with (my ?= mx)%positive.
    change (Pos.compare_cont Eq mx my) with (mx ?= my)%positive.
    rewrite (Pos.compare_antisym mx my). by destruct (mx ?= my)%positive.
  - change (Pos.compare_cont Eq my mx) with (my ?= mx)%positive.
    change (Pos.compare_cont Eq mx my) with (mx ?= my)%positive.
    rewrite (Pos.compare_antisym mx my). by destruct (mx ?= my)%positive.
Qed.
Lemma SFcompare_None x y : SFcompare x y = None ↔ x = S754_nan ∨ y = S754_nan.
Proof.
  destruct x as [sx|sx| |sx mx ex], y as [sy|sy| |sy my ey]; simpl;
    try destruct sx; try destruct sy; try (destruct (ex ?= ey)); split; try done; try tauto;
    intros [?|?]; done.
Qed.
(** Of two floats that are not NaN, either is less or the other at most it. *)
Lemma SFltb_SFleb x y : x ≠ S754_nan → y ≠ S754_nan → SFltb x y = negb (SFleb y x).
Proof.
  intros Hx Hy. unfold SFltb, SFleb. rewrite (SFcompare_swap x y).
  destruct (SFcompare x y) as [[]|] eqn:Hc; simpl; try done.
  apply SFcompare_None in Hc. tauto.
Qed.
