(* ===== verification/Types.v ===== *)
(** The portable domain types of [crates/foundation/fm-types]: rational rates
    and timecodes ([time.rs]), identities ([id.rs]), video formats and frame
    metadata ([video.rs], [color.rs]), audio formats ([audio.rs]) and the shared
    validation of input names and input orders ([lib.rs]). *)
From S2P Require Import Prelude.

(** ** Identities

    [domain_id!] wraps a [NonZeroU128]; an identity is its value. *)

Abbreviation InputId := Z (only parsing).
Abbreviation OutputId := Z (only parsing).
Definition id_valid (x : Z) : Prop := 0 < x ≤ ty_max U128.

(** ** Rational rates *)

Inductive RateError := ZeroNumerator | ZeroDenominator.

Record Rate := mk_rate { numerator : Z; denominator : Z }.
Definition FrameRate := Rate.
Definition TimeBase := Rate.
#[global] Instance Rate_eq_dec : EqDecision Rate.
Proof. solve_decision. Defined.

(** The [while] loop of [gcd]; [None] is a loop that has not ended. *)
Fixpoint gcd_loop (fuel : nat) (left right : Z) : option Z :=
  match fuel with
  | O => None
  | S fuel =>
      if decide (right ≠ 0) then gcd_loop fuel right (left `rem` right) else Some left
  end.
(** Two iterations halve [right], so 65 are enough for 32 bits. *)
Definition gcd (left right : Z) : option Z := gcd_loop 65 left right.

(** [rational_rate!]'s [new]; [None] would be a loop that does not end. *)
Definition rate_new (num den : Z) : option (result RateError Rate) :=
  if decide (num = 0) then Some (Err ZeroNumerator) else
  if decide (den = 0) then Some (Err ZeroDenominator) else
  divisor ← gcd num den;
  Some (Ok {| numerator := num `quot` divisor; denominator := den `quot` divisor |}).

(** The type invariant of a rate. *)
Record rate_wf (r : Rate) : Prop := {
  rate_num : 0 < numerator r ≤ ty_max U32;
  rate_den : 0 < denominator r ≤ ty_max U32;
  rate_coprime : Z.gcd (numerator r) (denominator r) = 1
}.

(** ** Timecodes *)

Record Timecode := mk_timecode {
  tc_hours : Z; tc_minutes : Z; tc_seconds : Z; tc_frames : Z
}.
Inductive TimecodeError :=
  | HoursOutOfRange | MinutesOutOfRange | SecondsOutOfRange | FrameOutOfRange.

Definition timecode_new (hours minutes seconds frames nominal_frames_per_second : Z) :
    result TimecodeError Timecode :=
  if decide (24 ≤ hours) then Err HoursOutOfRange else
  if decide (60 ≤ minutes) then Err MinutesOutOfRange else
  if decide (60 ≤ seconds) then Err SecondsOutOfRange else
  if decide (nominal_frames_per_second ≤ frames) then Err FrameOutOfRange else
  Ok {| tc_hours := hours; tc_minutes := minutes;
        tc_seconds := seconds; tc_frames := frames |}.

(** ** Color and video *)

Module AlphaMode.
Inductive t := Straight | Premultiplied.
#[global] Instance eq_dec : EqDecision t.
Proof. solve_decision. Defined.
End AlphaMode.
Module MatrixCoefficients.
Inductive t := Identity | Bt601 | Bt709 | Bt2020NonConstant.
#[global] Instance eq_dec : EqDecision t.
Proof. solve_decision. Defined.
End MatrixCoefficients.
Module ColorPrimaries.
Inductive t := Bt601 | Bt709 | Bt2020 | DisplayP3.
End ColorPrimaries.
Module TransferFunction.
Inductive t := Linear | Srgb | Bt709 | Bt1886 | Hlg | Pq.
End TransferFunction.
Module SignalRange.
Inductive t := Full | Limited.
End SignalRange.
Module ChromaLocation.
Inductive t := Left | Center | TopLeft.
End ChromaLocation.

Record ColorMetadata := mk_color {
  primaries : ColorPrimaries.t;
  transfer : TransferFunction.t;
  matrix : MatrixCoefficients.t;
  range : SignalRange.t;
  chroma_location : ChromaLocation.t
}.
Definition color_default : ColorMetadata := {|
  primaries := ColorPrimaries.Bt709;
  transfer := TransferFunction.Bt1886;
  matrix := MatrixCoefficients.Bt709;
  range := SignalRange.Limited;
  chroma_location := ChromaLocation.Left
|}.

(** ** Audio formats *)

Module SampleFormat.
Inductive t := I16 | I24 | I32 | F32 | F64.
#[global] Instance eq_dec : EqDecision t.
Proof. solve_decision. Defined.
End SampleFormat.
Module Channel.
Inductive t := Mono | Left | Right | Center | LowFrequency | LeftSurround | RightSurround.
#[global] Instance eq_dec : EqDecision t.
Proof. solve_decision. Defined.
End Channel.
Definition sample_rate_new (hertz : Z) : option Z :=
  if decide (hertz = 0) then None else Some hertz.
(** A [ChannelLayout] is its non-empty list of channels. *)
Definition layout_new (channels : list Channel.t) : option (list Channel.t) :=
  if decide (channels = []) then None else Some channels.
Definition layout_stereo : list Channel.t := [Channel.Left; Channel.Right].
Record AudioFormat := mk_audio {
  sample_rate : Z;
  sample_format : SampleFormat.t;
  channels : list Channel.t
}.

Record VideoDimensions := mk_dimensions { width : Z; height : Z }.
Definition dimensions_new (width height : Z) : option VideoDimensions :=
  if decide (width = 0 ∨ height = 0) then None
  else Some {| width := width; height := height |}.

Inductive PixelFormat := Rgba8 | Bgra8 | Rgba16Float | Nv12 | P010 | Yuv422.
Record VideoFrameMetadata := mk_metadata {
  color : ColorMetadata;
  alpha_mode : option AlphaMode.t
}.
Inductive VideoFrameMetadataError :=
  | RgbMatrixMustBeIdentity (pixel_format : PixelFormat) (matrix : MatrixCoefficients.t)
  | RgbAlphaModeRequired (pixel_format : PixelFormat)
  | YuvMatrixMustNotBeIdentity (pixel_format : PixelFormat)
  | YuvAlphaModeNotAllowed (pixel_format : PixelFormat) (alpha_mode : AlphaMode.t).

Definition validate_for (self : VideoFrameMetadata) (pixel_format : PixelFormat) :
    result VideoFrameMetadataError unit :=
  match pixel_format with
  | Rgba8 | Bgra8 | Rgba16Float =>
      if decide (matrix (color self) ≠ MatrixCoefficients.Identity) then
        Err (RgbMatrixMustBeIdentity pixel_format (matrix (color self)))
      else if decide (alpha_mode self = None) then Err (RgbAlphaModeRequired pixel_format)
      else Ok tt
  | Nv12 | P010 | Yuv422 =>
      if decide (matrix (color self) = MatrixCoefficients.Identity) then
        Err (YuvMatrixMustNotBeIdentity pixel_format)
      else match alpha_mode self with
           | Some alpha_mode => Err (YuvAlphaModeNotAllowed pixel_format alpha_mode)
           | None => Ok tt
           end
  end.

Definition is_rgb (p : PixelFormat) : bool :=
  match p with
  | Rgba8 | Bgra8 | Rgba16Float => true
  | Nv12 | P010 | Yuv422 => false
  end.

Inductive ScanMode := Progressive | InterlacedTopFieldFirst | InterlacedBottomFieldFirst.
Record VideoFormat := mk_video_format {
  vf_dimensions : VideoDimensions;
  vf_frame_rate : FrameRate;
  vf_pixel_format : PixelFormat;
  vf_scan : ScanMode;
  vf_color : ColorMetadata
}.

(** ** Input names and input orders *)

Definition MAX_INPUT_NAME_BYTES : nat := 128.

Inductive RenameInputError :=
  | RenameUnknownInput (input : InputId)
  | EmptyName
  | NameTooLong
  | DuplicateName.
Inductive InputOrderError :=
  | EmptyOrder
  | WrongLength (expected actual : nat)
  | OrderUnknownInput (input : InputId)
  | DuplicateInput (input : InputId).
#[global] Instance RenameInputError_eq_dec : EqDecision RenameInputError.
Proof. solve_decision. Defined.
#[global] Instance InputOrderError_eq_dec : EqDecision InputOrderError.
Proof. solve_decision. Defined.

(** The two loops report the first unknown input, then the first repeat. *)
Definition validate_input_order (current requested : list InputId) :
    result InputOrderError unit :=
  if decide (requested = []) then Err EmptyOrder else
  if decide (length requested ≠ length current) then
    Err (WrongLength (length current) (length requested)) else
  match list_find (λ input, input ∉ current) requested with
  | Some (_, input) => Err (OrderUnknownInput input)
  | None =>
      match first_repeat [] requested with
      | Some input => Err (DuplicateInput input)
      | None => Ok tt
      end
  end.

Definition validate_input_name (name : string) : result RenameInputError unit :=
  if str_blank name then Err EmptyName
  else if decide (MAX_INPUT_NAME_BYTES < str_len name)%nat then Err NameTooLong
  else Ok tt.

(** ** Properties *)

Section gcd.
Implicit Types (left right : Z).

Lemma rem_halves left right :
  0 < right → right ≤ left → 2 * (left `rem` right) < left.
Proof.
  intros. rewrite Z.rem_mod_nonneg by lia.
  pose proof (Z.mod_pos_bound left right). pose proof (Z.div_mod left right).
  assert (1 ≤ left `div` right) by (apply Z.div_le_lower_bound; lia). nia.
Qed.

Lemma gcd_rem left right :
  0 ≤ left → 0 < right → Z.gcd right (left `rem` right) = Z.gcd left right.
Proof.
  intros. rewrite Z.rem_mod_nonneg, Z.gcd_comm, Z.gcd_mod by lia. apply Z.gcd_comm.
Qed.

(** [2 k + 1] iterations end the loop for a [right] below [2 ^ k]. *)
Lemma gcd_loop_terminates k fuel left right :
  0 ≤ left → 0 ≤ right < 2 ^ Z.of_nat k → (2 * k + 1 ≤ fuel)%nat →
  gcd_loop fuel left right = Some (Z.gcd left right).
Proof.
  revert fuel left right. induction k as [|k IH]; intros fuel left right Hl Hr Hf.
  { destruct fuel as [|fuel]; [lia|]. simpl in Hr. assert (right = 0) as -> by lia.
    simpl. rewrite Z.gcd_0_r, Z.abs_eq; done. }
  destruct fuel as [|[|fuel]]; [lia..|]. simpl.
  rewrite Nat2Z.inj_succ, Z.pow_succ_r in Hr by lia.
  destruct (decide (right ≠ 0)) as [Hr0|Hr0]; last first.
  { assert (right = 0) as -> by lia. rewrite Z.gcd_0_r, Z.abs_eq; done. }
  pose proof (Z.rem_bound_pos left right ltac:(lia) ltac:(lia)) as Hb.
  rewrite <-(gcd_rem left right) by lia. case_decide as Hm.
  - rewrite <-(gcd_rem right (left `rem` right)) by lia. apply IH; [lia| |lia].
    pose proof (Z.rem_bound_pos right (left `rem` right) ltac:(lia) ltac:(lia)).
    pose proof (rem_halves right (left `rem` right) ltac:(lia) ltac:(lia)). lia.
  - assert (left `rem` right = 0) as -> by lia. by rewrite Z.gcd_0_r, Z.abs_eq by lia.
Qed.
Lemma gcd_total left right :
  0 ≤ left → in_ty U32 right → gcd left right = Some (Z.gcd left right).
Proof. intros. apply (gcd_loop_terminates 32); [done|int_lia|lia]. Qed.
End gcd.

Lemma gcd_quot_exact num den :
  0 < num → 0 < den →
  let g := Z.gcd num den in
  0 < g ∧ num = g * (num `quot` g) ∧ den = g * (den `quot` g) ∧
  0 < num `quot` g ∧ 0 < den `quot` g ∧ Z.gcd (num `quot` g) (den `quot` g) = 1.
Proof.
  intros Hn Hd g.
  assert (Hg : 0 < g).
  { pose proof (Z.gcd_nonneg num den). assert (g ≠ 0); [|unfold g in *; lia].
    unfold g. intros [? ?]%Z.gcd_eq_0. lia. }
  destruct (Z.gcd_divide_l num den) as [a Ha], (Z.gcd_divide_r num den) as [b Hb].
  fold g in Ha, Hb. rewrite Ha, Hb, !Z.quot_mul by lia.
  assert (0 < a ∧ 0 < b) as [Ha0 Hb0] by (split; nia).
  split_and!; [lia..| |]; [lia| ].
  apply (Z.mul_reg_l _ _ g); [lia|].
  rewrite <-Z.gcd_mul_mono_l_nonneg by lia. rewrite (Z.mul_comm g a), (Z.mul_comm g b).
  rewrite <-Ha, <-Hb. fold g. lia.
Qed.

Lemma rate_new_Ok num den :
  in_ty U32 num → in_ty U32 den → num ≠ 0 → den ≠ 0 →
  rate_new num den =
    Some (Ok (mk_rate (num `quot` Z.gcd num den) (den `quot` Z.gcd num den))).
Proof.
  intros Hn Hd Hn0 Hd0. unfold rate_new.
  by rewrite !decide_False, gcd_total by int_lia.
Qed.

(** [FrameRate::new] and [TimeBase::new] end for every pair of 32-bit
    parts; they reject exactly a zero numerator, then a zero denominator, and
    otherwise return the ratio in lowest terms, both parts nonzero 32-bit
    integers. *)
Theorem rate_new_normalizes num den :
  in_ty U32 num → in_ty U32 den →
  match rate_new num den with
  | Some (Err ZeroNumerator) => num = 0
  | Some (Err ZeroDenominator) => num ≠ 0 ∧ den = 0
  | Some (Ok r) => rate_wf r ∧ numerator r * den = num * denominator r
  | None => False
  end.
Proof.
  intros Hn Hd.
  destruct (decide (num = 0)) as [->|Hn0]; [by unfold rate_new|].
  destruct (decide (den = 0)) as [->|Hd0].
  { unfold rate_new. by rewrite decide_False. }
  rewrite rate_new_Ok by done.
  destruct (gcd_quot_exact num den) as (Hg&Ha&Hb&Ha0&Hb0&Hc); [int_lia..|].
  set (g := Z.gcd num den) in *. set (a := num `quot` g) in *. set (b := den `quot` g) in *.
  split; [split; simpl; [int_lia || nia..|done]|simpl; nia].
Qed.
Lemma rate_new_normalizes_witness :
  rate_new 50 2 = Some (Ok (mk_rate 25 1)) ∧
  match rate_new 50 2 with
  | Some (Ok r) => rate_wf r ∧ numerator r * 2 = 50 * denominator r
  | _ => False
  end.
Proof.
  split; [reflexivity|]. apply (rate_new_normalizes 50 2); int_lia.
Defined.

(** Lowest terms are canonical: two rates built from equal ratios are equal,
    which is what the derived [Eq] of the rates compares. *)
Theorem rate_canonical r r' :
  rate_wf r → rate_wf r' →
  r = r' ↔ numerator r * denominator r' = numerator r' * denominator r.
Proof.
  destruct r as [a b], r' as [c d]. intros [Ha Hb Hab] [Hc Hd Hcd]; simpl in *.
  split; [by intros [= -> ->]|]. intros Heq.
  assert (a = c) as ->.
  { apply Z.divide_antisym_nonneg; [lia..| |].
    - apply Z.gauss with b; [|by rewrite Z.gcd_comm, Z.gcd_comm]. exists d. lia.
    - apply Z.gauss with d; [|done]. exists b. lia. }
  f_equal. nia.
Qed.

(** The only requests accepted. *)
Lemma validate_input_order_Ok current requested :
  validate_input_order current requested = Ok tt ↔
  requested ≠ [] ∧ NoDup requested ∧ requested ≡ₚ current.
Proof.
  unfold validate_input_order. case_decide as Hne; [naive_solver|].
  case_decide as Hlen.
  { split; [done|]. intros (_&_&Hp). by apply Permutation_length in Hp. }
  destruct (list_find _ _) as [[i x]|] eqn:Hf.
  { apply list_find_Some in Hf as (Hx&Hnx&_). split; [done|]. intros (_&_&Hp).
    destruct Hnx. rewrite <-Hp. by eapply list_elem_of_lookup_2. }
  rewrite list_find_None, Forall_forall in Hf.
  destruct (first_repeat [] requested) as [x|] eqn:Hd.
  - split; [done|]. intros (_&Hnd&_).
    by rewrite (proj2 (first_repeat_None [] requested (NoDup_nil_2))) in Hd.
  - apply first_repeat_None in Hd; [|apply NoDup_nil_2]. simpl in Hd.
    split; [|done]. intros _. split_and!; [done..|].
    apply NoDup_length_Permutation; [done| |lia].
    intros x Hx. by apply dec_stable, Hf.
Qed.

(** [validate_input_order] accepts a request exactly when it is a nonempty
    reordering of the current inputs without repeats. *)
Theorem validate_input_order_iff current requested :
  match validate_input_order current requested with
  | Ok _ => requested ≠ [] ∧ NoDup requested ∧ requested ≡ₚ current
  | Err _ => requested = [] ∨ ¬ NoDup requested ∨ ¬ requested ≡ₚ current
  end.
Proof.
  pose proof (validate_input_order_Ok current requested) as Hok.
  destruct (validate_input_order current requested) as [[]|e]; [by apply Hok|].
  destruct (decide (requested = [])); [by left|]. right.
  destruct (decide (NoDup requested)); [|by left]. right. intros Hp.
  by assert (Err e = Ok tt) by by apply Hok.
Qed.

(** [validate_input_name] bounds the byte length and rejects blank names. *)
Lemma validate_input_name_Ok name :
  validate_input_name name = Ok tt ↔
  str_blank name = false ∧ (str_len name ≤ MAX_INPUT_NAME_BYTES)%nat.
Proof.
  unfold validate_input_name. destruct (str_blank name); [naive_solver|].
  case_decide; split; intros; destruct_and?; try done; lia.
Qed.

(** Frame metadata is accepted exactly when alpha is present for RGB formats
    only and the identity matrix is used for RGB formats only. *)
Lemma validate_for_Ok m p :
  validate_for m p = Ok tt ↔
  (is_rgb p = true ↔ matrix (color m) = MatrixCoefficients.Identity) ∧
  (is_rgb p = true ↔ is_Some (alpha_mode m)).
Proof.
  destruct m as [c [a|]], p; simpl; repeat case_decide; simplify_eq/=;
    rewrite ?is_Some_alt; naive_solver.
Qed.
