(* ===== verification/Command.v ===== *)
(** Durable command acceptance, [crates/foundation/fm-command]: counters
    ([counters.rs]), envelopes and receipts ([envelope.rs]), bounded
    transactions ([transaction.rs]) and the single-writer command state machine
    ([machine.rs]).

    [CommandState] maps to the record of the same name; a [HashMap] is a [gmap].
    A [Mutation] is a function of the draft and the pending events; the closures
    the callers pass ([prepare]) are arguments of the definitions. *)
From S2P Require Import Prelude.

(** ** Counters ([counter!] of counters.rs) *)

Abbreviation Revision := Z (only parsing).
Abbreviation StateEpoch := Z (only parsing).
Abbreviation RuntimeGeneration := Z (only parsing).
Abbreviation EventSequence := Z (only parsing).
Abbreviation RuntimeSequence := Z (only parsing).
Inductive CounterOverflow := mk_counter_overflow.

Definition checked_next (self : Z) : result CounterOverflow Z :=
  ok_or mk_counter_overflow (checked U64 (self + 1)).

Lemma checked_next_Ok x y : checked_next x = Ok y ↔ y = x + 1 ∧ in_ty U64 y.
Proof. unfold checked_next. rewrite ok_or_Ok, checked_Some. naive_solver. Qed.
Lemma checked_next_Err x e : checked_next x = Err e ↔ ¬ in_ty U64 (x + 1).
Proof.
  unfold checked_next. rewrite ok_or_Err, checked_None. destruct e; naive_solver.
Qed.

(** ** Envelopes and receipts *)

Abbreviation CommandId := string (only parsing).
Abbreviation IdempotencyKey := string (only parsing).

(** An absolute deadline in milliseconds. *)
Definition is_exceeded_at (deadline now_millis : Z) : bool := bool_decide (deadline < now_millis).

Record CommandEnvelope (C : Type) := mk_envelope {
  id : CommandId;
  idempotency_key : IdempotencyKey;
  expected_revision : option Revision;
  deadline : option Z;
  command : C
}.
Arguments mk_envelope {C}.
Arguments id {C}.
Arguments idempotency_key {C}.
Arguments expected_revision {C}.
Arguments deadline {C}.
Arguments command {C}.

Definition envelope_new {C} (id : CommandId) (key : IdempotencyKey) (command : C) :
    CommandEnvelope C :=
  {| id := id; idempotency_key := key; expected_revision := None; deadline := None;
     command := command |}.
Definition expecting {C} (self : CommandEnvelope C) (revision : Revision) : CommandEnvelope C :=
  {| id := id self; idempotency_key := idempotency_key self;
     expected_revision := Some revision; deadline := deadline self; command := command self |}.
Definition with_deadline {C} (self : CommandEnvelope C) (d : Z) : CommandEnvelope C :=
  {| id := id self; idempotency_key := idempotency_key self;
     expected_revision := expected_revision self; deadline := Some d;
     command := command self |}.

Inductive RejectionCode :=
  | PermissionDenied | DeadlineExceeded | RevisionConflict | InvalidCommand | NotFound
  | Conflict | Unavailable | ResourceExhausted | Internal.
#[global] Instance RejectionCode_eq_dec : EqDecision RejectionCode.
Proof. solve_decision. Defined.

Record FieldIssue := mk_issue { field : string; code_name : string; issue_message : string }.
#[global] Instance FieldIssue_eq_dec : EqDecision FieldIssue.
Proof. solve_decision. Defined.

Record Rejection := mk_rejection {
  code : RejectionCode;
  message : string;
  fields : list FieldIssue;
  retryable : bool
}.
#[global] Instance Rejection_eq_dec : EqDecision Rejection.
Proof. solve_decision. Defined.

Definition rejection_new (code : RejectionCode) (message : string) : Rejection :=
  {| code := code; message := message; fields := []; retryable := false |}.
Definition with_field (self : Rejection) (issue : FieldIssue) : Rejection :=
  {| code := code self; message := message self; fields := fields self ++ [issue];
     retryable := retryable self |}.
Definition set_retryable (self : Rejection) (value : bool) : Rejection :=
  {| code := code self; message := message self; fields := fields self; retryable := value |}.

Inductive CommandReceipt (R : Type) :=
  | Accepted (command_id : CommandId) (revision : Revision) (result : R)
  | Rejected (command_id : CommandId) (rejection : Rejection) (current_revision : Revision).
Arguments Accepted {R}.
Arguments Rejected {R}.
#[global] Instance CommandReceipt_eq_dec `{EqDecision R} : EqDecision (CommandReceipt R).
Proof. solve_decision. Defined.

Definition receipt_command_id {R} (self : CommandReceipt R) : CommandId :=
  match self with
  | Accepted command_id _ _ | Rejected command_id _ _ => command_id
  end.
Definition accepted_revision {R} (self : CommandReceipt R) : option Revision :=
  match self with
  | Accepted _ revision _ => Some revision
  | Rejected _ _ _ => None
  end.

(** ** Transactions *)

Definition MAX_TRANSACTION_COMMANDS : nat := 256.

Inductive TransactionError := Empty | TooManyCommands (maximum : nat).
Record Transaction (C : Type) := mk_transaction { commands : list C }.
Arguments mk_transaction {C}.
Arguments commands {C}.

(** The bounded collection loop of [Transaction::new]. *)
Fixpoint collect_bounded {C} (bounded input : list C) : result TransactionError (list C) :=
  match input with
  | [] => Ok bounded
  | command :: input =>
      if decide (length bounded = MAX_TRANSACTION_COMMANDS) then
        Err (TooManyCommands MAX_TRANSACTION_COMMANDS)
      else collect_bounded (bounded ++ [command]) input
  end.
Definition transaction_new {C} (input : list C) : result TransactionError (Transaction C) :=
  bounded ← collect_bounded [] input;
  if decide (bounded = []) then Err Empty else Ok {| commands := bounded |}.

(** ** The command state machine *)

(** [Mutation::apply]: the draft and the events it leaves, and its result. *)
Definition Mutation (S E R : Type) : Type := S → list E → S * list E * result Rejection R.

Record DurableEvent (E : Type) := mk_event {
  ev_state_epoch : StateEpoch;
  ev_sequence : EventSequence;
  ev_revision : Revision;
  ev_payload : E
}.
Arguments mk_event {E}.
Arguments ev_state_epoch {E}.
Arguments ev_sequence {E}.
Arguments ev_revision {E}.
Arguments ev_payload {E}.

Record ApplyOutcome (R E : Type) := mk_apply_outcome {
  receipt : CommandReceipt R;
  events : list (DurableEvent E);
  replayed : bool
}.
Arguments mk_apply_outcome {R E}.
Arguments receipt {R E}.
Arguments events {R E}.
Arguments replayed {R E}.

Inductive CommitCounter := CounterRevision | CounterEventSequence.
Inductive CommitError :=
  | StaleAuthority (prepared_revision current_revision : Revision)
      (prepared_event_sequence current_event_sequence : EventSequence)
  | CounterExhausted (counter : CommitCounter).

Inductive PreparedKind :=
  | KindAccepted (revision : Revision) (event_sequence : EventSequence)
  | KindRejected.

Record PreparedCommit (S R E : Type) := mk_prepared {
  draft : S;
  prepared_events : list (DurableEvent E);
  prepared_receipt : CommandReceipt R;
  prepared_key : IdempotencyKey;
  prepared_epoch : StateEpoch;
  base_revision : Revision;
  base_event_sequence : EventSequence;
  kind : PreparedKind
}.
Arguments mk_prepared {S R E}.
Arguments draft {S R E}.
Arguments prepared_events {S R E}.
Arguments prepared_receipt {S R E}.
Arguments prepared_key {S R E}.
Arguments prepared_epoch {S R E}.
Arguments base_revision {S R E}.
Arguments base_event_sequence {S R E}.
Arguments kind {S R E}.

Inductive PrepareOutcome (S R E : Type) :=
  | Prepared (prepared : PreparedCommit S R E)
  | Replayed (outcome : ApplyOutcome R E).
Arguments Prepared {S R E}.
Arguments Replayed {S R E}.

Record CommandState (S R : Type) := mk_state {
  state : S;
  state_epoch : StateEpoch;
  revision : Revision;
  event_sequence : EventSequence;
  receipts : gmap IdempotencyKey (CommandReceipt R)
}.
Arguments mk_state {S R}.
Arguments state {S R}.
Arguments state_epoch {S R}.
Arguments revision {S R}.
Arguments event_sequence {S R}.
Arguments receipts {S R}.

Section machine.
Context {S R : Type}.

Definition state_new (state : S) (state_epoch : StateEpoch) : CommandState S R :=
  {| state := state; state_epoch := state_epoch; revision := 0; event_sequence := 0;
     receipts := ∅ |}.
(** [restore_with_receipts]: a later pair of the iterator replaces an earlier
    one with the same key. *)
Definition restore_with_receipts (state : S) (state_epoch : StateEpoch)
    (revision : Revision) (event_sequence : EventSequence)
    (receipts : list (IdempotencyKey * CommandReceipt R)) : CommandState S R :=
  {| state := state; state_epoch := state_epoch; revision := revision;
     event_sequence := event_sequence;
     receipts := foldl (λ m p, <[p.1 := p.2]> m) ∅ receipts |}.

Definition prepared_rejection {E} (self : CommandState S R) (command_id : CommandId)
    (key : IdempotencyKey) (rejection : Rejection) : PreparedCommit S R E :=
  {| draft := state self;
     prepared_events := [];
     prepared_receipt := Rejected command_id rejection (revision self);
     prepared_key := key;
     prepared_epoch := state_epoch self;
     base_revision := revision self;
     base_event_sequence := event_sequence self;
     kind := KindRejected |}.

(** The numbering loop of [prepared_mutation]: the events and the last
    sequence number, or [None] when the sequence space is exhausted. *)
Fixpoint number_events {E} (epoch : StateEpoch) (revision : Revision)
    (sequence : EventSequence) (payloads : list E) :
    option (list (DurableEvent E) * EventSequence) :=
  match payloads with
  | [] => Some ([], sequence)
  | payload :: payloads =>
      match checked_next sequence with
      | Err _ => None
      | Ok next =>
          '(events, last) ← number_events epoch revision next payloads;
          Some ({| ev_state_epoch := epoch; ev_sequence := next;
                   ev_revision := revision; ev_payload := payload |} :: events, last)
      end
  end.

Definition prepared_mutation {E} (self : CommandState S R) (command_id : CommandId)
    (key : IdempotencyKey) (mutation : Mutation S E R) : PreparedCommit S R E :=
  match mutation (state self) [] with
  | (_, _, Err rejection) => prepared_rejection self command_id key rejection
  | (draft, payloads, Ok result) =>
      match checked_next (revision self) with
      | Err _ =>
          prepared_rejection self command_id key
            (rejection_new ResourceExhausted "durable revision space exhausted")
      | Ok next_revision =>
          match number_events (state_epoch self) next_revision (event_sequence self)
                  payloads with
          | None =>
              prepared_rejection self command_id key
                (rejection_new ResourceExhausted "durable event sequence space exhausted")
          | Some (events, sequence) =>
              {| draft := draft;
                 prepared_events := events;
                 prepared_receipt := Accepted command_id next_revision result;
                 prepared_key := key;
                 prepared_epoch := state_epoch self;
                 base_revision := revision self;
                 base_event_sequence := event_sequence self;
                 kind := KindAccepted next_revision sequence |}
          end
      end
  end.

Definition prepare {C E} (self : CommandState S R) (envelope : CommandEnvelope C)
    (now_millis : Z) (prepare : S → C → result Rejection (Mutation S E R)) :
    PrepareOutcome S R E :=
  match receipts self !! idempotency_key envelope with
  | Some receipt =>
      Replayed {| receipt := receipt; events := []; replayed := true |}
  | None =>
      let reject := prepared_rejection self (id envelope) (idempotency_key envelope) in
      if from_option (λ d, is_exceeded_at d now_millis) false (deadline envelope) then
        Prepared (reject (rejection_new DeadlineExceeded "command deadline exceeded"))
      else if from_option (λ r, bool_decide (r ≠ revision self)) false
                (expected_revision envelope) then
        Prepared (reject (set_retryable
          (rejection_new RevisionConflict
             "expected revision does not match current revision") true))
      else
        match prepare (state self) (command envelope) with
        | Err rejection => Prepared (reject rejection)
        | Ok mutation =>
            Prepared (prepared_mutation self (id envelope) (idempotency_key envelope)
                        mutation)
        end
  end.

Definition commit_current {E} (self : CommandState S R) (prepared : PreparedCommit S R E) :
    CommandState S R * ApplyOutcome R E :=
  let self :=
    match kind prepared with
    | KindAccepted revision event_sequence =>
        {| state := draft prepared; state_epoch := state_epoch self; revision := revision;
           event_sequence := event_sequence; receipts := receipts self |}
    | KindRejected => self
    end in
  ({| state := state self; state_epoch := state_epoch self; revision := revision self;
      event_sequence := event_sequence self;
      receipts := <[prepared_key prepared := prepared_receipt prepared]> (receipts self) |},
   {| receipt := prepared_receipt prepared; events := prepared_events prepared;
      replayed := false |}).

(** The loop of [commit] that counts the prepared events. *)
Fixpoint advance_sequence {E} (sequence : EventSequence) (events : list (DurableEvent E)) :
    result CounterOverflow EventSequence :=
  match events with
  | [] => Ok sequence
  | _ :: events => next ← checked_next sequence; advance_sequence next events
  end.

(** The checks [commit] makes of an accepted decision. *)
Definition commit_check {E} (self : CommandState S R) (prepared : PreparedCommit S R E) :
    result CommitError unit :=
  match kind prepared with
  | KindRejected => Ok tt
  | KindAccepted prepared_rev prepared_seq =>
      let stale := StaleAuthority prepared_rev (revision self) prepared_seq
                     (event_sequence self) in
      checked_revision ← result_map_err (λ _, CounterExhausted CounterRevision)
                           (checked_next (revision self));
      if decide (checked_revision ≠ prepared_rev) then Err stale else
      checked_sequence ← result_map_err (λ _, CounterExhausted CounterEventSequence)
                           (advance_sequence (event_sequence self)
                              (prepared_events prepared));
      if decide (checked_sequence ≠ prepared_seq) then Err stale else Ok tt
  end.

Definition commit {E} (self : CommandState S R) (prepared : PreparedCommit S R E) :
    CommandState S R * result CommitError (ApplyOutcome R E) :=
  match receipts self !! prepared_key prepared with
  | Some receipt => (self, Ok {| receipt := receipt; events := []; replayed := true |})
  | None =>
      if decide (prepared_epoch prepared ≠ state_epoch self ∨
                 base_revision prepared ≠ revision self ∨
                 base_event_sequence prepared ≠ event_sequence self) then
        (self, Err (StaleAuthority (base_revision prepared) (revision self)
                      (base_event_sequence prepared) (event_sequence self)))
      else
        match commit_check self prepared with
        | Err error => (self, Err error)
        | Ok _ => let '(self, outcome) := commit_current self prepared in (self, Ok outcome)
        end
  end.

Definition apply {C E} (self : CommandState S R) (envelope : CommandEnvelope C)
    (now_millis : Z) (prep : S → C → result Rejection (Mutation S E R)) :
    CommandState S R * ApplyOutcome R E :=
  match prepare self envelope now_millis prep with
  | Replayed outcome => (self, outcome)
  | Prepared prepared => commit_current self prepared
  end.
End machine.

Section transaction.
Context {S R C E : Type}.

(** The loop of the closure [prepare_transaction] builds. *)
Fixpoint run_transaction (prep : S → C → result Rejection (Mutation S E R))
    (commands : list C) (draft : S) (events : list E) (results : list R) :
    S * list E * result Rejection (list R) :=
  match commands with
  | [] => (draft, events, Ok results)
  | command :: commands =>
      match prep draft command with
      | Err rejection => (draft, events, Err rejection)
      | Ok mutation =>
          match mutation draft events with
          | (draft, events, Err rejection) => (draft, events, Err rejection)
          | (draft, events, Ok result) =>
              run_transaction prep commands draft events (results ++ [result])
          end
      end
  end.

Definition prepare_transaction (self : CommandState S (list R))
    (envelope : CommandEnvelope (Transaction C)) (now_millis : Z)
    (prep : S → C → result Rejection (Mutation S E R)) : PrepareOutcome S (list R) E :=
  prepare self envelope now_millis (λ _ transaction,
    Ok (λ draft events, run_transaction prep (commands transaction) draft events [])).
End transaction.

(** ** Histories: a sequence of [apply] calls against one authority *)

Record Request (S R C E : Type) := mk_request {
  rq_envelope : CommandEnvelope C;
  rq_now : Z;
  rq_prepare : S → C → result Rejection (Mutation S E R)
}.
Arguments mk_request {S R C E}.
Arguments rq_envelope {S R C E}.
Arguments rq_now {S R C E}.
Arguments rq_prepare {S R C E}.

Section history.
Context {S R C E : Type}.

Fixpoint run (cs : CommandState S R) (requests : list (Request S R C E)) :
    CommandState S R * list (ApplyOutcome R E) :=
  match requests with
  | [] => (cs, [])
  | rq :: requests =>
      let '(cs, outcome) := apply cs (rq_envelope rq) (rq_now rq) (rq_prepare rq) in
      let '(cs, outcomes) := run cs requests in
      (cs, outcome :: outcomes)
  end.
End history.

(** An outcome that changed the durable state. *)
Definition newly_accepted {R E} (o : ApplyOutcome R E) : bool :=
  negb (replayed o) && bool_decide (is_Some (accepted_revision (receipt o))).

(** The invariant of an authority: counters fit their width, and every accepted
    receipt owns a revision of its own that has been reached. *)
Record cs_wf {S R} (cs : CommandState S R) : Prop := {
  wf_revision : in_ty U64 (revision cs);
  wf_sequence : in_ty U64 (event_sequence cs);
  wf_receipt_bound : ∀ k r v,
    receipts cs !! k = Some r → accepted_revision r = Some v → 0 < v ≤ revision cs;
  wf_receipt_unique : ∀ k1 k2 r1 r2 v,
    receipts cs !! k1 = Some r1 → receipts cs !! k2 = Some r2 →
    accepted_revision r1 = Some v → accepted_revision r2 = Some v → k1 = k2
}.

(** ** Lemmas *)

Section machine_lemmas.
Context {S R C E : Type}.
Implicit Types (cs : CommandState S R) (env : CommandEnvelope C)
  (prep : S → C → result Rejection (Mutation S E R)).

Lemma number_events_Some epoch rev seq (payloads : list E) evs last :
  number_events epoch rev seq payloads = Some (evs, last) →
  last = seq + Z.of_nat (length payloads) ∧
  ev_payload <$> evs = payloads ∧
  ev_sequence <$> evs = seqZ (seq + 1) (Z.of_nat (length payloads)) ∧
  Forall (λ ev, ev_state_epoch ev = epoch ∧ ev_revision ev = rev) evs ∧
  (in_ty U64 seq → in_ty U64 last) ∧
  advance_sequence seq evs = Ok last.
Proof.
  revert seq evs last. induction payloads as [|p payloads IH]; intros seq evs last; simpl.
  { intros [= <- <-]. split_and!; simpl; try done; lia. }
  destruct (checked_next seq) as [next|] eqn:Hn; [|done].
  pose proof Hn as [-> Hr]%checked_next_Ok.
  destruct (number_events _ _ _ payloads) as [[evs' last']|] eqn:He; simpl; [|done].
  intros [= <- <-]. apply IH in He as (->&<-&Hs&Hf&Hr'&Ha).
  rewrite !length_fmap in *. rewrite !fmap_cons. split_and!; cbn [length].
  - lia.
  - done.
  - rewrite Hs, (seqZ_cons _ (Z.of_nat (Datatypes.S _))) by lia. f_equal. f_equal; lia.
  - by constructor.
  - intros _. by apply Hr'.
  - cbn [advance_sequence]. rewrite Hn. cbn. by rewrite Ha.
Qed.
Lemma number_events_None epoch rev seq (payloads : list E) :
  in_ty U64 seq →
  number_events epoch rev seq payloads = None ↔
  ty_max U64 < seq + Z.of_nat (length payloads).
Proof.
  revert seq. induction payloads as [|p payloads IH]; intros seq Hs; cbn [number_events].
  { split; [done|]. int_lia. }
  destruct (checked_next seq) as [next|] eqn:Hn.
  - pose proof Hn as [-> Hr]%checked_next_Ok. specialize (IH _ Hr).
    destruct (number_events _ _ _ payloads) as [[evs' last']|]; simpl in *.
    + split; [done|]. intros ?. assert (Some (evs', last') = None); [|done].
      apply IH. lia.
    + split; [|done]. intros _. rewrite Nat2Z.inj_succ.
      pose proof (proj1 IH eq_refl). lia.
  - apply checked_next_Err in Hn. split; [|done]. simpl length. int_lia.
Qed.

(** What [prepared_mutation] can return. *)
Lemma prepared_mutation_cases cs cid key (mutation : Mutation S E R) :
  let p := prepared_mutation cs cid key mutation in
  (∃ rejection, p = prepared_rejection cs cid key rejection) ∨
  (∃ payloads result evs seq,
    mutation (state cs) [] = (draft p, payloads, Ok result) ∧
    checked_next (revision cs) = Ok (revision cs + 1) ∧
    number_events (state_epoch cs) (revision cs + 1) (event_sequence cs) payloads =
      Some (evs, seq) ∧
    p = {| draft := draft p; prepared_events := evs;
           prepared_receipt := Accepted cid (revision cs + 1) result;
           prepared_key := key; prepared_epoch := state_epoch cs;
           base_revision := revision cs; base_event_sequence := event_sequence cs;
           kind := KindAccepted (revision cs + 1) seq |}).
Proof.
  unfold prepared_mutation.
  destruct (mutation (state cs) []) as [[d payloads] [result|rejection]] eqn:Hm; [|by eauto].
  destruct (checked_next (revision cs)) as [next|] eqn:Hn; [|by eauto].
  pose proof Hn as [-> _]%checked_next_Ok.
  destruct (number_events _ _ _ _) as [[evs seq]|] eqn:He; [|by eauto].
  right. simpl. eauto 10.
Qed.

(** A decision [prepare] makes is a rejection or an accepted mutation. *)
Inductive decision cs env now prep : PreparedCommit S R E → Prop :=
  | decision_rejected rejection :
      decision cs env now prep
        (prepared_rejection cs (id env) (idempotency_key env) rejection)
  | decision_accepted mutation d payloads result evs seq :
      (∀ t, deadline env = Some t → now ≤ t) →
      (∀ r, expected_revision env = Some r → r = revision cs) →
      prep (state cs) (command env) = Ok mutation →
      mutation (state cs) [] = (d, payloads, Ok result) →
      checked_next (revision cs) = Ok (revision cs + 1) →
      number_events (state_epoch cs) (revision cs + 1) (event_sequence cs) payloads =
        Some (evs, seq) →
      decision cs env now prep
        {| draft := d; prepared_events := evs;
           prepared_receipt := Accepted (id env) (revision cs + 1) result;
           prepared_key := idempotency_key env; prepared_epoch := state_epoch cs;
           base_revision := revision cs; base_event_sequence := event_sequence cs;
           kind := KindAccepted (revision cs + 1) seq |}.

Lemma prepare_decision cs env now prep p :
  prepare cs env now prep = Prepared p →
  receipts cs !! idempotency_key env = None ∧ decision cs env now prep p.
Proof.
  unfold prepare. destruct (receipts cs !! _) eqn:Hk; [done|].
  destruct (from_option (λ d, is_exceeded_at d now) false (deadline env)) eqn:Hd.
  { intros [= <-]. split; [done|constructor]. }
  destruct (from_option (λ r, bool_decide (r ≠ revision cs)) false _) eqn:He.
  { intros [= <-]. split; [done|constructor]. }
  destruct (prep _ _) as [mutation|] eqn:Hp; intros [= <-];
    (split; [done|]); [|constructor].
  destruct (prepared_mutation_cases cs (id env) (idempotency_key env) mutation)
    as [[rej ->]|(payloads&result&evs&seq&Hm&Hc&Hn&->)]; [constructor|].
  eapply decision_accepted; try done.
  - intros t Ht. rewrite Ht in Hd. simpl in Hd. unfold is_exceeded_at in Hd.
    apply bool_decide_eq_false in Hd. lia.
  - intros r Hr. rewrite Hr in He. simpl in He.
    by apply bool_decide_eq_false, dec_stable in He.
Qed.
Lemma prepare_fresh cs env now prep :
  receipts cs !! idempotency_key env = None →
  ∃ p, prepare cs env now prep = Prepared p ∧ decision cs env now prep p.
Proof.
  intros Hk. destruct (prepare cs env now prep) as [p|o] eqn:Hp.
  - exists p. split; [done|]. by eapply prepare_decision.
  - unfold prepare in Hp. rewrite Hk in Hp. by repeat case_match.
Qed.
Lemma prepare_known cs env now prep r :
  receipts cs !! idempotency_key env = Some r →
  prepare cs env now prep = Replayed (mk_apply_outcome r [] true).
Proof. intros Hk. unfold prepare. by rewrite Hk. Qed.
Lemma apply_known cs env now prep r :
  receipts cs !! idempotency_key env = Some r →
  apply cs env now prep = (cs, mk_apply_outcome r [] true).
Proof. intros Hk. unfold apply. by rewrite (prepare_known _ _ _ _ r). Qed.
Lemma apply_fresh cs env now prep :
  receipts cs !! idempotency_key env = None →
  ∃ p, decision cs env now prep p ∧ apply cs env now prep = commit_current cs p.
Proof.
  intros Hk. destruct (prepare_fresh cs env now prep Hk) as (p&Hp&Hd).
  exists p. split; [done|]. unfold apply. by rewrite Hp.
Qed.
Lemma decision_key cs env now prep p :
  decision cs env now prep p → prepared_key p = idempotency_key env.
Proof. by destruct 1. Qed.
End machine_lemmas.

(** ** Acceptance *)

Section acceptance.
Context {S R C E : Type}.
Implicit Types (cs : CommandState S R) (env : CommandEnvelope C)
  (prep : S → C → result Rejection (Mutation S E R)).

(** The effect of a fresh decision, read off the outcome. *)
Lemma commit_decision cs env now prep p cs' out :
  decision cs env now prep p → commit_current cs p = (cs', out) →
  replayed out = false ∧
  state_epoch cs' = state_epoch cs ∧
  receipts cs' = <[idempotency_key env := receipt out]> (receipts cs) ∧
  match receipt out with
  | Rejected cid _ current =>
      cid = id env ∧ current = revision cs ∧ events out = [] ∧ state cs' = state cs ∧
      revision cs' = revision cs ∧ event_sequence cs' = event_sequence cs
  | Accepted cid rev result =>
      cid = id env ∧ rev = revision cs + 1 ∧ revision cs' = rev ∧ in_ty U64 rev ∧
      (∀ t, deadline env = Some t → now ≤ t) ∧
      (∀ r, expected_revision env = Some r → r = revision cs) ∧
      (∃ mutation, prep (state cs) (command env) = Ok mutation ∧
         mutation (state cs) [] = (state cs', ev_payload <$> events out, Ok result)) ∧
      ev_sequence <$> events out =
        seqZ (event_sequence cs + 1) (Z.of_nat (length (events out))) ∧
      Forall (λ ev, ev_state_epoch ev = state_epoch cs ∧ ev_revision ev = rev)
        (events out) ∧
      event_sequence cs' = event_sequence cs + Z.of_nat (length (events out)) ∧
      (in_ty U64 (event_sequence cs) → in_ty U64 (event_sequence cs'))
  end.
Proof.
  intros Hd. destruct Hd as [rej|mutation d payloads res evs seq Hdl Her Hp Hm Hc Hn];
    intros [= <- <-]; simpl; [done|].
  apply number_events_Some in Hn as (->&<-&Hs&Hf&Hr&_). rewrite length_fmap in *.
  apply checked_next_Ok in Hc as [_ Hc]. split_and!; eauto.
Qed.

Lemma apply_spec cs env now prep cs' out :
  receipts cs !! idempotency_key env = None →
  apply cs env now prep = (cs', out) →
  ∃ p, decision cs env now prep p ∧ commit_current cs p = (cs', out).
Proof.
  intros Hk Ha. destruct (apply_fresh cs env now prep Hk) as (p&Hd&Hc).
  exists p. split; [done|]. by rewrite <-Hc.
Qed.

(** The next authority of an [apply] call, whether or not it is a replay. *)
Lemma apply_step cs env now prep cs' out :
  apply cs env now prep = (cs', out) →
  (cs' = cs ∧ replayed out = true ∧ events out = [] ∧
     receipts cs !! idempotency_key env = Some (receipt out)) ∨
  (receipts cs !! idempotency_key env = None ∧ replayed out = false ∧
     state_epoch cs' = state_epoch cs ∧
     receipts cs' = <[idempotency_key env := receipt out]> (receipts cs) ∧
     (accepted_revision (receipt out) = None ∧ events out = [] ∧ state cs' = state cs ∧
        revision cs' = revision cs ∧ event_sequence cs' = event_sequence cs ∨
      accepted_revision (receipt out) = Some (revision cs') ∧
        revision cs' = revision cs + 1 ∧ in_ty U64 (revision cs') ∧
        ev_sequence <$> events out =
          seqZ (event_sequence cs + 1) (Z.of_nat (length (events out))) ∧
        event_sequence cs' = event_sequence cs + Z.of_nat (length (events out)) ∧
        (in_ty U64 (event_sequence cs) → in_ty U64 (event_sequence cs')))).
Proof.
  intros Ha. destruct (receipts cs !! idempotency_key env) as [r|] eqn:Hk.
  { rewrite (apply_known _ _ _ _ r) in Ha by done. simplify_eq. by left. }
  right. destruct (apply_spec _ _ _ _ _ _ Hk Ha) as (p&Hd&Hc).
  pose proof (commit_decision _ _ _ _ _ _ _ Hd Hc) as (?&?&?&Hr).
  split_and!; try done. destruct (receipt out); simpl; [right|left].
  - destruct Hr as (->&->&->&?&_&_&_&?&_&?&?). done.
  - by destruct Hr as (_&_&?&?&?&?).
Qed.

(** Every step keeps the receipts that were there. *)
Lemma apply_receipts_mono cs env now prep cs' out k r :
  apply cs env now prep = (cs', out) →
  receipts cs !! k = Some r → receipts cs' !! k = Some r.
Proof.
  intros [(->&_)|(Hk&_&_&->&_)]%apply_step Hr; [done|].
  rewrite lookup_insert_ne; [done|]. intros <-. by rewrite Hk in Hr.
Qed.
Lemma apply_records cs env now prep cs' out :
  apply cs env now prep = (cs', out) →
  receipts cs' !! idempotency_key env = Some (receipt out).
Proof.
  intros [(->&_&_&Hk)|(_&_&_&->&_)]%apply_step; [done|]. apply lookup_insert_eq.
Qed.
Lemma apply_wf cs env now prep cs' out :
  apply cs env now prep = (cs', out) → cs_wf cs → cs_wf cs'.
Proof.
  intros [(->&_)|(Hk&_&_&Hr&Hc)]%apply_step Hwf; [done|].
  destruct Hwf as [Hrev Hseq Hb Hu].
  destruct Hc as [(Ha&_&_&Hrev'&Hseq')|(Ha&Hrev'&Hin&_&_&Hseq')].
  - split; rewrite ?Hrev', ?Hseq', ?Hr; [done..| |].
    + intros k r v [[<- <-]|[_ ?]]%lookup_insert_Some ?; [congruence|eauto].
    + intros k1 k2 r1 r2 v [[<- <-]|[??]]%lookup_insert_Some
        [[<- <-]|[??]]%lookup_insert_Some ??; try congruence; eauto.
  - split; rewrite ?Hr; [done|auto| |].
    + intros k r v [[<- <-]|[_ Hk']]%lookup_insert_Some ?; simplify_eq; [int_lia|].
      pose proof (Hb _ _ _ Hk' ltac:(done)). lia.
    + intros k1 k2 r1 r2 v [[<- <-]|[? Hk1]]%lookup_insert_Some
        [[<- <-]|[? Hk2]]%lookup_insert_Some ??; simplify_eq; try done; eauto.
      * pose proof (Hb _ _ _ Hk2 ltac:(done)). lia.
      * pose proof (Hb _ _ _ Hk1 ltac:(done)). lia.
Qed.
End acceptance.

Section history_lemmas.
Context {S R C E : Type}.
Implicit Types (cs : CommandState S R) (rqs : list (Request S R C E)).

Lemma run_receipts_mono cs rqs cs' outs k r :
  run cs rqs = (cs', outs) → receipts cs !! k = Some r → receipts cs' !! k = Some r.
Proof.
  revert cs outs. induction rqs as [|rq rqs IH]; intros cs outs; simpl.
  { by intros [= <- <-]. }
  destruct (apply _ _ _ _) as [cs1 o] eqn:Ha, (run cs1 rqs) as [cs2 os] eqn:Hr.
  intros [= <- <-] Hk. eapply IH; [done|]. by eapply apply_receipts_mono.
Qed.
Lemma run_wf cs rqs cs' outs : run cs rqs = (cs', outs) → cs_wf cs → cs_wf cs'.
Proof.
  revert cs outs. induction rqs as [|rq rqs IH]; intros cs outs; simpl.
  { by intros [= <- <-]. }
  destruct (apply _ _ _ _) as [cs1 o] eqn:Ha, (run cs1 rqs) as [cs2 os] eqn:Hr.
  intros [= <- <-] Hk. eapply IH; [done|]. by eapply apply_wf.
Qed.
Lemma state_new_wf (s : S) epoch : cs_wf (state_new s epoch : CommandState S R).
Proof. split; simpl; try int_lia; set_solver. Qed.
End history_lemmas.

(** ** Two-phase acceptance

    Callers persist a decision between [prepare] and [commit]; several decisions
    may be outstanding while the authority moves. *)

Section two_phase.
Context {S R C E : Type}.
Implicit Types (cs : CommandState S R) (p : PreparedCommit S R E).

(** The authority and the decisions waiting to be committed, each with the
    request that was prepared. *)
Record Authority := mk_authority {
  au_state : CommandState S R;
  au_pool : list (Request S R C E * PreparedCommit S R E)
}.

Inductive authority_step : Authority → Authority → Prop :=
  | step_prepare cs pool (rq : Request S R C E) p :
      prepare cs (rq_envelope rq) (rq_now rq) (rq_prepare rq) = Prepared p →
      authority_step (mk_authority cs pool) (mk_authority cs ((rq, p) :: pool))
  | step_commit cs pool rq p :
      (rq, p) ∈ pool →
      authority_step (mk_authority cs pool) (mk_authority (commit cs p).1 pool)
  | step_apply cs pool (rq : Request S R C E) :
      authority_step (mk_authority cs pool)
        (mk_authority
           (apply cs (rq_envelope rq) (rq_now rq) (rq_prepare rq)).1 pool)
  | step_abort cs pool1 d pool2 :
      authority_step (mk_authority cs (pool1 ++ d :: pool2))
        (mk_authority cs (pool1 ++ pool2)).

(** Two authorities a decision cannot tell apart. *)
Definition same_base cs cs' : Prop :=
  state cs = state cs' ∧ state_epoch cs = state_epoch cs' ∧
  revision cs = revision cs' ∧ event_sequence cs = event_sequence cs'.

Lemma prepare_same_base cs cs' (env : CommandEnvelope C) now prep p :
  same_base cs cs' → receipts cs' !! idempotency_key env = None →
  prepare cs env now prep = Prepared p → prepare cs' env now prep = Prepared p.
Proof.
  intros (Hs&He&Hr&Hq) Hk. unfold prepare, prepared_mutation, prepared_rejection.
  rewrite Hk, Hs, He, Hr, Hq. by destruct (receipts cs !! _).
Qed.

Lemma commit_check_decision cs (env : CommandEnvelope C) now prep p :
  decision cs env now prep p → commit_check cs p = Ok tt.
Proof.
  destruct 1 as [|mutation d payloads res evs seq ? ? ? ? Hc Hn]; [done|].
  unfold commit_check. cbn [kind prepared_events]. rewrite Hc. cbn.
  rewrite decide_False by auto.
  apply number_events_Some in Hn as (_&_&_&_&_&->). cbn. by rewrite decide_False by auto.
Qed.
Lemma decision_base cs (env : CommandEnvelope C) now prep p :
  decision cs env now prep p →
  prepared_epoch p = state_epoch cs ∧ base_revision p = revision cs ∧
  base_event_sequence p = event_sequence cs.
Proof. by destruct 1. Qed.

Lemma commit_prepared cs (env : CommandEnvelope C) now prep p :
  prepare cs env now prep = Prepared p →
  commit cs p =
    ((apply cs env now prep).1, Ok (apply cs env now prep).2).
Proof.
  intros Hp. pose proof (prepare_decision _ _ _ _ _ Hp) as [Hk Hd].
  unfold commit. rewrite (decision_key _ _ _ _ _ Hd), Hk.
  pose proof (decision_base _ _ _ _ _ Hd) as (->&->&->).
  rewrite decide_False by tauto. rewrite (commit_check_decision _ _ _ _ _ Hd).
  unfold apply. rewrite Hp. by destruct (commit_current cs p).
Qed.

(** What an outstanding decision knows of the current authority. *)
Definition pooled cs (d : Request S R C E * PreparedCommit S R E) : Prop := ∃ cs0,
  prepare cs0 (rq_envelope d.1) (rq_now d.1) (rq_prepare d.1) = Prepared d.2 ∧
  state_epoch cs0 = state_epoch cs ∧ revision cs0 ≤ revision cs ∧
  (revision cs0 = revision cs → same_base cs0 cs).

(** How an authority may move. *)
Definition advances cs cs' : Prop :=
  state_epoch cs' = state_epoch cs ∧
  (same_base cs cs' ∨ revision cs' = revision cs + 1).

Lemma apply_advances cs (env : CommandEnvelope C) now
    (prep : S → C → result Rejection (Mutation S E R)) :
  advances cs (apply cs env now prep).1.
Proof.
  destruct (apply cs env now prep) as [cs' out] eqn:Ha.
  apply apply_step in Ha as [(->&_)|(_&_&He&_&[(_&_&?&?&?)|(_&?&_)])]; simpl.
  - split; [done|left; done].
  - split; [done|left; done].
  - split; [done|by right].
Qed.

Lemma pooled_advances cs cs' d : pooled cs d → advances cs cs' → pooled cs' d.
Proof.
  intros (cs0&Hp&He&Hr&Hb) [He' [Hs|Hr']]; exists cs0.
  - destruct Hs as (?&?&?&?). split_and!; [done|congruence|lia|].
    intros ?. destruct Hb as (?&?&?&?); [lia|]. repeat split; congruence.
  - split_and!; [done|congruence|lia|lia].
Qed.

(** A commit is refused, replayed, or is the [apply] of the request that was
    prepared, on the authority as it is now. *)
Lemma commit_pooled cs rq p :
  pooled cs (rq, p) →
  (base_revision p < revision cs ∧ ∃ a b c d, commit cs p = (cs, Err (StaleAuthority a b c d))) ∨
  commit cs p =
    ((apply cs (rq_envelope rq) (rq_now rq) (rq_prepare rq)).1,
     Ok (apply cs (rq_envelope rq) (rq_now rq) (rq_prepare rq)).2).
Proof.
  intros (cs0&Hp&He&Hr&Hb). cbn [fst snd] in *.
  pose proof (prepare_decision _ _ _ _ _ Hp) as [Hk0 Hd].
  pose proof (decision_key _ _ _ _ _ Hd) as Hkey.
  pose proof (decision_base _ _ _ _ _ Hd) as (He0&Hr0&Hq0).
  destruct (receipts cs !! prepared_key p) as [r|] eqn:Hk.
  { right. unfold commit. rewrite Hk. rewrite Hkey in Hk.
    by rewrite (apply_known _ _ _ _ r). }
  destruct (decide (revision cs0 = revision cs)) as [Heq|Hne].
  - right. apply commit_prepared. apply prepare_same_base with cs0; [auto|congruence|done].
  - left. unfold commit. rewrite Hk, decide_True by (right; left; congruence).
    split; [rewrite Hr0; lia|]. eauto.
Qed.

Record authority_ok (a : Authority) : Prop := {
  ok_wf : cs_wf (au_state a);
  ok_pool : Forall (pooled (au_state a)) (au_pool a)
}.

Lemma authority_ok_step a b : authority_step a b → authority_ok a → authority_ok b.
Proof.
  destruct 1 as [cs pool rq p Hp|cs pool rq p Hin|cs pool rq|cs pool1 d pool2];
    intros [Hwf Hpool]; simpl in *.
  - split; [done|]. constructor; [|done]. exists cs. done.
  - pose proof Hpool as Hp. rewrite Forall_forall in Hp. specialize (Hp (rq, p) Hin).
    destruct (commit_pooled cs rq p Hp) as [(_&?&?&?&?&Hc)|Hc];
      rewrite Hc; simpl; [by split|].
    destruct (apply cs _ _ _) as [cs' out] eqn:Ha; simpl. split; simpl.
    + by eapply apply_wf.
    + eapply Forall_impl; [done|]. intros q Hq. eapply pooled_advances; [done|].
      pose proof (apply_advances cs (rq_envelope rq) (rq_now rq) (rq_prepare rq)) as Had.
      by rewrite Ha in Had.
  - pose proof (apply_advances cs (rq_envelope rq) (rq_now rq) (rq_prepare rq)) as Had.
    destruct (apply cs _ _ _) as [cs' out] eqn:Ha; simpl in *. split; simpl.
    + by eapply apply_wf.
    + eapply Forall_impl; [done|]. intros q Hq. by eapply pooled_advances.
  - split; [done|]. simpl. apply Forall_app in Hpool as [? Hpool].
    apply Forall_cons in Hpool as [_ ?]. by apply Forall_app.
Qed.

Definition reachable (start : CommandState S R) (a : Authority) : Prop :=
  rtc authority_step (mk_authority start []) a.

Lemma reachable_ok start a : cs_wf start → reachable start a → authority_ok a.
Proof.
  intros Hwf Hr. assert (authority_ok (mk_authority start [])) as Hok by by split.
  unfold reachable in Hr. induction Hr; eauto using authority_ok_step.
Qed.
End two_phase.
Arguments Authority : clear implicits.

(** ** A concrete client for the witnesses: a total that only grows *)

Module Demo.
Definition prep (s c : Z) : result Rejection (Mutation Z string Z) :=
  if decide (c < 0) then Err (rejection_new InvalidCommand "negative")
  else Ok (λ draft events, (draft + c, events ++ ["added"; "logged"], Ok (draft + c))).
Definition env (key : string) (c : Z) : CommandEnvelope Z := envelope_new ("id-" +:+ key) key c.
Definition rq (key : string) (c : Z) : Request Z Z Z string :=
  mk_request (env key c) 0 prep.
Definition start : CommandState Z Z := state_new 10 7.
Definition tenv (key : string) (cs : list Z) : CommandEnvelope (Transaction Z) :=
  envelope_new ("id-" +:+ key) key (mk_transaction cs).
Definition tstart : CommandState Z (list Z) := state_new 10 7.
Definition prepared (key : string) (c : Z) : option (PreparedCommit Z Z string) :=
  match prepare start (env key c) 0 prep with
  | Prepared p => Some p
  | Replayed _ => None
  end.
End Demo.

Section theorems.
Context {S R C E : Type}.
Implicit Types (cs : CommandState S R) (env : CommandEnvelope C)
  (prep : S → C → result Rejection (Mutation S E R)).

(** C17: [apply] on an unseen idempotency key is atomic: it records one receipt
    under the key and either leaves state, revision and event sequence as they
    were and emits nothing, or runs the whole mutation on the current state,
    advances the revision by one and emits exactly the mutation's events, with
    consecutive sequence numbers under the new revision.  An accepted command
    had not passed its deadline and expected the current revision. *)
Theorem apply_atomic cs env now prep cs' out :
  receipts cs !! idempotency_key env = None →
  apply cs env now prep = (cs', out) →
  replayed out = false ∧
  state_epoch cs' = state_epoch cs ∧
  receipts cs' = <[idempotency_key env := receipt out]> (receipts cs) ∧
  match receipt out with
  | Rejected cid _ current =>
      cid = id env ∧ current = revision cs ∧ events out = [] ∧ state cs' = state cs ∧
      revision cs' = revision cs ∧ event_sequence cs' = event_sequence cs
  | Accepted cid rev result =>
      cid = id env ∧ rev = revision cs + 1 ∧ revision cs' = rev ∧ in_ty U64 rev ∧
      (∀ t, deadline env = Some t → now ≤ t) ∧
      (∀ r, expected_revision env = Some r → r = revision cs) ∧
      (∃ mutation, prep (state cs) (command env) = Ok mutation ∧
         mutation (state cs) [] = (state cs', ev_payload <$> events out, Ok result)) ∧
      ev_sequence <$> events out =
        seqZ (event_sequence cs + 1) (Z.of_nat (length (events out))) ∧
      Forall (λ ev, ev_state_epoch ev = state_epoch cs ∧ ev_revision ev = rev)
        (events out) ∧
      event_sequence cs' = event_sequence cs + Z.of_nat (length (events out)) ∧
      (in_ty U64 (event_sequence cs) → in_ty U64 (event_sequence cs'))
  end.
Proof.
  intros Hk Ha. destruct (apply_spec _ _ _ _ _ _ Hk Ha) as (p&Hd&Hc).
  by apply (commit_decision _ _ _ _ _ _ _ Hd Hc).
Qed.

(** a fresh command that meets its deadline and expected revision, is
    prepared and whose mutation succeeds is accepted whenever the revision and
    event-sequence counters have room. *)
Theorem apply_accepts cs env now prep mutation d payloads result :
  receipts cs !! idempotency_key env = None →
  (∀ t, deadline env = Some t → now ≤ t) →
  (∀ r, expected_revision env = Some r → r = revision cs) →
  prep (state cs) (command env) = Ok mutation →
  mutation (state cs) [] = (d, payloads, Ok result) →
  in_ty U64 (revision cs + 1) →
  in_ty U64 (event_sequence cs) →
  in_ty U64 (event_sequence cs + Z.of_nat (length payloads)) →
  ∃ cs' out, apply cs env now prep = (cs', out) ∧
    receipt out = Accepted (id env) (revision cs + 1) result ∧
    ev_payload <$> events out = payloads ∧ state cs' = d.
Proof.
  intros Hk Ht He Hp Hm Hr Hq Hq'. unfold apply, prepare. rewrite Hk.
  destruct (from_option (λ t, is_exceeded_at t now) false (deadline env)) eqn:Hd.
  { destruct (deadline env) as [t|]; [|done]. simpl in Hd.
    apply bool_decide_eq_true in Hd. specialize (Ht t eq_refl). lia. }
  destruct (from_option (λ r, bool_decide (r ≠ revision cs)) false _) eqn:Hx.
  { destruct (expected_revision env) as [r|]; [|done]. simpl in Hx.
    by apply bool_decide_eq_true in Hx; specialize (He r eq_refl). }
  rewrite Hp. unfold prepared_mutation. rewrite Hm.
  rewrite (proj2 (checked_next_Ok _ _) (conj eq_refl Hr)).
  destruct (number_events _ _ _ payloads) as [[evs seq]|] eqn:Hn; last first.
  { apply number_events_None in Hn; [int_lia|done]. }
  apply number_events_Some in Hn as (_&Hpl&_). simpl. eauto 10.
Qed.

(** exactly once: after a command has been decided, and whatever else has
    been applied since, any envelope with its idempotency key gets the recorded
    receipt back, emits nothing and leaves the authority untouched. *)
Theorem apply_exactly_once cs env now prep cs1 out (rqs : list (Request S R C E))
    cs2 outs env' now' (prep' : S → C → result Rejection (Mutation S E R)) :
  apply cs env now prep = (cs1, out) →
  run cs1 rqs = (cs2, outs) →
  idempotency_key env' = idempotency_key env →
  apply cs2 env' now' prep' = (cs2, mk_apply_outcome (receipt out) [] true).
Proof.
  intros Ha Hr Hk. apply apply_known. rewrite Hk.
  eapply run_receipts_mono; [done|]. by eapply apply_records.
Qed.

(** the durable event log has no gap, no repetition and no reordering:
    over any history the emitted events are numbered consecutively from the
    event sequence the authority had, and the revision counts the newly
    accepted commands. *)
Theorem run_gapless cs (rqs : list (Request S R C E)) cs' outs :
  run cs rqs = (cs', outs) →
  ev_sequence <$> (outs ≫= events) =
    seqZ (event_sequence cs + 1) (event_sequence cs' - event_sequence cs) ∧
  event_sequence cs ≤ event_sequence cs' ∧
  revision cs' = revision cs + Z.of_nat (length (filter newly_accepted outs)).
Proof.
  revert cs outs. induction rqs as [|rq rqs IH]; intros cs outs; simpl.
  { intros [= <- <-]. rewrite Z.sub_diag. simpl. split_and!; [done|lia..]. }
  destruct (apply _ _ _ _) as [cs1 o] eqn:Ha, (run cs1 rqs) as [cs2 os] eqn:Hr.
  intros [= <- <-]. destruct (IH _ _ Hr) as (Hs&Hle&Hrev).
  rewrite bind_cons, fmap_app, Hs, Hrev.
  assert (Hna : newly_accepted o =
    negb (replayed o) && bool_decide (is_Some (accepted_revision (receipt o)))) by done.
  apply apply_step in Ha as [(->&Hrp&Hev&_)|(_&Hrp&_&_&Hc)]; rewrite Hrp in Hna.
  { rewrite Hev, filter_cons_False by (rewrite Hna; cbn; tauto). by split_and!. }
  destruct Hc as [(Hrc&Hev&_&Hrv&Hsq)|(Hrc&Hrv&_&Hev&Hsq&_)]; rewrite Hrc in Hna.
  - rewrite Hev, Hrv, Hsq in *. rewrite filter_cons_False by (rewrite Hna; cbn; tauto).
    by split_and!.
  - rewrite Hev, filter_cons_True by (rewrite Hna; cbn; tauto). split_and!; [|lia|cbn; lia].
    replace (event_sequence cs1 + 1)
      with (event_sequence cs + 1 + Z.of_nat (length (events o))) by lia.
    rewrite <-seqZ_app by lia. f_equal. lia.
Qed.

(** the receipts are a ledger: under every interleaving of one-phase
    applies, outstanding preparations, commits and aborts, the counters stay
    64-bit and every accepted receipt names its own revision, between 1 and the
    current one. *)
Theorem reachable_wf (start : CommandState S R) (a : Authority S R C E) :
  cs_wf start → reachable start a → cs_wf (au_state a).
Proof. intros Hwf Hr. by destruct (reachable_ok start a Hwf Hr). Qed.

(** C8: optimistic commits lose no update: in every reachable authority the
    commit of an outstanding decision does exactly what applying the very request
    that was prepared to the current authority does, or is refused as stale without
    any change, and refused only when another command was accepted since. *)
Theorem commit_linearizable (start : CommandState S R) (a : Authority S R C E) rq p :
  cs_wf start → reachable start a → (rq, p) ∈ au_pool a →
  commit (au_state a) p =
    ((apply (au_state a) (rq_envelope rq) (rq_now rq) (rq_prepare rq)).1,
     Ok (apply (au_state a) (rq_envelope rq) (rq_now rq) (rq_prepare rq)).2) ∨
  (base_revision p < revision (au_state a) ∧
   ∃ b c d e, commit (au_state a) p = (au_state a, Err (StaleAuthority b c d e))).
Proof.
  intros Hwf Hr Hin. destruct (reachable_ok start a Hwf Hr) as [_ Hp].
  rewrite Forall_forall in Hp. destruct (commit_pooled _ rq p (Hp _ Hin)); [by right|by left].
Qed.

(** [commit] right after [prepare] is [apply]: the two-phase and the
    one-phase path decide alike. *)
Theorem commit_prepare_apply cs env now prep p :
  prepare cs env now prep = Prepared p →
  commit cs p = ((apply cs env now prep).1, Ok (apply cs env now prep).2).
Proof. apply commit_prepared. Qed.

(** a decision prepared before another command was newly accepted is
    refused: [commit] reports the stale authority and changes nothing. *)
Theorem commit_stale cs env now prep p (rqs : list (Request S R C E)) cs' outs :
  prepare cs env now prep = Prepared p →
  run cs rqs = (cs', outs) →
  Exists newly_accepted outs →
  receipts cs' !! idempotency_key env = None →
  commit cs' p =
    (cs', Err (StaleAuthority (revision cs) (revision cs')
                 (event_sequence cs) (event_sequence cs'))).
Proof.
  intros Hp Hr Hex Hk. pose proof (prepare_decision _ _ _ _ _ Hp) as [_ Hd].
  destruct (run_gapless _ _ _ _ Hr) as (_&_&Hrev).
  assert (0 < Z.of_nat (length (filter newly_accepted outs))) as Hpos.
  { apply Exists_exists in Hex as (o&Hin&Ho).
    assert (o ∈ filter newly_accepted outs) as Hf by by apply list_elem_of_filter.
    destruct (filter newly_accepted outs); [by apply not_elem_of_nil in Hf|simpl; lia]. }
  unfold commit. rewrite (decision_key _ _ _ _ _ Hd), Hk.
  pose proof (decision_base _ _ _ _ _ Hd) as (->&->&->).
  rewrite decide_True by (right; left; lia). done.
Qed.
End theorems.

(** ** Transactions *)

Section transaction_theorems.
Context {S R C E : Type}.
Implicit Types (prep : S → C → result Rejection (Mutation S E R)).

(** The specification of a batch: each command is prepared and applied on the
    draft its predecessors left, and every one succeeds. *)
Inductive executes prep : list C → S → list E → S → list E → list R → Prop :=
  | executes_nil s evs : executes prep [] s evs s evs []
  | executes_cons c cs s evs mutation s1 evs1 r s2 evs2 rs :
      prep s c = Ok mutation → mutation s evs = (s1, evs1, Ok r) →
      executes prep cs s1 evs1 s2 evs2 rs →
      executes prep (c :: cs) s evs s2 evs2 (r :: rs).

Lemma run_transaction_Ok prep cs s evs rs0 s' evs' rs :
  run_transaction prep cs s evs rs0 = (s', evs', Ok rs) ↔
  ∃ rs1, rs = rs0 ++ rs1 ∧ executes prep cs s evs s' evs' rs1.
Proof.
  revert s evs rs0. induction cs as [|c cs IH]; intros s evs rs0; simpl.
  { split.
    - intros [= <- <- <-]. exists []. rewrite app_nil_r. split; [done|constructor].
    - intros (rs1&->&Hx). inversion Hx; subst. by rewrite app_nil_r. }
  split.
  - destruct (prep s c) as [mutation|] eqn:Hp; [|done].
    destruct (mutation s evs) as [[s1 evs1] [r|]] eqn:Hm; [|done].
    intros (rs1&->&Hx)%IH. exists (r :: rs1). rewrite <-(assoc_L (++)).
    split; [done|]. by econstructor.
  - intros (rs1&->&Hx). inversion Hx; subst.
    repeat match goal with H : _ = _ |- _ => rewrite H end.
    apply IH. eexists. rewrite <-(assoc_L (++)). by split.
Qed.
Lemma executes_length prep cs s evs s' evs' rs :
  executes prep cs s evs s' evs' rs → length rs = length cs.
Proof. induction 1; simpl; congruence. Qed.

(** a transaction is all or nothing: committing its decision either leaves
    state, revision and event sequence as they were, or runs every command of
    the batch in order, each on the draft of the previous ones, and publishes
    all their events under one new revision. *)
Theorem transaction_atomic (cs : CommandState S (list R))
    (env : CommandEnvelope (Transaction C)) now prep p cs' out :
  prepare_transaction cs env now prep = Prepared p →
  commit cs p = (cs', Ok out) →
  match receipt out with
  | Accepted _ rev results =>
      executes prep (commands (command env)) (state cs) [] (state cs')
        (ev_payload <$> events out) results ∧
      length results = length (commands (command env)) ∧
      rev = revision cs + 1 ∧ revision cs' = rev ∧
      Forall (λ ev, ev_revision ev = rev) (events out)
  | Rejected _ _ _ =>
      state cs' = state cs ∧ revision cs' = revision cs ∧
      event_sequence cs' = event_sequence cs ∧ events out = []
  end.
Proof.
  intros Hp Hc. pose proof (prepare_decision _ _ _ _ _ Hp) as [Hk Hd].
  rewrite (commit_prepared _ _ _ _ _ Hp) in Hc. unfold apply in Hc.
  unfold prepare_transaction in Hp. rewrite Hp in Hc.
  destruct (commit_current cs p) as [cs1 out1] eqn:Hcc. simplify_eq/=.
  pose proof (commit_decision _ _ _ _ _ _ _ Hd Hcc) as (_&_&_&Hr).
  destruct (receipt out); [|naive_solver].
  destruct Hr as (_&->&->&_&_&_&(mutation&[= <-]&Hm)&_&Hf&_).
  apply run_transaction_Ok in Hm as (rs1&->&Hx). simpl. split_and!; try done.
  - by eapply executes_length.
  - eapply Forall_impl; [exact Hf|]. by intros ev [_ ?].
Qed.

Lemma collect_bounded_spec (bounded input : list C) :
  (length bounded ≤ MAX_TRANSACTION_COMMANDS)%nat →
  collect_bounded bounded input =
    if decide (length (bounded ++ input) ≤ MAX_TRANSACTION_COMMANDS)%nat
    then Ok (bounded ++ input) else Err (TooManyCommands MAX_TRANSACTION_COMMANDS).
Proof.
  revert bounded. induction input as [|c input IH]; intros bounded Hb; cbn [collect_bounded].
  { rewrite app_nil_r. by rewrite decide_True. }
  rewrite length_app; simpl length. case_decide as Hl; [by rewrite decide_False by lia|].
  rewrite IH by (rewrite length_app; simpl; lia). rewrite <-(assoc_L (++)), length_app.
  done.
Qed.

(** [Transaction::new] accepts exactly the batches of 1 to 256 commands,
    unchanged and in order; longer input is refused whatever its length. *)
Theorem transaction_new_bounds (input : list C) :
  transaction_new input =
    if decide (length input = 0)%nat then Err Empty
    else if decide (length input ≤ 256)%nat then Ok (mk_transaction input)
    else Err (TooManyCommands 256).
Proof.
  unfold transaction_new. rewrite collect_bounded_spec by (simpl; lia). simpl.
  unfold MAX_TRANSACTION_COMMANDS. destruct input as [|c input]; [done|].
  rewrite (decide_False (P := length (c :: input) = 0%nat)) by done.
  by repeat case_decide.
Qed.
End transaction_theorems.

(** ** Witnesses *)

Definition demo_apply (cs : CommandState Z Z) (key : string) (c : Z) :=
  apply cs (Demo.env key c) 0 Demo.prep.

Lemma apply_atomic_witness :
  match demo_apply Demo.start "k" 5 with
  | (cs', out) =>
      receipt out = Accepted "id-k" 1 15 ∧
      state cs' = 15 ∧ ev_sequence <$> events out = seqZ 1 2
  end.
Proof.
  destruct (apply_atomic Demo.start (Demo.env "k" 5) 0 Demo.prep
    (demo_apply Demo.start "k" 5).1 (demo_apply Demo.start "k" 5).2 eq_refl eq_refl)
    as (_&_&_&Hr).
  cbn in Hr. destruct Hr as (_&_&_&_&_&_&_&Hs&_&_&_).
  split; [reflexivity|]. split; [reflexivity|]. exact Hs.
Defined.

Lemma apply_accepts_witness :
  ∃ cs' out, apply Demo.start (Demo.env "k" 5) 0 Demo.prep = (cs', out) ∧
    receipt out = Accepted "id-k" 1 15 ∧
    ev_payload <$> events out = ["added"; "logged"] ∧ state cs' = 15.
Proof.
  refine (apply_accepts Demo.start (Demo.env "k" 5) 0 Demo.prep
    (λ draft events, (draft + 5, events ++ ["added"; "logged"], Ok (draft + 5)))
    15 ["added"; "logged"] 15 _ _ _ _ _ _ _ _); try reflexivity; try done; int_lia.
Defined.

Lemma apply_exactly_once_witness :
  apply (run (demo_apply Demo.start "k" 5).1 [Demo.rq "l" 1; Demo.rq "k" 9]).1
    (Demo.env "k" 77) 3 Demo.prep =
  ((run (demo_apply Demo.start "k" 5).1 [Demo.rq "l" 1; Demo.rq "k" 9]).1,
   mk_apply_outcome (Accepted "id-k" 1 15) [] true).
Proof.
  exact (apply_exactly_once Demo.start (Demo.env "k" 5) 0 Demo.prep
    (demo_apply Demo.start "k" 5).1 (demo_apply Demo.start "k" 5).2
    [Demo.rq "l" 1; Demo.rq "k" 9]
    (run (demo_apply Demo.start "k" 5).1 [Demo.rq "l" 1; Demo.rq "k" 9]).1
    (run (demo_apply Demo.start "k" 5).1 [Demo.rq "l" 1; Demo.rq "k" 9]).2
    (Demo.env "k" 77) 3 Demo.prep eq_refl eq_refl eq_refl).
Defined.

Lemma run_gapless_witness :
  let r := run Demo.start [Demo.rq "k" 5; Demo.rq "l" (-1); Demo.rq "m" 2; Demo.rq "k" 5] in
  ev_sequence <$> (r.2 ≫= events) = seqZ 1 4 ∧ revision r.1 = 2.
Proof.
  intros r. destruct (run_gapless Demo.start
    [Demo.rq "k" 5; Demo.rq "l" (-1); Demo.rq "m" 2; Demo.rq "k" 5] r.1 r.2 eq_refl)
    as (Hs&_&Hr).
  split; [exact Hs|exact Hr].
Defined.

Definition demo_pool : list (Request Z Z Z string * PreparedCommit Z Z string) :=
  default [] (p ← Demo.prepared "a" 1; q ← Demo.prepared "b" 2;
              Some [(Demo.rq "b" 2, q); (Demo.rq "a" 1, p)]).
(** Two decisions wait; the authority is as it was when they were prepared, or
    has accepted another command since. *)
Definition demo_waiting : Authority Z Z Z string :=
  {| au_state := Demo.start; au_pool := demo_pool |}.
Definition demo_authority : Authority Z Z Z string :=
  {| au_state := (demo_apply Demo.start "c" 3).1; au_pool := demo_pool |}.

(** The demo authorities are reached by two preparations and an apply. *)
Lemma demo_waiting_reachable : reachable Demo.start demo_waiting.
Proof.
  eapply rtc_l; [by apply (step_prepare Demo.start [] (Demo.rq "a" 1))|].
  eapply rtc_l; [by apply (step_prepare Demo.start _ (Demo.rq "b" 2))|].
  apply rtc_refl.
Qed.
Lemma demo_reachable : reachable Demo.start demo_authority.
Proof.
  eapply rtc_r; [apply demo_waiting_reachable|].
  by apply (step_apply Demo.start _ (Demo.rq "c" 3)).
Qed.

Lemma reachable_wf_witness : cs_wf (au_state demo_authority).
Proof.
  apply (reachable_wf Demo.start demo_authority).
  - apply state_new_wf.
  - apply demo_reachable.
Defined.

Lemma commit_linearizable_witness :
  ∃ p, Demo.prepared "a" 1 = Some p ∧
    commit Demo.start p = ((demo_apply Demo.start "a" 1).1, Ok (demo_apply Demo.start "a" 1).2) ∧
    revision (commit Demo.start p).1 = 1 ∧
    ∃ b c d e, commit (demo_apply Demo.start "c" 3).1 p =
      ((demo_apply Demo.start "c" 3).1, Err (StaleAuthority b c d e)).
Proof.
  destruct (Demo.prepared "a" 1) as [p|] eqn:Hp; [|discriminate Hp].
  pose proof Hp as Hpa. injection Hp as Hp.
  assert (Hin : (Demo.rq "a" 1, p) ∈ demo_pool) by (rewrite <-Hp; right; left).
  exists p. split; [reflexivity|].
  destruct (commit_linearizable Demo.start demo_waiting (Demo.rq "a" 1) p
    (state_new_wf 10 7) demo_waiting_reachable Hin) as [Hc|[Hlt _]].
  2: { exfalso. rewrite <-Hp in Hlt. vm_compute in Hlt. discriminate Hlt. }
  change (au_state demo_waiting) with Demo.start in Hc. split; [exact Hc|].
  split; [rewrite Hc; reflexivity|].
  destruct (commit_linearizable Demo.start demo_authority (Demo.rq "a" 1) p
    (state_new_wf 10 7) demo_reachable Hin) as [Hc'|[_ Hs]]; [|exact Hs].
  exfalso. change (au_state demo_authority) with (demo_apply Demo.start "c" 3).1 in Hc'.
  rewrite <-Hp in Hc'. vm_compute in Hc'. discriminate Hc'.
Defined.

Lemma commit_prepare_apply_witness :
  match Demo.prepared "a" 1 with
  | Some p => commit Demo.start p = ((demo_apply Demo.start "a" 1).1,
                                     Ok (demo_apply Demo.start "a" 1).2)
  | None => False
  end.
Proof.
  exact (commit_prepare_apply Demo.start (Demo.env "a" 1) 0 Demo.prep _ eq_refl).
Defined.

Lemma commit_stale_witness :
  match Demo.prepared "a" 1 with
  | Some p => commit (run Demo.start [Demo.rq "b" 2]).1 p =
      ((run Demo.start [Demo.rq "b" 2]).1, Err (StaleAuthority 0 1 0 2))
  | None => False
  end.
Proof.
  refine (commit_stale Demo.start (Demo.env "a" 1) 0 Demo.prep _ [Demo.rq "b" 2]
    (run Demo.start [Demo.rq "b" 2]).1 (run Demo.start [Demo.rq "b" 2]).2
    eq_refl eq_refl _ eq_refl).
  left. exact I.
Defined.

Lemma transaction_atomic_witness :
  match prepare_transaction Demo.tstart (Demo.tenv "t" [1; 2]) 0 Demo.prep with
  | Prepared p =>
      match commit Demo.tstart p with
      | (cs', Ok out) =>
          receipt out = Accepted "id-t" 1 [11; 13] ∧
          executes Demo.prep [1; 2] 10 [] (state cs') (ev_payload <$> events out) [11; 13]
      | _ => False
      end
  | Replayed _ => False
  end.
Proof.
  pose proof (transaction_atomic Demo.tstart (Demo.tenv "t" [1; 2]) 0 Demo.prep _ _ _
    eq_refl eq_refl) as Hx.
  cbn in Hx. destruct Hx as (Hx&_). split; [reflexivity|]. exact Hx.
Defined.
