(* ===== verification/Lifecycle.v ===== *)
(** What happens to a revision after it was accepted,
    [crates/foundation/fm-command/src/lifecycle.rs]: preparation, scheduling on
    clock domains, per-domain realization, failure and supersession.

    [Lifecycle] maps to the record of the same name; methods run in [stm] and
    leave the object they mutate.  [HashSet] and [HashMap] are [gset] and
    [gmap]. *)
From S2P Require Import Prelude Command.

(** ** Data *)

Inductive FailureDisposition := RolledBack | RetainedForRetry | FallbackRealized.

Inductive LifecyclePhase :=
  | PhaseAccepted | PhasePreparing | PhaseScheduled | PhaseRealized | PhaseFailed
  | PhaseSuperseded.
#[global] Instance LifecyclePhase_eq_dec : EqDecision LifecyclePhase.
Proof. solve_decision. Defined.

Definition is_terminal (self : LifecyclePhase) : bool :=
  match self with
  | PhaseRealized | PhaseFailed | PhaseSuperseded => true
  | _ => false
  end.

Record ScheduledDomain (D : Type) := mk_scheduled { domain : D; boundary : Z }.
Arguments mk_scheduled {D}.
Arguments domain {D}.
Arguments boundary {D}.

Inductive LifecycleEvent (D F : Type) :=
  | EvAccepted
  | EvPreparing
  | EvScheduled (domains : list (ScheduledDomain D))
  | EvRealized (domain : D) (generation : RuntimeGeneration)
  | EvFailed (failure : F) (disposition : FailureDisposition)
  | EvSuperseded (by_revision : Revision).
Arguments EvAccepted {D F}.
Arguments EvPreparing {D F}.
Arguments EvScheduled {D F}.
Arguments EvRealized {D F}.
Arguments EvFailed {D F}.
Arguments EvSuperseded {D F}.

Record LifecycleRecord (D F : Type) := mk_record {
  rec_revision : Revision;
  rec_sequence : RuntimeSequence;
  rec_event : LifecycleEvent D F
}.
Arguments mk_record {D F}.
Arguments rec_revision {D F}.
Arguments rec_sequence {D F}.
Arguments rec_event {D F}.

Inductive LifecycleError :=
  | InvalidTransition (from to : LifecyclePhase)
  | EmptySchedule
  | DuplicateDomain
  | UnknownDomain
  | DomainAlreadyRealized
  | InvalidSupersedingRevision
  | SequenceExhausted.

Record Lifecycle (D F : Type) `{Countable D} := mk_lifecycle {
  lc_revision : Revision;
  phase : LifecyclePhase;
  sequence : RuntimeSequence;
  scheduled : gset D;
  realized : gmap D RuntimeGeneration;
  records : list (LifecycleRecord D F)
}.
Arguments mk_lifecycle {D F _ _}.
Arguments lc_revision {D F _ _}.
Arguments phase {D F _ _}.
Arguments sequence {D F _ _}.
Arguments scheduled {D F _ _}.
Arguments realized {D F _ _}.
Arguments records {D F _ _}.

(** ** Operations *)

Section operations.
Context {D F : Type} `{Countable D}.
Abbreviation method := (stm (Lifecycle D F) LifecycleError unit) (only parsing).

Definition lifecycle_new (revision : Revision) : Lifecycle D F :=
  {| lc_revision := revision; phase := PhaseAccepted; sequence := 1; scheduled := ∅;
     realized := ∅; records := [mk_record revision 1 EvAccepted] |}.

Definition generation (self : Lifecycle D F) (domain : D) : option RuntimeGeneration :=
  realized self !! domain.

Definition set_phase (p : LifecyclePhase) (self : Lifecycle D F) : Lifecycle D F :=
  {| lc_revision := lc_revision self; phase := p; sequence := sequence self;
     scheduled := scheduled self; realized := realized self; records := records self |}.
Definition set_scheduled (s : gset D) (self : Lifecycle D F) : Lifecycle D F :=
  {| lc_revision := lc_revision self; phase := phase self; sequence := sequence self;
     scheduled := s; realized := realized self; records := records self |}.
Definition set_realized (r : gmap D RuntimeGeneration) (self : Lifecycle D F) :
    Lifecycle D F :=
  {| lc_revision := lc_revision self; phase := phase self; sequence := sequence self;
     scheduled := scheduled self; realized := r; records := records self |}.

Definition require_transition (to : LifecyclePhase) (allowed : list LifecyclePhase) :
    method :=
  self ← st_get;
  st_require (phase self ∈ allowed) (InvalidTransition (phase self) to).

Definition push (event : LifecycleEvent D F) : method :=
  self ← st_get;
  next ← st_lift (result_map_err (λ _, SequenceExhausted) (checked_next (sequence self)));
  st_put {| lc_revision := lc_revision self; phase := phase self; sequence := next;
            scheduled := scheduled self; realized := realized self;
            records := records self ++ [mk_record (lc_revision self) next event] |}.

Definition begin_preparing : method :=
  _ ← require_transition PhasePreparing [PhaseAccepted];
  _ ← push EvPreparing;
  st_modify (set_phase PhasePreparing).

Definition schedule (domains : list (ScheduledDomain D)) : method :=
  _ ← require_transition PhaseScheduled [PhasePreparing];
  _ ← st_require (domains ≠ []) EmptySchedule;
  let scheduled : gset D := list_to_set (domain <$> domains) in
  _ ← st_require (size scheduled = length domains) DuplicateDomain;
  _ ← push (EvScheduled domains);
  _ ← st_modify (set_scheduled scheduled);
  st_modify (set_phase PhaseScheduled).

Definition realize (domain : D) (generation : RuntimeGeneration) : method :=
  _ ← require_transition PhaseRealized [PhaseScheduled];
  self ← st_get;
  _ ← st_require (domain ∈ scheduled self) UnknownDomain;
  _ ← st_require (realized self !! domain = None) DomainAlreadyRealized;
  _ ← push (EvRealized domain generation);
  _ ← st_modify (λ self, set_realized (<[domain := generation]> (realized self)) self);
  st_modify (λ self,
    if decide (size (realized self) = size (scheduled self))
    then set_phase PhaseRealized self else self).

Definition fail (failure : F) (disposition : FailureDisposition) : method :=
  _ ← require_transition PhaseFailed [PhaseAccepted; PhasePreparing; PhaseScheduled];
  _ ← push (EvFailed failure disposition);
  st_modify (set_phase PhaseFailed).

Definition supersede (by_revision : Revision) : method :=
  _ ← require_transition PhaseSuperseded [PhaseAccepted; PhasePreparing; PhaseScheduled];
  self ← st_get;
  _ ← st_require (lc_revision self < by_revision) InvalidSupersedingRevision;
  _ ← push (EvSuperseded by_revision);
  st_modify (set_phase PhaseSuperseded).

(** The public mutating interface. *)
Inductive Op :=
  | OpPrepare
  | OpSchedule (domains : list (ScheduledDomain D))
  | OpRealize (domain : D) (generation : RuntimeGeneration)
  | OpFail (failure : F) (disposition : FailureDisposition)
  | OpSupersede (by_revision : Revision).

Definition run_op (op : Op) : method :=
  match op with
  | OpPrepare => begin_preparing
  | OpSchedule domains => schedule domains
  | OpRealize domain generation => realize domain generation
  | OpFail failure disposition => fail failure disposition
  | OpSupersede by_revision => supersede by_revision
  end.
Definition lifecycle_step (l l' : Lifecycle D F) : Prop :=
  ∃ op, l' = (run_op op l).1.
End operations.
Arguments Op D F : clear implicits.

(** ** The abstract lifecycle: an automaton over events *)

Section spec.
Context {D F : Type} `{Countable D}.

Record View := mk_view {
  v_phase : LifecyclePhase;
  v_scheduled : gset D;
  v_realized : gmap D RuntimeGeneration
}.
Definition view (l : Lifecycle D F) : View :=
  mk_view (phase l) (scheduled l) (realized l).

Definition live (p : LifecyclePhase) : Prop := is_terminal p = false.

Inductive event_step (revision : Revision) : View → LifecycleEvent D F → View → Prop :=
  | es_prepare s r :
      event_step revision (mk_view PhaseAccepted s r) EvPreparing (mk_view PhasePreparing s r)
  | es_schedule s r domains :
      domains ≠ [] → NoDup (domain <$> domains) →
      event_step revision (mk_view PhasePreparing s r) (EvScheduled domains)
        (mk_view PhaseScheduled (list_to_set (domain <$> domains)) r)
  | es_realize s r d g :
      d ∈ s → d ∉ dom r → {[d]} ∪ dom r ≠ s →
      event_step revision (mk_view PhaseScheduled s r) (EvRealized d g)
        (mk_view PhaseScheduled s (<[d := g]> r))
  | es_realize_last s r d g :
      d ∈ s → d ∉ dom r → {[d]} ∪ dom r = s →
      event_step revision (mk_view PhaseScheduled s r) (EvRealized d g)
        (mk_view PhaseRealized s (<[d := g]> r))
  | es_fail p s r f x :
      live p → event_step revision (mk_view p s r) (EvFailed f x) (mk_view PhaseFailed s r)
  | es_supersede p s r v :
      live p → revision < v →
      event_step revision (mk_view p s r) (EvSuperseded v) (mk_view PhaseSuperseded s r).

(** The runs of the automaton from acceptance. *)
Inductive event_run (revision : Revision) : list (LifecycleEvent D F) → View → Prop :=
  | er_accepted : event_run revision [EvAccepted] (mk_view PhaseAccepted ∅ ∅)
  | er_step evs v ev v' :
      event_run revision evs v → event_step revision v ev v' →
      event_run revision (evs ++ [ev]) v'.
End spec.
Arguments View D {_ _}.

(** ** Lemmas *)

Section lemmas.
Context {D F : Type} `{Countable D}.
Implicit Types (l : Lifecycle D F) (v : View D) (op : Op D F).

(** The state a successful [push] leaves. *)
Definition pushed (event : LifecycleEvent D F) (l : Lifecycle D F) : Lifecycle D F :=
  {| lc_revision := lc_revision l; phase := phase l; sequence := sequence l + 1;
     scheduled := scheduled l; realized := realized l;
     records := records l ++ [mk_record (lc_revision l) (sequence l + 1) event] |}.

Lemma wp_push event (Q : outcome LifecycleError unit → Lifecycle D F → Prop) l :
  (in_ty U64 (sequence l + 1) → Q (Ret tt) (pushed event l)) →
  (¬ in_ty U64 (sequence l + 1) → Q (Throw SequenceExhausted) l) →
  wp (push event) Q l.
Proof.
  intros Hok Herr. unfold push. wp_run.
  - destruct (checked_next (sequence l)) eqn:Hn; simplify_eq/=.
    apply checked_next_Ok in Hn as [-> ?]. by apply Hok.
  - destruct (checked_next (sequence l)) eqn:Hn; simplify_eq/=.
    apply checked_next_Err in Hn. by apply Herr.
Qed.
Lemma wp_require_transition to allowed
    (Q : outcome LifecycleError unit → Lifecycle D F → Prop) l :
  (phase l ∈ allowed → Q (Ret tt) l) →
  (phase l ∉ allowed → Q (Throw (InvalidTransition (phase l) to)) l) →
  wp (require_transition to allowed) Q l.
Proof. intros ??. unfold require_transition. by wp_run; auto. Qed.

Ltac lc_run :=
  repeat first
    [ apply wp_push; intros ?; cbn beta iota
    | apply wp_require_transition; intros ?; cbn beta iota
    | wp_step; cbn beta iota ].

Lemma NoDup_list_to_set_size (ds : list D) :
  size (list_to_set ds : gset D) = length ds ↔ NoDup ds.
Proof.
  split; [|by apply size_list_to_set].
  induction ds as [|d ds IH]; [constructor|]. cbn [length].
  intros Hs. assert (size (list_to_set ds : gset D) ≤ length ds)%nat as Hle.
  { clear. induction ds as [|d ds IH]; [done|].
    rewrite list_to_set_cons, size_union_alt, size_singleton. simpl.
    pose proof (subseteq_size (list_to_set ds ∖ {[d]} : gset D) (list_to_set ds)
      ltac:(set_solver)). lia. }
  rewrite list_to_set_cons in Hs.
  destruct (decide (d ∈ ds)) as [Hd|Hd].
  - rewrite (subseteq_union_1_L {[d]} (list_to_set ds)) in Hs by set_solver. lia.
  - rewrite size_union, size_singleton in Hs by set_solver.
    constructor; [done|]. apply IH. lia.
Qed.

(** What every run of the automaton keeps. *)
Record view_ok v : Prop := {
  vo_sub : dom (v_realized v) ⊆ v_scheduled v;
  vo_before : v_phase v = PhaseAccepted ∨ v_phase v = PhasePreparing →
    v_realized v = ∅;
  vo_scheduled : v_phase v = PhaseScheduled → dom (v_realized v) ≠ v_scheduled v;
  vo_realized : v_phase v = PhaseRealized → dom (v_realized v) = v_scheduled v
}.
Lemma view_ok_step revision v (ev : LifecycleEvent D F) v' :
  event_step revision v ev v' → view_ok v → view_ok v'.
Proof.
  destruct 1 as [s r|s r ds Hne Hnd|s r d g Hd Hr Hs|s r d g Hd Hr Hs|p s r f x Hp|p s r u Hp Hu];
    intros [Hsub Hb Hsc Hre]; simpl in *;
    split; simpl; rewrite ?dom_insert_L; try (intros [|]); try done; auto.
  - rewrite Hb by auto. rewrite dom_empty_L. set_solver.
  - intros _. rewrite Hb, dom_empty_L by auto. destruct ds as [|d ds]; [done|].
    rewrite fmap_cons, list_to_set_cons. set_solver.
  - set_solver.
  - set_solver.
Qed.
Lemma event_run_ok revision (evs : list (LifecycleEvent D F)) v :
  event_run revision evs v → view_ok v.
Proof.
  induction 1; [|by eapply view_ok_step].
  split; simpl; try done; set_solver.
Qed.

(** The representation invariant: the object is the view of its own records. *)
Record lifecycle_wf l : Prop := {
  lw_run : event_run (lc_revision l) (rec_event <$> records l) (view l);
  lw_sequence : sequence l = Z.of_nat (length (records l));
  lw_range : in_ty U64 (sequence l);
  lw_numbered : rec_sequence <$> records l = seqZ 1 (Z.of_nat (length (records l)));
  lw_revision : Forall (λ r, rec_revision r = lc_revision l) (records l)
}.

Lemma lifecycle_new_wf revision : lifecycle_wf (lifecycle_new revision).
Proof.
  split; [constructor|done|int_lia|done|]. by repeat constructor.
Qed.

(** An operation that pushed an event and moved the view along the automaton. *)
Lemma pushed_wf l (event : LifecycleEvent D F) p s r :
  lifecycle_wf l → in_ty U64 (sequence l + 1) →
  event_step (lc_revision l) (view l) event (mk_view p s r) →
  lifecycle_wf {| lc_revision := lc_revision l; phase := p; sequence := sequence l + 1;
    scheduled := s; realized := r;
    records := records l ++ [mk_record (lc_revision l) (sequence l + 1) event] |}.
Proof.
  intros [Hrun Hseq Hr Hn Hrev] Hin Hstep. split; simpl.
  - rewrite fmap_app. by eapply er_step.
  - rewrite length_app; simpl. lia.
  - done.
  - rewrite fmap_app, Hn, length_app, Nat2Z.inj_add, seqZ_app by lia.
    rewrite Hseq. f_equal. cbn [length]. rewrite seqZ_cons by lia. cbn. f_equal. lia.
  - apply Forall_app. split; [done|]. by constructor.
Qed.

Lemma size_dom_eq (r : gmap D RuntimeGeneration) (s : gset D) :
  dom r ⊆ s → size r = size s ↔ dom r = s.
Proof.
  intros Hsub. rewrite <-size_dom. split; [|by intros ->].
  intros Hsz. apply leibniz_equiv.
  apply set_subseteq_size_equiv; [done|lia].
Qed.

(** Every operation follows the automaton or throws and changes nothing. *)
Lemma run_op_spec op l :
  lifecycle_wf l →
  wp (run_op op) (λ res l', match res with
    | Ret _ => lifecycle_wf l' ∧ lc_revision l' = lc_revision l ∧
        ∃ ev, records l' = records l ++ [mk_record (lc_revision l) (sequence l + 1) ev]
    | Throw _ => l' = l
    | Panic => False
    end) l.
Proof.
  intros Hwf. pose proof (event_run_ok _ _ _ (lw_run _ Hwf)) as Hok.
  assert (Hview : view l = mk_view (phase l) (scheduled l) (realized l)) by done.
  destruct op as [|domains|d g|f x|v]; simpl;
    unfold begin_preparing, schedule, realize, fail, supersede; lc_run; try done;
    (split; [|split; [by repeat case_decide|eexists; by repeat case_decide]]).
  - apply (pushed_wf l); [done..|]. rewrite Hview.
    assert (phase l = PhaseAccepted) as -> by set_solver. constructor.
  - apply (pushed_wf l); [done..|]. rewrite Hview.
    assert (phase l = PhasePreparing) as -> by set_solver. constructor; [done|].
    apply NoDup_list_to_set_size. by rewrite length_fmap.
  - assert (Hp : phase l = PhaseScheduled) by set_solver.
    destruct Hok as [Hsub _ _ _]; simpl in Hsub.
    assert (Hsub' : dom (<[d:=g]> (realized l)) ⊆ scheduled l).
    { rewrite dom_insert_L. set_solver. }
    pose proof (size_dom_eq _ _ Hsub') as Hsz. rewrite dom_insert_L in Hsz.
    assert (d ∉ dom (realized l)) by by apply not_elem_of_dom.
    cbn. case_decide as Hd; apply (pushed_wf l); try done; cbn; rewrite Hview, Hp; cbn.
    + constructor; [done..|]. by apply Hsz.
    + constructor; [done..|]. by rewrite <-Hsz.
  - apply (pushed_wf l); [done..|]. rewrite Hview. constructor. unfold live.
    destruct (phase l); set_solver.
  - apply (pushed_wf l); [done..|]. rewrite Hview. constructor; [|done]. unfold live.
    destruct (phase l); set_solver.
Qed.
Lemma step_wf l l' : lifecycle_step l l' → lifecycle_wf l → lifecycle_wf l'.
Proof.
  intros [op ->] Hwf. pose proof (run_op_spec op l Hwf) as Hx. unfold wp in Hx.
  destruct (run_op op l) as [l' [[]|e|]]; simpl in *; [by destruct Hx|by subst|done].
Qed.
Lemma reachable_lifecycle_wf revision l :
  rtc lifecycle_step (lifecycle_new revision) l → lifecycle_wf l.
Proof.
  intros Hr. assert (lifecycle_wf (lifecycle_new revision : Lifecycle D F)) as Hwf
    by apply lifecycle_new_wf.
  induction Hr; eauto using step_wf.
Qed.
End lemmas.

(** ** Theorems *)

Section theorems.
Context {D F : Type} `{Countable D}.
Implicit Types (l : Lifecycle D F) (op : Op D F).

(** Realize a list of domains, one operation after the other. *)
Fixpoint realize_all (ds : list (D * RuntimeGeneration)) :
    stm (Lifecycle D F) LifecycleError unit :=
  match ds with
  | [] => mret tt
  | (d, g) :: ds => _ ← realize d g; realize_all ds
  end.

(** C36: refinement: whatever operations were called since acceptance, the
    records of a lifecycle are a run of the event automaton that ends in the
    phase, schedule and realized domains the object holds; they carry its
    revision and are numbered 1, 2, 3, ..., and an operation that fails changed
    nothing. *)
Theorem lifecycle_refines revision l op :
  rtc lifecycle_step (lifecycle_new revision) l →
  event_run (lc_revision l) (rec_event <$> records l) (view l) ∧
  rec_sequence <$> records l = seqZ 1 (sequence l) ∧
  Forall (λ r, rec_revision r = lc_revision l) (records l) ∧
  match run_op op l with
  | (l', Ret _) => ∃ ev, records l' =
      records l ++ [mk_record (lc_revision l) (sequence l + 1) ev]
  | (l', Throw _) => l' = l
  | (_, Panic) => False
  end.
Proof.
  intros Hr%reachable_lifecycle_wf. pose proof (run_op_spec op l Hr) as Hop.
  destruct Hr as [Hrun Hs _ Hn Hrev]. split_and!; [done|by rewrite Hs|done|].
  unfold wp in Hop. destruct (run_op op l) as [l' [[]|e|]]; simpl in *; [|done..].
  by destruct Hop as (_&_&?).
Qed.

(** terminal phases are final: a realized, failed or superseded lifecycle
    answers every operation with [InvalidTransition] and never changes again. *)
Theorem terminal_absorbing l op :
  is_terminal (phase l) = true →
  ∃ to, run_op op l = (l, Throw (InvalidTransition (phase l) to)).
Proof.
  intros Ht.
  assert (Hreq : ∀ to allowed, Forall (λ p, is_terminal p = false) allowed →
    (require_transition to allowed : stm (Lifecycle D F) _ _) l =
      (l, Throw (InvalidTransition (phase l) to))).
  { intros to allowed Ha. unfold require_transition, st_require, mbind, stm_bind, st_get.
    case_decide as Hin; [|done]. rewrite Forall_forall in Ha. specialize (Ha _ Hin).
    congruence. }
  destruct op; simpl;
    unfold begin_preparing, schedule, realize, fail, supersede, mbind, stm_bind;
    rewrite Hreq by (by repeat constructor); eauto.
Qed.

Lemma realize_next l d g :
  lifecycle_wf l → phase l = PhaseScheduled → d ∈ scheduled l →
  realized l !! d = None → in_ty U64 (sequence l + 1) →
  ∃ l', realize d g l = (l', Ret tt) ∧ lifecycle_wf l' ∧
    scheduled l' = scheduled l ∧ realized l' = <[d := g]> (realized l) ∧
    sequence l' = sequence l + 1 ∧
    phase l' = if decide ({[d]} ∪ dom (realized l) = scheduled l)
               then PhaseRealized else PhaseScheduled.
Proof.
  intros Hwf Hp Hd Hr Hs. pose proof (run_op_spec (OpRealize d g) l Hwf) as Hop.
  unfold wp in Hop. simpl in Hop. revert Hop.
  unfold realize, require_transition, push, st_require, mbind, stm_bind, st_get, st_modify,
    st_lift, st_put.
  rewrite decide_True by (rewrite Hp; set_solver). rewrite decide_True by done.
  rewrite decide_True by done.
  rewrite (proj2 (checked_next_Ok _ _) (conj eq_refl Hs)). cbn. intros (Hwf'&_&_).
  eexists. split; [done|]. split; [done|].
  pose proof (event_run_ok _ _ _ (lw_run _ Hwf)) as [Hsub _ _ _]; simpl in Hsub.
  pose proof (size_dom_eq (<[d:=g]> (realized l)) (scheduled l)) as Hsz.
  rewrite dom_insert_L in Hsz. specialize (Hsz ltac:(set_solver)).
  case_decide as Hc; cbn; split_and!; try done.
  - by rewrite decide_True by (by apply Hsz).
  - by rewrite decide_False by (by rewrite <-Hsz).
Qed.

(** progress: once a lifecycle is scheduled, realizing its remaining domains
    once each, in any order, succeeds while the runtime sequence has room; the
    last one, and no earlier one, realizes the whole revision, and every domain
    keeps the generation it was realized with. *)
Theorem realize_all_completes revision l (ds : list (D * RuntimeGeneration)) :
  rtc lifecycle_step (lifecycle_new revision) l →
  phase l = PhaseScheduled → NoDup ds.*1 →
  (∀ d, d ∈ ds.*1 ↔ d ∈ scheduled l ∧ realized l !! d = None) →
  in_ty U64 (sequence l + Z.of_nat (length ds)) →
  ∃ l', realize_all ds l = (l', Ret tt) ∧ phase l' = PhaseRealized ∧
    (∀ d g, (d, g) ∈ ds → generation l' d = Some g) ∧
    (∀ d g, generation l d = Some g → generation l' d = Some g).
Proof.
  intros Hwf%reachable_lifecycle_wf. revert l Hwf.
  induction ds as [|[d g] ds IH]; intros l Hwf Hp Hnd Hds Hs.
  { exfalso. destruct (event_run_ok _ _ _ (lw_run _ Hwf)) as [Hsub _ Hne _].
    simpl in *. apply (Hne Hp), leibniz_equiv, set_equiv_subseteq. split; [done|].
    intros d Hd. apply elem_of_dom. destruct (realized l !! d) eqn:Hd'; [done|].
    by destruct (not_elem_of_nil d); apply Hds. }
  rewrite fmap_cons in Hnd, Hds. apply NoDup_cons in Hnd as [Hd Hnd]. simpl in Hd, Hds.
  cbn [length] in Hs. destruct (proj1 (Hds d) ltac:(left)) as [Hd1 Hd2].
  destruct (realize_next l d g) as (l1&Hl1&Hwf1&Hsc1&Hre1&Hse1&Hph1);
    [done..|pose proof (lw_range _ Hwf); int_lia|].
  assert (Hrest : ∀ d', d' ∈ ds.*1 ↔ d' ∈ scheduled l1 ∧ realized l1 !! d' = None).
  { intros d'. rewrite Hsc1, Hre1, lookup_insert_None. specialize (Hds d').
    rewrite elem_of_cons in Hds. split.
    - intros Hd'. destruct (proj1 Hds (or_intror Hd')). split_and!; [done..|].
      by intros ->.
    - intros (?&?&?). destruct (proj2 Hds) as [->|?]; done. }
  cbn [realize_all]. unfold mbind, stm_bind. rewrite Hl1.
  assert (Hkeep : ∀ d' g', generation l d' = Some g' → generation l1 d' = Some g').
  { unfold generation. intros d' g' Hg. rewrite Hre1, lookup_insert_ne; [done|].
    intros <-. congruence. }
  assert (Hnew : generation l1 d = Some g).
  { unfold generation. rewrite Hre1. apply lookup_insert_eq. }
  destruct ds as [|[d1 g1] ds].
  { exists l1. split; [done|]. split_and!; [|set_solver|done].
    rewrite Hph1, decide_True; [done|].
    destruct (event_run_ok _ _ _ (lw_run _ Hwf1)) as [Hsub _ Hne _]; simpl in *.
    destruct (decide ({[d]} ∪ dom (realized l) = scheduled l)) as [|Hx]; [done|].
    destruct Hne; [done|]. apply leibniz_equiv, set_equiv_subseteq. split; [done|].
    intros d' Hd'. apply elem_of_dom. destruct (realized l1 !! d') eqn:Hr; [done|].
    by destruct (not_elem_of_nil d'); apply Hrest. }
  destruct (IH l1) as (l'&Hl'&Hph'&Hn'&Hk'); [done| |done..|int_lia|].
  { rewrite Hph1, decide_False; [done|]. intros Heq.
    destruct (proj1 (Hrest d1) ltac:(left)) as [Hs1 Hs2].
    apply not_elem_of_dom in Hs2. apply Hs2. rewrite Hre1, dom_insert_L, Heq. congruence. }
  exists l'. split_and!; [done..| |auto]. intros d' g' [[= -> ->]|Hin]%elem_of_cons; auto.
Qed.
End theorems.

(** ** Witnesses *)

Module Demo.
Definition l0 : Lifecycle Z string := lifecycle_new 3.
Definition ops : list (Op Z string) :=
  [OpPrepare; OpSchedule [mk_scheduled 1 10; mk_scheduled 2 20]; OpRealize 2 5].
Definition l3 : Lifecycle Z string := foldl (λ l op, (run_op op l).1) l0 ops.
Definition l4 : Lifecycle Z string := (run_op (OpRealize 1 6) l3).1.
End Demo.

Lemma lifecycle_demo_reachable : rtc lifecycle_step (lifecycle_new 3) Demo.l3.
Proof.
  eapply rtc_l; [by exists OpPrepare|].
  eapply rtc_l; [by exists (OpSchedule [mk_scheduled 1 10; mk_scheduled 2 20])|].
  eapply rtc_l; [by exists (OpRealize 2 5)|]. apply rtc_refl.
Qed.

Lemma lifecycle_refines_witness :
  event_run 3 (rec_event <$> records Demo.l3) (view Demo.l3) ∧
  rec_sequence <$> records Demo.l3 = seqZ 1 4.
Proof.
  destruct (lifecycle_refines 3 Demo.l3 (OpRealize 1 6) lifecycle_demo_reachable) as (Hr&Hs&_).
  split; [exact Hr|exact Hs].
Defined.
Lemma terminal_absorbing_witness :
  phase Demo.l4 = PhaseRealized ∧
  ∃ to, run_op (OpSupersede 9) Demo.l4 =
    (Demo.l4, Throw (InvalidTransition (phase Demo.l4) to)).
Proof.
  split; [vm_compute; reflexivity|].
  apply (terminal_absorbing Demo.l4 (OpSupersede 9)). vm_compute. reflexivity.
Defined.
Lemma realize_all_completes_witness :
  ∃ l', realize_all [(1, 6)] Demo.l3 = (l', Ret tt) ∧ phase l' = PhaseRealized.
Proof.
  destruct (realize_all_completes 3 Demo.l3 [(1, 6)] lifecycle_demo_reachable) as (l'&Hl&Hp&_).
  - vm_compute. reflexivity.
  - apply NoDup_singleton.
  - intros d. change (scheduled Demo.l3) with (list_to_set [1; 2] : gset Z).
    change (realized Demo.l3) with (<[2 := 5]> ∅ : gmap Z Z).
    rewrite lookup_insert_None, elem_of_list_to_set. simpl.
    rewrite list_elem_of_singleton, !elem_of_cons. split.
    + intros ->. split; [by left|]. split; [apply lookup_empty|done].
    + intros ([->|[->|[]%not_elem_of_nil]]&_&Hne); done.
  - vm_compute. split; intros [=].
  - exists l'. split; [exact Hl|exact Hp].
Defined.
