(* ===== verification/Clock.v ===== *)
(** Deterministic clocks, [crates/media/fm-clock]: the nanosecond timeline, the
    manual clock and deadlines ([clock.rs]), exact frame cadences
    ([cadence.rs]), and affine clock mappings with drift estimation
    ([mapping.rs]).

    [ClockTime] and [ClockDuration] are 64-bit nanosecond counts; the 128-bit
    intermediate results of the code keep their checks. *)
From S2P Require Import Prelude Types.

(** ** Clocks *)

Abbreviation ClockTime := Z (only parsing).
Abbreviation ClockDuration := Z (only parsing).
Abbreviation ClockDomainId := Z (only parsing).

Inductive ClockError :=
  | Overflow
  | TimeRegression (current attempted : ClockTime).

Definition time_checked_add (self duration : Z) : result ClockError ClockTime :=
  ok_or Overflow (checked U64 (self + duration)).
Definition duration_since (self earlier : ClockTime) : option ClockDuration :=
  checked U64 (self - earlier).

Record ClockSnapshot := mk_snapshot { snap_domain : ClockDomainId; snap_time : ClockTime }.
#[global] Instance ClockSnapshot_eq_dec : EqDecision ClockSnapshot.
Proof. solve_decision. Defined.

Record ManualClock := mk_manual { snapshot : ClockSnapshot }.
Definition manual_new (domain : ClockDomainId) (initial_time : ClockTime) : ManualClock :=
  {| snapshot := mk_snapshot domain initial_time |}.
Definition manual_advance (duration : ClockDuration) :
    stm ManualClock ClockError ClockSnapshot :=
  self ← st_get;
  time ← st_lift (time_checked_add (snap_time (snapshot self)) duration);
  let snap := mk_snapshot (snap_domain (snapshot self)) time in
  _ ← st_put {| snapshot := snap |};
  mret snap.
Definition manual_set (time : ClockTime) : stm ManualClock ClockError ClockSnapshot :=
  self ← st_get;
  _ ← st_require (¬ time < snap_time (snapshot self))
        (TimeRegression (snap_time (snapshot self)) time);
  let snap := mk_snapshot (snap_domain (snapshot self)) time in
  _ ← st_put {| snapshot := snap |};
  mret snap.

Inductive DeadlineStatus :=
  | Pending (remaining : ClockDuration)
  | Due
  | Missed (by_ : ClockDuration).
Definition deadline_after (now : ClockTime) (duration : ClockDuration) :
    result ClockError ClockTime :=
  time_checked_add now duration.
Definition deadline_status (self now : ClockTime) : DeadlineStatus :=
  if decide (now < self) then Pending (self - now)
  else if decide (now = self) then Due else Missed (now - self).
Definition is_due (self now : ClockTime) : bool := bool_decide (self ≤ now).

(** ** Frame cadences *)

Definition NANOS_PER_SECOND : Z := 1000000000.

Inductive CadenceError := CadenceOverflow | BeforeOrigin.
#[global] Instance CadenceError_eq_dec : EqDecision CadenceError.
Proof. solve_decision. Defined.

Record FrameCadence := mk_cadence { cad_rate : FrameRate; cad_origin : ClockTime }.

Definition offset_of_frame (self : FrameCadence) (frame : Z) : result CadenceError Z :=
  num ← ok_or CadenceOverflow
    (n ← checked U128 (frame * denominator (cad_rate self));
     checked U128 (n * NANOS_PER_SECOND));
  ok_or CadenceOverflow (checked U64 (num `quot` numerator (cad_rate self))).

Definition time_of_frame (self : FrameCadence) (frame : Z) : result CadenceError ClockTime :=
  offset ← offset_of_frame self frame;
  ok_or CadenceOverflow (checked U64 (cad_origin self + offset)).

(** The subtraction of the code is unsigned; [frame_offset_mono] shows that it
    never goes below zero. *)
Definition duration_of_frame (self : FrameCadence) (frame : Z) :
    result CadenceError ClockDuration :=
  next ← ok_or CadenceOverflow (checked U64 (frame + 1));
  start ← offset_of_frame self frame;
  end_ ← offset_of_frame self next;
  Ok (end_ - start).

Definition frame_at_or_before (self : FrameCadence) (time : ClockTime) :
    result CadenceError Z :=
  elapsed ← ok_or BeforeOrigin (checked U64 (time - cad_origin self));
  num ← ok_or CadenceOverflow
    (v ← checked U128 (elapsed + 1); checked U128 (v * numerator (cad_rate self)));
  let den := saturating U128 (denominator (cad_rate self) * NANOS_PER_SECOND) in
  dividend ← ok_or CadenceOverflow (checked U128 (num - 1));
  ok_or CadenceOverflow (checked U64 (dividend `quot` den)).

Record cadence_wf (c : FrameCadence) : Prop := {
  cw_rate : rate_wf (cad_rate c);
  cw_origin : in_ty U64 (cad_origin c)
}.

(** The exact start of a frame, rounded down to a nanosecond. *)
Definition frame_offset (c : FrameCadence) (frame : Z) : Z :=
  (frame * (denominator (cad_rate c) * NANOS_PER_SECOND)) `div` numerator (cad_rate c).

(** ** Clock mappings *)

Definition PARTS_PER_BILLION : Z := 1000000000.

Inductive MappingError :=
  | DomainMismatch | NonMonotonicSamples | InsufficientSamples | InvalidRate
  | ArithmeticOverflow.

Record ClockMapping := mk_mapping {
  source_anchor : ClockSnapshot;
  master_anchor : ClockSnapshot;
  drift_ppb : Z
}.

Definition mapping_new (source_anchor master_anchor : ClockSnapshot) (drift_ppb : Z) :
    result MappingError ClockMapping :=
  if decide (drift_ppb ≤ - PARTS_PER_BILLION) then Err InvalidRate
  else Ok (mk_mapping source_anchor master_anchor drift_ppb).

Definition floor_div (numerator denominator : Z) : result MappingError Z :=
  if decide (denominator ≤ 0) then Err InvalidRate else
  let quotient := numerator `quot` denominator in
  let remainder := numerator `rem` denominator in
  if decide (remainder < 0) then ok_or ArithmeticOverflow (checked I128 (quotient - 1))
  else Ok quotient.

Definition map_source_nanos (self : ClockMapping) (source_nanos : Z) :
    result MappingError Z :=
  source_delta ← ok_or ArithmeticOverflow
    (checked I128 (source_nanos - snap_time (source_anchor self)));
  let scale := PARTS_PER_BILLION + drift_ppb self in
  num ← ok_or ArithmeticOverflow (checked I128 (source_delta * scale));
  master_delta ← floor_div num PARTS_PER_BILLION;
  mapped ← ok_or ArithmeticOverflow
    (checked I128 (snap_time (master_anchor self) + master_delta));
  ok_or ArithmeticOverflow (checked I64 mapped).

Definition source_nanos_at_master (self : ClockMapping) (master_nanos : Z) :
    result MappingError Z :=
  master_delta ← ok_or ArithmeticOverflow
    (checked I128 (master_nanos - snap_time (master_anchor self)));
  num ← ok_or ArithmeticOverflow (checked I128 (master_delta * PARTS_PER_BILLION));
  let scale := PARTS_PER_BILLION + drift_ppb self in
  source_delta ← floor_div num scale;
  source ← ok_or ArithmeticOverflow
    (checked I128 (snap_time (source_anchor self) + source_delta));
  ok_or ArithmeticOverflow (checked I64 source).

Definition mapping_map (self : ClockMapping) (source : ClockSnapshot) :
    result MappingError ClockSnapshot :=
  if decide (snap_domain source ≠ snap_domain (source_anchor self)) then Err DomainMismatch
  else
    source_nanos ← ok_or ArithmeticOverflow (checked I64 (snap_time source));
    mapped ← map_source_nanos self source_nanos;
    nanos ← ok_or ArithmeticOverflow (checked U64 mapped);
    Ok (mk_snapshot (snap_domain (master_anchor self)) nanos).

Record mapping_wf (c : ClockMapping) : Prop := {
  mw_source : in_ty U64 (snap_time (source_anchor c));
  mw_master : in_ty U64 (snap_time (master_anchor c));
  mw_drift : in_ty I64 (drift_ppb c);
  mw_rate : - PARTS_PER_BILLION < drift_ppb c
}.

(** ** Drift estimation *)

Record DriftEstimator := mk_estimator {
  source_domain : ClockDomainId;
  master_domain : ClockDomainId;
  first : option (ClockSnapshot * ClockSnapshot);
  latest : option (ClockSnapshot * ClockSnapshot)
}.
Definition estimator_new (source_domain master_domain : ClockDomainId) : DriftEstimator :=
  mk_estimator source_domain master_domain None None.

Definition observe (source master : ClockSnapshot) : stm DriftEstimator MappingError unit :=
  self ← st_get;
  _ ← st_require (¬ (snap_domain source ≠ source_domain self ∨
                     snap_domain master ≠ master_domain self)) DomainMismatch;
  _ ← match latest self with
      | Some (previous_source, previous_master) =>
          st_require (¬ (snap_time source ≤ snap_time previous_source ∨
                         snap_time master ≤ snap_time previous_master)) NonMonotonicSamples
      | None => mret tt
      end;
  _ ← match first self with
      | None => st_modify (λ self, mk_estimator (source_domain self) (master_domain self)
                                     (Some (source, master)) (latest self))
      | Some _ => mret tt
      end;
  st_modify (λ self, mk_estimator (source_domain self) (master_domain self) (first self)
                       (Some (source, master))).

Definition estimated_drift_ppb (self : DriftEstimator) : result MappingError Z :=
  '(first_source, first_master) ← ok_or InsufficientSamples (first self);
  '(latest_source, latest_master) ← ok_or InsufficientSamples (latest self);
  source_delta ← ok_or NonMonotonicSamples
    (duration_since (snap_time latest_source) (snap_time first_source));
  master_delta ← ok_or NonMonotonicSamples
    (duration_since (snap_time latest_master) (snap_time first_master));
  if decide (source_delta = 0) then Err InsufficientSamples else
  scaled ← ok_or ArithmeticOverflow (checked I128 (master_delta * PARTS_PER_BILLION));
  Ok (scaled `quot` source_delta - PARTS_PER_BILLION).

Definition estimator_mapping (self : DriftEstimator) : result MappingError ClockMapping :=
  '(first_source, first_master) ← ok_or InsufficientSamples (first self);
  drift ← estimated_drift_ppb self;
  drift_ppb ← ok_or ArithmeticOverflow (checked I64 drift);
  mapping_new first_source first_master drift_ppb.

(** What an estimator has seen: both samples, in its domains, the latest after
    the first in both clocks. *)
Definition sample_ok (e : DriftEstimator) (s : ClockSnapshot * ClockSnapshot) : Prop :=
  snap_domain s.1 = source_domain e ∧ snap_domain s.2 = master_domain e ∧
  in_ty U64 (snap_time s.1) ∧ in_ty U64 (snap_time s.2).
Definition estimator_wf (e : DriftEstimator) : Prop :=
  match first e, latest e with
  | None, None => True
  | Some f, Some l =>
      sample_ok e f ∧ sample_ok e l ∧
      (f = l ∨ snap_time f.1 < snap_time l.1 ∧ snap_time f.2 < snap_time l.2)
  | _, _ => False
  end.

(** ** Lemmas *)

Lemma checked_ok_or {E} (e : E) t x : in_ty t x → ok_or e (checked t x) = Ok x.
Proof. intros. by rewrite checked_in. Qed.

Section cadence_lemmas.
Context (c : FrameCadence) (Hwf : cadence_wf c).
Let num := numerator (cad_rate c).
Let den := denominator (cad_rate c).

Lemma rate_bounds : 0 < num ≤ 4294967295 ∧ 0 < den ≤ 4294967295.
Proof. destruct Hwf as [[? ? _] _]. done. Qed.

(** The 128-bit products of [offset_of_frame] fit; only the result can be out
    of range. *)
Lemma offset_of_frame_eq frame :
  in_ty U64 frame →
  offset_of_frame c frame = ok_or CadenceOverflow (checked U64 (frame_offset c frame)).
Proof.
  intros Hf. pose proof rate_bounds as [Hn Hd]. unfold offset_of_frame, frame_offset.
  fold num den. unfold NANOS_PER_SECOND.
  rewrite Z.mul_assoc.
  assert (0 ≤ frame * den ≤ 18446744073709551615 * 4294967295)
    by (unfold in_ty in Hf; simpl in Hf; nia).
  rewrite (checked_in U128 (frame * den)) by int_lia. simpl.
  rewrite checked_ok_or by int_lia. simpl.
  by rewrite Z.quot_div_nonneg by lia.
Qed.
Lemma frame_offset_mono f g : f ≤ g → frame_offset c f ≤ frame_offset c g.
Proof.
  intros. pose proof rate_bounds. unfold frame_offset, NANOS_PER_SECOND. fold num den.
  apply Z.div_le_mono; [lia|]. nia.
Qed.
Lemma frame_offset_0 : frame_offset c 0 = 0.
Proof. pose proof rate_bounds. unfold frame_offset. fold num. apply Z.div_0_l. lia. Qed.
Lemma frame_offset_nonneg f : 0 ≤ f → 0 ≤ frame_offset c f.
Proof. intros. rewrite <-frame_offset_0. by apply frame_offset_mono. Qed.

(** A frame has begun by [elapsed] exactly up to the quotient the code takes. *)
Lemma frame_offset_le frame elapsed :
  frame_offset c frame ≤ elapsed ↔
  frame ≤ ((elapsed + 1) * num - 1) `div` (den * NANOS_PER_SECOND).
Proof.
  pose proof rate_bounds. unfold frame_offset, NANOS_PER_SECOND. fold num den.
  set (D := den * 1000000000). assert (0 < D) by lia.
  split; intros Hle.
  - apply Z.div_le_lower_bound; [lia|].
    pose proof (Z.div_mod (frame * D) num ltac:(lia)).
    pose proof (Z.mod_pos_bound (frame * D) num ltac:(lia)). nia.
  - pose proof (Z.div_mod ((elapsed + 1) * num - 1) D ltac:(lia)).
    pose proof (Z.mod_pos_bound ((elapsed + 1) * num - 1) D ltac:(lia)).
    assert ((frame * D) `div` num < elapsed + 1); [|lia].
    apply Z.div_lt_upper_bound; [lia|]. nia.
Qed.

Lemma frame_at_or_before_eq time :
  in_ty U64 time →
  frame_at_or_before c time =
    if decide (time < cad_origin c) then Err BeforeOrigin else
    ok_or CadenceOverflow (checked U64
      (((time - cad_origin c + 1) * num - 1) `div` (den * NANOS_PER_SECOND))).
Proof.
  intros Ht. pose proof rate_bounds as [Hn Hd]. destruct Hwf as [_ Ho].
  unfold frame_at_or_before. fold num den. unfold NANOS_PER_SECOND. case_decide as Hb.
  { by rewrite (proj2 (checked_None _ _)) by int_lia. }
  rewrite checked_ok_or by int_lia. simpl.
  set (e := time - cad_origin c) in *.
  assert (0 ≤ e ≤ 18446744073709551615) as He by int_lia.
  rewrite (checked_in U128 (e + 1)) by int_lia. simpl.
  assert (0 < (e + 1) * num ≤ 18446744073709551616 * 4294967295) as Hp by nia.
  rewrite checked_ok_or by int_lia. simpl. rewrite checked_ok_or by int_lia. simpl.
  rewrite saturating_id by int_lia. by rewrite Z.quot_div_nonneg by lia.
Qed.
End cadence_lemmas.

(** ** Cadence theorems *)

(** [frame_at_or_before] inverts the timeline exactly: it fails only before
    the origin or when the index leaves 64 bits, and otherwise returns the one
    frame index such that a frame has begun by [time] if and only if it is not
    after that index. *)
Theorem frame_at_or_before_exact c time :
  cadence_wf c → in_ty U64 time →
  match frame_at_or_before c time with
  | Ok f => in_ty U64 f ∧ cad_origin c ≤ time ∧
      ∀ g, cad_origin c + frame_offset c g ≤ time ↔ g ≤ f
  | Err BeforeOrigin => time < cad_origin c
  | Err CadenceOverflow =>
      cad_origin c + frame_offset c (ty_max U64 + 1) ≤ time
  end.
Proof.
  intros Hwf Ht. rewrite frame_at_or_before_eq by done. case_decide as Hb; [done|].
  pose proof (λ g, frame_offset_le c Hwf g (time - cad_origin c)) as Hle.
  simpl in Hle. set (q := _ `div` _) in *.
  assert (Hq : ∀ g, cad_origin c + frame_offset c g ≤ time ↔ g ≤ q).
  { intros g. rewrite <-Hle. lia. }
  destruct (checked U64 q) as [f|] eqn:Hc; simpl.
  - apply checked_Some in Hc as [<- Hr]. split; [done|]. split; [lia|done].
  - apply checked_None in Hc. apply Hq.
    assert (0 ≤ q); [|int_lia]. apply Hq. rewrite frame_offset_0 by done. lia.
Qed.
Lemma frame_at_or_before_exact_witness :
  frame_at_or_before (mk_cadence (mk_rate 24000 1001) 7) 41708340 = Ok 1 ∧
  ∀ g, 7 + frame_offset (mk_cadence (mk_rate 24000 1001) 7) g ≤ 41708340 ↔ g ≤ 1.
Proof.
  split; [vm_compute; reflexivity|].
  assert (Hwf : cadence_wf (mk_cadence (mk_rate 24000 1001) 7)).
  { split; [split; simpl; [lia..|reflexivity]|int_lia]. }
  pose proof (frame_at_or_before_exact _ 41708340 Hwf ltac:(int_lia)) as Hx.
  change (frame_at_or_before _ _) with (@Ok CadenceError Z 1) in Hx. by destruct Hx as (_&_&?).
Defined.

(** round trip: at any rate of at most one frame per nanosecond, the frame
    found at the start of a frame is that frame, and one nanosecond earlier it is
    the previous one. *)
Theorem frame_time_roundtrip c frame t :
  cadence_wf c → in_ty U64 frame →
  numerator (cad_rate c) ≤ denominator (cad_rate c) * NANOS_PER_SECOND →
  time_of_frame c frame = Ok t →
  frame_at_or_before c t = Ok frame ∧
  (0 < frame → frame_at_or_before c (t - 1) = Ok (frame - 1)).
Proof.
  intros Hwf Hf Hrate. unfold time_of_frame.
  rewrite offset_of_frame_eq by done. intros (off&Hoff&Ht)%result_bind_Ok.
  apply ok_or_Ok, checked_Some in Hoff as [<- Hoff].
  apply ok_or_Ok, checked_Some in Ht as [<- Ht].
  pose proof (rate_bounds c Hwf) as [Hn Hd].
  assert (Hstep : ∀ g, frame_offset c g + 1 ≤ frame_offset c (g + 1)).
  { intros g. unfold frame_offset, NANOS_PER_SECOND in *.
    set (D := denominator _ * 1000000000) in *. set (n := numerator _) in *.
    rewrite Z.mul_add_distr_r, Z.mul_1_l.
    replace (g * D + D) with (g * D + (D - n) + 1 * n) by lia.
    rewrite Z.div_add by lia. apply Z.add_le_mono_r, Z.div_le_mono; lia. }
  assert (Hin : ∀ t' f', in_ty U64 t' → cad_origin c ≤ t' → in_ty U64 f' →
    frame_offset c f' ≤ t' - cad_origin c < frame_offset c (f' + 1) →
    frame_at_or_before c t' = Ok f').
  { intros t' f' Ht' Ho Hf' [Hlo Hhi]. rewrite frame_at_or_before_eq by done.
    rewrite decide_False by lia.
    pose proof (frame_offset_le c Hwf f' (t' - cad_origin c)) as Hle1.
    pose proof (frame_offset_le c Hwf (f' + 1) (t' - cad_origin c)) as Hle2.
    set (q := _ `div` _) in *. assert (q = f') as -> by lia. by rewrite checked_ok_or. }
  pose proof (Hstep frame). pose proof (Hstep (frame - 1)) as Hp.
  replace (frame - 1 + 1) with frame in Hp by lia.
  pose proof (frame_offset_nonneg c Hwf frame ltac:(int_lia)).
  split; [apply Hin; [done|lia|done|lia]|]. intros Hpos.
  pose proof (frame_offset_nonneg c Hwf (frame - 1) ltac:(lia)).
  pose proof (cw_origin _ Hwf). apply Hin; [int_lia|lia|int_lia|].
  replace (frame - 1 + 1) with frame by lia. lia.
Qed.
Lemma frame_time_roundtrip_witness :
  frame_at_or_before (mk_cadence (mk_rate 24000 1001) 7) 41708340 = Ok 1 ∧
  frame_at_or_before (mk_cadence (mk_rate 24000 1001) 7) 41708339 = Ok 0.
Proof.
  assert (Hwf : cadence_wf (mk_cadence (mk_rate 24000 1001) 7)).
  { split; [split; simpl; [lia..|reflexivity]|int_lia]. }
  destruct (frame_time_roundtrip (mk_cadence (mk_rate 24000 1001) 7) 1 41708340 Hwf
    ltac:(int_lia) ltac:(simpl; unfold NANOS_PER_SECOND; lia)
    ltac:(vm_compute; reflexivity)) as [H1 H2].
  split; [exact H1|]. apply H2. lia.
Defined.

(** The sum of the durations of [n] frames from [frame]. *)
Fixpoint durations (c : FrameCadence) (frame : Z) (n : nat) : result CadenceError Z :=
  match n with
  | O => Ok 0
  | S n => d ← duration_of_frame c frame; rest ← durations c (frame + 1) n; Ok (d + rest)
  end.

Lemma duration_of_frame_Ok c frame d :
  cadence_wf c → in_ty U64 frame → duration_of_frame c frame = Ok d →
  d = frame_offset c (frame + 1) - frame_offset c frame ∧ in_ty U64 (frame + 1).
Proof.
  intros Hwf Hf. unfold duration_of_frame.
  intros (next&Hn&Hx)%result_bind_Ok. apply ok_or_Ok, checked_Some in Hn as [<- Hn].
  rewrite !offset_of_frame_eq in Hx by done.
  apply result_bind_Ok in Hx as (s&Hs&Hx). apply ok_or_Ok, checked_Some in Hs as [<- _].
  apply result_bind_Ok in Hx as (e&He&Hx). apply ok_or_Ok, checked_Some in He as [<- _].
  by injection Hx as <-.
Qed.

(** no drift: the integer durations of consecutive frames add up to exactly
    the distance between the frame starts; none is negative, each is the exact
    duration rounded down or up to the next nanosecond, and the start of frame
    [n] is never a nanosecond or more below its exact rational position. *)
Theorem durations_no_drift c frame n total :
  cadence_wf c → in_ty U64 frame → durations c frame n = Ok total →
  total = frame_offset c (frame + Z.of_nat n) - frame_offset c frame ∧ 0 ≤ total ∧
  (let exact := denominator (cad_rate c) * NANOS_PER_SECOND in
   let num := numerator (cad_rate c) in
   (∀ d, duration_of_frame c frame = Ok d → d = exact `div` num ∨ d = exact `div` num + 1) ∧
   0 ≤ frame * exact - frame_offset c frame * num < num).
Proof.
  intros Hwf Hf Hdur. pose proof (rate_bounds c Hwf) as [Hn Hd].
  assert (Htot : total = frame_offset c (frame + Z.of_nat n) - frame_offset c frame).
  { revert frame total Hf Hdur. induction n as [|n IH]; intros frame total Hf; simpl.
    - intros [= <-]. rewrite Z.add_0_r. lia.
    - intros (d&Hdf&(r&Hr&[= <-])%result_bind_Ok)%result_bind_Ok.
      apply duration_of_frame_Ok in Hdf as [-> Hf']; [|done..].
      rewrite (IH _ _ Hf' Hr). replace (frame + 1 + Z.of_nat n)
        with (frame + Z.of_nat (S n)) by lia. lia. }
  split; [done|]. split.
  { rewrite Htot. pose proof (frame_offset_mono c Hwf frame (frame + Z.of_nat n)). lia. }
  intros exact num. split.
  - intros d Hd'. apply duration_of_frame_Ok in Hd' as [-> _]; [|done..].
    unfold frame_offset. fold num exact.
    rewrite Z.mul_add_distr_r, Z.mul_1_l.
    pose proof (Z.div_mod (frame * exact) num ltac:(lia)).
    pose proof (Z.mod_pos_bound (frame * exact) num ltac:(lia)).
    pose proof (Z.div_mod exact num ltac:(lia)).
    pose proof (Z.mod_pos_bound exact num ltac:(lia)).
    pose proof (Z.div_mod (frame * exact + exact) num ltac:(lia)).
    pose proof (Z.mod_pos_bound (frame * exact + exact) num ltac:(lia)).
    set (a := (frame * exact) `div` num) in *. set (b := exact `div` num) in *.
    set (e := (frame * exact + exact) `div` num) in *.
    assert (e = a + b ∨ e = a + b + 1) by nia. lia.
  - unfold frame_offset. fold exact num.
    pose proof (Z.div_mod (frame * exact) num ltac:(lia)).
    pose proof (Z.mod_pos_bound (frame * exact) num ltac:(lia)). lia.
Qed.
Lemma durations_no_drift_witness :
  durations (mk_cadence (mk_rate 60000 1001) 0) 0 3 = Ok 50050000 ∧
  50050000 = frame_offset (mk_cadence (mk_rate 60000 1001) 0) (0 + Z.of_nat 3) -
             frame_offset (mk_cadence (mk_rate 60000 1001) 0) 0.
Proof.
  split; [vm_compute; reflexivity|].
  apply (durations_no_drift (mk_cadence (mk_rate 60000 1001) 0) 0 3 50050000).
  - split; [split; simpl; [lia..|reflexivity]|int_lia].
  - int_lia.
  - vm_compute. reflexivity.
Defined.

(** ** Mapping theorems *)

(** Truncating division corrected by its remainder is division rounded down. *)
Lemma floor_div_eq n d : in_ty I128 n → 0 < d → floor_div n d = Ok (n `div` d).
Proof.
  intros Hn Hd. unfold floor_div. rewrite decide_False by lia.
  pose proof (Z.quot_rem n d ltac:(lia)) as Hqr.
  pose proof (Z.rem_bound_abs n d ltac:(lia)) as Hb.
  pose proof (Z.div_mod n d ltac:(lia)). pose proof (Z.mod_pos_bound n d Hd).
  assert (Hs : 0 ≤ n → 0 ≤ n `rem` d) by (intros; by apply Z.rem_nonneg; lia).
  set (q := n `quot` d) in *. set (r := n `rem` d) in *.
  case_decide as Hr.
  - assert (Hq : n `div` d = q - 1).
    { symmetry. apply Z.div_unique with (r + d); [lia|lia]. }
    rewrite Hq. apply checked_ok_or. unfold in_ty in *; simpl in *. nia.
  - f_equal. apply Z.div_unique with r; lia.
Qed.

(** The real affine image of a position, rounded down. *)
Definition affine (c : ClockMapping) (source_nanos : Z) : Z :=
  snap_time (master_anchor c) +
  ((source_nanos - snap_time (source_anchor c)) * (PARTS_PER_BILLION + drift_ppb c))
    `div` PARTS_PER_BILLION.
Definition affine_inverse (c : ClockMapping) (master_nanos : Z) : Z :=
  snap_time (source_anchor c) +
  ((master_nanos - snap_time (master_anchor c)) * PARTS_PER_BILLION)
    `div` (PARTS_PER_BILLION + drift_ppb c).

(** the checked 128-bit arithmetic of [map_source_nanos] loses nothing: the
    result is the affine image rounded toward negative infinity whenever that
    fits 64 signed bits, and [ArithmeticOverflow] exactly when it does not. *)
Theorem map_source_nanos_exact c x :
  mapping_wf c → in_ty I64 x →
  map_source_nanos c x =
    if decide (in_ty I64 (affine c x)) then Ok (affine c x) else Err ArithmeticOverflow.
Proof.
  intros [Hs Hm Hdr Hrate] Hx. unfold map_source_nanos, affine, PARTS_PER_BILLION in *.
  set (s0 := snap_time (source_anchor c)) in *. set (m0 := snap_time (master_anchor c)) in *.
  rewrite checked_ok_or by int_lia. cbn [mbind result_bind].
  set (sc := 1000000000 + drift_ppb c). assert (0 < sc) by lia.
  set (p := (x - s0) * sc).
  destruct (decide (in_ty I128 p)) as [Hp|Hp].
  - rewrite checked_ok_or by done. cbn [mbind result_bind].
    rewrite floor_div_eq by (done || lia). cbn [mbind result_bind].
    rewrite checked_ok_or; cbn [mbind result_bind].
    + unfold checked. by case_decide.
    + pose proof (Z.div_mod p 1000000000 ltac:(lia)).
      pose proof (Z.mod_pos_bound p 1000000000 ltac:(lia)). int_lia.
  - rewrite (proj2 (checked_None _ _)) by done. cbn [mbind result_bind ok_or].
    rewrite decide_False; [done|].
    pose proof (Z.div_mod p 1000000000 ltac:(lia)).
    pose proof (Z.mod_pos_bound p 1000000000 ltac:(lia)). int_lia.
Qed.
Lemma map_source_nanos_exact_witness :
  map_source_nanos (mk_mapping (mk_snapshot 1 1000) (mk_snapshot 2 10000) 500000000) 999 =
    Ok 9998.
Proof.
  rewrite map_source_nanos_exact; [reflexivity|split; unfold PARTS_PER_BILLION; int_lia|int_lia].
Defined.

Lemma source_nanos_at_master_eq c m :
  mapping_wf c → in_ty I64 m →
  source_nanos_at_master c m =
    if decide (in_ty I64 (affine_inverse c m)) then Ok (affine_inverse c m)
    else Err ArithmeticOverflow.
Proof.
  intros [Hs Hm Hdr Hrate] Hx. unfold source_nanos_at_master, affine_inverse, PARTS_PER_BILLION in *.
  set (s0 := snap_time (source_anchor c)) in *. set (m0 := snap_time (master_anchor c)) in *.
  rewrite checked_ok_or by int_lia. cbn [mbind result_bind].
  rewrite checked_ok_or by int_lia. cbn [mbind result_bind].
  set (sc := 1000000000 + drift_ppb c). assert (0 < sc) by lia.
  set (p := (m - m0) * 1000000000) in *.
  rewrite floor_div_eq by (unfold p; int_lia). cbn [mbind result_bind].
  rewrite checked_ok_or; cbn [mbind result_bind].
  - unfold checked. by case_decide.
  - pose proof (Z.div_mod p sc ltac:(lia)). pose proof (Z.mod_pos_bound p sc ltac:(lia)).
    assert (- 40000000000000000000000000000 ≤ p `div` sc ≤ 40000000000000000000000000000);
      [|int_lia].
    assert (- 40000000000000000000000000000 < p < 40000000000000000000000000000)
      by (unfold p; int_lia). nia.
Qed.

(** mapping a source position and inverting it never lands after it, and
    lands before it by less than one nanosecond plus the source time of one
    master nanosecond; with a nonnegative drift that is at most one nanosecond.
    Both directions are monotone. *)
Theorem mapping_roundtrip c x m y :
  mapping_wf c → in_ty I64 x →
  map_source_nanos c x = Ok m → source_nanos_at_master c m = Ok y →
  y ≤ x ∧ (x - y - 1) * (PARTS_PER_BILLION + drift_ppb c) < PARTS_PER_BILLION ∧
  (0 ≤ drift_ppb c → x - 1 ≤ y) ∧
  ∀ x' m', in_ty I64 x' → x ≤ x' → map_source_nanos c x' = Ok m' → m ≤ m'.
Proof.
  intros Hwf Hx. rewrite map_source_nanos_exact by done.
  case_decide as Hm; intros [= <-]. rewrite source_nanos_at_master_eq by done.
  case_decide as Hy; intros [= <-].
  pose proof (mw_rate _ Hwf) as Hrate. unfold affine, affine_inverse, PARTS_PER_BILLION in *.
  set (s0 := snap_time (source_anchor c)) in *. set (m0 := snap_time (master_anchor c)) in *.
  set (sc := 1000000000 + drift_ppb c) in *. assert (0 < sc) by lia.
  set (d := (x - s0) * sc) in *.
  replace (m0 + d `div` 1000000000 - m0) with (d `div` 1000000000) by lia.
  pose proof (Z.div_mod d 1000000000 ltac:(lia)).
  pose proof (Z.mod_pos_bound d 1000000000 ltac:(lia)).
  set (q := d `div` 1000000000) in *.
  pose proof (Z.div_mod (q * 1000000000) sc ltac:(lia)).
  pose proof (Z.mod_pos_bound (q * 1000000000) sc ltac:(lia)).
  set (e := (q * 1000000000) `div` sc) in *.
  assert (e ≤ x - s0) by nia.
  assert ((x - (s0 + e) - 1) * sc < 1000000000) by nia.
  split_and!; [lia|done|nia|].
  intros x' m' Hx' Hle. rewrite map_source_nanos_exact by done.
  case_decide; intros [= <-]. unfold affine, PARTS_PER_BILLION. fold s0 m0 sc.
  apply Zplus_le_compat_l, Z.div_le_mono; [lia|]. unfold d. nia.
Qed.
Lemma mapping_roundtrip_witness :
  let c := mk_mapping (mk_snapshot 1 1000) (mk_snapshot 2 10000) 500000000 in
  map_source_nanos c 999 = Ok 9998 ∧ source_nanos_at_master c 9998 = Ok 998 ∧ 999 - 1 ≤ 998.
Proof.
  intros c. split; [vm_compute; reflexivity|]. split; [vm_compute; reflexivity|].
  destruct (mapping_roundtrip c 999 9998 998) as (_&_&Hd&_).
  - split; unfold PARTS_PER_BILLION; int_lia.
  - int_lia.
  - vm_compute. reflexivity.
  - vm_compute. reflexivity.
  - apply Hd. simpl. lia.
Defined.

(** ** Drift estimation theorems *)

Lemma estimator_new_wf s m : estimator_wf (estimator_new s m).
Proof. done. Qed.
(** [observe] keeps the first pair, accepts only a strict advance in both
    clocks, and changes nothing when it refuses. *)
Lemma observe_spec e source master :
  estimator_wf e → in_ty U64 (snap_time source) → in_ty U64 (snap_time master) →
  wp (observe source master) (λ r e', match r with
    | Ret _ => estimator_wf e' ∧ latest e' = Some (source, master) ∧
        first e' = Some (default (source, master) (first e))
    | Throw _ => e' = e
    | Panic => False
    end) e.
Proof.
  intros Hwf Hs Hm. destruct e as [sd md f l]. unfold estimator_wf, sample_ok in *.
  unfold observe. simpl in *.
  destruct f as [[f1 f2]|], l as [[l1 l2]|]; try done; wp_run; simpl in *; try done;
    match goal with
    | H : ¬ (_ ≠ _ ∨ _ ≠ _) |- _ => apply Decidable.not_or in H as [?%dec_stable ?%dec_stable]; simplify_eq
    end.
  - destruct Hwf as (?&?&Ho). split; [|done]. split_and!; try done; try tauto.
    right. destruct Ho as [[= -> ->]|?]; lia.
  - split; [|done]. split_and!; try done; tauto.
Qed.

(** the mapping an estimator derives from its samples sends the first source
    sample exactly to the first master sample, and the latest one to within a
    nanosecond, plus one nanosecond per second observed, below the latest master
    sample. *)
Theorem estimator_mapping_accurate e c f l :
  estimator_wf e → estimator_mapping e = Ok c →
  first e = Some f → latest e = Some l →
  mapping_wf c ∧
  affine c (snap_time f.1) = snap_time f.2 ∧
  snap_time l.2 - 1 - ((snap_time l.1 - snap_time f.1) / PARTS_PER_BILLION + 1)
    ≤ affine c (snap_time l.1) ≤ snap_time l.2.
Proof.
  intros Hwf Hc Hf Hl. unfold estimator_wf in Hwf. rewrite Hf, Hl in Hwf.
  destruct f as [f1 f2], l as [l1 l2]. unfold sample_ok in Hwf. simpl in *.
  destruct Hwf as ((_&_&Hf1&Hf2)&(_&_&Hl1&Hl2)&Ho).
  unfold estimator_mapping, estimated_drift_ppb in Hc. rewrite Hf, Hl in Hc.
  cbn [ok_or mbind result_bind] in Hc.
  apply result_bind_Ok in Hc as (dr&Hdr&Hc). apply result_bind_Ok in Hc as (dr'&Hdr'&Hc).
  apply ok_or_Ok, checked_Some in Hdr' as [<- Hin].
  unfold mapping_new in Hc. case_decide as Hneg; [done|]. injection Hc as <-.
  apply result_bind_Ok in Hdr as (sd&Hsd&Hdr). apply ok_or_Ok, checked_Some in Hsd as [<- _].
  apply result_bind_Ok in Hdr as (md&Hmd&Hdr). apply ok_or_Ok, checked_Some in Hmd as [<- _].
  case_decide as Hz; [done|]. apply result_bind_Ok in Hdr as (n&Hn&Hdr).
  apply ok_or_Ok, checked_Some in Hn as [<- _]. injection Hdr as <-.
  unfold affine, PARTS_PER_BILLION in *. simpl.
  split; [split; unfold PARTS_PER_BILLION; simpl; (done || lia)|].
  rewrite Z.sub_diag, Z.mul_0_l, Z.div_0_l, Z.add_0_r by lia. split; [done|].
  destruct Ho as [[= -> ->]|[Ho1 Ho2]]; [lia|].
  set (sd := snap_time l1 - snap_time f1) in *. set (md := snap_time l2 - snap_time f2) in *.
  rewrite Z.quot_div_nonneg in * by lia. 
  pose proof (Z.div_mod (md * 1000000000) sd ltac:(lia)).
  pose proof (Z.mod_pos_bound (md * 1000000000) sd ltac:(lia)).
  set (sc := (md * 1000000000) `div` sd) in *.
  replace (1000000000 + (sc - 1000000000)) with sc by lia.
  pose proof (Z.div_mod (sd * sc) 1000000000 ltac:(lia)).
  pose proof (Z.mod_pos_bound (sd * sc) 1000000000 ltac:(lia)).
  pose proof (Z.div_mod sd 1000000000 ltac:(lia)).
  pose proof (Z.mod_pos_bound sd 1000000000 ltac:(lia)).
  lia.
Qed.
Definition demo_estimator : DriftEstimator :=
  mk_estimator 1 2 (Some (mk_snapshot 1 1000, mk_snapshot 2 5000))
    (Some (mk_snapshot 1 1001000, mk_snapshot 2 1006000)).
Lemma estimator_mapping_accurate_witness :
  ∃ c, estimator_mapping demo_estimator = Ok c ∧ affine c 1000 = 5000.
Proof.
  eexists. split; [vm_compute; reflexivity|].
  eapply (estimator_mapping_accurate demo_estimator _
    (mk_snapshot 1 1000, mk_snapshot 2 5000) (mk_snapshot 1 1001000, mk_snapshot 2 1006000)).
  - cbn. unfold sample_ok. cbn. split_and!; try done; int_lia.
  - vm_compute. reflexivity.
  - reflexivity.
  - reflexivity.
Defined.
