(* ===== verification/Actions.v ===== *)
(** Frame-accurate actions, [crates/media/fm-scheduler/src/action.rs]: a queue of
    actions ordered by target frame and, within a frame, by scheduling order,
    with cancellation and supersession by identifier.

    [ActionQueue] maps to the record of the same name; [ordered] is the
    [BTreeMap], [by_id] the [HashMap]. *)
From S2P Require Import Prelude BTree.

(** ** Data *)

Abbreviation FrameNumber := Z (only parsing).
Abbreviation ActionId := Z (only parsing).

Inductive ActionError :=
  | SequenceExhausted
  | UnknownAction (id : ActionId).
#[global] Instance ActionError_eq_dec : EqDecision ActionError.
Proof. solve_decision. Defined.

Record ScheduledAction (A : Type) := mk_action {
  sa_id : ActionId;
  target_frame : FrameNumber;
  action : A
}.
Arguments mk_action {A}.
Arguments sa_id {A}.
Arguments target_frame {A}.
Arguments action {A}.

Record ActionQueue (A : Type) := mk_queue {
  next_sequence : Z;
  ordered : btmap (FrameNumber * ActionId) (ScheduledAction A);
  by_id : gmap ActionId (FrameNumber * ActionId)
}.
Arguments mk_queue {A}.
Arguments next_sequence {A}.
Arguments ordered {A}.
Arguments by_id {A}.

(** ** Operations *)

Section operations.
Context {A : Type}.

Definition queue_default : ActionQueue A := mk_queue 0 [] ∅.

Definition allocate_id : stm (ActionQueue A) ActionError ActionId :=
  self ← st_get;
  next ← st_lift (ok_or SequenceExhausted (checked U64 (next_sequence self + 1)));
  _ ← st_put (mk_queue next (ordered self) (by_id self));
  mret next.

Definition insert_action (id : ActionId) (target_frame : FrameNumber) (action : A)
    (self : ActionQueue A) : ActionQueue A :=
  let key := (target_frame, id) in
  mk_queue (next_sequence self)
    (bt_insert key (mk_action id target_frame action) (ordered self))
    (<[id := key]> (by_id self)).

Definition schedule (target_frame : FrameNumber) (action : A) :
    stm (ActionQueue A) ActionError ActionId :=
  id ← allocate_id;
  _ ← st_modify (insert_action id target_frame action);
  mret id.

Definition cancel (id : ActionId) (self : ActionQueue A) :
    ActionQueue A * option (ScheduledAction A) :=
  match by_id self !! id with
  | None => (self, None)
  | Some key =>
      (mk_queue (next_sequence self) (bt_remove key (ordered self)) (delete id (by_id self)),
       bt_get key (ordered self))
  end.

Definition supersede (superseded : ActionId) (target_frame : FrameNumber) (action : A) :
    stm (ActionQueue A) ActionError (ActionId * ScheduledAction A) :=
  self ← st_get;
  _ ← st_require (is_Some (by_id self !! superseded)) (UnknownAction superseded);
  id ← allocate_id;
  self ← st_get;
  let '(self, cancelled) := cancel superseded self in
  _ ← st_put self;
  previous ← st_lift (ok_or (UnknownAction superseded) cancelled);
  _ ← st_modify (insert_action id target_frame action);
  mret (id, previous).

(** The [filter_map] over the collected keys: cancel them one by one. *)
Fixpoint cancel_all (keys : list (FrameNumber * ActionId)) (self : ActionQueue A) :
    ActionQueue A * list (ScheduledAction A) :=
  match keys with
  | [] => (self, [])
  | (_, id) :: keys =>
      let '(self, cancelled) := cancel id self in
      let '(self, rest) := cancel_all keys self in
      (self, option_list cancelled ++ rest)
  end.
Definition drain_due (frame : FrameNumber) (self : ActionQueue A) :
    ActionQueue A * list (ScheduledAction A) :=
  cancel_all (bt_keys (bt_range_le (frame, ty_max U64) (ordered self))) self.

(** The queue as its client sees it: the pending actions in delivery order. *)
Definition pending (self : ActionQueue A) : list (ScheduledAction A) :=
  bt_values (ordered self).

Definition action_key (a : ScheduledAction A) : FrameNumber * ActionId :=
  (target_frame a, sa_id a).

Record queue_wf (q : ActionQueue A) : Prop := {
  qw_sequence : in_ty U64 (next_sequence q);
  qw_sorted : bt_sorted (ordered q);
  qw_key : ∀ key a, bt_get key (ordered q) = Some a → key = action_key a;
  qw_id : ∀ key, is_Some (bt_get key (ordered q)) → 0 < key.2 ≤ next_sequence q;
  qw_by_id : ∀ id key,
    by_id q !! id = Some key ↔ id = key.2 ∧ is_Some (bt_get key (ordered q))
}.
End operations.

(** ** Specification

    What the queue promises: a list of actions in delivery order.  Scheduling puts
    an action after every action that is due no later; cancelling takes out the
    action with the identifier; draining takes the actions that are due off the
    front. *)

Section specification.
Context {A : Type}.

Record queue_spec := mk_spec {
  allocated : Z;
  waiting : list (ScheduledAction A)
}.

Definition spec_insert (a : ScheduledAction A) (l : list (ScheduledAction A)) :
    list (ScheduledAction A) :=
  filter (λ b, target_frame b ≤ target_frame a) l ++
  a :: filter (λ b, target_frame a < target_frame b) l.
Definition spec_find (id : ActionId) (l : list (ScheduledAction A)) :
    option (ScheduledAction A) := head (filter (λ b, sa_id b = id) l).
Definition spec_cancel (id : ActionId) (l : list (ScheduledAction A)) :
    list (ScheduledAction A) := filter (λ b, sa_id b ≠ id) l.

(** The calls of a client, and what they answer. *)
Inductive queue_op :=
  | QSchedule (target_frame : FrameNumber) (action : A)
  | QCancel (id : ActionId)
  | QSupersede (superseded : ActionId) (target_frame : FrameNumber) (action : A)
  | QDrainDue (frame : FrameNumber).
Inductive queue_answer :=
  | AScheduled (r : outcome ActionError ActionId)
  | ACancelled (r : option (ScheduledAction A))
  | ASuperseded (r : outcome ActionError (ActionId * ScheduledAction A))
  | ADrained (due : list (ScheduledAction A)).

Definition queue_step (op : queue_op) (q : ActionQueue A) : ActionQueue A * queue_answer :=
  match op with
  | QSchedule frame act => let '(q, r) := schedule frame act q in (q, AScheduled r)
  | QCancel id => let '(q, r) := cancel id q in (q, ACancelled r)
  | QSupersede id frame act => let '(q, r) := supersede id frame act q in (q, ASuperseded r)
  | QDrainDue frame => let '(q, due) := drain_due frame q in (q, ADrained due)
  end.
Definition spec_step (op : queue_op) (s : queue_spec) : queue_spec * queue_answer :=
  match op with
  | QSchedule frame act =>
      match checked U64 (allocated s + 1) with
      | None => (s, AScheduled (Throw SequenceExhausted))
      | Some id => (mk_spec id (spec_insert (mk_action id frame act) (waiting s)),
                    AScheduled (Ret id))
      end
  | QCancel id => (mk_spec (allocated s) (spec_cancel id (waiting s)),
                   ACancelled (spec_find id (waiting s)))
  | QSupersede id frame act =>
      match spec_find id (waiting s), checked U64 (allocated s + 1) with
      | None, _ => (s, ASuperseded (Throw (UnknownAction id)))
      | Some _, None => (s, ASuperseded (Throw SequenceExhausted))
      | Some old, Some new =>
          (mk_spec new (spec_insert (mk_action new frame act) (spec_cancel id (waiting s))),
           ASuperseded (Ret (new, old)))
      end
  | QDrainDue frame =>
      (mk_spec (allocated s) (filter (λ b, frame < target_frame b) (waiting s)),
       ADrained (filter (λ b, target_frame b ≤ frame) (waiting s)))
  end.

Fixpoint run_ops {S} (step : queue_op → S → S * queue_answer) (ops : list queue_op) (s : S) :
    S * list queue_answer :=
  match ops with
  | [] => (s, [])
  | op :: ops =>
      let '(s, r) := step op s in
      let '(s, rs) := run_ops step ops s in (s, r :: rs)
  end.

Definition abstract (q : ActionQueue A) : queue_spec := mk_spec (next_sequence q) (pending q).
End specification.
Arguments queue_spec : clear implicits.
Arguments queue_op : clear implicits.
Arguments queue_answer : clear implicits.

(** ** Lemmas *)

Section lemmas.
Context {A : Type}.
Implicit Types (q : ActionQueue A) (a : ScheduledAction A).

Lemma queue_default_wf : queue_wf (queue_default : ActionQueue A).
Proof.
  split.
  - done.
  - apply bt_sorted_nil.
  - done.
  - by intros key [].
  - intros id key. unfold queue_default; simpl. rewrite lookup_empty.
    split; [done|by intros [_ []]].
Qed.

Lemma elem_of_pending q a :
  queue_wf q → a ∈ pending q ↔ bt_get (action_key a) (ordered q) = Some a.
Proof.
  intros Hwf. rewrite (bt_get_Some _ _ _ (qw_sorted _ Hwf)).
  unfold pending, bt_values. rewrite list_elem_of_fmap. split.
  - intros ([k a']&->&Hin). simpl.
    rewrite <-(qw_key _ Hwf k a'); [done|]. apply bt_elem_get; [apply qw_sorted|]; done.
  - intros Hin. by exists (action_key a, a).
Qed.
Lemma pending_keys q : queue_wf q → action_key <$> pending q = bt_keys (ordered q).
Proof.
  intros Hwf. unfold pending, bt_values, bt_keys. rewrite <-list_fmap_compose.
  apply list_fmap_ext. intros i [k a] Hi. simpl. symmetry.
  apply (qw_key _ Hwf), bt_elem_get; [apply qw_sorted|]; [done|].
  by apply list_elem_of_lookup_2 in Hi.
Qed.

(** Two entries with the same identifier are the same entry. *)
Lemma key_unique q k1 k2 :
  queue_wf q → is_Some (bt_get k1 (ordered q)) → is_Some (bt_get k2 (ordered q)) →
  k1.2 = k2.2 → k1 = k2.
Proof.
  intros Hwf H1 H2 Heq.
  assert (by_id q !! k1.2 = Some k1) as Hb1 by by apply (qw_by_id _ Hwf).
  assert (by_id q !! k2.2 = Some k2) as Hb2 by by apply (qw_by_id _ Hwf).
  congruence.
Qed.

Lemma insert_action_wf q (id frame : Z) (act : A) :
  queue_wf q → next_sequence q < id → in_ty U64 id →
  queue_wf (insert_action id frame act (mk_queue id (ordered q) (by_id q))).
Proof.
  intros Hwf Hid Hin. destruct Hwf as [Hseq Hs Hk Hi Hb].
  assert (Hnew : ∀ f, bt_get (f, id) (ordered q) = None).
  { intros f. apply eq_None_not_Some. intros Hx. apply Hi in Hx. simpl in Hx. lia. }
  split; simpl.
  - done.
  - by apply bt_insert_sorted.
  - intros key a. rewrite bt_get_insert. case_decide; [|by apply Hk].
    by intros [= <-]; subst.
  - intros key. rewrite bt_get_insert. case_decide as He.
    + subst. simpl. unfold in_ty in *; simpl in *. lia.
    + intros Hx. apply Hi in Hx. lia.
  - intros id' [f i]. rewrite bt_get_insert, lookup_insert. simpl.
    repeat case_decide; simplify_eq.
    + split; [intros _; by split; [|eexists]|done].
    + split; [congruence|]. intros [<- [x Hx]]. by rewrite Hnew in Hx.
    + split; [|naive_solver]. intros Hx. apply Hb in Hx as [-> [x Hx]]. by rewrite Hnew in Hx.
    + apply Hb.
Qed.

Lemma cancel_spec q id q' r :
  queue_wf q → cancel id q = (q', r) →
  queue_wf q' ∧ next_sequence q' = next_sequence q ∧
  match r with
  | None => q' = q ∧ (∀ a, a ∈ pending q → sa_id a ≠ id)
  | Some a => sa_id a = id ∧ a ∈ pending q ∧
      by_id q !! id = Some (action_key a) ∧
      ordered q' = bt_remove (action_key a) (ordered q)
  end.
Proof.
  intros Hwf. unfold cancel. destruct (by_id q !! id) as [key|] eqn:Hb; intros [= <- <-].
  - pose proof Hb as Hb'. apply (qw_by_id _ Hwf) in Hb' as [-> [a Ha]]. rewrite Ha.
    pose proof (qw_key _ Hwf _ _ Ha) as Hkey.
    split; [|split; [done|]].
    + split; simpl.
      * apply Hwf.
      * apply bt_remove_sorted, Hwf.
      * intros k x. rewrite bt_get_remove. case_decide; [done|]. apply Hwf.
      * intros k. rewrite bt_get_remove. case_decide; [by intros []|]. apply Hwf.
      * intros id' k. rewrite bt_get_remove, lookup_delete_Some, (qw_by_id _ Hwf).
        case_decide as He; [subst k|]; split.
        -- intros (?&->&_). done.
        -- by intros [_ []].
        -- by intros (_&->&?).
        -- intros [-> Hx]. split_and!; [|done..]. intros Heq. apply He.
           by apply (key_unique q).
    + split_and!; [by rewrite Hkey| |by rewrite <-Hkey|by rewrite <-Hkey].
      apply elem_of_pending; [done|]. by rewrite <-Hkey.
  - split; [done|]. split; [done|]. split; [done|]. intros a Ha <-.
    apply elem_of_pending in Ha; [|done].
    assert (by_id q !! sa_id a = Some (action_key a)); [|congruence].
    apply (qw_by_id _ Hwf). split; [done|by eexists].
Qed.

Lemma cancel_all_spec keys q q' l :
  queue_wf q → NoDup keys → (∀ k, k ∈ keys → is_Some (bt_get k (ordered q))) →
  cancel_all keys q = (q', l) →
  queue_wf q' ∧ next_sequence q' = next_sequence q ∧
  ordered q' = filter (λ p, p.1 ∉ keys) (ordered q) ∧
  (λ k, bt_get k (ordered q)) <$> keys = Some <$> l.
Proof.
  revert q q' l. induction keys as [|[f id] keys IH]; intros q q' l Hwf Hnd Hin; simpl.
  { intros [= <- <-]. split_and!; [done..| |done].
    symmetry. apply filter_all. intros p _. apply not_elem_of_nil. }
  apply NoDup_cons in Hnd as [Hk Hnd].
  destruct (cancel id q) as [q1 r] eqn:Hc.
  destruct (cancel_all keys q1) as [q2 rest] eqn:Hr. intros [= <- <-].
  destruct (Hin (f, id)) as [a Ha]; [by left|].
  assert (Hid : by_id q !! id = Some (f, id)) by (apply (qw_by_id _ Hwf); eauto).
  pose proof (qw_key _ Hwf _ _ Ha) as Hkey.
  apply cancel_spec in Hc as (Hwf1&Hn1&Hr1); [|done].
  destruct r as [a'|]; [|exfalso; destruct Hr1 as [_ Hr1]; apply (Hr1 a);
    [apply elem_of_pending; [done|]; by rewrite <-Hkey|by injection Hkey]].
  destruct Hr1 as (_&Hpend&Ha'&Ho).
  assert (action_key a' = (f, id)) as Hka by congruence.
  apply elem_of_pending in Hpend; [|done]. rewrite Hka in Hpend, Ho.
  assert (Hget : ∀ k, k ∈ keys → bt_get k (ordered q1) = bt_get k (ordered q)).
  { intros k Hk'. rewrite Ho. apply bt_get_remove_ne. intros <-. done. }
  apply IH in Hr as (?&Hn2&Ho2&Hf); [|done..|].
  2: { intros k Hk'. rewrite Hget by done. apply Hin. by right. }
  split_and!; [done|congruence| |].
  - rewrite Ho2, Ho. unfold bt_remove. rewrite list_filter_filter.
    apply list_filter_iff. intros p. rewrite not_elem_of_cons. naive_solver.
  - change (bt_get (f, id) (ordered q) :: ((λ k, bt_get k (ordered q)) <$> keys) =
            Some a' :: (Some <$> rest)).
    rewrite Hpend, <-Hf. f_equal. apply list_fmap_ext.
    intros i k Hk'. symmetry. by apply Hget, list_elem_of_lookup_2 with i.
Qed.

(** The pending actions are in delivery order: by target frame, and in
    scheduling order within a frame. *)
Lemma pending_sorted q :
  queue_wf q → StronglySorted key_lt (action_key <$> pending q).
Proof. intros Hwf. rewrite pending_keys by done. apply Hwf. Qed.

Lemma key_le_frame (f i frame : Z) : i ≤ ty_max U64 → key_le (f, i) (frame, ty_max U64) ↔ f ≤ frame.
Proof.
  intros Hi. unfold key_le, key_cmp, prod_ord_key, key_cmp, Z_ord_key. cbn [fst snd].
  destruct (Z.compare_spec f frame) as [He|He|He].
  - destruct (Z.compare_spec i (ty_max U64)); [naive_solver lia..|lia].
  - naive_solver lia.
  - naive_solver lia.
Qed.

Lemma id_bound q k a :
  queue_wf q → (k, a) ∈ ordered q → k = action_key a ∧ 0 < sa_id a ≤ ty_max U64.
Proof.
  intros Hwf Hin%bt_elem_get; [|apply Hwf].
  pose proof (qw_key _ Hwf _ _ Hin) as ->. split; [done|].
  assert (0 < (action_key a).2 ≤ next_sequence q) by (apply (qw_id _ Hwf); eauto).
  pose proof (qw_sequence _ Hwf). unfold in_ty in *. simpl in *. lia.
Qed.

Lemma drain_due_spec frame q q' due :
  queue_wf q → drain_due frame q = (q', due) →
  queue_wf q' ∧ next_sequence q' = next_sequence q ∧ pending q = due ++ pending q' ∧
  Forall (λ a, target_frame a ≤ frame) due ∧
  Forall (λ a, frame < target_frame a) (pending q').
Proof.
  intros Hwf. unfold drain_due. set (top := (frame, ty_max U64)).
  pose proof (qw_sorted _ Hwf) as Hs. intros Hd.
  apply cancel_all_spec in Hd as (?&?&Ho&Hl); [|done|..].
  2: { apply bt_sorted_NoDup; auto with btree. }
  2: { intros k (p&->&Hp)%list_elem_of_fmap. apply elem_of_bt_range_le in Hp as [_ Hp].
       destruct p. eexists. by apply bt_elem_get. }
  assert (Ho' : ordered q' = bt_range_gt top (ordered q)).
  { rewrite Ho. apply list_filter_iff_elem. intros [k a] Hp. split.
    - intros Hn Hle. apply Hn. apply list_elem_of_fmap. exists (k, a). split; [done|].
      by apply elem_of_bt_range_le.
    - intros Hle (p&Hp1&Hp2)%list_elem_of_fmap. simpl in *. subst.
      apply Hle. by apply elem_of_bt_range_le in Hp2 as []. }
  assert (due = bt_values (bt_range_le top (ordered q))) as ->.
  { apply (inj (fmap Some)). rewrite <-Hl. unfold bt_keys, bt_values.
    rewrite <-!list_fmap_compose. apply list_fmap_ext. intros i [k a] Hi. simpl.
    apply bt_elem_get; [done|]. apply list_elem_of_lookup_2, elem_of_bt_range_le in Hi.
    by destruct Hi. }
  unfold pending. rewrite Ho'. split_and!; [done..| | |].
  - unfold bt_values. by rewrite <-fmap_app, <-bt_range_split.
  - apply Forall_forall. intros a ([k a']&->&Hp)%list_elem_of_fmap. simpl.
    apply elem_of_bt_range_le in Hp as [Hle Hp]. apply id_bound in Hp as [-> [??]]; [|done].
    simpl in Hle. by apply key_le_frame in Hle.
  - apply Forall_forall. intros a ([k a']&->&Hp)%list_elem_of_fmap. simpl.
    apply elem_of_bt_range_gt in Hp as [Hle Hp]. apply id_bound in Hp as [-> [??]]; [|done].
    simpl in Hle. apply key_not_le in Hle. unfold action_key, top in Hle.
    rewrite key_le_frame in Hle by done. lia.
Qed.

Lemma filter_pending (P : ScheduledAction A → Prop) `{∀ a, Decision (P a)} (q : ActionQueue A)
    (Q : (Z * Z) * ScheduledAction A → Prop) `{∀ p, Decision (Q p)} :
  (∀ p, p ∈ ordered q → P p.2 ↔ Q p) →
  filter P (pending q) = (filter Q (ordered q)).*2.
Proof.
  unfold pending, bt_values. induction (ordered q) as [|p m IH]; intros Hp; [done|].
  rewrite fmap_cons, !filter_cons, IH by (intros; apply Hp; by right).
  pose proof (Hp p (list_elem_of_here _ _)). repeat case_decide; naive_solver.
Qed.

Lemma pending_insert q id frame act :
  queue_wf q → next_sequence q < id → in_ty U64 id →
  pending (insert_action id frame act (mk_queue id (ordered q) (by_id q))) =
  spec_insert (mk_action id frame act) (pending q).
Proof.
  intros Hwf Hid Hin.
  assert (Hk : ∀ p, p ∈ ordered q →
    target_frame p.2 ≤ frame ↔ key_le p.1 (frame, id)).
  { intros [k a] Hp. pose proof Hp as [-> [??]]%id_bound; [|done]. simpl.
    assert (sa_id a ≤ next_sequence q).
    { apply bt_elem_get in Hp; [|apply Hwf].
      destruct (qw_id _ Hwf (action_key a)); eauto. }
    unfold key_le, key_cmp, prod_ord_key, key_cmp, Z_ord_key. cbn [fst snd action_key].
    destruct (Z.compare_spec (target_frame a) frame).
    - destruct (Z.compare_spec (sa_id a) id); naive_solver lia.
    - naive_solver lia.
    - naive_solver lia. }
  assert (Hnew : bt_get (frame, id) (ordered q) = None).
  { apply eq_None_not_Some. intros Hx%(qw_id _ Hwf). simpl in Hx. lia. }
  unfold pending at 1. simpl. rewrite bt_insert_split by (apply Hwf || done).
  unfold bt_values. rewrite fmap_app, fmap_cons. unfold spec_insert. simpl. f_equal; [|f_equal].
  - symmetry. by apply filter_pending.
  - symmetry. apply filter_pending. intros p Hp. rewrite <-(Hk p Hp). lia.
Qed.

Lemma pending_cancel q id q' r :
  queue_wf q → cancel id q = (q', r) →
  r = spec_find id (pending q) ∧ pending q' = spec_cancel id (pending q) ∧
  option_list r = filter (λ b, sa_id b = id) (pending q).
Proof.
  intros Hwf Hc. apply cancel_spec in Hc as (Hwf'&_&Hr); [|done].
  unfold spec_find, spec_cancel. destruct r as [a|].
  - destruct Hr as (<-&Ha&Hb&Ho).
    assert (filter (λ b, sa_id b = sa_id a) (pending q) = [a]) as ->.
    { apply Permutation_singleton_r, NoDup_Permutation.
      * apply NoDup_filter. eapply (NoDup_fmap_1 action_key).
        rewrite pending_keys by done. apply bt_sorted_NoDup, Hwf.
      * apply NoDup_singleton.
      * intros b. rewrite list_elem_of_filter, list_elem_of_singleton. split; [|naive_solver].
        intros [Hid Hb']. apply elem_of_pending in Ha, Hb'; [|done..].
        assert (action_key b = action_key a); [|congruence].
        apply (key_unique q); [done|by eexists..|done]. }
    split_and!; [done| |done].
    symmetry. unfold pending at 2. rewrite Ho. unfold bt_values, bt_remove.
    apply filter_pending. intros [k b] Hp. simpl.
    apply bt_elem_get in Hp; [|apply Hwf]. pose proof (qw_key _ Hwf _ _ Hp) as ->.
    split; intros Hne Heq; apply Hne; [by injection Heq|].
    apply elem_of_pending in Ha; [|done].
    apply (key_unique q); [done|by eexists..|done].
  - destruct Hr as [-> Hr]. rewrite filter_none by done. split_and!; [done| |done].
    by rewrite filter_all.
Qed.
Lemma cancel_Permutation q id q' r :
  queue_wf q → cancel id q = (q', r) → pending q ≡ₚ option_list r ++ pending q'.
Proof.
  intros Hwf Hc. destruct (pending_cancel _ _ _ _ Hwf Hc) as (_&->&->).
  unfold spec_cancel. symmetry. apply filter_app_complement.
Qed.
Lemma spec_insert_Permutation a l : spec_insert a l ≡ₚ a :: l.
Proof.
  unfold spec_insert. rewrite <-Permutation_middle. constructor.
  etrans; [|apply (filter_app_complement (λ b, target_frame b ≤ target_frame a))].
  apply Permutation_app_head. rewrite (list_filter_iff _ (λ b, ¬ target_frame b ≤ target_frame a)); [done|].
  intros b. lia.
Qed.

Lemma by_id_spec q id :
  queue_wf q → is_Some (by_id q !! id) ↔ is_Some (spec_find id (pending q)).
Proof.
  intros Hwf. destruct (cancel id q) as [q' r] eqn:Hc.
  destruct (pending_cancel _ _ _ _ Hwf Hc) as [<- _].
  apply cancel_spec in Hc as (_&_&Hr); [|done]. destruct r as [a|].
  - destruct Hr as (_&_&Hb&_). rewrite Hb. split; by eexists.
  - destruct Hr as [_ Hr]. split; [|by intros []]. intros [key Hb].
    apply (qw_by_id _ Hwf) in Hb as [-> [a Ha]].
    pose proof (qw_key _ Hwf _ _ Ha) as ->. destruct (Hr a); [|done].
    by apply elem_of_pending.
Qed.

(** One call: the queue does what the specification says and stays well formed. *)
Lemma queue_step_spec op q :
  queue_wf q →
  queue_wf (queue_step op q).1 ∧
  spec_step op (abstract q) = (abstract (queue_step op q).1, (queue_step op q).2).
Proof.
  intros Hwf. pose proof (qw_sequence _ Hwf) as Hseq.
  destruct op as [frame act|id|id frame act|frame]; unfold queue_step, spec_step.
  - unfold schedule, allocate_id, mbind, stm_bind, st_get, st_lift, st_put, st_modify; simpl.
    destruct (checked U64 _) as [id|] eqn:Hid; simpl; [|done].
    apply checked_Some in Hid as [<- ?].
    split; [apply insert_action_wf; [done|lia|done]|].
    unfold abstract. rewrite pending_insert; [done|done|lia|done].
  - destruct (cancel id q) as [q' r] eqn:Hc.
    destruct (pending_cancel _ _ _ _ Hwf Hc) as (->&Hp&_).
    apply cancel_spec in Hc as (?&Hn&_); [|done]. split; [done|]. simpl.
    unfold abstract. by rewrite Hp, Hn.
  - unfold supersede, allocate_id, mbind, stm_bind, st_get, st_lift, st_put, st_modify,
      st_require; simpl.
    case_decide as Hb; rewrite (by_id_spec q id Hwf) in Hb; simpl.
    2: { split; [done|]. apply eq_None_not_Some in Hb. by rewrite Hb. }
    destruct Hb as [old Hold]. rewrite Hold.
    destruct (checked U64 _) as [new|] eqn:Hnew; simpl; [|done].
    apply checked_Some in Hnew as [<- ?].
    set (q1 := mk_queue _ (ordered q) (by_id q)).
    assert (Hc : ∃ q2, cancel id q1 = (q2, Some old) ∧
      ∃ q3, cancel id q = (q3, Some old) ∧
      q2 = mk_queue (next_sequence q + 1) (ordered q3) (by_id q3)).
    { destruct (cancel id q) as [q3 r] eqn:Hc.
      destruct (pending_cancel _ _ _ _ Hwf Hc) as [Hr _]. rewrite Hold in Hr. subst r.
      revert Hc. unfold cancel. simpl. destruct (by_id q !! id); [|done].
      intros [= <- ->]. eauto. }
    destruct Hc as (q2&->&q3&Hc&->). simpl.
    destruct (pending_cancel _ _ _ _ Hwf Hc) as (_&Hp&_).
    apply cancel_spec in Hc as (Hwf3&Hn&_); [|done].
    split; [apply insert_action_wf; [done|lia|done]|].
    unfold abstract. rewrite pending_insert; [by rewrite Hp|done|lia|done].
  - destruct (drain_due frame q) as [q' due] eqn:Hd.
    apply drain_due_spec in Hd as (?&Hn&Hp&Hdue&Hrest); [|done]. split; [done|].
    rewrite Forall_forall in Hdue, Hrest.
    unfold abstract. simpl. rewrite Hp, Hn, !filter_app.
    rewrite (filter_none _ due) by (intros a Ha%Hdue; lia).
    rewrite (filter_all _ (pending q')) by (intros a Ha%Hrest; lia).
    rewrite (filter_all _ due) by (intros a Ha%Hdue; lia).
    rewrite (filter_none _ (pending q')) by (intros a Ha%Hrest; lia).
    by rewrite app_nil_r.
Qed.

Lemma schedule_spec frame act q :
  queue_wf q →
  match schedule frame act q with
  | (q', Ret id) =>
      queue_wf q' ∧ id = next_sequence q + 1 ∧ next_sequence q' = id ∧
      pending q' = spec_insert (mk_action id frame act) (pending q)
  | (q', Throw _) => q' = q
  | (_, Panic) => False
  end.
Proof.
  intros Hwf. destruct (queue_step_spec (QSchedule frame act) q Hwf) as [Hwf' Hs]. simpl in *.
  unfold schedule, allocate_id, mbind, stm_bind, st_get, st_lift, st_put, st_modify in *; simpl in *.
  destruct (checked U64 _) as [id|] eqn:Hid; simpl in *; [|done].
  apply checked_Some in Hid as [<- ?]. unfold abstract in Hs. by injection Hs.
Qed.
Lemma supersede_spec superseded frame act q :
  queue_wf q →
  match supersede superseded frame act q with
  | (q', Ret (id, old)) =>
      queue_wf q' ∧ id = next_sequence q + 1 ∧ next_sequence q' = id ∧
      pending q ≡ₚ old :: spec_cancel superseded (pending q) ∧
      pending q' = spec_insert (mk_action id frame act) (spec_cancel superseded (pending q))
  | (q', Throw _) => q' = q
  | (_, Panic) => False
  end.
Proof.
  intros Hwf.
  destruct (queue_step_spec (QSupersede superseded frame act) q Hwf) as [Hwf' Hs]. simpl in *.
  destruct (cancel superseded q) as [qc rc] eqn:Hc.
  destruct (pending_cancel _ _ _ _ Hwf Hc) as (Hr&Hp&_).
  apply cancel_Permutation in Hc; [|done].
  destruct (supersede superseded frame act q) as [q' r] eqn:Hq. rewrite <-Hr in Hs.
  destruct rc as [old|]; [destruct (checked U64 _) as [id|] eqn:Hid|]; simplify_eq/=.
  - apply checked_Some in Hid as [<- ?].
    match goal with Ha : _ = abstract q' |- _ => unfold abstract in Ha; injection Ha as Hn Hw end.
    split_and!; [done..|by rewrite <-Hp|done].
  - revert Hq. unfold supersede, allocate_id, mbind, stm_bind, st_require, st_get, st_lift.
    case_decide; simpl; [|by intros [= <-]]. rewrite Hid. simpl. by intros [= <-].
  - revert Hq. unfold supersede, allocate_id, mbind, stm_bind, st_require, st_get, st_lift.
    case_decide; simpl; [|by intros [= <-]].
    destruct (proj1 (by_id_spec q superseded Hwf)); [done|]. congruence.
Qed.

Lemma run_ops_spec ops q :
  queue_wf q →
  queue_wf (run_ops queue_step ops q).1 ∧
  run_ops spec_step ops (abstract q) =
  (abstract (run_ops queue_step ops q).1, (run_ops queue_step ops q).2).
Proof.
  revert q. induction ops as [|op ops IH]; intros q Hwf; [done|].
  destruct (queue_step_spec op q Hwf) as [Hwf' Hs]. simpl. rewrite Hs.
  destruct (queue_step op q) as [q1 r] eqn:Hq. simpl in *.
  destruct (IH q1 Hwf') as [? ->].
  by destruct (run_ops queue_step ops q1).
Qed.
End lemmas.

(** ** Theorems *)

(** C35: The action queue refines its specification: whatever calls a client makes
    on a new queue, in whatever order, every answer is the one the ordered list
    gives, identifiers and errors included, and the two structures stay in
    step. *)
Theorem action_queue_refines {A} (ops : list (queue_op A)) :
  let '(q, answers) := run_ops queue_step ops queue_default in
  run_ops spec_step ops (mk_spec 0 []) = (abstract q, answers) ∧ queue_wf q.
Proof.
  pose proof (run_ops_spec ops (queue_default : ActionQueue A) queue_default_wf) as [? Hs].
  by destruct (run_ops queue_step ops queue_default).
Qed.

(** Draining a frame takes exactly the actions whose target has come, and they
    come out in target order and, within a frame, in the order they were
    scheduled; what stays is due later. *)
Theorem drain_due_exact {A} (frame : Z) (q q' : ActionQueue A) due :
  queue_wf q → drain_due frame q = (q', due) →
  pending q = due ++ pending q' ∧
  (∀ a, a ∈ due → target_frame a ≤ frame) ∧ (∀ a, a ∈ pending q' → frame < target_frame a) ∧
  StronglySorted key_lt (action_key <$> due) ∧ queue_wf q'.
Proof.
  intros Hwf Hd. apply drain_due_spec in Hd as (Hwf'&_&Hp&Hdue&Hrest); [|done].
  rewrite Forall_forall in Hdue, Hrest. split_and!; [done..| |done].
  pose proof (pending_sorted _ Hwf) as Hs. rewrite Hp, fmap_app in Hs.
  by apply StronglySorted_app_1_l in Hs.
Qed.

(** *** Witnesses *)

Definition example_queue : ActionQueue nat :=
  (run_ops queue_step [QSchedule 7 1%nat; QSchedule 3 2%nat; QSchedule 5 3%nat;
    QSupersede 2 5 4%nat; QSchedule 3 5%nat; QCancel 1] queue_default).1.

Lemma drain_due_exact_witness :
  (pending example_queue = [mk_action 5 3 5%nat; mk_action 3 5 3%nat; mk_action 4 5 4%nat]) ∧
  ∃ q', drain_due 4 example_queue = (q', [mk_action 5 3 5%nat]) ∧ queue_wf q'.
Proof.
  split; [vm_compute; reflexivity|].
  eexists. split; [vm_compute; reflexivity|].
  refine (proj2 (proj2 (proj2 (proj2
    (drain_due_exact 4 example_queue _ [mk_action 5 3 5%nat] _ _))))).
  - exact (proj1 (run_ops_spec _ queue_default queue_default_wf)).
  - vm_compute. reflexivity.
Defined.
