(* ===== verification/Queues.v ===== *)
(** Bounded input queues, [crates/media/fm-scheduler/src/queue.rs]: one bounded
    first-in first-out queue per input, with a policy for a producer that
    finds it full.

    [BoundedQueue] maps to the record of the same name, its [VecDeque] to a
    list with the front first; [InputQueues] to a finite map by input. *)
From S2P Require Import Prelude.

(** ** Data *)

Inductive QueuePolicy :=
  | DropOldest
  | DropNewest
  | BlockProducer.
Inductive QueueConfigError :=
  | ZeroCapacity
  | DuplicateInput.
#[global] Instance QueueConfigError_eq_dec : EqDecision QueueConfigError.
Proof. solve_decision. Defined.

Inductive QueuePush (T : Type) :=
  | Enqueued (dropped : option T)
  | DroppedNewest (item : T).
Arguments Enqueued {T}.
Arguments DroppedNewest {T}.

Definition dropped {T} (outcome : QueuePush T) : bool :=
  match outcome with
  | Enqueued (Some _) | DroppedNewest _ => true
  | Enqueued None => false
  end.

Inductive InputQueueError (T : Type) :=
  | UnknownInput (item : T)
  | WouldBlock (item : T).
Arguments UnknownInput {T}.
Arguments WouldBlock {T}.

Record BoundedQueue (T : Type) := mk_bounded {
  capacity : nat;
  policy : QueuePolicy;
  items : list T
}.
Arguments mk_bounded {T}.
Arguments capacity {T}.
Arguments policy {T}.
Arguments items {T}.

(** ** One queue *)

Section bounded_queue.
Context {T : Type}.

Definition queue_new (capacity : nat) (policy : QueuePolicy) :
    result QueueConfigError (BoundedQueue T) :=
  if decide (capacity = 0%nat) then Err ZeroCapacity else Ok (mk_bounded capacity policy []).

Definition set_items (l : list T) (self : BoundedQueue T) : BoundedQueue T :=
  mk_bounded (capacity self) (policy self) l.

Definition queue_push (item : T) : stm (BoundedQueue T) (InputQueueError T) (QueuePush T) :=
  self ← st_get;
  if decide (length (items self) < capacity self)%nat then
    _ ← st_put (set_items (items self ++ [item]) self);
    mret (Enqueued None)
  else match policy self with
  | DropOldest =>
      _ ← st_put (set_items (tail (items self) ++ [item]) self);
      mret (Enqueued (head (items self)))
  | DropNewest => mret (DroppedNewest item)
  | BlockProducer => mthrow (WouldBlock item)
  end.

Definition queue_pop (self : BoundedQueue T) : BoundedQueue T * option T :=
  (set_items (tail (items self)) self, head (items self)).

(** The queue never holds more than its capacity, which is not zero. *)
Definition bounded_wf (q : BoundedQueue T) : Prop :=
  capacity q ≠ 0%nat ∧ (length (items q) ≤ capacity q)%nat.
End bounded_queue.

(** ** The queues of all inputs *)

Section input_queues.
Context {I : Type} `{Countable I} {T : Type}.

Abbreviation InputQueues := (gmap I (BoundedQueue T)).

Definition register (input : I) (capacity : nat) (policy : QueuePolicy) :
    stm InputQueues QueueConfigError unit :=
  queues ← st_get;
  _ ← st_require (queues !! input = None) DuplicateInput;
  queue ← st_lift (queue_new capacity policy);
  st_put (<[input := queue]> queues).

Definition inputs_push (input : I) (item : T) :
    stm InputQueues (InputQueueError T) (QueuePush T) := λ queues,
  match queues !! input with
  | None => (queues, Throw (UnknownInput item))
  | Some queue => let '(queue, r) := queue_push item queue in (<[input := queue]> queues, r)
  end.

Definition inputs_pop (input : I) (queues : InputQueues) : InputQueues * option T :=
  match queues !! input with
  | None => (queues, None)
  | Some queue => let '(queue, r) := queue_pop queue in (<[input := queue]> queues, r)
  end.

Definition inputs_len (input : I) (queues : InputQueues) : option nat :=
  (length ∘ items) <$> queues !! input.

Definition inputs_wf (queues : InputQueues) : Prop := map_Forall (λ _, bounded_wf) queues.
End input_queues.

(** ** Histories

    The calls on all inputs in the order they are made, each with its answer. *)

Section histories.
Context {I : Type} `{Countable I} {T : Type}.

Inductive input_call :=
  | CRegister (input : I) (capacity : nat) (policy : QueuePolicy)
  | CPush (input : I) (item : T)
  | CPop (input : I).
Inductive input_answer :=
  | RRegistered (r : outcome QueueConfigError unit)
  | RPushed (r : outcome (InputQueueError T) (QueuePush T))
  | RPopped (r : option T).

Definition input_step (call : input_call) (queues : gmap I (BoundedQueue T)) :
    gmap I (BoundedQueue T) * input_answer :=
  match call with
  | CRegister i c p => let '(queues, r) := register i c p queues in (queues, RRegistered r)
  | CPush i x => let '(queues, r) := inputs_push i x queues in (queues, RPushed r)
  | CPop i => let '(queues, r) := inputs_pop i queues in (queues, RPopped r)
  end.
Fixpoint input_run (calls : list input_call) (queues : gmap I (BoundedQueue T)) :
    gmap I (BoundedQueue T) * list (input_call * input_answer) :=
  match calls with
  | [] => (queues, [])
  | call :: calls =>
      let '(queues, r) := input_step call queues in
      let '(queues, trace) := input_run calls queues in (queues, (call, r) :: trace)
  end.

(** The frames an input took in, and the frames that left its queue: popped, or
    dropped as the oldest. *)
Definition entered (i : I) (step : input_call * input_answer) : list T :=
  match step with
  | (CPush j x, RPushed (Ret (Enqueued _))) => if decide (i = j) then [x] else []
  | _ => []
  end.
Definition departed (i : I) (step : input_call * input_answer) : list T :=
  match step with
  | (CPush j _, RPushed (Ret (Enqueued (Some x)))) => if decide (i = j) then [x] else []
  | (CPop j, RPopped (Some x)) => if decide (i = j) then [x] else []
  | _ => []
  end.
(** The frames an input's producer was told are lost without having entered. *)
Definition refused (i : I) (step : input_call * input_answer) : list T :=
  match step with
  | (CPush j _, RPushed (Ret (DroppedNewest x))) => if decide (i = j) then [x] else []
  | (CPush j _, RPushed (Throw (UnknownInput x))) => if decide (i = j) then [x] else []
  | (CPush j _, RPushed (Throw (WouldBlock x))) => if decide (i = j) then [x] else []
  | _ => []
  end.
Definition offered (i : I) (step : input_call * input_answer) : list T :=
  match step with
  | (CPush j x, _) => if decide (i = j) then [x] else []
  | _ => []
  end.
Definition queued (i : I) (queues : gmap I (BoundedQueue T)) : list T :=
  from_option items [] (queues !! i).

Implicit Types (queues : gmap I (BoundedQueue T)).

Lemma queued_insert i j q queues :
  queued i (<[j := q]> queues) = if decide (i = j) then items q else queued i queues.
Proof.
  unfold queued. case_decide; subst; [by rewrite lookup_insert_eq|by rewrite lookup_insert_ne].
Qed.

Lemma queue_push_spec (q q' : BoundedQueue T) x r :
  bounded_wf q → queue_push x q = (q', r) →
  bounded_wf q' ∧
  match r with
  | Ret (Enqueued d) => items q ++ [x] = option_list d ++ items q'
  | Ret (DroppedNewest y) | Throw (WouldBlock y) => y = x ∧ items q' = items q
  | _ => False
  end.
Proof.
  destruct q as [c p l]. unfold bounded_wf, queue_push, set_items, mbind, stm_bind, st_get,
    st_put; simpl.
  intros [Hc Hl]. case_decide as Hd; simpl.
  { intros [= <- <-]; simpl. rewrite length_app. simpl. split; [lia|done]. }
  destruct p; intros [= <- <-]; simpl; [|done..].
  destruct l as [|y l]; simpl in *; [lia|]. rewrite length_app. simpl. split; [lia|done].
Qed.

Lemma input_step_spec call queues :
  inputs_wf queues →
  inputs_wf (input_step call queues).1 ∧ ∀ i,
  queued i queues ++ entered i (call, (input_step call queues).2) =
    departed i (call, (input_step call queues).2) ++ queued i (input_step call queues).1 ∧
  offered i (call, (input_step call queues).2) =
    entered i (call, (input_step call queues).2) ++ refused i (call, (input_step call queues).2).
Proof.
  intros Hwf. destruct call as [j c p|j x|j]; simpl.
  - unfold register, mbind, stm_bind, st_get, st_require, st_lift, queue_new; simpl.
    case_decide as Hj; simpl; [|split; [done|]; intros; by rewrite app_nil_r].
    case_decide; simpl; [split; [done|]; intros; by rewrite app_nil_r|]. split.
    + apply map_Forall_insert_2; [|done]. split; simpl; [done|lia].
    + intros i. rewrite queued_insert, app_nil_r. split; [|done].
      case_decide; subst; [|done]. unfold queued. by rewrite Hj.
  - unfold inputs_push. destruct (queues !! j) as [q|] eqn:Hj; simpl.
    2: { split; [done|]. intros i. rewrite app_nil_r. by case_decide. }
    destruct (queue_push x q) as [q' r] eqn:Hp. simpl.
    apply queue_push_spec in Hp as [Hq' Hr]; [|by apply (Hwf j)].
    split; [by apply map_Forall_insert_2|]. intros i. rewrite queued_insert.
    assert (Hq : queued j queues = items q) by (unfold queued; by rewrite Hj).
    destruct r as [[d|y]|[y|y]|]; try done; simpl.
    + case_decide; subst; [rewrite Hq|]; destruct d; by rewrite ?Hr, ?app_nil_r.
    + destruct Hr as [-> Hr]. rewrite app_nil_r. case_decide; subst; [|done]. by rewrite Hr, Hq.
    + destruct Hr as [-> Hr]. rewrite app_nil_r. case_decide; subst; [|done]. by rewrite Hr, Hq.
  - unfold inputs_pop. destruct (queues !! j) as [q|] eqn:Hj; simpl.
    2: { split; [done|]. intros i. by rewrite app_nil_r. }
    assert (Hq : queued j queues = items q) by (unfold queued; by rewrite Hj).
    pose proof (Hwf j q Hj) as [? Hl]. split.
    + apply map_Forall_insert_2; [|done]. split; simpl; [done|].
      destruct (items q); simpl in *; lia.
    + intros i. rewrite queued_insert, app_nil_r. split; [|done].
      case_decide; subst; [rewrite Hq|]; destruct (items q); done.
Qed.

Lemma input_run_spec calls queues :
  inputs_wf queues →
  let '(queues', trace) := input_run calls queues in
  inputs_wf queues' ∧ ∀ i,
  queued i queues ++ (trace ≫= entered i) = (trace ≫= departed i) ++ queued i queues' ∧
  trace ≫= offered i ≡ₚ (trace ≫= entered i) ++ (trace ≫= refused i).
Proof.
  revert queues. induction calls as [|call calls IH]; intros queues Hwf; cbn [input_run].
  { split; [done|]. intros i. simpl. by rewrite app_nil_r. }
  destruct (input_step_spec call queues Hwf) as [Hwf1 Hstep].
  destruct (input_step call queues) as [queues1 r]. cbn [fst snd] in Hwf1, Hstep.
  specialize (IH queues1 Hwf1). destruct (input_run calls queues1) as [queues' trace].
  destruct IH as [? IH]. split; [done|]. intros i.
  destruct (Hstep i) as [Hi Ho]. destruct (IH i) as [IHi IHo]. rewrite !bind_cons. split.
  - by rewrite (assoc_L (++)), Hi, <-!(assoc_L (++)), IHi.
  - rewrite Ho, IHo. solve_Permutation.
Qed.
End histories.
Arguments input_call : clear implicits.
Arguments input_answer : clear implicits.

(** ** Theorem *)

(** Whatever calls are made on the queues of all inputs, each input's frames
    leave its queue in the order they entered and none is lost or invented
    silently: the frames that entered are those that left followed by those
    still queued, the frames offered are those that entered and those handed
    back to the producer, and no queue ever exceeds its capacity. *)
Theorem input_queues_fifo {I : Type} `{Countable I} {T} (calls : list (input_call I T)) :
  let '(queues, trace) := input_run calls ∅ in
  ∀ i,
  trace ≫= entered i = (trace ≫= departed i) ++ queued i queues ∧
  trace ≫= offered i ≡ₚ (trace ≫= entered i) ++ (trace ≫= refused i) ∧
  ∀ q, queues !! i = Some q → (length (items q) ≤ capacity q)%nat.
Proof.
  pose proof (input_run_spec calls (∅ : gmap I (BoundedQueue T)) (map_Forall_empty _)) as Hrun.
  destruct (input_run calls ∅) as [queues trace]. destruct Hrun as [Hwf Hrun].
  intros i. destruct (Hrun i) as [Hi Ho]. split_and!; [|done|].
  - unfold queued in Hi at 1. by rewrite lookup_empty in Hi.
  - intros q Hq. by apply (Hwf i).
Qed.
