(* ===== verification/Automation.v ===== *)
(** Automation without a clock, [crates/features/fm-automation/src]: conditions
    ([condition.rs]), intents and their buffer ([intent.rs]), keyboard shortcuts
    ([shortcut.rs]) and macros ([macros.rs]).

    [IntentBuffer], [ShortcutRegistry] and [MacroRun] map to the structs of the same
    names; what a command is, is an argument.  The laws: shortcuts never become ambiguous
    ([shortcuts_unambiguous]), the intent buffer loses nothing it does not report
    ([push_accounts]), and a macro dispatches its plan a bounded number of times, each
    time under its own key ([macro_bounded]). *)
From S2P Require Import Prelude BTree Command.
From stdpp Require Import pretty.
#[local] Open Scope Z_scope.

(** ** Conditions *)

Module Value.
Inductive t := Bool (b : bool) | Number (n : Z) | Text (s : string).
End Value.
#[global] Instance Value_eq_dec : EqDecision Value.t.
Proof. solve_decision. Defined.

Definition ConditionContext := btmap string Value.t.

Module Predicate.
Inductive t :=
  | Exists
  | Missing
  | Equal (v : Value.t)
  | NotEqual (v : Value.t)
  | GreaterThan (n : Z)
  | GreaterOrEqual (n : Z)
  | LessThan (n : Z)
  | LessOrEqual (n : Z).
End Predicate.
#[global] Instance Predicate_eq_dec : EqDecision Predicate.t.
Proof. solve_decision. Defined.

Record Condition := mk_condition { condition_field : string; predicate : Predicate.t }.
#[global] Instance Condition_eq_dec : EqDecision Condition.
Proof. solve_decision. Defined.

Definition number (value : option Value.t) : option Z :=
  match value with
  | Some (Value.Number value) => Some value
  | _ => None
  end.
Definition is_some_and {A} (f : A → bool) (o : option A) : bool :=
  match o with
  | Some a => f a
  | None => false
  end.
Definition is_none_or {A} (f : A → bool) (o : option A) : bool :=
  match o with
  | Some a => f a
  | None => true
  end.

Definition evaluate (context : ConditionContext) (self : Condition) : bool :=
  let value := bt_get (condition_field self) context in
  match predicate self with
  | Predicate.Exists => bool_decide (is_Some value)
  | Predicate.Missing => bool_decide (value = None)
  | Predicate.Equal expected => bool_decide (value = Some expected)
  | Predicate.NotEqual expected => is_some_and (λ v, bool_decide (v ≠ expected)) value
  | Predicate.GreaterThan expected => is_some_and (λ v, bool_decide (expected < v)) (number value)
  | Predicate.GreaterOrEqual expected => is_some_and (λ v, bool_decide (expected ≤ v)) (number value)
  | Predicate.LessThan expected => is_some_and (λ v, bool_decide (v < expected)) (number value)
  | Predicate.LessOrEqual expected => is_some_and (λ v, bool_decide (v ≤ expected)) (number value)
  end.
Definition conditions_match (conditions : list Condition) (context : ConditionContext) : bool :=
  forallb (evaluate context) conditions.

(** ** Intents *)

Inductive CommandIntent (C : Type) :=
  | Discrete (command : C)
  | Continuous (stream : string) (command : C)
  | CommitContinuous (stream : string) (command : C).
Arguments Discrete {C}.
Arguments Continuous {C}.
Arguments CommitContinuous {C}.

Definition intent_map {C D} (rewrite : C → D) (self : CommandIntent C) : CommandIntent D :=
  match self with
  | Discrete command => Discrete (rewrite command)
  | Continuous stream command => Continuous stream (rewrite command)
  | CommitContinuous stream command => CommitContinuous stream (rewrite command)
  end.
Definition into_command {C} (self : CommandIntent C) : C :=
  match self with
  | Discrete command | Continuous _ command | CommitContinuous _ command => command
  end.

Record IntentBuffer (C S : Type) := mk_buffer {
  discrete : list (CommandIntent C);
  continuous : btmap (S * string) C
}.
Arguments mk_buffer {C S}.
Arguments discrete {C S}.
Arguments continuous {C S}.

Section intent_buffer.
Context {C S : Type} `{EqDecision S} `{OrdKey S}.
Implicit Types self : IntentBuffer C S.

Definition buffer_default : IntentBuffer C S := mk_buffer [] [].

(** The buffer after, and the command that was superseded. *)
Definition push (scope : S) (intent : CommandIntent C) self : IntentBuffer C S * option C :=
  match intent with
  | Discrete _ => (mk_buffer (discrete self ++ [intent]) (continuous self), None)
  | Continuous stream command =>
      (mk_buffer (discrete self) (bt_insert (scope, stream) command (continuous self)),
       bt_get (scope, stream) (continuous self))
  | CommitContinuous stream command =>
      (mk_buffer (discrete self ++ [CommitContinuous stream command])
         (bt_remove (scope, stream) (continuous self)),
       bt_get (scope, stream) (continuous self))
  end.
Definition pop_discrete self : IntentBuffer C S * option (CommandIntent C) :=
  match discrete self with
  | [] => (self, None)
  | intent :: rest => (mk_buffer rest (continuous self), Some intent)
  end.
Definition drain_discrete self : IntentBuffer C S * list (CommandIntent C) :=
  (mk_buffer [] (continuous self), discrete self).
Definition drain_continuous self : IntentBuffer C S * list (CommandIntent C) :=
  (mk_buffer (discrete self) [],
   (λ e : S * string * C, Continuous e.1.2 e.2) <$> continuous self).
End intent_buffer.

(** ** Shortcuts *)

Module ShortcutScope.
Inductive t := Global | Local (scope : string).
End ShortcutScope.
#[global] Instance ShortcutScope_eq_dec : EqDecision ShortcutScope.t.
Proof. solve_decision. Defined.
Definition overlaps (self other : ShortcutScope.t) : bool :=
  match self, other with
  | ShortcutScope.Global, _ | _, ShortcutScope.Global => true
  | ShortcutScope.Local l, ShortcutScope.Local r => bool_decide (l = r)
  end.

(** [Modifiers] wraps a [u8]. *)
Module Modifiers.
Definition CONTROL : Z := 1.
Definition ALT : Z := 2.
Definition SHIFT : Z := 4.
Definition META : Z := 8.
Definition contains (modifier self : Z) : bool := bool_decide (Z.land self modifier = modifier).
Definition bitor (self right : Z) : Z := Z.lor self right.
End Modifiers.

Record KeyStroke := mk_stroke { key : string; modifiers : Z }.
#[global] Instance KeyStroke_eq_dec : EqDecision KeyStroke.
Proof. solve_decision. Defined.

Definition MAX_CHORD_STROKES : nat := 4.
Inductive ChordError := ChordEmpty | TooLong (maximum : nat).
Definition Chord := list KeyStroke.
Definition chord_new (strokes : list KeyStroke) : result ChordError Chord :=
  if decide (strokes = []) then Err ChordEmpty else
  if decide (MAX_CHORD_STROKES < length strokes)%nat then Err (TooLong MAX_CHORD_STROKES)
  else Ok strokes.

Module ConflictKind.
Inductive t := Exact | Prefix.
End ConflictKind.
#[global] Instance ConflictKind_eq_dec : EqDecision ConflictKind.t.
Proof. solve_decision. Defined.
Definition conflict (self other : Chord) : option ConflictKind.t :=
  if decide (self = other) then Some ConflictKind.Exact else
  if decide (other `prefix_of` self ∨ self `prefix_of` other) then Some ConflictKind.Prefix
  else None.

Record Shortcut (C : Type) := mk_shortcut {
  shortcut_id : string;
  scope : ShortcutScope.t;
  chord : Chord;
  shortcut_intent : CommandIntent C
}.
Arguments mk_shortcut {C}.
Arguments shortcut_id {C}.
Arguments scope {C}.
Arguments chord {C}.
Arguments shortcut_intent {C}.
Record ShortcutConflict := mk_conflict {
  existing_id : string;
  incoming_id : string;
  conflict_kind : ConflictKind.t
}.
Inductive ShortcutError :=
  | ShortcutDuplicateId (id : string)
  | Conflict (conflicts : list ShortcutConflict).

Section registry.
Context {C : Type}.
Definition ShortcutRegistry := list (Shortcut C).
Implicit Types self : ShortcutRegistry.

Definition conflicts (incoming : Shortcut C) self : list ShortcutConflict :=
  omap (λ existing, kind ← conflict (chord existing) (chord incoming);
          Some (mk_conflict (shortcut_id existing) (shortcut_id incoming) kind))
    (filter (λ existing, overlaps (scope existing) (scope incoming) = true) self).
Definition insert_shortcut (shortcut : Shortcut C) :
    stm ShortcutRegistry ShortcutError unit :=
  self ← st_get;
  _ ← st_require (Forall (λ entry, shortcut_id entry ≠ shortcut_id shortcut) self)
        (ShortcutDuplicateId (shortcut_id shortcut));
  _ ← st_require (conflicts shortcut self = []) (Conflict (conflicts shortcut self));
  st_put (self ++ [shortcut]).
Definition remove_shortcut (id : string) self : ShortcutRegistry * option (Shortcut C) :=
  match list_find (λ entry, shortcut_id entry = id) self with
  | Some (index, entry) => (delete index self, Some entry)
  | None => (self, None)
  end.
Definition find_in (s : ShortcutScope.t) (c : Chord) self : option (Shortcut C) :=
  snd <$> list_find (λ entry, chord entry = c ∧ scope entry = s) self.
Definition resolve (s : option string) (c : Chord) self : option (Shortcut C) :=
  match s ≫= λ s, find_in (ShortcutScope.Local s) c self with
  | Some entry => Some entry
  | None => find_in ShortcutScope.Global c self
  end.
End registry.
Arguments ShortcutRegistry : clear implicits.

(** ** Macros *)

Record RetryPolicy := mk_retry { max_attempts : Z; delay_ms : Z }.
Definition once : RetryPolicy := mk_retry 1 0.
Inductive CancelPolicy := Immediate | FinishCurrentAttempt.
#[global] Instance CancelPolicy_eq_dec : EqDecision CancelPolicy.
Proof. solve_decision. Defined.

Record MacroDefinition (C : Type) := mk_definition {
  macro_id : string;
  intents : Transaction (CommandIntent C);
  macro_conditions : list Condition;
  retry_policy : RetryPolicy;
  cancel_policy : CancelPolicy
}.
Arguments mk_definition {C}.
Arguments macro_id {C}.
Arguments intents {C}.
Arguments macro_conditions {C}.
Arguments retry_policy {C}.
Arguments cancel_policy {C}.

Inductive MacroError :=
  | InvalidTransaction (e : TransactionError)
  | ZeroAttempts
  | ConditionFailed
  | NotReady (ready_at_ms : Z)
  | NotRunning
  | MacroTimestampOverflow.
Module AttemptOutcome.
Inductive t := Succeeded | Failed (retryable : bool).
End AttemptOutcome.
Module MacroStatus.
Inductive t := Running | WaitingRetry (ready_at_ms : Z) | Succeeded | Failed | Cancelled.
End MacroStatus.
#[global] Instance MacroStatus_eq_dec : EqDecision MacroStatus.t.
Proof. solve_decision. Defined.
Module MacroDecision.
Inductive t := Succeeded | RetryAt (ready_at_ms : Z) | Failed | Cancelled | CancellationPending.
End MacroDecision.

Record MacroDispatch (C : Type) := mk_dispatch {
  dispatch_macro_id : string;
  dispatch_run_id : string;
  dispatch_attempt : Z;
  envelope : CommandEnvelope (Transaction (CommandIntent C))
}.
Arguments mk_dispatch {C}.
Arguments dispatch_attempt {C}.
Arguments envelope {C}.
Record MacroRun (C : Type) := mk_run {
  definition : MacroDefinition C;
  run_id : string;
  attempt : Z;
  status : MacroStatus.t;
  cancel_requested : bool
}.
Arguments mk_run {C}.
Arguments definition {C}.
Arguments run_id {C}.
Arguments attempt {C}.
Arguments status {C}.
Arguments cancel_requested {C}.

Section macros.
Context {C : Type}.
Implicit Types self : MacroRun C.

Definition macro_new (id : string) (l : list (CommandIntent C)) (conditions : list Condition)
    (retry : RetryPolicy) (cancel_policy : CancelPolicy) : result MacroError (MacroDefinition C) :=
  if decide (max_attempts retry = 0) then Err ZeroAttempts else
  t ← result_map_err InvalidTransaction (transaction_new l);
  Ok (mk_definition id t conditions retry cancel_policy).

Definition set_status (x : MacroStatus.t) self : MacroRun C :=
  mk_run (definition self) (run_id self) (attempt self) x (cancel_requested self).

Definition dispatch self : MacroDispatch C :=
  let command_id := macro_id (definition self) +:+ ":" +:+ run_id self +:+ ":" +:+
    pretty (attempt self) in
  mk_dispatch (macro_id (definition self)) (run_id self) (attempt self)
    (envelope_new command_id command_id (intents (definition self))).

Definition macro_start (definition : MacroDefinition C) (run_id : string)
    (context : ConditionContext) : result MacroError (MacroRun C * MacroDispatch C) :=
  if conditions_match (macro_conditions definition) context then
    let run := mk_run definition run_id 1 MacroStatus.Running false in
    Ok (run, dispatch run)
  else Err ConditionFailed.

Definition macro_cancel self : MacroRun C * MacroDecision.t :=
  match status self with
  | MacroStatus.Running =>
      if decide (cancel_policy (definition self) = FinishCurrentAttempt) then
        (mk_run (definition self) (run_id self) (attempt self) (status self) true,
         MacroDecision.CancellationPending)
      else (set_status MacroStatus.Cancelled self, MacroDecision.Cancelled)
  | MacroStatus.Succeeded | MacroStatus.Failed | MacroStatus.Cancelled =>
      (self, MacroDecision.Cancelled)
  | MacroStatus.WaitingRetry _ =>
      (set_status MacroStatus.Cancelled self, MacroDecision.Cancelled)
  end.

Definition complete (outcome : AttemptOutcome.t) (now_ms : Z) :
    stm (MacroRun C) MacroError MacroDecision.t :=
  self ← st_get;
  _ ← st_require (status self = MacroStatus.Running) NotRunning;
  if cancel_requested self then
    _ ← st_put (set_status MacroStatus.Cancelled self);
    mret MacroDecision.Cancelled
  else
    match outcome with
    | AttemptOutcome.Succeeded =>
        _ ← st_put (set_status MacroStatus.Succeeded self);
        mret MacroDecision.Succeeded
    | AttemptOutcome.Failed retryable =>
        if retryable && bool_decide (attempt self < max_attempts (retry_policy (definition self)))
        then
          ready_at_ms ← st_lift (ok_or MacroTimestampOverflow
            (checked U64 (now_ms + delay_ms (retry_policy (definition self)))));
          _ ← st_put (set_status (MacroStatus.WaitingRetry ready_at_ms) self);
          mret (MacroDecision.RetryAt ready_at_ms)
        else
          _ ← st_put (set_status MacroStatus.Failed self);
          mret MacroDecision.Failed
    end.

Definition retry (now_ms : Z) : stm (MacroRun C) MacroError (MacroDispatch C) :=
  self ← st_get;
  match status self with
  | MacroStatus.WaitingRetry ready_at_ms =>
      _ ← st_require (¬ now_ms < ready_at_ms) (NotReady ready_at_ms);
      attempt ← st_expect (checked U16 (attempt self + 1));
      _ ← st_put (mk_run (definition self) (run_id self) attempt MacroStatus.Running
                    (cancel_requested self));
      self ← st_get;
      mret (dispatch self)
  | _ => mthrow NotRunning
  end.
End macros.

(** ** Intents *)

Section intents.
Context {C S : Type} `{EqDecision S} `{OrdKeyLaws S}.
Implicit Types self : IntentBuffer C S.

(** What is buffered, as the plan that draining it gives. *)
Definition buffered self : list C :=
  (into_command <$> discrete self) ++ bt_values (continuous self).
Definition buffer_wf self : Prop := bt_sorted (continuous self).

Lemma drained_commands self :
  (into_command <$> (drain_discrete self).2) ++ (into_command <$> (drain_continuous self).2) =
  buffered self.
Proof.
  unfold buffered, drain_discrete, drain_continuous. simpl. f_equal. unfold bt_values.
  rewrite <-list_fmap_compose. done.
Qed.

Lemma bt_values_insert k v (m : btmap (S * string) C) :
  bt_sorted m → option_list (bt_get k m) ++ bt_values (bt_insert k v m) ≡ₚ v :: bt_values m.
Proof.
  unfold bt_values. induction m as [|[k0 v0] m IH]; intros Hs; simpl; [done|].
  apply bt_sorted_cons in Hs as [Hs Hk0]. case_decide as Heq; simpl.
  { subst. rewrite key_cmp_refl. apply Permutation_swap. }
  destruct (key_cmp k k0) eqn:Hk; simpl.
  - by apply key_cmp_eq in Hk.
  - destruct (bt_get k m) as [w|] eqn:Hg; [|done]. exfalso.
    apply bt_get_elem, Hk0 in Hg. apply (key_lt_irrefl k). by apply key_lt_trans with k0.
  - rewrite <-Permutation_middle, IH by done. apply Permutation_swap.
Qed.
Lemma bt_values_remove k (m : btmap (S * string) C) :
  bt_sorted m → option_list (bt_get k m) ++ bt_values (bt_remove k m) ≡ₚ bt_values m.
Proof.
  unfold bt_values, bt_remove. induction m as [|[k0 v0] m IH]; intros Hs; simpl; [done|].
  apply bt_sorted_cons in Hs as [Hs Hk0]. rewrite filter_cons. case_decide as Heq; simpl.
  - subst. rewrite decide_False by (simpl; tauto). rewrite filter_all; [done|].
    intros p Hp%Hk0 Heq. rewrite Heq in Hp. by apply key_lt_irrefl in Hp.
  - rewrite decide_True by (simpl; congruence). simpl. by rewrite <-Permutation_middle, IH.
Qed.

Lemma buffer_default_wf : buffer_wf buffer_default.
Proof. apply bt_sorted_nil. Qed.
(** Whatever is pushed stays in the buffer or supersedes what is reported. *)
Lemma push_accounts scope intent self :
  buffer_wf self →
  let '(self', superseded) := push scope intent self in
  buffer_wf self' ∧
  option_list superseded ++ buffered self' ≡ₚ into_command intent :: buffered self.
Proof.
  intros Hs. unfold buffered. destruct intent as [c|stream c|stream c]; simpl.
  - split; [done|]. rewrite fmap_app, <-(assoc_L (++)). symmetry. apply Permutation_middle.
  - split; [by apply bt_insert_sorted|]. rewrite (assoc_L (++)), (Permutation_app_comm (option_list _)).
    rewrite <-(assoc_L (++)), bt_values_insert by done. symmetry. apply Permutation_middle.
  - split; [by apply bt_remove_sorted|]. rewrite fmap_app. simpl.
    rewrite (Permutation_app_comm (option_list _)), <-!(assoc_L (++)).
    rewrite (Permutation_app_comm _ (option_list _)), bt_values_remove by done.
    symmetry. apply Permutation_middle.
Qed.
End intents.

(** ** Shortcuts *)

Section shortcuts.
Context {C : Type}.
Implicit Types (self : ShortcutRegistry C) (x y : Shortcut C).

(** A key press in scope [s] may mean [x]. *)
Definition applies (s : option string) x : Prop :=
  scope x = ShortcutScope.Global ∨ ∃ l, s = Some l ∧ scope x = ShortcutScope.Local l.
(** No two shortcuts that can be active together share an identifier, a chord or the
    beginning of one. *)
Definition apart x y : Prop :=
  shortcut_id x ≠ shortcut_id y ∧
  (overlaps (scope x) (scope y) = true → ¬ chord x `prefix_of` chord y ∧ ¬ chord y `prefix_of` chord x).
Definition registry_wf self : Prop := ForallOrdPairs apart self.

Lemma overlaps_comm s t : overlaps s t = overlaps t s.
Proof.
  destruct s, t; simpl; try done. apply bool_decide_ext. split; by intros ->.
Qed.
Lemma apart_sym x y : apart x y → apart y x.
Proof. intros [Hid Ho]. split; [congruence|]. rewrite overlaps_comm. tauto. Qed.
Lemma registry_apart self x y : registry_wf self → x ∈ self → y ∈ self → x = y ∨ apart x y.
Proof.
  intros Hwf Hx Hy. apply list_elem_of_In in Hx, Hy.
  destruct (ForallOrdPairs_In Hwf _ _ Hx Hy) as [|[?|?%apart_sym]]; auto.
Qed.
Lemma applies_overlap s x y : applies s x → applies s y → overlaps (scope x) (scope y) = true.
Proof.
  intros [Hx|(l&->&Hx)] [Hy|(l'&Hl&Hy)]; rewrite Hx, Hy; try done.
  injection Hl as <-. simpl. by apply bool_decide_eq_true.
Qed.
Lemma conflict_None c d : conflict c d = None ↔ ¬ c `prefix_of` d ∧ ¬ d `prefix_of` c.
Proof.
  unfold conflict. repeat case_decide; subst; split; try done; try tauto.
  intros [Hn _]. by destruct Hn.
Qed.

Lemma insert_shortcut_spec x self :
  registry_wf self →
  wp (insert_shortcut x) (λ r self',
    registry_wf self' ∧
    match r with
    | Ret _ => self' = self ++ [x]
    | Throw _ => self' = self
    | Panic => False
    end) self.
Proof.
  intros Hwf. unfold insert_shortcut. wp_run; try done. split; [|done].
  assert (Hall : Forall (λ y, apart y x) self).
  { apply Forall_forall. intros y Hy. split; [by rewrite Forall_forall in *; auto|]. intros Ho.
    apply conflict_None. destruct (conflict (chord y) (chord x)) as [k|] eqn:Hc; [|done].
    match goal with H : conflicts _ _ = [] |- _ => rename H into Hnil end.
    assert (Hin : mk_conflict (shortcut_id y) (shortcut_id x) k ∈ conflicts x self); [|by rewrite Hnil in Hin; apply elem_of_nil in Hin].
    apply list_elem_of_omap. exists y. split; [by apply list_elem_of_filter|]. by rewrite Hc. }
  clear -Hwf Hall. induction Hwf as [|y l Hy Hwf IH]; simpl.
  - constructor; constructor.
  - apply Forall_cons in Hall as [Hyx Hall]. constructor; [|by apply IH].
    apply Forall_app. split; [done|]. by constructor.
Qed.
Lemma registry_sublist self self' : registry_wf self → sublist self' self → registry_wf self'.
Proof.
  intros Hwf Hsub. revert Hwf. induction Hsub as [|x l k Hsub IH|x l k Hsub IH]; intros Hwf; [done|..];
    inversion Hwf as [|? ? Hx Hk]; subst; [|by apply IH].
  constructor; [|by apply IH]. rewrite Forall_forall in *. intros y Hy. apply Hx.
  by eapply elem_of_sublist.
Qed.
Lemma remove_shortcut_wf id self : registry_wf self → registry_wf (remove_shortcut id self).1.
Proof.
  intros Hwf. unfold remove_shortcut. destruct (list_find _ self) as [[i x]|]; [|done].
  apply (registry_sublist self); [done|]. apply sublist_delete.
Qed.

Lemma find_in_spec s c self x :
  registry_wf self → find_in s c self = Some x ↔ x ∈ self ∧ chord x = c ∧ scope x = s.
Proof.
  intros Hwf. unfold find_in. split.
  - intros ([i y]&Hf&[= ->])%fmap_Some. apply list_find_Some in Hf as (Hi&?&_).
    split; [by eapply list_elem_of_lookup_2|done].
  - intros (Hx&Hc&Hs). destruct (list_find_elem_of (λ y, chord y = c ∧ scope y = s) self x) as [[i y] Hf]; [done..|].
    rewrite Hf. simpl. apply list_find_Some in Hf as (Hi&[Hyc Hys]&_). apply list_elem_of_lookup_2 in Hi.
    destruct (registry_apart self y x) as [->|[_ Ha]]; [done..|].
    destruct Ha as [Ha _]; [by rewrite Hys, Hs; destruct s; simpl; rewrite ?bool_decide_eq_true|].
    destruct Ha. by rewrite Hyc, Hc.
Qed.
(** Two shortcuts that a key press can mean are the same if one's chord begins the other's. *)
Lemma registry_unambiguous self s x y :
  registry_wf self → x ∈ self → y ∈ self → applies s x → applies s y →
  chord x `prefix_of` chord y → x = y.
Proof.
  intros Hwf Hx Hy Hsx Hsy Hp. destruct (registry_apart self x y) as [|[_ Ha]]; [done..|].
  by destruct (Ha (applies_overlap s x y Hsx Hsy)).
Qed.
Lemma resolve_spec self s c x :
  registry_wf self → resolve s c self = Some x ↔ x ∈ self ∧ chord x = c ∧ applies s x.
Proof.
  intros Hwf. unfold resolve, applies.
  destruct (s ≫= λ s, find_in (ShortcutScope.Local s) c self) as [y|] eqn:Hl.
  - apply bind_Some in Hl as (l&->&(Hy&Hyc&Hys)%find_in_spec); [|done]. split.
    + intros [= <-]. naive_solver.
    + intros (Hx&Hc&Ha). f_equal. apply (registry_unambiguous self (Some l)); try done; [right; eauto|].
      by rewrite Hyc, Hc.
  - rewrite find_in_spec by done. split; [naive_solver|]. intros (Hx&Hc&[Hs|(l&->&Hs)]); [done|].
    exfalso. simpl in Hl. assert (find_in (ShortcutScope.Local l) c self = Some x); [|congruence].
    by apply find_in_spec.
Qed.

Inductive registry_op := InsertShortcut (x : Shortcut C) | RemoveShortcut (id : string).
Definition registry_step self (op : registry_op) : ShortcutRegistry C :=
  match op with
  | InsertShortcut x => (insert_shortcut x self).1
  | RemoveShortcut id => (remove_shortcut id self).1
  end.
Lemma registry_run_wf ops self : registry_wf self → registry_wf (foldl registry_step self ops).
Proof.
  revert self. induction ops as [|op ops IH]; intros self Hwf; [done|]. apply IH.
  destruct op as [x|id]; simpl; [|by apply remove_shortcut_wf].
  pose proof (insert_shortcut_spec x self Hwf) as Hs. unfold wp in Hs.
  destruct (insert_shortcut x self). apply Hs.
Qed.
End shortcuts.

(** ** Macros *)

Section macros.
Context {C : Type}.
Implicit Types self : MacroRun C.

Inductive macro_op :=
  | MacroCancel
  | MacroComplete (outcome : AttemptOutcome.t) (now_ms : Z)
  | MacroRetry (now_ms : Z).
(** One call and what it dispatched; [None] is a panic. *)
Definition macro_step (op : macro_op) self : option (MacroRun C * list (MacroDispatch C)) :=
  match op with
  | MacroCancel => Some ((macro_cancel self).1, [])
  | MacroComplete outcome now_ms =>
      match complete outcome now_ms self with
      | (_, Panic) => None
      | (self, _) => Some (self, [])
      end
  | MacroRetry now_ms =>
      match retry now_ms self with
      | (_, Panic) => None
      | (self, Ret d) => Some (self, [d])
      | (self, Throw _) => Some (self, [])
      end
  end.
Fixpoint run_macro (ops : list macro_op) self : option (MacroRun C * list (MacroDispatch C)) :=
  match ops with
  | [] => Some (self, [])
  | op :: ops =>
      '(self, dispatched) ← macro_step op self;
      '(self, later) ← run_macro ops self;
      Some (self, dispatched ++ later)
  end.

Record macro_wf (d : MacroDefinition C) (run : string) self : Prop := {
  mw_definition : definition self = d;
  mw_run : run_id self = run;
  mw_attempt : 1 ≤ attempt self ≤ max_attempts (retry_policy d);
  mw_waiting : ∀ t, status self = MacroStatus.WaitingRetry t →
    attempt self < max_attempts (retry_policy d)
}.
(** The run dispatches nothing more. *)
Definition closed self : Prop :=
  match status self with
  | MacroStatus.Running => cancel_requested self = true
  | MacroStatus.WaitingRetry _ => False
  | _ => True
  end.
(** The dispatch of attempt [n]. *)
Definition attempt_of (d : MacroDefinition C) (run : string) (n : Z) : MacroDispatch C :=
  dispatch (mk_run d run n MacroStatus.Running false).

Lemma dispatch_attempt_of d run self :
  macro_wf d run self → dispatch self = attempt_of d run (attempt self).
Proof. intros [<- <- _ _]. done. Qed.

Lemma macro_step_spec d run op self :
  in_ty U16 (max_attempts (retry_policy d)) → macro_wf d run self →
  ∃ self' ds, macro_step op self = Some (self', ds) ∧ macro_wf d run self' ∧
    (closed self → ds = [] ∧ closed self') ∧
    (op = MacroCancel → closed self') ∧
    (ds = [] ∧ attempt self' = attempt self ∨
     ds = [attempt_of d run (attempt self')] ∧ attempt self' = attempt self + 1).
Proof.
  intros Hmax [Hd Hr Ha Hw]. unfold closed.
  destruct op as [|outcome now_ms|now_ms]; simpl.
  - eexists _, _. split; [done|]. unfold macro_cancel. destruct (status self) eqn:Hs; try case_decide.
    all: split; [split; simpl; rewrite ?Hs; try done; eauto|].
    all: split_and!; simpl; rewrite ?Hs; try done; by left.
  - unfold complete, mbind, stm_bind, st_get, st_require, st_put, st_lift.
    case_decide as Hrun; simpl.
    2: { eexists _, _. split; [done|]. split_and!; [done|tauto|done|by left]. }
    rewrite Hrun in *. destruct (cancel_requested self) eqn:Hc.
    { eexists _, _. split; [done|]. split_and!; [split|..]; simpl; try done; by left. }
    destruct outcome as [|retryable].
    { eexists _, _. split; [done|]. split_and!; [split|..]; simpl; try done; by left. }
    destruct (retryable && _) eqn:Hb.
    2: { eexists _, _. split; [done|]. split_and!; [split|..]; simpl; try done; by left. }
    apply andb_true_iff in Hb as [_ Hlt%bool_decide_eq_true]. rewrite Hd in Hlt.
    destruct (checked _ _); simpl; eexists _, _; (split; [done|]);
      split_and!; [split|..]; simpl; rewrite ?Hrun, ?Hc; try done; by left.
  - unfold retry, mbind, stm_bind, st_get, st_require, st_put, st_expect.
    destruct (status self) as [|t| | |] eqn:Hs;
      try (eexists _, _; split; [done|]; split_and!; [split|..]; rewrite ?Hs; try done; by left).
    case_decide; simpl.
    2: { eexists _, _. split; [done|]. split_and!; [split|..]; rewrite ?Hs; try done; by left. }
    pose proof (Hw t eq_refl). rewrite (checked_in U16) by int_lia. simpl.
    eexists _, _. split; [done|]. split_and!; [split|..]; simpl; try done; [lia|].
    right. split; [|done]. unfold attempt_of, dispatch. simpl. by rewrite Hd, Hr.
Qed.

Lemma run_macro_spec d run ops self :
  in_ty U16 (max_attempts (retry_policy d)) → macro_wf d run self →
  ∃ self' ds, run_macro ops self = Some (self', ds) ∧ macro_wf d run self' ∧
    (closed self → ds = []) ∧
    attempt self ≤ attempt self' ∧
    ds = attempt_of d run <$> seqZ (attempt self + 1) (attempt self' - attempt self).
Proof.
  intros Hmax. revert self. induction ops as [|op ops IH]; intros self Hwf.
  { exists self, []. split_and!; [done..|]. by rewrite Z.sub_diag. }
  destruct (macro_step_spec d run op self Hmax Hwf) as (self1&ds1&Hstep&Hwf1&Hcl1&_&Hds1).
  destruct (IH self1 Hwf1) as (self2&ds2&Hrun&Hwf2&Hcl2&Hle&Hds2).
  exists self2, (ds1 ++ ds2). split; [by cbn [run_macro]; rewrite Hstep; simpl; rewrite Hrun|].
  split; [done|]. split.
  { intros Hc. destruct (Hcl1 Hc) as [-> Hc1]. by rewrite Hcl2. }
  destruct Hds1 as [[-> Ha]|[-> Ha]]; (split; [lia|]); rewrite Hds2.
  - by rewrite Ha.
  - rewrite (seqZ_cons (attempt self + 1)) by lia. rewrite fmap_cons. simpl. rewrite Ha.
    do 3 f_equal; lia.
Qed.
Lemma run_macro_app ops1 ops2 self :
  run_macro (ops1 ++ ops2) self =
    ('(self1, ds1) ← run_macro ops1 self; '(self2, ds2) ← run_macro ops2 self1;
     Some (self2, ds1 ++ ds2)).
Proof.
  revert self. induction ops1 as [|op ops1 IH]; intros self; simpl.
  { by destruct (run_macro ops2 self) as [[]|]. }
  destruct (macro_step op self) as [[self1 ds1]|]; simpl; [|done]. rewrite IH.
  destruct (run_macro ops1 self1) as [[self2 ds2]|]; simpl; [|done].
  destruct (run_macro ops2 self2) as [[self3 ds3]|]; simpl; [|done]. by rewrite (assoc_L (++)).
Qed.
End macros.

(** ** Theorems *)

(** Shortcuts never become ambiguous: after any insertions and removals, a chord
    pressed in a scope resolves to a shortcut exactly when that shortcut is bound to
    the chord and is global or of the scope, there is at most one such, and no
    shortcut that applies there is reached while another is still being typed. *)
Theorem shortcuts_unambiguous {C} (ops : list (registry_op (C := C))) s c x :
  let self := foldl registry_step [] ops in
  (resolve s c self = Some x ↔ x ∈ self ∧ chord x = c ∧ applies s x) ∧
  (∀ y, x ∈ self → y ∈ self → applies s x → applies s y →
   chord x `prefix_of` chord y → x = y).
Proof.
  intros self. assert (Hwf : registry_wf self) by (apply registry_run_wf; constructor).
  split; [by apply resolve_spec|]. intros y. by apply registry_unambiguous.
Qed.

(** A macro dispatches its plan a bounded number of times and each time under a
    key of its own: whatever is reported and asked of a run, nothing panics, the
    dispatches are those of the attempts 1, 2, .. in order, at most as many as its
    policy admits, with distinct idempotency keys and always the whole plan; and
    nothing is dispatched after a cancellation, under either policy. *)
Theorem macro_bounded {C} (d : MacroDefinition C) run context self first ops1 ops2 :
  in_ty U16 (max_attempts (retry_policy d)) → max_attempts (retry_policy d) ≠ 0 →
  macro_start d run context = Ok (self, first) →
  ∃ n self1 ds, run_macro ops1 self = Some (self1, ds) ∧
    first :: ds = attempt_of d run <$> seqZ 1 n ∧ n ≤ max_attempts (retry_policy d) ∧
    NoDup ((λ x, idempotency_key (envelope x)) <$> first :: ds) ∧
    Forall (λ x, Command.command (envelope x) = intents d) (first :: ds) ∧
    ∃ self2, run_macro (ops1 ++ MacroCancel :: ops2) self = Some (self2, ds).
Proof.
  intros Hmax Hne Hstart. unfold macro_start in Hstart.
  destruct (conditions_match _ _); [|done]. injection Hstart as <- <-.
  set (self := mk_run d run 1 MacroStatus.Running false).
  assert (Hwf : macro_wf d run self) by (split; simpl; [done|done|int_lia|done]).
  destruct (run_macro_spec d run ops1 self Hmax Hwf) as (self1&ds&Hrun&Hwf1&_&Hle&Hds).
  assert (Hall : dispatch self :: ds = attempt_of d run <$> seqZ 1 (attempt self1)).
  { rewrite Hds, (seqZ_cons 1) by (destruct Hwf1; lia). by rewrite fmap_cons. }
  exists (attempt self1), self1, ds. split; [done|]. split; [done|].
  split; [apply Hwf1|]. rewrite Hall. split_and!.
  - rewrite <-list_fmap_compose. apply NoDup_fmap; [|apply NoDup_seqZ].
    intros n m Hnm. unfold attempt_of, dispatch, envelope_new in Hnm. simpl in Hnm.
    repeat apply (inj (String.app _)) in Hnm. by apply (inj pretty) in Hnm.
  - apply Forall_fmap, Forall_forall. done.
  - destruct (macro_step_spec d run MacroCancel self1 Hmax Hwf1) as (self2&ds2&Hstep&Hwf2&_&Hcl&Hds2).
    destruct (run_macro_spec d run ops2 self2 Hmax Hwf2) as (self3&ds3&Hrun3&_&Hnone&_).
    simpl in Hstep. injection Hstep as <- <-.
    exists self3. rewrite run_macro_app, Hrun. simpl. rewrite Hrun3. simpl.
    by rewrite (Hnone (Hcl eq_refl)), app_nil_r.
Qed.
Definition demo_macro : MacroDefinition nat :=
  mk_definition "open" (mk_transaction [Discrete 1%nat; Discrete 2%nat]) [] (mk_retry 3 10) Immediate.
Definition demo_macro_run : MacroRun nat := mk_run demo_macro "r1" 1 MacroStatus.Running false.
Definition demo_macro_ops : list macro_op :=
  [MacroComplete (AttemptOutcome.Failed true) 0; MacroRetry 5; MacroRetry 10].
Lemma macro_bounded_witness :
  ∃ ds self, run_macro demo_macro_ops demo_macro_run = Some (self, ds) ∧
  (λ x, idempotency_key (envelope x)) <$> ds = ["open:r1:2"] ∧
  ∃ self2, run_macro (demo_macro_ops ++ MacroCancel :: [MacroRetry 20]) demo_macro_run = Some (self2, ds).
Proof.
  destruct (macro_bounded demo_macro "r1" [] demo_macro_run (dispatch demo_macro_run)
    demo_macro_ops [MacroRetry 20]) as (n&self1&ds&Hrun&_&_&_&_&Hlast).
  - by vm_compute.
  - done.
  - vm_compute. reflexivity.
  - exists ds, self1. split; [exact Hrun|]. split; [|exact Hlast].
    vm_compute in Hrun. injection Hrun as <- <-. vm_compute. reflexivity.
Defined.
