(* ===== verification/Timers.v ===== *)
(** Automation in time, [crates/features/fm-automation/src]: schedules
    ([schedule.rs]), triggers ([trigger.rs]) and programmed GO lists ([go.rs]).

    [ScheduleSet], [TriggerEngine] and [GoEngine] map to the structs of the same
    names; each owns an [ActionQueue] of the scheduler, whose frames are milliseconds
    here.  Time is an argument of every operation. *)
From S2P Require Import Prelude BTree Command Actions Automation.
#[local] Open Scope Z_scope.

(** Scheduling on the queue of a larger object. *)
Definition queue_schedule {S A E} (get : S → ActionQueue A) (put : ActionQueue A → S → S)
    (wrap : ActionError → E) (frame : FrameNumber) (a : A) : stm S E ActionId :=
  st_map_err wrap (st_zoom get put (schedule frame a)).

(** ** Schedules *)

Inductive ScheduleKind := Once | Every (interval_ms : Z).
#[global] Instance ScheduleKind_eq_dec : EqDecision ScheduleKind.
Proof. solve_decision. Defined.

Record ScheduledIntent (C : Type) := mk_scheduled {
  scheduled_id : string;
  scheduled_kind : ScheduleKind;
  scheduled_intent : CommandIntent C
}.
Arguments mk_scheduled {C}.
Arguments scheduled_id {C}.
Arguments scheduled_kind {C}.
Arguments scheduled_intent {C}.
Record ScheduleFire (C : Type) := mk_schedule_fire {
  fire_id : string;
  occurrence_ms : Z;
  observed_at_ms : Z;
  missed_occurrences : Z;
  fire_intent : CommandIntent C
}.
Arguments mk_schedule_fire {C}.
Arguments fire_id {C}.
Arguments occurrence_ms {C}.
Arguments observed_at_ms {C}.
Arguments missed_occurrences {C}.
Arguments fire_intent {C}.
Inductive ScheduleError :=
  | ScheduleDuplicateId (id : string)
  | ScheduleUnknownId (id : string)
  | ZeroInterval
  | ScheduleTimestampOverflow
  | ScheduleScheduler (e : ActionError).

Record ScheduleSet (C : Type) := mk_schedules {
  schedule_queue : ActionQueue (ScheduledIntent C);
  actions : gmap string ActionId
}.
Arguments mk_schedules {C}.
Arguments schedule_queue {C}.
Arguments actions {C}.

Section schedules.
Context {C : Type}.
Implicit Types self : ScheduleSet C.

Definition schedules_default : ScheduleSet C := mk_schedules queue_default ∅.
Definition set_schedule_queue (q : ActionQueue (ScheduledIntent C)) self : ScheduleSet C :=
  mk_schedules q (actions self).
Definition set_actions (m : gmap string ActionId) self : ScheduleSet C :=
  mk_schedules (schedule_queue self) m.

(** Put an intent on the queue and remember the action it became. *)
Definition enqueue (at_ms : Z) (x : ScheduledIntent C) : stm (ScheduleSet C) ScheduleError unit :=
  action_id ← queue_schedule schedule_queue set_schedule_queue ScheduleScheduler at_ms x;
  st_modify (λ self, set_actions (<[scheduled_id x := action_id]> (actions self)) self).

Definition schedule_at (id : string) (at_ms : Z) (kind : ScheduleKind) (intent : CommandIntent C) :
    stm (ScheduleSet C) ScheduleError unit :=
  self ← st_get;
  _ ← st_require (actions self !! id = None) (ScheduleDuplicateId id);
  _ ← st_require (kind ≠ Every 0) ZeroInterval;
  enqueue at_ms (mk_scheduled id kind intent).

Definition start_timer (id : string) (now_ms delay_ms : Z) (intent : CommandIntent C) :
    stm (ScheduleSet C) ScheduleError unit :=
  at_ms ← st_lift (ok_or ScheduleTimestampOverflow (checked U64 (now_ms + delay_ms)));
  schedule_at id at_ms Once intent.

Definition cancel_schedule (id : string) self : ScheduleSet C * option (CommandIntent C) :=
  match actions self !! id with
  | None => (self, None)
  | Some action_id =>
      let '(q, entry) := cancel action_id (schedule_queue self) in
      (mk_schedules q (delete id (actions self)), scheduled_intent ∘ action <$> entry)
  end.

(** What an [Every] is put back on the queue for: the next boundary, and how many
    were missed. *)
Definition next_occurrence (interval_ms occurrence_ms now_ms : Z) :
    stm (ScheduleSet C) ScheduleError (Z * Z) :=
  elapsed ← st_expect (checked U64 (now_ms - occurrence_ms));
  intervals ← st_lift (ok_or ScheduleTimestampOverflow
    (if decide (interval_ms = 0) then None else checked U64 (elapsed / interval_ms + 1)));
  missed ← st_expect (checked U64 (intervals - 1));
  advance ← st_lift (ok_or ScheduleTimestampOverflow (checked U64 (intervals * interval_ms)));
  next ← st_lift (ok_or ScheduleTimestampOverflow (checked U64 (occurrence_ms + advance)));
  mret (next, missed).

Definition poll_one (now_ms : Z) (scheduled : ScheduledAction (ScheduledIntent C)) :
    stm (ScheduleSet C) ScheduleError (ScheduleFire C) :=
  let x := action scheduled in
  _ ← st_modify (λ self, set_actions (delete (scheduled_id x) (actions self)) self);
  let occurrence_ms := target_frame scheduled in
  missed ← match scheduled_kind x with
           | Every interval_ms =>
               '(next, missed) ← next_occurrence interval_ms occurrence_ms now_ms;
               _ ← enqueue next x;
               mret missed
           | Once => mret 0
           end;
  mret (mk_schedule_fire (scheduled_id x) occurrence_ms now_ms missed (scheduled_intent x)).

Fixpoint poll_all (now_ms : Z) (due : list (ScheduledAction (ScheduledIntent C))) :
    stm (ScheduleSet C) ScheduleError (list (ScheduleFire C)) :=
  match due with
  | [] => mret []
  | scheduled :: due =>
      fire ← poll_one now_ms scheduled;
      fired ← poll_all now_ms due;
      mret (fire :: fired)
  end.
Definition poll_schedules (now_ms : Z) : stm (ScheduleSet C) ScheduleError (list (ScheduleFire C)) :=
  self ← st_get;
  let '(q, due) := drain_due now_ms (schedule_queue self) in
  _ ← st_put (set_schedule_queue q self);
  poll_all now_ms due.

Definition contains_schedule (id : string) self : bool := bool_decide (is_Some (actions self !! id)).
Definition schedules_len self : nat := size (actions self).
End schedules.

(** ** Triggers *)

Record AutomationEvent := mk_automation_event {
  event_kind : string;
  event_source : option string;
  event_fields : ConditionContext;
  timestamp_ms : Z
}.
Record EventFilter := mk_filter {
  filter_kind : string;
  filter_source : option string;
  filter_conditions : list Condition
}.
Definition filter_matches (event : AutomationEvent) (self : EventFilter) : bool :=
  bool_decide (filter_kind self = event_kind event) &&
  is_none_or (λ source, bool_decide (event_source event = Some source)) (filter_source self) &&
  conditions_match (filter_conditions self) (event_fields event).

Record Trigger (C : Type) := mk_trigger {
  trigger_id : string;
  trigger_filter : EventFilter;
  trigger_delay_ms : Z;
  trigger_conditions : list Condition;
  trigger_intents : list (CommandIntent C)
}.
Arguments mk_trigger {C}.
Arguments trigger_id {C}.
Arguments trigger_filter {C}.
Arguments trigger_delay_ms {C}.
Arguments trigger_conditions {C}.
Arguments trigger_intents {C}.
Record PendingTrigger (C : Type) := mk_pending_trigger {
  pending_trigger_id : string;
  pending_event_ms : Z;
  pending_intents : list (CommandIntent C);
  pending_conditions : list Condition
}.
Arguments mk_pending_trigger {C}.
Arguments pending_trigger_id {C}.
Arguments pending_event_ms {C}.
Arguments pending_intents {C}.
Arguments pending_conditions {C}.
Record TriggerFire (C : Type) := mk_trigger_fire {
  fired_trigger : string;
  event_timestamp_ms : Z;
  scheduled_for_ms : Z;
  fired_intents : list (CommandIntent C)
}.
Arguments mk_trigger_fire {C}.
Arguments fired_trigger {C}.
Arguments event_timestamp_ms {C}.
Arguments scheduled_for_ms {C}.
Arguments fired_intents {C}.
Inductive TriggerError :=
  | TriggerDuplicateId (id : string)
  | EmptyActions (id : string)
  | TriggerTimestampOverflow (trigger_id : string)
  | TriggerScheduler (e : ActionError).

Record TriggerEngine (C : Type) := mk_triggers {
  triggers : list (Trigger C);
  trigger_queue : ActionQueue (PendingTrigger C);
  pending_ids : gmap ActionId string
}.
Arguments mk_triggers {C}.
Arguments triggers {C}.
Arguments trigger_queue {C}.
Arguments pending_ids {C}.

Section triggers.
Context {C : Type}.
Implicit Types self : TriggerEngine C.

Definition triggers_default : TriggerEngine C := mk_triggers [] queue_default ∅.
Definition set_trigger_queue (q : ActionQueue (PendingTrigger C)) self : TriggerEngine C :=
  mk_triggers (triggers self) q (pending_ids self).
Definition set_pending_ids (m : gmap ActionId string) self : TriggerEngine C :=
  mk_triggers (triggers self) (trigger_queue self) m.

Definition insert_trigger (trigger : Trigger C) : stm (TriggerEngine C) TriggerError unit :=
  self ← st_get;
  _ ← st_require (Forall (λ entry, trigger_id entry ≠ trigger_id trigger) (triggers self))
        (TriggerDuplicateId (trigger_id trigger));
  _ ← st_require (trigger_intents trigger ≠ []) (EmptyActions (trigger_id trigger));
  st_put (mk_triggers (triggers self ++ [trigger]) (trigger_queue self) (pending_ids self)).

(** The triggers that match, with the times they are due. *)
Definition matching (event : AutomationEvent) (l : list (Trigger C)) :
    result TriggerError (list (Trigger C * Z)) :=
  mapM (λ trigger,
      due ← ok_or (TriggerTimestampOverflow (trigger_id trigger))
              (checked U64 (timestamp_ms event + trigger_delay_ms trigger));
      Ok (trigger, due))
    (filter (λ trigger, filter_matches event (trigger_filter trigger) = true) l).

Definition cancel_pending (self : TriggerEngine C) (id : ActionId) : TriggerEngine C :=
  mk_triggers (triggers self) (cancel id (trigger_queue self)).1 (delete id (pending_ids self)).

(** Arm the matches one by one; if the queue refuses one, disarm those armed. *)
Fixpoint arm_matches (event : AutomationEvent) (ids : list ActionId) (l : list (Trigger C * Z)) :
    stm (TriggerEngine C) TriggerError (list ActionId) :=
  match l with
  | [] => mret ids
  | (trigger, due) :: l => λ self,
      match schedule due (mk_pending_trigger (trigger_id trigger) (timestamp_ms event)
              (trigger_intents trigger) (trigger_conditions trigger)) (trigger_queue self) with
      | (q, Ret id) =>
          arm_matches event (ids ++ [id]) l
            (mk_triggers (triggers self) q (<[id := trigger_id trigger]> (pending_ids self)))
      | (q, Throw error) =>
          (foldl cancel_pending (set_trigger_queue q self) ids, Throw (TriggerScheduler error))
      | (q, Panic) => (set_trigger_queue q self, Panic)
      end
  end.
Definition ingest (event : AutomationEvent) : stm (TriggerEngine C) TriggerError (list ActionId) :=
  self ← st_get;
  matches ← st_lift (matching event (triggers self));
  arm_matches event [] matches.

Definition poll_triggers (now_ms : Z) (state : ConditionContext) self :
    TriggerEngine C * list (TriggerFire C) :=
  let '(q, due) := drain_due now_ms (trigger_queue self) in
  (mk_triggers (triggers self) q
     (foldl (λ ids scheduled, delete (sa_id scheduled) ids) (pending_ids self) due),
   omap (λ scheduled,
       let x := action scheduled in
       if conditions_match (pending_conditions x) state
       then Some (mk_trigger_fire (pending_trigger_id x) (pending_event_ms x)
                    (target_frame scheduled) (pending_intents x))
       else None) due).

Definition cancel_action (id : ActionId) self : TriggerEngine C * bool :=
  (cancel_pending self id, bool_decide (is_Some (cancel id (trigger_queue self)).2)).
Definition cancel_trigger (id : string) self : TriggerEngine C * nat :=
  let ids := (filter (λ p, p.2 = id) (map_to_list (pending_ids self))).*1 in
  (foldl cancel_pending self ids, length ids).
Definition remove_trigger (id : string) self : TriggerEngine C * bool :=
  let kept := filter (λ trigger, trigger_id trigger ≠ id) (triggers self) in
  if decide (length kept = length (triggers self)) then (self, false)
  else ((cancel_trigger id (mk_triggers kept (trigger_queue self) (pending_ids self))).1, true).

Definition registered_len self : nat := length (triggers self).
Definition pending_len self : nat := length (pending (trigger_queue self)).
End triggers.

(** ** Programmed GO lists *)

Definition MAX_GO_START_RECEIPTS : nat := 256.

Inductive GoAction (C : Type) :=
  | GoIntent (intent : CommandIntent C)
  | Delay (delay_ms : Z).
Arguments GoIntent {C}.
Arguments Delay {C}.
Record PlannedGoAction (C : Type) := mk_planned_go {
  index : nat;
  offset_ms : Z;
  go_intent : CommandIntent C
}.
Arguments mk_planned_go {C}.
Arguments index {C}.
Arguments offset_ms {C}.
Arguments go_intent {C}.
Record GoPreview (C : Type) := mk_preview {
  preview_input : Z;
  preview_actions : list (PlannedGoAction C);
  preview_duration_ms : Z
}.
Arguments mk_preview {C}.
Arguments preview_input {C}.
Arguments preview_actions {C}.
Arguments preview_duration_ms {C}.
Record ProgrammedGo (C : Type) := mk_programmed {
  go_actions : list (PlannedGoAction C);
  total_duration_ms : Z
}.
Arguments mk_programmed {C}.
Arguments go_actions {C}.
Arguments total_duration_ms {C}.
Record PendingGo (C : Type) := mk_pending_go {
  go_run : Z;
  go_action : PlannedGoAction C
}.
Arguments mk_pending_go {C}.
Arguments go_run {C}.
Arguments go_action {C}.
Record GoStart (C : Type) := mk_start {
  started_run : Z;
  replayed : bool;
  preview : GoPreview C
}.
Arguments mk_start {C}.
Arguments started_run {C}.
Arguments replayed {C}.
Arguments preview {C}.
Record GoActionFire (C : Type) := mk_go_fire {
  fire_run : Z;
  fire_due_ms : Z;
  fire_action : PlannedGoAction C
}.
Arguments mk_go_fire {C}.
Arguments fire_run {C}.
Arguments fire_due_ms {C}.
Arguments fire_action {C}.
Inductive GoError :=
  | GoEmpty
  | TooManyActions (maximum : nat)
  | UnknownInput (input : Z)
  | GoTimestampOverflow
  | RunSequenceExhausted
  | GoScheduler (e : ActionError).

Record GoEngine (C : Type) := mk_go {
  programs : gmap Z (ProgrammedGo C);
  go_queue : ActionQueue (PendingGo C);
  action_ids : gmap Z (list ActionId);
  active : gset Z;
  starts : gmap string (Z * Z);
  start_order : list string;
  next_run_id : Z
}.
Arguments mk_go {C}.
Arguments programs {C}.
Arguments go_queue {C}.
Arguments action_ids {C}.
Arguments active {C}.
Arguments starts {C}.
Arguments start_order {C}.
Arguments next_run_id {C}.

Section go.
Context {C : Type}.
Implicit Types self : GoEngine C.

Fixpoint plan_go (offset_ms : Z) (planned : list (PlannedGoAction C)) (l : list (GoAction C)) :
    result GoError (list (PlannedGoAction C) * Z) :=
  match l with
  | [] => Ok (planned, offset_ms)
  | Delay delay_ms :: l =>
      offset_ms ← ok_or GoTimestampOverflow (checked U64 (offset_ms + delay_ms));
      plan_go offset_ms planned l
  | GoIntent intent :: l =>
      if decide (length planned = MAX_TRANSACTION_COMMANDS)
      then Err (TooManyActions MAX_TRANSACTION_COMMANDS)
      else plan_go offset_ms (planned ++ [mk_planned_go (length planned) offset_ms intent]) l
  end.
Definition programmed_new (l : list (GoAction C)) : result GoError (ProgrammedGo C) :=
  '(planned, offset_ms) ← plan_go 0 [] l;
  if decide (planned = []) then Err GoEmpty else Ok (mk_programmed planned offset_ms).

Definition go_default : GoEngine C := mk_go ∅ queue_default ∅ ∅ ∅ [] 0.
Definition set_go_queue (q : ActionQueue (PendingGo C)) self : GoEngine C :=
  mk_go (programs self) q (action_ids self) (active self) (starts self) (start_order self)
    (next_run_id self).
Definition set_runs (ids : gmap Z (list ActionId)) (runs : gset Z) self : GoEngine C :=
  mk_go (programs self) (go_queue self) ids runs (starts self) (start_order self)
    (next_run_id self).

Definition program (input : Z) (p : ProgrammedGo C) self : GoEngine C * option (ProgrammedGo C) :=
  (mk_go (<[input := p]> (programs self)) (go_queue self) (action_ids self) (active self)
     (starts self) (start_order self) (next_run_id self), programs self !! input).
Definition go_preview (input : Z) self : option (GoPreview C) :=
  (λ p, mk_preview input (go_actions p) (total_duration_ms p)) <$> programs self !! input.

(** Schedule the actions one by one; if the queue refuses one, cancel those scheduled. *)
Fixpoint schedule_run (run : Z) (scheduled : list ActionId) (l : list (PlannedGoAction C * Z)) :
    stm (GoEngine C) GoError (list ActionId) :=
  match l with
  | [] => mret scheduled
  | (x, target) :: l => λ self,
      match schedule target (mk_pending_go run x) (go_queue self) with
      | (q, Ret id) => schedule_run run (scheduled ++ [id]) l (set_go_queue q self)
      | (q, Throw error) =>
          (set_go_queue (foldl (λ q id, (cancel id q).1) q scheduled) self, Throw (GoScheduler error))
      | (q, Panic) => (set_go_queue q self, Panic)
      end
  end.

(** The loop that expires receipts: it ends when the order is empty. *)
Fixpoint expire_starts (order : list string) (m : gmap string (Z * Z)) :
    list string * gmap string (Z * Z) :=
  if decide (MAX_GO_START_RECEIPTS ≤ size m)%nat then
    match order with
    | [] => ([], m)
    | expired :: order => expire_starts order (delete expired m)
    end
  else (order, m).
Definition remember_start (key : string) (input run : Z) self : GoEngine C :=
  let '(order, m) := expire_starts (start_order self) (starts self) in
  mk_go (programs self) (go_queue self) (action_ids self) (active self)
    (<[key := (input, run)]> m) (order ++ [key]) (next_run_id self).

Definition go_start (input : Z) (key : string) (now_ms : Z) :
    stm (GoEngine C) GoError (GoStart C) :=
  self ← st_get;
  match starts self !! key with
  | Some (started, run) =>
      preview ← st_lift (ok_or (UnknownInput started) (go_preview started self));
      mret (mk_start run true preview)
  | None =>
      preview ← st_lift (ok_or (UnknownInput input) (go_preview input self));
      run ← st_lift (ok_or RunSequenceExhausted (checked U64 (next_run_id self + 1)));
      targets ← st_lift (mapM (λ x, ok_or GoTimestampOverflow
                                      (checked U64 (now_ms + offset_ms x)))
                              (preview_actions preview));
      scheduled ← schedule_run run [] (zip (preview_actions preview) targets);
      _ ← st_modify (λ self, remember_start key input run
            (mk_go (programs self) (go_queue self) (<[run := scheduled]> (action_ids self))
               ({[run]} ∪ active self) (starts self) (start_order self) run));
      mret (mk_start run false preview)
  end.

Definition started (key : string) self : option Z := snd <$> starts self !! key.

Definition go_cancel (run : Z) self : GoEngine C * bool :=
  if decide (run ∈ active self) then
    let ids := default [] (action_ids self !! run) in
    (set_go_queue (foldl (λ q id, (cancel id q).1) (go_queue self) ids)
       (set_runs (delete run (action_ids self)) (active self ∖ {[run]}) self), true)
  else (self, false).

(** One due action: it leaves its run, and the run ends with its last action. *)
Definition fire_go (scheduled : ScheduledAction (PendingGo C)) self :
    GoEngine C * option (GoActionFire C) :=
  let x := action scheduled in
  if decide (go_run x ∈ active self) then
    let self' :=
      match action_ids self !! go_run x with
      | Some ids =>
          let ids := filter (λ id, id ≠ sa_id scheduled) ids in
          if decide (ids = []) then
            set_runs (delete (go_run x) (action_ids self)) (active self ∖ {[go_run x]}) self
          else set_runs (<[go_run x := ids]> (action_ids self)) (active self) self
      | None => self
      end in
    (self', Some (mk_go_fire (go_run x) (target_frame scheduled) (go_action x)))
  else (self, None).
Fixpoint fire_all (due : list (ScheduledAction (PendingGo C))) self :
    GoEngine C * list (GoActionFire C) :=
  match due with
  | [] => (self, [])
  | scheduled :: due =>
      let '(self, fire) := fire_go scheduled self in
      let '(self, fired) := fire_all due self in
      (self, option_list fire ++ fired)
  end.
Definition poll_go (now_ms : Z) self : GoEngine C * list (GoActionFire C) :=
  let '(q, due) := drain_due now_ms (go_queue self) in
  fire_all due (set_go_queue q self).

Definition is_active (run : Z) self : bool := bool_decide (run ∈ active self).
Definition program_len self : nat := size (programs self).
Definition has_program (input : Z) self : bool := bool_decide (is_Some (programs self !! input)).
Definition active_run_len self : nat := size (active self).
End go.
