(* ===== verification/TimerLaws.v ===== *)
(** Laws of automation in time: what schedules, triggers and programmed GO lists do
    over any history of calls.

    A schedule stays anchored to its boundaries ([schedule_anchored]), a run of a
    programmed GO list fires every action once, in order and on time ([go_run_exact]),
    and [triggers_wf] ties what a trigger has armed to its registration. *)
From S2P Require Import Prelude BTree Command Actions Automation Timers.
#[local] Open Scope Z_scope.

(** ** The queue *)

Lemma filter_fmap {A B} (f : A → B) (P : B → Prop) `{∀ y, Decision (P y)} (l : list A) :
  filter P (f <$> l) = f <$> filter (λ x, P (f x)) l.
Proof.
  induction l as [|x l IH]; [done|]. rewrite fmap_cons, !filter_cons, IH.
  by case_decide.
Qed.
Lemma filter_comm {A} (P Q : A → Prop) `{∀ x, Decision (P x)} `{∀ x, Decision (Q x)} (l : list A) :
  filter P (filter Q l) = filter Q (filter P l).
Proof. rewrite !list_filter_filter. apply list_filter_iff. tauto. Qed.
Lemma filter_unique {A} (P : A → Prop) `{∀ x, Decision (P x)} (l : list A) x :
  NoDup l → x ∈ l → P x → (∀ y, y ∈ l → P y → y = x) → filter P l = [x].
Proof.
  intros Hnd Hx HP Hu. apply Permutation_singleton_r. apply NoDup_Permutation.
  - by apply NoDup_filter.
  - apply NoDup_singleton.
  - intros y. rewrite list_elem_of_filter, list_elem_of_singleton. split; [naive_solver|by intros ->].
Qed.
Lemma mapM_result_elem {E A B} (f : A → result E B) (l : list A) (m : list B) y :
  mapM f l = Ok m → y ∈ m → ∃ x, x ∈ l ∧ f x = Ok y.
Proof.
  revert m. induction l as [|x l IH]; intros m; simpl.
  { intros [= <-] Hy. by apply elem_of_nil in Hy. }
  intros (z&Hz&(r&Hr&[= <-])%result_bind_Ok)%result_bind_Ok [->|Hy]%elem_of_cons.
  - exists x. split; [by left|done].
  - destruct (IH _ Hr Hy) as (x'&?&?). exists x'. split; [by right|done].
Qed.

Section queue.
Context {A : Type}.
Implicit Types (q : ActionQueue A) (a : ScheduledAction A).

Lemma drain_filter frame q q' due :
  queue_wf q → drain_due frame q = (q', due) →
  queue_wf q' ∧ next_sequence q' = next_sequence q ∧
  due = filter (λ a, target_frame a ≤ frame) (pending q) ∧
  pending q' = filter (λ a, frame < target_frame a) (pending q) ∧
  pending q = due ++ pending q'.
Proof.
  intros Hwf (Hwf'&Hn&Hp&Hdue&Hrest)%drain_due_spec; [|done]. split_and!; [done..| | |done].
  - rewrite Hp, filter_app, filter_all, filter_none, app_nil_r; [done| |by apply Forall_forall].
    rewrite Forall_forall in Hrest. intros a Ha%Hrest. lia.
  - rewrite Hp, filter_app, filter_none, filter_all; [done|by apply Forall_forall|].
    rewrite Forall_forall in Hdue. intros a Ha%Hdue. lia.
Qed.

Lemma pending_id q a : queue_wf q → a ∈ pending q → 0 < sa_id a ≤ next_sequence q.
Proof.
  intros Hwf Ha. apply elem_of_pending in Ha; [|done].
  apply (qw_id _ Hwf (action_key a)). by eexists.
Qed.
Lemma pending_same q a b : queue_wf q → a ∈ pending q → b ∈ pending q → sa_id a = sa_id b → a = b.
Proof.
  intros Hwf Ha Hb Hab. apply elem_of_pending in Ha, Hb; [|done..].
  assert (action_key a = action_key b) by (apply (key_unique q); eauto). congruence.
Qed.
Lemma pending_NoDup q : queue_wf q → NoDup (pending q).
Proof.
  intros Hwf. apply (NoDup_fmap_1 action_key). rewrite pending_keys by done.
  apply bt_sorted_NoDup, Hwf.
Qed.
Lemma pending_ids_NoDup q : queue_wf q → NoDup (sa_id <$> pending q).
Proof.
  intros Hwf. apply NoDup_fmap_2_strong; [|by apply pending_NoDup].
  intros a b Ha Hb. by apply pending_same with q.
Qed.

Lemma elem_of_spec_insert a b l : b ∈ spec_insert a l ↔ b = a ∨ b ∈ l.
Proof. by rewrite spec_insert_Permutation, elem_of_cons. Qed.
Lemma pending_split frame q :
  queue_wf q →
  pending q = filter (λ a, target_frame a ≤ frame) (pending q) ++
              filter (λ a, frame < target_frame a) (pending q).
Proof.
  intros Hwf. destruct (drain_due frame q) as [q' due] eqn:Hd.
  by apply drain_filter in Hd as (_&_&<-&<-&?).
Qed.
(** An insertion seen through a filter. *)
Lemma filter_spec_insert (P : ScheduledAction A → Prop) `{∀ a, Decision (P a)} a q :
  queue_wf q →
  filter P (spec_insert a (pending q)) =
    if decide (P a) then spec_insert a (filter P (pending q)) else filter P (pending q).
Proof.
  intros Hwf. unfold spec_insert. rewrite filter_app, filter_cons.
  rewrite !list_filter_filter.
  rewrite (list_filter_iff (λ x, P x ∧ target_frame x ≤ target_frame a)
             (λ x, target_frame x ≤ target_frame a ∧ P x)) by tauto.
  rewrite (list_filter_iff (λ x, P x ∧ target_frame a < target_frame x)
             (λ x, target_frame a < target_frame x ∧ P x)) by tauto.
  case_decide; [done|].
  rewrite (pending_split (target_frame a) q Hwf) at 3. rewrite filter_app, !list_filter_filter.
  f_equal; apply list_filter_iff; tauto.
Qed.

Lemma cancel_pending_list q id :
  queue_wf q →
  queue_wf (cancel id q).1 ∧ next_sequence (cancel id q).1 = next_sequence q ∧
  pending (cancel id q).1 = filter (λ a, sa_id a ≠ id) (pending q) ∧
  (is_Some (cancel id q).2 ↔ ∃ a, a ∈ pending q ∧ sa_id a = id).
Proof.
  intros Hwf. destruct (cancel id q) as [q' r] eqn:Hc. simpl.
  pose proof (pending_cancel _ _ _ _ Hwf Hc) as (_&Hp&_).
  apply cancel_spec in Hc as (Hwf'&Hn&Hr); [|done]. split_and!; [done..|].
  destruct r as [a|]; [|by destruct Hr as [_ Hr]; split; [by intros []|naive_solver]].
  split; [|by eexists]. intros _. exists a. tauto.
Qed.
Lemma cancel_list q ids :
  queue_wf q →
  let q' := foldl (λ q id, (cancel id q).1) q ids in
  queue_wf q' ∧ next_sequence q' = next_sequence q ∧
  pending q' = filter (λ a, sa_id a ∉ ids) (pending q).
Proof.
  revert q. induction ids as [|id ids IH]; intros q Hwf; simpl.
  { split_and!; [done..|]. symmetry. apply filter_all. intros a _. apply not_elem_of_nil. }
  destruct (cancel_pending_list q id Hwf) as (Hwf1&Hn1&Hp1&_).
  destruct (IH _ Hwf1) as (Hwf2&Hn2&Hp2). split_and!; [done|congruence|].
  rewrite Hp2, Hp1, list_filter_filter. apply list_filter_iff. intros a.
  rewrite not_elem_of_cons. tauto.
Qed.
End queue.

(** The effect of a call that scheduled an action, on the object that owns the queue. *)
Lemma wp_queue_schedule {S A E} (get : S → ActionQueue A) put (wrap : ActionError → E) frame a
    (Q : outcome E ActionId → S → Prop) s :
  queue_wf (get s) →
  (∀ q, queue_wf q → next_sequence q = next_sequence (get s) + 1 →
    pending q = spec_insert (mk_action (next_sequence q) frame a) (pending (get s)) →
    Q (Ret (next_sequence q)) (put q s)) →
  (∀ e, Q (Throw (wrap e)) (put (get s) s)) →
  wp (queue_schedule get put wrap frame a) Q s.
Proof.
  intros Hwf Hret Hthrow. unfold queue_schedule. wp_run. unfold wp.
  pose proof (schedule_spec frame a (get s) Hwf) as Hs.
  destruct (schedule frame a (get s)) as [q [id|e|]]; simpl; [|by subst|done].
  destruct Hs as (?&->&Hn&Hp). rewrite <-Hn. apply Hret; by rewrite ?Hn in *.
Qed.

(** ** Schedules *)

Section schedules.
Context {C : Type}.
Implicit Types (self : ScheduleSet C) (x : ScheduledAction (ScheduledIntent C)).

Definition sid x : string := scheduled_id (action x).
(** An entry as its owner sees it: without the number of its action. *)
Definition booking x : FrameNumber * ScheduledIntent C := (target_frame x, action x).
Definition bookings self : list (FrameNumber * ScheduledIntent C) :=
  booking <$> pending (schedule_queue self).

Definition positive (k : ScheduleKind) : Prop :=
  match k with
  | Every interval_ms => 0 < interval_ms
  | Once => True
  end.
(** The set while [due] is being processed: what is pending or still due is
    indexed, and no two entries share an identifier. *)
Record schedules_ok self (due : list (ScheduledAction (ScheduledIntent C))) : Prop := {
  so_queue : queue_wf (schedule_queue self);
  so_pending : ∀ x, x ∈ pending (schedule_queue self) ++ due →
    actions self !! sid x = Some (sa_id x);
  so_inj : ∀ id1 id2 i, actions self !! id1 = Some i → actions self !! id2 = Some i → id1 = id2;
  so_bound : ∀ id i, actions self !! id = Some i → 0 < i ≤ next_sequence (schedule_queue self);
  so_NoDup : NoDup (sa_id <$> pending (schedule_queue self) ++ due);
  so_interval : ∀ x, x ∈ pending (schedule_queue self) ++ due → 0 ≤ target_frame x ∧ positive (scheduled_kind (action x))
}.
Definition schedules_wf self : Prop := schedules_ok self [].

Lemma schedules_default_wf : schedules_wf schedules_default.
Proof.
  split; simpl.
  - apply queue_default_wf.
  - intros x Hx. by apply elem_of_nil in Hx.
  - intros ???. by rewrite lookup_empty.
  - intros ??. by rewrite lookup_empty.
  - constructor.
  - intros x Hx. by apply elem_of_nil in Hx.
Qed.

Lemma enqueue_spec self due at_ms (s : ScheduledIntent C) :
  schedules_ok self due → actions self !! scheduled_id s = None → 0 ≤ at_ms → positive (scheduled_kind s) →
  wp (enqueue at_ms s) (λ r self',
    match r with
    | Ret _ => schedules_ok self' due ∧ bookings self' ≡ₚ (at_ms, s) :: bookings self ∧
        actions self' = <[scheduled_id s := next_sequence (schedule_queue self')]> (actions self)
    | Throw _ => schedule_queue self' = schedule_queue self ∧ actions self' = actions self
    | Panic => False
    end) self.
Proof.
  intros [Hq Hp Hi Hb Hnd Hint] Hnew Hat Hk. unfold enqueue. apply wp_bind.
  apply wp_queue_schedule; [done| |by intros e].
  intros q Hwf Hn Hpend. wp_run. cbn [set_actions set_schedule_queue schedule_queue actions].
  set (new := mk_action _ _ _) in Hpend.
  assert (Hfresh : ∀ x, x ∈ pending (schedule_queue self) ++ due → sa_id x ≤ next_sequence (schedule_queue self)).
  { intros x Hx%Hp. by eapply Hb. }
  assert (Hin : ∀ x, x ∈ pending q ++ due → x = new ∨ x ∈ pending (schedule_queue self) ++ due).
  { intros x. rewrite Hpend, elem_of_app, elem_of_spec_insert, elem_of_app. tauto. }
  split; [split; simpl|split].
  - done.
  - intros x [->|Hx]%Hin; [apply lookup_insert_eq|].
    pose proof (Hp x Hx). rewrite lookup_insert_ne; [done|]. intros Heq. congruence.
  - intros id1 id2 i. rewrite !lookup_insert_Some. intros [[<- <-]|[H1 H1']] [[<- H2]|[H2 H2']]; try done.
    + apply Hb in H2'. lia.
    + subst. apply Hb in H1'. lia.
    + by eapply Hi.
  - intros id i. rewrite lookup_insert_Some.
    pose proof (qw_sequence _ Hq). intros [[_ <-]|[_ Hx%Hb]]; int_lia.
  - assert (pending q ++ due ≡ₚ new :: pending (schedule_queue self) ++ due) as ->.
    { by rewrite Hpend, spec_insert_Permutation. }
    rewrite fmap_cons. constructor; [|done]. intros (x&Hx&Hx')%list_elem_of_fmap.
    apply Hfresh in Hx'. simpl in Hx. lia.
  - intros x [->|Hx]%Hin; [done|by apply Hint].
  - unfold bookings. simpl. by rewrite Hpend, spec_insert_Permutation.
  - done.
Qed.

(** [schedule_at] books a free identifier, and nothing else changes. *)
Lemma schedule_at_spec self id at_ms kind intent :
  schedules_wf self → 0 ≤ at_ms → (∀ i, kind = Every i → 0 ≤ i) →
  wp (schedule_at id at_ms kind intent) (λ r self',
    match r with
    | Ret _ => schedules_wf self' ∧ actions self !! id = None ∧
        bookings self' ≡ₚ (at_ms, mk_scheduled id kind intent) :: bookings self ∧
        (∀ id', is_Some (actions self' !! id') ↔ id' = id ∨ is_Some (actions self !! id'))
    | Throw _ => schedules_wf self' ∧ bookings self' = bookings self ∧ actions self' = actions self
    | Panic => False
    end) self.
Proof.
  intros Hwf Hat Hk. unfold schedule_at. wp_run; try done.
  eapply wp_mono; [apply (enqueue_spec _ []); try done|].
  { destruct kind as [|i]; simpl; [done|]. specialize (Hk i eq_refl).
    assert (i ≠ 0) by congruence. lia. } intros [[]|e|] self'; [..|done].
  - intros (Hok&Hbk&Ha). split_and!; [done..|]. intros id'. rewrite Ha. simpl.
    rewrite lookup_insert_is_Some. destruct (decide (id = id')); naive_solver.
  - intros [Hq Ha]. unfold bookings. split_and!; [|by rewrite Hq|done].
    destruct Hwf. by split; rewrite ?Hq, ?Ha.
Qed.

Lemma cancel_schedule_spec self id :
  schedules_wf self →
  let '(self', r) := cancel_schedule id self in
  schedules_wf self' ∧
  bookings self' = filter (λ b, scheduled_id b.2 ≠ id) (bookings self) ∧
  (∀ id', is_Some (actions self' !! id') ↔ id' ≠ id ∧ is_Some (actions self !! id')).
Proof.
  intros [Hq Hp Hi Hb Hnd Hint]. rewrite ?app_nil_r in *. unfold cancel_schedule.
  assert (Hfilter : ∀ l : list (ScheduledAction (ScheduledIntent C)),
    filter (λ b, scheduled_id b.2 ≠ id) (booking <$> l) =
    booking <$> filter (λ x, sid x ≠ id) l).
  { intros l. by rewrite filter_fmap. }
  destruct (actions self !! id) as [i|] eqn:Ha.
  - destruct (cancel_pending_list (schedule_queue self) i Hq) as (Hwf1&Hn1&Hp1&_).
    destruct (cancel i (schedule_queue self)) as [q r]; simpl in *.
    assert (Hpf : pending q = filter (λ x, sid x ≠ id) (pending (schedule_queue self))).
    { rewrite Hp1. apply list_filter_iff_elem. intros x Hx. apply Hp in Hx.
      split; intros Hne Heq; apply Hne; [congruence|]. apply (Hi _ _ i); congruence. }
    split; [split; simpl|split].
    + done.
    + intros x. rewrite app_nil_r, Hpf, list_elem_of_filter. intros [Hne Hx].
      rewrite lookup_delete_ne by done. by apply Hp.
    + intros ???. rewrite !lookup_delete_Some. intros [_ ?] [_ ?]. by eapply Hi.
    + intros id' i'. rewrite lookup_delete_Some, Hn1. intros [_ ?]. by eapply Hb.
    + rewrite app_nil_r, Hpf. eapply sublist_NoDup; [exact Hnd|]. apply fmap_sublist, sublist_filter.
    + intros x. rewrite app_nil_r, Hpf, list_elem_of_filter. intros [_ Hx]. by apply Hint.
    + unfold bookings. simpl. by rewrite Hpf, Hfilter.
    + intros id'. rewrite lookup_delete_is_Some. naive_solver.
  - split; [by split; rewrite ?app_nil_r|]. split.
    + unfold bookings. rewrite Hfilter. f_equal. symmetry. apply filter_all. intros x Hx Heq.
      assert (actions self !! sid x = Some (sa_id x)) as Hs; [|by rewrite Heq, Ha in Hs].
      by apply Hp.
    + intros id'. split; [|tauto]. intros Hs. split; [|done]. intros ->. by rewrite Ha in Hs; destruct Hs.
Qed.

(** What polling at [now_ms] makes of a due entry: what fires, and what is booked
    again. *)
Definition missed_at (now_ms : Z) x : Z :=
  match scheduled_kind (action x) with
  | Every interval_ms => (now_ms - target_frame x) / interval_ms
  | Once => 0
  end.
Definition fire_of (now_ms : Z) x : ScheduleFire C :=
  mk_schedule_fire (sid x) (target_frame x) now_ms (missed_at now_ms x) (scheduled_intent (action x)).
Definition rebooked (now_ms : Z) x : list (FrameNumber * ScheduledIntent C) :=
  match scheduled_kind (action x) with
  | Every interval_ms => [(target_frame x + (missed_at now_ms x + 1) * interval_ms, action x)]
  | Once => []
  end.

Lemma next_occurrence_spec interval_ms occurrence_ms now_ms self :
  0 < interval_ms → 0 ≤ occurrence_ms ≤ now_ms → in_ty U64 now_ms →
  wp (next_occurrence interval_ms occurrence_ms now_ms) (λ r self',
    self' = self ∧
    match r with
    | Ret (next, missed) =>
        missed = (now_ms - occurrence_ms) / interval_ms ∧
        next = occurrence_ms + (missed + 1) * interval_ms
    | Throw _ => True
    | Panic => False
    end) self.
Proof.
  intros Hi Ho Hn. unfold next_occurrence.
  assert (0 ≤ (now_ms - occurrence_ms) / interval_ms) by (apply Z.div_pos; lia).
  assert ((now_ms - occurrence_ms) / interval_ms ≤ now_ms - occurrence_ms) by
    (apply Z.div_le_upper_bound; nia).
  wp_run; repeat match goal with
    | H : ok_or _ _ = Ok _ |- _ => apply ok_or_Ok in H
    | H : checked _ _ = Some _ |- _ => apply checked_Some in H as [<- ?]
    | H : checked _ _ = None |- _ => apply checked_None in H
    | H : (if decide _ then _ else _) = _ |- _ => rewrite decide_False in H by lia
    end; try done.
  - split; [done|]. split; [lia|]. nia.
  - exfalso. int_lia.
  - exfalso. int_lia.
Qed.

Lemma schedules_ok_drop self x due :
  schedules_ok self (x :: due) →
  schedules_ok (set_actions (delete (sid x) (actions self)) self) due ∧
  delete (sid x) (actions self) !! sid x = None.
Proof.
  intros [Hq Hp Hi Hb Hnd Hint]. split; [|apply lookup_delete_eq].
  assert (Hin : ∀ y, y ∈ pending (schedule_queue self) ++ due →
    y ∈ pending (schedule_queue self) ++ x :: due) by (intros y; set_solver).
  rewrite <-Permutation_middle, fmap_cons in Hnd. apply NoDup_cons in Hnd as [Hx Hnd].
  split; simpl; try done.
  - intros y Hy. rewrite lookup_delete_ne; [by apply Hp, Hin|]. intros Heq. apply Hx.
    pose proof (Hp y (Hin _ Hy)) as Hy'. rewrite <-Heq, (Hp x) in Hy' by set_solver.
    injection Hy' as ->. by apply list_elem_of_fmap_2.
  - intros ???. rewrite !lookup_delete_Some. intros [_ ?] [_ ?]. by eapply Hi.
  - intros ??. rewrite lookup_delete_Some. intros [_ ?]. by eapply Hb.
  - intros y Hy. by apply Hint, Hin.
Qed.

Lemma poll_one_spec now_ms x due self :
  schedules_ok self (x :: due) → target_frame x ≤ now_ms → in_ty U64 now_ms →
  wp (poll_one now_ms x) (λ r self',
    schedules_ok self' due ∧
    (∀ id, is_Some (actions self' !! id) → is_Some (actions self !! id)) ∧
    match r with
    | Ret fire => fire = fire_of now_ms x ∧ bookings self' ≡ₚ rebooked now_ms x ++ bookings self
    | Throw _ => bookings self' = bookings self
    | Panic => False
    end) self.
Proof.
  intros Hok Hx Hn. unfold poll_one.
  destruct (schedules_ok_drop self x due Hok) as [Hdrop Hnone].
  assert (Hsx : actions self !! sid x = Some (sa_id x)) by (apply Hok; set_solver).
  destruct (so_interval _ _ Hok x ltac:(set_solver)) as [Ht Hk].
  set (self1 := set_actions _ self) in *.
  assert (Hnew : ∀ id, is_Some (actions self1 !! id) → is_Some (actions self !! id)).
  { intros id. simpl. rewrite lookup_delete_is_Some. tauto. }
  apply wp_bind, wp_modify. change (set_actions _ self) with self1. apply wp_bind.
  assert (Hfire : fire_of now_ms x = mk_schedule_fire (scheduled_id (action x)) (target_frame x)
    now_ms (missed_at now_ms x) (scheduled_intent (action x))) by done.
  unfold missed_at, rebooked in *. destruct (scheduled_kind (action x)) as [|i] eqn:Hkind.
  { wp_run. by split_and!. }
  simpl in Hk.
  apply wp_bind. eapply wp_mono; [apply next_occurrence_spec; [done|lia|done]|].
  intros [[next missed]|e|] self' [-> Hr]; [|by split_and!|done]. destruct Hr as [-> ->].
  apply wp_bind. eapply wp_mono.
  { apply (enqueue_spec self1 due); [done| | |by rewrite Hkind].
    - exact Hnone.
    - apply Z.add_nonneg_nonneg; [lia|]. apply Z.mul_nonneg_nonneg; [|lia].
      assert (0 ≤ (now_ms - target_frame x) / i) by (apply Z.div_pos; lia). lia. }
  intros [[]|e|] self2 Hr; [| |done].
  - destruct Hr as (Hok2&Hb2&Ha2). wp_run. split; [done|].
    split; [|split; [done|by unfold missed_at; rewrite Hkind]].
    intros id. rewrite Ha2, lookup_insert_is_Some. intros [<-|[_ ?]]; [by eexists|by apply Hnew].
  - destruct Hr as [Hq Ha]. split; [|by rewrite Ha; unfold bookings; rewrite Hq; split].
    destruct Hdrop. by split; rewrite ?Hq, ?Ha.
Qed.

Lemma poll_all_spec now_ms due self :
  schedules_ok self due → Forall (λ x, target_frame x ≤ now_ms) due → in_ty U64 now_ms →
  wp (poll_all now_ms due) (λ r self',
    schedules_wf self' ∧
    (∀ id, is_Some (actions self' !! id) → is_Some (actions self !! id)) ∧
    match r with
    | Ret fires => fires = fire_of now_ms <$> due ∧
        bookings self' ≡ₚ (due ≫= rebooked now_ms) ++ bookings self
    | Throw _ => ∀ b, b ∈ bookings self' → b ∈ (due ≫= rebooked now_ms) ++ bookings self
    | Panic => False
    end) self.
Proof.
  intros Hok Hdue Hn. revert self Hok. induction due as [|x due IH]; intros self Hok.
  { apply wp_ret. by split_and!. }
  apply Forall_cons in Hdue as [Hx Hdue]. cbn [poll_all mbind list_bind]. apply wp_bind.
  eapply wp_mono; [by apply (poll_one_spec _ _ due)|].
  intros [fire|e|] self1 (Hok1&Ha1&Hr); [| |done].
  2: { split; [|split; [done|]].
       - destruct Hok1 as [? Hp ? ? Hnd Ht]. split; try done.
         + intros y Hy. apply Hp. set_solver.
         + rewrite app_nil_r. rewrite fmap_app in Hnd. by apply NoDup_app in Hnd as [? _].
         + intros y Hy. apply Ht. set_solver.
       - intros b. rewrite Hr. set_solver. }
  destruct Hr as [-> Hb1]. apply wp_bind.
  eapply wp_mono; [by apply IH|]. intros [fires|e|] self2 (Hok2&Ha2&Hr); [| |done].
  - destruct Hr as [-> Hb2]. wp_run. split; [done|]. split; [by auto|]. split; [done|].
    rewrite Hb2, Hb1, <-(assoc_L (++)). by rewrite Permutation_app_swap_app.
  - split; [done|]. split; [by auto|]. intros b Hb%Hr.
    rewrite elem_of_app, Hb1, !elem_of_app in Hb. rewrite !elem_of_app. tauto.
Qed.

(** The entries due at [now_ms], and what becomes of the bookings when they fire. *)
Definition due_at (now_ms : Z) self : list (ScheduledAction (ScheduledIntent C)) :=
  filter (λ x, target_frame x ≤ now_ms) (pending (schedule_queue self)).

Definition is_ret {E B} (o : outcome E B) : Prop := if o is Ret _ then True else False.
(** A poll succeeds as long as the next boundary of what is due and the numbers of
    its actions fit in 64 bits. *)
Definition next_fits (now_ms : Z) x : Prop :=
  match scheduled_kind (action x) with
  | Every interval_ms => 0 < interval_ms ∧ now_ms + interval_ms ≤ ty_max U64
  | Once => True
  end.
Definition poll_fits (now_ms : Z) self : Prop :=
  Forall (next_fits now_ms) (due_at now_ms self) ∧
  next_sequence (schedule_queue self) + Z.of_nat (length (due_at now_ms self)) ≤ ty_max U64.
#[global] Instance next_fits_dec now_ms x : Decision (next_fits now_ms x).
Proof. unfold next_fits. destruct (scheduled_kind (action x)); apply _. Defined.
#[global] Instance poll_fits_dec now_ms self : Decision (poll_fits now_ms self).
Proof. unfold poll_fits. apply _. Defined.

Lemma next_occurrence_fits interval_ms occurrence_ms now_ms self :
  0 < interval_ms → 0 ≤ occurrence_ms ≤ now_ms → now_ms + interval_ms ≤ ty_max U64 →
  wp (next_occurrence interval_ms occurrence_ms now_ms) (λ r self', self' = self ∧ ∃ p, r = Ret p) self.
Proof.
  intros Hi Ho Hn. unfold next_occurrence.
  assert (0 ≤ (now_ms - occurrence_ms) / interval_ms) by (apply Z.div_pos; lia).
  assert ((now_ms - occurrence_ms) / interval_ms * interval_ms ≤ now_ms - occurrence_ms).
  { rewrite Z.mul_comm. by apply Z.mul_div_le. }
  wp_run; repeat match goal with
    | H : ok_or _ _ = Ok _ |- _ => apply ok_or_Ok in H
    | H : ok_or _ _ = Err _ |- _ => apply ok_or_Err in H as [H _]
    | H : checked _ _ = Some _ |- _ => apply checked_Some in H as [<- ?]
    | H : checked _ _ = None |- _ => apply checked_None in H
    | H : (if decide _ then _ else _) = _ |- _ => rewrite decide_False in H by lia
    end; first [by split; [|eexists]|exfalso; int_lia|exfalso; unfold in_ty in *; simpl ty_min in *; nia].
Qed.
Lemma enqueue_fits at_ms (s : ScheduledIntent C) self :
  0 ≤ next_sequence (schedule_queue self) < ty_max U64 →
  wp (enqueue at_ms s) (λ r self', (∃ u, r = Ret u) ∧
    next_sequence (schedule_queue self') = next_sequence (schedule_queue self) + 1) self.
Proof.
  intros Hn. unfold enqueue, queue_schedule, schedule, allocate_id.
  wp_run; repeat match goal with
    | H : ok_or _ _ = Ok _ |- _ => apply ok_or_Ok in H
    | H : ok_or _ _ = Err _ |- _ => apply ok_or_Err in H as [H _]
    | H : checked _ _ = Some _ |- _ => apply checked_Some in H as [<- ?]
    | H : checked _ _ = None |- _ => apply checked_None in H
    end; first [by split; [eexists|]|exfalso; int_lia].
Qed.
Lemma poll_one_fits now_ms x self :
  0 ≤ target_frame x ≤ now_ms → next_fits now_ms x →
  0 ≤ next_sequence (schedule_queue self) < ty_max U64 →
  wp (poll_one now_ms x) (λ r self', (∃ f, r = Ret f) ∧
    next_sequence (schedule_queue self) ≤ next_sequence (schedule_queue self')
      ≤ next_sequence (schedule_queue self) + 1) self.
Proof.
  intros Ht Hx Hn. unfold poll_one, next_fits in *. apply wp_bind, wp_modify, wp_bind.
  destruct (scheduled_kind (action x)) as [|i].
  { apply wp_ret, wp_ret. split; [by eexists|simpl; lia]. }
  destruct Hx as [Hi Hmax]. apply wp_bind. eapply wp_mono; [by apply next_occurrence_fits|].
  intros r self1 [-> [[next missed] ->]]. apply wp_bind.
  eapply wp_mono; [by apply enqueue_fits|]. intros r self2 [[u ->] Hs]. simpl in Hs.
  apply wp_ret, wp_ret. split; [by eexists|lia].
Qed.
Lemma poll_all_fits now_ms due self :
  Forall (λ x, 0 ≤ target_frame x ≤ now_ms) due → Forall (next_fits now_ms) due →
  0 ≤ next_sequence (schedule_queue self) →
  next_sequence (schedule_queue self) + Z.of_nat (length due) ≤ ty_max U64 →
  wp (poll_all now_ms due) (λ r _, ∃ fires, r = Ret fires) self.
Proof.
  intros Ht Hf. revert self. induction due as [|x due IH]; intros self Hn Hmax.
  { apply wp_ret. by eexists. }
  apply Forall_cons in Ht as [Hx Ht], Hf as [Hfx Hf]. cbn [length] in Hmax. cbn [poll_all].
  apply wp_bind. eapply wp_mono; [apply poll_one_fits; [done..|lia]|].
  intros r self1 [[f ->] Hs]. apply wp_bind.
  eapply wp_mono; [apply IH; [done..|lia|lia]|]. intros r self2 [fires ->]. apply wp_ret. by eexists.
Qed.
Lemma poll_succeeds now_ms self :
  schedules_wf self → poll_fits now_ms self → is_ret (poll_schedules now_ms self).2.
Proof.
  intros Hok [Hf Hmax].
  assert (Hw : wp (poll_schedules now_ms) (λ r _, ∃ fires, r = Ret fires) self).
  { unfold poll_schedules. apply wp_bind, wp_get.
    destruct (drain_due now_ms (schedule_queue self)) as [q due] eqn:Hd.
    apply drain_filter in Hd as (_&Hseq&Hdue&_&_); [|apply Hok].
    assert (due = due_at now_ms self) as -> by done. apply wp_bind, wp_put.
    apply poll_all_fits; simpl; [|done|rewrite Hseq; apply (qw_sequence _ (so_queue _ _ Hok))|by rewrite Hseq].
    apply Forall_forall. intros x [Hx Hin]%list_elem_of_filter. split; [|done].
    apply (so_interval _ _ Hok). by rewrite app_nil_r. }
  unfold wp in Hw. destruct Hw as [fires ->]. done.
Qed.

Lemma poll_schedules_spec now_ms self :
  schedules_wf self → in_ty U64 now_ms →
  wp (poll_schedules now_ms) (λ r self',
    schedules_wf self' ∧
    (∀ id, is_Some (actions self' !! id) → is_Some (actions self !! id)) ∧
    let next := (due_at now_ms self ≫= rebooked now_ms) ++
                filter (λ b, now_ms < b.1) (bookings self) in
    match r with
    | Ret fires => fires = fire_of now_ms <$> due_at now_ms self ∧ bookings self' ≡ₚ next
    | Throw _ => ∀ b, b ∈ bookings self' → b ∈ next
    | Panic => False
    end) self.
Proof.
  intros Hok Hn. unfold poll_schedules. apply wp_bind, wp_get.
  destruct (drain_due now_ms (schedule_queue self)) as [q due] eqn:Hd.
  apply drain_filter in Hd as (Hwf&Hseq&Hdue&Hp&Hall); [|apply Hok].
  apply wp_bind, wp_put.
  assert (Hb : bookings (set_schedule_queue q self) = filter (λ b, now_ms < b.1) (bookings self)).
  { unfold bookings. simpl. by rewrite Hp, filter_fmap. }
  assert (Hperm : pending q ++ due ≡ₚ pending (schedule_queue self) ++ []).
  { by rewrite app_nil_r, Hall, Permutation_app_comm. }
  eapply wp_mono; [apply (poll_all_spec now_ms due); [| |done]|].
  - destruct Hok as [? Hpd ? Hbd Hnd Ht]. split; simpl; try done.
    + intros x. rewrite Hperm. apply Hpd.
    + intros id i. rewrite Hseq. apply Hbd.
    + by rewrite Hperm.
    + intros x. rewrite Hperm. apply Ht.
  - apply Forall_forall. intros x. rewrite Hdue, list_elem_of_filter. tauto.
  - rewrite Hb. unfold due_at. rewrite <-Hdue. done.
Qed.
End schedules.

(** *** Schedules over any history *)

Section schedule_history.
Context {C : Type}.
Implicit Types (self : ScheduleSet C).

Inductive schedule_op :=
  | ScheduleAt (id : string) (at_ms : Z) (kind : ScheduleKind) (intent : CommandIntent C)
  | StartTimer (id : string) (now_ms delay_ms : Z) (intent : CommandIntent C)
  | CancelSchedule (id : string)
  | PollSchedules (now_ms : Z).
(** The arguments are values of their types. *)
Definition schedule_op_ok (op : schedule_op) : Prop :=
  match op with
  | ScheduleAt _ at_ms kind _ => 0 ≤ at_ms ∧ (∀ i, kind = Every i → 0 ≤ i)
  | StartTimer _ now_ms delay_ms _ => 0 ≤ now_ms ∧ 0 ≤ delay_ms
  | CancelSchedule _ => True
  | PollSchedules now_ms => in_ty U64 now_ms
  end.

(** A history of calls, with everything that fired; [None] when a poll failed. *)
Fixpoint run_schedules (ops : list schedule_op) self : option (ScheduleSet C * list (ScheduleFire C)) :=
  match ops with
  | [] => Some (self, [])
  | ScheduleAt id at_ms kind intent :: ops =>
      run_schedules ops (schedule_at id at_ms kind intent self).1
  | StartTimer id now_ms delay_ms intent :: ops =>
      run_schedules ops (start_timer id now_ms delay_ms intent self).1
  | CancelSchedule id :: ops => run_schedules ops (cancel_schedule id self).1
  | PollSchedules now_ms :: ops =>
      match poll_schedules now_ms self with
      | (self, Ret fires) => '(self, later) ← run_schedules ops self; Some (self, fires ++ later)
      | _ => None
      end
  end.
(** Every poll of a history finds room for the next boundaries of what is due. *)
Fixpoint polls_fit (ops : list schedule_op) self : Prop :=
  match ops with
  | [] => True
  | ScheduleAt id at_ms kind intent :: ops => polls_fit ops (schedule_at id at_ms kind intent self).1
  | StartTimer id now_ms delay_ms intent :: ops =>
      polls_fit ops (start_timer id now_ms delay_ms intent self).1
  | CancelSchedule id :: ops => polls_fit ops (cancel_schedule id self).1
  | PollSchedules now_ms :: ops => poll_fits now_ms self ∧ polls_fit ops (poll_schedules now_ms self).1
  end.
(** The latest time the set was polled at, -1 before the first poll. *)
Fixpoint latest_poll (ops : list schedule_op) : Z :=
  match ops with
  | [] => -1
  | PollSchedules now_ms :: ops => Z.max now_ms (latest_poll ops)
  | _ :: ops => latest_poll ops
  end.
(** How many boundaries [start + k * interval] lie at or before [time]. *)
Definition boundaries (start interval time : Z) : Z :=
  if decide (start ≤ time) then (time - start) / interval + 1 else 0.

Lemma boundaries_mono start interval t1 t2 :
  0 < interval → t1 ≤ t2 → boundaries start interval t1 ≤ boundaries start interval t2.
Proof.
  intros Hi Ht. unfold boundaries. repeat case_decide; try lia.
  - assert ((t1 - start) / interval ≤ (t2 - start) / interval) by (apply Z.div_le_mono; lia). lia.
  - assert (0 ≤ (t2 - start) / interval) by (apply Z.div_pos; lia). lia.
Qed.

(** The schedule is booked for its boundary number [k]. *)
Definition booked id start interval intent (k : Z) self : Prop :=
  (start + k * interval, mk_scheduled id (Every interval) intent) ∈ bookings self.

Lemma sid_inj self x y :
  schedules_wf self → x ∈ pending (schedule_queue self) → y ∈ pending (schedule_queue self) →
  sid x = sid y → x = y.
Proof.
  intros Hok Hx Hy Hxy. apply (pending_same (schedule_queue self)); [apply Hok|done..|].
  pose proof (so_pending _ _ Hok) as Hp. rewrite app_nil_r in Hp.
  pose proof (Hp x Hx). pose proof (Hp y Hy). congruence.
Qed.

Lemma booked_actions id start interval intent k self :
  schedules_wf self → booked id start interval intent k self → is_Some (actions self !! id).
Proof.
  intros Hok (x&Hx&Hin)%list_elem_of_fmap. unfold booking in Hx. injection Hx as _ Hx.
  pose proof (so_pending _ _ Hok x) as Hp. rewrite app_nil_r in Hp.
  specialize (Hp Hin). unfold sid in Hp. rewrite <-Hx in Hp. by eexists.
Qed.

Lemma poll_booked now_ms self self' fires id start interval intent k :
  schedules_wf self → in_ty U64 now_ms → 0 < interval →
  booked id start interval intent k self →
  poll_schedules now_ms self = (self', Ret fires) →
  let n := start + k * interval in
  let m := (now_ms - n) / interval in
  schedules_wf self' ∧
  if decide (n ≤ now_ms) then
    filter (λ f, fire_id f = id) fires = [mk_schedule_fire id n now_ms m intent] ∧
    booked id start interval intent (k + m + 1) self'
  else filter (λ f, fire_id f = id) fires = [] ∧ booked id start interval intent k self'.
Proof.
  intros Hok Hn Hi Hb Hpoll n m.
  pose proof (wp_elim _ _ _ _ _ (poll_schedules_spec now_ms self Hok Hn) Hpoll) as (Hok'&_&->&Hb').
  split; [done|]. pose proof Hb as Hb0.
  apply list_elem_of_fmap in Hb as (x&Hx&Hin). unfold booking in Hx. injection Hx as Ht Hx.
  fold n in Ht.
  assert (Hsid : sid x = id) by (unfold sid; by rewrite <-Hx).
  assert (Hone : filter (λ y, sid y = id) (pending (schedule_queue self)) = [x]).
  { apply filter_unique; [apply pending_NoDup, Hok|done..|].
    intros y Hy Hyx. apply (sid_inj self); [done..|]. congruence. }
  assert (Hmine : filter (λ y, sid y = id) (due_at now_ms self) =
                  if decide (n ≤ now_ms) then [x] else []).
  { unfold due_at. rewrite filter_comm, Hone, filter_cons, Ht. done. }
  assert (Hm : missed_at now_ms x = m) by (unfold missed_at; by rewrite <-Hx, <-Ht).
  rewrite filter_fmap. change (filter (λ y, fire_id (fire_of now_ms y) = id) (due_at now_ms self))
    with (filter (λ y, sid y = id) (due_at now_ms self)). rewrite Hmine.
  case_decide as Hd; simpl.
  - split.
    { unfold fire_of. rewrite Hm, Hsid. by rewrite <-Hx, <-Ht. }
    unfold booked. rewrite Hb', elem_of_app. left. apply list_elem_of_bind. exists x. split.
    + unfold rebooked. rewrite <-Hx, Hm, <-Ht. apply list_elem_of_singleton. f_equal. unfold n. lia.
    + apply list_elem_of_filter. by rewrite <-Ht.
  - split; [done|]. unfold booked. rewrite Hb', elem_of_app. right.
    apply list_elem_of_filter. split; [simpl; fold n; lia|done].
Qed.

(** Every call that is not a poll keeps the other bookings. *)
Lemma schedule_at_booked id' at_ms kind intent' self id start interval intent k :
  schedules_wf self → 0 ≤ at_ms → (∀ i, kind = Every i → 0 ≤ i) →
  booked id start interval intent k self →
  schedules_wf (schedule_at id' at_ms kind intent' self).1 ∧
  booked id start interval intent k (schedule_at id' at_ms kind intent' self).1.
Proof.
  intros Hok Hat Hk Hb.
  pose proof (schedule_at_spec self id' at_ms kind intent' Hok Hat Hk) as Hs. unfold wp in Hs.
  destruct (schedule_at id' at_ms kind intent' self) as [self' [[]|e|]]; simpl in *; [| |done].
  - destruct Hs as (?&_&Hb'&_). split; [done|]. unfold booked. rewrite Hb'. by right.
  - destruct Hs as (?&Hb'&_). split; [done|]. unfold booked. by rewrite Hb'.
Qed.

(** What fired for a schedule, in order: one entry per poll that found it due. *)
Fixpoint anchored_at (start interval : Z) (k : Z) (l : list (ScheduleFire C)) : Prop :=
  match l with
  | [] => True
  | f :: l =>
      occurrence_ms f = start + k * interval ∧ 0 ≤ missed_occurrences f ∧
      start + (k + missed_occurrences f) * interval ≤ observed_at_ms f <
        start + (k + missed_occurrences f + 1) * interval ∧
      anchored_at start interval (k + missed_occurrences f + 1) l
  end.
Definition accounted_for (l : list (ScheduleFire C)) : Z :=
  foldr (λ f n, missed_occurrences f + 1 + n) 0 l.

Lemma run_schedules_spec ops id start interval intent k self self' fires :
  0 < interval → schedules_wf self → booked id start interval intent k self → 0 ≤ k → 0 ≤ start →
  Forall schedule_op_ok ops → CancelSchedule id ∉ ops →
  run_schedules ops self = Some (self', fires) →
  let mine := filter (λ f, fire_id f = id) fires in
  Forall (λ f, fire_intent f = intent) mine ∧ anchored_at start interval k mine ∧
  k + accounted_for mine = Z.max k (boundaries start interval (latest_poll ops)).
Proof.
  intros Hi. revert k self fires. induction ops as [|op ops IH]; intros k self fires Hok Hb Hk Hs Hops Hc Hrun.
  { injection Hrun as <- <-. simpl. split_and!; [constructor|done|].
    unfold boundaries. rewrite decide_False by lia. lia. }
  apply Forall_cons in Hops as [Hop Hops]. apply not_elem_of_cons in Hc as [Hc Hcs].
  destruct op as [id' at_ms kind intent'|id' now_ms delay_ms intent'|id'|now_ms]; simpl in Hrun, Hop.
  - destruct Hop as [Hat Hkind].
    destruct (schedule_at_booked id' at_ms kind intent' self id start interval intent k Hok Hat Hkind Hb).
    by eapply IH.
  - assert (schedules_wf (start_timer id' now_ms delay_ms intent' self).1 ∧
      booked id start interval intent k (start_timer id' now_ms delay_ms intent' self).1) as [??].
    { unfold start_timer, mbind, stm_bind, st_lift.
      destruct (checked U64 (now_ms + delay_ms)) as [t|] eqn:Ht; simpl; [|done].
      apply checked_Some in Ht as [<- ?]. apply schedule_at_booked; [done|lia|done..]. }
    by eapply IH.
  - pose proof (cancel_schedule_spec self id' Hok) as Hcs'.
    destruct (cancel_schedule id' self) as [self1 r]; simpl in *. destruct Hcs' as (Hok1&Hb1&_).
    eapply (IH _ self1); try done. unfold booked. rewrite Hb1. apply list_elem_of_filter.
    split; [|done]. simpl. congruence.
  - destruct (poll_schedules now_ms self) as [self1 [fires1|?|]] eqn:Hpoll; [|done..].
    destruct (run_schedules ops self1) as [[self2 later]|] eqn:Hr; [|done].
    injection Hrun as <- <-.
    destruct (poll_booked _ _ _ _ _ _ _ _ _ Hok Hop Hi Hb Hpoll) as [Hok1 Hstep].
    cbn [latest_poll]. rewrite filter_app. set (n := start + k * interval) in *.
    set (m := (now_ms - n) / interval) in *.
    assert (Hbn : ∀ t, boundaries start interval t = if decide (start ≤ t) then (t - start) / interval + 1 else 0) by done.
    case_decide as Hd; destruct Hstep as [-> Hb1].
    + assert (0 ≤ m) by (apply Z.div_pos; lia).
      destruct (IH (k + m + 1) self1 later) as (Hall&Han&Hsum); try done; [lia|].
      assert (Hmod : now_ms - n = interval * m + (now_ms - n) mod interval) by (apply Z.div_mod; lia).
      pose proof (Z.mod_pos_bound (now_ms - n) interval Hi).
      assert (Hlen : boundaries start interval now_ms = k + m + 1).
      { rewrite Hbn, decide_True by (unfold n in *; nia).
        replace (now_ms - start) with (k * interval + (now_ms - n)) by (unfold n; lia).
        rewrite Z.div_add_l by lia. fold m. lia. }
      cbn [app]. split_and!.
      * by constructor.
      * cbn [anchored_at occurrence_ms missed_occurrences observed_at_ms].
        split_and!; [done|done|unfold n in *; nia..|]. done.
      * change (accounted_for (?f :: ?l)) with (missed_occurrences f + 1 + accounted_for l).
        cbn [missed_occurrences].
        destruct (Z.max_spec now_ms (latest_poll ops)) as [[Hm ->]|[Hm ->]].
        -- pose proof (boundaries_mono start interval now_ms (latest_poll ops) Hi). lia.
        -- pose proof (boundaries_mono start interval _ _ Hi Hm). lia.
    + destruct (IH k self1 later) as (Hall&Han&Hsum); try done. cbn [app].
      split_and!; [done|done|]. rewrite Hsum.
      destruct (Z.max_spec now_ms (latest_poll ops)) as [[Hm ->]|[Hm ->]]; [done|].
      assert (boundaries start interval now_ms ≤ k).
      { rewrite Hbn. case_decide; [|lia].
        assert ((now_ms - start) / interval < k) by (apply Z.div_lt_upper_bound; unfold n in *; nia). lia. }
      pose proof (boundaries_mono start interval _ _ Hi Hm). lia.
Qed.

Lemma boundaries_nonneg start interval t : 0 < interval → 0 ≤ boundaries start interval t.
Proof.
  intros Hi. unfold boundaries. case_decide; [|lia].
  assert (0 ≤ (t - start) / interval) by (apply Z.div_pos; lia). lia.
Qed.
Lemma booked_positive id start interval intent k self :
  schedules_wf self → booked id start interval intent k self → 0 < interval.
Proof.
  intros Hok (x&Hx&Hin)%list_elem_of_fmap. injection Hx as _ Hx.
  destruct (so_interval _ _ Hok x) as [_ Hp]; [by rewrite app_nil_r|]. by rewrite <-Hx in Hp.
Qed.
Lemma schedule_at_wf id at_ms kind intent self :
  schedules_wf self → 0 ≤ at_ms → (∀ i, kind = Every i → 0 ≤ i) →
  schedules_wf (schedule_at id at_ms kind intent self).1.
Proof.
  intros Hok Hat Hk. pose proof (schedule_at_spec self id at_ms kind intent Hok Hat Hk) as Hs.
  unfold wp in Hs. by destruct (schedule_at id at_ms kind intent self) as [self1 [[]|e|]]; destruct Hs.
Qed.
Lemma start_timer_wf id now_ms delay_ms intent self :
  schedules_wf self → 0 ≤ now_ms → 0 ≤ delay_ms →
  schedules_wf (start_timer id now_ms delay_ms intent self).1.
Proof.
  intros Hok Hn Hd. unfold start_timer, mbind, stm_bind, st_lift.
  destruct (checked U64 (now_ms + delay_ms)) as [t|] eqn:Ht; simpl; [|done].
  apply checked_Some in Ht as [<- ?]. apply schedule_at_wf; [done|lia|done].
Qed.
Lemma cancel_schedule_keeps_wf id self : schedules_wf self → schedules_wf (cancel_schedule id self).1.
Proof.
  intros Hok. pose proof (cancel_schedule_spec self id Hok) as Hs.
  by destruct (cancel_schedule id self); destruct Hs.
Qed.
Lemma run_schedules_wf ops self self' fires :
  schedules_wf self → Forall schedule_op_ok ops →
  run_schedules ops self = Some (self', fires) → schedules_wf self'.
Proof.
  revert self fires. induction ops as [|op ops IH]; intros self fires Hok Hops Hrun.
  { by injection Hrun as <- <-. }
  apply Forall_cons in Hops as [Hop Hops].
  destruct op as [id at_ms kind intent|id now_ms delay_ms intent|id|now_ms]; simpl in Hrun, Hop.
  - destruct Hop. eapply IH; [|done..]. by apply schedule_at_wf.
  - destruct Hop. eapply IH; [|done..]. by apply start_timer_wf.
  - eapply IH; [|done..]. by apply cancel_schedule_keeps_wf.
  - destruct (poll_schedules now_ms self) as [self1 [fires1|?|]] eqn:Hpoll; [|done..].
    destruct (run_schedules ops self1) as [[self2 later]|] eqn:Hr; [|done]. injection Hrun as <- <-.
    eapply IH; [|done..]. apply (wp_elim _ _ _ _ _ (poll_schedules_spec now_ms self Hok Hop) Hpoll).
Qed.
Lemma run_schedules_fits ops self :
  schedules_wf self → Forall schedule_op_ok ops → polls_fit ops self →
  ∃ self' fires, run_schedules ops self = Some (self', fires).
Proof.
  revert self. induction ops as [|op ops IH]; intros self Hok Hops Hfit; [by eexists _, _|].
  apply Forall_cons in Hops as [Hop Hops].
  destruct op as [id at_ms kind intent|id now_ms delay_ms intent|id|now_ms]; simpl in Hfit, Hop |- *.
  - destruct Hop. apply IH; [|done..]. by apply schedule_at_wf.
  - destruct Hop. apply IH; [|done..]. by apply start_timer_wf.
  - apply IH; [|done..]. by apply cancel_schedule_keeps_wf.
  - destruct Hfit as [Hfit Hlater]. pose proof (poll_succeeds now_ms self Hok Hfit) as Hret.
    pose proof (poll_schedules_spec now_ms self Hok Hop) as [Hok1 _].
    destruct (poll_schedules now_ms self) as [self1 [fires1|?|]]; [|done..].
    destruct (IH self1 Hok1 Hops Hlater) as (self2&later&->). by eexists _, _.
Qed.
End schedule_history.

(** ** Triggers *)

Section triggers.
Context {C : Type}.
Implicit Types (self : TriggerEngine C) (a : ScheduledAction (PendingTrigger C)).

Definition armed_by a : string := pending_trigger_id (action a).
(** What is indexed is what is pending. *)
Record triggers_wf self : Prop := {
  tw_queue : queue_wf (trigger_queue self);
  tw_ids : ∀ i id, pending_ids self !! i = Some id ↔
    ∃ a, a ∈ pending (trigger_queue self) ∧ sa_id a = i ∧ armed_by a = id
}.

Lemma triggers_default_wf : triggers_wf triggers_default.
Proof.
  split; [apply queue_default_wf|]. intros i id. simpl. rewrite lookup_empty.
  split; [done|]. intros (a&Ha&_). by apply elem_of_nil in Ha.
Qed.

Lemma cancel_pending_spec self i :
  triggers_wf self →
  triggers_wf (cancel_pending self i) ∧ triggers (cancel_pending self i) = triggers self ∧
  pending (trigger_queue (cancel_pending self i)) =
    filter (λ a, sa_id a ≠ i) (pending (trigger_queue self)).
Proof.
  intros [Hq Hids]. destruct (cancel_pending_list _ i Hq) as (Hq'&_&Hp&_).
  split_and!; [|done..]. split; [done|]. intros j id. simpl. rewrite Hp.
  rewrite lookup_delete_Some, Hids. setoid_rewrite list_elem_of_filter. naive_solver.
Qed.
Lemma cancel_pending_list_spec self ids :
  triggers_wf self →
  let self' := foldl cancel_pending self ids in
  triggers_wf self' ∧ triggers self' = triggers self ∧
  pending (trigger_queue self') = filter (λ a, sa_id a ∉ ids) (pending (trigger_queue self)).
Proof.
  revert self. induction ids as [|i ids IH]; intros self Hwf; simpl.
  { split_and!; [done..|]. symmetry. apply filter_all. intros a _. apply not_elem_of_nil. }
  destruct (cancel_pending_spec self i Hwf) as (Hwf1&Ht1&Hp1).
  destruct (IH _ Hwf1) as (Hwf2&Ht2&Hp2). split_and!; [done|congruence|].
  rewrite Hp2, Hp1, list_filter_filter. apply list_filter_iff. intros a.
  rewrite not_elem_of_cons. tauto.
Qed.

Lemma cancel_trigger_spec self id :
  triggers_wf self →
  let self' := (cancel_trigger id self).1 in
  triggers_wf self' ∧ triggers self' = triggers self ∧
  pending (trigger_queue self') = filter (λ a, armed_by a ≠ id) (pending (trigger_queue self)).
Proof.
  intros Hwf. unfold cancel_trigger. simpl.
  destruct (cancel_pending_list_spec self (filter (λ p, p.2 = id) (map_to_list (pending_ids self))).*1 Hwf)
    as (?&?&Hp). split_and!; [done..|]. rewrite Hp. apply list_filter_iff_elem. intros a Ha.
  rewrite list_elem_of_fmap. setoid_rewrite list_elem_of_filter. split.
  - intros Hn Heq. apply Hn. exists (sa_id a, id). split; [done|]. split; [done|].
    apply elem_of_map_to_list, (tw_ids _ Hwf). by exists a.
  - intros Hne ([i id']&Hi&Hid&Hin). simpl in *. subst id'.
    apply elem_of_map_to_list, (tw_ids _ Hwf) in Hin as (b&Hb&Hbi&Hbid).
    assert (a = b); [|congruence]. apply (pending_same (trigger_queue self)); [apply Hwf|done..|congruence].
Qed.
(** Removing a trigger takes it off the registry and out of the queue. *)
Lemma remove_trigger_spec self id :
  triggers_wf self →
  let '(self', removed) := remove_trigger id self in
  triggers_wf self' ∧ triggers self' = filter (λ t, trigger_id t ≠ id) (triggers self) ∧
  (removed = false → self' = self ∧ ∀ t, t ∈ triggers self → trigger_id t ≠ id) ∧
  (removed = true → pending (trigger_queue self') =
     filter (λ a, armed_by a ≠ id) (pending (trigger_queue self))).
Proof.
  intros Hwf. unfold remove_trigger. case_decide as Hlen.
  - assert (Hkept : ∀ t, t ∈ triggers self → trigger_id t ≠ id).
    { intros t Ht Heq. pose proof (length_filter_lt (λ t, trigger_id t ≠ id) (triggers self) t Ht).
      destruct (Nat.lt_irrefl (length (triggers self))). rewrite <-Hlen at 1. naive_solver. }
    split_and!; [done|symmetry; by apply filter_all|done|done].
  - set (self1 := mk_triggers _ _ _). assert (Hwf1 : triggers_wf self1) by (destruct Hwf; by split).
    destruct (cancel_trigger_spec self1 id Hwf1) as (?&?&?). by split_and!.
Qed.

Lemma insert_trigger_spec self t :
  triggers_wf self →
  wp (insert_trigger t) (λ r self',
    triggers_wf self' ∧ trigger_queue self' = trigger_queue self ∧
    match r with
    | Ret _ => triggers self' = triggers self ++ [t] ∧ trigger_intents t ≠ [] ∧
        (∀ t', t' ∈ triggers self → trigger_id t' ≠ trigger_id t)
    | Throw _ => self' = self
    | Panic => False
    end) self.
Proof.
  intros Hwf. unfold insert_trigger. wp_run; try by split_and!.
  split; [destruct Hwf; by split|]. split_and!; try done. by apply Forall_forall.
Qed.

(** What an event arms. *)
Definition armed_action (event : AutomationEvent) (m : Trigger C * Z) : FrameNumber * PendingTrigger C :=
  (m.2, mk_pending_trigger (trigger_id m.1) (timestamp_ms event) (trigger_intents m.1)
          (trigger_conditions m.1)).
Definition arming a : FrameNumber * PendingTrigger C := (target_frame a, action a).

(** The loop, where [n0] is the sequence of the queue before it: it arms every match
    or, when the queue refuses one, none. *)
Lemma arm_matches_spec event l n0 (p0 : list (ScheduledAction (PendingTrigger C))) ids self :
  triggers_wf self → n0 ≤ next_sequence (trigger_queue self) →
  filter (λ a, sa_id a ≤ n0) (pending (trigger_queue self)) = p0 →
  (∀ a, a ∈ pending (trigger_queue self) → n0 < sa_id a ↔ sa_id a ∈ ids) →
  wp (arm_matches event ids l) (λ r self',
    triggers_wf self' ∧ triggers self' = triggers self ∧
    match r with
    | Ret _ => arming <$> pending (trigger_queue self') ≡ₚ
        (armed_action event <$> l) ++ (arming <$> pending (trigger_queue self))
    | Throw _ => pending (trigger_queue self') = p0
    | Panic => False
    end) self.
Proof.
  revert ids self. induction l as [|[t due] l IH]; intros ids self Hwf Hn Hp0 Hids; simpl.
  { apply wp_ret. by split_and!. }
  unfold wp. set (x := mk_pending_trigger _ _ _ _).
  pose proof (schedule_spec due x (trigger_queue self) (tw_queue _ Hwf)) as Hs.
  destruct (schedule due x (trigger_queue self)) as [q [i|e|]]; [| |done].
  - destruct Hs as (Hq&->&Hseq&Hp). set (i := next_sequence (trigger_queue self) + 1) in *.
    set (self1 := mk_triggers _ q _).
    assert (Hfresh : ∀ a, a ∈ pending (trigger_queue self) → sa_id a ≤ i - 1).
    { intros a Ha. pose proof (pending_id _ _ (tw_queue _ Hwf) Ha). lia. }
    assert (Hwf1 : triggers_wf self1).
    { split; [done|]. intros j id. simpl. rewrite Hp, lookup_insert_Some.
      setoid_rewrite elem_of_spec_insert. rewrite (tw_ids _ Hwf). split.
      - intros [[<- <-]|(_&a&?&?&?)]; eauto.
      - intros (a&[->|Ha]&<-&<-); [by left|]. right. split; [|eauto].
        apply Hfresh in Ha. lia. }
    pose proof (IH (ids ++ [i]) self1 Hwf1) as IH1. unfold wp in IH1. simpl in IH1.
    destruct IH1 as (Hwf2&Ht2&Hr2).
    + lia.
    + rewrite Hp, filter_spec_insert by apply Hwf. rewrite decide_False; [done|]. simpl. lia.
    + intros a. rewrite Hp, elem_of_spec_insert, elem_of_app, list_elem_of_singleton.
      intros [->|Ha]; simpl; [split; [by right|lia]|]. rewrite (Hids a Ha).
      split; [by left|]. intros [?|Heq]; [done|]. apply Hfresh in Ha. lia.
    + split; [done|]. split; [done|]. destruct (arm_matches _ _ _ self1) as [self' [r|e|]]; simpl in *; [|done..].
      rewrite Hr2, Hp, spec_insert_Permutation, fmap_cons. symmetry. apply Permutation_middle.
  - subst q. set (self1 := set_trigger_queue _ self).
    assert (Hwf1 : triggers_wf self1) by (destruct Hwf; by split).
    destruct (cancel_pending_list_spec self1 ids Hwf1) as (?&?&Hp). simpl.
    split_and!; [done..|]. rewrite Hp, <-Hp0. apply list_filter_iff_elem. intros a Ha.
    rewrite <-(Hids a Ha). lia.
Qed.
(** An event arms every trigger that matches it, or none. *)
Lemma ingest_spec self event :
  triggers_wf self →
  wp (ingest event) (λ r self',
    triggers_wf self' ∧ triggers self' = triggers self ∧
    match r with
    | Ret _ => ∃ l, matching event (triggers self) = Ok l ∧
        arming <$> pending (trigger_queue self') ≡ₚ
        (armed_action event <$> l) ++ (arming <$> pending (trigger_queue self))
    | Throw _ => pending (trigger_queue self') = pending (trigger_queue self)
    | Panic => False
    end) self.
Proof.
  intros Hwf. unfold ingest. wp_run; [|done].
  eapply wp_mono.
  { apply (arm_matches_spec event a (next_sequence (trigger_queue self))
             (pending (trigger_queue self))); [done|lia| |].
    - apply filter_all. intros x Hx. by apply pending_id in Hx as [_ ?]; [|apply Hwf].
    - intros x Hx. apply pending_id in Hx; [|apply Hwf]. split; [lia|]. by intros ?%elem_of_nil. }
  intros [ids|e|] self' (?&?&?); split_and!; eauto.
Qed.
Lemma matching_elem event l m (x : Trigger C * Z) :
  matching event l = Ok m → x ∈ m →
  x.1 ∈ l ∧ filter_matches event (trigger_filter x.1) = true ∧
  x.2 = timestamp_ms event + trigger_delay_ms x.1.
Proof.
  intros Hm Hx. destruct (mapM_result_elem _ _ _ _ Hm Hx) as (t&Ht&Hf).
  apply list_elem_of_filter in Ht as [Hfm Ht]. apply result_bind_Ok in Hf as (due&Hd&[= <-]).
  by apply ok_or_Ok, checked_Some in Hd as [<- _].
Qed.

(** What is due among the triggers: what was armed for [now_ms] or before and whose
    conditions all hold in [state]. *)
Definition due_triggers (now_ms : Z) (state : ConditionContext) self : list (TriggerFire C) :=
  (λ a, mk_trigger_fire (armed_by a) (pending_event_ms (action a)) (target_frame a)
          (pending_intents (action a))) <$>
  filter (λ a, target_frame a ≤ now_ms ∧
    Forall (λ condition, evaluate state condition = true) (pending_conditions (action a)))
    (pending (trigger_queue self)).
Lemma conditions_match_all conditions state :
  conditions_match conditions state = true ↔
  Forall (λ condition, evaluate state condition = true) conditions.
Proof.
  unfold conditions_match. rewrite forallb_forall, Forall_forall.
  by setoid_rewrite list_elem_of_In.
Qed.
Lemma poll_triggers_due self now_ms state :
  triggers_wf self → (poll_triggers now_ms state self).2 = due_triggers now_ms state self.
Proof.
  intros Hwf. unfold poll_triggers, due_triggers.
  destruct (drain_due now_ms (trigger_queue self)) as [q due] eqn:Hd.
  apply drain_filter in Hd as (_&_&->&_&_); [|apply Hwf]. simpl.
  induction (pending (trigger_queue self)) as [|a l IH]; [done|].
  rewrite !filter_cons. destruct (decide (target_frame a ≤ now_ms)) as [Ha|Ha].
  - simpl. destruct (conditions_match (pending_conditions (action a)) state) eqn:Hm.
    + rewrite decide_True by (split; [done|by apply conditions_match_all]). simpl.
      f_equal. exact IH.
    + rewrite decide_False; [exact IH|]. intros [_ Hc%conditions_match_all]. congruence.
  - rewrite decide_False by tauto. exact IH.
Qed.
Lemma poll_triggers_spec self now_ms state :
  triggers_wf self →
  let '(self', fires) := poll_triggers now_ms state self in
  triggers_wf self' ∧ triggers self' = triggers self ∧
  pending (trigger_queue self') = filter (λ a, now_ms < target_frame a) (pending (trigger_queue self)) ∧
  (∀ f, f ∈ fires → ∃ a, a ∈ pending (trigger_queue self) ∧ target_frame a ≤ now_ms ∧
     f = mk_trigger_fire (armed_by a) (pending_event_ms (action a)) (target_frame a)
           (pending_intents (action a))).
Proof.
  intros Hwf. unfold poll_triggers.
  destruct (drain_due now_ms (trigger_queue self)) as [q due] eqn:Hd.
  apply drain_filter in Hd as (Hq&_&Hdue&Hp&Hall); [|apply Hwf].
  assert (Hdel : ∀ (l : list (ScheduledAction (PendingTrigger C))) (m : gmap ActionId string) i id,
    foldl (λ ids scheduled, delete (sa_id scheduled) ids) m l !! i = Some id ↔
    (i ∉ sa_id <$> l) ∧ m !! i = Some id).
  { intros l. induction l as [|a l IH]; intros m i id; simpl.
    - split; [|tauto]. intros ?. split; [apply not_elem_of_nil|done].
    - rewrite IH, lookup_delete_Some, not_elem_of_cons. naive_solver. }
  split; [split; [done|]|split_and!; [done..|]].
  - intros i id. simpl. rewrite Hdel, (tw_ids _ Hwf), Hall. setoid_rewrite elem_of_app.
    pose proof (pending_ids_NoDup _ (tw_queue _ Hwf)) as Hnd. rewrite Hall, fmap_app in Hnd.
    apply NoDup_app in Hnd as (_&Hdisj&_). split.
    + intros [Hn (a&[Ha|Ha]&<-&Hid)]; [|eauto]. destruct Hn. by apply list_elem_of_fmap_2.
    + intros (a&Ha&<-&Hid). split; [|eauto]. intros Hin. apply (Hdisj _ Hin).
      by apply list_elem_of_fmap_2.
  - intros f (a&Ha&Hf)%list_elem_of_omap. rewrite Hdue in Ha. apply list_elem_of_filter in Ha as [??].
    destruct (conditions_match _ _); [|done]. injection Hf as <-. by exists a.
Qed.
End triggers.

(** ** Programmed GO lists *)

Section go.
Context {C : Type}.
Implicit Types (self : GoEngine C) (a : ScheduledAction (PendingGo C)).

(** What [ProgrammedGo::new] promises: actions, in the order of their offsets. *)
Definition program_ok (p : ProgrammedGo C) : Prop :=
  go_actions p ≠ [] ∧ Forall (λ x, 0 ≤ offset_ms x) (go_actions p) ∧
  StronglySorted (λ x y, offset_ms x ≤ offset_ms y) (go_actions p).

Definition delays_ok (l : list (GoAction C)) : Prop :=
  Forall (λ x, match x with Delay d => 0 ≤ d | GoIntent _ => True end) l.
Lemma plan_go_spec l offset planned r :
  delays_ok l → 0 ≤ offset →
  Forall (λ x, 0 ≤ offset_ms x ≤ offset) planned →
  StronglySorted (λ x y, offset_ms x ≤ offset_ms y) planned →
  plan_go offset planned l = Ok r →
  Forall (λ x, 0 ≤ offset_ms x ≤ r.2) r.1 ∧ StronglySorted (λ x y, offset_ms x ≤ offset_ms y) r.1.
Proof.
  revert offset planned. induction l as [|[intent|d] l IH]; intros offset planned Hl Ho Hp Hs; simpl.
  - by intros [= <-].
  - apply Forall_cons in Hl as [_ Hl]. case_decide; [done|]. apply IH; [done|done| |].
    + apply Forall_app. split; [done|]. constructor; [simpl; lia|constructor].
    + apply StronglySorted_app. split; [|split; [done|by repeat constructor]].
      intros x y Hx ->%list_elem_of_singleton. simpl. rewrite Forall_forall in Hp.
      by apply Hp in Hx as [_ ?].
  - apply Forall_cons in Hl as [Hd Hl]. intros (o&Hc&Hr)%result_bind_Ok.
    apply ok_or_Ok, checked_Some in Hc as [<- _]. apply IH in Hr; [done|done|lia| |done].
    eapply Forall_impl; [exact Hp|]. simpl. lia.
Qed.
Lemma programmed_new_ok l p : delays_ok l → programmed_new l = Ok p → program_ok p.
Proof.
  intros Hl ([planned offset]&Hp&Hr)%result_bind_Ok. case_decide; [done|]. injection Hr as <-.
  apply plan_go_spec in Hp as [Hf Hs]; [|done|done|constructor..]. split_and!; [done| |done].
  eapply Forall_impl; [exact Hf|]. simpl. lia.
Qed.

Definition run_of a : Z := go_run (action a).
Definition step_of a : FrameNumber * PlannedGoAction C := (target_frame a, go_action (action a)).
(** What is left of a run, in the order it will fire. *)
Definition run_left (r : Z) self : list (FrameNumber * PlannedGoAction C) :=
  step_of <$> filter (λ a, run_of a = r) (pending (go_queue self)).

(** The engine while [due] is being processed. *)
Record go_ok self (due : list (ScheduledAction (PendingGo C))) : Prop := {
  go_queue_wf : queue_wf (go_queue self);
  go_ids : ∀ r i, i ∈ default [] (action_ids self !! r) ↔
    ∃ a, a ∈ pending (go_queue self) ++ due ∧ sa_id a = i ∧ run_of a = r;
  go_active : ∀ r, r ∈ active self ↔ is_Some (action_ids self !! r);
  go_nonempty : ∀ r, action_ids self !! r ≠ Some [];
  go_bound : ∀ r, r ∈ active self → 0 < r ≤ next_run_id self;
  go_sequence : in_ty U64 (next_run_id self);
  go_programs : ∀ input p, programs self !! input = Some p → program_ok p;
  go_NoDup : NoDup (sa_id <$> pending (go_queue self) ++ due)
}.
Definition go_wf self : Prop := go_ok self [].

Lemma go_default_wf : go_wf go_default.
Proof.
  split; simpl; try done.
  - apply queue_default_wf.
  - intros r i. rewrite lookup_empty. simpl. split; [by intros ?%elem_of_nil|].
    intros (a&Ha&_). by apply elem_of_nil in Ha.
  - intros r. rewrite lookup_empty. split; [set_solver|by intros []].
  - constructor.
Qed.

(** Whoever has something pending is active. *)
Lemma go_pending_active self due a :
  go_ok self due → a ∈ pending (go_queue self) ++ due → run_of a ∈ active self.
Proof.
  intros Hok Ha. apply (go_active _ _ Hok).
  assert (Hin : sa_id a ∈ default [] (action_ids self !! run_of a)) by (apply (go_ids _ _ Hok); eauto).
  destruct (action_ids self !! run_of a); [by eexists|by apply elem_of_nil in Hin].
Qed.
Lemma go_active_left self r : go_wf self → r ∈ active self ↔ run_left r self ≠ [].
Proof.
  intros Hok. pose proof (go_ids _ _ Hok r) as Hids. rewrite app_nil_r in Hids. split.
  - intros Ha%(go_active _ _ Hok) Hnil. destruct Ha as [[|i ids] Ha].
    { by apply (go_nonempty _ _ Hok r). }
    rewrite Ha in Hids. destruct (Hids i) as [[a (Hp&_&Hr)] _]; [by left|].
    assert (Hin : step_of a ∈ run_left r self); [|by rewrite Hnil in Hin; apply elem_of_nil in Hin].
    by apply list_elem_of_fmap_2, list_elem_of_filter.
  - intros Hne. unfold run_left in Hne. destruct (filter _ _) as [|a l] eqn:Hf; [done|].
    assert (Ha : a ∈ filter (λ a, run_of a = r) (pending (go_queue self))) by (rewrite Hf; by left).
    apply list_elem_of_filter in Ha as [<- Ha]. apply (go_pending_active _ []); [done|].
    by rewrite app_nil_r.
Qed.

Lemma program_spec self input p :
  go_wf self → program_ok p →
  go_wf (program input p self).1 ∧ ∀ r, run_left r (program input p self).1 = run_left r self.
Proof.
  intros [] Hp. split; [|done]. split; simpl; try done.
  intros j p'. rewrite lookup_insert_Some. naive_solver.
Qed.

(** Cancelling a run takes out what is left of it. *)
Lemma go_cancel_spec self r :
  go_wf self →
  let self' := (go_cancel r self).1 in
  go_wf self' ∧ (r ∉ active self') ∧ (∀ r', r' ≠ r → (r' ∈ active self' ↔ r' ∈ active self)) ∧
  pending (go_queue self') = filter (λ a, run_of a ≠ r) (pending (go_queue self)).
Proof.
  intros Hok. unfold go_cancel. pose proof Hok as [Hq Hids Hact Hne Hb Hseq Hpr Hnd].
  rewrite app_nil_r in Hids, Hnd. case_decide as Ha; simpl.
  - destruct (cancel_list _ (default [] (action_ids self !! r)) Hq) as (Hq'&_&Hp).
    assert (Hp' : pending (foldl (λ q id, (cancel id q).1) (go_queue self)
      (default [] (action_ids self !! r))) = filter (λ a, run_of a ≠ r) (pending (go_queue self))).
    { rewrite Hp. apply list_filter_iff_elem. intros a Hin. rewrite Hids. split.
      - intros Hn Hr. apply Hn. eauto.
      - intros Hn (b&Hbin&Hab&Hbr). apply Hn. assert (a = b) as ->; [|done].
        by apply (pending_same (go_queue self)). }
    split; [split; simpl|split_and!].
    + done.
    + intros r' i. rewrite app_nil_r, Hp'. setoid_rewrite list_elem_of_filter.
      destruct (decide (r = r')) as [<-|Hr].
      * rewrite lookup_delete_eq. simpl. split; [by intros ?%elem_of_nil|naive_solver].
      * rewrite lookup_delete_ne by done. rewrite Hids. naive_solver.
    + intros r'. rewrite elem_of_difference, Hact, lookup_delete_is_Some. set_solver.
    + intros r' Hr'. apply lookup_delete_Some in Hr' as [_ Hr']. by apply Hne in Hr'.
    + intros r'. rewrite elem_of_difference. intros [? _]. by apply Hb.
    + done.
    + done.
    + rewrite app_nil_r, Hp'. eapply sublist_NoDup; [exact Hnd|]. apply fmap_sublist, sublist_filter.
    + set_solver.
    + set_solver.
    + done.
  - split_and!; [done..|]. symmetry. apply filter_all. intros a Hin Hr. apply Ha. rewrite <-Hr.
    apply (go_pending_active _ []); [done|]. by rewrite app_nil_r.
Qed.

(** *** Polling *)

Definition go_fire a : GoActionFire C := mk_go_fire (run_of a) (target_frame a) (go_action (action a)).

Lemma fire_go_spec a due self :
  go_ok self (a :: due) →
  let '(self', fire) := fire_go a self in
  go_ok self' due ∧ fire = Some (go_fire a) ∧ go_queue self' = go_queue self ∧
  next_run_id self' = next_run_id self ∧ programs self' = programs self ∧
  starts self' = starts self ∧ start_order self' = start_order self ∧
  active self' ⊆ active self.
Proof.
  intros Hok. unfold fire_go. pose proof Hok as [Hq Hids Hact Hne Hb Hseq Hpr Hnd].
  assert (Hin : a ∈ pending (go_queue self) ++ a :: due) by set_solver.
  rewrite decide_True by (by apply (go_pending_active _ (a :: due))).
  assert (Ha : sa_id a ∈ default [] (action_ids self !! run_of a)) by (apply Hids; eauto).
  fold (run_of a). destruct (action_ids self !! run_of a) as [ids|] eqn:Hr; [|by apply elem_of_nil in Ha].
  simpl in Ha. rewrite <-Permutation_middle, fmap_cons in Hnd. apply NoDup_cons in Hnd as [Hnew Hnd].
  set (rest := filter (λ i, i ≠ sa_id a) ids).
  assert (Hrest : ∀ i, i ∈ rest ↔
    ∃ b, b ∈ pending (go_queue self) ++ due ∧ sa_id b = i ∧ run_of b = run_of a).
  { intros i. unfold rest. rewrite list_elem_of_filter.
    pose proof (Hids (run_of a) i) as Hi. rewrite Hr in Hi. simpl in Hi. rewrite Hi. split.
    - intros [Hi' (b&Hbin&<-&Hbr)]. exists b. split; [|done]. rewrite <-Permutation_middle in Hbin.
      by apply elem_of_cons in Hbin as [->|].
    - intros (b&Hbin&<-&Hbr). split; [|exists b; set_solver].
      intros Heq. apply Hnew. rewrite <-Heq. by apply list_elem_of_fmap_2. }
  assert (Hother : ∀ r i, r ≠ run_of a → i ∈ default [] (action_ids self !! r) ↔
    ∃ b, b ∈ pending (go_queue self) ++ due ∧ sa_id b = i ∧ run_of b = r).
  { intros r i Hra. rewrite Hids. setoid_rewrite <-Permutation_middle. split.
    - intros (b&[->|Hbin]%elem_of_cons&?&?); [done|eauto].
    - intros (b&?&?&?). exists b. set_solver. }
  case_decide as Hnil; (split; [|by split_and!; simpl; set_solver]); split; simpl; try done.
  - intros r i. destruct (decide (r = run_of a)) as [->|Hra].
    + rewrite lookup_delete_eq. simpl. rewrite <-Hrest, Hnil. done.
    + rewrite lookup_delete_ne by done. by apply Hother.
  - intros r. rewrite elem_of_difference, lookup_delete_is_Some, <-Hact. set_solver.
  - intros r Hr'. apply lookup_delete_Some in Hr' as [_ Hr']. by apply Hne in Hr'.
  - intros r. rewrite elem_of_difference. intros [? _]. by apply Hb.
  - intros r i. destruct (decide (r = run_of a)) as [->|Hra].
    + rewrite lookup_insert_eq. simpl. apply Hrest.
    + rewrite lookup_insert_ne by done. by apply Hother.
  - intros r. rewrite Hact, lookup_insert_is_Some. destruct (decide (run_of a = r)); [|naive_solver].
    subst. rewrite Hr. naive_solver.
  - intros r. rewrite lookup_insert_Some. intros [[_ ?]|[_ Hr']]; [done|]. by apply Hne in Hr'.
Qed.
Lemma fire_all_spec due self :
  go_ok self due →
  let '(self', fires) := fire_all due self in
  go_wf self' ∧ fires = go_fire <$> due ∧ go_queue self' = go_queue self ∧
  next_run_id self' = next_run_id self ∧ programs self' = programs self ∧
  starts self' = starts self ∧ start_order self' = start_order self ∧
  active self' ⊆ active self.
Proof.
  revert self. induction due as [|a due IH]; intros self Hok; simpl; [done|].
  pose proof (fire_go_spec a due self Hok) as Hf.
  destruct (fire_go a self) as [self1 fire]. destruct Hf as (Hok1&->&?&?&?&?&?&?).
  pose proof (IH self1 Hok1) as Hi. destruct (fire_all due self1) as [self2 fires].
  destruct Hi as (?&->&?&?&?&?&?&?). split_and!; try done; try congruence. set_solver.
Qed.
(** What is due among the actions of the runs. *)
Definition due_steps (now_ms : Z) self : list (GoActionFire C) :=
  go_fire <$> filter (λ a, target_frame a ≤ now_ms) (pending (go_queue self)).
Lemma poll_go_spec self now_ms :
  go_wf self →
  let '(self', fires) := poll_go now_ms self in
  go_wf self' ∧ fires = due_steps now_ms self ∧
  pending (go_queue self') = filter (λ a, now_ms < target_frame a) (pending (go_queue self)) ∧
  next_run_id self' = next_run_id self ∧ programs self' = programs self ∧
  starts self' = starts self ∧ start_order self' = start_order self ∧
  active self' ⊆ active self.
Proof.
  intros Hok. unfold poll_go. destruct (drain_due now_ms (go_queue self)) as [q due] eqn:Hd.
  apply drain_filter in Hd as (Hq&_&Hdue&Hp&Hall); [|apply Hok].
  assert (Hperm : pending q ++ due ≡ₚ pending (go_queue self) ++ []).
  { by rewrite app_nil_r, Hall, Permutation_app_comm. }
  pose proof (fire_all_spec due (set_go_queue q self)) as Hf.
  destruct (fire_all due (set_go_queue q self)) as [self' fires].
  destruct Hf as (?&?&Hq'&?&?&?&?&?).
  - destruct Hok as [? Hids ? ? ? ? ? Hnd]. split; simpl; try done.
    + intros r i. rewrite Hids. by setoid_rewrite Hperm.
    + by rewrite Hperm.
  - rewrite Hq'. unfold due_steps. simpl. rewrite <-Hdue, <-Hp. by split_and!.
Qed.
End go.

(** *** Starting *)

Section go_start.
Context {C : Type}.
Implicit Types (self : GoEngine C) (a : ScheduledAction (PendingGo C)).

Lemma spec_insert_last {A} (a : ScheduledAction A) l :
  (∀ b, b ∈ l → target_frame b ≤ target_frame a) → spec_insert a l = l ++ [a].
Proof.
  intros Hl. unfold spec_insert. rewrite filter_all by done. f_equal. f_equal.
  apply filter_none. intros b Hb%Hl. lia.
Qed.

(** What a run [r] of the actions [l], started at [now_ms], is on the queue. *)
Definition planned_at (now_ms : Z) (l : list (PlannedGoAction C)) : list (FrameNumber * PlannedGoAction C) :=
  (λ x, (now_ms + offset_ms x, x)) <$> l.

(** [ids] are the actions of the run [r] on the queue. *)
Definition ids_of (r : Z) (ids : list ActionId) (q : ActionQueue (PendingGo C)) : Prop :=
  ∀ i, i ∈ ids ↔ ∃ a, a ∈ pending q ∧ sa_id a = i ∧ run_of a = r.
Lemma ids_of_elem r ids q a :
  queue_wf q → ids_of r ids q → a ∈ pending q → sa_id a ∈ ids ↔ run_of a = r.
Proof.
  intros Hq Hids Ha. rewrite (Hids (sa_id a)). split; [|eauto]. intros (b&Hb&Hab&<-).
  by rewrite (pending_same q a b).
Qed.

(** The loop, where [n0] is the sequence of the queue before it: it puts every
    action of the run on the queue or, when the queue refuses one, none. *)
Lemma schedule_run_spec r l n0 (p0 : list (ScheduledAction (PendingGo C))) ids self :
  queue_wf (go_queue self) → n0 ≤ next_sequence (go_queue self) →
  filter (λ a, sa_id a ≤ n0) (pending (go_queue self)) = p0 →
  (∀ a, a ∈ pending (go_queue self) → run_of a = r ↔ n0 < sa_id a) →
  ids_of r ids (go_queue self) →
  (∀ a x, a ∈ pending (go_queue self) → run_of a = r → x ∈ l → target_frame a ≤ x.2) →
  StronglySorted (λ x y : PlannedGoAction C * Z, x.2 ≤ y.2) l →
  wp (schedule_run r ids l) (λ res self',
    ∃ q, self' = set_go_queue q self ∧ queue_wf q ∧
    match res with
    | Ret ids' =>
        ids_of r ids' q ∧
        run_left r (set_go_queue q self) = run_left r self ++ ((λ x, (x.2, x.1)) <$> l) ∧
        (∀ r', r' ≠ r → filter (λ a, run_of a = r') (pending q) =
                        filter (λ a, run_of a = r') (pending (go_queue self)))
    | Throw _ => pending q = p0
    | Panic => False
    end) self.
Proof.
  revert ids self. induction l as [|[x t] l IH]; intros ids self Hq Hn Hp0 Hrun Hids Ht Hs; simpl.
  { apply wp_ret. exists (go_queue self). split; [by destruct self|]. split; [done|].
    split_and!; [done..| |done]. rewrite app_nil_r. by destruct self. }
  apply StronglySorted_cons in Hs as [Hx Hs]. unfold wp.
  set (x' := mk_pending_go r x).
  pose proof (schedule_spec t x' (go_queue self) Hq) as Hsp.
  destruct (schedule t x' (go_queue self)) as [q [i|e|]]; [| |done].
  - destruct Hsp as (Hq1&->&Hseq&Hp). set (i := next_sequence (go_queue self) + 1) in *.
    set (new := mk_action i t x') in *.
    assert (Hfresh : ∀ a, a ∈ pending (go_queue self) → sa_id a < i).
    { intros a Ha. pose proof (pending_id _ _ Hq Ha). lia. }
    assert (Hids1 : ids_of r (ids ++ [i]) q).
    { intros j. rewrite elem_of_app, list_elem_of_singleton, (Hids j), Hp.
      setoid_rewrite elem_of_spec_insert. split.
      - intros [(a&?&?&?)| ->]; [eauto|]. exists new. by split_and!; [left|..].
      - intros (a&[->|Ha]&<-&Hr); [by right|left; eauto]. }
    pose proof (IH (ids ++ [i]) (set_go_queue q self)) as IH1. unfold wp in IH1. simpl in IH1.
    destruct IH1 as (q2&Hq2&Hwf2&Hr2); try done.
    + lia.
    + rewrite Hp, filter_spec_insert by done. rewrite decide_False; [done|]. simpl. lia.
    + intros a. rewrite Hp, elem_of_spec_insert. intros [->|Ha]; [|by apply Hrun].
      simpl. split; [lia|done].
    + intros a y. rewrite Hp, elem_of_spec_insert. intros [->|Ha] Hr Hy.
      * rewrite Forall_forall in Hx. by apply Hx in Hy.
      * apply (Ht a y); [done..|by right].
    + exists q2. split; [done|]. split; [done|].
      destruct (schedule_run r (ids ++ [i]) l (set_go_queue q self)) as [self' [ids'|e|]];
        simpl in *; [|done..].
      destruct Hr2 as (H1&H3&H4). split_and!.
      * done.
      * change (run_left r (set_go_queue q2 self)) with (run_left r (set_go_queue q2 (set_go_queue q self))).
        rewrite H3. unfold run_left at 1. simpl. rewrite Hp, filter_spec_insert by done.
        rewrite decide_True by done. rewrite spec_insert_last.
        { rewrite fmap_app. by rewrite <-(assoc_L (++)). }
        intros b [Hb Hbin]%list_elem_of_filter. apply (Ht b (x, t)); [done..|by left].
      * intros r' Hr'. rewrite H4 by done. rewrite Hp, filter_spec_insert by done.
        rewrite decide_False; [done|]. intros Heq. apply Hr'. by rewrite <-Heq.
  - subst q. destruct (cancel_list (go_queue self) ids Hq) as (Hq'&_&Hp). simpl.
    eexists. split; [done|]. split; [done|]. rewrite Hp, <-Hp0. apply list_filter_iff_elem.
    intros a Ha. rewrite (ids_of_elem r ids (go_queue self)), Hrun by done. lia.
Qed.

(** What [start] keeps of the receipts. *)
Record receipts_ok self : Prop := {
  ro_NoDup : NoDup (start_order self);
  ro_order : ∀ k, k ∈ start_order self ↔ is_Some (starts self !! k);
  ro_size : (length (start_order self) ≤ MAX_GO_START_RECEIPTS)%nat;
  ro_runs : ∀ k input r, starts self !! k = Some (input, r) →
    0 < r ≤ next_run_id self ∧ is_Some (programs self !! input)
}.

Lemma receipts_count (order : list string) (m : gmap string (Z * Z)) :
  NoDup order → (∀ k, k ∈ order ↔ is_Some (m !! k)) → size m = length order.
Proof.
  intros Hnd Hk. rewrite <-size_dom, <-(size_list_to_set (C := gset string) order Hnd).
  apply set_size_proper. intros k. by rewrite elem_of_dom, elem_of_list_to_set, Hk.
Qed.
(** At most the oldest receipt expires, and only at the bound. *)
Lemma expire_starts_spec order (m : gmap string (Z * Z)) :
  NoDup order → (∀ k, k ∈ order ↔ is_Some (m !! k)) →
  (length order ≤ MAX_GO_START_RECEIPTS)%nat →
  ∃ old kept, order = old ++ kept ∧ (length kept < MAX_GO_START_RECEIPTS)%nat ∧
    (old = [] ∨ length order = MAX_GO_START_RECEIPTS ∧ length old = 1%nat) ∧
    expire_starts order m = (kept, foldr delete m old).
Proof.
  intros Hnd Hk Hlen. pose proof (receipts_count order m Hnd Hk) as Hs.
  destruct (decide (MAX_GO_START_RECEIPTS ≤ length order)%nat) as [Hfull|Hfree].
  - destruct order as [|k order]; [unfold MAX_GO_START_RECEIPTS in *; simpl in *; lia|].
    exists [k], order. apply NoDup_cons in Hnd as [Hkn Hnd]. simpl in Hlen, Hfull, Hs.
    split_and!; [done|lia|right; split; [simpl; lia|done]|]. cbn [expire_starts].
    rewrite decide_True by lia.
    assert (Hk' : ∀ k', k' ∈ order ↔ is_Some (delete k m !! k')).
    { intros k'. rewrite lookup_delete_is_Some, <-Hk, elem_of_cons. split; [|naive_solver].
      intros Hin. split; [|by right]. by intros ->. }
    pose proof (receipts_count order _ Hnd Hk') as Hs'. cbn [foldr].
    assert (Hfree : (size (delete k m) < MAX_GO_START_RECEIPTS)%nat) by lia.
    by destruct order; cbn [expire_starts]; [case_decide|rewrite decide_False by lia].
  - exists [], order. split_and!; [done|lia|by left|].
    by destruct order; cbn [expire_starts foldr]; [case_decide|rewrite decide_False by lia].
Qed.
Lemma foldr_delete_lookup (old : list string) (m : gmap string (Z * Z)) k :
  foldr delete m old !! k = if decide (k ∈ old) then None else m !! k.
Proof.
  induction old as [|o old IH]; simpl; [done|].
  destruct (decide (o = k)) as [->|Hne].
  - rewrite lookup_delete_eq, decide_True by set_solver. done.
  - rewrite lookup_delete_ne, IH by done. repeat case_decide; set_solver.
Qed.

(** The receipt of [key] outlives [n] more starts. *)
Definition receipt_lasts (key : string) (n : nat) self : Prop :=
  ∃ before after, start_order self = before ++ key :: after ∧
    (length after + n < MAX_GO_START_RECEIPTS)%nat.

Lemma remember_start_spec key input r self :
  receipts_ok self → starts self !! key = None → 0 < r → r = next_run_id self →
  is_Some (programs self !! input) →
  let self' := remember_start key input r self in
  receipts_ok self' ∧ starts self' !! key = Some (input, r) ∧
  self' = mk_go (programs self) (go_queue self) (action_ids self) (active self)
    (starts self') (start_order self') (next_run_id self) ∧
  receipt_lasts key (MAX_GO_START_RECEIPTS - 1) self' ∧
  (∀ k n, receipt_lasts k (S n) self → receipt_lasts k n self' ∧ starts self' !! k = starts self !! k).
Proof.
  intros [Hnd Hord Hlen Hruns] Hkey Hr Hnext Hprog. unfold remember_start.
  destruct (expire_starts_spec _ _ Hnd Hord Hlen) as (old&kept&Hsplit&Hkept&Hold&->).
  rewrite Hsplit in Hnd. apply NoDup_app in Hnd as (Hndo&Hdisj&Hndk).
  assert (Hfresh : key ∉ start_order self).
  { intros [? Hin]%Hord. congruence. }
  rewrite Hsplit, not_elem_of_app in Hfresh. destruct Hfresh as [Hko Hkk].
  cbn zeta. simpl. split; [split; simpl|split_and!].
  - apply NoDup_app. split; [done|]. split; [set_solver|apply NoDup_singleton].
  - intros k. rewrite elem_of_app, list_elem_of_singleton, lookup_insert_is_Some, foldr_delete_lookup.
    specialize (Hord k). rewrite Hsplit, elem_of_app in Hord. case_decide as Hk.
    + split; [|by intros [?|[_ []]]; [right|..]]. intros [Hkk'|Hkk']; [by apply Hdisj in Hkk'|by left].
    + split; [intros [?|?]; [|by left]|].
      * destruct (decide (key = k)); [by left|]. right. split; [done|]. apply Hord. by right.
      * intros [->|[_ Hs]]; [by right|left]. apply Hord in Hs as [?|?]; done.
  - rewrite length_app. simpl. lia.
  - intros k j r'. rewrite lookup_insert_Some, foldr_delete_lookup.
    intros [[_ [= <- <-]]|[_ Hs]]; [split; [lia|done]|]. case_decide; [done|]. by eapply Hruns.
  - by rewrite lookup_insert_eq.
  - done.
  - exists kept, []. split; [done|]. unfold MAX_GO_START_RECEIPTS. simpl. lia.
  - intros k n (before&after&Hba&Hn). rewrite Hsplit in Hba.
    assert (Hin : k ∉ old).
    { destruct Hold as [->|[Hfull Hold]]; [apply not_elem_of_nil|]. destruct old as [|o [|]]; [done| |done].
      intros ->%list_elem_of_singleton. destruct before as [|b before]; simpl in Hba.
      - injection Hba as <-. rewrite Hsplit in Hfull. simpl in Hfull. lia.
      - injection Hba as <- ->. apply (Hdisj o); [by left|]. rewrite elem_of_app. right. by left. }
    split.
    + assert (∃ before', kept = before' ++ k :: after) as [before' ->].
      { destruct Hold as [->|[_ Hold]]; [by exists before|]. destruct old as [|o [|]]; [done| |done].
        destruct before as [|b before]; simpl in Hba; injection Hba as <- ->; [|by exists before].
        by destruct Hin; left. }
      exists before', (after ++ [key]). split; [by rewrite <-(assoc_L (++))|].
      rewrite length_app. simpl. lia.
    + rewrite lookup_insert_ne, foldr_delete_lookup, decide_False; [done|done|].
      intros <-. destruct (Hord key) as [Hk _]. rewrite Hsplit, Hba in Hk.
      destruct Hk as [? Hk]; [rewrite elem_of_app; right; by left|congruence].
Qed.
End go_start.

(** *** Runs over any history *)

Section go_history.
Context {C : Type}.
Implicit Types (self : GoEngine C).

(** What a failed start leaves as it was. *)
Definition same_runs self self' : Prop :=
  (∀ r, run_left r self' = run_left r self) ∧ active self' = active self ∧
  programs self' = programs self ∧ starts self' = starts self ∧
  start_order self' = start_order self ∧ next_run_id self' = next_run_id self.

Lemma mapM_targets now_ms (l : list (PlannedGoAction C)) m :
  mapM (λ x, ok_or GoTimestampOverflow (checked U64 (now_ms + offset_ms x))) l = Ok m →
  m = (λ x, now_ms + offset_ms x) <$> l.
Proof.
  revert m. induction l as [|x l IH]; intros m; simpl; [by intros [= <-]|].
  intros (t&Ht&(r&Hr&[= <-])%result_bind_Ok)%result_bind_Ok.
  apply ok_or_Ok, checked_Some in Ht as [<- _]. by rewrite (IH _ Hr).
Qed.
Lemma zip_targets now_ms (l : list (PlannedGoAction C)) :
  zip l ((λ x, now_ms + offset_ms x) <$> l) = (λ x, (x, now_ms + offset_ms x)) <$> l.
Proof.
  induction l as [|x l IH]; [done|]. rewrite !fmap_cons, <-IH. done.
Qed.
Lemma targets_sorted now_ms (l : list (PlannedGoAction C)) :
  StronglySorted (λ x y, offset_ms x ≤ offset_ms y) l →
  StronglySorted (λ x y : PlannedGoAction C * Z, x.2 ≤ y.2) ((λ x, (x, now_ms + offset_ms x)) <$> l).
Proof.
  induction 1 as [|x l Hs IH Hf]; simpl; constructor; [done|].
  apply Forall_fmap. eapply Forall_impl; [exact Hf|]. simpl. lia.
Qed.

(** The fresh run has nothing on the queue yet. *)
Lemma fresh_run self a :
  go_wf self → a ∈ pending (go_queue self) → run_of a ≠ next_run_id self + 1.
Proof.
  intros Hok Ha. assert (Hact : run_of a ∈ active self).
  { apply (go_pending_active _ []); [done|]. by rewrite app_nil_r. }
  apply (go_bound _ _ Hok) in Hact. lia.
Qed.

Lemma go_start_spec self input key now_ms :
  go_wf self → receipts_ok self →
  wp (go_start input key now_ms) (λ res self',
    go_wf self' ∧ receipts_ok self' ∧
    match res with
    | Ret s =>
        if replayed s then self' = self ∧ started key self = Some (started_run s)
        else
          let r := started_run s in
          starts self !! key = None ∧ r = next_run_id self + 1 ∧ next_run_id self' = r ∧
          programs self' = programs self ∧ active self' = {[r]} ∪ active self ∧
          (∃ p, programs self !! input = Some p ∧ preview_actions (preview s) = go_actions p ∧
             run_left r self' = planned_at now_ms (go_actions p)) ∧
          (∀ r', r' ≠ r → run_left r' self' = run_left r' self) ∧
          started key self' = Some r ∧ receipt_lasts key (MAX_GO_START_RECEIPTS - 1) self' ∧
          (∀ k n, receipt_lasts k (S n) self →
             receipt_lasts k n self' ∧ started k self' = started k self)
    | Throw _ => same_runs self self'
    | Panic => False
    end) self.
Proof.
  intros Hok Hrc. unfold go_start. apply wp_bind, wp_get.
  destruct (starts self !! key) as [[i r]|] eqn:Hkey.
  { wp_run; [|by split_and!].
    split_and!; [done..|]. unfold started. simpl. by rewrite Hkey. }
  wp_run; try by split_and!.
  repeat match goal with
  | H : ok_or _ _ = Ok _ |- _ => apply ok_or_Ok in H
  | H : checked _ _ = Some _ |- _ => apply checked_Some in H as [<- Hr]
  end.
  unfold go_preview in *. destruct (programs self !! input) as [p|] eqn:Hp; [|done].
  match goal with H : _ <$> Some p = Some ?x |- _ => simpl in H; injection H as <- end.
  cbn [preview_actions] in *. match goal with H : mapM _ _ = Ok _ |- _ => apply mapM_targets in H as -> end.
  rewrite zip_targets. set (r := next_run_id self + 1) in *.
  destruct (go_programs _ _ Hok _ _ Hp) as (Hpne&Hpo&Hps).
  assert (Hq : queue_wf (go_queue self)) by apply Hok.
  eapply wp_mono.
  { apply (schedule_run_spec r _ (next_sequence (go_queue self)) (pending (go_queue self)));
      [done|lia| | | | |by apply targets_sorted].
    - apply filter_all. intros a Ha. by apply pending_id in Ha as [_ ?].
    - intros a Ha. split; [by intros ?%fresh_run|]. apply pending_id in Ha; [lia|done].
    - intros i. split; [by intros ?%elem_of_nil|]. intros (a&Ha&_&?). by apply fresh_run in Ha.
    - intros a x Ha Hr'. by apply fresh_run in Ha. }
  intros [ids|e|] self1 (q&->&Hq'&Hres); [| |done]; wp_run.
  2: { split; [|split; [destruct Hrc; by split|]].
       - destruct Hok. split; simpl; rewrite ?Hres; done.
       - split; [|done]. intros r'. unfold run_left. simpl. by rewrite Hres. }
  destruct Hres as (Hids&Hleft&Hother).
  set (self1 := mk_go _ _ _ _ _ _ _).
  assert (Hleft1 : run_left r self1 = planned_at now_ms (go_actions p)).
  { change (run_left r self1) with (run_left r (set_go_queue q self)). rewrite Hleft.
    replace (run_left r self) with ([] : list (FrameNumber * PlannedGoAction C)).
    - simpl. unfold planned_at. by rewrite <-list_fmap_compose.
    - unfold run_left. rewrite filter_none; [done|]. intros a Ha. by apply fresh_run. }
  assert (Hidsne : ids ≠ []).
  { intros ->. destruct (go_actions p) as [|x l]; [done|].
    assert (Hin : (now_ms + offset_ms x, x) ∈ run_left r self1) by (rewrite Hleft1; by left).
    apply list_elem_of_fmap in Hin as (a&_&[Ha Hin]%list_elem_of_filter).
    assert (Hnil : sa_id a ∈ ([] : list Z)) by (apply Hids; eauto). by apply elem_of_nil in Hnil. }
  assert (Hrc1 : receipts_ok self1).
  { destruct Hrc as [? ? ? Hruns]. split; simpl; try done. intros k j r' Hk.
    apply Hruns in Hk as [? ?]. split; [lia|done]. }
  assert (Hok1 : go_wf self1).
  { destruct Hok as [? Hids0 Hact Hne Hb Hseq Hpr Hnd]. rewrite app_nil_r in *. split; simpl; try done.
    - intros r' i. rewrite app_nil_r. destruct (decide (r = r')) as [<-|Hne'].
      + rewrite lookup_insert_eq. apply Hids.
      + rewrite lookup_insert_ne, Hids0 by done.
        assert (Hmem : ∀ a, run_of a = r' → a ∈ pending (go_queue self) ↔ a ∈ pending q).
        { intros a Ha. transitivity (a ∈ filter (λ a, run_of a = r') (pending q)).
          - rewrite Hother by done. rewrite list_elem_of_filter. tauto.
          - rewrite list_elem_of_filter. tauto. }
        split; intros (a&Ha&?&?); exists a; (split; [by apply Hmem|done]).
    - intros r'. rewrite elem_of_union, elem_of_singleton, Hact, lookup_insert_is_Some.
      destruct (decide (r = r')); naive_solver.
    - intros r'. rewrite lookup_insert_Some. intros [[_ ?]|[_ Hr']]; [done|]. by apply Hne in Hr'.
    - intros r'. rewrite elem_of_union, elem_of_singleton. unfold in_ty in *. simpl in *.
      intros [->|?%Hb]; lia.
    - rewrite app_nil_r. by apply pending_ids_NoDup. }
  destruct (remember_start_spec key input r self1) as (Hrc2&Hk2&Heq&Hl2&Hother2);
    [done|done|unfold in_ty in *; pose proof (go_sequence _ _ Hok); int_lia|done|by eexists|].
  set (self2 := remember_start key input r self1) in *. clearbody self2.
  assert (Hview : ∀ r', run_left r' self2 = run_left r' self1) by (by rewrite Heq).
  split; [|split; [done|]].
  { rewrite Heq. destruct Hok1; by split. }
  cbn [replayed]. split_and!; try done; try by rewrite Heq.
  - exists p. by rewrite Hview.
  - intros r' Hr'. rewrite Hview. unfold run_left. simpl. by rewrite Hother.
  - unfold started. by rewrite Hk2.
  - intros k n Hk. destruct (Hother2 k n) as [? Hs]; [done|]. split; [done|]. unfold started. by rewrite Hs.
Qed.

Inductive go_op :=
  | ProgramGo (input : Z) (p : ProgrammedGo C)
  | StartGo (input : Z) (key : string) (now_ms : Z)
  | CancelGo (run : Z)
  | PollGo (now_ms : Z).
Definition go_op_ok (op : go_op) : Prop :=
  match op with
  | ProgramGo _ p => program_ok p
  | _ => True
  end.
Definition go_step (op : go_op) self : GoEngine C * list (GoActionFire C) :=
  match op with
  | ProgramGo input p => ((program input p self).1, [])
  | StartGo input key now_ms => ((go_start input key now_ms self).1, [])
  | CancelGo run => ((go_cancel run self).1, [])
  | PollGo now_ms => poll_go now_ms self
  end.
Fixpoint run_go (ops : list go_op) self : GoEngine C * list (GoActionFire C) :=
  match ops with
  | [] => (self, [])
  | op :: ops =>
      let '(self, fires) := go_step op self in
      let '(self, later) := run_go ops self in (self, fires ++ later)
  end.
Fixpoint latest_go_poll (ops : list go_op) : Z :=
  match ops with
  | [] => -1
  | PollGo now_ms :: ops => Z.max now_ms (latest_go_poll ops)
  | _ :: ops => latest_go_poll ops
  end.
Definition is_start (op : go_op) : Prop := if op is StartGo _ _ _ then True else False.
#[global] Instance is_start_dec op : Decision (is_start op).
Proof. destruct op; apply _. Defined.

Record engine_ok self : Prop := { eo_go : go_wf self; eo_receipts : receipts_ok self }.

Lemma engine_default_ok : engine_ok go_default.
Proof.
  split; [apply go_default_wf|]. split; simpl; [constructor| |lia|].
  - intros k. rewrite lookup_empty. split; [by intros ?%elem_of_nil|by intros []].
  - intros k input r. by rewrite lookup_empty.
Qed.

(** The fires of a run, as it planned them. *)
Definition fires_of (r : Z) (fires : list (GoActionFire C)) : list (FrameNumber * PlannedGoAction C) :=
  (λ f, (fire_due_ms f, fire_action f)) <$> filter (λ f, fire_run f = r) fires.
Lemma fires_of_app r l k : fires_of r (l ++ k) = fires_of r l ++ fires_of r k.
Proof. unfold fires_of. by rewrite filter_app, fmap_app. Qed.

(** One call, for a run it does not cancel. *)
Lemma go_step_spec op self r :
  engine_ok self → go_op_ok op → op ≠ CancelGo r → r ∈ active self ∨ r ≤ next_run_id self →
  let '(self', fires) := go_step op self in
  engine_ok self' ∧ next_run_id self ≤ next_run_id self' ∧
  (∀ k n, receipt_lasts k (if decide (is_start op) then S n else n) self →
     receipt_lasts k n self' ∧ started k self' = started k self) ∧
  match op with
  | PollGo now_ms =>
      fires_of r fires = filter (λ x, x.1 ≤ now_ms) (run_left r self) ∧
      run_left r self' = filter (λ x, now_ms < x.1) (run_left r self)
  | _ => fires_of r fires = [] ∧ run_left r self' = run_left r self
  end.
Proof.
  intros [Hok Hrc] Hop Hne Hr. destruct op as [input p|input key now_ms|run|now_ms]; simpl.
  - destruct (program_spec self input p Hok Hop) as [Hok' Hl].
    split; [split; [done|]|split_and!; [lia|done..]].
    destruct Hrc as [? ? ? Hruns]. split; simpl; try done. intros k j r' Hk.
    apply Hruns in Hk as [? ?]. split; [done|]. by apply lookup_insert_is_Some'; right.
  - pose proof (go_start_spec self input key now_ms Hok Hrc) as Hs. unfold wp in Hs.
    destruct (go_start input key now_ms self) as [self' [s|e|]]; simpl in *; [| |tauto].
    + destruct Hs as (Hok'&Hrc'&Hs). split; [done|]. destruct (replayed s).
      * destruct Hs as [-> _]. split_and!; [lia| |done..]. intros k n (b&a&?&?). split; [|done].
        exists b, a. split; [done|lia].
      * destruct Hs as (_&Hnew&Hn&_&Hact&_&Hl&_&_&Hk). split_and!; [lia|done..|].
        apply Hl. intros ->. assert (started_run s ∈ active self ∨ started_run s ≤ next_run_id self) as [Ha|?];
          [done| |lia]. apply (go_bound _ _ Hok) in Ha. lia.
    + destruct Hs as (Hok'&Hrc'&Hl&Ha&Hp&Hst&Hord&Hn). split; [done|]. rewrite Hn.
      split_and!; [lia| |done|done]. intros k n (b&a&?&?). unfold receipt_lasts, started. rewrite Hord, Hst.
      split; [|done]. exists b, a. split; [done|lia].
  - destruct (go_cancel_spec self run Hok) as (Hok'&_&_&Hp). simpl in *.
    assert (Hsame : starts (go_cancel run self).1 = starts self ∧ start_order (go_cancel run self).1 = start_order self ∧
      programs (go_cancel run self).1 = programs self ∧ next_run_id (go_cancel run self).1 = next_run_id self).
    { unfold go_cancel. by case_decide. }
    destruct Hsame as (H1&H2&H3&H4). split; [split; [done|]|].
    + destruct Hrc. by split; rewrite ?H1, ?H2, ?H3, ?H4.
    + unfold receipt_lasts, started. rewrite H1, H2, H4. split_and!; [lia|done|done|].
      unfold run_left. rewrite Hp, list_filter_filter. f_equal. apply list_filter_iff. intros a.
      split; [tauto|]. intros Ha. split; [done|]. intros Hrun. apply Hne. congruence.
  - pose proof (poll_go_spec self now_ms Hok) as Hp. destruct (poll_go now_ms self) as [self' fires].
    destruct Hp as (Hok'&->&Hp&Hn&Hpr&Hst&Hord&_). split; [split; [done|]|].
    + destruct Hrc. by split; rewrite ?Hst, ?Hord, ?Hn, ?Hpr.
    + unfold receipt_lasts, started. rewrite Hst, Hord, Hn. split_and!; [lia|done|..].
      * unfold fires_of, run_left, due_steps. rewrite filter_fmap, <-list_fmap_compose.
        rewrite (filter_fmap step_of). rewrite (filter_comm (λ x, fire_run (go_fire x) = r)). done.
      * unfold run_left. rewrite Hp, (filter_fmap step_of), filter_comm. done.
Qed.

Lemma filter_max (l : list (FrameNumber * PlannedGoAction C)) s t :
  StronglySorted (λ x y : FrameNumber * PlannedGoAction C, x.1 ≤ y.1) l →
  filter (λ x, x.1 ≤ Z.max s t) l =
  filter (λ x, x.1 ≤ s) l ++ filter (λ x, x.1 ≤ t) (filter (λ x, s < x.1) l).
Proof.
  induction 1 as [|x l Hs IH Hx]; [done|]. rewrite !filter_cons.
  destruct (decide (x.1 ≤ s)).
  - rewrite decide_True by lia. rewrite (decide_False (P := s < x.1)) by lia. simpl. by rewrite IH.
  - rewrite (decide_True (P := s < x.1)) by lia. rewrite filter_cons.
    assert (Hnone : filter (λ y, y.1 ≤ s) l = []).
    { apply filter_none. rewrite Forall_forall in Hx. intros y Hy%Hx. lia. }
    rewrite Hnone in *. simpl in *. repeat case_decide; try lia; by rewrite IH.
Qed.
Lemma run_left_sorted self r :
  go_wf self → StronglySorted (λ x y, x.1 ≤ y.1) (run_left r self).
Proof.
  intros Hok. pose proof (pending_sorted _ (go_queue_wf _ _ Hok)) as Hs. unfold run_left.
  induction (pending (go_queue self)) as [|a l IH]; [constructor|]. rewrite fmap_cons in Hs.
  apply StronglySorted_cons in Hs as [Ha Hs]. rewrite filter_cons. case_decide; [|by apply IH].
  rewrite fmap_cons. constructor; [by apply IH|]. apply Forall_fmap, Forall_forall.
  intros b [_ Hb]%list_elem_of_filter. rewrite Forall_forall in Ha.
  specialize (Ha _ (list_elem_of_fmap_2 action_key _ _ Hb)). unfold key_lt, key_cmp, prod_ord_key, key_cmp, Z_ord_key in Ha.
  simpl in Ha |- *. destruct (Z.compare_spec (target_frame a) (target_frame b)); [lia|lia|done].
Qed.

Lemma run_go_spec ops self r :
  engine_ok self → Forall go_op_ok ops → CancelGo r ∉ ops → r ≤ next_run_id self →
  Forall (λ x, 0 ≤ x.1) (run_left r self) →
  let '(self', fires) := run_go ops self in
  engine_ok self' ∧
  fires_of r fires = filter (λ x, x.1 ≤ latest_go_poll ops) (run_left r self) ∧
  run_left r self' = filter (λ x, latest_go_poll ops < x.1) (run_left r self) ∧
  (∀ k n, receipt_lasts k (length (filter is_start ops) + n) self → started k self' = started k self).
Proof.
  revert self. induction ops as [|op ops IH]; intros self Hok Hops Hc Hr Hpos.
  { simpl. rewrite Forall_forall in Hpos. split_and!; [done| | |done].
    - symmetry. apply filter_none. intros x Hx%Hpos. lia.
    - symmetry. apply filter_all. intros x Hx%Hpos. lia. }
  apply Forall_cons in Hops as [Hop Hops]. apply not_elem_of_cons in Hc as [Hne Hc].
  cbn [run_go]. pose proof (go_step_spec op self r Hok Hop (not_eq_sym Hne) (or_intror Hr)) as Hstep.
  destruct (go_step op self) as [self1 fires1]. destruct Hstep as (Hok1&Hn1&Hk1&Hop1).
  assert (Hpos1 : Forall (λ x, 0 ≤ x.1) (run_left r self1)).
  { destruct op; destruct Hop1 as [_ ->]; try done.
    rewrite Forall_forall in *. intros x [_ Hx]%list_elem_of_filter. by apply Hpos. }
  pose proof (IH self1 Hok1 Hops Hc ltac:(lia) Hpos1) as Hrun.
  destruct (run_go ops self1) as [self2 later]. destruct Hrun as (Hok2&Hf2&Hl2&Hk2).
  split; [done|]. rewrite fires_of_app, Hf2, Hl2. split_and!.
  - destruct op; destruct Hop1 as [-> ->]; try done. cbn [latest_go_poll].
    symmetry. apply filter_max, run_left_sorted, Hok.
  - destruct op; destruct Hop1 as [_ ->]; try done. cbn [latest_go_poll].
    rewrite list_filter_filter. apply list_filter_iff. intros x. lia.
  - intros k n Hk. rewrite filter_cons in Hk.
    destruct (Hk1 k (length (filter is_start ops) + n)%nat) as [Hk' Hs].
    { by case_decide. }
    rewrite <-Hs. by apply (Hk2 _ n).
Qed.
Lemma run_go_ok ops self :
  engine_ok self → Forall go_op_ok ops → engine_ok (run_go ops self).1.
Proof.
  revert self. induction ops as [|op ops IH]; intros self Hok Hops; [done|].
  apply Forall_cons in Hops as [Hop Hops]. cbn [run_go].
  set (r := match op with CancelGo run => Z.min (next_run_id self) (run - 1) | _ => 0 end).
  assert (Hr : op ≠ CancelGo r) by (unfold r; destruct op; [done..| |done]; intros [= ?]; lia).
  assert (Hn : r ≤ next_run_id self).
  { pose proof (go_sequence _ _ (eo_go _ Hok)). unfold r. destruct op; int_lia. }
  pose proof (go_step_spec op self r Hok Hop Hr (or_intror Hn)) as Hstep.
  destruct (go_step op self) as [self1 fires1]. destruct Hstep as (Hok1&_).
  specialize (IH self1 Hok1 Hops). by destruct (run_go ops self1).
Qed.
End go_history.

(** ** Theorems *)

(** C30: A recurring schedule stays anchored to its boundaries, however late and
    irregular it is polled and whatever else is scheduled, timed or cancelled, until
    it is cancelled itself: what fired for it, with what it reported as missed, is
    exactly one entry for every boundary up to the latest poll; each firing names its
    boundary, carries the intent of the schedule, and is at the latest boundary that
    had passed.  Every poll of the history must find room in 64 bits for the next
    boundaries of what is due ([polls_fit]), and then none fails; one that does loses
    what was due with it ([poll_loses_schedules]). *)
Theorem schedule_anchored {C} (before ops : list (schedule_op (C := C))) id start interval intent
    self1 fires0 self2 :
  Forall schedule_op_ok (before ++ ops) → CancelSchedule id ∉ ops →
  0 ≤ start → 0 ≤ interval →
  run_schedules before schedules_default = Some (self1, fires0) →
  schedule_at id start (Every interval) intent self1 = (self2, Ret tt) →
  polls_fit ops self2 →
  ∃ self3 fires, run_schedules ops self2 = Some (self3, fires) ∧
  let mine := filter (λ f, fire_id f = id) fires in
  accounted_for mine = boundaries start interval (latest_poll ops) ∧
  Forall (λ f, fire_intent f = intent) mine ∧ anchored_at start interval 0 mine.
Proof.
  intros [Hb Hops]%Forall_app Hc Hs Hi Hrun0 Hat Hfit.
  pose proof (run_schedules_wf _ _ _ _ schedules_default_wf Hb Hrun0) as Hok1.
  assert (Hkind : ∀ i, Every interval = Every i → 0 ≤ i) by by intros i [= <-].
  pose proof (wp_elim _ _ _ _ _ (schedule_at_spec self1 id start (Every interval) intent Hok1 Hs Hkind) Hat)
    as (Hok2&_&Hbk&_).
  assert (Hbooked : booked id start interval intent 0 self2).
  { unfold booked. rewrite Hbk, Z.mul_0_l, Z.add_0_r. left. }
  assert (Hpos : 0 < interval) by by apply (booked_positive id start interval intent 0 self2).
  destruct (run_schedules_fits ops self2 Hok2 Hops Hfit) as (self3&fires&Hrun).
  exists self3, fires. split; [done|]. intros mine.
  destruct (run_schedules_spec ops id start interval intent 0 self2 self3 fires) as (?&?&Hsum); try done.
  split_and!; [|done..]. fold mine in Hsum. pose proof (boundaries_nonneg start interval (latest_poll ops) Hpos). lia.
Qed.
Definition demo_schedules : list (schedule_op (C := nat)) :=
  [PollSchedules 12; ScheduleAt "other" 20 Once (Discrete 2%nat); PollSchedules 13; PollSchedules 47;
   CancelSchedule "other"; PollSchedules 55].
Definition demo_schedule_set : ScheduleSet nat :=
  (schedule_at "tick" 10 (Every 10) (Discrete 1%nat) schedules_default).1.
Lemma schedule_anchored_witness :
  ∃ self fires, run_schedules demo_schedules demo_schedule_set = Some (self, fires) ∧
  let mine := filter (λ f, fire_id f = "tick") fires in
  (λ f, (occurrence_ms f, missed_occurrences f)) <$> mine = [(10, 0); (20, 2); (50, 0)] ∧
  accounted_for mine = boundaries 10 10 55.
Proof.
  destruct (schedule_anchored [] demo_schedules "tick" 10 10 (Discrete 1%nat)
    schedules_default [] demo_schedule_set) as (self&fires&Hrun&Hacc&_).
  - repeat constructor; simpl; try done; int_lia.
  - set_solver.
  - lia.
  - lia.
  - reflexivity.
  - vm_compute. reflexivity.
  - repeat (split; [apply (bool_decide_unpack _); vm_compute; exact I|]);
      apply (bool_decide_unpack _); vm_compute; exact I.
  - exists self, fires. split; [exact Hrun|]. split; [|exact Hacc].
    assert (Hf : ((λ f, (occurrence_ms f, missed_occurrences f)) <$>
      filter (λ f, fire_id f = "tick") (from_option snd [] (run_schedules demo_schedules demo_schedule_set)))
      = [(10, 0); (20, 2); (50, 0)]) by (vm_compute; reflexivity).
    rewrite Hrun in Hf. exact Hf.
Defined.

(** Every action of a programmed GO list fires exactly once, in order and on
    time: after any history, what a newly started run has fired by the latest poll
    is exactly the actions of its list whose time has come, each at the time it was
    planned for, unless the run is cancelled; and pressing the same key again, as
    long as fewer than 256 other runs were started, answers the same run and starts
    nothing. *)
Theorem go_run_exact {C} (before ops : list (go_op (C := C))) input key now_ms self1 fires0 self2 s
    self3 fires :
  Forall go_op_ok (before ++ ops) → 0 ≤ now_ms →
  run_go before go_default = (self1, fires0) →
  go_start input key now_ms self1 = (self2, Ret s) → replayed s = false →
  CancelGo (started_run s) ∉ ops →
  run_go ops self2 = (self3, fires) →
  let plan := planned_at now_ms (preview_actions (preview s)) in
  fires_of (started_run s) fires = filter (λ x, x.1 ≤ latest_go_poll ops) plan ∧
  (started_run s ∈ active self3 ↔ filter (λ x, latest_go_poll ops < x.1) plan ≠ []) ∧
  ((length (filter is_start ops) < MAX_GO_START_RECEIPTS)%nat →
   ∀ input' now', ∃ preview, go_start input' key now' self3 =
     (self3, Ret (mk_start (started_run s) true preview))).
Proof.
  intros [Hb Hops]%Forall_app Hnow Hrun0 Hstart Hnew Hc Hrun plan.
  assert (Hok1 : engine_ok self1).
  { pose proof (run_go_ok before go_default engine_default_ok Hb) as Hok. by rewrite Hrun0 in Hok. }
  destruct Hok1 as [Hgo1 Hrc1].
  pose proof (wp_elim _ _ _ _ _ (go_start_spec self1 input key now_ms Hgo1 Hrc1) Hstart) as (Hgo2&Hrc2&Hs).
  rewrite Hnew in Hs. destruct Hs as (_&_&Hn2&_&_&(p&Hp&Hprev&Hleft)&_&Hkey&Hlasts&_).
  set (r := started_run s) in *. fold plan in Hleft. rewrite <-Hprev in Hleft. fold plan in Hleft.
  assert (Hpos : Forall (λ x, 0 ≤ x.1) (run_left r self2)).
  { rewrite Hleft. unfold plan. rewrite Hprev. apply Forall_fmap.
    eapply Forall_impl; [apply (go_programs _ _ Hgo1 _ _ Hp)|]. simpl. lia. }
  pose proof (run_go_spec ops self2 r (Build_engine_ok _ Hgo2 Hrc2) Hops Hc ltac:(lia) Hpos) as Hr.
  rewrite Hrun in Hr. destruct Hr as ([Hgo3 Hrc3]&Hf&Hl&Hk). rewrite Hleft in Hf, Hl.
  split_and!; [done|by rewrite go_active_left, Hl|]. intros Hlen input' now'.
  assert (Hkey3 : started key self3 = Some r).
  { rewrite <-Hkey. apply (Hk key (MAX_GO_START_RECEIPTS - 1 - length (filter is_start ops))%nat).
    replace (length (filter is_start ops) + _)%nat with (MAX_GO_START_RECEIPTS - 1)%nat by lia. done. }
  unfold started in Hkey3. destruct (starts self3 !! key) as [[input0 r0]|] eqn:Hst; [|done].
  injection Hkey3 as ->. destruct (ro_runs _ Hrc3 _ _ _ Hst) as [_ [p3 Hp3]].
  eexists. unfold go_start, mbind, stm_bind, st_get, st_lift. rewrite Hst. unfold go_preview.
  rewrite Hp3. reflexivity.
Qed.
Definition demo_go_program : ProgrammedGo nat :=
  default (mk_programmed [] 0)
    match programmed_new [GoIntent (Discrete 1%nat); Delay 10; GoIntent (Discrete 2%nat); Delay 5;
                          GoIntent (Discrete 3%nat)] with Ok p => Some p | Err _ => None end.
Definition demo_go_before : list (go_op (C := nat)) := [ProgramGo 7 demo_go_program].
Definition demo_go_ops : list (go_op (C := nat)) :=
  [PollGo 90; PollGo 111; StartGo 7 "other press" 111; PollGo 113].
Definition demo_go_start : GoEngine nat * outcome GoError (GoStart nat) :=
  go_start 7 "press" 100 (run_go demo_go_before go_default).1.
Definition demo_go_run : GoEngine nat * list (GoActionFire nat) := run_go demo_go_ops demo_go_start.1.
Lemma go_run_exact_witness :
  ∃ s, demo_go_start.2 = Ret s ∧
  (λ x, (x.1, index x.2)) <$> fires_of (started_run s) demo_go_run.2 = [(100, 0%nat); (110, 1%nat)] ∧
  fires_of (started_run s) demo_go_run.2 =
    filter (λ x, x.1 ≤ 113) (planned_at 100 (preview_actions (preview s))).
Proof.
  eexists. split; [vm_compute; reflexivity|]. split; [vm_compute; reflexivity|].
  refine (proj1 (go_run_exact demo_go_before demo_go_ops 7 "press" 100
    (run_go demo_go_before go_default).1 [] demo_go_start.1 _ demo_go_run.1 demo_go_run.2 _ _ _ _ _ _
    (surjective_pairing _))).
  - apply Forall_app. split; [|by repeat constructor]. constructor; [|done].
    apply (programmed_new_ok [GoIntent (Discrete 1%nat); Delay 10; GoIntent (Discrete 2%nat); Delay 5;
      GoIntent (Discrete 3%nat)]); [by repeat constructor|vm_compute; reflexivity].
  - done.
  - vm_compute. reflexivity.
  - vm_compute. reflexivity.
  - done.
  - by intros ?%list_elem_of_In; simpl in *; naive_solver.
Defined.

(** A recurrence whose next boundary is out of range makes a poll fail, and with it
    the other schedules that were due are lost: they never fire, yet their
    identifiers stay taken. *)
Definition overflowing : ScheduleSet nat :=
  (schedule_at "late" 5 Once (Discrete 2%nat)
    (schedule_at "huge" 5 (Every (ty_max U64)) (Discrete 1%nat) schedules_default).1).1.
Lemma poll_loses_schedules :
  let '(self, r) := poll_schedules 5 overflowing in
  r = Throw ScheduleTimestampOverflow ∧ pending (schedule_queue self) = [] ∧
  contains_schedule "late" self = true.
Proof. by vm_compute. Qed.
