(* ===== verification/Controller.v ===== *)
(** Physical controllers, [crates/features/fm-automation/src/controller.rs]: devices,
    their mappings and learning, and the feedback sent back to them.

    [ControllerManager] and [ActivatorEngine] map to the structs of the same names.  The
    laws: a button fires on rising edges only ([button_refines]), a sample is normalized
    into the unit interval, and feedback settles. *)
From S2P Require Import Prelude BTree Floats Automation.
#[local] Open Scope Z_scope.

(** ** Data *)

Record ControlAddress := mk_address { device : string; control : string }.
#[global] Instance ControlAddress_eq_dec : EqDecision ControlAddress.
Proof. solve_decision. Defined.
#[global] Instance ControlAddress_countable : Countable ControlAddress.
Proof.
  by refine (inj_countable' (λ a, (device a, control a)) (λ p, mk_address p.1 p.2) _); intros [].
Defined.

Inductive ControllerError :=
  | NonFiniteValue
  | InvalidRange
  | DuplicateMapping (id : string)
  | UnknownDevice (device : string)
  | DeviceDisconnected (device : string)
  | AlreadyLearning
  | GenerationExhausted.

Record ValueRange := mk_range { minimum : f64; maximum : f64 }.
Definition range_new (minimum maximum : f64) : result ControllerError ValueRange :=
  if negb (is_finite minimum) || negb (is_finite maximum) then Err NonFiniteValue else
  if SFleb maximum minimum then Err InvalidRange else Ok (mk_range minimum maximum).
Definition normalize (value : f64) (self : ValueRange) : f64 :=
  clamp (f64_of_Z 0) (f64_of_Z 1)
    (f64_div (f64_sub value (minimum self)) (f64_sub (maximum self) (minimum self))).
Definition denormalize (value : f64) (self : ValueRange) : f64 :=
  f64_add (minimum self) (f64_mul value (f64_sub (maximum self) (minimum self))).

Inductive ControlMode := Button (threshold : f64) | ModeContinuous.
Record Mapping := mk_mapping {
  mapping_id : string;
  address : ControlAddress;
  target : string;
  input_range : ValueRange;
  output_range : ValueRange;
  velocity_range : option ValueRange;
  mode : ControlMode
}.
Record LearnRequest := mk_learn {
  learn_mapping_id : string;
  learn_target : string;
  learn_input_range : ValueRange;
  learn_output_range : ValueRange;
  learn_velocity_range : option ValueRange;
  learn_mode : ControlMode
}.
(** Media timestamps are opaque here. *)
Record ControllerInput (T : Type) := mk_input {
  input_address : ControlAddress;
  input_value : f64;
  input_velocity : option f64;
  input_timestamp : T
}.
Arguments mk_input {T}.
Arguments input_address {T}.
Arguments input_value {T}.
Arguments input_velocity {T}.
Arguments input_timestamp {T}.
Record MappedControllerIntent (T : Type) := mk_mapped {
  mapped_id : string;
  mapped_target : string;
  mapped_value : f64;
  mapped_velocity : option f64;
  mapped_timestamp : T
}.
Arguments mk_mapped {T}.
Arguments mapped_id {T}.
Arguments mapped_target {T}.
Arguments mapped_value {T}.
Arguments mapped_velocity {T}.
Arguments mapped_timestamp {T}.
Record DeviceState (T : Type) := mk_device { connected : bool; generation : Z; last_seen : T }.
Arguments mk_device {T}.
Arguments connected {T}.
Arguments generation {T}.
Arguments last_seen {T}.

Record ControllerManager (T : Type) := mk_manager {
  devices : gmap string (DeviceState T);
  mappings : list Mapping;
  previous_values : gmap ControlAddress f64;
  learn : option LearnRequest;
  learned : option Mapping
}.
Arguments mk_manager {T}.
Arguments devices {T}.
Arguments mappings {T}.
Arguments previous_values {T}.
Arguments learn {T}.
Arguments learned {T}.

(** ** Operations *)

Section manager.
Context {T : Type}.
Implicit Types self : ControllerManager T.

Definition manager_default : ControllerManager T := mk_manager ∅ [] ∅ None None.

(** [previous_values.retain(|address, _| address.device != device)]. *)
Definition forget_device {V} (d : string) (m : gmap ControlAddress V) : gmap ControlAddress V :=
  filter (λ p, device p.1 ≠ d) m.

Definition connect (d : string) (timestamp : T) :
    stm (ControllerManager T) ControllerError (DeviceState T) :=
  self ← st_get;
  let reset_transient := is_none_or (λ s, negb (connected s)) (devices self !! d) in
  generation ← st_lift
    match devices self !! d with
    | None => Ok 1
    | Some s => if connected s then Ok (generation s)
                else ok_or GenerationExhausted (checked U64 (generation s + 1))
    end;
  let state := mk_device true generation timestamp in
  _ ← st_put (mk_manager (<[d := state]> (devices self)) (mappings self)
        (if reset_transient then forget_device d (previous_values self) else previous_values self)
        (learn self) (learned self));
  mret state.

Definition disconnect (d : string) (timestamp : T) :
    stm (ControllerManager T) ControllerError (DeviceState T) :=
  self ← st_get;
  s ← st_lift (ok_or (UnknownDevice d) (devices self !! d));
  let state := mk_device false (generation s) timestamp in
  _ ← st_put (mk_manager (<[d := state]> (devices self)) (mappings self)
        (forget_device d (previous_values self)) (learn self) (learned self));
  mret state.

Definition add_mapping (mapping : Mapping) : stm (ControllerManager T) ControllerError unit :=
  self ← st_get;
  _ ← st_require (Forall (λ entry, mapping_id entry ≠ mapping_id mapping) (mappings self))
        (DuplicateMapping (mapping_id mapping));
  st_put (mk_manager (devices self) (mappings self ++ [mapping]) (previous_values self)
            (learn self) (learned self)).

Definition begin_learn (request : LearnRequest) : stm (ControllerManager T) ControllerError unit :=
  self ← st_get;
  _ ← st_require (learn self = None) AlreadyLearning;
  _ ← st_require (Forall (λ entry, mapping_id entry ≠ learn_mapping_id request) (mappings self))
        (DuplicateMapping (learn_mapping_id request));
  st_put (mk_manager (devices self) (mappings self) (previous_values self)
            (Some request) (learned self)).
Definition cancel_learn self : ControllerManager T * option LearnRequest :=
  (mk_manager (devices self) (mappings self) (previous_values self) None (learned self), learn self).
Definition take_learned self : ControllerManager T * option Mapping :=
  (mk_manager (devices self) (mappings self) (previous_values self) (learn self) None, learned self).

(** The armed learn request takes the address of the sample. *)
Definition apply_learn (a : ControlAddress) self : ControllerManager T :=
  match learn self with
  | None => self
  | Some r =>
      let mapping := mk_mapping (learn_mapping_id r) a (learn_target r) (learn_input_range r)
        (learn_output_range r) (learn_velocity_range r) (learn_mode r) in
      mk_manager (devices self) (mappings self ++ [mapping]) (previous_values self) None (Some mapping)
  end.

(** What one mapping makes of a sample, given the sample before it. *)
Definition map_one (input : ControllerInput T) (previous : option f64) (mapping : Mapping) :
    option (CommandIntent (MappedControllerIntent T)) :=
  let normalized := normalize (input_value input) (input_range mapping) in
  let value := denormalize normalized (output_range mapping) in
  let velocity := (λ velocity,
      match velocity_range mapping with
      | None => velocity
      | Some range => normalize velocity range
      end) <$> input_velocity input in
  let mapped := mk_mapped (mapping_id mapping) (target mapping) value velocity
    (input_timestamp input) in
  match mode mapping with
  | ModeContinuous => Some (Continuous (target mapping) mapped)
  | Button threshold =>
      if SFleb threshold (input_value input) && is_none_or (λ value, SFltb value threshold) previous
      then Some (Discrete mapped) else None
  end.

Definition map_input (input : ControllerInput T) :
    stm (ControllerManager T) ControllerError (list (CommandIntent (MappedControllerIntent T))) :=
  _ ← st_require (is_finite (input_value input) = true ∧
        is_some_and (λ v, negb (is_finite v)) (input_velocity input) = false) NonFiniteValue;
  self ← st_get;
  let a := input_address input in
  s ← st_lift (ok_or (UnknownDevice (device a)) (devices self !! device a));
  _ ← st_require (connected s = true) (DeviceDisconnected (device a));
  _ ← st_put (mk_manager (<[device a := mk_device true (generation s) (input_timestamp input)]>
                            (devices self))
        (mappings self) (previous_values self) (learn self) (learned self));
  _ ← st_modify (apply_learn a);
  self ← st_get;
  let previous := previous_values self !! a in
  _ ← st_put (mk_manager (devices self) (mappings self)
        (<[a := input_value input]> (previous_values self)) (learn self) (learned self));
  mret (omap (map_one input previous) (filter (λ m, address m = a) (mappings self))).
End manager.

(** ** Feedback *)

Record TallySnapshot := mk_tally {
  tally_program : option Z;
  tally_preview : option Z;
  tally_overlays : btset Z;
  tally_audio_active : btset Z;
  tally_recording : bool;
  tally_streaming : bool
}.
Module ActivatorRule.
Inductive t :=
  | Program (input : Z)
  | Preview (input : Z)
  | Overlay (input : Z)
  | AudioActive (input : Z)
  | Recording
  | Streaming.
End ActivatorRule.
Definition active (tally : TallySnapshot) (self : ActivatorRule.t) : bool :=
  match self with
  | ActivatorRule.Program input => bool_decide (tally_program tally = Some input)
  | ActivatorRule.Preview input => bool_decide (tally_preview tally = Some input)
  | ActivatorRule.Overlay input => bool_decide (input ∈ tally_overlays tally)
  | ActivatorRule.AudioActive input => bool_decide (input ∈ tally_audio_active tally)
  | ActivatorRule.Recording => tally_recording tally
  | ActivatorRule.Streaming => tally_streaming tally
  end.
Record ActivatorMapping := mk_activator {
  activator_address : ControlAddress;
  rule : ActivatorRule.t;
  on_value : f64;
  off_value : f64
}.
Record ControllerFeedback := mk_feedback { feedback_address : ControlAddress; feedback_value : f64 }.
Record ActivatorEngine := mk_activators {
  activators : list ActivatorMapping;
  last_values : gmap ControlAddress f64
}.

Definition add_activator (mapping : ActivatorMapping) (self : ActivatorEngine) : ActivatorEngine :=
  mk_activators (activators self ++ [mapping]) (last_values self).
Definition activator_value (tally : TallySnapshot) (mapping : ActivatorMapping) : f64 :=
  if active tally (rule mapping) then on_value mapping else off_value mapping.
(** The comparison of [Option<&f64>]. *)
Definition same_value (last : option f64) (value : f64) : bool :=
  is_some_and (λ last, SFeqb last value) last.
Fixpoint derive_all (tally : TallySnapshot) (l : list ActivatorMapping)
    (m : gmap ControlAddress f64) : gmap ControlAddress f64 * list ControllerFeedback :=
  match l with
  | [] => (m, [])
  | mapping :: l =>
      let value := activator_value tally mapping in
      if same_value (m !! activator_address mapping) value then derive_all tally l m
      else
        let '(m, feedback) := derive_all tally l (<[activator_address mapping := value]> m) in
        (m, mk_feedback (activator_address mapping) value :: feedback)
  end.
Definition derive (tally : TallySnapshot) (self : ActivatorEngine) :
    ActivatorEngine * list ControllerFeedback :=
  let '(m, feedback) := derive_all tally (activators self) (last_values self) in
  (mk_activators (activators self) m, feedback).
Definition reconnect (d : string) (self : ActivatorEngine) : ActivatorEngine :=
  mk_activators (activators self) (forget_device d (last_values self)).

(** A normalized sample is not below 0 and not above 1. *)
Lemma normalize_unit value range :
  SFltb (normalize value range) (f64_of_Z 0) = false ∧ SFltb (f64_of_Z 1) (normalize value range) = false.
Proof.
  unfold normalize, clamp. generalize (f64_div (f64_sub value (minimum range))
    (f64_sub (maximum range) (minimum range))) as x. intros x.
  destruct (SFltb x (f64_of_Z 0)) eqn:H0; [by vm_compute|].
  destruct (SFltb (f64_of_Z 1) x) eqn:H1; [by vm_compute|]. done.
Qed.
(** Yet a finite sample of a range that [ValueRange::new] accepts may have no value:
    the width of the range overflows. *)
Definition f64_MAX : f64 := S754_finite false 9007199254740991 971.
Lemma normalize_not_a_number :
  ∃ range, range_new (SFopp f64_MAX) f64_MAX = Ok range ∧ is_finite f64_MAX = true ∧
  normalize f64_MAX range = S754_nan.
Proof. eexists. split; [vm_compute; reflexivity|]. by vm_compute. Qed.

(** ** Buttons *)

Section buttons.
Context {T : Type}.
Implicit Types self : ControllerManager T.

Inductive controller_op :=
  | CConnect (d : string) (timestamp : T)
  | CDisconnect (d : string) (timestamp : T)
  | CAddMapping (mapping : Mapping)
  | CBeginLearn (request : LearnRequest)
  | CCancelLearn
  | CTakeLearned
  | CMapInput (input : ControllerInput T).
Definition ret_list {E A} (o : outcome E (list A)) : list A :=
  match o with
  | Ret l => l
  | _ => []
  end.
(** One call, and the intents it answered. *)
Definition controller_step (op : controller_op) self :
    ControllerManager T * list (CommandIntent (MappedControllerIntent T)) :=
  match op with
  | CConnect d timestamp => ((connect d timestamp self).1, [])
  | CDisconnect d timestamp => ((disconnect d timestamp self).1, [])
  | CAddMapping mapping => ((add_mapping mapping self).1, [])
  | CBeginLearn request => ((begin_learn request self).1, [])
  | CCancelLearn => ((cancel_learn self).1, [])
  | CTakeLearned => ((take_learned self).1, [])
  | CMapInput input => let '(self, r) := map_input input self in (self, ret_list r)
  end.
Fixpoint run_controller (ops : list controller_op) self :
    list (list (CommandIntent (MappedControllerIntent T))) :=
  match ops with
  | [] => []
  | op :: ops => let '(self, intents) := controller_step op self in intents :: run_controller ops self
  end.
(** Whether the mapping [id] fired. *)
Definition fires (id : string) (l : list (CommandIntent (MappedControllerIntent T))) : bool :=
  existsb (λ i, match i with Discrete x => bool_decide (mapped_id x = id) | _ => false end) l.

(** *** The button as an operator sees it *)

Record ButtonState := mk_button { attached : bool; held : bool }.
Definition accepted (input : ControllerInput T) : bool :=
  is_finite (input_value input) &&
  negb (is_some_and (λ v, negb (is_finite v)) (input_velocity input)).
(** The button at address [a] with threshold [t]: unplugging it releases it, and it
    fires when a sample finds it pressed that was released before. *)
Definition button_step (a : ControlAddress) (t : f64) (op : controller_op) (b : ButtonState) :
    ButtonState * bool :=
  match op with
  | CConnect d _ => if decide (d = device a) then (mk_button true (held b), false) else (b, false)
  | CDisconnect d _ => if decide (d = device a) then (mk_button false false, false) else (b, false)
  | CMapInput input =>
      if decide (input_address input = a ∧ accepted input = true ∧ attached b = true) then
        let pressed := SFleb t (input_value input) in
        (mk_button true pressed, pressed && negb (held b))
      else (b, false)
  | _ => (b, false)
  end.
Fixpoint run_button (a : ControlAddress) (t : f64) (ops : list controller_op) (b : ButtonState) : list bool :=
  match ops with
  | [] => []
  | op :: ops => let '(b, fired) := button_step a t op b in fired :: run_button a t ops b
  end.

(** The call does not introduce the identifier again. *)
Definition op_keeps (id : string) (op : controller_op) : Prop :=
  match op with
  | CAddMapping mapping => mapping_id mapping ≠ id
  | CBeginLearn request => learn_mapping_id request ≠ id
  | _ => True
  end.

(** The manager, after at most [n] calls, shows the mapping [m] as the button [b]. *)
Record shows (m : Mapping) (t : f64) (n : Z) self (b : ButtonState) : Prop := {
  sh_mapping : m ∈ mappings self;
  sh_unique : ∀ m', m' ∈ mappings self → mapping_id m' = mapping_id m → m' = m;
  sh_learn : ∀ r, learn self = Some r → learn_mapping_id r ≠ mapping_id m;
  sh_attached : attached b = is_some_and connected (devices self !! device (address m));
  sh_held : held b = is_some_and (SFleb t) (previous_values self !! address m);
  sh_finite : ∀ v, previous_values self !! address m = Some v → is_finite v = true;
  sh_released : attached b = false → previous_values self !! address m = None;
  sh_count : 0 ≤ n;
  sh_generation : ∀ d s, devices self !! d = Some s → 0 < generation s ≤ n
}.

Lemma forget_device_lookup {V} d (v : gmap ControlAddress V) a :
  forget_device d v !! a = if decide (device a = d) then None else v !! a.
Proof.
  unfold forget_device. case_decide as Ha.
  - apply map_lookup_filter_None. right. simpl. intros x _ Hn. by apply Hn.
  - destruct (v !! a) as [x|] eqn:Hv.
    + by apply map_lookup_filter_Some.
    + apply map_lookup_filter_None. by left.
Qed.

Lemma pressed_edge t v p :
  is_finite p = true → SFleb t v = true → SFltb p t = negb (SFleb t p).
Proof.
  intros Hp Ht. apply SFltb_SFleb; [by intros ->|]. intros ->. by destruct v.
Qed.

(** Which intents a sample produces for a mapping. *)
Lemma fires_map_one m t input previous l :
  mode m = Button t → m ∈ l → (∀ m', m' ∈ l → mapping_id m' = mapping_id m → m' = m) →
  fires (mapping_id m) (omap (map_one input previous) l) =
  SFleb t (input_value input) && is_none_or (λ v, SFltb v t) previous.
Proof.
  intros Hm Hin Hu. unfold fires. apply eq_bool_prop_intro. rewrite Is_true_true, existsb_exists, Is_true_true.
  split.
  - intros (i&Hi&Hx). destruct i as [x| |]; [|done..]. apply bool_decide_eq_true in Hx.
    apply list_elem_of_In, list_elem_of_omap in Hi as (m'&Hm'&Hi).
    assert (m' = m) as ->.
    { apply Hu; [done|]. rewrite <-Hx. unfold map_one in Hi. destruct (mode m'); [|done].
      destruct (_ && _); [|done]. by injection Hi as <-. }
    unfold map_one in Hi. rewrite Hm in Hi. by destruct (_ && _).
  - intros Hf. exists (default (Continuous "" (mk_mapped "" "" S754_nan None (input_timestamp input)))
      (map_one input previous m)).
    unfold map_one. rewrite Hm, Hf. simpl. split; [|by apply bool_decide_eq_true].
    apply list_elem_of_In, list_elem_of_omap. exists m. split; [done|]. unfold map_one. by rewrite Hm, Hf.
Qed.

Lemma connect_shows m t n self b d timestamp :
  shows m t n self b → n < ty_max U64 →
  shows m t (n + 1) (connect d timestamp self).1 (button_step (address m) t (CConnect d timestamp) b).1.
Proof.
  intros [Hm Hu Hl Ha Hh Hf Hr H0 Hg] Hn.
  unfold connect, mbind, stm_bind, st_get, st_lift, st_put, button_step.
  assert (∃ g, match devices self !! d with
      | None => Ok 1
      | Some s => if connected s then Ok (generation s)
                  else ok_or GenerationExhausted (checked U64 (generation s + 1))
      end = Ok g ∧ 0 < g ≤ n + 1) as (g&->&Hgn).
  { destruct (devices self !! d) as [s|] eqn:Hs; [|exists 1; split; [done|lia]].
    pose proof (Hg _ _ Hs). destruct (connected s); [exists (generation s); split; [done|lia]|].
    rewrite checked_in by int_lia. exists (generation s + 1). split; [done|lia]. }
  simpl. split; simpl; try done; try lia.
  - case_decide as Hd; simpl; [subst; by rewrite lookup_insert_eq|].
    by rewrite lookup_insert_ne.
  - assert (held (if decide (d = device (address m)) then (mk_button true (held b), false) else (b, false)).1 = held b)
      as -> by by case_decide.
    rewrite Hh. destruct (is_none_or _ _) eqn:Hn0; [|done]. rewrite forget_device_lookup.
    case_decide as Hd; [|done]. subst d. rewrite Hr; [done|]. rewrite Ha.
    by destruct (devices self !! device (address m)) as [s|]; simpl in *; [destruct (connected s)|].
  - intros v. destruct (is_none_or _ _); [|apply Hf]. rewrite forget_device_lookup.
    case_decide; [done|apply Hf].
  - case_decide as Hd; simpl; [done|]. intros Hb. destruct (is_none_or _ _); [|by apply Hr].
    rewrite forget_device_lookup. case_decide; [done|by apply Hr].
  - intros d' s'. rewrite lookup_insert_Some. intros [[_ <-]|[_ Hs]]; [done|].
    pose proof (Hg _ _ Hs). lia.
Qed.
Lemma disconnect_shows m t n self b d timestamp :
  shows m t n self b →
  shows m t (n + 1) (disconnect d timestamp self).1 (button_step (address m) t (CDisconnect d timestamp) b).1.
Proof.
  intros [Hm Hu Hl Ha Hh Hf Hr H0 Hg].
  unfold disconnect, mbind, stm_bind, st_get, st_lift, st_put, button_step.
  destruct (devices self !! d) as [s|] eqn:Hs; simpl.
  - split; simpl; try done; try lia.
    + case_decide as Hd; simpl; [subst; by rewrite lookup_insert_eq|]. by rewrite lookup_insert_ne.
    + rewrite forget_device_lookup. case_decide as Hd; simpl; [by rewrite decide_True|].
      by rewrite decide_False.
    + intros v. rewrite forget_device_lookup. case_decide; [done|apply Hf].
    + rewrite forget_device_lookup. destruct (decide (d = device (address m))) as [->|Hd]; intros Hb.
      * by rewrite decide_True.
      * rewrite decide_False by congruence. by apply Hr.
    + intros d' s'. rewrite lookup_insert_Some. intros [[_ <-]|[_ Hs']].
      * pose proof (Hg _ _ Hs). simpl. lia.
      * pose proof (Hg _ _ Hs'). lia.
  - case_decide as Hd; simpl; [|split; try done; try lia; intros d' s' Hs'; pose proof (Hg _ _ Hs'); lia].
    subst d. rewrite Hs in Ha. split; simpl; try done; try lia.
    + by rewrite Hs.
    + by rewrite Hr.
    + by rewrite Hr.
    + intros d' s' Hs'. pose proof (Hg _ _ Hs'). lia.
Qed.
Lemma shows_next m t n self b : shows m t n self b → shows m t (n + 1) self b.
Proof.
  intros [Hm Hu Hl Ha Hh Hf Hr H0 Hg]. split; try done; [lia|].
  intros d' s' Hs'. pose proof (Hg _ _ Hs'). lia.
Qed.
(** Calls that concern neither the device nor its samples. *)
Lemma mappings_shows m t n self b l r learned' :
  shows m t n self b → m ∈ l →
  (∀ m', m' ∈ l → m' ∈ mappings self ∨ mapping_id m' ≠ mapping_id m) →
  (∀ r', r = Some r' → learn_mapping_id r' ≠ mapping_id m) →
  shows m t (n + 1) (mk_manager (devices self) l (previous_values self) r learned') b.
Proof.
  intros [Hm Hu Hl Ha Hh Hf Hr H0 Hg] Hml Hl' Hrl. split; simpl; try done; try lia.
  - intros m' Hm' Hid. by destruct (Hl' m' Hm'); [apply Hu|].
  - intros d' s' Hs'. pose proof (Hg _ _ Hs'). lia.
Qed.

Lemma map_input_shows m t n self b input :
  mode m = Button t → shows m t n self b →
  let '(self', intents) := controller_step (CMapInput input) self in
  let '(b', fired) := button_step (address m) t (CMapInput input) b in
  shows m t (n + 1) self' b' ∧ fires (mapping_id m) intents = fired.
Proof.
  intros Hmode Hsh. pose proof Hsh as [Hm Hu Hl Ha Hh Hf Hr H0 Hg].
  assert (Hnext : shows m t (n + 1) self b).
  { by apply shows_next. }
  unfold controller_step, map_input, mbind, stm_bind, st_require, st_get, st_lift, st_put, st_modify, button_step.
  fold (accepted input).
  case_decide as Hacc; simpl.
  2: { rewrite decide_False; [done|]. intros (_&Hacc'&_). apply Hacc. unfold accepted in Hacc'.
       apply andb_true_iff in Hacc' as [? Hv%negb_true_iff]. done. }
  assert (Hacc' : accepted input = true) by (unfold accepted; destruct Hacc as [-> ->]; done).
  destruct (devices self !! device (input_address input)) as [s|] eqn:Hs; simpl.
  2: { rewrite decide_False; [done|]. intros (Hia&_&Hb). rewrite Ha, <-Hia, Hs in Hb. done. }
  case_decide as Hc; simpl.
  2: { rewrite decide_False; [done|]. intros (Hia&_&Hb). rewrite Ha, <-Hia, Hs in Hb. done. }
  set (self1 := mk_manager (<[device (input_address input) := _]> (devices self)) (mappings self)
    (previous_values self) (learn self) (learned self)).
  set (self2 := apply_learn (input_address input) self1).
  assert (Hlearned : m ∈ mappings self2 ∧
    (∀ m', m' ∈ mappings self2 → mapping_id m' = mapping_id m → m' = m) ∧
    (∀ r, learn self2 = Some r → learn_mapping_id r ≠ mapping_id m) ∧
    devices self2 = devices self1 ∧ previous_values self2 = previous_values self).
  { unfold self2, apply_learn. simpl. destruct (learn self) as [r|] eqn:Hlr; simpl.
    2: { split; [exact Hm|]. split; [exact Hu|]. by split. }
    pose proof (Hl r eq_refl). split_and!; [apply elem_of_app; by left| |done..].
    intros m' [?| ->%list_elem_of_singleton]%elem_of_app Hid; [by apply Hu|done]. }
  destruct Hlearned as (Hm2&Hu2&Hl2&Hd2&Hp2).
  destruct (decide (input_address input = address m)) as [Hia|Hia].
  - assert (Hattached : attached b = true) by (rewrite Ha, <-Hia, Hs; done).
    rewrite decide_True by done. split.
    + split; simpl; rewrite ?Hd2, ?Hp2; cbn [devices self1]; try done; try lia.
      * by rewrite <-Hia, lookup_insert_eq.
      * by rewrite Hia, lookup_insert_eq.
      * intros v. rewrite Hia, lookup_insert_eq. intros [= <-]. apply Hacc.
      * intros d' s'. rewrite lookup_insert_Some. intros [[_ <-]|[_ Hs']].
        -- pose proof (Hg _ _ Hs). simpl. lia.
        -- pose proof (Hg _ _ Hs'). lia.
    + rewrite (fires_map_one m t); [|done|by apply list_elem_of_filter|].
      2: { intros m' [_ Hm']%list_elem_of_filter. by apply Hu2. }
      rewrite Hp2, Hia, Hh. destruct (SFleb t (input_value input)) eqn:Hle; simpl; [|done].
      destruct (previous_values self !! address m) as [p|] eqn:Hp; simpl; [|done].
      by apply (pressed_edge t (input_value input)); [apply Hf|].
  - rewrite decide_False by tauto. split.
    + split; simpl; rewrite ?Hd2, ?Hp2; cbn [devices self1]; try done; try lia.
      * rewrite Ha. destruct (decide (device (input_address input) = device (address m))) as [Heq|Hne].
        -- rewrite <-Heq, Hs, lookup_insert_eq. simpl. by rewrite Hc.
        -- by rewrite lookup_insert_ne.
      * by rewrite lookup_insert_ne.
      * intros v. by rewrite lookup_insert_ne; [apply Hf|].
      * rewrite lookup_insert_ne by done. exact Hr.
      * intros d' s'. rewrite lookup_insert_Some. intros [[_ <-]|[_ Hs']].
        -- pose proof (Hg _ _ Hs). simpl. lia.
        -- pose proof (Hg _ _ Hs'). lia.
    + unfold fires. apply not_true_is_false. rewrite existsb_exists. intros (i&Hi&Hx).
      destruct i as [x| |]; [|done..]. apply bool_decide_eq_true in Hx.
      apply list_elem_of_In, list_elem_of_omap in Hi as (m'&[Hm'a Hm']%list_elem_of_filter&Hi).
      assert (m' = m) as ->; [|by rewrite Hm'a in Hia]. apply Hu2; [done|]. rewrite <-Hx. unfold map_one in Hi.
      destruct (mode m'); [|done]. destruct (_ && _); [|done]. by injection Hi as <-.
Qed.

Lemma run_shows m t n ops self b :
  mode m = Button t → shows m t n self b → n + Z.of_nat (length ops) < ty_max U64 →
  Forall (op_keeps (mapping_id m)) ops →
  fires (mapping_id m) <$> run_controller ops self = run_button (address m) t ops b.
Proof.
  intros Hmode. revert n self b. induction ops as [|op ops IH]; intros n self b Hsh Hn Hops; [done|].
  apply Forall_cons in Hops as [Hop Hops]. cbn [length] in Hn. cbn [run_controller run_button].
  assert (Hstep : let '(self', intents) := controller_step op self in
    let '(b', fired) := button_step (address m) t op b in
    shows m t (n + 1) self' b' ∧ fires (mapping_id m) intents = fired).
  { destruct op as [d ts|d ts|mapping|r| | |input]; [..|by apply map_input_shows].
    all: pose proof Hsh as [Hm Hu Hl _ _ _ _ _ _].
    - pose proof (connect_shows m t n self b d ts Hsh ltac:(lia)) as Hc. simpl in *.
      by case_decide.
    - pose proof (disconnect_shows m t n self b d ts Hsh) as Hc. simpl in *. by case_decide.
    - simpl in *. split; [|done]. unfold add_mapping, mbind, stm_bind, st_get, st_require, st_put.
      case_decide; simpl.
      + apply mappings_shows; [done|set_solver| |done].
        intros m' [?| ->%list_elem_of_singleton]%elem_of_app; [by left|by right].
      + by apply shows_next.
    - simpl in *. split; [|done]. unfold begin_learn, mbind, stm_bind, st_get, st_require, st_put.
      repeat (case_decide; simpl).
      + apply mappings_shows; [done|done|by left|]. by intros r' [= <-].
      + by apply shows_next.
      + by apply shows_next.
    - split; [|done]. apply mappings_shows; [done|done|by left|done].
    - split; [|done]. apply mappings_shows; [done|done|by left|done]. }
  destruct (controller_step op self) as [self' intents], (button_step (address m) t op b) as [b' fired].
  destruct Hstep as [Hsh' <-]. rewrite fmap_cons. f_equal. apply (IH (n + 1)); [done|lia|done].
Qed.
End buttons.

(** ** Theorems *)

(** A button of a controller fires on rising edges, and only there: whatever the
    manager is asked and whatever else is mapped and learned, a mapping in button
    mode answers call by call like the button an operator sees, which fires when an
    accepted sample reaches the threshold while the button was released, is released
    by a sample below the threshold or by unplugging the device, and stays held over
    a repeated connection. *)
Theorem button_refines {T} (m : Mapping) t (ops : list (controller_op (T := T))) :
  mode m = Button t → Z.of_nat (length ops) < ty_max U64 →
  Forall (op_keeps (mapping_id m)) ops →
  fires (mapping_id m) <$> run_controller ops (add_mapping m manager_default).1 =
  run_button (address m) t ops (mk_button false false).
Proof.
  intros Hmode Hn Hops. apply (run_shows m t 0); [done| |lia|done].
  unfold add_mapping, mbind, stm_bind, st_get, st_require, st_put, manager_default. simpl.
  split; simpl; try done.
  - by left.
  - by intros m' ->%list_elem_of_singleton.
Qed.
Definition demo_address : ControlAddress := mk_address "pad" "1".
Definition demo_range : ValueRange := mk_range (f64_of_Z 0) (f64_of_Z 127).
Definition demo_mapping : Mapping :=
  mk_mapping "cut" demo_address "transition" demo_range demo_range None (Button (f64_of_Z 64)).
Definition demo_sample (v : Z) : controller_op (T := unit) :=
  CMapInput (mk_input demo_address (f64_of_Z v) None tt).
Definition demo_controller_ops : list (controller_op (T := unit)) :=
  [CConnect "pad" tt; demo_sample 127; demo_sample 100; demo_sample 0; demo_sample 64;
   CConnect "pad" tt; demo_sample 90; CDisconnect "pad" tt; demo_sample 90; CConnect "pad" tt;
   demo_sample 90].
Lemma button_refines_witness :
  run_button demo_address (f64_of_Z 64) demo_controller_ops (mk_button false false) =
    [false; true; false; false; true; false; false; false; false; false; true] ∧
  fires "cut" <$> run_controller demo_controller_ops (add_mapping demo_mapping manager_default).1 =
  run_button demo_address (f64_of_Z 64) demo_controller_ops (mk_button false false).
Proof.
  split; [vm_compute; reflexivity|]. apply (button_refines demo_mapping (f64_of_Z 64)).
  - reflexivity.
  - vm_compute. reflexivity.
  - repeat constructor.
Defined.

(** A learn request is checked when it is armed, not when the sample arrives: a
    mapping added in between ends up sharing its identifier. *)
Lemma learn_duplicates_identifier :
  let start := (connect "pad" tt (manager_default (T := unit))).1 in
  let armed := (begin_learn (mk_learn "cut" "transition" demo_range demo_range None ModeContinuous) start).1 in
  let '(added, r) := add_mapping demo_mapping armed in
  let after := (map_input (mk_input demo_address (f64_of_Z 1) None tt) added).1 in
  r = Ret tt ∧ mapping_id <$> mappings after = ["cut"; "cut"].
Proof. by vm_compute. Qed.
