(* ===== verification/Plans.v ===== *)
(** Frame pacing and plan activation,
    [crates/media/fm-scheduler/src/pacing.rs] and [plan.rs]: the exact rational
    timeline with its cursor, and the execution plan that changes only at frame
    boundaries.

    [FramePacer] and [PlanManager] map to the records of the same names; an
    [Arc<P>] is its value. *)
From S2P Require Import Prelude Types.

(** ** Pacing *)

Definition NANOS_PER_SECOND : Z := 1000000000.

Inductive PacingError :=
  | DeadlineOverflow
  | FrameNumberExhausted.

Record FrameDeadline := mk_deadline { frame : Z; at_ns : Z }.

Record FramePacer := mk_pacer {
  frame_rate : FrameRate;
  origin_ns : Z;
  next_frame : Z
}.

Definition pacer_new (frame_rate : FrameRate) (origin_ns : Z) : FramePacer :=
  mk_pacer frame_rate origin_ns 0.

(** The products are of the type [u128] and not checked. *)
Definition deadline_for (frame : Z) : stm FramePacer PacingError FrameDeadline :=
  self ← st_get;
  scaled ← st_expect (checked U128 (frame * denominator (frame_rate self)));
  scaled ← st_expect (checked U128 (scaled * NANOS_PER_SECOND));
  let offset := scaled `quot` numerator (frame_rate self) in
  at_ns ← st_lift (ok_or DeadlineOverflow
    (value ← checked U128 (origin_ns self + offset); checked U64 value));
  mret (mk_deadline frame at_ns).

Definition next_deadline : stm FramePacer PacingError FrameDeadline :=
  self ← st_get;
  deadline_for (next_frame self).

Definition pacer_restore (frame_rate : FrameRate) (origin_ns next_frame : Z) :
    outcome PacingError FramePacer :=
  let pacer := mk_pacer frame_rate origin_ns next_frame in
  ((_ ← next_deadline;
    _ ← st_lift (ok_or FrameNumberExhausted (checked U64 (next_frame + 1)));
    mret pacer) pacer).2.

Definition advance : stm FramePacer PacingError FrameDeadline :=
  deadline ← next_deadline;
  self ← st_get;
  next ← st_lift (ok_or FrameNumberExhausted (checked U64 (next_frame self + 1)));
  _ ← st_put (mk_pacer (frame_rate self) (origin_ns self) next);
  mret deadline.

Record pacer_wf (p : FramePacer) : Prop := {
  pw_rate : rate_wf (frame_rate p);
  pw_origin : in_ty U64 (origin_ns p);
  pw_next : in_ty U64 (next_frame p)
}.

(** When a frame is due: the rational instant, rounded down once. *)
Definition due_at (p : FramePacer) (frame : Z) : Z :=
  origin_ns p +
  (frame * denominator (frame_rate p) * NANOS_PER_SECOND) `div` numerator (frame_rate p).

Lemma due_at_mono p f g : pacer_wf p → f ≤ g → due_at p f ≤ due_at p g.
Proof.
  intros [[[? ?] [? ?] _] _ _] ?. unfold due_at, NANOS_PER_SECOND.
  apply Z.add_le_mono_l, Z.div_le_mono; [lia|]. nia.
Qed.

(** The unchecked products never overflow. *)
Lemma deadline_for_eq p f :
  pacer_wf p → in_ty U64 f →
  deadline_for f p =
    (p, if decide (due_at p f ≤ ty_max U64) then Ret (mk_deadline f (due_at p f))
        else Throw DeadlineOverflow).
Proof.
  intros [[[? Hn] [? Hd] _] Ho _] Hf.
  unfold deadline_for, due_at, mbind, stm_bind, st_get, st_expect, st_lift, NANOS_PER_SECOND.
  set (num := numerator (frame_rate p)) in *. set (den := denominator (frame_rate p)) in *.
  assert (0 ≤ f * den ≤ 18446744073709551615 * 4294967295) by (unfold in_ty in *; simpl in *; nia).
  rewrite checked_in by int_lia. rewrite checked_in by int_lia.
  rewrite Z.quot_div_nonneg by lia. set (o := _ `div` num).
  assert (0 ≤ o ≤ 18446744073709551615 * 4294967295 * 1000000000).
  { split; [apply Z.div_pos; lia|].
    transitivity (f * den * 1000000000); [|lia]. apply Z.div_le_upper_bound; nia. }
  simpl. rewrite checked_in by int_lia. simpl. unfold checked.
  repeat case_decide; try done; int_lia.
Qed.
Lemma next_deadline_eq p :
  pacer_wf p →
  next_deadline p =
    (p, if decide (due_at p (next_frame p) ≤ ty_max U64)
        then Ret (mk_deadline (next_frame p) (due_at p (next_frame p)))
        else Throw DeadlineOverflow).
Proof. intros Hwf. apply (deadline_for_eq p); [done|apply Hwf]. Qed.

(** [advance] moves by one frame or leaves the cursor where it is. *)
Lemma advance_spec p :
  pacer_wf p →
  match advance p with
  | (p', Ret d) =>
      d = mk_deadline (next_frame p) (due_at p (next_frame p)) ∧
      p' = mk_pacer (frame_rate p) (origin_ns p) (next_frame p + 1) ∧ pacer_wf p' ∧
      due_at p (next_frame p) ≤ ty_max U64
  | (p', Throw DeadlineOverflow) => p' = p ∧ ty_max U64 < due_at p (next_frame p)
  | (p', Throw FrameNumberExhausted) => p' = p ∧ next_frame p = ty_max U64
  | (_, Panic) => False
  end.
Proof.
  intros Hwf. unfold advance, mbind, stm_bind. rewrite next_deadline_eq by done.
  case_decide; [|split; [done|lia]]. unfold st_get, st_lift, st_put, mret, stm_ret; simpl.
  destruct (checked U64 _) eqn:Hc; simpl.
  - apply checked_Some in Hc as [<- ?]. split_and!; [done..| |done].
    by split; [apply Hwf..|].
  - apply checked_None in Hc. destruct Hwf as [? ? Hn]. split; [done|]. int_lia.
Qed.

(** [restore] accepts exactly the cursors that [advance] can consume. *)
Lemma pacer_restore_spec rate origin frame p :
  rate_wf rate → in_ty U64 origin → in_ty U64 frame →
  pacer_restore rate origin frame = Ret p ↔
  p = mk_pacer rate origin frame ∧ due_at p frame ≤ ty_max U64 ∧ frame < ty_max U64.
Proof.
  intros Hr Ho Hf. set (p0 := mk_pacer rate origin frame).
  assert (Hp0 : pacer_wf p0) by done.
  unfold pacer_restore, mbind, stm_bind. fold p0. rewrite next_deadline_eq by done. simpl.
  case_decide as Hd; simpl.
  2: { split; [done|]. intros (->&?&_). done. }
  unfold st_lift. destruct (checked U64 _) eqn:Hc; simpl.
  - apply checked_Some in Hc as [<- Hc]. split; [intros [= <-]|by intros (->&_)].
    split_and!; [done|done|int_lia].
  - apply checked_None in Hc. split; [done|]. intros (_&_&?). int_lia.
Qed.

(** ** Plans *)

Inductive PlanError :=
  | StaleGeneration (current requested : Z)
  | BoundaryNotFuture (last requested : Z)
  | NonMonotonicBoundary (last requested : Z).

Record PendingPlan (P : Type) := mk_pending {
  pending_generation : Z;
  pending_target : Z;
  pending_plan : P
}.
Arguments mk_pending {P}.
Arguments pending_generation {P}.
Arguments pending_target {P}.
Arguments pending_plan {P}.

Record PlanActivation := mk_activation {
  previous_generation : Z;
  activation_generation : Z;
  activation_target : Z;
  activated_frame : Z
}.

Record PlanManager (P : Type) := mk_plans {
  generation : Z;
  current : P;
  pending : option (PendingPlan P);
  last_boundary : option Z
}.
Arguments mk_plans {P}.
Arguments generation {P}.
Arguments current {P}.
Arguments pending {P}.
Arguments last_boundary {P}.

Section plans.
Context {P : Type}.

Definition plans_new (generation : Z) (plan : P) : PlanManager P :=
  mk_plans generation plan None None.
Definition plans_restore (generation : Z) (plan : P) (last_boundary : option Z) :
    PlanManager P :=
  mk_plans generation plan None last_boundary.

Definition set_pending (p : option (PendingPlan P)) (self : PlanManager P) : PlanManager P :=
  mk_plans (generation self) (current self) p (last_boundary self).

Definition plans_schedule (requested target_frame : Z) (plan : P) :
    stm (PlanManager P) PlanError (option (PendingPlan P)) :=
  self ← st_get;
  let newest := from_option pending_generation (generation self) (pending self) in
  _ ← st_require (¬ requested ≤ newest) (StaleGeneration newest requested);
  _ ← match last_boundary self with
      | Some last => st_require (¬ target_frame ≤ last) (BoundaryNotFuture last target_frame)
      | None => mret tt
      end;
  _ ← st_put (set_pending (Some (mk_pending requested target_frame plan)) self);
  mret (pending self).

Definition cancel_pending (self : PlanManager P) : PlanManager P * option (PendingPlan P) :=
  (set_pending None self, pending self).

Definition advance_boundary (frame : Z) :
    stm (PlanManager P) PlanError (option PlanActivation) :=
  self ← st_get;
  _ ← match last_boundary self with
      | Some last => st_require (¬ frame ≤ last) (NonMonotonicBoundary last frame)
      | None => mret tt
      end;
  _ ← st_modify (λ self, mk_plans (generation self) (current self) (pending self) (Some frame));
  self ← st_get;
  match pending self with
  | Some plan =>
      if decide (pending_target plan ≤ frame) then
        _ ← st_put (mk_plans (pending_generation plan) (pending_plan plan) None
                      (last_boundary self));
        mret (Some (mk_activation (generation self) (pending_generation plan)
                      (pending_target plan) frame))
      else mret None
  | None => mret None
  end.

(** A pending plan is newer than the current one and due after the last
    boundary; the boundaries seen so far are those before [next]. *)
Record plans_wf (next : Z) (m : PlanManager P) : Prop := {
  lw_boundary : ∀ last, last_boundary m = Some last → last < next;
  lw_generation : ∀ p, pending m = Some p → generation m < pending_generation p;
  lw_target : ∀ p last, pending m = Some p → last_boundary m = Some last →
    last < pending_target p
}.

Lemma plans_restore_wf next g (plan : P) b :
  (∀ last, b = Some last → last < next) → plans_wf next (plans_restore g plan b).
Proof. by split. Qed.

Lemma plans_schedule_spec next m g target plan :
  plans_wf next m →
  match plans_schedule g target plan m with
  | (m', Ret old) =>
      plans_wf next m' ∧ old = pending m ∧ pending m' = Some (mk_pending g target plan) ∧
      generation m' = generation m ∧ current m' = current m ∧
      last_boundary m' = last_boundary m ∧ generation m < g
  | (m', Throw _) => m' = m
  | (_, Panic) => False
  end.
Proof.
  intros [Hb Hg Ht]. destruct m as [cg c pend lb]; simpl in *.
  unfold plans_schedule, mbind, stm_bind, st_get, st_require, st_put; simpl.
  case_decide as Hnew; [|done].
  assert (cg < g).
  { destruct pend as [p|]; simpl in Hnew; [|lia]. specialize (Hg p eq_refl). lia. }
  destruct lb as [last|]; simpl; [case_decide; [|done]|]; (split_and!; try done; split); simpl.
  - done.
  - by intros ? [= <-].
  - intros ? ? [= <-] [= <-]. simpl. lia.
  - done.
  - by intros ? [= <-].
  - done.
Qed.

(** A boundary activates exactly the pending plan that is due, and never fails
    when it is the next one. *)
Lemma advance_boundary_spec frame m :
  plans_wf frame m →
  ∃ m', plans_wf (frame + 1) m' ∧ last_boundary m' = Some frame ∧
  match pending m with
  | Some p =>
      if decide (pending_target p ≤ frame) then
        advance_boundary frame m =
          (m', Ret (Some (mk_activation (generation m) (pending_generation p)
                            (pending_target p) frame))) ∧
        generation m' = pending_generation p ∧ current m' = pending_plan p ∧ pending m' = None
      else
        advance_boundary frame m = (m', Ret None) ∧
        generation m' = generation m ∧ current m' = current m ∧ pending m' = Some p
  | None =>
      advance_boundary frame m = (m', Ret None) ∧
      generation m' = generation m ∧ current m' = current m ∧ pending m' = None
  end.
Proof.
  intros [Hb Hg Ht]. destruct m as [g c pend lb]; simpl in *.
  unfold advance_boundary, mbind, stm_bind, st_get, st_require, st_modify, st_put; simpl.
  assert (∀ x, (match lb with
    | Some last => λ s, if decide (¬ frame ≤ last) then (s, Ret tt)
                        else (s, Throw (NonMonotonicBoundary last frame))
    | None => mret tt
    end : stm (PlanManager P) PlanError unit) x = (x, Ret tt)) as Hreq.
  { intros x. destruct lb as [last|]; [|done]. specialize (Hb last eq_refl).
    by rewrite decide_True by lia. }
  rewrite Hreq. simpl. destruct pend as [p|]; simpl; [case_decide|];
    eexists; (split; [|split; [|by split_and!]]); try done; split; simpl; try done.
  - intros ? [= <-]. lia.
  - intros ? [= <-]. lia.
  - intros ? ? [= <-] [= <-]. lia.
  - intros ? [= <-]. lia.
Qed.
End plans.
