(* ===== verification/Scheduler.v ===== *)
(** The frame scheduler, [crates/media/fm-scheduler/src/scheduler.rs] and
    [telemetry.rs]: one tick per frame of an exact rational timeline, each
    taking the actions that are due and activating the plan that is due.

    [FrameScheduler] maps to the record of the same name; its parts are those of
    [Plans], [Actions] and [Queues].  [call] and [call_step] are the public
    methods a client can interleave. *)
From S2P Require Import Prelude Types BTree Actions Queues Plans.

(** ** Telemetry *)

Record SchedulerTelemetry := mk_telemetry {
  late_frames : Z;
  dropped_frames : Z;
  realized_frames : Z
}.
Definition record_late (t : SchedulerTelemetry) : SchedulerTelemetry :=
  mk_telemetry (saturating U64 (late_frames t + 1)) (dropped_frames t) (realized_frames t).
Definition record_dropped (t : SchedulerTelemetry) : SchedulerTelemetry :=
  mk_telemetry (late_frames t) (saturating U64 (dropped_frames t + 1)) (realized_frames t).
Definition record_realized (t : SchedulerTelemetry) : SchedulerTelemetry :=
  mk_telemetry (late_frames t) (dropped_frames t) (saturating U64 (realized_frames t + 1)).

(** ** Scheduler *)

Inductive TickError :=
  | TooEarly (now_ns deadline_ns : Z)
  | Pacing (e : PacingError)
  | Plan (e : PlanError).

Section scheduler.
Context {I : Type} `{Countable I} {F A P : Type}.

Record FrameTick := mk_tick {
  deadline : FrameDeadline;
  late : bool;
  tick_actions : list (ScheduledAction A);
  plan_generation : Z;
  plan : P;
  activation : option PlanActivation
}.

Record FrameScheduler := mk_scheduler {
  pacer : FramePacer;
  inputs : gmap I (BoundedQueue F);
  actions : ActionQueue A;
  plans : PlanManager P;
  telemetry : SchedulerTelemetry
}.

Definition set_pacer (x : FramePacer) (s : FrameScheduler) : FrameScheduler :=
  mk_scheduler x (inputs s) (actions s) (plans s) (telemetry s).
Definition set_inputs (x : gmap I (BoundedQueue F)) (s : FrameScheduler) : FrameScheduler :=
  mk_scheduler (pacer s) x (actions s) (plans s) (telemetry s).
Definition set_actions (x : ActionQueue A) (s : FrameScheduler) : FrameScheduler :=
  mk_scheduler (pacer s) (inputs s) x (plans s) (telemetry s).
Definition set_plans (x : PlanManager P) (s : FrameScheduler) : FrameScheduler :=
  mk_scheduler (pacer s) (inputs s) (actions s) x (telemetry s).
Definition set_telemetry (x : SchedulerTelemetry) (s : FrameScheduler) : FrameScheduler :=
  mk_scheduler (pacer s) (inputs s) (actions s) (plans s) x.

Definition scheduler_new (frame_rate : FrameRate) (origin_ns generation : Z) (plan : P) :
    FrameScheduler :=
  mk_scheduler (pacer_new frame_rate origin_ns) ∅ queue_default
    (plans_new generation plan) (mk_telemetry 0 0 0).

Definition scheduler_restore (frame_rate : FrameRate) (origin_ns next_frame generation : Z)
    (plan : P) : outcome PacingError FrameScheduler :=
  match pacer_restore frame_rate origin_ns next_frame with
  | Ret pacer =>
      Ret (mk_scheduler pacer ∅ queue_default
             (plans_restore generation plan (checked U64 (next_frame - 1)))
             (mk_telemetry 0 0 0))
  | Throw e => Throw e
  | Panic => Panic
  end.

Definition schedule_action (target_frame : Z) (action : A) :
    stm FrameScheduler ActionError Z :=
  st_zoom actions set_actions (schedule target_frame action).
Definition cancel_action (id : Z) (s : FrameScheduler) :
    FrameScheduler * option (ScheduledAction A) :=
  let '(q, r) := cancel id (actions s) in (set_actions q s, r).
Definition supersede_action (superseded target_frame : Z) (action : A) :
    stm FrameScheduler ActionError (Z * ScheduledAction A) :=
  st_zoom actions set_actions (supersede superseded target_frame action).
Definition schedule_plan (generation target_frame : Z) (plan : P) :
    stm FrameScheduler PlanError (option (PendingPlan P)) :=
  st_zoom plans set_plans (plans_schedule generation target_frame plan).
Definition cancel_pending_plan (s : FrameScheduler) :
    FrameScheduler * option (PendingPlan P) :=
  let '(m, r) := cancel_pending (plans s) in (set_plans m s, r).
Definition register_input (input : I) (capacity : nat) (policy : QueuePolicy) :
    stm FrameScheduler QueueConfigError unit :=
  st_zoom inputs set_inputs (register input capacity policy).
Definition push_frame (input : I) (frame : F) :
    stm FrameScheduler (InputQueueError F) (QueuePush F) :=
  outcome ← st_zoom inputs set_inputs (inputs_push input frame);
  _ ← if dropped outcome
      then st_modify (λ s, set_telemetry (record_dropped (telemetry s)) s)
      else mret tt;
  mret outcome.
Definition pop_frame (input : I) (s : FrameScheduler) : FrameScheduler * option F :=
  let '(q, r) := inputs_pop input (inputs s) in (set_inputs q s, r).

Definition tick (now_ns : Z) : stm FrameScheduler TickError FrameTick :=
  deadline ← st_zoom pacer set_pacer (st_map_err Pacing next_deadline);
  _ ← st_require (¬ now_ns < at_ns deadline) (TooEarly now_ns (at_ns deadline));
  deadline ← st_zoom pacer set_pacer (st_map_err Pacing advance);
  activation ← st_zoom plans set_plans
    (st_map_err Plan (advance_boundary (frame deadline)));
  self ← st_get;
  let '(queue, due) := drain_due (frame deadline) (actions self) in
  _ ← st_put (set_actions queue self);
  let late := bool_decide (at_ns deadline < now_ns) in
  _ ← if late then st_modify (λ s, set_telemetry (record_late (telemetry s)) s) else mret tt;
  _ ← st_modify (λ s, set_telemetry (record_realized (telemetry s)) s);
  self ← st_get;
  mret (mk_tick deadline late due (generation (plans self)) (current (plans self)) activation).

(** ** The invariant *)

Record scheduler_wf (s : FrameScheduler) : Prop := {
  sw_pacer : pacer_wf (pacer s);
  sw_inputs : inputs_wf (inputs s);
  sw_actions : queue_wf (actions s);
  sw_plans : plans_wf (next_frame (pacer s)) (plans s);
  sw_late : in_ty U64 (late_frames (telemetry s));
  sw_dropped : in_ty U64 (dropped_frames (telemetry s));
  sw_realized : in_ty U64 (realized_frames (telemetry s))
}.

(** ** Calls *)

Inductive call :=
  | ScheduleAction (target_frame : Z) (action : A)
  | CancelAction (id : Z)
  | SupersedeAction (superseded target_frame : Z) (action : A)
  | SchedulePlan (generation target_frame : Z) (plan : P)
  | CancelPendingPlan
  | RegisterInput (input : I) (capacity : nat) (policy : QueuePolicy)
  | PushFrame (input : I) (frame : F)
  | PopFrame (input : I)
  | Tick (now_ns : Z).

(** What the answer of a call says about actions and frames. *)
Inductive answer :=
  | ActionScheduled (a : ScheduledAction A)
  | ActionCancelled (a : ScheduledAction A)
  | ActionSuperseded (old new : ScheduledAction A)
  | Ticked (t : FrameTick)
  | TickFailed (e : TickError)
  | Other
  | Panicked.

Definition call_step (c : call) (s : FrameScheduler) : FrameScheduler * answer :=
  match c with
  | ScheduleAction f a =>
      match schedule_action f a s with
      | (s, Ret id) => (s, ActionScheduled (mk_action id f a))
      | (s, Throw _) => (s, Other)
      | (s, Panic) => (s, Panicked)
      end
  | CancelAction id =>
      match cancel_action id s with
      | (s, Some a) => (s, ActionCancelled a)
      | (s, None) => (s, Other)
      end
  | SupersedeAction old f a =>
      match supersede_action old f a s with
      | (s, Ret (id, previous)) => (s, ActionSuperseded previous (mk_action id f a))
      | (s, Throw _) => (s, Other)
      | (s, Panic) => (s, Panicked)
      end
  | SchedulePlan g f p =>
      match schedule_plan g f p s with
      | (s, Panic) => (s, Panicked)
      | (s, _) => (s, Other)
      end
  | CancelPendingPlan => ((cancel_pending_plan s).1, Other)
  | RegisterInput i c p =>
      match register_input i c p s with
      | (s, Panic) => (s, Panicked)
      | (s, _) => (s, Other)
      end
  | PushFrame i x =>
      match push_frame i x s with
      | (s, Panic) => (s, Panicked)
      | (s, _) => (s, Other)
      end
  | PopFrame i => ((pop_frame i s).1, Other)
  | Tick now =>
      match tick now s with
      | (s, Ret t) => (s, Ticked t)
      | (s, Throw e) => (s, TickFailed e)
      | (s, Panic) => (s, Panicked)
      end
  end.

Fixpoint call_run (calls : list call) (s : FrameScheduler) : FrameScheduler * list answer :=
  match calls with
  | [] => (s, [])
  | c :: calls =>
      let '(s, r) := call_step c s in
      let '(s, rs) := call_run calls s in (s, r :: rs)
  end.

(** The actions that a client was given an identifier for, those it took back
    and those a tick delivered; the frames that were realized. *)
Definition scheduled (r : answer) : list (ScheduledAction A) :=
  match r with
  | ActionScheduled a => [a]
  | ActionSuperseded _ new => [new]
  | _ => []
  end.
Definition withdrawn (r : answer) : list (ScheduledAction A) :=
  match r with
  | ActionCancelled a => [a]
  | ActionSuperseded old _ => [old]
  | _ => []
  end.
Definition delivered (r : answer) : list (ScheduledAction A) :=
  match r with
  | Ticked t => tick_actions t
  | _ => []
  end.
Definition realized (r : answer) : list FrameTick :=
  match r with
  | Ticked t => [t]
  | _ => []
  end.
End scheduler.
Arguments FrameTick : clear implicits.
Arguments FrameScheduler I {_ _} F A P.
Arguments call : clear implicits.
Arguments answer : clear implicits.

(** ** Lemmas *)

Section lemmas.
Context {I : Type} `{Countable I} {F A P : Type}.
Implicit Types (s : FrameScheduler I F A P) (c : call I F A P) (t : FrameTick A P).

Lemma scheduler_new_wf rate origin g (p : P) :
  rate_wf rate → in_ty U64 origin →
  scheduler_wf (scheduler_new rate origin g p : FrameScheduler I F A P).
Proof.
  intros. split; simpl; try done.
  apply queue_default_wf.
Qed.

Definition due_of s : Z := due_at (pacer s) (next_frame (pacer s)).

(** What one tick does, in every case. *)
Lemma tick_spec now s :
  scheduler_wf s →
  match tick now s with
  | (s', Ret t) =>
      scheduler_wf s' ∧
      deadline t = mk_deadline (next_frame (pacer s)) (due_of s) ∧
      due_of s ≤ now ∧ due_of s ≤ ty_max U64 ∧ late t = bool_decide (due_of s < now) ∧
      pacer s' = mk_pacer (frame_rate (pacer s)) (origin_ns (pacer s))
                   (next_frame (pacer s) + 1) ∧
      inputs s' = inputs s ∧
      next_sequence (actions s') = next_sequence (actions s) ∧
      Actions.pending (actions s) = tick_actions t ++ Actions.pending (actions s') ∧
      Forall (λ a, target_frame a ≤ next_frame (pacer s)) (tick_actions t) ∧
      Forall (λ a, next_frame (pacer s) < target_frame a) (Actions.pending (actions s')) ∧
      plan_generation t = generation (plans s') ∧ plan t = current (plans s') ∧
      match Plans.pending (plans s) with
      | Some p =>
          if decide (pending_target p ≤ next_frame (pacer s)) then
            activation t = Some (mk_activation (generation (plans s)) (pending_generation p)
                                   (pending_target p) (next_frame (pacer s))) ∧
            generation (plans s') = pending_generation p ∧
            current (plans s') = pending_plan p ∧ Plans.pending (plans s') = None
          else
            activation t = None ∧ generation (plans s') = generation (plans s) ∧
            current (plans s') = current (plans s) ∧ Plans.pending (plans s') = Some p
      | None =>
          activation t = None ∧ generation (plans s') = generation (plans s) ∧
          current (plans s') = current (plans s) ∧ Plans.pending (plans s') = None
      end ∧
      telemetry s' = record_realized
        (if bool_decide (due_of s < now) then record_late (telemetry s) else telemetry s)
  | (s', Throw (TooEarly n d)) => s' = s ∧ n = now ∧ d = due_of s ∧ now < d
  | (s', Throw (Pacing DeadlineOverflow)) => s' = s ∧ ty_max U64 < due_of s
  | (s', Throw (Pacing FrameNumberExhausted)) => s' = s ∧ next_frame (pacer s) = ty_max U64
  | (_, Throw (Plan _)) => False
  | (_, Panic) => False
  end.
Proof.
  intros Hwf. destruct s as [pc inp act pl tel]. destruct Hwf as [Hp Hi Ha Hpl Hl Hd Hr].
  simpl in *. unfold due_of. simpl.
  pose proof (advance_spec pc Hp) as Hadv.
  unfold tick, mbind, stm_bind, st_zoom, st_map_err; simpl.
  rewrite next_deadline_eq by done. simpl.
  case_decide as Hov; simpl; [|split; [done|lia]].
  unfold st_require. simpl. case_decide as Hearly; simpl; [|by split_and!; [..|lia]].
  destruct (advance pc) as [pc' [d|[]|]]; simpl; [| |by destruct Hadv as [-> ->]|done].
  2: { by destruct Hadv as [-> ?]. }
  destruct Hadv as (->&->&Hp'&_). simpl.
  destruct (advance_boundary_spec _ _ Hpl) as (pl'&Hpl'&_&Hb).
  assert (Hab : ∃ o, advance_boundary (next_frame pc) pl = (pl', Ret o)).
  { destruct (Plans.pending pl); [case_decide|]; destruct Hb as [Hb _]; eauto. }
  destruct Hab as [o Hab]. rewrite Hab in Hb |- *. simpl.
  destruct (drain_due (next_frame pc) act) as [act' due] eqn:Hdr.
  apply drain_due_spec in Hdr as (Ha'&Hn&Hpe&H1&H2); [|done].
  assert (Hlast : ∀ tel', in_ty U64 (late_frames tel') → in_ty U64 (dropped_frames tel') →
    scheduler_wf (mk_scheduler (mk_pacer (frame_rate pc) (origin_ns pc) (next_frame pc + 1))
      inp act' pl' (record_realized tel') : FrameScheduler I F A P)).
  { intros tel' ??. split; simpl; try done. by apply saturating_in. }
  assert (Hact : match Plans.pending pl with
      | Some p =>
          if decide (pending_target p ≤ next_frame pc) then
            o = Some (mk_activation (generation pl) (pending_generation p)
                        (pending_target p) (next_frame pc)) ∧
            generation pl' = pending_generation p ∧ current pl' = pending_plan p ∧
            Plans.pending pl' = None
          else o = None ∧ generation pl' = generation pl ∧ current pl' = current pl ∧
            Plans.pending pl' = Some p
      | None => o = None ∧ generation pl' = generation pl ∧ current pl' = current pl ∧
            Plans.pending pl' = None
      end).
  { destruct (Plans.pending pl) as [p|]; [case_decide|];
      destruct Hb as ([= ->]&?&?&?); done. }
  clear Hb. destruct (bool_decide (due_at pc (next_frame pc) < now)) eqn:Hlate; simpl.
  - split; [apply Hlast; [by apply saturating_in|done]|]. split_and!; try done. lia.
  - split; [by apply Hlast|]. split_and!; try done. lia.
Qed.

Lemma inputs_push_wf i x (q : gmap I (BoundedQueue F)) :
  inputs_wf q → inputs_wf (inputs_push i x q).1 ∧ (inputs_push i x q).2 ≠ Panic.
Proof.
  intros Hwf. pose proof (input_step_spec (CPush i x) q Hwf) as [Hwf' _]. simpl in Hwf'.
  destruct (inputs_push i x q) as [q' r] eqn:Hp. split; [done|]. simpl.
  revert Hp. unfold inputs_push. destruct (q !! i) as [b|] eqn:Hb; [|by intros [= _ <-]].
  destruct (queue_push x b) as [b' r'] eqn:Hx. intros [= _ <-] ->.
  apply queue_push_spec in Hx as [_ Hx]; [done|by apply (Hwf i)].
Qed.
Lemma register_wf i n p (q : gmap I (BoundedQueue F)) :
  inputs_wf q → inputs_wf (register i n p q).1 ∧ (register i n p q).2 ≠ Panic.
Proof.
  intros Hwf. pose proof (input_step_spec (CRegister i n p) q Hwf) as [Hwf' _]. simpl in Hwf'.
  split; [by destruct (register i n p q)|].
  unfold register, mbind, stm_bind, st_get, st_require, st_lift, queue_new; simpl.
  repeat (case_decide; simpl); done.
Qed.
Lemma inputs_pop_wf i (q : gmap I (BoundedQueue F)) :
  inputs_wf q → inputs_wf (inputs_pop i q).1.
Proof.
  intros Hwf. pose proof (input_step_spec (CPop i) q Hwf) as [Hwf' _]. simpl in Hwf'.
  by destruct (inputs_pop i q).
Qed.

(** One call: the invariant is kept, nothing panics, identifiers are fresh and
    no action is lost or duplicated. *)
Definition call_ok s s' (r : answer A P) : Prop :=
  scheduler_wf s' ∧ r ≠ Panicked ∧
  next_sequence (actions s) ≤ next_sequence (actions s') ∧
  Forall (λ a, next_sequence (actions s) < sa_id a ≤ next_sequence (actions s')) (scheduled r) ∧
  (length (scheduled r) ≤ 1)%nat ∧
  Actions.pending (actions s) ++ scheduled r ≡ₚ
    withdrawn r ++ delivered r ++ Actions.pending (actions s').

Lemma silent_ok s s' r :
  scheduler_wf s' → actions s' = actions s → r ≠ Panicked →
  scheduled r = [] → withdrawn r = [] → delivered r = [] → call_ok s s' r.
Proof.
  intros Hwf Ha Hr Hsch Hw Hdl. unfold call_ok. rewrite Ha, Hsch, Hw, Hdl, app_nil_r.
  split_and!; first [done|lia|simpl; lia|by constructor].
Qed.
Lemma actions_ok s q r :
  scheduler_wf s → queue_wf q → r ≠ Panicked →
  next_sequence (actions s) ≤ next_sequence q →
  Forall (λ a, next_sequence (actions s) < sa_id a ≤ next_sequence q) (scheduled r) →
  (length (scheduled r) ≤ 1)%nat →
  Actions.pending (actions s) ++ scheduled r ≡ₚ
    withdrawn r ++ delivered r ++ Actions.pending q →
  call_ok s (set_actions q s) r.
Proof. intros [] **. split; [by split|done]. Qed.

Lemma call_step_spec c s :
  scheduler_wf s → call_ok s (call_step c s).1 (call_step c s).2.
Proof.
  intros Hwf. pose proof Hwf as [Hp Hi Ha Hpl Hl Hd Hr].
  assert (Hself : ∀ r, r = Other → call_ok s (set_actions (actions s) s) r).
  { intros r ->. by apply silent_ok; [split|..]. }
  destruct c as [target act|id|superseded target act|g target x| |i n pol|i x|i|now]; simpl.
  - unfold schedule_action, st_zoom. pose proof (schedule_spec target act _ Ha) as Hs.
    destruct (schedule target act (actions s)) as [q' [id|e|]]; simpl;
      [|subst; by apply Hself|done].
    destruct Hs as (?&->&Hn&Hpe). apply actions_ok; simpl; try first [done|lia].
    + constructor; [|constructor]. simpl. lia.
    + by rewrite Hpe, spec_insert_Permutation, Permutation_app_comm.
  - unfold cancel_action. destruct (cancel id (actions s)) as [q' r] eqn:Hc.
    pose proof (cancel_Permutation _ _ _ _ Ha Hc) as Hperm.
    apply cancel_spec in Hc as (Hwf'&Hn&Hrr); [|done]. destruct r as [a|]; simpl in *.
    + apply actions_ok; simpl; rewrite ?app_nil_r; first [done|lia|simpl; lia|by constructor].
    + destruct Hrr as [-> _]. by apply Hself.
  - unfold supersede_action, st_zoom.
    pose proof (supersede_spec superseded target act _ Ha) as Hs.
    destruct (supersede superseded target act (actions s)) as [q' [[id old]|e|]]; simpl;
      [|subst; by apply Hself|done].
    destruct Hs as (?&->&Hn&Hpe&Hpe'). apply actions_ok; simpl; try first [done|lia].
    + constructor; [|constructor]. simpl. lia.
    + rewrite Hpe', spec_insert_Permutation. rewrite Hpe at 1. simpl.
      constructor. by rewrite Permutation_app_comm.
  - unfold schedule_plan, st_zoom.
    pose proof (plans_schedule_spec _ (plans s) g target x Hpl) as Hs.
    destruct (plans_schedule g target x (plans s)) as [m' [o|e|]]; simpl; [| |done].
    + apply silent_ok; try done. split; try done. by destruct Hs as [? _].
    + subst. by apply silent_ok; try split.
  - apply silent_ok; try done. split; try done. by destruct Hpl.
  - unfold register_input, st_zoom. pose proof (register_wf i n pol _ Hi) as [? Hnp].
    by destruct (register i n pol (inputs s)) as [q' [o|e|]]; simpl in *;
      try apply silent_ok; try split.
  - unfold push_frame, mbind, stm_bind, st_zoom.
    pose proof (inputs_push_wf i x _ Hi) as [? Hnp].
    destruct (inputs_push i x (inputs s)) as [q' [o|e|]]; simpl in *;
      [|by apply silent_ok; try split|done].
    destruct (dropped o); simpl; apply silent_ok; try done; split; try done.
    by apply saturating_in.
  - unfold pop_frame. pose proof (inputs_pop_wf i _ Hi).
    destruct (inputs_pop i (inputs s)) as [q' o]. simpl in *. by apply silent_ok; try split.
  - pose proof (tick_spec now s Hwf) as Ht.
    destruct (tick now s) as [s' [t|e|]]; [|destruct e as [| [] |]|done]; simpl.
    + destruct Ht as (?&_&_&_&_&_&_&Hn&Hpe&_). unfold call_ok. simpl.
      rewrite app_nil_r, <-Hpe. split_and!; first [done|lia|simpl; lia|by constructor].
    + destruct Ht as [-> _]. by apply silent_ok.
    + destruct Ht as [-> _]. by apply silent_ok.
    + destruct Ht as [-> _]. by apply silent_ok.
    + done.
Qed.

(** The pacer moves by one frame with each tick realized and otherwise stays;
    plan generations never go back. *)
Lemma call_step_frames c s :
  scheduler_wf s →
  let s' := (call_step c s).1 in
  let ticks := realized (call_step c s).2 in
  frame_rate (pacer s') = frame_rate (pacer s) ∧ origin_ns (pacer s') = origin_ns (pacer s) ∧
  next_frame (pacer s') = next_frame (pacer s) + Z.of_nat (length ticks) ∧
  deadline <$> ticks =
    (λ f, mk_deadline f (due_at (pacer s) f)) <$> seqZ (next_frame (pacer s)) (Z.of_nat (length ticks)) ∧
  generation (plans s) ≤ generation (plans s') ∧
  Forall (λ t, plan_generation t = generation (plans s')) ticks ∧ (length ticks ≤ 1)%nat.
Proof.
  intros Hwf s' ticks.
  assert (Hsame : pacer s' = pacer s → generation (plans s') = generation (plans s) → ticks = [] →
    frame_rate (pacer s') = frame_rate (pacer s) ∧ origin_ns (pacer s') = origin_ns (pacer s) ∧
    next_frame (pacer s') = next_frame (pacer s) + Z.of_nat (length ticks) ∧
    deadline <$> ticks =
      (λ f, mk_deadline f (due_at (pacer s) f)) <$> seqZ (next_frame (pacer s)) (Z.of_nat (length ticks)) ∧
    generation (plans s) ≤ generation (plans s') ∧
    Forall (λ t, plan_generation t = generation (plans s')) ticks ∧ (length ticks ≤ 1)%nat).
  { intros -> -> ->. simpl. split_and!; first [done|lia|by constructor]. }
  pose proof Hwf as [_ _ _ Hpl _ _ _].
  subst s' ticks. destruct c as [target act|id|superseded target act|g target x| |i n pol|i x|i|now];
    simpl in *.
  - unfold schedule_action, st_zoom in *.
    destruct (schedule _ _ _) as [q' [a|e|]]; by apply Hsame.
  - unfold cancel_action in *. destruct (cancel _ _) as [q' [a|]]; by apply Hsame.
  - unfold supersede_action, st_zoom in *.
    destruct (supersede _ _ _ _) as [q' [[a b]|e|]]; by apply Hsame.
  - unfold schedule_plan, st_zoom in *.
    pose proof (plans_schedule_spec _ (plans s) g target x Hpl) as Hs.
    destruct (plans_schedule _ _ _ _) as [m' [o|e|]]; apply Hsame; try done.
    + by destruct Hs as (_&_&_&?&_).
    + by subst.
  - by apply Hsame.
  - unfold register_input, st_zoom in *. destruct (register _ _ _ _) as [q' [a|e|]]; by apply Hsame.
  - unfold push_frame, mbind, stm_bind, st_zoom in *.
    destruct (inputs_push _ _ _) as [q' [a|e|]]; [destruct (dropped a)| |]; by apply Hsame.
  - unfold pop_frame in *. destruct (inputs_pop _ _); by apply Hsame.
  - pose proof (tick_spec now s Hwf) as Ht.
    destruct (tick now s) as [s' [t|e|]]; simpl in *; [|destruct e as [| [] |]|done];
      [|destruct Ht as [-> _]; by apply Hsame..|done].
    destruct Ht as (?&Hd&_&_&_&Hp&_&_&_&_&_&Hg&_&Hact&_).
    rewrite Hp, Hd. split_and!; try done.
    + destruct (Plans.pending (plans s)) as [pp|] eqn:Hpp; [case_decide|].
      * destruct Hact as (_&->&_). by apply Z.lt_le_incl, (lw_generation _ _ Hpl).
      * destruct Hact as (_&->&_). done.
      * destruct Hact as (_&->&_). done.
    + by repeat constructor.
Qed.

Lemma call_run_spec calls s :
  scheduler_wf s →
  let '(s', rs) := call_run calls s in
  scheduler_wf s' ∧ (Panicked ∉ rs) ∧
  next_sequence (actions s) ≤ next_sequence (actions s') ∧
  StronglySorted Z.lt (sa_id <$> (rs ≫= scheduled)) ∧
  Forall (λ id, next_sequence (actions s) < id) (sa_id <$> (rs ≫= scheduled)) ∧
  Actions.pending (actions s) ++ (rs ≫= scheduled) ≡ₚ
    (rs ≫= withdrawn) ++ (rs ≫= delivered) ++ Actions.pending (actions s').
Proof.
  revert s. induction calls as [|c calls IH]; intros s Hwf; cbn [call_run].
  { simpl. rewrite app_nil_r. split_and!; try done; first [set_solver|by constructor]. }
  destruct (call_step_spec c s Hwf) as (Hwf1&Hnp&Hn&Hid&Hlen&Hperm).
  destruct (call_step c s) as [s1 r]. cbn [fst snd] in *.
  specialize (IH s1 Hwf1). destruct (call_run calls s1) as [s2 rs].
  destruct IH as (?&?&?&Hs&Hlo&Hp). rewrite !bind_cons, fmap_app.
  assert (Forall (λ id, next_sequence (actions s) < id) (sa_id <$> (rs ≫= scheduled))).
  { eapply Forall_impl; [exact Hlo|]. simpl. lia. }
  split_and!; [done|set_solver|lia| | |].
  - destruct (scheduled r) as [|a [|]]; simpl in *; [done| |lia].
    constructor; [done|]. apply Forall_cons_1 in Hid as [Hid _].
    eapply Forall_impl; [exact Hlo|]. simpl. lia.
  - apply Forall_app. split; [|done]. apply Forall_fmap.
    eapply Forall_impl; [exact Hid|]. simpl. lia.
  - rewrite (assoc_L (++)), Hperm, <-!(assoc_L (++)), Hp. solve_Permutation.
Qed.

Lemma call_run_frames calls s :
  scheduler_wf s →
  let '(s', rs) := call_run calls s in
  let ticks := rs ≫= realized in
  frame_rate (pacer s') = frame_rate (pacer s) ∧ origin_ns (pacer s') = origin_ns (pacer s) ∧
  next_frame (pacer s') = next_frame (pacer s) + Z.of_nat (length ticks) ∧
  deadline <$> ticks =
    (λ f, mk_deadline f (due_at (pacer s) f)) <$> seqZ (next_frame (pacer s)) (Z.of_nat (length ticks)) ∧
  StronglySorted Z.le (plan_generation <$> ticks) ∧
  Forall (Z.le (generation (plans s))) (plan_generation <$> ticks).
Proof.
  revert s. induction calls as [|c calls IH]; intros s Hwf; cbn [call_run].
  { simpl. split_and!; first [done|lia|by constructor]. }
  destruct (call_step_spec c s Hwf) as [Hwf1 _].
  destruct (call_step_frames c s Hwf) as (Hr&Ho&Hn&Hd&Hg&Hgt&Hlen).
  destruct (call_step c s) as [s1 r]. cbn [fst snd] in *.
  specialize (IH s1 Hwf1). destruct (call_run calls s1) as [s2 rs]. simpl in IH.
  destruct IH as (Hr2&Ho2&Hn2&Hd2&Hs&Hlo). cbv zeta. rewrite !bind_cons, !fmap_app, length_app.
  split_and!; [congruence|congruence|lia| | |].
  - rewrite Nat2Z.inj_add, seqZ_app, fmap_app by lia. f_equal; [done|].
    rewrite Hd2, Hn. apply list_fmap_ext. intros _ f _. unfold due_at. by rewrite Hr, Ho.
  - destruct (realized r) as [|t [|]]; simpl in *; [done| |lia].
    apply Forall_cons_1 in Hgt as [-> _]. by constructor.
  - apply Forall_app. split.
    + apply Forall_fmap. eapply Forall_impl; [exact Hgt|]. simpl. intros t ->. done.
    + eapply Forall_impl; [exact Hlo|]. simpl. lia.
Qed.
End lemmas.

(** ** Theorems *)

Section theorems.
Context {I : Type} `{Countable I} {F A P : Type}.
Implicit Types (s : FrameScheduler I F A P).

(** A tick never panics and never reports a plan error; it fails only before
    its deadline or when a 64-bit counter is exhausted, and then leaves the
    scheduler as it was; otherwise it realizes the next frame at its exact
    deadline and takes exactly the actions whose target has come, in order. *)
Theorem tick_exact now s s' r :
  scheduler_wf s → tick now s = (s', r) →
  let due := due_at (pacer s) (next_frame (pacer s)) in
  match r with
  | Ret t =>
      deadline t = mk_deadline (next_frame (pacer s)) due ∧ due ≤ now ∧
      (late t ↔ due < now) ∧ next_frame (pacer s') = next_frame (pacer s) + 1 ∧
      Actions.pending (actions s) = tick_actions t ++ Actions.pending (actions s') ∧
      (∀ a, a ∈ tick_actions t → target_frame a ≤ next_frame (pacer s)) ∧
      (∀ a, a ∈ Actions.pending (actions s') → next_frame (pacer s) < target_frame a)
  | Throw (TooEarly n d) => s' = s ∧ n = now ∧ d = due ∧ now < due
  | Throw (Pacing DeadlineOverflow) => s' = s ∧ ty_max U64 < due
  | Throw (Pacing FrameNumberExhausted) => s' = s ∧ next_frame (pacer s) = ty_max U64
  | Throw (Plan _) | Panic => False
  end ∧ scheduler_wf s'.
Proof.
  intros Hwf Ht. pose proof (tick_spec now s Hwf) as Hs. rewrite Ht in Hs. unfold due_of in Hs.
  destruct r as [t|[n d|[|]|e]|]; [|naive_solver..].
  destruct Hs as (?&Hd&?&_&Hl&Hp&_&_&Hpe&H1&H2&_). rewrite Forall_forall in H1, H2.
  split; [|done]. split_and!; try done.
  - rewrite Hl. by rewrite bool_decide_spec.
  - by rewrite Hp.
Qed.

(** A tick activates the pending plan at the first frame boundary at or after
    its target, never earlier and never twice, and realizes its frame with the
    plan then current. *)
Theorem tick_activates_plan now s s' t :
  scheduler_wf s → tick now s = (s', Ret t) →
  (plan_generation t, plan t) = (generation (plans s'), current (plans s')) ∧
  match Plans.pending (plans s) with
  | Some p =>
      if decide (pending_target p ≤ next_frame (pacer s)) then
        activation t = Some (mk_activation (generation (plans s)) (pending_generation p)
          (pending_target p) (next_frame (pacer s))) ∧
        (plan_generation t, plan t) = (pending_generation p, pending_plan p) ∧
        generation (plans s) < plan_generation t ∧ Plans.pending (plans s') = None
      else activation t = None ∧ plan_generation t = generation (plans s) ∧
        plan t = current (plans s) ∧ Plans.pending (plans s') = Some p
  | None => activation t = None ∧ plan_generation t = generation (plans s) ∧
        plan t = current (plans s) ∧ Plans.pending (plans s') = None
  end.
Proof.
  intros Hwf Ht. pose proof (tick_spec now s Hwf) as Hs. rewrite Ht in Hs.
  destruct Hs as (_&_&_&_&_&_&_&_&_&_&_&->&->&Hact&_). split; [done|].
  destruct (Plans.pending (plans s)) as [p|] eqn:Hp; [case_decide|done]; [|done].
  destruct Hact as (?&->&->&?). split_and!; try done.
  by apply (lw_generation _ _ (sw_plans _ Hwf)).
Qed.

(** C32: Every scheduled action is delivered at most once and never disappears:
    over any history of a new scheduler the identifiers handed out are distinct
    and increasing, and the actions scheduled are, as a multiset, those
    withdrawn by a cancellation or a replacement, those delivered by a tick and
    those still pending; no call panics. *)
Theorem actions_exactly_once rate origin g (p : P) (calls : list (call I F A P)) :
  rate_wf rate → in_ty U64 origin →
  let '(s, rs) := call_run calls (scheduler_new rate origin g p) in
  (Panicked ∉ rs) ∧
  StronglySorted Z.lt (sa_id <$> (rs ≫= scheduled)) ∧
  rs ≫= scheduled ≡ₚ
    (rs ≫= withdrawn) ++ (rs ≫= delivered) ++ Actions.pending (actions s).
Proof.
  intros Hr Ho. pose proof (call_run_spec calls _ (scheduler_new_wf rate origin g p Hr Ho)) as Hrun.
  destruct (call_run calls _) as [s rs]. by destruct Hrun as (_&?&_&?&_&?).
Qed.

(** C33: The frames realized over any history are consecutive from zero, none
    repeated and none skipped, each at its exact rational deadline, and the plan
    generation they are realized with never goes back. *)
Theorem ticks_consecutive rate origin g (p : P) (calls : list (call I F A P)) :
  rate_wf rate → in_ty U64 origin →
  let '(s, rs) := call_run calls (scheduler_new rate origin g p) in
  let ticks := rs ≫= realized in
  deadline <$> ticks =
    (λ f, mk_deadline f
       (origin + (f * denominator rate * NANOS_PER_SECOND) `div` numerator rate)) <$>
    seqZ 0 (Z.of_nat (length ticks)) ∧
  next_frame (pacer s) = Z.of_nat (length ticks) ∧
  StronglySorted Z.le (g :: (plan_generation <$> ticks)).
Proof.
  intros Hr Ho. pose proof (call_run_frames calls _ (scheduler_new_wf rate origin g p Hr Ho)) as Hrun.
  destruct (call_run calls _) as [s rs]. destruct Hrun as (_&_&?&?&?&?).
  split_and!; try done. by constructor.
Qed.

(** A restored scheduler continues the timeline: it is well formed, and a tick
    at its deadline succeeds on time and realizes the restored frame with the
    restored plan. *)
Theorem restore_resumes rate origin frame g (p : P) s :
  rate_wf rate → in_ty U64 origin → in_ty U64 frame →
  scheduler_restore rate origin frame g p = Ret s →
  let due := origin + (frame * denominator rate * NANOS_PER_SECOND) `div` numerator rate in
  scheduler_wf s ∧ ∃ s', tick due s =
    (s', Ret (mk_tick (mk_deadline frame due) false [] g p None)) ∧
    next_frame (pacer s') = frame + 1.
Proof.
  intros Hr Ho Hf. unfold scheduler_restore.
  destruct (pacer_restore rate origin frame) as [pc|e|] eqn:Hp; [|done..].
  apply pacer_restore_spec in Hp as (->&Hd&Hmax); [|done..]. intros Heq. injection Heq as <-.
  set (due := _ + _ `div` _).
  assert (Hwf : scheduler_wf (mk_scheduler (mk_pacer rate origin frame) ∅ queue_default
    (plans_restore g p (checked U64 (frame - 1))) (mk_telemetry 0 0 0) : FrameScheduler I F A P)).
  { split; simpl; try done; [apply queue_default_wf|].
    apply plans_restore_wf. intros last [<- _]%checked_Some. lia. }
  split; [done|]. pose proof (tick_spec due _ Hwf) as Hs.
  destruct (tick due _) as [s' [t|[n d|[|]|e]|]]; unfold due_of in Hs; simpl in Hs;
    [|unfold due_at in *; simpl in *; subst due; destruct Hs as (_&?); lia..|done|done].
  exists s'. destruct Hs as (_&Hdl&_&_&Hl&Hpc&_&_&Hpe&_&_&Hg&Hpl&(Hact&Hg'&Hc'&_)&_).
  rewrite Hpc. split; [|done]. do 2 f_equal. destruct t as [dl l ta tg tp tac]; simpl in *.
  change (due_at (mk_pacer rate origin frame) frame) with due in Hdl, Hl.
  symmetry in Hpe. apply app_nil in Hpe as [-> _]. subst. f_equal.
  apply bool_decide_eq_false. lia.
Qed.
End theorems.

(** *** Witnesses *)

Definition rate_50 : Rate := mk_rate 50 1.
Lemma rate_50_wf : rate_wf rate_50.
Proof. by split. Qed.
Lemma zero_U64 : in_ty U64 0.
Proof. int_lia. Qed.

Definition example_calls : list (call nat nat nat nat) :=
  [RegisterInput 1%nat 2%nat DropOldest; ScheduleAction 1 10%nat; ScheduleAction 0 11%nat;
   SchedulePlan 4 1 77%nat; PushFrame 1%nat 5%nat; Tick 0; SupersedeAction 1 1 12%nat;
   Tick 5; Tick 20000001; ScheduleAction 9 13%nat; CancelAction 7].
Definition example_scheduler : FrameScheduler nat nat nat nat :=
  (call_run example_calls (scheduler_new rate_50 0 3 70%nat)).1.
Definition example_early : FrameScheduler nat nat nat nat :=
  (call_run (take 7 example_calls) (scheduler_new rate_50 0 3 70%nat)).1.
Lemma example_early_wf : scheduler_wf example_early.
Proof.
  pose proof (call_run_spec (take 7 example_calls) (scheduler_new rate_50 0 3 70%nat)
    (scheduler_new_wf rate_50 0 3 70%nat rate_50_wf zero_U64)) as Hrun.
  unfold example_early. destruct (call_run _ _) as [s rs]. apply Hrun.
Qed.

Lemma tick_exact_witness :
  ∃ t, (tick 20000001 example_early).2 = Ret t ∧
  tick_actions t = [mk_action 3 1 12%nat] ∧ scheduler_wf (tick 20000001 example_early).1.
Proof.
  eexists. split; [vm_compute; reflexivity|]. split; [reflexivity|].
  apply (tick_exact 20000001 example_early _ (tick 20000001 example_early).2 example_early_wf).
  by destruct (tick 20000001 example_early).
Defined.

Lemma tick_activates_plan_witness :
  ∃ t, (tick 20000001 example_early).2 = Ret t ∧ activation t = Some (mk_activation 3 4 1 1) ∧
  (plan_generation t, plan t) =
    (generation (plans (tick 20000001 example_early).1),
     current (plans (tick 20000001 example_early).1)).
Proof.
  eexists. split; [vm_compute; reflexivity|]. split; [reflexivity|].
  refine (proj1 (tick_activates_plan 20000001 example_early _ _ example_early_wf _)).
  vm_compute. reflexivity.
Defined.

Lemma actions_exactly_once_witness :
  rate_wf rate_50 ∧ Panicked ∉ (call_run example_calls (scheduler_new rate_50 0 3 70%nat)).2.
Proof.
  split; [exact rate_50_wf|].
  pose proof (actions_exactly_once rate_50 0 3 70%nat example_calls rate_50_wf zero_U64) as Hrun.
  destruct (call_run _ _) as [s rs]. apply Hrun.
Defined.

Lemma ticks_consecutive_witness :
  rate_wf rate_50 ∧ next_frame (pacer example_scheduler) = 2.
Proof.
  split; [exact rate_50_wf|].
  pose proof (ticks_consecutive rate_50 0 3 70%nat example_calls rate_50_wf zero_U64) as Hrun.
  assert (length ((call_run example_calls (scheduler_new rate_50 0 3 70%nat)).2 ≫= realized) = 2%nat)
    as Hlen by (vm_compute; reflexivity).
  unfold example_scheduler. destruct (call_run _ _) as [s rs]. cbn [fst snd] in *.
  rewrite Hlen in Hrun. apply Hrun.
Defined.

Lemma restore_resumes_witness :
  ∃ s, scheduler_restore rate_50 7 100 5 70%nat = Ret s ∧
  scheduler_wf (s : FrameScheduler nat nat nat nat).
Proof.
  eexists. split; [vm_compute; reflexivity|].
  refine (proj1 (restore_resumes rate_50 7 100 5 70%nat _ rate_50_wf _ _ _)).
  - done.
  - done.
  - vm_compute. reflexivity.
Defined.
