(* ===== verification/Ramp.v ===== *)
(** The integer ramp that fades share: [position_at] of
    [crates/features/fm-switcher/src/fade_to_black.rs] and [opacity_at] of
    [overlay.rs] are the same computation at 16 and at 8 bits. *)
From S2P Require Import Prelude.

(** The computation with its checks: the product is a [u32], the offset is
    narrowed with [expect], the sum is of the narrow type. *)
Definition ramp_checked (t : int_ty) (start target duration elapsed : Z) : option Z :=
  let distance := abs_diff start target in
  product ← checked U32 (distance * elapsed);
  guard (duration ≠ 0);;
  offset ← checked t (product `quot` duration);
  if decide (start ≤ target) then checked t (start + offset) else checked t (start - offset).

(** The value it is meant to have. *)
Definition ramp (start target duration elapsed : Z) : Z :=
  let offset := (abs_diff start target * elapsed) `div` duration in
  if decide (start ≤ target) then start + offset else start - offset.

Section ramp.
Context (start target duration : Z) (Hd : 0 < duration).
Let distance := abs_diff start target.
Let offset (e : Z) := (distance * e) `div` duration.

Lemma distance_nonneg : 0 ≤ distance.
Proof. unfold distance, abs_diff. lia. Qed.
Lemma offset_mono e e' : e ≤ e' → offset e ≤ offset e'.
Proof.
  intros. pose proof distance_nonneg. unfold offset. apply Z.div_le_mono; [done|]. nia.
Qed.
Lemma offset_0 : offset 0 = 0.
Proof. unfold offset. rewrite Z.mul_0_r. apply Z.div_0_l. lia. Qed.
Lemma offset_end : offset duration = distance.
Proof. unfold offset. apply Z.div_mul. lia. Qed.
Lemma offset_bounds e : 0 ≤ e ≤ duration → 0 ≤ offset e ≤ distance.
Proof.
  intros [??]. rewrite <-offset_0, <-offset_end. split; by apply offset_mono.
Qed.
Lemma offset_lt e : 0 < distance → e < duration → offset e < distance.
Proof. intros. unfold offset. apply Z.div_lt_upper_bound; [done|]. nia. Qed.

Lemma ramp_0 : ramp start target duration 0 = start.
Proof.
  pose proof offset_0. unfold ramp. fold distance. fold (offset 0). case_decide; lia.
Qed.
Lemma ramp_end : ramp start target duration duration = target.
Proof.
  pose proof offset_end. unfold ramp. fold distance. fold (offset duration).
  unfold distance, abs_diff in *. case_decide; lia.
Qed.
Lemma ramp_bounds e :
  0 ≤ e ≤ duration →
  Z.min start target ≤ ramp start target duration e ≤ Z.max start target.
Proof.
  intros [??]%offset_bounds. unfold ramp. fold distance. fold (offset e).
  unfold distance, abs_diff in *. case_decide; lia.
Qed.
Lemma ramp_ne e : start ≠ target → e < duration → ramp start target duration e ≠ target.
Proof.
  intros Hne He. assert (0 < distance) by (unfold distance, abs_diff; lia).
  pose proof (offset_lt e ltac:(done) He). unfold ramp. fold distance. fold (offset e).
  unfold distance, abs_diff in *. case_decide; lia.
Qed.
(** The ramp never turns back. *)
Lemma ramp_mono e e' :
  e ≤ e' →
  if decide (start ≤ target) then ramp start target duration e ≤ ramp start target duration e'
  else ramp start target duration e' ≤ ramp start target duration e.
Proof.
  intros ?%offset_mono. unfold ramp. fold distance. fold (offset e) (offset e').
  case_decide; lia.
Qed.

(** No check fails for fades of at most 3,600 frames. *)
Lemma ramp_checked_eq t e :
  ty_min t = 0 → ty_max t ≤ ty_max U16 → in_ty t start → in_ty t target →
  0 ≤ e ≤ duration → duration ≤ 3600 →
  ramp_checked t start target duration e = Some (ramp start target duration e).
Proof.
  intros Hmin Hmax Hs Ht He Hle. pose proof distance_nonneg. pose proof (offset_bounds e He).
  assert (distance ≤ ty_max U16) by (unfold distance, abs_diff; int_lia).
  unfold ramp_checked, ramp. fold distance. fold (offset e).
  rewrite checked_in; simpl.
  2: { unfold in_ty. simpl in *. nia. }
  rewrite option_guard_True by lia. simpl. rewrite Z.quot_div_nonneg by nia. fold (offset e).
  unfold in_ty in *. rewrite Hmin in *.
  rewrite checked_in; simpl; [|unfold in_ty, distance, abs_diff in *; rewrite Hmin; lia].
  case_decide; apply checked_in; unfold in_ty; rewrite Hmin; unfold distance, abs_diff in *; lia.
Qed.
End ramp.
