(* ===== verification/FadeToBlack.v ===== *)
(** Automatic Fade-to-Black, [crates/features/fm-switcher/src/fade_to_black.rs]: an
    exact 16-bit position that moves to its target in a given number of frames
    and can be reversed at any of them.

    [FadeToBlackController] maps to the record of the same name; a position is
    the numerator it wraps. *)
From S2P Require Import Prelude Ramp.

(** ** Data *)

Definition MAX_FADE_TO_BLACK_DURATION_FRAMES : Z := 3600.
Abbreviation FadeToBlackPosition := Z (only parsing).
Definition LIVE : FadeToBlackPosition := 0.
Definition BLACK : FadeToBlackPosition := 65535.

Inductive FadeToBlackTarget := Live | Black.
#[global] Instance FadeToBlackTarget_eq_dec : EqDecision FadeToBlackTarget.
Proof. solve_decision. Defined.

Definition from_active (active : bool) : FadeToBlackTarget := if active then Black else Live.
Definition target_active (self : FadeToBlackTarget) : bool :=
  match self with
  | Black => true
  | Live => false
  end.
Definition target_position (self : FadeToBlackTarget) : FadeToBlackPosition :=
  match self with
  | Live => LIVE
  | Black => BLACK
  end.

Record FadeToBlackFrame := mk_ftb_frame {
  interval_start : FadeToBlackPosition;
  interval_end : FadeToBlackPosition;
  frame_target : FadeToBlackTarget;
  progress_start_numerator : Z;
  progress_end_numerator : Z;
  progress_denominator : Z
}.
Record FadeToBlackStarted := mk_started {
  started_from : FadeToBlackPosition;
  started_target : FadeToBlackTarget;
  started_duration_frames : Z
}.
Inductive FadeToBlackRequest :=
  | Unchanged
  | Started (s : FadeToBlackStarted)
  | Completed (t : FadeToBlackTarget).
Record FadeToBlackAdvance := mk_ftb_advance {
  position_changed : option FadeToBlackPosition;
  completed : option FadeToBlackTarget
}.
Inductive FadeToBlackError :=
  | ZeroDuration
  | DurationLimit (duration_frames maximum : Z).

Record AutomaticFadeToBlack := mk_automatic {
  start : FadeToBlackPosition;
  auto_target : FadeToBlackTarget;
  duration_frames : Z;
  elapsed_frames : Z
}.
Record FadeToBlackController := mk_controller {
  position : FadeToBlackPosition;
  target : FadeToBlackTarget;
  automatic : option AutomaticFadeToBlack
}.

(** ** Operations *)

Definition position_at (self : AutomaticFadeToBlack) (elapsed_frames : Z) :
    option FadeToBlackPosition :=
  ramp_checked U16 (start self) (target_position (auto_target self)) (duration_frames self)
    elapsed_frames.

Definition automatic_frame (self : AutomaticFadeToBlack) : option FadeToBlackFrame :=
  let progress_end := saturating U32 (elapsed_frames self + 1) in
  let progress_end :=
    if decide (progress_end < duration_frames self) then progress_end
    else duration_frames self in
  interval_start ← position_at self (elapsed_frames self);
  interval_end ← position_at self progress_end;
  Some {|
    interval_start := interval_start;
    interval_end := interval_end;
    frame_target := auto_target self;
    progress_start_numerator := elapsed_frames self;
    progress_end_numerator := progress_end;
    progress_denominator := duration_frames self
  |}.

Definition controller_default : FadeToBlackController := mk_controller LIVE Live None.
Definition settled (target : FadeToBlackTarget) : FadeToBlackController :=
  mk_controller (target_position target) target None.

(** [None] is a panic. *)
Definition frame (self : FadeToBlackController) : option FadeToBlackFrame :=
  match automatic self with
  | Some automatic => automatic_frame automatic
  | None => Some {|
      interval_start := position self;
      interval_end := position self;
      frame_target := target self;
      progress_start_numerator := 0;
      progress_end_numerator := 0;
      progress_denominator := 1
    |}
  end.

Definition validate_duration (duration_frames : Z) : result FadeToBlackError unit :=
  if decide (duration_frames = 0) then Err ZeroDuration
  else if decide (MAX_FADE_TO_BLACK_DURATION_FRAMES < duration_frames) then
    Err (DurationLimit duration_frames MAX_FADE_TO_BLACK_DURATION_FRAMES)
  else Ok tt.

Definition request (t : FadeToBlackTarget) (duration_frames : Z) :
    stm FadeToBlackController FadeToBlackError FadeToBlackRequest :=
  _ ← st_lift (validate_duration duration_frames);
  self ← st_get;
  if decide (target self = t) then mret Unchanged else
  if decide (position self = target_position t) then
    _ ← st_put (mk_controller (position self) t None);
    mret (Completed t)
  else
    let started := mk_started (position self) t duration_frames in
    _ ← st_put (mk_controller (position self) t
      (Some (mk_automatic (position self) t duration_frames 0)));
    mret (Started started).

(** [advance] has no error; [E] is the error of the method that calls it. *)
Definition advance {E} : stm FadeToBlackController E FadeToBlackAdvance :=
  self ← st_get;
  match automatic self with
  | None => mret (mk_ftb_advance None None)
  | Some auto =>
      let previous := position self in
      elapsed ← st_expect (checked U32 (elapsed_frames auto + 1));
      let auto := mk_automatic (start auto) (auto_target auto) (duration_frames auto) elapsed in
      moved ← st_expect (position_at auto elapsed);
      let done_ := bool_decide (duration_frames auto ≤ elapsed) in
      let self := if done_ then mk_controller (target_position (auto_target auto)) (target self) None
                  else mk_controller moved (target self) (Some auto) in
      _ ← st_put self;
      mret (mk_ftb_advance
        (if decide (position self = previous) then None else Some (position self))
        (if done_ then Some (auto_target auto) else None))
  end.

(** ** The invariant

    A settled controller is at its target; a moving one is on the ramp from
    where it started, strictly before the end. *)
Record automatic_wf (a : AutomaticFadeToBlack) : Prop := {
  fa_start : in_ty U16 (start a);
  fa_elapsed : 0 ≤ elapsed_frames a < duration_frames a;
  fa_duration : duration_frames a ≤ MAX_FADE_TO_BLACK_DURATION_FRAMES;
  fa_moves : start a ≠ target_position (auto_target a)
}.
Definition ftb_ramp (a : AutomaticFadeToBlack) (elapsed : Z) : FadeToBlackPosition :=
  ramp (start a) (target_position (auto_target a)) (duration_frames a) elapsed.
Definition ftb_wf (c : FadeToBlackController) : Prop :=
  match automatic c with
  | None => position c = target_position (target c)
  | Some a => automatic_wf a ∧ auto_target a = target c ∧
      position c = ftb_ramp a (elapsed_frames a)
  end.

(** ** Lemmas *)

Lemma target_in t : in_ty U16 (target_position t).
Proof. destruct t; unfold target_position, LIVE, BLACK; int_lia. Qed.
Lemma settled_wf t : ftb_wf (settled t).
Proof. done. Qed.
Lemma controller_default_wf : ftb_wf controller_default.
Proof. done. Qed.

Lemma position_at_eq a e :
  automatic_wf a → 0 ≤ e ≤ duration_frames a → position_at a e = Some (ftb_ramp a e).
Proof.
  intros [Hs He Hd _] ?. unfold MAX_FADE_TO_BLACK_DURATION_FRAMES in Hd.
  apply ramp_checked_eq; try done; [lia|apply target_in].
Qed.
Lemma ftb_ramp_in a e : automatic_wf a → 0 ≤ e ≤ duration_frames a → in_ty U16 (ftb_ramp a e).
Proof.
  intros [Hs ? _ _] He. unfold ftb_ramp.
  pose proof (ramp_bounds (start a) (target_position (auto_target a)) (duration_frames a)
    ltac:(lia) e He).
  pose proof (target_in (auto_target a)). unfold in_ty in *. lia.
Qed.
Lemma ftb_ramp_ne a :
  automatic_wf a → ftb_ramp a (elapsed_frames a) ≠ target_position (auto_target a).
Proof. intros [Hs ? _ ?]. apply ramp_ne; [lia|done|lia]. Qed.

Lemma ftb_position_in c : ftb_wf c → in_ty U16 (position c).
Proof.
  unfold ftb_wf. destruct (automatic c) as [a|].
  - intros (Ha&_&->). apply ftb_ramp_in; [done|]. destruct Ha. lia.
  - intros ->. apply target_in.
Qed.

(** [frame] never panics and starts at the current position. *)
Lemma frame_spec c :
  ftb_wf c → ∃ f, frame c = Some f ∧ interval_start f = position c ∧ frame_target f = target c.
Proof.
  unfold ftb_wf, frame. destruct (automatic c) as [a|]; [|by eauto].
  intros (Ha&Ht&->). unfold automatic_frame.
  pose proof Ha as [_ He Hd _]. unfold MAX_FADE_TO_BLACK_DURATION_FRAMES in Hd.
  rewrite saturating_id by int_lia.
  rewrite !position_at_eq; [|done|lia|done|case_decide; lia]. simpl. eauto.
Qed.

Lemma request_spec t d c :
  ftb_wf c → in_ty U32 d →
  match request t d c with
  | (c', Ret r) =>
      1 ≤ d ≤ MAX_FADE_TO_BLACK_DURATION_FRAMES ∧ ftb_wf c' ∧ target c' = t ∧
      position c' = position c ∧
      match r with
      | Unchanged => c' = c ∧ target c = t
      | Completed t' => t' = t ∧ automatic c' = None ∧ target c ≠ t ∧
          position c = target_position t
      | Started s => s = mk_started (position c) t d ∧
          automatic c' = Some (mk_automatic (position c) t d 0)
      end
  | (c', Throw _) => c' = c ∧ (d = 0 ∨ MAX_FADE_TO_BLACK_DURATION_FRAMES < d)
  | (_, Panic) => False
  end.
Proof.
  intros Hwf Hd. pose proof (ftb_position_in _ Hwf) as Hpos.
  unfold request, validate_duration, mbind, stm_bind, st_lift, st_get, st_put.
  case_decide; [by auto|]. case_decide; [by auto|]. simpl.
  assert (1 ≤ d ≤ MAX_FADE_TO_BLACK_DURATION_FRAMES) by (unfold in_ty in Hd; simpl in Hd; lia).
  case_decide as Ht; simpl; [by subst|]. case_decide as Hp; simpl.
  - split_and!; first [done|lia].
  - split_and!; try first [done|lia]. unfold ftb_wf; simpl.
    assert (automatic_wf (mk_automatic (position c) t d 0)) by (split; simpl; try done; lia).
    split_and!; [done..|]. unfold ftb_ramp; simpl. by rewrite ramp_0 by lia.
Qed.

(** One frame: a settled controller stays, a moving one goes to the next point
    of its ramp and settles at the last. *)
Lemma ftb_advance_spec {E} c :
  ftb_wf c →
  match automatic c with
  | None => advance (E := E) c = (c, Ret (mk_ftb_advance None None))
  | Some a =>
      let next := elapsed_frames a + 1 in
      ∃ c' changed, ftb_wf c' ∧ target c' = target c ∧ position c' = ftb_ramp a next ∧
      changed = (if decide (position c' = position c) then None else Some (position c')) ∧
      if decide (next = duration_frames a) then
        advance (E := E) c = (c', Ret (mk_ftb_advance changed (Some (target c)))) ∧
        c' = settled (target c)
      else
        advance (E := E) c = (c', Ret (mk_ftb_advance changed None)) ∧
        automatic c' = Some (mk_automatic (start a) (auto_target a) (duration_frames a) next)
  end.
Proof.
  unfold ftb_wf. unfold advance, mbind, stm_bind, st_get. destruct (automatic c) as [a|] eqn:Hau.
  2: { intros _. done. }
  intros (Ha&Ht&Hp). set (next := elapsed_frames a + 1). pose proof Ha as [Hs He Hd Hm].
  unfold MAX_FADE_TO_BLACK_DURATION_FRAMES in Hd.
  unfold st_expect, st_put. rewrite checked_in by (subst next; int_lia).
  set (a' := mk_automatic (start a) (auto_target a) (duration_frames a) next).
  assert (Hpa : position_at a' next = Some (ftb_ramp a next)).
  { change (position_at a next = Some (ftb_ramp a next)). apply position_at_eq; [done|lia]. }
  rewrite Hpa. simpl. case_decide as Hend.
  - rewrite bool_decide_true by lia. rewrite Ht.
    eexists _, _. split; [|split; [|split; [|split; [reflexivity|split; [reflexivity|done]]]]]; try done.
    simpl. unfold ftb_ramp. rewrite Hend, ramp_end by lia. by rewrite Ht.
  - rewrite bool_decide_false by lia.
    eexists _, _. split; [|split; [|split; [|split; [reflexivity|split; [reflexivity|done]]]]]; try done.
    simpl. split_and!; [|done..]. split; simpl; try done. subst next. lia.
Qed.

(** ** Whole fades *)

(** [n] frames, with what each reported; [None] is a panic. *)
Fixpoint advance_n (n : nat) (c : FadeToBlackController) :
    option (FadeToBlackController * list FadeToBlackAdvance) :=
  match n with
  | O => Some (c, [])
  | S n =>
      match advance (E := Empty_set) c with
      | (c, Ret adv) => '(c, advs) ← advance_n n c; Some (c, adv :: advs)
      | _ => None
      end
  end.

Lemma advance_n_spec n c a :
  ftb_wf c → automatic c = Some a → elapsed_frames a + Z.of_nat n = duration_frames a →
  ∃ advs, advance_n n c = Some (settled (target c), advs) ∧
    completed <$> advs = replicate (n - 1) None ++ [Some (target c)] ∧
    ∀ k, (k < n)%nat → ∃ ck advsk, advance_n k c = Some (ck, advsk) ∧
      target ck = target c ∧ position ck = ftb_ramp a (elapsed_frames a + Z.of_nat k) ∧
      automatic ck ≠ None.
Proof.
  revert c a. induction n as [|n IH]; intros c a Hwf Ha Hn.
  { unfold ftb_wf in Hwf. rewrite Ha in Hwf. destruct Hwf as [[_ ? _ _] _]. lia. }
  pose proof (ftb_advance_spec (E := Empty_set) c Hwf) as Hadv. rewrite Ha in Hadv.
  destruct Hadv as (c1&ch&Hwf1&Ht1&Hp1&_&Hadv).
  assert (Hk0 : ∃ ck advsk, advance_n 0 c = Some (ck, advsk) ∧ target ck = target c ∧
    position ck = ftb_ramp a (elapsed_frames a + Z.of_nat 0) ∧ automatic ck ≠ None).
  { eexists _, _. split; [done|]. unfold ftb_wf in Hwf. rewrite Ha in Hwf. rewrite Ha, Z.add_0_r.
    split_and!; [done|apply Hwf|done]. }
  case_decide as Hend.
  - assert (n = 0%nat) as -> by lia. destruct Hadv as [Hadv ->].
    eexists. simpl. rewrite Hadv. split; [reflexivity|]. split; [done|].
    intros k ?. assert (k = 0%nat) as -> by lia. done.
  - destruct Hadv as [Hadv Ha1].
    set (a1 := mk_automatic (start a) (auto_target a) (duration_frames a) (elapsed_frames a + 1)) in *.
    destruct (IH c1 a1 Hwf1 Ha1) as (advs&Hrun&Hc&Hk); [simpl; lia|].
    eexists. simpl. rewrite Hadv, Hrun. rewrite Ht1 in Hc |- *.
    split; [reflexivity|]. split.
    + rewrite fmap_cons, Hc. destruct n as [|n]; [lia|]. simpl. by rewrite Nat.sub_0_r.
    + intros [|k] Hlt; [done|]. destruct (Hk k ltac:(lia)) as (ck&advsk&Hrk&Htk&Hpk&Hak).
      eexists _, _. simpl. rewrite Hadv, Hrk. split; [reflexivity|].
      split_and!; [congruence| |done].
      rewrite Hpk. simpl. change (ftb_ramp a1 ?x) with (ftb_ramp a x). f_equal. lia.
Qed.

(** ** Theorems *)

(** A fade to or from black started for [d] frames reaches its target in
    exactly [d] frames and reports completion once, at the last; until then the
    position is the exact linear ramp rounded down, it is still moving, and
    nothing panics. *)
Theorem fade_completes_on_time c c' t d s :
  ftb_wf c → in_ty U32 d → request t d c = (c', Ret (Started s)) →
  ∃ advs, advance_n (Z.to_nat d) c' = Some (settled t, advs) ∧
    completed <$> advs = replicate (Z.to_nat d - 1) None ++ [Some t] ∧
    ∀ k, 0 ≤ k < d → ∃ ck advsk, advance_n (Z.to_nat k) c' = Some (ck, advsk) ∧
      position ck = ramp (position c) (target_position t) d k ∧ automatic ck ≠ None.
Proof.
  intros Hwf Hd Hr. pose proof (request_spec t d c Hwf Hd) as Hs. rewrite Hr in Hs.
  destruct Hs as (?&Hwf'&Ht&_&_&Ha).
  destruct (advance_n_spec (Z.to_nat d) c' _ Hwf' Ha) as (advs&Hrun&Hc&Hk); [simpl; lia|].
  rewrite Ht in Hrun, Hc. exists advs. split_and!; [done..|].
  intros k ?. destruct (Hk (Z.to_nat k)) as (ck&advsk&?&_&Hp&?); [lia|].
  exists ck, advsk. split_and!; [done| |done]. rewrite Hp. unfold ftb_ramp. simpl. f_equal. lia.
Qed.

(** The media intervals of consecutive frames meet: a frame's interval begins
    at the current position and ends where the next frame's begins, whether the
    controller is moving or settled, and a change is reported exactly when the
    position moved; a request for a new target never makes the position jump. *)
Theorem ftb_intervals_meet c t d :
  ftb_wf c → in_ty U32 d →
  position (request t d c).1 = position c ∧ ftb_wf (request t d c).1 ∧
  ∃ f c' adv f', frame c = Some f ∧ advance (E := Empty_set) c = (c', Ret adv) ∧
    frame c' = Some f' ∧
    interval_start f = position c ∧ interval_end f = interval_start f' ∧
    interval_start f' = position c' ∧
    (position_changed adv = None ↔ position c' = position c) ∧
    (∀ p, position_changed adv = Some p → p = position c').
Proof.
  intros Hwf Hd. pose proof (request_spec t d c Hwf Hd) as Hreq.
  assert (position (request t d c).1 = position c ∧ ftb_wf (request t d c).1) as [Hp Hwr].
  { destruct (request t d c) as [c' [r|e|]]; simpl; [by destruct Hreq as (_&?&_&?&_)| |done].
    by destruct Hreq as [-> _]. }
  split_and!; [done..|].
  destruct (frame_spec c Hwf) as (f&Hf&Hs&_).
  pose proof (ftb_advance_spec (E := Empty_set) c Hwf) as Hadv.
  unfold ftb_wf in Hwf. destruct (automatic c) as [a|] eqn:Ha.
  - destruct Hadv as (c'&ch&Hwf'&_&Hpn&Hch&Hadv).
    destruct (frame_spec c' Hwf') as (f'&Hf'&Hs'&_).
    assert (He : interval_end f = ftb_ramp a (elapsed_frames a + 1)).
    { destruct Hwf as (Hawf&_&_). pose proof Hawf as [_ He Hdu _].
      unfold MAX_FADE_TO_BLACK_DURATION_FRAMES in Hdu.
      unfold frame in Hf. rewrite Ha in Hf. unfold automatic_frame in Hf.
      rewrite saturating_id in Hf by int_lia.
      rewrite !position_at_eq in Hf; [|done|lia|done|clear -He; case_decide; lia]. simpl in Hf.
      injection Hf as <-. simpl. clear -He. case_decide; [done|]. f_equal. lia. }
    exists f, c'. assert (∃ o, advance (E := Empty_set) c = (c', Ret (mk_ftb_advance ch o))) as [o Ho].
    { case_decide; destruct Hadv as [-> _]; eauto. }
    exists (mk_ftb_advance ch o), f'. subst ch. split_and!; try first [done|congruence]; simpl;
      case_decide; naive_solver.

  - exists f, c, (mk_ftb_advance None None), f. split_and!; try done.
    unfold frame in Hf. rewrite Ha in Hf. by injection Hf as <-.
Qed.

(** *** Witnesses *)

Definition ftb_half : FadeToBlackController :=
  mk_controller 32767 Black (Some (mk_automatic 0 Black 10 5)).
Lemma ftb_half_wf : ftb_wf ftb_half.
Proof. split; [split; vm_compute; intuition congruence|]. by split. Qed.

Lemma fade_completes_on_time_witness :
  ∃ c' s, request Live 4 ftb_half = (c', Ret (Started s)) ∧
  ∃ advs, advance_n 4 c' = Some (settled Live, advs).
Proof.
  eexists _, _. split; [vm_compute; reflexivity|].
  destruct (fade_completes_on_time ftb_half _ Live 4 _ ftb_half_wf ltac:(vm_compute; intuition congruence)
    ltac:(vm_compute; reflexivity)) as (advs&Hrun&_). exists advs. exact Hrun.
Defined.

Lemma ftb_intervals_meet_witness :
  ∃ f, frame ftb_half = Some f ∧ interval_start f = 32767 ∧ interval_end f = 39321 ∧
  position (request Live 4 ftb_half).1 = position ftb_half.
Proof.
  eexists. split_and!; [vm_compute; reflexivity|reflexivity|reflexivity|].
  exact (proj1 (ftb_intervals_meet ftb_half Live 4 ftb_half_wf ltac:(vm_compute; intuition congruence))).
Defined.
