(* ===== verification/Overlay.v ===== *)
(** Overlay channels, [crates/features/fm-switcher/src/overlay.rs]: a source that is
    keyed over the program, its fade, its layout presets, a bounded queue of
    sources to take next and the outputs it is included in.

    [OverlayChannelState] maps to the record of the same name; a channel number
    is the [u8] it wraps, from one to eight. *)
From S2P Require Import Prelude Types Ramp.

(** ** Data *)

Definition OVERLAY_CHANNEL_COUNT : nat := 8.
Definition MAX_OVERLAY_TRANSITION_DURATION_FRAMES : Z := 3600.
Definition MAX_OVERLAY_QUEUE_DEPTH : nat := 64.

Inductive OverlayTransitionKind := OverlayCut | OverlayFade.
Inductive OverlayPositionPreset := FullFrame | TopLeft | TopRight | BottomLeft | BottomRight.
Inductive OverlayBorderPreset := NoBorder | ThinWhite | ThickWhite.
#[global] Instance OverlayTransitionKind_eq_dec : EqDecision OverlayTransitionKind.
Proof. solve_decision. Defined.
#[global] Instance OverlayPositionPreset_eq_dec : EqDecision OverlayPositionPreset.
Proof. solve_decision. Defined.
#[global] Instance OverlayBorderPreset_eq_dec : EqDecision OverlayBorderPreset.
Proof. solve_decision. Defined.

Record AutomaticOverlayTransition := mk_overlay_auto {
  start_opacity : Z;
  target_opacity : Z;
  target_active : bool;
  auto_duration : Z;
  auto_elapsed : Z
}.
#[global] Instance AutomaticOverlayTransition_eq_dec : EqDecision AutomaticOverlayTransition.
Proof. solve_decision. Defined.
Record OverlayTransitionAdvance := mk_overlay_advance {
  opacity_changed : option Z;
  fade_completed : option bool
}.

(** [OverlayChannelId]: [ALL], [new] and [index]; the subtraction panics at 0. *)
Abbreviation OverlayChannelId := Z (only parsing).
Definition channel_ALL : list OverlayChannelId := [1; 2; 3; 4; 5; 6; 7; 8].
Definition channel_new (number : Z) : option OverlayChannelId :=
  if decide (1 ≤ number ∧ number ≤ 8) then Some number else None.
Definition channel_from_index (index : nat) : option OverlayChannelId :=
  if decide (index < OVERLAY_CHANNEL_COUNT)%nat then
    n ← checked U8 (Z.of_nat index); checked U8 (n + 1)
  else None.
Definition channel_index (self : OverlayChannelId) : option nat :=
  Z.to_nat <$> checked U8 (self - 1).

Record OverlayChannelState := mk_overlay {
  source : option InputId;
  active : bool;
  opacity : Z;
  transition : OverlayTransitionKind;
  duration_frames : Z;
  position : OverlayPositionPreset;
  border : OverlayBorderPreset;
  queue : list InputId;
  automatic : option AutomaticOverlayTransition;
  included_outputs : list OutputId
}.
#[global] Instance OverlayChannelState_eq_dec : EqDecision OverlayChannelState.
Proof. solve_decision. Defined.

(** ** Operations *)

Definition opacity_at (self : AutomaticOverlayTransition) (elapsed_frames : Z) : option Z :=
  ramp_checked U8 (start_opacity self) (target_opacity self) (auto_duration self) elapsed_frames.

Definition overlay_empty : OverlayChannelState := {|
  source := None; active := false; opacity := 0;
  transition := OverlayCut; duration_frames := 1;
  position := FullFrame; border := NoBorder;
  queue := []; automatic := None; included_outputs := []
|}.

(** The four fields that are on air. *)
Definition set_on_air (src : option InputId) (act : bool) (op : Z)
    (auto : option AutomaticOverlayTransition) (self : OverlayChannelState) :
    OverlayChannelState :=
  mk_overlay src act op (transition self) (duration_frames self) (position self) (border self)
    (queue self) auto (included_outputs self).
Definition set_queue (q : list InputId) (self : OverlayChannelState) : OverlayChannelState :=
  mk_overlay (source self) (active self) (opacity self) (transition self)
    (duration_frames self) (position self) (border self) q (automatic self)
    (included_outputs self).

Definition take (src : InputId) (self : OverlayChannelState) : OverlayChannelState :=
  set_on_air (Some src) true 255 None self.
Definition update (src : InputId) (self : OverlayChannelState) : OverlayChannelState :=
  set_on_air (Some src) (active self) (opacity self) (automatic self) self.
Definition off (self : OverlayChannelState) : OverlayChannelState :=
  set_on_air (source self) false 0 None self.

Definition configure_transition (kind : OverlayTransitionKind) (duration : Z)
    (self : OverlayChannelState) : OverlayChannelState :=
  mk_overlay (source self) (active self) (opacity self) kind duration (position self)
    (border self) (queue self) (automatic self) (included_outputs self).
Definition configure_appearance (pos : OverlayPositionPreset) (bor : OverlayBorderPreset)
    (self : OverlayChannelState) : OverlayChannelState :=
  mk_overlay (source self) (active self) (opacity self) (transition self)
    (duration_frames self) pos bor (queue self) (automatic self) (included_outputs self).

Definition enqueue (src : InputId) (self : OverlayChannelState) : OverlayChannelState * bool :=
  if decide (MAX_OVERLAY_QUEUE_DEPTH ≤ length (queue self))%nat then (self, false)
  else (set_queue (queue self ++ [src]) self, true).

Definition take_next (self : OverlayChannelState) : OverlayChannelState * option InputId :=
  match queue self with
  | [] => (self, None)
  | src :: rest => (take src (set_queue rest self), Some src)
  end.

Definition request_take (src : InputId) (self : OverlayChannelState) : OverlayChannelState :=
  match transition self with
  | OverlayCut => set_on_air (Some src) true 255 None self
  | OverlayFade =>
      set_on_air (Some src) true 0 (Some {|
        start_opacity := 0; target_opacity := 255; target_active := true;
        auto_duration := duration_frames self; auto_elapsed := 0
      |}) self
  end.
Definition request_take_next (self : OverlayChannelState) :
    OverlayChannelState * option InputId :=
  match queue self with
  | [] => (self, None)
  | src :: rest => (request_take src (set_queue rest self), Some src)
  end.
Definition request_off (self : OverlayChannelState) : OverlayChannelState :=
  match transition self with
  | OverlayFade =>
      if active self then
        set_on_air (source self) (active self) (opacity self) (Some {|
          start_opacity := opacity self; target_opacity := 0; target_active := false;
          auto_duration := duration_frames self; auto_elapsed := 0
        |}) self
      else off self
  | OverlayCut => off self
  end.

(** [None] is a panic. *)
Definition overlay_advance (self : OverlayChannelState) :
    option (OverlayChannelState * OverlayTransitionAdvance) :=
  match automatic self with
  | None => Some (self, mk_overlay_advance None None)
  | Some auto =>
      let previous := opacity self in
      elapsed ← checked U32 (auto_elapsed auto + 1);
      let auto := {|
        start_opacity := start_opacity auto; target_opacity := target_opacity auto;
        target_active := target_active auto;
        auto_duration := auto_duration auto; auto_elapsed := elapsed
      |} in
      moved ← opacity_at auto elapsed;
      let completed := bool_decide (auto_duration auto ≤ elapsed) in
      let self :=
        if completed then set_on_air (source self) (target_active auto) (target_opacity auto) None self
        else set_on_air (source self) (active self) moved (Some auto) self in
      Some (self, mk_overlay_advance
        (if decide (opacity self ≠ previous) then Some (opacity self) else None)
        (if completed then Some (target_active auto) else None))
  end.

Definition set_output_inclusion (output : OutputId) (included : bool)
    (self : OverlayChannelState) : OverlayChannelState :=
  let outputs :=
    if included then
      if decide (output ∈ included_outputs self) then included_outputs self
      else included_outputs self ++ [output]
    else filter (λ candidate, candidate ≠ output) (included_outputs self) in
  mk_overlay (source self) (active self) (opacity self) (transition self)
    (duration_frames self) (position self) (border self) (queue self) (automatic self) outputs.

(** ** The invariant

    [inputs] are the inputs of the show.  What is on air has a source of the
    show; a channel at rest is opaque when active and invisible when not; a fade
    is on its ramp, before its end; the queue and the outputs are bounded and
    duplicate-free. *)
Record overlay_auto_wf (a : AutomaticOverlayTransition) : Prop := {
  oa_start : in_ty U8 (start_opacity a);
  oa_target : target_opacity a = if target_active a then 255 else 0;
  oa_elapsed : 0 ≤ auto_elapsed a < auto_duration a;
  oa_duration : auto_duration a ≤ MAX_OVERLAY_TRANSITION_DURATION_FRAMES
}.
Definition overlay_ramp (a : AutomaticOverlayTransition) (elapsed : Z) : Z :=
  ramp (start_opacity a) (target_opacity a) (auto_duration a) elapsed.
Definition motion_ok (o : OverlayChannelState) : Prop :=
  match automatic o with
  | None => opacity o = if active o then 255 else 0
  | Some a => overlay_auto_wf a ∧ active o = true ∧ opacity o = overlay_ramp a (auto_elapsed a)
  end.
Record overlay_wf (inputs : list InputId) (o : OverlayChannelState) : Prop := {
  ow_source : match source o with Some s => s ∈ inputs | None => active o = false end;
  ow_motion : motion_ok o;
  ow_duration : 1 ≤ duration_frames o ≤ MAX_OVERLAY_TRANSITION_DURATION_FRAMES;
  ow_queue : (length (queue o) ≤ MAX_OVERLAY_QUEUE_DEPTH)%nat;
  ow_queued : Forall (.∈ inputs) (queue o);
  ow_outputs : NoDup (included_outputs o)
}.

(** ** Lemmas *)

Lemma opacity_at_eq a e :
  overlay_auto_wf a → 0 ≤ e ≤ auto_duration a → opacity_at a e = Some (overlay_ramp a e).
Proof.
  intros [Hs Ht He Hd] ?. unfold MAX_OVERLAY_TRANSITION_DURATION_FRAMES in Hd.
  apply ramp_checked_eq; try done; [lia|]. rewrite Ht. destruct (target_active a); int_lia.
Qed.
Lemma overlay_ramp_in a e :
  overlay_auto_wf a → 0 ≤ e ≤ auto_duration a → in_ty U8 (overlay_ramp a e).
Proof.
  intros [Hs Ht ? _] He. unfold overlay_ramp.
  pose proof (ramp_bounds (start_opacity a) (target_opacity a) (auto_duration a)
    ltac:(lia) e He) as Hb.
  rewrite Ht in *. unfold in_ty in *. simpl in *. destruct (target_active a); lia.
Qed.
Lemma motion_opacity_in o : motion_ok o → in_ty U8 (opacity o).
Proof.
  unfold motion_ok. destruct (automatic o) as [a|].
  - intros (Ha&_&->). apply overlay_ramp_in; [done|]. destruct Ha. lia.
  - intros ->. destruct (active o); int_lia.
Qed.

Section invariant.
Context (inputs : list InputId).
Implicit Types o : OverlayChannelState.

Lemma overlay_empty_wf : overlay_wf inputs overlay_empty.
Proof.
  split; simpl; try done; try constructor; unfold MAX_OVERLAY_TRANSITION_DURATION_FRAMES; lia.
Qed.
Lemma set_on_air_wf src act op auto o :
  overlay_wf inputs o →
  match src with Some s => s ∈ inputs | None => act = false end →
  motion_ok (set_on_air src act op auto o) → overlay_wf inputs (set_on_air src act op auto o).
Proof. intros [] ??. by split. Qed.
Lemma set_queue_wf q o :
  overlay_wf inputs o → (length q ≤ MAX_OVERLAY_QUEUE_DEPTH)%nat → Forall (.∈ inputs) q →
  overlay_wf inputs (set_queue q o).
Proof. intros [] ??. by split. Qed.

Lemma take_wf src o : src ∈ inputs → overlay_wf inputs o → overlay_wf inputs (take src o).
Proof. intros. by apply set_on_air_wf. Qed.
Lemma update_wf src o : src ∈ inputs → overlay_wf inputs o → overlay_wf inputs (update src o).
Proof. intros ? Hwf. apply set_on_air_wf; [done..|]. apply (ow_motion _ _ Hwf). Qed.
Lemma off_wf o : overlay_wf inputs o → overlay_wf inputs (off o).
Proof.
  intros Hwf. apply set_on_air_wf; [done| |done]. pose proof (ow_source _ _ Hwf).
  by destruct (source o).
Qed.
Lemma request_take_wf src o :
  src ∈ inputs → overlay_wf inputs o → overlay_wf inputs (request_take src o).
Proof.
  intros ? Hwf. pose proof (ow_duration _ _ Hwf) as [??]. unfold request_take.
  destruct (transition o); apply set_on_air_wf; try done.
  unfold motion_ok; simpl. split_and!; [split; simpl; try done; lia|done|].
  unfold overlay_ramp; simpl. by rewrite ramp_0 by lia.
Qed.
Lemma request_off_wf o : overlay_wf inputs o → overlay_wf inputs (request_off o).
Proof.
  intros Hwf. pose proof (ow_duration _ _ Hwf) as [??]. unfold request_off.
  destruct (transition o); [by apply off_wf|]. destruct (active o) eqn:Ha; [|by apply off_wf].
  apply set_on_air_wf; [done| |].
  - pose proof (ow_source _ _ Hwf) as Hs. destruct (source o); [done|]. congruence.
  - unfold motion_ok; simpl. split_and!; [|done|].
    + split; simpl; try done; [apply motion_opacity_in, Hwf|lia].
    + unfold overlay_ramp; simpl. by rewrite ramp_0 by lia.
Qed.
Lemma configure_transition_wf k d o :
  1 ≤ d ≤ MAX_OVERLAY_TRANSITION_DURATION_FRAMES →
  overlay_wf inputs o → overlay_wf inputs (configure_transition k d o).
Proof. intros ? []. by split. Qed.
Lemma configure_appearance_wf p b o :
  overlay_wf inputs o → overlay_wf inputs (configure_appearance p b o).
Proof. intros []. by split. Qed.
Lemma enqueue_wf src o :
  src ∈ inputs → overlay_wf inputs o → overlay_wf inputs (enqueue src o).1.
Proof.
  intros ? Hwf. unfold enqueue. case_decide; [done|]. simpl.
  apply set_queue_wf; [done| |].
  - rewrite length_app. simpl. lia.
  - apply Forall_app. split; [apply Hwf|by constructor].
Qed.
Lemma dequeue_wf src rest o :
  queue o = src :: rest → overlay_wf inputs o →
  src ∈ inputs ∧ overlay_wf inputs (set_queue rest o).
Proof.
  intros Hq Hwf. pose proof (ow_queue _ _ Hwf) as Hl. pose proof (ow_queued _ _ Hwf) as Hf.
  rewrite Hq in Hl, Hf. apply Forall_cons in Hf as [??]. split; [done|].
  apply set_queue_wf; [done| |done]. simpl in Hl. lia.
Qed.
Lemma take_next_wf o : overlay_wf inputs o → overlay_wf inputs (take_next o).1.
Proof.
  intros Hwf. unfold take_next. destruct (queue o) as [|src rest] eqn:Hq; [done|].
  destruct (dequeue_wf _ _ _ Hq Hwf). by apply take_wf.
Qed.
Lemma request_take_next_wf o : overlay_wf inputs o → overlay_wf inputs (request_take_next o).1.
Proof.
  intros Hwf. unfold request_take_next. destruct (queue o) as [|src rest] eqn:Hq; [done|].
  destruct (dequeue_wf _ _ _ Hq Hwf). by apply request_take_wf.
Qed.
Lemma set_output_inclusion_wf out b o :
  overlay_wf inputs o → overlay_wf inputs (set_output_inclusion out b o).
Proof.
  intros []. split; try done. simpl. destruct b; [case_decide; [done|]|by apply NoDup_filter].
  apply NoDup_app. split_and!; [done| |apply NoDup_singleton].
  intros x Hx ->%list_elem_of_singleton. done.
Qed.

(** One frame of one channel. *)
Lemma overlay_advance_spec o :
  overlay_wf inputs o →
  match automatic o with
  | None => overlay_advance o = Some (o, mk_overlay_advance None None)
  | Some a =>
      let next := auto_elapsed a + 1 in
      ∃ o' changed, overlay_wf inputs o' ∧ source o' = source o ∧ queue o' = queue o ∧
      opacity o' = overlay_ramp a next ∧
      changed = (if decide (opacity o' ≠ opacity o) then Some (opacity o') else None) ∧
      if decide (next = auto_duration a) then
        overlay_advance o = Some (o', mk_overlay_advance changed (Some (target_active a))) ∧
        active o' = target_active a ∧ automatic o' = None
      else
        overlay_advance o = Some (o', mk_overlay_advance changed None) ∧ active o' = true ∧
        automatic o' = Some (mk_overlay_auto (start_opacity a) (target_opacity a)
          (target_active a) (auto_duration a) next)
  end.
Proof.
  intros Hwf. pose proof (ow_motion _ _ Hwf) as Hm. unfold motion_ok in Hm.
  unfold overlay_advance. destruct (automatic o) as [a|] eqn:Hau; [|done].
  destruct Hm as (Ha&Hact&Hop). set (next := auto_elapsed a + 1).
  pose proof Ha as [Hs Ht He Hd]. unfold MAX_OVERLAY_TRANSITION_DURATION_FRAMES in Hd.
  assert (Hn : 0 ≤ next ≤ auto_duration a) by lia.
  rewrite checked_in by (subst next; int_lia).
  set (a' := mk_overlay_auto (start_opacity a) (target_opacity a) (target_active a)
    (auto_duration a) next).
  assert (Hoa : opacity_at a' next = Some (overlay_ramp a next)).
  { change (opacity_at a next = Some (overlay_ramp a next)). by apply opacity_at_eq. }
  cbn -[opacity_at]. fold a'. rewrite Hoa. cbn -[set_on_air].
  pose proof (ow_source _ _ Hwf) as Hsrc. case_decide as Hend.
  - rewrite bool_decide_true by lia.
    exists (set_on_air (source o) (target_active a) (target_opacity a) None o).
    eexists. split_and!; [|done|done| |reflexivity|reflexivity|done|done].
    + apply set_on_air_wf; [done| |exact Ht]. destruct (source o); [done|]. congruence.
    + simpl. unfold overlay_ramp. rewrite Hend, ramp_end; [done|lia].
  - rewrite bool_decide_false by lia.
    exists (set_on_air (source o) (active o) (overlay_ramp a next) (Some a') o).
    eexists. split_and!; [|done..|reflexivity|reflexivity|done|done].
    apply set_on_air_wf; [done|done|]. unfold motion_ok; simpl. split_and!; [|done..].
    split; simpl; try done. lia.
Qed.
End invariant.

(** ** Whole fades *)

Fixpoint overlay_advance_n (n : nat) (o : OverlayChannelState) :
    option (OverlayChannelState * list OverlayTransitionAdvance) :=
  match n with
  | O => Some (o, [])
  | S n =>
      '(o, adv) ← overlay_advance o;
      '(o, advs) ← overlay_advance_n n o;
      Some (o, adv :: advs)
  end.

(** A fade of [n] more frames: on the ramp until the last, which settles it. *)
Definition fades_in (n : nat) (a : AutomaticOverlayTransition) (o : OverlayChannelState) : Prop :=
  (∃ o' advs, overlay_advance_n n o = Some (o', advs) ∧
    source o' = source o ∧ active o' = target_active a ∧ opacity o' = target_opacity a ∧
    automatic o' = None ∧
    fade_completed <$> advs = replicate (n - 1) None ++ [Some (target_active a)]) ∧
  ∀ k, (k < n)%nat → ∃ ok advsk, overlay_advance_n k o = Some (ok, advsk) ∧
    source ok = source o ∧ active ok = true ∧
    opacity ok = overlay_ramp a (auto_elapsed a + Z.of_nat k).

Lemma overlay_advance_n_spec inputs n o a :
  overlay_wf inputs o → automatic o = Some a →
  auto_elapsed a + Z.of_nat n = auto_duration a → fades_in n a o.
Proof.
  revert o a. induction n as [|n IH]; intros o a Hwf Ha Hn.
  { pose proof (ow_motion _ _ Hwf) as Hm. unfold motion_ok in Hm. rewrite Ha in Hm.
    destruct Hm as [[_ _ ? _] _]. lia. }
  pose proof (overlay_advance_spec inputs o Hwf) as Hadv.
  pose proof (ow_motion _ _ Hwf) as Hm. unfold motion_ok in Hm. rewrite Ha in Hm, Hadv.
  destruct Hm as (Hawf&Hact&Hop). destruct Hadv as (o1&ch&Hwf1&Hs1&_&Hp1&_&Hadv).
  assert (Hk0 : ∃ ok advsk, overlay_advance_n 0 o = Some (ok, advsk) ∧
    source ok = source o ∧ active ok = true ∧
    opacity ok = overlay_ramp a (auto_elapsed a + Z.of_nat 0)).
  { eexists _, _. rewrite Z.add_0_r. done. }
  case_decide as Hend.
  - assert (n = 0%nat) as -> by lia. destruct Hadv as (Hadv&Hact1&Hau1). split.
    + eexists _, _. simpl. rewrite Hadv. split; [reflexivity|]. split_and!; try done.
      rewrite Hp1. unfold overlay_ramp. rewrite Hend. apply ramp_end.
      destruct Hawf as [_ _ ? _]. lia.
    + intros k ?. assert (k = 0%nat) as -> by lia. done.
  - destruct Hadv as (Hadv&Hact1&Ha1).
    set (a1 := mk_overlay_auto _ _ _ _ _) in Ha1.
    destruct (IH o1 a1 Hwf1 Ha1) as [(o2&advs&Hrun&Hs2&Hact2&Hop2&Hau2&Hc) Hk]; [simpl; lia|].
    split.
    + eexists _, _. simpl. rewrite Hadv. simpl. rewrite Hrun. split; [reflexivity|].
      split_and!; try done; [congruence|].
      rewrite fmap_cons, Hc. destruct n as [|n]; [lia|]. simpl. by rewrite Nat.sub_0_r.
    + intros [|k] Hlt; [done|]. destruct (Hk k ltac:(lia)) as (ok&advsk&Hrk&?&?&Hpk).
      eexists _, _. simpl. rewrite Hadv. simpl. rewrite Hrk. split; [reflexivity|].
      split_and!; [congruence|done|].
      rewrite Hpk. change (overlay_ramp a1 ?x) with (overlay_ramp a x). f_equal. simpl. lia.
Qed.

(** ** Theorem *)

(** An overlay with a fade of [d] frames is fully opaque exactly [d] frames
    after a take and gone exactly [d] frames after an off, each reported once at
    the last frame; in between its opacity is the exact linear ramp rounded down
    from where the channel was, and nothing panics. *)
Theorem overlay_fade_completes inputs o src :
  overlay_wf inputs o → transition o = OverlayFade → src ∈ inputs →
  let d := duration_frames o in
  fades_in (Z.to_nat d) (mk_overlay_auto 0 255 true d 0) (request_take src o) ∧
  source (request_take src o) = Some src ∧
  (active o = true →
   fades_in (Z.to_nat d) (mk_overlay_auto (opacity o) 0 false d 0) (request_off o)) ∧
  (active o = false → request_off o = off o).
Proof.
  intros Hwf Ht Hsrc d. pose proof (ow_duration _ _ Hwf) as [??].
  pose proof (request_take_wf inputs src o Hsrc Hwf) as Hwt.
  pose proof (request_off_wf inputs o Hwf) as Hwo.
  unfold request_take, request_off in *. rewrite Ht in *. split_and!.
  - eapply overlay_advance_n_spec; [exact Hwt|done|]. simpl. lia.
  - done.
  - intros Ha. rewrite Ha in *. eapply overlay_advance_n_spec; [exact Hwo|done|]. simpl. lia.
  - by intros ->.
Qed.

(** *** Witness *)

Definition overlay_demo : OverlayChannelState :=
  configure_transition OverlayFade 4 (take 7 overlay_empty).
Lemma overlay_demo_wf : overlay_wf [7; 9] overlay_demo.
Proof.
  apply configure_transition_wf; [unfold MAX_OVERLAY_TRANSITION_DURATION_FRAMES; lia|].
  apply take_wf; [by left|]. apply overlay_empty_wf.
Qed.
Lemma overlay_fade_completes_witness :
  (snd <$> overlay_advance_n 4 (request_take 9 overlay_demo)) = Some
    [mk_overlay_advance (Some 63) None; mk_overlay_advance (Some 127) None;
     mk_overlay_advance (Some 191) None; mk_overlay_advance (Some 255) (Some true)] ∧
  fades_in 4 (mk_overlay_auto 255 0 false 4 0) (request_off overlay_demo).
Proof.
  split; [vm_compute; reflexivity|].
  exact (proj1 (proj2 (proj2 (overlay_fade_completes [7; 9] overlay_demo 9 overlay_demo_wf
    eq_refl ltac:(right; left)))) eq_refl).
Defined.
