(* ===== verification/SwitcherTypes.v ===== *)
(** The data of the switcher: automatic and manual transitions
    ([crates/features/fm-switcher/src/transition.rs]), stinger slots
    ([stinger.rs]), the stream inventory ([stream.rs]) and the commands, events
    and errors ([command.rs]).

    Slot and channel numbers and T-bar positions are the integers they wrap, with
    their ranges as type invariants. *)
From S2P Require Import Prelude BTree Types Ramp FadeToBlack Overlay.

(** ** Stinger slots *)

Definition STINGER_SLOT_COUNT : nat := 8.
Abbreviation StingerSlotId := Z (only parsing).
Definition slot_new (number : Z) : option StingerSlotId :=
  if decide (1 ≤ number ∧ number ≤ 8) then Some number else None.
Definition slot_from_index (index : nat) : option StingerSlotId :=
  if decide (index < STINGER_SLOT_COUNT)%nat then
    n ← checked U8 (Z.of_nat index); checked U8 (n + 1)
  else None.
Definition slot_index (self : StingerSlotId) : option nat := Z.to_nat <$> checked U8 (self - 1).

Inductive StingerAudioPolicy := Muted | StingerOnly | MixWithProgram.
Inductive MissingMediaFallback := FallbackCut | FallbackFade | KeepProgram.
Inductive StingerPreloadState := NotRequested | Ready | Missing.
#[global] Instance StingerPreloadState_eq_dec : EqDecision StingerPreloadState.
Proof. solve_decision. Defined.

#[global] Instance StingerAudioPolicy_eq_dec : EqDecision StingerAudioPolicy.
Proof. solve_decision. Defined.
#[global] Instance MissingMediaFallback_eq_dec : EqDecision MissingMediaFallback.
Proof. solve_decision. Defined.

Record StingerDescriptor := mk_stinger {
  media_input : InputId;
  preload : bool;
  cut_point_frames : Z;
  audio_policy : StingerAudioPolicy;
  missing_media_fallback : MissingMediaFallback
}.
#[global] Instance StingerDescriptor_eq_dec : EqDecision StingerDescriptor.
Proof. solve_decision. Defined.
Record StingerSlotState := mk_slot {
  descriptor : option StingerDescriptor;
  preload_state : StingerPreloadState
}.
#[global] Instance StingerSlotState_eq_dec : EqDecision StingerSlotState.
Proof. solve_decision. Defined.
Definition slot_empty : StingerSlotState := mk_slot None NotRequested.
Definition slot_configure (d : StingerDescriptor) (self : StingerSlotState) : StingerSlotState :=
  mk_slot (Some d) NotRequested.
Definition set_preload_state (p : StingerPreloadState) (self : StingerSlotState) :
    StingerSlotState := mk_slot (descriptor self) p.
Definition slot_clear (self : StingerSlotState) : StingerSlotState := mk_slot None NotRequested.

Inductive StingerPlaybackDecision :=
  | Play
  | Fallback (f : MissingMediaFallback)
  | Unconfigured.

(** ** Transitions *)

Inductive TransitionKind :=
  | Fade | Wipe | Slide | Zoom | AlphaFade
  | Stinger (slot : StingerSlotId).
#[global] Instance TransitionKind_eq_dec : EqDecision TransitionKind.
Proof. solve_decision. Defined.

Abbreviation TBarPosition := Z (only parsing).
Definition TBAR_MAX : Z := 10000.
Definition t_bar_position_new (basis_points : Z) : option TBarPosition :=
  if decide (basis_points ≤ TBAR_MAX) then Some basis_points else None.

Record TBarState := mk_t_bar {
  t_kind : TransitionKind;
  t_from : InputId;
  t_to : InputId;
  t_interval_start : TBarPosition;
  t_position : TBarPosition
}.
Definition t_bar_new (kind : TransitionKind) (from to : InputId) : TBarState :=
  mk_t_bar kind from to 0 0.
Definition set_position (position : TBarPosition) (self : TBarState) : TBarState :=
  mk_t_bar (t_kind self) (t_from self) (t_to self) (t_interval_start self) position.
Definition settle_frame (self : TBarState) : TBarState :=
  mk_t_bar (t_kind self) (t_from self) (t_to self) (t_position self) (t_position self).

Record TransitionState := mk_transition {
  tr_kind : TransitionKind;
  tr_from : InputId;
  tr_to : InputId;
  tr_duration_frames : Z;
  tr_elapsed_frames : Z
}.
Definition transition_new (kind : TransitionKind) (from to : InputId) (duration_frames : Z) :
    TransitionState := mk_transition kind from to duration_frames 0.
Definition mix_end_numerator (self : TransitionState) : Z :=
  let next := saturating U32 (tr_elapsed_frames self + 1) in
  if decide (next < tr_duration_frames self) then next else tr_duration_frames self.
(** The incremented transition and whether it is over; [None] is an overflow. *)
Definition transition_advance (self : TransitionState) : option (TransitionState * bool) :=
  elapsed ← checked U32 (tr_elapsed_frames self + 1);
  Some (mk_transition (tr_kind self) (tr_from self) (tr_to self) (tr_duration_frames self) elapsed,
        bool_decide (tr_duration_frames self ≤ elapsed)).

Definition manual_transition_supported (kind : TransitionKind) : bool :=
  match kind with
  | Fade | Wipe | AlphaFade | Slide => true
  | Zoom | Stinger _ => false
  end.

Record ProgramFrame := mk_program_frame {
  primary : InputId;
  secondary : option InputId;
  transition_kind : option TransitionKind;
  mix_numerator : Z;
  mix_denominator : Z;
  mix_start_numerator : Z;
  mix_end : Z
}.

(** ** Commands, events and errors *)

Abbreviation StreamTargetId := Z (only parsing).

Inductive SwitcherError :=
  | UnknownInput (input : InputId)
  | TransitionInProgress
  | UnsupportedManualTransitionKind
  | InvalidManualTransitionRoute
  | ZeroDuration
  | InvalidOverlayTransitionDuration (duration_frames maximum : Z)
  | OverlayQueueFull (channel : OverlayChannelId) (maximum : nat)
  | OverlayQueueEmpty (channel : OverlayChannelId)
  | UnconfiguredStinger (slot : StingerSlotId)
  | StingerCutPointOutOfRange (slot : StingerSlotId) (cut_point_frames duration_frames : Z)
  | UnknownStreamTarget (target : StreamTargetId)
  | DuplicateStreamTarget (target : StreamTargetId)
  | InvalidStreamName
  | TooManyStreams (requested maximum : nat).

Module SwitcherCommand.
Inductive t :=
  | SelectPreview (input : InputId)
  | Cut
  | Transition (kind : TransitionKind) (duration_frames : Z)
  | Wipe (duration_frames : Z)
  | StartTBar (kind : TransitionKind)
  | SetTBarPosition (position : TBarPosition)
  | CommitTBar
  | CancelTBar
  | TakeOverlay (channel : OverlayChannelId) (source : InputId)
  | UpdateOverlay (channel : OverlayChannelId) (source : InputId)
  | OverlayOff (channel : OverlayChannelId)
  | ConfigureOverlayTransition (channel : OverlayChannelId)
      (transition : OverlayTransitionKind) (duration_frames : Z)
  | ConfigureOverlayAppearance (channel : OverlayChannelId)
      (position : OverlayPositionPreset) (border : OverlayBorderPreset)
  | QueueOverlay (channel : OverlayChannelId) (source : InputId)
  | TakeNextOverlay (channel : OverlayChannelId)
  | SetOverlayOutputInclusion (channel : OverlayChannelId) (output : OutputId) (included : bool)
  | SetStreamRunning (target : StreamTargetId) (running : bool)
  | SetRecordingDesired (active : bool).
End SwitcherCommand.

Module SwitcherEvent.
Inductive t :=
  | PreviewSelected (input : InputId)
  | ProgramChanged (previous program : InputId)
  | TransitionStarted (kind : TransitionKind) (from to : InputId) (duration_frames : Z)
  | TransitionCompleted (kind : TransitionKind) (program : InputId)
  | TBarStarted (kind : TransitionKind) (from to : InputId)
  | TBarPositionChanged (position : TBarPosition)
  | TBarCancelled
  | FadeToBlackStarted (from : FadeToBlackPosition) (target : FadeToBlackTarget)
      (duration_frames : Z)
  | FadeToBlackPositionChanged (position : FadeToBlackPosition)
  | FadeToBlackCompleted (active : bool)
  | OverlayTaken (channel : OverlayChannelId) (source : InputId)
  | OverlayUpdated (channel : OverlayChannelId) (source : InputId)
  | OverlayTurnedOff (channel : OverlayChannelId)
  | OverlayTransitionConfigured (channel : OverlayChannelId)
      (transition : OverlayTransitionKind) (duration_frames : Z)
  | OverlayAppearanceConfigured (channel : OverlayChannelId)
      (position : OverlayPositionPreset) (border : OverlayBorderPreset)
  | OverlayQueued (channel : OverlayChannelId) (source : InputId) (depth : nat)
  | OverlayQueueAdvanced (channel : OverlayChannelId) (source : InputId) (remaining : nat)
  | OverlayOpacityChanged (channel : OverlayChannelId) (opacity : Z)
  | OverlayTransitionCompleted (channel : OverlayChannelId) (active : bool)
  | OverlayOutputInclusionChanged (channel : OverlayChannelId) (output : OutputId)
      (included : bool)
  | StingerPreloadChanged (slot : StingerSlotId) (state : StingerPreloadState)
  | StingerFallbackApplied (slot : StingerSlotId) (fallback : MissingMediaFallback)
  | StreamRunningChanged (target : StreamTargetId) (running : bool)
  | RecordingDesiredChanged (active : bool).
End SwitcherEvent.

(** ** Streams *)

Definition MAX_STREAM_COUNT : nat := 5.
Definition MAX_STREAM_NAME_BYTES : nat := 128.

Record DesiredStream := mk_stream { stream_id : StreamTargetId; stream_name : string }.
#[global] Instance DesiredStream_eq_dec : EqDecision DesiredStream.
Proof. solve_decision. Defined.

(** The loop of [collect_desired_streams]. *)
Fixpoint check_streams (identifiers : btset StreamTargetId) (streams : list (StreamTargetId * string)) :
    result SwitcherError (list DesiredStream) :=
  match streams with
  | [] => Ok []
  | (id, name) :: streams =>
      if str_blank name || bool_decide (MAX_STREAM_NAME_BYTES < str_len name)%nat then
        Err InvalidStreamName
      else if decide (id ∈ identifiers) then Err (DuplicateStreamTarget id)
      else
        desired ← check_streams (bs_insert id identifiers) streams;
        Ok (mk_stream id name :: desired)
  end.
Definition collect_desired_streams (streams : list (StreamTargetId * string)) :
    result SwitcherError (list DesiredStream) :=
  if decide (MAX_STREAM_COUNT < length streams)%nat then
    Err (TooManyStreams (length streams) MAX_STREAM_COUNT)
  else check_streams [] streams.

(** What a stream inventory is. *)
Record streams_wf (l : list DesiredStream) : Prop := {
  sm_count : (length l ≤ MAX_STREAM_COUNT)%nat;
  sm_ids : NoDup (stream_id <$> l);
  sm_names : Forall (λ s, str_blank (stream_name s) = false ∧
                          (str_len (stream_name s) ≤ MAX_STREAM_NAME_BYTES)%nat) l
}.

Lemma check_streams_Ok seen l desired :
  check_streams seen l = Ok desired →
  desired = (λ p, mk_stream p.1 p.2) <$> l ∧ NoDup (stream_id <$> desired) ∧
  (∀ s, s ∈ desired → stream_id s ∉ seen) ∧
  Forall (λ s, str_blank (stream_name s) = false ∧
               (str_len (stream_name s) ≤ MAX_STREAM_NAME_BYTES)%nat) desired.
Proof.
  revert seen desired. induction l as [|[id name] l IH]; intros seen desired; simpl.
  { intros [= <-]. split_and!; [done|constructor|set_solver|constructor]. }
  destruct (str_blank name) eqn:Hb; [done|]. simpl.
  case_bool_decide as Hlen; [done|]. case_decide as Hid; [done|].
  intros (d&Hd&[= <-])%result_bind_Ok.
  apply IH in Hd as (Hd&Hnd&Hfresh&Hn). split_and!.
  - by rewrite Hd.
  - rewrite fmap_cons. constructor; [|done]. simpl.
    intros (s&->&Hs)%list_elem_of_fmap. apply (Hfresh s Hs). apply elem_of_bs_insert. by left.
  - intros s [->|Hs]%elem_of_cons; [done|]. intros Hin. apply (Hfresh s Hs).
    apply elem_of_bs_insert. by right.
  - constructor; [|done]. simpl. split; [done|lia].
Qed.
Lemma collect_desired_streams_Ok l desired :
  collect_desired_streams l = Ok desired →
  desired = (λ p, mk_stream p.1 p.2) <$> l ∧ streams_wf desired.
Proof.
  unfold collect_desired_streams. case_decide; [done|].
  intros (Hd&?&_&?)%check_streams_Ok. split; [done|]. split; [|done..].
  rewrite Hd, length_fmap. lia.
Qed.
