(* ===== verification/Switcher.v ===== *)
(** The switcher, [crates/features/fm-switcher/src/state.rs]: program and preview,
    automatic and manual transitions between them, Fade-to-Black, eight overlay
    channels, eight stinger slots, the stream inventory and the recording flag.

    [SwitcherState] maps to the record of the same name.  A method returns the
    events it reports; [Panic] is an index out of range, a failed [expect] or an
    arithmetic overflow. *)
From S2P Require Import Prelude BTree Types Ramp FadeToBlack Overlay SwitcherTypes.

(** ** State *)

Record SwitcherState := mk_switcher {
  inputs : list InputId;
  preview : InputId;
  program : InputId;
  transition : option TransitionState;
  t_bar : option TBarState;
  fade_to_black : FadeToBlackController;
  overlays : list OverlayChannelState;
  stingers : list StingerSlotState;
  streams : list DesiredStream;
  streams_running : gset StreamTargetId;
  recording_desired : bool
}.

Definition set_inputs (x : list InputId) (s : SwitcherState) : SwitcherState :=
  mk_switcher x (preview s) (program s) (transition s) (t_bar s) (fade_to_black s)
    (overlays s) (stingers s) (streams s) (streams_running s) (recording_desired s).
Definition set_route (prog prev : InputId) (tr : option TransitionState) (tb : option TBarState)
    (s : SwitcherState) : SwitcherState :=
  mk_switcher (inputs s) prev prog tr tb (fade_to_black s)
    (overlays s) (stingers s) (streams s) (streams_running s) (recording_desired s).
Definition set_ftb (x : FadeToBlackController) (s : SwitcherState) : SwitcherState :=
  mk_switcher (inputs s) (preview s) (program s) (transition s) (t_bar s) x
    (overlays s) (stingers s) (streams s) (streams_running s) (recording_desired s).
Definition set_overlays (x : list OverlayChannelState) (s : SwitcherState) : SwitcherState :=
  mk_switcher (inputs s) (preview s) (program s) (transition s) (t_bar s) (fade_to_black s)
    x (stingers s) (streams s) (streams_running s) (recording_desired s).
Definition set_stingers (x : list StingerSlotState) (s : SwitcherState) : SwitcherState :=
  mk_switcher (inputs s) (preview s) (program s) (transition s) (t_bar s) (fade_to_black s)
    (overlays s) x (streams s) (streams_running s) (recording_desired s).
Definition set_streams (x : list DesiredStream) (s : SwitcherState) : SwitcherState :=
  mk_switcher (inputs s) (preview s) (program s) (transition s) (t_bar s) (fade_to_black s)
    (overlays s) (stingers s) x (streams_running s) (recording_desired s).
Definition set_running (x : gset StreamTargetId) (s : SwitcherState) : SwitcherState :=
  mk_switcher (inputs s) (preview s) (program s) (transition s) (t_bar s) (fade_to_black s)
    (overlays s) (stingers s) (streams s) x (recording_desired s).
Definition set_recording (x : bool) (s : SwitcherState) : SwitcherState :=
  mk_switcher (inputs s) (preview s) (program s) (transition s) (t_bar s) (fade_to_black s)
    (overlays s) (stingers s) (streams s) (streams_running s) x.
Definition set_program (x : InputId) (s : SwitcherState) : SwitcherState :=
  set_route x (preview s) (transition s) (t_bar s) s.
Definition set_preview (x : InputId) (s : SwitcherState) : SwitcherState :=
  set_route (program s) x (transition s) (t_bar s) s.
Definition set_transition (x : option TransitionState) (s : SwitcherState) : SwitcherState :=
  set_route (program s) (preview s) x (t_bar s) s.
Definition set_t_bar (x : option TBarState) (s : SwitcherState) : SwitcherState :=
  set_route (program s) (preview s) (transition s) x s.

Abbreviation events := (list SwitcherEvent.t).
Abbreviation method := (stm SwitcherState SwitcherError events).

(** ** Guards and parts *)

Definition require_input (input : InputId) : stm SwitcherState SwitcherError unit :=
  self ← st_get;
  st_require (input ∈ inputs self) (UnknownInput input).
Definition is_idle (s : SwitcherState) : Prop := transition s = None ∧ t_bar s = None.
#[global] Instance is_idle_dec s : Decision (is_idle s).
Proof.
  unfold is_idle. destruct (transition s), (t_bar s); by (left + (right; intros [? ?])).
Defined.
Definition require_idle : stm SwitcherState SwitcherError unit :=
  self ← st_get;
  st_require (is_idle self) TransitionInProgress.

(** [self.overlays[channel.index()]] and [self.stinger(slot)]. *)
Definition overlay {E} (channel : OverlayChannelId) : stm SwitcherState E OverlayChannelState :=
  self ← st_get;
  index ← st_expect (channel_index channel);
  st_expect (overlays self !! index).
Definition stinger {E} (slot : StingerSlotId) : stm SwitcherState E StingerSlotState :=
  self ← st_get;
  index ← st_expect (slot_index slot);
  st_expect (stingers self !! index).
Definition put_overlay {E} (channel : OverlayChannelId) (o : OverlayChannelState) :
    stm SwitcherState E unit :=
  index ← st_expect (channel_index channel);
  st_modify (λ s, set_overlays (<[index := o]> (overlays s)) s).
Definition put_stinger {E} (slot : StingerSlotId) (o : StingerSlotState) :
    stm SwitcherState E unit :=
  index ← st_expect (slot_index slot);
  st_modify (λ s, set_stingers (<[index := o]> (stingers s)) s).

(** [complete_take]: swap program and preview; its argument is not used. *)
Definition complete_take {E} (_kind : TransitionKind) : stm SwitcherState E SwitcherEvent.t :=
  self ← st_get;
  _ ← st_put (set_route (preview self) (program self) (transition self) (t_bar self) self);
  mret (SwitcherEvent.ProgramChanged (program self) (preview self)).

(** ** Construction *)

Definition switcher_new (inputs : list InputId) (program preview : InputId) :
    outcome SwitcherError SwitcherState :=
  let state := {|
    inputs := inputs; preview := preview; program := program;
    transition := None; t_bar := None; fade_to_black := controller_default;
    overlays := replicate OVERLAY_CHANNEL_COUNT overlay_empty;
    stingers := replicate STINGER_SLOT_COUNT slot_empty;
    streams := []; streams_running := ∅; recording_desired := false
  |} in
  ((_ ← require_input program; _ ← require_input preview; mret state) state).2.

Definition with_streams (l : list (StreamTargetId * string)) (self : SwitcherState) :
    result SwitcherError SwitcherState :=
  desired ← collect_desired_streams l;
  Ok (set_streams desired self).

Definition reorder_inputs (l : list InputId) : stm SwitcherState InputOrderError unit :=
  self ← st_get;
  _ ← st_lift (validate_input_order (inputs self) l);
  st_put (set_inputs l self).

Definition restore_t_bar (t : TBarState) : stm SwitcherState SwitcherError unit :=
  _ ← require_idle;
  _ ← st_require (manual_transition_supported (t_kind t)) UnsupportedManualTransitionKind;
  _ ← require_input (t_from t);
  _ ← require_input (t_to t);
  self ← st_get;
  _ ← st_require (¬ (t_from t ≠ program self ∨ t_to t ≠ preview self)) InvalidManualTransitionRoute;
  st_modify (set_t_bar (Some t)).

Definition restore_settled_fade_to_black (active : bool) (self : SwitcherState) : SwitcherState :=
  set_ftb (settled (from_active active)) self.

(** ** Streams and recording *)

Definition stream_running (target : StreamTargetId) (self : SwitcherState) : option bool :=
  if decide (target ∈ stream_id <$> streams self) then
    Some (bool_decide (target ∈ streams_running self))
  else None.
Definition set_stream_running (target : StreamTargetId) (running : bool) : method :=
  self ← st_get;
  _ ← st_require (target ∈ stream_id <$> streams self) (UnknownStreamTarget target);
  _ ← (if running then st_modify (λ s, set_running ({[target]} ∪ streams_running s) s)
       else st_modify (λ s, set_running (streams_running s ∖ {[target]}) s));
  mret [SwitcherEvent.StreamRunningChanged target running].
Definition set_recording_desired (active : bool) : method :=
  self ← st_get;
  if decide (recording_desired self = active) then mret [] else
  _ ← st_modify (set_recording active);
  mret [SwitcherEvent.RecordingDesiredChanged active].

(** ** Stingers *)

Definition configure_stinger (slot : StingerSlotId) (d : StingerDescriptor) :
    stm SwitcherState SwitcherError unit :=
  _ ← require_input (media_input d);
  o ← stinger slot;
  put_stinger slot (slot_configure d o).
Definition remove_stinger (slot : StingerSlotId) : stm SwitcherState Empty_set unit :=
  o ← stinger slot;
  put_stinger slot (slot_clear o).
Definition preload_stinger (slot : StingerSlotId) (media_available : bool) :
    stm SwitcherState SwitcherError SwitcherEvent.t :=
  o ← stinger slot;
  _ ← st_require (¬ descriptor o = None) (UnconfiguredStinger slot);
  let state := if media_available then Ready else Missing in
  o ← stinger slot;
  _ ← put_stinger slot (set_preload_state state o);
  mret (SwitcherEvent.StingerPreloadChanged slot state).
Definition stinger_playback_decision {E} (slot : StingerSlotId) :
    stm SwitcherState E StingerPlaybackDecision :=
  o ← stinger slot;
  mret match descriptor o with
       | None => Unconfigured
       | Some d =>
           if decide (preload_state o = Ready) then Play
           else Fallback (missing_media_fallback d)
       end.

(** ** Automatic transitions

    [start_transition] and [apply_stinger_fallback] call each other; a fallback
    only ever starts a fade, so two levels are enough ([start_transition_spec]
    shows that the limit is not reached). *)

Definition apply_stinger_fallback (start_transition : TransitionKind → Z → method)
    (slot : StingerSlotId) (fallback : MissingMediaFallback) (duration_frames : Z) : method :=
  let fallback_event := SwitcherEvent.StingerFallbackApplied slot fallback in
  match fallback with
  | FallbackCut =>
      taken ← complete_take Fade;
      mret [fallback_event; taken]
  | FallbackFade =>
      started ← start_transition Fade duration_frames;
      mret (fallback_event :: started)
  | KeepProgram => mret [fallback_event]
  end.

Definition begin_transition (kind : TransitionKind) (duration_frames : Z) : method :=
  self ← st_get;
  _ ← st_put (set_transition
    (Some (transition_new kind (program self) (preview self) duration_frames)) self);
  mret [SwitcherEvent.TransitionStarted kind (program self) (preview self) duration_frames].

Fixpoint start_transition_fuel (fuel : nat) (kind : TransitionKind) (duration_frames : Z) :
    method :=
  match fuel with
  | O => st_panic
  | S fuel =>
      match kind with
      | Stinger slot =>
          decision ← stinger_playback_decision slot;
          match decision with
          | Fallback fallback =>
              apply_stinger_fallback (start_transition_fuel fuel) slot fallback duration_frames
          | Play =>
              o ← stinger slot;
              d ← st_expect (descriptor o);
              _ ← st_require (¬ duration_frames < cut_point_frames d)
                (StingerCutPointOutOfRange slot (cut_point_frames d) duration_frames);
              begin_transition kind duration_frames
          | Unconfigured => mthrow (UnconfiguredStinger slot)
          end
      | _ => begin_transition kind duration_frames
      end
  end.
Definition start_transition : TransitionKind → Z → method := start_transition_fuel 2.

(** ** Manual transitions *)

Definition start_t_bar (kind : TransitionKind) : method :=
  _ ← require_idle;
  _ ← st_require (manual_transition_supported kind) UnsupportedManualTransitionKind;
  self ← st_get;
  _ ← st_put (set_t_bar (Some (t_bar_new kind (program self) (preview self))) self);
  mret [SwitcherEvent.TBarStarted kind (program self) (preview self)].
Definition set_t_bar_position (position : TBarPosition) : method :=
  self ← st_get;
  t ← st_lift (ok_or TransitionInProgress (t_bar self));
  _ ← st_put (set_t_bar (Some (set_position position t)) self);
  mret [SwitcherEvent.TBarPositionChanged position].
(** [take] empties the field also when it then fails: it was empty. *)
Definition take_t_bar : stm SwitcherState SwitcherError TBarState :=
  self ← st_get;
  _ ← st_put (set_t_bar None self);
  st_lift (ok_or TransitionInProgress (t_bar self)).
Definition commit_t_bar : method :=
  t ← take_t_bar;
  program_changed ← complete_take (t_kind t);
  self ← st_get;
  mret [program_changed; SwitcherEvent.TransitionCompleted (t_kind t) (program self)].
Definition cancel_t_bar : method :=
  _ ← take_t_bar;
  mret [SwitcherEvent.TBarCancelled].

(** ** Fade-to-Black *)

Definition request_fade_to_black (active : bool) (duration_frames : Z) :
    stm SwitcherState FadeToBlackError events :=
  r ← st_zoom fade_to_black set_ftb (request (from_active active) duration_frames);
  mret match r with
       | Unchanged => []
       | Started s =>
           [SwitcherEvent.FadeToBlackStarted (started_from s) (started_target s)
              (started_duration_frames s)]
       | Completed t => [SwitcherEvent.FadeToBlackCompleted (FadeToBlack.target_active t)]
       end.
Definition append_fade_to_black_events (l : events) (advance : FadeToBlackAdvance) : events :=
  l ++ from_option (λ p, [SwitcherEvent.FadeToBlackPositionChanged p]) [] (position_changed advance)
    ++ from_option (λ t, [SwitcherEvent.FadeToBlackCompleted (FadeToBlack.target_active t)]) [] (completed advance).

(** ** Overlays *)

(** A channel operation that cannot fail, on a source of the show. *)
Definition with_source (channel : OverlayChannelId) (source : InputId)
    (f : OverlayChannelState → OverlayChannelState) (event : SwitcherEvent.t) : method :=
  _ ← require_input source;
  o ← overlay channel;
  _ ← put_overlay channel (f o);
  mret [event].
Definition take_overlay (channel : OverlayChannelId) (source : InputId) : method :=
  with_source channel source (take source) (SwitcherEvent.OverlayTaken channel source).
Definition update_overlay (channel : OverlayChannelId) (source : InputId) : method :=
  with_source channel source (update source) (SwitcherEvent.OverlayUpdated channel source).
Definition request_overlay_take (channel : OverlayChannelId) (source : InputId) : method :=
  with_source channel source (request_take source) (SwitcherEvent.OverlayTaken channel source).
Definition overlay_off (channel : OverlayChannelId) : method :=
  o ← overlay channel;
  _ ← put_overlay channel (off o);
  mret [SwitcherEvent.OverlayTurnedOff channel].
Definition request_overlay_off (channel : OverlayChannelId) : method :=
  o ← overlay channel;
  _ ← put_overlay channel (request_off o);
  mret [SwitcherEvent.OverlayTurnedOff channel].
Definition configure_overlay_transition (channel : OverlayChannelId)
    (kind : OverlayTransitionKind) (duration_frames : Z) : method :=
  _ ← st_require
    (¬ (duration_frames = 0 ∨ MAX_OVERLAY_TRANSITION_DURATION_FRAMES < duration_frames))
    (InvalidOverlayTransitionDuration duration_frames MAX_OVERLAY_TRANSITION_DURATION_FRAMES);
  o ← overlay channel;
  _ ← put_overlay channel (configure_transition kind duration_frames o);
  mret [SwitcherEvent.OverlayTransitionConfigured channel kind duration_frames].
Definition configure_overlay_appearance (channel : OverlayChannelId)
    (position : OverlayPositionPreset) (border : OverlayBorderPreset) : method :=
  o ← overlay channel;
  _ ← put_overlay channel (configure_appearance position border o);
  mret [SwitcherEvent.OverlayAppearanceConfigured channel position border].
Definition queue_overlay (channel : OverlayChannelId) (source : InputId) : method :=
  _ ← require_input source;
  o ← overlay channel;
  let '(o, queued) := enqueue source o in
  _ ← put_overlay channel o;
  _ ← st_require (queued = true) (OverlayQueueFull channel MAX_OVERLAY_QUEUE_DEPTH);
  o ← overlay channel;
  mret [SwitcherEvent.OverlayQueued channel source (length (queue o))].
(** [take_next_overlay] and [request_overlay_take_next] differ in the take. *)
Definition advance_queue (next : OverlayChannelState → OverlayChannelState * option InputId)
    (channel : OverlayChannelId) : method :=
  o ← overlay channel;
  let '(o, popped) := next o in
  _ ← put_overlay channel o;
  source ← st_lift (ok_or (OverlayQueueEmpty channel) popped);
  o ← overlay channel;
  mret [SwitcherEvent.OverlayQueueAdvanced channel source (length (queue o))].
Definition take_next_overlay : OverlayChannelId → method := advance_queue take_next.
Definition request_overlay_take_next : OverlayChannelId → method :=
  advance_queue request_take_next.
Definition set_overlay_output_inclusion (channel : OverlayChannelId) (output : OutputId)
    (included : bool) : method :=
  o ← overlay channel;
  _ ← put_overlay channel (set_output_inclusion output included o);
  mret [SwitcherEvent.OverlayOutputInclusionChanged channel output included].
Definition overlays_in_motion (self : SwitcherState) : bool :=
  existsb (λ o, bool_decide (is_Some (Overlay.automatic o))) (overlays self).

(** ** Commands *)

Definition apply (command : SwitcherCommand.t) : method :=
  match command with
  | SwitcherCommand.SelectPreview input =>
      _ ← require_idle;
      _ ← require_input input;
      _ ← st_modify (set_preview input);
      mret [SwitcherEvent.PreviewSelected input]
  | SwitcherCommand.Cut =>
      _ ← require_idle;
      taken ← complete_take Fade;
      mret [taken]
  | SwitcherCommand.Transition kind duration_frames =>
      _ ← require_idle;
      _ ← st_require (duration_frames ≠ 0) ZeroDuration;
      start_transition kind duration_frames
  | SwitcherCommand.Wipe duration_frames =>
      _ ← require_idle;
      _ ← st_require (duration_frames ≠ 0) ZeroDuration;
      start_transition Wipe duration_frames
  | SwitcherCommand.StartTBar kind => start_t_bar kind
  | SwitcherCommand.SetTBarPosition position => set_t_bar_position position
  | SwitcherCommand.CommitTBar => commit_t_bar
  | SwitcherCommand.CancelTBar => cancel_t_bar
  | SwitcherCommand.TakeOverlay channel source => take_overlay channel source
  | SwitcherCommand.UpdateOverlay channel source => update_overlay channel source
  | SwitcherCommand.OverlayOff channel => overlay_off channel
  | SwitcherCommand.ConfigureOverlayTransition channel kind duration_frames =>
      configure_overlay_transition channel kind duration_frames
  | SwitcherCommand.ConfigureOverlayAppearance channel position border =>
      configure_overlay_appearance channel position border
  | SwitcherCommand.QueueOverlay channel source => queue_overlay channel source
  | SwitcherCommand.TakeNextOverlay channel => take_next_overlay channel
  | SwitcherCommand.SetOverlayOutputInclusion channel output included =>
      set_overlay_output_inclusion channel output included
  | SwitcherCommand.SetStreamRunning target running => set_stream_running target running
  | SwitcherCommand.SetRecordingDesired active => set_recording_desired active
  end.

(** ** Frames *)

Definition program_frame (self : SwitcherState) : ProgramFrame :=
  match transition self, t_bar self with
  | Some t, _ => {|
      primary := tr_from t; secondary := Some (tr_to t); transition_kind := Some (tr_kind t);
      mix_numerator := tr_elapsed_frames t; mix_denominator := tr_duration_frames t;
      mix_start_numerator := tr_elapsed_frames t; mix_end := mix_end_numerator t
    |}
  | None, Some t => {|
      primary := t_from t; secondary := Some (t_to t); transition_kind := Some (t_kind t);
      mix_numerator := t_position t; mix_denominator := TBAR_MAX;
      mix_start_numerator := t_interval_start t; mix_end := t_position t
    |}
  | None, None => {|
      primary := program self; secondary := None; transition_kind := None;
      mix_numerator := 0; mix_denominator := 1; mix_start_numerator := 0; mix_end := 0
    |}
  end.

Definition advance_fade_to_black {E} : stm SwitcherState E FadeToBlackAdvance :=
  st_zoom fade_to_black set_ftb advance.

(** The [if let Some(mut transition)] block. *)
Definition advance_transition {E} : stm SwitcherState E events :=
  self ← st_get;
  match transition self with
  | None => mret []
  | Some t =>
      '(t, over) ← st_expect (transition_advance t);
      if (over : bool) then
        _ ← st_put (set_transition None self);
        taken ← complete_take (tr_kind t);
        self ← st_get;
        mret [taken; SwitcherEvent.TransitionCompleted (tr_kind t) (program self)]
      else
        _ ← st_put (set_transition (Some t) self);
        mret []
  end.

(** The loop over the channels and their states. *)
Definition overlay_events (channel : OverlayChannelId) (advance : OverlayTransitionAdvance) : events :=
  from_option (λ o, [SwitcherEvent.OverlayOpacityChanged channel o]) [] (opacity_changed advance) ++
  from_option (λ a, [SwitcherEvent.OverlayTransitionCompleted channel a]) [] (fade_completed advance).
Fixpoint advance_overlays (channels : list OverlayChannelId) (l : list OverlayChannelState) :
    option (list OverlayChannelState * events) :=
  match channels, l with
  | channel :: channels, o :: l =>
      '(o, advance) ← overlay_advance o;
      '(l, rest) ← advance_overlays channels l;
      Some (o :: l, overlay_events channel advance ++ rest)
  | _, _ => Some (l, [])
  end.

Definition advance_frame_events : stm SwitcherState Empty_set events :=
  ftb ← advance_fade_to_black;
  _ ← st_modify (λ s, set_t_bar (settle_frame <$> t_bar s) s);
  l ← advance_transition;
  let l := append_fade_to_black_events l ftb in
  self ← st_get;
  '(os, more) ← st_expect (advance_overlays channel_ALL (overlays self));
  _ ← st_put (set_overlays os self);
  mret (l ++ more).

(** ** The invariant *)

(** The type invariants of the arguments. *)
Definition channel_ok (channel : OverlayChannelId) : Prop := 1 ≤ channel ≤ 8.
Definition slot_ok (slot : StingerSlotId) : Prop := 1 ≤ slot ≤ 8.
Definition kind_ok (kind : TransitionKind) : Prop :=
  match kind with
  | Stinger slot => slot_ok slot
  | _ => True
  end.
Definition t_position_ok (p : TBarPosition) : Prop := 0 ≤ p ≤ TBAR_MAX.
Definition command_ok (command : SwitcherCommand.t) : Prop :=
  match command with
  | SwitcherCommand.Transition kind d => kind_ok kind ∧ in_ty U32 d
  | SwitcherCommand.Wipe d => in_ty U32 d
  | SwitcherCommand.StartTBar kind => kind_ok kind
  | SwitcherCommand.SetTBarPosition p => t_position_ok p
  | SwitcherCommand.ConfigureOverlayTransition channel _ d => channel_ok channel ∧ in_ty U32 d
  | SwitcherCommand.TakeOverlay channel _ | SwitcherCommand.UpdateOverlay channel _
  | SwitcherCommand.OverlayOff channel | SwitcherCommand.ConfigureOverlayAppearance channel _ _
  | SwitcherCommand.QueueOverlay channel _ | SwitcherCommand.TakeNextOverlay channel
  | SwitcherCommand.SetOverlayOutputInclusion channel _ _ => channel_ok channel
  | SwitcherCommand.SelectPreview _ | SwitcherCommand.Cut | SwitcherCommand.CommitTBar
  | SwitcherCommand.CancelTBar | SwitcherCommand.SetStreamRunning _ _
  | SwitcherCommand.SetRecordingDesired _ => True
  end.

(** At most one transition is under way, between the program and the preview,
    before its end. *)
Definition route_ok (prog prev : InputId) (tr : option TransitionState) (tb : option TBarState) :
    Prop :=
  match tr, tb with
  | None, None => True
  | Some t, None =>
      tr_from t = prog ∧ tr_to t = prev ∧ 0 ≤ tr_elapsed_frames t < tr_duration_frames t ∧
      in_ty U32 (tr_duration_frames t)
  | None, Some t =>
      t_from t = prog ∧ t_to t = prev ∧ manual_transition_supported (t_kind t) ∧
      t_position_ok (t_interval_start t) ∧ t_position_ok (t_position t)
  | Some _, Some _ => False
  end.
Definition slot_wf (inputs : list InputId) (o : StingerSlotState) : Prop :=
  match descriptor o with
  | Some d => media_input d ∈ inputs
  | None => preload_state o = NotRequested
  end.

Record switcher_wf (s : SwitcherState) : Prop := {
  wf_program : program s ∈ inputs s;
  wf_preview : preview s ∈ inputs s;
  wf_route : route_ok (program s) (preview s) (transition s) (t_bar s);
  wf_ftb : ftb_wf (fade_to_black s);
  wf_overlays : length (overlays s) = OVERLAY_CHANNEL_COUNT;
  wf_overlay : Forall (overlay_wf (inputs s)) (overlays s);
  wf_stingers : length (stingers s) = STINGER_SLOT_COUNT;
  wf_stinger : Forall (slot_wf (inputs s)) (stingers s);
  wf_streams : streams_wf (streams s);
  wf_running : ∀ t, t ∈ streams_running s → t ∈ stream_id <$> streams s
}.

(** A method is safe: it keeps the invariant, an error leaves the state as it
    was and nothing panics. *)
Definition safe {E A} (s : SwitcherState) (r : outcome E A) (s' : SwitcherState) : Prop :=
  switcher_wf s' ∧
  match r with
  | Ret _ => True
  | Throw _ => s' = s
  | Panic => False
  end.

(** ** Lemmas *)

Section parts.
Context {E : Type}.
Implicit Types s : SwitcherState.

Lemma channel_index_eq ch : channel_ok ch → channel_index ch = Some (Z.to_nat (ch - 1)).
Proof. intros [??]. unfold channel_index. by rewrite checked_in by int_lia. Qed.
Lemma slot_index_eq n : slot_ok n → slot_index n = Some (Z.to_nat (n - 1)).
Proof. intros [??]. unfold slot_index. by rewrite checked_in by int_lia. Qed.

Lemma wp_overlay ch (Q : outcome E OverlayChannelState → SwitcherState → Prop) s :
  switcher_wf s → channel_ok ch →
  (∀ o, overlays s !! Z.to_nat (ch - 1) = Some o → overlay_wf (inputs s) o → Q (Ret o) s) →
  wp (overlay ch) Q s.
Proof.
  intros Hwf Hch HQ.
  destruct (lookup_lt_is_Some_2 (overlays s) (Z.to_nat (ch - 1))) as [o Ho].
  { rewrite (wf_overlays _ Hwf). unfold OVERLAY_CHANNEL_COUNT. destruct Hch. lia. }
  unfold overlay, wp, mbind, stm_bind, st_get, st_expect. rewrite channel_index_eq by done.
  simpl. rewrite Ho. apply HQ; [done|]. by eapply Forall_lookup_1; [apply wf_overlay|].
Qed.
Lemma wp_put_overlay ch o (Q : outcome E unit → SwitcherState → Prop) s :
  channel_ok ch → Q (Ret tt) (set_overlays (<[Z.to_nat (ch - 1) := o]> (overlays s)) s) →
  wp (put_overlay ch o) Q s.
Proof.
  intros Hch HQ. unfold put_overlay. rewrite channel_index_eq by done.
  wp_run; by simplify_eq.
Qed.
Lemma wp_stinger n (Q : outcome E StingerSlotState → SwitcherState → Prop) s :
  switcher_wf s → slot_ok n →
  (∀ o, stingers s !! Z.to_nat (n - 1) = Some o → slot_wf (inputs s) o → Q (Ret o) s) →
  wp (stinger n) Q s.
Proof.
  intros Hwf Hn HQ.
  destruct (lookup_lt_is_Some_2 (stingers s) (Z.to_nat (n - 1))) as [o Ho].
  { rewrite (wf_stingers _ Hwf). unfold STINGER_SLOT_COUNT. destruct Hn. lia. }
  unfold stinger, wp, mbind, stm_bind, st_get, st_expect. rewrite slot_index_eq by done.
  simpl. rewrite Ho. apply HQ; [done|]. by eapply Forall_lookup_1; [apply wf_stinger|].
Qed.
Lemma wp_put_stinger n o (Q : outcome E unit → SwitcherState → Prop) s :
  slot_ok n → Q (Ret tt) (set_stingers (<[Z.to_nat (n - 1) := o]> (stingers s)) s) →
  wp (put_stinger n o) Q s.
Proof.
  intros Hn HQ. unfold put_stinger. rewrite slot_index_eq by done.
  wp_run; by simplify_eq.
Qed.
End parts.

Section keeps.
Implicit Types s : SwitcherState.

Lemma set_route_wf s prog prev tr tb :
  switcher_wf s → prog ∈ inputs s → prev ∈ inputs s → route_ok prog prev tr tb →
  switcher_wf (set_route prog prev tr tb s).
Proof. intros [] ???. by split. Qed.
Lemma set_ftb_wf s c : switcher_wf s → ftb_wf c → switcher_wf (set_ftb c s).
Proof. intros [] ?. by split. Qed.
Lemma put_overlay_wf s i o :
  switcher_wf s → overlay_wf (inputs s) o → switcher_wf (set_overlays (<[i := o]> (overlays s)) s).
Proof.
  intros [] ?. split; simpl; try done.
  - by rewrite length_insert.
  - by apply Forall_insert.
Qed.
Lemma put_stinger_wf s i o :
  switcher_wf s → slot_wf (inputs s) o → switcher_wf (set_stingers (<[i := o]> (stingers s)) s).
Proof.
  intros [] ?. split; simpl; try done.
  - by rewrite length_insert.
  - by apply Forall_insert.
Qed.
Lemma put_same_overlay s i o :
  overlays s !! i = Some o → set_overlays (<[i := o]> (overlays s)) s = s.
Proof. intros ?. rewrite list_insert_id by done. by destruct s. Qed.
Lemma idle_route s : is_idle s → transition s = None ∧ t_bar s = None.
Proof. done. Qed.
End keeps.

Lemma wp_require_input i Q s :
  (i ∈ inputs s → Q (Ret tt) s) → Q (Throw (UnknownInput i)) s → wp (require_input i) Q s.
Proof. intros. unfold require_input. wp_run; simplify_eq; auto. Qed.
Lemma wp_require_idle Q s :
  (transition s = None → t_bar s = None → Q (Ret tt) s) → Q (Throw TransitionInProgress) s →
  wp require_idle Q s.
Proof. intros HQ ?. unfold require_idle. wp_run; [|done]. match goal with Hi : is_idle s |- _ => destruct Hi end. auto. Qed.

(** Symbolic execution of the methods of a well-formed switcher. *)
Create HintDb switcher discriminated.
#[export] Hint Resolve take_wf update_wf off_wf request_take_wf request_off_wf
  configure_appearance_wf set_output_inclusion_wf put_overlay_wf put_stinger_wf
  set_route_wf set_ftb_wf : switcher.

Ltac sw_step :=
  lazymatch goal with
  | |- wp (overlay _) _ _ =>
      apply wp_overlay; [first [done|by eauto with switcher]|done|intros ? ? ?]
  | |- wp (put_overlay _ _) _ _ => apply wp_put_overlay; [done|]
  | |- wp (stinger _) _ _ =>
      apply wp_stinger; [first [done|by eauto with switcher]|done|intros ? ? ?]
  | |- wp (put_stinger _ _) _ _ => apply wp_put_stinger; [done|]
  | |- wp (require_input _) _ _ => apply wp_require_input; [intros ?|]
  | |- wp require_idle _ _ => apply wp_require_idle; [intros ? ?|]
  | |- wp (complete_take _) _ _ => unfold complete_take
  | |- wp take_t_bar _ _ => unfold take_t_bar
  | |- _ => wp_step
  end.
Ltac sw_run := repeat (sw_step; cbn beta iota).
(** Close [safe] at an early return, or leave the invariant to prove. *)
Ltac sw_safe :=
  simplify_eq; try (split; [by eauto with switcher|done]).

Section methods.
Implicit Types s : SwitcherState.

Lemma with_source_safe ch src f ev s :
  switcher_wf s → channel_ok ch →
  (∀ o, src ∈ inputs s → overlay_wf (inputs s) o → overlay_wf (inputs s) (f o)) →
  wp (with_source ch src f ev) (safe s) s.
Proof. intros Hwf Hch Hf. unfold with_source. sw_run; sw_safe. Qed.

Lemma overlay_off_safe ch s :
  switcher_wf s → channel_ok ch → wp (overlay_off ch) (safe s) s.
Proof. intros. unfold overlay_off. sw_run; sw_safe. Qed.
Lemma request_overlay_off_safe ch s :
  switcher_wf s → channel_ok ch → wp (request_overlay_off ch) (safe s) s.
Proof. intros. unfold request_overlay_off. sw_run; sw_safe. Qed.
Lemma configure_overlay_transition_safe ch k d s :
  switcher_wf s → channel_ok ch → in_ty U32 d →
  wp (configure_overlay_transition ch k d) (safe s) s.
Proof.
  intros ?? Hd. unfold configure_overlay_transition. sw_run; sw_safe.
  split; [|done]. apply put_overlay_wf; [done|]. apply configure_transition_wf; [|done].
  unfold in_ty in Hd. simpl in Hd. lia.
Qed.
Lemma configure_overlay_appearance_safe ch p b s :
  switcher_wf s → channel_ok ch → wp (configure_overlay_appearance ch p b) (safe s) s.
Proof. intros. unfold configure_overlay_appearance. sw_run; sw_safe. Qed.
Lemma set_overlay_output_inclusion_safe ch out b s :
  switcher_wf s → channel_ok ch → wp (set_overlay_output_inclusion ch out b) (safe s) s.
Proof. intros. unfold set_overlay_output_inclusion. sw_run; sw_safe. Qed.

Lemma queue_overlay_safe ch src s :
  switcher_wf s → channel_ok ch → wp (queue_overlay ch src) (safe s) s.
Proof.
  intros Hwf Hch. unfold queue_overlay. apply wp_bind, wp_require_input; [intros Hin|by split].
  cbn beta iota. apply wp_bind, wp_overlay; [done..|]. intros o Ho Hwo. cbn beta iota.
  pose proof (enqueue_wf (inputs s) src o ltac:(done) Hwo) as Hwe. unfold enqueue in *.
  case_decide; simpl in Hwe.
  - sw_run; sw_safe. rewrite put_same_overlay by done. by split.
  - assert (switcher_wf (set_overlays (<[Z.to_nat (ch - 1) := set_queue (queue o ++ [src]) o]>
      (overlays s)) s)) by by apply put_overlay_wf.
    sw_run; sw_safe.
Qed.

Lemma advance_queue_safe next ch s :
  (∀ o, overlay_wf (inputs s) o → overlay_wf (inputs s) (next o).1 ∧
        ((next o).2 = None → (next o).1 = o)) →
  switcher_wf s → channel_ok ch → wp (advance_queue next ch) (safe s) s.
Proof.
  intros Hn Hwf Hch. unfold advance_queue. apply wp_bind, wp_overlay; [done..|].
  intros o Ho Hwo. cbn beta iota. destruct (Hn o Hwo) as [Hwn Hsame].
  destruct (next o) as [o' [src|]]; simpl in Hwn, Hsame.
  - assert (switcher_wf (set_overlays (<[Z.to_nat (ch - 1) := o']> (overlays s)) s))
      by by apply put_overlay_wf.
    sw_run; sw_safe.
  - rewrite Hsame by done. sw_run; sw_safe. rewrite put_same_overlay by done. by split.
Qed.
Lemma take_next_overlay_safe ch s :
  switcher_wf s → channel_ok ch → wp (take_next_overlay ch) (safe s) s.
Proof.
  intros. apply advance_queue_safe; [|done..]. intros o ?.
  split; [by apply take_next_wf|]. unfold take_next. by destruct (queue o).
Qed.
Lemma request_overlay_take_next_safe ch s :
  switcher_wf s → channel_ok ch → wp (request_overlay_take_next ch) (safe s) s.
Proof.
  intros. apply advance_queue_safe; [|done..]. intros o ?.
  split; [by apply request_take_next_wf|]. unfold request_take_next. by destruct (queue o).
Qed.

Lemma set_stream_running_safe t b s : switcher_wf s → wp (set_stream_running t b) (safe s) s.
Proof.
  intros []. unfold set_stream_running. destruct b; sw_run; sw_safe; (split; [|done]);
    split; simpl; try done; simplify_eq; set_solver.
Qed.
Lemma set_recording_desired_safe b s : switcher_wf s → wp (set_recording_desired b) (safe s) s.
Proof.
  intros []. unfold set_recording_desired. sw_run; (split; [|done]); by split.
Qed.

Lemma configure_stinger_safe n d s :
  switcher_wf s → slot_ok n → wp (configure_stinger n d) (safe s) s.
Proof.
  intros. unfold configure_stinger. sw_run; sw_safe.
Qed.
Lemma remove_stinger_safe n s : switcher_wf s → slot_ok n → wp (remove_stinger n) (safe s) s.
Proof.
  intros. unfold remove_stinger. sw_run. split; [|done]. by apply put_stinger_wf.
Qed.
Lemma preload_stinger_safe n b s :
  switcher_wf s → slot_ok n → wp (preload_stinger n b) (safe s) s.
Proof.
  intros. unfold preload_stinger. sw_run; sw_safe. split; [|done].
  apply put_stinger_wf; [done|]. unfold slot_wf in *. simpl. by destruct (descriptor _).
Qed.

Lemma route_idle s :
  switcher_wf s → transition s = None → t_bar s = None →
  switcher_wf (set_route (preview s) (program s) None None s).
Proof. intros Hwf ??. apply set_route_wf; [done|apply Hwf..|done]. Qed.
Lemma begin_transition_safe k d s :
  switcher_wf s → transition s = None → t_bar s = None → in_ty U32 d → d ≠ 0 →
  wp (begin_transition k d) (safe s) s.
Proof.
  intros Hwf Ht Hb Hd ?. unfold begin_transition. sw_run. split; [|done].
  apply set_route_wf; [done|apply Hwf..|]. rewrite Hb. simpl. unfold in_ty in *. simpl in *.
  split_and!; try done; lia.
Qed.
Lemma cut_safe {E} k s :
  switcher_wf s → transition s = None → t_bar s = None →
  wp (complete_take (E := E) k) (safe s) s.
Proof.
  intros Hwf Ht Hb. unfold complete_take. sw_run. split; [|done]. rewrite Ht, Hb.
  by apply route_idle.
Qed.

(** Two levels of calls are enough: a fallback starts a fade. *)
Lemma start_transition_spec k d s :
  switcher_wf s → transition s = None → t_bar s = None → kind_ok k → in_ty U32 d → d ≠ 0 →
  wp (start_transition k d) (safe s) s.
Proof.
  intros Hwf Ht Hb Hk Hd Hnz. unfold start_transition. cbn [start_transition_fuel].
  destruct k as [| | | | |n]; try by apply begin_transition_safe.
  unfold stinger_playback_decision. apply wp_bind, wp_bind, wp_stinger; [done..|].
  intros o Ho Hwo. cbn beta iota. apply wp_ret. cbn beta iota.
  destruct (descriptor o) as [de|] eqn:Hde; [|by split].
  case_decide as Hr.
  - apply wp_bind, wp_stinger; [done..|]. intros o' Ho' _. cbn beta iota. simplify_eq.
    rewrite Hde. sw_run; simplify_eq; try by split. by apply begin_transition_safe.
  - unfold apply_stinger_fallback. destruct (missing_media_fallback de).
    + apply wp_bind. eapply wp_mono; [by apply cut_safe|]. intros [e| |] s' [? Hs]; try done.
    + apply wp_bind. eapply wp_mono; [by apply begin_transition_safe|].
      intros [e| |] s' [? Hs]; try done.
    + by split.
Qed.

Lemma start_t_bar_safe k s : switcher_wf s → wp (start_t_bar k) (safe s) s.
Proof.
  intros Hwf. unfold start_t_bar. sw_run; try by split. split; [|done].
  simplify_eq. apply set_route_wf; [done|apply Hwf..|].
  match goal with Ht : transition s = None |- _ => rewrite Ht end. simpl.
  split_and!; try done; unfold t_position_ok, TBAR_MAX; simpl; lia.
Qed.
Lemma set_t_bar_position_safe p s :
  switcher_wf s → t_position_ok p → wp (set_t_bar_position p) (safe s) s.
Proof.
  intros Hwf Hp. unfold set_t_bar_position. sw_run; try by split. split; [|done].
  match goal with Ho : ok_or _ _ = Ok _ |- _ => apply ok_or_Ok in Ho as Hb end.
  apply set_route_wf; [done|apply Hwf..|]. pose proof (wf_route _ Hwf) as Hr.
  rewrite Hb in Hr. destruct (transition s); [done|]. destruct Hr as (?&?&?&?&?).
  split_and!; done.
Qed.
Lemma t_bar_taken s t :
  switcher_wf s → t_bar s = Some t → transition s = None ∧
  switcher_wf (set_route (preview s) (program s) None None s) ∧
  switcher_wf (set_route (program s) (preview s) None None s).
Proof.
  intros Hwf Hb. pose proof (wf_route _ Hwf) as Hr. rewrite Hb in Hr.
  destruct (transition s); [done|].
  split_and!; [done|apply set_route_wf..]; try done; apply Hwf.
Qed.
Lemma put_no_t_bar s : t_bar s = None → set_t_bar None s = s.
Proof. by destruct s; simpl; intros ->. Qed.
Lemma commit_t_bar_safe s : switcher_wf s → wp commit_t_bar (safe s) s.
Proof.
  intros Hwf. unfold commit_t_bar. sw_run.
  - match goal with Ho : ok_or _ _ = Ok _ |- _ => apply ok_or_Ok in Ho as Hb end.
    simplify_eq/=. destruct (t_bar_taken _ _ Hwf Hb) as (Ht&?&_). split; [|done].
    by rewrite Ht.
  - match goal with Ho : ok_or _ _ = Err _ |- _ => apply ok_or_Err in Ho as [Hb _] end.
    simplify_eq/=. rewrite put_no_t_bar by done. by split.
Qed.
Lemma cancel_t_bar_safe s : switcher_wf s → wp cancel_t_bar (safe s) s.
Proof.
  intros Hwf. unfold cancel_t_bar. sw_run.
  - match goal with Ho : ok_or _ _ = Ok _ |- _ => apply ok_or_Ok in Ho as Hb end.
    simplify_eq/=. destruct (t_bar_taken _ _ Hwf Hb) as (Ht&_&?). split; [|done].
    unfold set_t_bar. by rewrite Ht.
  - match goal with Ho : ok_or _ _ = Err _ |- _ => apply ok_or_Err in Ho as [Hb _] end.
    simplify_eq/=. rewrite put_no_t_bar by done. by split.
Qed.
Lemma restore_t_bar_safe t s :
  switcher_wf s → t_position_ok (t_interval_start t) → t_position_ok (t_position t) →
  wp (restore_t_bar t) (safe s) s.
Proof.
  intros Hwf ??. unfold restore_t_bar. sw_run; try by split. split; [|done].
  match goal with Hx : ¬ (_ ∨ _) |- _ =>
    apply Decidable.not_or in Hx as [Hf%dec_stable Hto%dec_stable] end.
  simplify_eq. apply set_route_wf; [done|apply Hwf..|].
  match goal with Ht : transition s = None |- _ => rewrite Ht end. done.
Qed.
Lemma request_fade_to_black_safe b d s :
  switcher_wf s → in_ty U32 d → wp (request_fade_to_black b d) (safe s) s.
Proof.
  intros Hwf Hd. unfold request_fade_to_black. sw_run.
  unfold wp. pose proof (request_spec (from_active b) d _ (wf_ftb _ Hwf) Hd) as Hr.
  destruct (request _ d (fade_to_black s)) as [c [r|e|]]; simpl in *; [| |done].
  - split; [|done]. by apply set_ftb_wf; [|destruct Hr as (_&?&_)].
  - destruct Hr as [-> _]. split; [|by destruct s]. by apply set_ftb_wf; [|apply Hwf].
Qed.
End methods.

(** ** Commands and frames *)

Lemma apply_safe c s : switcher_wf s → command_ok c → wp (apply c) (safe s) s.
Proof.
  intros Hwf Hc.
  assert (Hidle : ∀ d k, in_ty U32 d → kind_ok k → wp
    (_ ← require_idle; _ ← st_require (d ≠ 0) ZeroDuration; start_transition k d) (safe s) s).
  { intros d k Hd Hk. sw_run; [|by split..].
    by apply start_transition_spec. }
  destruct c; simpl in Hc; simpl.
  - sw_run; try by split. split; [|done]. unfold set_preview.
    repeat match goal with Hx : _ = None |- _ => rewrite Hx end.
    apply set_route_wf; [done|apply Hwf|done|done].
  - apply wp_bind, wp_require_idle; [intros Ht Hb|by split]. cbn beta iota.
    apply wp_bind. eapply wp_mono; [by apply cut_safe|]. by intros [e| |] s' [? Hs].
  - destruct Hc. by apply Hidle.
  - by apply Hidle.
  - by apply start_t_bar_safe.
  - by apply set_t_bar_position_safe.
  - by apply commit_t_bar_safe.
  - by apply cancel_t_bar_safe.
  - apply with_source_safe; auto using take_wf.
  - apply with_source_safe; auto using update_wf.
  - by apply overlay_off_safe.
  - destruct Hc. by apply configure_overlay_transition_safe.
  - by apply configure_overlay_appearance_safe.
  - by apply queue_overlay_safe.
  - by apply take_next_overlay_safe.
  - by apply set_overlay_output_inclusion_safe.
  - by apply set_stream_running_safe.
  - by apply set_recording_desired_safe.
Qed.

Lemma overlay_advance_total inputs o :
  overlay_wf inputs o → ∃ o' a, overlay_advance o = Some (o', a) ∧ overlay_wf inputs o'.
Proof.
  intros Hwf. pose proof (overlay_advance_spec inputs o Hwf) as Ha.
  destruct (Overlay.automatic o) as [a|]; [|by eauto].
  destruct Ha as (o'&ch&?&_&_&_&_&Ha). case_decide; destruct Ha as [-> _]; eauto.
Qed.
Lemma advance_overlays_total inputs chs l :
  Forall (overlay_wf inputs) l →
  ∃ l' ev, advance_overlays chs l = Some (l', ev) ∧ Forall (overlay_wf inputs) l' ∧
    length l' = length l.
Proof.
  revert chs. induction l as [|o l IH]; intros [|ch chs] Hl; simpl; eauto.
  apply Forall_cons in Hl as [Ho Hl].
  destruct (overlay_advance_total _ _ Ho) as (o'&a&->&Ho'). simpl.
  destruct (IH chs Hl) as (l'&ev&->&?&?). simpl. eexists _, _. split; [done|].
  split; [by constructor|]. simpl. congruence.
Qed.

(** What one frame does to the route: a transition moves by one and the last
    frame swaps program and preview. *)
Definition route_next (s : SwitcherState) :
    (InputId * InputId * option TransitionState) * events :=
  match transition s with
  | None => ((program s, preview s, None), [])
  | Some t =>
      if decide (tr_elapsed_frames t + 1 = tr_duration_frames t) then
        ((preview s, program s, None),
         [SwitcherEvent.ProgramChanged (program s) (preview s);
          SwitcherEvent.TransitionCompleted (tr_kind t) (preview s)])
      else
        ((program s, preview s,
          Some (mk_transition (tr_kind t) (tr_from t) (tr_to t) (tr_duration_frames t)
                  (tr_elapsed_frames t + 1))), [])
  end.
Lemma advance_transition_spec {E} s :
  switcher_wf s →
  advance_transition (E := E) s =
    (set_route (route_next s).1.1.1 (route_next s).1.1.2 (route_next s).1.2 (t_bar s) s,
     Ret (route_next s).2).
Proof.
  intros Hwf. pose proof (wf_route _ Hwf) as Hr.
  unfold advance_transition, route_next, mbind, stm_bind, st_get.
  destruct (transition s) as [t|] eqn:Ht; [|by destruct s; simpl in *; subst].
  destruct (t_bar s) eqn:Hb; [done|]. destruct Hr as (?&?&?&Hd).
  unfold transition_advance, st_expect. rewrite checked_in by int_lia. simpl.
  case_decide.
  - rewrite bool_decide_true by lia. unfold st_put, complete_take, mbind, stm_bind, st_get; simpl.
    by rewrite Hb.
  - rewrite bool_decide_false by lia. unfold st_put; simpl. unfold set_transition. by rewrite Hb.
Qed.
Lemma route_next_ok s :
  switcher_wf s →
  (route_next s).1.1.1 ∈ inputs s ∧ (route_next s).1.1.2 ∈ inputs s ∧
  route_ok (route_next s).1.1.1 (route_next s).1.1.2 (route_next s).1.2
    (settle_frame <$> t_bar s).
Proof.
  intros Hwf. pose proof (wf_route _ Hwf) as Hr. unfold route_next.
  pose proof (wf_program _ Hwf). pose proof (wf_preview _ Hwf).
  destruct (transition s) as [t|], (t_bar s) as [b|]; try done.
  - case_decide; simpl in *; [done|]. destruct Hr as (?&?&?&?). split_and!; try done; lia.
  - simpl in *. destruct Hr as (?&?&?&?&?). by split_and!.
Qed.

(** One frame never fails; it moves the fade, the transition and the overlays
    and touches nothing else. *)
Lemma advance_frame_spec s :
  switcher_wf s →
  ∃ s' l, advance_frame_events s = (s', Ret l) ∧ switcher_wf s' ∧
    inputs s' = inputs s ∧ stingers s' = stingers s ∧ streams s' = streams s ∧
    streams_running s' = streams_running s ∧ recording_desired s' = recording_desired s ∧
    (program s', preview s', transition s') = (route_next s).1 ∧
    t_bar s' = settle_frame <$> t_bar s ∧
    (fade_to_black s', fst <$> advance_overlays channel_ALL (overlays s)) =
      ((advance (E := Empty_set) (fade_to_black s)).1, Some (overlays s')) ∧
    ∃ fades, l = (route_next s).2 ++ fades ∧
      ∀ ev, ev ∈ fades → match ev with
        | SwitcherEvent.FadeToBlackPositionChanged _ | SwitcherEvent.FadeToBlackCompleted _
        | SwitcherEvent.OverlayOpacityChanged _ _ | SwitcherEvent.OverlayTransitionCompleted _ _ => True
        | _ => False
        end.
Proof.
  intros Hwf. pose proof (ftb_advance_spec (E := Empty_set) _ (wf_ftb _ Hwf)) as Hf.
  assert (∃ c adv, advance (E := Empty_set) (fade_to_black s) = (c, Ret adv) ∧ ftb_wf c)
    as (c&adv&Hadv&Hc).
  { pose proof (wf_ftb _ Hwf). destruct (FadeToBlack.automatic (fade_to_black s)); [|by eauto].
    destruct Hf as (c&ch&?&_&_&_&Hf). case_decide; destruct Hf as [Hf _]; eauto. }
  unfold advance_frame_events, advance_fade_to_black, st_zoom, st_modify, st_get, st_put, st_expect.
  unfold mbind, stm_bind. rewrite Hadv. generalize channel_ALL; intros chs. simpl.
  set (s1 := set_t_bar (settle_frame <$> t_bar s) (set_ftb c s)).
  assert (Hwf1 : switcher_wf s1).
  { apply set_route_wf; [by apply set_ftb_wf|apply Hwf..|].
    pose proof (wf_route _ Hwf) as Hr. destruct s as [i pv pg [t|] [b|]]; try done.
    simpl in *. destruct Hr as (?&?&?&?&?). by split_and!. }
  change (set_t_bar _ _) with s1. rewrite advance_transition_spec by done. simpl.
  destruct (advance_overlays_total (inputs s) chs (overlays s) (wf_overlay _ Hwf))
    as (os&ev&Hos&Hwos&Hlos).
  change (overlays s1) with (overlays s). rewrite Hos. simpl.
  destruct (route_next_ok s Hwf) as (Hp&Hv&Hr).
  change (route_next s1) with (route_next s).
  eexists _, _. split; [reflexivity|]. split.
  { destruct Hwf. split; simpl; try done. congruence. }
  simpl. split_and!; try done.
  { by destruct (route_next s) as [[[??]?]?]. }
  unfold append_fade_to_black_events. rewrite <-(assoc_L (++)).
  eexists. split; [reflexivity|]. intros e He.
  apply elem_of_app in He as [He|He].
  { destruct (position_changed adv), (completed adv); simpl in He; set_solver. }
  clear -Hos He. revert os ev Hos He. generalize (overlays s). induction chs as [|ch chs IH];
  intros [|o l] os ev; simpl; try by intros [= <- <-] ?%not_elem_of_nil.
  destruct (overlay_advance o) as [[o' a]|]; [|done]. simpl.
  destruct (advance_overlays chs l) as [[l' rest]|] eqn:Hl; [|done]. simpl.
  intros [= <- <-] [He|He]%elem_of_app; [|by eapply IH].
  unfold overlay_events in He. destruct (opacity_changed a), (fade_completed a); set_solver.
Qed.

(** ** Histories *)

Inductive op :=
  | OpApply (command : SwitcherCommand.t)
  | OpFrame
  | OpFadeToBlack (active : bool) (duration_frames : Z)
  | OpOverlayTake (channel : OverlayChannelId) (source : InputId)
  | OpOverlayTakeNext (channel : OverlayChannelId)
  | OpOverlayOff (channel : OverlayChannelId)
  | OpReorderInputs (l : list InputId)
  | OpConfigureStinger (slot : StingerSlotId) (d : StingerDescriptor)
  | OpRemoveStinger (slot : StingerSlotId)
  | OpPreloadStinger (slot : StingerSlotId) (media_available : bool)
  | OpRestoreTBar (t : TBarState)
  | OpRestoreFadeToBlack (active : bool).

Definition op_ok (o : op) : Prop :=
  match o with
  | OpApply c => command_ok c
  | OpFadeToBlack _ d => in_ty U32 d
  | OpOverlayTake ch _ | OpOverlayTakeNext ch | OpOverlayOff ch => channel_ok ch
  | OpConfigureStinger n _ | OpRemoveStinger n | OpPreloadStinger n _ => slot_ok n
  | OpRestoreTBar t => t_position_ok (t_interval_start t) ∧ t_position_ok (t_position t)
  | OpFrame | OpReorderInputs _ | OpRestoreFadeToBlack _ => True
  end.

(** How a call ended, without its value. *)
Definition status {E A} (p : SwitcherState * outcome E A) : SwitcherState * outcome unit unit :=
  match p with
  | (s, Ret _) => (s, Ret tt)
  | (s, Throw _) => (s, Throw tt)
  | (s, Panic) => (s, Panic)
  end.
Definition op_step (o : op) (s : SwitcherState) : SwitcherState * outcome unit unit :=
  match o with
  | OpApply c => status (apply c s)
  | OpFrame => status (advance_frame_events s)
  | OpFadeToBlack a d => status (request_fade_to_black a d s)
  | OpOverlayTake ch src => status (request_overlay_take ch src s)
  | OpOverlayTakeNext ch => status (request_overlay_take_next ch s)
  | OpOverlayOff ch => status (request_overlay_off ch s)
  | OpReorderInputs l => status (reorder_inputs l s)
  | OpConfigureStinger n d => status (configure_stinger n d s)
  | OpRemoveStinger n => status (remove_stinger n s)
  | OpPreloadStinger n b => status (preload_stinger n b s)
  | OpRestoreTBar t => status (restore_t_bar t s)
  | OpRestoreFadeToBlack a => (restore_settled_fade_to_black a s, Ret tt)
  end.

(** The states of a show: it is created, given its stream inventory before any
    stream runs, and then operated. *)
Inductive reachable : SwitcherState → Prop :=
  | reach_new inputs program preview s :
      switcher_new inputs program preview = Ret s → reachable s
  | reach_streams s l s' :
      reachable s → streams_running s = ∅ → with_streams l s = Ok s' → reachable s'
  | reach_op s o : reachable s → op_ok o → reachable (op_step o s).1.

Lemma overlay_wf_inputs l l' o :
  (∀ x, x ∈ l → x ∈ l') → overlay_wf l o → overlay_wf l' o.
Proof.
  intros Hl []. split; try done.
  - destruct (source o); auto.
  - eapply Forall_impl; [done|]. auto.
Qed.
Lemma reorder_inputs_safe l s : switcher_wf s → wp (reorder_inputs l) (safe s) s.
Proof.
  intros Hwf. unfold reorder_inputs. wp_run; try by split.
  simplify_eq. match goal with Hv : validate_input_order _ _ = Ok ?u |- _ => destruct u;
    apply validate_input_order_Ok in Hv as (_&_&Hp) end.
  assert (Hl : ∀ x, x ∈ inputs s → x ∈ l) by (intros x; by rewrite Hp).
  split; [|done]. destruct Hwf. split; simpl; auto.
  - eapply Forall_impl; [done|]. intros o. by apply overlay_wf_inputs.
  - eapply Forall_impl; [done|]. intros o. unfold slot_wf. destruct (descriptor o); auto.
Qed.

Lemma switcher_new_wf i p v s : switcher_new i p v = Ret s → switcher_wf s.
Proof.
  unfold switcher_new, require_input, mbind, stm_bind, st_get, st_require. simpl.
  case_decide; simpl; [|done]. case_decide; simpl; [|done]. intros [= <-].
  split; simpl; try done.
  - repeat (constructor; [apply overlay_empty_wf|]). constructor.
  - repeat (constructor; [done|]). constructor.
  - split; simpl; [unfold MAX_STREAM_COUNT; lia|constructor..].
Qed.

Lemma status_safe {E A} (m : stm SwitcherState E A) s :
  wp m (safe s) s →
  switcher_wf (status (m s)).1 ∧ (status (m s)).2 ≠ Panic ∧
  (∀ e, (status (m s)).2 = Throw e → (status (m s)).1 = s).
Proof.
  unfold wp, safe. destruct (m s) as [s' [a|e|]]; simpl; [|intros [??]; by subst|by intros []].
  by intros [? _].
Qed.
Lemma op_safe o s :
  switcher_wf s → op_ok o →
  switcher_wf (op_step o s).1 ∧ (op_step o s).2 ≠ Panic ∧
  (∀ e, (op_step o s).2 = Throw e → (op_step o s).1 = s).
Proof.
  intros Hwf Ho. destruct o; simpl in *; try apply status_safe.
  - by apply apply_safe.
  - destruct (advance_frame_spec s Hwf) as (s'&l&Hs&?&_). unfold wp, safe. by rewrite Hs.
  - by apply request_fade_to_black_safe.
  - apply with_source_safe; auto using request_take_wf.
  - by apply request_overlay_take_next_safe.
  - by apply request_overlay_off_safe.
  - by apply reorder_inputs_safe.
  - by apply configure_stinger_safe.
  - by apply remove_stinger_safe.
  - by apply preload_stinger_safe.
  - destruct Ho. by apply restore_t_bar_safe.
  - split_and!; try done. apply set_ftb_wf; [done|]. apply settled_wf.
Qed.
Lemma switcher_reachable_wf s : reachable s → switcher_wf s.
Proof.
  induction 1 as [? ? ? ? Hn|s l s' _ IH Hr Hs|s o _ IH Ho].
  - by eapply switcher_new_wf.
  - unfold with_streams in Hs. apply result_bind_Ok in Hs as (d&Hd&[= <-]).
    apply collect_desired_streams_Ok in Hd as [_ ?].
    destruct IH. split; simpl; try done. rewrite Hr. set_solver.
  - by apply op_safe.
Qed.

(** ** Frames in a row *)

(** [n] frames and the events of each; [None] is a panic. *)
Fixpoint run_frames (n : nat) (s : SwitcherState) : option (SwitcherState * events) :=
  match n with
  | O => Some (s, [])
  | S n =>
      match advance_frame_events s with
      | (s, Ret l) => '(s, more) ← run_frames n s; Some (s, l ++ more)
      | _ => None
      end
  end.

(** The events that report a change of the route. *)
Definition route_event (ev : SwitcherEvent.t) : bool :=
  match ev with
  | SwitcherEvent.PreviewSelected _ | SwitcherEvent.ProgramChanged _ _
  | SwitcherEvent.TransitionCompleted _ _ => true
  | _ => false
  end.

(** Two switchers that differ in nothing but the route. *)
Record same_layers (s1 s2 : SwitcherState) : Prop := {
  sl_inputs : inputs s1 = inputs s2;
  sl_ftb : fade_to_black s1 = fade_to_black s2;
  sl_overlays : overlays s1 = overlays s2;
  sl_stingers : stingers s1 = stingers s2;
  sl_streams : streams s1 = streams s2;
  sl_running : streams_running s1 = streams_running s2;
  sl_recording : recording_desired s1 = recording_desired s2
}.
Lemma same_layers_eq s1 s2 :
  same_layers s1 s2 → program s1 = program s2 → preview s1 = preview s2 →
  transition s1 = transition s2 → t_bar s1 = t_bar s2 → s1 = s2.
Proof. destruct s1, s2. intros []. simpl in *. congruence. Qed.

Lemma frame_layers s1 s2 :
  switcher_wf s1 → switcher_wf s2 → same_layers s1 s2 →
  ∃ s1' s2' l1 l2, advance_frame_events s1 = (s1', Ret l1) ∧
    advance_frame_events s2 = (s2', Ret l2) ∧ switcher_wf s1' ∧ switcher_wf s2' ∧
    same_layers s1' s2' ∧
    (program s1', preview s1', transition s1') = (route_next s1).1 ∧
    (program s2', preview s2', transition s2') = (route_next s2).1 ∧
    filter route_event l1 = (route_next s1).2 ∧ t_bar s1' = settle_frame <$> t_bar s1 ∧
    t_bar s2' = settle_frame <$> t_bar s2.
Proof.
  intros Hwf1 Hwf2 [].
  destruct (advance_frame_spec s1 Hwf1) as (s1'&l1&H1&W1&I1&S1&T1&R1&D1&P1&B1&F1&f1&E1&Q1).
  destruct (advance_frame_spec s2 Hwf2) as (s2'&l2&H2&W2&I2&S2&T2&R2&D2&P2&B2&F2&f2&E2&Q2).
  exists s1', s2', l1, l2. split_and!; try done.
  - apply pair_equal_spec in F1 as [F1 O1], F2 as [F2 O2].
    split; congruence.
  - rewrite E1, filter_app.
    rewrite (filter_none _ f1), app_nil_r by (intros ev Hev; specialize (Q1 ev Hev); destruct ev; simpl in *; tauto).
    apply filter_all. unfold route_next. intros ev. destruct (transition s1); [|set_solver].
    case_decide; [|set_solver]. simpl. intros [->|[->|[]%not_elem_of_nil]%elem_of_cons]%elem_of_cons; done.
Qed.

(** A running transition, next to the switcher that has already cut. *)
Lemma run_transition n s1 sc t :
  switcher_wf s1 → switcher_wf sc → same_layers s1 sc →
  transition s1 = Some t → tr_elapsed_frames t + Z.of_nat (S n) = tr_duration_frames t →
  t_bar s1 = None → t_bar sc = None →
  program sc = preview s1 → preview sc = program s1 → transition sc = None →
  (∃ sd evs evc, run_frames (S n) s1 = Some (sd, evs) ∧ run_frames (S n) sc = Some (sd, evc) ∧
    program sd = preview s1 ∧ preview sd = program s1 ∧ transition sd = None ∧
    filter route_event evs = [SwitcherEvent.ProgramChanged (program s1) (preview s1);
      SwitcherEvent.TransitionCompleted (tr_kind t) (preview s1)] ∧ switcher_wf sd) ∧
  ∀ j, (j ≤ n)%nat → ∃ sj evj, run_frames j s1 = Some (sj, evj) ∧
    filter route_event evj = [] ∧ program sj = program s1 ∧ preview sj = preview s1 ∧
    transition sj = Some (mk_transition (tr_kind t) (tr_from t) (tr_to t)
      (tr_duration_frames t) (tr_elapsed_frames t + Z.of_nat j)) ∧ switcher_wf sj.
Proof.
  revert s1 sc t. induction n as [|n IH]; intros s1 sc t Hwf1 Hwfc Hl Ht Hn Hb1 Hbc Hpc Hvc Htc.
  all: destruct (frame_layers s1 sc Hwf1 Hwfc Hl)
    as (s1'&sc'&l1&l2&H1&H2&W1&W2&L&P1&P2&Hev&B1&B2);
    rewrite Hb1 in B1; rewrite Hbc in B2; simpl in B1, B2;
    unfold route_next in P1, P2, Hev; rewrite Ht in P1, Hev; rewrite Htc in P2;
    assert (Hz : ∃ sj evj, run_frames 0 s1 = Some (sj, evj) ∧
      filter route_event evj = [] ∧ program sj = program s1 ∧ preview sj = preview s1 ∧
      transition sj = Some (mk_transition (tr_kind t) (tr_from t) (tr_to t)
        (tr_duration_frames t) (tr_elapsed_frames t + Z.of_nat 0)) ∧ switcher_wf sj)
      by (exists s1, []; rewrite Ht, Z.add_0_r; split_and!; try done; by destruct t).
  - rewrite decide_True in P1, Hev by lia. simplify_eq/=. split.
    + assert (Heq : s1' = sc') by (apply same_layers_eq; congruence).
      exists s1', (l1 ++ []), (l2 ++ []). simpl. rewrite H1, H2. simpl. split_and!; try done; try congruence.
      by rewrite app_nil_r.
    + intros j Hj. assert (j = 0%nat) as -> by lia.
      done.
  - rewrite decide_False in P1, Hev by lia. simplify_eq/=.
    destruct (IH s1' sc' _ W1 W2 L ltac:(eassumption)) as [(sd&evs&evc&R1&R2&Hp&Hv&Htd&He&?) Hj];
      simpl; try congruence; [lia|].
    split.
    + eexists _, _, _. cbn [run_frames]. rewrite H1, H2. simpl in R1, R2 |- *. rewrite R1, R2. simpl.
      split_and!; try done; try congruence. rewrite filter_app, Hev. simpl in *. congruence.
    + intros [|j] Hlt.
      { done. }
      destruct (Hj j) as (sj&evj&Rj&Ej&?&?&Tj&?); [lia|].
      eexists _, _. cbn [run_frames]. rewrite H1, Rj. split; [reflexivity|]. simpl in Tj.
      split_and!; try congruence.
      * by rewrite filter_app, Hev, Ej.
      * rewrite Tj. do 2 f_equal. lia.
Qed.

Lemma cut_idle s :
  transition s = None → t_bar s = None →
  apply SwitcherCommand.Cut s =
    (set_route (preview s) (program s) (transition s) (t_bar s) s,
     Ret [SwitcherEvent.ProgramChanged (program s) (preview s)]).
Proof.
  intros. cbv [apply require_idle mbind stm_bind st_get st_require mret stm_ret complete_take st_put].
  by rewrite decide_True.
Qed.

(** What a frame with a running transition shows. *)
Lemma program_frame_transition s t :
  switcher_wf s → transition s = Some t →
  program_frame s = mk_program_frame (program s) (Some (preview s)) (Some (tr_kind t))
    (tr_elapsed_frames t) (tr_duration_frames t) (tr_elapsed_frames t) (tr_elapsed_frames t + 1).
Proof.
  intros Hwf Ht. pose proof (wf_route _ Hwf) as Hr. unfold program_frame. rewrite Ht in *.
  destruct (t_bar s); [done|]. destruct Hr as (->&->&?&Hd). f_equal.
  unfold mix_end_numerator. rewrite saturating_id by int_lia. case_decide; lia.
Qed.

(** ** Theorems *)

(** C18: Operating a show is safe: in every reachable state, whatever is called
    next, nothing panics, a refused call leaves the switcher exactly as it was,
    and the invariant holds: program and preview are inputs of the show, at most
    one transition runs and it is between them and before its end,
    Fade-to-Black and the overlays are on their ramps, queues are bounded and
    only inventoried streams run. *)
Theorem switcher_safe s o :
  reachable s → op_ok o →
  switcher_wf s ∧ switcher_wf (op_step o s).1 ∧ (op_step o s).2 ≠ Panic ∧
  (∀ e, (op_step o s).2 = Throw e → (op_step o s).1 = s).
Proof. intros Hr Ho. pose proof (switcher_reachable_wf s Hr). split; [done|]. by apply op_safe. Qed.

(** C19: An automatic transition of [d] frames is a cut delayed by [d] frames.  Until
    then the program stays and frame [j] mixes [j/d] to [(j+1)/d] of the preview;
    the last frame swaps program and preview once and reports it once, and from
    there the switcher is in the very state it would be in had it cut at once,
    overlays and fades included. *)
Theorem transition_is_delayed_cut s k d s1 :
  switcher_wf s → kind_ok k → in_ty U32 d →
  apply (SwitcherCommand.Transition k d) s =
    (s1, Ret [SwitcherEvent.TransitionStarted k (program s) (preview s) d]) →
  (∃ sc sd evs evc,
    apply SwitcherCommand.Cut s =
      (sc, Ret [SwitcherEvent.ProgramChanged (program s) (preview s)]) ∧
    run_frames (Z.to_nat d) s1 = Some (sd, evs) ∧ run_frames (Z.to_nat d) sc = Some (sd, evc) ∧
    program sd = preview s ∧ preview sd = program s ∧
    filter route_event evs = [SwitcherEvent.ProgramChanged (program s) (preview s);
      SwitcherEvent.TransitionCompleted k (preview s)]) ∧
  ∀ j, 0 ≤ j < d → ∃ sj evj, run_frames (Z.to_nat j) s1 = Some (sj, evj) ∧
    filter route_event evj = [] ∧ program sj = program s ∧
    program_frame sj = mk_program_frame (program s) (Some (preview s)) (Some k) j d j (j + 1).
Proof.
  intros Hwf Hk Hd Ha.
  assert (Hs1 : transition s = None ∧ t_bar s = None ∧ d ≠ 0 ∧
    s1 = set_transition (Some (transition_new k (program s) (preview s) d)) s).
  { assert (wp (apply (SwitcherCommand.Transition k d)) (λ r s', match r with
      | Ret [SwitcherEvent.TransitionStarted k' p v d'] => k' = k →
          transition s = None ∧ t_bar s = None ∧ d ≠ 0 ∧
          s' = set_transition (Some (transition_new k p v d)) s ∧ p = program s ∧ v = preview s
      | _ => True end) s) as Hw.
    { simpl. unfold start_transition. cbn [start_transition_fuel].
      unfold begin_transition, stinger_playback_decision, apply_stinger_fallback, complete_take,
        stinger, begin_transition, require_idle.
      destruct k; wp_run; simplify_eq; try done;
        match goal with Hi : is_idle _ |- _ => destruct Hi | _ => idtac end; done. }
    unfold wp in Hw. rewrite Ha in Hw. simpl in Hw. destruct (Hw eq_refl) as (?&?&?&?&_). done. }
  destruct Hs1 as (Ht&Hb&Hnz&->).
  set (s1 := set_transition _ s). assert (Hwf1 : switcher_wf s1).
  { apply set_route_wf; [done|apply Hwf..|]. rewrite Hb. simpl. unfold in_ty in *. simpl in *.
    split_and!; try done; lia. }
  set (sc := set_route (preview s) (program s) (transition s) (t_bar s) s).
  assert (Hwfc : switcher_wf sc).
  { apply set_route_wf; [done|apply Hwf..|]. by rewrite Ht, Hb. }
  destruct (Z.to_nat d) as [|n] eqn:Hn; [unfold in_ty in Hd; simpl in Hd; lia|].
  destruct (run_transition n s1 sc (transition_new k (program s) (preview s) d))
    as [(sd&evs&evc&?&?&?&?&_&?&_) Hj]; simpl; try done; [lia|]. split.
  - exists sc, sd, evs, evc. split_and!; try done.
    by apply cut_idle.
  - intros j Hjd. destruct (Hj (Z.to_nat j)) as (sj&evj&?&?&Hp&Hv&Htj&Hwj); [lia|].
    exists sj, evj. split_and!; try done.
    rewrite (program_frame_transition _ _ Hwj Htj). simpl. rewrite Hp, Hv. simpl.
    replace (Z.of_nat (Z.to_nat j)) with j by lia. done.
Qed.

(** *** Manual transitions *)

(** What the operator does while a T-bar is active: move it, or let a frame
    pass. *)
Inductive t_bar_move :=
  | Move (position : TBarPosition)
  | Hold.
Definition move_ok (m : t_bar_move) : Prop :=
  match m with
  | Move p => t_position_ok p
  | Hold => True
  end.
Fixpoint manual_run (moves : list t_bar_move) (s : SwitcherState) : option SwitcherState :=
  match moves with
  | [] => Some s
  | Move p :: moves =>
      match apply (SwitcherCommand.SetTBarPosition p) s with
      | (s, Ret _) => manual_run moves s
      | _ => None
      end
  | Hold :: moves =>
      match advance_frame_events s with
      | (s, Ret _) => manual_run moves s
      | _ => None
      end
  end.
Fixpoint holds (moves : list t_bar_move) : nat :=
  match moves with
  | [] => 0%nat
  | Move _ :: moves => holds moves
  | Hold :: moves => S (holds moves)
  end.
(** The position at the start of the interval and now. *)
Fixpoint interval (start now : TBarPosition) (moves : list t_bar_move) :
    TBarPosition * TBarPosition :=
  match moves with
  | [] => (start, now)
  | Move p :: moves => interval start p moves
  | Hold :: moves => interval now now moves
  end.

Lemma manual_run_spec moves s r t :
  Forall move_ok moves →
  switcher_wf s → switcher_wf r → same_layers s r →
  program s = program r → preview s = preview r →
  transition s = None → transition r = None → t_bar s = Some t → t_bar r = None →
  ∃ s' r' evs, manual_run moves s = Some s' ∧ run_frames (holds moves) r = Some (r', evs) ∧
    switcher_wf s' ∧ switcher_wf r' ∧ same_layers s' r' ∧
    program s' = program r ∧ preview s' = preview r ∧
    program r' = program r ∧ preview r' = preview r ∧
    transition s' = None ∧ transition r' = None ∧ t_bar r' = None ∧
    t_bar s' = Some (mk_t_bar (t_kind t) (t_from t) (t_to t)
      (interval (t_interval_start t) (t_position t) moves).1
      (interval (t_interval_start t) (t_position t) moves).2).
Proof.
  revert s r t. induction moves as [|[p|] moves IH];
    intros s r t Hm Hwf Hwr Hl Hp Hv Hts Htr Hbs Hbr.
  - exists s, r, []. split_and!; try done. by destruct t.
  - apply Forall_cons in Hm as [Hpos Hm].
    assert (Happ : apply (SwitcherCommand.SetTBarPosition p) s =
      (set_t_bar (Some (set_position p t)) s, Ret [SwitcherEvent.TBarPositionChanged p])).
    { cbv [apply set_t_bar_position mbind stm_bind st_get st_lift]. by rewrite Hbs. }
    pose proof (apply_safe (SwitcherCommand.SetTBarPosition p) s Hwf Hpos) as [Hwf' _].
    rewrite Happ in Hwf'. cbn [fst] in Hwf'.
    destruct (IH (set_t_bar (Some (set_position p t)) s) r (set_position p t))
      as (s'&r'&evs&?&?); try done.
    { by destruct Hl. }
    exists s', r', evs. cbn [manual_run]. rewrite Happ. split; [done|].
    done.
  - apply Forall_cons in Hm as [_ Hm].
    destruct (frame_layers s r Hwf Hwr Hl) as (s1&r1&l1&l2&H1&H2&W1&W2&L&P1&P2&_&B1&B2).
    unfold route_next in P1, P2. rewrite Hts in P1. rewrite Htr in P2. simplify_eq/=.
    rewrite Hbs in B1. rewrite Hbr in B2.
    destruct (IH s1 r1 (settle_frame t)) as (s'&r'&evs&?&Hrun&?&?&?&Hp1&Hv1&Hp2&Hv2&?&?&?&?);
      try done; try congruence.
    exists s', r', (l2 ++ evs). cbn [manual_run]. rewrite H1. split; [done|].
    cbn [holds run_frames].
    rewrite H2, Hrun. split; [done|].
    split_and!; first [done|congruence].
Qed.

(** A manual transition is reversible until it is committed.  However the
    T-bar is moved and however many frames pass, every frame shows program and
    preview mixed over the interval the bar covered; cancelling then leaves the
    switcher in the very state it would be in had the T-bar never been touched,
    and committing in the state a cut at that moment gives. *)
Theorem t_bar_reversible s k s1 l moves :
  switcher_wf s → apply (SwitcherCommand.StartTBar k) s = (s1, Ret l) → Forall move_ok moves →
  ∃ s2 r evs, manual_run moves s1 = Some s2 ∧ run_frames (holds moves) s = Some (r, evs) ∧
    program_frame s2 = mk_program_frame (program s) (Some (preview s)) (Some k)
      (interval 0 0 moves).2 TBAR_MAX (interval 0 0 moves).1 (interval 0 0 moves).2 ∧
    apply SwitcherCommand.CancelTBar s2 = (r, Ret [SwitcherEvent.TBarCancelled]) ∧
    ∃ sc, apply SwitcherCommand.Cut r =
        (sc, Ret [SwitcherEvent.ProgramChanged (program s) (preview s)]) ∧
      apply SwitcherCommand.CommitTBar s2 =
        (sc, Ret [SwitcherEvent.ProgramChanged (program s) (preview s);
                  SwitcherEvent.TransitionCompleted k (preview s)]).
Proof.
  intros Hwf Ha Hm.
  assert (Hs1 : transition s = None ∧ t_bar s = None ∧
    s1 = set_t_bar (Some (t_bar_new k (program s) (preview s))) s).
  { assert (wp (start_t_bar k) (λ r s', match r with
      | Ret _ => transition s = None ∧ t_bar s = None ∧
          s' = set_t_bar (Some (t_bar_new k (program s) (preview s))) s
      | _ => True end) s) as Hw by (unfold start_t_bar; sw_run; by simplify_eq).
    unfold wp in Hw. simpl in Ha. by rewrite Ha in Hw. }
  destruct Hs1 as (Ht&Hb&->).
  assert (Hwf1 : switcher_wf (set_t_bar (Some (t_bar_new k (program s) (preview s))) s)).
  { pose proof (start_t_bar_safe k s Hwf) as [Hw _]. simpl in Ha. by rewrite Ha in Hw. }
  destruct (manual_run_spec moves (set_t_bar (Some (t_bar_new k (program s) (preview s))) s) s
    (t_bar_new k (program s) (preview s)) Hm Hwf1 Hwf)
    as (s2&r&evs&?&?&W2&Wr&L&P2&V2&Pr&Vr&T2&Tr&Br&B2); try done.
  exists s2, r, evs. simpl in B2. split_and!; try done.
  - unfold program_frame. by rewrite T2, B2.
  - cbv [apply cancel_t_bar take_t_bar mbind stm_bind st_get st_put st_lift mret stm_ret].
    rewrite B2. simpl. f_equal. apply same_layers_eq; simpl; try congruence. by destruct L.
  - eexists. split; [rewrite cut_idle by done; rewrite Pr, Vr; reflexivity|].
    cbv [apply commit_t_bar complete_take take_t_bar mbind stm_bind st_get st_put st_lift mret stm_ret].
    rewrite B2. simpl. f_equal; [|by rewrite P2, V2].
    apply same_layers_eq; simpl; try congruence. by destruct L.
Qed.

(** *** Events tell the route *)

(** The program and preview a reader of the events keeps. *)
Definition replay_event (route : InputId * InputId) (ev : SwitcherEvent.t) : InputId * InputId :=
  match ev with
  | SwitcherEvent.PreviewSelected input => (route.1, input)
  | SwitcherEvent.ProgramChanged previous program => (program, previous)
  | _ => route
  end.
Definition replays (s : SwitcherState) {E} (r : outcome E events) (s' : SwitcherState) : Prop :=
  match r with
  | Ret l => foldl replay_event (program s, preview s) l = (program s', preview s')
  | _ => True
  end.

Lemma put_overlay_replays {E} ch o ev s1 s :
  (program s1, preview s1) = (program s, preview s) → route_event ev = false →
  wp (E := E) (_ ← put_overlay ch o; mret [ev]) (replays s) s1.
Proof.
  intros Hs He. unfold put_overlay. wp_run; try done. simplify_eq/=.
  destruct ev; simpl in *; congruence.
Qed.
Lemma apply_replays c s : wp (apply c) (replays s) s.
Proof.
  assert (Hstart : ∀ k d, wp (start_transition k d) (replays s) s).
  { intros k d. unfold start_transition. cbn [start_transition_fuel].
    unfold begin_transition, stinger_playback_decision, apply_stinger_fallback, complete_take,
      stinger, begin_transition.
    destruct k; wp_run; by simplify_eq. }
  destruct c; simpl.
  3, 4: apply wp_bind; sw_step; cbn beta iota; [|done]; apply wp_bind, wp_require;
    intros; [apply Hstart|done].
  all: unfold start_t_bar, set_t_bar_position, commit_t_bar, cancel_t_bar, take_overlay,
    update_overlay, with_source, overlay_off, configure_overlay_transition,
    configure_overlay_appearance, queue_overlay, take_next_overlay, advance_queue,
    set_overlay_output_inclusion, set_stream_running, set_recording_desired, overlay, put_overlay;
    sw_run; by simplify_eq.
Qed.

(** The events tell the truth about the route: a reader who starts from a
    switcher's program and preview and follows [PreviewSelected] and
    [ProgramChanged] knows program and preview after every command and every
    frame. *)
Theorem events_replay_route s c :
  switcher_wf s →
  (∀ s' l, apply c s = (s', Ret l) →
    foldl replay_event (program s, preview s) l = (program s', preview s')) ∧
  (∀ n s' l, run_frames n s = Some (s', l) →
    foldl replay_event (program s, preview s) l = (program s', preview s')).
Proof.
  intros Hwf. split.
  { intros s' l Ha. pose proof (apply_replays c s) as Hw. unfold wp in Hw. by rewrite Ha in Hw. }
  intros n. revert s Hwf. induction n as [|n IH]; intros s Hwf s' l; simpl.
  { by intros [= <- <-]. }
  destruct (advance_frame_spec s Hwf) as (s1&l1&->&Hwf1&_&_&_&_&_&Hr&_&_&fades&->&Hf).
  destruct (run_frames n s1) as [[s2 more]|] eqn:Hrun; [|done]. simpl. intros [= <- <-].
  rewrite !foldl_app. rewrite <-(IH s1 Hwf1 _ _ Hrun). f_equal.
  assert (Hfold : ∀ route, foldl replay_event route fades = route).
  { clear -Hf. induction fades as [|ev fades IHf]; intros route; simpl; [done|].
    rewrite IHf by (intros; apply Hf; by right).
    pose proof (Hf ev (list_elem_of_here _ _)). by destruct ev. }
  rewrite Hfold. unfold route_next in *. clear -Hr.
  destruct (transition s); [case_decide|]; simpl in *; congruence.
Qed.

(** *** Witnesses *)

Definition switcher_start : SwitcherState :=
  match switcher_new [1; 2; 3] 1 2 with
  | Ret s => s
  | _ => mk_switcher [] 0 0 None None controller_default [] [] [] ∅ false
  end.
Definition switcher_demo : SwitcherState :=
  (op_step (OpApply (SwitcherCommand.TakeOverlay 3 2))
    (op_step (OpApply (SwitcherCommand.ConfigureOverlayTransition 3 OverlayFade 5))
      switcher_start).1).1.
Lemma small_u32 d : 0 ≤ d ≤ 100 → in_ty U32 d.
Proof. intros. int_lia. Qed.
Lemma channel_3_ok : channel_ok 3.
Proof. split; lia. Qed.
Lemma switcher_start_reachable : reachable switcher_start.
Proof. by apply (reach_new [1; 2; 3] 1 2). Qed.
Lemma switcher_demo_reachable : reachable switcher_demo.
Proof.
  unfold switcher_demo. apply reach_op; [apply reach_op; [apply switcher_start_reachable|]|].
  - split; [apply channel_3_ok|apply small_u32; lia].
  - apply channel_3_ok.
Qed.

Lemma switcher_safe_witness :
  (op_step (OpApply (SwitcherCommand.TakeOverlay 3 9)) switcher_demo).2 = Throw tt ∧
  (op_step (OpApply (SwitcherCommand.TakeOverlay 3 9)) switcher_demo).1 = switcher_demo.
Proof.
  split; [vm_compute; reflexivity|].
  refine (proj2 (proj2 (proj2 (switcher_safe switcher_demo
    (OpApply (SwitcherCommand.TakeOverlay 3 9)) switcher_demo_reachable channel_3_ok))) tt _).
  vm_compute. reflexivity.
Defined.

Lemma transition_is_delayed_cut_witness :
  ∃ s1, apply (SwitcherCommand.Transition Wipe 3) switcher_demo =
    (s1, Ret [SwitcherEvent.TransitionStarted Wipe 1 2 3]) ∧
  ∃ sj evj, run_frames 2 s1 = Some (sj, evj) ∧ program sj = 1 ∧
    program_frame sj = mk_program_frame 1 (Some 2) (Some Wipe) 2 3 2 3.
Proof.
  eexists. split; [vm_compute; reflexivity|].
  destruct (proj2 (transition_is_delayed_cut switcher_demo Wipe 3 _
    (switcher_reachable_wf _ switcher_demo_reachable) I (small_u32 3 ltac:(lia))
    ltac:(vm_compute; reflexivity)) 2 ltac:(lia)) as (sj&evj&Hrun&_&Hp&Hf).
  exists sj, evj. exact (conj Hrun (conj Hp Hf)).
Defined.

Lemma t_bar_reversible_witness :
  ∃ s1 l, apply (SwitcherCommand.StartTBar Slide) switcher_demo = (s1, Ret l) ∧
  ∃ s2 r evs, manual_run [Move 4000; Hold; Move 1000] s1 = Some s2 ∧
    run_frames 1 switcher_demo = Some (r, evs) ∧
    program_frame s2 = mk_program_frame 1 (Some 2) (Some Slide) 1000 10000 4000 1000 ∧
    apply SwitcherCommand.CancelTBar s2 = (r, Ret [SwitcherEvent.TBarCancelled]).
Proof.
  eexists _, _. split; [vm_compute; reflexivity|].
  destruct (t_bar_reversible switcher_demo Slide _ _ [Move 4000; Hold; Move 1000]
    (switcher_reachable_wf _ switcher_demo_reachable) ltac:(vm_compute; reflexivity)
    ltac:(repeat constructor; vm_compute; congruence)) as (s2&r&evs&Hm&Hr&Hf&Hc&_).
  exists s2, r, evs. exact (conj Hm (conj Hr (conj Hf Hc))).
Defined.

Lemma events_replay_route_witness :
  ∃ s1 l s2 more, apply (SwitcherCommand.Transition Wipe 2) switcher_demo = (s1, Ret l) ∧
  run_frames 2 switcher_demo = Some (s2, more) ∧
  foldl replay_event (1, 2) more = (program s2, preview s2).
Proof.
  eexists _, _, _, _. split; [vm_compute; reflexivity|]. split; [vm_compute; reflexivity|].
  refine (proj2 (events_replay_route switcher_demo (SwitcherCommand.Transition Wipe 2)
    (switcher_reachable_wf _ switcher_demo_reachable)) 2%nat _ _ _).
  vm_compute. reflexivity.
Defined.
