(* ===== verification/Capabilities.v ===== *)
(** Capabilities, [crates/foundation/fm-capabilities]: what providers advertise
    ([descriptor.rs], [value.rs]), the registry that holds it ([registry.rs]) and
    the match of a project's requirements against it ([matching.rs]).

    Identifiers are the validated strings they wrap; a [BTreeMap] is an ordered
    association list, a [BTreeSet] an increasing list. *)
From S2P Require Import Prelude BTree.

(** ** Descriptors *)

Abbreviation StableId := string (only parsing).
Abbreviation CapabilityKey := string (only parsing).
Abbreviation MemoryDomain := string (only parsing).
Abbreviation ProviderVersion := string (only parsing).

(** [ProviderVersion::new]. *)
Definition provider_version_new (value : string) : option ProviderVersion :=
  if str_blank value then None else Some value.

Record Provider := mk_provider { provider_id : StableId; provider_version : ProviderVersion }.

Inductive Health :=
  | Healthy
  | Degraded (reason : string)
  | Unhealthy (reason : string).
Definition is_usable (self : Health) : bool :=
  match self with
  | Unhealthy _ => false
  | _ => true
  end.
Definition is_healthy (self : Health) : bool :=
  match self with
  | Healthy => true
  | _ => false
  end.
Inductive HealthRequirement := RequireUsable | RequireHealthy.
Definition health_matches (self : HealthRequirement) (health : Health) : bool :=
  match self with
  | RequireUsable => is_usable health
  | RequireHealthy => is_healthy health
  end.

Inductive FormatValue :=
  | FormatBoolean (b : bool)
  | FormatSigned (i : Z)
  | FormatUnsigned (u : Z)
  | FormatText (s : string).
#[global] Instance FormatValue_eq_dec : EqDecision FormatValue.
Proof. solve_decision. Defined.
Record FormatDescriptor := mk_format { format_kind : StableId; fields : btmap StableId FormatValue }.
Definition format_new (kind : StableId) : FormatDescriptor := mk_format kind [].
Definition with_field (name : StableId) (value : FormatValue) (self : FormatDescriptor) :
    FormatDescriptor :=
  mk_format (format_kind self) (bt_insert name value (fields self)).
Definition format_supports (self required : FormatDescriptor) : bool :=
  bool_decide (format_kind self = format_kind required) &&
  forallb (λ p, bool_decide (bt_get p.1 (fields self) = Some p.2)) (fields required).

Record LatencyMode := mk_latency {
  latency_id : StableId;
  nominal_microseconds : option Z;
  maximum_microseconds : option Z
}.

Inductive ExclusivityMode := Shared | Exclusive | Configurable.
#[global] Instance ExclusivityMode_eq_dec : EqDecision ExclusivityMode.
Proof. solve_decision. Defined.
Definition mode_supports (self required : ExclusivityMode) : bool :=
  bool_decide (self = required) ||
  match self with
  | Configurable => true
  | _ => false
  end.
Record Exclusivity := mk_exclusivity { mode : ExclusivityMode; scope : option StableId }.

(** ** Limits *)

Inductive LimitValue :=
  | LimitBoolean (b : bool)
  | LimitSigned (i : Z)
  | LimitUnsigned (u : Z)
  | LimitQuantity (value : Z) (unit_ : StableId).
Inductive ValueKind := KBoolean | KSigned | KUnsigned | KQuantity.
Definition kind (self : LimitValue) : ValueKind :=
  match self with
  | LimitBoolean _ => KBoolean
  | LimitSigned _ => KSigned
  | LimitUnsigned _ => KUnsigned
  | LimitQuantity _ _ => KQuantity
  end.
Definition typed_cmp (self other : LimitValue) : option comparison :=
  match self, other with
  | LimitBoolean x, LimitBoolean y => Some (Z.b2z x ?= Z.b2z y)
  | LimitSigned x, LimitSigned y => Some (x ?= y)
  | LimitUnsigned x, LimitUnsigned y => Some (x ?= y)
  | LimitQuantity x x_unit, LimitQuantity y y_unit =>
      if decide (x_unit = y_unit) then Some (x ?= y) else None
  | _, _ => None
  end.

Inductive LimitComparison := AtLeast | AtMost | Equal.
Record LimitConstraint := mk_constraint { comparison_ : LimitComparison; value : LimitValue }.
Definition constraint_matches (self : LimitConstraint) (actual : LimitValue) : option bool :=
  ordering ← typed_cmp actual (value self);
  Some match comparison_ self, ordering with
       | AtLeast, (Gt | Eq) => true
       | AtMost, (Lt | Eq) => true
       | Equal, Eq => true
       | _, _ => false
       end.

(** ** Capabilities and the registry *)

Record Capability := mk_capability {
  cap_key : CapabilityKey;
  provider : Provider;
  health : Health;
  limits : btmap StableId LimitValue;
  formats : list FormatDescriptor;
  memory_domains : btset MemoryDomain;
  latency_modes : list LatencyMode;
  exclusivity : Exclusivity
}.
Definition capability_new (key : CapabilityKey) (provider : Provider) : Capability :=
  mk_capability key provider Healthy [] [] [] [] (mk_exclusivity Shared None).

Abbreviation CapabilityRegistry := (btmap CapabilityKey Capability).

Record DuplicateCapability := mk_duplicate {
  dup_key : CapabilityKey;
  registered_provider : Provider;
  rejected_provider : Provider
}.
Definition register (capability : Capability) : stm CapabilityRegistry DuplicateCapability unit :=
  self ← st_get;
  match bt_get (cap_key capability) self with
  | Some existing => mthrow (mk_duplicate (cap_key capability) (provider existing) (provider capability))
  | None => st_put (bt_insert (cap_key capability) capability self)
  end.
Definition registry_get (key : CapabilityKey) (self : CapabilityRegistry) : option Capability :=
  bt_get key self.

(** ** Requirements *)

Record ProviderRequirement := mk_provider_req {
  req_id : option StableId;
  req_version : option ProviderVersion
}.
Record CapabilityRequirement := mk_requirement {
  req_key : CapabilityKey;
  req_health : HealthRequirement;
  req_provider : ProviderRequirement;
  req_limits : btmap StableId LimitConstraint;
  req_formats : list FormatDescriptor;
  req_memory_domains : btset MemoryDomain;
  req_latency_modes : btset StableId;
  req_exclusivity : option ExclusivityMode
}.
Definition requirement_new (key : CapabilityKey) : CapabilityRequirement :=
  mk_requirement key RequireUsable (mk_provider_req None None) [] [] [] [] None.

Inductive LimitMismatchKind :=
  | MissingLimit
  | Unsatisfied
  | Incomparable (required actual : ValueKind).
Record LimitMismatch := mk_limit_mismatch {
  mm_name : StableId;
  mm_required : LimitConstraint;
  mm_actual : option LimitValue;
  mm_kind : LimitMismatchKind
}.
Inductive CompatibilityIssue :=
  | MissingCapability
  | UnhealthyProvider (required : HealthRequirement) (actual : Health)
  | ProviderMismatch (required : ProviderRequirement) (actual_id : StableId)
      (actual_version : ProviderVersion)
  | LimitIssue (m : LimitMismatch)
  | FormatMismatch (required : FormatDescriptor) (supported : list FormatDescriptor)
  | MemoryDomainMismatch (missing supported : btset MemoryDomain)
  | LatencyMismatch (accepted supported : btset StableId)
  | ExclusivityMismatch (required actual : ExclusivityMode).

Record RequirementReport := mk_req_report {
  report_key : CapabilityKey;
  req_issues : list CompatibilityIssue
}.
Record CompatibilityReport := mk_report { requirements : list RequirementReport }.

Definition is_met (self : RequirementReport) : bool :=
  match req_issues self with
  | [] => true
  | _ => false
  end.
Definition is_compatible (self : CompatibilityReport) : bool :=
  forallb is_met (requirements self).

(** ** Matching *)

(** One iteration of [append_limit_issues]. *)
Definition limit_mismatch (capability : Capability) (name : StableId)
    (constraint : LimitConstraint) : option LimitMismatch :=
  match bt_get name (limits capability) with
  | None => Some (mk_limit_mismatch name constraint None MissingLimit)
  | Some actual =>
      match constraint_matches constraint actual with
      | Some true => None
      | Some false => Some (mk_limit_mismatch name constraint (Some actual) Unsatisfied)
      | None => Some (mk_limit_mismatch name constraint (Some actual)
                        (Incomparable (kind (value constraint)) (kind actual)))
      end
  end.
Definition append_limit_issues (capability : Capability) (requirement : CapabilityRequirement) :
    list CompatibilityIssue :=
  req_limits requirement ≫= λ p,
    option_list (LimitIssue <$> limit_mismatch capability p.1 p.2).
Definition append_format_issues (capability : Capability) (requirement : CapabilityRequirement) :
    list CompatibilityIssue :=
  req_formats requirement ≫= λ required,
    if existsb (λ supported, format_supports supported required) (formats capability) then []
    else [FormatMismatch required (formats capability)].
Definition append_resource_issues (capability : Capability) (requirement : CapabilityRequirement) :
    list CompatibilityIssue :=
  let missing := filter (λ d, d ∉ memory_domains capability) (req_memory_domains requirement) in
  let supported := bs_of_list (latency_id <$> latency_modes capability) in
  (if decide (missing = []) then []
   else [MemoryDomainMismatch missing (memory_domains capability)]) ++
  (if decide (req_latency_modes requirement = []) then []
   else if existsb (λ m, bool_decide (m ∈ supported)) (req_latency_modes requirement) then []
   else [LatencyMismatch (req_latency_modes requirement) supported]) ++
  match req_exclusivity requirement with
  | Some required =>
      if mode_supports (mode (exclusivity capability)) required then []
      else [ExclusivityMismatch required (mode (exclusivity capability))]
  | None => []
  end.

Definition requirement_evaluate (registry : CapabilityRegistry)
    (requirement : CapabilityRequirement) : RequirementReport :=
  match registry_get (req_key requirement) registry with
  | None => mk_req_report (req_key requirement) [MissingCapability]
  | Some capability =>
      let required := req_provider requirement in
      let actual := provider capability in
      mk_req_report (req_key requirement)
        ((if health_matches (req_health requirement) (health capability) then []
          else [UnhealthyProvider (req_health requirement) (health capability)]) ++
         (if from_option (λ id, bool_decide (id ≠ provider_id actual)) false (req_id required) ||
             from_option (λ v, bool_decide (v ≠ provider_version actual)) false (req_version required)
          then [ProviderMismatch required (provider_id actual) (provider_version actual)] else []) ++
         append_limit_issues capability requirement ++
         append_format_issues capability requirement ++
         append_resource_issues capability requirement)
  end.
Definition report_evaluate (registry : CapabilityRegistry) (l : list CapabilityRequirement) :
    CompatibilityReport := mk_report (requirement_evaluate registry <$> l).

(** ** What a match means *)

Definition limit_holds (constraint : LimitConstraint) (actual : LimitValue) : Prop :=
  ∃ a r, match actual, value constraint with
         | LimitBoolean x, LimitBoolean y => a = Z.b2z x ∧ r = Z.b2z y
         | LimitSigned x, LimitSigned y | LimitUnsigned x, LimitUnsigned y => a = x ∧ r = y
         | LimitQuantity x u, LimitQuantity y u' => u = u' ∧ a = x ∧ r = y
         | _, _ => False
         end ∧
         match comparison_ constraint with
         | AtLeast => r ≤ a
         | AtMost => a ≤ r
         | Equal => a = r
         end.

Record satisfies (c : Capability) (r : CapabilityRequirement) : Prop := {
  sat_health : match req_health r, health c with
               | RequireUsable, Unhealthy _ => False
               | RequireHealthy, (Degraded _ | Unhealthy _) => False
               | _, _ => True
               end;
  sat_id : ∀ id, req_id (req_provider r) = Some id → provider_id (provider c) = id;
  sat_version : ∀ v, req_version (req_provider r) = Some v → provider_version (provider c) = v;
  sat_limits : ∀ name constraint, (name, constraint) ∈ req_limits r →
    ∃ actual, bt_get name (limits c) = Some actual ∧ limit_holds constraint actual;
  sat_formats : ∀ f, f ∈ req_formats r → ∃ g, g ∈ formats c ∧ format_kind g = format_kind f ∧
    ∀ name v, (name, v) ∈ fields f → bt_get name (fields g) = Some v;
  sat_domains : ∀ d, d ∈ req_memory_domains r → d ∈ memory_domains c;
  sat_latency : req_latency_modes r = [] ∨
    ∃ m, m ∈ latency_modes c ∧ latency_id m ∈ req_latency_modes r;
  sat_exclusivity : ∀ m, req_exclusivity r = Some m →
    mode (exclusivity c) = m ∨ mode (exclusivity c) = Configurable
}.

(** ** Lemmas *)

Lemma constraint_matches_true c a : constraint_matches c a = Some true ↔ limit_holds c a.
Proof.
  assert (Hcmp : ∀ x y : Z, Some match comparison_ c, (x ?= y) with
       | AtLeast, (Gt | Eq) => true
       | AtMost, (Lt | Eq) => true
       | Equal, Eq => true
       | _, _ => false
       end = Some true ↔ match comparison_ c with
         | AtLeast => y ≤ x
         | AtMost => x ≤ y
         | Equal => x = y
         end).
  { intros x y. destruct (comparison_ c), (Z.compare_spec x y); naive_solver lia. }
  unfold constraint_matches, limit_holds.
  destruct a, (value c); simpl; try (by split; [|intros (?&?&[]&?)]).
  - rewrite Hcmp. naive_solver.
  - rewrite Hcmp. naive_solver.
  - rewrite Hcmp. naive_solver.
  - case_decide; simpl; [rewrite Hcmp; naive_solver|]. split; [done|naive_solver].
Qed.
Lemma format_supports_spec g f :
  format_supports g f = true ↔ format_kind g = format_kind f ∧
    ∀ name v, (name, v) ∈ fields f → bt_get name (fields g) = Some v.
Proof.
  unfold format_supports. rewrite andb_true_iff, bool_decide_eq_true, forallb_forall.
  apply and_iff_compat_l. split.
  - intros Hf name v Hin%list_elem_of_In. by apply Hf, bool_decide_eq_true in Hin.
  - intros Hf [name v] Hin%list_elem_of_In. by apply bool_decide_eq_true, Hf.
Qed.

Lemma bind_nil {A B} (f : A → list B) l : l ≫= f = [] ↔ ∀ x, x ∈ l → f x = [].
Proof.
  induction l as [|x l IH]; [set_solver|]. rewrite bind_cons, app_nil, IH.
  setoid_rewrite elem_of_cons. naive_solver.
Qed.

Lemma limit_issues_nil c r :
  append_limit_issues c r = [] ↔ ∀ name constraint, (name, constraint) ∈ req_limits r →
    ∃ actual, bt_get name (limits c) = Some actual ∧ limit_holds constraint actual.
Proof.
  unfold append_limit_issues. rewrite bind_nil. setoid_rewrite <-constraint_matches_true.
  split.
  - intros Hn name k Hin. specialize (Hn _ Hin). simpl in Hn. unfold limit_mismatch in Hn.
    destruct (bt_get name (limits c)) as [a|]; [|done].
    destruct (constraint_matches k a) as [[|]|] eqn:Hk; try done. eauto.
  - intros Hn [name k] Hin. destruct (Hn _ _ Hin) as (a&Ha&Hk). simpl.
    unfold limit_mismatch. by rewrite Ha, Hk.
Qed.
Lemma format_issues_nil c r :
  append_format_issues c r = [] ↔ ∀ f, f ∈ req_formats r → ∃ g, g ∈ formats c ∧
    format_kind g = format_kind f ∧ ∀ name v, (name, v) ∈ fields f → bt_get name (fields g) = Some v.
Proof.
  unfold append_format_issues. rewrite bind_nil. apply forall_proper; intros f.
  setoid_rewrite <-format_supports_spec. split; intros Hf Hin; specialize (Hf Hin).
  - destruct (existsb _ _) eqn:He; [|done].
    apply existsb_exists in He as (g&Hg%list_elem_of_In&?). eauto.
  - destruct Hf as (g&Hg&?).
    assert (existsb (λ s, format_supports s f) (formats c) = true) as ->; [|done].
    apply existsb_exists. exists g. by rewrite <-list_elem_of_In.
Qed.
Lemma resource_issues_nil c r :
  append_resource_issues c r = [] ↔
  (∀ d, d ∈ req_memory_domains r → d ∈ memory_domains c) ∧
  (req_latency_modes r = [] ∨ ∃ m, m ∈ latency_modes c ∧ latency_id m ∈ req_latency_modes r) ∧
  (∀ m, req_exclusivity r = Some m →
    mode (exclusivity c) = m ∨ mode (exclusivity c) = Configurable).
Proof.
  unfold append_resource_issues. rewrite !app_nil.
  assert (Hd : (if decide (filter (λ d, d ∉ memory_domains c) (req_memory_domains r) = []) then []
    else [MemoryDomainMismatch (filter (λ d, d ∉ memory_domains c) (req_memory_domains r))
            (memory_domains c)]) = [] ↔
    ∀ d, d ∈ req_memory_domains r → d ∈ memory_domains c).
  { case_decide as Hf; split; try done.
    - intros _ d Hd. apply dec_stable. intros Hn.
      assert (d ∈ filter (λ d, d ∉ memory_domains c) (req_memory_domains r)) as Hin
        by by apply list_elem_of_filter.
      rewrite Hf in Hin. by apply not_elem_of_nil in Hin.
    - intros Hall. exfalso. apply Hf, filter_none. intros d Hd Hn. apply Hn. by apply Hall. }
  rewrite Hd. clear Hd. apply and_iff_compat_l.
  assert (Hl : (if decide (req_latency_modes r = []) then []
    else if existsb (λ m, bool_decide (m ∈ bs_of_list (latency_id <$> latency_modes c)))
           (req_latency_modes r) then []
    else [LatencyMismatch (req_latency_modes r) (bs_of_list (latency_id <$> latency_modes c))]) = [] ↔
    req_latency_modes r = [] ∨ ∃ m, m ∈ latency_modes c ∧ latency_id m ∈ req_latency_modes r).
  { case_decide as He; [by split; intros; [left|]|]. destruct (existsb _ _) eqn:Hx; split; try done.
    - intros _. right. apply existsb_exists in Hx as (i&Hi%list_elem_of_In&Hb).
      apply bool_decide_eq_true, elem_of_bs_of_list, list_elem_of_fmap in Hb as (m&->&?). eauto.
    - intros [?|(m&Hm&Hin)]; [done|]. exfalso.
      assert (existsb (λ m, bool_decide (m ∈ bs_of_list (latency_id <$> latency_modes c)))
        (req_latency_modes r) = true); [|congruence].
      apply existsb_exists. exists (latency_id m). rewrite <-list_elem_of_In. split; [done|].
      apply bool_decide_eq_true, elem_of_bs_of_list, list_elem_of_fmap. eauto. }
  rewrite Hl. apply and_iff_compat_l.
  destruct (req_exclusivity r) as [m|]; [|naive_solver]. unfold mode_supports.
  destruct (mode (exclusivity c)), m; simpl; naive_solver.
Qed.

(** A requirement is met exactly when a capability is registered under its key
    and satisfies it. *)
Lemma is_met_spec registry r :
  is_met (requirement_evaluate registry r) = true ↔
  ∃ c, registry_get (req_key r) registry = Some c ∧ satisfies c r.
Proof.
  assert (Hmet : ∀ k l, is_met (mk_req_report k l) = true ↔ l = []) by (by intros k []).
  unfold requirement_evaluate. destruct (registry_get (req_key r) registry) as [c|] eqn:Hc.
  2: { rewrite Hmet. split; [done|by intros (?&?&_)]. }
  rewrite Hmet, !app_nil, limit_issues_nil, format_issues_nil, resource_issues_nil. split.
  - intros (Hh&Hp&?&?&?&?&?). exists c. split; [done|]. split; try done.
    + destruct (req_health r), (health c); done.
    + intros id Hid. rewrite Hid in Hp. simpl in Hp.
      destruct (decide (id = provider_id (provider c))); [done|].
      by rewrite bool_decide_true in Hp by done.
    + intros v Hv. rewrite Hv, orb_comm in Hp. simpl in Hp.
      destruct (decide (v = provider_version (provider c))); [done|].
      by rewrite bool_decide_true in Hp by done.
  - intros (?&[= <-]&[]). split_and!; try done.
    + by destruct (req_health r), (health c).
    + destruct (req_id (req_provider r)) as [id|], (req_version (req_provider r)) as [v|]; simpl;
        repeat (rewrite bool_decide_false by (intros Hne; apply Hne; symmetry; auto)); done.
Qed.

Lemma is_compatible_spec registry l :
  is_compatible (report_evaluate registry l) = true ↔
  ∀ r, r ∈ l → ∃ c, registry_get (req_key r) registry = Some c ∧ satisfies c r.
Proof.
  unfold is_compatible, report_evaluate. simpl. rewrite forallb_forall.
  setoid_rewrite <-is_met_spec. setoid_rewrite <-list_elem_of_In.
  setoid_rewrite list_elem_of_fmap. naive_solver.
Qed.

(** ** Theorem *)

(** The match is exact and stable.  A project is reported compatible exactly
    when every requirement has a registered capability under its key that is
    healthy enough, comes from the provider asked for, meets every limit in
    comparable units, supports every format and memory domain, one of the latency
    modes and the exclusivity.  A registration never replaces a capability: a
    duplicate is refused and changes nothing, and a new one makes no compatible
    project incompatible. *)
Theorem compatibility_exact registry l :
  (is_compatible (report_evaluate registry l) = true ↔
    ∀ r, r ∈ l → ∃ c, registry_get (req_key r) registry = Some c ∧ satisfies c r) ∧
  ∀ c, match register c registry with
       | (registry', Ret _) =>
           registry_get (cap_key c) registry' = Some c ∧
           (is_compatible (report_evaluate registry l) = true →
            is_compatible (report_evaluate registry' l) = true)
       | (registry', Throw e) =>
           registry' = registry ∧ ∃ old, registry_get (cap_key c) registry = Some old ∧
           e = mk_duplicate (cap_key c) (provider old) (provider c)
       | (_, Panic) => False
       end.
Proof.
  split; [apply is_compatible_spec|]. intros c.
  unfold register, mbind, stm_bind, st_get, registry_get.
  destruct (bt_get (cap_key c) registry) as [old|] eqn:Hold; simpl.
  { split; [done|]. by exists old. }
  split; [apply bt_get_insert_eq|]. rewrite !is_compatible_spec. intros Hl r Hr.
  destruct (Hl r Hr) as (c'&Hc'&Hs). exists c'. split; [|done]. unfold registry_get in *.
  rewrite bt_get_insert_ne; [done|]. intros Heq. congruence.
Qed.
