(* ===== verification/Graph.v ===== *)
(** Media graphs, [crates/media/fm-graph/src/model.rs], [validation.rs] and the
    identifiers of [id.rs]: the editable graph and its complete validation.

    [EditableGraph] maps to the record of the same name; a [BTreeMap] is an
    ordered association list.  Validation is a writer: each function returns
    the issues it pushes, in order. *)
From S2P Require Import Prelude BTree Capabilities.

(** ** Data *)

Abbreviation NodeId := string (only parsing).
Abbreviation PortId := string (only parsing).

Inductive MediaKind := Video | Audio | TimedData | ControlData | HealthData | Custom (id : StableId).
#[global] Instance MediaKind_eq_dec : EqDecision MediaKind.
Proof. solve_decision. Defined.

Record InputCardinality := mk_cardinality { minimum : nat; maximum : option nat }.
Definition REQUIRED : InputCardinality := mk_cardinality 1 (Some 1%nat).
Definition OPTIONAL : InputCardinality := mk_cardinality 0 (Some 1%nat).
Definition MANY : InputCardinality := mk_cardinality 0 None.
Record InvalidCardinality := mk_invalid_cardinality { inv_minimum : nat; inv_maximum : option nat }.
Definition cardinality_new (minimum : nat) (maximum : option nat) :
    result InvalidCardinality InputCardinality :=
  match maximum with
  | Some m => if decide (m < minimum)%nat then Err (mk_invalid_cardinality minimum maximum)
              else Ok (mk_cardinality minimum maximum)
  | None => Ok (mk_cardinality minimum maximum)
  end.
Definition accepts (self : InputCardinality) (actual : nat) : bool :=
  bool_decide (minimum self ≤ actual)%nat &&
  match maximum self with
  | Some m => bool_decide (actual ≤ m)%nat
  | None => true
  end.

Record InputPort := mk_input { in_id : PortId; in_kind : MediaKind; cardinality : InputCardinality }.
Record OutputPort := mk_output { out_id : PortId; out_kind : MediaKind }.

Inductive CyclePolicy := Reject | BreaksCycle.
#[global] Instance CyclePolicy_eq_dec : EqDecision CyclePolicy.
Proof. solve_decision. Defined.

Record ResourceCost := mk_cost { cpu_units : Z; gpu_bytes : Z; queue_frames : Z }.

Record Node := mk_node {
  node_id : NodeId;
  node_kind : StableId;
  inputs : btmap PortId InputPort;
  outputs : btmap PortId OutputPort;
  capabilities : list CapabilityRequirement;
  resources : ResourceCost;
  cycle_policy : CyclePolicy
}.
Definition node_new (id : NodeId) (kind : StableId) : Node :=
  mk_node id kind [] [] [] (mk_cost 0 0 0) Reject.

Record DuplicatePort := mk_duplicate_port { dup_node : NodeId; dup_port : PortId }.
Definition ensure_new_port (port : PortId) (self : Node) : result DuplicatePort unit :=
  if bt_contains port (inputs self) || bt_contains port (outputs self) then
    Err (mk_duplicate_port (node_id self) port)
  else Ok tt.
Definition add_input (port : InputPort) : stm Node DuplicatePort unit :=
  self ← st_get;
  _ ← st_lift (ensure_new_port (in_id port) self);
  st_put (mk_node (node_id self) (node_kind self) (bt_insert (in_id port) port (inputs self))
    (outputs self) (capabilities self) (resources self) (cycle_policy self)).
Definition add_output (port : OutputPort) : stm Node DuplicatePort unit :=
  self ← st_get;
  _ ← st_lift (ensure_new_port (out_id port) self);
  st_put (mk_node (node_id self) (node_kind self) (inputs self)
    (bt_insert (out_id port) port (outputs self)) (capabilities self) (resources self)
    (cycle_policy self)).

Record Endpoint := mk_endpoint { ep_node : NodeId; ep_port : PortId }.
Inductive QueueDepth := Bounded (n : Z) | Unbounded.
Inductive OverflowPolicy := Block | DropNewest | DropOldest.
Record Edge := mk_edge {
  from : Endpoint;
  to : Endpoint;
  queue_depth : QueueDepth;
  overflow_policy : OverflowPolicy;
  memory_budget_bytes : Z
}.
Definition DEFAULT_MEMORY_BUDGET_BYTES : Z := 1048576.
Definition edge_new (from to : Endpoint) : Edge :=
  mk_edge from to (Bounded 1) Block DEFAULT_MEMORY_BUDGET_BYTES.
Definition with_queue (depth : QueueDepth) (policy : OverflowPolicy) (budget : Z) (self : Edge) :
    Edge := mk_edge (from self) (to self) depth policy budget.

Record EditableGraph := mk_graph { nodes : btmap NodeId Node; edges : list Edge }.
Definition graph_new : EditableGraph := mk_graph [] [].
Record DuplicateNode := mk_duplicate_node { duplicate_node : NodeId }.
Definition add_node (node : Node) : stm EditableGraph DuplicateNode unit :=
  self ← st_get;
  if bt_contains (node_id node) (nodes self) then mthrow (mk_duplicate_node (node_id node))
  else st_put (mk_graph (bt_insert (node_id node) node (nodes self)) (edges self)).
Definition connect (edge : Edge) (self : EditableGraph) : EditableGraph :=
  mk_graph (nodes self) (edges self ++ [edge]).

Definition is_dependency (self : EditableGraph) (edge : Edge) : bool :=
  match bt_get (ep_node (from edge)) (nodes self) with
  | Some node => bool_decide (cycle_policy node ≠ BreaksCycle)
  | None => true
  end.
Definition dependency_edges (self : EditableGraph) : list Edge :=
  filter (λ edge, is_dependency self edge) (edges self).

(** The derived orders: field by field, [Bounded] before [Unbounded]. *)
Definition endpoint_key (e : Endpoint) : NodeId * PortId := (ep_node e, ep_port e).
Definition depth_key (d : QueueDepth) : Z * Z :=
  match d with
  | Bounded n => (0, n)
  | Unbounded => (1, 0)
  end.
Definition policy_key (p : OverflowPolicy) : Z :=
  match p with
  | Block => 0
  | DropNewest => 1
  | DropOldest => 2
  end.
Definition edge_key (e : Edge) :
    ((NodeId * PortId) * (NodeId * PortId)) * ((Z * Z) * (Z * Z)) :=
  ((endpoint_key (from e), endpoint_key (to e)),
   (depth_key (queue_depth e), (policy_key (overflow_policy e), memory_budget_bytes e))).
#[global] Instance Endpoint_eq_dec : EqDecision Endpoint.
Proof. solve_decision. Defined.
#[global] Instance QueueDepth_eq_dec : EqDecision QueueDepth.
Proof. solve_decision. Defined.
#[global] Instance OverflowPolicy_eq_dec : EqDecision OverflowPolicy.
Proof. solve_decision. Defined.
#[global] Instance Edge_eq_dec : EqDecision Edge.
Proof. solve_decision. Defined.
#[global] Instance Edge_ord_key : OrdKey Edge := λ x y, key_cmp (edge_key x) (edge_key y).
#[global] Instance edge_key_inj : Inj (=) (=) edge_key.
Proof.
  intros [[] [] d p ?] [[] [] d' p' ?]. unfold edge_key, endpoint_key; simpl. intros [=]. subst.
  f_equal; [by destruct d, d'; simplify_eq/=|by destruct p, p'].
Qed.
#[global] Instance Edge_ord_key_laws : OrdKeyLaws Edge.
Proof. by apply (ord_key_laws_via edge_key); [apply (inj edge_key)|]. Qed.
Definition unique_edges (self : EditableGraph) : btset Edge := bs_of_list (edges self).

(** ** Validation *)

Inductive EndpointRole := Source | Destination.
Inductive PortDirection := Input | Output.

Inductive ValidationIssue :=
  | MissingNode (edge : nat) (endpoint : EndpointRole) (node : NodeId)
  | MissingPort (edge : nat) (endpoint : EndpointRole) (node : NodeId) (port : PortId)
  | DirectionMismatch (edge : nat) (endpoint : EndpointRole) (node : NodeId) (port : PortId)
      (expected actual : PortDirection)
  | MediaMismatch (edge : nat) (from_kind to_kind : MediaKind)
  | DuplicateConnection (first_edge duplicate_edge : nat) (connection : Edge)
  | UnboundedQueue (edge : nat)
  | ZeroQueueDepth (edge : nat)
  | ZeroMemoryBudget (edge : nat)
  | InputCardinalityIssue (node : NodeId) (port : PortId) (minimum : nat) (maximum : option nat)
      (actual : nat)
  | CapabilityMismatch (node : NodeId) (report : CompatibilityReport)
  | Cycle (nodes : list NodeId).

Definition output_kind (graph : EditableGraph) (endpoint : Endpoint) (edge : nat)
    (role : EndpointRole) : option MediaKind * list ValidationIssue :=
  match bt_get (ep_node endpoint) (nodes graph) with
  | None => (None, [MissingNode edge role (ep_node endpoint)])
  | Some node =>
      match bt_get (ep_port endpoint) (outputs node) with
      | Some port => (Some (out_kind port), [])
      | None =>
          if bt_contains (ep_port endpoint) (inputs node) then
            (None, [DirectionMismatch edge role (ep_node endpoint) (ep_port endpoint) Output Input])
          else (None, [MissingPort edge role (ep_node endpoint) (ep_port endpoint)])
      end
  end.
Definition input_port (graph : EditableGraph) (endpoint : Endpoint) (edge : nat)
    (role : EndpointRole) : option InputPort * list ValidationIssue :=
  match bt_get (ep_node endpoint) (nodes graph) with
  | None => (None, [MissingNode edge role (ep_node endpoint)])
  | Some node =>
      match bt_get (ep_port endpoint) (inputs node) with
      | Some port => (Some port, [])
      | None =>
          if bt_contains (ep_port endpoint) (outputs node) then
            (None, [DirectionMismatch edge role (ep_node endpoint) (ep_port endpoint) Input Output])
          else (None, [MissingPort edge role (ep_node endpoint) (ep_port endpoint)])
      end
  end.

Definition connection_key (edge : Edge) : (NodeId * PortId) * (NodeId * PortId) :=
  (endpoint_key (from edge), endpoint_key (to edge)).
(** What one iteration of [validate_edges] reports, but for the duplicate. *)
Definition edge_issues (graph : EditableGraph) (index : nat) (edge : Edge) : list ValidationIssue :=
  let '(source, source_issues) := output_kind graph (from edge) index Source in
  let '(destination, destination_issues) := input_port graph (to edge) index Destination in
  match queue_depth edge with
  | Unbounded => [UnboundedQueue index]
  | Bounded n => if decide (n = 0) then [ZeroQueueDepth index] else []
  end ++
  (if decide (memory_budget_bytes edge = 0) then [ZeroMemoryBudget index] else []) ++
  source_issues ++ destination_issues ++
  match source, destination with
  | Some k, Some port =>
      if decide (k ≠ in_kind port) then [MediaMismatch index k (in_kind port)] else []
  | _, _ => []
  end.
Fixpoint validate_edges_from (graph : EditableGraph) (index : nat)
    (seen : btmap ((NodeId * PortId) * (NodeId * PortId)) nat) (l : list Edge) :
    list ValidationIssue :=
  match l with
  | [] => []
  | edge :: l =>
      match bt_get (connection_key edge) seen with
      | Some first => [DuplicateConnection first index edge]
      | None => []
      end ++
      edge_issues graph index edge ++
      validate_edges_from graph (S index) (bt_insert (connection_key edge) index seen) l
  end.
Definition validate_edges (graph : EditableGraph) : list ValidationIssue :=
  validate_edges_from graph 0 [] (edges graph).

(** The counting loop of [validate_inputs]. *)
Definition reaches_input (graph : EditableGraph) (edge : Edge) : bool :=
  match bt_get (ep_node (to edge)) (nodes graph) with
  | Some node => bt_contains (ep_port (to edge)) (inputs node)
  | None => false
  end.
Definition count_connections (graph : EditableGraph) : btmap (NodeId * PortId) nat :=
  foldl (λ counts edge,
    if reaches_input graph edge then
      bt_insert (endpoint_key (to edge))
        (S (from_option id 0%nat (bt_get (endpoint_key (to edge)) counts))) counts
    else counts) [] (edges graph).
Definition validate_inputs (graph : EditableGraph) : list ValidationIssue :=
  let connections := count_connections graph in
  nodes graph ≫= λ n,
    inputs n.2 ≫= λ p,
      let actual := from_option id 0%nat (bt_get (n.1, p.1) connections) in
      if accepts (cardinality p.2) actual then []
      else [InputCardinalityIssue n.1 p.1 (minimum (cardinality p.2))
              (maximum (cardinality p.2)) actual].

Definition validate_capabilities (graph : EditableGraph) (registry : CapabilityRegistry) :
    list ValidationIssue :=
  nodes graph ≫= λ n,
    let report := report_evaluate registry (capabilities n.2) in
    if is_compatible report then [] else [CapabilityMismatch n.1 report].

(** ** Cycles *)

(** The sets of same-tick successors, one for every node. *)
Definition adjacency (graph : EditableGraph) : btmap NodeId (btset NodeId) :=
  foldl (λ adj edge,
    if bt_contains (ep_node (to edge)) (nodes graph) &&
       match bt_get (ep_node (from edge)) (nodes graph) with
       | Some node => bool_decide (cycle_policy node ≠ BreaksCycle)
       | None => false
       end
    then bt_insert (ep_node (from edge))
           (bs_insert (ep_node (to edge)) (from_option id [] (bt_get (ep_node (from edge)) adj))) adj
    else adj)
    (bt_of_list ((λ n, (n, [])) <$> bt_keys (nodes graph))) (dependency_edges graph).

(** The mutable state of the search: the visited and the active nodes and the
    path, its last node first. *)
Record search := mk_search {
  visited : gset NodeId;
  active : gset NodeId;
  path : list NodeId
}.

(** [visit], with the depth of calls as fuel; [None] is a search that has not
    ended.  [visit_all] is the loop over the successors, [search_from] the one over
    the nodes. *)
Section visit.
Context (adj : btmap NodeId (btset NodeId)).

Fixpoint visit_all (visit : NodeId → search → option (search * option (list NodeId)))
    (l : list NodeId) (s : search) : option (search * option (list NodeId)) :=
  match l with
  | [] => Some (s, None)
  | next :: l =>
      '(s, found) ← visit next s;
      match found with
      | Some cycle => Some (s, Some cycle)
      | None => visit_all visit l s
      end
  end.
Fixpoint visit (fuel : nat) (node : NodeId) (s : search) : option (search * option (list NodeId)) :=
  match fuel with
  | O => None
  | S fuel =>
      if decide (node ∈ active s) then
        let forward := reverse (path s) in
        let start := from_option fst 0%nat (list_find (λ candidate, candidate = node) forward) in
        Some (s, Some (drop start forward ++ [node]))
      else if decide (node ∈ visited s) then Some (s, None)
      else
        '(s, found) ← visit_all (visit fuel) (from_option id [] (bt_get node adj))
          (mk_search ({[node]} ∪ visited s) ({[node]} ∪ active s) (node :: path s));
        match found with
        | Some cycle => Some (s, Some cycle)
        | None => Some (mk_search (visited s) (active s ∖ {[node]}) (tail (path s)), None)
        end
  end.

Fixpoint search_from (fuel : nat) (l : list NodeId) (s : search) : option (option (list NodeId)) :=
  match l with
  | [] => Some None
  | node :: l =>
      '(s, found) ← visit fuel node s;
      match found with
      | Some cycle => Some (Some cycle)
      | None => search_from fuel l s
      end
  end.
End visit.

(** A call visits a new node before it calls itself, so the depth is at most the
    number of nodes and one. *)
Definition find_cycle (graph : EditableGraph) : option (option (list NodeId)) :=
  search_from (adjacency graph) (S (length (nodes graph))) (bt_keys (nodes graph))
    (mk_search ∅ ∅ []).

Record GraphValidation := mk_validation { issues : list ValidationIssue }.
Definition graph_evaluate (graph : EditableGraph) (registry : CapabilityRegistry) :
    option GraphValidation :=
  cycle ← find_cycle graph;
  Some (mk_validation (validate_edges graph ++ validate_inputs graph ++
    validate_capabilities graph registry ++ option_list (Cycle <$> cycle))).
Definition is_valid (self : GraphValidation) : bool :=
  match issues self with
  | [] => true
  | _ => false
  end.

(** ** Properties of the search *)

Section walk.
Context {A : Type} (R : relation A).

(** Each element is related to the next. *)
Fixpoint walk (l : list A) : Prop :=
  match l with
  | [] => True
  | a :: t => match t with [] => True | b :: _ => R a b end ∧ walk t
  end.

Lemma walk_snoc l b : walk l → (∀ a, last l = Some a → R a b) → walk (l ++ [b]).
Proof.
  induction l as [|a [|a' l] IH]; intros Hl Hb; [done|..].
  - simpl. split_and!; [|done..]. by apply Hb.
  - destruct Hl as [? Hl]. split; [done|]. apply IH; [done|]. intros x Hx. by apply Hb.
Qed.
Lemma walk_drop i l : walk l → walk (drop i l).
Proof. revert l. induction i as [|i IH]; intros [|a l]; [done..|]. intros [_ Hl]. by apply IH. Qed.
Lemma walk_tc a l b : walk (a :: l ++ [b]) → tc R a b.
Proof.
  revert a. induction l as [|c l IH]; intros a [Ha Hl]; [by constructor|].
  eapply tc_l; [exact Ha|by apply IH].
Qed.
(** A walk that closes on itself. *)
Definition cycle_of (c : list A) : Prop := ∃ a l, c = a :: l ++ [a] ∧ walk c.
Lemma cycle_of_tc c : cycle_of c → ∃ a, a ∈ c ∧ tc R a a.
Proof. intros (a & l & -> & Hw). exists a. split; [by left|by apply (walk_tc a l)]. Qed.

Lemma Acc_tc_irrefl a : Acc (flip R) a → ¬ tc R a a.
Proof.
  induction 1 as [a _ IH]. intros Ha. inversion Ha as [x y Hxy|x y z Hxy Hyz]; subst.
  - by apply (IH a Hxy), tc_once.
  - apply (IH y Hxy). by eapply tc_r.
Qed.
End walk.

Section search_properties.
Context (adj : btmap NodeId (btset NodeId)) (U : gset NodeId).

Definition succs (a : NodeId) : btset NodeId := from_option id [] (bt_get a adj).
Definition step_to (a b : NodeId) : Prop := b ∈ succs a.
Hypothesis closed : ∀ a b, step_to a b → b ∈ U.

(** The path is a walk of active nodes; a visited node that is no longer active
    reaches no cycle. *)
Definition search_ok (s : search) : Prop :=
  (∀ x, x ∈ active s ↔ x ∈ path s) ∧ active s ⊆ visited s ∧
  walk step_to (reverse (path s)) ∧
  ∀ x, x ∈ visited s → x ∉ active s → Acc (flip step_to) x.

Definition follows (s : search) (node : NodeId) : Prop :=
  node ∈ U ∧ ∀ a, last (reverse (path s)) = Some a → step_to a node.
Definition search_post (s : search) (P : Prop) (r : option (search * option (list NodeId))) : Prop :=
  ∃ s' found, r = Some (s', found) ∧
    match found with
    | Some c => cycle_of step_to c
    | None => search_ok s' ∧ path s' = path s ∧ active s' = active s ∧
        visited s ⊆ visited s' ∧ P
    end.

Lemma closing_cycle s node :
  search_ok s → follows s node → node ∈ active s →
  cycle_of step_to
    (drop (from_option fst 0%nat (list_find (λ candidate, candidate = node) (reverse (path s))))
       (reverse (path s)) ++ [node]).
Proof.
  intros (Hact & _ & Hw & _) [_ Hlast] Hin.
  apply Hact, elem_of_reverse in Hin. set (f := reverse (path s)) in *.
  destruct (list_find_elem_of (λ candidate, candidate = node) f node) as [[i x] Hfind]; [done..|].
  rewrite Hfind. simpl. apply list_find_Some in Hfind as (Hi & -> & _).
  assert (Hw' : walk step_to (drop i f ++ [node])).
  { assert (Hdrop := walk_drop step_to i (f ++ [node]) (walk_snoc step_to f node Hw Hlast)).
    rewrite drop_app_le in Hdrop; [done|]. apply lookup_lt_Some in Hi. lia. }
  exists node, (drop (S i) f). rewrite (drop_S f node i) in * by done. done.
Qed.

Lemma visit_all_ok vis l s node :
  search_ok s → last (reverse (path s)) = Some node → (∀ b, b ∈ l → step_to node b) →
  (∀ next s', search_ok s' → visited s ⊆ visited s' → follows s' next →
     search_post s' (Acc (flip step_to) next) (vis next s')) →
  search_post s (∀ b, b ∈ l → Acc (flip step_to) b) (visit_all vis l s).
Proof.
  revert s. induction l as [|next l IH]; intros s Hok Hlast Hl Hvis; simpl.
  { exists s, None. split_and!; [done..|]. by intros b ?%elem_of_nil. }
  destruct (Hvis next s Hok) as (s1 & found & -> & Hpost); [done|..].
  { split; [by eapply closed, Hl; left|]. intros a. rewrite Hlast. intros [= <-]. apply Hl. by left. }
  simpl. destruct found as [c|]; [by exists s1, (Some c)|].
  destruct Hpost as (Hok1 & Hp1 & Ha1 & Hv1 & Hacc).
  destruct (IH s1) as (s2 & found & -> & Hpost); [done|by rewrite Hp1|set_solver| |].
  { intros next' s' ? ?. apply Hvis; [done|set_solver]. }
  exists s2, found. split; [done|]. destruct found as [c|]; [done|].
  destruct Hpost as (Hok2 & Hp2 & Ha2 & Hv2 & Haccs). split_and!; [done|congruence..|set_solver|].
  intros b [->|Hb]%elem_of_cons; [done|by apply Haccs].
Qed.

Lemma visit_ok fuel node s :
  search_ok s → follows s node → (size (U ∖ visited s) < fuel)%nat →
  search_post s (Acc (flip step_to) node) (visit adj fuel node s).
Proof.
  revert node s. induction fuel as [|fuel IH]; intros node s Hok Hnode Hfuel; [lia|]. simpl.
  destruct (decide (node ∈ active s)) as [Hin|Hout].
  { eexists _, _. split; [done|]. by apply closing_cycle. }
  destruct (decide (node ∈ visited s)) as [Hvis|Hnew].
  { exists s, None. split_and!; [done..|]. by apply Hok. }
  destruct Hok as (Hact & Hsub & Hw & Hacc), Hnode as [HU Hlast].
  set (s1 := mk_search ({[node]} ∪ visited s) ({[node]} ∪ active s) (node :: path s)).
  destruct (visit_all_ok (visit adj fuel) (succs node) s1 node)
    as (s2 & found & Hrun & Hpost).
  - split_and!; simpl; [|set_solver| |].
    + intros x. rewrite elem_of_union, elem_of_singleton, elem_of_cons, Hact. done.
    + rewrite reverse_cons. by apply walk_snoc.
    + intros x Hx Hx'. apply Hacc; set_solver.
  - simpl. by rewrite reverse_cons, last_snoc.
  - done.
  - intros next s' Hok' Hv' Hnext. apply IH; [done..|].
    assert (size (U ∖ visited s') < size (U ∖ visited s))%nat; [|lia].
    apply subset_size. simpl in Hv'. split; [set_solver|].
    intros Hc. assert (node ∈ U ∖ visited s) as Hin by set_solver.
    apply Hc in Hin. set_solver.
  - unfold succs in Hrun. rewrite Hrun. simpl. destruct found as [c|].
    { by exists s2, (Some c). }
    destruct Hpost as ((Hact2 & Hsub2 & Hw2 & Hacc2) & Hp2 & Ha2 & Hv2 & Haccs).
    assert (Hnacc : Acc (flip step_to) node) by (constructor; intros b Hb; by apply Haccs).
    assert (active s2 ∖ {[node]} = active s) as Hrest by (rewrite Ha2; simpl; set_solver).
    eexists _, None. split; [done|]. unfold search_ok. simpl. rewrite Hrest, Hp2. simpl.
    split_and!; [done|simpl in Hv2; set_solver|done| |done..|simpl in Hv2; set_solver|done].
    intros x Hx Hx'. destruct (decide (x = node)) as [->|]; [done|]. apply Hacc2; [done|].
    rewrite Ha2. simpl. set_solver.
Qed.

Lemma search_from_ok fuel l s :
  search_ok s → path s = [] → (∀ b, b ∈ l → b ∈ U) → (size U < fuel)%nat →
  ∃ r, search_from adj fuel l s = Some r ∧
    match r with
    | Some c => cycle_of step_to c
    | None => ∀ b, b ∈ l → Acc (flip step_to) b
    end.
Proof.
  intros Hok Hpath Hl Hfuel. revert s Hok Hpath. induction l as [|node l IH]; intros s Hok Hpath; simpl.
  { exists None. split; [done|]. by intros b ?%elem_of_nil. }
  destruct (visit_ok fuel node s Hok) as (s1 & found & -> & Hpost).
  { split; [apply Hl; by left|]. by rewrite Hpath. }
  { eapply Nat.le_lt_trans; [apply subseteq_size|exact Hfuel]. set_solver. }
  simpl. destruct found as [c|]; [by exists (Some c)|].
  destruct Hpost as (Hok1 & Hp1 & _ & _ & Hacc).
  destruct (IH ltac:(set_solver) s1 Hok1) as (r & -> & Hr); [congruence|].
  exists r. split; [done|]. destruct r as [c|]; [done|].
  intros b [->|Hb]%elem_of_cons; [done|by apply Hr].
Qed.
End search_properties.

(** ** The graph *)

(** What the types of the source guarantee: a [BTreeMap] is ordered, and
    [add_node] files a node under its identifier. *)
Definition graph_wf (g : EditableGraph) : Prop :=
  bt_sorted (nodes g) ∧
  ∀ k n, bt_get k (nodes g) = Some n → node_id n = k ∧ bt_sorted (inputs n).

(** [a] must run before [b] in a tick: an edge leads from [a] to [b], and [a] is
    no temporal boundary. *)
Definition depends (g : EditableGraph) (a b : NodeId) : Prop :=
  ∃ e na, e ∈ edges g ∧ ep_node (from e) = a ∧ ep_node (to e) = b ∧
    bt_get a (nodes g) = Some na ∧ cycle_policy na = Reject ∧ b ∈ bt_keys (nodes g).
Definition acyclic (g : EditableGraph) : Prop := ∀ a, ¬ tc (depends g) a a.

Lemma bt_get_of_list_nil {V : Type} (l : list NodeId) (k : NodeId) :
  from_option id ([] : list V) (bt_get k (bt_of_list ((λ n, (n, [])) <$> l))) = [].
Proof.
  unfold bt_of_list. assert (∀ m : btmap NodeId (list V), from_option id [] (bt_get k m) = [] →
    from_option id [] (bt_get k (foldl (λ m p, bt_insert p.1 p.2 m) m ((λ n, (n, [])) <$> l))) = [])
    as Hgen; [|by apply Hgen].
  induction l as [|x l IH]; intros m Hm; simpl; [done|]. apply IH.
  rewrite bt_get_insert. by case_decide.
Qed.

Lemma adjacency_spec g a b : step_to (adjacency g) a b ↔ depends g a b.
Proof.
  unfold step_to, succs, adjacency, dependency_edges.
  match goal with |- b ∈ from_option id [] (bt_get a (foldl ?f ?init _)) ↔ _ =>
    set (step := f); assert (from_option id [] (bt_get a init) = []) as Hinit
      by apply bt_get_of_list_nil; revert Hinit; generalize init
  end.
  intros init Hinit. unfold depends.
  assert (∀ l m, b ∈ from_option id [] (bt_get a (foldl step m (filter (λ e, is_dependency g e) l))) ↔
    b ∈ from_option id [] (bt_get a m) ∨ ∃ e na, e ∈ l ∧ ep_node (from e) = a ∧ ep_node (to e) = b ∧
    bt_get a (nodes g) = Some na ∧ cycle_policy na = Reject ∧ b ∈ bt_keys (nodes g)) as Hgen;
    [|rewrite Hgen, Hinit; set_solver].
  clear init Hinit. induction l as [|e l IH]; intros m; [set_solver|].
  assert (b ∈ from_option id [] (bt_get a (if is_dependency g e then step m e else m)) ↔
    b ∈ from_option id [] (bt_get a m) ∨ ∃ na, ep_node (from e) = a ∧ ep_node (to e) = b ∧
    bt_get a (nodes g) = Some na ∧ cycle_policy na = Reject ∧ b ∈ bt_keys (nodes g)) as He.
  { unfold is_dependency, step, bt_contains.
    destruct (bt_get (ep_node (from e)) (nodes g)) as [na|] eqn:Hna; simpl.
    - destruct (decide (cycle_policy na = BreaksCycle)) as [Hp|Hp].
      + rewrite bool_decide_eq_false_2 by naive_solver. split; [by left|].
        intros [?|(na' & <- & _ & Hna' & Hp' & _)]; [done|]. congruence.
      + rewrite bool_decide_eq_true_2 by done. case_bool_decide as Hto; simpl.
        * rewrite bt_get_insert. apply bt_get_is_Some in Hto. case_decide as Ha; simpl.
          -- subst a. rewrite elem_of_bs_insert. split; [|naive_solver].
             intros [->|?]; [|by left]. right. exists na. split_and!; try done.
             by destruct (cycle_policy na).
          -- naive_solver.
        * rewrite bt_get_is_Some in Hto. naive_solver.
    - case_bool_decide; simpl; naive_solver. }
  rewrite filter_cons. setoid_rewrite elem_of_cons.
  destruct (decide (is_dependency g e)) as [Hd%Is_true_true|Hd%Is_true_false];
    rewrite Hd in He; cbn [foldl]; rewrite IH, He; naive_solver.
Qed.

Lemma walk_impl {A} (R R' : relation A) l : (∀ a b, R a b → R' a b) → walk R l → walk R' l.
Proof.
  intros HR. induction l as [|a [|b l] IH]; [done|done|]. intros [Ha Hl].
  split; [by apply HR|by apply IH].
Qed.
Lemma step_to_key g a b : step_to (adjacency g) a b → b ∈ bt_keys (nodes g).
Proof. rewrite adjacency_spec. by intros (? & ? & ? & ? & ? & ? & ? & ?). Qed.
Lemma tc_impl {A} (R R' : relation A) a b : (∀ x y, R x y → R' x y) → tc R a b → tc R' a b.
Proof.
  intros HR. induction 1 as [a b Hab|a b c Hab _ IH]; [by apply tc_once, HR|].
  eapply tc_l; [by apply HR|done].
Qed.
Lemma tc_depends_key g a b : tc (depends g) a b → a ∈ bt_keys (nodes g).
Proof.
  assert (∀ b, depends g a b → a ∈ bt_keys (nodes g)) as Hone.
  { intros ? (? & na & ? & ? & ? & Ha & ?). apply bt_get_is_Some. by exists na. }
  inversion 1; eauto.
Qed.

Lemma find_cycle_ok g : bt_sorted (nodes g) →
  ∃ r, find_cycle g = Some r ∧
    match r with
    | Some c => cycle_of (depends g) c
    | None => acyclic g
    end.
Proof.
  intros Hs. unfold find_cycle. set (U := list_to_set (bt_keys (nodes g)) : gset NodeId).
  destruct (search_from_ok (adjacency g) U) with (fuel := S (length (nodes g)))
    (l := bt_keys (nodes g)) (s := mk_search ∅ ∅ []) as (r & -> & Hr).
  - intros a b Hab%step_to_key. unfold U. by apply elem_of_list_to_set.
  - split_and!; [set_solver|set_solver|done|set_solver].
  - done.
  - intros b Hb. unfold U. by apply elem_of_list_to_set.
  - unfold U. rewrite size_list_to_set by by apply bt_sorted_NoDup.
    unfold bt_keys. rewrite length_fmap. lia.
  - exists r. split; [done|]. destruct r as [c|].
    + destruct Hr as (a & l & -> & Hw). exists a, l. split; [done|].
      eapply walk_impl; [|exact Hw]. intros. by apply adjacency_spec.
    + intros a Ha. apply (Acc_tc_irrefl _ a (Hr a (tc_depends_key _ _ _ Ha))). revert Ha. apply tc_impl.
      intros. by apply adjacency_spec.
Qed.

(** *** Validity *)

(** A connection is well formed: both ends exist in the right direction and
    carry the same media, its queue is bounded and not empty, and it has memory. *)
Definition edge_valid (g : EditableGraph) (e : Edge) : Prop :=
  (∃ na out nb inp,
    bt_get (ep_node (from e)) (nodes g) = Some na ∧ bt_get (ep_port (from e)) (outputs na) = Some out ∧
    bt_get (ep_node (to e)) (nodes g) = Some nb ∧ bt_get (ep_port (to e)) (inputs nb) = Some inp ∧
    out_kind out = in_kind inp) ∧
  (∃ n, queue_depth e = Bounded n ∧ n ≠ 0) ∧ memory_budget_bytes e ≠ 0.
(** The number of connections into an input port. *)
Definition fan_in (g : EditableGraph) (n : NodeId) (p : PortId) : nat :=
  length (filter (λ e, endpoint_key (to e) = (n, p)) (edges g)).

Record graph_valid (g : EditableGraph) (registry : CapabilityRegistry) : Prop := {
  valid_edges : ∀ e, e ∈ edges g → edge_valid g e;
  valid_unique : NoDup (connection_key <$> edges g);
  valid_inputs : ∀ n node p port,
    bt_get n (nodes g) = Some node → bt_get p (inputs node) = Some port →
    (minimum (cardinality port) ≤ fan_in g n p)%nat ∧
    ∀ m, maximum (cardinality port) = Some m → (fan_in g n p ≤ m)%nat;
  valid_capabilities : ∀ n node r,
    bt_get n (nodes g) = Some node → r ∈ capabilities node →
    ∃ c, registry_get (req_key r) registry = Some c ∧ satisfies c r;
  valid_acyclic : acyclic g
}.

Lemma output_kind_Ok g e index role :
  match output_kind g e index role with
  | (Some k, l) => l = [] ∧ ∃ na out, bt_get (ep_node e) (nodes g) = Some na ∧
      bt_get (ep_port e) (outputs na) = Some out ∧ out_kind out = k
  | (None, l) => l ≠ [] ∧ ∀ na, bt_get (ep_node e) (nodes g) = Some na →
      bt_get (ep_port e) (outputs na) = None
  end.
Proof.
  unfold output_kind. destruct (bt_get (ep_node e) (nodes g)) as [na|]; [|done].
  destruct (bt_get (ep_port e) (outputs na)) eqn:?; [naive_solver|].
  destruct (bt_contains _ _); naive_solver.
Qed.
Lemma input_port_Ok g e index role :
  match input_port g e index role with
  | (Some p, l) => l = [] ∧ ∃ nb, bt_get (ep_node e) (nodes g) = Some nb ∧
      bt_get (ep_port e) (inputs nb) = Some p
  | (None, l) => l ≠ [] ∧ ∀ nb, bt_get (ep_node e) (nodes g) = Some nb →
      bt_get (ep_port e) (inputs nb) = None
  end.
Proof.
  unfold input_port. destruct (bt_get (ep_node e) (nodes g)) as [nb|]; [|done].
  destruct (bt_get (ep_port e) (inputs nb)) eqn:?; [naive_solver|].
  destruct (bt_contains _ _); naive_solver.
Qed.
Lemma edge_issues_nil g index e : edge_issues g index e = [] ↔ edge_valid g e.
Proof.
  unfold edge_issues, edge_valid.
  assert (Hout := output_kind_Ok g (from e) index Source).
  assert (Hin := input_port_Ok g (to e) index Destination).
  destruct (output_kind _ _ _ _) as [[k|] l], (input_port _ _ _ _) as [[p|] l'];
    rewrite !app_nil; [|split; [naive_solver|]..].
  2-4: intros ((na & out & nb & inp & Ha & Hpa & Hb & Hpb & _) & _); naive_solver.
  destruct Hout as (-> & na & out & Ha & Hpa & <-), Hin as (-> & nb & Hb & Hpb).
  destruct (queue_depth e) as [n|]; repeat case_decide; naive_solver.
Qed.

Lemma validate_edges_from_nil g index seen l :
  validate_edges_from g index seen l = [] ↔
  (∀ e, e ∈ l → edge_valid g e) ∧ NoDup (connection_key <$> l) ∧
  ∀ e, e ∈ l → bt_get (connection_key e) seen = None.
Proof.
  revert index seen. induction l as [|e l IH]; intros index seen; simpl.
  { split; [|done]. intros _. split_and!; [set_solver|constructor|set_solver]. }
  rewrite !app_nil, edge_issues_nil, IH, NoDup_cons, list_elem_of_fmap.
  setoid_rewrite bt_get_insert. setoid_rewrite elem_of_cons. split.
  - intros (Hdup & He & Hl & Hnd & Hseen). split_and!; [naive_solver|..|done|].
    + intros (e' & Hkey & Hin). specialize (Hseen e' Hin). by rewrite decide_True in Hseen.
    + intros e' [->|Hin]; [by destruct (bt_get (connection_key e) seen)|].
      specialize (Hseen e' Hin). by case_decide.
  - intros (Hl & [Hnew Hnd] & Hseen). rewrite Hseen by by left. split_and!; [done|naive_solver..|].
    intros e' Hin. rewrite decide_False by (intros Hkey; apply Hnew; by exists e'). naive_solver.
Qed.

Lemma count_connections_get g n p nb inp :
  bt_get n (nodes g) = Some nb → bt_get p (inputs nb) = Some inp →
  from_option id 0%nat (bt_get (n, p) (count_connections g)) = fan_in g n p.
Proof.
  intros Hn Hp. unfold count_connections, fan_in.
  match goal with |- from_option _ _ (bt_get _ (foldl ?f _ _)) = _ => set (step := f) end.
  assert (∀ l m, from_option id 0%nat (bt_get (n, p) (foldl step m l)) =
    from_option id 0%nat (bt_get (n, p) m) +
    length (filter (λ e, endpoint_key (to e) = (n, p)) l))%nat as ->; [|done].
  induction l as [|e l IH]; intros m; [simpl; lia|]. rewrite filter_cons. cbn [foldl]. rewrite IH.
  unfold step. destruct (decide (endpoint_key (to e) = (n, p))) as [Heq|Hne].
  - assert (reaches_input g e = true) as ->.
    { unfold endpoint_key in Heq. injection Heq as Hen Hep. unfold reaches_input, bt_contains.
      rewrite Hen, Hep, Hn, Hp. by apply bool_decide_eq_true. }
    rewrite Heq, bt_get_insert_eq. simpl. lia.
  - destruct (reaches_input g e); [|done]. by rewrite bt_get_insert_ne.
Qed.

Lemma accepts_spec c n :
  accepts c n = true ↔ (minimum c ≤ n)%nat ∧ ∀ m, maximum c = Some m → (n ≤ m)%nat.
Proof.
  unfold accepts. rewrite andb_true_iff, bool_decide_eq_true.
  destruct (maximum c) as [m|]; [rewrite bool_decide_eq_true|]; naive_solver.
Qed.

Lemma validate_inputs_nil g : graph_wf g →
  validate_inputs g = [] ↔ ∀ n node p port,
    bt_get n (nodes g) = Some node → bt_get p (inputs node) = Some port →
    (minimum (cardinality port) ≤ fan_in g n p)%nat ∧
    ∀ m, maximum (cardinality port) = Some m → (fan_in g n p ≤ m)%nat.
Proof.
  intros [Hs Hwf]. unfold validate_inputs. rewrite bind_nil. split.
  - intros Hall n node p port Hn Hp. rewrite <-accepts_spec.
    specialize (Hall (n, node) (bt_get_elem _ _ _ Hn)). rewrite bind_nil in Hall.
    specialize (Hall (p, port) (bt_get_elem _ _ _ Hp)). simpl in Hall.
    rewrite (count_connections_get g n p node port) in Hall by done. by destruct (accepts _ _).
  - intros Hall [n node] Hn%bt_elem_get; [|done]. rewrite bind_nil. intros [p port] Hp; simpl in *.
    apply bt_elem_get in Hp; [|by apply (Hwf n node)].
    rewrite (count_connections_get g n p node port) by done.
    assert (accepts (cardinality port) (fan_in g n p) = true) as -> by by apply accepts_spec, (Hall n node p port).
    done.
Qed.
Lemma validate_capabilities_nil g registry : bt_sorted (nodes g) →
  validate_capabilities g registry = [] ↔ ∀ n node r,
    bt_get n (nodes g) = Some node → r ∈ capabilities node →
    ∃ c, registry_get (req_key r) registry = Some c ∧ satisfies c r.
Proof.
  intros Hs. unfold validate_capabilities. rewrite bind_nil.
  assert (∀ n node, bt_get n (nodes g) = Some node ↔ (n, node) ∈ nodes g) as Hget
    by (intros; by apply bt_get_Some).
  setoid_rewrite Hget. split.
  - intros Hall n node r Hn Hr. specialize (Hall _ Hn). simpl in Hall.
    revert r Hr. apply is_compatible_spec. by destruct (is_compatible _).
  - intros Hall [n node] Hn. simpl.
    rewrite (proj2 (is_compatible_spec registry (capabilities node))); [done|]. eauto.
Qed.

Lemma graph_evaluate_ok g registry : graph_wf g →
  ∃ v, graph_evaluate g registry = Some v ∧ (is_valid v = true ↔ graph_valid g registry).
Proof.
  intros Hwf. unfold graph_evaluate.
  destruct (find_cycle_ok g (proj1 Hwf)) as (r & -> & Hr). simpl.
  eexists. split; [done|]. unfold is_valid. simpl.
  set (l1 := validate_edges g). set (l2 := validate_inputs g).
  set (l3 := validate_capabilities g registry). set (l4 := option_list (Cycle <$> r)).
  assert (l1 = [] ↔ (∀ e, e ∈ edges g → edge_valid g e) ∧ NoDup (connection_key <$> edges g)) as H1.
  { unfold l1, validate_edges. rewrite validate_edges_from_nil. naive_solver. }
  assert (l2 = [] ↔ _) as H2 by exact (validate_inputs_nil g Hwf).
  assert (l3 = [] ↔ _) as H3 by exact (validate_capabilities_nil g registry (proj1 Hwf)).
  assert (l4 = [] ↔ acyclic g) as H4.
  { unfold l4. destruct r as [c|]; simpl; [|done]. split; [done|].
    intros Ha. destruct (cycle_of_tc _ _ Hr) as (a & _ & Hac). by destruct (Ha a). }
  transitivity (l1 = [] ∧ l2 = [] ∧ l3 = [] ∧ l4 = []).
  { rewrite <-!app_nil. by destruct (l1 ++ l2 ++ l3 ++ l4). }
  rewrite H1, H2, H3, H4. split; [|by intros []].
  intros ([? ?] & ? & ? & ?). by constructor.
Qed.

(** Building a graph through [add_node] keeps it well formed. *)
Lemma add_node_wf node g :
  graph_wf g → bt_sorted (inputs node) → graph_wf (add_node node g).1.
Proof.
  intros [Hs Hwf] Hin. unfold add_node, st_get, mbind, stm_bind. cbn beta iota.
  destruct (bt_contains (node_id node) (nodes g)); [by split|]. split; simpl.
  - by apply bt_insert_sorted.
  - intros k n. rewrite bt_get_insert. case_decide; [|apply Hwf]. intros [= <-]. by subst.
Qed.
Lemma connect_wf e g : graph_wf g → graph_wf (connect e g).
Proof. done. Qed.
Lemma graph_new_wf : graph_wf graph_new.
Proof. by split; [apply bt_sorted_nil|]. Qed.

(** ** Theorems *)

(** A camera and a mixer that feed a program output, and a monitor that feeds
    the mixer back. *)
Definition ex_node (id : NodeId) (ins outs : list PortId) (policy : CyclePolicy) : Node :=
  mk_node id "test.node" (bt_of_list ((λ p, (p, mk_input p Video MANY)) <$> ins))
    (bt_of_list ((λ p, (p, mk_output p Video)) <$> outs)) [] (mk_cost 1 2 3) policy.
Definition ex_edge (a b : NodeId) : Edge := edge_new (mk_endpoint a "out") (mk_endpoint b "in").
Definition ex_graph (policy : CyclePolicy) : EditableGraph :=
  connect (ex_edge "monitor" "mixer") (connect (ex_edge "mixer" "monitor")
    (connect (ex_edge "camera" "mixer")
      (add_node (ex_node "monitor" ["in"] ["out"] policy)
        (add_node (ex_node "mixer" ["in"] ["out"] Reject)
          (add_node (ex_node "camera" [] ["out"] Reject) graph_new).1).1).1)).
Lemma ex_graph_wf policy : graph_wf (ex_graph policy).
Proof.
  apply connect_wf, connect_wf, connect_wf.
  apply add_node_wf; [apply add_node_wf; [apply add_node_wf; [apply graph_new_wf|]|]|];
    apply bt_of_list_sorted.
Qed.

(** C37: The cycle search is exact.  On every graph it ends, with recursion no
    deeper than the number of nodes and one; the path it reports is a closed
    walk of same-tick dependencies, and when it reports none no node depends
    on itself, directly or through others.  Feedback through a node that breaks
    cycles is no dependency. *)
Theorem find_cycle_exact g (Hwf : graph_wf g) :
  ∃ r, find_cycle g = Some r ∧
    match r with
    | Some c => cycle_of (depends g) c
    | None => acyclic g
    end.
Proof. by apply find_cycle_ok, Hwf. Qed.
Lemma find_cycle_exact_witness :
  find_cycle (ex_graph Reject) = Some (Some ["mixer"; "monitor"; "mixer"]%string) ∧
  find_cycle (ex_graph BreaksCycle) = Some None ∧ acyclic (ex_graph BreaksCycle).
Proof.
  split; [by vm_compute|]. split; [by vm_compute|].
  destruct (find_cycle_exact (ex_graph BreaksCycle) (ex_graph_wf _)) as (r & Hr & Hspec).
  by replace (find_cycle (ex_graph BreaksCycle)) with (Some (None : option (list NodeId))) in Hr
    by (by vm_compute); simplify_eq.
Defined.

(** Validation is sound and complete.  It reports no issue exactly when
    every edge joins an output to an input of the same media through a bounded,
    nonempty queue with memory, no connection is repeated, every input has as many
    connections as its cardinality allows, every capability requirement is met
    by the registry, and no node depends on itself within a tick. *)
Theorem validation_exact g registry (Hwf : graph_wf g) :
  ∃ v, graph_evaluate g registry = Some v ∧ (is_valid v = true ↔ graph_valid g registry).
Proof. by apply graph_evaluate_ok. Qed.
Lemma validation_exact_witness :
  graph_valid (ex_graph BreaksCycle) [] ∧ ¬ graph_valid (ex_graph Reject) [].
Proof.
  split.
  - destruct (validation_exact (ex_graph BreaksCycle) [] (ex_graph_wf _)) as (v & Hv & <-).
    by vm_compute in Hv; simplify_eq.
  - destruct (validation_exact (ex_graph Reject) [] (ex_graph_wf _)) as (v & Hv & <-).
    by vm_compute in Hv; simplify_eq.
Defined.
