(* ===== verification/GraphPlan.v ===== *)
(** Execution plans, [crates/media/fm-graph/src/plan.rs]: the resources of a
    graph, the order its nodes run in, the report of the decisions and the
    compilation that produces them together.

    A [BTreeSet] is an increasing list, so [pop_first] takes its head.
    [topological_order] and the [expect]s it relies on are partial: [None] is a
    panic, or a loop whose fuel ran out. *)
From S2P Require Import Prelude BTree Capabilities Graph.
From stdpp Require Import pretty.
#[local] Open Scope Z_scope.

(** ** Resources *)

Record ResourceBudget := mk_budget {
  max_nodes : Z; max_edges : Z; max_cpu_units : Z;
  max_gpu_bytes : Z; max_memory_bytes : Z; max_queue_frames : Z
}.
Record ResourceUsage := mk_usage {
  used_nodes : Z; used_edges : Z; used_cpu_units : Z;
  used_gpu_bytes : Z; used_memory_bytes : Z; used_queue_frames : Z
}.

Definition add_node_usage (usage : ResourceUsage) (node : Node) : ResourceUsage :=
  mk_usage (used_nodes usage) (used_edges usage)
    (saturating U64 (used_cpu_units usage + cpu_units (resources node)))
    (saturating U64 (used_gpu_bytes usage + gpu_bytes (resources node)))
    (used_memory_bytes usage)
    (saturating U64 (used_queue_frames usage + queue_frames (resources node))).
Definition add_edge_usage (usage : ResourceUsage) (edge : Edge) : ResourceUsage :=
  mk_usage (used_nodes usage) (used_edges usage) (used_cpu_units usage) (used_gpu_bytes usage)
    (saturating U64 (used_memory_bytes usage + memory_budget_bytes edge))
    match queue_depth edge with
    | Bounded depth => saturating U64 (used_queue_frames usage + depth)
    | Unbounded => used_queue_frames usage
    end.
Definition measure (graph : EditableGraph) : ResourceUsage :=
  let usage := mk_usage
    (default (ty_max U64) (checked U64 (Z.of_nat (length (nodes graph)))))
    (default (ty_max U64) (checked U64 (Z.of_nat (length (edges graph))))) 0 0 0 0 in
  foldl add_edge_usage (foldl add_node_usage usage (bt_values (nodes graph))) (edges graph).

Inductive ResourceKind := KNodes | KEdges | KCpuUnits | KGpuBytes | KMemoryBytes | KQueueFrames.
Record BudgetExceeded := mk_exceeded { resource : ResourceKind; required : Z; available : Z }.
Definition exceeded_by (self : ResourceBudget) (usage : ResourceUsage) : list BudgetExceeded :=
  omap (λ p : ResourceKind * Z * Z,
    let '(resource, required, available) := p in
    if decide (available < required) then Some (mk_exceeded resource required available) else None)
    [(KNodes, used_nodes usage, max_nodes self);
     (KEdges, used_edges usage, max_edges self);
     (KCpuUnits, used_cpu_units usage, max_cpu_units self);
     (KGpuBytes, used_gpu_bytes usage, max_gpu_bytes self);
     (KMemoryBytes, used_memory_bytes usage, max_memory_bytes self);
     (KQueueFrames, used_queue_frames usage, max_queue_frames self)].

Inductive CompileError :=
  | InvalidGraph (validation : GraphValidation)
  | BudgetExceededError (exceeded : list BudgetExceeded).

(** ** Order *)

(** The successors of every node and the number of its unprocessed predecessors. *)
Definition add_dependency (acc : btmap NodeId (btset NodeId) * btmap NodeId Z) (edge : Edge) :
    option (btmap NodeId (btset NodeId) * btmap NodeId Z) :=
  let '(outgoing, indegree) := acc in
  let targets := from_option id [] (bt_get (ep_node (from edge)) outgoing) in
  let outgoing := bt_insert (ep_node (from edge)) (bs_insert (ep_node (to edge)) targets) outgoing in
  if decide (ep_node (to edge) ∈ targets) then Some (outgoing, indegree)
  else
    degree ← checked U64 (from_option id 0 (bt_get (ep_node (to edge)) indegree) + 1);
    Some (outgoing, bt_insert (ep_node (to edge)) degree indegree).
Fixpoint add_dependencies (acc : btmap NodeId (btset NodeId) * btmap NodeId Z) (l : list Edge) :
    option (btmap NodeId (btset NodeId) * btmap NodeId Z) :=
  match l with
  | [] => Some acc
  | edge :: l => acc ← add_dependency acc edge; add_dependencies acc l
  end.

(** The loop over the targets of a node that has run. *)
Fixpoint release_targets (targets : list NodeId) (indegree : btmap NodeId Z) (ready : btset NodeId) :
    option (btmap NodeId Z * btset NodeId) :=
  match targets with
  | [] => Some (indegree, ready)
  | target :: targets =>
      degree ← bt_get target indegree;
      degree ← checked U64 (degree - 1);
      release_targets targets (bt_insert target degree indegree)
        (if decide (degree = 0) then bs_insert target ready else ready)
  end.
Fixpoint topological_loop (outgoing : btmap NodeId (btset NodeId)) (fuel : nat)
    (indegree : btmap NodeId Z) (ready : btset NodeId) (order : list NodeId) : option (list NodeId) :=
  match fuel, ready with
  | _, [] => Some order
  | O, _ :: _ => None
  | S fuel, node :: ready =>
      '(indegree, ready) ←
        release_targets (from_option id [] (bt_get node outgoing)) indegree ready;
      topological_loop outgoing fuel indegree ready (order ++ [node])
  end.
(** Every node becomes ready at most once, so the loop runs at most once per node. *)
Definition topological_order (graph : EditableGraph) : option (list NodeId) :=
  let indegree := bt_of_list ((λ n, (n, 0)) <$> bt_keys (nodes graph)) in
  '(outgoing, indegree) ← add_dependencies ([], indegree) (dependency_edges graph);
  let ready := bs_of_list (bt_keys (filter (λ p, p.2 = 0) indegree)) in
  topological_loop outgoing (length (nodes graph)) indegree ready [].

(** ** Report *)

Record CapabilityChoice := mk_choice {
  choice_node : NodeId;
  capability : CapabilityKey;
  choice_provider : StableId;
  choice_version : ProviderVersion
}.
(** The derived order. *)
Definition choice_key (c : CapabilityChoice) : ((NodeId * CapabilityKey) * (StableId * ProviderVersion)) :=
  ((choice_node c, capability c), (choice_provider c, choice_version c)).
Definition choice_le (c d : CapabilityChoice) : Prop := key_le (choice_key c) (choice_key d).
#[global] Instance choice_le_dec : RelDecision choice_le.
Proof. unfold choice_le. intros c d. apply _. Defined.

Record PlanReport := mk_report {
  text : string;
  node_order : list NodeId;
  capability_choices : list CapabilityChoice;
  report_edges : list Edge;
  report_usage : ResourceUsage;
  validation_failures : list ValidationIssue
}.
Definition overflow_policy_name (policy : OverflowPolicy) : string :=
  match policy with
  | Block => "block"
  | DropNewest => "drop-newest"
  | DropOldest => "drop-oldest"
  end.

Definition newline : string := String (Ascii.ascii_of_nat 10) EmptyString.
Definition line (parts : list string) : string := String.concat "" parts +:+ newline.
Definition node_line (index : nat) (node : Node) : string :=
  line ["  "; pretty index; ": "; node_id node; " ("; node_kind node; ")"]%string.
Definition choice_line (choice : CapabilityChoice) : string :=
  line ["  "; choice_node choice; ": "; capability choice; " -> "; choice_provider choice; "@";
    choice_version choice]%string.
Definition edge_line (edge : Edge) : string :=
  let depth := match queue_depth edge with
               | Bounded depth => pretty depth
               | Unbounded => "unbounded"%string
               end in
  line ["  "; ep_node (from edge); "."; ep_port (from edge); " -> "; ep_node (to edge); ".";
    ep_port (to edge); ": depth="; depth; ", overflow=";
    overflow_policy_name (overflow_policy edge); ", memory_budget_bytes=";
    pretty (memory_budget_bytes edge)]%string.

Definition choices (registry : CapabilityRegistry) (nodes : list Node) : list CapabilityChoice :=
  nodes ≫= λ node,
    omap (λ requirement,
      capability ← registry_get (req_key requirement) registry;
      Some (mk_choice (node_id node) (req_key requirement) (provider_id (provider capability))
              (provider_version (provider capability))))
      (capabilities node).
Definition report_build (nodes : list Node) (edges : list Edge) (registry : CapabilityRegistry)
    (usage : ResourceUsage) : PlanReport :=
  let node_order := node_id <$> nodes in
  let capability_choices := merge_sort choice_le (choices registry nodes) in
  let text := String.concat "" (
    ["Execution plan report" +:+ newline; "Validation failures: none" +:+ newline;
     line ["Node order ("; pretty (length nodes); "):"]]%string ++
    imap node_line nodes ++
    [line ["Capability choices ("; pretty (length capability_choices); "):"]]%string ++
    (choice_line <$> capability_choices) ++
    [line ["Edges ("; pretty (length edges); "):"]]%string ++
    (edge_line <$> edges) ++
    [line ["Aggregate usage: nodes="; pretty (used_nodes usage); ", edges=";
       pretty (used_edges usage); ", cpu_units="; pretty (used_cpu_units usage); ", gpu_bytes=";
       pretty (used_gpu_bytes usage); ", memory_bytes="; pretty (used_memory_bytes usage);
       ", queue_frames="; pretty (used_queue_frames usage)]]%string) in
  mk_report text node_order capability_choices edges usage [].

(** ** Compilation *)

Record ExecutionPlan := mk_plan {
  plan_nodes : list Node;
  plan_edges : list Edge;
  plan_usage : ResourceUsage;
  plan_report : PlanReport
}.
(** The outer option is the partiality of the validation and of the order. *)
Definition compile_with_report (graph : EditableGraph) (registry : CapabilityRegistry)
    (budget : ResourceBudget) : option (result CompileError (ExecutionPlan * PlanReport)) :=
  validation ← graph_evaluate graph registry;
  if negb (is_valid validation) then Some (Err (InvalidGraph validation))
  else
    let usage := measure graph in
    let exceeded := exceeded_by budget usage in
    match exceeded with
    | _ :: _ => Some (Err (BudgetExceededError exceeded))
    | [] =>
        order ← topological_order graph;
        ordered ← mapM (λ id, bt_get id (nodes graph)) order;
        let unique := unique_edges graph in
        let report := report_build ordered unique registry usage in
        Some (Ok (mk_plan ordered unique usage report, report))
    end.
Definition compile (graph : EditableGraph) (registry : CapabilityRegistry) (budget : ResourceBudget) :
    option (result CompileError ExecutionPlan) :=
  r ← compile_with_report graph registry budget;
  Some match r with
       | Ok (plan, _) => Ok plan
       | Err e => Err e
       end.

(** ** Properties of the order *)

Lemma filter_length_remove {A} (P P' : A → Prop) `{∀ x, Decision (P x)} `{∀ x, Decision (P' x)}
    (l : list A) x :
  NoDup l → x ∈ l → P x → (∀ a, P' a ↔ P a ∧ a ≠ x) →
  length (filter P l) = S (length (filter P' l)).
Proof.
  intros Hnd Hx HP HP'. induction Hnd as [|a l Ha Hnd IH]; [by apply elem_of_nil in Hx|].
  rewrite !filter_cons. apply elem_of_cons in Hx as [->|Hx].
  - rewrite decide_True by done. rewrite decide_False by naive_solver. simpl. do 2 f_equal.
    apply list_filter_iff_elem. intros b Hb. rewrite HP'. split; [|naive_solver].
    intros ?. split; [done|]. by intros ->.
  - destruct (decide (P a)), (decide (P' a)); simpl; rewrite ?IH by done; [done| |naive_solver|done].
    assert (a ≠ x) by (by intros ->). naive_solver.
Qed.

Lemma walk_app_l {A} (R : relation A) l l' : walk R (l ++ l') → walk R l.
Proof.
  induction l as [|a [|b l] IH]; [done|by intros; split|]. intros [? Hl]. split; [done|by apply IH].
Qed.
Lemma walk_NoDup {A} (R : relation A) l : (∀ a, ¬ tc R a a) → walk R l → NoDup l.
Proof.
  intros Hirr. induction l as [|a l IH]; intros Hw; constructor.
  - intros (l1 & l2 & ->)%list_elem_of_split. apply (Hirr a), (walk_tc R a l1 a).
    apply (walk_app_l R _ l2). by rewrite <-app_comm_cons, <-app_assoc.
  - apply IH, Hw.
Qed.

(** [a] comes before [b]. *)
Definition precedes {A} (l : list A) (a b : A) : Prop := ∃ l1 l2 l3, l = l1 ++ a :: l2 ++ b :: l3.

Section order.
Context (outgoing : btmap NodeId (btset NodeId)) (K : list NodeId).
Definition out (a : NodeId) : btset NodeId := from_option id [] (bt_get a outgoing).
Definition edge_to (a b : NodeId) : Prop := b ∈ out a.
Hypothesis K_NoDup : NoDup K.
Hypothesis out_NoDup : ∀ a, NoDup (out a).
Hypothesis out_closed : ∀ a b, edge_to a b → a ∈ K ∧ b ∈ K.

(** The number of predecessors of a node that have not run. *)
Definition waits (order : list NodeId) (b : NodeId) : nat :=
  length (filter (λ a, (a ∉ order) ∧ b ∈ out a) K).

Lemma waits_0 order b : waits order b = 0%nat ↔ ∀ a, edge_to a b → a ∈ order.
Proof.
  unfold waits. rewrite length_zero_iff_nil. split.
  - intros Hnil a Hab. destruct (decide (a ∈ order)); [done|]. exfalso.
    assert (a ∈ filter (λ a, (a ∉ order) ∧ b ∈ out a) K) as Hin.
    { rewrite list_elem_of_filter. split_and!; [done..|]. by apply (out_closed a b). }
    rewrite Hnil in Hin. by apply elem_of_nil in Hin.
  - intros Hall. apply filter_none. intros a _ [Hnot Hb]. by apply Hnot, Hall.
Qed.
Lemma waits_step order node b : node ∈ K → node ∉ order →
  waits order b = if decide (b ∈ out node) then S (waits (order ++ [node]) b)
                  else waits (order ++ [node]) b.
Proof.
  intros HK Hnew. unfold waits. case_decide as Hb.
  - apply filter_length_remove with node; [done..|]. intros a. set_solver.
  - f_equal. apply list_filter_iff_elem. intros a _. set_solver.
Qed.
Lemma waits_anti order order' b : (∀ a, a ∈ order → a ∈ order') → (waits order' b ≤ waits order b)%nat.
Proof.
  intros Hsub. unfold waits. apply submseteq_length, NoDup_submseteq; [by apply NoDup_filter|].
  intros a. rewrite !list_elem_of_filter. naive_solver.
Qed.

Lemma release_targets_ok targets indegree ready :
  NoDup targets → bs_sorted ready →
  (∀ t, t ∈ targets → ∃ d, bt_get t indegree = Some d ∧ 0 < d ≤ ty_max U64) →
  ∃ indegree' ready', release_targets targets indegree ready = Some (indegree', ready') ∧
    bs_sorted ready' ∧
    (∀ k, bt_get k indegree' =
      if decide (k ∈ targets) then Z.pred <$> bt_get k indegree else bt_get k indegree) ∧
    (∀ k, k ∈ ready' ↔ k ∈ ready ∨ k ∈ targets ∧ bt_get k indegree = Some 1).
Proof.
  intros Hnd. revert indegree ready. induction Hnd as [|t targets Ht Hnd IH]; intros indegree ready Hs Hd.
  { exists indegree, ready. split_and!; [done..|]. set_solver. }
  destruct (Hd t ltac:(by left)) as (d & Hget & Hpos).
  cbn [release_targets]. rewrite Hget. cbn [mbind option_bind].
  rewrite checked_in by (int_lia). cbn [mbind option_bind].
  set (ready1 := if decide (d - 1 = 0) then bs_insert t ready else ready).
  destruct (IH (bt_insert t (d - 1) indegree) ready1) as (indegree' & ready' & -> & Hs' & Hget' & Hready').
  - unfold ready1. case_decide; [by apply bs_insert_sorted|done].
  - intros t' Ht'. rewrite bt_get_insert_ne by set_solver. apply Hd. by right.
  - exists indegree', ready'. split_and!; [done..| |].
    + intros k. rewrite Hget', bt_get_insert. destruct (decide (t = k)) as [<-|Hne].
      * rewrite decide_False by done. rewrite decide_True by by left. by rewrite Hget.
      * destruct (decide (k ∈ targets)), (decide (k ∈ t :: targets)); set_solver.
    + intros k. rewrite Hready', bt_get_insert. unfold ready1.
      destruct (decide (t = k)) as [<-|Hne].
      * rewrite Hget. case_decide; [rewrite elem_of_bs_insert|].
        -- assert (d = 1) as -> by lia. set_solver.
        -- assert (d ≠ 1) by lia. naive_solver set_solver.
      * case_decide; rewrite ?elem_of_bs_insert; set_solver.
Qed.

Record topo_inv (order : list NodeId) (indegree : btmap NodeId Z) (ready : btset NodeId) : Prop := {
  ti_order : NoDup order;
  ti_nodes : ∀ b, b ∈ order → b ∈ K;
  ti_degree : ∀ b, b ∈ K → bt_get b indegree = Some (Z.of_nat (waits order b));
  ti_ready : ∀ b, b ∈ ready ↔ b ∈ K ∧ (b ∉ order) ∧ waits order b = 0%nat;
  ti_sorted : bs_sorted ready;
  ti_before : ∀ l1 b l2, order = l1 ++ b :: l2 → ∀ a, edge_to a b → a ∈ l1
}.
Hypothesis waits_max : ∀ b, Z.of_nat (waits [] b) ≤ ty_max U64.

Lemma topo_step order indegree node ready :
  topo_inv order indegree (node :: ready) →
  ∃ indegree' ready', release_targets (out node) indegree ready = Some (indegree', ready') ∧
    topo_inv (order ++ [node]) indegree' ready'.
Proof.
  intros [Hnd HK Hdeg Hready Hs Hbefore].
  destruct (proj1 (Hready node) ltac:(by left)) as (HnK & Hnew & H0).
  assert (bs_sorted ready ∧ node ∉ ready) as [Hs1 Hnr].
  { split; [by apply StronglySorted_inv in Hs as [??]|].
    apply StronglySorted_key_NoDup in Hs. by apply NoDup_cons in Hs as [??]. }
  assert (Hstep := λ b, waits_step order node b HnK Hnew).
  destruct (release_targets_ok (out node) indegree ready) as (i' & r' & -> & Hs' & Hi' & Hr').
  - apply out_NoDup.
  - done.
  - intros t Ht. exists (Z.of_nat (waits order t)). split; [by apply Hdeg, (out_closed node t)|].
    specialize (Hstep t). rewrite decide_True in Hstep by done.
    assert (waits order t ≤ waits [] t)%nat by (apply waits_anti; set_solver).
    specialize (waits_max t). lia.
  - exists i', r'. split; [done|]. split.
    + apply NoDup_app. split_and!; [done|set_solver|apply NoDup_singleton].
    + set_solver.
    + intros b Hb. rewrite Hi', Hdeg, Hstep by done. case_decide; simpl; f_equal; lia.
    + intros b. rewrite Hr'. specialize (Hstep b). specialize (Hdeg b). specialize (Hready b).
      assert (b ∈ out node → b ∈ K) by (intros; by apply (out_closed node b)).
      assert (node ∈ out node → False).
      { intros Hself. rewrite waits_0 in H0. by apply Hnew, H0. }
      rewrite elem_of_cons in Hready. rewrite elem_of_app, list_elem_of_singleton.
      destruct (decide (b = node)) as [->|Hbn].
      { split; [|tauto]. intros [?|[? _]]; [by destruct Hnr|by exfalso; auto]. }
      assert (b ∈ out node → b ∉ order).
      { intros Ho Hbo. apply list_elem_of_split in Hbo as (l1 & l2 & ->).
        specialize (Hbefore l1 b l2 eq_refl node Ho). set_solver. }
      case_decide as Hout.
      * split.
        -- intros [Hbr|[_ Hone]]; [assert (waits order b = 0%nat) by tauto; lia|].
           rewrite Hdeg in Hone by auto. injection Hone as Hone.
           split_and!; [auto|intros [?|?]; tauto|lia].
        -- intros (HbK & _ & Hw). right. split; [done|]. rewrite Hdeg by done. f_equal. lia.
      * rewrite Hstep in Hready. tauto.
    + done.
    + intros l1 b l2 Hsplit a Hab. destruct l2 as [|c l2 _] using rev_ind.
      * apply app_inj_tail in Hsplit as [<- <-]. by apply waits_0 with node.
      * rewrite app_comm_cons, app_assoc in Hsplit. apply app_inj_tail in Hsplit as [-> ->]. eauto.
Qed.

Lemma topo_loop_ok fuel order indegree ready :
  topo_inv order indegree ready → (length K ≤ fuel + length order)%nat →
  ∃ order' indegree', topological_loop outgoing fuel indegree ready order = Some order' ∧
    topo_inv order' indegree' [].
Proof.
  revert order indegree ready. induction fuel as [|fuel IH]; intros order indegree [|node ready] Hinv Hfuel.
  1, 3: by exists order, indegree.
  - exfalso. destruct (topo_step _ _ _ _ Hinv) as (? & ? & _ & [Hnd HK _ _ _ _]).
    assert (length (order ++ [node]) ≤ length K)%nat as Hlen
      by by apply submseteq_length, NoDup_submseteq.
    rewrite length_app in Hlen. simpl in *. lia.
  - destruct (topo_step _ _ _ _ Hinv) as (i' & r' & Hrel & Hinv').
    cbn [topological_loop]. unfold out in Hrel. rewrite Hrel. cbn [mbind option_bind].
    apply IH; [done|]. rewrite length_app. simpl. lia.
Qed.

(** When no node is ready, all have run. *)
Lemma topo_complete order indegree :
  (∀ a, ¬ tc edge_to a a) → topo_inv order indegree [] → ∀ b, b ∈ K → b ∈ order.
Proof.
  intros Hirr [Hnd HK Hdeg Hready _ _] b Hb. destruct (decide (b ∈ order)) as [|Hout]; [done|]. exfalso.
  assert (Hpred : ∀ b, b ∈ K → b ∉ order → ∃ a, a ∈ K ∧ (a ∉ order) ∧ edge_to a b).
  { intros c Hc Hco. destruct (filter (λ a, (a ∉ order) ∧ c ∈ out a) K) as [|a l] eqn:Hf.
    - specialize (proj2 (Hready c)). unfold waits. rewrite Hf. set_solver.
    - assert (a ∈ filter (λ a, (a ∉ order) ∧ c ∈ out a) K) as Ha by (rewrite Hf; by left).
      apply list_elem_of_filter in Ha as [[??]?]. by exists a. }
  assert (Hchain : ∀ n, ∃ a l, length l = n ∧ walk edge_to (a :: l) ∧
    ∀ x, x ∈ a :: l → x ∈ K ∧ x ∉ order).
  { induction n as [|n (a & l & Hl & Hw & Hin)].
    - exists b, []. split_and!; [done..|]. by intros x ->%list_elem_of_singleton.
    - destruct (Hpred a) as (c & HcK & Hco & Hca); [apply Hin; by left..|].
      exists c, (a :: l). split_and!; [simpl; lia|done|]. intros x [->|Hx]%elem_of_cons; auto. }
  destruct (Hchain (length K)) as (a & l & Hl & Hw & Hin).
  apply walk_NoDup in Hw; [|done].
  assert (length (a :: l) ≤ length K)%nat; [|simpl in *; lia].
  apply submseteq_length, NoDup_submseteq; [done|]. intros x Hx. by apply Hin.
Qed.
End order.

(** *** The dependencies *)

Section dependencies.
Context (K : list NodeId).
Hypothesis K_NoDup : NoDup K.

(** [add_dependencies] after the edges [l]: the successors are the targets of
    the edges, and a degree counts the nodes with an edge to its node. *)
Record deps_inv (l : list Edge) (outgoing : btmap NodeId (btset NodeId))
    (indegree : btmap NodeId Z) : Prop := {
  di_out : ∀ a b, edge_to outgoing a b ↔ ∃ e, e ∈ l ∧ ep_node (from e) = a ∧ ep_node (to e) = b;
  di_sorted : ∀ a, bs_sorted (out outgoing a);
  di_degree : ∀ b, b ∈ K → bt_get b indegree = Some (Z.of_nat (waits outgoing K [] b));
  di_keys : ∀ b, b ∈ bt_keys indegree → b ∈ K;
  di_index : bt_sorted indegree;
  di_bound : ∀ b, (waits outgoing K [] b ≤ length l)%nat
}.

Lemma add_dependency_ok l outgoing indegree e :
  deps_inv l outgoing indegree → ep_node (from e) ∈ K → ep_node (to e) ∈ K →
  Z.of_nat (length l) < ty_max U64 →
  ∃ outgoing' indegree', add_dependency (outgoing, indegree) e = Some (outgoing', indegree') ∧
    deps_inv (l ++ [e]) outgoing' indegree'.
Proof.
  intros [Hout Hs Hdeg Hkeys Hi Hbound] Hfrom Hto Hmax. unfold add_dependency.
  set (a := ep_node (from e)) in *. set (t := ep_node (to e)) in *.
  change (from_option id [] (bt_get a outgoing)) with (out outgoing a).
  set (outgoing' := bt_insert a (bs_insert t (out outgoing a)) outgoing).
  assert (Hout' : ∀ x y, edge_to outgoing' x y ↔ edge_to outgoing x y ∨ x = a ∧ y = t).
  { intros x y. unfold edge_to, out at 1, outgoing'. rewrite bt_get_insert. case_decide as Hx; simpl.
    - subst x. rewrite elem_of_bs_insert. unfold out. tauto.
    - unfold out. naive_solver. }
  assert (Hdi_out : ∀ x y, edge_to outgoing' x y ↔
    ∃ e', e' ∈ l ++ [e] ∧ ep_node (from e') = x ∧ ep_node (to e') = y).
  { intros x y. rewrite Hout', Hout. setoid_rewrite elem_of_app.
    setoid_rewrite list_elem_of_singleton. unfold a, t. naive_solver. }
  assert (Hdi_sorted : ∀ x, bs_sorted (out outgoing' x)).
  { intros x. unfold out, outgoing'. rewrite bt_get_insert. case_decide; [|apply Hs].
    simpl. apply bs_insert_sorted, Hs. }
  case_decide as Hold.
  - assert (Hw : ∀ b, waits outgoing' K [] b = waits outgoing K [] b).
    { intros b. unfold waits. f_equal. apply list_filter_iff_elem. intros x _.
      specialize (Hout' x b). unfold edge_to in *. naive_solver. }
    exists outgoing', indegree. split; [done|]. split; [done..| | | |].
    + intros b Hb. rewrite Hw. by apply Hdeg.
    + done.
    + done.
    + intros b. rewrite Hw, length_app. specialize (Hbound b). lia.
  - assert (Hw : ∀ b, waits outgoing' K [] b =
      (if decide (b = t) then S (waits outgoing K [] b) else waits outgoing K [] b)).
    { intros b. unfold waits. case_decide as Hb.
      - subst b. apply filter_length_remove with a; [done..| |].
        + split; [apply not_elem_of_nil|]. apply Hout'. by right.
        + intros x. specialize (Hout' x t). unfold edge_to in *. destruct (decide (x = a)); naive_solver.
      - f_equal. apply list_filter_iff_elem. intros x _. specialize (Hout' x b).
        unfold edge_to in *. naive_solver. }
    rewrite (Hdeg t Hto). cbn [from_option id].
    rewrite checked_in by (specialize (Hbound t); split; [change (ty_min U64) with 0; lia|lia]).
    cbn [mbind option_bind].
    eexists outgoing', _. split; [done|]. split; [done..| | | |].
    + intros b Hb. rewrite Hw, bt_get_insert.
      destruct (decide (t = b)) as [<-|Hne]; [rewrite decide_True by done|rewrite decide_False by done].
      * f_equal. lia.
      * by apply Hdeg.
    + intros b. rewrite bt_keys_insert. intros [->|?]; auto.
    + by apply bt_insert_sorted.
    + intros b. rewrite Hw, length_app. specialize (Hbound b). case_decide; simpl; lia.
Qed.

Lemma add_dependencies_ok l' l outgoing indegree :
  deps_inv l outgoing indegree →
  (∀ e, e ∈ l' → ep_node (from e) ∈ K ∧ ep_node (to e) ∈ K) →
  Z.of_nat (length (l ++ l')) ≤ ty_max U64 →
  ∃ outgoing' indegree', add_dependencies (outgoing, indegree) l' = Some (outgoing', indegree') ∧
    deps_inv (l ++ l') outgoing' indegree'.
Proof.
  revert l outgoing indegree. induction l' as [|e l' IH]; intros l outgoing indegree Hinv Hends Hlen.
  { exists outgoing, indegree. by rewrite app_nil_r. }
  rewrite length_app in Hlen. cbn [length] in Hlen.
  destruct (add_dependency_ok l outgoing indegree e) as (o1 & i1 & Ho1 & Hinv1);
    [done|apply Hends; by left..|lia|].
  cbn [add_dependencies]. rewrite Ho1. cbn [mbind option_bind].
  destruct (IH (l ++ [e]) o1 i1 Hinv1) as (o2 & i2 & Ho2 & Hinv2).
  - intros e' He'. apply Hends. by right.
  - rewrite !length_app. cbn [length]. lia.
  - exists o2, i2. rewrite <-app_assoc in Hinv2. done.
Qed.
End dependencies.

Lemma bt_of_list_zero (l : list NodeId) k :
  bt_get k (bt_of_list ((λ n, (n, 0)) <$> l)) = if decide (k ∈ l) then Some 0 else None.
Proof.
  unfold bt_of_list.
  assert (∀ m : btmap NodeId Z, (∀ x z, bt_get x m = Some z → z = 0) →
    bt_get k (foldl (λ m p, bt_insert p.1 p.2 m) m ((λ n, (n, 0)) <$> l)) =
    if decide (k ∈ l) then Some 0 else bt_get k m) as Hgen; [|by apply Hgen].
  induction l as [|x l IH]; intros m Hm; [by rewrite decide_False by apply not_elem_of_nil|].
  cbn [fmap list_fmap foldl]. rewrite IH.
  - rewrite bt_get_insert. repeat case_decide; set_solver.
  - intros y z. rewrite bt_get_insert. simpl. destruct (decide (x = y)); [by intros [= <-]|apply Hm].
Qed.

(** *** The whole order *)


(** In a valid graph both ends of a dependency are nodes. *)
Lemma dependency_edges_spec g registry a b : graph_valid g registry →
  (∃ e, e ∈ dependency_edges g ∧ ep_node (from e) = a ∧ ep_node (to e) = b) ↔ depends g a b.
Proof.
  intros Hv. unfold dependency_edges, depends, is_dependency.
  setoid_rewrite list_elem_of_filter. split.
  - intros (e & [Hd He] & <- & <-).
    destruct (valid_edges _ _ Hv e He) as ((na & o & nb & i & Ha & _ & Hb & _) & _).
    rewrite Ha in Hd. exists e, na. split_and!; try done.
    + apply bool_decide_unpack in Hd. by destruct (cycle_policy na).
    + apply bt_get_is_Some. by exists nb.
  - intros (e & na & He & <- & <- & Ha & Hp & _). exists e. rewrite Ha, Hp. split_and!; [|done..].
    by apply bool_decide_pack.
Qed.

Lemma topological_order_ok g registry :
  bt_sorted (nodes g) → graph_valid g registry → Z.of_nat (length (edges g)) ≤ ty_max U64 →
  ∃ order, topological_order g = Some order ∧ order ≡ₚ bt_keys (nodes g) ∧
    ∀ a b, depends g a b → precedes order a b.
Proof.
  intros Hs Hv Hlen. unfold topological_order. set (K := bt_keys (nodes g)).
  assert (HK : NoDup K) by by apply bt_sorted_NoDup.
  assert (Hdep := λ a b, dependency_edges_spec g registry a b Hv).
  assert (Hkeys : ∀ a b, depends g a b → a ∈ K ∧ b ∈ K).
  { intros a b (e & na & _ & _ & _ & Ha & _ & Hb). split; [|done]. apply bt_get_is_Some. by exists na. }
  destruct (add_dependencies_ok K HK (dependency_edges g) [] [] (bt_of_list ((λ n, (n, 0)) <$> K)))
    as (outgoing & indegree & -> & [Hout Hsorted Hdeg Hik Hidx Hbound]).
  { assert (∀ b, waits ([] : btmap NodeId (btset NodeId)) K [] b = 0%nat) as Hw.
    { intros b. unfold waits. rewrite filter_none; [done|]. intros x _ [_ Hx].
      by apply elem_of_nil in Hx. }
    split.
    - intros a b. unfold edge_to, out. simpl. set_solver.
    - intros a. constructor.
    - intros b Hb. by rewrite bt_of_list_zero, decide_True, Hw.
    - intros b. rewrite <-bt_get_is_Some, bt_of_list_zero. case_decide; [done|]. by intros [].
    - apply bt_of_list_sorted.
    - intros b. by rewrite Hw. }
  { intros e He. apply (Hkeys _ _), Hdep. by exists e. }
  { simpl. etransitivity; [|exact Hlen]. unfold dependency_edges. apply inj_le, length_filter. }
  simpl in Hout, Hbound. cbn [mbind option_bind].
  assert (Hedge : ∀ a b, edge_to outgoing a b ↔ depends g a b) by (intros; by rewrite Hout, Hdep).
  assert (HbK : ∀ a b, edge_to outgoing a b → a ∈ K ∧ b ∈ K).
  { intros a b Hab%Hedge. by apply Hkeys. }
  assert (Hmax : ∀ b, Z.of_nat (waits outgoing K [] b) ≤ ty_max U64).
  { intros b. etransitivity; [|exact Hlen]. apply inj_le. etransitivity; [apply Hbound|].
    unfold dependency_edges. apply length_filter. }
  destruct (topo_loop_ok outgoing K HK (λ a, StronglySorted_key_NoDup _ (Hsorted a)) HbK Hmax
    (length (nodes g)) [] indegree (bs_of_list (bt_keys (filter (λ p, p.2 = 0) indegree))))
    as (order & indegree' & -> & Hinv).
  { split; [constructor|set_solver|done| |apply bs_of_list_sorted|].
    - intros b. rewrite elem_of_bs_of_list. unfold bt_keys. rewrite list_elem_of_fmap. split.
      + intros ([k z] & -> & [Hz Hin]%list_elem_of_filter). simpl in *. subst z.
        assert (k ∈ K) as Hk by (apply Hik, list_elem_of_fmap; by exists (k, 0)).
        split_and!; [done|apply not_elem_of_nil|].
        apply bt_elem_get in Hin; [|done]. rewrite Hdeg in Hin by done. injection Hin as Hin. lia.
      + intros (Hb & _ & Hw). exists (b, 0). split; [done|]. rewrite list_elem_of_filter. split; [done|].
        apply bt_get_elem. by rewrite Hdeg, Hw.
    - by intros [|? ?] ? ? ?. }
  { unfold K, bt_keys. rewrite length_fmap. simpl. lia. }
  exists order. split; [done|].
  assert (Hall : ∀ b, b ∈ K → b ∈ order).
  { apply (topo_complete outgoing K HK (λ a, StronglySorted_key_NoDup _ (Hsorted a)) HbK Hmax
      order indegree'); [|done].
    intros a Ha. apply (valid_acyclic _ _ Hv a). revert Ha. apply tc_impl. intros. by apply Hedge. }
  destruct Hinv as [Hnd Hsub _ _ _ Hbefore]. split.
  - apply NoDup_Permutation; [done..|]. intros b. split; auto.
  - intros a b Hab. destruct (list_elem_of_split order b) as (l1 & l2 & ->).
    { apply Hall. by apply (Hkeys a b). }
    assert (a ∈ l1) as (l11 & l12 & ->)%list_elem_of_split by by apply (Hbefore l1 b l2), Hedge.
    exists l11, l12, l2. by rewrite <-app_assoc.
Qed.

(** *** Resources *)

Definition total {A} (f : A → Z) (l : list A) : Z := foldr (λ x s, f x + s) 0 l.
(** The frames an edge queues. *)
Definition queue_cost (e : Edge) : Z :=
  match queue_depth e with
  | Bounded depth => depth
  | Unbounded => 0
  end.

Lemma total_nonneg {A} (f : A → Z) l : (∀ x, x ∈ l → 0 ≤ f x) → 0 ≤ total f l.
Proof.
  induction l as [|x l IH]; intros Hf; simpl; [done|].
  assert (0 ≤ f x) by (apply Hf; by left). assert (0 ≤ total f l); [|lia].
  apply IH. intros y Hy. apply Hf. by right.
Qed.
(** A field that a fold increases with saturation saturates its total. *)
Lemma saturating_fold {S A} (step : S → A → S) (g : S → Z) (f : A → Z) l s :
  (∀ s x, 0 ≤ g s ≤ ty_max U64 → x ∈ l → g (step s x) = saturating U64 (g s + f x)) →
  (∀ x, x ∈ l → 0 ≤ f x) → 0 ≤ g s ≤ ty_max U64 →
  g (foldl step s l) = Z.min (ty_max U64) (g s + total f l).
Proof.
  revert s. induction l as [|x l IH]; intros s Hstep Hf Hs; cbn [foldl total foldr]; [lia|].
  assert (Hx : 0 ≤ f x) by (apply Hf; by left).
  assert (Ht : 0 ≤ total f l) by (apply total_nonneg; intros; apply Hf; by right).
  assert (Hstep1 : g (step s x) = Z.min (ty_max U64) (g s + f x)).
  { rewrite Hstep by (done || by left). unfold saturating. change (ty_min U64) with 0. lia. }
  rewrite IH, Hstep1.
  - unfold total in *. lia.
  - intros. apply Hstep; [done|by right].
  - intros. apply Hf. by right.
  - rewrite Hstep1. lia.
Qed.
Lemma constant_fold {S A B} (step : S → A → S) (g : S → B) l s :
  (∀ s x, g (step s x) = g s) → g (foldl step s l) = g s.
Proof. intros Hstep. revert s. induction l as [|x l IH]; intros s; simpl; [done|]. by rewrite IH. Qed.

(** Costs, depths and budgets are of type [u64]. *)
Definition costs_wf (g : EditableGraph) : Prop :=
  (∀ n, n ∈ bt_values (nodes g) → in_ty U64 (cpu_units (resources n)) ∧
    in_ty U64 (gpu_bytes (resources n)) ∧ in_ty U64 (queue_frames (resources n))) ∧
  (∀ e, e ∈ edges g → in_ty U64 (queue_cost e) ∧ in_ty U64 (memory_budget_bytes e)) ∧
  Z.of_nat (length (nodes g)) ≤ ty_max U64 ∧ Z.of_nat (length (edges g)) ≤ ty_max U64.
(** A requirement fits a limit; the largest limit is no limit. *)
Definition fits (need limit : Z) : Prop := need ≤ limit ∨ ty_max U64 ≤ limit.
Definition within_budget (g : EditableGraph) (b : ResourceBudget) : Prop :=
  fits (Z.of_nat (length (nodes g))) (max_nodes b) ∧
  fits (Z.of_nat (length (edges g))) (max_edges b) ∧
  fits (total (λ n, cpu_units (resources n)) (bt_values (nodes g))) (max_cpu_units b) ∧
  fits (total (λ n, gpu_bytes (resources n)) (bt_values (nodes g))) (max_gpu_bytes b) ∧
  fits (total memory_budget_bytes (edges g)) (max_memory_bytes b) ∧
  fits (total (λ n, queue_frames (resources n)) (bt_values (nodes g)) + total queue_cost (edges g))
    (max_queue_frames b).

Lemma measure_ok g : costs_wf g →
  measure g = mk_usage (Z.of_nat (length (nodes g))) (Z.of_nat (length (edges g)))
    (Z.min (ty_max U64) (total (λ n, cpu_units (resources n)) (bt_values (nodes g))))
    (Z.min (ty_max U64) (total (λ n, gpu_bytes (resources n)) (bt_values (nodes g))))
    (Z.min (ty_max U64) (total memory_budget_bytes (edges g)))
    (Z.min (ty_max U64) (total (λ n, queue_frames (resources n)) (bt_values (nodes g)) +
      total queue_cost (edges g))).
Proof.
  intros (Hn & He & Hlen & Hlen'). unfold measure.
  rewrite !checked_in by (split; [change (ty_min U64) with 0; lia|done]). cbn [default from_option id].
  set (u0 := mk_usage _ _ _ _ _ _). set (u1 := foldl add_node_usage u0 _).
  assert (0 ≤ 0 ≤ ty_max U64) as H0 by done.
  assert (used_queue_frames u1 = Z.min (ty_max U64) (total (λ n, queue_frames (resources n))
    (bt_values (nodes g)))) as Hq1.
  { unfold u1. rewrite (saturating_fold _ used_queue_frames (λ n, queue_frames (resources n)));
      [done|done|intros x Hx; by apply Hn in Hx as (? & ? & [? _])|done]. }
  assert (0 ≤ total (λ n, queue_frames (resources n)) (bt_values (nodes g)))
    by (apply total_nonneg; intros x Hx; by apply Hn in Hx as (? & ? & [? _])).
  assert (0 ≤ total queue_cost (edges g))
    by (apply total_nonneg; intros x Hx; by apply He in Hx as [[? _] _]).
  assert (∀ u, u = mk_usage (used_nodes u) (used_edges u) (used_cpu_units u) (used_gpu_bytes u)
    (used_memory_bytes u) (used_queue_frames u)) as Heta by by intros [].
  rewrite (Heta (foldl add_edge_usage u1 (edges g))). f_equal.
  - rewrite (constant_fold _ used_nodes) by done. unfold u1. by rewrite (constant_fold _ used_nodes).
  - rewrite (constant_fold _ used_edges) by done. unfold u1. by rewrite (constant_fold _ used_edges).
  - rewrite (constant_fold _ used_cpu_units) by done. unfold u1.
    rewrite (saturating_fold _ used_cpu_units (λ n, cpu_units (resources n)));
      [done|done|intros x Hx; by apply Hn in Hx as ([? _] & _)|done].
  - rewrite (constant_fold _ used_gpu_bytes) by done. unfold u1.
    rewrite (saturating_fold _ used_gpu_bytes (λ n, gpu_bytes (resources n)));
      [done|done|intros x Hx; by apply Hn in Hx as (_ & [? _] & _)|done].
  - assert (used_memory_bytes u1 = 0) as Hm by (unfold u1; by rewrite (constant_fold _ used_memory_bytes)).
    rewrite (saturating_fold _ used_memory_bytes memory_budget_bytes), Hm;
      [done|done|intros x Hx; by apply He in Hx as [_ [? _]]|by rewrite Hm].
  - rewrite (saturating_fold _ used_queue_frames queue_cost), Hq1.
    + lia.
    + intros u x Hu Hx. unfold add_edge_usage, queue_cost. simpl. destruct (queue_depth x); [done|].
      rewrite saturating_id; [lia|]. split; [change (ty_min U64) with 0|]; lia.
    + intros x Hx. by apply He in Hx as [[? _] _].
    + rewrite Hq1. lia.
Qed.

Lemma exceeded_by_nil g b : costs_wf g →
  exceeded_by b (measure g) = [] ↔ within_budget g b.
Proof.
  intros Hwf. rewrite measure_ok by done. destruct Hwf as (_ & _ & ? & ?).
  unfold exceeded_by, within_budget, fits. cbn [omap list_omap used_nodes used_edges used_cpu_units
    used_gpu_bytes used_memory_bytes used_queue_frames].
  repeat case_decide; split; (done || (intros; exfalso; lia) || (intros; split_and!; lia)).
Qed.

(** *** Compilation *)

Lemma mapM_nodes g order : graph_wf g → (∀ id, id ∈ order → id ∈ bt_keys (nodes g)) →
  ∃ l, mapM (λ id, bt_get id (nodes g)) order = Some l ∧ node_id <$> l = order ∧
    ∀ n, n ∈ l → bt_get (node_id n) (nodes g) = Some n.
Proof.
  intros [_ Hwf]. induction order as [|id order IH]; intros Hin.
  { exists []. split_and!; [done..|]. by intros n ?%elem_of_nil. }
  destruct (proj2 (bt_get_is_Some id (nodes g)) (Hin id ltac:(by left))) as [n Hn].
  destruct IH as (l & Hl & Hids & Hget); [intros; apply Hin; by right|].
  destruct (Hwf id n Hn) as [Hid _].
  exists (n :: l). cbn [mapM]. rewrite Hn. cbn [mbind option_bind]. rewrite Hl.
  split_and!; [done|by rewrite fmap_cons, Hids, Hid|].
  intros n' [->|?]%elem_of_cons; [by rewrite Hid|auto].
Qed.
Lemma ordered_nodes_permutation g l : graph_wf g →
  node_id <$> l ≡ₚ bt_keys (nodes g) → (∀ n, n ∈ l → bt_get (node_id n) (nodes g) = Some n) →
  l ≡ₚ bt_values (nodes g).
Proof.
  intros [Hs Hwf] Hperm Hget.
  assert (Hids : node_id <$> bt_values (nodes g) = bt_keys (nodes g)).
  { unfold bt_values, bt_keys. rewrite <-list_fmap_compose. apply list_fmap_ext.
    intros i [k n] Hi. simpl. apply list_elem_of_lookup_2, bt_elem_get in Hi; [|done].
    by apply (Hwf k n). }
  assert (Hnd := bt_sorted_NoDup _ Hs). apply NoDup_Permutation.
  - apply (NoDup_fmap_1 node_id). by rewrite Hperm.
  - apply (NoDup_fmap_1 node_id). by rewrite Hids.
  - intros n. unfold bt_values. rewrite list_elem_of_fmap. split.
    + intros Hn%Hget. exists (node_id n, n). split; [done|]. by apply bt_get_elem.
    + intros ([k n'] & -> & Hn). simpl. apply bt_elem_get in Hn; [|done].
      assert (k ∈ node_id <$> l) as (n & -> & Hl)%list_elem_of_fmap.
      { rewrite Hperm. apply bt_get_is_Some. by exists n'. }
      assert (bt_get (node_id n) (nodes g) = Some n) by by apply Hget. by simplify_eq.
Qed.

Lemma choices_spec g registry nodes c : 
  c ∈ capability_choices (report_build nodes (unique_edges g) registry (measure g)) ↔
  ∃ n r cap, n ∈ nodes ∧ r ∈ capabilities n ∧ registry_get (req_key r) registry = Some cap ∧
    c = mk_choice (node_id n) (req_key r) (provider_id (provider cap))
          (provider_version (provider cap)).
Proof.
  unfold report_build. cbn [capability_choices]. rewrite merge_sort_Permutation.
  unfold choices. rewrite list_elem_of_bind. setoid_rewrite list_elem_of_omap. split.
  - intros (n & (r & Hr & Hc) & Hn). destruct (registry_get (req_key r) registry) as [cap|] eqn:Hcap; [|done].
    simpl in Hc. injection Hc as <-. by exists n, r, cap.
  - intros (n & r & cap & Hn & Hr & Hcap & ->). exists n. split; [|done]. exists r. by rewrite Hcap.
Qed.

Lemma unique_edges_permutation g : NoDup (edges g) → unique_edges g ≡ₚ edges g.
Proof.
  intros Hnd. apply NoDup_Permutation; [apply StronglySorted_key_NoDup, bs_of_list_sorted|done|].
  intros e. apply elem_of_bs_of_list.
Qed.

(** ** Theorem *)

(** What a plan promises of the graph it was compiled from. *)
Definition plan_of (g : EditableGraph) (registry : CapabilityRegistry) (plan : ExecutionPlan) : Prop :=
  plan_nodes plan ≡ₚ bt_values (nodes g) ∧
  (∀ a b, depends g a b → precedes (node_id <$> plan_nodes plan) a b) ∧
  plan_edges plan ≡ₚ edges g ∧
  node_order (plan_report plan) = node_id <$> plan_nodes plan ∧
  ∀ c, c ∈ capability_choices (plan_report plan) ↔
    ∃ n r cap, n ∈ bt_values (nodes g) ∧ r ∈ capabilities n ∧
      registry_get (req_key r) registry = Some cap ∧
      c = mk_choice (node_id n) (req_key r) (provider_id (provider cap))
            (provider_version (provider cap)).

(** C34: Compilation is exact.  It always ends, and no lookup in it panics.  It
    succeeds exactly on a valid graph whose total cost fits the budget (a limit
    of [u64::MAX] is none, since totals saturate), and fails with what is wrong
    otherwise.  The plan holds every node once, each after all the nodes it
    depends on within the tick, every edge once, and a report that names that
    order and a provider for each capability the nodes require. *)
Theorem compile_exact g registry budget
    (Hwf : graph_wf g) (Hcosts : costs_wf g) :
  ∃ r, compile_with_report g registry budget = Some r ∧
    match r with
    | Ok (plan, report) =>
        graph_valid g registry ∧ within_budget g budget ∧ plan_of g registry plan ∧
        report = plan_report plan
    | Err (InvalidGraph v) => graph_evaluate g registry = Some v ∧ ¬ graph_valid g registry
    | Err (BudgetExceededError l) =>
        graph_valid g registry ∧ ¬ within_budget g budget ∧ l = exceeded_by budget (measure g)
    end.
Proof.
  unfold compile_with_report.
  destruct (graph_evaluate_ok g registry Hwf) as (v & -> & Hvalid). cbn [mbind option_bind].
  destruct (is_valid v); cbn [negb].
  2: { eexists. split; [done|]. split; [done|]. by intros ?%Hvalid. }
  assert (Hv : graph_valid g registry) by by apply Hvalid.
  assert (Hbudget := exceeded_by_nil g budget Hcosts).
  destruct (exceeded_by budget (measure g)) as [|x l].
  2: { eexists. split; [done|]. split_and!; [done| |done]. by intros ?%Hbudget. }
  destruct (topological_order_ok g registry (proj1 Hwf) Hv) as (order & -> & Hperm & Hbefore);
    [apply Hcosts|]. cbn [mbind option_bind].
  destruct (mapM_nodes g order Hwf) as (l & -> & Hids & Hget); [by intros id; rewrite Hperm|].
  cbn [mbind option_bind]. eexists. split; [done|]. cbn beta iota.
  split_and!; [done|by apply Hbudget| |done]. subst order.
  assert (Hl : l ≡ₚ bt_values (nodes g)) by by apply ordered_nodes_permutation.
  split_and!; cbn [plan_nodes plan_edges plan_report]; [done..| |done|].
  - apply unique_edges_permutation, (NoDup_fmap_1 connection_key), (valid_unique _ _ Hv).
  - intros c. rewrite choices_spec. by setoid_rewrite Hl.
Qed.
Lemma compile_exact_witness :
  ∃ plan, compile (ex_graph BreaksCycle) [] (mk_budget 3 3 3 6 4000000 (ty_max U64)) = Some (Ok plan) ∧
    plan_of (ex_graph BreaksCycle) [] plan.
Proof.
  destruct (compile_exact (ex_graph BreaksCycle) [] (mk_budget 3 3 3 6 4000000 (ty_max U64)))
    as (r & Hr & Hspec).
  - apply ex_graph_wf.
  - split_and!; [| |done..].
    + intros n Hn. vm_compute in Hn. repeat (apply elem_of_cons in Hn as [->|Hn]; [done|]).
      by apply elem_of_nil in Hn.
    + intros e He. vm_compute in He. repeat (apply elem_of_cons in He as [->|He]; [done|]).
      by apply elem_of_nil in He.
  - destruct r as [[plan report]|e].
    + exists plan. unfold compile. rewrite Hr. split; [done|]. apply Hspec.
    + exfalso. by vm_compute in Hr; simplify_eq.
Defined.
