(* ===== verification/Playback.v ===== *)
(** Frame-exact clip playback, [crates/media/fm-playback/src/types.rs], [clip.rs]
    and [transport.rs]: clips, the library that holds them, and the transport
    that plays one clip between its marks at an integral speed in either
    direction.

    [Transport] maps to the record of the same name.  A codec is code outside
    the crate: its answer to [read_frame] is an argument, with the state it keeps. *)
From S2P Require Import Prelude BTree.

(** ** Coordinates and speeds *)

Abbreviation ClipId := Z (only parsing).
Abbreviation FrameIndex := Z (only parsing).

Inductive SpeedDirection := Forward | Reverse.
#[global] Instance SpeedDirection_eq_dec : EqDecision SpeedDirection.
Proof. solve_decision. Defined.
Inductive Speed := Pause | Forward1x | Forward2x | Reverse1x | Reverse2x.
#[global] Instance Speed_eq_dec : EqDecision Speed.
Proof. solve_decision. Defined.
Definition speed_direction (self : Speed) : option SpeedDirection :=
  match self with
  | Pause => None
  | Forward1x | Forward2x => Some Forward
  | Reverse1x | Reverse2x => Some Reverse
  end.
Definition frame_step (self : Speed) : Z :=
  match self with
  | Pause => 0
  | Forward1x | Reverse1x => 1
  | Forward2x | Reverse2x => 2
  end.

(** ** Clips *)

Inductive ClipError := Empty.
Inductive CodecError :=
  | Unavailable
  | OpenFailed (reason : string)
  | DecodeFailed (frame : FrameIndex) (reason : string).

Record FixtureClip (F : Type) := mk_fixture { fix_id : ClipId; frames : list (option F) }.
Arguments mk_fixture {F} fix_id frames.
Arguments fix_id {F} f.
Arguments frames {F} f.
Record EncodedClip := mk_encoded { enc_id : ClipId; locator : string; enc_frame_count : Z }.
Inductive PlaybackClip (F : Type) :=
  | Fixture (clip : FixtureClip F)
  | Encoded (clip : EncodedClip).
Arguments Fixture {F} clip.
Arguments Encoded {F} clip.

(** [FrameCodec::read_frame] of a codec with state [C]. *)
Class FrameCodec (C F : Type) :=
  read_frame : C → EncodedClip → FrameIndex → C * result CodecError F.

Section clips.
Context {F : Type}.

Definition from_slots (id : ClipId) (frames : list (option F)) : result ClipError (FixtureClip F) :=
  match frames with
  | [] => Err Empty
  | _ => Ok (mk_fixture id frames)
  end.
Definition fixture_new (id : ClipId) (frames : list F) : result ClipError (FixtureClip F) :=
  from_slots id (Some <$> frames).
Definition fixture_frame_count (self : FixtureClip F) : Z :=
  default (ty_max U64) (checked U64 (Z.of_nat (length (frames self)))).
Definition fixture_frame (index : FrameIndex) (self : FixtureClip F) : option F :=
  slot ← frames self !! Z.to_nat index; slot.
Definition encoded_new (id : ClipId) (locator : string) (frame_count : Z) :
    result ClipError EncodedClip :=
  if decide (frame_count = 0) then Err Empty else Ok (mk_encoded id locator frame_count).

Definition clip_id (self : PlaybackClip F) : ClipId :=
  match self with
  | Fixture clip => fix_id clip
  | Encoded clip => enc_id clip
  end.
Definition frame_count (self : PlaybackClip F) : Z :=
  match self with
  | Fixture clip => fixture_frame_count clip
  | Encoded clip => enc_frame_count clip
  end.

Inductive LibraryError := DuplicateClip (id : ClipId) | MissingClip (id : ClipId).
Definition library_insert (clip : PlaybackClip F) :
    stm (btmap ClipId (PlaybackClip F)) LibraryError unit :=
  self ← st_get;
  if bt_contains (clip_id clip) self then mthrow (DuplicateClip (clip_id clip))
  else st_put (bt_insert (clip_id clip) clip self).
Definition library_get (id : ClipId) (self : btmap ClipId (PlaybackClip F)) :
    option (PlaybackClip F) := bt_get id self.
End clips.
Abbreviation ClipLibrary F := (btmap ClipId (PlaybackClip F)).

(** ** Transport *)

Inductive TransportState := Stopped | Playing | Paused.
#[global] Instance TransportState_eq_dec : EqDecision TransportState.
Proof. solve_decision. Defined.
Inductive EndBehavior := Hold | Stop.
Record Marks := mk_marks { mark_in : FrameIndex; mark_out : FrameIndex }.
Inductive MarkError := Reversed (mark_in mark_out : FrameIndex).
Definition marks_new (mark_in mark_out : FrameIndex) : result MarkError Marks :=
  if decide (mark_out < mark_in) then Err (Reversed mark_in mark_out)
  else Ok (mk_marks mark_in mark_out).

Inductive PlaybackError :=
  | InvalidMarks (e : MarkError)
  | MarkOutOfRange (mark_out : FrameIndex) (frame_count : Z)
  | SeekOutsideMarks (requested : FrameIndex) (marks : Marks)
  | MissingFrame (clip : ClipId) (frame : FrameIndex)
  | MissingCodec (clip : ClipId)
  | Codec (e : CodecError).

Record PlaybackFrame (F : Type) := mk_playback_frame {
  pf_clip_id : ClipId;
  index : FrameIndex;
  pf_frame : F;
  ended : bool
}.
Arguments mk_playback_frame {F} pf_clip_id index pf_frame ended.
Arguments index {F} p.
Arguments ended {F} p.
Arguments pf_frame {F} p.

Record Transport (F : Type) := mk_transport {
  clip : PlaybackClip F;
  state : TransportState;
  cursor : FrameIndex;
  marks : Marks;
  motion : Speed;
  looping : bool;
  end_behavior : EndBehavior
}.
Arguments mk_transport {F} clip state cursor marks motion looping end_behavior.
Arguments clip {F} t.
Arguments state {F} t.
Arguments cursor {F} t.
Arguments marks {F} t.
Arguments motion {F} t.
Arguments looping {F} t.
Arguments end_behavior {F} t.

Section transport.
Context {F : Type}.
Implicit Types (self : Transport F).

Definition set_cursor (cursor : FrameIndex) self : Transport F :=
  mk_transport (clip self) (state self) cursor (marks self) (motion self) (looping self)
    (end_behavior self).
Definition set_state (state : TransportState) self : Transport F :=
  mk_transport (clip self) state (cursor self) (marks self) (motion self) (looping self)
    (end_behavior self).
Definition put_marks (marks : Marks) self : Transport F :=
  mk_transport (clip self) (state self) (cursor self) marks (motion self) (looping self)
    (end_behavior self).

(** [None] is a panic: a clip without frames. *)
Definition whole_clip (c : PlaybackClip F) : option Marks :=
  last ← checked U64 (frame_count c - 1);
  Some (mk_marks 0 last).
Definition transport_new (c : PlaybackClip F) : option (Transport F) :=
  marks ← whole_clip c;
  Some (mk_transport c Stopped (mark_in marks) marks Forward1x false Hold).

Definition speed self : Speed :=
  if decide (state self = Playing) then motion self else Pause.
Definition direction self : SpeedDirection := default Forward (speed_direction (motion self)).
Definition play self : Transport F := set_state Playing self.
Definition pause self : Transport F := set_state Paused self.
Definition stop self : Transport F := set_cursor (mark_in (marks self)) (set_state Stopped self).
Definition set_speed (speed : Speed) self : Transport F :=
  if decide (speed = Pause) then pause self
  else play (mk_transport (clip self) (state self) (cursor self) (marks self) speed (looping self)
               (end_behavior self)).
Definition set_looping (looping : bool) self : Transport F :=
  mk_transport (clip self) (state self) (cursor self) (marks self) (motion self) looping
    (end_behavior self).
Definition set_end_behavior (behavior : EndBehavior) self : Transport F :=
  mk_transport (clip self) (state self) (cursor self) (marks self) (motion self) (looping self)
    behavior.

Definition set_marks (m : Marks) : stm (Transport F) PlaybackError unit :=
  _ ← st_require (¬ mark_out m < mark_in m) (InvalidMarks (Reversed (mark_in m) (mark_out m)));
  self ← st_get;
  _ ← st_require (¬ frame_count (clip self) ≤ mark_out m)
        (MarkOutOfRange (mark_out m) (frame_count (clip self)));
  _ ← st_put (put_marks m self);
  if decide (cursor self < mark_in m ∨ mark_out m < cursor self) then
    st_modify (set_cursor (mark_in m))
  else mret tt.
Definition clear_marks : stm (Transport F) PlaybackError unit :=
  self ← st_get;
  m ← st_expect (whole_clip (clip self));
  st_put (put_marks m self).
Definition seek (frame : FrameIndex) : stm (Transport F) PlaybackError unit :=
  self ← st_get;
  _ ← st_require (¬ (frame < mark_in (marks self) ∨ mark_out (marks self) < frame))
        (SeekOutsideMarks frame (marks self));
  st_put (set_cursor frame self).

(** Unchecked arithmetic on [u64]. *)
Definition u64 {E} (x : Z) : stm (Transport F) E Z := st_expect (checked U64 x).

(** Whether the step crosses the mark ahead. *)
Definition crosses {E} : stm (Transport F) E bool :=
  self ← st_get;
  let step := frame_step (motion self) in
  match direction self with
  | Forward => mret match checked U64 (cursor self + step) with
                    | Some next => bool_decide (mark_out (marks self) < next)
                    | None => true
                    end
  | Reverse => room ← u64 (cursor self - mark_in (marks self)); mret (bool_decide (room < step))
  end.
(** Where the step leads in a loop of [range_len] frames. *)
Definition wrap {E} (range_len : Z) : stm (Transport F) E Z :=
  self ← st_get;
  offset ← u64 (cursor self - mark_in (marks self));
  delta ← st_expect (if decide (range_len = 0) then None
                     else Some (frame_step (motion self) `mod` range_len));
  match direction self with
  | Forward =>
      room ← u64 (range_len - offset);
      if decide (room ≤ delta) then u64 (delta - room) else u64 (offset + delta)
  | Reverse =>
      if decide (offset < delta) then back ← u64 (delta - offset); u64 (range_len - back)
      else u64 (offset - delta)
  end.
Definition advance {E} : stm (Transport F) E bool :=
  self ← st_get;
  let step := frame_step (motion self) in
  span ← u64 (mark_out (marks self) - mark_in (marks self));
  range_len ← u64 (span + 1);
  crossed ← crosses;
  if negb crossed then
    next ← match direction self with
           | Forward => u64 (cursor self + step)
           | Reverse => u64 (cursor self - step)
           end;
    _ ← st_modify (set_cursor next);
    mret false
  else
    _ ← if looping self then
          next_offset ← wrap range_len;
          next ← u64 (mark_in (marks self) + next_offset);
          st_modify (set_cursor next)
        else match end_behavior self with
        | Hold =>
            st_modify (λ self, set_state Paused (set_cursor
              match direction self with
              | Forward => mark_out (marks self)
              | Reverse => mark_in (marks self)
              end self))
        | Stop => st_modify (λ self, set_state Stopped (set_cursor (mark_in (marks self)) self))
        end;
    mret true.

Context `{FrameCodec C F}.

(** The frame at the cursor; a codec is called for an encoded clip only. *)
Definition read_current (codec : option C) self : option C * result PlaybackError F :=
  match clip self with
  | Fixture c =>
      (codec, ok_or (MissingFrame (fix_id c) (cursor self)) (fixture_frame (cursor self) c))
  | Encoded c =>
      match codec with
      | None => (None, Err (MissingCodec (enc_id c)))
      | Some codec =>
          let '(codec, r) := read_frame codec c (cursor self) in
          (Some codec, result_map_err Codec r)
      end
  end.
(** The object is the transport with the codec it is lent. *)
Definition pull_frame : stm (Transport F * option C) PlaybackError (PlaybackFrame F) :=
  '(self, codec) ← st_get;
  let '(codec, r) := read_current codec self in
  _ ← st_put (self, codec);
  frame ← st_lift r;
  ended ← if decide (state self = Playing) then st_zoom fst (λ t s, (t, s.2)) advance
          else mret false;
  mret (mk_playback_frame (clip_id (clip self)) (cursor self) frame ended).
End transport.

(** ** The invariant *)

Definition clip_wf {F} (c : PlaybackClip F) : Prop := 1 ≤ frame_count c ≤ ty_max U64.
Record transport_wf {F} (t : Transport F) : Prop := {
  tw_clip : clip_wf (clip t);
  tw_in : 0 ≤ mark_in (marks t) ≤ cursor t;
  tw_out : cursor t ≤ mark_out (marks t) < frame_count (clip t);
  tw_motion : motion t ≠ Pause
}.

(** The specification of one step: the cursor moves by the signed speed, a loop
    is arithmetic modulo its length, and the end of a single pass is a mark. *)
Definition signed_step (s : Speed) : Z :=
  match s with
  | Pause => 0
  | Forward1x => 1
  | Forward2x => 2
  | Reverse1x => -1
  | Reverse2x => -2
  end.
Definition range_length {F} (t : Transport F) : Z := mark_out (marks t) - mark_in (marks t) + 1.
Definition offset {F} (t : Transport F) : Z := cursor t - mark_in (marks t).
Definition step_spec {F} (t : Transport F) : Transport F * bool :=
  let target := offset t + signed_step (motion t) in
  if decide (0 ≤ target < range_length t) then (set_cursor (mark_in (marks t) + target) t, false)
  else if looping t then
    (set_cursor (mark_in (marks t) + target `mod` range_length t) t, true)
  else match end_behavior t with
  | Hold =>
      (set_state Paused (set_cursor (match direction t with
                                     | Forward => mark_out (marks t)
                                     | Reverse => mark_in (marks t)
                                     end) t), true)
  | Stop => (stop t, true)
  end.

Lemma mod_add_small o d l : 0 ≤ o < l → 0 ≤ d < l →
  (o + d) `mod` l = if decide (l - o ≤ d) then d - (l - o) else o + d.
Proof.
  intros. case_decide.
  - replace (o + d) with (d - (l - o) + 1 * l) by lia. rewrite Z.mod_add, Z.mod_small; lia.
  - rewrite Z.mod_small; lia.
Qed.
Lemma mod_sub_small o d l : 0 ≤ o < l → 0 ≤ d < l →
  (o - d) `mod` l = if decide (o < d) then l - (d - o) else o - d.
Proof.
  intros. case_decide.
  - replace (o - d) with (l - (d - o) + (-1) * l) by lia. rewrite Z.mod_add, Z.mod_small; lia.
  - rewrite Z.mod_small; lia.
Qed.

Section advance.
Context {F : Type}.
Implicit Types (t : Transport F).

Lemma signed_step_direction t : motion t ≠ Pause →
  match direction t with
  | Forward => signed_step (motion t) = frame_step (motion t)
  | Reverse => signed_step (motion t) = - frame_step (motion t)
  end ∧ 1 ≤ frame_step (motion t) ≤ 2.
Proof. unfold direction. by destruct (motion t). Qed.

Lemma wp_u64 {E} x (Q : outcome E Z → Transport F → Prop) t :
  in_ty U64 x → Q (Ret x) t → wp (u64 x) Q t.
Proof. intros Hx HQ. unfold u64, wp, st_expect. by rewrite checked_in. Qed.

Lemma crosses_spec {E} t (Q : outcome E bool → Transport F → Prop) :
  transport_wf t →
  Q (Ret (bool_decide (¬ 0 ≤ offset t + signed_step (motion t) < range_length t))) t →
  wp crosses Q t.
Proof.
  intros [[Hc1 Hc2] Hin Hout Hm] HQ. destruct (signed_step_direction t Hm) as [Hs Hf].
  unfold crosses, offset, range_length in *. wp_step. wp_step. cbn beta iota.
  destruct (direction t).
  - wp_step. destruct (checked U64 (cursor t + frame_step (motion t))) as [next|] eqn:Hn.
    + apply checked_Some in Hn as [Hn _]. erewrite bool_decide_ext; [exact HQ|]. lia.
    + apply checked_None in Hn. rewrite bool_decide_eq_true_2 in HQ; [done|].
      unfold in_ty in Hn. change (ty_min U64) with 0 in Hn. lia.
  - wp_step. apply wp_u64; [split; [change (ty_min U64) with 0|]; lia|]. wp_step.
    erewrite bool_decide_ext; [exact HQ|]. cbn in Hs. lia.
Qed.

Lemma wrap_spec {E} t (Q : outcome E Z → Transport F → Prop) :
  transport_wf t →
  Q (Ret ((offset t + signed_step (motion t)) `mod` range_length t)) t →
  wp (wrap (range_length t)) Q t.
Proof.
  intros [[Hc1 Hc2] Hin Hout Hm] HQ. destruct (signed_step_direction t Hm) as [Hs Hf].
  assert (Hlen : 0 < range_length t ≤ ty_max U64) by (unfold range_length; lia).
  assert (Hoff : 0 ≤ offset t < range_length t) by (unfold range_length, offset; lia).
  change (cursor t - mark_in (marks t)) with (offset t) in *.
  unfold wrap. wp_step. wp_step. cbn beta iota. wp_step.
  apply wp_u64; [unfold offset in *; split; [change (ty_min U64) with 0|]; lia|]. wp_step.
  rewrite decide_False by lia. apply wp_expect; [|done]. intros delta [= <-].
  change (cursor t - mark_in (marks t)) with (offset t).
  set (d := frame_step (motion t) `mod` range_length t).
  assert (Hd : 0 ≤ d < range_length t) by (apply Z.mod_pos_bound; lia).
  destruct (direction t).
  - wp_step. apply wp_u64; [split; [change (ty_min U64) with 0|]; lia|].
    assert (Hmod : (offset t + signed_step (motion t)) `mod` range_length t =
      (offset t + d) `mod` range_length t) by (unfold d; by rewrite Zplus_mod_idemp_r, Hs).
    rewrite Hmod, mod_add_small in HQ by done.
    case_decide; (apply wp_u64; [split; [change (ty_min U64) with 0|]; lia|done]).
  - assert (Hmod : (offset t + signed_step (motion t)) `mod` range_length t =
      (offset t - d) `mod` range_length t).
    { unfold d. rewrite Zminus_mod_idemp_r, Hs. f_equal. }
    rewrite Hmod, mod_sub_small in HQ by done. destruct (decide (offset t < d)).
    + wp_step. apply wp_u64; [split; [change (ty_min U64) with 0|]; lia|].
      apply wp_u64; [split; [change (ty_min U64) with 0|]; lia|done].
    + apply wp_u64; [split; [change (ty_min U64) with 0|]; lia|done].
Qed.

Lemma transport_advance_spec {E} t (Q : outcome E bool → Transport F → Prop) :
  transport_wf t → Q (Ret (step_spec t).2) (step_spec t).1 → wp advance Q t.
Proof.
  intros Hwf HQ. assert (Hwf' := Hwf). destruct Hwf' as [[Hc1 Hc2] Hin Hout Hm].
  destruct (signed_step_direction t Hm) as [Hs Hf].
  unfold advance. wp_step. wp_step. cbn beta iota.
  wp_step. apply wp_u64; [split; [change (ty_min U64) with 0|]; lia|].
  wp_step. apply wp_u64; [split; [change (ty_min U64) with 0|]; lia|].
  change (mark_out (marks t) - mark_in (marks t) + 1) with (range_length t).
  wp_step. apply crosses_spec; [done|]. unfold step_spec in HQ.
  assert (Hlen : 0 < range_length t ≤ ty_max U64) by (unfold range_length; lia).
  destruct (decide (0 ≤ offset t + signed_step (motion t) < range_length t)) as [Hgo|Hstop].
  - rewrite bool_decide_eq_false_2 by tauto. cbn [negb]. wp_step.
    assert (Hnext : mark_in (marks t) + (offset t + signed_step (motion t)) =
      cursor t + signed_step (motion t)) by (unfold offset; lia).
    simpl in HQ. rewrite Hnext in HQ. unfold offset, range_length in Hgo.
    destruct (direction t); rewrite Hs in HQ, Hgo.
    + apply wp_u64; [split; [change (ty_min U64) with 0|]; lia|]. by wp_run.
    + replace (cursor t + - frame_step (motion t)) with (cursor t - frame_step (motion t)) in HQ by lia.
      apply wp_u64; [split; [change (ty_min U64) with 0|]; lia|]. by wp_run.
  - rewrite bool_decide_eq_true_2 by done. cbn [negb]. wp_step. destruct (looping t).
    + wp_step. apply wrap_spec; [done|].
      assert (Hmod := Z.mod_pos_bound (offset t + signed_step (motion t)) (range_length t) (proj1 Hlen)).
      unfold range_length in *.
      wp_step. apply wp_u64; [split; [change (ty_min U64) with 0|]; lia|]. by wp_run.
    + destruct (end_behavior t); by wp_run.
Qed.

Lemma step_spec_wf t : transport_wf t → transport_wf (step_spec t).1.
Proof.
  intros [Hc Hin Hout Hm]. unfold step_spec, offset, range_length.
  assert (Hmod := Z.mod_pos_bound (offset t + signed_step (motion t)) (range_length t)
    ltac:(unfold range_length; lia)).
  unfold offset, range_length in Hmod.
  case_decide; [|destruct (looping t); [|destruct (end_behavior t)]]; split; simpl; try done;
    try (destruct (direction t)); lia.
Qed.
End advance.

Section pulls.
Context {F C : Type} `{FrameCodec C F}.
Implicit Types (t : Transport F) (codec : option C).

(** A pull in closed form. *)
Definition pull_spec t codec : (Transport F * option C) * outcome PlaybackError (PlaybackFrame F) :=
  match read_current codec t with
  | (codec, Err e) => ((t, codec), Throw e)
  | (codec, Ok f) =>
      let '(t', crossed) := if decide (state t = Playing) then step_spec t else (t, false) in
      ((t', codec), Ret (mk_playback_frame (clip_id (clip t)) (cursor t) f crossed))
  end.
Lemma pull_frame_spec t codec : transport_wf t → pull_frame (t, codec) = pull_spec t codec.
Proof.
  intros Hwf. unfold pull_frame, pull_spec, mbind, stm_bind, st_get, st_put, st_lift.
  destruct (read_current codec t) as [codec' [f|e]]; [|done].
  destruct (decide (state t = Playing)); [|done].
  assert (Hadv : wp (advance (E := PlaybackError)) (λ r t', r = Ret (step_spec t).2 ∧ t' = (step_spec t).1) t)
    by by apply transport_advance_spec.
  unfold wp in Hadv. unfold st_zoom. simpl. destruct (advance t) as [t' r]. simpl in Hadv.
  destruct Hadv as [-> ->]. by destruct (step_spec t).
Qed.

Fixpoint pulls (n : nat) : stm (Transport F * option C) PlaybackError (list (PlaybackFrame F)) :=
  match n with
  | O => mret []
  | S n => f ← pull_frame; fs ← pulls n; mret (f :: fs)
  end.

(** The codec goes on serving every frame between the marks: something that holds
    of it now, and that reading never ends, has every read answered. *)
Definition readable t codec : Prop :=
  ∃ P : option C → Prop, P codec ∧
    ∀ codec i, P codec → mark_in (marks t) ≤ i ≤ mark_out (marks t) →
      ∃ codec' f, read_current codec (set_cursor i t) = (codec', Ok f) ∧ P codec'.

Lemma pull_readable t codec : transport_wf t → readable t codec → state t = Playing →
  ∃ codec' f, pull_frame (t, codec) =
    (((step_spec t).1, codec'),
     Ret (mk_playback_frame (clip_id (clip t)) (cursor t) f (step_spec t).2)) ∧ readable t codec'.
Proof.
  intros Hwf (P & HP & Hread) Hplay. rewrite pull_frame_spec by done. unfold pull_spec.
  destruct (Hread codec (cursor t)) as (codec' & f & Hr & HP'); [done|destruct Hwf; lia|].
  replace (set_cursor (cursor t) t) with t in Hr by by destruct t.
  rewrite Hr, decide_True by done. exists codec', f. destruct (step_spec t). split; [done|by exists P].
Qed.
Lemma pulls_cons n t codec codec1 t1 f : pull_frame (t, codec) = ((t1, codec1), Ret f) →
  pulls (S n) (t, codec) = match pulls n (t1, codec1) with
                           | (s, Ret fs) => (s, Ret (f :: fs))
                           | (s, Throw e) => (s, Throw e)
                           | (s, Panic) => (s, Panic)
                           end.
Proof.
  intros Hpull. cbn [pulls]. unfold mbind, stm_bind. rewrite Hpull.
  by destruct (pulls n (t1, codec1)) as [? []].
Qed.

(** Only the cursor moves in a loop, modulo its length. *)
Lemma step_spec_looping t : transport_wf t → looping t = true →
  (step_spec t).1 = set_cursor (mark_in (marks t) +
    (offset t + signed_step (motion t)) `mod` range_length t) t.
Proof.
  intros [_ Hin Hout _] Hl. unfold step_spec. rewrite Hl. case_decide; [|done].
  by rewrite Z.mod_small.
Qed.

(** [n] pulls with what each answered; one that fails does not end them. *)
Fixpoint attempts (n : nat) (s : Transport F * option C) :
    (Transport F * option C) * list (outcome PlaybackError (PlaybackFrame F)) :=
  match n with
  | O => (s, [])
  | S n => let '(s, r) := pull_frame s in let '(s, rs) := attempts n s in (s, r :: rs)
  end.
(** How many of them showed a frame. *)
Fixpoint shown {E A} (rs : list (outcome E A)) : nat :=
  match rs with
  | [] => 0
  | Ret _ :: rs => S (shown rs)
  | _ :: rs => shown rs
  end.
(** Where a loop is after [k] frames. *)
Definition position t (k : nat) : FrameIndex :=
  mark_in (marks t) + (offset t + Z.of_nat k * signed_step (motion t)) `mod` range_length t.
(** Whether the frame after [i] is on the other side of the loop. *)
Definition turns t (i : FrameIndex) : bool :=
  bool_decide (¬ mark_in (marks t) ≤ i + signed_step (motion t) ≤ mark_out (marks t)).
(** The pulls of a loop by arithmetic alone, [k] frames after its start: each reads the
    frame that is next, with the codec as the one before left it. *)
Fixpoint looped t (n k : nat) codec : option C * list (outcome PlaybackError (PlaybackFrame F)) :=
  match n with
  | O => (codec, [])
  | S n =>
      let i := position t k in
      match read_current codec (set_cursor i t) with
      | (codec, Ok f) =>
          let '(codec, rs) := looped t n (S k) codec in
          (codec, Ret (mk_playback_frame (clip_id (clip t)) i f (turns t i)) :: rs)
      | (codec, Err e) =>
          let '(codec, rs) := looped t n k codec in (codec, Throw e :: rs)
      end
  end.

Lemma position_0 t : transport_wf t → position t 0 = cursor t.
Proof.
  intros [_ ? ? _]. unfold position. rewrite Z.add_0_r, Z.mod_small; unfold offset, range_length; lia.
Qed.
Lemma position_bounds t k : transport_wf t → mark_in (marks t) ≤ position t k ≤ mark_out (marks t).
Proof.
  intros [_ ? ? _]. unfold position.
  assert (Hmod := Z.mod_pos_bound (offset t + Z.of_nat k * signed_step (motion t)) (range_length t)
    ltac:(unfold range_length; lia)). unfold range_length in *. lia.
Qed.
Lemma position_add t j k : position (set_cursor (position t j) t) k = position t (j + k).
Proof.
  unfold position at 1 3, offset at 1. simpl. unfold position.
  change (range_length (set_cursor _ t)) with (range_length t).
  rewrite Z.add_simpl_l, Zplus_mod_idemp_l. do 2 f_equal. lia.
Qed.
Lemma step_spec_position t : transport_wf t → looping t = true →
  step_spec t = (set_cursor (position t 1) t, turns t (cursor t)).
Proof.
  intros Hwf Hl. rewrite (surjective_pairing (step_spec t)), step_spec_looping by done. f_equal.
  - unfold position. by rewrite Z.mul_1_l.
  - unfold step_spec, turns, offset, range_length. rewrite Hl.
    case_decide; [rewrite bool_decide_eq_false_2|rewrite bool_decide_eq_true_2]; (done || lia).
Qed.
Lemma position_wf t k : transport_wf t → transport_wf (set_cursor (position t k) t).
Proof.
  intros Hwf. assert (Hpos := position_bounds t k Hwf). destruct Hwf.
  split; try done; cbn [clip marks cursor set_cursor] in *; lia.
Qed.

Lemma loop_attempts t n k codec : transport_wf t → state t = Playing → looping t = true →
  attempts n (set_cursor (position t k) t, codec) =
  ((set_cursor (position t (k + shown (looped t n k codec).2)) t, (looped t n k codec).1),
   (looped t n k codec).2).
Proof.
  intros Hwf Hplay Hloop. revert k codec. induction n as [|n IH]; intros k codec.
  { simpl. by rewrite Nat.add_0_r. }
  cbn [attempts looped]. rewrite pull_frame_spec by by apply position_wf. unfold pull_spec.
  destruct (read_current codec (set_cursor (position t k) t)) as [codec1 [f|e]].
  - rewrite decide_True by done. rewrite step_spec_position by (done || by apply position_wf).
    rewrite position_add, Nat.add_1_r.
    change (set_cursor (position t (S k)) (set_cursor (position t k) t)) with (set_cursor (position t (S k)) t).
    rewrite IH. destruct (looped t n (S k) codec1) as [codec2 rs]. simpl. by rewrite Nat.add_succ_r.
  - rewrite IH. by destruct (looped t n k codec1).
Qed.
Lemma looped_length t n k codec : length (looped t n k codec).2 = n.
Proof.
  revert k codec. induction n as [|n IH]; intros k codec; [done|]. cbn [looped].
  destruct (read_current codec _) as [codec1 [f|e]]; [specialize (IH (S k) codec1)|specialize (IH k codec1)].
  - destruct (looped t n (S k) codec1). simpl in *. by rewrite IH.
  - destruct (looped t n k codec1). simpl in *. by rewrite IH.
Qed.
Lemma looped_readable t n k codec : transport_wf t → readable t codec → shown (looped t n k codec).2 = n.
Proof.
  intros Hwf (P & HP & Hread). revert k codec HP. induction n as [|n IH]; intros k codec HP; [done|].
  cbn [looped]. destruct (Hread codec (position t k) HP) as (codec1 & f & -> & HP1);
    [by apply position_bounds|].
  specialize (IH (S k) codec1 HP1). destruct (looped t n (S k) codec1). simpl in *. by rewrite IH.
Qed.

(** The frames from the cursor to the mark ahead. *)
Definition room t : Z :=
  match direction t with
  | Forward => mark_out (marks t) - cursor t
  | Reverse => cursor t - mark_in (marks t)
  end.
(** Where a single pass leaves the transport. *)
Definition at_end t : Transport F :=
  match end_behavior t with
  | Hold => set_state Paused (set_cursor (match direction t with
                                          | Forward => mark_out (marks t)
                                          | Reverse => mark_in (marks t)
                                          end) t)
  | Stop => stop t
  end.
Lemma at_end_set_cursor c t : at_end (set_cursor c t) = at_end t.
Proof. done. Qed.

Lemma step_spec_once t : transport_wf t → looping t = false →
  step_spec t = if decide (frame_step (motion t) ≤ room t)
                then (set_cursor (cursor t + signed_step (motion t)) t, false)
                else (at_end t, true).
Proof.
  intros [_ Hin Hout Hm] Hl. destruct (signed_step_direction t Hm) as [Hs Hf].
  unfold step_spec, room, offset, range_length, at_end. rewrite Hl.
  replace (mark_in (marks t) + (cursor t - mark_in (marks t) + signed_step (motion t)))
    with (cursor t + signed_step (motion t)) by lia.
  destruct (direction t); simpl in *; repeat case_decide; try lia; destruct (end_behavior t); done.
Qed.

Lemma once_pulls m t codec : transport_wf t → readable t codec → state t = Playing → looping t = false →
  room t `div` frame_step (motion t) = Z.of_nat m →
  ∃ codec' fs, pulls (S m) (t, codec) = ((at_end t, codec'), Ret fs) ∧ length fs = S m ∧
    ∀ (k : nat) f, fs !! k = Some f →
      index f = cursor t + Z.of_nat k * signed_step (motion t) ∧ (ended f = true ↔ k = m).
Proof.
  revert t codec. induction m as [|m IH]; intros t codec Hwf Hread Hplay Hloop Hroom.
  all: destruct (pull_readable t codec Hwf Hread Hplay) as (codec1 & f & Hpull & Hread1);
    rewrite (pulls_cons _ _ _ _ _ _ Hpull); assert (Hwf1 := step_spec_wf t Hwf);
    rewrite step_spec_once in * by done; destruct (signed_step_direction t (tw_motion _ Hwf)) as [Hs Hf].
  - assert (room t < frame_step (motion t)).
    { assert (Hdm := Z.div_mod (room t) (frame_step (motion t)) ltac:(lia)).
      assert (Hb := Z.mod_pos_bound (room t) (frame_step (motion t)) ltac:(lia)). nia. }
    rewrite decide_False in * by lia. eexists codec1, [_]. split; [done|]. split; [done|].
    intros [|k] g Hg; [|done]. injection Hg as <-. simpl. split; [lia|done].
  - assert (Hge : frame_step (motion t) ≤ room t).
    { assert (Hdm := Z.div_mod (room t) (frame_step (motion t)) ltac:(lia)).
      assert (Hb := Z.mod_pos_bound (room t) (frame_step (motion t)) ltac:(lia)). nia. }
    rewrite decide_True in * by done. cbn [fst snd] in *.
    set (t1 := set_cursor (cursor t + signed_step (motion t)) t) in *.
    destruct (IH t1 codec1) as (codec2 & fs & -> & Hlen & Hfs); [done..| |].
    { assert (room t1 = room t - 1 * frame_step (motion t)) as ->.
      { unfold room, t1 in *. change (direction (set_cursor _ t)) with (direction t).
        destruct (direction t); simpl in *; lia. }
      change (motion t1) with (motion t).
      replace (room t - 1 * frame_step (motion t)) with (room t + -1 * frame_step (motion t)) by lia.
      rewrite Z.div_add by lia. lia. }
    exists codec2, (mk_playback_frame (clip_id (clip t)) (cursor t) f false :: fs).
    split; [done|]. split; [simpl; lia|].
    intros [|k] g Hg; simpl in Hg.
    + injection Hg as <-. simpl. split; [lia|done].
    + destruct (Hfs k g Hg) as [-> ->]. unfold t1. simpl. split; lia.
Qed.
End pulls.

(** ** Any use of a transport *)

Inductive transport_op :=
  | OpPlay
  | OpPause
  | OpStop
  | OpSetSpeed (s : Speed)
  | OpSetLooping (b : bool)
  | OpSetEndBehavior (b : EndBehavior)
  | OpSetMarks (m : Marks)
  | OpClearMarks
  | OpSeek (frame : FrameIndex)
  | OpPull.
(** Frame indices are of type [u64]. *)
Definition op_wf (op : transport_op) : Prop :=
  match op with
  | OpSetMarks m => 0 ≤ mark_in m
  | _ => True
  end.

Section ops.
Context {F C : Type} `{FrameCodec C F}.

Definition on_transport {A} (m : stm (Transport F) PlaybackError A) :
    stm (Transport F * option C) PlaybackError A := st_zoom fst (λ t s, (t, s.2)) m.
Definition exec (op : transport_op) :
    stm (Transport F * option C) PlaybackError (option (PlaybackFrame F)) :=
  match op with
  | OpPlay => on_transport (st_modify play);; mret None
  | OpPause => on_transport (st_modify pause);; mret None
  | OpStop => on_transport (st_modify stop);; mret None
  | OpSetSpeed s => on_transport (st_modify (set_speed s));; mret None
  | OpSetLooping b => on_transport (st_modify (set_looping b));; mret None
  | OpSetEndBehavior b => on_transport (st_modify (set_end_behavior b));; mret None
  | OpSetMarks m => on_transport (set_marks m);; mret None
  | OpClearMarks => on_transport clear_marks;; mret None
  | OpSeek frame => on_transport (seek frame);; mret None
  | OpPull => f ← pull_frame; mret (Some f)
  end.

Lemma whole_clip_Some (c : PlaybackClip F) : clip_wf c → whole_clip c = Some (mk_marks 0 (frame_count c - 1)).
Proof.
  intros [? ?]. unfold whole_clip. by rewrite checked_in by (split; [change (ty_min U64) with 0|]; lia).
Qed.
Lemma transport_new_wf (c : PlaybackClip F) :
  clip_wf c → ∃ t, transport_new c = Some t ∧ transport_wf t ∧ clip t = c ∧
    marks t = mk_marks 0 (frame_count c - 1) ∧ cursor t = 0 ∧ state t = Stopped ∧
    looping t = false ∧ end_behavior t = Hold.
Proof.
  intros Hc. unfold transport_new. rewrite whole_clip_Some by done. simpl.
  eexists. split; [done|]. destruct Hc. split_and!; try done. split; simpl; try done; lia.
Qed.

(** A refused call leaves the transport as it was. *)
Definition keeps_transport (t : Transport F) {A} (r : outcome PlaybackError A)
    (s : Transport F * option C) : Prop :=
  r ≠ Panic ∧ transport_wf s.1 ∧ ∀ e, r = Throw e → s.1 = t.

Lemma set_marks_spec m (t : Transport F) : transport_wf t → 0 ≤ mark_in m →
  wp (set_marks m) (λ r t', transport_wf t' ∧ clip t' = clip t ∧
    match r with
    | Ret _ => mark_out m < frame_count (clip t) ∧ mark_in m ≤ mark_out m ∧ marks t' = m ∧
        state t' = state t ∧ motion t' = motion t ∧ looping t' = looping t ∧
        end_behavior t' = end_behavior t ∧
        cursor t' = if decide (mark_in m ≤ cursor t ≤ mark_out m) then cursor t else mark_in m
    | Throw _ => t' = t ∧ ¬ (mark_in m ≤ mark_out m < frame_count (clip t))
    | Panic => False
    end) t.
Proof.
  intros [Hc Hin Hout Hm] Hm0. unfold set_marks. wp_run.
  - rewrite (decide_False (P := mark_in m ≤ cursor t ≤ mark_out m)) by lia.
    split; [split; simpl; (done || lia)|]. split_and!; (done || lia).
  - rewrite (decide_True (P := mark_in m ≤ cursor t ≤ mark_out m)) by lia.
    split; [split; simpl; (done || lia)|]. split_and!; (done || lia).
  - split_and!; [by split|done..|lia].
  - split_and!; [by split|done..|lia].
Qed.
Lemma seek_spec frame (t : Transport F) : transport_wf t →
  wp (seek frame) (λ r t', transport_wf t' ∧
    match r with
    | Ret _ => mark_in (marks t) ≤ frame ≤ mark_out (marks t) ∧ t' = set_cursor frame t
    | Throw _ => t' = t ∧ ¬ (mark_in (marks t) ≤ frame ≤ mark_out (marks t))
    | Panic => False
    end) t.
Proof.
  intros [Hc Hin Hout Hm]. unfold seek. wp_run.
  - split; [split; simpl; try done; lia|]. split; [lia|done].
  - split; [by split|]. split; [done|lia].
Qed.

Lemma exec_safe op t codec : transport_wf t → op_wf op → wp (exec op) (keeps_transport t) (t, codec).
Proof.
  intros Hwf Hop. assert (Hwf' := Hwf). destruct Hwf' as [Hc Hin Hout Hm].
  assert (Hmodify : ∀ f : Transport F → Transport F, transport_wf (f t) →
    wp (on_transport (st_modify f);; (mret None : stm _ PlaybackError (option (PlaybackFrame F))))
      (keeps_transport t) (t, codec)).
  { intros f Hf. unfold on_transport. wp_run. by split_and!. }
  destruct op; simpl; try (apply Hmodify; split; simpl; (done || lia)).
  - apply Hmodify. unfold set_speed. by case_decide; split; simpl.
  - wp_step. unfold on_transport. wp_step. eapply wp_mono; [by apply set_marks_spec|].
    intros r t' (Hwf' & _ & Hr). destruct r as [[]|e|]; [by wp_run; split_and!| |done].
    destruct Hr as [-> _]. by split_and!.
  - wp_step. unfold on_transport. wp_step. unfold clear_marks. wp_step. wp_step. cbn beta iota. wp_step.
    rewrite whole_clip_Some by done. apply wp_expect; [|done]. intros m [= <-]. wp_run.
    split_and!; [done| |done]. split; simpl; try done; lia.
  - wp_step. unfold on_transport. wp_step. eapply wp_mono; [by apply seek_spec|].
    intros r t' (Hwf' & Hr). destruct r as [[]|e|]; [by wp_run; split_and!| |done].
    destruct Hr as [-> _]. by split_and!.
  - wp_step. unfold wp at 1. rewrite pull_frame_spec by done. unfold pull_spec.
    destruct (read_current codec t) as [codec' [f|e]]; [|by split_and!].
    assert (Hstep := step_spec_wf t Hwf). case_decide; simpl; [|by wp_run; split_and!].
    destruct (step_spec t) as [t' b]. simpl in *. by wp_run; split_and!.
Qed.
End ops.

(** ** Theorems *)

(** The tests' codec: it never decodes. *)
Definition FailingCodec : FrameCodec unit Z := λ c _ frame, (c, Err (DecodeFailed frame "failure")).
Definition ex_clip : PlaybackClip Z := Fixture (mk_fixture 1 (Some <$> [10; 11; 12; 13; 14])).
Definition ex_transport (speed : Speed) (looping : bool) : Transport Z :=
  mk_transport ex_clip Playing 3 (mk_marks 1 4) speed looping Hold.
Lemma ex_transport_wf speed looping : speed ≠ Pause → transport_wf (ex_transport speed looping).
Proof. by split. Qed.
Lemma ex_transport_readable speed looping codec :
  @readable Z unit FailingCodec (ex_transport speed looping) codec.
Proof.
  exists (λ _, True). split; [done|]. intros codec' i _ Hi. simpl in Hi.
  assert (i = 1 ∨ i = 2 ∨ i = 3 ∨ i = 4) as Hcases by lia.
  exists codec'. destruct Hcases as [->|[->|[->| ->]]]; by eexists.
Qed.

(** A codec that decodes frame [i] of any clip to [100 + i] and counts its calls. *)
Definition CountingCodec : FrameCodec Z Z := λ calls _ frame, (calls + 1, Ok (100 + frame)).
Definition ex_encoded : Transport Z :=
  mk_transport (Encoded (mk_encoded 7 "clip.mov" 6)) Playing 3 (mk_marks 1 4) Reverse2x true Hold.
Lemma ex_encoded_readable calls : @readable Z Z CountingCodec ex_encoded (Some calls).
Proof.
  exists is_Some. split; [by eexists|]. intros ? i [n ->] _. by eexists (Some (n + 1)), (100 + i).
Qed.

(** C39: A transport stays sound.  A transport over a clip with frames can be
    created, and whatever is done to it, its cursor stays between marks that lie
    in the clip, no operation panics (all 64-bit arithmetic is in range), and a
    refused operation leaves it as it was, a failed read included. *)
Theorem transport_safe {F C} `{FrameCodec C F} (c : PlaybackClip F) (t : Transport F)
    (codec : option C) (op : transport_op) (Hc : clip_wf c) (Ht : transport_wf t) (Hop : op_wf op) :
  (∃ t0, transport_new c = Some t0 ∧ transport_wf t0) ∧
  match exec op (t, codec) with
  | ((t', _), Ret _) => transport_wf t'
  | ((t', _), Throw _) => t' = t
  | (_, Panic) => False
  end.
Proof.
  split.
  - destruct (transport_new_wf c Hc) as (t0 & Hnew & Hwf & _). by exists t0.
  - assert (Hexec := exec_safe op t codec Ht Hop). unfold wp, keeps_transport in Hexec.
    destruct (exec op (t, codec)) as [[t' codec'] [f|e|]]; simpl in Hexec;
      destruct Hexec as (Hp & Hwf & He); [done|by apply (He e)|done].
Qed.
Lemma transport_safe_witness :
  ∃ t', @exec Z unit FailingCodec OpPull (ex_transport Forward2x true, None) =
    ((t', None), Ret (Some (mk_playback_frame 1 3 13 true))) ∧ transport_wf t' ∧ cursor t' = 1.
Proof.
  destruct (@transport_safe Z unit FailingCodec ex_clip (ex_transport Forward2x true) None OpPull)
    as [_ Hsafe]; [done|by apply ex_transport_wf|done|].
  eexists. split; [by vm_compute|]. split; [|done]. exact Hsafe.
Defined.

(** C38: Loops do not drift.  Pull a transport that is playing in a loop any
    number of times, from a clip in memory or through whatever codec: after the
    pulls it is exactly where arithmetic modulo the length of the marked range
    puts it for the frames it has shown, at either speed and in either
    direction, and nothing else of it has changed.  The pulls answer what the
    clip holds, or the codec decodes, at these places in turn, flagged exactly
    where the loop turns ([looped]); a pull that fails, for a hole in the clip, a
    codec that is missing or one that refuses, leaves the transport at the frame
    it could not show.  If frames never fail, every pull shows the next one: it
    plays on for ever. *)
Theorem loop_exact {F C} `{FrameCodec C F} (n : nat) (t : Transport F) (codec : option C)
    (Hwf : transport_wf t) (Hplay : state t = Playing) (Hloop : looping t = true) :
  let '(codec', rs) := looped t n 0 codec in
  attempts n (t, codec) = ((set_cursor (position t (shown rs)) t, codec'), rs) ∧
  length rs = n ∧ (readable t codec → shown rs = n).
Proof.
  assert (Hself : set_cursor (position t 0) t = t) by (rewrite position_0 by done; by destruct t).
  assert (Hrun := loop_attempts t n 0 codec Hwf Hplay Hloop). rewrite Hself in Hrun.
  assert (Hlen := looped_length t n 0 codec). assert (Hall := looped_readable t n 0 codec Hwf).
  by destruct (looped t n 0 codec).
Qed.
(** An encoded clip through its codec, and a clip with a hole at frame 3. *)
Lemma loop_exact_witness :
  (∃ codec', @attempts Z Z CountingCodec 5 (ex_encoded, Some 0) =
     ((set_cursor (position ex_encoded 5) ex_encoded, codec'),
      [Ret (mk_playback_frame 7 3 103 false); Ret (mk_playback_frame 7 1 101 true);
       Ret (mk_playback_frame 7 3 103 false); Ret (mk_playback_frame 7 1 101 true);
       Ret (mk_playback_frame 7 3 103 false)])) ∧
  (let t := mk_transport (Fixture (mk_fixture 1 [Some 10; Some 11; None])) Playing 1 (mk_marks 0 2)
              Forward1x true Hold in
   ∃ codec', @attempts Z unit FailingCodec 3 (t, None) =
     ((set_cursor (position t 1) t, codec'),
      [Ret (mk_playback_frame 1 1 11 false); Throw (MissingFrame 1 2); Throw (MissingFrame 1 2)])).
Proof.
  split.
  - assert (Hl := @loop_exact Z Z CountingCodec 5 ex_encoded (Some 0) ltac:(by split) eq_refl eq_refl).
    destruct (looped ex_encoded 5 0 (Some 0)) as [codec' rs] eqn:Hrs.
    destruct Hl as (Hrun & _ & Hall). rewrite (Hall (ex_encoded_readable 0)) in Hrun.
    exists codec'. rewrite Hrun. vm_compute in Hrs. injection Hrs as _ <-. reflexivity.
  - intros t. assert (Hl := @loop_exact Z unit FailingCodec 3 t None ltac:(by split) eq_refl eq_refl).
    destruct (looped t 3 0 None) as [codec' rs] eqn:Hrs. destruct Hl as (Hrun & _).
    vm_compute in Hrs. injection Hrs as <- <-. exists None. exact Hrun.
Defined.

(** A single pass shows every frame of the way, once.  A transport that does
    not loop and plays from its cursor shows the frames to the mark ahead at its
    speed, marks the last one as the end and no other, and then holds at the
    mark or stops and rewinds, as configured. *)
Theorem play_through_exact {F C} `{FrameCodec C F} (m : nat) (t : Transport F) (codec : option C)
    (Hwf : transport_wf t) (Hread : readable t codec) (Hplay : state t = Playing)
    (Hloop : looping t = false) (Hm : room t `div` frame_step (motion t) = Z.of_nat m) :
  ∃ codec' fs, pulls (S m) (t, codec) = ((at_end t, codec'), Ret fs) ∧ length fs = S m ∧
    ∀ (k : nat) f, fs !! k = Some f →
      index f = cursor t + Z.of_nat k * signed_step (motion t) ∧ (ended f = true ↔ k = m).
Proof. by apply once_pulls. Qed.
Lemma play_through_exact_witness :
  ∃ codec fs, @pulls Z unit FailingCodec 3 (ex_transport Reverse1x false, None) =
    ((mk_transport ex_clip Paused 1 (mk_marks 1 4) Reverse1x false Hold, codec), Ret fs) ∧
    (pf_frame <$> fs) = [13; 12; 11].
Proof.
  destruct (@play_through_exact Z unit FailingCodec 2 (ex_transport Reverse1x false) None)
    as (codec & fs & Hrun & _ & _);
    [by apply ex_transport_wf|apply ex_transport_readable|done..|].
  exists codec, fs. split; [exact Hrun|]. vm_compute in Hrun. by injection Hrun as _ <-.
Defined.
