(* ===== verification/Playlist.v ===== *)
(** Playlists, [crates/media/fm-playback/src/playlist.rs]: entries that play a clip
    of the library and name what follows, the player that runs them frame by
    frame, and programmed GO commands that cue an entry at an exact coordinate.

    [Playlist] and [PlaylistPlayer] map to the records of the same names. *)
From S2P Require Import Prelude BTree Playback.

Abbreviation PlaylistEntryId := Z (only parsing).
Abbreviation GoId := Z (only parsing).
Abbreviation ScheduleCoordinate := Z (only parsing).

(** ** Playlists *)

Module EndAction.
Inductive t := Stop | Loop | Next (next : PlaylistEntryId).
End EndAction.

Record PlaylistEntry := mk_entry {
  pe_id : PlaylistEntryId;
  pe_clip_id : ClipId;
  pe_marks : option Marks;
  pe_speed : Speed;
  end_action : EndAction.t
}.
Definition entry_new (id : PlaylistEntryId) (clip_id : ClipId) : PlaylistEntry :=
  mk_entry id clip_id None Forward1x EndAction.Stop.
Definition with_marks (marks : Marks) (self : PlaylistEntry) : PlaylistEntry :=
  mk_entry (pe_id self) (pe_clip_id self) (Some marks) (pe_speed self) (end_action self).
Definition with_speed (speed : Speed) (self : PlaylistEntry) : PlaylistEntry :=
  mk_entry (pe_id self) (pe_clip_id self) (pe_marks self) speed (end_action self).
Definition with_end_action (action : EndAction.t) (self : PlaylistEntry) : PlaylistEntry :=
  mk_entry (pe_id self) (pe_clip_id self) (pe_marks self) (pe_speed self) action.

Inductive PlaylistError :=
  | EmptyPlaylist
  | DuplicateEntry (id : PlaylistEntryId)
  | MissingEntry (id : PlaylistEntryId)
  | DanglingNext (entry next : PlaylistEntryId)
  | Library (e : LibraryError)
  | InvalidEntryMarks (entry : PlaylistEntryId) (source : PlaybackError).

Record Playlist := mk_playlist {
  entries : btmap PlaylistEntryId PlaylistEntry;
  first : PlaylistEntryId
}.
Fixpoint insert_entries (by_id : btmap PlaylistEntryId PlaylistEntry) (l : list PlaylistEntry) :
    result PlaylistError (btmap PlaylistEntryId PlaylistEntry) :=
  match l with
  | [] => Ok by_id
  | entry :: l =>
      if bt_contains (pe_id entry) by_id then Err (DuplicateEntry (pe_id entry))
      else insert_entries (bt_insert (pe_id entry) entry by_id) l
  end.
Fixpoint check_next (by_id : btmap PlaylistEntryId PlaylistEntry) (l : list PlaylistEntry) :
    result PlaylistError unit :=
  match l with
  | [] => Ok tt
  | entry :: l =>
      match end_action entry with
      | EndAction.Next next =>
          if bt_contains next by_id then check_next by_id l
          else Err (DanglingNext (pe_id entry) next)
      | _ => check_next by_id l
      end
  end.
Definition playlist_new (l : list PlaylistEntry) : result PlaylistError Playlist :=
  entry ← ok_or EmptyPlaylist (head l);
  by_id ← insert_entries [] l;
  _ ← check_next by_id (bt_values by_id);
  Ok (mk_playlist by_id (pe_id entry)).
Definition playlist_entry (id : PlaylistEntryId) (self : Playlist) : option PlaylistEntry :=
  bt_get id (entries self).

(** ** Programmed GO *)

Record ProgrammedGo := mk_go {
  go_id : GoId;
  coordinate : ScheduleCoordinate;
  go_entry : PlaylistEntryId
}.
#[global] Instance ProgrammedGo_eq_dec : EqDecision ProgrammedGo.
Proof. solve_decision. Defined.
Inductive GoStatus := Pending | Cancelled | Executed.
#[global] Instance GoStatus_eq_dec : EqDecision GoStatus.
Proof. solve_decision. Defined.
Inductive GoScheduleOutcome := Scheduled | Unchanged (status : GoStatus).
Inductive CancelGoOutcome := GoCancelled | AlreadyCancelled | AlreadyExecuted.
Inductive GoError :=
  | UnknownGo (id : GoId)
  | ConflictingGo (id : GoId)
  | CoordinateElapsed (c : ScheduleCoordinate)
  | CoordinateReversed (previous requested : ScheduleCoordinate)
  | GoPlaylist (e : PlaylistError).
Record GoRecord := mk_go_record { command : ProgrammedGo; status : GoStatus }.

(** ** The player *)

Record PlaylistPlayer (F : Type) := mk_player {
  library : ClipLibrary F;
  playlist : Playlist;
  current_entry : option PlaylistEntryId;
  transport : option (Transport F);
  go_records : btmap GoId GoRecord;
  pending_go : btset (ScheduleCoordinate * GoId);
  applied_coordinate : option ScheduleCoordinate
}.
Arguments mk_player {F} library playlist current_entry transport go_records pending_go
  applied_coordinate.
Arguments library {F} p.
Arguments playlist {F} p.
Arguments current_entry {F} p.
Arguments transport {F} p.
Arguments go_records {F} p.
Arguments pending_go {F} p.
Arguments applied_coordinate {F} p.

Inductive PlayerError :=
  | NoActiveEntry
  | PlayerPlayback (e : PlaybackError)
  | PlayerPlaylist (e : PlaylistError).

(** Run a method of a local object. *)
Definition st_local {S T E A} (t : T) (m : stm T E A) : stm S E T := λ s,
  match m t with
  | (t, Ret _) => (s, Ret t)
  | (_, Throw e) => (s, Throw e)
  | (_, Panic) => (s, Panic)
  end.
Lemma wp_local {S T E A} (t : T) (m : stm T E A) (Q : outcome E T → S → Prop) s :
  wp m (λ r t', match r with
                | Ret _ => Q (Ret t') s
                | Throw e => Q (Throw e) s
                | Panic => Q Panic s
                end) t →
  wp (st_local t m) Q s.
Proof. unfold wp, st_local. by destruct (m t) as [t' []]. Qed.

Section player.
Context {F : Type}.
Implicit Types (self : PlaylistPlayer F).

Definition set_go (records : btmap GoId GoRecord) (pending : btset (ScheduleCoordinate * GoId)) self :
    PlaylistPlayer F :=
  mk_player (library self) (playlist self) (current_entry self) (transport self) records pending
    (applied_coordinate self).
Definition set_applied (c : ScheduleCoordinate) self : PlaylistPlayer F :=
  mk_player (library self) (playlist self) (current_entry self) (transport self) (go_records self)
    (pending_go self) (Some c).
Definition set_transport (t : Transport F) self : PlaylistPlayer F :=
  mk_player (library self) (playlist self) (current_entry self) (Some t) (go_records self)
    (pending_go self) (applied_coordinate self).
Definition set_current (id : PlaylistEntryId) (t : Transport F) self : PlaylistPlayer F :=
  mk_player (library self) (playlist self) (Some id) (Some t) (go_records self)
    (pending_go self) (applied_coordinate self).

(** One entry of the constructor's validation loop. *)
Definition check_entry (l : ClipLibrary F) (entry : PlaylistEntry) : stm unit PlaylistError unit :=
  clip ← st_lift (ok_or (Library (MissingClip (pe_clip_id entry))) (library_get (pe_clip_id entry) l));
  match pe_marks entry with
  | Some marks =>
      transport ← st_expect (transport_new clip);
      _ ← st_map_err (InvalidEntryMarks (pe_id entry)) (st_local transport (set_marks marks));
      mret tt
  | None => mret tt
  end.
Fixpoint check_entries (l : ClipLibrary F) (es : list PlaylistEntry) : stm unit PlaylistError unit :=
  match es with
  | [] => mret tt
  | entry :: es => _ ← check_entry l entry; check_entries l es
  end.
Definition player_new (l : ClipLibrary F) (p : Playlist) : outcome PlaylistError (PlaylistPlayer F) :=
  ((_ ← check_entries l (bt_values (entries p)); mret (mk_player l p None None [] [] None)) tt).2.

Definition activate (entry_id : PlaylistEntryId) : stm (PlaylistPlayer F) PlaylistError unit :=
  self ← st_get;
  entry ← st_lift (ok_or (MissingEntry entry_id) (playlist_entry entry_id (playlist self)));
  clip ← st_lift (ok_or (Library (MissingClip (pe_clip_id entry)))
                    (library_get (pe_clip_id entry) (library self)));
  transport ← st_expect (transport_new clip);
  transport ← match pe_marks entry with
              | Some marks =>
                  st_map_err (InvalidEntryMarks entry_id) (st_local transport (set_marks marks))
              | None => mret transport
              end;
  transport ← if decide (speed_direction (pe_speed entry) = Some Reverse) then
                st_map_err (InvalidEntryMarks entry_id)
                  (st_local transport (seek (mark_out (marks transport))))
              else mret transport;
  let transport := match end_action entry with
                   | EndAction.Stop => set_end_behavior Stop transport
                   | _ => transport
                   end in
  st_modify (set_current entry_id (set_speed (pe_speed entry) transport)).
Definition go (entry : PlaylistEntryId) : stm (PlaylistPlayer F) PlaylistError unit := activate entry.

Definition schedule_go (c : ProgrammedGo) : stm (PlaylistPlayer F) GoError GoScheduleOutcome :=
  self ← st_get;
  match playlist_entry (go_entry c) (playlist self) with
  | None => mthrow (GoPlaylist (MissingEntry (go_entry c)))
  | Some _ =>
      match bt_get (go_id c) (go_records self) with
      | Some record =>
          if decide (command record = c) then mret (Unchanged (status record))
          else mthrow (ConflictingGo (go_id c))
      | None =>
          if from_option (λ applied, bool_decide (coordinate c ≤ applied)) false (applied_coordinate self)
          then
            mthrow (CoordinateElapsed (coordinate c))
          else
            _ ← st_put (set_go (bt_insert (go_id c) (mk_go_record c Pending) (go_records self))
                          (bs_insert (coordinate c, go_id c) (pending_go self)) self);
            mret Scheduled
      end
  end.

Definition cancel_go (id : GoId) : stm (PlaylistPlayer F) GoError CancelGoOutcome :=
  self ← st_get;
  record ← st_lift (ok_or (UnknownGo id) (bt_get id (go_records self)));
  match status record with
  | Pending =>
      _ ← st_put (set_go (bt_insert id (mk_go_record (command record) Cancelled) (go_records self))
                    (filter (.≠ (coordinate (command record), id)) (pending_go self)) self);
      mret GoCancelled
  | Cancelled => mret AlreadyCancelled
  | Executed => mret AlreadyExecuted
  end.
Definition go_status (id : GoId) self : option GoStatus := status <$> bt_get id (go_records self).

(** The loop of [apply_scheduled] over the commands that are due. *)
Fixpoint execute_due (due : list (ScheduleCoordinate * GoId)) :
    stm (PlaylistPlayer F) GoError (list GoId) :=
  match due with
  | [] => mret []
  | (target, id) :: due =>
      self ← st_get;
      record ← st_expect (bt_get id (go_records self));
      _ ← st_map_err GoPlaylist (activate (go_entry (command record)));
      self ← st_get;
      let records := match bt_get id (go_records self) with
                     | Some record =>
                         bt_insert id (mk_go_record (command record) Executed) (go_records self)
                     | None => go_records self
                     end in
      _ ← st_put (set_go records (filter (.≠ (target, id)) (pending_go self)) self);
      executed ← execute_due due;
      mret (id :: executed)
  end.
Definition apply_scheduled (c : ScheduleCoordinate) : stm (PlaylistPlayer F) GoError (list GoId) :=
  self ← st_get;
  _ ← match applied_coordinate self with
      | Some previous => st_require (¬ c < previous) (CoordinateReversed previous c)
      | None => mret tt
      end;
  let due := filter (λ p, key_le p (c, ty_max U128)) (pending_go self) in
  executed ← execute_due due;
  _ ← st_modify (set_applied c);
  mret executed.

Context `{FrameCodec C F}.

Definition player_pull : stm (PlaylistPlayer F * option C) PlayerError (PlaybackFrame F) :=
  '(self, _) ← st_get;
  entry_id ← st_lift (ok_or NoActiveEntry (current_entry self));
  t ← st_lift (ok_or NoActiveEntry (transport self));
  output ← st_map_err PlayerPlayback
    (st_zoom (λ s, (t, s.2)) (λ tc s, (set_transport tc.1 s.1, tc.2)) pull_frame);
  _ ← if ended output then
        entry ← st_lift (ok_or (PlayerPlaylist (MissingEntry entry_id))
                           (playlist_entry entry_id (playlist self)));
        match end_action entry with
        | EndAction.Stop => mret tt
        | EndAction.Loop =>
            st_zoom fst (λ p s, (p, s.2)) (st_map_err PlayerPlaylist (activate entry_id))
        | EndAction.Next next =>
            st_zoom fst (λ p s, (p, s.2)) (st_map_err PlayerPlaylist (activate next))
        end
      else mret tt;
  mret output.
End player.

(** ** The invariant *)

Section invariant.
Context {F : Type}.
Implicit Types (p : PlaylistPlayer F) (t : Transport F).

(** An entry plays a clip of the library between marks that lie in it. *)
Definition entry_ok (l : ClipLibrary F) (e : PlaylistEntry) : Prop :=
  ∃ c, library_get (pe_clip_id e) l = Some c ∧ clip_wf c ∧
    ∀ m, pe_marks e = Some m → 0 ≤ mark_in m ≤ mark_out m ∧ mark_out m < frame_count c.
Definition playlist_ok (l : ClipLibrary F) (pl : Playlist) : Prop :=
  ∀ id e, playlist_entry id pl = Some e → pe_id e = id ∧ entry_ok l e ∧
    ∀ next, end_action e = EndAction.Next next → is_Some (playlist_entry next pl).

Definition active_ok p : Prop :=
  match current_entry p, transport p with
  | Some id, Some t => is_Some (playlist_entry id (playlist p)) ∧ transport_wf t
  | None, None => True
  | _, _ => False
  end.
(** The pending set indexes the pending records, and all of them lie ahead. *)
Record gos_ok (pl : Playlist) (records : btmap GoId GoRecord)
    (pending : btset (ScheduleCoordinate * GoId)) (applied : option ScheduleCoordinate) : Prop := {
  go_sorted : bs_sorted pending;
  go_index : ∀ c id, (c, id) ∈ pending ↔
    ∃ r, bt_get id records = Some r ∧ status r = Pending ∧ coordinate (command r) = c;
  go_known : ∀ id r, bt_get id records = Some r →
    in_ty U128 id ∧ is_Some (playlist_entry (go_entry (command r)) pl);
  go_ahead : ∀ a c id, applied = Some a → (c, id) ∈ pending → a < c
}.
Record player_wf p : Prop := {
  pw_playlist : playlist_ok (library p) (playlist p);
  pw_active : active_ok p;
  pw_gos : gos_ok (playlist p) (go_records p) (pending_go p) (applied_coordinate p)
}.

(** An entry cued at the end it plays from. *)
Definition cued (e : PlaylistEntry) t : Prop :=
  transport_wf t ∧ looping t = false ∧
  (∀ m, pe_marks e = Some m → marks t = m) ∧
  cursor t = (if decide (speed_direction (pe_speed e) = Some Reverse) then mark_out (marks t)
              else mark_in (marks t)) ∧
  speed t = pe_speed e ∧
  end_behavior t = match end_action e with EndAction.Stop => Stop | _ => Hold end.

Lemma activate_spec id p : playlist_ok (library p) (playlist p) →
  wp (activate id) (λ r p',
    match playlist_entry id (playlist p) with
    | Some e => r = Ret tt ∧ ∃ t, cued e t ∧ p' = set_current id t p
    | None => r = Throw (MissingEntry id) ∧ p' = p
    end) p.
Proof.
  intros Hok. unfold activate. wp_step. wp_step. cbn beta iota. wp_step.
  destruct (playlist_entry id (playlist p)) as [e|] eqn:He;
    [|apply wp_lift; [done|]; by intros e' [= <-]].
  apply wp_lift; [|done]. intros e' [= <-].
  destruct (Hok id e He) as (_ & (c & Hlib & Hc & Hmarks) & _).
  wp_step. rewrite Hlib. apply wp_lift; [|done]. intros c' [= <-].
  destruct (transport_new_wf c Hc) as (t0 & Hnew & Hwf0 & Hclip0 & Hm0 & Hcur0 & Hst0 & Hl0 & He0).
  wp_step. rewrite Hnew. apply wp_expect; [|done]. intros t' [= <-].
  (* the marks *)
  set (marked := λ t, transport_wf t ∧ looping t = false ∧ end_behavior t = Hold ∧
    cursor t = mark_in (marks t) ∧ ∀ m, pe_marks e = Some m → marks t = m).
  wp_step. apply wp_mono with (λ r p', p' = p ∧ ∃ t, r = Ret t ∧ marked t).
  { destruct (pe_marks e) as [m|] eqn:Hem.
    - destruct (Hmarks m eq_refl) as [Hin Hout]. apply wp_map_err, wp_local.
      eapply wp_mono; [apply set_marks_spec; [done|lia]|]. intros r t (Hwf & _ & Hr).
      destruct r as [[]|e0|]; [|rewrite Hclip0 in Hr; lia|done].
      destruct Hr as (_ & _ & Hmt & _ & _ & Hlt & Het & Hct). split; [done|].
      exists t. split; [done|]. split_and!; [done|congruence|congruence| |congruence].
      rewrite Hct, Hcur0, Hmt. destruct (decide (mark_in m ≤ 0 ≤ mark_out m)); lia.
    - wp_run. split; [done|]. exists t0. split; [done|]. unfold marked. split_and!; try done. by rewrite Hcur0, Hm0. }
  intros r p' (-> & t1 & -> & (Hwf1 & Hl1 & He1 & Hcur1 & Hm1)). cbn beta iota.
  (* the direction *)
  wp_step. apply wp_mono with (λ r p', p' = p ∧ ∃ t, r = Ret t ∧ transport_wf t ∧
    looping t = false ∧ end_behavior t = Hold ∧ marks t = marks t1 ∧
    cursor t = if decide (speed_direction (pe_speed e) = Some Reverse) then mark_out (marks t)
               else mark_in (marks t)).
  { destruct (decide (speed_direction (pe_speed e) = Some Reverse)).
    - apply wp_map_err, wp_local. eapply wp_mono; [by apply seek_spec|]. intros r t (Hwf & Hr).
      destruct r as [[]|e1|]; [|exfalso; destruct Hwf1; lia|done]. destruct Hr as [_ ->].
      split; [done|]. by eexists.
    - wp_run. split; [done|]. by eexists. }
  intros r p' (-> & t2 & -> & Hwf2 & Hl2 & He2 & Hm2 & Hcur2). cbn beta iota zeta.
  wp_step. split; [done|]. eexists. split; [|done].
  set (t3 := match end_action e with EndAction.Stop => set_end_behavior Stop t2 | _ => t2 end).
  assert (transport_wf t3 ∧ looping t3 = false ∧ marks t3 = marks t1 ∧ cursor t3 = cursor t2 ∧
    end_behavior t3 = match end_action e with EndAction.Stop => Stop | _ => Hold end) as
    (Hwf3 & Hl3 & Hm3 & Hcur3 & He3).
  { unfold t3. destruct (end_action e); split_and!; try done. destruct Hwf2. by split. }
  assert (Hsw : transport_wf (set_speed (pe_speed e) t3)).
  { destruct Hwf3. unfold set_speed. destruct (decide (pe_speed e = Pause)); by split. }
  assert (Hsm : marks (set_speed (pe_speed e) t3) = marks t1 ∧
    cursor (set_speed (pe_speed e) t3) = cursor t2 ∧
    looping (set_speed (pe_speed e) t3) = false ∧
    end_behavior (set_speed (pe_speed e) t3) = end_behavior t3 ∧
    speed (set_speed (pe_speed e) t3) = pe_speed e).
  { unfold set_speed, speed. by destruct (decide (pe_speed e = Pause)) as [->|]. }
  destruct Hsm as (Hsm & Hsc & Hsl & Hse & Hss).
  split_and!; [done|done|by rewrite Hsm| |done|by rewrite Hse].
  by rewrite Hsm, Hsc, Hcur2, Hm2.
Qed.
End invariant.

(** ** Programmed GO *)

Section gos.
Context {F : Type}.
Implicit Types (p : PlaylistPlayer F).

(** Calls that leave what plays alone. *)
Definition same_playing p p' : Prop :=
  library p' = library p ∧ playlist p' = playlist p ∧ current_entry p' = current_entry p ∧
  transport p' = transport p.

Lemma gos_schedule pl records pending applied c :
  gos_ok pl records pending applied → bt_get (go_id c) records = None → in_ty U128 (go_id c) →
  is_Some (playlist_entry (go_entry c) pl) → (∀ a, applied = Some a → a < coordinate c) →
  gos_ok pl (bt_insert (go_id c) (mk_go_record c Pending) records)
    (bs_insert (coordinate c, go_id c) pending) applied.
Proof.
  intros [Hs Hi Hk Ha] Hnew Hid He Hc. split.
  - by apply bs_insert_sorted.
  - intros c' id. rewrite elem_of_bs_insert, bt_get_insert, Hi. case_decide as Heq.
    + subst id. rewrite Hnew. split; [|by intros (r & [= <-] & _ & <-); left].
      intros [[= ->]|(r & ? & _)]; [by eexists|done].
    + split; [intros [[= -> ->]|?]; [done|done]|by right].
  - intros id r. rewrite bt_get_insert. case_decide; [|apply Hk]. intros [= <-]. by subst.
  - intros a c' id Happ [[= -> ->]|?]%elem_of_bs_insert; [by apply Hc|by eapply Ha].
Qed.
(** A pending command leaves the pending set as its record ends. *)
Lemma gos_finish pl records pending applied id r st :
  gos_ok pl records pending applied → bt_get id records = Some r → st ≠ Pending →
  gos_ok pl (bt_insert id (mk_go_record (command r) st) records)
    (filter (.≠ (coordinate (command r), id)) pending) applied.
Proof.
  intros [Hs Hi Hk Ha] Hr Hst. split.
  - unfold bs_sorted in *. clear -Hs. induction Hs as [|x l Hl IH Hx]; [constructor|].
    rewrite filter_cons. case_decide; [|done]. constructor; [done|].
    rewrite Forall_forall in *. intros y [_ Hy]%list_elem_of_filter. auto.
  - intros c id'. rewrite list_elem_of_filter, Hi, bt_get_insert. case_decide as Heq.
    + subst id'. rewrite Hr. split; [|by intros (r' & [= <-] & ? & _)].
      intros (Hne & r' & [= <-] & _ & <-). done.
    + split; [by intros (_ & Hr')|]. intros Hr'. split; [|done]. congruence.
  - intros id' r'. rewrite bt_get_insert. case_decide; [|apply Hk]. intros [= <-]. subst.
    apply (Hk _ _ Hr).
  - intros a c id' Happ [_ Hin]%list_elem_of_filter. by eapply Ha.
Qed.

Lemma schedule_go_spec c p : player_wf p → in_ty U128 (go_id c) →
  wp (schedule_go c) (λ r p', player_wf p' ∧ same_playing p p' ∧
    applied_coordinate p' = applied_coordinate p ∧
    match r with
    | Ret Scheduled => go_status (go_id c) p = None ∧
        (∀ a, applied_coordinate p = Some a → a < coordinate c) ∧
        ∀ id, go_status id p' = if decide (go_id c = id) then Some Pending else go_status id p
    | Ret (Unchanged st) => p' = p ∧ bt_get (go_id c) (go_records p) = Some (mk_go_record c st)
    | Throw _ => p' = p
    | Panic => False
    end) p.
Proof.
  intros Hwf Hid. assert (Hwf' := Hwf). destruct Hwf' as [Hpl Hact Hgos].
  unfold schedule_go. wp_step. wp_step. cbn beta iota.
  destruct (playlist_entry (go_entry c) (playlist p)) as [e|] eqn:He; [|by wp_step].
  destruct (bt_get (go_id c) (go_records p)) as [r|] eqn:Hr.
  - case_decide as Hsame; wp_step; [|by split_and!]. split_and!; try done.
    destruct r as [c' st]. simpl in *. by subst c'.
  - destruct (from_option (λ applied, bool_decide (coordinate c ≤ applied)) false
      (applied_coordinate p)) eqn:Happ; [by wp_step|].
    assert (Hlater : ∀ a, applied_coordinate p = Some a → a < coordinate c).
    { intros a Ha. rewrite Ha in Happ. simpl in Happ. apply bool_decide_eq_false in Happ. lia. }
    wp_run. split_and!; try done.
    + split; [done|done|]. by apply gos_schedule.
    + unfold go_status. by rewrite Hr.
    + intros id. unfold go_status. simpl. rewrite bt_get_insert. by case_decide.
Qed.

Lemma cancel_go_spec id p : player_wf p →
  wp (cancel_go id) (λ r p', player_wf p' ∧ same_playing p p' ∧
    applied_coordinate p' = applied_coordinate p ∧
    match r with
    | Ret GoCancelled => go_status id p = Some Pending ∧
        ∀ id', go_status id' p' = if decide (id = id') then Some Cancelled else go_status id' p
    | Ret AlreadyCancelled => p' = p ∧ go_status id p = Some Cancelled
    | Ret AlreadyExecuted => p' = p ∧ go_status id p = Some Executed
    | Throw e => p' = p ∧ e = UnknownGo id ∧ go_status id p = None
    | Panic => False
    end) p.
Proof.
  intros Hwf. assert (Hwf' := Hwf). destruct Hwf' as [Hpl Hact Hgos].
  unfold cancel_go, go_status. wp_step. wp_step. cbn beta iota. wp_step.
  destruct (bt_get id (go_records p)) as [r|] eqn:Hr.
  2: { apply wp_lift; [done|]. by intros e [= <-]. }
  apply wp_lift; [|done]. intros r' [= <-]. simpl.
  destruct (status r) eqn:Hst; wp_run; [|by split_and!..].
  split_and!; try done.
  - split; [done|done|]. by apply gos_finish.
  - intros id'. simpl. rewrite bt_get_insert. by case_decide.
Qed.

(** What [execute_due] does, in one step. *)
Lemma execute_due_spec due p : player_wf p → NoDup due →
  (∀ x, x ∈ due → x ∈ pending_go p) →
  wp (execute_due due) (λ r p', r = Ret due.*2 ∧ player_wf p' ∧
    playlist p' = playlist p ∧ applied_coordinate p' = applied_coordinate p ∧
    (∀ id, go_status id p' = if decide (id ∈ due.*2) then Some Executed else go_status id p) ∧
    (∀ x, x ∈ pending_go p' ↔ x ∈ pending_go p ∧ x ∉ due) ∧
    match last due with
    | Some (_, id) => ∃ r, bt_get id (go_records p) = Some r ∧
        current_entry p' = Some (go_entry (command r))
    | None => p' = p
    end) p.
Proof.
  revert p. induction due as [|[c id] due IH]; intros p Hwf Hnd Hsub; cbn [execute_due].
  { wp_run. split_and!; try done. set_solver. }
  apply NoDup_cons in Hnd as [Hnew Hnd]. assert (Hwf' := Hwf). destruct Hwf' as [Hpl Hact Hgos].
  destruct (proj1 (go_index _ _ _ _ Hgos c id) (Hsub _ ltac:(by left))) as (r & Hr & Hst & <-).
  destruct (go_known _ _ _ _ Hgos id r Hr) as [Hid [e He]].
  wp_step. wp_step. cbn beta iota. wp_step. rewrite Hr. apply wp_expect; [|done]. intros r' [= <-].
  wp_step. apply wp_map_err. eapply wp_mono; [by apply activate_spec|].
  intros ? p1. rewrite He. intros (-> & t & Hcued & ->). cbn [outcome_map_err].
  wp_step. wp_step. cbn beta iota zeta. change (go_records (set_current (go_entry (command r)) t p)) with (go_records p).
  rewrite Hr. wp_step. wp_step. wp_step.
  set (p2 := set_go _ _ _).
  assert (Hwf2 : player_wf p2).
  { split; [done| |by apply gos_finish]. split; [by eexists|apply Hcued]. }
  assert (Hst2 : ∀ id', go_status id' p2 = if decide (id = id') then Some Executed else go_status id' p).
  { intros id'. unfold go_status. simpl. rewrite bt_get_insert. by case_decide. }
  assert (Hpend2 : ∀ x, x ∈ pending_go p2 ↔ x ∈ pending_go p ∧ x ≠ (coordinate (command r), id)).
  { intros x. simpl. rewrite list_elem_of_filter. tauto. }
  eapply wp_mono; [apply IH; [done|done|]|].
  { intros x Hx. rewrite Hpend2. split; [apply Hsub; by right|]. by intros ->. }
  intros ? p3 (-> & Hwf3 & Hpl3 & Happ3 & Hst3 & Hpend3 & Hlast). wp_run.
  split_and!; [done|done|done|done| | |].
  - intros id'. rewrite Hst3, Hst2. cbn [fmap list_fmap snd].
    destruct (decide (id' ∈ due.*2)); [by rewrite decide_True by by right|].
    destruct (decide (id = id')) as [->|]; [by rewrite decide_True by by left|].
    rewrite decide_False; [done|]. by intros [?|?]%elem_of_cons.
  - intros x. rewrite Hpend3, Hpend2. set_solver.
  - rewrite last_cons. destruct (last due) as [[c' id']|] eqn:Hl.
    + destruct Hlast as (r' & Hr' & Hcur). simpl in Hr'. rewrite bt_get_insert in Hr'.
      case_decide; [|by exists r']. injection Hr' as <-. subst id'. by exists r.
    + subst p3. by exists r.
Qed.

Lemma apply_scheduled_spec c p : player_wf p →
  wp (apply_scheduled c) (λ r p',
    (∃ previous, applied_coordinate p = Some previous ∧ c < previous ∧
      r = Throw (CoordinateReversed previous c) ∧ p' = p) ∨
    (∀ previous, applied_coordinate p = Some previous → previous ≤ c) ∧
    player_wf p' ∧ playlist p' = playlist p ∧ applied_coordinate p' = Some c ∧
    r = Ret (filter (λ x, x.1 ≤ c) (pending_go p)).*2 ∧
    (∀ id, go_status id p' =
      if decide (id ∈ (filter (λ x, x.1 ≤ c) (pending_go p)).*2) then Some Executed
      else go_status id p) ∧
    match last (filter (λ x, x.1 ≤ c) (pending_go p)) with
    | Some (_, id) => ∃ r, bt_get id (go_records p) = Some r ∧
        current_entry p' = Some (go_entry (command r))
    | None => current_entry p' = current_entry p ∧ transport p' = transport p
    end) p.
Proof.
  intros Hwf. assert (Hwf' := Hwf). destruct Hwf' as [Hpl Hact Hgos].
  unfold apply_scheduled. wp_step. wp_step. cbn beta iota.
  assert (Hdue : filter (λ x, key_le x (c, ty_max U128)) (pending_go p) =
    filter (λ x : Z * Z, x.1 ≤ c) (pending_go p)).
  { apply list_filter_iff_elem. intros [c' id] Hin.
    apply (go_index _ _ _ _ Hgos) in Hin as (r & Hr & _).
    apply (go_known _ _ _ _ Hgos) in Hr as [[_ Hid] _].
    rewrite key_le_lteq. unfold key_lt, key_cmp, prod_ord_key, key_cmp, Z_ord_key. simpl.
    destruct (Z.compare_spec c' c) as [->|?|?]; simpl.
    - split; [lia|]. intros _. destruct (Z.compare_spec id (ty_max U128)) as [->|?|?]; [by right|by left|].
      simpl in *. lia.
    - split; [lia|by left].
    - split; [|lia]. by intros [|[= -> _]]. }
  wp_step. apply wp_mono with (λ (r : outcome GoError unit) p', p' = p ∧
    ((∃ previous, applied_coordinate p = Some previous ∧ c < previous ∧
      r = Throw (CoordinateReversed previous c)) ∨
     (∀ previous, applied_coordinate p = Some previous → previous ≤ c) ∧ r = Ret tt)).
  { destruct (applied_coordinate p) as [previous|]; wp_run; split; try done; [|left|].
    - right. split; [|done]. intros ? [= <-]. lia.
    - exists previous. split_and!; [done|lia|done].
    - by right. }
  intros r p' (-> & [(previous & Happ & Hlt & ->)|[Hle ->]]).
  { left. by exists previous. }
  cbn beta iota zeta. rewrite Hdue. clear Hdue.
  set (due := filter (λ x : Z * Z, x.1 ≤ c) (pending_go p)).
  wp_step. eapply wp_mono; [apply execute_due_spec; [done| |]|].
  { apply NoDup_filter, StronglySorted_key_NoDup, (go_sorted _ _ _ _ Hgos). }
  { intros x. unfold due. rewrite list_elem_of_filter. tauto. }
  intros ? p1 (-> & [Hpl1 Hact1 Hgos1] & Hpleq & Happ1 & Hst1 & Hpend1 & Hlast1).
  cbn beta iota. wp_run. right.
  split_and!; [done| |done|done|done| |].
  - split; [done|done|]. destruct Hgos1 as [Hs Hi Hk Ha]. split; [done..|].
    intros a c' id [= <-] Hin. simpl in Hin. apply Hpend1 in Hin as [Hin Hout].
    unfold due in Hout. rewrite list_elem_of_filter in Hout. simpl in Hout.
    destruct (decide (c' ≤ c)); [tauto|lia].
  - intros id. apply Hst1.
  - destruct (last due) as [[c' id]|]; [done|]. by subst p1.
Qed.
End gos.

(** ** Pulling frames *)

Section pull.
Context {F C : Type} `{FrameCodec C F}.
Implicit Types (p : PlaylistPlayer F) (t : Transport F) (codec : option C).

Definition same_gos p p' : Prop :=
  library p' = library p ∧ playlist p' = playlist p ∧ go_records p' = go_records p ∧
  pending_go p' = pending_go p ∧ applied_coordinate p' = applied_coordinate p.

(** What the player plays after a pull: what the transport came to, or after
    its end what the entry programs. *)
Definition plays_next p (id : PlaylistEntryId) (t' : Transport F) (crossed : bool) p' : Prop :=
  match playlist_entry id (playlist p), crossed with
  | Some e, true =>
      match end_action e with
      | EndAction.Stop => current_entry p' = Some id ∧ transport p' = Some t'
      | EndAction.Loop => current_entry p' = Some id ∧ ∃ t, cued e t ∧ transport p' = Some t
      | EndAction.Next next => current_entry p' = Some next ∧
          ∃ en t, playlist_entry next (playlist p) = Some en ∧ cued en t ∧ transport p' = Some t
      end
  | _, _ => current_entry p' = Some id ∧ transport p' = Some t'
  end.

Lemma set_transport_wf p id t : player_wf p → current_entry p = Some id → transport_wf t →
  player_wf (set_transport t p).
Proof.
  intros [Hpl Hact Hgos] Hcur Ht. split; [done| |done]. unfold active_ok in *. simpl.
  rewrite Hcur in *. destruct (transport p); [|done]. by destruct Hact.
Qed.
Lemma set_current_wf p id t : player_wf p → is_Some (playlist_entry id (playlist p)) →
  transport_wf t → player_wf (set_current id t p).
Proof. intros [Hpl Hact Hgos] Hid Ht. by split. Qed.

Lemma player_pull_spec p codec : player_wf p →
  wp player_pull (λ r s, player_wf s.1 ∧ same_gos p s.1 ∧
    match current_entry p, transport p with
    | Some id, Some t =>
        match pull_spec t codec with
        | (_, Throw e) => r = Throw (PlayerPlayback e) ∧ s.1 = set_transport t p
        | ((t', _), Ret f) => r = Ret f ∧ plays_next p id t' (ended f) s.1
        | (_, Panic) => False
        end
    | _, _ => r = Throw NoActiveEntry ∧ s.1 = p
    end) (p, codec).
Proof.
  intros Hwf. assert (Hwf' := Hwf). destruct Hwf' as [Hpl Hact Hgos]. unfold active_ok in Hact.
  unfold player_pull. wp_step. wp_step. cbn beta iota. wp_step.
  destruct (current_entry p) as [id|] eqn:Hcur, (transport p) as [t|] eqn:Ht; try done.
  apply wp_lift; [|done]. intros ? [= <-]. wp_step. apply wp_lift; [|done]. intros ? [= <-].
  destruct Hact as [[e He] Htwf]. wp_step. apply wp_map_err, wp_zoom. unfold wp at 1. cbn [snd].
  rewrite pull_frame_spec by done.
  assert (Hwft : transport_wf (pull_spec t codec).1.1).
  { unfold pull_spec. destruct (read_current codec t) as [codec' [f|err]]; [|done].
    assert (Hstep := step_spec_wf t Htwf). case_decide; [|done]. by destruct (step_spec t). }
  destruct (pull_spec t codec) as [[t' codec'] [f|err|]] eqn:Hpull; cbn [fst snd outcome_map_err] in *.
  3: { unfold pull_spec in Hpull. destruct (read_current codec t) as [? [?|?]]; [|done].
    by destruct (if decide (state t = Playing) then step_spec t else (t, false)). }
  2: { assert (t' = t) as ->.
    { unfold pull_spec in Hpull. destruct (read_current codec t) as [? [?|?]]; [|by simplify_eq].
      by destruct (if decide (state t = Playing) then step_spec t else (t, false)). }
    split_and!; [by eapply set_transport_wf|done|done|done]. }
  wp_step. unfold plays_next. rewrite He.
  assert (Hwf1 : player_wf (set_transport t' p)) by by eapply set_transport_wf.
  destruct (ended f).
  2: { wp_run. by split_and!. }
  wp_step.
  apply wp_lift; [|done]. intros ? [= <-].
  assert (Hcue : ∀ next en, playlist_entry next (playlist p) = Some en →
    wp (st_zoom fst (λ q s, (q, s.2)) (st_map_err PlayerPlaylist (activate next)))
      (λ r s, r = Ret tt ∧ player_wf s.1 ∧ same_gos p s.1 ∧ current_entry s.1 = Some next ∧
        ∃ t, cued en t ∧ transport s.1 = Some t) (set_transport t' p, codec')).
  { intros next en Hnext. apply wp_zoom, wp_map_err. eapply wp_mono; [by apply activate_spec|].
    intros r q. cbn [fst]. change (playlist (set_transport t' p)) with (playlist p). rewrite Hnext.
    intros (-> & t2 & Hcued & ->). split_and!; try done; [|by exists t2].
    apply set_current_wf; [done|by eexists|apply Hcued]. }
  destruct (Hpl id e He) as (_ & _ & Hnext). destruct (end_action e) as [| |next].
  - wp_run. by split_and!.
  - eapply wp_mono; [by apply Hcue|]. intros ? s (-> & ? & ? & ? & ?). wp_run. by split_and!.
  - destruct (Hnext next eq_refl) as [en Hen].
    eapply wp_mono; [by apply Hcue|]. intros ? s (-> & ? & ? & ? & t2 & ?). wp_run.
    split_and!; [done..|]. by exists en, t2.
Qed.
End pull.

(** ** Construction *)

Lemma insert_entries_spec l by_id by_id' : insert_entries by_id l = Ok by_id' →
  (∀ id e, bt_get id by_id = Some e → pe_id e = id) →
  ∀ id e, bt_get id by_id' = Some e → pe_id e = id ∧ (bt_get id by_id = Some e ∨ e ∈ l).
Proof.
  revert by_id. induction l as [|e l IH]; intros by_id Hins Hid id e' He'; simpl in Hins.
  { simplify_eq. split; [by apply Hid|by left]. }
  destruct (bt_contains (pe_id e) by_id); [done|].
  destruct (IH _ Hins) with (id := id) (e := e') as [Hpe Hin]; [|done|].
  { intros id0 e0. rewrite bt_get_insert. case_decide; [by intros [= <-]|apply Hid]. }
  split; [done|]. rewrite bt_get_insert in Hin. case_decide; [|set_solver].
  destruct Hin as [[= ->]|?]; set_solver.
Qed.
Lemma check_next_spec by_id l : check_next by_id l = Ok tt →
  ∀ e next, e ∈ l → end_action e = EndAction.Next next → is_Some (bt_get next by_id).
Proof.
  induction l as [|e l IH]; intros Hc e' next He' Hend; [by apply elem_of_nil in He'|].
  simpl in Hc. apply elem_of_cons in He' as [->|He'].
  - rewrite Hend in Hc. destruct (bt_contains next by_id) eqn:Hin; [|done].
    by apply bool_decide_eq_true in Hin.
  - destruct (end_action e) as [| |n]; [by eapply IH..|]. destruct (bt_contains n by_id); [|done].
    by eapply IH.
Qed.
Lemma playlist_new_spec l pl : playlist_new l = Ok pl →
  ∀ id e, playlist_entry id pl = Some e → pe_id e = id ∧ e ∈ l ∧ e ∈ bt_values (entries pl) ∧
    ∀ next, end_action e = EndAction.Next next → is_Some (playlist_entry next pl).
Proof.
  unfold playlist_new. intros (e0 & _ & (by_id & Hins & ([] & Hnext & [= <-])%result_bind_Ok)%result_bind_Ok)%result_bind_Ok.
  intros id e He. unfold playlist_entry in *. simpl in *.
  destruct (insert_entries_spec _ _ _ Hins) with (id := id) (e := e) as [Hid Hin]; [done|done|].
  assert (Hval : e ∈ bt_values by_id).
  { apply bt_get_elem in He. unfold bt_values. apply list_elem_of_fmap. by exists (id, e). }
  split_and!; [done| |done|].
  - by destruct Hin.
  - intros next Hend. by eapply check_next_spec.
Qed.

Lemma playlist_new_sorted l pl : playlist_new l = Ok pl → bt_sorted (entries pl).
Proof.
  unfold playlist_new. intros (e0 & _ & (by_id & Hins & ([] & _ & [= <-])%result_bind_Ok)%result_bind_Ok)%result_bind_Ok.
  revert Hins. simpl. generalize (@bt_sorted_nil Z _ PlaylistEntry).
  generalize ([] : btmap PlaylistEntryId PlaylistEntry).
  induction l as [|e l IH]; intros m Hm; simpl; [by intros [= <-]|].
  destruct (bt_contains (pe_id e) m); [done|]. by apply IH, bt_insert_sorted.
Qed.

Section construction.
Context {F : Type} (l : ClipLibrary F).
Hypothesis library_wf : ∀ id c, library_get id l = Some c → clip_wf c.

Lemma check_entry_spec e s : (∀ m, pe_marks e = Some m → 0 ≤ mark_in m) →
  wp (check_entry l e) (λ r _, match r with
                               | Ret _ => entry_ok l e
                               | Throw _ => ¬ entry_ok l e
                               | Panic => False
                               end) s.
Proof.
  intros Hty. unfold check_entry. wp_step.
  destruct (library_get (pe_clip_id e) l) as [c|] eqn:Hc.
  2: { apply wp_lift; [done|]. intros err [= <-]. by intros (c & Hc' & _); rewrite Hc in Hc'. }
  apply wp_lift; [|done]. intros ? [= <-]. assert (Hcw := library_wf _ _ Hc).
  destruct (pe_marks e) as [m|] eqn:Hm.
  2: { wp_run. exists c. by rewrite Hm. }
  destruct (transport_new_wf c Hcw) as (t0 & Hnew & Hwf0 & Hclip0 & _).
  wp_step. rewrite Hnew. apply wp_expect; [|done]. intros ? [= <-].
  wp_step. apply wp_map_err, wp_local. eapply wp_mono; [apply set_marks_spec; [done|by apply Hty]|].
  intros r t (_ & _ & Hr). rewrite Hclip0 in Hr. assert (0 ≤ mark_in m) by by apply Hty.
  destruct r as [[]|err|]; simpl; [|destruct Hr as [_ Hr]|done].
  - wp_run. exists c. split_and!; [done|done|]. intros m' Hm'. rewrite Hm in Hm'.
    injection Hm' as <-. lia.
  - intros (c' & Hc' & _ & Hok). rewrite Hc in Hc'. injection Hc' as <-. specialize (Hok m Hm). lia.
Qed.

Lemma check_entries_spec es s : (∀ e m, e ∈ es → pe_marks e = Some m → 0 ≤ mark_in m) →
  wp (check_entries l es) (λ r _, match r with
                                  | Ret _ => ∀ e, e ∈ es → entry_ok l e
                                  | Throw _ => ¬ ∀ e, e ∈ es → entry_ok l e
                                  | Panic => False
                                  end) s.
Proof.
  revert s. induction es as [|e es IH]; intros s Hty; simpl.
  { wp_run. by intros e ?%elem_of_nil. }
  wp_step. eapply wp_mono; [apply check_entry_spec; intros; apply (Hty e); [by left|done]|].
  intros [[]|err|] s' Hr; [|intros Hall; by apply Hr, Hall; left|done].
  eapply wp_mono; [apply IH; intros e' m He'; apply Hty; by right|].
  intros [[]|err|] s2 Hr2; [|intros Hall; apply Hr2; intros e' He'; apply Hall; by right|done].
  intros e' [->|He']%elem_of_cons; [done|by apply Hr2].
Qed.

(** The constructor accepts exactly the playlists it can play. *)
Lemma player_new_spec es pl : playlist_new es = Ok pl →
  (∀ e m, e ∈ es → pe_marks e = Some m → 0 ≤ mark_in m) →
  match player_new l pl with
  | Ret p => player_wf p ∧ p = mk_player l pl None None [] [] None
  | Throw _ => ¬ playlist_ok l pl
  | Panic => False
  end.
Proof.
  intros Hnew Hty. assert (Hspec := playlist_new_spec es pl Hnew).
  assert (Hdom : ∀ id e, (id, e) ∈ entries pl → playlist_entry id pl = Some e).
  { intros id e. apply bt_elem_get. by eapply playlist_new_sorted. }
  assert (Hval : ∀ e, e ∈ bt_values (entries pl) → ∃ id, playlist_entry id pl = Some e).
  { intros e ([id e'] & -> & Hin)%list_elem_of_fmap. exists id. by apply Hdom. }
  unfold player_new, mbind, stm_bind.
  assert (Hc : wp (check_entries l (bt_values (entries pl))) (λ r _,
    match r with
    | Ret _ => ∀ e, e ∈ bt_values (entries pl) → entry_ok l e
    | Throw _ => ¬ ∀ e, e ∈ bt_values (entries pl) → entry_ok l e
    | Panic => False
    end) tt).
  { apply check_entries_spec. intros e m He. destruct (Hval e He) as [id Hid].
    apply Hty. by apply (Hspec id e). }
  unfold wp in Hc. destruct (check_entries l (bt_values (entries pl)) tt) as [[] [[]|err|]]; simpl in *.
  - split; [|done]. split; simpl; [|done|].
    + intros id e He. destruct (Hspec id e He) as (? & ? & ? & ?). split_and!; [done|by apply Hc|done].
    + split; [constructor| |done|done]. intros c id. split; [by intros ?%elem_of_nil|].
      intros (? & ? & _). done.
  - intros Hok. apply Hc. intros e He. destruct (Hval e He) as [id Hid]. by apply (Hok id e).
  - done.
Qed.
End construction.

(** ** Histories *)

Inductive call :=
  | Go (entry : PlaylistEntryId)
  | ScheduleGo (c : ProgrammedGo)
  | CancelGo (id : GoId)
  | ApplyScheduled (c : ScheduleCoordinate)
  | Pull.
(** Identifiers are of type [u128]. *)
Definition call_wf (c : call) : Prop :=
  match c with
  | ScheduleGo c => in_ty U128 (go_id c)
  | _ => True
  end.

Section histories.
Context {F C : Type} `{FrameCodec C F}.
Implicit Types (p : PlaylistPlayer F) (codec : option C).

Inductive answer :=
  | AnswerGo (r : outcome PlaylistError unit)
  | AnswerSchedule (r : outcome GoError GoScheduleOutcome)
  | AnswerCancel (r : outcome GoError CancelGoOutcome)
  | AnswerApply (r : outcome GoError (list GoId))
  | AnswerPull (r : outcome PlayerError (PlaybackFrame F)).
Definition call_step (c : call) (s : PlaylistPlayer F * option C) :
    (PlaylistPlayer F * option C) * answer :=
  match c with
  | Go id => let '(p, r) := go id s.1 in ((p, s.2), AnswerGo r)
  | ScheduleGo g => let '(p, r) := schedule_go g s.1 in ((p, s.2), AnswerSchedule r)
  | CancelGo id => let '(p, r) := cancel_go id s.1 in ((p, s.2), AnswerCancel r)
  | ApplyScheduled x => let '(p, r) := apply_scheduled x s.1 in ((p, s.2), AnswerApply r)
  | Pull => let '(s, r) := player_pull s in (s, AnswerPull r)
  end.
Fixpoint run (calls : list call) (s : PlaylistPlayer F * option C) :
    (PlaylistPlayer F * option C) * list (call * answer) :=
  match calls with
  | [] => (s, [])
  | c :: calls =>
      let '(s, a) := call_step c s in
      let '(s, log) := run calls s in (s, (c, a) :: log)
  end.

(** The programmed commands that are due at a coordinate, in order. *)
Definition due_at (c : ScheduleCoordinate) p : list GoId :=
  (filter (λ x, x.1 ≤ c) (pending_go p)).*2.

(** The answer of a call and the player it leaves. *)
Definition answer_ok (s s' : PlaylistPlayer F * option C) (c : call) (a : answer) : Prop :=
  let '(p, codec) := s in
  let p' := s'.1 in
  match c, a with
  | Go id, AnswerGo r =>
      match playlist_entry id (playlist p) with
      | Some e => r = Ret tt ∧ ∃ t, cued e t ∧ p' = set_current id t p
      | None => r = Throw (MissingEntry id) ∧ p' = p
      end
  | ScheduleGo g, AnswerSchedule r => same_playing p p' ∧
      match r with
      | Ret Scheduled => go_status (go_id g) p = None ∧ go_status (go_id g) p' = Some Pending
      | Ret (Unchanged st) => p' = p ∧ bt_get (go_id g) (go_records p) = Some (mk_go_record g st)
      | Throw _ => p' = p
      | Panic => False
      end
  | CancelGo id, AnswerCancel r => same_playing p p' ∧
      match r with
      | Ret GoCancelled => go_status id p = Some Pending ∧ go_status id p' = Some Cancelled
      | Ret AlreadyCancelled => p' = p ∧ go_status id p = Some Cancelled
      | Ret AlreadyExecuted => p' = p ∧ go_status id p = Some Executed
      | Throw e => p' = p ∧ e = UnknownGo id ∧ go_status id p = None
      | Panic => False
      end
  | ApplyScheduled x, AnswerApply r =>
      (∃ previous, applied_coordinate p = Some previous ∧ x < previous ∧
        r = Throw (CoordinateReversed previous x) ∧ p' = p) ∨
      applied_coordinate p' = Some x ∧ r = Ret (due_at x p) ∧
      match last (filter (λ y, y.1 ≤ x) (pending_go p)) with
      | Some (_, id) => ∃ g, bt_get id (go_records p) = Some g ∧
          current_entry p' = Some (go_entry (command g))
      | None => current_entry p' = current_entry p ∧ transport p' = transport p
      end
  | Pull, AnswerPull r => same_gos p p' ∧
      match current_entry p, transport p with
      | Some id, Some t =>
          match pull_spec t codec with
          | (_, Throw e) => r = Throw (PlayerPlayback e) ∧ p' = set_transport t p
          | ((t', _), Ret f) => r = Ret f ∧ plays_next p id t' (ended f) p'
          | (_, Panic) => False
          end
      | _, _ => r = Throw NoActiveEntry ∧ p' = p
      end
  | _, _ => False
  end.

(** How a call changes what becomes of the programmed commands. *)
Definition executed_by (a : answer) : list GoId :=
  match a with
  | AnswerApply (Ret ids) => ids
  | _ => []
  end.
Definition cancelled_by (c : call) (a : answer) : list GoId :=
  match c, a with
  | CancelGo id, AnswerCancel (Ret GoCancelled) => [id]
  | _, _ => []
  end.
Definition scheduled_by (c : call) (a : answer) : list GoId :=
  match c, a with
  | ScheduleGo g, AnswerSchedule (Ret Scheduled) => [go_id g]
  | _, _ => []
  end.
Definition status_after (c : call) (a : answer) (id : GoId) (st : option GoStatus) : option GoStatus :=
  if decide (id ∈ executed_by a) then Some Executed
  else if decide (id ∈ cancelled_by c a) then Some Cancelled
  else if decide (id ∈ scheduled_by c a) then Some Pending
  else st.

Lemma due_NoDup x p : player_wf p → NoDup (filter (λ y : Z * Z, y.1 ≤ x) (pending_go p)).*2.
Proof.
  intros [_ _ [Hs Hi _ _]]. apply NoDup_fmap_2_strong; [|by apply NoDup_filter, StronglySorted_key_NoDup].
  intros [c1 id1] [c2 id2] [_ H1]%list_elem_of_filter [_ H2]%list_elem_of_filter Heq.
  simpl in Heq. subst id2. apply Hi in H1 as (r1 & Hr1 & _ & <-), H2 as (r2 & Hr2 & _ & <-).
  by rewrite Hr1 in Hr2; injection Hr2 as ->.
Qed.

(** The rest of [player_step_spec] for a call without effect on programmed commands. *)
Ltac quiet :=
  split_and!; [intros ?; unfold status_after; simpl; by rewrite ?decide_False by apply not_elem_of_nil
              |constructor|set_solver|set_solver].
Lemma player_step_spec c p codec : player_wf p → call_wf c →
  let '(s, a) := call_step c (p, codec) in
  player_wf s.1 ∧ answer_ok (p, codec) s c a ∧
  (∀ id, go_status id s.1 = status_after c a id (go_status id p)) ∧
  NoDup (executed_by a) ∧
  (∀ id, id ∈ executed_by a ∨ id ∈ cancelled_by c a → go_status id p = Some Pending) ∧
  (∀ id, id ∈ scheduled_by c a → go_status id p = None).
Proof.
  intros Hwf Hc. destruct c as [id|g|id|x|]; cbn [call_step fst snd].
  - assert (Hgo := activate_spec id p (pw_playlist _ Hwf)). unfold wp in Hgo. unfold go.
    destruct (activate id p) as [p' r]. simpl in *.
    destruct (playlist_entry id (playlist p)) as [e|] eqn:He.
    + destruct Hgo as (-> & t & Hcued & ->). split; [|split; [by split; [|exists t]|quiet]].
      apply set_current_wf; [done|by eexists|apply Hcued].
    + destruct Hgo as [-> ->]. split; [done|]. split; [done|quiet].
  - assert (Hsch := schedule_go_spec g p Hwf Hc). unfold wp in Hsch.
    destruct (schedule_go g p) as [p' r]. simpl in *. destruct Hsch as (Hwf' & Hsame & _ & Hr).
    split; [done|]. destruct r as [[|st]|e|]; [| | |done].
    + destruct Hr as (Hnone & _ & Hst). split; [split_and!; [done..|by rewrite Hst, decide_True]|].
      split_and!; [|constructor|set_solver|by intros id ->%list_elem_of_singleton].
      intros id. rewrite Hst. unfold status_after; simpl. destruct (decide (go_id g = id)); repeat case_decide; set_solver.
    + destruct Hr as [-> Hr]. split; [done|quiet].
    + subst p'. split; [done|quiet].
  - assert (Hcan := cancel_go_spec id p Hwf). unfold wp in Hcan.
    destruct (cancel_go id p) as [p' r]. simpl in *. destruct Hcan as (Hwf' & Hsame & _ & Hr).
    split; [done|]. destruct r as [[| |]|e|]; [| | | |done].
    + destruct Hr as (Hpend & Hst). split; [split_and!; [done..|by rewrite Hst, decide_True]|].
      split_and!; [|constructor|set_solver|set_solver].
      intros id'. rewrite Hst. unfold status_after; simpl. destruct (decide (id = id')); repeat case_decide; set_solver.
    + destruct Hr as [-> Hr]. split; [done|quiet].
    + destruct Hr as [-> Hr]. split; [done|quiet].
    + destruct Hr as (-> & -> & Hr). split; [done|quiet].
  - assert (Happ := apply_scheduled_spec x p Hwf). unfold wp in Happ.
    destruct (apply_scheduled x p) as [p' r]. simpl in *.
    destruct Happ as [(previous & Hprev & Hlt & -> & ->)|(_ & Hwf' & _ & Hx & -> & Hst & Hlast)]; simpl.
    + split; [done|]. split; [left; by exists previous|quiet].
    + split; [done|]. split; [by right|]. assert (Hnd := due_NoDup x p Hwf).
      destruct Hwf as [_ _ [Hs Hi Hk _]].
      assert (Hdue : ∀ id, id ∈ (filter (λ y, y.1 ≤ x) (pending_go p)).*2 → go_status id p = Some Pending).
      { intros id ([c' id'] & -> & [_ Hin]%list_elem_of_filter)%list_elem_of_fmap. simpl.
        apply Hi in Hin as (g & Hg & Hgs & _). unfold go_status. by rewrite Hg, <-Hgs. }
      split_and!; [|done|intros id [?|?%elem_of_nil]; [by apply Hdue|done]|by intros ? ?%elem_of_nil].
      intros id. rewrite Hst. unfold status_after; simpl. case_decide; [done|].
      done.
  - assert (Hpull := player_pull_spec p codec Hwf). unfold wp in Hpull.
    destruct (player_pull (p, codec)) as [s r]. simpl in *. destruct Hpull as (Hwf' & Hsame & Hr).
    split; [done|]. split; [done|]. destruct Hsame as (_ & _ & Hgos & _).
    split_and!; [|constructor|set_solver..]. intros id. unfold status_after, go_status. simpl.
    by rewrite Hgos.
Qed.

Definition ended_status (st : option GoStatus) : Prop := st = Some Executed ∨ st = Some Cancelled.
Definition log_of (f : call → answer → list GoId) (log : list (call * answer)) : list GoId :=
  log ≫= λ x, f x.1 x.2.
Definition executed_log : list (call * answer) → list GoId := log_of (λ _, executed_by).
Definition cancelled_log : list (call * answer) → list GoId := log_of cancelled_by.
Definition scheduled_log : list (call * answer) → list GoId := log_of scheduled_by.

(** What a history that starts with the statuses [st] and ends with [st'] logs. *)
Record history_ok (st st' : GoId → option GoStatus) (executed cancelled scheduled : list GoId) :
    Prop := {
  ho_executed : ∀ id, st' id = Some Executed ↔ st id = Some Executed ∨ id ∈ executed;
  ho_cancelled : ∀ id, st' id = Some Cancelled ↔ st id = Some Cancelled ∨ id ∈ cancelled;
  ho_scheduled : ∀ id, st' id ≠ None ↔ st id ≠ None ∨ id ∈ scheduled;
  ho_fresh : ∀ id, id ∈ executed ∨ id ∈ cancelled → ¬ ended_status (st id);
  ho_new : ∀ id, id ∈ scheduled → st id = None;
  ho_NoDup_executed : NoDup executed;
  ho_NoDup_cancelled : NoDup cancelled;
  ho_NoDup_scheduled : NoDup scheduled;
  ho_disjoint : ∀ id, id ∈ executed → id ∈ cancelled → False
}.
Lemma history_nil st : history_ok st st [] [] [].
Proof. split; try constructor; try set_solver. Qed.
Lemma history_app st1 st2 st3 e1 c1 s1 e2 c2 s2 :
  history_ok st1 st2 e1 c1 s1 → history_ok st2 st3 e2 c2 s2 →
  history_ok st1 st3 (e1 ++ e2) (c1 ++ c2) (s1 ++ s2).
Proof.
  intros [He1 Hc1 Hs1 Hf1 Hn1 Nde1 Ndc1 Nds1 Hd1] [He2 Hc2 Hs2 Hf2 Hn2 Nde2 Ndc2 Nds2 Hd2].
  assert (Hlate : ∀ id, id ∈ e2 ∨ id ∈ c2 → ¬ ended_status (st1 id) ∧ (id ∉ e1) ∧ (id ∉ c1)).
  { intros id Hin. specialize (Hf2 id Hin). unfold ended_status in *.
    specialize (He1 id). specialize (Hc1 id). tauto. }
  split.
  - intros id. rewrite He2, He1, elem_of_app. tauto.
  - intros id. rewrite Hc2, Hc1, elem_of_app. tauto.
  - intros id. rewrite Hs2, Hs1, elem_of_app. tauto.
  - intros id. rewrite !elem_of_app. intros [[?|?]|[?|?]]; [apply Hf1|apply Hlate|apply Hf1|apply Hlate]; auto.
  - intros id [?|Hin]%elem_of_app; [by apply Hn1|]. specialize (Hn2 id Hin). specialize (Hs1 id).
    destruct (st1 id); [|done]. exfalso. by apply (proj2 Hs1); [left|].
  - apply NoDup_app. split_and!; [done| |done]. intros id ? ?.
    by destruct (Hlate id) as (_ & ? & _); [left|].
  - apply NoDup_app. split_and!; [done| |done]. intros id ? ?.
    by destruct (Hlate id) as (_ & _ & ?); [right|].
  - apply NoDup_app. split_and!; [done| |done]. intros id Hin1 Hin2.
    specialize (Hn2 id Hin2). by apply (proj2 (Hs1 id)); [right|].
  - intros id. rewrite !elem_of_app. intros [?|?] [?|?]; [by eapply Hd1| | |by eapply Hd2].
    + by destruct (Hlate id) as (_ & ? & _); [right|].
    + by destruct (Hlate id) as (_ & _ & ?); [left|].
Qed.
Lemma history_step c p codec : player_wf p → call_wf c →
  let '(s, a) := call_step c (p, codec) in
  history_ok (λ id, go_status id p) (λ id, go_status id s.1) (executed_by a) (cancelled_by c a)
    (scheduled_by c a).
Proof.
  intros Hwf Hc. assert (Hstep := player_step_spec c p codec Hwf Hc).
  destruct (call_step c (p, codec)) as [s a]. destruct Hstep as (_ & _ & Hst & Hnd & Hpend & Hnew).
  unfold status_after in Hst.
  assert (Hdisj : ∀ id, id ∈ executed_by a → id ∈ cancelled_by c a → False).
  { intros id. destruct c, a; simpl; try set_solver. }
  assert (Hone : NoDup (cancelled_by c a) ∧ NoDup (scheduled_by c a)).
  { destruct c, a as [| [[]| |]|[[]| |]| |]; simpl; split; repeat constructor; set_solver. }
  destruct Hone as [Hndc Hnds]. split; try done.
  - intros id. rewrite Hst. specialize (Hpend id). specialize (Hnew id).
    repeat case_decide; split; try tauto; try done; intros [He|?]; try tauto;
      rewrite He in *; naive_solver.
  - intros id. rewrite Hst. specialize (Hpend id). specialize (Hnew id). specialize (Hdisj id).
    repeat case_decide; split; try tauto; try done; intros [He|?]; try tauto;
      rewrite He in *; naive_solver.
  - intros id. rewrite Hst. specialize (Hpend id). specialize (Hnew id).
    repeat case_decide; split; try tauto; try done; intros _; left; rewrite Hpend; auto; done.
  - intros id Hin. unfold ended_status. rewrite (Hpend id Hin). by intros [|].
Qed.

Lemma run_spec calls p codec : player_wf p → Forall call_wf calls →
  let '(s, log) := run calls (p, codec) in
  player_wf s.1 ∧ history_ok (λ id, go_status id p) (λ id, go_status id s.1)
    (executed_log log) (cancelled_log log) (scheduled_log log).
Proof.
  intros Hwf Hcalls. revert p codec Hwf. induction Hcalls as [|c calls Hc Hcalls IH]; intros p codec Hwf.
  { split; [done|apply history_nil]. }
  assert (Hstep := player_step_spec c p codec Hwf Hc). assert (Hh := history_step c p codec Hwf Hc).
  cbn [run]. destruct (call_step c (p, codec)) as [[p1 codec1] a]. destruct Hstep as (Hwf1 & _).
  specialize (IH p1 codec1 Hwf1). destruct (run calls (p1, codec1)) as [s log].
  destruct IH as [Hwf2 Hh2]. split; [done|]. by eapply history_app.
Qed.

(** A player as the constructors make it. *)
Record built (l : ClipLibrary F) (es : list PlaylistEntry) (p : PlaylistPlayer F) : Prop := {
  built_library : ∀ id c, library_get id l = Some c → clip_wf c;
  built_marks : ∀ e m, e ∈ es → pe_marks e = Some m → 0 ≤ mark_in m;
  built_new : ∃ pl, playlist_new es = Ok pl ∧ player_new l pl = Ret p
}.
Lemma built_wf l es p : built l es p → player_wf p ∧ go_records p = [].
Proof.
  intros [Hlib Hm (pl & Hpl & Hnew)]. assert (Hspec := player_new_spec l Hlib es pl Hpl Hm).
  rewrite Hnew in Hspec. by destruct Hspec as [? ->].
Qed.
End histories.

(** ** Theorems *)

(** Two entries over the clip of [Playback]: the first plays backwards from its
    mark-out and leads to the second, which loops. *)
Definition ex_entries : list PlaylistEntry :=
  [with_end_action (EndAction.Next 2)
     (with_speed Reverse1x (with_marks (mk_marks 1 2) (entry_new 1 1)));
   with_end_action EndAction.Loop (entry_new 2 1)].
Definition ex_library : ClipLibrary Z := [(1, ex_clip)].
Definition ex_player : PlaylistPlayer Z :=
  mk_player ex_library (mk_playlist (bt_of_list ((λ e, (pe_id e, e)) <$> ex_entries)) 1) None None
    [] [] None.
Lemma ex_built : built ex_library ex_entries ex_player.
Proof.
  split.
  - intros id c Hc. unfold library_get, ex_library in Hc. simpl in Hc. by case_decide; simplify_eq.
  - intros e m He. unfold ex_entries in He. apply elem_of_cons in He as [->|He]; [by intros [= <-]|].
    by apply list_elem_of_singleton in He as ->.
  - by eexists.
Qed.
Definition ex_calls : list call :=
  [ScheduleGo (mk_go 7 10 1); ScheduleGo (mk_go 8 11 2); CancelGo 8; ApplyScheduled 9;
   ApplyScheduled 12; Pull; Pull; Pull].

(** A built player always plays.  In every state a history of calls can reach, each call answers as specified: GO cues
    the entry or names the missing one, a pull shows the frame at the cursor of
    the transport and then plays on, repeats the entry or goes to the next as
    programmed, failing only for want of an active entry or of a readable
    frame; programmed GO commands run in order of coordinate and identifier,
    and are refused only when they go back.  Nothing panics. *)
Theorem player_answers {F C} `{FrameCodec C F} (l : ClipLibrary F) es p
    (calls : list call) (c : call) (codec : option C)
    (Hbuilt : built l es p) (Hcalls : Forall call_wf calls) (Hc : call_wf c) :
  let s := (run calls (p, codec)).1 in
  let '(s', a) := call_step c s in
  answer_ok s s' c a.
Proof.
  destruct (built_wf l es p Hbuilt) as [Hwf _].
  assert (Hrun := run_spec calls p codec Hwf Hcalls).
  destruct (run calls (p, codec)) as [[p1 codec1] log]. destruct Hrun as [Hwf1 _]. simpl in *.
  assert (Hstep := player_step_spec c p1 codec1 Hwf1 Hc).
  destruct (call_step c (p1, codec1)) as [s' a]. by destruct Hstep as (_ & Hok & _).
Qed.
Lemma player_answers_witness :
  let s := (@run Z unit FailingCodec ex_calls (ex_player, None)).1 in
  let '(s', a) := @call_step Z unit FailingCodec Pull s in
  @answer_ok Z unit FailingCodec s s' Pull a ∧ a = AnswerPull (Ret (mk_playback_frame 1 1 11 false)).
Proof.
  assert (Hok := @player_answers Z unit FailingCodec ex_library ex_entries ex_player ex_calls Pull None
    ex_built ltac:(by repeat constructor) I).
  cbv zeta in *.
  destruct (@call_step Z unit FailingCodec Pull (@run Z unit FailingCodec ex_calls (ex_player, None)).1)
    as [s' a] eqn:Hstep.
  split; [exact Hok|]. vm_compute in Hstep. by injection Hstep as _ <-.
Defined.

(** Programmed GO commands run exactly once.  Over any history of calls on a
    built player, each identifier is scheduled at most once; those that are
    reported executed are executed once, those cancelled are never executed, and
    the status the player keeps is executed or cancelled for exactly those,
    pending for the rest of the scheduled. *)
Theorem gos_exactly_once {F C} `{FrameCodec C F} (l : ClipLibrary F) es p
    (calls : list call) (codec : option C)
    (Hbuilt : built l es p) (Hcalls : Forall call_wf calls) :
  let '(s, log) := run calls (p, codec) in
  NoDup (scheduled_log log) ∧ NoDup (executed_log log) ∧
  (∀ id, id ∈ executed_log log → id ∈ cancelled_log log → False) ∧
  ∀ id, (go_status id s.1 = Some Executed ↔ id ∈ executed_log log) ∧
    (go_status id s.1 = Some Cancelled ↔ id ∈ cancelled_log log) ∧
    (go_status id s.1 ≠ None ↔ id ∈ scheduled_log log).
Proof.
  destruct (built_wf l es p Hbuilt) as [Hwf Hnone].
  assert (Hrun := run_spec calls p codec Hwf Hcalls).
  destruct (run calls (p, codec)) as [s log].
  destruct Hrun as [_ [He Hca Hs _ _ Hnde _ Hnds Hdisj]].
  assert (Hst : ∀ id, go_status id p = None) by (intros id; unfold go_status; by rewrite Hnone).
  split_and!; [done..|]. intros id. rewrite He, Hca, Hs, Hst. split_and!; naive_solver.
Qed.
Lemma gos_exactly_once_witness :
  executed_log (@run Z unit FailingCodec ex_calls (ex_player, None)).2 = [7] ∧
  go_status 7 (@run Z unit FailingCodec ex_calls (ex_player, None)).1.1 = Some Executed.
Proof.
  assert (Hexe : executed_log (@run Z unit FailingCodec ex_calls (ex_player, None)).2 = [7])
    by by vm_compute.
  split; [done|].
  assert (Honce := @gos_exactly_once Z unit FailingCodec ex_library ex_entries ex_player ex_calls None
    ex_built ltac:(by repeat constructor)).
  destruct (@run Z unit FailingCodec ex_calls (ex_player, None)) as [s log]. destruct Honce as (_ & _ & _ & Hst).
  apply Hst. simpl in Hexe. rewrite Hexe. by left.
Defined.
