(* ===== verification/ReplayTypes.v ===== *)
(** Replay sources and their shared timeline,
    [crates/media/fm-replay/src/types.rs] and [source.rs]: half-open ranges on
    the timeline, the validated set of cameras, and the observations that map
    the frames of each camera to synchronized time.

    [SourceCatalog] and [SourceTimeline] map to the records of the same names;
    a timestamp is its nanoseconds, a 64-bit signed integer. *)
From S2P Require Import Prelude BTree Types.

(** ** Identifiers, ranges and errors *)

Abbreviation CameraId := Z (only parsing).
Abbreviation StorageRootId := Z (only parsing).
Abbreviation SegmentId := Z (only parsing).
Abbreviation EventId := Z (only parsing).
Abbreviation ListId := Z (only parsing).
Abbreviation FolderId := Z (only parsing).
Abbreviation HighlightId := Z (only parsing).
Abbreviation MusicTrackId := Z (only parsing).
Abbreviation ExportJobId := Z (only parsing).
Abbreviation NormalizedTimestamp := Z (only parsing).

Inductive ReplayError :=
  | InvalidRange
  | EmptyName
  | TooManySources (count : Z)
  | TooManyAudioChannels (count : Z)
  | DuplicateCamera (id : CameraId)
  | DuplicateStorageRoot (id : StorageRootId)
  | DuplicateSegment (id : SegmentId)
  | DuplicateEvent (id : EventId)
  | DuplicateList (id : ListId)
  | DuplicateFolder (id : FolderId)
  | DuplicateHighlight (id : HighlightId)
  | DuplicateExport (id : ExportJobId)
  | UnknownCamera (id : CameraId)
  | UnknownStorageRoot (id : StorageRootId)
  | UnknownSegment (id : SegmentId)
  | UnknownEvent (id : EventId)
  | UnknownList (id : ListId)
  | UnknownFolder (id : FolderId)
  | UnknownExport (id : ExportJobId)
  | CameraRootMismatch
  | TimelineRegression (id : CameraId)
  | SequenceRegression (id : CameraId)
  | DuplicateQuadCamera (id : CameraId)
  | ObservationUnavailable (id : CameraId)
  | MarkIncomplete
  | InvalidLastN
  | PreferredAngleUnavailable (id : CameraId)
  | EventAlreadyInList (event : EventId) (list : ListId)
  | InvalidPlaybackRate (rate : Z)
  | FrameDurationZero
  | ExportStateTransition.
#[global] Instance ReplayError_eq_dec : EqDecision ReplayError.
Proof. solve_decision. Defined.

Record TimelineRange := mk_range { range_start : NormalizedTimestamp; range_end : NormalizedTimestamp }.
#[global] Instance TimelineRange_eq_dec : EqDecision TimelineRange.
Proof. solve_decision. Defined.

Definition range_new (start end_ : NormalizedTimestamp) : result ReplayError TimelineRange :=
  if decide (end_ ≤ start) then Err InvalidRange else Ok (mk_range start end_).
(** [u64::try_from(duration).unwrap_or(u64::MAX)]. *)
Definition duration_nanos (self : TimelineRange) : Z :=
  from_option id (ty_max U64) (checked U64 (range_end self - range_start self)).
Definition range_contains (self : TimelineRange) (timestamp : NormalizedTimestamp) : bool :=
  bool_decide (range_start self ≤ timestamp) && bool_decide (timestamp < range_end self).
Definition overlaps (self other : TimelineRange) : bool :=
  bool_decide (range_start self < range_end other) &&
  bool_decide (range_start other < range_end self).

(** The ranges the constructor makes. *)
Record range_wf (r : TimelineRange) : Prop := {
  range_wf_lt : range_start r < range_end r;
  range_wf_start : in_ty I64 (range_start r);
  range_wf_end : in_ty I64 (range_end r)
}.

(** ** Sources *)

Definition MAX_REPLAY_SOURCES : Z := 8.
Definition MAX_AUDIO_CHANNELS : Z := 4.

Record CameraSource := mk_source {
  source_id : CameraId;
  source_name : string;
  source_root : StorageRootId;
  recorder_id : Z;
  source_clock : Z;
  audio_layout : list Channel.t
}.
Record SourceCatalog := mk_sources { sources : btmap CameraId CameraSource }.

(** The loop of [SourceCatalog::new]. *)
Fixpoint insert_sources (catalog : SourceCatalog) (l : list CameraSource) :
    result ReplayError SourceCatalog :=
  match l with
  | [] => Ok catalog
  | source :: l' =>
      if str_blank (source_name source) then Err EmptyName else
      let channels := Z.of_nat (length (audio_layout source)) in
      if decide (channels > MAX_AUDIO_CHANNELS) then Err (TooManyAudioChannels channels) else
      if bt_contains (source_id source) (sources catalog)
      then Err (DuplicateCamera (source_id source))
      else insert_sources (mk_sources (bt_insert (source_id source) source (sources catalog))) l'
  end.
Definition catalog_new (l : list CameraSource) : result ReplayError SourceCatalog :=
  if decide (Z.of_nat (length l) > MAX_REPLAY_SOURCES)
  then Err (TooManySources (Z.of_nat (length l)))
  else insert_sources (mk_sources []) l.

(** ** The shared timeline *)

Record SourceObservation := mk_observation {
  synchronized_at : NormalizedTimestamp;
  source_sequence : Z;
  source_frame : Z;
  discontinuity_epoch : Z
}.
#[global] Instance SourceObservation_eq_dec : EqDecision SourceObservation.
Proof. solve_decision. Defined.
Record TimelineDiscontinuity := mk_discontinuity {
  disc_camera : CameraId;
  disc_at : NormalizedTimestamp;
  disc_epoch : Z;
  disc_reason : string
}.
Record QuadCell := mk_cell { cell_camera : CameraId; cell_observation : SourceObservation }.
Definition cell_time (x : QuadCell) : Z := synchronized_at (cell_observation x).
Record QuadViewDescription := mk_quad {
  quad_at : NormalizedTimestamp;
  cells : list QuadCell;
  skew_nanos : Z;
  tolerance_nanos : Z;
  in_sync : bool
}.
Record SourceTimeline := mk_timeline {
  observations : btmap CameraId (list SourceObservation);
  discontinuities : list TimelineDiscontinuity;
  epochs : btmap CameraId Z
}.

Definition timeline_new (catalog : SourceCatalog) : SourceTimeline := {|
  observations := bt_of_list ((λ s, (source_id s, [])) <$> bt_values (sources catalog));
  discontinuities := [];
  epochs := bt_of_list ((λ s, (source_id s, 0)) <$> bt_values (sources catalog))
|}.

Definition observe (camera_id : CameraId) (at_ : NormalizedTimestamp) (sequence frame : Z) :
    stm SourceTimeline ReplayError SourceObservation :=
  self ← st_get;
  list ← st_lift (ok_or (UnknownCamera camera_id) (bt_get camera_id (observations self)));
  epoch ← st_expect (bt_get camera_id (epochs self));
  _ ← (match last list with
       | Some previous =>
           if decide (at_ ≤ synchronized_at previous) then mthrow (TimelineRegression camera_id)
           else if decide (discontinuity_epoch previous = epoch ∧
                           sequence ≤ source_sequence previous)
           then mthrow (SequenceRegression camera_id) else mret tt
       | None => mret tt
       end);
  let observation := mk_observation at_ sequence frame epoch in
  _ ← st_put (mk_timeline (bt_insert camera_id (list ++ [observation]) (observations self))
                (discontinuities self) (epochs self));
  mret observation.

Definition record_discontinuity (camera_id : CameraId) (at_ : NormalizedTimestamp)
    (reason : string) : stm SourceTimeline ReplayError TimelineDiscontinuity :=
  _ ← st_require (str_blank reason = false) EmptyName;
  self ← st_get;
  list ← st_lift (ok_or (UnknownCamera camera_id) (bt_get camera_id (observations self)));
  _ ← (match last list with
       | Some last => st_require (¬ at_ < synchronized_at last) (TimelineRegression camera_id)
       | None => mret tt
       end);
  epoch ← st_lift (ok_or (UnknownCamera camera_id) (bt_get camera_id (epochs self)));
  let epoch := saturating U64 (epoch + 1) in
  let discontinuity := mk_discontinuity camera_id at_ epoch reason in
  _ ← st_put (mk_timeline (observations self) (discontinuities self ++ [discontinuity])
                (bt_insert camera_id epoch (epochs self)));
  mret discontinuity.

(** [.iter().rev().find(|item| item.synchronized_at <= target)]. *)
Definition latest_at (target : NormalizedTimestamp) (l : list SourceObservation) :
    option SourceObservation :=
  snd <$> list_find (λ o, synchronized_at o ≤ target) (rev l).

(** The loop of [quad_view]. *)
Fixpoint resolve_cells (self : SourceTimeline) (target : NormalizedTimestamp)
    (unique : btset CameraId) (cameras : list CameraId) : result ReplayError (list QuadCell) :=
  match cameras with
  | [] => Ok []
  | camera_id :: cameras' =>
      if decide (camera_id ∈ unique) then Err (DuplicateQuadCamera camera_id) else
      list ← ok_or (UnknownCamera camera_id) (bt_get camera_id (observations self));
      observation ← ok_or (ObservationUnavailable camera_id) (latest_at target list);
      cells ← resolve_cells self target (bs_insert camera_id unique) cameras';
      mret (mk_cell camera_id observation :: cells)
  end.
Definition list_min (l : list Z) : option Z :=
  match l with
  | [] => None
  | x :: l' => Some (foldr Z.min x l')
  end.
Definition list_max (l : list Z) : option Z :=
  match l with
  | [] => None
  | x :: l' => Some (foldr Z.max x l')
  end.

(** The subtraction of the extremes is unchecked, so it panics outside [i64]. *)
Definition quad_view (c0 c1 c2 c3 : CameraId) (target : NormalizedTimestamp) (tolerance : Z) :
    stm SourceTimeline ReplayError QuadViewDescription :=
  self ← st_get;
  cells ← st_lift (resolve_cells self target [] [c0; c1; c2; c3]);
  let times := cell_time <$> cells in
  let minimum := from_option id target (list_min times) in
  let maximum := from_option id target (list_max times) in
  difference ← st_expect (checked I64 (maximum - minimum));
  let skew := from_option id (ty_max U64) (checked U64 difference) in
  _ ← st_require (length cells = 4%nat) (ObservationUnavailable c0);
  mret {|
    quad_at := target;
    cells := cells;
    skew_nanos := skew;
    tolerance_nanos := tolerance;
    in_sync := bool_decide (skew ≤ tolerance)
  |}.

(** ** Histories *)

Inductive timeline_call :=
  | Observe (camera : CameraId) (at_ : NormalizedTimestamp) (sequence frame : Z)
  | RecordDiscontinuity (camera : CameraId) (at_ : NormalizedTimestamp) (reason : string).
Definition timeline_do (call : timeline_call) : stm SourceTimeline ReplayError unit :=
  match call with
  | Observe camera at_ sequence frame => _ ← observe camera at_ sequence frame; mret tt
  | RecordDiscontinuity camera at_ reason =>
      _ ← record_discontinuity camera at_ reason; mret tt
  end.
Definition timeline_run (calls : list timeline_call) (s : SourceTimeline) : SourceTimeline :=
  foldl (λ s call, (timeline_do call s).1) s calls.
Definition call_typed (call : timeline_call) : Prop :=
  match call with
  | Observe _ at_ sequence frame => in_ty I64 at_ ∧ in_ty U64 sequence ∧ in_ty U64 frame
  | RecordDiscontinuity _ at_ _ => in_ty I64 at_
  end.

(** ** The invariant of a timeline *)

Definition observed_before (a b : SourceObservation) : Prop :=
  synchronized_at a < synchronized_at b ∧ discontinuity_epoch a ≤ discontinuity_epoch b ∧
  (discontinuity_epoch a = discontinuity_epoch b → source_sequence a < source_sequence b).
#[global] Instance observed_before_trans : Transitive observed_before.
Proof.
  intros a b c (?&?&Hab) (?&?&Hbc). split_and!; [lia..|]. intros ?.
  assert (source_sequence a < source_sequence b) by (apply Hab; lia).
  assert (source_sequence b < source_sequence c) by (apply Hbc; lia). lia.
Qed.

Definition discontinuities_of (camera : CameraId) (self : SourceTimeline) : Z :=
  Z.of_nat (length (filter (λ d, disc_camera d = camera) (discontinuities self))).

(** The observations of one camera in its current epoch [e]. *)
Record observations_wf (e : Z) (l : list SourceObservation) : Prop := {
  obs_sorted : StronglySorted observed_before l;
  obs_typed : Forall (λ o, in_ty I64 (synchronized_at o) ∧ discontinuity_epoch o ≤ e) l
}.
Record timeline_wf (self : SourceTimeline) : Prop := {
  tl_observations : ∀ c l, bt_get c (observations self) = Some l →
    ∃ e, bt_get c (epochs self) = Some e ∧ observations_wf e l;
  tl_epochs : ∀ c e, bt_get c (epochs self) = Some e →
    is_Some (bt_get c (observations self)) ∧
    e = Z.min (ty_max U64) (discontinuities_of c self)
}.

Lemma observe_wp camera at_ sequence frame (s : SourceTimeline) :
  timeline_wf s → in_ty I64 at_ →
  wp (observe camera at_ sequence frame) (λ r s',
    match r with
    | Ret o => timeline_wf s' ∧ ∃ l e,
        bt_get camera (observations s) = Some l ∧ bt_get camera (epochs s) = Some e ∧
        o = mk_observation at_ sequence frame e ∧
        s' = mk_timeline (bt_insert camera (l ++ [o]) (observations s))
               (discontinuities s) (epochs s)
    | Throw _ => s' = s
    | Panic => False
    end) s.
Proof.
  intros Hs Hat. unfold observe. wp_step. wp_step. wp_step.
  apply wp_lift; [intros l Hl%ok_or_Ok|by intros ??].
  destruct (tl_observations _ Hs _ _ Hl) as (e&He&Hsort&Hty).
  wp_step. rewrite He. apply wp_expect; [intros ? [= <-]|done].
  set (o := mk_observation at_ sequence frame e).
  set (s1 := mk_timeline (bt_insert camera (l ++ [o]) (observations s))
               (discontinuities s) (epochs s)).
  assert ((∀ p, last l = Some p → observed_before p o) → timeline_wf s1) as Hok.
  { intros Hlast. split; simpl.
    - intros c l'. rewrite bt_get_insert. case_decide; [|by apply Hs]. intros [= <-]. subst c.
      exists e. split; [done|]. split; [by apply StronglySorted_snoc_last; [apply _|..]|].
      apply Forall_app. split; [done|]. apply Forall_singleton. simpl. split; [done|lia].
    - intros c e' [? ->]%(tl_epochs _ Hs). split; [|done].
      rewrite bt_get_insert. by case_decide. }
  assert ((∀ p, last l = Some p → observed_before p o) → timeline_wf s1 ∧ ∃ l' e',
    bt_get camera (observations s) = Some l' ∧ Some e = Some e' ∧
    o = mk_observation at_ sequence frame e' ∧
    s1 = mk_timeline (bt_insert camera (l' ++ [o]) (observations s))
           (discontinuities s) (epochs s)) as Hdone by naive_solver.
  destruct (last l) as [p|] eqn:Hp; wp_run; [done..| |by apply Hdone].
  apply Hdone. intros ? [= <-]. rewrite Forall_forall in Hty.
  destruct (Hty p) as [_ ?]; [by apply last_Some_elem_of in Hp|].
  unfold observed_before. simpl. split_and!; [lia..|].
  destruct (decide (discontinuity_epoch p = e)); [|done].
  assert (¬ sequence ≤ source_sequence p) by naive_solver. lia.
Qed.

Lemma record_discontinuity_wp camera at_ reason (s : SourceTimeline) :
  timeline_wf s →
  wp (record_discontinuity camera at_ reason) (λ r s',
    match r with
    | Ret d => timeline_wf s' ∧ ∃ e, bt_get camera (epochs s) = Some e ∧
        d = mk_discontinuity camera at_ (Z.min (ty_max U64) (e + 1)) reason ∧
        s' = mk_timeline (observations s) (discontinuities s ++ [d])
               (bt_insert camera (disc_epoch d) (epochs s))
    | Throw _ => s' = s
    | Panic => False
    end) s.
Proof.
  intros Hs. unfold record_discontinuity.
  wp_step. wp_step; [|done]. wp_step. wp_step. wp_step.
  apply wp_lift; [intros l Hl%ok_or_Ok|by intros ??].
  destruct (tl_observations _ Hs _ _ Hl) as (e&He&Hsort&Hty). rewrite He.
  assert (0 ≤ e) as He0.
  { destruct (tl_epochs _ Hs _ _ He) as [_ ->]. unfold discontinuities_of.
    change (ty_max U64) with 18446744073709551615. lia. }
  assert (saturating U64 (e + 1) = Z.min (ty_max U64) (e + 1)) as Hsat.
  { unfold saturating. change (ty_min U64) with 0.
    change (ty_max U64) with 18446744073709551615. lia. }
  set (d := mk_discontinuity camera at_ (saturating U64 (e + 1)) reason).
  set (s1 := mk_timeline (observations s) (discontinuities s ++ [d])
               (bt_insert camera (saturating U64 (e + 1)) (epochs s))).
  assert (timeline_wf s1) as Hs1.
  { split; simpl.
    - intros c l'. rewrite bt_get_insert. case_decide; [|by apply Hs]. subst c.
      rewrite Hl. intros [= <-]. eexists. split; [done|]. split; [done|].
      eapply Forall_impl; [exact Hty|]. intros o [? Ho]. split; [done|].
      rewrite Hsat. change (ty_max U64) with 18446744073709551615. 
      destruct (tl_epochs _ Hs _ _ He) as [_ He']. revert He'.
      change (ty_max U64) with 18446744073709551615. lia.
    - intros c e'. rewrite bt_get_insert. unfold discontinuities_of; simpl.
      rewrite filter_app, length_app. case_decide as Hc.
      + subst c. intros [= <-]. rewrite Hl. split; [done|]. rewrite Hsat.
        destruct (tl_epochs _ Hs _ _ He) as [_ He']. revert He'. unfold discontinuities_of.
        rewrite filter_cons_True by done. simpl. lia.
      + rewrite filter_cons_False by done. rewrite Nat.add_0_r. by apply Hs. }
  assert (timeline_wf s1 ∧ ∃ e', Some e = Some e' ∧
    d = mk_discontinuity camera at_ (Z.min (ty_max U64) (e' + 1)) reason ∧
    s1 = mk_timeline (observations s) (discontinuities s ++ [d])
           (bt_insert camera (disc_epoch d) (epochs s))) as Hdone.
  { split; [done|]. exists e. split; [done|]. split; [|done]. unfold d. by rewrite Hsat. }
  destruct (last l); wp_run; simplify_eq/=; done.
Qed.

Lemma timeline_do_wf call (s : SourceTimeline) :
  timeline_wf s → call_typed call →
  wp (timeline_do call) (λ r s', r ≠ Panic ∧ timeline_wf s') s.
Proof.
  intros Hs Hc. destruct call as [c a q f|c a m]; simpl in *; wp_step.
  - eapply wp_mono; [apply observe_wp; by destruct Hc|]. intros [o|e|] s'; simpl.
    + by intros [? _].
    + by intros ->.
    + done.
  - eapply wp_mono; [by apply record_discontinuity_wp|]. intros [d|e|] s'; simpl.
    + by intros [? _].
    + by intros ->.
    + done.
Qed.
Lemma timeline_run_wf calls (s : SourceTimeline) :
  timeline_wf s → Forall call_typed calls → timeline_wf (timeline_run calls s).
Proof.
  revert s. induction calls as [|call calls IH]; intros s Hs Hc; [done|].
  apply Forall_cons in Hc as [Hc Hcs]. apply IH; [|done].
  by apply (timeline_do_wf call s Hs Hc).
Qed.

Lemma bt_get_of_list_const {V} (f : CameraSource → Z) (v : V) (l : list CameraSource) c :
  bt_get c (bt_of_list ((λ s, (f s, v)) <$> l)) = (if decide (c ∈ f <$> l) then Some v else None).
Proof.
  unfold bt_of_list. induction l as [|s l IH] using rev_ind; [done|].
  rewrite fmap_app, foldl_app. simpl. rewrite bt_get_insert, IH, fmap_app.
  repeat case_decide; set_solver.
Qed.
Lemma timeline_new_wf (catalog : SourceCatalog) : timeline_wf (timeline_new catalog).
Proof.
  split; simpl; intros c x; rewrite !bt_get_of_list_const; case_decide; [|done| |done].
  - intros [= <-]. exists 0. split; [done|]. by split; constructor.
  - by intros [= <-].
Qed.

(** ** Quad views *)

(** [o] is the observation of camera [c] at, or immediately before, [target]. *)
Definition shown_at (self : SourceTimeline) (target : Z) (c : CameraId) (o : SourceObservation) :
    Prop :=
  ∃ l, bt_get c (observations self) = Some l ∧ o ∈ l ∧ synchronized_at o ≤ target ∧
    ∀ o', o' ∈ l → synchronized_at o' ≤ target → synchronized_at o' ≤ synchronized_at o.
Definition cell_shows (self : SourceTimeline) (target : Z) (c : CameraId) (x : QuadCell) : Prop :=
  cell_camera x = c ∧ shown_at self target c (cell_observation x).
(** Why camera [c] has no cell after the cameras [seen]. *)
Definition cell_refused (self : SourceTimeline) (target : Z) (seen : list CameraId)
    (c : CameraId) (e : ReplayError) : Prop :=
  if decide (c ∈ seen) then e = DuplicateQuadCamera c else
  match bt_get c (observations self) with
  | None => e = UnknownCamera c
  | Some l => e = ObservationUnavailable c ∧ ∀ o, o ∈ l → target < synchronized_at o
  end.

Lemma latest_at_snoc target l x :
  latest_at target (l ++ [x]) =
  if decide (synchronized_at x ≤ target) then Some x else latest_at target l.
Proof.
  unfold latest_at. rewrite rev_app_distr. simpl. case_decide; [done|].
  by destruct (list_find _ (rev l)) as [[]|].
Qed.
Lemma latest_at_spec target l :
  StronglySorted observed_before l →
  match latest_at target l with
  | Some o => o ∈ l ∧ synchronized_at o ≤ target ∧
      ∀ o', o' ∈ l → synchronized_at o' ≤ target → synchronized_at o' ≤ synchronized_at o
  | None => ∀ o, o ∈ l → target < synchronized_at o
  end.
Proof.
  induction l as [|x l IH] using rev_ind; intros Hs; [by intros ? ?%not_elem_of_nil|].
  apply StronglySorted_app in Hs as (Hx&Hs&_). specialize (IH Hs). rewrite latest_at_snoc.
  case_decide as Hd.
  - split_and!; [set_solver|done|].
    intros o' [Ho'| ->%list_elem_of_singleton]%elem_of_app _; [|done].
    destruct (Hx o' x) as [? _]; [done|by left|lia].
  - destruct (latest_at target l) as [o|].
    + destruct IH as (?&?&Hmax). split_and!; [set_solver|done|].
      intros o' [Ho'| ->%list_elem_of_singleton]%elem_of_app ?; [by apply Hmax|done].
    + intros o' [Ho'| ->%list_elem_of_singleton]%elem_of_app; [by apply IH|lia].
Qed.

Lemma resolve_cells_spec self target cameras unique seen :
  timeline_wf self → (∀ c, c ∈ unique ↔ c ∈ seen) →
  match resolve_cells self target unique cameras with
  | Ok cells => (∀ c, c ∈ cameras → c ∉ seen) ∧ NoDup cameras ∧
      Forall2 (cell_shows self target) cameras cells
  | Err e => ∃ pre c post, cameras = pre ++ c :: post ∧
      Forall (λ c, ∃ o, shown_at self target c o) pre ∧
      cell_refused self target (seen ++ pre) c e
  end.
Proof.
  intros Hself. revert unique seen.
  induction cameras as [|c cameras IH]; intros unique seen Hu; simpl.
  { split_and!; [by intros ? ?%not_elem_of_nil|constructor..]. }
  assert (∀ e, cell_refused self target seen c e →
    ∃ pre c' post, c :: cameras = pre ++ c' :: post ∧
      Forall (λ c, ∃ o, shown_at self target c o) pre ∧
      cell_refused self target (seen ++ pre) c' e) as Hhere.
  { intros e He. exists [], c, cameras. rewrite app_nil_r. by split_and!. }
  destruct (decide (c ∈ unique)) as [Hc|Hc]; rewrite Hu in Hc.
  { apply Hhere. unfold cell_refused. by rewrite decide_True. }
  destruct (bt_get c (observations self)) as [l|] eqn:Hl; simpl.
  2: { apply Hhere. unfold cell_refused. by rewrite decide_False, Hl. }
  destruct (tl_observations _ Hself _ _ Hl) as (e&_&Hsort&_).
  pose proof (latest_at_spec target l Hsort) as Hlatest.
  destruct (latest_at target l) as [o|]; simpl.
  2: { apply Hhere. unfold cell_refused. by rewrite decide_False, Hl. }
  assert (shown_at self target c o) as Ho by (exists l; naive_solver).
  specialize (IH (bs_insert c unique) (seen ++ [c])).
  destruct (resolve_cells self target (bs_insert c unique) cameras) as [cells|e']; simpl.
  - destruct IH as (Hnot&Hnd&Hall). { intros c'. rewrite elem_of_bs_insert, Hu. set_solver. }
    split_and!; [|constructor; [|done]|by constructor]; [set_solver|].
    intros Hin. apply (Hnot c Hin). set_solver.
  - destruct IH as (pre&c'&post&->&Hpre&He). { intros c'. rewrite elem_of_bs_insert, Hu. set_solver. }
    exists (c :: pre), c', post. split_and!; [done|by constructor; [exists o|]|].
    by rewrite <-(assoc_L (++)) in He.
Qed.

Lemma list_min_spec l m : list_min l = Some m → m ∈ l ∧ ∀ x, x ∈ l → m ≤ x.
Proof.
  destruct l as [|y l]; [done|]. intros [= <-].
  induction l as [|z l [IH1 IH2]]; simpl.
  - split; [by left|]. by intros x ->%list_elem_of_singleton.
  - split.
    + destruct (Z.min_spec z (foldr Z.min y l)) as [[_ ->]|[_ ->]]; set_solver.
    + intros x [->|[->|Hx]%elem_of_cons]%elem_of_cons; [|lia|].
      * pose proof (IH2 y ltac:(by left)). lia.
      * pose proof (IH2 x ltac:(by right)). lia.
Qed.
Lemma list_max_spec l m : list_max l = Some m → m ∈ l ∧ ∀ x, x ∈ l → x ≤ m.
Proof.
  destruct l as [|y l]; [done|]. intros [= <-].
  induction l as [|z l [IH1 IH2]]; simpl.
  - split; [by left|]. by intros x ->%list_elem_of_singleton.
  - split.
    + destruct (Z.max_spec z (foldr Z.max y l)) as [[_ ->]|[_ ->]]; set_solver.
    + intros x [->|[->|Hx]%elem_of_cons]%elem_of_cons; [|lia|].
      * pose proof (IH2 y ltac:(by left)). lia.
      * pose proof (IH2 x ltac:(by right)). lia.
Qed.

(** The extremes of a list of cells are times of cells. *)
Lemma cell_extremes (l : list QuadCell) target :
  l ≠ [] →
  let times := cell_time <$> l in
  let lo := from_option id target (list_min times) in
  let hi := from_option id target (list_max times) in
  (∃ a b, a ∈ l ∧ b ∈ l ∧ hi - lo = cell_time a - cell_time b) ∧
  (∀ a b, a ∈ l → b ∈ l → cell_time a - cell_time b ≤ hi - lo).
Proof.
  intros Hl times lo hi.
  assert (∀ a, a ∈ l → cell_time a ∈ times) as Htimes.
  { intros a Ha. apply list_elem_of_fmap. by exists a. }
  assert (∃ x y, list_min times = Some x ∧ list_max times = Some y) as (x&y&Hx&Hy).
  { unfold times. destruct l; [done|]. by do 2 eexists. }
  unfold lo, hi. rewrite Hx, Hy. simpl.
  apply list_min_spec in Hx as [Hx Hlo]. apply list_max_spec in Hy as [Hy Hhi].
  apply list_elem_of_fmap in Hx as (b&->&Hb). apply list_elem_of_fmap in Hy as (a&->&Ha).
  split; [by exists a, b|]. intros a' b' Ha' Hb'.
  pose proof (Hhi _ (Htimes a' Ha')). pose proof (Hlo _ (Htimes b' Hb')). lia.
Qed.

(** A quad view never changes the timeline and answers exactly: four distinct
    known cameras that each have an observation at or before the target give one
    cell per camera, in order, with the latest such observation; the skew is the
    widest distance between two cells and [in_sync] says that no two cells are
    further apart than the tolerance.  Otherwise the error names the first camera
    that fails.  The skew leaves 64 bits, and the call panics, only if two of the
    observations are more than [i64::MAX] nanoseconds apart. *)
Theorem quad_view_exact catalog calls c0 c1 c2 c3 target tolerance :
  Forall call_typed calls →
  let self := timeline_run calls (timeline_new catalog) in
  let cameras := [c0; c1; c2; c3] in
  let '(self', r) := quad_view c0 c1 c2 c3 target tolerance self in
  self' = self ∧
  match r with
  | Ret q => NoDup cameras ∧ quad_at q = target ∧ tolerance_nanos q = tolerance ∧
      Forall2 (cell_shows self target) cameras (cells q) ∧
      (∃ a b, a ∈ cells q ∧ b ∈ cells q ∧ skew_nanos q = cell_time a - cell_time b) ∧
      (∀ a b, a ∈ cells q → b ∈ cells q → cell_time a - cell_time b ≤ skew_nanos q) ∧
      (in_sync q = true ↔
        ∀ a b, a ∈ cells q → b ∈ cells q → cell_time a - cell_time b ≤ tolerance)
  | Throw e => ∃ pre c post, cameras = pre ++ c :: post ∧
      Forall (λ c, ∃ o, shown_at self target c o) pre ∧ cell_refused self target pre c e
  | Panic => NoDup cameras ∧ ∃ cells a b, Forall2 (cell_shows self target) cameras cells ∧
      a ∈ cells ∧ b ∈ cells ∧ ty_max I64 < cell_time a - cell_time b
  end.
Proof.
  intros Hc self cameras.
  assert (timeline_wf self) as Hself by (by apply timeline_run_wf; [apply timeline_new_wf|]).
  clearbody self. apply wp_pair. unfold quad_view.
  pose proof (resolve_cells_spec self target cameras [] [] Hself ltac:(done)) as Hres.
  fold cameras. wp_step. wp_step. wp_step. apply wp_lift.
  2: { intros e He. rewrite He in Hres. simpl. done. }
  intros l Hl. rewrite Hl in Hres. destruct Hres as (_&Hnd&Hall).
  assert (length l = 4%nat) as Hlen by (by apply Forall2_length in Hall).
  destruct (cell_extremes l target) as [Hex Hdiff]; [by intros ->|].
  wp_step. apply wp_expect.
  2: { intros Hover%checked_None. split; [done|]. split; [done|].
    destruct Hex as (a&b&Ha&Hb&Heq). exists l, a, b. split_and!; [done..|].
    rewrite <-Heq. pose proof (Hdiff a a Ha Ha). unfold in_ty in Hover. simpl in *. lia. }
  intros d [<- Hd]%checked_Some.
  assert (from_option id (ty_max U64) (checked U64
    (from_option id target (list_max (cell_time <$> l)) -
     from_option id target (list_min (cell_time <$> l)))) =
    from_option id target (list_max (cell_time <$> l)) -
     from_option id target (list_min (cell_time <$> l))) as Hskew.
  { rewrite checked_in; [done|]. destruct Hex as (a&b&Ha&Hb&Heq).
    pose proof (Hdiff a a Ha Ha). unfold in_ty in *. simpl in *. lia. }
  cbv zeta. rewrite Hskew. wp_step. wp_step; [|done]. wp_step. split; [done|]. simpl.
  split_and!; [done..|]. rewrite bool_decide_eq_true. split.
  - intros Htol a b Ha Hb. specialize (Hdiff a b Ha Hb). simpl in Hdiff. lia.
  - intros Htol. destruct Hex as (a&b&Ha&Hb&Heq). simpl in Heq. rewrite Heq. by apply Htol.
Qed.

(** The source set of a catalog: everything its constructor checks. *)
Lemma insert_sources_Ok catalog l catalog' :
  insert_sources catalog l = Ok catalog' ↔
  Forall (λ s, str_blank (source_name s) = false ∧
               Z.of_nat (length (audio_layout s)) ≤ MAX_AUDIO_CHANNELS) l ∧
  NoDup (source_id <$> l) ∧
  (∀ s, s ∈ l → bt_get (source_id s) (sources catalog) = None) ∧
  sources catalog' = foldl (λ m s, bt_insert (source_id s) s m) (sources catalog) l.
Proof.
  revert catalog. induction l as [|s l IH]; intros catalog; simpl.
  { destruct catalog as [m], catalog' as [m']; simpl. split.
    - intros [= ->]. split_and!; [constructor..| |done]. by intros ? ?%not_elem_of_nil.
    - by intros (_&_&_&->). }
  rewrite Forall_cons, NoDup_cons. destruct (str_blank (source_name s)); [naive_solver|].
  case_decide as Hch; [split; [done|]; intros ([[_ ?] _]&_); lia|].
  unfold bt_contains. case_bool_decide as Hin.
  { split; [done|]. intros (_&_&Hn&_).
    rewrite (Hn s) in Hin by (by left). by destruct Hin. }
  rewrite IH. simpl. clear IH.
  setoid_rewrite bt_get_insert. split.
  - intros (Hall&Hnd&Hn&Heq). split_and!; [done|lia|done| |done| |done].
    + intros (s'&Heqs&Hs')%list_elem_of_fmap. specialize (Hn s' Hs'). by rewrite decide_True in Hn.
    + intros s' [->|Hs']%elem_of_cons; [by apply eq_None_not_Some|].
      specialize (Hn s' Hs'). by case_decide.
  - intros ([_ Hall]&[Hs Hnd]&Hn&Heq). split_and!; [done..| |done].
    intros s' Hs'. rewrite decide_False; [apply Hn; by right|].
    intros Heq'. apply Hs, list_elem_of_fmap. by exists s'.
Qed.
Lemma catalog_new_Ok l catalog :
  catalog_new l = Ok catalog ↔
  Z.of_nat (length l) ≤ MAX_REPLAY_SOURCES ∧
  Forall (λ s, str_blank (source_name s) = false ∧
               Z.of_nat (length (audio_layout s)) ≤ MAX_AUDIO_CHANNELS) l ∧
  NoDup (source_id <$> l) ∧
  sources catalog = foldl (λ m s, bt_insert (source_id s) s m) [] l.
Proof.
  unfold catalog_new. case_decide; [split; [done|]; intros [? _]; lia|].
  rewrite insert_sources_Ok. naive_solver lia.
Qed.

(** ** Concrete timelines *)

Definition ex_camera (id : Z) : CameraSource :=
  mk_source id "camera" 1 1 1 layout_stereo.
Definition ex_catalog : SourceCatalog := default (mk_sources [])
  (match catalog_new (ex_camera <$> [1; 2; 3; 4]) with Ok c => Some c | Err _ => None end).
Definition ex_calls : list timeline_call :=
  [Observe 1 100 1 1; Observe 2 110 1 1; Observe 3 120 1 1; Observe 4 130 1 1;
   Observe 1 200 2 2; RecordDiscontinuity 1 200 "cable"; Observe 1 210 1 1].

Definition quad_answer (p : SourceTimeline * outcome ReplayError QuadViewDescription) :
    option QuadViewDescription :=
  match p.2 with
  | Ret q => Some q
  | _ => None
  end.
Definition quad_skew (q : QuadViewDescription) : Z * bool := (skew_nanos q, in_sync q).

Lemma quad_view_exact_witness :
  let self := timeline_run ex_calls (timeline_new ex_catalog) in
  Forall call_typed ex_calls ∧
  ∃ q, (quad_view 4 3 2 1 199 25 self).2 = Ret q ∧ skew_nanos q = 30 ∧ in_sync q = false ∧
    Forall2 (cell_shows self 199) [4; 3; 2; 1] (cells q).
Proof.
  intros self.
  assert (Forall call_typed ex_calls) as Hc.
  { unfold ex_calls. repeat (apply Forall_cons_2; [unfold call_typed, in_ty; simpl; lia|]).
    constructor. }
  split; [done|].
  pose proof (quad_view_exact ex_catalog ex_calls 4 3 2 1 199 25 Hc) as H.
  assert ((quad_skew <$> quad_answer (quad_view 4 3 2 1 199 25 self)) = Some (30, false)) as Hq
    by (by vm_compute).
  cbv zeta in H. fold self in H. clearbody self.
  destruct (quad_view 4 3 2 1 199 25 self) as [self' [q|e|]]; [|done..].
  injection Hq as ? ?. exists q. split; [done|]. split; [done|]. split; [done|].
  by destruct H as (_&_&_&_&H&_).
Defined.

(** The unchecked subtraction: two cameras whose clocks are far apart. *)
Example quad_view_overflow :
  let calls := [Observe 1 (-9223372036854775808) 1 1; Observe 2 1 1 1; Observe 3 1 1 1;
                Observe 4 1 1 1] in
  (quad_view 1 2 3 4 1 0 (timeline_run calls (timeline_new ex_catalog))).2 = Panic.
Proof. vm_compute. done. Qed.
