(* ===== verification/ReplayStorage.v ===== *)
(** The rolling segment storage of replay,
    [crates/media/fm-replay/src/storage.rs] and [capacity.rs]: which recorded
    segments a root holds, what protects them, and which are deleted when space
    runs out.

    [RollingSegmentCatalog] maps to the record of the same name and its methods
    to definitions of theirs; a path is a string.  [inspect_recovery] reads
    directories and is not modelled. *)
From S2P Require Import Prelude BTree ReplayTypes.

(** ** Data *)

Record StorageRoot := mk_root { root_id : StorageRootId; root_path : string; capacity_bytes : Z }.
Inductive SegmentState := Open | Closed.
#[global] Instance SegmentState_eq_dec : EqDecision SegmentState.
Proof. solve_decision. Defined.

Inductive ProtectionReference :=
  | ByEvent (id : EventId)
  | ByHighlight (id : HighlightId)
  | ByExport (id : ExportJobId).
#[global] Instance ProtectionReference_eq_dec : EqDecision ProtectionReference.
Proof. solve_decision. Defined.

(** The derived order: by constructor, then by identifier. *)
Definition reference_rank (r : ProtectionReference) : Z * Z :=
  match r with
  | ByEvent id => (0, id)
  | ByHighlight id => (1, id)
  | ByExport id => (2, id)
  end.
#[global] Instance reference_ord_key : OrdKey ProtectionReference := λ x y,
  key_cmp (reference_rank x) (reference_rank y).
#[global] Instance reference_ord_key_laws : OrdKeyLaws ProtectionReference.
Proof.
  apply (ord_key_laws_via reference_rank); [|done]. intros [] []; simpl; intros; by simplify_eq.
Qed.

Record SegmentMetadata := mk_segment {
  seg_id : SegmentId;
  seg_camera : CameraId;
  seg_root : StorageRootId;
  recorder_segment_index : Z;
  seg_timeline : TimelineRange;
  seg_path : string;
  seg_bytes : Z;
  seg_state : SegmentState;
  protections : btset ProtectionReference
}.
Record RetentionReport := mk_report {
  deleted : list SegmentId;
  reclaimed_bytes : Z;
  blocked_bytes : Z;
  protected_segments : list SegmentId
}.
Definition report_default : RetentionReport := mk_report [] 0 0 [].

Record RollingSegmentCatalog := mk_catalog {
  roots : btmap StorageRootId StorageRoot;
  camera_roots : btmap CameraId StorageRootId;
  segments : btmap SegmentId SegmentMetadata
}.
Definition storage_default : RollingSegmentCatalog := mk_catalog [] [] [].

Abbreviation storage_stm A := (stm RollingSegmentCatalog ReplayError A).

(** ** Operations *)

Definition add_root (root : StorageRoot) : storage_stm unit :=
  self ← st_get;
  _ ← st_require (bt_contains (root_id root) (roots self) = false)
        (DuplicateStorageRoot (root_id root));
  st_put (mk_catalog (bt_insert (root_id root) root (roots self)) (camera_roots self)
            (segments self)).

Definition assign_camera (camera_id : CameraId) (root : StorageRootId) : storage_stm unit :=
  self ← st_get;
  _ ← st_require (bt_contains root (roots self) = true) (UnknownStorageRoot root);
  st_put (mk_catalog (roots self) (bt_insert camera_id root (camera_roots self))
            (segments self)).

Definition insert_segment (segment : SegmentMetadata) : storage_stm unit :=
  self ← st_get;
  assigned ← st_lift (ok_or (UnknownCamera (seg_camera segment))
                        (bt_get (seg_camera segment) (camera_roots self)));
  _ ← st_require (assigned = seg_root segment) CameraRootMismatch;
  _ ← st_require (bt_contains (seg_id segment) (segments self) = false)
        (DuplicateSegment (seg_id segment));
  st_put (mk_catalog (roots self) (camera_roots self)
            (bt_insert (seg_id segment) segment (segments self))).

Definition of_root (root : StorageRootId) (self : RollingSegmentCatalog) :
    list SegmentMetadata :=
  filter (λ s, seg_root s = root) (bt_values (segments self)).
Definition retained_bytes (self : RollingSegmentCatalog) (root : StorageRootId) : Z :=
  foldl (λ total s, saturating U64 (total + seg_bytes s)) 0 (of_root root self).

Definition with_protections (s : SegmentMetadata) (p : btset ProtectionReference) :
    SegmentMetadata :=
  mk_segment (seg_id s) (seg_camera s) (seg_root s) (recorder_segment_index s) (seg_timeline s)
    (seg_path s) (seg_bytes s) (seg_state s) p.

Definition in_camera_range (camera_id : CameraId) (range : TimelineRange)
    (s : SegmentMetadata) : Prop :=
  seg_camera s = camera_id ∧ overlaps (seg_timeline s) range = true.
Definition protect_range (camera_id : CameraId) (range : TimelineRange)
    (reference : ProtectionReference) : storage_stm (list SegmentId) :=
  self ← st_get;
  let protected := seg_id <$> filter (in_camera_range camera_id range) (bt_values (segments self)) in
  _ ← st_put (mk_catalog (roots self) (camera_roots self)
        (bt_map (λ s, if decide (in_camera_range camera_id range s)
                      then with_protections s (bs_insert reference (protections s)) else s)
           (segments self)));
  mret protected.

Definition release_reference (reference : ProtectionReference) : storage_stm unit :=
  st_modify (λ self, mk_catalog (roots self) (camera_roots self)
    (bt_map (λ s, with_protections s (filter (λ r, r ≠ reference) (protections s)))
       (segments self))).

(** The key segments are reclaimed by, oldest first. *)
Definition age (s : SegmentMetadata) : Z * Z * Z :=
  (range_start (seg_timeline s), recorder_segment_index s, seg_id s).

(** The loop of [reclaim]; [None] is a failed index. *)
Fixpoint reclaim_loop (segments : btmap SegmentId SegmentMetadata) (requested_bytes : Z)
    (candidates : list (Z * Z * Z)) (report : RetentionReport) : option RetentionReport :=
  match candidates with
  | [] => Some report
  | (_, id) :: candidates' =>
      if decide (requested_bytes ≤ reclaimed_bytes report) then Some report else
      segment ← bt_get id segments;
      if decide (seg_state segment = Open ∨ protections segment ≠ [])
      then reclaim_loop segments requested_bytes candidates'
             (mk_report (deleted report) (reclaimed_bytes report) (blocked_bytes report)
                (protected_segments report ++ [id]))
      else reclaim_loop segments requested_bytes candidates'
             (mk_report (deleted report ++ [id])
                (saturating U64 (reclaimed_bytes report + seg_bytes segment))
                (blocked_bytes report) (protected_segments report))
  end.

Definition reclaim (root : StorageRootId) (requested_bytes : Z) : storage_stm RetentionReport :=
  self ← st_get;
  _ ← st_require (bt_contains root (roots self) = true) (UnknownStorageRoot root);
  let candidates := merge_sort key_le (age <$> of_root root self) in
  report ← st_expect (reclaim_loop (segments self) requested_bytes candidates report_default);
  _ ← st_put (mk_catalog (roots self) (camera_roots self)
        (foldl (λ m id, bt_remove id m) (segments self) (deleted report)));
  mret (mk_report (deleted report) (reclaimed_bytes report)
          (saturating U64 (requested_bytes - reclaimed_bytes report))
          (protected_segments report)).

Definition enforce_retained_bytes (root : StorageRootId) (maximum_bytes : Z) :
    storage_stm RetentionReport :=
  self ← st_get;
  reclaim root (saturating U64 (retained_bytes self root - maximum_bytes)).

(** ** Capacity *)

Record CapacitySample := mk_sample { free_bytes : Z; bytes_written : Z; elapsed_nanos : Z }.
Record CapacityPrediction := mk_prediction {
  bytes_per_second : Z;
  seconds_until_full : option Z;
  seconds_until_low_space : option Z;
  low_space : bool
}.
Definition from_sample (sample : CapacitySample) (low_space_bytes : Z) : CapacityPrediction :=
  let rate :=
    if decide (elapsed_nanos sample = 0) then 0 else
    from_option id (ty_max U64) (checked U64
      (saturating U128 (bytes_written sample * 1000000000) `div` elapsed_nanos sample)) in
  {|
    bytes_per_second := rate;
    seconds_until_full :=
      if decide (rate ≠ 0) then Some (free_bytes sample `div` rate) else None;
    seconds_until_low_space :=
      if decide (rate ≠ 0)
      then Some (saturating U64 (free_bytes sample - low_space_bytes) `div` rate) else None;
    low_space := bool_decide (free_bytes sample ≤ low_space_bytes)
  |}.

Inductive LowSpaceAction := DeleteOldestUnprotected | ActStopRecording | ActRejectNewWrites.
Record LowSpacePolicy := mk_policy { reserve_bytes : Z; action : LowSpaceAction }.
Inductive LowSpaceDecision :=
  | Continue
  | Reclaimed (report : RetentionReport)
  | ProtectionBlocked (report : RetentionReport)
  | StopRecording
  | RejectNewWrites.

Definition policy_apply (self : LowSpacePolicy) (root : StorageRootId)
    (free_bytes incoming_bytes : Z) : storage_stm LowSpaceDecision :=
  let required := saturating U64 (reserve_bytes self + incoming_bytes) in
  if decide (required ≤ free_bytes) then mret Continue else
  match action self with
  | DeleteOldestUnprotected =>
      report ← reclaim root (required - free_bytes);
      mret (if decide (blocked_bytes report = 0) then Reclaimed report
            else ProtectionBlocked report)
  | ActStopRecording => mret StopRecording
  | ActRejectNewWrites => mret RejectNewWrites
  end.

(** ** The invariant *)

#[local] Arguments ty_max : simpl never.

Record storage_wf (self : RollingSegmentCatalog) : Prop := {
  st_sorted : bt_sorted (segments self);
  st_keys : ∀ id s, bt_get id (segments self) = Some s → seg_id s = id;
  st_bytes : ∀ id s, bt_get id (segments self) = Some s → in_ty U64 (seg_bytes s);
  st_protections : ∀ id s, bt_get id (segments self) = Some s → bs_sorted (protections s);
  st_roots : ∀ id s, bt_get id (segments self) = Some s →
    is_Some (bt_get (seg_root s) (roots self));
  st_assigned : ∀ c r, bt_get c (camera_roots self) = Some r → is_Some (bt_get r (roots self))
}.

Definition total_bytes (l : list SegmentMetadata) : Z := foldr (λ s n, seg_bytes s + n) 0 l.
Definition removable (s : SegmentMetadata) : Prop := seg_state s = Closed ∧ protections s = [].
#[global] Instance removable_dec s : Decision (removable s).
Proof. unfold removable. apply _. Defined.
Definition older (a b : SegmentMetadata) : Prop := key_lt (age a) (age b).

Lemma total_bytes_app l k : total_bytes (l ++ k) = total_bytes l + total_bytes k.
Proof. unfold total_bytes. induction l; simpl; lia. Qed.
#[global] Instance total_bytes_Permutation : Proper (Permutation ==> eq) total_bytes.
Proof. induction 1; simpl in *; lia. Qed.
Lemma total_bytes_nonneg l : Forall (λ s, 0 ≤ seg_bytes s) l → 0 ≤ total_bytes l.
Proof. induction 1; simpl; lia. Qed.

Lemma saturating_U64 x : 0 ≤ x → saturating U64 x = Z.min (ty_max U64) x.
Proof. unfold saturating. change (ty_min U64) with 0. intros.
  change (ty_max U64) with 18446744073709551615. lia. Qed.
Lemma saturating_U64_sub x y : saturating U64 (x - y) = Z.min (ty_max U64) (Z.max 0 (x - y)).
Proof. unfold saturating. change (ty_min U64) with 0.
  change (ty_max U64) with 18446744073709551615. lia. Qed.

(** The segments that [reclaim] looks at, and what it has made of them. *)
Record reclaim_prefix (requested : Z) (visited rest : list SegmentMetadata) : Prop := {
  rp_enough : rest ≠ [] → requested ≤ total_bytes (filter removable visited);
  rp_minimal : ∀ v1 x v2, visited = v1 ++ x :: v2 → total_bytes (filter removable v1) < requested
}.

Lemma reclaim_loop_spec m requested l :
  requested ≤ ty_max U64 →
  Forall (λ s, bt_get (seg_id s) m = Some s ∧ 0 ≤ seg_bytes s) l →
  ∀ before r,
  reclaimed_bytes r = Z.min (ty_max U64) (total_bytes (filter removable before)) →
  Forall (λ s, 0 ≤ seg_bytes s) before →
  ∃ visited rest, l = visited ++ rest ∧
    reclaim_loop m requested (age <$> l) r = Some (mk_report
      (deleted r ++ (seg_id <$> filter removable visited))
      (Z.min (ty_max U64) (total_bytes (filter removable (before ++ visited))))
      (blocked_bytes r)
      (protected_segments r ++ (seg_id <$> filter (λ s, ¬ removable s) visited))) ∧
    (rest ≠ [] → requested ≤ total_bytes (filter removable (before ++ visited))) ∧
    (∀ v1 x v2, visited = v1 ++ x :: v2 →
      total_bytes (filter removable (before ++ v1)) < requested).
Proof.
  intros Hreq. induction l as [|s l IH]; intros Hl before r Hr Hb.
  { exists [], []. simpl. rewrite !app_nil_r, <-Hr. destruct r. split_and!; [done..|].
    by intros [] ??. }
  apply Forall_cons in Hl as [[Hs Hbytes] Hl]. specialize (IH Hl).
  setoid_rewrite fmap_cons. cbn [reclaim_loop]. change (age s) with (range_start (seg_timeline s), recorder_segment_index s, seg_id s). cbv iota.
  assert (0 ≤ total_bytes (filter removable before)) as H0.
  { apply total_bytes_nonneg, Forall_forall. intros x [_ Hx]%list_elem_of_filter.
    rewrite Forall_forall in Hb. by apply Hb. }
  case_decide as Hdone.
  { exists [], (s :: l). simpl. rewrite !app_nil_r, <-Hr. destruct r; simpl in *.
    split_and!; [done..| |by intros [] ??]. intros _. lia. }
  rewrite Hs. simpl.
  assert (Forall (λ s, 0 ≤ seg_bytes s) (before ++ [s])) as Hb'.
  { apply Forall_app. split; [done|]. by apply Forall_singleton. }
  assert (∀ visited, (∀ v1 x v2, visited = v1 ++ x :: v2 →
      total_bytes (filter removable ((before ++ [s]) ++ v1)) < requested) →
    ∀ v1 x v2, s :: visited = v1 ++ x :: v2 →
      total_bytes (filter removable (before ++ v1)) < requested) as Hmin.
  { intros visited Hv [|y v1] x v2 [= <- Heq]; [rewrite app_nil_r; lia|].
    specialize (Hv v1 x v2 Heq). by rewrite <-(assoc_L (++)) in Hv. }
  case_decide as Hprot.
  - assert (¬ removable s) as Hn by (intros [? ?]; destruct Hprot; congruence).
    destruct (IH (before ++ [s]) (mk_report (deleted r) (reclaimed_bytes r) (blocked_bytes r)
      (protected_segments r ++ [seg_id s]))) as (visited&rest&->&Hrun&Hrest&Hv).
    { simpl. rewrite filter_app, filter_cons_False, app_nil_r by done. done. }
    { done. }
    exists (s :: visited), rest. rewrite Hrun. simpl.
    rewrite filter_cons_False, (filter_cons_True (λ s, ¬ removable s)) by done.
    rewrite <-!(assoc_L (++)) in *. split_and!; [done..|by apply Hmin].
  - assert (removable s) as Hy.
    { unfold removable. destruct (seg_state s), (protections s); naive_solver. }
    destruct (IH (before ++ [s]) (mk_report (deleted r ++ [seg_id s])
      (saturating U64 (reclaimed_bytes r + seg_bytes s)) (blocked_bytes r)
      (protected_segments r))) as (visited&rest&->&Hrun&Hrest&Hv).
    { simpl. rewrite saturating_U64 by lia.
      rewrite filter_app, total_bytes_app, filter_cons_True by done. simpl. lia. }
    { done. }
    exists (s :: visited), rest. rewrite Hrun. simpl.
    rewrite (filter_cons_True removable), (filter_cons_False (λ s, ¬ removable s)) by naive_solver.
    rewrite <-!(assoc_L (++)) in *. split_and!; [done..|by apply Hmin].
Qed.

Lemma of_root_get root self s :
  storage_wf self → s ∈ of_root root self →
  bt_get (seg_id s) (segments self) = Some s ∧ seg_root s = root ∧ in_ty U64 (seg_bytes s).
Proof.
  intros Hself [Hr Hs]%list_elem_of_filter. apply bt_elem_values in Hs as [id Hid]; [|by apply Hself].
  rewrite (st_keys _ Hself _ _ Hid). split_and!; [done..|by eapply st_bytes].
Qed.
Lemma elem_of_of_root root self id s :
  storage_wf self → bt_get id (segments self) = Some s → seg_root s = root → s ∈ of_root root self.
Proof.
  intros Hself Hs Hr. apply list_elem_of_filter. split; [done|].
  apply bt_elem_values; [by apply Hself|by exists id].
Qed.
Lemma of_root_NoDup root self : storage_wf self → NoDup (seg_id <$> of_root root self).
Proof.
  intros Hself. assert (seg_id <$> bt_values (segments self) = bt_keys (segments self)) as Hk.
  { unfold bt_values, bt_keys. rewrite <-list_fmap_compose. apply list_fmap_ext.
    intros i [k s] Hi. simpl. apply (st_keys _ Hself).
    apply bt_elem_get; [by apply Hself|by eapply list_elem_of_lookup_2]. }
  pose proof (bt_sorted_NoDup _ (st_sorted _ Hself)) as Hnd. rewrite <-Hk in Hnd.
  unfold of_root. clear Hk. induction (bt_values (segments self)) as [|s l IH]; [constructor|].
  rewrite filter_cons. apply NoDup_cons in Hnd as [Hs Hnd]. case_decide; [|by apply IH].
  rewrite fmap_cons. constructor; [|by apply IH].
  intros (s'&Heq&[_ Hs']%list_elem_of_filter)%list_elem_of_fmap.
  apply Hs, list_elem_of_fmap. by exists s'.
Qed.

Lemma bt_get_remove_all {V} (ids : list Z) (m : btmap Z V) id :
  bt_get id (foldl (λ m id, bt_remove id m) m ids) =
  if decide (id ∈ ids) then None else bt_get id m.
Proof.
  revert m. induction ids as [|i ids IH]; intros m; simpl; [done|].
  rewrite IH, bt_get_remove. repeat case_decide; set_solver.
Qed.
Lemma bt_remove_all_sorted {V} (ids : list Z) (m : btmap Z V) :
  bt_sorted m → bt_sorted (foldl (λ m id, bt_remove id m) m ids).
Proof. revert m. induction ids; intros m Hm; simpl; auto with btree. Qed.

(** The candidates are the segments of the root, oldest first. *)
Lemma candidates_sorted root self :
  storage_wf self →
  ∃ l, merge_sort key_le (age <$> of_root root self) = age <$> l ∧ l ≡ₚ of_root root self ∧
    StronglySorted older l.
Proof.
  intros Hself.
  pose proof (merge_sort_Permutation key_le (age <$> of_root root self)) as Hperm.
  pose proof (StronglySorted_merge_sort key_le (age <$> of_root root self)) as Hsort.
  apply Permutation_map_inv in Hperm as (l&Heq&Hl). exists l.
  split; [done|]. split; [done|]. rewrite Heq in Hsort.
  pose proof (of_root_NoDup root self Hself) as Hnd. rewrite Hl in Hnd. clear Heq Hl.
  induction l as [|s l IH]; [constructor|]. simpl in *.
  apply StronglySorted_inv in Hsort as [Hsort Hle]. apply NoDup_cons in Hnd as [Hs Hnd].
  constructor; [by apply IH|]. apply Forall_forall. intros x Hx.
  rewrite Forall_forall in Hle.
  destruct (proj1 (key_le_lteq (age s) (age x))) as [?|Heq]; [|done|].
  - apply Hle. apply list_elem_of_fmap. by exists x.
  - destruct Hs. apply list_elem_of_fmap. exists x. split; [|done]. by inversion Heq.
Qed.

(** What a reclaim of [requested] bytes from [root] does. *)
Record reclaim_effect (root : StorageRootId) (requested : Z) (s s' : RollingSegmentCatalog)
    (report : RetentionReport) (visited rest : list SegmentMetadata) : Prop := {
  re_order : visited ++ rest ≡ₚ of_root root s ∧ StronglySorted older (visited ++ rest);
  re_prefix : reclaim_prefix requested visited rest;
  re_report : let gone := filter removable visited in
    report = mk_report (seg_id <$> gone) (Z.min (ty_max U64) (total_bytes gone))
      (Z.max 0 (requested - total_bytes gone))
      (seg_id <$> filter (λ s, ¬ removable s) visited);
  re_segments : ∀ id, bt_get id (segments s') =
    if decide (id ∈ deleted report) then None else bt_get id (segments s);
  re_frame : roots s' = roots s ∧ camera_roots s' = camera_roots s
}.

Lemma storage_wf_sub s s' :
  storage_wf s → bt_sorted (segments s') → roots s' = roots s → camera_roots s' = camera_roots s →
  (∀ id x, bt_get id (segments s') = Some x → bt_get id (segments s) = Some x) → storage_wf s'.
Proof.
  intros Hs Hsort Hr Hc Hsub. split; rewrite ?Hr, ?Hc; try done; intros ?? H;
    try (apply Hsub in H); by eapply Hs.
Qed.

Lemma reclaim_wp root requested s :
  storage_wf s → in_ty U64 requested →
  wp (reclaim root requested) (λ r s',
    match r with
    | Ret report => is_Some (bt_get root (roots s)) ∧ storage_wf s' ∧
        ∃ visited rest, reclaim_effect root requested s s' report visited rest
    | Throw e => s' = s ∧ e = UnknownStorageRoot root ∧ bt_get root (roots s) = None
    | Panic => False
    end) s.
Proof.
  intros Hs Hreq. unfold reclaim. wp_step. wp_step. wp_step.
  unfold bt_contains. wp_step.
  2: { rewrite bool_decide_eq_true in H. split_and!; [done..|]. by apply eq_None_not_Some. }
  rewrite bool_decide_eq_true in H.
  destruct (candidates_sorted root s Hs) as (l&->&Hl&Hsort).
  assert (Forall (λ x, bt_get (seg_id x) (segments s) = Some x ∧ 0 ≤ seg_bytes x) l) as Hall.
  { apply Forall_forall. intros x. rewrite Hl. intros Hx.
    destruct (of_root_get root s x Hs Hx) as (?&_&?&?). by split. }
  destruct (reclaim_loop_spec (segments s) requested l) with (before := @nil SegmentMetadata)
    (r := report_default) as (visited&rest&->&->&Hrest&Hmin); [by apply Hreq|done..|].
  wp_step. apply wp_expect; [intros ? [= <-]|done]. simpl in *.
  wp_step. wp_step. wp_step. split; [done|].
  set (s' := mk_catalog _ _ _).
  assert (∀ id, bt_get id (segments s') =
    if decide (id ∈ seg_id <$> filter removable visited) then None else bt_get id (segments s))
    as Hget by apply bt_get_remove_all.
  split.
  - apply (storage_wf_sub s); [done|by apply bt_remove_all_sorted, Hs|done..|].
    intros id x. rewrite Hget. by case_decide.
  - exists visited, rest. split; try done. simpl. f_equal.
    rewrite saturating_U64_sub. destruct Hreq as [Hreq0 Hreq]. change (ty_min U64) with 0 in Hreq0.
    assert (0 ≤ total_bytes (filter removable visited)).
    { apply total_bytes_nonneg, Forall_forall. intros x [_ Hx]%list_elem_of_filter.
      rewrite Forall_forall in Hall. apply Hall. apply elem_of_app. by left. }
    lia.
Qed.

(** ** What a reclaim leaves *)

Lemma reclaim_gone root requested s s' report visited rest x :
  storage_wf s → reclaim_effect root requested s s' report visited rest →
  bt_get (seg_id x) (segments s) = Some x →
  seg_id x ∈ deleted report → x ∈ filter removable visited.
Proof.
  intros Hs He Hx Hid. rewrite (re_report _ _ _ _ _ _ _ He) in Hid. simpl in Hid.
  apply list_elem_of_fmap in Hid as (y&Heq&Hy).
  assert (y ∈ of_root root s) as Hy'.
  { rewrite <-(proj1 (re_order _ _ _ _ _ _ _ He)). apply elem_of_app. left.
    by apply list_elem_of_filter in Hy as [_ ?]. }
  destruct (of_root_get root s y Hs Hy') as [Hget _]. by rewrite Heq, Hget in Hx; simplify_eq.
Qed.

Lemma reclaim_leaves root requested s s' report visited rest :
  storage_wf s → storage_wf s' → reclaim_effect root requested s s' report visited rest →
  of_root root s' ≡ₚ filter (λ s, ¬ removable s) visited ++ rest.
Proof.
  intros Hs Hs' He. destruct (re_order _ _ _ _ _ _ _ He) as [Hord _].
  pose proof (of_root_NoDup root s Hs) as Hnd. rewrite <-Hord in Hnd.
  assert (NoDup (visited ++ rest)) as Hnd'.
  { by apply (NoDup_fmap_1 seg_id). }
  rewrite fmap_app in Hnd. apply NoDup_app in Hnd as (_&Hdisj&_).
  apply NoDup_app in Hnd' as (Hv&Hvr&Hr).
  apply NoDup_Permutation.
  { apply (NoDup_fmap_1 seg_id). by apply of_root_NoDup. }
  { apply NoDup_app. split_and!; [by apply NoDup_filter| |done].
    intros x [_ Hx]%list_elem_of_filter. by apply Hvr. }
  assert (∀ x, x ∈ filter removable visited → seg_id x ∈ deleted report) as Hdel.
  { intros x Hx. rewrite (re_report _ _ _ _ _ _ _ He). simpl. apply list_elem_of_fmap.
    by exists x. }
  intros x. rewrite elem_of_app, list_elem_of_filter. split.
  - intros Hx. destruct (of_root_get root s' x Hs' Hx) as (Hget&Hroot&_).
    rewrite (re_segments _ _ _ _ _ _ _ He) in Hget. case_decide as Hnot; [done|].
    assert (x ∈ visited ++ rest) as [?|?]%elem_of_app; [|left|by right].
    { rewrite Hord. by eapply elem_of_of_root. }
    split; [|done]. intros Hrem. apply Hnot, Hdel. by apply list_elem_of_filter.
  - intros Hx. assert (x ∈ of_root root s) as Hin.
    { rewrite <-Hord. apply elem_of_app. naive_solver. }
    destruct (of_root_get root s x Hs Hin) as (Hget&Hroot&_).
    eapply elem_of_of_root; [done| |done].
    rewrite (re_segments _ _ _ _ _ _ _ He), decide_False; [done|]. intros Hid.
    apply (reclaim_gone _ _ _ _ _ _ _ _ Hs He Hget) in Hid.
    apply list_elem_of_filter in Hid as [Hrem Hxv].
    destruct Hx as [[? _]|Hx]; [done|]. by apply (Hvr x).
Qed.

Lemma total_bytes_filter l :
  total_bytes (filter removable l) + total_bytes (filter (λ s, ¬ removable s) l) = total_bytes l.
Proof. rewrite <-total_bytes_app. by rewrite filter_app_complement. Qed.

Lemma of_root_bytes root s : storage_wf s → Forall (λ x, 0 ≤ seg_bytes x) (of_root root s).
Proof.
  intros Hs. apply Forall_forall. intros x Hx.
  by destruct (of_root_get root s x Hs Hx) as (_&_&?&_).
Qed.

(** The bytes a reclaim frees leave the root. *)
Lemma reclaim_bytes root requested s s' report visited rest :
  storage_wf s → storage_wf s' → reclaim_effect root requested s s' report visited rest →
  total_bytes (of_root root s') + total_bytes (filter removable visited) =
  total_bytes (of_root root s).
Proof.
  intros Hs Hs' He. rewrite (reclaim_leaves root requested s s' report visited rest) by done.
  rewrite <-(proj1 (re_order _ _ _ _ _ _ _ He)), !total_bytes_app.
  pose proof (total_bytes_filter visited). lia.
Qed.

Lemma retained_bytes_total s root :
  storage_wf s → retained_bytes s root = Z.min (ty_max U64) (total_bytes (of_root root s)).
Proof.
  intros Hs. pose proof (of_root_bytes root s Hs) as Hall. unfold retained_bytes.
  assert (∀ n, 0 ≤ n → n ≤ ty_max U64 →
    foldl (λ total s, saturating U64 (total + seg_bytes s)) n (of_root root s) =
    Z.min (ty_max U64) (n + total_bytes (of_root root s))) as Hfold.
  { induction Hall as [|x l Hx Hl IH]; intros n Hn Hm; simpl; [lia|].
    rewrite saturating_U64, IH by lia.
    pose proof (total_bytes_nonneg l Hl). lia. }
  rewrite Hfold; [done|done|]. done.
Qed.

(** Enforcing a limit on a root. *)
Lemma enforce_wp root maximum s :
  storage_wf s → in_ty U64 maximum → total_bytes (of_root root s) ≤ ty_max U64 →
  wp (enforce_retained_bytes root maximum) (λ r s',
    match r with
    | Ret report => is_Some (bt_get root (roots s)) ∧ storage_wf s' ∧ ∃ visited rest,
        reclaim_effect root (Z.max 0 (total_bytes (of_root root s) - maximum)) s s' report
          visited rest
    | Throw e => s' = s ∧ e = UnknownStorageRoot root ∧ bt_get root (roots s) = None
    | Panic => False
    end) s.
Proof.
  intros Hs [Hm0 Hm] Htot. unfold enforce_retained_bytes. wp_step. wp_step.
  change (ty_min U64) with 0 in Hm0.
  pose proof (total_bytes_nonneg _ (of_root_bytes root s Hs)).
  assert (saturating U64 (retained_bytes s root - maximum) =
    Z.max 0 (total_bytes (of_root root s) - maximum)) as ->.
  { rewrite retained_bytes_total, saturating_U64_sub by done. lia. }
  apply reclaim_wp; [done|]. unfold in_ty. change (ty_min U64) with 0. lia.
Qed.

(** ** Histories *)

Inductive storage_call :=
  | AddRoot (root : StorageRoot)
  | AssignCamera (camera : CameraId) (root : StorageRootId)
  | InsertSegment (segment : SegmentMetadata)
  | ProtectRange (camera : CameraId) (range : TimelineRange) (reference : ProtectionReference)
  | ReleaseReference (reference : ProtectionReference)
  | Reclaim (root : StorageRootId) (requested : Z)
  | EnforceRetained (root : StorageRootId) (maximum : Z)
  | ApplyPolicy (policy : LowSpacePolicy) (root : StorageRootId) (free incoming : Z).
Definition storage_do (call : storage_call) : storage_stm unit :=
  match call with
  | AddRoot root => add_root root
  | AssignCamera camera root => assign_camera camera root
  | InsertSegment segment => insert_segment segment
  | ProtectRange camera range reference => _ ← protect_range camera range reference; mret tt
  | ReleaseReference reference => release_reference reference
  | Reclaim root requested => _ ← reclaim root requested; mret tt
  | EnforceRetained root maximum => _ ← enforce_retained_bytes root maximum; mret tt
  | ApplyPolicy policy root free incoming =>
      _ ← policy_apply policy root free incoming; mret tt
  end.
Definition storage_run (calls : list storage_call) (s : RollingSegmentCatalog) :
    RollingSegmentCatalog := foldl (λ s call, (storage_do call s).1) s calls.
(** Byte counts are 64-bit, and a set is ordered. *)
Definition storage_typed (call : storage_call) : Prop :=
  match call with
  | InsertSegment s => in_ty U64 (seg_bytes s) ∧ bs_sorted (protections s)
  | Reclaim _ n | EnforceRetained _ n => in_ty U64 n
  | ApplyPolicy p _ free incoming =>
      in_ty U64 (reserve_bytes p) ∧ in_ty U64 free ∧ in_ty U64 incoming
  | _ => True
  end.

(** Changing only the protections of the segments. *)
Lemma storage_wf_map s f :
  storage_wf s →
  (∀ x, ∃ p, f x = with_protections x p ∧ (bs_sorted (protections x) → bs_sorted p)) →
  storage_wf (mk_catalog (roots s) (camera_roots s) (bt_map f (segments s))).
Proof.
  intros Hs Hf. split; simpl; [by apply bt_map_sorted, Hs| | | | |by apply Hs];
    intros i y; rewrite bt_get_map; intros (x&Hx&->)%fmap_Some; destruct (Hf x) as (p&->&Hp);
    simpl; try (by eapply Hs). eapply Hp, Hs, Hx.
Qed.

(** What no call but its release does to a protected segment. *)
Definition still_protected (reference : ProtectionReference) (s s' : RollingSegmentCatalog) :
    Prop :=
  ∀ id x, bt_get id (segments s) = Some x → reference ∈ protections x →
  ∃ x', bt_get id (segments s') = Some x' ∧ reference ∈ protections x' ∧
    with_protections x' [] = with_protections x [].
Lemma still_protected_refl reference s : still_protected reference s s.
Proof. intros id x Hx Hr. by exists x. Qed.
Lemma still_protected_trans reference s1 s2 s3 :
  still_protected reference s1 s2 → still_protected reference s2 s3 →
  still_protected reference s1 s3.
Proof.
  intros H12 H23 id x Hx Hr. destruct (H12 id x Hx Hr) as (y&Hy&Hry&Heq).
  destruct (H23 id y Hy Hry) as (z&Hz&Hrz&Heqz). exists z. by rewrite Heqz.
Qed.
Lemma still_protected_segments reference s s' :
  (∀ id x, bt_get id (segments s) = Some x → bt_get id (segments s') = Some x) →
  still_protected reference s s'.
Proof. intros H id x Hx Hr. exists x. eauto. Qed.
Lemma still_protected_reclaim reference root requested s s' report visited rest :
  storage_wf s → reclaim_effect root requested s s' report visited rest →
  still_protected reference s s'.
Proof.
  intros Hs He id x Hx Hr. exists x. split; [|done].
  rewrite (re_segments _ _ _ _ _ _ _ He), decide_False; [done|]. intros Hid.
  assert (seg_id x = id) as <- by (by apply (st_keys _ Hs)).
  apply (reclaim_gone _ _ _ _ _ _ _ _ Hs He Hx) in Hid.
  apply list_elem_of_filter in Hid as [[_ Hnil] _]. rewrite Hnil in Hr. by apply not_elem_of_nil in Hr.
Qed.

(** Every call keeps the invariant, does not panic, and keeps what is protected
    by a reference that it does not release. *)
Definition call_ok (call : storage_call) (s : RollingSegmentCatalog)
    (r : outcome ReplayError unit) (s' : RollingSegmentCatalog) : Prop :=
  r ≠ Panic ∧ storage_wf s' ∧ (∀ e, r = Throw e → s' = s) ∧
  ∀ reference, call ≠ ReleaseReference reference → still_protected reference s s'.

Lemma call_ok_refl call s r : storage_wf s → r ≠ Panic → call_ok call s r s.
Proof. intros. split_and!; [done..|]. intros. apply still_protected_refl. Qed.
Lemma call_ok_reclaim call root requested s s' report visited rest :
  storage_wf s → storage_wf s' → reclaim_effect root requested s s' report visited rest →
  call_ok call s (Ret tt) s'.
Proof. intros. split_and!; [done..|]. intros. by eapply still_protected_reclaim. Qed.

Lemma insert_segment_ok segment s :
  storage_wf s → storage_typed (InsertSegment segment) →
  wp (insert_segment segment) (call_ok (InsertSegment segment) s) s.
Proof.
  intros Hs [Hb Hp]. unfold insert_segment. wp_step. wp_step. wp_step.
  apply wp_lift; [intros assigned Ha%ok_or_Ok|by intros; apply call_ok_refl].
  wp_step. wp_step; [|by apply call_ok_refl]. subst assigned.
  wp_step. unfold bt_contains. wp_step; [|by apply call_ok_refl].
  rewrite bool_decide_eq_false, <-eq_None_not_Some in H. wp_step. split_and!; [done| |done|].
  - split; simpl; [by apply bt_insert_sorted, Hs| | | | |by apply Hs]; intros i x;
      rewrite bt_get_insert; case_decide; try (by eapply Hs); intros [= <-]; try done.
    by apply (st_assigned _ Hs _ _ Ha).
  - intros reference _. apply still_protected_segments. intros i x Hx. simpl.
    rewrite bt_get_insert. case_decide; [by subst; rewrite H in Hx|done].
Qed.

Lemma protect_range_ok camera range reference s :
  storage_wf s →
  wp (protect_range camera range reference) (λ r s',
    call_ok (ProtectRange camera range reference) s
      (match r with Ret _ => Ret tt | Throw e => Throw e | Panic => Panic end) s' ∧
    r = Ret (seg_id <$> filter (in_camera_range camera range) (bt_values (segments s))) ∧
    ∀ id x, bt_get id (segments s) = Some x → in_camera_range camera range x →
      bt_get id (segments s') = Some (with_protections x (bs_insert reference (protections x)))) s.
Proof.
  intros Hs. unfold protect_range. wp_step. wp_step. wp_step. wp_step. wp_step.
  split_and!; [split_and!; [done| |done|]|done|].
  - apply (storage_wf_map s); [done|]. intros x. case_decide.
    + exists (bs_insert reference (protections x)). split; [done|]. apply bs_insert_sorted.
    + exists (protections x). by destruct x.
  - intros reference' _ id x Hx Hr. simpl. rewrite bt_get_map, Hx. simpl. eexists.
    split; [done|]. case_decide; [|done]. simpl. split; [|done].
    apply elem_of_bs_insert. by right.
  - intros id x Hx Hin. simpl. rewrite bt_get_map, Hx. simpl. by rewrite decide_True.
Qed.

Lemma bs_filter_sorted (P : ProtectionReference → Prop) `{∀ x, Decision (P x)} l :
  bs_sorted l → bs_sorted (filter P l).
Proof.
  unfold bs_sorted. induction l as [|x l IH]; intros Hl; [constructor|].
  apply StronglySorted_inv in Hl as [Hl Hx]. rewrite filter_cons. case_decide; [|by apply IH].
  constructor; [by apply IH|]. rewrite Forall_forall in *. intros y [_ Hy]%list_elem_of_filter. by apply Hx.
Qed.

Lemma reclaim_ok call root requested s :
  storage_wf s → in_ty U64 requested →
  wp (reclaim root requested) (λ r s',
    call_ok call s (match r with Ret _ => Ret tt | Throw e => Throw e | Panic => Panic end) s') s.
Proof.
  intros Hs Hreq. eapply wp_mono; [by apply reclaim_wp|].
  intros [report|e|] s'; [|by intros [-> _]; apply call_ok_refl|done].
  intros (_&Hs'&visited&rest&He). by eapply call_ok_reclaim.
Qed.
Lemma policy_apply_ok policy root free incoming s :
  storage_wf s → storage_typed (ApplyPolicy policy root free incoming) →
  wp (policy_apply policy root free incoming) (λ r s',
    call_ok (ApplyPolicy policy root free incoming) s
      (match r with Ret _ => Ret tt | Throw e => Throw e | Panic => Panic end) s') s.
Proof.
  intros Hs (Hp&Hf&Hi). unfold policy_apply. case_decide as Hfree.
  { wp_step. by apply call_ok_refl. }
  destruct (action policy); [|wp_step; by apply call_ok_refl..].
  wp_step. eapply wp_mono; [eapply (reclaim_ok (ApplyPolicy policy root free incoming)); [done|]|].
  - destruct Hf as [Hf0 Hf], (saturating_in U64 (reserve_bytes policy + incoming)) as [_ ?]; [done|].
    change (ty_min U64) with 0 in Hf0. unfold in_ty. change (ty_min U64) with 0. lia.
  - intros [report|e|] s'; [|done..]. intros Hok. by wp_step.
Qed.

Lemma storage_do_ok call s :
  storage_wf s → storage_typed call → wp (storage_do call) (call_ok call s) s.
Proof.
  intros Hs Hty. destruct call as [root|camera root|segment|camera range reference|reference|
    root requested|root maximum|policy root free incoming]; simpl in *.
  - unfold add_root. wp_step. wp_step. unfold bt_contains. wp_step.
    wp_step; [|by apply call_ok_refl]. rewrite bool_decide_eq_false, <-eq_None_not_Some in H. wp_step.
    assert (∀ r, is_Some (bt_get r (roots s)) →
      is_Some (bt_get r (bt_insert (root_id root) root (roots s)))) as Hr.
    { intros r ?. rewrite bt_get_insert. by case_decide. }
    split_and!; [done| |done|by intros; apply still_protected_segments].
    split; simpl; try (by apply Hs).
    + intros ?? Hx. by eapply Hr, Hs.
    + intros ?? Hx. by eapply Hr, Hs.
  - unfold assign_camera. wp_step. wp_step. unfold bt_contains. wp_step.
    wp_step; [|by apply call_ok_refl]. rewrite bool_decide_eq_true in H. wp_step.
    split_and!; [done| |done|by intros; apply still_protected_segments].
    split; simpl; try (by apply Hs). intros c r. rewrite bt_get_insert.
    case_decide; [by intros [= <-]|]. by apply Hs.
  - by apply insert_segment_ok.
  - wp_step. eapply wp_mono; [by apply protect_range_ok|].
    intros [ids|e|] s' (Hok&_&_); simpl in *; [|done..].
    by wp_step.
  - unfold release_reference. wp_step. split_and!; [done| |done|].
    + apply storage_wf_map; [done|]. intros x. eexists. split; [done|]. by apply bs_filter_sorted.
    + intros r Hne id x Hx Hr. simpl. rewrite bt_get_map, Hx. simpl. eexists. split; [done|].
      simpl. split; [|done]. apply list_elem_of_filter. split; [|done]. by intros ->.
  - wp_step. eapply wp_mono; [by apply (reclaim_ok (Reclaim root requested))|].
    intros [report|e|] s'; [|done..]. intros Hok. by wp_step.
  - unfold enforce_retained_bytes. do 3 wp_step.
    eapply wp_mono; [apply (reclaim_ok (EnforceRetained root maximum)); [done|by apply saturating_in]|].
    intros [report|e|] s'; [|done..]. intros Hok. by wp_step.
  - wp_step. eapply wp_mono; [by apply policy_apply_ok|].
    intros [report|e|] s'; [|done..]. intros Hok. by wp_step.
Qed.

Lemma storage_run_wf calls s :
  storage_wf s → Forall storage_typed calls → storage_wf (storage_run calls s).
Proof.
  revert s. induction calls as [|call calls IH]; intros s Hs Hc; [done|].
  apply Forall_cons in Hc as [Hc Hcs]. apply IH; [|done]. by apply (storage_do_ok call s Hs Hc).
Qed.
Lemma storage_run_protected reference calls s :
  storage_wf s → Forall storage_typed calls → ReleaseReference reference ∉ calls →
  still_protected reference s (storage_run calls s).
Proof.
  revert s. induction calls as [|call calls IH]; intros s Hs Hc Hn; [apply still_protected_refl|].
  apply Forall_cons in Hc as [Hc Hcs]. apply not_elem_of_cons in Hn as [Hne Hn].
  destruct (storage_do_ok call s Hs Hc) as (_&Hs'&_&Hp).
  eapply still_protected_trans; [by apply Hp|]. by apply IH.
Qed.
Lemma storage_default_wf : storage_wf storage_default.
Proof. split; [constructor|done..]. Qed.

(** Reclaiming space from a root of any reachable catalog takes the segments
    of the root oldest first and no further than needed: those it looks at are
    the shortest run, in order of start, recorder index and identifier, whose
    closed and unprotected members hold the requested bytes, or all of them.
    Exactly these members are deleted, the others are reported as protected, the
    rest of the catalog is unchanged, and the report gives the freed and the
    missing bytes.  An unknown root is refused and changes nothing. *)
Theorem reclaim_exact calls root requested :
  Forall storage_typed calls → in_ty U64 requested →
  let s := storage_run calls storage_default in
  let '(s', r) := reclaim root requested s in
  match r with
  | Ret report => is_Some (bt_get root (roots s)) ∧
      ∃ visited rest, reclaim_effect root requested s s' report visited rest
  | Throw e => s' = s ∧ e = UnknownStorageRoot root ∧ bt_get root (roots s) = None
  | Panic => False
  end.
Proof.
  intros Hc Hreq s. apply wp_pair.
  assert (storage_wf s) as Hs by (by apply storage_run_wf; [apply storage_default_wf|]).
  eapply wp_mono; [by apply reclaim_wp|]. intros [report|e|] s'; [|done..]. naive_solver.
Qed.

(** Enforcing a retention limit on a root of any reachable catalog deletes
    exactly the bytes it reports, leaves at most the limit and what it reports as
    blocked, deletes nothing when the limit is already kept, and reports blocked
    bytes only when every segment left is open or protected.  Segments of other
    roots stay. *)
Theorem retention_enforced calls root maximum :
  Forall storage_typed calls → in_ty U64 maximum →
  let s := storage_run calls storage_default in
  let total := total_bytes (of_root root s) in
  total ≤ ty_max U64 → is_Some (bt_get root (roots s)) →
  let '(s', r) := enforce_retained_bytes root maximum s in
  ∃ report, r = Ret report ∧
    retained_bytes s' root = total - reclaimed_bytes report ∧
    retained_bytes s' root ≤ maximum + blocked_bytes report ∧
    (total ≤ maximum → segments s' = segments s) ∧
    (0 < blocked_bytes report → Forall (λ x, ¬ removable x) (of_root root s')) ∧
    ∀ id x, bt_get id (segments s) = Some x → seg_root x ≠ root →
      bt_get id (segments s') = Some x.
Proof.
  intros Hc Hmax s total Htot Hroot. apply wp_pair.
  assert (storage_wf s) as Hs by (by apply storage_run_wf; [apply storage_default_wf|]).
  clearbody s. eapply wp_mono; [by apply enforce_wp|].
  intros [report|e|] s'; [|by intros (_&_&Hn); rewrite Hn in Hroot; destruct Hroot|done].
  intros (_&Hs'&visited&rest&He). exists report. split; [done|].
  pose proof (reclaim_bytes _ _ _ _ _ _ _ Hs Hs' He) as Hbytes. fold total in Hbytes.
  pose proof (reclaim_leaves _ _ _ _ _ _ _ Hs Hs' He) as Hleft.
  pose proof (total_bytes_nonneg _ (of_root_bytes root s' Hs')) as H0.
  pose proof (re_report _ _ _ _ _ _ _ He) as Hrep. fold total in Hrep.
  pose proof (rp_enough _ _ _ (re_prefix _ _ _ _ _ _ _ He)) as Henough. fold total in Henough.
  assert (0 ≤ total_bytes (filter removable visited)) as Hg0.
  { apply total_bytes_nonneg, Forall_forall. intros x [_ Hx]%list_elem_of_filter.
    pose proof (of_root_bytes root s Hs) as Hall. rewrite Forall_forall in Hall. apply Hall.
    rewrite <-(proj1 (re_order _ _ _ _ _ _ _ He)). apply elem_of_app. by left. }
  rewrite (retained_bytes_total s' root Hs'), Z.min_r by lia.
  assert (reclaimed_bytes report = total_bytes (filter removable visited) ∧
    blocked_bytes report = Z.max 0 (Z.max 0 (total - maximum) -
      total_bytes (filter removable visited))) as [-> ->].
  { rewrite Hrep. simpl. split; [lia|done]. }
  split_and!; [lia|lia| | |].
  - intros Hle. assert (visited = []) as ->.
    { destruct visited as [|x v]; [done|].
      pose proof (rp_minimal _ _ _ (re_prefix _ _ _ _ _ _ _ He) [] x v eq_refl) as Hm.
      simpl in Hm. lia. }
    apply bt_ext; [apply Hs'|apply Hs|]. intros id.
    rewrite (re_segments _ _ _ _ _ _ _ He), Hrep. done.
  - intros Hblocked. assert (rest = []) as ->.
    { destruct rest; [done|]. specialize (Henough ltac:(done)). lia. }
    rewrite app_nil_r in Hleft. rewrite Hleft. apply Forall_forall.
    by intros x [? _]%list_elem_of_filter.
  - intros id x Hx Hne. rewrite (re_segments _ _ _ _ _ _ _ He), decide_False; [done|].
    intros Hid. assert (seg_id x = id) as <- by (by apply (st_keys _ Hs)).
    apply (reclaim_gone _ _ _ _ _ _ _ _ Hs He Hx) in Hid.
    apply list_elem_of_filter in Hid as [_ Hid]. apply Hne.
    apply (of_root_get root s x Hs). rewrite <-(proj1 (re_order _ _ _ _ _ _ _ He)).
    apply elem_of_app. by left.
Qed.

(** C40: Protecting a range of a camera returns exactly the segments of the camera
    that overlap it, and from then on each of them stays in the catalog, with the
    protection and unchanged but for other protections, through every history of
    calls that does not release that reference: no reclaim, limit or low-space
    policy deletes it. *)
Theorem protected_until_released calls camera range reference later :
  Forall storage_typed calls → Forall storage_typed later →
  ReleaseReference reference ∉ later →
  let s := storage_run calls storage_default in
  let '(s1, r) := protect_range camera range reference s in
  ∃ ids, r = Ret ids ∧
    (∀ id, id ∈ ids ↔ ∃ x, bt_get id (segments s) = Some x ∧ in_camera_range camera range x) ∧
    ∀ id x, id ∈ ids → bt_get id (segments s) = Some x →
    ∃ x', bt_get id (segments (storage_run later s1)) = Some x' ∧
      reference ∈ protections x' ∧ with_protections x' [] = with_protections x [].
Proof.
  intros Hc Hlater Hnot s. apply wp_pair.
  assert (storage_wf s) as Hs by (by apply storage_run_wf; [apply storage_default_wf|]).
  eapply wp_mono; [by apply protect_range_ok|]. intros r s1 ((_&Hs1&_)&->&Hget).
  assert (∀ id, id ∈ seg_id <$> filter (in_camera_range camera range) (bt_values (segments s)) ↔
    ∃ x, bt_get id (segments s) = Some x ∧ in_camera_range camera range x) as Hids.
  { intros id. rewrite list_elem_of_fmap. setoid_rewrite list_elem_of_filter.
    setoid_rewrite bt_elem_values; [|by apply Hs]. split.
    - intros (x&->&Hin&k&Hk). exists x. by rewrite (st_keys _ Hs _ _ Hk).
    - intros (x&Hx&Hin). exists x. rewrite (st_keys _ Hs _ _ Hx). eauto. }
  eexists. split; [done|]. split; [done|]. intros id x Hid Hx.
  apply Hids in Hid as (x0&Hx0&Hin). rewrite Hx in Hx0. injection Hx0 as <-.
  specialize (Hget id x Hx Hin).
  destruct (storage_run_protected reference later s1 Hs1 Hlater Hnot id _ Hget) as (x'&?&?&Heq).
  { simpl. apply elem_of_bs_insert. by left. }
  exists x'. split_and!; [done..|]. by rewrite Heq.
Qed.

(** A low-space policy that deletes makes the room it says it made. *)
Lemma policy_apply_room policy root free incoming s :
  storage_wf s → in_ty U64 (reserve_bytes policy) → in_ty U64 free → in_ty U64 incoming →
  reserve_bytes policy + incoming ≤ ty_max U64 →
  wp (policy_apply policy root free incoming) (λ r s',
    match r with
    | Ret Continue => s' = s ∧ reserve_bytes policy + incoming ≤ free
    | Ret (Reclaimed report) =>
        reserve_bytes policy + incoming ≤ free + total_bytes (of_root root s) - total_bytes (of_root root s')
    | Ret (ProtectionBlocked report) =>
        Forall (λ x, ¬ removable x) (of_root root s') ∧
        free + total_bytes (of_root root s) - total_bytes (of_root root s') <
          reserve_bytes policy + incoming
    | Ret StopRecording | Ret RejectNewWrites => s' = s ∧ free < reserve_bytes policy + incoming
    | Throw _ => s' = s
    | Panic => False
    end) s.
Proof.
  intros Hs [Hr0 _] [Hf0 Hf] [Hi0 _] Hfit. change (ty_min U64) with 0 in *.
  unfold policy_apply. rewrite saturating_U64, Z.min_r by lia. case_decide; [by wp_step|].
  destruct (action policy); [|wp_step; split; [done|lia]..].
  wp_step. eapply wp_mono; [apply reclaim_wp; [done|]|].
  { unfold in_ty. change (ty_min U64) with 0. lia. }
  intros [report|e|] s'; [|by intros [-> _]|done]. intros (_&Hs'&visited&rest&He).
  wp_step. pose proof (reclaim_bytes _ _ _ _ _ _ _ Hs Hs' He) as Hbytes.
  pose proof (re_report _ _ _ _ _ _ _ He) as Hrep. case_decide as Hblocked.
  - rewrite Hrep in Hblocked. simpl in Hblocked. lia.
  - rewrite Hrep in Hblocked. simpl in Hblocked. split; [|lia].
    assert (rest = []) as ->.
    { destruct rest; [done|].
      pose proof (rp_enough _ _ _ (re_prefix _ _ _ _ _ _ _ He) ltac:(done)). lia. }
    rewrite (reclaim_leaves _ _ _ _ _ _ _ Hs Hs' He), app_nil_r. apply Forall_forall.
    by intros x [? _]%list_elem_of_filter.
Qed.

(** The predicted rate is the exact quotient, capped at 64 bits. *)
Lemma from_sample_rate sample low :
  in_ty U64 (bytes_written sample) → 0 < elapsed_nanos sample →
  bytes_per_second (from_sample sample low) =
  Z.min (ty_max U64) ((bytes_written sample * 1000000000) `div` elapsed_nanos sample).
Proof.
  intros [Hb0 Hb] He. change (ty_min U64) with 0 in Hb0.
  change (ty_max U64) with 18446744073709551615 in *. unfold from_sample. simpl.
  rewrite decide_False by lia.
  rewrite saturating_id by (split; [change (ty_min U128) with 0; lia|
    change (ty_max U128) with 340282366920938463463374607431768211455; lia]).
  assert (0 ≤ (bytes_written sample * 1000000000) `div` elapsed_nanos sample) as H0.
  { apply Z.div_pos; lia. }
  unfold checked. case_decide as Hin.
  - simpl. destruct Hin as [_ Hin]. change (ty_max U64) with 18446744073709551615 in Hin. lia.
  - simpl. change (ty_max U64) with 18446744073709551615.
    unfold in_ty in Hin. change (ty_min U64) with 0 in Hin.
    change (ty_max U64) with 18446744073709551615 in Hin. lia.
Qed.

(** ** A concrete catalog *)

Definition ex_segment (id start bytes : Z) (state : SegmentState)
    (protections : list ProtectionReference) : SegmentMetadata :=
  mk_segment id 7 1 id (mk_range start (start + 10)) "segment" bytes state protections.
Definition ex_storage : list storage_call :=
  [AddRoot (mk_root 1 "root" 1000); AssignCamera 7 1;
   InsertSegment (ex_segment 3 20 100 Closed []);
   InsertSegment (ex_segment 1 40 100 Closed []);
   InsertSegment (ex_segment 4 0 100 Closed []);
   InsertSegment (ex_segment 2 10 100 Closed []);
   InsertSegment (ex_segment 5 50 100 Open []);
   ProtectRange 7 (mk_range 12 15) (ByEvent 9)].
Lemma ex_storage_typed : Forall storage_typed ex_storage.
Proof.
  unfold ex_storage. repeat (apply Forall_cons_2; [first [exact I|split;
    [by vm_compute|constructor]]|]). constructor.
Qed.

Lemma reclaim_exact_witness :
  Forall storage_typed ex_storage ∧ in_ty U64 150 ∧
  let s := storage_run ex_storage storage_default in
  (reclaim 1 150 s).2 = Ret (mk_report [4; 3] 200 0 [2]) ∧
  ∃ visited rest, reclaim_effect 1 150 s (reclaim 1 150 s).1 (mk_report [4; 3] 200 0 [2])
    visited rest.
Proof.
  assert (in_ty U64 150) as H150 by (by vm_compute).
  split; [apply ex_storage_typed|]. split; [done|]. intros s.
  pose proof (reclaim_exact ex_storage 1 150 ex_storage_typed H150) as H.
  cbv zeta in H. fold s in H.
  assert ((reclaim 1 150 s).2 = Ret (mk_report [4; 3] 200 0 [2])) as Hr by (by vm_compute).
  clearbody s. split; [done|].
  destruct (reclaim 1 150 s) as [s' r]. simpl in *. subst r. by destruct H as [_ H].
Defined.

Lemma retention_enforced_witness :
  let s := storage_run ex_storage storage_default in
  total_bytes (of_root 1 s) = 500 ∧ is_Some (bt_get 1 (roots s)) ∧
  retained_bytes (enforce_retained_bytes 1 250 s).1 1 = 200 ∧
  retained_bytes (enforce_retained_bytes 1 100 s).1 1 ≤ 100 + 100.
Proof.
  intros s.
  assert (in_ty U64 100) as H100 by (by vm_compute).
  assert (total_bytes (of_root 1 s) = 500) as Ht by (by vm_compute).
  assert (is_Some (bt_get 1 (roots s))) as Hroot by (apply (bool_decide_unpack _); by vm_compute).
  assert (retained_bytes (enforce_retained_bytes 1 250 s).1 1 = 200) as Hr by (by vm_compute).
  assert ((blocked_bytes <$> match (enforce_retained_bytes 1 100 s).2 with
           | Ret r => Some r | _ => None end) = Some 100) as Hb by (by vm_compute).
  pose proof (retention_enforced ex_storage 1 100 ex_storage_typed H100) as H.
  cbv zeta in H. fold s in H. clearbody s.
  split; [done|]. split; [done|]. split; [done|].
  specialize (H ltac:(rewrite Ht; by vm_compute) Hroot).
  destruct (enforce_retained_bytes 1 100 s) as [s' r]. simpl in *.
  destruct H as (report&->&_&Hle&_). simpl in Hb. injection Hb as Hb. by rewrite Hb in Hle.
Defined.

Lemma protected_until_released_witness :
  let later := [Reclaim 1 1000; ReleaseReference (ByEvent 8); EnforceRetained 1 0] in
  let s := storage_run ex_storage storage_default in
  (ReleaseReference (ByHighlight 5) ∉ later) ∧
  (protect_range 7 (mk_range 45 46) (ByHighlight 5) s).2 = Ret [1] ∧
  is_Some (bt_get 1 (segments (storage_run later
    (protect_range 7 (mk_range 45 46) (ByHighlight 5) s).1))).
Proof.
  intros later s.
  assert (ReleaseReference (ByHighlight 5) ∉ later) as Hn.
  { unfold later. rewrite !not_elem_of_cons. split_and!; try done. apply not_elem_of_nil. }
  assert (Forall storage_typed later) as Hl.
  { unfold later. repeat (apply Forall_cons_2; [first [exact I|by vm_compute]|]). constructor. }
  assert ((protect_range 7 (mk_range 45 46) (ByHighlight 5) s).2 = Ret [1]) as Hr by (by vm_compute).
  assert (is_Some (bt_get 1 (segments s))) as [x Hx] by (apply (bool_decide_unpack _); by vm_compute).
  pose proof (protected_until_released ex_storage 7 (mk_range 45 46) (ByHighlight 5) later
    ex_storage_typed Hl Hn) as H.
  cbv zeta in H. fold s in H. clearbody s later. split; [done|]. split; [done|].
  destruct (protect_range 7 (mk_range 45 46) (ByHighlight 5) s) as [s1 r]. simpl in *.
  destruct H as (ids&->&_&H). injection Hr as ->.
  destruct (H 1 x) as (x'&Hx'&_); [by left|done|]. by exists x'.
Defined.
