(* ===== verification/ReplayEvents.v ===== *)
(** Replay marks and the event database,
    [crates/media/fm-replay/src/event.rs]: events on the timeline with their
    angles, tags and folders, and ordered lists of them.

    [EventDatabase] maps to the record of the same name and its methods to
    definitions of theirs. *)
From S2P Require Import Prelude BTree ReplayTypes.

(** ** Marks *)

Record ReplayMarks := mk_marks {
  mark_in : option NormalizedTimestamp;
  mark_out : option NormalizedTimestamp
}.
Definition set_in (self : ReplayMarks) (timestamp : NormalizedTimestamp) : ReplayMarks :=
  mk_marks (Some timestamp) (mark_out self).
Definition set_out (self : ReplayMarks) (timestamp : NormalizedTimestamp) : ReplayMarks :=
  mk_marks (mark_in self) (Some timestamp).
Definition marks_range (self : ReplayMarks) : result ReplayError TimelineRange :=
  start ← ok_or MarkIncomplete (mark_in self);
  end_ ← ok_or MarkIncomplete (mark_out self);
  range_new start end_.
Definition last_n (live_edge : NormalizedTimestamp) (seconds : Z) :
    result ReplayError TimelineRange :=
  duration ← ok_or InvalidLastN (checked U64 (seconds * 1000000000) ≫= checked I64);
  if decide (duration = 0) then Err InvalidLastN else
  start ← ok_or InvalidLastN (checked I64 (live_edge - duration));
  range_new start live_edge.

(** ** Events, lists and folders *)

Record ReplayEvent := mk_event {
  event_id : EventId;
  event_name : string;
  event_timeline : TimelineRange;
  angles : btset CameraId;
  preferred_angle : CameraId;
  tags : btset string;
  note : string;
  event_folders : btset FolderId
}.
Record EventList := mk_list { list_id : ListId; list_name : string; list_events : list EventId }.
Record EventFolder := mk_folder { folder_id : FolderId; folder_name : string }.
Record EventDatabase := mk_database {
  events : btmap EventId ReplayEvent;
  lists : btmap ListId EventList;
  folders : btmap FolderId EventFolder
}.
Definition database_default : EventDatabase := mk_database [] [] [].

Abbreviation event_stm A := (stm EventDatabase ReplayError A).

Definition put_event (event : ReplayEvent) (self : EventDatabase) : EventDatabase :=
  mk_database (bt_insert (event_id event) event (events self)) (lists self) (folders self).

Definition insert_event (event : ReplayEvent) : event_stm unit :=
  _ ← st_require (str_blank (event_name event) = false) EmptyName;
  _ ← st_require (preferred_angle event ∈ angles event)
        (PreferredAngleUnavailable (preferred_angle event));
  self ← st_get;
  _ ← st_require (bt_contains (event_id event) (events self) = false)
        (DuplicateEvent (event_id event));
  st_put (put_event event self).

(** [self.events.get_mut(&id).ok_or(..)?] followed by a change of one field. *)
Definition update_event (id : EventId) (f : ReplayEvent → ReplayEvent) : event_stm unit :=
  self ← st_get;
  event ← st_lift (ok_or (UnknownEvent id) (bt_get id (events self)));
  st_put (mk_database (bt_insert id (f event) (events self)) (lists self) (folders self)).

Definition set_note (id : EventId) (note : string) : event_stm unit :=
  update_event id (λ e, mk_event (event_id e) (event_name e) (event_timeline e) (angles e)
    (preferred_angle e) (tags e) note (event_folders e)).
Definition add_tag (id : EventId) (tag : string) : event_stm unit :=
  _ ← st_require (str_blank tag = false) EmptyName;
  update_event id (λ e, mk_event (event_id e) (event_name e) (event_timeline e) (angles e)
    (preferred_angle e) (bs_insert tag (tags e)) (note e) (event_folders e)).
Definition add_folder (folder : EventFolder) : event_stm unit :=
  _ ← st_require (str_blank (folder_name folder) = false) EmptyName;
  self ← st_get;
  _ ← st_require (bt_contains (folder_id folder) (folders self) = false)
        (DuplicateFolder (folder_id folder));
  st_put (mk_database (events self) (lists self)
            (bt_insert (folder_id folder) folder (folders self))).
Definition place_in_folder (id : EventId) (folder : FolderId) : event_stm unit :=
  self ← st_get;
  _ ← st_require (bt_contains folder (folders self) = true) (UnknownFolder folder);
  update_event id (λ e, mk_event (event_id e) (event_name e) (event_timeline e) (angles e)
    (preferred_angle e) (tags e) (note e) (bs_insert folder (event_folders e))).

Definition first_unknown (self : EventDatabase) (l : list EventId) : option EventId :=
  snd <$> list_find (λ e, bt_contains e (events self) = false) l.
Definition add_list (list : EventList) : event_stm unit :=
  _ ← st_require (str_blank (list_name list) = false) EmptyName;
  self ← st_get;
  _ ← st_require (bt_contains (list_id list) (lists self) = false) (DuplicateList (list_id list));
  _ ← (match first_unknown self (list_events list) with
       | Some event => mthrow (UnknownEvent event)
       | None => mret tt
       end);
  st_put (mk_database (events self) (bt_insert (list_id list) list (lists self)) (folders self)).
Definition append_to_list (list : ListId) (event : EventId) : event_stm unit :=
  self ← st_get;
  _ ← st_require (bt_contains event (events self) = true) (UnknownEvent event);
  l ← st_lift (ok_or (UnknownList list) (bt_get list (lists self)));
  _ ← st_require (event ∉ list_events l) (EventAlreadyInList event list);
  st_put (mk_database (events self)
            (bt_insert list (mk_list (list_id l) (list_name l) (list_events l ++ [event]))
               (lists self)) (folders self)).

(** ** Histories *)

Inductive event_call :=
  | InsertEvent (event : ReplayEvent)
  | SetNote (id : EventId) (note : string)
  | AddTag (id : EventId) (tag : string)
  | AddFolder (folder : EventFolder)
  | PlaceInFolder (id : EventId) (folder : FolderId)
  | AddList (list : EventList)
  | AppendToList (list : ListId) (event : EventId).
Definition event_do (call : event_call) : event_stm unit :=
  match call with
  | InsertEvent event => insert_event event
  | SetNote id note => set_note id note
  | AddTag id tag => add_tag id tag
  | AddFolder folder => add_folder folder
  | PlaceInFolder id folder => place_in_folder id folder
  | AddList list => add_list list
  | AppendToList list event => append_to_list list event
  end.
Definition event_run (calls : list event_call) (s : EventDatabase) : EventDatabase :=
  foldl (λ s call, (event_do call s).1) s calls.

(** What identifies an event: everything but its tags, note and folders. *)
Definition event_core (e : ReplayEvent) : EventId * string * TimelineRange * btset CameraId * CameraId :=
  (event_id e, event_name e, event_timeline e, angles e, preferred_angle e).

Record database_wf (s : EventDatabase) : Prop := {
  db_events : ∀ id e, bt_get id (events s) = Some e →
    event_id e = id ∧ str_blank (event_name e) = false ∧ preferred_angle e ∈ angles e;
  db_lists : ∀ id l, bt_get id (lists s) = Some l →
    list_id l = id ∧ str_blank (list_name l) = false ∧
    ∀ e, e ∈ list_events l → is_Some (bt_get e (events s));
  db_folders : ∀ id f, bt_get id (folders s) = Some f →
    folder_id f = id ∧ str_blank (folder_name f) = false
}.
(** Nothing is lost: events keep what identifies them, tags and folders are only
    added, lists only grow at their end. *)
Record database_grows (s s' : EventDatabase) : Prop := {
  gr_events : ∀ id e, bt_get id (events s) = Some e →
    ∃ e', bt_get id (events s') = Some e' ∧ event_core e' = event_core e ∧
      tags e ⊆ tags e' ∧ event_folders e ⊆ event_folders e';
  gr_lists : ∀ id l, bt_get id (lists s) = Some l →
    ∃ l', bt_get id (lists s') = Some l' ∧ list_name l' = list_name l ∧
      list_events l `prefix_of` list_events l';
  gr_folders : ∀ id f, bt_get id (folders s) = Some f → bt_get id (folders s') = Some f
}.
#[global] Instance database_grows_preorder : PreOrder database_grows.
Proof.
  split.
  - intros s. split; [|naive_solver|done]. intros id e He. exists e. split_and!; done.
  - intros s1 s2 s3 H12 H23. split.
    + intros id e He. destruct (gr_events _ _ H12 id e He) as (e2&He2&Hc2&Ht2&Hf2).
      destruct (gr_events _ _ H23 id e2 He2) as (e3&He3&Hc3&Ht3&Hf3). exists e3.
      split_and!; [done|congruence|by etrans..].
    + intros id l Hl. destruct (gr_lists _ _ H12 id l Hl) as (l2&Hl2&Hn2&Hp2).
      destruct (gr_lists _ _ H23 id l2 Hl2) as (l3&Hl3&Hn3&Hp3). exists l3.
      split_and!; [done|congruence|by etrans].
    + intros id f Hf. by eapply H23, H12.
Qed.
(** An event occurs at most once in a list. *)
Definition lists_distinct (s : EventDatabase) : Prop :=
  ∀ id l, bt_get id (lists s) = Some l → NoDup (list_events l).

Definition event_ok (call : event_call) (s : EventDatabase) (r : outcome ReplayError unit)
    (s' : EventDatabase) : Prop :=
  r ≠ Panic ∧ database_wf s' ∧ database_grows s s' ∧ (∀ e, r = Throw e → s' = s) ∧
  (lists_distinct s → (∀ l, call = AddList l → NoDup (list_events l)) → lists_distinct s').

(** ** Every call keeps the database consistent *)

Lemma event_ok_refl call s r : database_wf s → r ≠ Panic → event_ok call s r s.
Proof. by intros; split_and!. Qed.
Lemma event_ok_intro call s s' :
  database_wf s' → database_grows s s' →
  (lists_distinct s → (∀ l, call = AddList l → NoDup (list_events l)) → lists_distinct s') →
  event_ok call s (Ret tt) s'.
Proof. by intros; split_and!. Qed.
Lemma known_event s id : bt_contains id (events s) = true ↔ is_Some (bt_get id (events s)).
Proof. unfold bt_contains. apply bool_decide_eq_true. Qed.
Lemma fresh_key {V} id (m : btmap Z V) : bt_contains id m = false ↔ bt_get id m = None.
Proof. unfold bt_contains. by rewrite bool_decide_eq_false, eq_None_not_Some. Qed.
Lemma is_Some_insert {V} k k' (v : V) (m : btmap Z V) :
  is_Some (bt_get k' m) → is_Some (bt_get k' (bt_insert k v m)).
Proof. intros. rewrite bt_get_insert. by case_decide. Qed.
Lemma fresh_kept {V} k k' (v w : V) (m : btmap Z V) :
  bt_get k m = None → bt_get k' m = Some w → bt_get k' (bt_insert k v m) = Some w.
Proof. intros. rewrite bt_get_insert. case_decide; [by subst; simplify_eq|done]. Qed.

Lemma insert_event_ok event s :
  database_wf s → wp (insert_event event) (event_ok (InsertEvent event) s) s.
Proof.
  intros Hs. unfold insert_event. wp_step. wp_step; [|by apply event_ok_refl].
  wp_step. wp_step; [|by apply event_ok_refl]. wp_step. wp_step.
  wp_step. wp_step; [|by apply event_ok_refl]. apply fresh_key in H1. wp_step.
  apply event_ok_intro; [split; simpl|split; simpl|done].
  - intros id e. rewrite bt_get_insert. case_decide; [by intros [= <-]|by apply Hs].
  - intros id l Hl. destruct (db_lists _ Hs _ _ Hl) as (?&?&He). split_and!; [done..|].
    intros e He'. by apply is_Some_insert, He.
  - apply Hs.
  - intros id e He. exists e. split_and!; try done. by apply fresh_kept.
  - naive_solver.
  - done.
Qed.

Lemma update_event_ok call id f s :
  database_wf s →
  (∀ e, event_core (f e) = event_core e ∧ tags e ⊆ tags (f e) ∧
        event_folders e ⊆ event_folders (f e)) →
  wp (update_event id f) (event_ok call s) s.
Proof.
  intros Hs Hf. unfold update_event. wp_step. wp_step. wp_step.
  apply wp_lift; [intros e He%ok_or_Ok|by intros; apply event_ok_refl]. wp_step.
  apply event_ok_intro; [split; simpl|split; simpl|done].
  - intros i e'. rewrite bt_get_insert. case_decide; [|by apply Hs]. intros [= <-]. subst i.
    destruct (Hf e) as [Hc _]. unfold event_core in Hc. injection Hc as -> -> _ -> ->.
    by apply Hs.
  - intros i l Hl. destruct (db_lists _ Hs _ _ Hl) as (?&?&Hin). split_and!; [done..|].
    intros x Hx. by apply is_Some_insert, Hin.
  - apply Hs.
  - intros i e'. rewrite bt_get_insert. case_decide; [|by exists e'].
    subst i. rewrite He. intros [= <-]. exists (f e). by destruct (Hf e) as (?&?&?).
  - naive_solver.
  - done.
Qed.

Lemma first_unknown_None self l :
  first_unknown self l = None ↔ ∀ e, e ∈ l → is_Some (bt_get e (events self)).
Proof.
  unfold first_unknown. rewrite fmap_None, list_find_None, Forall_forall.
  split; intros H e He; specialize (H e He).
  - apply known_event. by destruct (bt_contains e (events self)).
  - apply known_event in H. congruence.
Qed.
Lemma add_list_ok list s : database_wf s → wp (add_list list) (event_ok (AddList list) s) s.
Proof.
  intros Hs. unfold add_list. wp_step. wp_step; [|by apply event_ok_refl]. wp_step. wp_step.
  wp_step. wp_step; [|by apply event_ok_refl]. apply fresh_key in H0. wp_step.
  destruct (first_unknown s (list_events list)) eqn:Hu; wp_step; [by apply event_ok_refl|].
  rewrite first_unknown_None in Hu. wp_step.
  apply event_ok_intro; [split; simpl|split; simpl|].
  - apply Hs.
  - intros i l. rewrite bt_get_insert. case_decide; [by intros [= <-]|by apply Hs].
  - apply Hs.
  - intros i e He. by exists e.
  - intros i l Hl. exists l. split_and!; try done. by apply fresh_kept.
  - done.
  - intros Hd Hl i l. simpl. rewrite bt_get_insert. case_decide; [|by apply Hd].
    intros [= <-]. by apply Hl.
Qed.
Lemma append_to_list_ok list event s :
  database_wf s → wp (append_to_list list event) (event_ok (AppendToList list event) s) s.
Proof.
  intros Hs. unfold append_to_list. wp_step. wp_step. wp_step. wp_step; [|by apply event_ok_refl].
  apply known_event in H. wp_step.
  apply wp_lift; [intros l Hl%ok_or_Ok|by intros; apply event_ok_refl].
  destruct (db_lists _ Hs _ _ Hl) as (Hid&Hname&Hin).
  wp_step. wp_step; [|by apply event_ok_refl]. wp_step.
  apply event_ok_intro; [split; simpl|split; simpl|].
  - apply Hs.
  - intros i l'. rewrite bt_get_insert. case_decide; [|by apply Hs]. intros [= <-]. subst i.
    split_and!; [done..|]. intros e [He| ->%list_elem_of_singleton]%elem_of_app; [by apply Hin|done].
  - apply Hs.
  - intros i e He. by exists e.
  - intros i l'. rewrite bt_get_insert. case_decide; [|by exists l'].
    subst i. rewrite Hl. intros [= <-]. eexists. split_and!; [done..|]. simpl.
    by apply prefix_app_r.
  - done.
  - intros Hd _ i l'. simpl. rewrite bt_get_insert. case_decide; [|by apply Hd].
    intros [= <-]. simpl. apply NoDup_app. split_and!; [by eapply Hd|set_solver|apply NoDup_singleton].
Qed.

Lemma event_do_ok call s : database_wf s → wp (event_do call) (event_ok call s) s.
Proof.
  intros Hs. destruct call as [event|id n|id tag|folder|id folder|list|list event]; simpl.
  - by apply insert_event_ok.
  - by apply update_event_ok.
  - unfold add_tag. wp_step. wp_step; [|by apply event_ok_refl]. apply update_event_ok; [done|].
    intros e. split_and!; simpl; [done| |done]. intros x Hx. apply elem_of_bs_insert. by right.
  - unfold add_folder. wp_step. wp_step; [|by apply event_ok_refl]. wp_step. wp_step.
    wp_step. wp_step; [|by apply event_ok_refl]. apply fresh_key in H0. wp_step.
    apply event_ok_intro; [split; simpl|split; simpl|done].
    + apply Hs.
    + apply Hs.
    + intros i f. rewrite bt_get_insert. case_decide; [by intros [= <-]|by apply Hs].
    + intros i e He. by exists e.
    + naive_solver.
    + intros i f. by apply fresh_kept.
  - unfold place_in_folder. wp_step. wp_step. wp_step. wp_step; [|by apply event_ok_refl].
    apply update_event_ok; [done|].
    intros e. split_and!; simpl; [done|done|]. intros x Hx. apply elem_of_bs_insert. by right.
  - by apply add_list_ok.
  - by apply append_to_list_ok.
Qed.

Lemma database_run_ok calls s :
  database_wf s →
  database_wf (event_run calls s) ∧ database_grows s (event_run calls s) ∧
  (lists_distinct s → (∀ l, AddList l ∈ calls → NoDup (list_events l)) →
   lists_distinct (event_run calls s)).
Proof.
  revert s. induction calls as [|call calls IH]; intros s Hs; [done|].
  destruct (event_do_ok call s Hs) as (_&Hs'&Hg&_&Hd).
  destruct (IH _ Hs') as (Hwf&Hgrow&Hdist). split_and!; [done|by etrans|].
  intros Hs0 Hl. apply Hdist; [|intros l Hin; apply Hl; by right].
  apply Hd; [done|]. intros l ->. apply Hl. by left.
Qed.
Lemma database_default_wf : database_wf database_default.
Proof. by split. Qed.

(** In every reachable event database each call answers without panic and a
    refused one changes nothing; every list names only known events, every event
    is seen from its preferred angle, names are never blank; later calls lose
    nothing (events keep identity, range and angles, tags and folders only grow,
    lists only grow at their end); and lists that were added without repetition
    never repeat an event. *)
Theorem events_consistent calls call later :
  let s := event_run calls database_default in
  let s' := (event_do call s).1 in
  let r := (event_do call s).2 in
  r ≠ Panic ∧ (∀ e, r = Throw e → s' = s) ∧
  (∀ id l e, bt_get id (lists s) = Some l → e ∈ list_events l →
    ∃ ev, bt_get e (events s) = Some ev ∧ event_id ev = e ∧
      str_blank (event_name ev) = false ∧ preferred_angle ev ∈ angles ev) ∧
  database_grows s (event_run later s') ∧
  ((∀ l, AddList l ∈ calls → NoDup (list_events l)) → lists_distinct s).
Proof.
  intros s s' r.
  destruct (database_run_ok calls database_default database_default_wf) as (Hs&_&Hd).
  fold s in Hs, Hd. destruct (event_do_ok call s Hs) as (Hr&Hs'&Hg&Hthrow&_).
  split_and!; [done|done| | |by intros; apply Hd].
  - intros id l e Hl He. destruct (db_lists _ Hs _ _ Hl) as (_&_&Hin).
    destruct (Hin e He) as [ev Hev]. exists ev. split; [done|]. by apply Hs.
  - etrans; [done|]. by apply database_run_ok.
Qed.

(** A range from marks, and the last seconds before the live edge. *)
Lemma marks_range_Ok self r :
  marks_range self = Ok r ↔
  mark_in self = Some (range_start r) ∧ mark_out self = Some (range_end r) ∧
  range_start r < range_end r.
Proof.
  unfold marks_range, range_new. destruct self as [[i|] [o|]], r as [s e]; simpl;
    try (split; [done|naive_solver]).
  case_decide; split; try done.
  - intros ([= ->]&[= ->]&?). lia.
  - intros [= -> ->]. split_and!; [done..|lia].
  - by intros ([= ->]&[= ->]&?).
Qed.
Lemma last_n_Ok live_edge seconds r :
  0 ≤ seconds → in_ty I64 live_edge →
  last_n live_edge seconds = Ok r ↔
  0 < seconds ∧ ty_min I64 ≤ live_edge - seconds * 1000000000 ∧
  seconds * 1000000000 ≤ ty_max I64 ∧
  r = mk_range (live_edge - seconds * 1000000000) live_edge.
Proof.
  intros Hsec Hlive. unfold last_n.
  assert (ok_or InvalidLastN (checked U64 (seconds * 1000000000) ≫= checked I64) =
    if decide (seconds * 1000000000 ≤ ty_max I64) then Ok (seconds * 1000000000)
    else Err InvalidLastN) as ->.
  { unfold checked. repeat (case_decide; simpl); try done; exfalso; int_lia. }
  case_decide as Hle; simpl; [|split; [done|by intros (?&?&?&?)]].
  case_decide; [split; [done|lia]|]. unfold checked. case_decide as Hin; simpl.
  - unfold range_new. rewrite decide_False by lia. split.
    + intros [= <-]. split_and!; [lia|int_lia|done|done].
    + by intros (_&_&_&->).
  - split; [done|]. intros (?&?&?&?). destruct Hin. int_lia.
Qed.

(** ** Concrete databases *)

Definition ex_event (id : Z) : ReplayEvent :=
  mk_event id "goal" (mk_range 0 10) [1; 2] 2 [] "" [].

(** [add_list] accepts a list that repeats an event, [append_to_list] does not. *)
Example repeated_list_accepted :
  let s := event_run [InsertEvent (ex_event 5); AddList (mk_list 1 "best" [5; 5])]
             database_default in
  (list_events <$> bt_get 1 (lists s)) = Some [5; 5] ∧
  (event_do (AppendToList 1 5) s).2 = Throw (EventAlreadyInList 5 1).
Proof. split; by vm_compute. Qed.
