(* ===== verification/ReplayDecks.v ===== *)
(** The two replay channels, [crates/media/fm-replay/src/channel.rs]: cueing,
    playing, jogging and seeking recorded events, alone or with both channels
    linked.

    [ReplayChannel] and [ReplayDecks] map to the records of the same names.  A
    gain is the bits of its [f32], which this code only stores. *)
From S2P Require Import Prelude BTree ReplayTypes ReplayEvents.
From S2P Require Playback.

(** ** Data *)

Inductive ReplayChannelId := A | B.
#[global] Instance ReplayChannelId_eq_dec : EqDecision ReplayChannelId.
Proof. solve_decision. Defined.

(** A [PlaybackRate] is its thousandths of real time. *)
Abbreviation PlaybackRate := Z (only parsing).
Definition PAUSED : PlaybackRate := 0.
Definition FORWARD_1X : PlaybackRate := 1000.
Definition REVERSE_1X : PlaybackRate := -1000.
Definition from_milli (rate : Z) : result ReplayError PlaybackRate :=
  if decide (rate < -16000 ∨ rate > 16000) then Err (InvalidPlaybackRate rate) else Ok rate.
Definition rate_of_speed (speed : Playback.Speed) : PlaybackRate :=
  match speed with
  | Playback.Pause => PAUSED
  | Playback.Forward1x => FORWARD_1X
  | Playback.Forward2x => 2000
  | Playback.Reverse1x => REVERSE_1X
  | Playback.Reverse2x => -2000
  end.

Inductive ReplayAudioSource := FollowAngle | FromCamera (id : CameraId) | Muted.
Inductive VariableSpeedAudio := Mute | Resample | PitchCorrect.
Record AudioPolicy := mk_audio_policy {
  audio_source : ReplayAudioSource;
  variable_speed : VariableSpeedAudio;
  gain : Z
}.
(** [Gain::UNITY], the bits of [1.0]. *)
Definition GAIN_UNITY : Z := 1065353216.
Definition audio_policy_default : AudioPolicy := mk_audio_policy FollowAngle Mute GAIN_UNITY.

Inductive ChannelMode :=
  | Live
  | Recorded (event : EventId) (timeline : TimelineRange).
Inductive ChannelTransport := Stopped | Paused | Playing | Jog | Shuttle.
#[global] Instance ChannelTransport_eq_dec : EqDecision ChannelTransport.
Proof. solve_decision. Defined.

Record ReplayChannel := mk_channel {
  channel_id : ReplayChannelId;
  mode : ChannelMode;
  angle : CameraId;
  cursor : NormalizedTimestamp;
  transport : ChannelTransport;
  rate : PlaybackRate;
  auto_return : bool;
  audio : AudioPolicy
}.
Record ReplayDecks := mk_decks { deck_a : ReplayChannel; deck_b : ReplayChannel; linked : bool }.

(** ** One channel *)

Definition channel_new (id : ReplayChannelId) (angle : CameraId) (live_edge : NormalizedTimestamp) :
    ReplayChannel :=
  mk_channel id Live angle live_edge Stopped PAUSED false audio_policy_default.

Definition cue (event : ReplayEvent) (c : ReplayChannel) : ReplayChannel :=
  mk_channel (channel_id c) (Recorded (event_id event) (event_timeline event))
    (preferred_angle event) (range_start (event_timeline event)) Paused PAUSED
    (auto_return c) (audio c).
Definition channel_go_live (live_edge : NormalizedTimestamp) (c : ReplayChannel) : ReplayChannel :=
  mk_channel (channel_id c) Live (angle c) live_edge Stopped PAUSED (auto_return c) (audio c).
Definition set_motion (t : ChannelTransport) (r : PlaybackRate) (c : ReplayChannel) :
    ReplayChannel :=
  mk_channel (channel_id c) (mode c) (angle c) (cursor c) t r (auto_return c) (audio c).
Definition set_cursor (at_ : NormalizedTimestamp) (c : ReplayChannel) : ReplayChannel :=
  mk_channel (channel_id c) (mode c) (angle c) at_ (transport c) (rate c) (auto_return c) (audio c).
Definition channel_play (r : PlaybackRate) (t : ChannelTransport) (c : ReplayChannel) :
    ReplayChannel :=
  set_motion (if decide (r = PAUSED) then Paused else t) r c.

Abbreviation channel_stm R := (stm ReplayChannel ReplayError R).

(** Moves the cursor within the event; whether it had to be stopped at a bound.
    The arithmetic is that of 128 bits, [clamp] panics on reversed bounds, and the
    result is expected in 64 bits. *)
Definition move_cursor (delta : Z) : channel_stm bool :=
  c ← st_get;
  match mode c with
  | Live => mret false
  | Recorded _ timeline =>
      let start := range_start timeline in
      let end_ := range_end timeline - 1 in
      let requested := saturating I128 (cursor c + delta) in
      bounded ← st_expect (if decide (start ≤ end_)
                           then Some (Z.max start (Z.min end_ requested)) else None);
      at_ ← st_expect (checked I64 bounded);
      _ ← st_put (set_cursor at_ c);
      mret (bool_decide (requested < start ∨ end_ < requested))
  end.

Definition channel_jog (frames frame_duration_nanos : Z) : channel_stm unit :=
  _ ← move_cursor (frames * frame_duration_nanos);
  st_modify (set_motion Jog PAUSED).

Definition channel_advance (elapsed_nanos : Z) (live_edge : NormalizedTimestamp) :
    channel_stm unit :=
  c ← st_get;
  if decide (transport c = Playing ∨ transport c = Shuttle) then
    crossed ← move_cursor ((elapsed_nanos * rate c) `quot` 1000);
    if (crossed : bool) then
      if auto_return c then st_modify (channel_go_live live_edge)
      else st_modify (set_motion Paused PAUSED)
    else mret tt
  else mret tt.

(** The closure of [seek_frame]. *)
Definition channel_seek (offset : Z) : channel_stm unit :=
  c ← st_get;
  match mode c with
  | Live => mret tt
  | Recorded _ timeline =>
      _ ← st_put (set_cursor (range_start timeline) c);
      _ ← move_cursor offset;
      st_modify (λ c, set_motion Paused (rate c) c)
  end.

(** ** Both channels *)

Abbreviation deck_stm R := (stm ReplayDecks ReplayError R).

Definition decks_new (angle_a angle_b : CameraId) (live_edge : NormalizedTimestamp) : ReplayDecks :=
  mk_decks (channel_new A angle_a live_edge) (channel_new B angle_b live_edge) false.
Definition channel (id : ReplayChannelId) (self : ReplayDecks) : ReplayChannel :=
  match id with
  | A => deck_a self
  | B => deck_b self
  end.
Definition put_channel (id : ReplayChannelId) (c : ReplayChannel) (self : ReplayDecks) :
    ReplayDecks :=
  match id with
  | A => mk_decks c (deck_b self) (linked self)
  | B => mk_decks (deck_a self) c (linked self)
  end.
(** [operation(self.channel_mut(id))]. *)
Definition channel_mut {R} (id : ReplayChannelId) (operation : channel_stm R) : deck_stm R :=
  st_zoom (channel id) (put_channel id) operation.
Definition other_channel (id : ReplayChannelId) : ReplayChannelId :=
  match id with
  | A => B
  | B => A
  end.
Definition for_transport_mut (id : ReplayChannelId) (operation : channel_stm unit) :
    deck_stm unit :=
  _ ← channel_mut id operation;
  self ← st_get;
  if linked self then channel_mut (other_channel id) operation else mret tt.

Definition set_linked (value : bool) : deck_stm unit :=
  st_modify (λ self, mk_decks (deck_a self) (deck_b self) value).
Definition select_angle (id : ReplayChannelId) (camera : CameraId) : deck_stm unit :=
  channel_mut id (st_modify (λ c, mk_channel (channel_id c) (mode c) camera (cursor c)
    (transport c) (rate c) (auto_return c) (audio c))).
Definition set_audio_policy (id : ReplayChannelId) (policy : AudioPolicy) : deck_stm unit :=
  channel_mut id (st_modify (λ c, mk_channel (channel_id c) (mode c) (angle c) (cursor c)
    (transport c) (rate c) (auto_return c) policy)).
Definition set_auto_return (id : ReplayChannelId) (enabled : bool) : deck_stm unit :=
  for_transport_mut id (st_modify (λ c, mk_channel (channel_id c) (mode c) (angle c) (cursor c)
    (transport c) (rate c) enabled (audio c))).
Definition cue_event (id : ReplayChannelId) (event : ReplayEvent) : deck_stm unit :=
  for_transport_mut id (st_modify (cue event)).
Definition go_live (id : ReplayChannelId) (live_edge : NormalizedTimestamp) : deck_stm unit :=
  for_transport_mut id (st_modify (channel_go_live live_edge)).
Definition play (id : ReplayChannelId) (r : PlaybackRate) : deck_stm unit :=
  for_transport_mut id (st_modify (channel_play r Playing)).
Definition shuttle (id : ReplayChannelId) (r : PlaybackRate) : deck_stm unit :=
  for_transport_mut id (st_modify (channel_play r Shuttle)).
Definition pause (id : ReplayChannelId) : deck_stm unit := play id PAUSED.
Definition jog (id : ReplayChannelId) (frames frame_duration_nanos : Z) : deck_stm unit :=
  _ ← st_require (frame_duration_nanos ≠ 0) FrameDurationZero;
  for_transport_mut id (channel_jog frames frame_duration_nanos).
Definition seek_frame (id : ReplayChannelId) (frame frame_duration_nanos : Z) : deck_stm unit :=
  _ ← st_require (frame_duration_nanos ≠ 0) FrameDurationZero;
  offset ← st_expect (checked I128 (frame * frame_duration_nanos));
  for_transport_mut id (channel_seek offset).
Definition advance (id : ReplayChannelId) (elapsed_nanos : Z) (live_edge : NormalizedTimestamp) :
    deck_stm unit :=
  for_transport_mut id (channel_advance elapsed_nanos live_edge).

(** ** The invariant of a channel *)

Definition rate_valid (r : PlaybackRate) : Prop := -16000 ≤ r ≤ 16000.
(** [x] is a position of the range. *)
Definition inside (tl : TimelineRange) (x : Z) : Prop := range_start tl ≤ x < range_end tl.
Definition clamp (tl : TimelineRange) (x : Z) : Z :=
  Z.max (range_start tl) (Z.min (range_end tl - 1) x).

Record channel_wf (c : ReplayChannel) : Prop := {
  ch_cursor : in_ty I64 (cursor c);
  ch_rate : rate_valid (rate c);
  ch_inside : ∀ ev tl, mode c = Recorded ev tl → range_wf tl ∧ inside tl (cursor c)
}.
Definition decks_wf (s : ReplayDecks) : Prop := channel_wf (deck_a s) ∧ channel_wf (deck_b s).

(** Two channels show the same moment of the same event in the same way. *)
Definition same_transport (c1 c2 : ReplayChannel) : Prop :=
  mode c1 = mode c2 ∧ cursor c1 = cursor c2 ∧ transport c1 = transport c2 ∧
  rate c1 = rate c2 ∧ auto_return c1 = auto_return c2.

Lemma clamp_inside tl x : range_wf tl → inside tl (clamp tl x).
Proof. intros [? _ _]. unfold inside, clamp. lia. Qed.
Lemma clamp_id tl x : inside tl x → clamp tl x = x.
Proof. unfold inside, clamp. lia. Qed.
Lemma inside_I64 tl x : range_wf tl → inside tl x → in_ty I64 x.
Proof. intros [_ [??] [??]] [??]. unfold in_ty. lia. Qed.

(** [move_cursor] is clamping, and says whether clamping changed anything. *)
Lemma move_cursor_eq d c :
  channel_wf c →
  move_cursor d c =
  match mode c with
  | Live => (c, Ret false)
  | Recorded _ tl =>
      (set_cursor (clamp tl (cursor c + d)) c, Ret (bool_decide (¬ inside tl (cursor c + d))))
  end.
Proof.
  intros Hc. unfold move_cursor. destruct (mode c) as [|ev tl] eqn:Hm; unfold mbind, stm_bind, st_get;
    rewrite Hm; [done|].
  destruct (ch_inside _ Hc _ _ Hm) as [Htl Hin]. pose proof Htl as [Hlt [Hs0 Hs1] [He0 He1]].
  set (x := saturating I128 (cursor c + d)).
  assert (Hx : ∀ y, in_ty I64 y → (x < y ↔ cursor c + d < y) ∧ (y < x ↔ y < cursor c + d)).
  { intros y [Hy0 Hy1]. unfold x, saturating.
    change (ty_min I64) with (-9223372036854775808) in Hy0.
    change (ty_max I64) with 9223372036854775807 in Hy1.
    change (ty_min I128) with (-170141183460469231731687303715884105728).
    change (ty_max I128) with 170141183460469231731687303715884105727. lia. }
  destruct (Hx (range_start tl)) as [Hx1 Hx2]; [by split|].
  destruct (Hx (range_end tl - 1)) as [Hx3 Hx4]; [split; lia|].
  assert (range_start tl ≤ cursor c + d ≤ range_end tl - 1 → x = cursor c + d) as Hid.
  { intros Hcd. destruct (Hx (cursor c + d)); [split; lia|lia]. }
  assert (Z.max (range_start tl) (Z.min (range_end tl - 1) x) = clamp tl (cursor c + d)) as Heq
    by (unfold clamp; lia).
  unfold st_expect. rewrite decide_True by lia. rewrite Heq, checked_in.
  2: { eapply inside_I64; [done|]. by apply clamp_inside. }
  unfold st_put, mret, stm_ret. do 2 f_equal. apply bool_decide_ext. unfold inside. lia.
Qed.

Lemma set_cursor_wf x c ev tl :
  channel_wf c → mode c = Recorded ev tl → inside tl x → channel_wf (set_cursor x c).
Proof.
  intros Hc Hm Hx. destruct (ch_inside _ Hc _ _ Hm) as [Htl _].
  split; simpl; [by eapply inside_I64|apply Hc|].
  intros ev' tl' Hm'. rewrite Hm in Hm'. by simplify_eq.
Qed.
Lemma set_motion_wf t r c : channel_wf c → rate_valid r → channel_wf (set_motion t r c).
Proof. intros Hc Hr. split; simpl; [apply Hc|done|apply Hc]. Qed.
Lemma go_live_wf live_edge c :
  in_ty I64 live_edge → channel_wf (channel_go_live live_edge c).
Proof. intros. by split; simpl. Qed.
Lemma cue_wf event c : range_wf (event_timeline event) → channel_wf (cue event c).
Proof.
  intros Htl. pose proof Htl as [? ? ?]. split; simpl; [done|done|].
  intros ev tl [= <- <-]. split; [done|]. unfold inside. lia.
Qed.
Lemma move_cursor_wf d c : channel_wf c → channel_wf (move_cursor d c).1.
Proof.
  intros Hc. rewrite move_cursor_eq by done. destruct (mode c) as [|ev tl] eqn:Hm; [done|].
  eapply set_cursor_wf; [done..|]. apply clamp_inside. by eapply ch_inside.
Qed.

(** ** Operations on a channel *)

(** A total operation that keeps the invariant and looks only at the transport. *)
Record transport_op (operation : channel_stm unit) : Prop := {
  op_ok : ∀ c, channel_wf c → channel_wf (operation c).1 ∧ (operation c).2 = Ret tt;
  op_same : ∀ c1 c2, channel_wf c1 → channel_wf c2 → same_transport c1 c2 →
    same_transport (operation c1).1 (operation c2).1
}.

(** Channels that agree differ in name, angle and audio only. *)
Lemma same_transport_inv c1 c2 :
  same_transport c1 c2 →
  c2 = mk_channel (channel_id c2) (mode c1) (angle c2) (cursor c1) (transport c1) (rate c1)
         (auto_return c1) (audio c2).
Proof. destruct c1, c2. unfold same_transport; simpl. by intros (->&->&->&->&->). Qed.

Lemma modify_op (f : ReplayChannel → ReplayChannel) :
  (∀ c, channel_wf c → channel_wf (f c)) →
  (∀ c1 c2, same_transport c1 c2 → same_transport (f c1) (f c2)) →
  transport_op (st_modify f).
Proof. intros Hwf Hsame. split; simpl; auto. Qed.

Lemma move_cursor_same d c1 c2 :
  channel_wf c1 → channel_wf c2 → same_transport c1 c2 →
  same_transport (move_cursor d c1).1 (move_cursor d c2).1 ∧
  (move_cursor d c1).2 = (move_cursor d c2).2.
Proof.
  intros H1 H2 (Hm&Hc&Ht&Hr&Ha). rewrite !move_cursor_eq, <-Hm, <-Hc by done.
  destruct (mode c1) eqn:Hm1; (split; [|done]); split_and!; simpl; congruence.
Qed.
Lemma move_cursor_ret d c : channel_wf c → ∃ b, (move_cursor d c).2 = Ret b.
Proof. intros Hc. rewrite move_cursor_eq by done. destruct (mode c); eauto. Qed.

Lemma channel_jog_eq frames duration c :
  channel_wf c →
  channel_jog frames duration c =
  (set_motion Jog PAUSED (move_cursor (frames * duration) c).1, Ret tt).
Proof.
  intros Hc. unfold channel_jog, mbind, stm_bind.
  destruct (move_cursor_ret (frames * duration) c Hc) as [b Hb].
  destruct (move_cursor (frames * duration) c) as [c' r]. simpl in *. by subst r.
Qed.
Lemma jog_op frames duration : transport_op (channel_jog frames duration).
Proof.
  split.
  - intros c Hc. rewrite channel_jog_eq by done. split; [|done].
    by apply set_motion_wf; [apply move_cursor_wf|].
  - intros c1 c2 H1 H2 Hs. rewrite !channel_jog_eq by done. simpl.
    destruct (move_cursor_same (frames * duration) c1 c2 H1 H2 Hs) as [(?&?&?&?&?) _].
    by split_and!.
Qed.

Definition playing (c : ReplayChannel) : Prop := transport c = Playing ∨ transport c = Shuttle.
(** What [channel_advance] leaves. *)
Definition advanced (elapsed live_edge : Z) (c : ReplayChannel) : ReplayChannel :=
  if decide (transport c = Playing ∨ transport c = Shuttle) then
    let '(c', r) := move_cursor ((elapsed * rate c) `quot` 1000) c in
    match r with
    | Ret true =>
        if auto_return c' then channel_go_live live_edge c' else set_motion Paused PAUSED c'
    | _ => c'
    end
  else c.
Lemma move_cursor_auto_return d c : auto_return (move_cursor d c).1 = auto_return c.
Proof.
  unfold move_cursor, mbind, stm_bind, st_get. destruct (mode c); [done|].
  case_decide; simpl; [|done].
  unfold st_expect. destruct (checked I64 _); [|done]. simpl. by destruct c.
Qed.
Lemma channel_advance_eq elapsed live_edge c :
  channel_wf c → channel_advance elapsed live_edge c = (advanced elapsed live_edge c, Ret tt).
Proof.
  intros Hc. unfold channel_advance, advanced, mbind, stm_bind, st_get.
  case_decide; [|done].
  set (d := (elapsed * rate c) `quot` 1000).
  pose proof (move_cursor_auto_return d c) as Ha.
  destruct (move_cursor_ret d c Hc) as [b Hb].
  destruct (move_cursor d c) as [c' r]. simpl in *. subst r.
  rewrite Ha. by destruct b, (auto_return c).
Qed.
Lemma advance_op elapsed live_edge :
  in_ty I64 live_edge → transport_op (channel_advance elapsed live_edge).
Proof.
  intros Hedge. split.
  - intros c Hc. rewrite channel_advance_eq by done. split; [|done]. simpl. unfold advanced.
    case_decide; [|done]. set (d := (elapsed * rate c) `quot` 1000).
    pose proof (move_cursor_wf d c Hc) as Hwf.
    destruct (move_cursor d c) as [c' [[]|e|]]; simpl in *; try done.
    destruct (auto_return c'); [by apply go_live_wf|by apply set_motion_wf].
  - intros c1 c2 H1 H2 Hs. rewrite !channel_advance_eq by done. simpl. unfold advanced.
    pose proof Hs as (Hm&Hc&Ht&Hr&Ha). rewrite <-Ht, <-Hr. case_decide; [|done].
    set (d := (elapsed * rate c1) `quot` 1000).
    destruct (move_cursor_same d c1 c2 H1 H2 Hs) as [Hs' Hr'].
    destruct (move_cursor d c1) as [c1' r1], (move_cursor d c2) as [c2' r2]. simpl in *. subst r2.
    pose proof Hs' as (Hm'&Hc'&Ht'&Hrr&Ha'). rewrite <-Ha'.
    destruct r1 as [[]|e|]; try done.
    destruct (auto_return c1') eqn:Har; split_and!; simpl; congruence.
Qed.

(** What [channel_seek] leaves. *)
Definition sought (offset : Z) (c : ReplayChannel) : ReplayChannel :=
  match mode c with
  | Live => c
  | Recorded _ tl =>
      set_motion Paused (rate c) (set_cursor (clamp tl (range_start tl + offset)) c)
  end.
Lemma channel_seek_eq offset c :
  channel_wf c → channel_seek offset c = (sought offset c, Ret tt).
Proof.
  intros Hc. unfold channel_seek, sought, mbind, stm_bind, st_get.
  destruct (mode c) as [|ev tl] eqn:Hm; [done|]. unfold st_put.
  destruct (ch_inside _ Hc _ _ Hm) as [Htl _]. pose proof Htl as [? _ _].
  assert (channel_wf (set_cursor (range_start tl) c)) as Hwf.
  { eapply set_cursor_wf; [done..|]. unfold inside. lia. }
  rewrite move_cursor_eq by done. simpl. rewrite Hm. by destruct c.
Qed.
Lemma seek_op offset : transport_op (channel_seek offset).
Proof.
  split.
  - intros c Hc. rewrite channel_seek_eq by done. split; [|done]. simpl. unfold sought.
    destruct (mode c) as [|ev tl] eqn:Hm; [done|].
    apply set_motion_wf; [|apply Hc]. eapply set_cursor_wf; [done..|].
    apply clamp_inside. by eapply ch_inside.
  - intros c1 c2 H1 H2 Hs. rewrite !channel_seek_eq by done. simpl. unfold sought.
    pose proof Hs as (Hm&Hc&Ht&Hr&Ha). rewrite <-Hm. destruct (mode c1) eqn:Hm1; [done|].
    unfold same_transport. simpl. split_and!; congruence.
Qed.
Lemma play_op r t : rate_valid r → transport_op (st_modify (channel_play r t)).
Proof.
  intros Hr. apply modify_op.
  - intros c Hc. by apply set_motion_wf.
  - intros c1 c2 (?&?&?&?&?). by split_and!.
Qed.
Lemma cue_op event :
  range_wf (event_timeline event) → transport_op (st_modify (cue event)).
Proof.
  intros Htl. apply modify_op.
  - intros c _. by apply cue_wf.
  - intros c1 c2 (?&?&?&?&?). by split_and!.
Qed.
Lemma go_live_op live_edge :
  in_ty I64 live_edge → transport_op (st_modify (channel_go_live live_edge)).
Proof.
  intros Hedge. apply modify_op.
  - intros c _. by apply go_live_wf.
  - intros c1 c2 (?&?&?&?&?). by split_and!.
Qed.

(** ** Histories of both channels *)

Inductive deck_call :=
  | SetLinked (value : bool)
  | SelectAngle (id : ReplayChannelId) (camera : CameraId)
  | SetAudioPolicy (id : ReplayChannelId) (policy : AudioPolicy)
  | SetAutoReturn (id : ReplayChannelId) (enabled : bool)
  | CueEvent (id : ReplayChannelId) (event : ReplayEvent)
  | GoLive (id : ReplayChannelId) (live_edge : NormalizedTimestamp)
  | Play (id : ReplayChannelId) (r : PlaybackRate)
  | ShuttleAt (id : ReplayChannelId) (r : PlaybackRate)
  | Pause (id : ReplayChannelId)
  | JogBy (id : ReplayChannelId) (frames frame_duration_nanos : Z)
  | SeekFrame (id : ReplayChannelId) (frame frame_duration_nanos : Z)
  | Advance (id : ReplayChannelId) (elapsed_nanos : Z) (live_edge : NormalizedTimestamp).
Definition deck_do (call : deck_call) : deck_stm unit :=
  match call with
  | SetLinked value => set_linked value
  | SelectAngle id camera => select_angle id camera
  | SetAudioPolicy id policy => set_audio_policy id policy
  | SetAutoReturn id enabled => set_auto_return id enabled
  | CueEvent id event => cue_event id event
  | GoLive id live_edge => go_live id live_edge
  | Play id r => play id r
  | ShuttleAt id r => shuttle id r
  | Pause id => pause id
  | JogBy id frames duration => jog id frames duration
  | SeekFrame id frame duration => seek_frame id frame duration
  | Advance id elapsed live_edge => advance id elapsed live_edge
  end.
Definition deck_run (calls : list deck_call) (s : ReplayDecks) : ReplayDecks :=
  foldl (λ s call, (deck_do call s).1) s calls.

(** The arguments have the types of the source. *)
Definition deck_typed (call : deck_call) : Prop :=
  match call with
  | CueEvent _ event => range_wf (event_timeline event)
  | GoLive _ live_edge | Advance _ _ live_edge => in_ty I64 live_edge
  | Play _ r | ShuttleAt _ r => rate_valid r
  | SeekFrame _ frame duration => in_ty U64 frame ∧ in_ty U64 duration
  | _ => True
  end.
(** The channel a call is made on. *)
Definition target_of (call : deck_call) : option ReplayChannelId :=
  match call with
  | SetLinked _ => None
  | SelectAngle id _ | SetAudioPolicy id _ | SetAutoReturn id _ | CueEvent id _ | GoLive id _
  | Play id _ | ShuttleAt id _ | Pause id | JogBy id _ _ | SeekFrame id _ _ | Advance id _ _ =>
      Some id
  end.

Definition lockstep (s : ReplayDecks) : Prop :=
  linked s = true ∧ same_transport (deck_a s) (deck_b s).
Record deck_ok (call : deck_call) (s : ReplayDecks) (r : outcome ReplayError unit)
    (s' : ReplayDecks) : Prop := {
  dk_wf : decks_wf s';
  dk_answer : r = Ret tt ∨ s' = s ∧ r = Throw FrameDurationZero ∨
    s' = s ∧ r = Panic ∧ ∃ id frame duration, call = SeekFrame id frame duration ∧
      ty_max I128 < frame * duration;
  dk_other : linked s = false → ∀ id, target_of call = Some (other_channel id) →
    channel id s' = channel id s;
  dk_lockstep : lockstep s → call ≠ SetLinked false → lockstep s'
}.

Lemma channel_put id id' c s :
  channel id (put_channel id' c s) = if decide (id = id') then c else channel id s.
Proof. by destruct id, id'. Qed.
Lemma linked_put id c s : linked (put_channel id c s) = linked s.
Proof. by destruct id. Qed.
Lemma other_ne id : id ≠ other_channel id.
Proof. by destruct id. Qed.
Lemma decks_wf_channel s : decks_wf s ↔ ∀ id, channel_wf (channel id s).
Proof. split; [by intros [??] []|]. intros H. split; [apply (H A)|apply (H B)]. Qed.
Lemma same_transport_sym c1 c2 : same_transport c1 c2 → same_transport c2 c1.
Proof. by intros (?&?&?&?&?). Qed.
Lemma lockstep_channel s id :
  lockstep s ↔ linked s = true ∧ same_transport (channel id s) (channel (other_channel id) s).
Proof. unfold lockstep. destruct id; simpl; naive_solver eauto using same_transport_sym. Qed.

(** [for_transport_mut] runs the operation on the channel, then on the other one
    when they are linked. *)
Lemma for_transport_mut_eq id operation s :
  transport_op operation → decks_wf s →
  let s1 := put_channel id (operation (channel id s)).1 s in
  for_transport_mut id operation s =
  (if linked s
   then put_channel (other_channel id) (operation (channel (other_channel id) s)).1 s1
   else s1, Ret tt).
Proof.
  intros Hop Hs s1. rewrite decks_wf_channel in Hs.
  unfold for_transport_mut, channel_mut, mbind, stm_bind, st_zoom, st_get.
  destruct (op_ok _ Hop _ (Hs id)) as [_ H1].
  destruct (op_ok _ Hop _ (Hs (other_channel id))) as [_ H2].
  destruct (operation (channel id s)) as [c r] eqn:Hc. simpl in *. subst r.
  rewrite linked_put. destruct (linked s); [|done]. rewrite channel_put, decide_False.
  2: { intros Heq. by apply (other_ne id). }
  destruct (operation (channel (other_channel id) s)) as [c' r']. simpl in *. by subst r'.
Qed.
Lemma for_transport_mut_ok id operation call s :
  transport_op operation → decks_wf s → target_of call = Some id →
  wp (for_transport_mut id operation) (deck_ok call s) s.
Proof.
  intros Hop Hs Htarget. unfold wp. rewrite for_transport_mut_eq by done.
  pose proof Hs as Hall. rewrite decks_wf_channel in Hall. simpl. split.
  - apply decks_wf_channel. intros id'.
    destruct (linked s); rewrite !channel_put; repeat case_decide; subst; try done;
      apply Hop; apply Hall.
  - by left.
  - intros -> id' Hid'. rewrite Htarget in Hid'. injection Hid' as ->.
    rewrite channel_put, decide_False; [done|]. apply other_ne.
  - intros Hlock _. apply (lockstep_channel s id) in Hlock as [Hlink Hsame].
    apply (lockstep_channel _ id). rewrite Hlink, !linked_put. split; [done|].
    rewrite !channel_put. rewrite (decide_False (P := id = other_channel id)) by apply other_ne.
    rewrite !decide_True by done. by apply Hop.
Qed.
(** A change that no transport sees. *)
Lemma channel_mut_ok id (f : ReplayChannel → ReplayChannel) call s :
  decks_wf s → target_of call = Some id → (∀ c, same_transport c (f c)) →
  wp (channel_mut id (st_modify f)) (deck_ok call s) s.
Proof.
  intros Hs Htarget Hf.
  assert (∀ c, channel_wf c → channel_wf (f c)) as Hwf.
  { intros c [H1 H2 H3]. destruct (Hf c) as (Hm&Hc&_&Hr&_). split; [by rewrite <-Hc|by rewrite <-Hr|].
    by rewrite <-Hm, <-Hc. }
  unfold channel_mut. wp_step. wp_step. split.
  - rewrite decks_wf_channel in *. intros id'. rewrite channel_put. case_decide; [by apply Hwf|done].
  - by left.
  - intros _ id' Hid'. rewrite Htarget in Hid'. injection Hid' as ->.
    rewrite channel_put, decide_False; [done|]. apply other_ne.
  - intros Hlock _. apply (lockstep_channel s id) in Hlock as [Hlink Hsame].
    apply (lockstep_channel _ id). rewrite linked_put. split; [done|].
    rewrite !channel_put, decide_True, decide_False by (done || by destruct id).
    destruct Hsame as (?&?&?&?&?), (Hf (channel id s)) as (?&?&?&?&?).
    split_and!; congruence.
Qed.

Lemma deck_do_ok call s : decks_wf s → deck_typed call → wp (deck_do call) (deck_ok call s) s.
Proof.
  intros Hs Hty. destruct call; simpl in *.
  - unfold set_linked. wp_step. split; [done|by left|done|].
    intros [_ Hsame] Hne. destruct value; [done|by destruct Hne].
  - by apply channel_mut_ok.
  - by apply channel_mut_ok.
  - apply for_transport_mut_ok; [|done..]. apply modify_op.
    + intros c [???]. by split.
    + intros c1 c2 (?&?&?&?&?). by split_and!.
  - apply for_transport_mut_ok; [by apply cue_op|done..].
  - apply for_transport_mut_ok; [by apply go_live_op|done..].
  - apply for_transport_mut_ok; [by apply play_op|done..].
  - apply for_transport_mut_ok; [by apply play_op|done..].
  - apply for_transport_mut_ok; [by apply play_op|done..].
  - unfold jog. wp_step. wp_step.
    + apply for_transport_mut_ok; [apply jog_op|done..].
    + split; try done. right. by left.
  - unfold seek_frame. wp_step. wp_step.
    2: { split; try done. right. by left. }
    wp_step. apply wp_expect.
    + intros offset _. apply for_transport_mut_ok; [apply seek_op|done..].
    + intros Hover%checked_None. split; try done. do 2 right. split_and!; try done.
      eexists _, _, _. split; [done|]. destruct Hty as [[H0 _] [H0' _]].
      change (ty_min U64) with 0 in *. unfold in_ty in Hover.
      change (ty_min I128) with (-170141183460469231731687303715884105728) in Hover.
      assert (0 ≤ frame * frame_duration_nanos) by nia. lia.
  - apply for_transport_mut_ok; [by apply advance_op|done..].
Qed.

Lemma deck_run_wf calls s : decks_wf s → Forall deck_typed calls → decks_wf (deck_run calls s).
Proof.
  revert s. induction calls as [|call calls IH]; intros s Hs Hc; [done|].
  apply Forall_cons in Hc as [Hc Hcs]. apply IH; [|done].
  apply (dk_wf _ _ _ _ (deck_do_ok call s Hs Hc)).
Qed.
Lemma deck_run_lockstep calls s :
  decks_wf s → Forall deck_typed calls → SetLinked false ∉ calls → lockstep s →
  lockstep (deck_run calls s).
Proof.
  revert s. induction calls as [|call calls IH]; intros s Hs Hc Hn Hl; [done|].
  apply Forall_cons in Hc as [Hc Hcs]. apply not_elem_of_cons in Hn as [Hne Hn].
  pose proof (deck_do_ok call s Hs Hc) as Hok.
  apply IH; [apply Hok|done|done|]. by apply Hok.
Qed.
Lemma decks_new_wf angle_a angle_b live_edge :
  in_ty I64 live_edge → decks_wf (decks_new angle_a angle_b live_edge).
Proof. intros. split; split; simpl; by try done. Qed.

(** ** Playing *)

(** The cursor moves by this much at each step of [elapsed] nanoseconds. *)
Definition step_of (elapsed : Z) (c : ReplayChannel) : Z := (elapsed * rate c) `quot` 1000.
Definition advance_all (elapsed : Z) (edges : list Z) (c : ReplayChannel) : ReplayChannel :=
  foldl (λ c edge, advanced elapsed edge c) c edges.

Lemma advanced_stopped elapsed edges c :
  transport c ≠ Playing → transport c ≠ Shuttle → advance_all elapsed edges c = c.
Proof.
  intros H1 H2. induction edges as [|edge edges IH]; [done|].
  assert (advanced elapsed edge c = c) as Heq.
  { unfold advanced. by rewrite decide_False by naive_solver. }
  unfold advance_all in *. simpl. by rewrite Heq.
Qed.
(** How the first step past a bound of the event ends playing. *)
Definition finished (elapsed edge : Z) (tl : TimelineRange) (pos : Z) (c : ReplayChannel) :
    ReplayChannel :=
  if auto_return c then channel_go_live edge (set_cursor (clamp tl pos) c)
  else set_motion Paused PAUSED (set_cursor (clamp tl pos) c).
Lemma advanced_eq elapsed edge c ev tl :
  channel_wf c → playing c → mode c = Recorded ev tl →
  let pos := cursor c + step_of elapsed c in
  advanced elapsed edge c =
  if decide (inside tl pos) then set_cursor pos c else finished elapsed edge tl pos c.
Proof.
  intros Hc Hp Hm pos. unfold advanced. rewrite decide_True by done.
  rewrite move_cursor_eq by done. rewrite Hm. fold (step_of elapsed c). fold pos.
  case_decide as Hin.
  - rewrite bool_decide_eq_false_2 by naive_solver. by rewrite clamp_id.
  - by rewrite bool_decide_eq_true_2.
Qed.

(** Once a step leaves the event, all that follow would too. *)
Lemma inside_convex tl x d k :
  inside tl x → ¬ inside tl (x + d) → 0 ≤ k → ¬ inside tl (x + (k + 1) * d).
Proof. unfold inside. nia. Qed.

Definition position (elapsed : Z) (c : ReplayChannel) (k : nat) : Z :=
  cursor c + Z.of_nat k * step_of elapsed c.
Lemma advance_all_exact elapsed edges c ev tl :
  channel_wf c → playing c → mode c = Recorded ev tl →
  let pos := position elapsed c in
  if decide (inside tl (pos (length edges)))
  then advance_all elapsed edges c = set_cursor (pos (length edges)) c
  else ∃ k edge, edges !! k = Some edge ∧ (∀ j, (j ≤ k)%nat → inside tl (pos j)) ∧
    ¬ inside tl (pos (S k)) ∧ advance_all elapsed edges c = finished elapsed edge tl (pos (S k)) c.
Proof.
  revert c. induction edges as [|edge edges IH]; intros c Hc Hp Hm pos.
  { assert (pos 0%nat = cursor c) as Hpos by (unfold pos, position; lia).
    simpl. rewrite Hpos, decide_True by (by eapply ch_inside). by destruct c. }
  assert (∀ k, pos (S k) = cursor c + step_of elapsed c + Z.of_nat k * step_of elapsed c) as HposS
    by (intros; unfold pos, position; lia).
  assert (inside tl (cursor c)) as Hin0 by (by eapply ch_inside).
  change (advance_all elapsed (edge :: edges) c)
    with (advance_all elapsed edges (advanced elapsed edge c)).
  cbn [length]. rewrite (advanced_eq elapsed edge c ev tl) by done.
  destruct (decide (inside tl (cursor c + step_of elapsed c))) as [Hin|Hout].
  - set (c1 := set_cursor (cursor c + step_of elapsed c) c).
    specialize (IH c1 ltac:(by eapply set_cursor_wf) Hp Hm).
    assert (∀ k, position elapsed c1 k = pos (S k)) as Hshift.
    { intros k. rewrite HposS. unfold c1, position, step_of. simpl. lia. }
    cbv zeta in IH. rewrite Hshift in IH. case_decide.
    + rewrite IH. by unfold c1, set_cursor.
    + destruct IH as (k&edge'&Hk&Hj&Hn&Heq). rewrite Hshift in Hn, Heq.
      exists (S k), edge'. split_and!; [done| |done|].
      * intros [|j] Hjk; [unfold pos, position; by rewrite Z.mul_0_l, Z.add_0_r|].
        rewrite <-Hshift. apply Hj. lia.
      * rewrite Heq. unfold finished. by destruct c as [? ? ? ? ? ? [] ?].
  - rewrite decide_False.
    2: { unfold pos, position. rewrite Nat2Z.inj_succ.
      replace (Z.succ (Z.of_nat (length edges))) with (Z.of_nat (length edges) + 1) by lia.
      apply inside_convex; [done..|lia]. }
    exists 0%nat, edge. assert (pos 1%nat = cursor c + step_of elapsed c) as Hpos1
      by (rewrite HposS; lia).
    rewrite Hpos1. split_and!; [done| |done|].
    + intros j Hj. replace j with 0%nat by lia. unfold pos, position.
      by rewrite Z.mul_0_l, Z.add_0_r.
    + unfold finished. destruct (auto_return c); by rewrite advanced_stopped.
Qed.

(** Each call runs on the named channel whatever the other one does. *)
Lemma advance_run_channel id elapsed edges s :
  decks_wf s → Forall (in_ty I64) edges →
  channel id (deck_run (Advance id elapsed <$> edges) s) = advance_all elapsed edges (channel id s).
Proof.
  revert s. induction edges as [|edge edges IH]; intros s Hs Hedges; [done|].
  apply Forall_cons in Hedges as [Hedge Hedges]. simpl.
  assert (deck_typed (Advance id elapsed edge)) as Hty by done.
  pose proof (dk_wf _ _ _ _ (deck_do_ok _ s Hs Hty)) as Hs'.
  rewrite IH by done. f_equal. simpl. unfold advance.
  rewrite for_transport_mut_eq by (by try apply advance_op). simpl.
  assert (channel_wf (channel id s)) as Hc by (by apply decks_wf_channel).
  destruct (linked s); rewrite !channel_put, ?(decide_False (P := id = other_channel id)),
    ?decide_True by (done || apply other_ne); by rewrite channel_advance_eq.
Qed.

(** In every reachable state of the decks a call answers [Ok], refuses a zero
    frame duration, or is a seek whose offset leaves 128 bits, and only the first
    changes anything; the cursor of a channel that plays an event stays inside
    the event; and with unlinked decks a call on one channel never touches the
    other. *)
Theorem decks_safe angle_a angle_b live_edge calls call :
  in_ty I64 live_edge → Forall deck_typed (calls ++ [call]) →
  let s := deck_run calls (decks_new angle_a angle_b live_edge) in
  let '(s', r) := deck_do call s in
  (r = Ret tt ∨ s' = s ∧ r = Throw FrameDurationZero ∨
   s' = s ∧ r = Panic ∧ ∃ id frame duration, call = SeekFrame id frame duration ∧
     ty_max I128 < frame * duration) ∧
  (∀ id ev tl, mode (channel id s') = Recorded ev tl → inside tl (cursor (channel id s'))) ∧
  (linked s = false → ∀ id, target_of call = Some (other_channel id) →
     channel id s' = channel id s).
Proof.
  intros Hedge [Hcalls Hcall]%Forall_app s. rewrite Forall_singleton in Hcall.
  assert (decks_wf s) as Hs by (by apply deck_run_wf; [apply decks_new_wf|]).
  apply wp_pair. eapply wp_mono; [exact (deck_do_ok call s Hs Hcall)|]. intros r s' [Hwf Hans Hother _].
  split_and!; [done| |done]. intros id ev tl Hm. rewrite decks_wf_channel in Hwf.
  by apply (ch_inside _ (Hwf id) ev).
Qed.

(** Linked decks stay in lockstep: from any reachable state, once the decks
    are linked, given one setting of auto-return and cued to one event, both
    channels agree on event, position, motion and rate after every history of
    calls on either of them, until they are unlinked. *)
Theorem linked_lockstep angle_a angle_b live_edge before id id' enabled event after :
  in_ty I64 live_edge → Forall deck_typed before → range_wf (event_timeline event) →
  Forall deck_typed after → SetLinked false ∉ after →
  let s := deck_run (before ++ [SetLinked true; SetAutoReturn id enabled; CueEvent id' event] ++
             after) (decks_new angle_a angle_b live_edge) in
  linked s = true ∧ same_transport (deck_a s) (deck_b s).
Proof.
  intros Hedge Hbefore Hevent Hafter Hn. unfold deck_run. rewrite !foldl_app.
  set (s0 := foldl _ _ before).
  assert (decks_wf s0) as Hs0 by (by apply deck_run_wf; [apply decks_new_wf|]).
  set (setup := [SetLinked true; SetAutoReturn id enabled; CueEvent id' event]).
  assert (Forall deck_typed setup) as Hsetup.
  { unfold setup. repeat (apply Forall_cons_2; [done|]). constructor. }
  apply (deck_run_lockstep after); [by apply (deck_run_wf setup)|done..|].
  clearbody s0. unfold setup, foldl.
  set (s1 := (deck_do (SetLinked true) s0).1).
  assert (decks_wf s1 ∧ linked s1 = true) as [Hs1 Hl1] by done.
  set (s2 := (deck_do (SetAutoReturn id enabled) s1).1).
  assert (decks_wf s2) as Hs2 by (by apply (dk_wf _ _ _ _ (deck_do_ok (SetAutoReturn id enabled) s1 Hs1 I))).
  assert (linked s2 = true ∧ auto_return (deck_a s2) = auto_return (deck_b s2)) as [Hl2 Ha2].
  { unfold s2. simpl. unfold set_auto_return, for_transport_mut, channel_mut, mbind, stm_bind,
      st_zoom, st_get, st_modify.
    by destruct id. }
  clearbody s2. simpl. unfold cue_event. rewrite for_transport_mut_eq by (by try apply cue_op).
  simpl. rewrite Hl2. split; [by rewrite !linked_put|].
  by destruct id'; split_and!; simpl.
Qed.

(** Playing is exact.  While a channel plays an event, [n] steps of [elapsed]
    nanoseconds move its cursor by exactly [n] times the step of its rate as long
    as that lies inside the event; the first step past a bound ends playing for
    good, paused at the bound or, with auto-return, live at the edge of that very
    step, and no later step changes anything. *)
Theorem replay_play_exact angle_a angle_b live_edge calls id elapsed edges ev tl :
  in_ty I64 live_edge → Forall deck_typed calls → Forall (in_ty I64) edges →
  let s := deck_run calls (decks_new angle_a angle_b live_edge) in
  let c := channel id s in
  let c' := channel id (deck_run (Advance id elapsed <$> edges) s) in
  let pos := position elapsed c in
  mode c = Recorded ev tl → playing c →
  if decide (inside tl (pos (length edges)))
  then c' = set_cursor (pos (length edges)) c
  else ∃ k edge, edges !! k = Some edge ∧ (∀ j, (j ≤ k)%nat → inside tl (pos j)) ∧
    ¬ inside tl (pos (S k)) ∧ c' = finished elapsed edge tl (pos (S k)) c.
Proof.
  intros Hedge Hcalls Hedges s c c' pos Hm Hp.
  assert (decks_wf s) as Hs by (by apply deck_run_wf; [apply decks_new_wf|]).
  assert (channel_wf c) as Hc by (by apply decks_wf_channel).
  unfold c'. rewrite advance_run_channel by done. by apply (advance_all_exact elapsed edges c ev).
Qed.

(** ** Concrete decks *)

Definition ex_replay_event : ReplayEvent :=
  mk_event 5 "goal" (mk_range 1000 2000) [1; 2] 2 [] "" [].
Lemma ex_replay_event_range : range_wf (event_timeline ex_replay_event).
Proof. split; [by vm_compute|by split; vm_compute..]. Qed.
Definition ex_deck_calls : list deck_call :=
  [SetAutoReturn A true; CueEvent A ex_replay_event; Play A 500].
Lemma ex_deck_typed : Forall deck_typed ex_deck_calls.
Proof.
  unfold ex_deck_calls. repeat (apply Forall_cons_2; [first [exact ex_replay_event_range|
    exact I|by unfold deck_typed, rate_valid; lia]|]). constructor.
Qed.
Lemma zero_I64 : in_ty I64 0.
Proof. by vm_compute. Qed.

Lemma decks_safe_witness :
  let s := deck_run ex_deck_calls (decks_new 1 2 0) in
  in_ty I64 0 ∧ linked s = false ∧ cursor (deck_a s) = 1000 ∧
  deck_b (deck_do (SeekFrame A 3 40) s).1 = deck_b s ∧
  cursor (deck_a (deck_do (SeekFrame A 3 40) s).1) = 1120.
Proof.
  intros s.
  assert (Forall deck_typed (ex_deck_calls ++ [SeekFrame A 3 40])) as Hty.
  { apply Forall_app. split; [apply ex_deck_typed|]. apply Forall_singleton. by split; vm_compute. }
  pose proof (decks_safe 1 2 0 ex_deck_calls (SeekFrame A 3 40) zero_I64 Hty) as H.
  assert (linked s = false) as Hl by (by vm_compute).
  assert (cursor (deck_a s) = 1000) as Hc by (by vm_compute).
  assert (cursor (deck_a (deck_do (SeekFrame A 3 40) s).1) = 1120) as Hc' by (by vm_compute).
  cbv zeta in H. fold s in H. clearbody s. split; [exact zero_I64|].
  split; [done|]. split; [done|]. split; [|done].
  destruct (deck_do (SeekFrame A 3 40) s) as [s' r]. destruct H as (_&_&H).
  by apply (H Hl B).
Defined.

Lemma linked_lockstep_witness :
  let after := [Play A 1000; Advance B 100 7; SelectAngle B 1] in
  let s := deck_run (ex_deck_calls ++
    [SetLinked true; SetAutoReturn B false; CueEvent A ex_replay_event] ++ after)
    (decks_new 1 2 0) in
  (SetLinked false ∉ after) ∧ same_transport (deck_a s) (deck_b s) ∧ cursor (deck_b s) = 1100.
Proof.
  intros after s.
  assert (SetLinked false ∉ after) as Hn.
  { unfold after. rewrite !not_elem_of_cons. split_and!; try done. apply not_elem_of_nil. }
  assert (Forall deck_typed after) as Hafter.
  { unfold after. repeat (apply Forall_cons_2; [first [exact I|
      by unfold deck_typed, rate_valid; lia|by vm_compute]|]). constructor. }
  split; [done|]. split; [|by vm_compute].
  apply (linked_lockstep 1 2 0 ex_deck_calls B A false ex_replay_event after zero_I64
    ex_deck_typed ex_replay_event_range Hafter Hn).
Defined.

Lemma replay_play_exact_witness :
  let s := deck_run ex_deck_calls (decks_new 1 2 0) in
  let edges := [7; 8; 9] in
  playing (deck_a s) ∧ Forall (in_ty I64) edges ∧
  deck_a (deck_run (Advance A 300 <$> edges) s) = set_cursor 1450 (deck_a s).
Proof.
  intros s edges.
  assert (Forall (in_ty I64) edges) as Hedges.
  { unfold edges. repeat (apply Forall_cons_2; [by vm_compute|]). constructor. }
  pose proof (replay_play_exact 1 2 0 ex_deck_calls A 300 edges 5 (mk_range 1000 2000) zero_I64
    ex_deck_typed Hedges) as H.
  assert (playing (deck_a s)) as Hp by (by left; vm_compute).
  assert (mode (deck_a s) = Recorded 5 (mk_range 1000 2000)) as Hm by (by vm_compute).
  assert (position 300 (deck_a s) (length edges) = 1450) as Hpos by (by vm_compute).
  cbv zeta in H. fold s in H. specialize (H Hm Hp). change (channel A s) with (deck_a s) in H. rewrite Hpos in H.
  clearbody s. split; [exact Hp|]. split; [exact Hedges|].
  rewrite decide_True in H by (unfold inside; simpl; lia). exact H.
Defined.

(** The unchecked product of a seek. *)
Example seek_frame_overflow :
  (deck_do (SeekFrame A 18446744073709551615 18446744073709551615)
     (deck_run ex_deck_calls (decks_new 1 2 0))).2 = Panic.
Proof. vm_compute. done. Qed.
