(* ===== verification/ReplayExports.v ===== *)
(** Highlight timelines and export jobs, [crates/media/fm-replay/src/highlight.rs]:
    an edit of event references, and a session that exports snapshots of it while
    capture goes on.

    [HighlightTimeline] and [ReplaySession] map to the records of the same names;
    a gain is the bits of its [f32], a path is a string. *)
From S2P Require Import Prelude BTree ReplayTypes ReplayDecks.

(** ** Highlights *)

Inductive Transition := Cut | Dissolve (duration_nanos : Z).
Record HighlightItem := mk_highlight {
  hl_id : HighlightId;
  hl_event : EventId;
  hl_timeline : TimelineRange;
  hl_angle : CameraId;
  hl_speed : PlaybackRate;
  hl_transition : Transition
}.
Record MusicBed := mk_music { music_id : MusicTrackId; music_locator : string; music_gain : Z }.
Record HighlightTimeline := mk_highlights {
  items : list HighlightItem;
  music : option MusicBed
}.
Definition highlights_push (item : HighlightItem) : stm HighlightTimeline ReplayError unit :=
  self ← st_get;
  _ ← st_require (¬ Exists (λ existing, hl_id existing = hl_id item) (items self))
        (DuplicateHighlight (hl_id item));
  st_put (mk_highlights (items self ++ [item]) (music self)).
Definition set_music (m : option MusicBed) : stm HighlightTimeline ReplayError unit :=
  st_modify (λ self, mk_highlights (items self) m).

(** ** Export jobs *)

Inductive CaptureState := Idle | Recording | LowSpaceStopped.
#[global] Instance CaptureState_eq_dec : EqDecision CaptureState.
Proof. solve_decision. Defined.
Inductive ExportJobState :=
  | Queued
  | Running (completed_items : Z)
  | Completed (bytes : Z)
  | Failed (reason : string)
  | Cancelled.
#[global] Instance ExportJobState_eq_dec : EqDecision ExportJobState.
Proof. solve_decision. Defined.
Record ExportJob := mk_job {
  job_id : ExportJobId;
  destination : string;
  job_state : ExportJobState;
  timeline_snapshot : HighlightTimeline;
  submitted_while_recording : bool
}.
Record ReplaySession := mk_session {
  capture_state : CaptureState;
  exports : btmap ExportJobId ExportJob
}.
Definition session_default : ReplaySession := mk_session Idle [].

Abbreviation session_stm A := (stm ReplaySession ReplayError A).

Definition set_capture_state (state : CaptureState) : session_stm unit :=
  st_modify (λ self, mk_session state (exports self)).
Definition submit_export (id : ExportJobId) (timeline : HighlightTimeline) (dest : string) :
    session_stm unit :=
  self ← st_get;
  _ ← st_require (bt_contains id (exports self) = false) (DuplicateExport id);
  st_put (mk_session (capture_state self)
    (bt_insert id (mk_job id dest Queued timeline
       (bool_decide (capture_state self = Recording))) (exports self))).

(** The table of [update_export]. *)
Definition transition_valid (from to : ExportJobState) : bool :=
  match from, to with
  | Queued, (Running _ | Failed _ | Cancelled)
  | Running _, (Completed _ | Failed _ | Cancelled) => true
  | Running previous, Running next => bool_decide (previous ≤ next)
  | _, _ => false
  end.
Definition update_export (id : ExportJobId) (state : ExportJobState) : session_stm unit :=
  self ← st_get;
  job ← st_lift (ok_or (UnknownExport id) (bt_get id (exports self)));
  _ ← st_require (transition_valid (job_state job) state = true) ExportStateTransition;
  st_put (mk_session (capture_state self)
    (bt_insert id (mk_job (job_id job) (destination job) state (timeline_snapshot job)
       (submitted_while_recording job)) (exports self))).

(** ** Histories *)

Inductive session_call :=
  | SetCaptureState (state : CaptureState)
  | SubmitExport (id : ExportJobId) (timeline : HighlightTimeline) (dest : string)
  | UpdateExport (id : ExportJobId) (state : ExportJobState).
Definition session_do (call : session_call) : session_stm unit :=
  match call with
  | SetCaptureState state => set_capture_state state
  | SubmitExport id timeline dest => submit_export id timeline dest
  | UpdateExport id state => update_export id state
  end.
Definition session_run (calls : list session_call) (s : ReplaySession) : ReplaySession :=
  foldl (λ s call, (session_do call s).1) s calls.

(** The life of a job, as a step relation of its own. *)
Inductive job_step : ExportJobState → ExportJobState → Prop :=
  | step_start n : job_step Queued (Running n)
  | step_progress n n' : n ≤ n' → job_step (Running n) (Running n')
  | step_complete n b : job_step (Running n) (Completed b)
  | step_fail from reason : from = Queued ∨ (∃ n, from = Running n) → job_step from (Failed reason)
  | step_cancel from : from = Queued ∨ (∃ n, from = Running n) → job_step from Cancelled.
Definition job_done (state : ExportJobState) : Prop :=
  match state with
  | Completed _ | Failed _ | Cancelled => True
  | Queued | Running _ => False
  end.
(** What a job is asked to do. *)
Definition job_order (job : ExportJob) : ExportJobId * string * HighlightTimeline * bool :=
  (job_id job, destination job, timeline_snapshot job, submitted_while_recording job).

Lemma transition_valid_step from to : transition_valid from to = true ↔ job_step from to.
Proof.
  split.
  - destruct from, to; simpl; try done; intros H; try (constructor; eauto; done).
    constructor. by apply bool_decide_eq_true in H.
  - destruct 1 as [n|n n' Hn|n b|from r [->|[n ->]]|from [->|[n ->]]]; simpl; try done.
    by apply bool_decide_eq_true.
Qed.
Lemma job_done_final from to : job_done from → ¬ job_step from to.
Proof. destruct 2 as [| | |? ? [->|[? ->]]|? [->|[? ->]]]; done. Qed.

(** A job of [s] is the same job in [s'], further along its life. *)
Definition jobs_continue (s s' : ReplaySession) : Prop :=
  ∀ id job, bt_get id (exports s) = Some job →
  ∃ job', bt_get id (exports s') = Some job' ∧ job_order job' = job_order job ∧
    rtc job_step (job_state job) (job_state job').
#[global] Instance jobs_continue_preorder : PreOrder jobs_continue.
Proof.
  split.
  - intros s id job Hjob. by exists job.
  - intros s1 s2 s3 H12 H23 id job Hjob. destruct (H12 id job Hjob) as (j2&Hj2&Ho2&Hs2).
    destruct (H23 id j2 Hj2) as (j3&Hj3&Ho3&Hs3). exists j3.
    split_and!; [done|congruence|by etrans].
Qed.

Lemma session_do_continue call s :
  wp (session_do call) (λ r s', r ≠ Panic ∧ jobs_continue s s' ∧ ∀ e, r = Throw e → s' = s) s.
Proof.
  destruct call as [state|id timeline dest|id state]; simpl.
  - unfold set_capture_state. wp_step. split_and!; [done| |done]. intros id job Hjob. by exists job.
  - unfold submit_export, bt_contains. wp_step. wp_step. wp_step. wp_step; [|done].
    rewrite bool_decide_eq_false, <-eq_None_not_Some in H. wp_step. split_and!; [done| |done].
    intros i job Hjob. exists job. split; [|done]. simpl. rewrite bt_get_insert.
    case_decide; [by subst; rewrite H in Hjob|done].
  - unfold update_export. wp_step. wp_step. wp_step.
    apply wp_lift; [intros job Hjob%ok_or_Ok|done]. wp_step. wp_step; [|done].
    apply transition_valid_step in H. wp_step. split_and!; [done| |done].
    intros i j Hj. simpl. rewrite bt_get_insert. case_decide; [|by exists j].
    subst i. rewrite Hjob in Hj. injection Hj as <-. eexists. split_and!; [done..|].
    by apply rtc_once.
Qed.
Lemma session_run_continue calls s : jobs_continue s (session_run calls s).
Proof.
  revert s. induction calls as [|call calls IH]; intros s; [done|].
  etrans; [apply (session_do_continue call s)|apply IH].
Qed.
Lemma rtc_done from to : job_done from → rtc job_step from to → to = from.
Proof. intros Hd Hs. destruct Hs as [|from mid to Hstep _]; [done|]. by apply job_done_final in Hstep. Qed.

(** An export job accepted in a session keeps its destination, its snapshot of
    the highlights and its capture flag through every later history of calls,
    moves only along the life of a job (queued, running with progress that never
    goes back, then completed, failed or cancelled), and once done never changes;
    an update is accepted exactly when it is a step of that life, and an
    identifier is never used twice. *)
Theorem export_jobs_monotone calls id timeline dest later state :
  let s := session_run calls session_default in
  let '(s1, r) := submit_export id timeline dest s in
  let s2 := session_run later s1 in
  (r = Ret tt ↔ bt_get id (exports s) = None) ∧
  (r = Ret tt → ∃ job, bt_get id (exports s2) = Some job ∧
     job_order job = (id, dest, timeline, bool_decide (capture_state s = Recording)) ∧
     rtc job_step Queued (job_state job) ∧
     ((update_export id state s2).2 = Ret tt ↔ job_step (job_state job) state) ∧
     (submit_export id timeline dest s2).2 = Throw (DuplicateExport id) ∧
     (job_done (job_state job) → ∀ rest, ∃ job',
        bt_get id (exports (session_run rest s2)) = Some job' ∧ job_state job' = job_state job ∧
        job_order job' = job_order job)).
Proof.
  intros s. apply wp_pair. unfold submit_export at 1, bt_contains. wp_step. wp_step. wp_step.
  wp_step.
  2: { apply not_false_is_true, bool_decide_eq_true in H. split; [|done].
    split; [done|]. intros Hn. rewrite Hn in H. by destruct H. }
  rewrite bool_decide_eq_false, <-eq_None_not_Some in H. wp_step. split; [done|]. intros _.
  set (s1 := mk_session _ _). set (s2 := session_run later s1).
  destruct (session_run_continue later s1 id (mk_job id dest Queued timeline
    (bool_decide (capture_state s = Recording)))) as (job&Hjob&Horder&Hsteps).
  { unfold s1. simpl. by rewrite bt_get_insert_eq. }
  exists job. fold s2 in Hjob. split_and!; [done..| | |].
  - unfold update_export, mbind, stm_bind, st_get, st_lift, ok_or. rewrite Hjob. unfold st_require.
    destruct (decide (transition_valid (job_state job) state = true)) as [Hv|Hv];
      rewrite transition_valid_step in Hv; naive_solver.
  - unfold submit_export, mbind, stm_bind, st_get, st_require, bt_contains.
    rewrite decide_False; [done|]. rewrite bool_decide_eq_false, Hjob. naive_solver.
  - intros Hdone rest. destruct (session_run_continue rest s2 id job Hjob) as (job'&?&?&Hs).
    exists job'. split_and!; [done| |done]. by apply rtc_done.
Qed.

(** Highlight identifiers are unique in every timeline that [push] builds. *)
Lemma highlights_unique (l : list HighlightItem) :
  NoDup (hl_id <$> items (foldl (λ s item, (highlights_push item s).1) (mk_highlights [] None) l)).
Proof.
  induction l as [|item l IH] using rev_ind; [constructor|].
  rewrite foldl_app. simpl. set (s := foldl _ _ l) in *.
  unfold highlights_push, mbind, stm_bind, st_get, st_require.
  case_decide as Hnew; simpl; [|done]. rewrite fmap_app. apply NoDup_app.
  split_and!; [done| |apply NoDup_singleton]. intros x Hx ->%list_elem_of_singleton.
  apply Hnew, Exists_exists. apply list_elem_of_fmap in Hx as (y&?&?). by exists y.
Qed.
