(* ===== verification/Settle.v ===== *)
(** Where a switcher is heading.  [settle s] is the switcher [s] with every
    animation at its end: the running transition has swapped program and preview,
    Fade-to-Black and the overlay fades have reached their targets, and a T-bar's
    interval has been reset.  A frame of [Switcher.advance_frame_events] never
    changes it, and enough frames reach it.

    [sim] relates a method of a settled switcher to a method of the one that is
    still moving; the engine's desired and realized switchers are related so. *)
From S2P Require Import Prelude BTree Types.
From S2P Require Overlay FadeToBlack.
From S2P Require Import SwitcherTypes Switcher.
#[local] Open Scope Z_scope.

(** ** Settling *)

Definition settle_overlay (o : Overlay.OverlayChannelState) : Overlay.OverlayChannelState :=
  match Overlay.automatic o with
  | Some a =>
      Overlay.set_on_air (Overlay.source o) (Overlay.target_active a) (Overlay.target_opacity a)
        None o
  | None => o
  end.
Definition settle_t_bar (t : TBarState) : TBarState :=
  mk_t_bar (t_kind t) (t_from t) (t_to t) 0 (t_position t).
Definition settle_fade (c : FadeToBlack.FadeToBlackController) :
    FadeToBlack.FadeToBlackController := FadeToBlack.settled (FadeToBlack.target c).
Definition settle (s : SwitcherState) : SwitcherState := {|
  inputs := inputs s;
  preview := match transition s with Some _ => program s | None => preview s end;
  program := match transition s with Some _ => preview s | None => program s end;
  transition := None;
  t_bar := settle_t_bar <$> t_bar s;
  fade_to_black := settle_fade (fade_to_black s);
  overlays := settle_overlay <$> overlays s;
  stingers := stingers s;
  streams := streams s;
  streams_running := streams_running s;
  recording_desired := recording_desired s
|}.

(** ** What commutes with settling *)

Section overlays.
Implicit Types o : Overlay.OverlayChannelState.

Lemma settle_request_take src o :
  settle_overlay (Overlay.request_take src o) = Overlay.take src (settle_overlay o).
Proof. by destruct o as [? ? ? [] ? ? ? ? []]. Qed.
Lemma settle_take src o :
  settle_overlay (Overlay.take src o) = Overlay.take src (settle_overlay o).
Proof. by destruct o as [? ? ? [] ? ? ? ? []]. Qed.
Lemma settle_update src o :
  settle_overlay (Overlay.update src o) = Overlay.update src (settle_overlay o).
Proof. by destruct o as [? ? ? [] ? ? ? ? []]. Qed.
Lemma settle_request_off o :
  settle_overlay (Overlay.request_off o) = Overlay.off (settle_overlay o).
Proof. by destruct o as [? [] ? [] ? ? ? ? []]. Qed.
Lemma settle_configure_transition k d o :
  settle_overlay (Overlay.configure_transition k d o) =
  Overlay.configure_transition k d (settle_overlay o).
Proof. by destruct o as [? ? ? [] ? ? ? ? []]. Qed.
Lemma settle_configure_appearance p b o :
  settle_overlay (Overlay.configure_appearance p b o) =
  Overlay.configure_appearance p b (settle_overlay o).
Proof. by destruct o as [? ? ? [] ? ? ? ? []]. Qed.
Lemma settle_set_queue q o :
  settle_overlay (Overlay.set_queue q o) = Overlay.set_queue q (settle_overlay o).
Proof. by destruct o as [? ? ? [] ? ? ? ? []]. Qed.
Lemma settle_queue o : Overlay.queue (settle_overlay o) = Overlay.queue o.
Proof. by destruct o as [? ? ? [] ? ? ? ? []]. Qed.
Lemma settle_enqueue src o :
  Overlay.enqueue src (settle_overlay o) =
  (settle_overlay (Overlay.enqueue src o).1, (Overlay.enqueue src o).2).
Proof.
  unfold Overlay.enqueue. rewrite settle_queue. case_decide; [done|]. simpl.
  by rewrite settle_set_queue.
Qed.
Lemma settle_request_take_next o :
  Overlay.take_next (settle_overlay o) =
  (settle_overlay (Overlay.request_take_next o).1, (Overlay.request_take_next o).2).
Proof.
  unfold Overlay.take_next, Overlay.request_take_next. rewrite settle_queue.
  destruct (Overlay.queue o); [done|]. simpl. by rewrite settle_request_take, settle_set_queue.
Qed.
Lemma settle_set_output_inclusion out b o :
  settle_overlay (Overlay.set_output_inclusion out b o) =
  Overlay.set_output_inclusion out b (settle_overlay o).
Proof. by destruct o as [? ? ? [] ? ? ? ? []]. Qed.
Lemma settle_advance o o' a :
  Overlay.overlay_advance o = Some (o', a) → settle_overlay o' = settle_overlay o.
Proof.
  unfold Overlay.overlay_advance. destruct (Overlay.automatic o) as [au|] eqn:Hau; [|by intros [= -> _]].
  destruct (checked U32 _) as [e|]; simpl; [|done].
  destruct (Overlay.opacity_at _ e) as [m|]; simpl; [|done]. intros [= <- _].
  unfold settle_overlay. rewrite Hau. case_bool_decide; simpl; by destruct o.
Qed.
Lemma settle_overlay_rest o : Overlay.automatic o = None → settle_overlay o = o.
Proof. unfold settle_overlay. by intros ->. Qed.
End overlays.

Lemma settle_overlay_wf l o : Overlay.overlay_wf l o → Overlay.overlay_wf l (settle_overlay o).
Proof.
  intros Hwf. unfold settle_overlay. destruct (Overlay.automatic o) as [a|] eqn:Ha; [|done].
  pose proof (Overlay.ow_motion _ _ Hwf) as Hm. unfold Overlay.motion_ok in Hm.
  rewrite Ha in Hm. destruct Hm as (Hau&Hact&_).
  apply Overlay.set_on_air_wf; [done| |].
  - pose proof (Overlay.ow_source _ _ Hwf) as Hs. destruct (Overlay.source o); [done|congruence].
  - unfold Overlay.motion_ok. simpl. apply (Overlay.oa_target _ Hau).
Qed.
Lemma settle_wf s : switcher_wf s → switcher_wf (settle s).
Proof.
  intros Hwf. pose proof (wf_route _ Hwf) as Hr. destruct Hwf. split; simpl; try done.
  - by destruct (transition s).
  - by destruct (transition s).
  - destruct (transition s), (t_bar s); try done. simpl in *.
    destruct Hr as (?&?&?&?&?). by split_and!.
  - by rewrite length_fmap.
  - apply Forall_fmap. eapply Forall_impl; [done|]. intros o. apply settle_overlay_wf.
Qed.
Lemma settle_idem s : settle (settle s) = settle s.
Proof.
  destruct s as [i v p tr tb f os ss st ru re]. unfold settle. simpl. f_equal.
  - by destruct tb.
  - rewrite <-list_fmap_compose. apply list_fmap_ext. intros _ o _. simpl.
    unfold settle_overlay. by destruct (Overlay.automatic o) eqn:Ha; simpl; rewrite ?Ha.
Qed.

Lemma settle_advance_overlays chs l l' ev :
  advance_overlays chs l = Some (l', ev) → settle_overlay <$> l' = settle_overlay <$> l.
Proof.
  revert chs l' ev. induction l as [|o l IH]; intros [|ch chs] l' ev; simpl;
    try by intros [= <- _].
  destruct (Overlay.overlay_advance o) as [[o' a]|] eqn:Ho; [|done]. simpl.
  destruct (advance_overlays chs l) as [[l1 rest]|] eqn:Hl; [|done]. simpl. intros [= <- _].
  rewrite !fmap_cons. f_equal; [by eapply settle_advance|by eapply IH].
Qed.
Lemma settle_ftb_advance c :
  FadeToBlack.ftb_wf c →
  FadeToBlack.target (FadeToBlack.advance (E := Empty_set) c).1 = FadeToBlack.target c.
Proof.
  intros Hwf. pose proof (FadeToBlack.ftb_advance_spec (E := Empty_set) _ Hwf) as Ha.
  destruct (FadeToBlack.automatic c); [|by rewrite Ha].
  destruct Ha as (c'&ch&_&Ht&_&_&Ha). case_decide; destruct Ha as [-> _]; done.
Qed.
(** A frame does not change where the switcher is heading. *)
Lemma settle_frame_eq s s' l :
  switcher_wf s → advance_frame_events s = (s', Ret l) → settle s' = settle s.
Proof.
  intros Hwf Hf.
  destruct (advance_frame_spec s Hwf) as (s1&l1&Hs&_&I&S&T&R&D&P&B&F&_).
  rewrite Hf in Hs. injection Hs as <- <-. apply pair_equal_spec in F as [F O].
  assert (HF : settle_fade (fade_to_black s') = settle_fade (fade_to_black s)).
  { unfold settle_fade. f_equal. rewrite F. apply settle_ftb_advance, Hwf. }
  assert (HO : settle_overlay <$> overlays s' = settle_overlay <$> overlays s).
  { destruct (advance_overlays Overlay.channel_ALL (overlays s)) as [[os ev]|] eqn:Ha; [|done].
    simpl in O. injection O as ->. by eapply settle_advance_overlays. }
  assert (HB : settle_t_bar <$> t_bar s' = settle_t_bar <$> t_bar s).
  { rewrite B. by destruct (t_bar s). }
  pose proof (wf_route _ Hwf) as Hr. unfold route_next in P. unfold settle.
  rewrite HF, HO, HB, I, S, T, R, D. clear -P.
  destruct (transition s) as [t|]; [case_decide|]; simpl in P;
    by injection P as -> -> ->.
Qed.

(** ** How long it takes *)

Definition transition_left (s : SwitcherState) : Z :=
  match transition s with
  | Some t => tr_duration_frames t - tr_elapsed_frames t
  | None => 0
  end.
Definition fade_left (c : FadeToBlack.FadeToBlackController) : Z :=
  match FadeToBlack.automatic c with
  | Some a => FadeToBlack.duration_frames a - FadeToBlack.elapsed_frames a
  | None => 0
  end.
Definition overlay_left (o : Overlay.OverlayChannelState) : Z :=
  match Overlay.automatic o with
  | Some a => Overlay.auto_duration a - Overlay.auto_elapsed a
  | None => 0
  end.
Definition overlays_left (l : list Overlay.OverlayChannelState) : Z :=
  foldr (λ o n, Z.max (overlay_left o) n) 0 l.
(** The frames until every animation is over. *)
Definition frames_left (s : SwitcherState) : Z :=
  Z.max (transition_left s) (Z.max (fade_left (fade_to_black s)) (overlays_left (overlays s))).

(** One frame less, if there is one. *)
Definition one_less (n : Z) : Z := Z.max 0 (n - 1).

Section left.
Implicit Types s : SwitcherState.

Lemma transition_left_nonneg s : switcher_wf s → 0 ≤ transition_left s.
Proof.
  intros Hwf. pose proof (wf_route _ Hwf) as Hr. unfold transition_left.
  destruct (transition s), (t_bar s); try done. destruct Hr as (_&_&?&_). lia.
Qed.
Lemma fade_left_nonneg c : FadeToBlack.ftb_wf c → 0 ≤ fade_left c.
Proof.
  unfold FadeToBlack.ftb_wf, fade_left. destruct (FadeToBlack.automatic c); [|done].
  intros ([]&_). lia.
Qed.
Lemma overlays_left_nonneg l : 0 ≤ overlays_left l.
Proof. induction l; simpl; lia. Qed.
Lemma frames_left_nonneg s : switcher_wf s → 0 ≤ frames_left s.
Proof.
  intros Hwf. unfold frames_left.
  pose proof (transition_left_nonneg s Hwf). pose proof (overlays_left_nonneg (overlays s)). lia.
Qed.

Lemma overlay_left_advance l o o' a :
  Overlay.overlay_wf l o → Overlay.overlay_advance o = Some (o', a) →
  overlay_left o' = one_less (overlay_left o).
Proof.
  intros Hwf Ho. pose proof (Overlay.overlay_advance_spec l o Hwf) as Ha.
  pose proof (Overlay.ow_motion _ _ Hwf) as Hm. unfold Overlay.motion_ok in Hm.
  unfold overlay_left, one_less.
  destruct (Overlay.automatic o) as [au|] eqn:Hau.
  - destruct Hm as ([_ _ ? _]&_). destruct Ha as (o1&ch&_&_&_&_&_&Ha).
    case_decide; destruct Ha as (Heq&_&Hau'); rewrite Ho in Heq; injection Heq as -> _;
      rewrite Hau'; simpl; lia.
  - rewrite Ho in Ha. injection Ha as -> _. by rewrite Hau.
Qed.
Lemma overlays_left_advance l chs os os' ev :
  (length os ≤ length chs)%nat → Forall (Overlay.overlay_wf l) os →
  advance_overlays chs os = Some (os', ev) → overlays_left os' = one_less (overlays_left os).
Proof.
  revert chs os' ev. induction os as [|o os IH]; intros [|ch chs] os' ev; simpl;
    try by (intros; lia || (simplify_eq; done)).
  intros Hlen Hwf. apply Forall_cons in Hwf as [Ho Hwf].
  destruct (Overlay.overlay_advance o) as [[o' a]|] eqn:Hadv; [|done]. simpl.
  destruct (advance_overlays chs os) as [[l1 rest]|] eqn:Hl; [|done]. simpl. intros [= <- _].
  simpl. rewrite (IH chs l1 rest) by (done || lia).
  rewrite (overlay_left_advance l o o' a) by done. unfold one_less. lia.
Qed.
Lemma fade_left_advance c :
  FadeToBlack.ftb_wf c →
  fade_left (FadeToBlack.advance (E := Empty_set) c).1 = one_less (fade_left c).
Proof.
  intros Hwf. pose proof (FadeToBlack.ftb_advance_spec (E := Empty_set) _ Hwf) as Ha.
  unfold FadeToBlack.ftb_wf in Hwf. unfold fade_left, one_less.
  destruct (FadeToBlack.automatic c) as [a|] eqn:Hau; [|by rewrite Ha; simpl; rewrite Hau].
  destruct Hwf as ([_ ? _ _]&_). destruct Ha as (c'&ch&_&_&_&_&Ha).
  case_decide; destruct Ha as [-> Ha]; simpl; [subst c'; simpl; lia|rewrite Ha; simpl; lia].
Qed.
Lemma frames_left_frame s s' l :
  switcher_wf s → advance_frame_events s = (s', Ret l) → frames_left s' = one_less (frames_left s).
Proof.
  intros Hwf Hf.
  destruct (advance_frame_spec s Hwf) as (s1&l1&Hs&_&_&_&_&_&_&P&_&F&_).
  rewrite Hf in Hs. injection Hs as <- <-. apply pair_equal_spec in F as [F O].
  assert (HF : fade_left (fade_to_black s') = one_less (fade_left (fade_to_black s))).
  { rewrite F. apply fade_left_advance, Hwf. }
  assert (HO : overlays_left (overlays s') = one_less (overlays_left (overlays s))).
  { destruct (advance_overlays Overlay.channel_ALL (overlays s)) as [[os ev]|] eqn:Ha; [|done].
    simpl in O. injection O as ->. eapply overlays_left_advance; [|apply (wf_overlay _ Hwf)|done].
    by rewrite (wf_overlays _ Hwf). }
  assert (HT : transition_left s' = one_less (transition_left s)).
  { pose proof (wf_route _ Hwf) as Hr. unfold transition_left, one_less.
    unfold route_next in P. destruct (transition s) as [t|]; [|by injection P as _ _ ->].
    destruct (t_bar s); [done|]. destruct Hr as (_&_&?&_).
    case_decide; injection P as _ _ ->; simpl; lia. }
  unfold frames_left. rewrite HF, HO, HT. unfold one_less. lia.
Qed.
(** At rest nothing is left to settle, but for the interval of a T-bar. *)
Lemma settle_at_rest s :
  switcher_wf s → frames_left s = 0 → settle s = set_t_bar (settle_t_bar <$> t_bar s) s.
Proof.
  intros Hwf Hz. unfold frames_left in Hz.
  pose proof (transition_left_nonneg s Hwf). pose proof (fade_left_nonneg _ (wf_ftb _ Hwf)).
  pose proof (overlays_left_nonneg (overlays s)).
  assert (Ht : transition s = None).
  { pose proof (wf_route _ Hwf) as Hr. assert (Hl : transition_left s = 0) by lia.
    unfold transition_left in Hl. destruct (transition s), (t_bar s); try done.
    destruct Hr as (_&_&?&_). lia. }
  assert (Hf : settle_fade (fade_to_black s) = fade_to_black s).
  { pose proof (wf_ftb _ Hwf) as Hw. assert (Hl : fade_left (fade_to_black s) = 0) by lia.
    unfold fade_left, FadeToBlack.ftb_wf, settle_fade, FadeToBlack.settled in *.
    destruct (fade_to_black s) as [p t [a|]]; simpl in *; [|congruence].
    destruct Hw as ([]&_). lia. }
  assert (Ho : settle_overlay <$> overlays s = overlays s).
  { pose proof (wf_overlay _ Hwf) as Hw. assert (Hl : overlays_left (overlays s) = 0) by lia.
    revert Hw Hl. generalize (overlays s) as os. induction os as [|o os IH]; intros Hw Hl; [done|].
    apply Forall_cons in Hw as [Hwo Hw]. simpl in Hl.
    pose proof (overlays_left_nonneg os).
    rewrite fmap_cons, IH by (done || lia). f_equal. apply settle_overlay_rest.
    pose proof (Overlay.ow_motion _ _ Hwo) as Hm. unfold Overlay.motion_ok in Hm.
    assert (Hlo : overlay_left o ≤ 0) by lia. unfold overlay_left in Hlo.
    destruct (Overlay.automatic o); [|done]. destruct Hm as ([]&_). lia. }
  unfold settle. rewrite Ht, Hf, Ho. unfold set_t_bar, set_route. simpl. by rewrite Ht.
Qed.
End left.

(** Frames keep the destination and reach it. *)
Lemma run_frames_settle n s :
  switcher_wf s →
  ∃ s' l, run_frames n s = Some (s', l) ∧ switcher_wf s' ∧ settle s' = settle s ∧
    frames_left s' = Z.max 0 (frames_left s - Z.of_nat n).
Proof.
  revert s. induction n as [|n IH]; intros s Hwf; cbn [run_frames].
  { eexists _, _. split; [done|]. split_and!; try done.
    pose proof (frames_left_nonneg s Hwf). lia. }
  destruct (advance_frame_spec s Hwf) as (s1&l1&Hs&Hwf1&_). rewrite Hs.
  destruct (IH s1 Hwf1) as (s'&l&->&?&Hset&Hleft).
  eexists _, _. split; [reflexivity|]. split_and!; [done|..].
  - rewrite Hset. by eapply settle_frame_eq.
  - rewrite Hleft, (frames_left_frame _ _ _ Hwf Hs). unfold one_less. lia.
Qed.

(** ** Simulation

    The method [md] of the settled switcher is followed by the method [mr] of
    the switcher itself: when [md] succeeds, so does [mr], and afterwards the
    one still is the other, settled. *)
Definition sim {Ed Er A B} (md : stm SwitcherState Ed A) (mr : stm SwitcherState Er B)
    (Q : A → B → SwitcherState → Prop) (r : SwitcherState) : Prop :=
  match md (settle r) with
  | (d, Ret a) => ∃ r' b, mr r = (r', Ret b) ∧ d = settle r' ∧ Q a b r'
  | _ => True
  end.

Section sim.
Context {Ed Er : Type}.
Implicit Types r : SwitcherState.

Lemma sim_mono {A B} (md : stm _ Ed A) (mr : stm _ Er B) (Q Q' : A → B → _ → Prop) r :
  sim md mr Q r → (∀ a b r', Q a b r' → Q' a b r') → sim md mr Q' r.
Proof.
  unfold sim. destruct (md (settle r)) as [d [a|e|]]; [|done..].
  intros (r'&b&?&?&?) ?. eauto 10.
Qed.
Lemma sim_ret {A B} (a : A) (b : B) Q r : Q a b r → sim (Ed := Ed) (Er := Er) (mret a) (mret b) Q r.
Proof. intros. unfold sim. simpl. eauto. Qed.
Lemma sim_bind {A B A' B'} (m1 : stm _ Ed A) (f : A → stm _ Ed A') (m2 : stm _ Er B)
    (g : B → stm _ Er B') Q r :
  sim m1 m2 (λ a b r', sim (f a) (g b) Q r') r → sim (m1 ≫= f) (m2 ≫= g) Q r.
Proof.
  unfold sim, mbind, stm_bind. destruct (m1 (settle r)) as [d [a|e|]]; [|done..].
  intros (r'&b&->&->&H). done.
Qed.
Lemma sim_get Q r : Q (settle r) r r → sim (Ed := Ed) (Er := Er) st_get st_get Q r.
Proof. intros. unfold sim. simpl. eauto. Qed.
Lemma sim_put d r' Q r :
  d = settle r' → Q tt tt r' → sim (Ed := Ed) (Er := Er) (st_put d) (st_put r') Q r.
Proof. intros. unfold sim. simpl. eauto. Qed.
Lemma sim_modify (f g : SwitcherState → SwitcherState) Q r :
  f (settle r) = settle (g r) → Q tt tt (g r) →
  sim (Ed := Ed) (Er := Er) (st_modify f) (st_modify g) Q r.
Proof. intros. unfold sim. simpl. eauto. Qed.
Lemma sim_throw {A B} (e : Ed) (mr : stm _ Er B) (Q : A → B → _ → Prop) r :
  sim (mthrow e) mr Q r.
Proof. done. Qed.
Lemma sim_panic {A B} (mr : stm _ Er B) (Q : A → B → _ → Prop) r :
  sim (Ed := Ed) st_panic mr Q r.
Proof. done. Qed.
Lemma sim_require (P P' : Prop) `{!Decision P, !Decision P'} (e : Ed) (e' : Er) Q r :
  (P → P') → (P → Q tt tt r) → sim (st_require P e) (st_require P' e') Q r.
Proof.
  intros Hp HQ. unfold sim, st_require. destruct (decide P) as [HP|]; [|done].
  rewrite decide_True by auto. exists r, tt. auto.
Qed.
Lemma sim_lift {A B} (x : result Ed A) (y : result Er B) (Q : A → B → _ → Prop) r :
  (∀ a, x = Ok a → ∃ b, y = Ok b ∧ Q a b r) → sim (st_lift x) (st_lift y) Q r.
Proof.
  intros H. unfold sim, st_lift. destruct x as [a|e]; [|done].
  destruct (H a eq_refl) as (b&->&?). eauto.
Qed.
Lemma sim_expect {A B} (x : option A) (y : option B) (Q : A → B → _ → Prop) r :
  (∀ a, x = Some a → ∃ b, y = Some b ∧ Q a b r) →
  sim (Ed := Ed) (Er := Er) (st_expect x) (st_expect y) Q r.
Proof.
  intros H. unfold sim, st_expect. destruct x as [a|]; [|done].
  destruct (H a eq_refl) as (b&->&?). eauto.
Qed.
Lemma sim_require_left (P : Prop) `{!Decision P} (e : Ed) {A B} (f : unit → stm _ Ed A)
    (mr : stm _ Er B) Q r :
  (P → sim (f tt) mr Q r) → sim (st_require P e ≫= f) mr Q r.
Proof. intros H. unfold sim, mbind, stm_bind, st_require. case_decide; [|done]. by apply H. Qed.

(** The parts of a switcher. *)
Lemma sim_overlay ch Q r :
  (∀ o, overlays r !! Z.to_nat (ch - 1) = Some o → Q (settle_overlay o) o r) →
  sim (Ed := Ed) (Er := Er) (overlay ch) (overlay ch) Q r.
Proof.
  intros H. unfold overlay. apply sim_bind, sim_get. cbn beta iota.
  apply sim_bind, sim_expect. intros i Hi. exists i. split; [done|].
  unfold Overlay.channel_index, checked in Hi. case_decide; simplify_eq/=.
  apply sim_expect. intros a Ha. simpl in Ha. rewrite list_lookup_fmap in Ha.
  apply fmap_Some in Ha as (o&Ho&->). eauto.
Qed.
Lemma sim_put_overlay ch o' o Q r :
  o' = settle_overlay o → Q tt tt (set_overlays (<[Z.to_nat (ch - 1) := o]> (overlays r)) r) →
  sim (Ed := Ed) (Er := Er) (put_overlay ch o') (put_overlay ch o) Q r.
Proof.
  intros -> H. unfold put_overlay. apply sim_bind, sim_expect. intros i Hi. exists i.
  split; [done|]. unfold Overlay.channel_index, checked in Hi. case_decide; simplify_eq/=.
  apply sim_modify; [|done]. unfold settle, set_overlays. simpl. by rewrite list_fmap_insert.
Qed.
Lemma sim_stinger n Q r :
  (∀ o, stingers r !! Z.to_nat (n - 1) = Some o → Q o o r) →
  sim (Ed := Ed) (Er := Er) (stinger n) (stinger n) Q r.
Proof.
  intros H. unfold stinger. apply sim_bind, sim_get. cbn beta iota.
  apply sim_bind, sim_expect. intros i Hi. exists i. split; [done|].
  unfold slot_index, checked in Hi. case_decide; simplify_eq/=.
  apply sim_expect. intros a Ha. eauto.
Qed.
Lemma sim_put_stinger n o Q r :
  Q tt tt (set_stingers (<[Z.to_nat (n - 1) := o]> (stingers r)) r) →
  sim (Ed := Ed) (Er := Er) (put_stinger n o) (put_stinger n o) Q r.
Proof.
  intros H. unfold put_stinger. apply sim_bind, sim_expect. intros i Hi. exists i.
  split; [done|]. unfold slot_index, checked in Hi. case_decide; simplify_eq/=.
  by apply sim_modify.
Qed.
End sim.

Lemma sim_require_input i Q r :
  Q tt tt r → sim (require_input i) (require_input i) Q r.
Proof.
  intros. unfold require_input. apply sim_bind, sim_get. by apply sim_require.
Qed.
(** A settled switcher is idle when no T-bar is held; the other may still be in
    a transition. *)
Lemma sim_require_idle Q r :
  transition r = None → (t_bar r = None → Q tt tt r) →
  sim require_idle require_idle Q r.
Proof.
  intros Ht H. unfold require_idle. apply sim_bind, sim_get. cbn beta iota.
  apply sim_require.
  - intros [_ Hb]. simpl in Hb. split; [done|]. by destruct (t_bar r).
  - intros [_ Hb]. simpl in Hb. apply H. by destruct (t_bar r).
Qed.

Ltac sim_step :=
  lazymatch goal with
  | |- sim (mbind _ _) (mbind _ _) _ _ => apply sim_bind
  | |- sim (mret _) (mret _) _ _ => apply sim_ret
  | |- sim (mthrow _) _ _ _ => apply sim_throw
  | |- sim st_panic _ _ _ => apply sim_panic
  | |- sim st_get st_get _ _ => apply sim_get
  | |- sim (overlay _) (overlay _) _ _ => apply sim_overlay; intros ? ?
  | |- sim (put_overlay _ _) (put_overlay _ _) _ _ => apply sim_put_overlay
  | |- sim (stinger _) (stinger _) _ _ => apply sim_stinger; intros ? ?
  | |- sim (put_stinger _ _) (put_stinger _ _) _ _ => apply sim_put_stinger
  | |- sim (require_input _) (require_input _) _ _ => apply sim_require_input
  end.
Ltac sim_run := repeat (sim_step; cbn beta iota).

(** ** Methods *)

(** The transition that is running is left alone. *)
Definition undisturbed {A B} (r : SwitcherState) (_ : A) (_ : B) (r' : SwitcherState) : Prop :=
  transition r' = transition r.

Section methods.
Implicit Types r : SwitcherState.

Lemma sim_with_source ch src f g ev ev' r :
  (∀ o, settle_overlay (g o) = f (settle_overlay o)) →
  sim (with_source ch src f ev) (with_source ch src g ev') (undisturbed r) r.
Proof. intros Hfg. unfold with_source. sim_run; by rewrite ?Hfg. Qed.
Lemma sim_overlay_off ch r :
  sim (overlay_off ch) (request_overlay_off ch) (undisturbed r) r.
Proof. unfold overlay_off, request_overlay_off. sim_run; by rewrite ?settle_request_off. Qed.
Lemma sim_configure_overlay_transition ch k d r :
  sim (configure_overlay_transition ch k d) (configure_overlay_transition ch k d)
    (undisturbed r) r.
Proof.
  unfold configure_overlay_transition. apply sim_bind, sim_require; [done|]. intros _.
  cbn beta iota. sim_run; by rewrite ?settle_configure_transition.
Qed.
Lemma sim_configure_overlay_appearance ch p b r :
  sim (configure_overlay_appearance ch p b) (configure_overlay_appearance ch p b)
    (undisturbed r) r.
Proof.
  unfold configure_overlay_appearance. sim_run; by rewrite ?settle_configure_appearance.
Qed.
Lemma sim_set_overlay_output_inclusion ch out b r :
  sim (set_overlay_output_inclusion ch out b) (set_overlay_output_inclusion ch out b)
    (undisturbed r) r.
Proof.
  unfold set_overlay_output_inclusion. sim_run; by rewrite ?settle_set_output_inclusion.
Qed.
Lemma sim_queue_overlay ch src r :
  sim (queue_overlay ch src) (queue_overlay ch src) (undisturbed r) r.
Proof.
  unfold queue_overlay. apply sim_bind, sim_require_input. cbn beta iota.
  apply sim_bind, sim_overlay. intros o Ho. cbn beta iota. rewrite settle_enqueue.
  destruct (Overlay.enqueue src o) as [o' queued]. simpl. sim_run; [done|].
  apply sim_require; [done|]. intros _. sim_run. done.
Qed.
Lemma sim_take_next_overlay ch r :
  sim (take_next_overlay ch) (request_overlay_take_next ch) (undisturbed r) r.
Proof.
  unfold take_next_overlay, request_overlay_take_next, advance_queue.
  apply sim_bind, sim_overlay. intros o Ho. cbn beta iota. rewrite settle_request_take_next.
  destruct (Overlay.request_take_next o) as [o' popped]. simpl. sim_run; [done|].
  apply sim_lift. intros src ->. exists src. split; [done|]. sim_run. done.
Qed.

Lemma sim_set_stream_running t b r :
  sim (set_stream_running t b) (set_stream_running t b) (undisturbed r) r.
Proof.
  unfold set_stream_running. sim_run. apply sim_require; [done|]. intros _. sim_run.
  destruct b; (apply sim_modify; [done|]); sim_run; done.
Qed.
Lemma sim_set_recording_desired b r :
  sim (set_recording_desired b) (set_recording_desired b) (undisturbed r) r.
Proof.
  unfold set_recording_desired. sim_run. simpl. case_decide; sim_run; [done|].
  apply sim_modify; [done|]. by sim_run.
Qed.

Lemma sim_configure_stinger n d r :
  sim (configure_stinger n d) (configure_stinger n d) (undisturbed r) r.
Proof. unfold configure_stinger. by sim_run. Qed.
Lemma sim_remove_stinger n r :
  sim (remove_stinger n) (remove_stinger n) (undisturbed r) r.
Proof. unfold remove_stinger. by sim_run. Qed.
Lemma sim_preload_stinger n b r :
  sim (preload_stinger n b) (preload_stinger n b) (undisturbed r) r.
Proof.
  unfold preload_stinger. sim_run. apply sim_require; [done|]. intros _. by sim_run.
Qed.
Lemma sim_reorder_inputs l r :
  sim (reorder_inputs l) (reorder_inputs l) (undisturbed r) r.
Proof.
  unfold reorder_inputs. sim_run. apply sim_lift. intros [] ?. exists tt. split; [done|].
  by apply sim_put.
Qed.

(** Fade-to-Black: the settled switcher jumps to the target the other fades to. *)
Lemma request_fade_settle b d r :
  1 ≤ d ≤ FadeToBlack.MAX_FADE_TO_BLACK_DURATION_FRAMES →
  ∃ r' l, request_fade_to_black b d r = (r', Ret l) ∧
    restore_settled_fade_to_black b (settle r) = settle r' ∧ transition r' = transition r.
Proof.
  intros Hd. unfold request_fade_to_black, FadeToBlack.request, FadeToBlack.validate_duration.
  unfold mbind, stm_bind, st_zoom, st_lift, st_get, st_put.
  rewrite !decide_False by lia. simpl.
  repeat (case_decide; simpl); eexists _, _; (split; [reflexivity|]); split; try done.
  all: unfold restore_settled_fade_to_black, settle, set_ftb, settle_fade; simpl; congruence.
Qed.

(** The commands that need an idle switcher. *)
Lemma sim_select_preview i r :
  transition r = None →
  sim (apply (SwitcherCommand.SelectPreview i)) (apply (SwitcherCommand.SelectPreview i))
    (undisturbed r) r.
Proof.
  intros Ht. simpl. apply sim_bind, sim_require_idle; [done|]. intros Hb. sim_run.
  apply sim_modify.
  - unfold settle, set_preview, set_route. simpl. by rewrite Ht.
  - by sim_run.
Qed.
Lemma sim_complete_take {Ed Er} k r :
  transition r = None →
  sim (Ed := Ed) (Er := Er) (complete_take k) (complete_take k) (undisturbed r) r.
Proof.
  intros Ht. unfold complete_take. sim_run. apply sim_put.
  - unfold settle, set_route. simpl. by rewrite Ht.
  - by sim_run.
Qed.
Lemma sim_cut r :
  transition r = None →
  sim (apply SwitcherCommand.Cut) (apply SwitcherCommand.Cut) (undisturbed r) r.
Proof.
  intros Ht. simpl. apply sim_bind, sim_require_idle; [done|]. intros _.
  apply sim_bind. eapply sim_mono; [by apply sim_complete_take|]. intros ????. by apply sim_ret.
Qed.
Lemma sim_start_t_bar k r :
  transition r = None → sim (start_t_bar k) (start_t_bar k) (undisturbed r) r.
Proof.
  intros Ht. unfold start_t_bar. apply sim_bind, sim_require_idle; [done|]. intros _.
  cbn beta iota. apply sim_bind, sim_require; [done|]. intros _. sim_run. apply sim_put.
  - unfold settle, set_t_bar, set_route. simpl. by rewrite Ht.
  - by sim_run.
Qed.
Lemma sim_set_t_bar_position p r :
  transition r = None → sim (set_t_bar_position p) (set_t_bar_position p) (undisturbed r) r.
Proof.
  intros Ht. unfold set_t_bar_position. sim_run. apply sim_lift. simpl.
  destruct (t_bar r) as [t|] eqn:Hb; simpl; [|done]. intros t' [= <-].
  exists t. split; [done|]. sim_run. apply sim_put.
  - unfold settle, set_t_bar, set_route. simpl. by rewrite Ht.
  - by sim_run.
Qed.
Lemma sim_take_t_bar r (Q : TBarState → TBarState → SwitcherState → Prop) :
  transition r = None →
  (∀ t, t_bar r = Some t → Q (settle_t_bar t) t (set_t_bar None r)) →
  sim take_t_bar take_t_bar Q r.
Proof.
  intros Ht HQ. unfold take_t_bar. sim_run. apply sim_put.
  { unfold settle, set_t_bar, set_route. simpl. by rewrite Ht. }
  apply sim_lift. simpl. intros t'. destruct (t_bar r) as [t|]; [|done].
  intros [= <-]. eauto.
Qed.
Lemma sim_commit_t_bar r :
  transition r = None → sim commit_t_bar commit_t_bar (undisturbed r) r.
Proof.
  intros Ht. unfold commit_t_bar. apply sim_bind, sim_take_t_bar; [done|]. intros t Hb.
  cbn beta iota. apply sim_bind.
  eapply sim_mono; [by apply sim_complete_take|]. intros a b r' Hr. by sim_run.
Qed.
Lemma sim_cancel_t_bar r :
  transition r = None → sim cancel_t_bar cancel_t_bar (undisturbed r) r.
Proof.
  intros Ht. unfold cancel_t_bar. apply sim_bind, sim_take_t_bar; [done|]. intros t Hb.
  by sim_run.
Qed.

(** An automatic transition is heading where a cut is. *)
Definition started (k : TransitionKind) (d : Z) {A B} (r : SwitcherState) (_ : A) (_ : B)
    (r' : SwitcherState) : Prop :=
  transition r' = Some (transition_new k (program r) (preview r) d).
Lemma sim_cut_by {Er B} (mr : stm SwitcherState Er B) (Q : SwitcherState → Prop) r :
  transition r = None →
  (t_bar r = None → ∃ r' l, mr r = (r', Ret l) ∧
    settle r' = set_route (preview r) (program r) None None (settle r) ∧ Q r') →
  sim (apply SwitcherCommand.Cut) mr (λ _ _, Q) r.
Proof.
  intros Ht H. unfold sim. cbv [apply require_idle mbind stm_bind st_get st_require].
  case_decide as Hidle; [|done]. destruct Hidle as [_ Hb]. simpl in Hb.
  destruct (t_bar r) eqn:Hbr; [done|]. destruct (H eq_refl) as (r'&l&->&Hs&?).
  simpl. rewrite Ht, Hbr. eauto 10.
Qed.
(** A method that needs an idle switcher, on an idle one. *)
Lemma transition_idle k d r :
  transition r = None → t_bar r = None → d ≠ 0 →
  apply (SwitcherCommand.Transition k d) r = start_transition k d r.
Proof. intros. cbv [apply require_idle mbind stm_bind st_get st_require]. by rewrite !decide_True. Qed.
Lemma settle_started k d r :
  transition r = None → t_bar r = None →
  settle (set_transition (Some (transition_new k (program r) (preview r) d)) r) =
  set_route (preview r) (program r) None None (settle r).
Proof. intros Ht Hb. unfold settle. simpl. by rewrite Ht, Hb. Qed.
Lemma sim_transition k d r :
  transition r = None → d ≠ 0 → match k with Stinger _ => False | _ => True end →
  sim (apply SwitcherCommand.Cut) (apply (SwitcherCommand.Transition k d)) (started k d r) r.
Proof.
  intros Ht Hd Hk. apply sim_cut_by; [done|]. intros Hb. rewrite transition_idle by done.
  eexists _, _. split; [by destruct k|]. split; [|done]. by apply settle_started.
Qed.

(** What a configured stinger does in its turn. *)
Lemma stinger_transition n d o de i r :
  slot_index n = Some i → stingers r !! i = Some o → descriptor o = Some de → d ≠ 0 →
  transition r = None → t_bar r = None →
  apply (SwitcherCommand.Transition (Stinger n) d) r =
  if decide (preload_state o = Ready) then
    (_ ← st_require (¬ d < cut_point_frames de)
           (StingerCutPointOutOfRange n (cut_point_frames de) d);
     begin_transition (Stinger n) d) r
  else apply_stinger_fallback (start_transition_fuel 1) n (missing_media_fallback de) d r.
Proof.
  intros Hi Ho Hde Hd Ht Hb. rewrite transition_idle by done.
  unfold start_transition. cbn [start_transition_fuel].
  cbv [stinger_playback_decision stinger mbind stm_bind st_get st_expect mret stm_ret].
  rewrite Hi, Ho, Hde. case_decide; [|done]. by rewrite ?Ho, ?Hde.
Qed.
Lemma sim_stinger_transition n d o de i r :
  slot_index n = Some i → stingers r !! i = Some o → descriptor o = Some de → d ≠ 0 →
  transition r = None →
  let follows Q := sim (apply SwitcherCommand.Cut)
                     (apply (SwitcherCommand.Transition (Stinger n) d)) Q r in
  if decide (preload_state o = Ready) then
    ¬ d < cut_point_frames de → follows (started (Stinger n) d r)
  else match missing_media_fallback de with
  | FallbackCut => follows (undisturbed r)
  | FallbackFade => follows (started Fade d r)
  | KeepProgram =>
      t_bar r = None → ∃ l, apply (SwitcherCommand.Transition (Stinger n) d) r = (r, Ret l)
  end.
Proof.
  intros Hi Ho Hde Hd Ht follows.
  pose proof (λ Hb, stinger_transition n d o de i r Hi Ho Hde Hd Ht Hb) as Hrun.
  case_decide as Hr.
  - intros Hcp. apply sim_cut_by; [done|]. intros Hb. rewrite Hrun by done.
    eexists _, _. split; [|split; [by apply settle_started|]]; [|done].
    cbv [st_require mbind stm_bind]. by rewrite decide_True.
  - destruct (missing_media_fallback de).
    + apply sim_cut_by; [done|]. intros Hb. rewrite Hrun by done.
      eexists _, _. split; [reflexivity|]. split; [|done]. unfold settle, set_route. simpl.
      by rewrite Ht, Hb.
    + apply sim_cut_by; [done|]. intros Hb. rewrite Hrun by done.
      eexists _, _. split; [reflexivity|]. split; [by apply settle_started|done].
    + intros Hb. rewrite Hrun by done. by eexists.
Qed.
End methods.
