(* ===== verification/EngineShow.v ===== *)
(** The durable show of the engine, [crates/services/fm-engine/src/state.rs]: its
    inputs and their names and audio strips, its outputs, and the desired state
    of the switcher; and how errors are shown in the messages of rejections.

    [ShowState] maps to the record of the same name; [desired_switcher] is a
    [Switcher.SwitcherState]. *)
From stdpp Require Import pretty.
From S2P Require Import Prelude Text BTree Types Overlay SwitcherTypes.
From S2P Require Switcher.
#[local] Open Scope Z_scope.

(** ** Messages: [Display] *)

Class Display (A : Type) := to_string : A → string.
#[global] Instance Z_display : Display Z := pretty.
#[global] Instance nat_display : Display nat := λ n, pretty (Z.of_nat n).

#[global] Instance RenameInputError_display : Display RenameInputError := λ e,
  (match e with
   | RenameUnknownInput input => "input " +:+ to_string input +:+ " does not exist"
   | EmptyName => "input name must not be empty"
   | NameTooLong => "input name must not exceed " +:+ to_string MAX_INPUT_NAME_BYTES +:+ " bytes"
   | DuplicateName => "input name is already in use"
   end)%string.
#[global] Instance InputOrderError_display : Display InputOrderError := λ e,
  (match e with
   | EmptyOrder => "input order must not be empty"
   | WrongLength expected actual =>
       "input order must contain " +:+ to_string expected +:+ " inputs, got " +:+ to_string actual
   | OrderUnknownInput input => "input " +:+ to_string input +:+ " does not exist"
   | DuplicateInput input => "input " +:+ to_string input +:+ " occurs more than once"
   end)%string.
#[global] Instance SwitcherError_display : Display SwitcherError := λ e,
  (match e with
   | UnknownInput id => "input " +:+ to_string id +:+ " is not part of this mix"
   | TransitionInProgress => "a transition is already in progress"
   | UnsupportedManualTransitionKind =>
       "manual transitions support only Fade, Wipe, AlphaFade, and Slide"
   | InvalidManualTransitionRoute =>
       "manual transition endpoints must match Program and Preview"
   | ZeroDuration => "transition duration must be nonzero"
   | InvalidOverlayTransitionDuration d maximum =>
       "overlay transition duration " +:+ to_string d +:+ " is outside 1..=" +:+ to_string maximum
   | OverlayQueueFull channel maximum =>
       "overlay channel " +:+ to_string channel +:+ " queue is full (maximum " +:+
       to_string maximum +:+ ")"
   | OverlayQueueEmpty channel => "overlay channel " +:+ to_string channel +:+ " queue is empty"
   | UnconfiguredStinger slot => "stinger slot " +:+ to_string slot +:+ " is not configured"
   | StingerCutPointOutOfRange slot cut d =>
       "stinger slot " +:+ to_string slot +:+ " cut point " +:+ to_string cut +:+
       " exceeds duration " +:+ to_string d
   | UnknownStreamTarget target =>
       "stream target " +:+ to_string target +:+ " is not part of this mix"
   | DuplicateStreamTarget target =>
       "stream target " +:+ to_string target +:+ " occurs more than once"
   | InvalidStreamName => "stream name must be nonblank and within the byte limit"
   | TooManyStreams requested maximum =>
       "stream inventory requests " +:+ to_string requested +:+ " targets; maximum is " +:+
       to_string maximum
   end)%string.

(** ** Shows *)

Record EngineInputAudioStripState := mk_strip {
  gain_millidb : Z;
  balance_basis_points : Z;
  muted : bool;
  soloed : bool;
  follow_video : bool;
  delay_samples : Z
}.
#[global] Instance EngineInputAudioStripState_eq_dec : EqDecision EngineInputAudioStripState.
Proof. solve_decision. Defined.
Definition strip_default : EngineInputAudioStripState := mk_strip 0 0 false false true 0.

Inductive ShowError :=
  | ShowEmptyName
  | EmptyInputName
  | InputNameTooLong
  | DuplicateInputName
  | NoInputs
  | ShowDuplicateInput
  | EmptyOutputName
  | DuplicateOutputName
  | DuplicateOutput (id : OutputId)
  | ShowUnknownInput (id : InputId)
  | ShowSwitcher (e : SwitcherError).

Record ShowState := mk_show {
  show_name : string;
  show_inputs : list InputId;
  input_names : list string;
  outputs : list (OutputId * string);
  input_audio_strips : btmap InputId EngineInputAudioStripState;
  desired_switcher : Switcher.SwitcherState
}.
Definition set_desired (s : Switcher.SwitcherState) (self : ShowState) : ShowState :=
  mk_show (show_name self) (show_inputs self) (input_names self) (outputs self)
    (input_audio_strips self) s.

(** [HashSet::len] of a collection. *)
Definition distinct {A} `{Countable A} (l : list A) : nat := size (list_to_set l : gset A).

Definition show_new (name : string) (inputs : list (InputId * string)) (program preview : InputId) :
    outcome ShowError ShowState :=
  if str_blank name then Throw ShowEmptyName else
  if decide (inputs = []) then Throw NoInputs else
  if existsb (λ p, str_blank p.2) inputs then Throw EmptyInputName else
  if existsb (λ p, bool_decide (MAX_INPUT_NAME_BYTES < str_len p.2)%nat) inputs
  then Throw InputNameTooLong else
  if decide (distinct inputs.*2 ≠ length inputs) then Throw DuplicateInputName else
  if decide (distinct inputs.*1 ≠ length inputs) then Throw ShowDuplicateInput else
  match Switcher.switcher_new inputs.*1 program preview with
  | Ret switcher =>
      Ret (mk_show name inputs.*1 inputs.*2 [] (bt_of_list ((λ i, (i, strip_default)) <$> inputs.*1))
             switcher)
  | Throw e => Throw (ShowSwitcher e)
  | Panic => Panic
  end.

Fixpoint check_outputs (identifiers : gset OutputId) (names : gset string)
    (l : list (OutputId * string)) : result ShowError unit :=
  match l with
  | [] => Ok tt
  | (output, name) :: l =>
      if str_blank name then Err EmptyOutputName else
      if decide (output ∈ identifiers) then Err (DuplicateOutput output) else
      if decide (to_ascii_lowercase name ∈ names) then Err DuplicateOutputName else
      check_outputs ({[output]} ∪ identifiers) ({[to_ascii_lowercase name]} ∪ names) l
  end.
Definition with_outputs (l : list (OutputId * string)) (self : ShowState) :
    result ShowError ShowState :=
  _ ← check_outputs ∅ ∅ l;
  Ok (mk_show (show_name self) (show_inputs self) (input_names self) l
        (input_audio_strips self) (desired_switcher self)).
Definition show_with_streams (l : list (StreamTargetId * string)) (self : ShowState) :
    result ShowError ShowState :=
  switcher ← result_map_err ShowSwitcher (Switcher.with_streams l (desired_switcher self));
  Ok (set_desired switcher self).

(** [self.inputs.iter().position(..)]. *)
Definition position_of (input : InputId) (l : list InputId) : option nat :=
  fst <$> list_find (λ candidate, candidate = input) l.
Definition input_name (self : ShowState) (input : InputId) : option string :=
  index ← position_of input (show_inputs self); input_names self !! index.

Definition name_taken (index : nat) (name : string) (l : list string) : bool :=
  existsb (λ p, bool_decide (p.1 ≠ index ∧ p.2 = name)) (zip (seq 0 (length l)) l).
Definition rename_input (input : InputId) (name : string) : stm ShowState RenameInputError unit :=
  self ← st_get;
  index ← st_lift (ok_or (RenameUnknownInput input) (position_of input (show_inputs self)));
  _ ← st_lift (validate_input_name name);
  _ ← st_require (name_taken index name (input_names self) = false) DuplicateName;
  _ ← st_expect (input_names self !! index);
  st_put (mk_show (show_name self) (show_inputs self) (<[index := name]> (input_names self))
            (outputs self) (input_audio_strips self) (desired_switcher self)).

(** The switcher is reordered on a copy, which is installed at the end. *)
Definition show_reorder_inputs (inputs : list InputId) : stm ShowState InputOrderError unit :=
  self ← st_get;
  switcher ← (match Switcher.reorder_inputs inputs (desired_switcher self) with
              | (switcher, Ret _) => mret switcher
              | (_, Throw e) => mthrow e
              | (_, Panic) => st_panic
              end);
  _ ← st_lift (validate_input_order (show_inputs self) inputs);
  names ← st_expect (mapM (input_name self) inputs);
  st_put (mk_show (show_name self) inputs names (outputs self) (input_audio_strips self) switcher).

Definition set_input_audio_strip (input : InputId) (state : EngineInputAudioStripState) :
    stm ShowState ShowError unit :=
  self ← st_get;
  _ ← st_require (is_Some (bt_get input (input_audio_strips self))) (ShowUnknownInput input);
  st_put (mk_show (show_name self) (show_inputs self) (input_names self) (outputs self)
            (bt_insert input state (input_audio_strips self)) (desired_switcher self)).

(** [desired_switcher_mut()]: a method of the desired switcher. *)
Definition on_desired {E A} (m : stm Switcher.SwitcherState E A) : stm ShowState E A :=
  st_zoom desired_switcher set_desired m.

Definition show_set_stream_running (target : StreamTargetId) (running : bool) :
    stm ShowState ShowError (list SwitcherEvent.t) :=
  st_map_err ShowSwitcher (on_desired (Switcher.set_stream_running target running)).
Definition restore_manual_transition (state : TBarState) : stm ShowState ShowError unit :=
  st_map_err ShowSwitcher (on_desired (Switcher.restore_t_bar state)).
Definition restore_fade_to_black (active : bool) (self : ShowState) : ShowState :=
  set_desired (Switcher.restore_settled_fade_to_black active (desired_switcher self)) self.
Definition show_configure_stinger (slot : StingerSlotId) (d : StingerDescriptor) :
    stm ShowState ShowError unit :=
  st_map_err ShowSwitcher (on_desired (Switcher.configure_stinger slot d)).
Definition show_remove_stinger (slot : StingerSlotId) : stm ShowState Empty_set unit :=
  on_desired (Switcher.remove_stinger slot).
Definition show_preload_stinger (slot : StingerSlotId) (media_available : bool) :
    stm ShowState ShowError SwitcherEvent.t :=
  st_map_err ShowSwitcher (on_desired (Switcher.preload_stinger slot media_available)).

(** ** The invariant *)

Definition strip_ok (s : EngineInputAudioStripState) : Prop :=
  -96000 ≤ gain_millidb s ≤ 24000 ∧ -10000 ≤ balance_basis_points s ≤ 10000 ∧
  delay_samples s ≤ 48000.
(** Every input has one valid name that no other has and one strip; the desired
    switcher routes the same inputs and is at rest as far as audio and names are
    concerned; outputs are distinct up to the case of their names. *)
Record show_wf (s : ShowState) : Prop := {
  sh_switcher : Switcher.switcher_wf (desired_switcher s);
  sh_inputs : show_inputs s = Switcher.inputs (desired_switcher s);
  sh_distinct : NoDup (show_inputs s);
  sh_length : length (input_names s) = length (show_inputs s);
  sh_names : NoDup (input_names s);
  sh_valid : Forall (λ n, str_blank n = false ∧ (str_len n ≤ MAX_INPUT_NAME_BYTES)%nat)
               (input_names s);
  sh_strips_sorted : bt_sorted (input_audio_strips s);
  sh_strips : ∀ i, is_Some (bt_get i (input_audio_strips s)) ↔ i ∈ show_inputs s;
  sh_strip : ∀ i st, bt_get i (input_audio_strips s) = Some st → strip_ok st;
  sh_outputs : NoDup (outputs s).*1;
  sh_output_names : NoDup (to_ascii_lowercase <$> (outputs s).*2);
  sh_output_valid : Forall (λ n, str_blank n = false) (outputs s).*2
}.

(** ** Lemmas *)

Lemma distinct_length {A} `{Countable A} (l : list A) : distinct l = length l → NoDup l.
Proof.
  unfold distinct. assert (Hle : ∀ k : list A, (size (list_to_set k : gset A) ≤ length k)%nat).
  { induction k as [|x k IH]; [done|]. cbn [list_to_set length].
    rewrite size_union_alt, size_singleton.
    pose proof (subseteq_size (list_to_set k ∖ {[x]} : gset A) (list_to_set k)
      ltac:(set_solver)). lia. }
  induction l as [|x l IH]; [constructor|]. cbn [list_to_set length]. intros Hs.
  rewrite size_union_alt, size_singleton in Hs.
  pose proof (subseteq_size (list_to_set l ∖ {[x]} : gset A) (list_to_set l) ltac:(set_solver)).
  pose proof (Hle l). constructor; [|apply IH; lia].
  intros Hx.
  assert (size (list_to_set l ∖ {[x]} : gset A) < size (list_to_set l : gset A))%nat; [|lia].
  apply subset_size. split; [set_solver|]. intros Hsub.
  specialize (Hsub x). set_solver.
Qed.
Lemma position_of_Some input l i :
  position_of input l = Some i ↔ l !! i = Some input ∧ ∀ j, (j < i)%nat → l !! j ≠ Some input.
Proof.
  unfold position_of. rewrite fmap_Some. split.
  - intros ([j x]&Hf&->). apply list_find_Some in Hf as (Hl&->&Hb). split; [done|].
    intros j' Hj Hl'. by eapply Hb.
  - intros [Hl Hb]. exists (i, input). split; [|done]. apply list_find_Some.
    split_and!; [done..|]. intros j y Hj Hlt ->. by apply (Hb j).
Qed.
Lemma position_of_elem input l : input ∈ l → ∃ i, position_of input l = Some i ∧ (i < length l)%nat.
Proof.
  intros Hin. unfold position_of.
  destruct (list_find_elem_of (λ c, c = input) l input Hin eq_refl) as [[i x] Hf].
  rewrite Hf. exists i. split; [done|]. apply list_find_Some in Hf as (Hl&_).
  by eapply lookup_lt_Some.
Qed.
Lemma input_name_lookup s i input :
  NoDup (show_inputs s) → show_inputs s !! i = Some input →
  input_name s input = input_names s !! i.
Proof.
  intros Hnd Hi. unfold input_name.
  destruct (position_of_elem input (show_inputs s)) as (j&Hj&_).
  { by eapply list_elem_of_lookup_2. }
  rewrite Hj. simpl. apply position_of_Some in Hj as [Hj _].
  by rewrite (NoDup_lookup _ _ _ _ Hnd Hi Hj).
Qed.
Lemma name_taken_false index name l :
  name_taken index name l = false ↔ ∀ j, l !! j = Some name → j = index.
Proof.
  unfold name_taken. rewrite <-not_true_iff_false, existsb_exists. split.
  - intros Hno j Hj. destruct (decide (j = index)) as [|Hne]; [done|]. destruct Hno.
    exists (j, name). rewrite bool_decide_eq_true. split; [|done].
    apply list_elem_of_In, list_elem_of_lookup. exists j. apply lookup_zip_Some. simpl.
    rewrite lookup_seq. split; [|done]. apply lookup_lt_Some in Hj. lia.
  - intros Hall ([j n]&Hin&[Hne Hn]%bool_decide_eq_true). simpl in *. subst n. apply Hne.
    apply list_elem_of_In, list_elem_of_lookup in Hin as [k Hk].
    apply lookup_zip_Some in Hk as [Hk Hl]. simpl in *. apply lookup_seq in Hk as [-> _]. auto.
Qed.

Lemma set_desired_wf s d :
  show_wf s → Switcher.switcher_wf d → Switcher.inputs d = show_inputs s → show_wf (set_desired d s).
Proof. intros [] ??. by split. Qed.

Lemma show_new_wf name inputs program preview s :
  show_new name inputs program preview = Ret s →
  show_wf s ∧ show_inputs s = inputs.*1 ∧ input_names s = inputs.*2 ∧
  Switcher.switcher_new inputs.*1 program preview = Ret (desired_switcher s).
Proof.
  unfold show_new. destruct (str_blank name); [done|].
  case_decide; [done|].
  destruct (existsb (λ p, str_blank p.2) inputs) eqn:Hblank; [done|].
  destruct (existsb (λ p, bool_decide _) inputs) eqn:Hlong; [done|].
  case_decide as Hn; [done|].
  case_decide as Hi; [done|].
  destruct (Switcher.switcher_new _ _ _) as [d|e|] eqn:Hd; [|done..]. intros [= <-].
  split; [|done]. pose proof (Switcher.switcher_new_wf _ _ _ _ Hd) as Hw.
  assert (Hdi : Switcher.inputs d = inputs.*1).
  { revert Hd. unfold Switcher.switcher_new, Switcher.require_input, mbind, stm_bind, st_get,
      st_require. simpl. repeat (case_decide; simpl); by intros [= <-]. }
  assert (Hget : ∀ i, bt_get i (bt_of_list ((λ i, (i, strip_default)) <$> inputs.*1)) =
    if decide (i ∈ inputs.*1) then Some strip_default else None).
  { intros i. clear. unfold bt_of_list.
    assert (Hg : ∀ m : btmap InputId EngineInputAudioStripState,
      bt_get i (foldl (λ m p, bt_insert p.1 p.2 m) m ((λ i, (i, strip_default)) <$> inputs.*1)) =
      if decide (i ∈ inputs.*1) then Some strip_default else bt_get i m).
    { induction inputs as [|[j n] l IH]; intros m; [by rewrite decide_False by apply not_elem_of_nil|].
      rewrite !fmap_cons. cbn [foldl fst snd]. rewrite IH, bt_get_insert.
      destruct (decide (i ∈ l.*1)), (decide (i = j)), (decide (j = i));
        repeat case_decide; set_solver. }
    rewrite Hg. done. }
  split; simpl; try done.
  - by apply distinct_length; rewrite length_fmap.
  - by rewrite !length_fmap.
  - apply distinct_length. by rewrite length_fmap.
  - rewrite Forall_fmap, Forall_forall. intros [i n] Hin. simpl.
    rewrite <-not_true_iff_false, existsb_exists in Hblank, Hlong. split.
    + apply not_true_iff_false. intros Hb. apply Hblank. exists (i, n).
      by rewrite <-list_elem_of_In.
    + apply Nat.nlt_ge. intros Hb. apply Hlong. exists (i, n). rewrite <-list_elem_of_In.
      split; [done|]. by apply bool_decide_eq_true.
  - apply bt_of_list_sorted.
  - intros i. rewrite Hget. case_decide; by split; intros Hx.
  - intros i st. rewrite Hget. case_decide; [|done]. intros [= <-]. by split_and!.
  - constructor.
  - constructor.
Qed.

Lemma with_outputs_wf l s s' :
  show_wf s → with_outputs l s = Ok s' →
  show_wf s' ∧ outputs s' = l ∧ desired_switcher s' = desired_switcher s.
Proof.
  intros Hwf. unfold with_outputs. intros ([]&Hc&[= <-])%result_bind_Ok. split; [|done].
  assert (Hok : ∀ ids names, check_outputs ids names l = Ok tt →
    NoDup l.*1 ∧ (∀ o, o ∈ l.*1 → o ∉ ids) ∧
    NoDup (to_ascii_lowercase <$> l.*2) ∧
    (∀ n, n ∈ to_ascii_lowercase <$> l.*2 → n ∉ names) ∧ Forall (λ n, str_blank n = false) l.*2).
  { clear. induction l as [|[o n] l IH]; intros ids names; cbn [check_outputs].
    { intros _. split_and!; first [constructor|set_solver]. }
    destruct (str_blank n) eqn:Hb; [done|]. case_decide; [done|]. case_decide; [done|].
    intros (?&Hi&?&Hn&?)%IH. rewrite !fmap_cons. cbn [fst snd].
    split_and!; [constructor| |constructor| |by constructor]; set_solver. }
  destruct (Hok _ _ Hc) as (?&_&?&_&?). by destruct Hwf.
Qed.
Lemma show_with_streams_wf l s s' :
  show_wf s → Switcher.streams_running (desired_switcher s) = ∅ →
  show_with_streams l s = Ok s' → show_wf s'.
Proof.
  intros Hwf Hrun. unfold show_with_streams. intros (d&Hd&[= <-])%result_bind_Ok.
  destruct (Switcher.with_streams l (desired_switcher s)) as [d'|e] eqn:Hs; [|done].
  injection Hd as <-. unfold Switcher.with_streams in Hs.
  apply result_bind_Ok in Hs as (ds&Hds&[= <-]).
  apply collect_desired_streams_Ok in Hds as [_ Hsw].
  apply set_desired_wf; [done| |by rewrite (sh_inputs _ Hwf)].
  destruct (sh_switcher _ Hwf). split; try done. intros t. simpl. rewrite Hrun. set_solver.
Qed.

(** ** The operations *)

Lemma rename_input_spec input name s :
  show_wf s →
  wp (rename_input input name) (λ r s', match r with
    | Ret _ => show_wf s' ∧ show_inputs s' = show_inputs s ∧
        desired_switcher s' = desired_switcher s ∧ input_audio_strips s' = input_audio_strips s ∧
        outputs s' = outputs s ∧
        input ∈ show_inputs s ∧ input_name s' input = Some name ∧
        ∀ j, j ≠ input → input_name s' j = input_name s j
    | Throw _ => s' = s
    | Panic => False
    end) s.
Proof.
  intros Hwf. unfold rename_input. wp_step. wp_step. cbn beta iota.
  apply wp_bind, wp_lift; [intros index Hi%ok_or_Ok|by intros e _].
  cbn beta iota. apply wp_bind, wp_lift; [intros [] Hv%validate_input_name_Ok|by intros e _].
  cbn beta iota. apply wp_bind, wp_require; [intros Ht|done]. cbn beta iota.
  apply position_of_Some in Hi as [Hi Hfirst]. pose proof (lookup_lt_Some _ _ _ Hi) as Hlt.
  apply wp_bind, wp_expect.
  2: { intros Hn. apply lookup_ge_None in Hn. rewrite (sh_length _ Hwf) in Hn. lia. }
  intros old Hold. cbn beta iota. apply wp_put.
  assert (Hfree : ∀ j, input_names s !! j = Some name → j = index).
  { by apply name_taken_false. }
  assert (Hnames : ∀ j i, show_inputs s !! j = Some i →
    <[index := name]> (input_names s) !! j =
    if decide (i = input) then Some name else input_names s !! j).
  { intros j i Hj. case_decide as Heq.
    - subst i. assert (j = index) as -> by by eapply NoDup_lookup; [apply (sh_distinct _ Hwf)|..].
      apply list_lookup_insert_eq. rewrite (sh_length _ Hwf). lia.
    - apply list_lookup_insert_ne. intros ->. congruence. }
  assert (Hnd : NoDup (show_inputs s)) by apply (sh_distinct _ Hwf).
  assert (Hin : ∀ j, input_name (mk_show (show_name s) (show_inputs s)
      (<[index := name]> (input_names s)) (outputs s) (input_audio_strips s) (desired_switcher s)) j =
    if decide (j = input) then Some name else input_name s j).
  { intros j. unfold input_name. simpl.
    destruct (position_of j (show_inputs s)) as [k|] eqn:Hk; simpl.
    - apply position_of_Some in Hk as [Hk _]. by apply Hnames.
    - case_decide; [|done]. subst j.
      destruct (position_of_elem input (show_inputs s)) as (?&?&_); [|congruence].
      by eapply list_elem_of_lookup_2. }
  split_and!; try done.
  - destruct Hwf. split; simpl; try done.
    + by rewrite length_insert.
    + rewrite NoDup_alt. intros i j x [(<-&<-&?)|[? Hi']]%list_lookup_insert_Some
        [(<-&Heq&?)|[? Hj']]%list_lookup_insert_Some; try done; subst.
      * by rewrite (Hfree _ Hj').
      * by rewrite (Hfree _ Hi').
      * by eapply (NoDup_lookup (input_names s)).
    + by apply Forall_insert.
  - by eapply list_elem_of_lookup_2.
  - by rewrite Hin, decide_True.
  - intros j Hj. by rewrite Hin, decide_False.
Qed.

Lemma show_reorder_spec l s :
  show_wf s →
  wp (show_reorder_inputs l) (λ r s', match r with
    | Ret _ => show_wf s' ∧ show_inputs s' = l ∧ l ≡ₚ show_inputs s ∧
        desired_switcher s' = Switcher.set_inputs l (desired_switcher s) ∧
        input_audio_strips s' = input_audio_strips s ∧ outputs s' = outputs s ∧
        ∀ i, input_name s' i = input_name s i
    | Throw _ => s' = s
    | Panic => False
    end) s.
Proof.
  intros Hwf. unfold show_reorder_inputs. wp_step. wp_step. cbn beta iota.
  pose proof (Switcher.reorder_inputs_safe l _ (sh_switcher _ Hwf)) as Hsafe.
  pose proof (validate_input_order_Ok (show_inputs s) l) as Hval.
  unfold wp, Switcher.reorder_inputs, mbind, stm_bind, st_get, st_lift, st_put in Hsafe.
  unfold Switcher.reorder_inputs, mbind, stm_bind, st_get, st_lift, st_put, wp.
  rewrite <-(sh_inputs _ Hwf) in Hsafe |- *.
  destruct (validate_input_order (show_inputs s) l) as [[]|e]; simpl; [|done].
  destruct Hval as [Hval _]. destruct (Hval eq_refl) as (Hne&Hnd&Hperm). simpl in Hsafe.
  destruct Hsafe as [Hsw _].
  assert (Hnames : ∀ i, i ∈ l → ∃ n, input_name s i = Some n ∧ n ∈ input_names s).
  { intros i Hi. rewrite Hperm in Hi. apply list_elem_of_lookup in Hi as [k Hk].
    rewrite (input_name_lookup s k) by (apply Hwf || done).
    destruct (lookup_lt_is_Some_2 (input_names s) k) as [n Hn].
    { rewrite (sh_length _ Hwf). by eapply lookup_lt_Some. }
    exists n. split; [done|]. by eapply list_elem_of_lookup_2. }
  destruct (mapM (input_name s) l) as [names|] eqn:Hm; simpl.
  2: { apply mapM_None, Exists_exists in Hm as (i&Hi&Hn).
       destruct (Hnames i Hi) as (n&?&_). congruence. }
  apply mapM_Some in Hm. pose proof (Forall2_length _ _ _ Hm) as Hlen.
  set (s' := mk_show _ _ _ _ _ _).
  assert (Hkeep : ∀ i, input_name s' i = input_name s i).
  { intros i. destruct (decide (i ∈ l)) as [Hi|Hi].
    - apply list_elem_of_lookup in Hi as [k Hk].
      rewrite (input_name_lookup s' k) by done. simpl.
      destruct (Forall2_lookup_l _ _ _ _ _ Hm Hk) as (n&->&->). done.
    - assert (Hnone : ∀ t, show_inputs t ≡ₚ show_inputs s → input_name t i = None).
      { intros t Ht. unfold input_name. rewrite Hperm in Hi.
        destruct (position_of i (show_inputs t)) as [k|] eqn:Hk; [|done].
        apply position_of_Some in Hk as [Hk%list_elem_of_lookup_2 _]. by rewrite Ht in Hk. }
      by rewrite !Hnone. }
  assert (Hsub : ∀ n, n ∈ names → n ∈ input_names s).
  { intros n [k Hk]%list_elem_of_lookup.
    destruct (Forall2_lookup_r _ _ _ _ _ Hm Hk) as (i&Hi&Hin).
    destruct (Hnames i) as (n'&Hn'&?); [by eapply list_elem_of_lookup_2|]. congruence. }
  split_and!; try done. destruct Hwf. split; simpl; try done.
  - apply NoDup_alt. intros j k n Hj Hk.
    destruct (Forall2_lookup_r _ _ _ _ _ Hm Hj) as (ij&Hij&Hnj).
    destruct (Forall2_lookup_r _ _ _ _ _ Hm Hk) as (ik&Hik&Hnk).
    assert (ij = ik) as ->; [|by eapply (NoDup_lookup l)].
    unfold input_name in Hnj, Hnk.
    destruct (position_of ij (show_inputs s)) as [pj|] eqn:Hpj; [|done].
    destruct (position_of ik (show_inputs s)) as [pk|] eqn:Hpk; [|done]. simpl in *.
    apply position_of_Some in Hpj as [Hpj _], Hpk as [Hpk _].
    assert (pj = pk) as -> by by eapply (NoDup_lookup (input_names s)). congruence.
  - rewrite Forall_forall in *. auto.
  - intros i. by rewrite sh_strips0, Hperm.
Qed.

Lemma set_input_audio_strip_spec input st s :
  show_wf s → strip_ok st →
  wp (set_input_audio_strip input st) (λ r s', match r with
    | Ret _ => show_wf s' ∧ desired_switcher s' = desired_switcher s ∧
        show_inputs s' = show_inputs s ∧ input_names s' = input_names s ∧ outputs s' = outputs s ∧
        input_audio_strips s' = bt_insert input st (input_audio_strips s)
    | Throw _ => s' = s
    | Panic => False
    end) s.
Proof.
  intros Hwf Hst. unfold set_input_audio_strip. wp_step. wp_step. cbn beta iota.
  apply wp_bind, wp_require; [intros Hin|done]. cbn beta iota. apply wp_put.
  split_and!; try done. destruct Hwf. split; simpl; try done.
  - by apply bt_insert_sorted.
  - intros i. rewrite bt_get_insert. case_decide; [|done]. subst. rewrite <-sh_strips0. naive_solver.
  - intros i st'. rewrite bt_get_insert. case_decide; [|by apply sh_strip0]. by intros [= <-].
Qed.
