(* ===== verification/Engine.v ===== *)
(** The engine, [crates/services/fm-engine/src/engine.rs]: the composition of the
    command machine, the frame scheduler, the clock and two switchers, the
    desired one that commands change at once and the realized one that follows
    frame by frame.

    [Engine] maps to the record of the same name; [execute], [tick], [snapshot] and
    [restore] to definitions of theirs.  The mutation of a command runs in
    [Command.apply] on a draft, and a panic inside it is a panic of the engine;
    [mutation_total] of EngineSim shows that there is none. *)
From stdpp Require Import pretty.
From S2P Require Import Prelude BTree Types EngineShow.
From S2P Require Command Clock Actions Plans Scheduler FadeToBlack Overlay SwitcherTypes Switcher.
Import SwitcherTypes.
#[local] Open Scope Z_scope.

(** ** Commands and events *)

Definition MAX_TRANSITION_DURATION_FRAMES : Z := 3600.
Definition MAX_INPUT_AUDIO_DELAY_SAMPLES : Z := 48000.
Definition MIN_INPUT_AUDIO_GAIN_MILLIDB : Z := -96000.
Definition MAX_INPUT_AUDIO_GAIN_MILLIDB : Z := 24000.
Definition MIN_INPUT_AUDIO_BALANCE_BASIS_POINTS : Z := -10000.
Definition MAX_INPUT_AUDIO_BALANCE_BASIS_POINTS : Z := 10000.

Inductive EngineManualTransitionKind := ManualFade | ManualWipe | ManualAlphaFade | ManualSlide.
Definition manual_transition_kind (kind : EngineManualTransitionKind) : TransitionKind :=
  match kind with
  | ManualFade => Fade
  | ManualWipe => Wipe
  | ManualAlphaFade => AlphaFade
  | ManualSlide => Slide
  end.

Module EngineCommand.
Inductive t :=
  | ReorderInputs (inputs : list InputId)
  | RenameInput (input : InputId) (name : string)
  | SetInputAudioStrip (input : InputId) (state : EngineInputAudioStripState)
  | SelectPreview (input : InputId)
  | Cut
  | Fade (duration_frames : Z)
  | AlphaFade (duration_frames : Z)
  | Slide (duration_frames : Z)
  | Zoom (duration_frames : Z)
  | Stinger (slot : StingerSlotId) (duration_frames : Z)
  | ConfigureStinger (slot : StingerSlotId) (descriptor : StingerDescriptor)
  | RemoveStinger (slot : StingerSlotId)
  | TakeOverlay (channel : Overlay.OverlayChannelId) (source : InputId)
  | UpdateOverlay (channel : Overlay.OverlayChannelId) (source : InputId)
  | OverlayOff (channel : Overlay.OverlayChannelId)
  | ConfigureOverlayTransition (channel : Overlay.OverlayChannelId)
      (transition : Overlay.OverlayTransitionKind) (duration_frames : Z)
  | ConfigureOverlayAppearance (channel : Overlay.OverlayChannelId)
      (position : Overlay.OverlayPositionPreset) (border : Overlay.OverlayBorderPreset)
  | QueueOverlay (channel : Overlay.OverlayChannelId) (source : InputId)
  | TakeNextOverlay (channel : Overlay.OverlayChannelId)
  | SetOverlayOutputInclusion (channel : Overlay.OverlayChannelId) (output : OutputId)
      (included : bool)
  | Wipe (duration_frames : Z)
  | FadeToBlack (active : bool) (duration_frames : Z)
  | StartManualTransition (kind : EngineManualTransitionKind)
  | SetManualTransitionPosition (position : TBarPosition)
  | CommitManualTransition
  | CancelManualTransition
  | StreamStart (target : StreamTargetId)
  | StreamStop (target : StreamTargetId)
  | RecordStart
  | RecordStop.
End EngineCommand.

Record EngineAcceptance := mk_acceptance { acc_target_frame : Z }.
#[global] Instance EngineAcceptance_eq_dec : EqDecision EngineAcceptance.
Proof. solve_decision. Defined.

Record EngineStreamStatus := mk_stream_status {
  status_target : StreamTargetId;
  status_name : string;
  desired_running : bool
}.
Module EngineEvent.
Inductive t :=
  | DesiredSwitcherChanged (command : EngineCommand.t)
  | InputRenamed (input : InputId) (name : string)
  | InputOrderChanged (inputs : list InputId)
  | StreamsChanged (streams : list EngineStreamStatus)
  | RecordingChanged (active : bool).
End EngineEvent.

(** ** Rejections *)

Abbreviation Rejection := Command.Rejection.
Abbreviation rejection_new := Command.rejection_new.

Definition rename_input_rejection (error : RenameInputError) : Rejection :=
  rejection_new
    (match error with
     | RenameUnknownInput _ => Command.NotFound
     | EmptyName | NameTooLong => Command.InvalidCommand
     | DuplicateName => Command.Conflict
     end) (to_string error).
Definition reorder_inputs_rejection (error : InputOrderError) : Rejection :=
  rejection_new
    (match error with
     | OrderUnknownInput _ => Command.NotFound
     | EmptyOrder | WrongLength _ _ | DuplicateInput _ => Command.InvalidCommand
     end) (to_string error).
Definition switcher_rejection (error : SwitcherError) : Rejection :=
  rejection_new
    (match error with
     | UnknownInput _ | UnconfiguredStinger _ | UnknownStreamTarget _ => Command.NotFound
     | TransitionInProgress => Command.Conflict
     | _ => Command.InvalidCommand
     end) (to_string error).

Definition validate_fade_to_black_duration (duration_frames : Z) : result Rejection unit :=
  if decide (duration_frames = 0) then
    Err (rejection_new Command.InvalidCommand "Fade-to-Black duration must be nonzero")
  else if decide (FadeToBlack.MAX_FADE_TO_BLACK_DURATION_FRAMES < duration_frames) then
    Err (rejection_new Command.InvalidCommand
      ("Fade-to-Black duration must not exceed " +:+
       to_string FadeToBlack.MAX_FADE_TO_BLACK_DURATION_FRAMES +:+ " frames")%string)
  else Ok tt.
Definition validate_transition_duration (name : string) (duration_frames : Z) :
    result Rejection unit :=
  if decide (duration_frames = 0) then
    Err (rejection_new Command.InvalidCommand (name +:+ " duration must be nonzero")%string)
  else if decide (MAX_TRANSITION_DURATION_FRAMES < duration_frames) then
    Err (rejection_new Command.InvalidCommand
      (name +:+ " duration must not exceed " +:+ to_string MAX_TRANSITION_DURATION_FRAMES +:+
       " frames")%string)
  else Ok tt.

(** ** Mutations of the durable show *)

(** The draft and the events so far. *)
Abbreviation draft_stm A := (stm (ShowState * list EngineEvent.t) Rejection A).
Definition on_show {E A} (m : stm ShowState E A) : stm (ShowState * list EngineEvent.t) E A :=
  st_zoom fst (λ show s, (show, s.2)) m.
Definition push_event (event : EngineEvent.t) : draft_stm unit :=
  st_modify (λ s, (s.1, s.2 ++ [event])).
(** A method of the desired switcher, its error shown in a rejection. *)
Definition desired {A} (m : stm Switcher.SwitcherState SwitcherError A) : draft_stm A :=
  st_map_err switcher_rejection (on_show (on_desired m)).

Record EngineMutation := mk_mutation { mut_command : EngineCommand.t; mut_target_frame : Z }.

Definition desired_stream_statuses (state : ShowState) : option (list EngineStreamStatus) :=
  mapM (λ stream,
    running ← Switcher.stream_running (stream_id stream) (desired_switcher state);
    Some (mk_stream_status (stream_id stream) (stream_name stream) running))
  (Switcher.streams (desired_switcher state)).

Definition apply_stream_mutation (target : StreamTargetId) (running : bool) (target_frame : Z) :
    draft_stm EngineAcceptance :=
  _ ← desired (Switcher.set_stream_running target running);
  '(state, _) ← st_get;
  streams ← st_expect (desired_stream_statuses state);
  _ ← push_event (EngineEvent.StreamsChanged streams);
  mret (mk_acceptance target_frame).
Definition apply_recording_mutation (active : bool) (target_frame : Z) :
    draft_stm EngineAcceptance :=
  '(state, _) ← st_get;
  let previous := Switcher.recording_desired (desired_switcher state) in
  _ ← desired (Switcher.set_recording_desired active);
  _ ← (if decide (previous ≠ active) then push_event (EngineEvent.RecordingChanged active)
       else mret tt);
  mret (mk_acceptance target_frame).
Definition apply_fade_to_black_mutation (active : bool) (duration_frames target_frame : Z) :
    draft_stm EngineAcceptance :=
  _ ← st_lift (validate_fade_to_black_duration duration_frames);
  _ ← on_show (on_desired (st_modify (Switcher.restore_settled_fade_to_black active)));
  _ ← push_event (EngineEvent.DesiredSwitcherChanged
        (EngineCommand.FadeToBlack active duration_frames));
  mret (mk_acceptance target_frame).

(** The overlay commands as commands of the switcher. *)
Definition overlay_command (command : EngineCommand.t) : option SwitcherCommand.t :=
  match command with
  | EngineCommand.TakeOverlay channel source => Some (SwitcherCommand.TakeOverlay channel source)
  | EngineCommand.UpdateOverlay channel source =>
      Some (SwitcherCommand.UpdateOverlay channel source)
  | EngineCommand.OverlayOff channel => Some (SwitcherCommand.OverlayOff channel)
  | EngineCommand.ConfigureOverlayTransition channel transition duration_frames =>
      Some (SwitcherCommand.ConfigureOverlayTransition channel transition duration_frames)
  | EngineCommand.ConfigureOverlayAppearance channel position border =>
      Some (SwitcherCommand.ConfigureOverlayAppearance channel position border)
  | EngineCommand.QueueOverlay channel source => Some (SwitcherCommand.QueueOverlay channel source)
  | EngineCommand.TakeNextOverlay channel => Some (SwitcherCommand.TakeNextOverlay channel)
  | EngineCommand.SetOverlayOutputInclusion channel output included =>
      Some (SwitcherCommand.SetOverlayOutputInclusion channel output included)
  | _ => None
  end.
Definition is_overlay_command (command : EngineCommand.t) : bool :=
  match overlay_command command with
  | Some _ => true
  | None => false
  end.
Definition apply_overlay_mutation (command : EngineCommand.t) (target_frame : Z) :
    draft_stm EngineAcceptance :=
  '(state, _) ← st_get;
  _ ← (match command with
       | EngineCommand.SetOverlayOutputInclusion _ output _ =>
           st_require (output ∈ (outputs state).*1)
             (rejection_new Command.NotFound
                ("show does not contain output " +:+ to_string output)%string)
       | _ => mret tt
       end);
  switcher_command ← st_expect (overlay_command command);
  _ ← desired (Switcher.apply switcher_command);
  _ ← push_event (EngineEvent.DesiredSwitcherChanged command);
  mret (mk_acceptance target_frame).
Definition apply_stinger_mutation (command : EngineCommand.t) (target_frame : Z) :
    draft_stm EngineAcceptance :=
  '(state, _) ← st_get;
  _ ← st_require (Switcher.t_bar (desired_switcher state) = None)
        (rejection_new Command.Conflict
           "Stinger slot configuration cannot change during a manual transition");
  _ ← (match command with
       | EngineCommand.ConfigureStinger slot descriptor =>
           _ ← desired (Switcher.configure_stinger slot descriptor);
           if preload descriptor then
             _ ← desired (Switcher.preload_stinger slot true); mret tt
           else mret tt
       | EngineCommand.RemoveStinger slot => st_unwrap (on_show (show_remove_stinger slot))
       | _ => st_panic
       end);
  _ ← push_event (EngineEvent.DesiredSwitcherChanged command);
  mret (mk_acceptance target_frame).

Definition apply_rename_mutation (input : InputId) (name : string) (target_frame : Z) :
    draft_stm EngineAcceptance :=
  _ ← st_map_err rename_input_rejection (on_show (rename_input input name));
  _ ← push_event (EngineEvent.InputRenamed input name);
  mret (mk_acceptance target_frame).
Definition apply_reorder_mutation (inputs : list InputId) (target_frame : Z) :
    draft_stm EngineAcceptance :=
  _ ← st_map_err reorder_inputs_rejection (on_show (show_reorder_inputs inputs));
  _ ← push_event (EngineEvent.InputOrderChanged inputs);
  mret (mk_acceptance target_frame).
Definition apply_strip_mutation (input : InputId) (strip : EngineInputAudioStripState)
    (target_frame : Z) : draft_stm EngineAcceptance :=
  _ ← st_require
        (MIN_INPUT_AUDIO_GAIN_MILLIDB ≤ gain_millidb strip ≤ MAX_INPUT_AUDIO_GAIN_MILLIDB)
        (rejection_new Command.InvalidCommand
           ("input audio gain must be between " +:+ to_string MIN_INPUT_AUDIO_GAIN_MILLIDB +:+
            " and " +:+ to_string MAX_INPUT_AUDIO_GAIN_MILLIDB +:+ " millidB")%string);
  _ ← st_require
        (MIN_INPUT_AUDIO_BALANCE_BASIS_POINTS ≤ balance_basis_points strip
           ≤ MAX_INPUT_AUDIO_BALANCE_BASIS_POINTS)
        (rejection_new Command.InvalidCommand
           ("input audio balance must be between " +:+
            to_string MIN_INPUT_AUDIO_BALANCE_BASIS_POINTS +:+ " and " +:+
            to_string MAX_INPUT_AUDIO_BALANCE_BASIS_POINTS +:+ " basis points")%string);
  _ ← st_require (¬ MAX_INPUT_AUDIO_DELAY_SAMPLES < delay_samples strip)
        (rejection_new Command.InvalidCommand
           ("input audio delay must not exceed " +:+ to_string MAX_INPUT_AUDIO_DELAY_SAMPLES +:+
            " samples")%string);
  _ ← st_map_err (λ _, rejection_new Command.InvalidCommand
        ("input " +:+ to_string input +:+ " is not part of this show")%string)
        (on_show (set_input_audio_strip input strip));
  _ ← push_event (EngineEvent.DesiredSwitcherChanged
        (EngineCommand.SetInputAudioStrip input strip));
  mret (mk_acceptance target_frame).

(** The command of the switcher that takes a switching command into the desired
    state; [None] leaves that state as it is. *)
Definition switching_command (command : EngineCommand.t) : draft_stm (option SwitcherCommand.t) :=
  match command with
  | EngineCommand.SelectPreview input => mret (Some (SwitcherCommand.SelectPreview input))
  | EngineCommand.Cut => mret (Some SwitcherCommand.Cut)
  | EngineCommand.Fade d =>
      _ ← st_lift (validate_transition_duration "fade" d); mret (Some SwitcherCommand.Cut)
  | EngineCommand.AlphaFade d =>
      _ ← st_lift (validate_transition_duration "alpha fade" d); mret (Some SwitcherCommand.Cut)
  | EngineCommand.Slide d =>
      _ ← st_lift (validate_transition_duration "slide" d); mret (Some SwitcherCommand.Cut)
  | EngineCommand.Zoom d =>
      _ ← st_lift (validate_transition_duration "zoom" d); mret (Some SwitcherCommand.Cut)
  | EngineCommand.Wipe d =>
      _ ← st_lift (validate_transition_duration "wipe" d); mret (Some SwitcherCommand.Cut)
  | EngineCommand.Stinger slot d =>
      _ ← st_lift (validate_transition_duration "stinger" d);
      decision ← desired (Switcher.stinger_playback_decision slot);
      match decision with
      | Play =>
          o ← desired (Switcher.stinger slot);
          descriptor ← st_expect (descriptor o);
          _ ← st_require (¬ d < cut_point_frames descriptor)
                (switcher_rejection (StingerCutPointOutOfRange slot (cut_point_frames descriptor) d));
          mret (Some SwitcherCommand.Cut)
      | Fallback KeepProgram => mret None
      | Fallback (FallbackCut | FallbackFade) => mret (Some SwitcherCommand.Cut)
      | Unconfigured => mthrow (switcher_rejection (UnconfiguredStinger slot))
      end
  | EngineCommand.StartManualTransition kind =>
      mret (Some (SwitcherCommand.StartTBar (manual_transition_kind kind)))
  | EngineCommand.SetManualTransitionPosition position =>
      mret (Some (SwitcherCommand.SetTBarPosition position))
  | EngineCommand.CommitManualTransition => mret (Some SwitcherCommand.CommitTBar)
  | EngineCommand.CancelManualTransition => mret (Some SwitcherCommand.CancelTBar)
  | _ => st_panic
  end.

(** [EngineMutation::apply]. *)
Definition mutation_apply (m : EngineMutation) : draft_stm EngineAcceptance :=
  let target_frame := mut_target_frame m in
  match mut_command m with
  | (EngineCommand.ConfigureStinger _ _ | EngineCommand.RemoveStinger _) as command =>
      apply_stinger_mutation command target_frame
  | EngineCommand.RenameInput input name => apply_rename_mutation input name target_frame
  | EngineCommand.ReorderInputs inputs => apply_reorder_mutation inputs target_frame
  | EngineCommand.SetInputAudioStrip input strip => apply_strip_mutation input strip target_frame
  | EngineCommand.StreamStart target => apply_stream_mutation target true target_frame
  | EngineCommand.StreamStop target => apply_stream_mutation target false target_frame
  | EngineCommand.RecordStart => apply_recording_mutation true target_frame
  | EngineCommand.RecordStop => apply_recording_mutation false target_frame
  | EngineCommand.FadeToBlack active d => apply_fade_to_black_mutation active d target_frame
  | command =>
      if is_overlay_command command then apply_overlay_mutation command target_frame else
      c ← switching_command command;
      _ ← (match c with
           | Some c => _ ← desired (Switcher.apply c); mret tt
           | None => mret tt
           end);
      _ ← push_event (EngineEvent.DesiredSwitcherChanged command);
      mret (mk_acceptance target_frame)
  end.

(** ** Runtime actions on the realized switcher *)

Abbreviation runtime_stm A := (stm Switcher.SwitcherState SwitcherError A).

Definition apply_runtime_overlay (command : EngineCommand.t) : runtime_stm Switcher.events :=
  match command with
  | EngineCommand.TakeOverlay channel source => Switcher.request_overlay_take channel source
  | EngineCommand.OverlayOff channel => Switcher.request_overlay_off channel
  | EngineCommand.TakeNextOverlay channel => Switcher.request_overlay_take_next channel
  | _ => c ← st_expect (overlay_command command); Switcher.apply c
  end.
Definition apply_runtime (command : EngineCommand.t) : runtime_stm Switcher.events :=
  match command with
  | EngineCommand.RenameInput _ _ | EngineCommand.SetInputAudioStrip _ _ => mret []
  | EngineCommand.StreamStart target => Switcher.set_stream_running target true
  | EngineCommand.StreamStop target => Switcher.set_stream_running target false
  | EngineCommand.RecordStart => Switcher.set_recording_desired true
  | EngineCommand.RecordStop => Switcher.set_recording_desired false
  | EngineCommand.ReorderInputs inputs =>
      _ ← st_unwrap (Switcher.reorder_inputs inputs); mret []
  | EngineCommand.FadeToBlack active d => st_unwrap (Switcher.request_fade_to_black active d)
  | EngineCommand.SelectPreview input => Switcher.apply (SwitcherCommand.SelectPreview input)
  | EngineCommand.Cut => Switcher.apply SwitcherCommand.Cut
  | EngineCommand.Fade d => Switcher.apply (SwitcherCommand.Transition Fade d)
  | EngineCommand.AlphaFade d => Switcher.apply (SwitcherCommand.Transition AlphaFade d)
  | EngineCommand.Slide d => Switcher.apply (SwitcherCommand.Transition Slide d)
  | EngineCommand.Zoom d => Switcher.apply (SwitcherCommand.Transition Zoom d)
  | EngineCommand.Stinger slot d => Switcher.apply (SwitcherCommand.Transition (Stinger slot) d)
  | EngineCommand.ConfigureStinger slot descriptor =>
      _ ← Switcher.configure_stinger slot descriptor;
      if preload descriptor then
        event ← Switcher.preload_stinger slot true; mret [event]
      else mret []
  | EngineCommand.RemoveStinger slot => _ ← st_unwrap (Switcher.remove_stinger slot); mret []
  | EngineCommand.Wipe d => Switcher.apply (SwitcherCommand.Wipe d)
  | EngineCommand.StartManualTransition kind =>
      Switcher.apply (SwitcherCommand.StartTBar (manual_transition_kind kind))
  | EngineCommand.SetManualTransitionPosition position =>
      Switcher.apply (SwitcherCommand.SetTBarPosition position)
  | EngineCommand.CommitManualTransition => Switcher.apply SwitcherCommand.CommitTBar
  | EngineCommand.CancelManualTransition => Switcher.apply SwitcherCommand.CancelTBar
  | command => apply_runtime_overlay command
  end.

(** ** The engine *)

Inductive SnapshotError :=
  | WorkInFlight
  | IncompatibleSwitcher
  | MismatchedSwitcherRouting
  | MismatchedManualTransition
  | InvalidFrameCounter
  | ClockTimeMismatch (expected_ns actual_ns : Z)
  | UnrealizedAcceptedReceipt (target_frame frame_cursor : Z)
  | CounterMismatch (accepted_commands revision event_sequence runtime_generation : Z).
Inductive EngineError :=
  | ErrClock (e : Clock.ClockError)
  | ErrSchedule (e : Actions.ActionError)
  | ErrTick (e : Scheduler.TickError)
  | ErrRuntimeSwitcher (e : SwitcherError)
  | ErrCounterExhausted
  | ErrSnapshot (e : SnapshotError)
  | ErrStalePreparation.

Abbreviation IdempotencyKey := string (only parsing).
Abbreviation Receipt := (Command.CommandReceipt EngineAcceptance).
Abbreviation Envelope := (Command.CommandEnvelope EngineCommand.t).
Abbreviation EngineCommandOutcome := (Command.ApplyOutcome EngineAcceptance EngineEvent.t).
Abbreviation RuntimeScheduler := (Scheduler.FrameScheduler unit unit EngineCommand.t unit).

Record Engine := mk_engine {
  commands : Command.CommandState ShowState EngineAcceptance;
  receipt_history : gmap IdempotencyKey Receipt;
  realized_switcher : Switcher.SwitcherState;
  scheduler : RuntimeScheduler;
  clock : Clock.ManualClock;
  frame_rate : FrameRate;
  runtime_generation : Z;
  pending_actions : Z;
  transition_in_flight : option TransitionKind
}.

Definition set_commands x (e : Engine) : Engine :=
  mk_engine x (receipt_history e) (realized_switcher e) (scheduler e) (clock e) (frame_rate e)
    (runtime_generation e) (pending_actions e) (transition_in_flight e).
Definition set_history x (e : Engine) : Engine :=
  mk_engine (commands e) x (realized_switcher e) (scheduler e) (clock e) (frame_rate e)
    (runtime_generation e) (pending_actions e) (transition_in_flight e).
Definition set_realized x (e : Engine) : Engine :=
  mk_engine (commands e) (receipt_history e) x (scheduler e) (clock e) (frame_rate e)
    (runtime_generation e) (pending_actions e) (transition_in_flight e).
Definition set_scheduler x (e : Engine) : Engine :=
  mk_engine (commands e) (receipt_history e) (realized_switcher e) x (clock e) (frame_rate e)
    (runtime_generation e) (pending_actions e) (transition_in_flight e).
Definition set_clock x (e : Engine) : Engine :=
  mk_engine (commands e) (receipt_history e) (realized_switcher e) (scheduler e) x (frame_rate e)
    (runtime_generation e) (pending_actions e) (transition_in_flight e).
Definition set_generation x (e : Engine) : Engine :=
  mk_engine (commands e) (receipt_history e) (realized_switcher e) (scheduler e) (clock e)
    (frame_rate e) x (pending_actions e) (transition_in_flight e).
Definition set_pending x (e : Engine) : Engine :=
  mk_engine (commands e) (receipt_history e) (realized_switcher e) (scheduler e) (clock e)
    (frame_rate e) (runtime_generation e) x (transition_in_flight e).
Definition set_in_flight x (e : Engine) : Engine :=
  mk_engine (commands e) (receipt_history e) (realized_switcher e) (scheduler e) (clock e)
    (frame_rate e) (runtime_generation e) (pending_actions e) x.

Abbreviation engine_stm A := (stm Engine EngineError A).

Definition show (self : Engine) : ShowState := Command.state (commands self).
Definition frame_cursor (self : Engine) : Z := Plans.next_frame (Scheduler.pacer (scheduler self)).
Definition clock_time (self : Engine) : Z := Clock.snap_time (Clock.snapshot (clock self)).

Definition engine_new (show : ShowState) (frame_rate : FrameRate) (clock_domain : Z) : Engine :=
  mk_engine (Command.state_new show 1) ∅ (desired_switcher show)
    (Scheduler.scheduler_new frame_rate 0 0 tt) (Clock.manual_new clock_domain 0) frame_rate
    0 0 None.

(** ** Executing commands *)

Definition stinger_runtime_transition (show : ShowState) (slot : StingerSlotId) :
    outcome SwitcherError (option TransitionKind) :=
  match (Switcher.stinger_playback_decision slot (desired_switcher show)).2 with
  | Ret Play => Ret (Some (Stinger slot))
  | Ret (Fallback FallbackFade) => Ret (Some Fade)
  | Ret (Fallback (FallbackCut | KeepProgram)) | Ret Unconfigured => Ret None
  | Throw e => Throw e
  | Panic => Panic
  end.

(** The transition a command starts at the next frame. *)
Definition runtime_transition (show : ShowState) (command : EngineCommand.t) :
    outcome SwitcherError (option TransitionKind) :=
  match command with
  | EngineCommand.Fade _ => Ret (Some Fade)
  | EngineCommand.AlphaFade _ => Ret (Some AlphaFade)
  | EngineCommand.Slide _ => Ret (Some Slide)
  | EngineCommand.Zoom _ => Ret (Some Zoom)
  | EngineCommand.Stinger slot _ => stinger_runtime_transition show slot
  | EngineCommand.Wipe _ => Ret (Some Wipe)
  | _ => Ret None
  end.

(** The commands that are accepted while a transition is in flight. *)
Definition allowed_in_flight (command : EngineCommand.t) : bool :=
  match command with
  | EngineCommand.FadeToBlack _ _ | EngineCommand.RenameInput _ _
  | EngineCommand.ReorderInputs _ | EngineCommand.StreamStart _ | EngineCommand.StreamStop _
  | EngineCommand.RecordStart | EngineCommand.RecordStop => true
  | command => is_overlay_command command
  end.
Definition kind_name (kind : TransitionKind) : string :=
  match kind with
  | Fade => "fade"
  | AlphaFade => "alpha fade"
  | Slide => "slide"
  | Zoom => "zoom"
  | Wipe => "wipe"
  | Stinger _ => "stinger"
  end.

(** The command machine knows no panic: it is handed the mark [panicked], and
    [execute_immediate] panics when the machine ran a mutation that did. *)
Definition panicked : Rejection := rejection_new Command.Internal "panicked".
(** The mutation as the command machine runs it. *)
Definition run_mutation (m : EngineMutation) :
    Command.Mutation ShowState EngineEvent.t EngineAcceptance := λ show events,
  match mutation_apply m (show, events) with
  | ((show, events), Ret a) => (show, events, Ok a)
  | ((show, events), Throw rejection) => (show, events, Err rejection)
  | ((show, events), Panic) => (show, events, Err panicked)
  end.
(** The closure that [execute_immediate] passes. *)
Definition prepare_mutation (runtime_busy : option TransitionKind) (target_frame : Z)
    (_ : ShowState) (command : EngineCommand.t) :
    result Rejection (Command.Mutation ShowState EngineEvent.t EngineAcceptance) :=
  match runtime_busy with
  | Some kind =>
      if allowed_in_flight command then Ok (run_mutation (mk_mutation command target_frame))
      else Err (rejection_new Command.Conflict
                  ("a " +:+ kind_name kind +:+ " transition is already in flight")%string)
  | None => Ok (run_mutation (mk_mutation command target_frame))
  end.

Definition accepted {R} (receipt : Command.CommandReceipt R) : option R :=
  match receipt with
  | Command.Accepted _ _ result => Some result
  | Command.Rejected _ _ _ => None
  end.

(** Whether the machine ran the mutation and it panicked; what the machine
    itself refuses, without running it, never bears the mark. *)
Definition mutation_panicked (show : ShowState) (m : EngineMutation)
    (outcome : EngineCommandOutcome) : bool :=
  match mutation_apply m (show, []), Command.receipt outcome with
  | (_, Panic), Command.Rejected _ rejection _ =>
      negb (Command.replayed outcome) && bool_decide (rejection = panicked)
  | _, _ => false
  end.

Definition execute_immediate (envelope : Envelope) (now_millis : Z) :
    engine_stm EngineCommandOutcome :=
  let key := Command.idempotency_key envelope in
  let command := Command.command envelope in
  self ← st_get;
  let target_frame := frame_cursor self in
  scheduled ← (match Command.receipts (commands self) !! key with
    | Some _ => mret None
    | None =>
        action ← st_zoom scheduler set_scheduler
          (st_map_err ErrSchedule (Scheduler.schedule_action target_frame command));
        mret (Some action)
    end);
  let runtime_busy := transition_in_flight self in
  let '(cs, outcome) := Command.apply (commands self) envelope now_millis
                          (prepare_mutation runtime_busy target_frame) in
  _ ← (if mutation_panicked (Command.state (commands self)) (mk_mutation command target_frame) outcome
       then st_panic else mret tt);
  _ ← st_modify (set_commands cs);
  _ ← (if Command.replayed outcome then mret tt
       else st_modify (λ e, set_history (<[key := Command.receipt outcome]> (receipt_history e)) e));
  _ ← (if decide (is_Some (accepted (Command.receipt outcome)) ∧ Command.replayed outcome = false)
       then
         _ ← st_modify (λ e, set_pending (pending_actions e + 1) e);
         match runtime_transition (Command.state cs) command with
         | Ret (Some kind) => st_modify (set_in_flight (Some kind))
         | Ret None => mret tt
         | _ => st_panic
         end
       else
         match scheduled with
         | Some action =>
             st_modify (λ e, set_scheduler (Scheduler.cancel_action action (scheduler e)).1 e)
         | None => mret tt
         end);
  mret outcome.

Record EnginePreparationBase := mk_base {
  base_epoch : Z;
  base_revision : Z;
  base_event_sequence : Z;
  durable_receipts : nat;
  base_frame_cursor : Z;
  base_clock_time : Z;
  base_generation : Z
}.
#[global] Instance EnginePreparationBase_eq_dec : EqDecision EnginePreparationBase.
Proof. solve_decision. Defined.
Record PreparedEngineExecution := mk_prepared {
  staged : Engine;
  prepared_outcome : EngineCommandOutcome;
  base : EnginePreparationBase
}.
Inductive EnginePrepareOutcome :=
  | Replayed (outcome : EngineCommandOutcome)
  | Prepared (prepared : PreparedEngineExecution).

Definition preparation_base (self : Engine) : EnginePreparationBase :=
  mk_base (Command.state_epoch (commands self)) (Command.revision (commands self))
    (Command.event_sequence (commands self)) (size (receipt_history self))
    (frame_cursor self) (clock_time self) (runtime_generation self).

(** [prepare_execute] works on a copy and never changes the engine. *)
Definition prepare_execute (self : Engine) (envelope : Envelope) (now_millis : Z) :
    outcome EngineError EnginePrepareOutcome :=
  match Command.receipts (commands self) !! Command.idempotency_key envelope with
  | Some receipt => Ret (Replayed (Command.mk_apply_outcome receipt [] true))
  | None =>
      match execute_immediate envelope now_millis self with
      | (staged, Ret outcome) => Ret (Prepared (mk_prepared staged outcome (preparation_base self)))
      | (_, Throw e) => Throw e
      | (_, Panic) => Panic
      end
  end.
Definition commit_execute (prepared : PreparedEngineExecution) : engine_stm EngineCommandOutcome :=
  self ← st_get;
  _ ← st_require (preparation_base self = base prepared) ErrStalePreparation;
  _ ← st_put (staged prepared);
  mret (prepared_outcome prepared).
Definition execute (envelope : Envelope) (now_millis : Z) : engine_stm EngineCommandOutcome :=
  self ← st_get;
  match prepare_execute self envelope now_millis with
  | Ret (Replayed outcome) => mret outcome
  | Ret (Prepared prepared) => commit_execute prepared
  | Throw e => mthrow e
  | Panic => st_panic
  end.

(** ** Frames *)

Record FrameResult := mk_frame_result {
  result_frame : Z;
  result_deadline : Z;
  result_program : ProgramFrame;
  result_fade_to_black : FadeToBlack.FadeToBlackFrame;
  result_overlays : list Overlay.OverlayChannelState;
  result_events : Switcher.events;
  result_strip_updates : list (InputId * EngineInputAudioStripState);
  result_revision : Z;
  result_generation : Z
}.

Definition strip_update (command : EngineCommand.t) :
    list (InputId * EngineInputAudioStripState) :=
  match command with
  | EngineCommand.SetInputAudioStrip input state => [(input, state)]
  | _ => []
  end.
(** The loop over the actions of a tick. *)
Fixpoint apply_actions (l : list (Actions.ScheduledAction EngineCommand.t)) :
    engine_stm (Switcher.events * list (InputId * EngineInputAudioStripState)) :=
  match l with
  | [] => mret ([], [])
  | scheduled :: l =>
      let command := Actions.action scheduled in
      events ← st_zoom realized_switcher set_realized
        (st_map_err ErrRuntimeSwitcher (apply_runtime command));
      self ← st_get;
      next ← st_lift (result_map_err (λ _, ErrCounterExhausted)
        (Command.checked_next (runtime_generation self)));
      _ ← st_modify (set_generation next);
      '(more, updates) ← apply_actions l;
      mret (events ++ more, strip_update command ++ updates)
  end.
Definition program_changed (event : SwitcherEvent.t) : bool :=
  match event with
  | SwitcherEvent.ProgramChanged _ _ => true
  | _ => false
  end.

Definition next_frame_deadline (self : Engine) : outcome EngineError Z :=
  match (Plans.next_deadline (Scheduler.pacer (scheduler self))).2 with
  | Ret deadline => Ret (Plans.at_ns deadline)
  | Throw e => Throw (ErrTick (Scheduler.Pacing e))
  | Panic => Panic
  end.

Definition tick : engine_stm FrameResult :=
  self ← st_get;
  at_ns ← (match next_frame_deadline self with
           | Ret at_ns => mret at_ns
           | Throw e => mthrow e
           | Panic => st_panic
           end);
  _ ← st_zoom clock set_clock (st_map_err ErrClock (Clock.manual_set at_ns));
  tick ← st_zoom scheduler set_scheduler (st_map_err ErrTick (Scheduler.tick at_ns));
  _ ← st_modify (λ e, set_pending
        (saturating U64 (pending_actions e - Z.of_nat (length (Scheduler.tick_actions tick)))) e);
  '(events, updates) ← apply_actions (Scheduler.tick_actions tick);
  self ← st_get;
  let program := Switcher.program_frame (realized_switcher self) in
  fade ← st_expect (FadeToBlack.frame (Switcher.fade_to_black (realized_switcher self)));
  let overlays := Switcher.overlays (realized_switcher self) in
  more ← st_zoom realized_switcher set_realized (st_unwrap Switcher.advance_frame_events);
  _ ← (if existsb program_changed more then st_modify (set_in_flight None) else mret tt);
  self ← st_get;
  mret {|
    result_frame := Plans.frame (Scheduler.deadline tick);
    result_deadline := Plans.at_ns (Scheduler.deadline tick);
    result_program := program;
    result_fade_to_black := fade;
    result_overlays := overlays;
    result_events := events ++ more;
    result_strip_updates := updates;
    result_revision := Command.revision (commands self);
    result_generation := runtime_generation self
  |}.

(** ** Snapshots *)

Record EngineSnapshot := mk_snapshot {
  snap_show : ShowState;
  snap_realized : Switcher.SwitcherState;
  snap_epoch : Z;
  snap_revision : Z;
  snap_event_sequence : Z;
  snap_generation : Z;
  snap_frame_rate : FrameRate;
  snap_clock_domain : Z;
  snap_clock_time : Z;
  frames_rendered : Z;
  snap_receipts : list (IdempotencyKey * Receipt)
}.
Record EngineRestoreState := mk_restore {
  rs_epoch : Z;
  rs_revision : Z;
  rs_event_sequence : Z;
  rs_generation : Z;
  rs_clock_time : Z;
  rs_frame_cursor : Z;
  rs_receipts : list (IdempotencyKey * Receipt)
}.

Definition fade_is_automatic (s : Switcher.SwitcherState) : Prop :=
  is_Some (FadeToBlack.automatic (Switcher.fade_to_black s)).
Definition fade_active (s : Switcher.SwitcherState) : bool :=
  FadeToBlack.target_active (FadeToBlack.target (Switcher.fade_to_black s)).
Definition fade_position (s : Switcher.SwitcherState) : Z :=
  FadeToBlack.position (Switcher.fade_to_black s).
#[global] Instance fade_is_automatic_dec s : Decision (fade_is_automatic s).
Proof. unfold fade_is_automatic. apply _. Defined.

Definition in_flight (self : Engine) : Prop :=
  pending_actions self ≠ 0 ∨ is_Some (transition_in_flight self) ∨
  is_Some (Switcher.transition (realized_switcher self)) ∨
  fade_is_automatic (desired_switcher (show self)) ∨
  fade_is_automatic (realized_switcher self) ∨
  Switcher.overlays_in_motion (realized_switcher self) = true.
#[global] Instance in_flight_dec self : Decision (in_flight self).
Proof. unfold in_flight. apply _. Defined.

Definition key_before (p q : IdempotencyKey * Receipt) : Prop := key_le p.1 q.1.
#[global] Instance key_before_dec p q : Decision (key_before p q).
Proof. unfold key_before. apply _. Defined.

Definition snapshot (self : Engine) : result SnapshotError EngineSnapshot :=
  if decide (in_flight self) then Err WorkInFlight else
  Ok {|
    snap_show := show self;
    snap_realized := realized_switcher self;
    snap_epoch := Command.state_epoch (commands self);
    snap_revision := Command.revision (commands self);
    snap_event_sequence := Command.event_sequence (commands self);
    snap_generation := runtime_generation self;
    snap_frame_rate := frame_rate self;
    snap_clock_domain := Clock.snap_domain (Clock.snapshot (clock self));
    snap_clock_time := clock_time self;
    frames_rendered := frame_cursor self;
    snap_receipts := merge_sort key_before (map_to_list (receipt_history self))
  |}.

(** [PreparedEngineExecution::project]. *)
Fixpoint ticks (n : nat) : engine_stm unit :=
  match n with
  | O => mret tt
  | S n => _ ← tick; ticks n
  end.
Definition project (prepared : PreparedEngineExecution) (n : nat) :
    outcome EngineError EngineSnapshot :=
  match ticks n (staged prepared) with
  | (projected, Ret _) =>
      match snapshot projected with
      | Ok snap => Ret snap
      | Err e => Throw (ErrSnapshot e)
      end
  | (_, Throw e) => Throw e
  | (_, Panic) => Panic
  end.

(** The routing that a desired and a realized switcher must share. *)
Definition same_routing (d r : Switcher.SwitcherState) : Prop :=
  Switcher.program d = Switcher.program r ∧ Switcher.preview d = Switcher.preview r ∧
  fade_active d = fade_active r ∧ fade_position d = fade_position r ∧
  Switcher.stingers d = Switcher.stingers r ∧ Switcher.overlays d = Switcher.overlays r ∧
  Switcher.streams d = Switcher.streams r ∧
  Switcher.streams_running d = Switcher.streams_running r ∧
  Switcher.recording_desired d = Switcher.recording_desired r.
#[global] Instance same_routing_dec d r : Decision (same_routing d r).
Proof. unfold same_routing. apply _. Defined.
Definition same_manual (d r : option TBarState) : bool :=
  match d, r with
  | None, None => true
  | Some desired, Some realized =>
      manual_transition_supported (t_kind desired) && manual_transition_supported (t_kind realized) &&
      bool_decide (t_kind desired = t_kind realized) && bool_decide (t_from desired = t_from realized) &&
      bool_decide (t_to desired = t_to realized) && bool_decide (t_interval_start desired = 0) &&
      bool_decide (t_position desired = t_position realized) &&
      bool_decide (t_interval_start realized = t_position realized)
  | _, _ => false
  end.

(** The loop over the receipts; [n] are the accepted ones so far. *)
Fixpoint count_accepted (cursor n : Z) (l : list (IdempotencyKey * Receipt)) :
    result SnapshotError Z :=
  match l with
  | [] => Ok n
  | (_, receipt) :: l =>
      match accepted receipt with
      | Some result =>
          next ← ok_or InvalidFrameCounter (checked U64 (n + 1));
          if decide (cursor ≤ acc_target_frame result)
          then Err (UnrealizedAcceptedReceipt (acc_target_frame result) cursor)
          else count_accepted cursor next l
      | None => count_accepted cursor n l
      end
  end.

Definition validate_idle_restore (show : ShowState) (realized : Switcher.SwitcherState)
    (rs : EngineRestoreState) (rate : FrameRate) : outcome SnapshotError unit :=
  let desired := desired_switcher show in
  if decide (is_Some (Switcher.transition desired) ∨ is_Some (Switcher.transition realized))
  then Throw WorkInFlight else
  if decide (fade_is_automatic desired ∨ fade_is_automatic realized) then Throw WorkInFlight else
  if decide (show_inputs show ≠ Switcher.inputs realized) then Throw IncompatibleSwitcher else
  if decide (¬ same_routing desired realized) then Throw MismatchedSwitcherRouting else
  if same_manual (Switcher.t_bar desired) (Switcher.t_bar realized) then
    let cursor := rs_frame_cursor rs in
    match (if decide (cursor = 0) then Ret 0 else
           match (Plans.deadline_for (cursor - 1) (Plans.pacer_new rate 0)).2 with
           | Ret deadline => Ret (Plans.at_ns deadline)
           | Throw _ => Throw InvalidFrameCounter
           | Panic => Panic
           end) with
    | Ret expected =>
        if decide (rs_clock_time rs ≠ expected)
        then Throw (ClockTimeMismatch expected (rs_clock_time rs)) else
        match count_accepted cursor 0 (rs_receipts rs) with
        | Ok n =>
            if decide (rs_revision rs ≠ n ∨ rs_event_sequence rs ≠ n ∨ rs_generation rs ≠ n)
            then Throw (CounterMismatch n (rs_revision rs) (rs_event_sequence rs)
                          (rs_generation rs))
            else Ret tt
        | Err e => Throw e
        end
    | Throw e => Throw e
    | Panic => Panic
    end
  else Throw MismatchedManualTransition.

Definition restore_persisted (show : ShowState) (realized : Switcher.SwitcherState)
    (rate : FrameRate) (clock_domain : Z) (rs : EngineRestoreState) :
    outcome SnapshotError Engine :=
  match validate_idle_restore show realized rs rate with
  | Ret _ =>
      match Scheduler.scheduler_restore rate 0 (rs_frame_cursor rs) 0 tt with
      | Ret scheduler =>
          Ret (mk_engine
            (Command.restore_with_receipts show (rs_epoch rs) (rs_revision rs)
               (rs_event_sequence rs) (rs_receipts rs))
            (foldl (λ m p, <[p.1 := p.2]> m) ∅ (rs_receipts rs))
            realized scheduler (Clock.manual_new clock_domain (rs_clock_time rs)) rate
            (rs_generation rs) 0 None)
      | Throw _ => Throw InvalidFrameCounter
      | Panic => Panic
      end
  | Throw e => Throw e
  | Panic => Panic
  end.
Definition restore (snap : EngineSnapshot) : outcome EngineError Engine :=
  match restore_persisted (snap_show snap) (snap_realized snap) (snap_frame_rate snap)
          (snap_clock_domain snap)
          (mk_restore (snap_epoch snap) (snap_revision snap) (snap_event_sequence snap)
             (snap_generation snap) (snap_clock_time snap) (frames_rendered snap)
             (snap_receipts snap)) with
  | Ret e => Ret e
  | Throw e => Throw (ErrSnapshot e)
  | Panic => Panic
  end.

(** ** Views *)

Record EngineManualTransitionState := mk_manual_state {
  manual_kind : EngineManualTransitionKind;
  manual_from : InputId;
  manual_to : InputId;
  manual_interval_start : TBarPosition;
  manual_position : TBarPosition
}.
Record EngineFadeToBlackState := mk_fade_state { fade_to_active : bool; fade_at : Z }.
#[global] Instance EngineFadeToBlackState_eq_dec : EqDecision EngineFadeToBlackState.
Proof. solve_decision. Defined.

(** [None] is a panic: no T-bar that the switcher accepts gives it. *)
Definition engine_manual_state (state : TBarState) : option EngineManualTransitionState :=
  kind ← (match t_kind state with
          | Fade => Some ManualFade
          | Wipe => Some ManualWipe
          | AlphaFade => Some ManualAlphaFade
          | Slide => Some ManualSlide
          | _ => None
          end);
  interval_start ← t_bar_position_new (t_interval_start state);
  position ← t_bar_position_new (t_position state);
  Some (mk_manual_state kind (t_from state) (t_to state) interval_start position).
Definition manual_transition_of (s : Switcher.SwitcherState) :
    option (option EngineManualTransitionState) :=
  match Switcher.t_bar s with
  | None => Some None
  | Some state => Some <$> engine_manual_state state
  end.
Definition desired_manual_transition (self : Engine) := manual_transition_of (desired_switcher (show self)).
Definition realized_manual_transition (self : Engine) := manual_transition_of (realized_switcher self).
Definition engine_fade_to_black_state (s : Switcher.SwitcherState) : EngineFadeToBlackState :=
  mk_fade_state (fade_active s) (fade_position s).
Definition desired_fade_to_black (self : Engine) : EngineFadeToBlackState :=
  engine_fade_to_black_state (desired_switcher (show self)).
Definition realized_fade_to_black (self : Engine) : EngineFadeToBlackState :=
  engine_fade_to_black_state (realized_switcher self).
