(* ===== verification/EngineSim.v ===== *)
(** The mutation of a command and its action at the next frame agree.  The
    desired switcher of the show is the realized switcher of the engine with
    every animation at its end ([Settle.settle]); [mutation_total] shows that a
    mutation keeps the show well formed and never panics, [runtime_sim] that the
    action of an accepted command succeeds on the realized switcher and keeps the
    two in agreement. *)
From S2P Require Import Prelude BTree Types EngineShow Engine.
From S2P Require Command FadeToBlack Overlay SwitcherTypes Switcher Settle.
Import SwitcherTypes.
Import Settle.
#[local] Open Scope Z_scope.

(** ** What a client can send *)

(** The ranges of the argument types. *)
Definition command_ok (c : EngineCommand.t) : Prop :=
  match c with
  | EngineCommand.Fade d | EngineCommand.AlphaFade d | EngineCommand.Slide d
  | EngineCommand.Zoom d | EngineCommand.Wipe d | EngineCommand.FadeToBlack _ d => in_ty U32 d
  | EngineCommand.Stinger n d => Switcher.slot_ok n ∧ in_ty U32 d
  | EngineCommand.ConfigureStinger n _ | EngineCommand.RemoveStinger n => Switcher.slot_ok n
  | EngineCommand.TakeOverlay ch _ | EngineCommand.UpdateOverlay ch _
  | EngineCommand.OverlayOff ch | EngineCommand.ConfigureOverlayAppearance ch _ _
  | EngineCommand.QueueOverlay ch _ | EngineCommand.TakeNextOverlay ch
  | EngineCommand.SetOverlayOutputInclusion ch _ _ => Switcher.channel_ok ch
  | EngineCommand.ConfigureOverlayTransition ch _ d => Switcher.channel_ok ch ∧ in_ty U32 d
  | EngineCommand.SetManualTransitionPosition p => Switcher.t_position_ok p
  | _ => True
  end.

(** ** Mutations keep the show well formed *)

(** The desired switcher is at rest: it has no animation of its own. *)
Definition show_at_rest (s : ShowState) : Prop :=
  settle (desired_switcher s) = desired_switcher s.

Section draft.
Context (show : ShowState) (evs : list EngineEvent.t).

Lemma wp_on_show {E A} (m : stm ShowState E A) Q :
  wp m (λ r s', Q r (s', evs)) show → wp (on_show m) Q (show, evs).
Proof. intros. by apply wp_zoom. Qed.
Lemma wp_desired {A} (m : stm Switcher.SwitcherState SwitcherError A) Q :
  wp m (λ r d, Q (outcome_map_err switcher_rejection r) (set_desired d show, evs))
    (desired_switcher show) →
  wp (desired m) Q (show, evs).
Proof. intros. unfold desired. apply wp_map_err, wp_on_show. unfold on_desired. by apply wp_zoom. Qed.
Lemma wp_push_event ev (Q : outcome Rejection unit → _ → Prop) :
  Q (Ret tt) (show, evs ++ [ev]) → wp (push_event ev) Q (show, evs).
Proof. done. Qed.
End draft.

(** A method of the desired switcher that is safe keeps the show well formed. *)
Definition mutated (show : ShowState) (r : outcome Rejection EngineAcceptance)
    (s : ShowState * list EngineEvent.t) : Prop :=
  match r with
  | Ret _ => show_wf s.1
  | Throw _ => True
  | Panic => False
  end.

(** No method but [reorder_inputs] changes the inputs. *)
Definition inputs_kept {E A} (s : Switcher.SwitcherState) (_ : outcome E A)
    (s' : Switcher.SwitcherState) : Prop := Switcher.inputs s' = Switcher.inputs s.
Lemma apply_inputs c s : wp (Switcher.apply c) (inputs_kept s) s.
Proof.
  assert (Hstart : ∀ k d, wp (Switcher.start_transition k d) (inputs_kept s) s).
  { intros k d. unfold Switcher.start_transition. cbn [Switcher.start_transition_fuel].
    unfold Switcher.begin_transition, Switcher.stinger_playback_decision,
      Switcher.apply_stinger_fallback, Switcher.complete_take, Switcher.stinger.
    destruct k; wp_run; by simplify_eq. }
  destruct c; simpl.
  3, 4: unfold Switcher.require_idle; wp_step; wp_step; wp_step; cbn beta iota;
    wp_step; intros; [|done]; cbn beta iota; apply wp_bind, wp_require; intros; [apply Hstart|done].
  all: unfold Switcher.start_t_bar, Switcher.set_t_bar_position, Switcher.commit_t_bar,
    Switcher.cancel_t_bar, Switcher.take_overlay, Switcher.update_overlay, Switcher.with_source,
    Switcher.overlay_off, Switcher.configure_overlay_transition,
    Switcher.configure_overlay_appearance, Switcher.queue_overlay, Switcher.take_next_overlay,
    Switcher.advance_queue, Switcher.set_overlay_output_inclusion, Switcher.set_stream_running,
    Switcher.set_recording_desired, Switcher.overlay, Switcher.put_overlay, Switcher.take_t_bar,
    Switcher.complete_take, Switcher.require_idle, Switcher.require_input.
  all: wp_run; by simplify_eq.
Qed.
Lemma configure_stinger_inputs n d s : wp (Switcher.configure_stinger n d) (inputs_kept s) s.
Proof.
  unfold Switcher.configure_stinger, Switcher.require_input, Switcher.stinger, Switcher.put_stinger.
  wp_run; by simplify_eq.
Qed.
Lemma preload_stinger_inputs n b s : wp (Switcher.preload_stinger n b) (inputs_kept s) s.
Proof.
  unfold Switcher.preload_stinger, Switcher.stinger, Switcher.put_stinger. wp_run; by simplify_eq.
Qed.
Lemma remove_stinger_inputs n s : wp (Switcher.remove_stinger n) (inputs_kept s) s.
Proof.
  unfold Switcher.remove_stinger, Switcher.stinger, Switcher.put_stinger. wp_run; by simplify_eq.
Qed.

Lemma wp_desired_safe {A} (m : stm Switcher.SwitcherState SwitcherError A) Q show evs :
  show_wf show →
  wp m (Switcher.safe (desired_switcher show)) (desired_switcher show) →
  wp m (inputs_kept (desired_switcher show)) (desired_switcher show) →
  (∀ a d, m (desired_switcher show) = (d, Ret a) → show_wf (set_desired d show) →
    Q (Ret a) (set_desired d show, evs)) →
  (∀ e s, Q (Throw e) s) →
  wp (desired m) Q (show, evs).
Proof.
  intros Hwf Hs Hi HQ Ht. apply wp_desired. unfold wp in *. unfold Switcher.safe, inputs_kept in *.
  destruct (m (desired_switcher show)) as [d [a|e|]]; simpl in *; [|done|by destruct Hs].
  apply HQ; [done|]. destruct Hs as [Hs _]. apply set_desired_wf; [done..|].
  by rewrite Hi, (sh_inputs _ Hwf).
Qed.

(** Every mutation has the same end: an event and an acceptance. *)
Lemma wp_accept show evs ev n :
  show_wf show →
  wp (_ ← push_event ev; mret (mk_acceptance n)) (mutated show) (show, evs).
Proof. done. Qed.
Lemma wp_desired_accept {A} (m : stm Switcher.SwitcherState SwitcherError A) show evs ev n :
  show_wf show →
  wp m (Switcher.safe (desired_switcher show)) (desired_switcher show) →
  wp m (inputs_kept (desired_switcher show)) (desired_switcher show) →
  wp (_ ← desired m; _ ← push_event ev; mret (mk_acceptance n)) (mutated show) (show, evs).
Proof.
  intros. apply wp_bind, wp_desired_safe; [done..| |done]. intros a d _ Hd. by apply wp_accept.
Qed.

Section total.
Context (show : ShowState) (evs : list EngineEvent.t) (Hwf : show_wf show) (n : Z).

Lemma stream_statuses_total s :
  Switcher.switcher_wf (desired_switcher s) → is_Some (desired_stream_statuses s).
Proof.
  intros Hs. unfold desired_stream_statuses. apply mapM_is_Some, Forall_forall. intros st Hst.
  unfold Switcher.stream_running. simpl. case_decide as Hin; [by eexists|]. destruct Hin.
  apply list_elem_of_fmap. by exists st.
Qed.
Lemma apply_stream_total t b : wp (apply_stream_mutation t b n) (mutated show) (show, evs).
Proof.
  unfold apply_stream_mutation. apply wp_bind, wp_desired_safe; [done|..|done].
  - by apply Switcher.set_stream_running_safe, sh_switcher.
  - apply (apply_inputs (SwitcherCommand.SetStreamRunning t b)).
  - intros l d _ Hd. cbn beta iota. apply wp_bind, wp_get. cbn beta iota.
    apply wp_bind, wp_expect; [intros sts _; by apply wp_accept|].
    destruct (stream_statuses_total (set_desired d show)) as [? ->]; [|done].
    apply (sh_switcher _ Hd).
Qed.
Lemma apply_recording_total b : wp (apply_recording_mutation b n) (mutated show) (show, evs).
Proof.
  unfold apply_recording_mutation. apply wp_bind, wp_get. cbn beta iota.
  apply wp_bind, wp_desired_safe; [done|..|done].
  - by apply Switcher.set_recording_desired_safe, sh_switcher.
  - apply (apply_inputs (SwitcherCommand.SetRecordingDesired b)).
  - intros l d _ Hd. cbn beta iota. by case_decide.
Qed.
Lemma apply_fade_to_black_total b d :
  wp (apply_fade_to_black_mutation b d n) (mutated show) (show, evs).
Proof.
  unfold apply_fade_to_black_mutation. apply wp_bind, wp_lift; [|done]. intros [] _. cbn beta iota.
  apply wp_bind. cbn. apply wp_accept. apply set_desired_wf; [done| |].
  - apply Switcher.set_ftb_wf; [apply Hwf|apply FadeToBlack.settled_wf].
  - simpl. by rewrite (sh_inputs _ Hwf).
Qed.
Lemma apply_overlay_total c :
  command_ok c → is_overlay_command c = true →
  wp (apply_overlay_mutation c n) (mutated show) (show, evs).
Proof.
  intros Hc Hov. unfold apply_overlay_mutation. apply wp_bind, wp_get. cbn beta iota.
  assert (Hrest : wp (switcher_command ← st_expect (overlay_command c);
      _ ← desired (Switcher.apply switcher_command);
      _ ← push_event (EngineEvent.DesiredSwitcherChanged c); mret (mk_acceptance n))
      (mutated show) (show, evs)).
  { apply wp_bind, wp_expect; [|by destruct c]. intros c' Hc'. cbn beta iota.
    apply wp_desired_accept; [done| |apply apply_inputs].
    apply Switcher.apply_safe; [apply Hwf|]. destruct c; simplify_eq/=; done. }
  apply wp_bind. destruct c; try (apply wp_ret; exact Hrest).
  apply wp_require; [intros _; exact Hrest|done].
Qed.
Lemma apply_stinger_total c :
  command_ok c →
  match c with EngineCommand.ConfigureStinger _ _ | EngineCommand.RemoveStinger _ => True | _ => False end →
  wp (apply_stinger_mutation c n) (mutated show) (show, evs).
Proof.
  intros Hc Hst. unfold apply_stinger_mutation. apply wp_bind, wp_get. cbn beta iota.
  apply wp_bind, wp_require; [intros _|done]. cbn beta iota. apply wp_bind.
  destruct c as [| | | | | | | | | |slot d|slot| | | | | | | | | | | | | | | | | |]; try done.
  - apply wp_bind, wp_desired_safe; [done|..|done].
    + apply Switcher.configure_stinger_safe; [apply Hwf|done].
    + apply configure_stinger_inputs.
    + intros a s _ Hs. cbn beta iota. destruct (preload d); [|by apply wp_ret, wp_accept].
      apply wp_bind, wp_desired_safe; [done|..|done].
      * apply Switcher.preload_stinger_safe; [apply Hs|done].
      * apply preload_stinger_inputs.
      * intros ev s' _ Hs'. by apply wp_ret, wp_accept.
  - pose proof (Switcher.remove_stinger_safe slot _ (sh_switcher _ Hwf) Hc) as Hs.
    pose proof (remove_stinger_inputs slot (desired_switcher show)) as Hi.
    unfold wp, inputs_kept, Switcher.safe in *. unfold st_unwrap, on_show, show_remove_stinger,
      on_desired, st_zoom. simpl.
    destruct (Switcher.remove_stinger slot (desired_switcher show)) as [s [[]|[]|]]; simpl in *;
      [|by destruct Hs].
    destruct Hs as [Hs _]. apply set_desired_wf; [done..|]. by rewrite Hi, (sh_inputs _ Hwf).
Qed.
Lemma apply_rename_total i name : wp (apply_rename_mutation i name n) (mutated show) (show, evs).
Proof.
  unfold apply_rename_mutation. apply wp_bind, wp_map_err, wp_on_show.
  eapply wp_mono; [by apply rename_input_spec|]. intros [[]|e|] s' Hs; simpl; [|done..].
  apply wp_accept, Hs.
Qed.
Lemma apply_reorder_total l : wp (apply_reorder_mutation l n) (mutated show) (show, evs).
Proof.
  unfold apply_reorder_mutation. apply wp_bind, wp_map_err, wp_on_show.
  eapply wp_mono; [by apply show_reorder_spec|]. intros [[]|e|] s' Hs; simpl; [|done..].
  apply wp_accept, Hs.
Qed.
Lemma apply_strip_total i st : wp (apply_strip_mutation i st n) (mutated show) (show, evs).
Proof.
  unfold apply_strip_mutation.
  apply wp_bind, wp_require; [intros Hg|done]. cbn beta iota.
  apply wp_bind, wp_require; [intros Hb|done]. cbn beta iota.
  apply wp_bind, wp_require; [intros Hd|done]. cbn beta iota.
  apply wp_bind, wp_map_err, wp_on_show. eapply wp_mono.
  - apply set_input_audio_strip_spec; [done|].
    unfold strip_ok, MIN_INPUT_AUDIO_GAIN_MILLIDB, MAX_INPUT_AUDIO_GAIN_MILLIDB,
      MIN_INPUT_AUDIO_BALANCE_BASIS_POINTS, MAX_INPUT_AUDIO_BALANCE_BASIS_POINTS,
      MAX_INPUT_AUDIO_DELAY_SAMPLES in *. lia.
  - intros [[]|e|] s' Hs; simpl; [|done..]. apply wp_accept, Hs.
Qed.
End total.

(** The commands that change the route. *)
Definition is_switching (c : EngineCommand.t) : bool :=
  match c with
  | EngineCommand.SelectPreview _ | EngineCommand.Cut | EngineCommand.Fade _
  | EngineCommand.AlphaFade _ | EngineCommand.Slide _ | EngineCommand.Zoom _
  | EngineCommand.Wipe _ | EngineCommand.Stinger _ _ | EngineCommand.StartManualTransition _
  | EngineCommand.SetManualTransitionPosition _ | EngineCommand.CommitManualTransition
  | EngineCommand.CancelManualTransition => true
  | _ => false
  end.

Section switching.
Context (show : ShowState) (evs : list EngineEvent.t) (Hwf : show_wf show).

(** What a stinger command becomes, by the state of its slot. *)
Lemma stinger_command_spec slot d (Q : outcome Rejection (option SwitcherCommand.t) → _ → Prop) :
  Switcher.slot_ok slot →
  (∀ e s, Q (Throw e) s) →
  (∀ o de, Switcher.stingers (desired_switcher show) !! Z.to_nat (slot - 1) = Some o →
    descriptor o = Some de → 1 ≤ d ≤ MAX_TRANSITION_DURATION_FRAMES ∨ d < 0 →
    if decide (preload_state o = Ready) then
      ¬ d < cut_point_frames de → Q (Ret (Some SwitcherCommand.Cut)) (show, evs)
    else match missing_media_fallback de with
    | KeepProgram => Q (Ret None) (show, evs)
    | FallbackCut | FallbackFade => Q (Ret (Some SwitcherCommand.Cut)) (show, evs)
    end) →
  wp (switching_command (EngineCommand.Stinger slot d)) Q (show, evs).
Proof.
  intros Hslot Ht HQ. simpl. apply wp_bind, wp_lift; [|auto]. intros [] Hv.
  assert (Hd : 1 ≤ d ≤ MAX_TRANSITION_DURATION_FRAMES ∨ d < 0).
  { unfold validate_transition_duration in Hv. repeat case_decide; try done. lia. }
  cbn beta iota. apply wp_bind, wp_desired. unfold Switcher.stinger_playback_decision.
  apply wp_bind, Switcher.wp_stinger; [apply Hwf|done|]. intros o Ho Hwo. cbn beta iota.
  apply wp_ret. cbn beta iota. simpl. specialize (HQ o).
  assert (Hset : set_desired (desired_switcher show) show = show) by by destruct show.
  rewrite Hset.
  destruct (descriptor o) as [de|] eqn:Hde; [|by apply wp_throw].
  specialize (HQ de Ho eq_refl Hd). case_decide as Hr.
  - apply wp_bind, wp_desired. apply Switcher.wp_stinger; [apply Hwf|done|].
    intros o' Ho' _. simplify_eq. cbn beta iota. simpl. rewrite Hset.
    apply wp_bind, wp_expect; [|congruence]. intros de' Hde'. simplify_eq. cbn beta iota.
    apply wp_bind, wp_require; auto.
  - destruct (missing_media_fallback de); by apply wp_ret.
Qed.
Lemma duration_command_spec name d (c : SwitcherCommand.t)
    (Q : outcome Rejection (option SwitcherCommand.t) → _ → Prop) :
  (∀ e s, Q (Throw e) s) →
  (d ≠ 0 → d ≤ MAX_TRANSITION_DURATION_FRAMES → Q (Ret (Some c)) (show, evs)) →
  wp (_ ← st_lift (validate_transition_duration name d); mret (Some c)) Q (show, evs).
Proof.
  intros Ht HQ. apply wp_bind, wp_lift; [|auto]. intros [] Hv. cbn beta iota. apply wp_ret.
  unfold validate_transition_duration in Hv. repeat case_decide; try done. apply HQ; [done|lia].
Qed.
Lemma switching_total c :
  command_ok c → is_switching c = true →
  wp (switching_command c) (λ r s, s = (show, evs) ∧ match r with
    | Ret (Some c') => Switcher.command_ok c'
    | Ret None | Throw _ => True
    | Panic => False
    end ∨ ∃ e, r = Throw e) (show, evs).
Proof.
  intros Hc Hsw. destruct c; try done;
    try (apply duration_command_spec; [by eauto|by left]);
    try (apply wp_ret; by left).
  - destruct Hc as [Hslot _]. apply stinger_command_spec; [done|by eauto|].
    intros o de _ _ _. case_decide; [by left|]. destruct (missing_media_fallback de); by left.
  - apply wp_ret. left. by destruct kind.
Qed.
End switching.

(** A mutation never panics and keeps the show well formed. *)
Lemma mutation_total show evs m :
  show_wf show → command_ok (mut_command m) →
  wp (mutation_apply m) (mutated show) (show, evs).
Proof.
  intros Hwf Hc. destruct m as [c n]. simpl in Hc. unfold mutation_apply. simpl.
  assert (Hsw : is_switching c = true →
    wp (c' ← switching_command c;
        _ ← (match c' with Some c' => _ ← desired (Switcher.apply c'); mret tt | None => mret tt end);
        _ ← push_event (EngineEvent.DesiredSwitcherChanged c); mret (mk_acceptance n))
       (mutated show) (show, evs)).
  { intros Hs. apply wp_bind. eapply wp_mono; [by apply switching_total|].
    intros [[c'|]|e|] s Hp; [|..|by destruct Hp as [[_ []]|[? ?]]]; [| |done].
    - destruct Hp as [[-> Hc']|[? ?]]; [|done]. apply wp_bind, wp_bind, wp_desired_safe; [done|..|done].
      + by apply Switcher.apply_safe; [apply Hwf|].
      + apply apply_inputs.
      + intros l d _ Hd. by apply wp_ret, wp_accept.
    - destruct Hp as [[-> _]|[? ?]]; [|done]. by apply wp_bind, wp_ret, wp_accept. }
  destruct c; try (by apply Hsw); try (by apply apply_overlay_total).
  - by apply apply_reorder_total.
  - by apply apply_rename_total.
  - by apply apply_strip_total.
  - by apply apply_stinger_total.
  - by apply apply_stinger_total.
  - by apply apply_fade_to_black_total.
  - by apply apply_stream_total.
  - by apply apply_stream_total.
  - by apply apply_recording_total.
  - by apply apply_recording_total.
Qed.

(** ** Actions *)

Lemma wp_unwrap {S E E' A} (m : stm S E A) (Q : outcome E' A → S → Prop) s :
  wp m (λ r s', match r with Ret a => Q (Ret a) s' | _ => Q Panic s' end) s →
  wp (st_unwrap m) Q s.
Proof. unfold wp, st_unwrap. by destruct (m s) as [s' [a|e|]]. Qed.

(** Whatever an action returns, it leaves a well-formed switcher. *)
Definition left_wf {A} (_ : outcome SwitcherError A) (s : Switcher.SwitcherState) : Prop :=
  Switcher.switcher_wf s.
Lemma runtime_wf c r :
  Switcher.switcher_wf r → command_ok c → wp (apply_runtime c) left_wf r.
Proof.
  intros Hwf Hc.
  assert (Happ : ∀ c', Switcher.command_ok c' → wp (Switcher.apply c') left_wf r).
  { intros c' Hc'. eapply wp_mono; [by apply Switcher.apply_safe|]. by intros ? ? [? _]. }
  destruct c; cbn [apply_runtime apply_runtime_overlay overlay_command];
    try (apply wp_bind, wp_expect; [intros ? [= <-]|done]; cbn beta iota);
    try (apply Happ; first [done|by destruct Hc|by destruct kind]).
  - apply wp_bind, wp_unwrap. eapply wp_mono; [by apply Switcher.reorder_inputs_safe|].
    by intros [[]|e|] s' [? _].
  - done.
  - done.
  - apply wp_bind. eapply wp_mono; [by apply Switcher.configure_stinger_safe|].
    intros [[]|e|] s' [Hs He]; [|done..]. destruct (preload descriptor); [|done].
    apply wp_bind. eapply wp_mono; [by apply Switcher.preload_stinger_safe|].
    by intros [ev|e|] s2 [? _].
  - apply wp_bind, wp_unwrap. eapply wp_mono; [by apply Switcher.remove_stinger_safe|].
    by intros [[]|e|] s' [? _].
  - eapply wp_mono; [apply Switcher.with_source_safe; auto using Overlay.request_take_wf|].
    by intros ? ? [? _].
  - eapply wp_mono; [by apply Switcher.request_overlay_off_safe|]. by intros ? ? [? _].
  - eapply wp_mono; [by apply Switcher.request_overlay_take_next_safe|]. by intros ? ? [? _].
  - apply wp_unwrap. eapply wp_mono; [by apply Switcher.request_fade_to_black_safe|].
    by intros [l|e|] s' [? _].
  - eapply wp_mono; [by apply Switcher.set_stream_running_safe|]. by intros ? ? [? _].
  - eapply wp_mono; [by apply Switcher.set_stream_running_safe|]. by intros ? ? [? _].
  - eapply wp_mono; [by apply Switcher.set_recording_desired_safe|]. by intros ? ? [? _].
  - eapply wp_mono; [by apply Switcher.set_recording_desired_safe|]. by intros ? ? [? _].
Qed.

(** The transition that runs after an action: the one that was running, or the
    one the command starts. *)
Definition transition_after (show : ShowState) (c : EngineCommand.t)
    (r r' : Switcher.SwitcherState) : Prop :=
  match Switcher.transition r with
  | Some t => Switcher.transition r' = Some t
  | None =>
      match runtime_transition show c with
      | Ret (Some k) => ∃ d, 1 ≤ d ≤ MAX_TRANSITION_DURATION_FRAMES ∧
          Switcher.transition r' =
            Some (transition_new k (Switcher.program r) (Switcher.preview r) d)
      | Ret None => Switcher.transition r' = None
      | _ => False
      end
  end.
(** What an accepted mutation promises of its action on the realized switcher [r]. *)
Definition realizes (c : EngineCommand.t) (n : Z) (r : Switcher.SwitcherState)
    (out : outcome Rejection EngineAcceptance) (s : ShowState * list EngineEvent.t) : Prop :=
  match out with
  | Ret a => a = mk_acceptance n ∧
      ∃ r' l, apply_runtime c r = (r', Ret l) ∧ desired_switcher s.1 = settle r' ∧
        transition_after s.1 c r r'
  | _ => True
  end.
(** A stinger is fired only while no T-bar is held. *)
Definition fires_idle (show : ShowState) (c : EngineCommand.t) : Prop :=
  match c with
  | EngineCommand.Stinger _ _ => Switcher.t_bar (desired_switcher show) = None
  | _ => True
  end.
#[global] Instance fires_idle_dec show c : Decision (fires_idle show c).
Proof. destruct c; apply _. Defined.

Lemma wp_desired_sim {A B} (md : stm _ SwitcherError A) (mr : stm _ SwitcherError B)
    (R : A → B → _ → Prop) Q show evs r :
  desired_switcher show = settle r → sim md mr R r →
  (∀ a b r', md (settle r) = (settle r', Ret a) → mr r = (r', Ret b) → R a b r' →
    Q (Ret a) (set_desired (settle r') show, evs)) →
  (∀ e s, Q (Throw e) s) → (∀ s, Q Panic s) →
  wp (desired md) Q (show, evs).
Proof.
  intros Hd Hs HQ Ht Hp. apply wp_desired. unfold wp, sim in *. rewrite Hd.
  destruct (md (settle r)) as [d [a|e|]] eqn:Hmd; simpl; [|done..].
  destruct Hs as (r'&b&Hr&->&HR). by eapply HQ.
Qed.

Section realize.
Context (show : ShowState) (evs : list EngineEvent.t) (n : Z) (r : Switcher.SwitcherState).
Context (Hwf : show_wf show) (Hr : Switcher.switcher_wf r).
Context (Hdes : desired_switcher show = settle r).

(** The last steps of a mutation that mirrors its action. *)
Lemma realize_undisturbed {A} (md : stm _ SwitcherError A) c ev :
  runtime_transition show c = Ret None →
  (∀ d, runtime_transition (set_desired d show) c = runtime_transition show c) →
  sim md (apply_runtime c) (undisturbed r) r →
  wp (_ ← desired md; _ ← push_event ev; mret (mk_acceptance n)) (realizes c n r) (show, evs).
Proof.
  intros Hn Hsame Hs. apply wp_bind. eapply wp_desired_sim; [done|exact Hs| |done..].
  intros a l r' _ Hrun Hu. split; [done|]. exists r', l. split_and!; [done..|]. simpl.
  unfold transition_after. rewrite Hsame, Hn. red in Hu.
  by destruct (Switcher.transition r).
Qed.
Lemma realize_cut c ev (R : Switcher.events → Switcher.events → Switcher.SwitcherState → Prop) :
  sim (Switcher.apply SwitcherCommand.Cut) (apply_runtime c) R r →
  (∀ a b r', Switcher.stingers (settle r') = Switcher.stingers (desired_switcher show) →
    R a b r' → transition_after (set_desired (settle r') show) c r r') →
  wp (_ ← (_ ← desired (Switcher.apply SwitcherCommand.Cut); mret tt); _ ← push_event ev;
      mret (mk_acceptance n)) (realizes c n r) (show, evs).
Proof.
  intros Hs HR. apply wp_bind, wp_bind. eapply wp_desired_sim; [done|exact Hs| |done..].
  intros a l r' Hmd Hrun Hu. split; [done|]. exists r', l. split_and!; [done..|].
  apply (HR a l r'); [|done]. rewrite Hdes.
  apply (f_equal (λ p, (Switcher.stingers p.1, p.2))) in Hmd. revert Hmd.
  cbv [Switcher.apply Switcher.require_idle mbind stm_bind st_get st_require].
  case_decide; simpl; congruence.
Qed.
Lemma realize_transition c k d ev :
  Switcher.transition r = None → 0 ≤ d → d ≠ 0 → d ≤ MAX_TRANSITION_DURATION_FRAMES →
  match k with Stinger _ => False | _ => True end →
  apply_runtime c = Switcher.apply (SwitcherCommand.Transition k d) →
  (∀ s, runtime_transition s c = Ret (Some k)) →
  wp (_ ← (_ ← desired (Switcher.apply SwitcherCommand.Cut); mret tt); _ ← push_event ev;
      mret (mk_acceptance n)) (realizes c n r) (show, evs).
Proof.
  intros Ht ???? Hrt Hk. eapply realize_cut.
  - rewrite Hrt. by apply sim_transition.
  - intros a b r' _ Hst. unfold transition_after. rewrite Ht, Hk. exists d. split; [lia|done].
Qed.
Lemma realize_stinger slot d :
  command_ok (EngineCommand.Stinger slot d) →
  Switcher.transition r = None → fires_idle show (EngineCommand.Stinger slot d) →
  wp (mutation_apply (mk_mutation (EngineCommand.Stinger slot d) n))
    (realizes (EngineCommand.Stinger slot d) n r) (show, evs).
Proof.
  intros [Hslot Hd] Ht Hfire. unfold mutation_apply. cbn [mut_command is_overlay_command overlay_command].
  apply wp_bind, stinger_command_spec; [done..|]. intros o de Ho Hde Hdur. simpl mut_target_frame.
  assert (Hd0 : d ≠ 0) by lia. assert (Hpos : 1 ≤ d ≤ MAX_TRANSITION_DURATION_FRAMES).
  { unfold in_ty in Hd. simpl in Hd. lia. }
  pose proof (Switcher.slot_index_eq slot Hslot) as Hi.
  rewrite Hdes in Ho. simpl in Ho.
  pose proof (sim_stinger_transition slot d o de _ r Hi Ho Hde Hd0 Ht) as Hsim. cbv zeta in Hsim.
  assert (Hkind : ∀ s, Switcher.stingers (desired_switcher s) = Switcher.stingers r →
    runtime_transition s (EngineCommand.Stinger slot d) =
    Ret (if decide (preload_state o = Ready) then Some (Stinger slot)
         else match missing_media_fallback de with FallbackFade => Some Fade | _ => None end)).
  { intros s Hs. simpl. unfold stinger_runtime_transition, Switcher.stinger_playback_decision,
      Switcher.stinger, mbind, stm_bind, st_get, st_expect. rewrite Hi, Hs, Ho. simpl. rewrite Hde.
    case_decide; [done|]. by destruct (missing_media_fallback de). }
  assert (Hafter : ∀ r', Switcher.stingers (settle r') = Switcher.stingers (desired_switcher show) →
    Switcher.transition r' = (if decide (preload_state o = Ready)
      then Some (transition_new (Stinger slot) (Switcher.program r) (Switcher.preview r) d)
      else match missing_media_fallback de with
           | FallbackFade => Some (transition_new Fade (Switcher.program r) (Switcher.preview r) d)
           | _ => None end) →
    transition_after (set_desired (settle r') show) (EngineCommand.Stinger slot d) r r').
  { intros r' Hs Htr. unfold transition_after. rewrite Ht, Hkind by (rewrite Hdes in Hs; exact Hs).
    case_decide; [by eauto|]. destruct (missing_media_fallback de); by eauto. }
  case_decide as Hready.
  - intros Hcp. cbn beta iota. eapply realize_cut; [by apply Hsim|]. intros a b r' Hs Hst.
    by apply Hafter.
  - destruct (missing_media_fallback de) eqn:Hfb; cbn beta iota.
    + eapply realize_cut; [by apply Hsim|]. intros a b r' Hs Hst. apply Hafter; [done|].
      red in Hst. by rewrite Hst.
    + eapply realize_cut; [by apply Hsim|]. intros a b r' Hs Hst. apply Hafter; [done|].
      red in Hst. by rewrite Hst.
    + apply wp_bind, wp_ret. cbn beta iota. simpl in Hfire.
      assert (Hb : Switcher.t_bar r = None).
      { rewrite Hdes in Hfire. simpl in Hfire. by destruct (Switcher.t_bar r). }
      destruct (Hsim Hb) as [l Hl]. split; [done|]. exists r, l. split_and!; [exact Hl|done|].
      change (transition_after show (EngineCommand.Stinger slot d) r r).
      unfold transition_after. rewrite Ht, (Hkind show) by by rewrite Hdes. done.
Qed.
End realize.

(** Commands that leave the switchers alone. *)
Lemma realize_nothing c show n r s' :
  desired_switcher show = settle r → desired_switcher s'.1 = desired_switcher show →
  apply_runtime c r = (r, Ret []) → (∀ s, runtime_transition s c = Ret None) →
  realizes c n r (Ret (mk_acceptance n)) s'.
Proof.
  intros Hdes Hs Hrt Hk. split; [done|]. eexists r, []. split_and!; [done|congruence|].
  unfold transition_after. rewrite Hk. by destruct (Switcher.transition r).
Qed.
Lemma realize_reorder show evs l n r :
  show_wf show → desired_switcher show = settle r →
  wp (apply_reorder_mutation l n) (realizes (EngineCommand.ReorderInputs l) n r) (show, evs).
Proof.
  intros Hwf Hdes. unfold apply_reorder_mutation. apply wp_bind, wp_map_err, wp_on_show.
  eapply wp_mono; [by apply show_reorder_spec|]. intros [[]|e|] s' Hs; simpl; [|done..].
  destruct Hs as (Hwf'&Hl&Hperm&Hd&_). split; [done|].
  assert (Hval : validate_input_order (Switcher.inputs r) l = Ok tt).
  { assert (Hin : Switcher.inputs r = show_inputs show) by by rewrite (sh_inputs _ Hwf), Hdes.
    rewrite Hin. apply validate_input_order_Ok. split_and!; [|rewrite <-Hl; apply Hwf'|done].
    intros ->. pose proof (Switcher.wf_program _ (sh_switcher _ Hwf)) as Hp.
    rewrite <-(sh_inputs _ Hwf), <-Hperm in Hp. by apply not_elem_of_nil in Hp. }
  exists (Switcher.set_inputs l r), [].
  cbv [apply_runtime st_unwrap Switcher.reorder_inputs mbind stm_bind st_get st_lift st_put]. rewrite Hval.
  split_and!; [done| |].
  - transitivity (desired_switcher s'); [done|]. by rewrite Hd, Hdes.
  - unfold transition_after. simpl. by destruct (Switcher.transition r).
Qed.
Lemma realize_fade_to_black show evs b d n r :
  desired_switcher show = settle r → in_ty U32 d →
  wp (apply_fade_to_black_mutation b d n) (realizes (EngineCommand.FadeToBlack b d) n r)
    (show, evs).
Proof.
  intros Hdes Hd. unfold apply_fade_to_black_mutation. apply wp_bind, wp_lift; [|done].
  intros [] Hv. cbn beta iota. apply wp_bind. cbn. split; [done|].
  assert (Hdur : 1 ≤ d ≤ FadeToBlack.MAX_FADE_TO_BLACK_DURATION_FRAMES).
  { unfold validate_fade_to_black_duration in Hv. repeat case_decide; try done.
    unfold in_ty in Hd. simpl in Hd. lia. }
  destruct (request_fade_settle b d r Hdur) as (r'&l&Hrun&Hs&Ht). exists r', l.
  split_and!.
  { cbn [apply_runtime]. unfold st_unwrap. by rewrite Hrun. }
  { simpl. by rewrite Hdes. }
  unfold transition_after. simpl. rewrite Ht. by destruct (Switcher.transition r).
Qed.
Lemma realize_overlay show evs c n r :
  desired_switcher show = settle r → is_overlay_command c = true →
  wp (apply_overlay_mutation c n) (realizes c n r) (show, evs).
Proof.
  intros Hdes Hov. unfold apply_overlay_mutation. apply wp_bind, wp_get. cbn beta iota.
  assert (Hrest : wp (switcher_command ← st_expect (overlay_command c);
      _ ← desired (Switcher.apply switcher_command);
      _ ← push_event (EngineEvent.DesiredSwitcherChanged c); mret (mk_acceptance n))
      (realizes c n r) (show, evs)).
  { apply wp_bind, wp_expect; [|done]. intros c' Hc'. cbn beta iota.
    apply realize_undisturbed; [done|by destruct c..|].
    destruct c; simplify_eq/=.
    - apply sim_with_source, settle_request_take.
    - apply sim_with_source, settle_update.
    - apply sim_overlay_off.
    - apply sim_configure_overlay_transition.
    - apply sim_configure_overlay_appearance.
    - apply sim_queue_overlay.
    - apply sim_take_next_overlay.
    - apply sim_set_overlay_output_inclusion. }
  apply wp_bind. destruct c; try (apply wp_ret; exact Hrest).
  apply wp_require; [intros _; exact Hrest|done].
Qed.
Lemma realize_stream show evs t b c n r :
  desired_switcher show = settle r →
  (∀ s, runtime_transition s c = Ret None) →
  apply_runtime c = Switcher.set_stream_running t b →
  wp (apply_stream_mutation t b n) (realizes c n r) (show, evs).
Proof.
  intros Hdes Hk Hrt. unfold apply_stream_mutation. apply wp_bind.
  eapply wp_desired_sim; [done|apply sim_set_stream_running| |done..].
  intros a l r' _ Hrun Hu. cbn beta iota. apply wp_bind, wp_get. cbn beta iota.
  apply wp_bind, wp_expect; [|done]. intros sts _. cbn beta iota. split; [done|].
  exists r', l. rewrite Hrt. split_and!; [done..|]. unfold transition_after. rewrite Hk, Hu.
  by destruct (Switcher.transition r).
Qed.
Lemma realize_recording show evs b c n r :
  desired_switcher show = settle r →
  (∀ s, runtime_transition s c = Ret None) →
  apply_runtime c = Switcher.set_recording_desired b →
  wp (apply_recording_mutation b n) (realizes c n r) (show, evs).
Proof.
  intros Hdes Hk Hrt. unfold apply_recording_mutation. apply wp_bind, wp_get. cbn beta iota.
  apply wp_bind. eapply wp_desired_sim; [done|apply sim_set_recording_desired| |done..].
  intros a l r' _ Hrun Hu. cbn beta iota.
  assert (Hend : ∀ evs', realizes c n r (Ret (mk_acceptance n)) (set_desired (settle r') show, evs')).
  { intros evs'. split; [done|]. exists r', l. rewrite Hrt. split_and!; [done..|].
    unfold transition_after. rewrite Hk, Hu. by destruct (Switcher.transition r). }
  case_decide; apply Hend.
Qed.
Lemma realize_stinger_slot show evs c n r :
  desired_switcher show = settle r →
  match c with EngineCommand.ConfigureStinger _ _ | EngineCommand.RemoveStinger _ => True | _ => False end →
  wp (apply_stinger_mutation c n) (realizes c n r) (show, evs).
Proof.
  intros Hdes Hc. unfold apply_stinger_mutation. apply wp_bind, wp_get. cbn beta iota.
  apply wp_bind, wp_require; [intros _|done]. cbn beta iota. apply wp_bind.
  assert (Hend : ∀ r' l, apply_runtime c r = (r', Ret l) →
    Switcher.transition r' = Switcher.transition r →
    realizes c n r (Ret (mk_acceptance n))
      (set_desired (settle r') show, evs ++ [EngineEvent.DesiredSwitcherChanged c])).
  { intros r' l Hrun Hu. split; [done|]. exists r', l. split_and!; [done..|].
    unfold transition_after. rewrite Hu. destruct c; try done; by destruct (Switcher.transition r). }
  destruct c as [| | | | | | | | | |slot d|slot| | | | | | | | | | | | | | | | | |]; try done.
  - apply wp_bind. eapply wp_desired_sim; [done|apply sim_configure_stinger| |done..].
    intros [] [] r1 _ Hrun1 Hu1. cbn beta iota.
    destruct (preload d) eqn:Hp.
    + apply wp_bind. eapply wp_desired_sim; [done|apply sim_preload_stinger| |done..].
      intros a ev r2 _ Hrun2 Hu2. cbn beta iota. apply wp_ret.
      apply (Hend r2 [ev]); [|congruence]. simpl. unfold mbind, stm_bind.
      by rewrite Hrun1, Hp, Hrun2.
    + apply wp_ret. apply (Hend r1 []); [|done]. simpl. unfold mbind, stm_bind.
      by rewrite Hrun1, Hp.
  - pose proof (sim_remove_stinger slot r) as Hs. unfold sim in Hs.
    unfold wp, st_unwrap, on_show, show_remove_stinger, on_desired, st_zoom. simpl.
    rewrite Hdes. destruct (Switcher.remove_stinger slot (settle r)) as [d [[]|[]|]]; simpl; [|done].
    destruct Hs as (r'&[]&Hrun&->&Hu). apply (Hend r' []); [|done].
    simpl. unfold mbind, stm_bind, st_unwrap. by rewrite Hrun.
Qed.

(** An accepted mutation is realized by its action. *)
Lemma runtime_sim show evs c n r :
  show_wf show → command_ok c → desired_switcher show = settle r →
  (Switcher.transition r = None ∨ allowed_in_flight c = true) → fires_idle show c →
  wp (mutation_apply (mk_mutation c n)) (realizes c n r) (show, evs).
Proof.
  intros Hwf Hc Hdes Hfl Hfire.
  assert (Hidle : allowed_in_flight c = false → Switcher.transition r = None)
    by (destruct Hfl; congruence).
  assert (Hroute : ∀ c' ev, Switcher.transition r = None →
    apply_runtime c = Switcher.apply c' → (∀ s, runtime_transition s c = Ret None) →
    sim (Switcher.apply c') (Switcher.apply c') (undisturbed r) r →
    wp (_ ← (_ ← desired (Switcher.apply c'); mret tt); _ ← push_event ev; mret (mk_acceptance n))
      (realizes c n r) (show, evs)).
  { intros c' ev Ht Hrt Hk Hs. apply wp_bind, wp_bind.
    eapply wp_desired_sim; [done|exact Hs| |done..].
    intros a l r' _ Hrun Hu. split; [done|]. exists r', l. rewrite Hrt. split_and!; [done..|].
    unfold transition_after. by rewrite Ht, Hk, Hu. }
  assert (Hauto : ∀ name k d ev, Switcher.transition r = None → in_ty U32 d →
    match k with Stinger _ => False | _ => True end →
    apply_runtime c = Switcher.apply (SwitcherCommand.Transition k d) →
    (∀ s, runtime_transition s c = Ret (Some k)) →
    wp (c' ← (_ ← st_lift (validate_transition_duration name d); mret (Some SwitcherCommand.Cut));
        _ ← (match c' with Some c' => _ ← desired (Switcher.apply c'); mret tt | None => mret tt end);
        _ ← push_event ev; mret (mk_acceptance n)) (realizes c n r) (show, evs)).
  { intros name k d ev Ht [Hd _] Hk Hrt Hs. apply wp_bind, duration_command_spec; [done|].
    intros. by eapply realize_transition. }
  destruct c; unfold mutation_apply; cbn [mut_command mut_target_frame is_overlay_command
    overlay_command switching_command];
    try (by apply realize_overlay); try (by eapply realize_stream);
    try (by eapply realize_recording); try (by apply realize_stinger_slot);
    try (by apply (Hauto _ _ _ _ (Hidle eq_refl) Hc));
    try (apply wp_bind, wp_ret; cbn beta iota; apply Hroute; try done; auto using
      sim_select_preview, sim_cut, sim_start_t_bar, sim_set_t_bar_position, sim_commit_t_bar,
      sim_cancel_t_bar).
  - by apply realize_reorder.
  - unfold apply_rename_mutation. apply wp_bind, wp_map_err, wp_on_show.
    eapply wp_mono; [by apply rename_input_spec|]. intros [[]|e|] s' Hs; [|done..].
    apply (realize_nothing _ show); try done. apply Hs.
  - unfold apply_strip_mutation.
    do 3 (apply wp_bind, wp_require; [intros ?|done]; cbn beta iota).
    apply wp_bind, wp_map_err, wp_on_show. unfold set_input_audio_strip.
    apply wp_bind, wp_get. cbn beta iota. apply wp_bind, wp_require; [|done]. intros _.
    by apply (realize_nothing _ show).
  - by eapply (Hauto _ Fade _ _ (Hidle eq_refl) Hc).
  - by eapply (Hauto _ AlphaFade _ _ (Hidle eq_refl) Hc).
  - by eapply (Hauto _ Slide _ _ (Hidle eq_refl) Hc).
  - by eapply (Hauto _ Zoom _ _ (Hidle eq_refl) Hc).
  - apply (realize_stinger show evs n r Hwf Hdes slot duration_frames); auto.
  - by eapply (Hauto _ Wipe _ _ (Hidle eq_refl) Hc).
  - by apply realize_fade_to_black.
  - apply sim_start_t_bar. auto.
  - apply sim_set_t_bar_position. auto.
Qed.

(** ** Names *)

(** Everything but the desired switcher and the strips is as it was. *)
Definition roster_kept {A} (show : ShowState) (_ : outcome Rejection A)
    (s : ShowState * list EngineEvent.t) : Prop :=
  show_inputs s.1 = show_inputs show ∧ input_names s.1 = input_names show ∧
  outputs s.1 = outputs show.
Lemma desired_kept {A} (m : stm Switcher.SwitcherState SwitcherError A) show s :
  roster_kept show (Ret tt) s → wp (desired m) (roster_kept show) s.
Proof. intros Hs. destruct s as [sh evs]. apply wp_desired. done. Qed.
Lemma roster_bind {A B} (m : draft_stm A) (f : A → draft_stm B) show s :
  wp m (roster_kept show) s →
  (∀ a s', roster_kept show (Ret tt) s' → wp (f a) (roster_kept show) s') →
  wp (m ≫= f) (roster_kept show) s.
Proof.
  intros Hm Hf. apply wp_bind. eapply wp_mono; [exact Hm|]. intros [a|e|] s' Hs'; [|done..].
  by apply Hf.
Qed.
Lemma push_kept ev show s : roster_kept show (Ret tt) s → wp (push_event ev) (roster_kept show) s.
Proof. done. Qed.

(** Symbolic execution that only follows the roster. *)
Ltac roster_step :=
  lazymatch goal with
  | |- wp (mbind _ _) (roster_kept _) _ => apply roster_bind; [|intros ? ? ?]
  | |- wp (desired _) _ _ => by apply desired_kept
  | |- wp (push_event _) _ _ => by apply push_kept
  | |- wp (st_lift ?r) _ _ => by apply wp_lift
  | |- wp (st_expect ?r) _ _ => by apply wp_expect
  | |- wp (st_require _ _) _ _ => by apply wp_require
  | |- wp (match ?x with _ => _ end) _ _ => destruct x
  | |- wp _ _ _ => done
  end.
Ltac roster_run := repeat (cbn beta iota; roster_step).

Lemma switching_kept c show s :
  roster_kept show (Ret tt) s → wp (switching_command c) (roster_kept show) s.
Proof. intros Hs. destruct c; cbn [switching_command]; roster_run. Qed.
Lemma slot_kept n show s :
  roster_kept show (Ret tt) s → wp (st_unwrap (on_show (show_remove_stinger n))) (roster_kept show) s.
Proof.
  intros Hs. destruct s as [sh evs]. apply wp_unwrap, wp_on_show.
  unfold show_remove_stinger, on_desired. apply wp_zoom. unfold wp.
  by destruct (Switcher.remove_stinger n _) as [? [| |]].
Qed.
Lemma strip_kept input strip (f : ShowError → Rejection) show s :
  roster_kept show (Ret tt) s →
  wp (st_map_err f (on_show (set_input_audio_strip input strip))) (roster_kept show) s.
Proof.
  intros Hs. destruct s as [sh evs]. apply wp_map_err, wp_on_show.
  unfold set_input_audio_strip. wp_step. wp_step. cbn beta iota. apply wp_bind, wp_require; done.
Qed.
Lemma mutation_kept m show evs :
  match mut_command m with
  | EngineCommand.RenameInput _ _ | EngineCommand.ReorderInputs _ => False
  | _ => True
  end →
  wp (mutation_apply m) (roster_kept show) (show, evs).
Proof.
  intros Hm. assert (H0 : roster_kept show (Ret tt) (show, evs)) by done.
  destruct m as [c n]. simpl in Hm.
  destruct c; try done; unfold mutation_apply, apply_strip_mutation, apply_stinger_mutation,
    apply_overlay_mutation, apply_fade_to_black_mutation, apply_stream_mutation,
    apply_recording_mutation; cbn [mut_command mut_target_frame is_overlay_command overlay_command].
  all: repeat (cbn beta iota; first
    [ by apply switching_kept | by apply strip_kept | by apply slot_kept | roster_step ]).
Qed.

(** What an applied mutation leaves of the roster: the same inputs, in an order
    that only a reordering changes, under the same names but for a renamed one. *)
Lemma mutation_roster m show evs :
  show_wf show →
  wp (mutation_apply m) (λ r s, match r with
    | Ret _ => show_inputs s.1 ≡ₚ show_inputs show ∧ outputs s.1 = outputs show ∧
        ∀ i, input_name s.1 i = match mut_command m with
          | EngineCommand.RenameInput j name => if decide (i = j) then Some name else input_name show i
          | _ => input_name show i
          end
    | _ => True
    end) (show, evs).
Proof.
  intros Hwf. destruct (match mut_command m with
    | EngineCommand.RenameInput _ _ | EngineCommand.ReorderInputs _ => true
    | _ => false end) eqn:Hk.
  - destruct m as [c n]. destruct c; try done; cbn [mut_command] in *.
    + unfold mutation_apply, apply_reorder_mutation. cbn [mut_command mut_target_frame].
      apply wp_bind, wp_map_err, wp_on_show. eapply wp_mono; [by apply show_reorder_spec|].
      intros [|?|] s' Hs; [|done..]. destruct Hs as (_&Hi&HP&_&_&Ho&Hn).
      apply wp_bind, wp_push_event, wp_ret. simpl. split_and!; [by rewrite Hi|done|exact Hn].
    + unfold mutation_apply, apply_rename_mutation. cbn [mut_command mut_target_frame].
      apply wp_bind, wp_map_err, wp_on_show. eapply wp_mono; [by apply rename_input_spec|].
      intros [|?|] s' Hs; [|done..]. destruct Hs as (_&Hi&_&_&Ho&_&Hn&Hother).
      apply wp_bind, wp_push_event, wp_ret. simpl. split_and!; [by rewrite Hi|done|].
      intros i. case_decide; subst; [done|by apply Hother].
  - eapply wp_mono; [apply mutation_kept; by destruct (mut_command m)|].
    intros [|?|] s Hs; [|done..]. destruct Hs as (Hi&Hn&Ho).
    split_and!; [by rewrite Hi|exact Ho|]. intros i. unfold input_name. rewrite Hi, Hn.
    by destruct (mut_command m).
Qed.
