(* ===== verification/EngineRun.v ===== *)
(** Operating the engine: the invariant of [Engine] and what [execute], [tick],
    [snapshot] and [restore] do.

    [engine_wf] is the invariant.  Its heart is agreement: running the pending
    actions on the realized switcher succeeds and leads to a switcher that, with
    every animation at its end, is the desired one. *)
From S2P Require Import Prelude BTree Types EngineShow Engine EngineSim.
From S2P Require Command Clock Actions Plans Scheduler FadeToBlack Overlay SwitcherTypes Switcher Settle.
Import SwitcherTypes.
Import Settle.
#[local] Open Scope Z_scope.
#[local] Arguments ty_max : simpl never.

(** ** The invariant *)

Definition pending_list (e : Engine) : list (Actions.ScheduledAction EngineCommand.t) :=
  Actions.pending (Scheduler.actions (scheduler e)).
Definition pending_commands (e : Engine) : list EngineCommand.t := Actions.action <$> pending_list e.
(** The actions of a tick on the realized switcher; [None] is an error or a panic. *)
Fixpoint runtime_run (l : list EngineCommand.t) (r : Switcher.SwitcherState) :
    option Switcher.SwitcherState :=
  match l with
  | [] => Some r
  | c :: l =>
      match apply_runtime c r with
      | (r, Ret _) => runtime_run l r
      | _ => None
      end
  end.
(** The events they report. *)
Fixpoint runtime_events (l : list EngineCommand.t) (r : Switcher.SwitcherState) :
    Switcher.events :=
  match l with
  | [] => []
  | c :: l =>
      match apply_runtime c r with
      | (r, Ret evs) => evs ++ runtime_events l r
      | _ => []
      end
  end.
Definition bounded (r : Switcher.SwitcherState) : Prop :=
  ∀ t, Switcher.transition r = Some t → tr_duration_frames t ≤ MAX_TRANSITION_DURATION_FRAMES.
(** The frame interval of a T-bar has been shown. *)
Definition t_bar_shown (r : Switcher.SwitcherState) : Prop :=
  settle_frame <$> Switcher.t_bar r = Switcher.t_bar r.

Definition accepted_in (m : gmap IdempotencyKey Receipt) : gmap IdempotencyKey Receipt :=
  filter (λ p, is_Some (accepted p.2)) m.
Definition receipt_on_time (e : Engine) (r : Receipt) : Prop :=
  ∀ a, accepted r = Some a →
    acc_target_frame a < frame_cursor e ∨
    acc_target_frame a = frame_cursor e ∧ pending_commands e ≠ [].

(** What the switchers must be to each other; [r'] is the realized switcher after
    the pending actions. *)
Record agree (e : Engine) (r' : Switcher.SwitcherState) : Prop := {
  ag_run : runtime_run (pending_commands e) (realized_switcher e) = Some r';
  ag_wf : Switcher.switcher_wf r';
  ag_settled : desired_switcher (show e) = settle r';
  ag_in_flight : tr_kind <$> Switcher.transition r' = transition_in_flight e;
  ag_bounded : bounded r'
}.
Record engine_wf (e : Engine) : Prop := {
  ew_show : show_wf (show e);
  ew_scheduler : Scheduler.scheduler_wf (scheduler e);
  ew_commands : Command.cs_wf (commands e);
  ew_history : receipt_history e = Command.receipts (commands e);
  ew_rate : Plans.frame_rate (Scheduler.pacer (scheduler e)) = frame_rate e;
  ew_origin : Plans.origin_ns (Scheduler.pacer (scheduler e)) = 0;
  ew_target : Forall (λ a, Actions.target_frame a = frame_cursor e) (pending_list e);
  ew_pending : pending_actions e = Z.of_nat (length (pending_list e));
  ew_generation : 0 ≤ runtime_generation e ∧
    runtime_generation e + pending_actions e = Command.revision (commands e);
  ew_clock : clock_time e = if decide (frame_cursor e = 0) then 0
    else Plans.due_at (Scheduler.pacer (scheduler e)) (frame_cursor e - 1);
  ew_realized : Switcher.switcher_wf (realized_switcher e);
  ew_shown : t_bar_shown (realized_switcher e);
  ew_agree : ∃ r', agree e r';
  ew_receipts : ∀ k r, receipt_history e !! k = Some r → receipt_on_time e r;
  ew_accepted : Z.of_nat (size (accepted_in (receipt_history e))) =
    Command.revision (commands e)
}.

Lemma runtime_run_app l1 l2 r :
  runtime_run (l1 ++ l2) r = r' ← runtime_run l1 r; runtime_run l2 r'.
Proof.
  revert r. induction l1 as [|c l1 IH]; intros r; simpl; [done|].
  by destruct (apply_runtime c r) as [r' [l|e|]].
Qed.

(** ** Ticks *)

Lemma apply_actions_run l e r' :
  runtime_run (Actions.action <$> l) (realized_switcher e) = Some r' →
  0 ≤ runtime_generation e → runtime_generation e + Z.of_nat (length l) ≤ ty_max U64 →
  apply_actions l e =
    (set_generation (runtime_generation e + Z.of_nat (length l)) (set_realized r' e),
     Ret (runtime_events (Actions.action <$> l) (realized_switcher e), mjoin ((λ a, strip_update (Actions.action a)) <$> l))).
Proof.
  revert e. induction l as [|a l IH]; intros e Hrun Hg Hmax.
  { injection Hrun as <-. simpl. rewrite Z.add_0_r. by destruct e. }
  rewrite fmap_cons in Hrun. cbn [runtime_run] in Hrun.
  destruct (apply_runtime (Actions.action a) (realized_switcher e)) as [r1 [evs1|err|]] eqn:Ha;
    [|done..].
  cbn [length] in Hmax. cbn [apply_actions].
  unfold mbind, stm_bind, st_zoom, st_map_err, st_get, st_lift, st_modify.
  rewrite Ha. cbn [outcome_map_err runtime_generation set_realized].
  assert (Hnext : Command.checked_next (runtime_generation e) = Ok (runtime_generation e + 1)).
  { apply Command.checked_next_Ok. split; [done|]. unfold in_ty. simpl ty_min. lia. }
  rewrite Hnext. cbn [result_map_err].
  rewrite (IH (set_generation (runtime_generation e + 1) (set_realized r1 e)));
    [|done|simpl; lia..].
  rewrite !fmap_cons. cbn [mret stm_ret length runtime_events]. rewrite Ha.
  replace (runtime_generation e + Z.of_nat (S (length l)))
    with (runtime_generation e + 1 + Z.of_nat (length l)) by lia. reflexivity.
Qed.

(** What a frame tells about the transition in flight. *)
Lemma frame_in_flight r r' more :
  Switcher.switcher_wf r → Switcher.advance_frame_events r = (r', Ret more) →
  (tr_kind <$> Switcher.transition r') =
    (if existsb program_changed more then None else tr_kind <$> Switcher.transition r) ∧
  (bounded r → bounded r') ∧ t_bar_shown r'.
Proof.
  intros Hwf Hf. destruct (Switcher.advance_frame_spec r Hwf)
    as (r1&l1&Hs&_&_&_&_&_&_&P&B&_&fades&Hl&Hfades).
  rewrite Hf in Hs. injection Hs as <- <-.
  assert (Hnone : existsb program_changed fades = false).
  { apply not_true_iff_false. rewrite existsb_exists. intros (ev&Hin%list_elem_of_In&Hch).
    specialize (Hfades ev Hin). by destruct ev. }
  rewrite Hl, existsb_app, Hnone, orb_false_r. unfold bounded, t_bar_shown. rewrite B.
  split_and!; [| |by destruct (Switcher.t_bar r)].
  - unfold Switcher.route_next in P |- *. destruct (Switcher.transition r) as [t|];
      [case_decide|]; by injection P as _ _ ->.
  - unfold Switcher.route_next in P. intros Hb t. destruct (Switcher.transition r) as [t0|];
      [case_decide|]; injection P as _ _ ->; [done| |done].
    intros [= <-]. simpl. by apply Hb.
Qed.

(** The deadline of the next frame, if there is one. *)
Definition due (e : Engine) : Z :=
  Plans.due_at (Scheduler.pacer (scheduler e)) (frame_cursor e).
Definition can_tick (e : Engine) : Prop := due e ≤ ty_max U64 ∧ frame_cursor e < ty_max U64.
#[global] Instance can_tick_dec e : Decision (can_tick e).
Proof. unfold can_tick. apply _. Defined.

Lemma clock_before_due e : engine_wf e → clock_time e ≤ due e.
Proof.
  intros Hwf. pose proof (Scheduler.sw_pacer _ (ew_scheduler _ Hwf)) as Hp.
  rewrite (ew_clock _ Hwf). unfold due. case_decide as Hz.
  - rewrite Hz. unfold Plans.due_at. rewrite (ew_origin _ Hwf).
    destruct (Plans.pw_rate _ Hp) as [[? ?] [? ?] _].
    pose proof (Z.div_pos (0 * denominator (Plans.frame_rate (Scheduler.pacer (scheduler e))) *
      Plans.NANOS_PER_SECOND) (numerator (Plans.frame_rate (Scheduler.pacer (scheduler e))))).
    lia.
  - apply Plans.due_at_mono; [done|lia].
Qed.

(** What a tick shows. *)
Record frame_shown (e : Engine) (fr : FrameResult) (e' : Engine) (r' : Switcher.SwitcherState) :
    Prop := {
  fs_frame : result_frame fr = frame_cursor e;
  fs_deadline : result_deadline fr = due e;
  fs_program : result_program fr = Switcher.program_frame r';
  fs_fade : FadeToBlack.frame (Switcher.fade_to_black r') = Some (result_fade_to_black fr);
  fs_overlays : result_overlays fr = Switcher.overlays r';
  fs_events : ∃ more, Switcher.advance_frame_events r' = (realized_switcher e', Ret more) ∧
    result_events fr = runtime_events (pending_commands e) (realized_switcher e) ++ more;
  fs_strips : result_strip_updates fr = mjoin (strip_update <$> pending_commands e);
  fs_revision : result_revision fr = Command.revision (commands e);
  fs_generation : result_generation fr = Command.revision (commands e)
}.
(** What a tick leaves behind. *)
Record ticked (e e' : Engine) (r' : Switcher.SwitcherState) : Prop := {
  tk_commands : commands e' = commands e;
  tk_history : receipt_history e' = receipt_history e;
  tk_rate : frame_rate e' = frame_rate e;
  tk_cursor : frame_cursor e' = frame_cursor e + 1;
  tk_pending : pending_list e' = [];
  tk_sequence : Actions.next_sequence (Scheduler.actions (scheduler e')) =
    Actions.next_sequence (Scheduler.actions (scheduler e));
  tk_generation : runtime_generation e' = Command.revision (commands e);
  tk_clock : clock_time e' = due e;
  tk_domain : Clock.snap_domain (Clock.snapshot (clock e')) =
    Clock.snap_domain (Clock.snapshot (clock e));
  tk_realized : ∃ more, Switcher.advance_frame_events r' = (realized_switcher e', Ret more)
}.

Lemma Forall_le_nil {A} (f : A → Z) (l : list A) n :
  Forall (λ a, f a = n) l → Forall (λ a, n < f a) l → l = [].
Proof.
  intros H1 H2. destruct l as [|a l]; [done|].
  apply Forall_cons in H1 as [? _], H2 as [? _]. lia.
Qed.

Lemma next_deadline_due e :
  engine_wf e →
  next_frame_deadline e =
    if decide (due e ≤ ty_max U64) then Ret (due e)
    else Throw (ErrTick (Scheduler.Pacing Plans.DeadlineOverflow)).
Proof.
  intros Hwf. unfold next_frame_deadline.
  rewrite Plans.next_deadline_eq by apply (Scheduler.sw_pacer _ (ew_scheduler _ Hwf)).
  unfold due, frame_cursor. by case_decide.
Qed.
Lemma clock_set e :
  engine_wf e →
  Clock.manual_set (due e) (clock e) =
    (Clock.manual_new (Clock.snap_domain (Clock.snapshot (clock e))) (due e),
     Ret (Clock.mk_snapshot (Clock.snap_domain (Clock.snapshot (clock e))) (due e))).
Proof.
  intros Hwf. pose proof (clock_before_due e Hwf). unfold clock_time in *.
  unfold Clock.manual_set, mbind, stm_bind, st_get, st_require. rewrite decide_True by lia. done.
Qed.
(** The scheduler's tick takes all that is pending. *)
Lemma scheduler_tick e :
  engine_wf e → can_tick e →
  ∃ s' t, Scheduler.tick (due e) (scheduler e) = (s', Ret t) ∧
    Scheduler.scheduler_wf s' ∧
    Scheduler.deadline t = Plans.mk_deadline (frame_cursor e) (due e) ∧
    Scheduler.pacer s' = Plans.mk_pacer (frame_rate e) 0 (frame_cursor e + 1) ∧
    Scheduler.tick_actions t = pending_list e ∧
    Actions.pending (Scheduler.actions s') = [] ∧
    Actions.next_sequence (Scheduler.actions s') =
      Actions.next_sequence (Scheduler.actions (scheduler e)).
Proof.
  intros Hwf [Hdue Hmax]. pose proof (Scheduler.tick_spec (due e) _ (ew_scheduler _ Hwf)) as Ht.
  change (Scheduler.due_of (scheduler e)) with (due e) in Ht.
  change (Plans.next_frame (Scheduler.pacer (scheduler e))) with (frame_cursor e) in Ht.
  destruct (Scheduler.tick (due e) (scheduler e)) as [s' [t|[n d|[]|e0]|]].
  - destruct Ht as (Hs&Hd&_&_&_&Hp&_&Hseq&Hpe&_&Hrest&_). exists s', t.
    rewrite (ew_rate _ Hwf), (ew_origin _ Hwf) in Hp.
    assert (Hnil : Actions.pending (Scheduler.actions s') = []).
    { eapply Forall_le_nil; [|exact Hrest]. pose proof (ew_target _ Hwf) as Htg.
      unfold pending_list in Htg. rewrite Hpe in Htg. by apply Forall_app in Htg as [_ ?]. }
    rewrite Hnil, app_nil_r in Hpe. split_and!; try done.
  - destruct Ht as (_&_&->&?). lia.
  - destruct Ht as (_&?). lia.
  - destruct Ht as (_&?). lia.
  - done.
  - done.
Qed.
Lemma scheduler_tick_exhausted e :
  engine_wf e → due e ≤ ty_max U64 → frame_cursor e = ty_max U64 →
  Scheduler.tick (due e) (scheduler e) =
    (scheduler e, Throw (Scheduler.Pacing Plans.FrameNumberExhausted)).
Proof.
  intros Hwf Hdue Hmax. pose proof (Scheduler.tick_spec (due e) _ (ew_scheduler _ Hwf)) as Ht.
  change (Scheduler.due_of (scheduler e)) with (due e) in Ht.
  destruct (Scheduler.tick (due e) (scheduler e)) as [s' [t|[n d|[]|e0]|]].
  - destruct Ht as (Hs&_&_&_&_&Hp&_). pose proof (Scheduler.sw_pacer _ Hs) as Hw.
    rewrite Hp in Hw. pose proof (Plans.pw_next _ Hw) as Hn. simpl in Hn.
    unfold frame_cursor in Hmax. unfold in_ty in Hn. lia.
  - destruct Ht as (_&_&->&?). lia.
  - destruct Ht as (_&?). lia.
  - by destruct Ht as (->&_).
  - done.
  - done.
Qed.

Section tick.
Context (e : Engine) (Hwf : engine_wf e).

Lemma generation_max : runtime_generation e + Z.of_nat (length (pending_list e)) =
  Command.revision (commands e) ∧ Command.revision (commands e) ≤ ty_max U64.
Proof.
  pose proof (ew_generation _ Hwf) as [_ Hg]. rewrite (ew_pending _ Hwf) in Hg.
  pose proof (Command.wf_revision _ (ew_commands _ Hwf)) as [_ ?]. done.
Qed.
Lemma tick_run r' :
  agree e r' → can_tick e →
  ∃ e' fr, tick e = (e', Ret fr) ∧ ticked e e' r' ∧ frame_shown e fr e' r' ∧
    Scheduler.scheduler_wf (scheduler e') ∧
    Scheduler.pacer (scheduler e') = Plans.mk_pacer (frame_rate e) 0 (frame_cursor e + 1) ∧
    pending_actions e' = 0 ∧
    transition_in_flight e' = (tr_kind <$> Switcher.transition (realized_switcher e')).
Proof.
  intros Ha Hcan. pose proof (scheduler_tick e Hwf Hcan) as (s'&t&Hst&Hs&Hd&Hp&Hacts&Hnil&Hseq).
  destruct generation_max as [Hg Hgm].
  set (e1 := set_pending 0 (set_scheduler s' (set_clock (Clock.manual_new
    (Clock.snap_domain (Clock.snapshot (clock e))) (due e)) e))).
  set (evs := runtime_events (pending_commands e) (realized_switcher e)).
  pose proof (apply_actions_run (pending_list e) e1 r' (ag_run _ _ Ha)
    (proj1 (ew_generation _ Hwf)) ltac:(simpl; lia)) as Hact.
  change (runtime_events _ (realized_switcher e1)) with evs in Hact.
  destruct (FadeToBlack.frame_spec _ (Switcher.wf_ftb _ (ag_wf _ _ Ha))) as (fade&Hfade&_).
  destruct (Switcher.advance_frame_spec r' (ag_wf _ _ Ha)) as (r2&more&Hfr&_).
  destruct (frame_in_flight _ _ _ (ag_wf _ _ Ha) Hfr) as (Hkind&_&_).
  set (e2 := set_generation (runtime_generation e1 + Z.of_nat (length (pending_list e)))
    (set_realized r' e1)) in *.
  set (e3 := (if existsb program_changed more then set_in_flight None else id)
    (set_realized r2 e2)).
  assert (Htick : tick e = (e3, Ret (mk_frame_result (frame_cursor e) (due e)
      (Switcher.program_frame r') fade (Switcher.overlays r') (evs ++ more)
      (mjoin ((λ a, strip_update (Actions.action a)) <$> pending_list e))
      (Command.revision (commands e)) (runtime_generation e2)))).
  { unfold tick, mbind, stm_bind, st_get. rewrite next_deadline_due by done.
    rewrite decide_True by apply Hcan. unfold mret, stm_ret, st_zoom, st_map_err.
    rewrite clock_set by done. cbn [outcome_map_err set_clock scheduler].
    rewrite Hst. cbn [outcome_map_err]. unfold st_modify. cbn [set_scheduler set_clock pending_actions].
    rewrite Hacts, (ew_pending _ Hwf), Z.sub_diag.
    change (saturating U64 0) with 0. change (set_pending 0 _) with e1. rewrite Hact.
    unfold st_expect. change (realized_switcher e2) with r'. rewrite Hfade. unfold st_unwrap.
    cbn beta iota. change (realized_switcher e2) with r'. rewrite Hfr. unfold e3. rewrite Hd. by destruct (existsb program_changed more). }
  exists e3, (mk_frame_result (frame_cursor e) (due e)
      (Switcher.program_frame r') fade (Switcher.overlays r') (evs ++ more)
      (mjoin ((λ a, strip_update (Actions.action a)) <$> pending_list e))
      (Command.revision (commands e)) (runtime_generation e2)).
  assert (H3 : ∀ {A} (f : Engine → A), (∀ x x', f (set_in_flight x x') = f x') →
    f e3 = f (set_realized r2 e2)).
  { intros A f Hf. unfold e3. by destruct (existsb program_changed more). }
  split; [done|]. split_and!.
  - split; rewrite ?(H3 _ commands), ?(H3 _ receipt_history), ?(H3 _ frame_rate),
      ?(H3 _ frame_cursor), ?(H3 _ pending_list), ?(H3 _ runtime_generation), ?(H3 _ clock_time),
      ?(H3 _ clock), ?(H3 _ realized_switcher), ?(H3 _ scheduler) by done; try done.
    + unfold frame_cursor. simpl. by rewrite Hp.
    + by eexists.
  - split; try done; simpl.
    + exists more. by rewrite (H3 _ realized_switcher).
    + unfold pending_commands. by rewrite <-list_fmap_compose.
  - by rewrite (H3 _ scheduler).
  - by rewrite (H3 _ scheduler).
  - by rewrite (H3 _ pending_actions).
  - rewrite (H3 _ realized_switcher) by done. simpl. rewrite Hkind.
    unfold e3. destruct (existsb program_changed more); simpl; [done|].
    by rewrite (ag_in_flight _ _ Ha).
Qed.
End tick.

(** A tick keeps the invariant. *)
Lemma ticked_wf e e' r' :
  engine_wf e → agree e r' → ticked e e' r' → Scheduler.scheduler_wf (scheduler e') →
  Scheduler.pacer (scheduler e') = Plans.mk_pacer (frame_rate e) 0 (frame_cursor e + 1) →
  pending_actions e' = 0 →
  transition_in_flight e' = (tr_kind <$> Switcher.transition (realized_switcher e')) →
  engine_wf e' ∧ agree e' (realized_switcher e').
Proof.
  intros Hwf Ha [Hc Hh Hr Hcur Hpend _ Hg Hclk _ [more Hfr]] Hs Hpc Hp Hfl.
  destruct (Switcher.advance_frame_spec r' (ag_wf _ _ Ha)) as (r2&l2&Hfr2&Hwf2&_).
  assert (r2 = realized_switcher e') as -> by (rewrite Hfr in Hfr2; congruence).
  destruct (frame_in_flight _ _ _ (ag_wf _ _ Ha) Hfr) as (_&Hb&Hshown).
  assert (Hnil : pending_commands e' = []) by (unfold pending_commands; by rewrite Hpend).
  assert (Hagree : agree e' (realized_switcher e')).
  { split; [by rewrite Hnil|done| |done|apply Hb, (ag_bounded _ _ Ha)].
    unfold show. rewrite Hc. rewrite (settle_frame_eq _ _ _ (ag_wf _ _ Ha) Hfr).
    apply (ag_settled _ _ Ha). }
  assert (Hcur0 : 0 ≤ frame_cursor e).
  { apply (Plans.pw_next _ (Scheduler.sw_pacer _ (ew_scheduler _ Hwf))). }
  split; [|done]. split; try done; rewrite ?Hc, ?Hh; try apply Hwf.
  - unfold show. rewrite Hc. apply Hwf.
  - by rewrite Hpc, Hr.
  - by rewrite Hpc.
  - by rewrite Hpend.
  - by rewrite Hp, Hpend.
  - rewrite Hg, Hp. split; [apply (Command.wf_revision _ (ew_commands _ Hwf))|lia].
  - rewrite Hclk, decide_False by lia. unfold due, Plans.due_at. rewrite Hpc, Hcur. simpl.
    rewrite (ew_rate _ Hwf), (ew_origin _ Hwf). do 4 f_equal. lia.
  - by eexists.
  - intros k r Hk a Hacc. left. rewrite Hcur.
    destruct (ew_receipts _ Hwf k r Hk a Hacc) as [?|[-> _]]; lia.
Qed.
Lemma tick_exhausted e :
  engine_wf e → ¬ can_tick e →
  ∃ e' x, tick e = (e', Throw (ErrTick (Scheduler.Pacing x))) ∧ e' = set_clock (clock e') e.
Proof.
  intros Hwf Hno. unfold tick, mbind, stm_bind, st_get. rewrite next_deadline_due by done.
  case_decide as Hdue; [|eexists _, _; split; [done|by destruct e]].
  unfold mret, stm_ret, st_zoom, st_map_err. rewrite clock_set by done.
  cbn [outcome_map_err set_clock scheduler].
  assert (Hcur : frame_cursor e = ty_max U64).
  { pose proof (Plans.pw_next _ (Scheduler.sw_pacer _ (ew_scheduler _ Hwf))) as [_ Hn].
    change (frame_cursor e ≤ ty_max U64) in Hn. unfold can_tick in Hno. lia. }
  rewrite scheduler_tick_exhausted by done. cbn [outcome_map_err].
  eexists _, _. split; [reflexivity|]. by destruct e.
Qed.
Lemma tick_wf e :
  engine_wf e → can_tick e →
  ∃ r' e' fr, agree e r' ∧ tick e = (e', Ret fr) ∧ ticked e e' r' ∧ frame_shown e fr e' r' ∧
    engine_wf e' ∧ agree e' (realized_switcher e').
Proof.
  intros Hwf Hcan. destruct (ew_agree _ Hwf) as [r' Ha].
  destruct (tick_run e Hwf r' Ha Hcan) as (e'&fr&Ht&Htk&Hsh&Hs&Hpc&Hp&Hfl).
  exists r', e', fr. split; [done|]. split_and!; [done..| |]; by eapply ticked_wf.
Qed.

(** ** Commands *)

Lemma pending_append e (q : Actions.ActionQueue EngineCommand.t) id c :
  Forall (λ a, Actions.target_frame a = frame_cursor e) (Actions.pending q) →
  Actions.spec_insert (Actions.mk_action id (frame_cursor e) c) (Actions.pending q) =
  Actions.pending q ++ [Actions.mk_action id (frame_cursor e) c].
Proof.
  rewrite Forall_forall. intros Hall. unfold Actions.spec_insert. simpl.
  rewrite filter_all by (intros a Ha; rewrite Hall by done; lia).
  by rewrite filter_none by (intros a Ha; rewrite Hall by done; lia).
Qed.
Lemma cancel_appended (q q' : Actions.ActionQueue EngineCommand.t) a :
  Actions.queue_wf q → Actions.queue_wf q' → Actions.sa_id a = Actions.next_sequence q + 1 →
  Actions.pending q' = Actions.pending q ++ [a] →
  Actions.pending (Actions.cancel (Actions.sa_id a) q').1 = Actions.pending q.
Proof.
  intros Hq Hq' Hid Hp. destruct (Actions.cancel (Actions.sa_id a) q') as [q1 r] eqn:Hc.
  destruct (Actions.pending_cancel _ _ _ _ Hq' Hc) as (_&Hp1&_). simpl. rewrite Hp1, Hp.
  unfold Actions.spec_cancel. rewrite filter_app, (filter_none _ [a]).
  - rewrite app_nil_r. apply filter_all. intros b Hb Heq.
    apply Actions.elem_of_pending in Hb; [|done].
    pose proof (Actions.qw_id _ Hq (Actions.action_key b)) as Hx. simpl in Hx.
    specialize (Hx ltac:(by eexists)). lia.
  - intros b ->%list_elem_of_singleton. naive_solver.
Qed.
Lemma schedule_exhausted frame (c : EngineCommand.t) q q' x :
  Actions.schedule frame c q = (q', Throw x) → x = Actions.SequenceExhausted.
Proof.
  unfold Actions.schedule, Actions.allocate_id, mbind, stm_bind, st_get, st_lift.
  destruct (checked U64 _); simpl; [done|]. congruence.
Qed.
Lemma cancel_wf id (q : Actions.ActionQueue EngineCommand.t) :
  Actions.queue_wf q → Actions.queue_wf (Actions.cancel id q).1.
Proof.
  intros Hq. destruct (Actions.cancel id q) as [q1 r] eqn:Hc.
  by apply Actions.cancel_spec in Hc as (?&_).
Qed.

(** The decision of the command machine, read as a decision about [e]. *)
Definition decide_command (e : Engine) (env : Envelope) (now : Z) :=
  Command.apply (commands e) env now (prepare_mutation (transition_in_flight e) (frame_cursor e)).
(** The engine after an accepted command: the command is durable at once, and its
    action waits for the next frame. *)
Record command_accepted (e e' : Engine) (env : Envelope) : Prop := {
  ca_pending : pending_commands e' = pending_commands e ++ [Command.command env];
  ca_revision : Command.revision (commands e') = Command.revision (commands e) + 1;
  ca_in_flight : transition_in_flight e' =
    match runtime_transition (show e') (Command.command env) with
    | Ret (Some k) => Some k
    | _ => transition_in_flight e
    end
}.
(** What [execute] leaves alone. *)
Record same_runtime (e e' : Engine) : Prop := {
  sr_realized : realized_switcher e' = realized_switcher e;
  sr_clock : clock e' = clock e;
  sr_rate : frame_rate e' = frame_rate e;
  sr_generation : runtime_generation e' = runtime_generation e;
  sr_pacer : Scheduler.pacer (scheduler e') = Scheduler.pacer (scheduler e)
}.
Lemma same_cursor e e' : same_runtime e e' → frame_cursor e' = frame_cursor e.
Proof. intros []. unfold frame_cursor. congruence. Qed.

Section execute.
Context (e : Engine) (Hwf : engine_wf e) (env : Envelope) (now : Z).
Context (Hc : command_ok (Command.command env)).
Context (Hfresh : Command.receipts (commands e) !! Command.idempotency_key env = None).
#[local] Abbreviation c := (Command.command env).

Lemma set_actions_wf q :
  Actions.queue_wf q →
  Scheduler.scheduler_wf (Scheduler.set_actions q (scheduler e)).
Proof. intros Hq. by destruct (ew_scheduler _ Hwf). Qed.

(** The receipts and counters of the engine after a decision. *)
Lemma accepted_insert (m : gmap IdempotencyKey Receipt) k r :
  m !! k = None →
  Z.of_nat (size (accepted_in (<[k := r]> m))) =
  Z.of_nat (size (accepted_in m)) + match accepted r with Some _ => 1 | None => 0 end.
Proof.
  intros Hk. unfold accepted_in. destruct (accepted r) as [a|] eqn:Ha.
  - rewrite map_filter_insert_True by (simpl; by rewrite Ha; eexists).
    rewrite map_size_insert_None; [lia|]. apply map_lookup_filter_None. by left.
  - rewrite map_filter_insert_False by (simpl; rewrite Ha; by intros [? ?]).
    rewrite delete_id by done. lia.
Qed.
Lemma decision_cases cs o :
  decide_command e env now = (cs, o) →
  Command.replayed o = false ∧
  Command.receipts cs = <[Command.idempotency_key env := Command.receipt o]>
    (Command.receipts (commands e)) ∧
  Command.cs_wf cs ∧
  match accepted (Command.receipt o) with
  | Some a => Command.revision cs = Command.revision (commands e) + 1 ∧
      (transition_in_flight e = None ∨ allowed_in_flight c = true) ∧
      ∃ evs, mutation_apply (mk_mutation c (frame_cursor e)) (show e, []) =
        ((Command.state cs, evs), Ret a)
  | None => Command.state cs = show e ∧ Command.revision cs = Command.revision (commands e)
  end.
Proof.
  intros Hd. pose proof (Command.apply_wf _ _ _ _ _ _ Hd (ew_commands _ Hwf)) as Hcs.
  destruct (Command.apply_spec _ _ _ _ _ _ Hfresh Hd) as (p&Hp&Hcom).
  destruct (Command.commit_decision _ _ _ _ _ _ _ Hp Hcom) as (Hr&_&Hrec&Ho).
  split; [done|]. split; [done|]. split; [done|].
  destruct (Command.receipt o) as [cid rev result|cid rej cur]; simpl; [|by destruct Ho as (_&_&_&?&?&_)].
  destruct Ho as (_&->&Hrev&_&_&_&(mut&Hprep&Hmut)&_).
  assert (Hmut' : mut = run_mutation (mk_mutation c (frame_cursor e)) ∧
    (transition_in_flight e = None ∨ allowed_in_flight c = true)).
  { unfold prepare_mutation in Hprep. destruct (transition_in_flight e) as [k|].
    - destruct (allowed_in_flight c); [|done]. injection Hprep as <-. auto.
    - injection Hprep as <-. auto. }
  destruct Hmut' as [-> Hfl]. unfold run_mutation in Hmut.
  change (Command.state (commands e)) with (show e) in Hmut.
  destruct (mutation_apply (mk_mutation c (frame_cursor e)) (show e, [])) as [[s evs] [a|rej|]] eqn:Hm;
    [|done..].
  injection Hmut as <- _ <-. split_and!; try done. by eexists.
Qed.

(** [execute] runs on a copy: an error leaves the engine as it was. *)
Lemma execute_copy :
  execute env now e =
  match execute_immediate env now e with
  | (staged, Ret o) => (staged, Ret o)
  | (_, Throw x) => (e, Throw x)
  | (_, Panic) => (e, Panic)
  end.
Proof.
  clear Hwf. unfold execute, prepare_execute, mbind, stm_bind, st_get. rewrite Hfresh.
  destruct (execute_immediate env now e) as [staged [o|x|]]; [|done..].
  unfold commit_execute, mbind, stm_bind, st_get, st_require, st_put. simpl.
  by rewrite decide_True.
Qed.

(** The engine with the command's action scheduled, its decision committed and
    its receipt recorded. *)
Definition decided (q : Actions.ActionQueue EngineCommand.t)
    (cs : Command.CommandState ShowState EngineAcceptance) (r : Receipt) : Engine :=
  set_history (<[Command.idempotency_key env := r]> (receipt_history e))
    (set_commands cs (set_scheduler (Scheduler.set_actions q (scheduler e)) e)).
(** No mutation of a well-formed show panics. *)
Lemma mutation_safe o :
  show_wf (show e) → mutation_panicked (show e) (mk_mutation c (frame_cursor e)) o = false.
Proof.
  clear Hwf. intros Hs.
  pose proof (mutation_total (show e) [] (mk_mutation c (frame_cursor e)) Hs Hc) as Ht.
  unfold mutation_panicked, wp in *. by destruct (mutation_apply _ _) as [? [?|?|]].
Qed.
Lemma execute_immediate_eq :
  show_wf (show e) →
  execute_immediate env now e =
  match Actions.schedule (frame_cursor e) c (Scheduler.actions (scheduler e)) with
  | (q, Ret id) =>
      let '(cs, o) := decide_command e env now in
      let e1 := decided q cs (Command.receipt o) in
      match accepted (Command.receipt o) with
      | Some _ =>
          let e2 := set_pending (pending_actions e + 1) e1 in
          match runtime_transition (Command.state cs) c with
          | Ret (Some kind) => (set_in_flight (Some kind) e2, Ret o)
          | Ret None => (e2, Ret o)
          | _ => (e2, Panic)
          end
      | None =>
          (set_scheduler (Scheduler.set_actions (Actions.cancel id q).1 (scheduler e)) e1, Ret o)
      end
  | (q, Throw x) => (set_scheduler (Scheduler.set_actions q (scheduler e)) e, Throw (ErrSchedule x))
  | (q, Panic) => (set_scheduler (Scheduler.set_actions q (scheduler e)) e, Panic)
  end.
Proof.
  clear Hwf. intros Hshow.
  unfold execute_immediate, mbind, stm_bind, st_get, st_zoom, st_map_err, st_modify.
  rewrite Hfresh. unfold Scheduler.schedule_action, st_zoom.
  destruct (Actions.schedule (frame_cursor e) c (Scheduler.actions (scheduler e)))
    as [q [id|x|]]; cbn [outcome_map_err mret stm_ret]; [|done..].
  unfold decide_command.
  destruct (Command.apply (commands e) env now _) as [cs o] eqn:Hd.
  assert (Hr : Command.replayed o = false).
  { destruct (Command.apply_spec _ _ _ _ _ _ Hfresh Hd) as (p&Hp&Hcom).
    by destruct (Command.commit_decision _ _ _ _ _ _ _ Hp Hcom). }
  change (Command.state (commands (set_scheduler (Scheduler.set_actions q (scheduler e)) e)))
    with (show e).
  change (frame_cursor (set_scheduler (Scheduler.set_actions q (scheduler e)) e))
    with (frame_cursor e).
  rewrite mutation_safe by done. cbn [mret stm_ret].
  rewrite Hr. cbn [set_commands receipt_history set_scheduler].
  destruct (accepted (Command.receipt o)) as [a|] eqn:Ha.
  - rewrite decide_True by (split; [by eexists|done]).
    destruct (runtime_transition (Command.state cs) c) as [[k|]|x|]; done.
  - rewrite decide_False by (intros [[? ?] _]; done).
    unfold Scheduler.cancel_action. cbn.
    by destruct (Actions.cancel id q).
Qed.

(** A rejected command leaves a receipt and nothing else. *)
Lemma rejected_wf q cs o :
  Actions.queue_wf q → Actions.pending q = pending_list e →
  decide_command e env now = (cs, o) → accepted (Command.receipt o) = None →
  engine_wf (decided q cs (Command.receipt o)) ∧
  same_runtime e (decided q cs (Command.receipt o)) ∧
  show (decided q cs (Command.receipt o)) = show e.
Proof.
  intros Hq Hp Hd Ha. pose proof (decision_cases cs o Hd) as (_&Hrec&Hcs&Hcase).
  rewrite Ha in Hcase. destruct Hcase as [Hst Hrev].
  assert (Hshow : show (decided q cs (Command.receipt o)) = show e) by done.
  destruct (ew_agree _ Hwf) as [r' [Hrun Hw Hset Hfl Hb]].
  pose proof (ew_history _ Hwf) as Hh.
  assert (Hpl : pending_list (decided q cs (Command.receipt o)) = pending_list e) by done.
  split; [|done]. pose proof (set_actions_wf q Hq) as Hs.
  destruct Hwf. split; try done.
  - by rewrite Hshow.
  - simpl. by rewrite Hrec, Hh.
  - by rewrite Hpl.
  - by rewrite Hpl.
  - simpl. by rewrite Hrev.
  - exists r'. split; try done.
    + unfold pending_commands. rewrite Hpl. done.
    + by rewrite Hshow.
  - intros k r. cbn [decided receipt_history set_history].
    intros [[<- <-]|[_ Hk]]%lookup_insert_Some; [intros a; by rewrite Ha|].
    intros a Hacc. unfold pending_commands. rewrite Hpl. by apply (ew_receipts0 k r Hk).
  - simpl. rewrite accepted_insert by by rewrite Hh. rewrite Ha, Hrev. lia.
Qed.

(** An accepted command waits for the next frame. *)
Lemma accepted_wf q cs o a id (Hfire : fires_idle (show e) c) :
  Actions.queue_wf q →
  Actions.pending q = pending_list e ++ [Actions.mk_action id (frame_cursor e) c] →
  decide_command e env now = (cs, o) → accepted (Command.receipt o) = Some a →
  a = mk_acceptance (frame_cursor e) ∧
  ∃ k, runtime_transition (Command.state cs) c = Ret k ∧
  let e1 := set_pending (pending_actions e + 1) (decided q cs (Command.receipt o)) in
  let e' := match k with Some kind => set_in_flight (Some kind) e1 | None => e1 end in
  engine_wf e' ∧ same_runtime e e' ∧ command_accepted e e' env ∧ commands e' = cs.
Proof.
  intros Hq Hp Hd Ha. pose proof (decision_cases cs o Hd) as (_&Hrec&Hcs&Hcase).
  rewrite Ha in Hcase. destruct Hcase as (Hrev&Hfl&evs&Hm).
  destruct (ew_agree _ Hwf) as [r' Hagree].
  assert (Hbusy : Switcher.transition r' = None ∨ allowed_in_flight c = true).
  { destruct Hfl as [Hfl|Hfl]; [left|by right]. rewrite <-(ag_in_flight _ _ Hagree) in Hfl.
    by destruct (Switcher.transition r'). }
  pose proof (runtime_sim (show e) [] c (frame_cursor e) r' (ew_show _ Hwf) Hc
    (ag_settled _ _ Hagree) Hbusy Hfire) as Hsim.
  pose proof (mutation_total (show e) [] (mk_mutation c (frame_cursor e)) (ew_show _ Hwf) Hc) as Htot.
  unfold wp in Hsim, Htot. rewrite Hm in Hsim, Htot. simpl in Hsim, Htot.
  destruct Hsim as (->&r2&l&Hrun&Hset&Hafter). split; [done|].
  pose proof (runtime_wf c r' (ag_wf _ _ Hagree) Hc) as Hw2. unfold wp, left_wf in Hw2.
  rewrite Hrun in Hw2. simpl in Hw2.
  assert (Hk : ∃ k, runtime_transition (Command.state cs) c = Ret k ∧ bounded r2 ∧
    (tr_kind <$> Switcher.transition r2) =
      match k with Some kind => Some kind | None => transition_in_flight e end).
  { unfold transition_after in Hafter. rewrite <-(ag_in_flight _ _ Hagree). unfold bounded.
    pose proof (ag_bounded _ _ Hagree) as Hb. unfold bounded in Hb.
    destruct (Switcher.transition r') as [t|].
    - assert (Hall : allowed_in_flight c = true) by by destruct Hbusy.
      exists None. rewrite Hafter. split; [by destruct c|]. split; [|done]. auto.
    - destruct (runtime_transition (Command.state cs) c) as [[k|]|x|]; try done.
      + destruct Hafter as (d&?&->). exists (Some k). split_and!; [done| |done].
        intros t [= <-]. simpl. lia.
      + exists None. rewrite Hafter. by split_and!. }
  destruct Hk as (k&Hk&Hbound&Hkind). exists k. split; [done|].
  set (e1 := set_pending (pending_actions e + 1) (decided q cs (Command.receipt o))).
  intros e'. subst e'.
  set (e' := match k with Some kind => set_in_flight (Some kind) e1 | None => e1 end).
  assert (H1 : ∀ {A} (f : Engine → A), (∀ x y, f (set_in_flight x y) = f y) → f e' = f e1).
  { intros A f Hf. unfold e'. by destruct k. }
  assert (Hpl : pending_list e' = pending_list e ++ [Actions.mk_action id (frame_cursor e) c]).
  { by rewrite (H1 _ pending_list). }
  assert (Hpc : pending_commands e' = pending_commands e ++ [c]).
  { unfold pending_commands. by rewrite Hpl, fmap_app. }
  assert (Hflight : transition_in_flight e' =
      match k with Some kind => Some kind | None => transition_in_flight e end).
  { unfold e'. by destruct k. }
  pose proof (set_actions_wf q Hq) as Hs. pose proof (ew_history _ Hwf) as Hh.
  assert (Hcur : frame_cursor e' = frame_cursor e) by by rewrite (H1 _ frame_cursor).
  assert (Hshow : show e' = Command.state cs) by by rewrite (H1 _ show).
  assert (Hnew : ∃ r3, agree e' r3).
  { exists r2. split; [|done| | |done].
    - rewrite Hpc, runtime_run_app, (H1 _ realized_switcher) by done.
      change (realized_switcher e1) with (realized_switcher e). rewrite (ag_run _ _ Hagree).
      simpl. by rewrite Hrun.
    - by rewrite Hshow.
    - by rewrite Hkind, Hflight. }
  split; [|split; [split|split; [split|]]];
    rewrite ?(H1 _ realized_switcher), ?(H1 _ clock), ?(H1 _ frame_rate),
      ?(H1 _ runtime_generation), ?(H1 _ scheduler), ?(H1 _ commands) by done; try done.
  2: { rewrite Hshow, Hk, Hflight. by destruct k. }
  pose proof Hwf as []. split;
    rewrite ?(H1 _ realized_switcher), ?(H1 _ clock_time), ?(H1 _ frame_rate), ?(H1 _ scheduler),
      ?(H1 _ runtime_generation), ?(H1 _ commands), ?(H1 _ receipt_history),
      ?(H1 _ pending_actions), ?Hcur, ?Hshow by done; try done.
  - simpl. by rewrite Hrec, Hh.
  - rewrite Hpl. apply Forall_app. split; [done|]. by constructor.
  - rewrite Hpl, length_app. simpl. rewrite ew_pending0. lia.
  - simpl. rewrite Hrev. destruct ew_generation0 as [? <-]. split; [done|lia].
  - intros k0 r0. cbn [e1 decided receipt_history set_history set_pending].
    intros [[<- <-]|[_ Hk0]]%lookup_insert_Some a Hacc.
    + right. rewrite Hcur, Hpc. split; [|by destruct (pending_commands e)].
      rewrite Ha in Hacc. by injection Hacc as <-.
    + rewrite Hcur, Hpc. destruct (ew_receipts0 k0 r0 Hk0 a Hacc) as [?|[? _]]; [by left|].
      right. split; [done|]. by destruct (pending_commands e).
  - simpl. rewrite accepted_insert by by rewrite Hh. rewrite Ha, Hrev. lia.
Qed.

(** What a fresh command does to the engine. *)
Lemma execute_spec (Hfire : fires_idle (show e) c) :
  match execute env now e with
  | (e', Ret o) => engine_wf e' ∧ same_runtime e e' ∧
      decide_command e env now = (commands e', o) ∧
      match accepted (Command.receipt o) with
      | Some a => a = mk_acceptance (frame_cursor e) ∧ command_accepted e e' env
      | None => show e' = show e ∧ pending_list e' = pending_list e ∧
          transition_in_flight e' = transition_in_flight e
      end
  | (e', Throw x) => e' = e ∧ x = ErrSchedule Actions.SequenceExhausted
  | (_, Panic) => False
  end.
Proof.
  rewrite execute_copy, execute_immediate_eq by apply (ew_show _ Hwf).
  pose proof (Scheduler.sw_actions _ (ew_scheduler _ Hwf)) as Hqe.
  pose proof (Actions.schedule_spec (frame_cursor e) c _ Hqe) as Hs.
  destruct (Actions.schedule (frame_cursor e) c (Scheduler.actions (scheduler e)))
    as [q [id|x|]] eqn:Hsch; [| |done].
  2: { split; [done|]. f_equal. by eapply schedule_exhausted. }
  destruct Hs as (Hq&Hid&_&Hpe). rewrite pending_append in Hpe by apply (ew_target _ Hwf).
  destruct (decide_command e env now) as [cs o] eqn:Hd.
  destruct (accepted (Command.receipt o)) as [a|] eqn:Ha.
  - destruct (accepted_wf q cs o a id Hfire Hq Hpe Hd Ha) as (->&k&Hk&Hw&Hsr&Hca&Hcs).
    rewrite Hk. destruct k; simpl; by rewrite Ha.
  - set (q1 := (Actions.cancel id q).1).
    assert (Hq1 : Actions.pending q1 = pending_list e).
    { rewrite Hid in Hpe. subst q1. rewrite Hid.
      apply (cancel_appended _ q (Actions.mk_action (Actions.next_sequence
        (Scheduler.actions (scheduler e)) + 1) (frame_cursor e) c) Hqe Hq eq_refl Hpe). }
    destruct (rejected_wf q1 cs o (cancel_wf id q Hq) Hq1 Hd Ha) as (Hw&Hsr&Hsh).
    simpl. rewrite Ha. split; [exact Hw|]. split; [exact Hsr|]. split; [done|]. done.
Qed.
End execute.
