(* ===== verification/EngineCalm.v ===== *)
(** The engine in any history at all, a stinger fired while a T-bar is held
    included: what agreement of the two switchers is not needed for.  Nothing
    panics, and what every history keeps, failing ticks too, is [calm]. *)
From S2P Require Import Prelude BTree Types EngineShow Engine EngineSim EngineRun.
From S2P Require Command Clock Actions Plans Scheduler FadeToBlack Overlay SwitcherTypes Switcher.
Import SwitcherTypes.
#[local] Open Scope Z_scope.
#[local] Arguments ty_max : simpl never.

(** ** Actions on the realized switcher *)

Definition inputs_permuted {E A} (s : Switcher.SwitcherState) (_ : outcome E A)
    (s' : Switcher.SwitcherState) : Prop := Switcher.inputs s' ≡ₚ Switcher.inputs s.
Lemma kept_permuted {E A} (m : stm Switcher.SwitcherState E A) s :
  wp m (inputs_kept s) s → wp m (inputs_permuted s) s.
Proof. intros H. eapply wp_mono; [exact H|]. intros r s' Hs. unfold inputs_permuted. by rewrite Hs. Qed.
Lemma request_fade_inputs b d s :
  wp (Switcher.request_fade_to_black b d) (inputs_kept s) s.
Proof.
  unfold Switcher.request_fade_to_black. apply wp_bind, wp_zoom.
  eapply (wp_mono _ (λ _ _, True)); [done|]. by intros [x|x|] f _.
Qed.
Lemma runtime_inputs c r : wp (apply_runtime c) (inputs_permuted r) r.
Proof.
  assert (Happ : ∀ c', wp (Switcher.apply c') (inputs_permuted r) r).
  { intros c'. apply kept_permuted, apply_inputs. }
  destruct c; cbn [apply_runtime apply_runtime_overlay overlay_command];
    try (apply wp_bind, wp_expect; [intros ? [= <-]|done]; cbn beta iota); try apply Happ; try (apply wp_ret; unfold inputs_permuted; done).
  - unfold Switcher.reorder_inputs. apply wp_bind, wp_unwrap, wp_bind, wp_get.
    cbn beta iota. unfold inputs_permuted. apply wp_bind, wp_lift; [|intros; by cbn]. intros [] (_&_&Hp)%validate_input_order_Ok.
    cbn beta iota. exact Hp.
  - apply wp_bind. eapply wp_mono; [apply configure_stinger_inputs|].
    intros [[]|e|] s' Hs; unfold inputs_kept, inputs_permuted in *; cbn beta iota; [|by rewrite Hs..].
    destruct (preload _); [|by apply wp_ret; rewrite Hs].
    apply wp_bind. eapply wp_mono; [apply preload_stinger_inputs|].
    intros [ev|e|] s2 Hs2; unfold inputs_kept, inputs_permuted in *; try apply wp_ret; cbn beta iota; rewrite <-Hs; by rewrite Hs2.
  - apply wp_bind, wp_unwrap. eapply wp_mono; [apply remove_stinger_inputs|].
    intros [[]|e|] s' Hs; unfold inputs_kept, inputs_permuted in *; try apply wp_ret; cbn beta iota; by rewrite Hs.
  - apply kept_permuted. unfold Switcher.request_overlay_take, Switcher.with_source,
      Switcher.require_input, Switcher.overlay, Switcher.put_overlay. wp_run; by simplify_eq.
  - apply kept_permuted. unfold Switcher.request_overlay_off, Switcher.overlay, Switcher.put_overlay.
    wp_run; by simplify_eq.
  - apply kept_permuted. unfold Switcher.request_overlay_take_next, Switcher.advance_queue,
      Switcher.overlay, Switcher.put_overlay. wp_run; by simplify_eq.
  - apply wp_unwrap. eapply (wp_mono _ (inputs_kept r)).
    + apply request_fade_inputs.
    + unfold inputs_kept, inputs_permuted. intros [?|?|] s' Hs; by rewrite Hs.
  - apply kept_permuted, (apply_inputs (SwitcherCommand.SetStreamRunning _ _)).
  - apply kept_permuted, (apply_inputs (SwitcherCommand.SetStreamRunning _ _)).
  - apply kept_permuted, (apply_inputs (SwitcherCommand.SetRecordingDesired _)).
  - apply kept_permuted, (apply_inputs (SwitcherCommand.SetRecordingDesired _)).
Qed.

(** What an accepted command promises for its action, for a roster [ins]. *)
Definition ready (ins : list InputId) (c : EngineCommand.t) : Prop :=
  command_ok c ∧
  match c with
  | EngineCommand.ReorderInputs l => validate_input_order ins l = Ok tt
  | EngineCommand.FadeToBlack _ d => validate_fade_to_black_duration d = Ok tt
  | _ => True
  end.
Lemma ready_permuted ins ins' c : ins ≡ₚ ins' → ready ins c → ready ins' c.
Proof.
  intros Hp [Hc Hr]. split; [done|]. destruct c; try done.
  apply validate_input_order_Ok in Hr as (?&?&?). apply validate_input_order_Ok.
  split_and!; [done..|]. by rewrite <-Hp.
Qed.
Definition no_panic {E A} (r : outcome E A) (_ : Switcher.SwitcherState) : Prop := r ≠ Panic.
Lemma safe_no_panic {E A} (m : stm Switcher.SwitcherState E A) s0 s :
  wp m (Switcher.safe s0) s → wp m no_panic s.
Proof. intros H. eapply wp_mono; [exact H|]. by intros [a|e|] s' Hs; [| |destruct Hs]. Qed.
(** Such an action may fail, but it does not panic. *)
Lemma runtime_safe c r :
  Switcher.switcher_wf r → ready (Switcher.inputs r) c → wp (apply_runtime c) no_panic r.
Proof.
  intros Hwf [Hc Hready].
  assert (Happ : ∀ c', Switcher.command_ok c' → wp (Switcher.apply c') no_panic r).
  { intros c' Hc'. by eapply safe_no_panic, Switcher.apply_safe. }
  destruct c; cbn [apply_runtime apply_runtime_overlay overlay_command];
    try (apply wp_bind, wp_expect; [intros ? [= <-]|done]; cbn beta iota);
    try (apply Happ; first [done|by destruct Hc|by destruct kind]).
  - cbv [wp no_panic st_unwrap Switcher.reorder_inputs mbind stm_bind st_get st_lift st_put].
    by rewrite Hready.
  - done.
  - done.
  - apply wp_bind. eapply wp_mono; [by apply Switcher.configure_stinger_safe|].
    intros [[]|e|] s' [Hs He]; [|done..]. destruct (preload descriptor); [|done].
    apply wp_bind. eapply wp_mono; [by apply Switcher.preload_stinger_safe|].
    by intros [ev|e|] s2 [_ Hf].
  - apply wp_bind, wp_unwrap. eapply wp_mono; [by apply Switcher.remove_stinger_safe|].
    by intros [[]|e|] s' [_ Hf].
  - eapply safe_no_panic, Switcher.with_source_safe; auto using Overlay.request_take_wf.
  - by eapply safe_no_panic, Switcher.request_overlay_off_safe.
  - by eapply safe_no_panic, Switcher.request_overlay_take_next_safe.
  - pose proof (FadeToBlack.request_spec (FadeToBlack.from_active active) duration_frames _
      (Switcher.wf_ftb _ Hwf) Hc) as Hr.
    unfold wp, no_panic, st_unwrap, Switcher.request_fade_to_black, mbind, stm_bind, st_zoom.
    destruct (FadeToBlack.request _ _ _) as [c [x|x|]]; [done| |done].
    exfalso. revert Hready. unfold validate_fade_to_black_duration.
    by destruct Hr as [_ [->|?]]; repeat case_decide.
  - by eapply safe_no_panic, Switcher.set_stream_running_safe.
  - by eapply safe_no_panic, Switcher.set_stream_running_safe.
  - by eapply safe_no_panic, Switcher.set_recording_desired_safe.
  - by eapply safe_no_panic, Switcher.set_recording_desired_safe.
Qed.
(** The command machine accepts only commands whose action is ready. *)
Lemma accepted_ready c n s s' evs a :
  show_wf s → command_ok c → mutation_apply (mk_mutation c n) (s, []) = ((s', evs), Ret a) →
  ready (show_inputs s) c.
Proof.
  intros Hs Hc Hm. split; [done|]. destruct c; try done.
  - assert (Hw : wp (mutation_apply (mk_mutation (EngineCommand.ReorderInputs inputs) n))
      (λ r _, match r with
              | Ret _ => validate_input_order (show_inputs s) inputs = Ok tt
              | _ => True
              end) (s, [])).
    { unfold mutation_apply, apply_reorder_mutation. apply wp_bind, wp_map_err, wp_on_show.
      eapply wp_mono; [by apply show_reorder_spec|]. intros [[]|e|] s1 H1; [|done..].
      destruct H1 as (Hwf1&Hl&Hperm&_). apply wp_bind, wp_push_event, wp_ret.
      apply validate_input_order_Ok. split_and!; [|rewrite <-Hl; apply (sh_distinct _ Hwf1)|done].
      intros ->. pose proof (Switcher.wf_program _ (sh_switcher _ Hs)) as Hp.
      rewrite <-(sh_inputs _ Hs), <-Hperm in Hp. by apply not_elem_of_nil in Hp. }
    unfold wp in Hw. by rewrite Hm in Hw.
  - revert Hm. unfold mutation_apply, apply_fade_to_black_mutation, mbind, stm_bind, st_lift. simpl.
    by destruct (validate_fade_to_black_duration duration_frames) as [[]|].
Qed.

(** ** The invariant *)

Record calm (e : Engine) : Prop := {
  cm_show : show_wf (show e);
  cm_scheduler : Scheduler.scheduler_wf (scheduler e);
  cm_realized : Switcher.switcher_wf (realized_switcher e);
  cm_inputs : Switcher.inputs (realized_switcher e) ≡ₚ show_inputs (show e);
  cm_pending : Forall (ready (show_inputs (show e))) (pending_commands e);
  cm_rate : rate_wf (frame_rate e);
  cm_pacer : Plans.frame_rate (Scheduler.pacer (scheduler e)) = frame_rate e ∧
    Plans.origin_ns (Scheduler.pacer (scheduler e)) = 0;
  cm_clock : clock_time e ≤ due e
}.

Lemma calm_eq e e' :
  calm e → show e' = show e → scheduler e' = scheduler e →
  realized_switcher e' = realized_switcher e → frame_rate e' = frame_rate e →
  clock_time e' ≤ due e → calm e'.
Proof.
  intros [] Hs Hc Hr Hf Hk. split; rewrite ?Hs, ?Hc, ?Hr, ?Hf; try done.
  - unfold pending_commands, pending_list in *. by rewrite Hc.
  - unfold due, frame_cursor in *. by rewrite Hc.
Qed.

(** ** Commands *)

Lemma insert_ready ins (a : Actions.ScheduledAction EngineCommand.t) l :
  ready ins (Actions.action a) → Forall (ready ins) (Actions.action <$> l) →
  Forall (ready ins) (Actions.action <$> Actions.spec_insert a l).
Proof.
  rewrite !Forall_fmap, !Forall_forall. intros Ha Hl b. unfold Actions.spec_insert.
  rewrite elem_of_app, elem_of_cons, !list_elem_of_filter.
  intros [[_ Hb]|[->|[_ Hb]]]; [by apply Hl|done|by apply Hl].
Qed.
Lemma withdraw_ready ins (a : Actions.ScheduledAction EngineCommand.t) l :
  Forall (ready ins) (Actions.action <$> l) →
  Forall (ready ins) (Actions.action <$>
    Actions.spec_cancel (Actions.sa_id a) (Actions.spec_insert a l)).
Proof.
  rewrite !Forall_fmap, !Forall_forall. intros Hl b. unfold Actions.spec_cancel, Actions.spec_insert.
  rewrite list_elem_of_filter, elem_of_app, elem_of_cons, !list_elem_of_filter.
  intros [Hne [[_ Hb]|[->|[_ Hb]]]]; [by apply Hl|done|by apply Hl].
Qed.
(** The transition a command starts can always be named. *)
Lemma runtime_transition_total s c :
  show_wf s → command_ok c → ∃ k, runtime_transition s c = Ret k.
Proof.
  intros Hs Hc. destruct c; try by eexists. destruct Hc as [Hslot _]. simpl.
  unfold stinger_runtime_transition.
  pose proof (Switcher.wp_stinger (E := SwitcherError) slot (λ r _, is_Some (match r with Ret a => Some a | _ => None end))
    (desired_switcher s) (sh_switcher _ Hs) Hslot ltac:(by eexists)) as Hw.
  unfold wp, Switcher.stinger_playback_decision, mbind, stm_bind in *.
  destruct (Switcher.stinger slot (desired_switcher s)) as [s' [o|x|]]; simpl in *;
    [|by destruct Hw..].
  destruct (descriptor o) as [d|]; [case_decide; [by eexists|]|by eexists].
  destruct (missing_media_fallback d); by eexists.
Qed.
(** What the command machine decides leaves a well-formed show with the same
    roster, and what it accepts is ready. *)
Lemma decided_show e env now cs o :
  calm e → command_ok (Command.command env) →
  Command.receipts (commands e) !! Command.idempotency_key env = None →
  decide_command e env now = (cs, o) →
  show_wf (Command.state cs) ∧ show_inputs (Command.state cs) ≡ₚ show_inputs (show e) ∧
  (is_Some (accepted (Command.receipt o)) → ready (show_inputs (show e)) (Command.command env)).
Proof.
  intros He Hc Hk Hd. destruct (Command.apply_spec _ _ _ _ _ _ Hk Hd) as (p&Hp&Hcom).
  destruct (Command.commit_decision _ _ _ _ _ _ _ Hp Hcom) as (_&_&_&Ho).
  destruct (Command.receipt o) as [cid rev result|cid rej cur]; last first.
  { destruct Ho as (_&_&_&->&_). split_and!; [apply (cm_show _ He)|done|by intros [? ?]]. }
  destruct Ho as (_&_&_&_&_&_&(mut&Hprep&Hmut)&_).
  assert (Hmut' : mut = run_mutation (mk_mutation (Command.command env) (frame_cursor e))).
  { unfold prepare_mutation in Hprep. destruct (transition_in_flight e); [|congruence].
    destruct (allowed_in_flight _); congruence. }
  subst mut. unfold run_mutation in Hmut.
  pose proof (mutation_total (show e) [] (mk_mutation (Command.command env) (frame_cursor e))
    (cm_show _ He) Hc) as Hm.
  pose proof (mutation_roster (mk_mutation (Command.command env) (frame_cursor e)) (show e) []
    (cm_show _ He)) as Hr.
  pose proof (accepted_ready (Command.command env) (frame_cursor e) (show e)) as Hready.
  unfold wp, show in *.
  destruct (mutation_apply _ _) as [[s evs] [a|rej|]]; [|done..].
  injection Hmut as <- _ _. destruct Hr as (Hr&_&_).
  split_and!; [exact Hm|exact Hr|]. intros _. by apply (Hready s evs a (cm_show _ He)).
Qed.

(** The scheduler with one action more, or as before. *)
Lemma actions_calm e (q : Actions.ActionQueue EngineCommand.t) e' :
  calm e → Actions.queue_wf q →
  Forall (ready (show_inputs (show e))) (Actions.action <$> Actions.pending q) →
  show_wf (show e') → show_inputs (show e') ≡ₚ show_inputs (show e) → scheduler e' = Scheduler.set_actions q (scheduler e) →
  realized_switcher e' = realized_switcher e → frame_rate e' = frame_rate e →
  clock e' = clock e → calm e'.
Proof.
  intros [Hs Hc Hr Hi Hp Hf Hpc Hk] Hq Hok Hs' Hi' Hc' Hr' Hf' Hk'.
  split; rewrite ?Hr', ?Hf'; try done.
  - rewrite Hc'. by destruct Hc.
  - by rewrite Hi'.
  - unfold pending_commands, pending_list. rewrite Hc'. eapply Forall_impl; [exact Hok|].
    intros c. by apply ready_permuted.
  - by rewrite Hc'.
  - unfold clock_time, due, frame_cursor in *. by rewrite Hk', Hc'.
Qed.
Lemma execute_calm e env now :
  calm e → command_ok (Command.command env) →
  match execute env now e with
  | (e', Ret _) => calm e'
  | (e', Throw x) => e' = e ∧ x = ErrSchedule Actions.SequenceExhausted
  | (_, Panic) => False
  end.
Proof.
  intros He Hc.
  destruct (Command.receipts (commands e) !! Command.idempotency_key env) as [r|] eqn:Hk.
  { unfold execute, prepare_execute, mbind, stm_bind, st_get. by rewrite Hk. }
  rewrite execute_copy, execute_immediate_eq by first [apply (cm_show _ He)|done].
  pose proof (Scheduler.sw_actions _ (cm_scheduler _ He)) as Hqe.
  pose proof (Actions.schedule_spec (frame_cursor e) (Command.command env) _ Hqe) as Hs.
  destruct (Actions.schedule (frame_cursor e) _ (Scheduler.actions (scheduler e)))
    as [q [id|x|]] eqn:Hsch; [| |done].
  2: { split; [done|]. f_equal. by eapply schedule_exhausted. }
  destruct Hs as (Hq&_&_&Hpe).
  destruct (decide_command e env now) as [cs o] eqn:Hd.
  destruct (decided_show e env now cs o He Hc Hk Hd) as (Hshow&Hins&Hready).
  destruct (accepted (Command.receipt o)) as [a|].
  - assert (Hok : Forall (ready (show_inputs (show e))) (Actions.action <$> Actions.pending q)).
    { rewrite Hpe. apply insert_ready; [by apply Hready|]. apply (cm_pending _ He). }
    destruct (runtime_transition_total (Command.state cs) _ Hshow Hc) as [[k|] ->];
      by apply (actions_calm e q).
  - set (q1 := (Actions.cancel id q).1).
    assert (Hp1 : Forall (ready (show_inputs (show e))) (Actions.action <$> Actions.pending q1)).
    { subst q1. destruct (Actions.cancel id q) as [q1 r] eqn:Hcan.
      destruct (Actions.pending_cancel _ _ _ _ Hq Hcan) as (_&Hp1&_). simpl. rewrite Hp1, Hpe.
      by apply (withdraw_ready _ (Actions.mk_action id _ _)), (cm_pending _ He). }
    apply (actions_calm e q1); try done. by apply cancel_wf.
Qed.

(** ** Frames *)

(** The actions of a frame never panic, whether or not one of them fails. *)
Lemma apply_actions_calm l e :
  Switcher.switcher_wf (realized_switcher e) →
  Forall (ready (Switcher.inputs (realized_switcher e))) (Actions.action <$> l) →
  let '(e', r) := apply_actions l e in
  r ≠ Panic ∧ Switcher.switcher_wf (realized_switcher e') ∧
  Switcher.inputs (realized_switcher e') ≡ₚ Switcher.inputs (realized_switcher e) ∧
  show e' = show e ∧ scheduler e' = scheduler e ∧ frame_rate e' = frame_rate e ∧
  clock e' = clock e ∧
  (∀ x, r = Throw x → (∃ y, x = ErrRuntimeSwitcher y) ∨ x = ErrCounterExhausted).
Proof.
  revert e. induction l as [|a l IH]; intros e Hr Hl; [by split_and!|].
  apply Forall_cons in Hl as [Ha Hl]. cbn [apply_actions].
  unfold mbind, stm_bind, st_zoom, st_map_err, st_get, st_lift, st_modify.
  pose proof (runtime_wf (Actions.action a) (realized_switcher e) Hr (proj1 Ha)) as Hw.
  pose proof (runtime_safe (Actions.action a) (realized_switcher e) Hr Ha) as Hnp.
  pose proof (runtime_inputs (Actions.action a) (realized_switcher e)) as Hi.
  unfold wp, left_wf, no_panic, inputs_permuted in *.
  destruct (apply_runtime (Actions.action a) (realized_switcher e)) as [r1 [evs|err|]];
    cbn [outcome_map_err]; [|split_and!; try done; intros x [= <-]; left; by eexists|done].
  cbn [runtime_generation set_realized].
  destruct (Command.checked_next (runtime_generation e)) as [next|y]; cbn [result_map_err];
    [|split_and!; try done; intros x [= <-]; by right].
  specialize (IH (set_generation next (set_realized r1 e)) Hw).
  destruct (apply_actions l _) as [e' [[more ups]|x|]]; cbn [mret stm_ret];
    (destruct IH as (?&?&Hi'&?&?&?&?&?);
      [eapply Forall_impl; [exact Hl|intros c; by apply ready_permuted]|]);
    split_and!; try done; by rewrite Hi'.
Qed.

(** Why a tick fails: the timeline is exhausted, and then only the clock has
    changed, or an action of the frame fails. *)
Inductive tick_failure (e e' : Engine) : EngineError → Prop :=
  | failure_pacing y :
      ¬ can_tick e → e' = set_clock (clock e') e → tick_failure e e' (ErrTick (Scheduler.Pacing y))
  | failure_switcher y : tick_failure e e' (ErrRuntimeSwitcher y)
  | failure_counter : tick_failure e e' ErrCounterExhausted.

Lemma set_clock_same e : e = set_clock (clock e) e.
Proof. by destruct e. Qed.
Lemma calm_due_mono e n : calm e → frame_cursor e ≤ n → due e ≤ Plans.due_at (Scheduler.pacer (scheduler e)) n.
Proof.
  intros He Hn. apply Plans.due_at_mono; [apply (Scheduler.sw_pacer _ (cm_scheduler _ He))|done].
Qed.
(** A tick, failed or not. *)
Lemma tick_calm e :
  calm e → let '(e', r) := tick e in
  calm e' ∧ match r with
            | Ret _ => True
            | Throw x => tick_failure e e' x
            | Panic => False
            end.
Proof.
  intros He. unfold tick, mbind, stm_bind, st_get, next_frame_deadline.
  rewrite Plans.next_deadline_eq by apply (Scheduler.sw_pacer _ (cm_scheduler _ He)).
  change (Plans.due_at (Scheduler.pacer (scheduler e)) (Plans.next_frame (Scheduler.pacer (scheduler e))))
    with (due e).
  case_decide as Hdue; cbn [snd mret stm_ret mthrow stm_throw].
  2: { split; [done|]. apply failure_pacing; [by intros [? ?]|apply set_clock_same]. }
  unfold st_zoom, st_map_err. cbn [Plans.at_ns].
  pose proof (cm_clock _ He) as Hclk. unfold clock_time in Hclk.
  unfold Clock.manual_set, mbind, stm_bind, st_get, st_require, st_put.
  rewrite decide_True by lia. cbn [mret stm_ret outcome_map_err].
  set (k := Clock.mk_manual _).
  cbn [set_clock scheduler].
  pose proof (Scheduler.tick_spec (due e) _ (cm_scheduler _ He)) as Hs.
  change (Scheduler.due_of (scheduler e)) with (due e) in Hs.
  destruct (Scheduler.tick _ (scheduler e)) as [s' [t|x|]]; cbn [outcome_map_err]; [| |done].
  2: { destruct x as [n d|y|y]; [lia| |done].
    assert (s' = scheduler e ∧ frame_cursor e = ty_max U64) as [-> Hmax].
    { destruct y; [lia|done]. }
    split; [by apply (calm_eq e)|].
    apply failure_pacing; [intros [_ ?]; lia|]. simpl. by destruct e. }
  destruct Hs as (Hs&_&_&_&_&Hpc&_&_&Hpe&_).
  unfold st_modify. cbn [set_scheduler pending_actions].
  set (e1 := set_pending _ _).
  pose proof (cm_pending _ He) as Hp. unfold pending_commands, pending_list in Hp.
  rewrite Hpe, fmap_app in Hp. apply Forall_app in Hp as [Hnow Hlater].
  assert (H1 : calm e1).
  { split; try done; try apply He.
    - simpl. rewrite Hpc. apply (cm_pacer _ He).
    - unfold due, frame_cursor. simpl. rewrite Hpc. simpl.
      apply (calm_due_mono e (frame_cursor e + 1) He). lia. }
  pose proof (apply_actions_calm (Scheduler.tick_actions t) e1 (cm_realized _ He)) as Ha.
  destruct (apply_actions _ e1) as [e2 r].
  destruct Ha as (Hnp&Hw&Hi&Hshow&Hsch&Hrate&Hk&Herr).
  { eapply Forall_impl; [exact Hnow|]. intros c. apply ready_permuted. symmetry. apply (cm_inputs _ He). }
  assert (Hcalm : calm e2).
  { destruct H1. split; rewrite ?Hshow, ?Hrate, ?Hsch; try done.
    - by rewrite Hi.
    - unfold pending_commands, pending_list in *. by rewrite Hsch.
    - unfold due, frame_cursor, clock_time in *. by rewrite Hsch, Hk. }
  destruct r as [[evs ups]|x|];
    [|split; [done|destruct (Herr x eq_refl) as [[? ->]| ->];
       [apply failure_switcher|apply failure_counter]]|done].
  cbn beta iota. unfold st_expect.
  destruct (FadeToBlack.frame_spec _ (Switcher.wf_ftb _ Hw)) as (fade&->&_).
  destruct (Switcher.advance_frame_spec _ Hw) as (r2&more&Hfr&Hw2&Hi2&_).
  unfold st_unwrap. cbn [mret stm_ret]. rewrite Hfr. cbn beta iota.
  assert (Hcalm2 : calm (set_realized r2 e2)).
  { destruct Hcalm. split; try done. simpl. by rewrite Hi2. }
  destruct (existsb program_changed more); (split; [|done]);
    apply (calm_eq (set_realized r2 e2)); try done; apply (cm_clock _ Hcalm2).
Qed.

(** ** Restarts *)

Lemma restore_calm e snap e' : calm e → snapshot e = Ok snap → restore snap = Ret e' → calm e'.
Proof.
  intros He Hsn Hre. unfold snapshot in Hsn. case_decide; [done|]. injection Hsn as <-.
  unfold restore, restore_persisted in Hre. cbn [snap_frame_rate frames_rendered snap_show
    snap_realized snap_receipts rs_frame_cursor] in Hre.
  destruct (validate_idle_restore _ _ _ _) as [u|x|]; [|done..].
  destruct (Scheduler.scheduler_restore (frame_rate e) 0 (frame_cursor e) 0 tt) as [s|x|] eqn:Hs;
    [|done..]. injection Hre as <-.
  pose proof (Plans.pw_next _ (Scheduler.sw_pacer _ (cm_scheduler _ He))) as Hn.
  pose proof (Scheduler.restore_resumes (frame_rate e) 0 (frame_cursor e) 0 tt s (cm_rate _ He)
    ltac:(by vm_compute) Hn Hs) as [Hsw _].
  unfold Scheduler.scheduler_restore in Hs.
  destruct (Plans.pacer_restore _ _ _) as [pc|x|] eqn:Hpc; [|done..]. injection Hs as <-.
  apply Plans.pacer_restore_spec in Hpc as (->&_&_); [|apply (cm_rate _ He)|by vm_compute|exact Hn].
  split; try apply He; simpl; [done|constructor|done|].
  destruct (cm_pacer _ He) as [Hpr Hpo]. pose proof (cm_clock _ He) as Hk.
  unfold due, Plans.due_at in *. rewrite Hpr, Hpo in Hk. exact Hk.
Qed.
