(* ===== verification/EngineSnapshot.v ===== *)
(** Restart: the engine at rest, its snapshots and what a restored engine is.

    An engine is at rest when nothing is pending and every animation is over; then
    [snapshot] succeeds, and [restore] gives an engine that differs from the
    original in nothing but the numbering of actions and the telemetry of its
    scheduler. *)
From stdpp Require Import sorting.
From S2P Require Import Prelude BTree Types EngineShow Engine EngineSim EngineRun.
From S2P Require Command Clock Actions Plans Scheduler FadeToBlack Overlay SwitcherTypes Switcher Settle.
Import SwitcherTypes.
Import Settle.
#[local] Open Scope Z_scope.
#[local] Arguments ty_max : simpl never.

(** ** Rest *)

Definition at_rest (e : Engine) : Prop :=
  pending_list e = [] ∧ frames_left (realized_switcher e) = 0.

Section rest.
Context (r : Switcher.SwitcherState) (Hwf : Switcher.switcher_wf r).

Lemma frames_left_bound : bounded r → frames_left r ≤ 3600.
Proof.
  intros Hb. unfold frames_left.
  assert (transition_left r ≤ 3600).
  { unfold transition_left. pose proof (Switcher.wf_route _ Hwf) as Hr. unfold bounded in Hb.
    destruct (Switcher.transition r) as [t|]; [|lia]. destruct (Switcher.t_bar r); [done|].
    destruct Hr as (_&_&?&_). specialize (Hb t eq_refl).
    unfold MAX_TRANSITION_DURATION_FRAMES in Hb. lia. }
  assert (fade_left (Switcher.fade_to_black r) ≤ 3600).
  { pose proof (Switcher.wf_ftb _ Hwf) as Hf. unfold FadeToBlack.ftb_wf in Hf. unfold fade_left.
    destruct (FadeToBlack.automatic _) as [a|]; [|lia]. destruct Hf as ([_ ? Hd _]&_).
    unfold FadeToBlack.MAX_FADE_TO_BLACK_DURATION_FRAMES in Hd. lia. }
  assert (overlays_left (Switcher.overlays r) ≤ 3600); [|lia].
  pose proof (Switcher.wf_overlay _ Hwf) as Ho.
  induction (Switcher.overlays r) as [|o os IH]; simpl; [lia|].
  apply Forall_cons in Ho as [Hwo Ho]. specialize (IH Ho).
  pose proof (Overlay.ow_motion _ _ Hwo) as Hm. unfold Overlay.motion_ok in Hm.
  assert (overlay_left o ≤ 3600); [|lia]. unfold overlay_left.
  destruct (Overlay.automatic o) as [a|]; [|lia]. destruct Hm as ([_ _ ? Hd]&_).
  unfold Overlay.MAX_OVERLAY_TRANSITION_DURATION_FRAMES in Hd. lia.
Qed.
(** Nothing moves exactly when no frames are left. *)
Lemma frames_left_0 :
  frames_left r = 0 ↔ Switcher.transition r = None ∧
    FadeToBlack.automatic (Switcher.fade_to_black r) = None ∧
    Switcher.overlays_in_motion r = false.
Proof.
  pose proof (transition_left_nonneg r Hwf) as H1.
  pose proof (fade_left_nonneg _ (Switcher.wf_ftb _ Hwf)) as H2.
  pose proof (overlays_left_nonneg (Switcher.overlays r)) as H3.
  assert (Ht : transition_left r = 0 ↔ Switcher.transition r = None).
  { unfold transition_left. pose proof (Switcher.wf_route _ Hwf) as Hr.
    destruct (Switcher.transition r) as [t|]; [|done]. destruct (Switcher.t_bar r); [done|].
    destruct Hr as (_&_&?&_). split; [lia|done]. }
  assert (Hf : fade_left (Switcher.fade_to_black r) = 0 ↔
    FadeToBlack.automatic (Switcher.fade_to_black r) = None).
  { pose proof (Switcher.wf_ftb _ Hwf) as Hf. unfold FadeToBlack.ftb_wf in Hf. unfold fade_left.
    destruct (FadeToBlack.automatic _) as [a|]; [|done]. destruct Hf as ([_ ? _ _]&_).
    split; [lia|done]. }
  assert (Ho : overlays_left (Switcher.overlays r) = 0 ↔ Switcher.overlays_in_motion r = false).
  { unfold Switcher.overlays_in_motion. clear -Hwf. pose proof (Switcher.wf_overlay _ Hwf) as Hw.
    induction (Switcher.overlays r) as [|o os IH]; simpl; [done|].
    apply Forall_cons in Hw as [Hwo Hw]. specialize (IH Hw).
    pose proof (overlays_left_nonneg os).
    pose proof (Overlay.ow_motion _ _ Hwo) as Hm. unfold Overlay.motion_ok in Hm.
    rewrite orb_false_iff, bool_decide_eq_false, <-IH. unfold overlay_left.
    destruct (Overlay.automatic o) as [a|].
    - destruct Hm as ([_ _ ? _]&_). split; [lia|]. intros [[] _]. by eexists.
    - split; [intros; split; [by intros [? ?]|lia]|intros [_ ?]; lia]. }
  unfold frames_left. rewrite <-Ht, <-Hf, <-Ho. lia.
Qed.
End rest.

Lemma rest_agree e :
  engine_wf e → pending_list e = [] → agree e (realized_switcher e).
Proof.
  intros Hwf Hp. destruct (ew_agree _ Hwf) as [r' Ha].
  assert (r' = realized_switcher e) as <-; [|done].
  pose proof (ag_run _ _ Ha) as Hr. unfold pending_commands in Hr. rewrite Hp in Hr.
  simpl in Hr. congruence.
Qed.
(** The engine's own test for work in flight is exact. *)
Lemma in_flight_iff e : engine_wf e → ¬ in_flight e ↔ at_rest e.
Proof.
  intros Hwf. unfold in_flight, at_rest, fade_is_automatic.
  rewrite frames_left_0 by apply Hwf. rewrite (ew_pending _ Hwf).
  assert (Hlen : Z.of_nat (length (pending_list e)) = 0 ↔ pending_list e = []).
  { destruct (pending_list e); simpl; [done|]. split; [lia|done]. }
  destruct (ew_agree _ Hwf) as [r' Ha].
  assert (Hd : FadeToBlack.automatic (Switcher.fade_to_black (desired_switcher (show e))) = None).
  { by rewrite (ag_settled _ _ Ha). }
  split.
  - intros Hn. split_and!.
    + apply Hlen. destruct (decide (Z.of_nat (length (pending_list e)) = 0)); [done|]. tauto.
    + apply eq_None_not_Some. tauto.
    + apply eq_None_not_Some. tauto.
    + apply not_true_iff_false. tauto.
  - intros (Hp&Ht&Hf&Ho) Hin.
    pose proof (ag_in_flight _ _ (rest_agree e Hwf Hp)) as Hfl. rewrite Ht in Hfl. simpl in Hfl.
    rewrite <-Hfl, Ht, Hf, Hd, Ho in Hin. apply Hlen in Hp.
    destruct Hin as [?|[[? ?]|[[? ?]|[[? ?]|[[? ?]|?]]]]]; done.
Qed.
(** At rest the switchers show the same. *)
Lemma rest_desired e :
  engine_wf e → at_rest e →
  desired_switcher (show e) =
    Switcher.set_t_bar (settle_t_bar <$> Switcher.t_bar (realized_switcher e)) (realized_switcher e).
Proof.
  intros Hwf [Hp Hz]. rewrite (ag_settled _ _ (rest_agree e Hwf Hp)).
  apply settle_at_rest; [apply Hwf|done].
Qed.

(** ** Ticking to rest *)

(** The frames up to the [n]th have deadlines. *)
Definition can_ticks (n : nat) (e : Engine) : Prop :=
  Plans.due_at (Scheduler.pacer (scheduler e)) (frame_cursor e + Z.of_nat n - 1) ≤ ty_max U64 ∧
  frame_cursor e + Z.of_nat n ≤ ty_max U64.
Lemma due_at_pacer p q f :
  Plans.frame_rate p = Plans.frame_rate q → Plans.origin_ns p = Plans.origin_ns q →
  Plans.due_at p f = Plans.due_at q f.
Proof. unfold Plans.due_at. by intros -> ->. Qed.
Lemma due_at_engine e f :
  engine_wf e →
  Plans.due_at (Scheduler.pacer (scheduler e)) f = Plans.due_at (Plans.pacer_new (frame_rate e) 0) f.
Proof.
  intros Hwf. apply due_at_pacer; [apply (ew_rate _ Hwf)|apply (ew_origin _ Hwf)].
Qed.
Lemma can_ticks_S n e e' :
  engine_wf e → can_ticks (S n) e →
  can_tick e ∧ (engine_wf e' → frame_rate e' = frame_rate e →
    frame_cursor e' = frame_cursor e + 1 → can_ticks n e').
Proof.
  intros Hwf [Hd Hm]. pose proof (Scheduler.sw_pacer _ (ew_scheduler _ Hwf)) as Hp. split.
  - split; [|lia]. unfold due. etrans; [|exact Hd]. apply Plans.due_at_mono; [done|lia].
  - intros Hwf' Hr Hc. unfold can_ticks. rewrite Hc. rewrite !due_at_engine, Hr by done.
    rewrite due_at_engine in Hd by done. split; [|lia].
    replace (frame_cursor e + 1 + Z.of_nat n - 1) with (frame_cursor e + Z.of_nat (S n) - 1) by lia.
    done.
Qed.
(** Frames of an engine with nothing pending move its animations on. *)
Lemma ticks_rest n e :
  engine_wf e → pending_list e = [] → can_ticks n e →
  ∃ e', ticks n e = (e', Ret tt) ∧ engine_wf e' ∧ pending_list e' = [] ∧
    commands e' = commands e ∧ receipt_history e' = receipt_history e ∧
    frame_rate e' = frame_rate e ∧ frame_cursor e' = frame_cursor e + Z.of_nat n ∧
    frames_left (realized_switcher e') =
      Z.max 0 (frames_left (realized_switcher e) - Z.of_nat n).
Proof.
  revert e. induction n as [|n IH]; intros e Hwf Hp Hcan.
  { exists e. split_and!; try done; [lia|].
    pose proof (frames_left_nonneg _ (ew_realized _ Hwf)). lia. }
  destruct (can_ticks_S n e e Hwf Hcan) as [H1 _].
  destruct (tick_wf e Hwf H1) as (r'&e1&fr&Ha&Ht&Htk&_&Hwf1&_).
  destruct (can_ticks_S n e e1 Hwf Hcan) as [_ Hn].
  destruct (IH e1) as (e'&Hrun&?&?&Hc&Hh&Hr&Hcur&Hleft).
  { done. } { apply (tk_pending _ _ _ Htk). }
  { apply Hn; [done|apply (tk_rate _ _ _ Htk)|apply (tk_cursor _ _ _ Htk)]. }
  exists e'. cbn [ticks]. unfold mbind, stm_bind. rewrite Ht. split; [exact Hrun|].
  destruct Htk as [Hc1 Hh1 Hr1 Hcur1 _ _ _ _ _ [more Hfr]].
  pose proof (rest_agree e Hwf Hp) as Ha'.
  assert (r' = realized_switcher e) as ->.
  { pose proof (ag_run _ _ Ha) as Hx. rewrite (ag_run _ _ Ha') in Hx. congruence. }
  rewrite (frames_left_frame _ _ _ (ew_realized _ Hwf) Hfr) in Hleft.
  unfold one_less in Hleft. split_and!; first [done|congruence|lia].
Qed.
Lemma ticks_converge n e :
  engine_wf e → (3601 ≤ n)%nat → can_ticks n e →
  ∃ e', ticks n e = (e', Ret tt) ∧ engine_wf e' ∧ at_rest e' ∧ commands e' = commands e ∧
    frame_cursor e' = frame_cursor e + Z.of_nat n.
Proof.
  intros Hwf Hn Hcan. destruct n as [|n]; [lia|].
  destruct (can_ticks_S n e e Hwf Hcan) as [H1 _].
  destruct (tick_wf e Hwf H1) as (r'&e1&fr&Ha&Ht&Htk&_&Hwf1&Hag1).
  destruct (can_ticks_S n e e1 Hwf Hcan) as [_ Hcan1].
  destruct (ticks_rest n e1 Hwf1) as (e'&Hrun&Hwf'&Hp&Hc&_&_&Hcur&Hleft).
  { apply (tk_pending _ _ _ Htk). }
  { apply Hcan1; [done|apply (tk_rate _ _ _ Htk)|apply (tk_cursor _ _ _ Htk)]. }
  exists e'. cbn [ticks]. unfold mbind, stm_bind. rewrite Ht. split; [exact Hrun|].
  pose proof (frames_left_bound _ (ew_realized _ Hwf1) (ag_bounded _ _ Hag1)).
  pose proof (tk_commands _ _ _ Htk). pose proof (tk_cursor _ _ _ Htk).
  split_and!; [done|split; [done|lia]|congruence|lia].
Qed.

(** ** Snapshots *)

Lemma snapshot_rest e :
  engine_wf e →
  is_ok (snapshot e) = true ↔ at_rest e.
Proof.
  intros Hwf. rewrite <-in_flight_iff by done. unfold snapshot. by case_decide.
Qed.

(** The loop over the receipts counts the accepted ones. *)
Lemma count_accepted_eq cursor n l :
  0 ≤ n →
  n + Z.of_nat (length (filter (λ p, is_Some (accepted p.2)) l)) ≤ ty_max U64 →
  (∀ k r a, (k, r) ∈ l → accepted r = Some a → acc_target_frame a < cursor) →
  count_accepted cursor n l = Ok (n + Z.of_nat (length (filter (λ p, is_Some (accepted p.2)) l))).
Proof.
  revert n. induction l as [|[k r] l IH]; intros n Hn Hmax Hl; cbn [count_accepted].
  { by rewrite Z.add_0_r. }
  rewrite filter_cons in Hmax |- *. cbn [snd] in *.
  destruct (accepted r) as [a|] eqn:Ha.
  - rewrite decide_True in Hmax |- * by by eexists. cbn [length] in *.
    rewrite checked_in by (unfold in_ty; change (ty_min U64) with 0; lia). cbn [ok_or mbind result_bind].
    pose proof (Hl k r a (list_elem_of_here _ _) Ha). rewrite decide_False by lia.
    rewrite IH; [f_equal; lia|lia|lia|].
    intros k' r' a' Hin. eapply Hl. by right.
  - rewrite decide_False in Hmax |- * by (by intros [? ?]). apply IH; [done..|].
    intros k' r' a' Hin. eapply Hl. by right.
Qed.
Lemma accepted_length (m : gmap IdempotencyKey Receipt) l :
  l ≡ₚ map_to_list m →
  length (filter (λ p, is_Some (accepted p.2)) l) = size (accepted_in m).
Proof.
  intros Hl. rewrite Hl. unfold accepted_in. rewrite <-length_map_to_list.
  apply Permutation_length, NoDup_Permutation.
  - apply NoDup_filter, NoDup_map_to_list.
  - apply NoDup_map_to_list.
  - intros [k r]. rewrite list_elem_of_filter, !elem_of_map_to_list, map_lookup_filter_Some.
    naive_solver.
Qed.
(** Reading the pairs back gives the map. *)
Lemma fold_insert_list (m : gmap IdempotencyKey Receipt) l :
  l ≡ₚ map_to_list m → foldl (λ m p, <[p.1 := p.2]> m) ∅ l = m.
Proof.
  intros Hl.
  assert (Hf : ∀ l (m0 : gmap IdempotencyKey Receipt), NoDup l.*1 →
    foldl (λ m p, <[p.1 := p.2]> m) m0 l = list_to_map l ∪ m0).
  { clear. induction l as [|[k r] l IH]; intros m0 Hnd; simpl; [by rewrite (left_id_L ∅ (∪))|].
    apply NoDup_cons in Hnd as [Hk Hnd]. rewrite IH by done. simpl.
    rewrite <-insert_union_r by by apply not_elem_of_list_to_map_1. by rewrite insert_union_l. }
  rewrite Hf.
  - rewrite (right_id_L ∅ (∪)). rewrite (list_to_map_proper l (map_to_list m)).
    + apply list_to_map_to_list.
    + rewrite Hl. apply NoDup_fst_map_to_list.
    + done.
  - rewrite Hl. apply NoDup_fst_map_to_list.
Qed.

(** ** Restoring *)

(** The engine that a snapshot restores. *)
Record restored (e e' : Engine) : Prop := {
  rd_equal : e' = set_scheduler (scheduler e') e;
  rd_pacer : Scheduler.pacer (scheduler e') = Scheduler.pacer (scheduler e);
  rd_pending : pending_list e' = [];
  rd_sequence : Actions.next_sequence (Scheduler.actions (scheduler e')) = 0;
  rd_scheduler : Scheduler.scheduler_wf (scheduler e')
}.

Section restore.
Context (e : Engine) (Hwf : engine_wf e) (Hrest : at_rest e).
#[local] Abbreviation r := (realized_switcher e).
#[local] Abbreviation d := (desired_switcher (show e)).

Lemma rest_inputs : show_inputs (show e) = Switcher.inputs r.
Proof.
  rewrite (sh_inputs _ (ew_show _ Hwf)). by rewrite (rest_desired e Hwf Hrest).
Qed.
Lemma rest_settled : Switcher.transition r = None ∧
  FadeToBlack.automatic (Switcher.fade_to_black r) = None.
Proof.
  destruct Hrest as [_ Hz]. apply frames_left_0 in Hz as (?&?&_); [done|apply Hwf].
Qed.
Lemma rest_routing : same_routing d r.
Proof. by rewrite (rest_desired e Hwf Hrest). Qed.
Lemma rest_manual : same_manual (Switcher.t_bar d) (Switcher.t_bar r) = true.
Proof.
  rewrite (rest_desired e Hwf Hrest). simpl. pose proof (ew_shown _ Hwf) as Hs.
  pose proof (Switcher.wf_route _ (ew_realized _ Hwf)) as Hr. unfold t_bar_shown in Hs.
  destruct rest_settled as [Ht _]. rewrite Ht in Hr.
  destruct (Switcher.t_bar r) as [t|]; [|done]. destruct Hr as (_&_&Hk&_). simpl in *.
  injection Hs as Hs. apply Is_true_eq_true in Hk. rewrite Hk, !bool_decide_eq_true_2; try done. by rewrite <-Hs.
Qed.
Lemma rest_clock :
  can_tick e →
  (if decide (frame_cursor e = 0) then Ret 0 else
   match (Plans.deadline_for (frame_cursor e - 1) (Plans.pacer_new (frame_rate e) 0)).2 with
   | Ret deadline => Ret (Plans.at_ns deadline)
   | Throw _ => Throw InvalidFrameCounter
   | Panic => Panic
   end) = (Ret (clock_time e) : outcome SnapshotError Z).
Proof.
  intros [Hdue Hmax]. rewrite (ew_clock _ Hwf). case_decide as Hz; [done|].
  pose proof (Scheduler.sw_pacer _ (ew_scheduler _ Hwf)) as Hp.
  pose proof (Plans.pw_next _ Hp) as Hn. change (in_ty U64 (frame_cursor e)) in Hn.
  assert (Hpn : Plans.pacer_wf (Plans.pacer_new (frame_rate e) 0)).
  { split; [rewrite <-(ew_rate _ Hwf); apply Hp|by vm_compute|by vm_compute]. }
  rewrite Plans.deadline_for_eq; [|done|unfold in_ty in *; change (ty_min U64) with 0 in *; lia].
  rewrite <-due_at_engine by done. rewrite decide_True; [done|].
  etrans; [|exact Hdue]. apply Plans.due_at_mono; [done|lia].
Qed.
Lemma rest_receipts l :
  l ≡ₚ map_to_list (receipt_history e) →
  count_accepted (frame_cursor e) 0 l = Ok (Command.revision (commands e)).
Proof.
  intros Hl. pose proof (accepted_length _ _ Hl) as Hlen.
  pose proof (ew_accepted _ Hwf) as Hacc. pose proof (Command.wf_revision _ (ew_commands _ Hwf)) as [_ Hr].
  rewrite count_accepted_eq; rewrite ?Hlen; [f_equal; lia|lia|lia|].
  intros k x a Hin Ha. rewrite Hl in Hin. apply elem_of_map_to_list in Hin.
  destruct (ew_receipts _ Hwf k x Hin a Ha) as [?|[_ Hp]]; [done|]. destruct Hp.
  unfold pending_commands. by rewrite (proj1 Hrest).
Qed.
Lemma rest_scheduler :
  can_tick e →
  ∃ s, Scheduler.scheduler_restore (frame_rate e) 0 (frame_cursor e) 0 tt = Ret s ∧
    Scheduler.pacer s = Scheduler.pacer (scheduler e) ∧
    Scheduler.actions s = Actions.queue_default ∧ Scheduler.scheduler_wf (s : RuntimeScheduler).
Proof.
  intros [Hdue Hmax]. pose proof (Scheduler.sw_pacer _ (ew_scheduler _ Hwf)) as Hp.
  pose proof (ew_rate _ Hwf) as Hr. pose proof (ew_origin _ Hwf) as Ho.
  assert (Hpc : Scheduler.pacer (scheduler e) = Plans.mk_pacer (frame_rate e) 0 (frame_cursor e)).
  { unfold frame_cursor. destruct (Scheduler.pacer (scheduler e)). simpl in *. congruence. }
  unfold Scheduler.scheduler_restore.
  assert (Hres : Plans.pacer_restore (frame_rate e) 0 (frame_cursor e) =
    Ret (Scheduler.pacer (scheduler e))).
  { rewrite Hpc in Hp. apply Plans.pacer_restore_spec; [apply Hp..|]. split_and!; done. }
  rewrite Hres. eexists. split; [reflexivity|]. split_and!; [done..|].
  split; simpl; try done; [apply Actions.queue_default_wf|].
  apply Plans.plans_restore_wf. intros last Hlast. apply checked_Some in Hlast as [<- _].
  change (frame_cursor e - 1 < frame_cursor e). lia.
Qed.

(** The checks of a restore all hold, but for the count of the events. *)
Lemma rest_validate l :
  l ≡ₚ map_to_list (receipt_history e) → can_tick e →
  validate_idle_restore (show e) r (mk_restore (Command.state_epoch (commands e))
      (Command.revision (commands e)) (Command.event_sequence (commands e))
      (runtime_generation e) (clock_time e) (frame_cursor e) l) (frame_rate e) =
  if decide (Command.event_sequence (commands e) = Command.revision (commands e)) then Ret tt
  else Throw (CounterMismatch (Command.revision (commands e)) (Command.revision (commands e))
         (Command.event_sequence (commands e)) (Command.revision (commands e))).
Proof.
  intros Hl Hcan. destruct rest_settled as [Ht Hf]. destruct Hrest as [Hp _].
  pose proof (ag_settled _ _ (rest_agree e Hwf Hp)) as Hd.
  unfold validate_idle_restore. cbn [rs_frame_cursor rs_clock_time rs_receipts rs_revision
    rs_event_sequence rs_generation].
  rewrite (decide_False (P := is_Some _ ∨ is_Some _)) by (rewrite Ht, Hd; intros [[]|[]]; done).
  rewrite (decide_False (P := fade_is_automatic _ ∨ _))
    by (unfold fade_is_automatic; rewrite Hf, Hd; intros [[]|[]]; done).
  rewrite (decide_False (P := _ ≠ _)) by (intros Hne; apply Hne, rest_inputs).
  rewrite (decide_False (P := ¬ same_routing _ _)) by (intros Hn; apply Hn, rest_routing).
  rewrite rest_manual, rest_clock by done.
  rewrite (decide_False (P := clock_time e ≠ clock_time e)) by (by intros Hn; apply Hn).
  rewrite rest_receipts by done.
  pose proof (ew_generation _ Hwf) as [_ Hg]. rewrite (ew_pending _ Hwf), Hp in Hg. simpl in Hg.
  rewrite Z.add_0_r in Hg. rewrite Hg.
  case_decide as Hs; case_decide as Hseq; try done; exfalso; tauto.
Qed.
(** [restore] of the engine's own snapshot succeeds exactly when every accepted
    command has emitted one event. *)
Lemma restore_snapshot snap :
  snapshot e = Ok snap → can_tick e →
  if decide (Command.event_sequence (commands e) = Command.revision (commands e))
  then ∃ e', restore snap = Ret e' ∧ restored e e'
  else restore snap = Throw (ErrSnapshot (CounterMismatch (Command.revision (commands e))
         (Command.revision (commands e)) (Command.event_sequence (commands e))
         (Command.revision (commands e)))).
Proof.
  unfold snapshot. case_decide as Hfl; [done|]. intros [= <-] Hcan.
  set (l := merge_sort key_before (map_to_list (receipt_history e))).
  assert (Hl : l ≡ₚ map_to_list (receipt_history e)) by apply merge_sort_Permutation.
  unfold restore, restore_persisted. cbn [snap_show snap_realized snap_frame_rate
    snap_clock_domain snap_epoch snap_revision snap_event_sequence snap_generation snap_clock_time
    frames_rendered snap_receipts]. fold l. rewrite rest_validate by done.
  case_decide as Hseq; [|done]. destruct (rest_scheduler Hcan) as (s&Hs&Hpc&Hact&Hsw).
  cbn [rs_frame_cursor rs_clock_time rs_receipts rs_revision rs_event_sequence rs_generation
    rs_epoch]. rewrite Hs. eexists. split; [reflexivity|].
  assert (Hfold := fold_insert_list (receipt_history e) l Hl).
  destruct Hrest as [Hp _]. destruct rest_settled as [Ht _].
  split; simpl; [|done|unfold pending_list; simpl; by rewrite Hact|by rewrite Hact|done].
  unfold set_scheduler. rewrite Hfold. f_equal.
  - pose proof (ew_history _ Hwf) as Hh. unfold Command.restore_with_receipts.
    rewrite Hfold, Hh. unfold show. by destruct (commands e).
  - unfold clock_time. by destruct (clock e) as [[dom t]].
  - by rewrite (ew_pending _ Hwf), Hp.
  - pose proof (ag_in_flight _ _ (rest_agree e Hwf Hp)) as Hx. by rewrite Ht in Hx.
Qed.
End restore.
