(* ===== verification/EngineSafety.v ===== *)
(** The engine over its lifetime: created for a show, given commands and ticks in
    any order, and restarted from its snapshots.  [operated] are the engines such a
    history can lead to, [reached] those of the histories that fire no stinger while
    a T-bar is held, and in which nothing has failed.  A stinger fired while a T-bar
    is held is accepted and breaks the next tick ([held_stinger_breaks_tick]); for
    [operated] engines the theorems promise that nothing panics, for [reached] ones
    that everything works. *)
From S2P Require Import Prelude BTree Types EngineShow Engine EngineSim EngineRun EngineCalm EngineSnapshot.
From S2P Require Command Clock Actions Plans Scheduler FadeToBlack Overlay SwitcherTypes Switcher Settle.
Import SwitcherTypes.
Import Settle.
#[local] Open Scope Z_scope.
#[local] Arguments ty_max : simpl never.

(** ** Histories *)

(** A show that an engine is created for: its desired switcher is at rest. *)
Record show_ready (s : ShowState) : Prop := {
  sy_wf : show_wf s;
  sy_rest : settle (desired_switcher s) = desired_switcher s;
  sy_bar : Switcher.t_bar (desired_switcher s) = None
}.

Inductive engine_op :=
  | OpExecute (env : Envelope) (now_millis : Z)
  | OpTick.
Inductive engine_answer :=
  | Executed (o : EngineCommandOutcome)
  | Rendered (fr : FrameResult).
Definition outcome_map {E A B} (f : A → B) (r : outcome E A) : outcome E B :=
  match r with
  | Ret a => Ret (f a)
  | Throw e => Throw e
  | Panic => Panic
  end.
Definition engine_step (op : engine_op) (e : Engine) : Engine * outcome EngineError engine_answer :=
  match op with
  | OpExecute env now => let '(e, r) := execute env now e in (e, outcome_map Executed r)
  | OpTick => let '(e, r) := tick e in (e, outcome_map Rendered r)
  end.
(** Arguments in their ranges, and no stinger while a T-bar is held. *)
Definition op_ok (e : Engine) (op : engine_op) : Prop :=
  match op with
  | OpExecute env _ =>
      command_ok (Command.command env) ∧ fires_idle (show e) (Command.command env)
  | OpTick => True
  end.

Inductive reached : Engine → Prop :=
  | reached_new s rate domain : show_ready s → rate_wf rate → reached (engine_new s rate domain)
  | reached_step e op e' a :
      reached e → op_ok e op → engine_step op e = (e', Ret a) → reached e'
  | reached_restart e snap e' :
      reached e → snapshot e = Ok snap → restore snap = Ret e' → reached e'.

(** All histories: any commands, and any answers. *)
Definition op_typed (op : engine_op) : Prop :=
  match op with
  | OpExecute env _ => command_ok (Command.command env)
  | OpTick => True
  end.
Inductive operated : Engine → Prop :=
  | operated_new s rate domain : show_ready s → rate_wf rate → operated (engine_new s rate domain)
  | operated_step e op : operated e → op_typed op → operated (engine_step op e).1
  | operated_restart e snap e' :
      operated e → snapshot e = Ok snap → restore snap = Ret e' → operated e'.

(** ** Lemmas *)

Lemma show_new_ready name inputs program preview s :
  show_new name inputs program preview = Ret s → show_ready s.
Proof.
  intros Hn. destruct (show_new_wf _ _ _ _ _ Hn) as (Hwf&_&_&Hd). split; [done|..].
  all: revert Hd; unfold Switcher.switcher_new, Switcher.require_input, mbind, stm_bind, st_get,
    st_require; simpl; repeat (case_decide; simpl; [|done]); by intros [= <-].
Qed.
Lemma with_outputs_ready l s s' : show_ready s → with_outputs l s = Ok s' → show_ready s'.
Proof.
  intros [Hwf Hr Hb] Ho. destruct (with_outputs_wf _ _ _ Hwf Ho) as (?&_&Hd).
  split; [done|by rewrite Hd..].
Qed.
Lemma with_streams_ready l s s' :
  show_ready s → Switcher.streams_running (desired_switcher s) = ∅ →
  show_with_streams l s = Ok s' → show_ready s'.
Proof.
  intros [Hwf Hr Hb] Hrun Hs. pose proof (show_with_streams_wf _ _ _ Hwf Hrun Hs).
  unfold show_with_streams in Hs. apply result_bind_Ok in Hs as (d&Hd&[= <-]).
  destruct (Switcher.with_streams l (desired_switcher s)) as [d'|] eqn:Hw; [|done].
  injection Hd as <-. unfold Switcher.with_streams in Hw. apply result_bind_Ok in Hw as (ds&_&[= <-]).
  split; [done| |done]. simpl. rewrite <-Hr at 2. done.
Qed.

Lemma engine_new_wf s rate domain :
  show_ready s → rate_wf rate → engine_wf (engine_new s rate domain).
Proof.
  intros [Hwf Hr Hb] Hrate.
  assert (Ht : Switcher.transition (desired_switcher s) = None) by (rewrite <-Hr; done).
  split; try done.
  - by apply Scheduler.scheduler_new_wf.
  - apply (sh_switcher _ Hwf).
  - unfold t_bar_shown. simpl. by rewrite Hb.
  - exists (desired_switcher s). split; try done.
    + apply (sh_switcher _ Hwf).
    + by rewrite Ht.
    + intros t. by rewrite Ht.
Qed.
Lemma restored_wf e e' : engine_wf e → at_rest e → restored e e' → engine_wf e'.
Proof.
  intros Hwf [Hp Hz] [He Hpc Hpe _ Hs]. pose proof (rest_agree e Hwf Hp) as Ha.
  assert (Hc : commands e' = commands e) by by rewrite He.
  assert (Hh : receipt_history e' = receipt_history e) by by rewrite He.
  assert (Hr : realized_switcher e' = realized_switcher e) by by rewrite He.
  assert (Hk : clock e' = clock e) by by rewrite He.
  assert (Hfr : frame_rate e' = frame_rate e) by by rewrite He.
  assert (Hg : runtime_generation e' = runtime_generation e) by by rewrite He.
  assert (Hpa : pending_actions e' = pending_actions e) by by rewrite He.
  assert (Hfl : transition_in_flight e' = transition_in_flight e) by by rewrite He.
  assert (Hcur : frame_cursor e' = frame_cursor e) by (unfold frame_cursor; by rewrite Hpc).
  assert (Hpcm : pending_commands e' = []) by (unfold pending_commands; by rewrite Hpe).
  assert (Hpcm0 : pending_commands e = []) by (unfold pending_commands; by rewrite Hp).
  clear He. destruct Hwf. split; unfold show, clock_time; rewrite ?Hc, ?Hh, ?Hr, ?Hk, ?Hpa; try done.
  - by rewrite Hpc, Hfr.
  - by rewrite Hpc.
  - by rewrite Hpe.
  - rewrite Hpe, ew_pending, Hp. done.
  - by rewrite Hg.
  - by rewrite Hcur, Hpc.
  - exists (realized_switcher e). destruct Ha. split; try done.
    + by rewrite Hpcm, Hr.
    + unfold show. by rewrite Hc.
    + by rewrite Hfl.
  - intros k x Hx a Ha'. rewrite Hcur. destruct (ew_receipts k x Hx a Ha') as [?|[_ Hne]]; [by left|].
    by rewrite Hpcm0 in Hne.
Qed.
(** A snapshot is restored only while frames are left. *)
Lemma restore_can_tick e snap e' :
  engine_wf e → snapshot e = Ok snap → restore snap = Ret e' → can_tick e.
Proof.
  intros Hwf Hsn Hre. unfold snapshot in Hsn. case_decide; [done|]. injection Hsn as <-.
  unfold restore, restore_persisted in Hre. cbn [snap_frame_rate frames_rendered] in Hre.
  destruct (validate_idle_restore _ _ _ _) as [u|x|]; [|done..].
  cbn [rs_frame_cursor] in Hre.
  destruct (Scheduler.scheduler_restore (frame_rate e) 0 (frame_cursor e) 0 tt) as [s|x|] eqn:Hs;
    [|done..].
  unfold Scheduler.scheduler_restore in Hs.
  destruct (Plans.pacer_restore (frame_rate e) 0 (frame_cursor e)) as [p|x|] eqn:Hp; [|done..].
  pose proof (Scheduler.sw_pacer _ (ew_scheduler _ Hwf)) as Hpw.
  apply Plans.pacer_restore_spec in Hp as (->&Hdue&Hmax).
  - split; [|done]. unfold due. rewrite due_at_engine by done. exact Hdue.
  - rewrite <-(ew_rate _ Hwf). apply Hpw.
  - by vm_compute.
  - apply (Plans.pw_next _ Hpw).
Qed.
Lemma execute_known env now e r :
  Command.receipts (commands e) !! Command.idempotency_key env = Some r →
  execute env now e = (e, Ret (Command.mk_apply_outcome r [] true)).
Proof.
  intros Hk. unfold execute, prepare_execute, mbind, stm_bind, st_get. by rewrite Hk.
Qed.

Lemma engine_step_wf op e e' a :
  engine_wf e → op_ok e op → engine_step op e = (e', Ret a) → engine_wf e'.
Proof.
  intros Hwf Hop Hs. destruct op as [env now|]; simpl in Hs.
  - destruct Hop as [Hc Hf]. destruct (Command.receipts (commands e) !! Command.idempotency_key env)
      as [r|] eqn:Hk.
    + rewrite (execute_known env now e r Hk) in Hs. by injection Hs as <-.
    + pose proof (execute_spec e Hwf env now Hc Hk Hf) as Hx.
      destruct (execute env now e) as [e1 [o|x|]]; simpl in Hs; [|done..].
      injection Hs as <- _. apply Hx.
  - destruct (decide (can_tick e)) as [Hcan|Hcan].
    + destruct (tick_wf e Hwf Hcan) as (r'&e1&fr&_&Ht&_&_&Hwf1&_). rewrite Ht in Hs.
      by injection Hs as <- _.
    + destruct (tick_exhausted e Hwf Hcan) as (e1&x&Ht&_). by rewrite Ht in Hs.
Qed.
Lemma reached_wf e : reached e → engine_wf e.
Proof.
  induction 1 as [s rate domain Hs Hr|e op e' a _ IH Hop Hst|e snap e' _ IH Hsn Hre].
  - by apply engine_new_wf.
  - by eapply engine_step_wf.
  - pose proof (restore_can_tick e snap e' IH Hsn Hre) as Hcan.
    assert (Hrest : at_rest e) by (apply snapshot_rest; [done|by rewrite Hsn]).
    pose proof (restore_snapshot e IH Hrest snap Hsn Hcan) as Hx. case_decide; [|congruence].
    destruct Hx as (e1&He1&Hrd). rewrite Hre in He1. injection He1 as <-.
    by apply (restored_wf e).
Qed.

(** *** All histories *)

Lemma op_ok_typed e op : op_ok e op → op_typed op.
Proof. by destruct op; [intros [? _]|]. Qed.
Lemma reached_operated e : reached e → operated e.
Proof.
  induction 1 as [s rate domain Hs Hr|e op e' a _ IH Hop Hst|e snap e' _ IH Hsn Hre].
  - by apply operated_new.
  - pose proof (operated_step e op IH (op_ok_typed e op Hop)) as H. by rewrite Hst in H.
  - by eapply operated_restart.
Qed.
Lemma engine_new_calm s rate domain :
  show_ready s → rate_wf rate → calm (engine_new s rate domain).
Proof.
  intros Hs Hr. pose proof (engine_new_wf s rate domain Hs Hr) as Hwf. split; try apply Hwf; try done.
  - change (Switcher.inputs (desired_switcher s) ≡ₚ show_inputs s).
    by rewrite (sh_inputs _ (sy_wf _ Hs)).
Qed.
Lemma step_calm op e :
  calm e → op_typed op →
  let '(e', r) := engine_step op e in
  calm e' ∧ match r with
            | Ret _ => True
            | Throw x =>
                match op with
                | OpExecute _ _ => e' = e ∧ x = ErrSchedule Actions.SequenceExhausted
                | OpTick => tick_failure e e' x
                end
            | Panic => False
            end.
Proof.
  intros He Hop. destruct op as [env now|]; simpl.
  - pose proof (execute_calm e env now He Hop) as Hx.
    destruct (execute env now e) as [e' [o|x|]]; simpl; [done| |done]. by destruct Hx as [-> ->].
  - pose proof (tick_calm e He) as Ht. by destruct (tick e) as [e' [o|x|]].
Qed.
Lemma operated_calm e : operated e → calm e.
Proof.
  induction 1 as [s rate domain Hs Hr|e op _ IH Hop|e snap e' _ IH Hsn Hre].
  - by apply engine_new_calm.
  - pose proof (step_calm op e IH Hop) as Hs. destruct (engine_step op e). apply Hs.
  - by eapply restore_calm.
Qed.

(** *** Engines that differ in the scheduler's numbering only *)

Record alike (e1 e2 : Engine) : Prop := {
  al_wf1 : engine_wf e1;
  al_wf2 : engine_wf e2;
  al_equal : e2 = set_scheduler (scheduler e2) e1;
  al_pacer : Scheduler.pacer (scheduler e2) = Scheduler.pacer (scheduler e1);
  al_pending : pending_commands e2 = pending_commands e1
}.
Definition sequence_of (e : Engine) : Z := Actions.next_sequence (Scheduler.actions (scheduler e)).

Lemma engine_ext e1 e2 :
  commands e1 = commands e2 → receipt_history e1 = receipt_history e2 →
  realized_switcher e1 = realized_switcher e2 → clock e1 = clock e2 →
  frame_rate e1 = frame_rate e2 → runtime_generation e1 = runtime_generation e2 →
  pending_actions e1 = pending_actions e2 → transition_in_flight e1 = transition_in_flight e2 →
  e2 = set_scheduler (scheduler e2) e1.
Proof. destruct e1, e2. unfold set_scheduler. simpl. congruence. Qed.
Lemma clock_ext (c1 c2 : Clock.ManualClock) :
  Clock.snap_time (Clock.snapshot c1) = Clock.snap_time (Clock.snapshot c2) →
  Clock.snap_domain (Clock.snapshot c1) = Clock.snap_domain (Clock.snapshot c2) → c1 = c2.
Proof. destruct c1 as [[]], c2 as [[]]. simpl. congruence. Qed.

Section alike.
Context (e1 e2 : Engine) (Hal : alike e1 e2).

Lemma alike_cursor : frame_cursor e2 = frame_cursor e1.
Proof. unfold frame_cursor. by rewrite (al_pacer _ _ Hal). Qed.
Lemma alike_commands : commands e2 = commands e1.
Proof. by rewrite (al_equal _ _ Hal). Qed.
Lemma alike_due : due e2 = due e1.
Proof. unfold due. by rewrite alike_cursor, (al_pacer _ _ Hal). Qed.
Lemma alike_can_tick : can_tick e2 ↔ can_tick e1.
Proof. unfold can_tick. by rewrite alike_due, alike_cursor. Qed.

Lemma alike_tick e1' fr :
  tick e1 = (e1', Ret fr) →
  ∃ e2', tick e2 = (e2', Ret fr) ∧ alike e1' e2' ∧ sequence_of e2' = sequence_of e2.
Proof.
  intros Ht1. destruct (decide (can_tick e1)) as [H1|H1].
  2: { destruct (tick_exhausted e1 (al_wf1 _ _ Hal) H1) as (?&?&Hx&_). by rewrite Hx in Ht1. }
  destruct (ew_agree _ (al_wf1 _ _ Hal)) as [r' Ha].
  assert (Ha2 : agree e2 r').
  { destruct Ha as [Hrun ? Hset Hfl ?]. rewrite <-(al_pending _ _ Hal) in Hrun.
    split; try done.
    - etrans; [|exact Hrun]. f_equal. by rewrite (al_equal _ _ Hal).
    - unfold show in *. by rewrite alike_commands.
    - rewrite Hfl. by rewrite (al_equal _ _ Hal). }
  destruct (tick_run e1 (al_wf1 _ _ Hal) r' Ha H1) as (x1&f1&T1&K1&S1&Hs1&Hp1&Hz1&Hf1).
  destruct (tick_run e2 (al_wf2 _ _ Hal) r' Ha2 (proj2 alike_can_tick H1))
    as (x2&f2&T2&K2&S2&Hs2&Hp2&Hz2&Hf2).
  rewrite Ht1 in T1. injection T1 as <- <-.
  assert (Hrate : frame_rate e2 = frame_rate e1) by by rewrite (al_equal _ _ Hal).
  assert (Hreal : realized_switcher e2 = realized_switcher e1) by by rewrite (al_equal _ _ Hal).
  assert (Hclk : clock e2 = clock e1) by by rewrite (al_equal _ _ Hal).
  assert (Hhist : receipt_history e2 = receipt_history e1) by by rewrite (al_equal _ _ Hal).
  assert (Hr12 : realized_switcher e1' = realized_switcher x2).
  { destruct (tk_realized _ _ _ K1) as [m1 M1], (tk_realized _ _ _ K2) as [m2 M2]. congruence. }
  assert (Hfr : fr = f2).
  { destruct S1 as [A1 B1 C1 D1 E1 (m1&M1&F1) G1 I1 J1], S2 as [A2 B2 C2 D2 E2 (m2&M2&F2) G2 I2 J2].
    rewrite M1 in M2. injection M2 as _ <-. rewrite D1 in D2. injection D2 as D2.
    rewrite alike_cursor in A2. rewrite alike_due in B2.
    rewrite (al_pending _ _ Hal) in F2, G2. rewrite Hreal in F2.
    rewrite alike_commands in I2, J2.
    destruct fr, f2. simpl in *. congruence. }
  subst f2. exists x2. split; [done|]. split; [|apply (tk_sequence _ _ _ K2)].
  split.
  - by eapply ticked_wf; [apply (al_wf1 _ _ Hal)|..].
  - by eapply ticked_wf; [apply (al_wf2 _ _ Hal)|..].
  - pose proof alike_commands. destruct K1 as [C1 I1 R1 _ _ _ G1 L1 D1 _], K2 as [C2 I2 R2 _ _ _ G2 L2 D2 _].
    apply engine_ext; [congruence|congruence|done| |congruence|congruence|congruence|congruence].
    apply clock_ext; [|by rewrite D1, D2, Hclk].
    unfold clock_time in *. by rewrite L1, L2, alike_due.
  - by rewrite Hp1, Hp2, Hrate, alike_cursor.
  - unfold pending_commands. by rewrite (tk_pending _ _ _ K1), (tk_pending _ _ _ K2).
Qed.

Lemma alike_execute env now e1' o :
  command_ok (Command.command env) → fires_idle (show e1) (Command.command env) →
  sequence_of e2 < ty_max U64 →
  execute env now e1 = (e1', Ret o) →
  ∃ e2', execute env now e2 = (e2', Ret o) ∧ alike e1' e2' ∧
    sequence_of e2' ≤ sequence_of e2 + 1.
Proof.
  intros Hc Hf Hseq Hx1.
  destruct (Command.receipts (commands e1) !! Command.idempotency_key env) as [r|] eqn:Hk.
  { rewrite (execute_known env now e1 r Hk) in Hx1. injection Hx1 as <- <-. exists e2.
    rewrite (execute_known env now e2 r) by by rewrite alike_commands.
    split; [done|]. split; [done|lia]. }
  assert (Hk2 : Command.receipts (commands e2) !! Command.idempotency_key env = None)
    by by rewrite alike_commands.
  assert (Hf2 : fires_idle (show e2) (Command.command env)) by (unfold show; by rewrite alike_commands).
  pose proof (execute_spec e1 (al_wf1 _ _ Hal) env now Hc Hk Hf) as S1. rewrite Hx1 in S1.
  pose proof (execute_spec e2 (al_wf2 _ _ Hal) env now Hc Hk2 Hf2) as S2.
  assert (Hd : decide_command e2 env now = decide_command e1 env now).
  { unfold decide_command. rewrite alike_commands, alike_cursor. by rewrite (al_equal _ _ Hal). }
  destruct S1 as (W1&R1&D1&C1).
  assert (Hret : ∃ e2' o', execute env now e2 = (e2', Ret o') ∧ sequence_of e2' ≤ sequence_of e2 + 1).
  { rewrite execute_copy, execute_immediate_eq in S2 |- *
      by first [apply (ew_show _ (al_wf2 _ _ Hal))|done].
    pose proof (Actions.schedule_spec (frame_cursor e2) (Command.command env) _
      (Scheduler.sw_actions _ (ew_scheduler _ (al_wf2 _ _ Hal)))) as Hs.
    destruct (Actions.schedule (frame_cursor e2) _ _) as [q [id|x|]] eqn:Hsch; [|exfalso|done].
    - destruct Hs as (Hq&Hid&Hn&_).
      assert (Hcan : Actions.next_sequence (Actions.cancel id q).1 = Actions.next_sequence q).
      { destruct (Actions.cancel id q) as [q1 x] eqn:Hcc.
        by apply Actions.cancel_spec in Hcc as (_&?&_). }
      destruct (decide_command e2 env now) as [cs o2].
      destruct (accepted (Command.receipt o2)).
      + destruct (runtime_transition (Command.state cs) (Command.command env)) as [[k|]|x|];
          simpl in S2 |- *; try (by destruct S2); try done.
        all: eexists _, _; split; [reflexivity|]; unfold sequence_of; simpl; lia.
      + eexists _, _. split; [reflexivity|]. unfold sequence_of. cbn. rewrite Hcan. lia.
    - revert Hsch. unfold Actions.schedule, Actions.allocate_id, mbind, stm_bind, st_get, st_lift.
      rewrite checked_in; [done|]. unfold sequence_of in Hseq.
      pose proof (Actions.qw_sequence _ (Scheduler.sw_actions _ (ew_scheduler _ (al_wf2 _ _ Hal)))) as Hq.
      unfold in_ty in *. change (ty_min U64) with 0 in *. lia. }
  destruct Hret as (e2'&o'&Hx2&Hs2). rewrite Hx2 in S2. destruct S2 as (W2&R2&D2&C2).
  rewrite Hd, D1 in D2. injection D2 as Hcs <-.
  exists e2'. split; [done|]. split; [|done]. destruct R1 as [R1 K1 F1 G1 P1], R2 as [R2 K2 F2 G2 P2].
  assert (Hpend : pending_commands e2' = pending_commands e1' ∧
    transition_in_flight e1' = transition_in_flight e2').
  { destruct (accepted (Command.receipt o)).
    - destruct C1 as [_ [Pe1 _ Fl1]], C2 as [_ [Pe2 _ Fl2]].
      rewrite Pe1, Pe2, (al_pending _ _ Hal), Fl1, Fl2. unfold show. rewrite Hcs.
      split; [done|]. by rewrite (al_equal _ _ Hal).
    - destruct C1 as (_&Pe1&Fl1), C2 as (_&Pe2&Fl2). unfold pending_commands in *.
      rewrite Pe1, Pe2, Fl1, Fl2. split; [apply (al_pending _ _ Hal)|].
      by rewrite (al_equal _ _ Hal). }
  destruct Hpend as [Hpend Hflight].
  assert (Hpa : pending_actions e1' = pending_actions e2').
  { rewrite (ew_pending _ W1), (ew_pending _ W2). f_equal. unfold pending_commands in Hpend.
    apply (f_equal length) in Hpend. by rewrite !length_fmap in Hpend. }
  split; [done..| | |done].
  - apply engine_ext; try done.
    + by rewrite (ew_history _ W1), (ew_history _ W2), Hcs.
    + rewrite R1, R2. by rewrite (al_equal _ _ Hal).
    + rewrite K1, K2. by rewrite (al_equal _ _ Hal).
    + rewrite F1, F2. by rewrite (al_equal _ _ Hal).
    + rewrite G1, G2. by rewrite (al_equal _ _ Hal).
  - by rewrite P1, P2, (al_pacer _ _ Hal).
Qed.
End alike.

(** ** Runs *)

(** Operations that all succeed, with their answers. *)
Fixpoint engine_run (ops : list engine_op) (e : Engine) : option (Engine * list engine_answer) :=
  match ops with
  | [] => Some (e, [])
  | op :: ops =>
      match engine_step op e with
      | (e, Ret a) => '(e, l) ← engine_run ops e; Some (e, a :: l)
      | _ => None
      end
  end.
Fixpoint ops_ok (ops : list engine_op) (e : Engine) : Prop :=
  match ops with
  | [] => True
  | op :: ops => op_ok e op ∧ ops_ok ops (engine_step op e).1
  end.

Lemma run_reached ops e e' l :
  reached e → ops_ok ops e → engine_run ops e = Some (e', l) → reached e'.
Proof.
  revert e l. induction ops as [|op ops IH]; intros e l He Hok; cbn [engine_run].
  { by intros [= <- _]. }
  destruct Hok as [Hop Hok]. destruct (engine_step op e) as [e1 [a|x|]] eqn:Hs; [|done..].
  destruct (engine_run ops e1) as [[e2 l2]|] eqn:Hrun; [|done]. intros [= <- _].
  eapply IH; [by eapply reached_step|done|done].
Qed.
Lemma alike_run ops e1 e2 e1' l :
  alike e1 e2 → ops_ok ops e1 → sequence_of e2 + Z.of_nat (length ops) ≤ ty_max U64 →
  engine_run ops e1 = Some (e1', l) →
  ∃ e2', engine_run ops e2 = Some (e2', l) ∧ alike e1' e2'.
Proof.
  revert e1 e2 l. induction ops as [|op ops IH]; intros e1 e2 l Hal Hok Hseq; cbn [engine_run].
  { intros [= <- <-]. eauto. }
  destruct Hok as [Hop Hok]. cbn [length] in Hseq.
  destruct (engine_step op e1) as [x1 [a|x|]] eqn:Hs; [|done..].
  destruct (engine_run ops x1) as [[y1 l1]|] eqn:Hrun; [|done]. intros [= <- <-].
  assert (Hstep : ∃ x2, engine_step op e2 = (x2, Ret a) ∧ alike x1 x2 ∧
    sequence_of x2 ≤ sequence_of e2 + 1).
  { destruct op as [env now|]; simpl in Hs |- *.
    - destruct (execute env now e1) as [z1 [o|x|]] eqn:Hx; simpl in Hs; [|done..].
      injection Hs as <- <-. destruct Hop as [Hc Hf].
      destruct (alike_execute e1 e2 Hal env now z1 o Hc Hf ltac:(lia) Hx) as (z2&->&?&?). eauto.
    - destruct (tick e1) as [z1 [fr|x|]] eqn:Hx; simpl in Hs; [|done..].
      injection Hs as <- <-. destruct (alike_tick e1 e2 Hal z1 fr Hx) as (z2&->&?&?).
      eexists. split; [done|]. split; [done|lia]. }
  destruct Hstep as (x2&->&Hal'&Hs2). simpl in Hok.
  destruct (IH x1 x2 l1 Hal' Hok ltac:(lia) Hrun) as (y2&->&?). eauto.
Qed.

(** ** Theorems *)

(** C2: Operating the engine is safe: in every state that any history of commands,
    ticks and restarts can lead to, a stinger fired while a T-bar is held and failed
    ticks included, the next command or tick never panics and leaves the show well
    formed.  A command fails only when the scheduler is out of identifiers and then
    changes nothing.  A tick fails only when the frame timeline is exhausted, and
    then changes nothing but the clock, or because an action of the frame fails; and
    none does in the histories that fire no stinger while a T-bar is held. *)
Theorem engine_safe e op :
  operated e → op_typed op →
  show_wf (show e) ∧
  match engine_step op e with
  | (_, Ret _) => True
  | (e', Throw x) =>
      match op with
      | OpExecute _ _ => e' = e ∧ x = ErrSchedule Actions.SequenceExhausted
      | OpTick => tick_failure e e' x ∧
          (reached e → ¬ can_tick e ∧ e' = set_clock (clock e') e ∧
             ∃ y, x = ErrTick (Scheduler.Pacing y))
      end
  | (_, Panic) => False
  end.
Proof.
  intros Ho Hop. pose proof (operated_calm e Ho) as Hc. split; [apply Hc|].
  pose proof (step_calm op e Hc Hop) as Hs.
  destruct (engine_step op e) as [e' [a|x|]] eqn:Hst; [done| |apply Hs].
  destruct Hs as [_ Hs]. destruct op as [env now|]; [done|]. split; [done|]. intros Hr.
  pose proof (reached_wf e Hr) as Hwf. simpl in Hst.
  destruct (decide (can_tick e)) as [Hcan|Hcan].
  { destruct (tick_wf e Hwf Hcan) as (r'&e1&fr&_&Ht&_). by rewrite Ht in Hst. }
  destruct (tick_exhausted e Hwf Hcan) as (e1&y&Ht&He). rewrite Ht in Hst. simplify_eq/=.
  split_and!; eauto.
Qed.

(** C3: In the histories that fire no stinger while a T-bar is held, a tick realizes
    everything that was accepted, as long as frames are left.  The pending commands
    run in order on the realized switcher, none fails, and the frame shows the
    result; nothing stays pending, the generation catches up with the revision, and
    the realized switcher is heading for exactly the desired state.  In the other
    histories an action can fail ([held_stinger_breaks_tick]). *)
Theorem tick_realizes e :
  reached e → can_tick e →
  ∃ e' fr r', tick e = (e', Ret fr) ∧
    runtime_run (pending_commands e) (realized_switcher e) = Some r' ∧
    frame_shown e fr e' r' ∧
    frame_cursor e' = frame_cursor e + 1 ∧ pending_commands e' = [] ∧
    commands e' = commands e ∧ runtime_generation e' = Command.revision (commands e) ∧
    settle (realized_switcher e') = desired_switcher (show e').
Proof.
  intros Hr Hcan. pose proof (reached_wf e Hr) as Hwf.
  destruct (tick_wf e Hwf Hcan) as (r'&e'&fr&Ha&Ht&Htk&Hsh&_&Ha').
  exists e', fr, r'. split; [done|]. split_and!; try apply Htk; [|done|..].
  - apply (ag_run _ _ Ha).
  - unfold pending_commands. by rewrite (tk_pending _ _ _ Htk).
  - by rewrite (ag_settled _ _ Ha').
Qed.

(** C9: In the histories that fire no stinger while a T-bar is held, the realized
    switcher converges to the desired one: after 3601 frames without a command, when
    so many are left, the engine is at rest, it can be saved, and what is on air
    is what was asked for, exactly, but for the shown interval of a T-bar that is
    held. *)
Theorem engine_converges e n :
  reached e → (3601 ≤ n)%nat → can_ticks n e →
  ∃ e', ticks n e = (e', Ret tt) ∧ show e' = show e ∧ is_ok (snapshot e') = true ∧
    desired_switcher (show e) =
      Switcher.set_t_bar (settle_t_bar <$> Switcher.t_bar (realized_switcher e'))
        (realized_switcher e').
Proof.
  intros Hr Hn Hcan. pose proof (reached_wf e Hr) as Hwf.
  destruct (ticks_converge n e Hwf Hn Hcan) as (e'&Ht&Hwf'&Hrest&Hc&_).
  exists e'. split; [done|]. assert (Hs : show e' = show e) by (unfold show; by rewrite Hc).
  split; [done|]. split; [by apply snapshot_rest|]. rewrite <-Hs. by apply rest_desired.
Qed.

(** No accepted command is lost, repeated or late: the revision counts the
    accepted receipts, the generation counts those whose action has run, the
    others are pending, and every accepted receipt names a frame that has been
    rendered or, while its action is pending, the next one. *)
Theorem commands_accounted e :
  reached e →
  Z.of_nat (size (accepted_in (receipt_history e))) = Command.revision (commands e) ∧
  runtime_generation e + Z.of_nat (length (pending_commands e)) =
    Command.revision (commands e) ∧
  receipt_history e = Command.receipts (commands e) ∧
  ∀ k r a, receipt_history e !! k = Some r → accepted r = Some a →
    acc_target_frame a < frame_cursor e ∨
    acc_target_frame a = frame_cursor e ∧ pending_commands e ≠ [].
Proof.
  intros Hr. pose proof (reached_wf e Hr) as Hwf. split_and!.
  - apply (ew_accepted _ Hwf).
  - unfold pending_commands. rewrite length_fmap, <-(ew_pending _ Hwf). apply (ew_generation _ Hwf).
  - apply (ew_history _ Hwf).
  - intros k r a Hk. apply (ew_receipts _ Hwf k r Hk).
Qed.

Lemma step_receipts op e e' a k r :
  engine_wf e → op_ok e op → engine_step op e = (e', Ret a) →
  receipt_history e !! k = Some r → receipt_history e' !! k = Some r.
Proof.
  intros Hwf Hop Hs Hk. destruct op as [env now|]; simpl in Hs.
  - destruct Hop as [Hc Hf].
    destruct (Command.receipts (commands e) !! Command.idempotency_key env) as [r0|] eqn:Hk0.
    { rewrite (execute_known env now e r0 Hk0) in Hs. by injection Hs as <-. }
    pose proof (execute_spec e Hwf env now Hc Hk0 Hf) as Hx.
    destruct (execute env now e) as [e1 [o|x|]]; simpl in Hs; [|done..]. injection Hs as <- _.
    destruct Hx as (Hwf1&_&Hd&_). rewrite (ew_history _ Hwf) in Hk. rewrite (ew_history _ Hwf1).
    by eapply Command.apply_receipts_mono.
  - destruct (decide (can_tick e)) as [Hcan|Hcan].
    + destruct (tick_wf e Hwf Hcan) as (r'&e1&fr&_&Ht&Htk&_). rewrite Ht in Hs.
      injection Hs as <- _. by rewrite (tk_history _ _ _ Htk).
    + destruct (tick_exhausted e Hwf Hcan) as (e1&x&Ht&_). by rewrite Ht in Hs.
Qed.
Lemma run_receipts ops e e' l k r :
  engine_wf e → ops_ok ops e → engine_run ops e = Some (e', l) →
  receipt_history e !! k = Some r → engine_wf e' ∧ receipt_history e' !! k = Some r.
Proof.
  revert e l. induction ops as [|op ops IH]; intros e l He Hok; cbn [engine_run].
  { by intros [= <- _]. }
  destruct Hok as [Hop Hok]. destruct (engine_step op e) as [e1 [a|x|]] eqn:Hs; [|done..].
  destruct (engine_run ops e1) as [[e2 l2]|] eqn:Hrun; [|done]. intros [= <- _] Hk.
  eapply IH; [by eapply engine_step_wf|done..|by eapply step_receipts].
Qed.
(** C11: A command is executed once: however the engine goes on, sending a command
    with the same key again answers with the first receipt, emits no event and
    changes nothing.  The histories
    are those that fire no stinger while a T-bar is held ([fires_idle]). *)
Theorem execute_once e env now e' o ops e'' l env' now' :
  reached e → op_ok e (OpExecute env now) → execute env now e = (e', Ret o) →
  ops_ok ops e' → engine_run ops e' = Some (e'', l) →
  Command.idempotency_key env' = Command.idempotency_key env →
  execute env' now' e'' =
    (e'', Ret (Command.mk_apply_outcome (Command.receipt o) [] true)).
Proof.
  intros Hr [Hc Hf] Hx Hok Hrun Hkey. pose proof (reached_wf e Hr) as Hwf.
  assert (Hk : engine_wf e' ∧
    receipt_history e' !! Command.idempotency_key env = Some (Command.receipt o)).
  { destruct (Command.receipts (commands e) !! Command.idempotency_key env) as [r|] eqn:Hk.
    - rewrite (execute_known env now e r Hk) in Hx. injection Hx as <- <-.
      by rewrite (ew_history _ Hwf).
    - pose proof (execute_spec e Hwf env now Hc Hk Hf) as Hsp. rewrite Hx in Hsp.
      destruct Hsp as (Hwf'&_&Hd&_). split; [done|]. rewrite (ew_history _ Hwf').
      by eapply Command.apply_records. }
  destruct Hk as [Hwf' Hk]. destruct (run_receipts ops e' e'' l _ _ Hwf' Hok Hrun Hk) as [Hwf'' Hk''].
  apply execute_known. rewrite Hkey, <-(ew_history _ Hwf''). done.
Qed.

(** C5: A restart is invisible: an engine restored from a snapshot gives, to any
    commands and ticks that follow, the very answers and frames the original would
    have given, and ends up with the same show, receipts and routing.  The histories
    are those that fire no stinger while a T-bar is held ([fires_idle]). *)
Theorem restart_transparent e snap e' ops e1 l :
  reached e → snapshot e = Ok snap → restore snap = Ret e' →
  ops_ok ops e → Z.of_nat (length ops) ≤ ty_max U64 → engine_run ops e = Some (e1, l) →
  ∃ e2, engine_run ops e' = Some (e2, l) ∧ commands e2 = commands e1 ∧
    receipt_history e2 = receipt_history e1 ∧ realized_switcher e2 = realized_switcher e1 ∧
    clock e2 = clock e1 ∧ frame_cursor e2 = frame_cursor e1 ∧
    pending_commands e2 = pending_commands e1.
Proof.
  intros Hr Hsn Hre Hok Hlen Hrun. pose proof (reached_wf e Hr) as Hwf.
  pose proof (restore_can_tick e snap e' Hwf Hsn Hre) as Hcan.
  assert (Hrest : at_rest e) by (apply snapshot_rest; [done|by rewrite Hsn]).
  pose proof (restore_snapshot e Hwf Hrest snap Hsn Hcan) as Hx. case_decide; [|congruence].
  destruct Hx as (e0&He0&Hrd). rewrite Hre in He0. injection He0 as <-.
  pose proof (restored_wf e e' Hwf Hrest Hrd) as Hwf'. destruct Hrd as [Heq Hpc Hpe Hseq _].
  assert (Hal : alike e e').
  { split; try done. unfold pending_commands. by rewrite Hpe, (proj1 Hrest). }
  destruct (alike_run ops e e' e1 l Hal Hok ltac:(unfold sequence_of; lia) Hrun)
    as (e2&Hrun2&[_ _ Heq2 Hpc2 Hpe2]).
  exists e2. split; [done|]. unfold frame_cursor. rewrite Hpc2, Hpe2.
  split_and!; try done; by rewrite Heq2.
Qed.

(** The engine's own test decides whether it can be saved: [snapshot] succeeds
    exactly when no action is pending and no transition, fade or overlay moves; and
    the snapshot can be restored, while frames are left, exactly when the accepted
    commands and the emitted events are equally many. *)
Theorem snapshot_restorable e :
  reached e → can_tick e →
  (is_ok (snapshot e) = true ↔ at_rest e) ∧
  ∀ snap, snapshot e = Ok snap →
    (∃ e', restore snap = Ret e') ↔
    Command.event_sequence (commands e) = Command.revision (commands e).
Proof.
  intros Hr Hcan. pose proof (reached_wf e Hr) as Hwf. split; [by apply snapshot_rest|].
  intros snap Hsn. assert (Hrest : at_rest e) by (apply snapshot_rest; [done|by rewrite Hsn]).
  pose proof (restore_snapshot e Hwf Hrest snap Hsn Hcan) as Hx. case_decide as Hs.
  - destruct Hx as (e'&?&_). naive_solver.
  - rewrite Hx. split; [by intros [? ?]|done].
Qed.

(** A command keeps the roster: an applied mutation leaves a well-formed show
    with the same inputs, in an order that a reordering alone changes, the same
    outputs, and every input under its own name, so that names follow their inputs
    through a reordering; only a renaming changes a name, and only the one. *)
Theorem names_follow_inputs m show evs show' evs' a :
  show_wf show → command_ok (mut_command m) →
  mutation_apply m (show, evs) = ((show', evs'), Ret a) →
  show_wf show' ∧ show_inputs show' ≡ₚ show_inputs show ∧ outputs show' = outputs show ∧
  ∀ i, input_name show' i =
    match mut_command m with
    | EngineCommand.RenameInput j name => if decide (i = j) then Some name else input_name show i
    | _ => input_name show i
    end.
Proof.
  intros Hwf Hc Hm. pose proof (mutation_total show evs m Hwf Hc) as Ht.
  pose proof (mutation_roster m show evs Hwf) as Hr. unfold wp in Ht, Hr. by rewrite Hm in Ht, Hr.
Qed.

(** ** Witnesses and counterexamples *)

Definition demo_show : ShowState :=
  match show_new "Show" [(1, "A"); (2, "B"); (3, "C")] 1 2 with
  | Ret s => s
  | _ => mk_show "" [] [] [] [] Switcher.switcher_start
  end.
Definition demo_engine : Engine := engine_new demo_show Scheduler.rate_50 7.
Definition demo_env (key : string) (c : EngineCommand.t) : Envelope :=
  Command.envelope_new key key c.
Definition demo_do (key : string) (c : EngineCommand.t) : engine_op := OpExecute (demo_env key c) 0.
Definition demo_run (ops : list engine_op) (e : Engine) : Engine :=
  from_option fst e (engine_run ops e).
Lemma demo_show_ready : show_ready demo_show.
Proof. by apply (show_new_ready "Show" [(1, "A"); (2, "B"); (3, "C")] 1 2). Qed.
Lemma names_follow_inputs_witness :
  ∃ show' evs' a, mutation_apply (mk_mutation (EngineCommand.ReorderInputs [3; 1; 2]) 0)
    (demo_show, []) = ((show', evs'), Ret a) ∧ show_inputs show' = [3; 1; 2] ∧
    input_name show' 3 = Some "C".
Proof.
  eexists _, _, _. split; [reflexivity|]. split; [reflexivity|].
  rewrite (proj2 (proj2 (proj2 (names_follow_inputs
    (mk_mutation (EngineCommand.ReorderInputs [3; 1; 2]) 0) demo_show [] _ _ _
    (sy_wf _ demo_show_ready) I eq_refl))) 3). reflexivity.
Defined.
(** A wipe of two frames under way, and a fade to black accepted meanwhile. *)
Definition demo_busy : Engine :=
  demo_run [demo_do "a" (EngineCommand.Wipe 2); OpTick;
            demo_do "b" (EngineCommand.FadeToBlack true 3)] demo_engine.

Lemma demo_engine_reached : reached demo_engine.
Proof. apply reached_new; [apply demo_show_ready|apply Scheduler.rate_50_wf]. Qed.
Lemma demo_run_reached ops e :
  reached e → ops_ok ops e → is_Some (engine_run ops e) → reached (demo_run ops e).
Proof.
  intros He Hok [[e' l] Hrun]. unfold demo_run. rewrite Hrun. simpl. by eapply run_reached.
Qed.
Lemma demo_busy_reached : reached demo_busy.
Proof.
  apply demo_run_reached; [apply demo_engine_reached| |].
  - split_and!; try done; by vm_compute.
  - apply (bool_decide_unpack _). by vm_compute.
Qed.


(** A T-bar is held, and slot 1 keeps the program when its media is missing. *)
Definition demo_held : Engine :=
  demo_run [demo_do "a" (EngineCommand.ConfigureStinger 1 (mk_stinger 3 false 0 Muted KeepProgram));
            demo_do "b" (EngineCommand.StartManualTransition ManualFade); OpTick] demo_engine.
Definition demo_fired : Engine :=
  demo_run [demo_do "c" (EngineCommand.Stinger 1 5); demo_do "d" EngineCommand.RecordStart] demo_held.
Lemma demo_run_operated ops e :
  operated e → Forall op_typed ops → is_Some (engine_run ops e) → operated (demo_run ops e).
Proof.
  unfold demo_run. intros He Hops [[e' l] Hrun]. rewrite Hrun. simpl.
  revert e l He Hrun. induction Hops as [|op ops Hop _ IH]; intros e l He; cbn [engine_run].
  { by intros [= <- _]. }
  pose proof (operated_step e op He Hop) as Hst.
  destruct (engine_step op e) as [e1 [a|x|]]; [|done..].
  destruct (engine_run ops e1) as [[e2 l2]|] eqn:Hr; [|done]. intros [= <- _]. by eapply IH.
Qed.
Lemma demo_fired_operated : operated demo_fired.
Proof.
  apply demo_run_operated;
    [apply demo_run_operated; [apply reached_operated, demo_engine_reached| |]| |].
  1, 3: repeat constructor; by vm_compute.
  all: apply (bool_decide_unpack _); by vm_compute.
Qed.
(** The command is refused: a transition is in flight. *)
Definition refused (r : outcome EngineError engine_answer) : bool :=
  match r with
  | Ret (Executed o) => bool_decide (accepted (Command.receipt o) = None)
  | _ => false
  end.
Lemma engine_safe_witness :
  refused (engine_step (demo_do "c" EngineCommand.Cut) demo_busy).2 = true ∧
  show_wf (show demo_busy) ∧
  (tick demo_fired).2 = Throw (ErrRuntimeSwitcher TransitionInProgress) ∧
  tick_failure demo_fired (tick demo_fired).1 (ErrRuntimeSwitcher TransitionInProgress).
Proof.
  split; [by vm_compute|].
  destruct (engine_safe demo_busy (demo_do "c" EngineCommand.Cut)
    (reached_operated _ demo_busy_reached) I) as [H _].
  split; [exact H|].
  assert (Ht : (tick demo_fired).2 = Throw (ErrRuntimeSwitcher TransitionInProgress))
    by by vm_compute.
  split; [exact Ht|].
  destruct (engine_safe demo_fired OpTick demo_fired_operated I) as [_ Hs].
  revert Ht Hs. cbn [engine_step]. generalize (tick demo_fired).
  intros [e' [a|x|]] Ht Hs; [discriminate Ht| |discriminate Ht].
  injection Ht as ->. exact (proj1 Hs).
Defined.
Lemma demo_can_tick : can_tick demo_busy.
Proof. apply (bool_decide_unpack _). by vm_compute. Qed.
Lemma tick_realizes_witness :
  ∃ e' fr, tick demo_busy = (e', Ret fr) ∧ pending_commands demo_busy =
    [EngineCommand.FadeToBlack true 3] ∧ pending_commands e' = [] ∧
    runtime_generation e' = 2 ∧ frame_cursor e' = 2.
Proof.
  destruct (tick_realizes demo_busy demo_busy_reached demo_can_tick)
    as (e'&fr&r'&Ht&_&_&Hc&Hp&_&Hg&_).
  exists e', fr. split; [exact Ht|]. split; [by vm_compute|]. split; [exact Hp|].
  split; [rewrite Hg; by vm_compute|rewrite Hc; by vm_compute].
Defined.
Lemma demo_can_ticks : can_ticks 3601 demo_busy.
Proof. split; apply (bool_decide_unpack _); by vm_compute. Qed.
Lemma engine_converges_witness :
  ∃ e', ticks 3601 demo_busy = (e', Ret tt) ∧ is_ok (snapshot e') = true ∧
    Switcher.program (desired_switcher (show demo_busy)) = 2 ∧
    Switcher.program (realized_switcher e') = 2.
Proof.
  destruct (engine_converges demo_busy 3601 demo_busy_reached ltac:(lia) demo_can_ticks)
    as (e'&Ht&Hs&Hok&Hd).
  exists e'. split; [exact Ht|]. split; [exact Hok|].
  assert (Hp : Switcher.program (desired_switcher (show demo_busy)) = 2) by by vm_compute.
  split; [exact Hp|]. rewrite Hd in Hp. exact Hp.
Defined.
Lemma commands_accounted_witness :
  runtime_generation demo_busy = 1 ∧ Command.revision (commands demo_busy) = 2 ∧
  Z.of_nat (size (accepted_in (receipt_history demo_busy))) = 2.
Proof.
  split; [by vm_compute|]. split; [by vm_compute|].
  destruct (commands_accounted demo_busy demo_busy_reached) as [H _]. rewrite H. by vm_compute.
Defined.
Lemma execute_once_witness :
  ∃ e' o e'' l, execute (demo_env "c" EngineCommand.RecordStart) 0 demo_busy = (e', Ret o) ∧
    engine_run [OpTick; demo_do "d" (EngineCommand.RenameInput 3 "Z")] e' = Some (e'', l) ∧
    execute (demo_env "c" EngineCommand.Cut) 5 e'' =
      (e'', Ret (Command.mk_apply_outcome (Command.receipt o) [] true)).
Proof.
  set (e' := (execute (demo_env "c" EngineCommand.RecordStart) 0 demo_busy).1).
  destruct (execute (demo_env "c" EngineCommand.RecordStart) 0 demo_busy).2 as [o| |] eqn:Ho;
    [|exfalso; revert Ho; vm_compute; discriminate..].
  assert (Hx : execute (demo_env "c" EngineCommand.RecordStart) 0 demo_busy = (e', Ret o)).
  { unfold e'. rewrite <-Ho. by destruct (execute _ _ _). }
  set (ops := [OpTick; demo_do "d" (EngineCommand.RenameInput 3 "Z")]).
  assert (Hrun : is_Some (engine_run ops e')) by (apply (bool_decide_unpack _); by vm_compute).
  destruct (engine_run ops e') as [[e'' l]|] eqn:Hr; [|by destruct Hrun].
  exists e', o, e'', l. split; [exact Hx|]. split; [exact Hr|].
  exact (execute_once demo_busy (demo_env "c" EngineCommand.RecordStart) 0 e' o ops e'' l
    (demo_env "c" EngineCommand.Cut) 5 demo_busy_reached (conj I I) Hx
    (conj I (conj (conj I I) I)) Hr eq_refl).
Defined.
Definition demo_saved : Engine :=
  demo_run [demo_do "a" EngineCommand.Cut; OpTick] demo_engine.
Lemma demo_saved_reached : reached demo_saved.
Proof.
  apply demo_run_reached; [apply demo_engine_reached|by split_and!|].
  apply (bool_decide_unpack _). by vm_compute.
Qed.
Definition restart (e : Engine) : outcome EngineError Engine :=
  match snapshot e with
  | Ok snap => restore snap
  | Err x => Throw (ErrSnapshot x)
  end.
Definition restarts (e : Engine) : bool :=
  match restart e with
  | Ret _ => true
  | _ => false
  end.
Lemma restarts_Some e :
  restarts e = true → ∃ snap e', snapshot e = Ok snap ∧ restore snap = Ret e'.
Proof.
  unfold restarts, restart. destruct (snapshot e) as [snap|]; [|done].
  destruct (restore snap) as [e'| |] eqn:Hr; [|done..]. eauto.
Qed.
Lemma restart_transparent_witness :
  ∃ e' e1 e2 l, restart demo_saved = Ret e' ∧
    engine_run [demo_do "b" (EngineCommand.Fade 2); OpTick; OpTick] demo_saved = Some (e1, l) ∧
    engine_run [demo_do "b" (EngineCommand.Fade 2); OpTick; OpTick] e' = Some (e2, l) ∧
    realized_switcher e2 = realized_switcher e1.
Proof.
  set (ops := [demo_do "b" (EngineCommand.Fade 2); OpTick; OpTick]).
  destruct (restarts_Some demo_saved ltac:(by vm_compute)) as (snap&e'&Hsn&Hre).
  assert (Hrun : is_Some (engine_run ops demo_saved)) by (apply (bool_decide_unpack _); by vm_compute).
  destruct Hrun as [[e1 l] Hr].
  assert (Hok : ops_ok ops demo_saved).
  { exact (conj (conj (Switcher.small_u32 2 ltac:(lia)) I) (conj I (conj I I))). }
  assert (Hlen : Z.of_nat (length ops) ≤ ty_max U64) by by vm_compute.
  destruct (restart_transparent demo_saved snap e' ops e1 l demo_saved_reached Hsn Hre Hok Hlen Hr)
    as (e2&Hr2&_&_&Hreal&_).
  exists e', e1, e2, l. unfold restart. rewrite Hsn.
  exact (conj Hre (conj Hr (conj Hr2 Hreal))).
Defined.
Lemma snapshot_restorable_witness :
  can_tick demo_saved ∧ is_ok (snapshot demo_saved) = true ∧ at_rest demo_saved.
Proof.
  assert (Hcan : can_tick demo_saved) by (apply (bool_decide_unpack _); by vm_compute).
  assert (Hok : is_ok (snapshot demo_saved) = true) by by vm_compute.
  split; [exact Hcan|]. split; [exact Hok|].
  destruct (snapshot_restorable demo_saved demo_saved_reached Hcan) as [[H _] _]. exact (H Hok).
Defined.

(** *** Where the code falls short *)

(** A recording command that changes nothing. *)
Definition demo_stopped : Engine :=
  demo_run [demo_do "a" EngineCommand.RecordStop; OpTick] demo_engine.
(** A recording command that changes nothing is accepted without an event; a
    snapshot of the engine is then taken and refused by [restore]. *)
Theorem idle_recording_breaks_restart :
  reached demo_stopped ∧ is_ok (snapshot demo_stopped) = true ∧
  restart demo_stopped = Throw (ErrSnapshot (CounterMismatch 1 1 0 1)).
Proof.
  split.
  { apply demo_run_reached; [apply demo_engine_reached|by split_and!|].
    apply (bool_decide_unpack _). by vm_compute. }
  split; by vm_compute.
Qed.

(** A stinger that would keep the program is accepted while a T-bar is held;
    the next tick then fails, the commands accepted for it are lost, and the
    realized switcher stays apart from the desired one. *)
Theorem held_stinger_breaks_tick :
  reached demo_held ∧
  length (pending_commands demo_fired) = 2%nat ∧
  (tick demo_fired).2 = Throw (ErrRuntimeSwitcher TransitionInProgress) ∧
  pending_commands (tick demo_fired).1 = [] ∧
  Switcher.recording_desired (desired_switcher (show (tick demo_fired).1)) = true ∧
  Switcher.recording_desired (realized_switcher (tick demo_fired).1) = false.
Proof.
  split.
  { apply demo_run_reached; [apply demo_engine_reached| |].
    - split_and!; try done; by vm_compute.
    - apply (bool_decide_unpack _). by vm_compute. }
  split_and!; by vm_compute.
Qed.
