(* ===== verification/Protocol.v ===== *)
(** The wire messages, [crates/foundation/fm-protocol/src/dto.rs]: commands and their
    results, snapshots, durable and runtime events, the handshake.

    Identifiers on the wire are the integers they wrap; a channel, a slot and a
    position have the ranges that [WireOverlayChannelId::new],
    [WireStingerSlotId::new] and [ManualTransitionPosition::new] check. *)
From S2P Require Import Prelude Types.
From S2P Require Command.
#[local] Open Scope Z_scope.

(** ** Identities *)

Record ProtocolVersion := mk_version { major : Z; minor : Z }.
#[global] Instance ProtocolVersion_eq_dec : EqDecision ProtocolVersion.
Proof. solve_decision. Defined.
Definition CURRENT_PROTOCOL_VERSION : ProtocolVersion := mk_version 2 18.

Record ServerIdentity := mk_server {
  server_engine_id : string;
  server_project_id : string;
  server_state_epoch : Z;
  server_log_id : string
}.
#[global] Instance ServerIdentity_eq_dec : EqDecision ServerIdentity.
Proof. solve_decision. Defined.
Record ResumeCursor := mk_resume { resume_server : ServerIdentity; resume_revision : Z }.
#[global] Instance ResumeCursor_eq_dec : EqDecision ResumeCursor.
Proof. solve_decision. Defined.
Record EngineIdentity := mk_identity { engine_id : string; state_epoch : Z; log_id : string }.
#[global] Instance EngineIdentity_eq_dec : EqDecision EngineIdentity.
Proof. solve_decision. Defined.
Record EventCursor := mk_cursor { cursor_engine : EngineIdentity; cursor_revision : Z }.
#[global] Instance EventCursor_eq_dec : EqDecision EventCursor.
Proof. solve_decision. Defined.

Inductive ClientType := Studio | Web | Cli | Integration.
Inductive Role := Viewer | Graphics | Audio | Replay | Operator | Admin.
#[global] Instance ClientType_eq_dec : EqDecision ClientType.
Proof. solve_decision. Defined.
#[global] Instance Role_eq_dec : EqDecision Role.
Proof. solve_decision. Defined.

(** ** Errors and the handshake *)

Abbreviation FieldIssue := Command.FieldIssue.
Record StructuredError := mk_error {
  error_code : string;
  error_message : string;
  error_fields : list FieldIssue;
  error_retryable : bool
}.
#[global] Instance StructuredError_eq_dec : EqDecision StructuredError.
Proof. solve_decision. Defined.

Record ServerHello := mk_hello {
  hello_protocol : ProtocolVersion;
  hello_granted_role : Role;
  hello_permissions : list string;
  hello_capabilities_digest : string;
  hello_engine : EngineIdentity;
  hello_current_revision : Z;
  hello_resume : bool
}.
Record HandshakeRequest := mk_handshake_request {
  request_protocol : ProtocolVersion;
  request_build : string;
  request_client_type : ClientType;
  desired_role : Role;
  resume_cursor : option ResumeCursor
}.
Inductive SnapshotReason := NoCursor | IdentityChanged | CursorAhead | HistoryUnavailable.
#[global] Instance SnapshotReason_eq_dec : EqDecision SnapshotReason.
Proof. solve_decision. Defined.
Inductive HandshakeOutcome :=
  | OutcomeSnapshot (reason : SnapshotReason)
  | OutcomeResume (cursor : ResumeCursor)
  | OutcomeRejected (error : StructuredError).
#[global] Instance HandshakeOutcome_eq_dec : EqDecision HandshakeOutcome.
Proof. solve_decision. Defined.
Record CapabilityReportSummary := mk_capability_summary {
  digest : string;
  total : Z;
  available : Z;
  degraded : Z;
  unavailable : Z
}.
Record HandshakeResponse := mk_handshake_response {
  response_protocol : ProtocolVersion;
  granted_role : Role;
  permissions : list string;
  capabilities : CapabilityReportSummary;
  server : ServerIdentity;
  current_revision : Z;
  response_outcome : HandshakeOutcome
}.

(** [available_from_revision] is the first revision that can still be replayed. *)
Definition choose_handshake_outcome (server : ServerIdentity)
    (current_revision available_from_revision : Z) (cursor : option ResumeCursor) :
    HandshakeOutcome :=
  match cursor with
  | None => OutcomeSnapshot NoCursor
  | Some cursor =>
      if decide (resume_server cursor ≠ server) then OutcomeSnapshot IdentityChanged else
      if decide (current_revision < resume_revision cursor) then OutcomeSnapshot CursorAhead else
      if decide (saturating U64 (resume_revision cursor + 1) < available_from_revision)
      then OutcomeSnapshot HistoryUnavailable
      else OutcomeResume cursor
  end.

(** ** State on the wire *)

Definition wire_channel_new (number : Z) : option Z :=
  if decide (1 ≤ number ∧ number ≤ 8) then Some number else None.
Definition wire_slot_new (number : Z) : option Z :=
  if decide (1 ≤ number ∧ number ≤ 8) then Some number else None.

Inductive ManualTransitionKind := ManualFade | ManualWipe | ManualAlphaFade | ManualSlide.
#[global] Instance ManualTransitionKind_eq_dec : EqDecision ManualTransitionKind.
Proof. solve_decision. Defined.
Definition MANUAL_POSITION_MAX : Z := 10000.
Definition manual_position_new (basis_points : Z) : option Z :=
  if decide (basis_points ≤ MANUAL_POSITION_MAX) then Some basis_points else None.
Record ManualTransitionState := mk_manual {
  manual_kind : ManualTransitionKind;
  manual_from : InputId;
  manual_to : InputId;
  manual_interval_start : Z;
  manual_position : Z
}.
#[global] Instance ManualTransitionState_eq_dec : EqDecision ManualTransitionState.
Proof. solve_decision. Defined.
Inductive ManualTransitionStatus := Inactive | Active (state : ManualTransitionState).
#[global] Instance ManualTransitionStatus_eq_dec : EqDecision ManualTransitionStatus.
Proof. solve_decision. Defined.
Record FadeToBlackState := mk_fade_state { target_active : bool; fade_position : Z }.
#[global] Instance FadeToBlackState_eq_dec : EqDecision FadeToBlackState.
Proof. solve_decision. Defined.

Inductive StingerAudioPolicy := Muted | StingerOnly | MixWithProgram.
Inductive StingerMissingMediaFallback := FallbackCut | FallbackFade | KeepProgram.
Inductive StingerReadiness := NotRequested | Ready | Missing.
#[global] Instance StingerAudioPolicy_eq_dec : EqDecision StingerAudioPolicy.
Proof. solve_decision. Defined.
#[global] Instance StingerMissingMediaFallback_eq_dec : EqDecision StingerMissingMediaFallback.
Proof. solve_decision. Defined.
#[global] Instance StingerReadiness_eq_dec : EqDecision StingerReadiness.
Proof. solve_decision. Defined.
Record StingerStatus := mk_stinger_status {
  slot : Z;
  media_input : InputId;
  preload : bool;
  cut_point_frames : Z;
  audio_policy : StingerAudioPolicy;
  missing_media_fallback : StingerMissingMediaFallback;
  readiness : StingerReadiness
}.
#[global] Instance StingerStatus_eq_dec : EqDecision StingerStatus.
Proof. solve_decision. Defined.

Inductive OverlayTransitionKind := OverlayCut | OverlayFade.
Inductive OverlayPositionPreset := FullFrame | TopLeft | TopRight | BottomLeft | BottomRight.
Inductive OverlayBorderPreset := NoBorder | ThinWhite | ThickWhite.
#[global] Instance OverlayTransitionKind_eq_dec : EqDecision OverlayTransitionKind.
Proof. solve_decision. Defined.
#[global] Instance OverlayPositionPreset_eq_dec : EqDecision OverlayPositionPreset.
Proof. solve_decision. Defined.
#[global] Instance OverlayBorderPreset_eq_dec : EqDecision OverlayBorderPreset.
Proof. solve_decision. Defined.
Record OverlayStatus := mk_overlay_status {
  channel : Z;
  source : option InputId;
  active : bool;
  opacity : Z;
  overlay_transition : OverlayTransitionKind;
  overlay_duration_frames : Z;
  position : OverlayPositionPreset;
  border : OverlayBorderPreset;
  queued_sources : list InputId;
  included_outputs : list OutputId
}.
#[global] Instance OverlayStatus_eq_dec : EqDecision OverlayStatus.
Proof. solve_decision. Defined.

Inductive StreamRealizedState :=
  StreamStopped | Starting | StreamLive | WaitingToReconnect | Congested | StreamFailed
  | StreamUnavailable.
#[global] Instance StreamRealizedState_eq_dec : EqDecision StreamRealizedState.
Proof. solve_decision. Defined.
Record StreamStatus := mk_stream_status {
  stream_target : Z;
  stream_name : string;
  desired_running : bool;
  realized : StreamRealizedState;
  detail : option string
}.
#[global] Instance StreamStatus_eq_dec : EqDecision StreamStatus.
Proof. solve_decision. Defined.
Record InputAudioStripStatus := mk_strip_status {
  strip_input : InputId;
  gain_millidb : Z;
  balance_basis_points : Z;
  muted : bool;
  soloed : bool;
  follow_video : bool;
  delay_samples : Z
}.
#[global] Instance InputAudioStripStatus_eq_dec : EqDecision InputAudioStripStatus.
Proof. solve_decision. Defined.
Record InputStatus := mk_input_status { status_input : InputId; status_input_name : string }.
Record OutputStatus := mk_output_status { status_output : OutputId; status_output_name : string }.
#[global] Instance InputStatus_eq_dec : EqDecision InputStatus.
Proof. solve_decision. Defined.
#[global] Instance OutputStatus_eq_dec : EqDecision OutputStatus.
Proof. solve_decision. Defined.

(** ** Commands *)

Module CommandPayload.
Inductive t :=
  | ReorderInputs (inputs : list InputId)
  | RenameInput (input : InputId) (name : string)
  | SetInputAudioStrip (input : InputId) (gain_millidb balance_basis_points : Z)
      (muted soloed follow_video : bool) (delay_samples : Z)
  | SelectPreview (input : InputId)
  | Cut
  | Fade (duration_frames : Z)
  | AlphaFade (duration_frames : Z)
  | Slide (duration_frames : Z)
  | Zoom (duration_frames : Z)
  | Stinger (slot : Z) (duration_frames : Z)
  | ConfigureStinger (slot : Z) (media_input : InputId) (preload : bool) (cut_point_frames : Z)
      (audio_policy : StingerAudioPolicy) (missing_media_fallback : StingerMissingMediaFallback)
  | RemoveStinger (slot : Z)
  | TakeOverlay (channel : Z) (source : InputId)
  | UpdateOverlay (channel : Z) (source : InputId)
  | OverlayOff (channel : Z)
  | SetOverlayOutputInclusion (channel : Z) (output : OutputId) (included : bool)
  | ConfigureOverlayTransition (channel : Z) (transition : OverlayTransitionKind)
      (duration_frames : Z)
  | ConfigureOverlayAppearance (channel : Z) (position : OverlayPositionPreset)
      (border : OverlayBorderPreset)
  | QueueOverlay (channel : Z) (source : InputId)
  | TakeNextOverlay (channel : Z)
  | Wipe (duration_frames : Z)
  | FadeToBlack (active : bool) (duration_frames : Z)
  | StartManualTransition (kind : ManualTransitionKind)
  | SetManualTransitionPosition (position : Z)
  | CommitManualTransition
  | CancelManualTransition
  | StreamStart (target : Z)
  | StreamStop (target : Z)
  | RecordStart
  | RecordStop.
End CommandPayload.
#[global] Instance CommandPayload_eq_dec : EqDecision CommandPayload.t.
Proof. solve_decision. Defined.
Record CommandMessage := mk_command {
  protocol : ProtocolVersion;
  id : string;
  idempotency_key : string;
  expected_revision : option Z;
  deadline_ms : option Z;
  payload : CommandPayload.t
}.
#[global] Instance CommandMessage_eq_dec : EqDecision CommandMessage.
Proof. solve_decision. Defined.
Definition domain_envelope {C} (self : CommandMessage) (command : C) : Command.CommandEnvelope C :=
  let envelope := Command.envelope_new (id self) (idempotency_key self) command in
  let envelope := match expected_revision self with
                  | Some revision => Command.expecting envelope revision
                  | None => envelope
                  end in
  match deadline_ms self with
  | Some deadline => Command.with_deadline envelope deadline
  | None => envelope
  end.

Module CommandResult.
Inductive t :=
  | Accepted (id : string) (revision : Z) (scheduled_frame : option Z)
  | Rejected (id code message : string) (fields : list FieldIssue) (current_revision : Z)
      (retryable : bool).
End CommandResult.
#[global] Instance CommandResult_eq_dec : EqDecision CommandResult.t.
Proof. solve_decision. Defined.

(** ** Snapshots and events *)

Record SnapshotMessage := mk_snapshot_message {
  snapshot_engine : EngineIdentity;
  snapshot_revision : Z;
  show_name : string;
  inputs : list InputStatus;
  outputs : list OutputStatus;
  input_audio_strips : list InputAudioStripStatus;
  desired_program : InputId;
  desired_preview : InputId;
  realized_program : InputId;
  realized_preview : InputId;
  desired_manual_transition : ManualTransitionStatus;
  realized_manual_transition : ManualTransitionStatus;
  desired_fade_to_black : FadeToBlackState;
  realized_fade_to_black : FadeToBlackState;
  stingers : list StingerStatus;
  streams : list StreamStatus;
  record_desired_active : bool;
  desired_overlays : list OverlayStatus;
  realized_overlays : list OverlayStatus
}.
#[global] Instance SnapshotMessage_eq_dec : EqDecision SnapshotMessage.
Proof. solve_decision. Defined.

Module EventPayload.
Inductive t :=
  | InputOrderChanged (inputs : list InputId)
  | InputRenamed (input : InputId) (name : string)
  | DesiredSwitcher (program preview : InputId) (manual_transition : ManualTransitionStatus)
      (fade_to_black : FadeToBlackState) (overlays : list OverlayStatus)
      (input_audio_strips : list InputAudioStripStatus)
  | StingerSlotsChanged (program preview : InputId) (manual_transition : ManualTransitionStatus)
      (fade_to_black : FadeToBlackState) (stingers : list StingerStatus)
      (overlays : list OverlayStatus) (input_audio_strips : list InputAudioStripStatus)
  | StreamsChanged (streams : list StreamStatus)
  | RecordingChanged (active : bool).
End EventPayload.
#[global] Instance EventPayload_eq_dec : EqDecision EventPayload.t.
Proof. solve_decision. Defined.
Record EventMessage := mk_event_message { cursor : EventCursor; event_payload : EventPayload.t }.
#[global] Instance EventMessage_eq_dec : EqDecision EventMessage.
Proof. solve_decision. Defined.
Record DurableGap := mk_gap {
  gap_server : ServerIdentity;
  requested_after_revision : Z;
  available_from_revision : Z;
  gap_current_revision : Z
}.

Record RuntimeDomainBoundary := mk_boundary { boundary_domain : string; boundary : Z }.
#[global] Instance RuntimeDomainBoundary_eq_dec : EqDecision RuntimeDomainBoundary.
Proof. solve_decision. Defined.
Inductive RuntimeFailureDisposition := RolledBack | RetainedForRetry | FallbackRealized.
#[global] Instance RuntimeFailureDisposition_eq_dec : EqDecision RuntimeFailureDisposition.
Proof. solve_decision. Defined.
Module RuntimeLifecycleEvent.
Inductive t :=
  | Accepted
  | Preparing
  | Scheduled (domains : list RuntimeDomainBoundary)
  | Realized (domain : string) (manual_transition : ManualTransitionStatus)
      (fade_to_black : FadeToBlackState)
  | Failed (error : StructuredError) (disposition : RuntimeFailureDisposition)
  | Superseded (by_revision : Z).
End RuntimeLifecycleEvent.
#[global] Instance RuntimeLifecycleEvent_eq_dec : EqDecision RuntimeLifecycleEvent.t.
Proof. solve_decision. Defined.
Record RuntimeEventMessage := mk_runtime_event {
  runtime_server : ServerIdentity;
  runtime_revision : Z;
  generation : Z;
  sequence : Z;
  runtime_event : RuntimeLifecycleEvent.t
}.
#[global] Instance RuntimeEventMessage_eq_dec : EqDecision RuntimeEventMessage.
Proof. solve_decision. Defined.

Record HeartbeatMessage := mk_heartbeat {
  heartbeat_server : ServerIdentity;
  heartbeat_sequence : Z;
  sent_at_ms : Z;
  last_applied : option ResumeCursor
}.
Record HeartbeatAcknowledgementMessage := mk_heartbeat_ack {
  ack_server : ServerIdentity;
  ack_sequence : Z;
  received_at_ms : Z
}.

(** ** Messages *)

Record AudioMeterChannel := mk_meter { peak_millionths : Z; rms_millionths : Z }.
Record InputAudioMeters := mk_input_meters {
  meter_input : InputId;
  channels : list AudioMeterChannel
}.
Record AudioMetersMessage := mk_meters {
  meters_server : ServerIdentity;
  meters_sequence : Z;
  meters_frame : Z;
  start_sample : Z;
  end_sample : Z;
  master : list AudioMeterChannel;
  meter_inputs : list InputAudioMeters
}.
Record StreamStatusSample := mk_stream_sample {
  sample_target : Z;
  sample_realized : StreamRealizedState;
  connected : bool;
  muxed_bytes : Z;
  enqueued_pairs : Z;
  dropped_pairs : Z;
  failure : option string
}.
Record StreamStatusMessage := mk_stream_message {
  streams_server : ServerIdentity;
  streams_sequence : Z;
  samples : list StreamStatusSample
}.
Record CapabilityReportMessage := mk_capability_report {
  report_server : ServerIdentity;
  report_revision : Z;
  summary : CapabilityReportSummary
}.
Record DiagnosticsRequest := mk_diagnostics_request {
  diagnostics_protocol : ProtocolVersion;
  request_id : string
}.
Record DiagnosticsResponse := mk_diagnostics_response {
  diagnosed_protocol : ProtocolVersion;
  diagnosed_request_id : string;
  diagnosed_engine : EngineIdentity;
  diagnosed_revision : Z;
  oldest_retained_revision : option Z;
  newest_retained_revision : option Z;
  subscriber_count : Z;
  retained_events_limit : Z;
  subscriber_limit : Z;
  subscriber_queue_limit : Z
}.
Record DurableEvent := mk_durable {
  durable_sequence : Z;
  event_type : string;
  durable_payload : string
}.
Record DurableEventBatch := mk_batch { batch_cursor : ResumeCursor; batch : list DurableEvent }.
Record ErrorMessage := mk_error_message {
  error_request_id : option string;
  error_current_revision : option Z;
  message_error : StructuredError
}.

Module WireMessage.
Inductive t :=
  | Command (m : CommandMessage)
  | CommandResult (r : CommandResult.t)
  | Snapshot (m : SnapshotMessage)
  | Event (m : EventMessage)
  | HandshakeRequest (m : HandshakeRequest)
  | HandshakeResponse (m : HandshakeResponse)
  | DurableEventBatch (m : DurableEventBatch)
  | DurableGap (m : DurableGap)
  | RuntimeEvent (m : RuntimeEventMessage)
  | Heartbeat (m : HeartbeatMessage)
  | HeartbeatAcknowledgement (m : HeartbeatAcknowledgementMessage)
  | AudioMeters (m : AudioMetersMessage)
  | StreamStatus (m : StreamStatusMessage)
  | CapabilityReport (m : CapabilityReportMessage)
  | DiagnosticsRequest (m : DiagnosticsRequest)
  | DiagnosticsResponse (m : DiagnosticsResponse)
  | Error (m : ErrorMessage).
End WireMessage.
