(* ===== verification/CodecValue.v ===== *)
(** The values of the wire format, [crates/foundation/fm-protocol/src/codec] ([mod.rs],
    [value.rs]): limits and errors, percent escapes, names of enumerations, and the
    lists that are joined by commas.  A function that encodes has the name of the
    source, the one that parses the prefix [parse_].

    The closures of [map] that share a set of the identifiers seen run from left to
    right, as [mapM_seen]. *)
From S2P Require Import Prelude Text Types.
From S2P Require Command Protocol.
From Stdlib Require Import Ascii.
From stdpp Require Import pretty.
#[local] Open Scope Z_scope.

(** ** Limits and errors *)

Definition MAX_LINE_BYTES : nat := 64 * 1024.
Definition MAX_FIELDS_PER_MESSAGE : nat := 64.
Definition MAX_FIELD_NAME_BYTES : nat := 64.
Definition MAX_FIELD_VALUE_BYTES : nat := 48 * 1024.
Definition MAX_LIST_ITEMS : nat := 256.
Definition MAX_BATCH_EVENTS : nat := 256.
Definition MAX_MESSAGES_PER_PUSH : nat := 1024.
Definition MAX_REQUEST_ID_BYTES : nat := 128.
Definition MAX_STREAM_NAME_BYTES : nat := 128.
Definition MAX_STREAM_DETAIL_BYTES : nat := 64.
Definition MAX_STREAM_SAMPLES : nat := 5.
Definition MAX_AUDIO_METER_CHANNELS : nat := 32.

Inductive CodecError :=
  | LineTooLong
  | MissingNewline
  | MultipleLines
  | InvalidRecord
  | InvalidEscape
  | InvalidUtf8
  | DuplicateField (field : string)
  | MissingField (field : string)
  | UnknownField (field : string)
  | InvalidField (field value : string)
  | UnknownMessage (kind : string)
  | TrailingData
  | TooManyFields
  | FieldNameTooLong
  | FieldValueTooLong
  | TooManyItems (field : string)
  | TooManyMessages.
#[global] Instance CodecError_eq_dec : EqDecision CodecError.
Proof. solve_decision. Defined.

(** [is_ascii_graphic]: from [!] to [~]. *)
Definition validate_request_id (value : string) : result CodecError unit :=
  if decide (value = "" ∨ (MAX_REQUEST_ID_BYTES < str_len value)%nat ∨
             forallb (λ b, bool_decide (33 ≤ b ≤ 126)) (str_bytes value) = false)
  then Err (InvalidField "request_id" value) else Ok tt.

(** ** Escapes *)

Definition hex_value (c : Ascii.ascii) : option Z :=
  let b := byte_of c in
  if decide (48 ≤ b ≤ 57) then Some (b - 48) else
  if decide (65 ≤ b ≤ 70) then Some (b - 55) else
  if decide (97 ≤ b ≤ 102) then Some (b - 87) else None.
Fixpoint unescape_bytes (value : string) : option string :=
  match value with
  | EmptyString => Some ""
  | String "%" rest =>
      match rest with
      | String h (String l rest) =>
          high ← hex_value h;
          low ← hex_value l;
          String (ascii_of (Z.lor (Z.shiftl high 4) low)) <$> unescape_bytes rest
      | _ => None
      end
  | String c rest => String c <$> unescape_bytes rest
  end.
Definition unescape (value : string) : result CodecError string :=
  decoded ← ok_or InvalidEscape (unescape_bytes value);
  if utf8 decoded then Ok decoded else Err InvalidUtf8.

(** The loop of [escape_bounded], which stops when the output is too long. *)
Fixpoint escape_into (encoded value : string) : result CodecError string :=
  match value with
  | EmptyString => Ok encoded
  | String c value =>
      let piece := escape_byte c in
      if decide (MAX_FIELD_VALUE_BYTES < str_len encoded + str_len piece)%nat
      then Err FieldValueTooLong
      else escape_into (encoded +:+ piece) value
  end.
Definition escape_bounded (value : string) : result CodecError string := escape_into "" value.
Definition escape_stream_failure : string → result CodecError string := escape_bounded.

(** ** Lists *)

Definition check_items (value : string) (separator : Ascii.ascii) (maximum : nat) (field : string) :
    result CodecError unit :=
  if decide (maximum < length (take (S maximum) (str_split separator value)))%nat
  then Err (TooManyItems field) else Ok tt.

(** The loop of [bounded_join]: the separator is left out while the output is empty. *)
Fixpoint join_into {A} (encode : A → result CodecError string) (output : string) (values : list A) :
    result CodecError string :=
  match values with
  | [] => Ok output
  | value :: values =>
      encoded ← encode value;
      let separator := if decide (output = "") then 0%nat else 1%nat in
      if decide (MAX_FIELD_VALUE_BYTES < str_len output + separator + str_len encoded)%nat
      then Err FieldValueTooLong
      else join_into encode
             ((if decide (output = "") then output else output +:+ ",") +:+ encoded) values
  end.
Definition bounded_join {A} (values : list A) (maximum : nat) (field : string)
    (encode : A → result CodecError string) : result CodecError string :=
  if decide (maximum < length values)%nat then Err (TooManyItems field)
  else join_into encode "" values.

(** [l.map(|x| ..).collect()] where the closure updates what it has seen. *)
Fixpoint mapM_seen {S A B} (f : S → A → result CodecError (S * B)) (seen : S) (l : list A) :
    result CodecError (list B) :=
  match l with
  | [] => Ok []
  | x :: l =>
      '(seen, y) ← f seen x;
      rest ← mapM_seen f seen l;
      Ok (y :: rest)
  end.
Definition collect {A B} (f : A → result CodecError B) (l : list A) : result CodecError (list B) :=
  mapM_seen (λ (_ : unit) x, y ← f x; Ok (tt, y)) tt l.

(** [value.parse::<u128>().ok().and_then(NonZeroU128::new)]. *)
Definition parse_input (value : string) : option Z :=
  id ← parse_int U128 value; if decide (id = 0) then None else Some id.
Definition bit (b : bool) : string := if b then "1" else "0".
Definition parse_bit (value : string) : option bool :=
  match value with
  | "0" => Some false
  | "1" => Some true
  | _ => None
  end.

(** ** Enumerations *)

Definition client_type (value : Protocol.ClientType) : string :=
  match value with
  | Protocol.Studio => "studio"
  | Protocol.Web => "web"
  | Protocol.Cli => "cli"
  | Protocol.Integration => "integration"
  end.
Definition parse_client_type (value : string) : option Protocol.ClientType :=
  match value with
  | "studio" => Some Protocol.Studio
  | "web" => Some Protocol.Web
  | "cli" => Some Protocol.Cli
  | "integration" => Some Protocol.Integration
  | _ => None
  end.
Definition role (value : Protocol.Role) : string :=
  match value with
  | Protocol.Viewer => "viewer"
  | Protocol.Graphics => "graphics"
  | Protocol.Audio => "audio"
  | Protocol.Replay => "replay"
  | Protocol.Operator => "operator"
  | Protocol.Admin => "admin"
  end.
Definition parse_role (value : string) : option Protocol.Role :=
  match value with
  | "viewer" => Some Protocol.Viewer
  | "graphics" => Some Protocol.Graphics
  | "audio" => Some Protocol.Audio
  | "replay" => Some Protocol.Replay
  | "operator" => Some Protocol.Operator
  | "admin" => Some Protocol.Admin
  | _ => None
  end.
Definition stream_realized_state (state : Protocol.StreamRealizedState) : string :=
  match state with
  | Protocol.StreamStopped => "stopped"
  | Protocol.Starting => "starting"
  | Protocol.StreamLive => "live"
  | Protocol.WaitingToReconnect => "waiting_to_reconnect"
  | Protocol.Congested => "congested"
  | Protocol.StreamFailed => "failed"
  | Protocol.StreamUnavailable => "unavailable"
  end.
Definition parse_stream_realized_state (value : string) : option Protocol.StreamRealizedState :=
  match value with
  | "stopped" => Some Protocol.StreamStopped
  | "starting" => Some Protocol.Starting
  | "live" => Some Protocol.StreamLive
  | "waiting_to_reconnect" => Some Protocol.WaitingToReconnect
  | "congested" => Some Protocol.Congested
  | "failed" => Some Protocol.StreamFailed
  | "unavailable" => Some Protocol.StreamUnavailable
  | _ => None
  end.

(** [Display] of a protocol version. *)
Definition version (value : Protocol.ProtocolVersion) : string :=
  pretty (Protocol.major value) +:+ "." +:+ pretty (Protocol.minor value).
Definition parse_version (value : string) : option Protocol.ProtocolVersion :=
  '(major, minor) ← str_split_once "." value;
  major ← parse_int U16 major;
  minor ← parse_int U16 minor;
  Some (Protocol.mk_version major minor).

(** ** The lists of a message *)

Definition string_list (values : list string) : result CodecError string :=
  bounded_join values MAX_LIST_ITEMS "permissions" escape_bounded.
Definition parse_string_list (value : string) : result CodecError (list string) :=
  if decide (value = "") then Ok [] else
  _ ← check_items value "," MAX_LIST_ITEMS "permissions";
  collect unescape (str_split "," value).

(** The identifiers and names of inputs and of outputs are written alike. *)
Definition named_status {A} (field : string) (id : A → Z) (name : A → string) (x : A) :
    result CodecError string :=
  if str_blank (name x) then Err (InvalidField field (name x)) else
  escaped ← escape_bounded (name x);
  Ok (pretty (id x) +:+ "~" +:+ escaped).
Definition named_statuses {A} (field : string) (id : A → Z) (name : A → string) (values : list A) :
    result CodecError string :=
  encoded ← bounded_join values MAX_LIST_ITEMS field (named_status field id name);
  match first_repeat [] (id <$> values) with
  | Some x => Err (InvalidField field (pretty x))
  | None => Ok encoded
  end.
Definition parse_named_status {A} (mk : Z → string → A) (field value : string) (seen : list Z)
    (entry : string) : result CodecError (list Z * A) :=
  '(id, name) ← ok_or InvalidRecord (str_split_once "~" entry);
  name ← unescape name;
  if str_blank name then Err (InvalidField field value) else
  id ← ok_or (InvalidField field value) (parse_input id);
  if decide (id ∈ seen) then Err (InvalidField field value) else
  Ok (seen ++ [id], mk id name).

Definition input_statuses : list Protocol.InputStatus → result CodecError string :=
  named_statuses "inputs" Protocol.status_input Protocol.status_input_name.
Definition parse_input_statuses (value : string) : result CodecError (list Protocol.InputStatus) :=
  if decide (value = "") then Err (InvalidField "inputs" value) else
  _ ← check_items value "," MAX_LIST_ITEMS "inputs";
  mapM_seen (parse_named_status Protocol.mk_input_status "inputs" value) [] (str_split "," value).
Definition output_statuses : list Protocol.OutputStatus → result CodecError string :=
  named_statuses "outputs" Protocol.status_output Protocol.status_output_name.
Definition parse_output_statuses (value : string) : result CodecError (list Protocol.OutputStatus) :=
  if decide (value = "") then Ok [] else
  _ ← check_items value "," MAX_LIST_ITEMS "outputs";
  mapM_seen (parse_named_status Protocol.mk_output_status "outputs" value) [] (str_split "," value).

Definition input_ids (values : list InputId) : result CodecError string :=
  if decide (MAX_LIST_ITEMS < length values)%nat then Err (TooManyItems "inputs") else
  encoded ← bounded_join values MAX_LIST_ITEMS "inputs" (λ input, Ok (pretty input));
  if decide (values = []) then Err (InvalidField "inputs" encoded) else
  match first_repeat [] values with
  | Some x => Err (InvalidField "inputs" (pretty x))
  | None => Ok encoded
  end.
Definition parse_input_ids (value : string) : result CodecError (list InputId) :=
  if decide (value = "") then Err (InvalidField "inputs" value) else
  _ ← check_items value "," MAX_LIST_ITEMS "inputs";
  mapM_seen (λ seen entry,
      input ← ok_or (InvalidField "inputs" value) (parse_input entry);
      if decide (input ∈ seen) then Err (InvalidField "inputs" value)
      else Ok (seen ++ [input], input)) [] (str_split "," value).

Definition field_issues (values : list Protocol.FieldIssue) : result CodecError string :=
  bounded_join values MAX_LIST_ITEMS "fields" (λ issue,
    field ← escape_bounded (Command.field issue);
    code ← escape_bounded (Command.code_name issue);
    message ← escape_bounded (Command.issue_message issue);
    Ok (str_join "~" [field; code; message])).
Definition parse_field_issues (value : string) : result CodecError (list Protocol.FieldIssue) :=
  if decide (value = "") then Ok [] else
  _ ← check_items value "," MAX_LIST_ITEMS "fields";
  collect (λ entry,
    match str_split "~" entry with
    | [field; code; message] =>
        field ← unescape field;
        code ← unescape code;
        message ← unescape message;
        Ok (Command.mk_issue field code message)
    | _ => Err InvalidRecord
    end) (str_split "," value).

Definition durable_events (values : list Protocol.DurableEvent) : result CodecError string :=
  bounded_join values MAX_BATCH_EVENTS "events" (λ event,
    event_type ← escape_bounded (Protocol.event_type event);
    payload ← escape_bounded (Protocol.durable_payload event);
    Ok (str_join "~" [pretty (Protocol.durable_sequence event); event_type; payload])).
Definition parse_durable_events (value : string) : result CodecError (list Protocol.DurableEvent) :=
  if decide (value = "") then Err (InvalidField "events" value) else
  _ ← check_items value "," MAX_BATCH_EVENTS "events";
  collect (λ entry,
    let parts := str_split "~" entry in
    sequence ← ok_or (InvalidField "events" value) (head parts ≫= parse_int U16);
    match parts with
    | [_; event_type; payload] =>
        event_type ← unescape event_type;
        payload ← unescape payload;
        Ok (Protocol.mk_durable sequence event_type payload)
    | _ => Err InvalidRecord
    end) (str_split "," value).

Definition runtime_domains (values : list Protocol.RuntimeDomainBoundary) : result CodecError string :=
  bounded_join values MAX_LIST_ITEMS "domains" (λ entry,
    domain ← escape_bounded (Protocol.boundary_domain entry);
    Ok (domain +:+ "~" +:+ pretty (Protocol.boundary entry))).
Definition parse_runtime_domains (value : string) :
    result CodecError (list Protocol.RuntimeDomainBoundary) :=
  if decide (value = "") then Err (InvalidField "domains" value) else
  _ ← check_items value "," MAX_LIST_ITEMS "domains";
  collect (λ entry,
    '(domain, boundary) ← ok_or InvalidRecord (str_split_once "~" entry);
    domain ← unescape domain;
    boundary ← ok_or (InvalidField "domains" value) (parse_int U64 boundary);
    Ok (Protocol.mk_boundary domain boundary)) (str_split "," value).

(** Stream states. *)
Definition validate_stream_text (name : string) (detail : option string) : result CodecError unit :=
  if decide (str_blank name = true ∨ (MAX_STREAM_NAME_BYTES < str_len name)%nat)
  then Err (InvalidField "streams" name) else
  match detail with
  | None => Ok tt
  | Some detail =>
      if decide (detail = "" ∨ (MAX_STREAM_DETAIL_BYTES < str_len detail)%nat)
      then Err (InvalidField "streams" detail) else Ok tt
  end.
Fixpoint check_streams (seen : list Z) (values : list Protocol.StreamStatus) : result CodecError unit :=
  match values with
  | [] => Ok tt
  | status :: values =>
      if decide (Protocol.stream_target status ∈ seen)
      then Err (InvalidField "streams" (pretty (Protocol.stream_target status))) else
      _ ← validate_stream_text (Protocol.stream_name status) (Protocol.detail status);
      check_streams (seen ++ [Protocol.stream_target status]) values
  end.
Definition stream_statuses (values : list Protocol.StreamStatus) : result CodecError string :=
  _ ← check_streams [] values;
  bounded_join values MAX_LIST_ITEMS "streams" (λ status,
    name ← escape_bounded (Protocol.stream_name status);
    detail ← match Protocol.detail status with
             | Some detail => escape_bounded detail
             | None => Ok ""
             end;
    Ok (str_join ":" [pretty (Protocol.stream_target status); name; bit (Protocol.desired_running status);
                  stream_realized_state (Protocol.realized status); detail])).
Definition parse_stream_detail (detail : string) : result CodecError (option string) :=
  if decide (detail = "") then Ok None else
  detail ← unescape detail;
  if decide (detail = "" ∨ (MAX_STREAM_DETAIL_BYTES < str_len detail)%nat)
  then Err (InvalidField "streams" detail) else Ok (Some detail).
Definition parse_stream_status (seen : list Z) (entry : string) :
    result CodecError (list Z * Protocol.StreamStatus) :=
  let invalid := InvalidField "streams" entry in
  match str_split ":" entry with
  | [target; name; desired_running; realized; detail] =>
      target ← ok_or invalid (parse_input target);
      if decide (target ∈ seen) then Err invalid else
      name ← unescape name;
      if decide (str_blank name = true ∨ (MAX_STREAM_NAME_BYTES < str_len name)%nat)
      then Err invalid else
      desired_running ← ok_or invalid (parse_bit desired_running);
      realized ← ok_or invalid (parse_stream_realized_state realized);
      detail ← parse_stream_detail detail;
      Ok (seen ++ [target], Protocol.mk_stream_status target name desired_running realized detail)
  | _ => Err invalid
  end.
Definition parse_stream_statuses (value : string) : result CodecError (list Protocol.StreamStatus) :=
  if decide (value = "") then Ok [] else
  _ ← check_items value "," MAX_LIST_ITEMS "streams";
  mapM_seen parse_stream_status [] (str_split "," value).
