(* ===== verification/ValueLaws.v ===== *)
(** Round trips of the values of the wire format: what [unescape] and the [parse_]
    functions read back. *)
From S2P Require Import Prelude Text Types CodecValue.
From S2P Require Command Protocol.
From Stdlib Require Import Ascii.
From stdpp Require Import pretty.
#[local] Open Scope Z_scope.

(** ** Escapes *)

Lemma unescape_byte c s : unescape_bytes (escape_byte c +:+ s) = String c <$> unescape_bytes s.
Proof.
  assert (Hshape : ∀ c, (plain c = true ∧ escape_byte c = String c "" ∧ c ≠ "%"%char) ∨
    ∃ h l, escape_byte c = String "%" (String h (String l "")) ∧
      ∃ x y, hex_value h = Some x ∧ hex_value l = Some y ∧ ascii_of (Z.lor (Z.shiftl x 4) y) = c).
  { clear. intros c. unfold escape_byte. destruct (plain c) eqn:Hp.
    - left. split_and!; [done..|]. by intros ->.
    - right. eexists _, _. split; [done|].
      assert (Hall : ∀ c, (match hex_value (hex_char (Z.shiftr (byte_of c) 4)),
          hex_value (hex_char (Z.land (byte_of c) 15)) with
        | Some x, Some y => bool_decide (ascii_of (Z.lor (Z.shiftl x 4) y) = c)
        | _, _ => false end) = true).
      { apply (all_bytes (λ c, _ = true)). vm_compute. reflexivity. }
      specialize (Hall c).
      destruct (hex_value _) as [x|]; [|done]. destruct (hex_value _) as [y|]; [|done].
      exists x, y. split_and!; [done..|]. by apply bool_decide_eq_true in Hall. }
  destruct (Hshape c) as [(_&->&Hne)|(h&l&->&x&y&Hx&Hy&Hc)].
  - change (String c "" +:+ s) with (String c s). destruct c as [[] [] [] [] [] [] [] []]; done.
  - change (String "%" (String h (String l "")) +:+ s) with (String "%" (String h (String l s))).
    simpl. rewrite Hx, Hy. simpl. by rewrite Hc.
Qed.
Lemma unescape_bytes_escape s : unescape_bytes (escape s) = Some s.
Proof. induction s as [|c s IH]; [done|]. simpl. by rewrite unescape_byte, IH. Qed.
Lemma unescape_escape s : utf8 s = true → unescape (escape s) = Ok s.
Proof. intros Hs. unfold unescape. rewrite unescape_bytes_escape. simpl. by rewrite Hs. Qed.

Lemma escape_into_Ok out s e :
  escape_into out s = Ok e → e = out +:+ escape s ∧ (str_len out ≤ MAX_FIELD_VALUE_BYTES → str_len e ≤ MAX_FIELD_VALUE_BYTES)%nat.
Proof.
  revert out. induction s as [|c s IH]; intros out; simpl.
  - intros [= <-]. by rewrite string_app_nil_r.
  - case_decide as Hlen; [done|]. intros [-> He]%IH. rewrite <-string_app_assoc.
    split; [done|]. intros _. rewrite string_app_assoc. apply He. rewrite str_len_app. lia.
Qed.
Lemma escape_bounded_Ok s e : escape_bounded s = Ok e → e = escape s.
Proof. by intros [-> _]%escape_into_Ok. Qed.

(** ** Lists *)

Lemma join_into_Ok {A} (encode : A → result CodecError string) output values out :
  join_into encode output values = Ok out →
  ∃ encs, Forall2 (λ v e, encode v = Ok e) values encs ∧
    (Forall (λ e, e ≠ "") encs →
     out = if decide (encs = []) then output
           else (if decide (output = "") then "" else output +:+ ",") +:+ str_join "," encs).
Proof.
  revert output. induction values as [|v values IH]; intros output; simpl.
  { intros [= <-]. exists []. split; [constructor|done]. }
  intros (e&He&Hrest)%result_bind_Ok. destruct (decide (MAX_FIELD_VALUE_BYTES < _)%nat) as [|_]; [done|]. apply IH in Hrest as (encs&Hf&Hout).
  exists (e :: encs). split; [by constructor|]. intros [Hne Hnes]%Forall_cons. rewrite (Hout Hnes).
  rewrite (decide_False (P := e :: encs = [])) by done.
  set (out1 := if decide (output = "") then output else output +:+ ",").
  assert (Hout1 : (if decide (output = "") then "" else output +:+ ",") = out1).
  { unfold out1. destruct (decide (output = "")) as [->|]; done. } rewrite Hout1.
  assert (Hne1 : out1 +:+ e ≠ "").
  { destruct out1; simpl; [done|]. intros ?. done. }
  destruct (decide (encs = [])) as [->|Hencs]; [done|].
  rewrite (decide_False (P := out1 +:+ e = "")) by done. rewrite join_cons by done.
  rewrite <-!string_app_assoc. done.
Qed.
Lemma bounded_join_Ok {A} (values : list A) maximum field encode out :
  bounded_join values maximum field encode = Ok out →
  (length values ≤ maximum)%nat ∧
  ∃ encs, Forall2 (λ v e, encode v = Ok e) values encs ∧
    (Forall (λ e, e ≠ "") encs → out = str_join "," encs).
Proof.
  unfold bounded_join. case_decide as Hlen; [done|]. intros (encs&Hf&Hout)%join_into_Ok.
  split; [lia|]. exists encs. split; [done|]. intros Hne. rewrite (Hout Hne).
  destruct (decide (encs = [])) as [->|_]; [done|]. by rewrite decide_True.
Qed.
Lemma check_items_Ok value c maximum field :
  (length (str_split c value) ≤ maximum)%nat → check_items value c maximum field = Ok tt.
Proof. intros Hl. unfold check_items. rewrite decide_False; [done|]. rewrite length_take. lia. Qed.

Lemma mapM_seen_ids {A B} (f : list A → string → result CodecError (list A * B)) (id : B → A) seen encs values :
  Forall2 (λ v e, ∀ seen, id v ∉ seen → f seen e = Ok (seen ++ [id v], v)) values encs →
  NoDup (seen ++ (id <$> values)) → mapM_seen f seen encs = Ok values.
Proof.
  intros Hf. revert seen. induction Hf as [|v e values encs Hv _ IH]; intros seen Hnd; [done|]. simpl.
  rewrite fmap_cons in Hnd. pose proof Hnd as Hnd1. apply NoDup_app in Hnd as (_&Hd&_).
  rewrite Hv; [|intros Hin; apply (Hd _ Hin); by left]. simpl.
  rewrite IH; [done|]. by rewrite <-(assoc_L (++)).
Qed.
Lemma collect_ok {A B} (f : A → result CodecError B) encs values :
  Forall2 (λ v e, f e = Ok v) values encs → collect f encs = Ok values.
Proof.
  unfold collect. induction 1 as [|v e values encs Hv _ IH]; [done|]. simpl. rewrite Hv. simpl.
  by rewrite IH.
Qed.

(** A list that was joined is split again. *)
Lemma joined {A} (values : list A) maximum field encode out :
  bounded_join values maximum field encode = Ok out → values ≠ [] →
  (∀ v e, v ∈ values → encode v = Ok e → e ≠ "" ∧ lacks "," e = true ∧ ascii_only e = true) →
  ∃ encs, str_split "," out = encs ∧ Forall2 (λ v e, encode v = Ok e) values encs ∧ out ≠ "" ∧
    ascii_only out = true ∧ check_items out "," maximum field = Ok tt.
Proof.
  intros (Hlen&encs&Hf&Hout)%bounded_join_Ok Hne Hv.
  assert (Hall : Forall (λ e, e ≠ "" ∧ lacks "," e = true ∧ ascii_only e = true) encs).
  { apply Forall_forall. intros e He.
    apply list_elem_of_lookup in He as [i He]. destruct (Forall2_lookup_r _ _ _ _ _ Hf He) as (v&Hi&Hve).
    apply (Hv v); [by eapply list_elem_of_lookup_2|done]. }
  assert (Hencs : encs ≠ []) by (intros ->; by inversion Hf; subst).
  rewrite Hout by (eapply Forall_impl; [exact Hall|]; naive_solver).
  assert (Hsplit : str_split "," (str_join "," encs) = encs).
  { apply split_join; [done|]. eapply Forall_impl; [exact Hall|]. naive_solver. }
  exists encs. split_and!; [done|done| | |].
  - destruct encs as [|e encs]; [done|]. apply Forall_cons in Hall as [[He _] _]. by apply join_nonempty.
  - apply ascii_only_join; [done|]. eapply Forall_impl; [exact Hall|]. naive_solver.
  - apply check_items_Ok. rewrite Hsplit. by rewrite <-(Forall2_length _ _ _ Hf).
Qed.

(** What is joined of two pieces or more holds the separator. *)
Lemma join_two c x y l : str_join c (x :: y :: l) ≠ "".
Proof. rewrite join_cons by done. by destruct x. Qed.
Ltac entries := repeat (apply Forall_cons; split); [..|apply Forall_nil; exact I]; text.
Lemma Forall2_impl_elem {A B} (P Q : A → B → Prop) l k :
  Forall2 P l k → (∀ x y, x ∈ l → y ∈ k → P x y → Q x y) → Forall2 Q l k.
Proof.
  induction 1 as [|x y l k Hxy _ IH]; intros Hq; constructor; [apply Hq; [by left..|done]|].
  apply IH. intros x1 y1 Hx Hy. apply Hq; by right.
Qed.

(** ** Identifiers, bits and names *)

Definition wire_id (z : Z) : Prop := 1 ≤ z ≤ ty_max U128.
Lemma parse_input_pretty z : wire_id z → parse_input (pretty z) = Some z.
Proof.
  intros Hz. unfold parse_input. rewrite parse_pretty by (unfold wire_id in Hz; int_lia). simpl.
  rewrite decide_False; [done|]. unfold wire_id in Hz. lia.
Qed.
Lemma parse_bit_bit b : parse_bit (bit b) = Some b.
Proof. by destruct b. Qed.
Lemma parse_client_type_ok x : parse_client_type (client_type x) = Some x.
Proof. by destruct x. Qed.
Lemma parse_role_ok x : parse_role (role x) = Some x.
Proof. by destruct x. Qed.
Lemma parse_stream_realized_state_ok x : parse_stream_realized_state (stream_realized_state x) = Some x.
Proof. by destruct x. Qed.
Definition version_ok (v : Protocol.ProtocolVersion) : Prop :=
  in_ty U16 (Protocol.major v) ∧ in_ty U16 (Protocol.minor v).
Lemma parse_version_ok v : version_ok v → parse_version (version v) = Some v.
Proof.
  intros [Hmaj Hmin]. unfold parse_version, version.
  change ("." +:+ pretty (Protocol.minor v)) with (String "." (pretty (Protocol.minor v))).
  rewrite split_once_app by text. simpl. rewrite !parse_pretty by done. by destruct v.
Qed.

Lemma bit_lacks c b : bool_decide (c ∈ digits) = false → lacks c (bit b) = true.
Proof. destruct b; [exact (pretty_lacks c 1)|exact (pretty_lacks c 0)]. Qed.
Lemma bit_ascii b : ascii_only (bit b) = true.
Proof. by destruct b. Qed.
Lemma state_lacks c x : plain c = false → lacks c (stream_realized_state x) = true.
Proof. intros Hc. destruct x; simpl; repeat (rewrite bool_decide_eq_true_2 by (by intros <-)); done. Qed.
Lemma state_ascii x : ascii_only (stream_realized_state x) = true.
Proof. by destruct x. Qed.
#[export] Hint Rewrite bit_ascii state_ascii : text.
#[export] Hint Rewrite bit_lacks state_lacks using reflexivity : text.
(** Take an encoder of an entry apart. *)
Ltac entry :=
  repeat match goal with
  | H : (_ ≫= _) = Ok _ |- _ => apply result_bind_Ok in H as (?&?&H)
  | H : escape_bounded _ = Ok _ |- _ => apply escape_bounded_Ok in H; subst
  | H : Ok _ = Ok _ |- _ => injection H as H; subst
  | H : (if ?b then Err _ else _) = Ok _ |- _ => destruct b eqn:?; [done|]
  | H : Err _ = Ok _ |- _ => done
  end.

(** ** The lists of a message *)

Definition names_ok (values : list string) : Prop := Forall (λ s, utf8 s = true ∧ s ≠ "") values.
Lemma string_list_roundtrip values out :
  string_list values = Ok out → names_ok values →
  parse_string_list out = Ok values ∧ ascii_only out = true.
Proof.
  intros Ho Hok. unfold parse_string_list. destruct (decide (values = [])) as [->|Hne].
  { by injection Ho as <-. }
  apply joined in Ho as (encs&Hs&Hf&Hout&Ha&Hc); [|done|].
  - split; [|done]. rewrite decide_False, Hc, Hs by done. simpl. apply collect_ok.
    unfold names_ok in Hok. clear -Hok Hf. induction Hf as [|v e values encs Hv _ IH]; [done|].
    apply Forall_cons in Hok as [[Hu _] Hok]. constructor; [|by apply IH]. entry. by apply unescape_escape.
  - intros v e Hv He. unfold names_ok in Hok. rewrite Forall_forall in Hok. destruct (Hok v Hv) as [Hu Hn]. entry.
    split_and!; [by rewrite escape_empty|text..].
Qed.

Lemma named_roundtrip {A} (mk : Z → string → A) id name field values out :
  named_statuses field id name values = Ok out → values ≠ [] →
  (∀ x, mk (id x) (name x) = x) → Forall (λ x, utf8 (name x) = true ∧ wire_id (id x)) values →
  out ≠ "" ∧ ascii_only out = true ∧ check_items out "," MAX_LIST_ITEMS field = Ok tt ∧
  ∀ value, mapM_seen (parse_named_status mk field value) [] (str_split "," out) = Ok values.
Proof.
  intros (s&Hs&Hd)%result_bind_Ok Hne Hmk Hok. destruct (first_repeat [] (id <$> values)) eqn:Hr; [done|].
  injection Hd as <-. apply first_repeat_None in Hr; [|constructor].
  apply joined in Hs as (encs&Hsp&Hf&Hout&Ha&Hc); [|done|].
  - split_and!; [done..|]. intros value. rewrite Hsp. apply (mapM_seen_ids _ id); [|done].
    clear -Hok Hf Hmk. induction Hf as [|v e values encs Hv _ IH]; [done|].
    apply Forall_cons in Hok as [[Hu Hid] Hok]. constructor; [|by apply IH]. intros seen Hseen.
    unfold named_status in Hv. entry. unfold parse_named_status.
    change (_ +:+ "~" +:+ ?x) with (pretty (id v) +:+ String "~" x). rewrite split_once_app by text.
    simpl. rewrite unescape_escape by done. simpl. match goal with H : str_blank _ = false |- _ => rewrite H end.
    rewrite parse_input_pretty by done. simpl. by rewrite decide_False, Hmk.
  - intros v e Hv He. unfold named_status in He. entry. split_and!; [|text..].
    by destruct (pretty (id v)).
Qed.
Lemma input_statuses_roundtrip values out :
  input_statuses values = Ok out → values ≠ [] →
  Forall (λ x, utf8 (Protocol.status_input_name x) = true ∧ wire_id (Protocol.status_input x)) values →
  parse_input_statuses out = Ok values ∧ ascii_only out = true.
Proof.
  intros Ho Hne Hok. destruct (named_roundtrip Protocol.mk_input_status _ _ _ _ _ Ho Hne) as (Hout&Ha&Hc&Hp);
    [by intros []|done|].
  split; [|done]. unfold parse_input_statuses. rewrite decide_False, Hc by done. apply Hp.
Qed.
Lemma output_statuses_roundtrip values out :
  output_statuses values = Ok out →
  Forall (λ x, utf8 (Protocol.status_output_name x) = true ∧ wire_id (Protocol.status_output x)) values →
  parse_output_statuses out = Ok values ∧ ascii_only out = true.
Proof.
  intros Ho Hok. unfold parse_output_statuses. destruct (decide (values = [])) as [->|Hne].
  { by injection Ho as <-. }
  destruct (named_roundtrip Protocol.mk_output_status _ _ _ _ _ Ho Hne) as (Hout&Ha&Hc&Hp); [by intros []|done|].
  split; [|done]. rewrite decide_False, Hc by done. apply Hp.
Qed.

Lemma input_ids_roundtrip values out :
  input_ids values = Ok out → Forall wire_id values →
  parse_input_ids out = Ok values ∧ ascii_only out = true.
Proof.
  unfold input_ids. case_decide; [done|]. intros (s&Hs&Hd)%result_bind_Ok Hok. case_decide as Hne; [done|].
  destruct (first_repeat [] values) eqn:Hr; [done|]. injection Hd as <-.
  apply first_repeat_None in Hr; [|constructor].
  apply joined in Hs as (encs&Hsp&Hf&Hout&Ha&Hc); [|done|].
  - split; [|done]. unfold parse_input_ids. rewrite decide_False, Hc, Hsp by done. simpl.
    apply (mapM_seen_ids _ (λ x, x)); [|by rewrite list_fmap_id].
    clear -Hok Hf. induction Hf as [|v e values encs Hv _ IH]; [done|].
    apply Forall_cons in Hok as [Hid Hok]. constructor; [|by apply IH]. intros seen Hseen. entry.
    rewrite parse_input_pretty by done. simpl. by rewrite decide_False.
  - intros v e Hv He. entry. split_and!; [|text..]. destruct (pretty v) eqn:Hp; [|done].
    rewrite Forall_forall in Hok. pose proof (parse_input_pretty v (Hok v Hv)) as Hpv. by rewrite Hp in Hpv.
Qed.

Definition issue_ok (x : Protocol.FieldIssue) : Prop :=
  utf8 (Command.field x) = true ∧ utf8 (Command.code_name x) = true ∧ utf8 (Command.issue_message x) = true.
Lemma field_issues_roundtrip values out :
  field_issues values = Ok out → Forall issue_ok values →
  parse_field_issues out = Ok values ∧ ascii_only out = true.
Proof.
  intros Ho Hok. unfold parse_field_issues. destruct (decide (values = [])) as [->|Hne].
  { by injection Ho as <-. }
  apply joined in Ho as (encs&Hs&Hf&Hout&Ha&Hc); [|done|].
  - split; [|done]. rewrite decide_False, Hc, Hs by done. simpl. apply collect_ok.
    clear -Hok Hf. induction Hf as [|v e values encs Hv _ IH]; [done|].
    apply Forall_cons in Hok as [(?&?&?) Hok]. constructor; [|by apply IH]. entry.
    rewrite split_join by (done || entries). rewrite !unescape_escape by done. by destruct v.
  - intros v e Hv He. entry. split_and!; [|text..]. apply join_two.
Qed.

Definition event_ok (x : Protocol.DurableEvent) : Prop :=
  in_ty U16 (Protocol.durable_sequence x) ∧ utf8 (Protocol.event_type x) = true ∧
  utf8 (Protocol.durable_payload x) = true.
Lemma durable_events_roundtrip values out :
  durable_events values = Ok out → values ≠ [] → Forall event_ok values →
  parse_durable_events out = Ok values ∧ ascii_only out = true.
Proof.
  intros Ho Hne Hok. unfold parse_durable_events.
  apply joined in Ho as (encs&Hs&Hf&Hout&Ha&Hc); [|done|].
  - split; [|done]. rewrite decide_False, Hc, Hs by done. simpl. apply collect_ok.
    generalize (InvalidField "events" out). intros err.
    clear -Hok Hf. induction Hf as [|v e values encs Hv _ IH]; [done|].
    apply Forall_cons in Hok as [(?&?&?) Hok]. constructor; [|by apply IH]. entry.
    rewrite split_join by (done || entries). simpl. rewrite parse_pretty by done. simpl.
    rewrite !unescape_escape by done. by destruct v.
  - intros v e Hv He. entry. split_and!; [|text..]. apply join_two.
Qed.

Definition boundary_ok (x : Protocol.RuntimeDomainBoundary) : Prop :=
  utf8 (Protocol.boundary_domain x) = true ∧ in_ty U64 (Protocol.boundary x).
Lemma runtime_domains_roundtrip values out :
  runtime_domains values = Ok out → values ≠ [] → Forall boundary_ok values →
  parse_runtime_domains out = Ok values ∧ ascii_only out = true.
Proof.
  intros Ho Hne Hok. unfold parse_runtime_domains.
  apply joined in Ho as (encs&Hs&Hf&Hout&Ha&Hc); [|done|].
  - split; [|done]. rewrite decide_False, Hc, Hs by done. simpl. apply collect_ok.
    generalize (InvalidField "domains" out). intros err.
    clear -Hok Hf. induction Hf as [|v e values encs Hv _ IH]; [done|].
    apply Forall_cons in Hok as [(?&?) Hok]. constructor; [|by apply IH]. entry.
    change (_ +:+ "~" +:+ ?x) with (escape (Protocol.boundary_domain v) +:+ String "~" x).
    rewrite split_once_app by text. simpl. rewrite unescape_escape by done. simpl.
    rewrite parse_pretty by done. simpl. by destruct v.
  - intros v e Hv He. entry. split_and!; [|text..]. by destruct (escape _).
Qed.

Definition stream_ok (x : Protocol.StreamStatus) : Prop :=
  wire_id (Protocol.stream_target x) ∧ utf8 (Protocol.stream_name x) = true ∧
  (∀ d, Protocol.detail x = Some d → utf8 d = true).
Definition detail_text (d : option string) : string :=
  match d with
  | Some d => escape d
  | None => ""
  end.
Lemma detail_lacks c d :
  plain c = false → bool_decide (c = "%"%char) = false → lacks c (detail_text d) = true.
Proof. destruct d as [d|]; [apply escape_lacks_b|done]. Qed.
Lemma detail_ascii d : ascii_only (detail_text d) = true.
Proof. destruct d as [d|]; [apply escape_ascii|done]. Qed.
#[export] Hint Rewrite detail_ascii : text.
#[export] Hint Rewrite detail_lacks using reflexivity : text.
Lemma check_streams_valid seen values :
  check_streams seen values = Ok tt → NoDup seen →
  NoDup (seen ++ (Protocol.stream_target <$> values)) ∧
  Forall (λ x, validate_stream_text (Protocol.stream_name x) (Protocol.detail x) = Ok tt) values.
Proof.
  revert seen. induction values as [|x values IH]; intros seen; simpl.
  { intros _ Hnd. by rewrite app_nil_r. }
  case_decide as Hin; [done|]. intros ([]&Hx&Hrest)%result_bind_Ok Hnd. apply IH in Hrest as [Hnd1 Hall].
  - split; [by rewrite <-(assoc_L (++)) in Hnd1|by constructor].
  - apply NoDup_app. split_and!; [done| |apply NoDup_singleton]. intros y Hy ->%list_elem_of_singleton. done.
Qed.
Lemma validate_name name d :
  validate_stream_text name d = Ok tt →
  ¬ (str_blank name = true ∨ (MAX_STREAM_NAME_BYTES < str_len name)%nat).
Proof. unfold validate_stream_text. by case_decide. Qed.
Lemma parse_stream_detail_ok name d :
  validate_stream_text name d = Ok tt → (∀ x, d = Some x → utf8 x = true) →
  parse_stream_detail (detail_text d) = Ok d.
Proof.
  unfold validate_stream_text, parse_stream_detail. case_decide; [done|]. destruct d as [d|]; [|done].
  case_decide as Hd; [done|]. intros _ Hu. simpl. rewrite decide_False by (rewrite escape_empty; naive_solver).
  rewrite unescape_escape by by apply Hu. simpl. by rewrite decide_False.
Qed.
Lemma stream_statuses_roundtrip values out :
  stream_statuses values = Ok out → Forall stream_ok values →
  parse_stream_statuses out = Ok values ∧ ascii_only out = true.
Proof.
  unfold stream_statuses. intros ([]&Hch&Ho)%result_bind_Ok Hok.
  destruct (check_streams_valid _ _ Hch ltac:(constructor)) as [Hnd Hvalid]. clear Hch.
  unfold parse_stream_statuses. destruct (decide (values = [])) as [->|Hne].
  { by injection Ho as <-. }
  assert (He : ∀ v e, v ∈ values →
    (name ← escape_bounded (Protocol.stream_name v);
     detail ← match Protocol.detail v with
              | Some detail => escape_bounded detail
              | None => Ok ""
              end;
     Ok (str_join ":" [pretty (Protocol.stream_target v); name; bit (Protocol.desired_running v);
                  stream_realized_state (Protocol.realized v); detail])) = Ok e →
    e = str_join ":" [pretty (Protocol.stream_target v); escape (Protocol.stream_name v);
          bit (Protocol.desired_running v); stream_realized_state (Protocol.realized v);
          detail_text (Protocol.detail v)]).
  { intros v e _ He. destruct (Protocol.detail v) eqn:Hd; entry; done. }
  apply joined in Ho as (encs&Hs&Hf&Hout&Ha&Hc); [|done|].
  - split; [|done]. rewrite decide_False, Hc, Hs by done. simpl.
    apply (mapM_seen_ids _ Protocol.stream_target); [|done].
    assert (Hall : ∀ v, v ∈ values → stream_ok v ∧
      validate_stream_text (Protocol.stream_name v) (Protocol.detail v) = Ok tt).
    { rewrite Forall_forall in Hok, Hvalid. auto. }
    clear -Hall Hf He. eapply Forall2_impl_elem; [exact Hf|]. intros v e Hv _ ->%He; [|done].
    destruct (Hall v Hv) as [(Hid&Hu&Hd) Hval]. intros seen Hseen. unfold parse_stream_status.
    rewrite split_join by (done || entries). rewrite parse_input_pretty by done. simpl.
    rewrite decide_False, unescape_escape by done. simpl.
    rewrite decide_False by (by eapply validate_name). rewrite parse_bit_bit, parse_stream_realized_state_ok. simpl.
    rewrite (parse_stream_detail_ok _ _ Hval Hd). simpl. by destruct v.
  - intros v e Hv ->%He; [|done]. split_and!; [apply join_two|text..].
Qed.
