(* ===== verification/Encode.v ===== *)
(** The encoder of the wire format, [crates/foundation/fm-protocol/src/codec/encode.rs]:
    a record collects the fields of a message, and [finish] writes them on one line.
    [WireRecord] is the source's [Record]. *)
From S2P Require Import Prelude Text Types CodecValue.
From S2P Require Command Protocol.
From Stdlib Require Import Ascii.
From stdpp Require Import pretty.
#[local] Open Scope Z_scope.

(** ** Records *)

Record WireRecord := mk_record { kind : string; record_fields : list (string * string) }.
Definition record_default : WireRecord := mk_record "" [].
Abbreviation encoder := (stm WireRecord CodecError).

Definition set_kind (kind : string) : encoder unit :=
  st_modify (λ record, mk_record kind (record_fields record)).
(** [field], [field_str] and [field_string]: the value is already a string. *)
Definition field (name value : string) : encoder unit :=
  st_require (¬ MAX_FIELD_VALUE_BYTES < str_len value)%nat FieldValueTooLong;;
  st_modify (λ record, mk_record (kind record) (record_fields record ++ [(name, value)])).
(** [field] of an integer. *)
Definition field_int (name : string) (value : Z) : encoder unit := field name (pretty value).
(** [field] of a [u8::from] of a boolean. *)
Definition field_bool (name : string) (value : bool) : encoder unit := field name (bit value).
(** [field_string] of a value that may fail to encode. *)
Definition field_result (name : string) (value : result CodecError string) : encoder unit :=
  value ← st_lift value; field name value.
Definition optional_int (name : string) (value : option Z) : encoder unit :=
  match value with
  | Some value => field_int name value
  | None => mret tt
  end.

(** The loop over the bytes of a value, and the one over the fields. *)
Fixpoint finish_value (line value : string) : result CodecError string :=
  match value with
  | EmptyString => Ok line
  | String c value =>
      let piece := escape_byte c in
      if decide (MAX_LINE_BYTES < str_len line + str_len piece + 1)%nat then Err LineTooLong
      else finish_value (line +:+ piece) value
  end.
Fixpoint finish_fields (line : string) (fields : list (string * string)) : result CodecError string :=
  match fields with
  | [] => Ok line
  | (name, value) :: fields =>
      if decide (MAX_LINE_BYTES < str_len line + str_len name + 2)%nat then Err LineTooLong else
      line ← finish_value (line +:+ String "009" name +:+ "=") value;
      finish_fields line fields
  end.
Definition record_finish (record : WireRecord) : result CodecError string :=
  line ← finish_fields (kind record) (record_fields record);
  if decide (str_len line = MAX_LINE_BYTES) then Err LineTooLong else Ok (line +:+ String "010" "").

(** ** Names of enumerations *)

Definition manual_kind (kind : Protocol.ManualTransitionKind) : string :=
  match kind with
  | Protocol.ManualFade => "fade"
  | Protocol.ManualWipe => "wipe"
  | Protocol.ManualAlphaFade => "alpha_fade"
  | Protocol.ManualSlide => "slide"
  end.
Definition overlay_transition (kind : Protocol.OverlayTransitionKind) : string :=
  match kind with
  | Protocol.OverlayCut => "cut"
  | Protocol.OverlayFade => "fade"
  end.
Definition overlay_position (position : Protocol.OverlayPositionPreset) : string :=
  match position with
  | Protocol.FullFrame => "full_frame"
  | Protocol.TopLeft => "top_left"
  | Protocol.TopRight => "top_right"
  | Protocol.BottomLeft => "bottom_left"
  | Protocol.BottomRight => "bottom_right"
  end.
Definition overlay_border (border : Protocol.OverlayBorderPreset) : string :=
  match border with
  | Protocol.NoBorder => "none"
  | Protocol.ThinWhite => "thin_white"
  | Protocol.ThickWhite => "thick_white"
  end.
Definition audio_policy (policy : Protocol.StingerAudioPolicy) : string :=
  match policy with
  | Protocol.Muted => "muted"
  | Protocol.StingerOnly => "stinger_only"
  | Protocol.MixWithProgram => "mix_with_program"
  end.
Definition missing_media_fallback (fallback : Protocol.StingerMissingMediaFallback) : string :=
  match fallback with
  | Protocol.FallbackCut => "cut"
  | Protocol.FallbackFade => "fade"
  | Protocol.KeepProgram => "keep_program"
  end.
Definition stinger_readiness (readiness : Protocol.StingerReadiness) : string :=
  match readiness with
  | Protocol.NotRequested => "not_requested"
  | Protocol.Ready => "ready"
  | Protocol.Missing => "missing"
  end.
Definition snapshot_reason (reason : Protocol.SnapshotReason) : string :=
  match reason with
  | Protocol.NoCursor => "no_cursor"
  | Protocol.IdentityChanged => "identity_changed"
  | Protocol.CursorAhead => "cursor_ahead"
  | Protocol.HistoryUnavailable => "history_unavailable"
  end.
Definition failure_disposition (disposition : Protocol.RuntimeFailureDisposition) : string :=
  match disposition with
  | Protocol.RolledBack => "rolled_back"
  | Protocol.RetainedForRetry => "retained_for_retry"
  | Protocol.FallbackRealized => "fallback_realized"
  end.

(** [Option::is_some]. *)
Definition is_some {A} (o : option A) : bool :=
  match o with
  | Some _ => true
  | None => false
  end.

(** ** Identities *)

Definition encode_identity (identity : Protocol.EngineIdentity) : encoder unit :=
  field "engine_id" (Protocol.engine_id identity);;
  field_int "state_epoch" (Protocol.state_epoch identity);;
  field "log_id" (Protocol.log_id identity).
Definition encode_cursor (cursor : Protocol.EventCursor) : encoder unit :=
  encode_identity (Protocol.cursor_engine cursor);;
  field_int "revision" (Protocol.cursor_revision cursor).
Definition encode_server_identity (identity : Protocol.ServerIdentity) : encoder unit :=
  field "engine_id" (Protocol.server_engine_id identity);;
  field "project_id" (Protocol.server_project_id identity);;
  field_int "state_epoch" (Protocol.server_state_epoch identity);;
  field "log_id" (Protocol.server_log_id identity).
(** The names of the fields of a cursor; any other prefix is [unreachable!]. *)
Definition cursor_names (prefix : string) : option (string * string * string * string * string) :=
  match prefix with
  | "resume" =>
      Some ("resume_engine_id", "resume_project_id", "resume_state_epoch", "resume_log_id",
            "resume_revision")
  | "applied" =>
      Some ("applied_engine_id", "applied_project_id", "applied_state_epoch", "applied_log_id",
            "applied_revision")
  | _ => None
  end.
Definition encode_resume_cursor (cursor : Protocol.ResumeCursor) (prefix : string) : encoder unit :=
  '(engine, project, epoch, log, revision) ← st_expect (cursor_names prefix);
  let server := Protocol.resume_server cursor in
  field engine (Protocol.server_engine_id server);;
  field project (Protocol.server_project_id server);;
  field_int epoch (Protocol.server_state_epoch server);;
  field log (Protocol.server_log_id server);;
  field_int revision (Protocol.resume_revision cursor).

(** ** Commands *)

Module Payload.
Import Protocol.CommandPayload.
Definition encode_input_audio_strip_command (payload : t) : encoder unit :=
  match payload with
  | SetInputAudioStrip input gain_millidb balance_basis_points muted soloed follow_video delay_samples =>
      field "payload" "input_audio_strip";;
      field_int "input" input;;
      field_int "gain_millidb" gain_millidb;;
      field_int "balance_basis_points" balance_basis_points;;
      field_bool "muted" muted;;
      field_bool "soloed" soloed;;
      field_bool "follow_video" follow_video;;
      field_int "delay_samples" delay_samples
  | _ => st_panic
  end.
Definition encode_overlay_command (payload : t) : encoder unit :=
  match payload with
  | TakeOverlay channel source =>
      field "payload" "overlay_take";; field_int "channel" channel;; field_int "source" source
  | UpdateOverlay channel source =>
      field "payload" "overlay_update";; field_int "channel" channel;; field_int "source" source
  | OverlayOff channel => field "payload" "overlay_off";; field_int "channel" channel
  | SetOverlayOutputInclusion channel output included =>
      field "payload" "overlay_output";;
      field_int "channel" channel;;
      field_int "output" output;;
      field_bool "included" included
  | ConfigureOverlayTransition channel transition duration_frames =>
      field "payload" "overlay_transition";;
      field_int "channel" channel;;
      field "transition" (overlay_transition transition);;
      field_int "duration_frames" duration_frames
  | ConfigureOverlayAppearance channel position border =>
      field "payload" "overlay_appearance";;
      field_int "channel" channel;;
      field "position" (overlay_position position);;
      field "border" (overlay_border border)
  | QueueOverlay channel source =>
      field "payload" "overlay_queue";; field_int "channel" channel;; field_int "source" source
  | TakeNextOverlay channel => field "payload" "overlay_next";; field_int "channel" channel
  | _ => st_panic
  end.
Definition encode_stinger_mutation (payload : t) : encoder unit :=
  match payload with
  | ConfigureStinger slot media_input preload cut_point_frames policy fallback =>
      field "payload" "configure_stinger";;
      field_int "slot" slot;;
      field_int "media_input" media_input;;
      field_bool "preload" preload;;
      field_int "cut_point_frames" cut_point_frames;;
      field "audio_policy" (audio_policy policy);;
      field "missing_media_fallback" (missing_media_fallback fallback)
  | RemoveStinger slot => field "payload" "remove_stinger";; field_int "slot" slot
  | _ => st_panic
  end.
Definition encode_stream_command (payload : t) : encoder unit :=
  match payload with
  | StreamStart target => field "payload" "stream_start";; field_int "target" target
  | StreamStop target => field "payload" "stream_stop";; field_int "target" target
  | _ => st_panic
  end.
(** The [match] of [encode_command]. *)
Definition encode_payload (payload : t) : encoder unit :=
  match payload with
  | ReorderInputs inputs =>
      field "payload" "input_reorder";; field_result "inputs" (input_ids inputs)
  | RenameInput input name =>
      field "payload" "input_rename";; field_int "input" input;; field "name" name
  | SetInputAudioStrip _ _ _ _ _ _ _ => encode_input_audio_strip_command payload
  | SelectPreview input => field "payload" "select_preview";; field_int "input" input
  | Cut => field "payload" "cut"
  | Fade duration_frames => field "payload" "fade";; field_int "duration_frames" duration_frames
  | AlphaFade duration_frames =>
      field "payload" "alpha_fade";; field_int "duration_frames" duration_frames
  | Slide duration_frames => field "payload" "slide";; field_int "duration_frames" duration_frames
  | Zoom duration_frames => field "payload" "zoom";; field_int "duration_frames" duration_frames
  | Stinger slot duration_frames =>
      field "payload" "stinger";;
      field_int "slot" slot;;
      field_int "duration_frames" duration_frames
  | ConfigureStinger _ _ _ _ _ _ | RemoveStinger _ => encode_stinger_mutation payload
  | TakeOverlay _ _ | UpdateOverlay _ _ | OverlayOff _ | SetOverlayOutputInclusion _ _ _
  | ConfigureOverlayTransition _ _ _ | ConfigureOverlayAppearance _ _ _ | QueueOverlay _ _
  | TakeNextOverlay _ => encode_overlay_command payload
  | StreamStart _ | StreamStop _ => encode_stream_command payload
  | RecordStart => field "payload" "record_start"
  | RecordStop => field "payload" "record_stop"
  | Wipe duration_frames => field "payload" "wipe";; field_int "duration_frames" duration_frames
  | FadeToBlack active duration_frames =>
      field "payload" "fade_to_black";;
      field_bool "active" active;;
      field_int "duration_frames" duration_frames
  | StartManualTransition kind =>
      field "payload" "manual_start";; field "transition" (manual_kind kind)
  | SetManualTransitionPosition position =>
      field "payload" "manual_position";; field_int "position_basis_points" position
  | CommitManualTransition => field "payload" "manual_commit"
  | CancelManualTransition => field "payload" "manual_cancel"
  end.
End Payload.
Definition encode_command (message : Protocol.CommandMessage) : encoder unit :=
  set_kind "command";;
  field "protocol" (version (Protocol.protocol message));;
  field "id" (Protocol.id message);;
  field "idempotency_key" (Protocol.idempotency_key message);;
  optional_int "expected_revision" (Protocol.expected_revision message);;
  optional_int "deadline_ms" (Protocol.deadline_ms message);;
  Payload.encode_payload (Protocol.payload message).
Definition encode_result (message : Protocol.CommandResult.t) : encoder unit :=
  set_kind "command_result";;
  match message with
  | Protocol.CommandResult.Accepted id revision scheduled_frame =>
      field "status" "accepted";;
      field "id" id;;
      field_int "revision" revision;;
      optional_int "scheduled_frame" scheduled_frame
  | Protocol.CommandResult.Rejected id code message fields current_revision retryable =>
      field "status" "rejected";;
      field "id" id;;
      field "code" code;;
      field "message" message;;
      field_result "fields" (field_issues fields);;
      field_int "current_revision" current_revision;;
      field_bool "retryable" retryable
  end.

(** ** State *)

Inductive StatusFields := Desired | Realized | Unqualified.
Definition manual_names (fields : StatusFields) : string * string * string * string * string * string :=
  match fields with
  | Desired =>
      ("desired_manual_active", "desired_manual_kind", "desired_manual_from", "desired_manual_to",
       "desired_manual_interval_start_basis_points", "desired_manual_position_basis_points")
  | Realized =>
      ("realized_manual_active", "realized_manual_kind", "realized_manual_from", "realized_manual_to",
       "realized_manual_interval_start_basis_points", "realized_manual_position_basis_points")
  | Unqualified =>
      ("manual_active", "manual_kind", "manual_from", "manual_to",
       "manual_interval_start_basis_points", "manual_position_basis_points")
  end.
Definition encode_manual_status (status : Protocol.ManualTransitionStatus) (fields : StatusFields) :
    encoder unit :=
  let '(active, kind, from, to, interval_start, position) := manual_names fields in
  match status with
  | Protocol.Inactive => field_int active 0
  | Protocol.Active state =>
      field_int active 1;;
      field kind (manual_kind (Protocol.manual_kind state));;
      field_int from (Protocol.manual_from state);;
      field_int to (Protocol.manual_to state);;
      field_int interval_start (Protocol.manual_interval_start state);;
      field_int position (Protocol.manual_position state)
  end.
Definition fade_names (fields : StatusFields) : string * string :=
  match fields with
  | Desired => ("desired_ftb_target_active", "desired_ftb_position_numerator")
  | Realized => ("realized_ftb_target_active", "realized_ftb_position_numerator")
  | Unqualified => ("ftb_target_active", "ftb_position_numerator")
  end.
Definition encode_fade_to_black_state (state : Protocol.FadeToBlackState) (fields : StatusFields) :
    encoder unit :=
  let '(target_active, position) := fade_names fields in
  field_bool target_active (Protocol.target_active state);;
  field_int position (Protocol.fade_position state).

(** The closure of [encode_overlays]. *)
Definition overlay_entry (field : string) (overlay : Protocol.OverlayStatus) : result CodecError string :=
  if decide (64 < length (Protocol.queued_sources overlay))%nat then Err (TooManyItems "overlay queue") else
  match first_repeat [] (Protocol.included_outputs overlay) with
  | Some output => Err (InvalidField field (pretty output))
  | None =>
      let outputs := str_join "," (pretty <$> Protocol.included_outputs overlay) in
      let queue := str_join "," (pretty <$> Protocol.queued_sources overlay) in
      Ok (str_join ":" [
        pretty (Protocol.channel overlay);
        match Protocol.source overlay with Some source => pretty source | None => "0" end;
        bit (Protocol.active overlay);
        pretty (Protocol.opacity overlay);
        overlay_transition (Protocol.overlay_transition overlay);
        pretty (Protocol.overlay_duration_frames overlay);
        overlay_position (Protocol.position overlay);
        overlay_border (Protocol.border overlay);
        queue;
        outputs])
  end.
Definition overlay_entries (name : string) (overlays : list Protocol.OverlayStatus) :
    result CodecError string :=
  if decide (length overlays ≠ 8)%nat
  then Err (InvalidField name ("expected 8 channels, found " +:+ pretty (length overlays)))
  else entries ← collect (overlay_entry name) overlays; Ok (str_join ";" entries).
Definition encode_overlays (name : string) (overlays : list Protocol.OverlayStatus) : encoder unit :=
  field_result name (overlay_entries name overlays).

Definition check_count (count : nat) (field : string) : result CodecError unit :=
  if decide (MAX_LIST_ITEMS < count)%nat then Err (TooManyItems field) else Ok tt.
Definition strip_entry (status : Protocol.InputAudioStripStatus) : string :=
  str_join ":" [
    pretty (Protocol.strip_input status);
    pretty (Protocol.gain_millidb status);
    pretty (Protocol.balance_basis_points status);
    bit (Protocol.muted status);
    bit (Protocol.soloed status);
    bit (Protocol.follow_video status);
    pretty (Protocol.delay_samples status)].
(** The ranges that both directions check. *)
Definition strip_in_range (status : Protocol.InputAudioStripStatus) : bool :=
  bool_decide (-96000 ≤ Protocol.gain_millidb status ≤ 24000 ∧
               -10000 ≤ Protocol.balance_basis_points status ≤ 10000 ∧
               Protocol.delay_samples status ≤ 48000).
Fixpoint check_strips (inputs : list InputId) (strips : list Protocol.InputAudioStripStatus) :
    result CodecError unit :=
  match strips with
  | [] => Ok tt
  | status :: strips =>
      if decide (strip_in_range status = false ∨ Protocol.strip_input status ∈ inputs)
      then Err (InvalidField "input_audio_strips" (strip_entry status))
      else check_strips (inputs ++ [Protocol.strip_input status]) strips
  end.
Definition strip_entries (strips : list Protocol.InputAudioStripStatus) : result CodecError string :=
  _ ← check_count (length strips) "input audio strips";
  _ ← check_strips [] strips;
  Ok (str_join "," (strip_entry <$> strips)).
Definition encode_input_audio_strips (strips : list Protocol.InputAudioStripStatus) : encoder unit :=
  field_result "input_audio_strips" (strip_entries strips).

Definition stinger_entry (status : Protocol.StingerStatus) : string :=
  str_join ":" [
    pretty (Protocol.slot status);
    pretty (Protocol.media_input status);
    bit (Protocol.preload status);
    pretty (Protocol.cut_point_frames status);
    audio_policy (Protocol.audio_policy status);
    missing_media_fallback (Protocol.missing_media_fallback status);
    stinger_readiness (Protocol.readiness status)].
Definition stinger_entries (stingers : list Protocol.StingerStatus) : result CodecError string :=
  if decide (8 < length stingers)%nat then Err (TooManyItems "stingers") else
  match first_repeat [] (Protocol.slot <$> stingers) with
  | Some slot => Err (InvalidField "stingers" ("duplicate slot " +:+ pretty slot))
  | None => Ok (str_join "," (stinger_entry <$> stingers))
  end.
Definition encode_stingers (stingers : list Protocol.StingerStatus) : encoder unit :=
  field_result "stingers" (stinger_entries stingers).

(** ** Snapshots and events *)

Definition encode_snapshot (message : Protocol.SnapshotMessage) : encoder unit :=
  set_kind "snapshot";;
  encode_identity (Protocol.snapshot_engine message);;
  field_int "revision" (Protocol.snapshot_revision message);;
  field "show_name" (Protocol.show_name message);;
  field_result "inputs" (input_statuses (Protocol.inputs message));;
  field_result "outputs" (output_statuses (Protocol.outputs message));;
  encode_input_audio_strips (Protocol.input_audio_strips message);;
  field_int "desired_program" (Protocol.desired_program message);;
  field_int "desired_preview" (Protocol.desired_preview message);;
  field_int "realized_program" (Protocol.realized_program message);;
  field_int "realized_preview" (Protocol.realized_preview message);;
  encode_manual_status (Protocol.desired_manual_transition message) Desired;;
  encode_manual_status (Protocol.realized_manual_transition message) Realized;;
  encode_fade_to_black_state (Protocol.desired_fade_to_black message) Desired;;
  encode_fade_to_black_state (Protocol.realized_fade_to_black message) Realized;;
  encode_stingers (Protocol.stingers message);;
  field_result "streams" (stream_statuses (Protocol.streams message));;
  field_bool "record_desired_active" (Protocol.record_desired_active message);;
  encode_overlays "desired_overlays" (Protocol.desired_overlays message);;
  encode_overlays "realized_overlays" (Protocol.realized_overlays message).

Definition encode_event_payload (payload : Protocol.EventPayload.t) : encoder unit :=
  match payload with
  | Protocol.EventPayload.InputOrderChanged inputs =>
      field "event" "input_order_changed";; field_result "inputs" (input_ids inputs)
  | Protocol.EventPayload.InputRenamed input name =>
      field "event" "input_renamed";; field_int "input" input;; field "name" name
  | Protocol.EventPayload.DesiredSwitcher program preview manual fade overlays strips =>
      field "event" "desired_switcher";;
      field_int "program" program;;
      field_int "preview" preview;;
      encode_manual_status manual Unqualified;;
      encode_fade_to_black_state fade Unqualified;;
      encode_overlays "overlays" overlays;;
      encode_input_audio_strips strips
  | Protocol.EventPayload.StingerSlotsChanged program preview manual fade stingers overlays strips =>
      field "event" "stinger_slots_changed";;
      field_int "program" program;;
      field_int "preview" preview;;
      encode_manual_status manual Unqualified;;
      encode_fade_to_black_state fade Unqualified;;
      encode_stingers stingers;;
      encode_overlays "overlays" overlays;;
      encode_input_audio_strips strips
  | Protocol.EventPayload.StreamsChanged streams =>
      field "event" "streams_changed";; field_result "streams" (stream_statuses streams)
  | Protocol.EventPayload.RecordingChanged active =>
      field "event" "recording_changed";; field_bool "active" active
  end.
Definition encode_event (message : Protocol.EventMessage) : encoder unit :=
  set_kind "event";;
  encode_cursor (Protocol.cursor message);;
  encode_event_payload (Protocol.event_payload message).

(** ** Errors, capabilities and the handshake *)

(** Lower case, digits and [_-.], at least one. *)
Definition valid_code (code : string) : bool :=
  bool_decide (code ≠ "") &&
  forallb (λ b, bool_decide (97 ≤ b ≤ 122 ∨ 48 ≤ b ≤ 57 ∨ b = 95 ∨ b = 45 ∨ b = 46)) (str_bytes code).
Definition encode_structured_error (error : Protocol.StructuredError) : encoder unit :=
  st_require (valid_code (Protocol.error_code error) = true)
    (InvalidField "code" (Protocol.error_code error));;
  field "code" (Protocol.error_code error);;
  field "message" (Protocol.error_message error);;
  field_result "fields" (field_issues (Protocol.error_fields error));;
  field_bool "retryable" (Protocol.error_retryable error).
(** [available + degraded + unavailable], in 32 bits. *)
Definition classified (summary : Protocol.CapabilityReportSummary) : option Z :=
  value ← checked U32 (Protocol.available summary + Protocol.degraded summary);
  checked U32 (value + Protocol.unavailable summary).
Definition encode_capability_summary (summary : Protocol.CapabilityReportSummary) : encoder unit :=
  st_require (classified summary = Some (Protocol.total summary))
    (InvalidField "capability_total" (pretty (Protocol.total summary)));;
  field "capability_digest" (Protocol.digest summary);;
  field_int "capability_total" (Protocol.total summary);;
  field_int "capability_available" (Protocol.available summary);;
  field_int "capability_degraded" (Protocol.degraded summary);;
  field_int "capability_unavailable" (Protocol.unavailable summary).
Definition encode_handshake_request (message : Protocol.HandshakeRequest) : encoder unit :=
  set_kind "handshake_request";;
  field "protocol" (version (Protocol.request_protocol message));;
  field "build" (Protocol.request_build message);;
  field "client_type" (client_type (Protocol.request_client_type message));;
  field "desired_role" (role (Protocol.desired_role message));;
  field_bool "resume" (is_some (Protocol.resume_cursor message));;
  match Protocol.resume_cursor message with
  | Some cursor => encode_resume_cursor cursor "resume"
  | None => mret tt
  end.
Definition encode_outcome (server : Protocol.ServerIdentity) (current_revision : Z)
    (outcome : Protocol.HandshakeOutcome) : encoder unit :=
  match outcome with
  | Protocol.OutcomeSnapshot reason =>
      field "outcome" "snapshot";; field "snapshot_reason" (snapshot_reason reason)
  | Protocol.OutcomeResume cursor =>
      st_require (¬ (Protocol.resume_server cursor ≠ server ∨
                     current_revision < Protocol.resume_revision cursor))
        (InvalidField "resume_revision" (pretty (Protocol.resume_revision cursor)));;
      field "outcome" "resume";;
      encode_resume_cursor cursor "resume"
  | Protocol.OutcomeRejected error =>
      field "outcome" "rejected";; encode_structured_error error
  end.
Definition encode_handshake_response (message : Protocol.HandshakeResponse) : encoder unit :=
  set_kind "handshake_response";;
  field "protocol" (version (Protocol.response_protocol message));;
  field "granted_role" (role (Protocol.granted_role message));;
  field_result "permissions" (string_list (Protocol.permissions message));;
  encode_capability_summary (Protocol.capabilities message);;
  encode_server_identity (Protocol.server message);;
  field_int "current_revision" (Protocol.current_revision message);;
  encode_outcome (Protocol.server message) (Protocol.current_revision message)
    (Protocol.response_outcome message).

(** ** Logs, runtime events and samples *)

(** Each event has its place in the batch. *)
Fixpoint contiguous (expected : Z) (events : list Protocol.DurableEvent) : bool :=
  match events with
  | [] => true
  | event :: events =>
      bool_decide (Protocol.durable_sequence event = expected) && contiguous (expected + 1) events
  end.
Definition encode_durable_batch (message : Protocol.DurableEventBatch) : encoder unit :=
  set_kind "durable_event_batch";;
  st_require (Protocol.batch message ≠ [] ∧ contiguous 0 (Protocol.batch message) = true)
    (InvalidField "events" "event sequences must be contiguous from zero");;
  encode_server_identity (Protocol.resume_server (Protocol.batch_cursor message));;
  field_int "revision" (Protocol.resume_revision (Protocol.batch_cursor message));;
  field_result "events" (durable_events (Protocol.batch message)).
Definition gap_invalid (gap : Protocol.DurableGap) : Prop :=
  Protocol.available_from_revision gap ≤ saturating U64 (Protocol.requested_after_revision gap + 1) ∨
  Protocol.gap_current_revision gap < Protocol.available_from_revision gap.
#[global] Instance gap_invalid_dec gap : Decision (gap_invalid gap).
Proof. unfold gap_invalid. apply _. Defined.
Definition encode_durable_gap (message : Protocol.DurableGap) : encoder unit :=
  set_kind "durable_gap";;
  st_require (¬ gap_invalid message)
    (InvalidField "available_from_revision" (pretty (Protocol.available_from_revision message)));;
  encode_server_identity (Protocol.gap_server message);;
  field_int "requested_after_revision" (Protocol.requested_after_revision message);;
  field_int "available_from_revision" (Protocol.available_from_revision message);;
  field_int "current_revision" (Protocol.gap_current_revision message).
Definition encode_lifecycle_event (event : Protocol.RuntimeLifecycleEvent.t) : encoder unit :=
  match event with
  | Protocol.RuntimeLifecycleEvent.Accepted => field "event" "accepted"
  | Protocol.RuntimeLifecycleEvent.Preparing => field "event" "preparing"
  | Protocol.RuntimeLifecycleEvent.Scheduled domains =>
      field "event" "scheduled";; field_result "domains" (runtime_domains domains)
  | Protocol.RuntimeLifecycleEvent.Realized domain manual fade =>
      field "event" "realized";;
      field "domain" domain;;
      encode_manual_status manual Unqualified;;
      encode_fade_to_black_state fade Unqualified
  | Protocol.RuntimeLifecycleEvent.Failed error disposition =>
      field "event" "failed";;
      field "disposition" (failure_disposition disposition);;
      encode_structured_error error
  | Protocol.RuntimeLifecycleEvent.Superseded by_revision =>
      field "event" "superseded";; field_int "by_revision" by_revision
  end.
Definition encode_runtime_event (message : Protocol.RuntimeEventMessage) : encoder unit :=
  set_kind "runtime_event";;
  encode_server_identity (Protocol.runtime_server message);;
  field_int "revision" (Protocol.runtime_revision message);;
  field_int "generation" (Protocol.generation message);;
  field_int "sequence" (Protocol.sequence message);;
  encode_lifecycle_event (Protocol.runtime_event message).
Definition encode_heartbeat (message : Protocol.HeartbeatMessage) : encoder unit :=
  set_kind "heartbeat";;
  encode_server_identity (Protocol.heartbeat_server message);;
  field_int "sequence" (Protocol.heartbeat_sequence message);;
  field_int "sent_at_ms" (Protocol.sent_at_ms message);;
  field_bool "applied" (is_some (Protocol.last_applied message));;
  match Protocol.last_applied message with
  | Some cursor =>
      st_require (Protocol.resume_server cursor = Protocol.heartbeat_server message)
        (InvalidField "applied_engine_id" (Protocol.server_engine_id (Protocol.resume_server cursor)));;
      encode_resume_cursor cursor "applied"
  | None => mret tt
  end.
Definition encode_heartbeat_acknowledgement (message : Protocol.HeartbeatAcknowledgementMessage) :
    encoder unit :=
  set_kind "heartbeat_acknowledgement";;
  encode_server_identity (Protocol.ack_server message);;
  field_int "heartbeat_sequence" (Protocol.ack_sequence message);;
  field_int "received_at_ms" (Protocol.received_at_ms message).

(** Identifiers increase: what the closures of the samples remember is the last one. *)
Definition not_after (previous : option Z) (id : Z) : Prop :=
  match previous with
  | Some previous => id ≤ previous
  | None => False
  end.
#[global] Instance not_after_dec previous id : Decision (not_after previous id).
Proof. destruct previous; simpl; apply _. Defined.
Definition sample_entry (previous : option Z) (sample : Protocol.StreamStatusSample) :
    result CodecError (option Z * string) :=
  let target := Protocol.sample_target sample in
  if decide (not_after previous target) then Err (InvalidField "samples" (pretty target)) else
  failure ← match Protocol.failure sample with
            | Some failure => escape_stream_failure failure
            | None => Ok ""
            end;
  Ok (Some target, str_join ":" [
    pretty target;
    stream_realized_state (Protocol.sample_realized sample);
    bit (Protocol.connected sample);
    pretty (Protocol.muxed_bytes sample);
    pretty (Protocol.enqueued_pairs sample);
    pretty (Protocol.dropped_pairs sample);
    failure]).
Definition sample_entries (samples : list Protocol.StreamStatusSample) : result CodecError string :=
  if decide (samples = []) then Err (InvalidField "samples" "empty") else
  if decide (MAX_STREAM_SAMPLES < length samples)%nat then Err (TooManyItems "samples") else
  entries ← mapM_seen sample_entry None samples;
  Ok (str_join ";" entries).
Definition encode_stream_status (message : Protocol.StreamStatusMessage) : encoder unit :=
  samples ← st_lift (sample_entries (Protocol.samples message));
  set_kind "stream_status";;
  encode_server_identity (Protocol.streams_server message);;
  field_int "sequence" (Protocol.streams_sequence message);;
  field "samples" samples.

(** [AudioMeterChannel::is_valid]. *)
Definition meter_valid (channel : Protocol.AudioMeterChannel) : bool :=
  bool_decide (Protocol.rms_millionths channel ≤ Protocol.peak_millionths channel).
Definition encode_meter_channels (channels : list Protocol.AudioMeterChannel) (field : string) :
    result CodecError string :=
  entries ← collect (λ channel,
    if meter_valid channel
    then Ok (pretty (Protocol.peak_millionths channel) +:+ ":" +:+ pretty (Protocol.rms_millionths channel))
    else Err (InvalidField field (pretty (Protocol.rms_millionths channel)))) channels;
  Ok (str_join "," entries).
Definition meter_entry (count : nat) (previous : option Z) (input : Protocol.InputAudioMeters) :
    result CodecError (option Z * string) :=
  let id := Protocol.meter_input input in
  if decide (length (Protocol.channels input) ≠ count ∨ not_after previous id)
  then Err (InvalidField "inputs" (pretty id)) else
  channels ← encode_meter_channels (Protocol.channels input) "inputs";
  Ok (Some id, pretty id +:+ "~" +:+ channels).
Definition encode_audio_meters (message : Protocol.AudioMetersMessage) : encoder unit :=
  let count := length (Protocol.master message) in
  st_require (1 ≤ count ≤ MAX_AUDIO_METER_CHANNELS)%nat (InvalidField "master" (pretty count));;
  st_require (Protocol.start_sample message < Protocol.end_sample message)
    (InvalidField "end_sample" (pretty (Protocol.end_sample message)));;
  master ← st_lift (encode_meter_channels (Protocol.master message) "master");
  inputs ← st_lift (mapM_seen (meter_entry count) None (Protocol.meter_inputs message));
  st_require (¬ MAX_LIST_ITEMS < length inputs)%nat (TooManyItems "inputs");;
  set_kind "audio_meters";;
  encode_server_identity (Protocol.meters_server message);;
  field_int "sequence" (Protocol.meters_sequence message);;
  field_int "frame" (Protocol.meters_frame message);;
  field_int "start_sample" (Protocol.start_sample message);;
  field_int "end_sample" (Protocol.end_sample message);;
  field "master" master;;
  field "inputs" (str_join ";" inputs).
Definition encode_capability_report (message : Protocol.CapabilityReportMessage) : encoder unit :=
  set_kind "capability_report";;
  encode_server_identity (Protocol.report_server message);;
  field_int "revision" (Protocol.report_revision message);;
  encode_capability_summary (Protocol.summary message).
Definition encode_diagnostics_request (message : Protocol.DiagnosticsRequest) : encoder unit :=
  set_kind "diagnostics_request";;
  field "protocol" (version (Protocol.diagnostics_protocol message));;
  st_lift (validate_request_id (Protocol.request_id message));;
  field "request_id" (Protocol.request_id message).
Definition encode_diagnostics_response (message : Protocol.DiagnosticsResponse) : encoder unit :=
  set_kind "diagnostics_response";;
  field "protocol" (version (Protocol.diagnosed_protocol message));;
  st_lift (validate_request_id (Protocol.diagnosed_request_id message));;
  field "request_id" (Protocol.diagnosed_request_id message);;
  encode_identity (Protocol.diagnosed_engine message);;
  field_int "current_revision" (Protocol.diagnosed_revision message);;
  optional_int "oldest_retained_revision" (Protocol.oldest_retained_revision message);;
  optional_int "newest_retained_revision" (Protocol.newest_retained_revision message);;
  field_int "subscriber_count" (Protocol.subscriber_count message);;
  field_int "retained_events_limit" (Protocol.retained_events_limit message);;
  field_int "subscriber_limit" (Protocol.subscriber_limit message);;
  field_int "subscriber_queue_limit" (Protocol.subscriber_queue_limit message).
Definition encode_error_message (message : Protocol.ErrorMessage) : encoder unit :=
  set_kind "error";;
  match Protocol.error_request_id message with
  | Some request_id => field "request_id" request_id
  | None => mret tt
  end;;
  optional_int "current_revision" (Protocol.error_current_revision message);;
  encode_structured_error (Protocol.message_error message).

(** ** Lines *)

Definition encode_message (message : Protocol.WireMessage.t) : encoder unit :=
  match message with
  | Protocol.WireMessage.Command m => encode_command m
  | Protocol.WireMessage.CommandResult m => encode_result m
  | Protocol.WireMessage.Snapshot m => encode_snapshot m
  | Protocol.WireMessage.Event m => encode_event m
  | Protocol.WireMessage.HandshakeRequest m => encode_handshake_request m
  | Protocol.WireMessage.HandshakeResponse m => encode_handshake_response m
  | Protocol.WireMessage.DurableEventBatch m => encode_durable_batch m
  | Protocol.WireMessage.DurableGap m => encode_durable_gap m
  | Protocol.WireMessage.RuntimeEvent m => encode_runtime_event m
  | Protocol.WireMessage.Heartbeat m => encode_heartbeat m
  | Protocol.WireMessage.HeartbeatAcknowledgement m => encode_heartbeat_acknowledgement m
  | Protocol.WireMessage.AudioMeters m => encode_audio_meters m
  | Protocol.WireMessage.StreamStatus m => encode_stream_status m
  | Protocol.WireMessage.CapabilityReport m => encode_capability_report m
  | Protocol.WireMessage.DiagnosticsRequest m => encode_diagnostics_request m
  | Protocol.WireMessage.DiagnosticsResponse m => encode_diagnostics_response m
  | Protocol.WireMessage.Error m => encode_error_message m
  end.
Definition encode_line (message : Protocol.WireMessage.t) : outcome CodecError string :=
  match encode_message message record_default with
  | (record, Ret _) =>
      match record_finish record with
      | Ok line => Ret line
      | Err e => Throw e
      end
  | (_, Throw e) => Throw e
  | (_, Panic) => Panic
  end.
