(* ===== verification/Decode.v ===== *)
(** The decoder of the wire format, [crates/foundation/fm-protocol/src/codec/decode.rs]:
    the fields of a line are a map from which each message takes its own, and what
    remains is an error; [LineDecoder] cuts a stream of bytes into lines. *)
From S2P Require Import Prelude BTree Text Types CodecValue Encode.
From S2P Require Command Protocol.
From Stdlib Require Import Ascii.
From stdpp Require Import pretty.
#[local] Open Scope Z_scope.

(** ** Fields *)

Definition Fields := btmap string string.
Abbreviation decoder := (stm Fields CodecError).

Definition valid_field_byte (byte : Z) : bool :=
  bool_decide (48 ≤ byte ≤ 57 ∨ 65 ≤ byte ≤ 90 ∨ 97 ≤ byte ≤ 122 ∨ byte = 95 ∨ byte = 45).
Definition valid_field_name (name : string) : bool :=
  bool_decide (name ≠ "") && forallb valid_field_byte (str_bytes name).
Fixpoint fields_parse (fields : Fields) (parts : list string) : result CodecError Fields :=
  match parts with
  | [] => Ok fields
  | part :: parts =>
      if decide (length fields = MAX_FIELDS_PER_MESSAGE) then Err TooManyFields else
      '(name, value) ← ok_or InvalidRecord (str_split_once "=" part);
      if decide (MAX_FIELD_NAME_BYTES < str_len name)%nat then Err FieldNameTooLong else
      if decide (MAX_FIELD_VALUE_BYTES < str_len value)%nat then Err FieldValueTooLong else
      if decide (valid_field_name name = false) then Err InvalidRecord else
      if bt_contains name fields then Err (DuplicateField name) else
      value ← unescape value;
      fields_parse (bt_insert name value fields) parts
  end.
Definition optional (name : string) : decoder (option string) :=
  fields ← st_get;
  st_put (bt_remove name fields);;
  mret (bt_get name fields).
Definition required (name : string) : decoder string :=
  value ← optional name;
  st_lift (ok_or (MissingField name) value).
(** [required], and a reading of the value: [parse], a [match] on names, a constructor
    that checks a range. *)
Definition required_as {A} (parse : string → option A) (name : string) : decoder A :=
  value ← required name;
  st_lift (ok_or (InvalidField name value) (parse value)).
(** [parse_required] of an integer type. *)
Definition parse_required (t : int_ty) (name : string) : decoder Z := required_as (parse_int t) name.
Definition parse_optional (t : int_ty) (name : string) : decoder (option Z) :=
  value ← optional name;
  match value with
  | None => mret None
  | Some value =>
      value ← st_lift (ok_or (InvalidField name value) (parse_int t value));
      mret (Some value)
  end.
Definition boolean (name : string) : decoder bool := required_as parse_bit name.
Definition input (name : string) : decoder InputId := required_as parse_input name.
(** [required], and a list that reports its own errors. *)
Definition required_list {A} (parse : string → result CodecError A) (name : string) : decoder A :=
  value ← required name;
  st_lift (parse value).
Definition fields_finish (fields : Fields) : result CodecError unit :=
  match bt_keys fields with
  | [] => Ok tt
  | name :: _ => Err (UnknownField name)
  end.

(** ** Names of enumerations *)

Definition parse_manual_kind (value : string) : option Protocol.ManualTransitionKind :=
  match value with
  | "fade" => Some Protocol.ManualFade
  | "wipe" => Some Protocol.ManualWipe
  | "alpha_fade" => Some Protocol.ManualAlphaFade
  | "slide" => Some Protocol.ManualSlide
  | _ => None
  end.
Definition decode_overlay_transition (value : string) : option Protocol.OverlayTransitionKind :=
  match value with
  | "cut" => Some Protocol.OverlayCut
  | "fade" => Some Protocol.OverlayFade
  | _ => None
  end.
Definition decode_overlay_position (value : string) : option Protocol.OverlayPositionPreset :=
  match value with
  | "full_frame" => Some Protocol.FullFrame
  | "top_left" => Some Protocol.TopLeft
  | "top_right" => Some Protocol.TopRight
  | "bottom_left" => Some Protocol.BottomLeft
  | "bottom_right" => Some Protocol.BottomRight
  | _ => None
  end.
Definition decode_overlay_border (value : string) : option Protocol.OverlayBorderPreset :=
  match value with
  | "none" => Some Protocol.NoBorder
  | "thin_white" => Some Protocol.ThinWhite
  | "thick_white" => Some Protocol.ThickWhite
  | _ => None
  end.
Definition parse_audio_policy (value : string) : option Protocol.StingerAudioPolicy :=
  match value with
  | "muted" => Some Protocol.Muted
  | "stinger_only" => Some Protocol.StingerOnly
  | "mix_with_program" => Some Protocol.MixWithProgram
  | _ => None
  end.
Definition parse_missing_media_fallback (value : string) : option Protocol.StingerMissingMediaFallback :=
  match value with
  | "cut" => Some Protocol.FallbackCut
  | "fade" => Some Protocol.FallbackFade
  | "keep_program" => Some Protocol.KeepProgram
  | _ => None
  end.
Definition parse_stinger_readiness (value : string) : option Protocol.StingerReadiness :=
  match value with
  | "not_requested" => Some Protocol.NotRequested
  | "ready" => Some Protocol.Ready
  | "missing" => Some Protocol.Missing
  | _ => None
  end.
Definition parse_snapshot_reason (value : string) : option Protocol.SnapshotReason :=
  match value with
  | "no_cursor" => Some Protocol.NoCursor
  | "identity_changed" => Some Protocol.IdentityChanged
  | "cursor_ahead" => Some Protocol.CursorAhead
  | "history_unavailable" => Some Protocol.HistoryUnavailable
  | _ => None
  end.
Definition parse_failure_disposition (value : string) : option Protocol.RuntimeFailureDisposition :=
  match value with
  | "rolled_back" => Some Protocol.RolledBack
  | "retained_for_retry" => Some Protocol.RetainedForRetry
  | "fallback_realized" => Some Protocol.FallbackRealized
  | _ => None
  end.

(** ** Identities *)

Definition decode_identity : decoder Protocol.EngineIdentity :=
  engine_id ← required "engine_id";
  state_epoch ← parse_required U64 "state_epoch";
  log_id ← required "log_id";
  mret (Protocol.mk_identity engine_id state_epoch log_id).
Definition decode_cursor : decoder Protocol.EventCursor :=
  engine ← decode_identity;
  revision ← parse_required U64 "revision";
  mret (Protocol.mk_cursor engine revision).
Definition decode_server_identity : decoder Protocol.ServerIdentity :=
  engine_id ← required "engine_id";
  project_id ← required "project_id";
  state_epoch ← parse_required U64 "state_epoch";
  log_id ← required "log_id";
  mret (Protocol.mk_server engine_id project_id state_epoch log_id).
Definition decode_resume_cursor (prefix : string) : decoder Protocol.ResumeCursor :=
  '(engine, project, epoch, log, revision) ← st_expect (cursor_names prefix);
  engine_id ← required engine;
  project_id ← required project;
  state_epoch ← parse_required U64 epoch;
  log_id ← required log;
  revision ← parse_required U64 revision;
  mret (Protocol.mk_resume (Protocol.mk_server engine_id project_id state_epoch log_id) revision).

(** ** Commands *)

(** [parse_required] of a byte, and its range. *)
Definition parse_numbered (new : Z → option Z) (name : string) : decoder Z :=
  number ← parse_required U8 name;
  st_lift (ok_or (InvalidField name (pretty number)) (new number)).
Definition decode_stinger_slot : decoder Z := parse_numbered Protocol.wire_slot_new "slot".
Definition decode_overlay_channel : decoder Z := parse_numbered Protocol.wire_channel_new "channel".
Definition decode_output (name : string) : decoder OutputId := required_as parse_input name.
Definition decode_stream_target : decoder Z := required_as parse_input "target".
Definition overlay_duration_valid (duration_frames : Z) : bool :=
  bool_decide (1 ≤ duration_frames ≤ 3600).
Definition validate_overlay_duration (duration_frames : Z) (field : string) : result CodecError unit :=
  if overlay_duration_valid duration_frames then Ok tt
  else Err (InvalidField field (pretty duration_frames)).

Module Payload.
Import Protocol.CommandPayload.
Definition decode_overlay_command (name : string) : decoder t :=
  channel ← decode_overlay_channel;
  match name with
  | "overlay_take" => source ← input "source"; mret (TakeOverlay channel source)
  | "overlay_update" => source ← input "source"; mret (UpdateOverlay channel source)
  | "overlay_off" => mret (OverlayOff channel)
  | "overlay_output" =>
      output ← decode_output "output";
      included ← boolean "included";
      mret (SetOverlayOutputInclusion channel output included)
  | "overlay_transition" =>
      transition ← required_as decode_overlay_transition "transition";
      duration_frames ← parse_required U32 "duration_frames";
      st_lift (validate_overlay_duration duration_frames "duration_frames");;
      mret (ConfigureOverlayTransition channel transition duration_frames)
  | "overlay_appearance" =>
      position ← required_as decode_overlay_position "position";
      border ← required_as decode_overlay_border "border";
      mret (ConfigureOverlayAppearance channel position border)
  | "overlay_queue" => source ← input "source"; mret (QueueOverlay channel source)
  | "overlay_next" => mret (TakeNextOverlay channel)
  | _ => st_panic
  end.
Definition decode_configure_stinger : decoder t :=
  audio_policy ← required "audio_policy";
  missing_media_fallback ← required "missing_media_fallback";
  slot ← decode_stinger_slot;
  media_input ← input "media_input";
  preload ← boolean "preload";
  cut_point_frames ← parse_required U32 "cut_point_frames";
  policy ← st_lift (ok_or (InvalidField "audio_policy" audio_policy) (parse_audio_policy audio_policy));
  fallback ← st_lift (ok_or (InvalidField "missing_media_fallback" missing_media_fallback)
                        (parse_missing_media_fallback missing_media_fallback));
  mret (ConfigureStinger slot media_input preload cut_point_frames policy fallback).
Definition decode_stream_command (name : string) : decoder t :=
  target ← decode_stream_target;
  match name with
  | "stream_start" => mret (StreamStart target)
  | "stream_stop" => mret (StreamStop target)
  | _ => st_panic
  end.
Definition decode_command_payload (payload_name : string) : decoder t :=
  match payload_name with
  | "input_reorder" => inputs ← required_list parse_input_ids "inputs"; mret (ReorderInputs inputs)
  | "input_rename" =>
      i ← input "input";
      name ← required "name";
      mret (RenameInput i name)
  | "input_audio_strip" =>
      i ← input "input";
      gain_millidb ← parse_required I32 "gain_millidb";
      balance_basis_points ← parse_required I32 "balance_basis_points";
      muted ← boolean "muted";
      soloed ← boolean "soloed";
      follow_video ← boolean "follow_video";
      delay_samples ← parse_required U32 "delay_samples";
      mret (SetInputAudioStrip i gain_millidb balance_basis_points muted soloed follow_video delay_samples)
  | "select_preview" => i ← input "input"; mret (SelectPreview i)
  | "cut" => mret Cut
  | "fade" => duration_frames ← parse_required U32 "duration_frames"; mret (Fade duration_frames)
  | "alpha_fade" => duration_frames ← parse_required U32 "duration_frames"; mret (AlphaFade duration_frames)
  | "slide" => duration_frames ← parse_required U32 "duration_frames"; mret (Slide duration_frames)
  | "zoom" => duration_frames ← parse_required U32 "duration_frames"; mret (Zoom duration_frames)
  | "stinger" =>
      slot ← decode_stinger_slot;
      duration_frames ← parse_required U32 "duration_frames";
      mret (Stinger slot duration_frames)
  | "configure_stinger" => decode_configure_stinger
  | "remove_stinger" => slot ← decode_stinger_slot; mret (RemoveStinger slot)
  | "overlay_take" | "overlay_update" | "overlay_off" | "overlay_output"
  | "overlay_transition" | "overlay_appearance" | "overlay_queue" | "overlay_next" =>
      decode_overlay_command payload_name
  | "stream_start" | "stream_stop" => decode_stream_command payload_name
  | "record_start" => mret RecordStart
  | "record_stop" => mret RecordStop
  | "wipe" => duration_frames ← parse_required U32 "duration_frames"; mret (Wipe duration_frames)
  | "fade_to_black" =>
      active ← boolean "active";
      duration_frames ← parse_required U32 "duration_frames";
      mret (FadeToBlack active duration_frames)
  | "manual_start" =>
      kind ← required_as parse_manual_kind "transition";
      mret (StartManualTransition kind)
  | "manual_position" =>
      position ← required_as (λ value, parse_int U16 value ≫= Protocol.manual_position_new)
                   "position_basis_points";
      mret (SetManualTransitionPosition position)
  | "manual_commit" => mret CommitManualTransition
  | "manual_cancel" => mret CancelManualTransition
  | _ => mthrow (InvalidField "payload" payload_name)
  end.
End Payload.
Definition decode_command : decoder Protocol.CommandMessage :=
  protocol ← required_as parse_version "protocol";
  payload_name ← required "payload";
  payload ← Payload.decode_command_payload payload_name;
  id ← required "id";
  idempotency_key ← required "idempotency_key";
  expected_revision ← parse_optional U64 "expected_revision";
  deadline_ms ← parse_optional U64 "deadline_ms";
  mret (Protocol.mk_command protocol id idempotency_key expected_revision deadline_ms payload).
Definition decode_result : decoder Protocol.CommandResult.t :=
  status ← required "status";
  match status with
  | "accepted" =>
      id ← required "id";
      revision ← parse_required U64 "revision";
      scheduled_frame ← parse_optional U64 "scheduled_frame";
      mret (Protocol.CommandResult.Accepted id revision scheduled_frame)
  | "rejected" =>
      id ← required "id";
      code ← required "code";
      message ← required "message";
      fields ← required_list parse_field_issues "fields";
      current_revision ← parse_required U64 "current_revision";
      retryable ← boolean "retryable";
      mret (Protocol.CommandResult.Rejected id code message fields current_revision retryable)
  | _ => mthrow (InvalidField "status" status)
  end.

(** ** State *)

Definition decode_strip (inputs : list InputId) (entry : string) :
    result CodecError (list InputId * Protocol.InputAudioStripStatus) :=
  let invalid := InvalidField "input_audio_strips" entry in
  match str_split ":" entry with
  | [input; gain_millidb; balance_basis_points; muted; soloed; follow_video; delay_samples] =>
      input ← ok_or invalid (parse_input input);
      gain_millidb ← ok_or invalid (parse_int I32 gain_millidb);
      balance_basis_points ← ok_or invalid (parse_int I32 balance_basis_points);
      muted ← ok_or invalid (parse_bit muted);
      soloed ← ok_or invalid (parse_bit soloed);
      follow_video ← ok_or invalid (parse_bit follow_video);
      delay_samples ← ok_or invalid (parse_int U32 delay_samples);
      let status := Protocol.mk_strip_status input gain_millidb balance_basis_points muted soloed
                      follow_video delay_samples in
      if decide (strip_in_range status = false ∨ input ∈ inputs) then Err invalid
      else Ok (inputs ++ [input], status)
  | _ => Err invalid
  end.
Definition parse_strips (value : string) : result CodecError (list Protocol.InputAudioStripStatus) :=
  if decide (value = "" ∨ (MAX_LIST_ITEMS < length (take (S MAX_LIST_ITEMS) (str_split "," value)))%nat)
  then Err (InvalidField "input_audio_strips" value)
  else mapM_seen decode_strip [] (str_split "," value).
Definition decode_input_audio_strips : decoder (list Protocol.InputAudioStripStatus) :=
  required_list parse_strips "input_audio_strips".

(** [l.map(parse).collect::<Option<Vec<_>>>()]. *)
Fixpoint collect_some {A B} (f : A → option B) (l : list A) : option (list B) :=
  match l with
  | [] => Some []
  | x :: l => y ← f x; rest ← collect_some f l; Some (y :: rest)
  end.
Definition decode_overlay_queue (value entry field : string) : result CodecError (list InputId) :=
  if decide (value = "") then Ok [] else
  values ← ok_or (InvalidField field entry) (collect_some parse_input (str_split "," value));
  if decide (64 < length values)%nat then Err (TooManyItems "overlay queue") else Ok values.
Definition decode_overlay_included_outputs (outputs entry field : string) :
    result CodecError (list OutputId) :=
  if decide (outputs = "") then Ok [] else
  included_outputs ← ok_or (InvalidField field entry) (collect_some parse_input (str_split "," outputs));
  match first_repeat [] included_outputs with
  | Some _ => Err (InvalidField field entry)
  | None => Ok included_outputs
  end.
(** No source is written [0]. *)
Definition parse_overlay_source (source : string) : option (option InputId) :=
  if decide (source = "0") then Some None else Some <$> parse_input source.
Definition decode_overlay_status (field : string) (seen : list Z) (entry : string) :
    result CodecError (list Z * Protocol.OverlayStatus) :=
  let invalid := InvalidField field entry in
  match str_split ":" entry with
  | [channel; source; active; opacity; transition; duration_frames; position; border; queue; outputs] =>
      channel ← ok_or invalid (parse_int U8 channel ≫= Protocol.wire_channel_new);
      if decide (channel ∈ seen) then Err invalid else
      source ← ok_or invalid (parse_overlay_source source);
      active ← ok_or invalid (parse_bit active);
      opacity ← ok_or invalid (parse_int U8 opacity);
      transition ← ok_or (InvalidField field transition) (decode_overlay_transition transition);
      duration_frames ← ok_or invalid (parse_int U32 duration_frames);
      _ ← validate_overlay_duration duration_frames field;
      position ← ok_or (InvalidField field position) (decode_overlay_position position);
      border ← ok_or (InvalidField field border) (decode_overlay_border border);
      queued_sources ← decode_overlay_queue queue entry field;
      included_outputs ← decode_overlay_included_outputs outputs entry field;
      Ok (seen ++ [channel], Protocol.mk_overlay_status channel source active opacity transition
                               duration_frames position border queued_sources included_outputs)
  | _ => Err invalid
  end.
Definition parse_overlays (field value : string) : result CodecError (list Protocol.OverlayStatus) :=
  let entries := str_split ";" value in
  if decide (length entries ≠ 8)%nat then Err (InvalidField field value)
  else mapM_seen (decode_overlay_status field) [] entries.
Definition decode_overlays (field : string) : decoder (list Protocol.OverlayStatus) :=
  required_list (parse_overlays field) field.

Definition decode_stinger_status (entry : string) : option Protocol.StingerStatus :=
  match str_split ":" entry with
  | [slot; media_input; preload; cut_point_frames; audio_policy; fallback; readiness] =>
      slot ← parse_int U8 slot;
      slot ← Protocol.wire_slot_new slot;
      media_input ← parse_input media_input;
      preload ← parse_bit preload;
      cut_point_frames ← parse_int U32 cut_point_frames;
      audio_policy ← parse_audio_policy audio_policy;
      fallback ← parse_missing_media_fallback fallback;
      readiness ← parse_stinger_readiness readiness;
      Some (Protocol.mk_stinger_status slot media_input preload cut_point_frames audio_policy fallback
              readiness)
  | _ => None
  end.
Definition parse_stingers (value : string) : result CodecError (list Protocol.StingerStatus) :=
  if decide (value = "") then Ok [] else
  let entries := str_split "," value in
  if decide (8 < length entries)%nat then Err (TooManyItems "stingers") else
  mapM_seen (λ seen entry,
    status ← ok_or (InvalidField "stingers" value) (decode_stinger_status entry);
    if decide (Protocol.slot status ∈ seen) then Err (InvalidField "stingers" value)
    else Ok (seen ++ [Protocol.slot status], status)) [] entries.
Definition decode_stingers : decoder (list Protocol.StingerStatus) :=
  required_list parse_stingers "stingers".

Definition decode_manual_status (names : StatusFields) : decoder Protocol.ManualTransitionStatus :=
  let '(active, kind, from, to, interval_start, position) := manual_names names in
  active_value ← boolean active;
  if negb active_value then mret Protocol.Inactive else
  kind ← required_as parse_manual_kind kind;
  from_input ← required_as parse_input from;
  to_input ← required_as parse_input to;
  interval_value ← parse_required U16 interval_start;
  interval_start_position ←
    st_lift (ok_or (InvalidField interval_start (pretty interval_value))
               (Protocol.manual_position_new interval_value));
  position_value ← parse_required U16 position;
  exact_position ←
    st_lift (ok_or (InvalidField position (pretty position_value))
               (Protocol.manual_position_new position_value));
  mret (Protocol.Active (Protocol.mk_manual kind from_input to_input interval_start_position
                           exact_position)).
Definition decode_fade_to_black_state (names : StatusFields) : decoder Protocol.FadeToBlackState :=
  let '(target_active, position) := fade_names names in
  target_active ← boolean target_active;
  position ← parse_required U16 position;
  mret (Protocol.mk_fade_state target_active position).

(** ** Snapshots and events *)

Definition decode_snapshot : decoder Protocol.SnapshotMessage :=
  inputs ← required_list parse_input_statuses "inputs";
  engine ← decode_identity;
  revision ← parse_required U64 "revision";
  show_name ← required "show_name";
  outputs ← required_list parse_output_statuses "outputs";
  input_audio_strips ← decode_input_audio_strips;
  desired_program ← input "desired_program";
  desired_preview ← input "desired_preview";
  realized_program ← input "realized_program";
  realized_preview ← input "realized_preview";
  desired_manual_transition ← decode_manual_status Desired;
  realized_manual_transition ← decode_manual_status Realized;
  desired_fade_to_black ← decode_fade_to_black_state Desired;
  realized_fade_to_black ← decode_fade_to_black_state Realized;
  stingers ← decode_stingers;
  streams ← required_list parse_stream_statuses "streams";
  record_desired_active ← boolean "record_desired_active";
  desired_overlays ← decode_overlays "desired_overlays";
  realized_overlays ← decode_overlays "realized_overlays";
  mret (Protocol.mk_snapshot_message engine revision show_name inputs outputs input_audio_strips
    desired_program desired_preview realized_program realized_preview
    desired_manual_transition realized_manual_transition desired_fade_to_black realized_fade_to_black
    stingers streams record_desired_active desired_overlays realized_overlays).
Definition decode_event_payload (event : string) : decoder Protocol.EventPayload.t :=
  match event with
  | "input_order_changed" =>
      inputs ← required_list parse_input_ids "inputs";
      mret (Protocol.EventPayload.InputOrderChanged inputs)
  | "input_renamed" =>
      i ← input "input";
      name ← required "name";
      mret (Protocol.EventPayload.InputRenamed i name)
  | "desired_switcher" =>
      program ← input "program";
      preview ← input "preview";
      manual_transition ← decode_manual_status Unqualified;
      fade_to_black ← decode_fade_to_black_state Unqualified;
      overlays ← decode_overlays "overlays";
      strips ← decode_input_audio_strips;
      mret (Protocol.EventPayload.DesiredSwitcher program preview manual_transition fade_to_black
              overlays strips)
  | "stinger_slots_changed" =>
      program ← input "program";
      preview ← input "preview";
      manual_transition ← decode_manual_status Unqualified;
      fade_to_black ← decode_fade_to_black_state Unqualified;
      stingers ← decode_stingers;
      overlays ← decode_overlays "overlays";
      strips ← decode_input_audio_strips;
      mret (Protocol.EventPayload.StingerSlotsChanged program preview manual_transition fade_to_black
              stingers overlays strips)
  | "streams_changed" =>
      streams ← required_list parse_stream_statuses "streams";
      mret (Protocol.EventPayload.StreamsChanged streams)
  | "recording_changed" =>
      active ← boolean "active";
      mret (Protocol.EventPayload.RecordingChanged active)
  | _ => mthrow (InvalidField "event" event)
  end.
Definition decode_event : decoder Protocol.EventMessage :=
  event ← required "event";
  payload ← decode_event_payload event;
  cursor ← decode_cursor;
  mret (Protocol.mk_event_message cursor payload).

(** ** Errors, capabilities and the handshake *)

Definition decode_structured_error : decoder Protocol.StructuredError :=
  code ← required "code";
  message ← required "message";
  fields ← required_list parse_field_issues "fields";
  retryable ← boolean "retryable";
  st_require (valid_code code = true) (InvalidField "code" code);;
  mret (Protocol.mk_error code message fields retryable).
Definition decode_capability_summary : decoder Protocol.CapabilityReportSummary :=
  digest ← required "capability_digest";
  total ← parse_required U32 "capability_total";
  available ← parse_required U32 "capability_available";
  degraded ← parse_required U32 "capability_degraded";
  unavailable ← parse_required U32 "capability_unavailable";
  let summary := Protocol.mk_capability_summary digest total available degraded unavailable in
  st_require (classified summary = Some total) (InvalidField "capability_total" (pretty total));;
  mret summary.
Definition decode_handshake_request : decoder Protocol.HandshakeRequest :=
  protocol ← required_as parse_version "protocol";
  client_type ← required_as parse_client_type "client_type";
  desired_role ← required_as parse_role "desired_role";
  resume ← boolean "resume";
  resume_cursor ← (if resume : bool then cursor ← decode_resume_cursor "resume"; mret (Some cursor)
                   else mret None);
  build ← required "build";
  mret (Protocol.mk_handshake_request protocol build client_type desired_role resume_cursor).
Definition decode_outcome (server : Protocol.ServerIdentity) (current_revision : Z) (outcome : string) :
    decoder Protocol.HandshakeOutcome :=
  match outcome with
  | "snapshot" =>
      reason ← required_as parse_snapshot_reason "snapshot_reason";
      mret (Protocol.OutcomeSnapshot reason)
  | "resume" =>
      cursor ← decode_resume_cursor "resume";
      st_require (¬ (Protocol.resume_server cursor ≠ server ∨
                     current_revision < Protocol.resume_revision cursor))
        (InvalidField "resume_revision" (pretty (Protocol.resume_revision cursor)));;
      mret (Protocol.OutcomeResume cursor)
  | "rejected" => error ← decode_structured_error; mret (Protocol.OutcomeRejected error)
  | _ => mthrow (InvalidField "outcome" outcome)
  end.
Definition decode_handshake_response : decoder Protocol.HandshakeResponse :=
  protocol ← required_as parse_version "protocol";
  granted_role ← required_as parse_role "granted_role";
  permissions ← required_list parse_string_list "permissions";
  capabilities ← decode_capability_summary;
  server ← decode_server_identity;
  current_revision ← parse_required U64 "current_revision";
  outcome_value ← required "outcome";
  outcome ← decode_outcome server current_revision outcome_value;
  mret (Protocol.mk_handshake_response protocol granted_role permissions capabilities server
          current_revision outcome).

(** ** Logs, runtime events and samples *)

Definition decode_durable_batch : decoder Protocol.DurableEventBatch :=
  server ← decode_server_identity;
  revision ← parse_required U64 "revision";
  events_value ← required "events";
  events ← st_lift (parse_durable_events events_value);
  st_require (contiguous 0 events = true) (InvalidField "events" events_value);;
  mret (Protocol.mk_batch (Protocol.mk_resume server revision) events).
Definition decode_durable_gap : decoder Protocol.DurableGap :=
  server ← decode_server_identity;
  requested_after_revision ← parse_required U64 "requested_after_revision";
  available_from_revision ← parse_required U64 "available_from_revision";
  current_revision ← parse_required U64 "current_revision";
  let gap := Protocol.mk_gap server requested_after_revision available_from_revision current_revision in
  st_require (¬ gap_invalid gap)
    (InvalidField "available_from_revision" (pretty available_from_revision));;
  mret gap.
Definition decode_lifecycle_event (event : string) : decoder Protocol.RuntimeLifecycleEvent.t :=
  match event with
  | "accepted" => mret Protocol.RuntimeLifecycleEvent.Accepted
  | "preparing" => mret Protocol.RuntimeLifecycleEvent.Preparing
  | "scheduled" =>
      domains ← required_list parse_runtime_domains "domains";
      mret (Protocol.RuntimeLifecycleEvent.Scheduled domains)
  | "realized" =>
      domain ← required "domain";
      manual_transition ← decode_manual_status Unqualified;
      fade_to_black ← decode_fade_to_black_state Unqualified;
      mret (Protocol.RuntimeLifecycleEvent.Realized domain manual_transition fade_to_black)
  | "failed" =>
      disposition ← required_as parse_failure_disposition "disposition";
      error ← decode_structured_error;
      mret (Protocol.RuntimeLifecycleEvent.Failed error disposition)
  | "superseded" =>
      by_revision ← parse_required U64 "by_revision";
      mret (Protocol.RuntimeLifecycleEvent.Superseded by_revision)
  | _ => mthrow (InvalidField "event" event)
  end.
Definition decode_runtime_event : decoder Protocol.RuntimeEventMessage :=
  server ← decode_server_identity;
  revision ← parse_required U64 "revision";
  generation ← parse_required U64 "generation";
  sequence ← parse_required U64 "sequence";
  event_value ← required "event";
  event ← decode_lifecycle_event event_value;
  mret (Protocol.mk_runtime_event server revision generation sequence event).
Definition decode_heartbeat : decoder Protocol.HeartbeatMessage :=
  server ← decode_server_identity;
  sequence ← parse_required U64 "sequence";
  sent_at_ms ← parse_required U64 "sent_at_ms";
  applied ← boolean "applied";
  last_applied ←
    (if applied : bool then
       cursor ← decode_resume_cursor "applied";
       st_require (Protocol.resume_server cursor = server)
         (InvalidField "applied_engine_id" (Protocol.server_engine_id (Protocol.resume_server cursor)));;
       mret (Some cursor)
     else mret None);
  mret (Protocol.mk_heartbeat server sequence sent_at_ms last_applied).
Definition decode_heartbeat_acknowledgement : decoder Protocol.HeartbeatAcknowledgementMessage :=
  server ← decode_server_identity;
  heartbeat_sequence ← parse_required U64 "heartbeat_sequence";
  received_at_ms ← parse_required U64 "received_at_ms";
  mret (Protocol.mk_heartbeat_ack server heartbeat_sequence received_at_ms).
Definition decode_sample (previous : option Z) (entry : string) :
    result CodecError (option Z * Protocol.StreamStatusSample) :=
  let invalid := InvalidField "samples" entry in
  match str_split ":" entry with
  | [target; realized; connected; muxed_bytes; enqueued_pairs; dropped_pairs; failure] =>
      target ← ok_or invalid (parse_input target);
      if decide (not_after previous target) then Err invalid else
      realized ← ok_or invalid (parse_stream_realized_state realized);
      connected ← ok_or invalid (parse_bit connected);
      failure ← (if decide (failure = "") then Ok None else
        failure ← unescape failure;
        if decide (MAX_STREAM_DETAIL_BYTES < str_len failure)%nat then Err invalid
        else Ok (Some failure));
      muxed_bytes ← ok_or invalid (parse_int U64 muxed_bytes);
      enqueued_pairs ← ok_or invalid (parse_int U64 enqueued_pairs);
      dropped_pairs ← ok_or invalid (parse_int U64 dropped_pairs);
      Ok (Some target, Protocol.mk_stream_sample target realized connected muxed_bytes enqueued_pairs
                         dropped_pairs failure)
  | _ => Err invalid
  end.
Definition parse_samples (value : string) : result CodecError (list Protocol.StreamStatusSample) :=
  if decide (value = "") then Err (InvalidField "samples" value) else
  let entries := str_split ";" value in
  if decide (MAX_STREAM_SAMPLES < length entries)%nat then Err (TooManyItems "samples")
  else mapM_seen decode_sample None entries.
Definition decode_stream_status : decoder Protocol.StreamStatusMessage :=
  server ← decode_server_identity;
  sequence ← parse_required U64 "sequence";
  samples ← required_list parse_samples "samples";
  mret (Protocol.mk_stream_message server sequence samples).

Definition decode_meter_channels (value field : string) : result CodecError (list Protocol.AudioMeterChannel) :=
  let channels := str_split "," value in
  let invalid := InvalidField field value in
  if decide (value = "" ∨ (MAX_AUDIO_METER_CHANNELS < length channels)%nat) then Err invalid else
  collect (λ channel,
    '(peak, rms) ← ok_or invalid (str_split_once ":" channel);
    peak_millionths ← ok_or invalid (parse_int U32 peak);
    rms_millionths ← ok_or invalid (parse_int U32 rms);
    let channel := Protocol.mk_meter peak_millionths rms_millionths in
    if meter_valid channel then Ok channel else Err invalid) channels.
Definition decode_meter_input (value : string) (count : nat) (previous : option Z) (entry : string) :
    result CodecError (option Z * Protocol.InputAudioMeters) :=
  let invalid := InvalidField "inputs" value in
  '(input, channels) ← ok_or invalid (str_split_once "~" entry);
  input ← ok_or invalid (parse_input input);
  channels ← decode_meter_channels channels "inputs";
  if decide (length channels ≠ count ∨ not_after previous input) then Err invalid
  else Ok (Some input, Protocol.mk_input_meters input channels).
Definition parse_meter_inputs (count : nat) (value : string) :
    result CodecError (list Protocol.InputAudioMeters) :=
  if decide (value = "") then Ok [] else
  let entries := str_split ";" value in
  if decide (MAX_LIST_ITEMS < length entries)%nat then Err (TooManyItems "inputs")
  else mapM_seen (decode_meter_input value count) None entries.
Definition decode_audio_meters : decoder Protocol.AudioMetersMessage :=
  server ← decode_server_identity;
  sequence ← parse_required U64 "sequence";
  frame ← parse_required U64 "frame";
  start_sample ← parse_required U64 "start_sample";
  end_sample ← parse_required U64 "end_sample";
  master_value ← required "master";
  master ← st_lift (decode_meter_channels master_value "master");
  st_require (1 ≤ length master ≤ MAX_AUDIO_METER_CHANNELS)%nat (InvalidField "master" master_value);;
  st_require (start_sample < end_sample) (InvalidField "end_sample" (pretty end_sample));;
  inputs ← required_list (parse_meter_inputs (length master)) "inputs";
  mret (Protocol.mk_meters server sequence frame start_sample end_sample master inputs).
Definition decode_capability_report : decoder Protocol.CapabilityReportMessage :=
  server ← decode_server_identity;
  revision ← parse_required U64 "revision";
  summary ← decode_capability_summary;
  mret (Protocol.mk_capability_report server revision summary).
Definition decode_diagnostics_request : decoder Protocol.DiagnosticsRequest :=
  protocol ← required "protocol";
  request_id ← required "request_id";
  st_lift (validate_request_id request_id);;
  protocol ← st_lift (ok_or (InvalidField "protocol" protocol) (parse_version protocol));
  mret (Protocol.mk_diagnostics_request protocol request_id).
Definition decode_diagnostics_response : decoder Protocol.DiagnosticsResponse :=
  protocol ← required "protocol";
  request_id ← required "request_id";
  st_lift (validate_request_id request_id);;
  protocol ← st_lift (ok_or (InvalidField "protocol" protocol) (parse_version protocol));
  engine ← decode_identity;
  current_revision ← parse_required U64 "current_revision";
  oldest_retained_revision ← parse_optional U64 "oldest_retained_revision";
  newest_retained_revision ← parse_optional U64 "newest_retained_revision";
  subscriber_count ← parse_required U32 "subscriber_count";
  retained_events_limit ← parse_required U32 "retained_events_limit";
  subscriber_limit ← parse_required U32 "subscriber_limit";
  subscriber_queue_limit ← parse_required U32 "subscriber_queue_limit";
  mret (Protocol.mk_diagnostics_response protocol request_id engine current_revision
          oldest_retained_revision newest_retained_revision subscriber_count retained_events_limit
          subscriber_limit subscriber_queue_limit).
Definition decode_error_message : decoder Protocol.ErrorMessage :=
  request_id ← optional "request_id";
  current_revision ← parse_optional U64 "current_revision";
  error ← decode_structured_error;
  mret (Protocol.mk_error_message request_id current_revision error).

(** ** Lines *)

Definition decode_message (kind : string) : decoder Protocol.WireMessage.t :=
  match kind with
  | "command" => m ← decode_command; mret (Protocol.WireMessage.Command m)
  | "command_result" => m ← decode_result; mret (Protocol.WireMessage.CommandResult m)
  | "snapshot" => m ← decode_snapshot; mret (Protocol.WireMessage.Snapshot m)
  | "event" => m ← decode_event; mret (Protocol.WireMessage.Event m)
  | "handshake_request" => m ← decode_handshake_request; mret (Protocol.WireMessage.HandshakeRequest m)
  | "handshake_response" => m ← decode_handshake_response; mret (Protocol.WireMessage.HandshakeResponse m)
  | "durable_event_batch" => m ← decode_durable_batch; mret (Protocol.WireMessage.DurableEventBatch m)
  | "durable_gap" => m ← decode_durable_gap; mret (Protocol.WireMessage.DurableGap m)
  | "runtime_event" => m ← decode_runtime_event; mret (Protocol.WireMessage.RuntimeEvent m)
  | "heartbeat" => m ← decode_heartbeat; mret (Protocol.WireMessage.Heartbeat m)
  | "heartbeat_acknowledgement" =>
      m ← decode_heartbeat_acknowledgement; mret (Protocol.WireMessage.HeartbeatAcknowledgement m)
  | "audio_meters" => m ← decode_audio_meters; mret (Protocol.WireMessage.AudioMeters m)
  | "stream_status" => m ← decode_stream_status; mret (Protocol.WireMessage.StreamStatus m)
  | "capability_report" => m ← decode_capability_report; mret (Protocol.WireMessage.CapabilityReport m)
  | "diagnostics_request" => m ← decode_diagnostics_request; mret (Protocol.WireMessage.DiagnosticsRequest m)
  | "diagnostics_response" =>
      m ← decode_diagnostics_response; mret (Protocol.WireMessage.DiagnosticsResponse m)
  | "error" => m ← decode_error_message; mret (Protocol.WireMessage.Error m)
  | _ => mthrow (UnknownMessage kind)
  end.
(** [line.strip_suffix('\n')]. *)
Fixpoint strip_newline (line : string) : option string :=
  match line with
  | EmptyString => None
  | String c rest =>
      if decide (rest = "") then if decide (c = "010"%char) then Some "" else None
      else String c <$> strip_newline rest
  end.
Definition decode_line (line : string) : outcome CodecError Protocol.WireMessage.t :=
  if decide (MAX_LINE_BYTES < str_len line)%nat then Throw LineTooLong else
  match strip_newline line with
  | None => Throw MissingNewline
  | Some record =>
      if negb (lacks "010" record && lacks "013" record) then Throw MultipleLines else
      match str_split "009" record with
      | kind :: parts =>
          if decide (kind = "") then Throw InvalidRecord else
          match fields_parse [] parts with
          | Err e => Throw e
          | Ok fields =>
              match decode_message kind fields with
              | (fields, Ret message) =>
                  match fields_finish fields with
                  | Ok _ => Ret message
                  | Err e => Throw e
                  end
              | (_, r) => r
              end
          end
      | [] => Throw InvalidRecord
      end
  end.

(** ** Streams *)

(** [chunk.split_inclusive(|byte| byte == b'\n')]. *)
Fixpoint split_inclusive (chunk : string) : list string :=
  match chunk with
  | EmptyString => []
  | String c chunk =>
      if decide (c = "010"%char) then String c "" :: split_inclusive chunk
      else match split_inclusive chunk with
           | [] => [String c ""]
           | part :: parts => String c part :: parts
           end
  end.
Fixpoint ends_line (part : string) : bool :=
  match part with
  | EmptyString => false
  | String c EmptyString => bool_decide (c = "010"%char)
  | String _ part => ends_line part
  end.
Record LineDecoder := mk_decoder { buffer : string }.
Definition line_decoder_new : LineDecoder := mk_decoder "".
Definition line_clear : stm LineDecoder CodecError unit := st_put line_decoder_new.
(** The body of the loop of [push]. *)
Definition push_part (messages : list Protocol.WireMessage.t) (part : string) :
    stm LineDecoder CodecError (list Protocol.WireMessage.t) :=
  self ← st_get;
  if decide (MAX_LINE_BYTES < str_len (buffer self) + str_len part)%nat
  then line_clear;; mthrow LineTooLong else
  st_put (mk_decoder (buffer self +:+ part));;
  if ends_line part then
    if decide (length messages = MAX_MESSAGES_PER_PUSH) then line_clear;; mthrow TooManyMessages else
    let line := buffer self +:+ part in
    if negb (utf8 line) then line_clear;; mthrow InvalidUtf8 else
    line_clear;;
    match decode_line line with
    | Ret message => mret (messages ++ [message])
    | Throw e => mthrow e
    | Panic => st_panic
    end
  else if decide (str_len (buffer self +:+ part) = MAX_LINE_BYTES) then line_clear;; mthrow LineTooLong
  else mret messages.
Fixpoint push_parts (messages : list Protocol.WireMessage.t) (parts : list string) :
    stm LineDecoder CodecError (list Protocol.WireMessage.t) :=
  match parts with
  | [] => mret messages
  | part :: parts => messages ← push_part messages part; push_parts messages parts
  end.
Definition push (chunk : string) : stm LineDecoder CodecError (list Protocol.WireMessage.t) :=
  push_parts [] (split_inclusive chunk).
Definition line_finish (self : LineDecoder) : result CodecError unit :=
  if decide (buffer self = "") then Ok tt else Err TrailingData.
