(* ===== verification/StateLaws.v ===== *)
(** Round trips of the lists of a snapshot and of the samples: strips, stingers,
    overlays, meters, streams. *)
From S2P Require Import Prelude Text Types CodecValue ValueLaws Encode Decode.
From S2P Require Protocol.
From Stdlib Require Import Ascii.
From stdpp Require Import pretty.
#[local] Open Scope Z_scope.
#[local] Arguments Protocol.wire_slot_new : simpl never.
#[local] Arguments Protocol.wire_channel_new : simpl never.

(** ** Names *)

Lemma parse_manual_kind_ok x : parse_manual_kind (manual_kind x) = Some x.
Proof. by destruct x. Qed.
Lemma decode_overlay_transition_ok x : decode_overlay_transition (overlay_transition x) = Some x.
Proof. by destruct x. Qed.
Lemma decode_overlay_position_ok x : decode_overlay_position (overlay_position x) = Some x.
Proof. by destruct x. Qed.
Lemma decode_overlay_border_ok x : decode_overlay_border (overlay_border x) = Some x.
Proof. by destruct x. Qed.
Lemma parse_audio_policy_ok x : parse_audio_policy (audio_policy x) = Some x.
Proof. by destruct x. Qed.
Lemma parse_missing_media_fallback_ok x : parse_missing_media_fallback (missing_media_fallback x) = Some x.
Proof. by destruct x. Qed.
Lemma parse_stinger_readiness_ok x : parse_stinger_readiness (stinger_readiness x) = Some x.
Proof. by destruct x. Qed.
Lemma parse_snapshot_reason_ok x : parse_snapshot_reason (snapshot_reason x) = Some x.
Proof. by destruct x. Qed.
Lemma parse_failure_disposition_ok x : parse_failure_disposition (failure_disposition x) = Some x.
Proof. by destruct x. Qed.

(** The names hold no separator and are ASCII. *)
Lemma plain_lacks c s :
  plain c = false → forallb plain (String.list_ascii_of_string s) = true → lacks c s = true.
Proof.
  intros Hc. induction s as [|d s IH]; [done|]. simpl. intros [Hd Hs]%andb_true_iff.
  rewrite IH, andb_true_r by done. apply bool_decide_eq_true. intros ->. congruence.
Qed.
Ltac name_lacks x := intros Hc; apply plain_lacks; [exact Hc|destruct x; vm_compute; reflexivity].
Lemma transition_lacks c x : plain c = false → lacks c (overlay_transition x) = true.
Proof. name_lacks x. Qed.
Lemma position_lacks c x : plain c = false → lacks c (overlay_position x) = true.
Proof. name_lacks x. Qed.
Lemma border_lacks c x : plain c = false → lacks c (overlay_border x) = true.
Proof. name_lacks x. Qed.
Lemma policy_lacks c x : plain c = false → lacks c (audio_policy x) = true.
Proof. name_lacks x. Qed.
Lemma fallback_lacks c x : plain c = false → lacks c (missing_media_fallback x) = true.
Proof. name_lacks x. Qed.
Lemma readiness_lacks c x : plain c = false → lacks c (stinger_readiness x) = true.
Proof. name_lacks x. Qed.
Lemma transition_ascii x : ascii_only (overlay_transition x) = true.
Proof. by destruct x. Qed.
Lemma position_ascii x : ascii_only (overlay_position x) = true.
Proof. by destruct x. Qed.
Lemma border_ascii x : ascii_only (overlay_border x) = true.
Proof. by destruct x. Qed.
Lemma policy_ascii x : ascii_only (audio_policy x) = true.
Proof. by destruct x. Qed.
Lemma fallback_ascii x : ascii_only (missing_media_fallback x) = true.
Proof. by destruct x. Qed.
Lemma readiness_ascii x : ascii_only (stinger_readiness x) = true.
Proof. by destruct x. Qed.
#[export] Hint Rewrite transition_lacks position_lacks border_lacks policy_lacks fallback_lacks
  readiness_lacks using reflexivity : text.
#[export] Hint Rewrite transition_ascii position_ascii border_ascii policy_ascii fallback_ascii
  readiness_ascii : text.

(** ** Joined lists *)

(** Entries without the separator, joined: what is split again, and that it is ASCII. *)
Lemma join_entries {A} c (f : A → string) (l : list A) :
  ascii_only (String c "") = true →
  (∀ x, x ∈ l → f x ≠ "" ∧ lacks c (f x) = true ∧ ascii_only (f x) = true) → l ≠ [] →
  str_split c (str_join c (f <$> l)) = f <$> l ∧ str_join c (f <$> l) ≠ "" ∧
  ascii_only (str_join c (f <$> l)) = true.
Proof.
  intros Hc Hf Hne. assert (Hne1 : f <$> l ≠ []) by by destruct l.
  assert (Hall : Forall (λ e, e ≠ "" ∧ lacks c e = true ∧ ascii_only e = true) (f <$> l)).
  { apply Forall_fmap, Forall_forall. exact Hf. }
  split_and!.
  - apply split_join; [done|]. eapply Forall_impl; [exact Hall|]. naive_solver.
  - destruct l as [|x l]; [done|]. apply Forall_cons in Hall as [[Hx _] _]. by apply join_nonempty.
  - apply ascii_only_join; [done|]. eapply Forall_impl; [exact Hall|]. naive_solver.
Qed.
Lemma join_pretty (l : list Z) :
  lacks ":" (str_join "," (pretty <$> l)) = true ∧ lacks ";" (str_join "," (pretty <$> l)) = true ∧
  ascii_only (str_join "," (pretty <$> l)) = true.
Proof.
  split_and!; [apply lacks_join; [done|]..|apply ascii_only_join; [done|]];
    apply Forall_fmap, Forall_forall; intros x _; simpl; text.
Qed.
Lemma pretty_ne (z : Z) : pretty z ≠ "".
Proof.
  destruct z as [|p|p]; [done| |done]. change (pretty (Zpos p)) with (pretty (Npos p)).
  destruct (pretty_N_head (Npos p)) as (c&s&->&_). done.
Qed.

(** ** Strips *)

Definition strip_ok (x : Protocol.InputAudioStripStatus) : Prop :=
  wire_id (Protocol.strip_input x) ∧ in_ty I32 (Protocol.gain_millidb x) ∧
  in_ty I32 (Protocol.balance_basis_points x) ∧ in_ty U32 (Protocol.delay_samples x).
Lemma check_strips_valid inputs strips :
  check_strips inputs strips = Ok tt → NoDup inputs →
  NoDup (inputs ++ (Protocol.strip_input <$> strips)) ∧ Forall (λ x, strip_in_range x = true) strips.
Proof.
  revert inputs. induction strips as [|x strips IH]; intros inputs; simpl.
  { intros _ Hnd. by rewrite app_nil_r. }
  destruct (decide _) as [|Hin]; [done|]. assert (Hr : strip_in_range x = true) by (destruct (strip_in_range x); naive_solver).
  assert (Hin1 : Protocol.strip_input x ∉ inputs) by naive_solver. clear Hin.
  intros Hrest Hnd. apply IH in Hrest as [Hnd1 Hall].
  - split; [by rewrite <-(assoc_L (++)) in Hnd1|by constructor].
  - apply NoDup_app. split_and!; [done| |apply NoDup_singleton]. intros y Hy ->%list_elem_of_singleton. done.
Qed.
Lemma strips_roundtrip strips out :
  strip_entries strips = Ok out → strips ≠ [] → Forall strip_ok strips →
  parse_strips out = Ok strips ∧ ascii_only out = true.
Proof.
  unfold strip_entries, check_count. intros ([]&Hcount&([]&Hch&Hout)%result_bind_Ok)%result_bind_Ok Hne Hok.
  destruct (decide (MAX_LIST_ITEMS < length strips)%nat) as [|Hle]; [done|]. injection Hout as <-. clear Hcount.
  destruct (check_strips_valid _ _ Hch ltac:(constructor)) as [Hnd Hr]. clear Hch.
  destruct (join_entries "," strip_entry strips) as (Hs&Hne1&Ha); [done| |done|].
  { intros x _. split_and!; [apply join_two|unfold strip_entry; text..]. }
  split; [|done]. unfold parse_strips. rewrite Hs, decide_False.
  - apply (mapM_seen_ids _ Protocol.strip_input); [|done].
    clear -Hok Hr. induction strips as [|x strips IH]; simpl; [constructor|].
    apply Forall_cons in Hok as [(Hid&Hg&Hb&Hd) Hok], Hr as [Hr Hrs]. constructor; [|by apply IH].
    intros seen Hseen. unfold decode_strip, strip_entry. rewrite split_join by (done || entries).
    rewrite parse_input_pretty, !parse_pretty, !parse_bit_bit by done. simpl.
    assert (Hx : Protocol.mk_strip_status (Protocol.strip_input x) (Protocol.gain_millidb x)
      (Protocol.balance_basis_points x) (Protocol.muted x) (Protocol.soloed x) (Protocol.follow_video x)
      (Protocol.delay_samples x) = x) by by destruct x.
    rewrite Hx, decide_False; [done|]. intros [?|?]; congruence.
  - intros [?|Hl]; [done|]. rewrite length_take, length_fmap in Hl. lia.
Qed.

(** ** Stingers *)

Definition stinger_ok (x : Protocol.StingerStatus) : Prop :=
  1 ≤ Protocol.slot x ≤ 8 ∧ wire_id (Protocol.media_input x) ∧ in_ty U32 (Protocol.cut_point_frames x).
Lemma wire_slot_ok x : 1 ≤ x ≤ 8 → Protocol.wire_slot_new x = Some x.
Proof. intros Hx. unfold Protocol.wire_slot_new. by rewrite decide_True. Qed.
Lemma wire_channel_ok x : 1 ≤ x ≤ 8 → Protocol.wire_channel_new x = Some x.
Proof. exact (wire_slot_ok x). Qed.
Lemma decode_stinger_entry x : stinger_ok x → decode_stinger_status (stinger_entry x) = Some x.
Proof.
  intros (Hs&Hm&Hc). unfold decode_stinger_status, stinger_entry. rewrite split_join by (done || entries).
  rewrite !parse_pretty by int_lia. simpl. rewrite wire_slot_ok by done. simpl.
  rewrite parse_input_pretty, parse_bit_bit by done. simpl.
  rewrite parse_audio_policy_ok, parse_missing_media_fallback_ok, parse_stinger_readiness_ok. simpl.
  by destruct x.
Qed.
Lemma stingers_roundtrip stingers out :
  stinger_entries stingers = Ok out → Forall stinger_ok stingers →
  parse_stingers out = Ok stingers ∧ ascii_only out = true.
Proof.
  unfold stinger_entries. intros Ho Hok. destruct (decide _) as [|Hle]; [done|].
  destruct (first_repeat _ _) eqn:Hr; [done|]. injection Ho as <-. apply first_repeat_None in Hr; [|constructor].
  destruct (decide (stingers = [])) as [->|Hne]; [done|].
  destruct (join_entries "," stinger_entry stingers) as (Hs&Hne1&Ha); [done| |done|].
  { intros x _. split_and!; [apply join_two|unfold stinger_entry; text..]. }
  split; [|done]. unfold parse_stingers. rewrite decide_False, Hs by done.
  rewrite decide_False by (rewrite length_fmap; lia).
  apply (mapM_seen_ids _ Protocol.slot); [|done]. generalize (str_join "," (stinger_entry <$> stingers)).
  clear -Hok. intros value. induction stingers as [|x stingers IH]; simpl; [constructor|].
  apply Forall_cons in Hok as [Hx Hok]. constructor; [|by apply IH].
  intros seen Hseen. rewrite decode_stinger_entry by done. simpl. by rewrite decide_False.
Qed.

(** ** Overlays *)

Definition overlay_ok (x : Protocol.OverlayStatus) : Prop :=
  1 ≤ Protocol.channel x ≤ 8 ∧ (∀ s, Protocol.source x = Some s → wire_id s) ∧
  in_ty U8 (Protocol.opacity x) ∧ 1 ≤ Protocol.overlay_duration_frames x ≤ 3600 ∧
  Forall wire_id (Protocol.queued_sources x) ∧ Forall wire_id (Protocol.included_outputs x).
Definition overlays_ok (overlays : list Protocol.OverlayStatus) : Prop :=
  Forall overlay_ok overlays ∧ NoDup (Protocol.channel <$> overlays).
Definition overlay_line (x : Protocol.OverlayStatus) : string :=
  str_join ":" [
    pretty (Protocol.channel x);
    match Protocol.source x with Some source => pretty source | None => "0" end;
    bit (Protocol.active x);
    pretty (Protocol.opacity x);
    overlay_transition (Protocol.overlay_transition x);
    pretty (Protocol.overlay_duration_frames x);
    overlay_position (Protocol.position x);
    overlay_border (Protocol.border x);
    str_join "," (pretty <$> Protocol.queued_sources x);
    str_join "," (pretty <$> Protocol.included_outputs x)].
Lemma overlay_entry_Ok name x e :
  overlay_entry name x = Ok e →
  e = overlay_line x ∧ (length (Protocol.queued_sources x) ≤ 64)%nat ∧ NoDup (Protocol.included_outputs x).
Proof.
  unfold overlay_entry. destruct (decide _) as [|Hq]; [done|].
  destruct (first_repeat _ _) eqn:Hr; [done|]. intros [= <-]. apply first_repeat_None in Hr; [|constructor].
  split_and!; [done|lia|done].
Qed.
Definition source_text (s : option InputId) : string := match s with Some s => pretty s | None => "0" end.
Lemma source_lacks c s : bool_decide (c ∈ digits) = false → lacks c (source_text s) = true.
Proof. intros Hc. destruct s as [s|]; [by apply pretty_lacks|exact (pretty_lacks c 0 Hc)]. Qed.
Lemma source_ascii s : ascii_only (source_text s) = true.
Proof. destruct s as [s|]; [apply pretty_Z_ascii|done]. Qed.
Lemma pretty_0 z : wire_id z → pretty z ≠ "0".
Proof.
  intros Hz Heq. pose proof (parse_input_pretty z Hz) as Hp. by rewrite Heq in Hp.
Qed.
Lemma parse_overlay_source_ok s :
  (∀ z, s = Some z → wire_id z) → parse_overlay_source (source_text s) = Some s.
Proof.
  intros Hs. unfold parse_overlay_source. destruct s as [z|]; [|done]. simpl.
  rewrite decide_False by (apply pretty_0; auto). by rewrite parse_input_pretty by auto.
Qed.
Lemma list_lacks c l : bool_decide (c ∈ digits) = false → c ≠ ","%char →
  lacks c (str_join "," (pretty <$> (l : list Z))) = true.
Proof.
  intros Hd Hc. apply lacks_join; [by rewrite lacks_cons_char, bool_decide_eq_true_2|].
  apply Forall_fmap, Forall_forall. intros x _. by apply pretty_lacks.
Qed.
Lemma overlay_line_lacks x : lacks ";" (overlay_line x) = true ∧ ascii_only (overlay_line x) = true.
Proof.
  unfold overlay_line. fold (source_text (Protocol.source x)).
  pose proof (list_lacks ";" (Protocol.queued_sources x) eq_refl ltac:(done)).
  pose proof (list_lacks ";" (Protocol.included_outputs x) eq_refl ltac:(done)).
  pose proof (proj2 (proj2 (join_pretty (Protocol.queued_sources x)))).
  pose proof (proj2 (proj2 (join_pretty (Protocol.included_outputs x)))).
  pose proof (source_lacks ";" (Protocol.source x) eq_refl). pose proof (source_ascii (Protocol.source x)).
  split; text.
Qed.
Lemma collect_inputs l : Forall wire_id l → collect_some parse_input (pretty <$> l) = Some l.
Proof.
  induction 1 as [|x l Hx _ IH]; [done|]. rewrite fmap_cons. cbn [collect_some]. by rewrite parse_input_pretty, IH by done.
Qed.
Lemma join_ids l : Forall wire_id l → l ≠ [] →
  str_join "," (pretty <$> l) ≠ "" ∧
  collect_some parse_input (str_split "," (str_join "," (pretty <$> l))) = Some l.
Proof.
  intros Hl Hne. destruct (join_entries "," pretty l) as (Hs&Hne1&_); [done| |done|].
  { intros x _. split_and!; [apply pretty_ne|text..]. }
  split; [done|]. rewrite Hs. by apply collect_inputs.
Qed.
Lemma queue_roundtrip l entry field :
  Forall wire_id l → (length l ≤ 64)%nat → decode_overlay_queue (str_join "," (pretty <$> l)) entry field = Ok l.
Proof.
  intros Hl Hlen. unfold decode_overlay_queue. destruct (decide (l = [])) as [->|Hne]; [done|].
  destruct (join_ids l Hl Hne) as [Hj ->]. rewrite decide_False by done. simpl.
  by rewrite decide_False by lia.
Qed.
Lemma outputs_roundtrip l entry field :
  Forall wire_id l → NoDup l →
  decode_overlay_included_outputs (str_join "," (pretty <$> l)) entry field = Ok l.
Proof.
  intros Hl Hnd. unfold decode_overlay_included_outputs. destruct (decide (l = [])) as [->|Hne]; [done|].
  destruct (join_ids l Hl Hne) as [Hj ->]. rewrite decide_False by done. simpl.
  assert (first_repeat [] l = None) as -> by (by apply first_repeat_None; [constructor|]). done.
Qed.
Lemma decode_overlay_line name seen x :
  overlay_ok x → (length (Protocol.queued_sources x) ≤ 64)%nat → NoDup (Protocol.included_outputs x) →
  Protocol.channel x ∉ seen →
  decode_overlay_status name seen (overlay_line x) = Ok (seen ++ [Protocol.channel x], x).
Proof.
  intros (Hc&Hs&Ho&Hd&Hq&Hi) Hlen Hnd Hseen. unfold decode_overlay_status, overlay_line.
  fold (source_text (Protocol.source x)).
  rewrite split_join; [|done|].
  - rewrite !parse_pretty by int_lia. simpl. rewrite wire_channel_ok by done. simpl.
    rewrite decide_False, parse_overlay_source_ok, parse_bit_bit, decode_overlay_transition_ok by done. simpl.
    assert (validate_overlay_duration (Protocol.overlay_duration_frames x) name = Ok tt) as ->.
    { unfold validate_overlay_duration, overlay_duration_valid. by rewrite bool_decide_eq_true_2. }
    simpl. rewrite decode_overlay_position_ok, decode_overlay_border_ok. simpl.
    rewrite queue_roundtrip by done. simpl. rewrite outputs_roundtrip by done. simpl. by destruct x.
  - pose proof (list_lacks ":" (Protocol.queued_sources x) eq_refl ltac:(done)).
    pose proof (list_lacks ":" (Protocol.included_outputs x) eq_refl ltac:(done)).
    pose proof (source_lacks ":" (Protocol.source x) eq_refl). entries.
Qed.
Lemma overlays_roundtrip name overlays out :
  overlay_entries name overlays = Ok out → overlays_ok overlays →
  parse_overlays name out = Ok overlays ∧ ascii_only out = true.
Proof.
  unfold overlay_entries. destruct (decide _) as [|Hlen]; [done|].
  intros (encs&Hf&Ho)%result_bind_Ok [Hok Hnd]. injection Ho as <-.
  assert (Hf2 : Forall2 (λ x e, overlay_entry name x = Ok e) overlays encs).
  { clear -Hf. revert encs Hf. unfold collect. induction overlays as [|x l IH]; intros encs; simpl.
    - by intros [= <-].
    - intros ([[] e]&He&(rest&Hr&Hout)%result_bind_Ok)%result_bind_Ok. injection Hout as <-.
      apply result_bind_Ok in He as (e1&He&[= ->]). constructor; [done|by apply IH]. }
  assert (Hencs : encs = overlay_line <$> overlays).
  { clear -Hf2. induction Hf2 as [|x e l k He _ IH]; [done|]. apply overlay_entry_Ok in He as [-> _].
    simpl. by f_equal. }
  subst encs. destruct (join_entries ";" overlay_line overlays) as (Hs&_&Ha); [done| | |].
  { intros x _. destruct (overlay_line_lacks x). split_and!; [apply join_two|done..]. }
  { intros ->. simpl in Hlen. lia. }
  split; [|done]. unfold parse_overlays. rewrite Hs, decide_False by (rewrite length_fmap; lia).
  apply (mapM_seen_ids _ Protocol.channel); [|done]. clear -Hf2 Hok.
  induction overlays as [|x l IH]; [constructor|]. inversion Hf2 as [|? ? ? ? He Hf3]; subst.
  apply Forall_cons in Hok as [Hx Hok]. apply overlay_entry_Ok in He as (_&Hq&Hi).
  constructor; [|by apply IH]. intros seen Hseen. by apply decode_overlay_line.
Qed.

(** ** Samples and meters *)

(** A fold that encodes and a fold that decodes each of its entries. *)
Lemma mapM_seen_inverse {S A} (f : S → A → result CodecError (S * string))
    (g : S → string → result CodecError (S * A)) s l encs :
  (∀ s x s' e, x ∈ l → f s x = Ok (s', e) → g s e = Ok (s', x)) →
  mapM_seen f s l = Ok encs → mapM_seen g s encs = Ok l.
Proof.
  revert s encs. induction l as [|x l IH]; intros s encs Hfg; simpl; [by intros [= <-]|].
  intros ([s1 e]&He&(rest&Hr&[= <-])%result_bind_Ok)%result_bind_Ok. simpl.
  rewrite (Hfg _ _ _ _ ltac:(by left) He). simpl. rewrite (IH s1 rest); [done| |done].
  intros s2 y s3 e2 Hy. apply Hfg. by right.
Qed.
Lemma mapM_seen_entries {S A} (f : S → A → result CodecError (S * string)) s l encs :
  mapM_seen f s l = Ok encs → Forall2 (λ x e, ∃ s s', f s x = Ok (s', e)) l encs.
Proof.
  revert s encs. induction l as [|x l IH]; intros s encs; simpl; [intros [= <-]; constructor|].
  intros ([s1 e]&He&(rest&Hr&[= <-])%result_bind_Ok)%result_bind_Ok. constructor; [by eauto|by eapply IH].
Qed.
(** What is joined at [c] is split again, for entries that an encoder made. *)
Lemma join_encoded {A} c (R : A → string → Prop) (l : list A) encs :
  Forall2 R l encs → ascii_only (String c "") = true →
  (∀ x e, x ∈ l → R x e → e ≠ "" ∧ lacks c e = true ∧ ascii_only e = true) →
  (l ≠ [] → str_split c (str_join c encs) = encs ∧ str_join c encs ≠ "") ∧
  ascii_only (str_join c encs) = true.
Proof.
  intros Hf Hc HR. destruct (decide (l = [])) as [->|Hne].
  { inversion Hf; subst. by split. }
  assert (Hall : Forall (λ e, e ≠ "" ∧ lacks c e = true ∧ ascii_only e = true) encs).
  { apply Forall_forall. intros e He. apply list_elem_of_lookup in He as [i Hi].
    destruct (Forall2_lookup_r _ _ _ _ _ Hf Hi) as (x&Hx&Hxe). apply (HR x); [by eapply list_elem_of_lookup_2|done]. }
  assert (Hne1 : encs ≠ []) by (intros ->; by inversion Hf; subst).
  destruct (join_entries c id encs) as (Hs&Hj&Ha); [done| |done|].
  { intros e He. rewrite Forall_forall in Hall. by apply Hall. }
  rewrite list_fmap_id in Hs, Hj, Ha. done.
Qed.

Definition sample_ok (x : Protocol.StreamStatusSample) : Prop :=
  wire_id (Protocol.sample_target x) ∧ in_ty U64 (Protocol.muxed_bytes x) ∧
  in_ty U64 (Protocol.enqueued_pairs x) ∧ in_ty U64 (Protocol.dropped_pairs x) ∧
  (∀ f, Protocol.failure x = Some f → utf8 f = true ∧ f ≠ "" ∧ (str_len f ≤ MAX_STREAM_DETAIL_BYTES)%nat).
Lemma sample_entry_Ok s x s' e :
  sample_entry s x = Ok (s', e) →
  ¬ not_after s (Protocol.sample_target x) ∧ s' = Some (Protocol.sample_target x) ∧
  e = str_join ":" [pretty (Protocol.sample_target x); stream_realized_state (Protocol.sample_realized x);
    bit (Protocol.connected x); pretty (Protocol.muxed_bytes x); pretty (Protocol.enqueued_pairs x);
    pretty (Protocol.dropped_pairs x); detail_text (Protocol.failure x)].
Proof.
  unfold sample_entry. destruct (decide _) as [|Hna]; [done|].
  intros (d&Hd&[= <- <-])%result_bind_Ok. split_and!; [done..|].
  destruct (Protocol.failure x); [apply escape_bounded_Ok in Hd as ->|injection Hd as <-]; done.
Qed.
Lemma decode_sample_entry s x s' e :
  sample_ok x → sample_entry s x = Ok (s', e) → decode_sample s e = Ok (s', x).
Proof.
  intros (Hid&Hm&He&Hd&Hf) (Hna&->&->)%sample_entry_Ok. unfold decode_sample.
  rewrite split_join by (done || entries). rewrite parse_input_pretty, !parse_pretty by done. simpl.
  rewrite decide_False, parse_stream_realized_state_ok, parse_bit_bit by done. simpl.
  destruct x as [? ? ? ? ? ? [f|]]; [|done]. simpl in *. destruct (Hf f eq_refl) as (Hu&Hne&Hl).
  rewrite decide_False by (by rewrite escape_empty). rewrite unescape_escape by done. simpl.
  by rewrite decide_False by lia.
Qed.
Lemma samples_roundtrip samples out :
  sample_entries samples = Ok out → Forall sample_ok samples →
  parse_samples out = Ok samples ∧ ascii_only out = true.
Proof.
  unfold sample_entries. destruct (decide (samples = [])) as [|Hne]; [done|].
  destruct (decide _) as [|Hlen]; [done|]. intros (encs&Hm&[= <-])%result_bind_Ok Hok.
  pose proof (mapM_seen_entries _ _ _ _ Hm) as Hf.
  destruct (join_encoded ";" _ _ _ Hf) as [Hs Ha]; [done| |].
  { intros x e _ (s&s'&(_&_&->)%sample_entry_Ok). split_and!; [apply join_two|text..]. }
  destruct (Hs Hne) as [Hs1 Hne1]. split; [|done]. unfold parse_samples.
  rewrite decide_False, Hs1 by done. rewrite decide_False by (rewrite <-(Forall2_length _ _ _ Hf); lia).
  eapply mapM_seen_inverse; [|exact Hm]. rewrite Forall_forall in Hok.
  intros s x s' e Hx. apply decode_sample_entry. by apply Hok.
Qed.

Definition meter_ok (x : Protocol.AudioMeterChannel) : Prop :=
  in_ty U32 (Protocol.peak_millionths x) ∧ in_ty U32 (Protocol.rms_millionths x).
Definition meter_text (x : Protocol.AudioMeterChannel) : string :=
  pretty (Protocol.peak_millionths x) +:+ String ":" (pretty (Protocol.rms_millionths x)).
Lemma encode_meter_Ok channels field out :
  encode_meter_channels channels field = Ok out →
  Forall (λ x, meter_valid x = true) channels ∧ out = str_join "," (meter_text <$> channels).
Proof.
  intros (encs&Hm&[= <-])%result_bind_Ok. cut (Forall (λ x, meter_valid x = true) channels ∧ encs = meter_text <$> channels).
  { by intros [? ->]. }
  revert encs Hm. unfold collect. induction channels as [|x l IH]; intros encs; simpl; [by intros [= <-]|].
  intros ([[] e]&He&(rest&Hr&[= <-])%result_bind_Ok)%result_bind_Ok. destruct (meter_valid x) eqn:Hv; [|done].
  injection He as <-. apply IH in Hr as [Hl ->]. split; [by constructor|done].
Qed.
Lemma meter_text_ok x :
  meter_text x ≠ "" ∧ lacks "," (meter_text x) = true ∧ ascii_only (meter_text x) = true.
Proof.
  unfold meter_text. change (String ":" ?x) with (String ":" "" +:+ x). split_and!; [|text..].
  by destruct (pretty (Protocol.peak_millionths x)).
Qed.
Lemma meters_text l :
  lacks ";" (str_join "," (meter_text <$> l)) = true ∧ lacks "~" (str_join "," (meter_text <$> l)) = true ∧
  ascii_only (str_join "," (meter_text <$> l)) = true.
Proof.
  split_and!; [apply lacks_join; [done|]..|apply ascii_only_join; [done|]]; apply Forall_fmap, Forall_forall;
    intros x _; simpl; unfold meter_text; change (String ":" ?x) with (String ":" "" +:+ x); text.
Qed.
Lemma meters_roundtrip channels field field' out :
  encode_meter_channels channels field = Ok out → Forall meter_ok channels →
  (1 ≤ length channels ≤ MAX_AUDIO_METER_CHANNELS)%nat → decode_meter_channels out field' = Ok channels.
Proof.
  intros [Hv ->]%encode_meter_Ok Hok Hlen.
  destruct (join_entries "," meter_text channels) as (Hs&Hne&Ha); [done|intros x _; apply meter_text_ok| |].
  { intros ->. simpl in Hlen. lia. }
  unfold decode_meter_channels. rewrite Hs, decide_False by (rewrite length_fmap; intros [?|?]; [done|lia]).
  apply collect_ok. generalize (InvalidField field' (str_join "," (meter_text <$> channels))).
  clear -Hok Hv. intros err. induction channels as [|x l IH]; simpl; [constructor|].
  apply Forall_cons in Hok as [[Hp Hr] Hok], Hv as [Hx Hv]. constructor; [|by apply IH].
  unfold meter_text. rewrite split_once_app by text. simpl. rewrite !parse_pretty by done. simpl.
  destruct x as [p r]. simpl. by rewrite Hx.
Qed.

Definition input_meters_ok (x : Protocol.InputAudioMeters) : Prop :=
  wire_id (Protocol.meter_input x) ∧ Forall meter_ok (Protocol.channels x).
Lemma meter_entry_Ok count s x s' e :
  meter_entry count s x = Ok (s', e) →
  length (Protocol.channels x) = count ∧ ¬ not_after s (Protocol.meter_input x) ∧
  s' = Some (Protocol.meter_input x) ∧
  ∃ out, encode_meter_channels (Protocol.channels x) "inputs" = Ok out ∧
    e = pretty (Protocol.meter_input x) +:+ String "~" out.
Proof.
  unfold meter_entry. destruct (decide _) as [|Hna]; [done|]. intros (out&Hout&[= <- <-])%result_bind_Ok.
  apply Decidable.not_or in Hna as [Hl Hna]. split_and!; [lia|done..|]. by exists out.
Qed.
Lemma meter_inputs_roundtrip count inputs encs :
  mapM_seen (meter_entry count) None inputs = Ok encs → Forall input_meters_ok inputs →
  (1 ≤ count ≤ MAX_AUDIO_METER_CHANNELS)%nat → (length encs ≤ MAX_LIST_ITEMS)%nat →
  parse_meter_inputs count (str_join ";" encs) = Ok inputs ∧ ascii_only (str_join ";" encs) = true.
Proof.
  intros Hm Hok Hcount Hlen. pose proof (mapM_seen_entries _ _ _ _ Hm) as Hf.
  destruct (join_encoded ";" _ _ _ Hf) as [Hs Ha]; [done| |].
  { intros x e _ (s&s'&(_&_&_&out&[_ ->]%encode_meter_Ok&->)%meter_entry_Ok).
    destruct (meters_text (Protocol.channels x)) as (?&?&?). change (String "~" ?x) with (String "~" "" +:+ x).
    split_and!; [|text..]. by destruct (pretty (Protocol.meter_input x)). }
  split; [|done]. unfold parse_meter_inputs. destruct (decide (inputs = [])) as [->|Hne].
  { injection Hm as <-. done. }
  destruct (Hs Hne) as [Hs1 Hne1]. rewrite decide_False, Hs1 by done. rewrite decide_False by lia.
  eapply mapM_seen_inverse; [|exact Hm]. rewrite Forall_forall in Hok.
  intros s x s' e Hx (Hl&Hna&->&out&Hout&->)%meter_entry_Ok. destruct (Hok x Hx) as [Hid Hch].
  unfold decode_meter_input. rewrite split_once_app by text. simpl. rewrite parse_input_pretty by done. simpl.
  rewrite (meters_roundtrip _ _ _ _ Hout) by (done || by rewrite Hl). simpl.
  rewrite decide_False by (intros [?|?]; [lia|done]). by destruct x.
Qed.
