(* ===== verification/RecordLaws.v ===== *)
(** Records and fields: [finish] writes what [Fields::parse] reads, and the calculus of
    the two: an encoder appends to a list of fields, a decoder takes from a map that
    holds such a list. *)
From S2P Require Import Prelude BTree Text Types CodecValue ValueLaws Encode Decode.
From S2P Require Protocol.
From Stdlib Require Import Ascii.
From stdpp Require Import pretty.
#[local] Open Scope Z_scope.

(** ** Writing a record *)

Definition part (p : string * string) : string := p.1 +:+ String "=" (escape p.2).
Fixpoint parts_text (w : list (string * string)) : string :=
  match w with
  | [] => ""
  | p :: w => String "009" (part p) +:+ parts_text w
  end.
Lemma str_cons c s t : String c s +:+ t = String c (s +:+ t).
Proof. done. Qed.
Lemma finish_value_Ok line v out :
  finish_value line v = Ok out →
  out = line +:+ escape v ∧ (str_len line ≤ MAX_LINE_BYTES → str_len out ≤ MAX_LINE_BYTES)%nat.
Proof.
  revert line. induction v as [|c v IH]; intros line; simpl.
  - intros [= <-]. by rewrite string_app_nil_r.
  - destruct (decide _) as [|Hl]; [done|]. intros [-> Ho]%IH. rewrite string_app_assoc. split; [done|].
    intros _. apply Ho. rewrite str_len_app. lia.
Qed.
Lemma finish_fields_Ok line w out :
  finish_fields line w = Ok out →
  out = line +:+ parts_text w ∧ (str_len line ≤ MAX_LINE_BYTES → str_len out ≤ MAX_LINE_BYTES)%nat.
Proof.
  revert line. induction w as [|[n v] w IH]; intros line; simpl.
  - intros [= <-]. by rewrite string_app_nil_r.
  - destruct (decide _) as [|Hl]; [done|].
    intros (l1&[-> Hl1]%finish_value_Ok&[-> Hl2]%IH)%result_bind_Ok. split.
    + unfold part. simpl. by rewrite <-!string_app_assoc, !str_cons, <-!string_app_assoc, !str_cons.
    + intros _. apply Hl2, Hl1. rewrite str_len_app. unfold str_len in *. simpl.
      change (String.length (n +:+ "=")) with (str_len (n +:+ "=")). rewrite str_len_app.
      unfold str_len in *. simpl. lia.
Qed.
Lemma record_finish_Ok r line :
  record_finish r = Ok line → (str_len (kind r) ≤ MAX_LINE_BYTES)%nat →
  line = (kind r +:+ parts_text (record_fields r)) +:+ String "010" "" ∧ (str_len line ≤ MAX_LINE_BYTES)%nat.
Proof.
  intros (l&[-> Hl]%finish_fields_Ok&Ho)%result_bind_Ok Hk. destruct (decide _) as [|Hne]; [done|].
  injection Ho as <-. split; [done|]. rewrite str_len_app. specialize (Hl Hk). unfold str_len at 2. simpl. lia.
Qed.
Lemma parts_join k w : k +:+ parts_text w = str_join "009" (k :: (part <$> w)).
Proof.
  revert k. induction w as [|p w IH]; intros k; cbn [parts_text]; [by rewrite string_app_nil_r|].
  rewrite fmap_cons, join_cons, <-(IH (part p)), !str_cons by done. done.
Qed.

(** ** Reading it back *)

Lemma strip_newline_app s : strip_newline (s +:+ String "010" "") = Some s.
Proof.
  induction s as [|c s IH]; [done|]. simpl. rewrite decide_False by by destruct s.
  change (String.append s (String "010" "")) with (s +:+ String "010" ""). by rewrite IH.
Qed.
Fixpoint find_field (n : string) (w : list (string * string)) : option string :=
  match w with
  | [] => None
  | (k, v) :: w => if String.eqb n k then Some v else find_field n w
  end.
Fixpoint drop_field (n : string) (w : list (string * string)) : list (string * string) :=
  match w with
  | [] => []
  | (k, v) :: w => if String.eqb n k then drop_field n w else (k, v) :: drop_field n w
  end.
(** The map [f] holds the fields [w]. *)
Definition holds (f : Fields) (w : list (string * string)) : Prop := ∀ n, bt_get n f = find_field n w.
Lemma find_drop n m w : find_field m (drop_field n w) = if String.eqb n m then None else find_field m w.
Proof.
  induction w as [|[k v] w IH]; simpl; [by case_match|].
  destruct (String.eqb_spec n k) as [->|Hk]; simpl; rewrite IH.
  - destruct (String.eqb_spec k m) as [->|]; [done|]. destruct (String.eqb_spec m k); congruence.
  - destruct (String.eqb_spec n m) as [->|]; [|done]. by destruct (String.eqb_spec m k).
Qed.
Lemma holds_remove f w n : holds f w → holds (bt_remove n f) (drop_field n w).
Proof.
  intros Hf m. rewrite bt_get_remove, find_drop, Hf. destruct (String.eqb_spec n m) as [->|Hn].
  - by rewrite decide_True.
  - by rewrite decide_False.
Qed.
Lemma holds_nil f : holds f [] → f = [].
Proof.
  intros Hf. destruct f as [|[k v] f]; [done|]. specialize (Hf k). simpl in Hf. by rewrite decide_True in Hf.
Qed.
Lemma find_None n w : n ∉ w.*1 → find_field n w = None.
Proof.
  induction w as [|[k v] w IH]; [done|]. simpl. intros Hn. destruct (String.eqb_spec n k); set_solver.
Qed.

(** A field that the encoder writes and the decoder knows how to read. *)
Definition name_ok (n : string) : bool :=
  valid_field_name n && bool_decide (str_len n ≤ MAX_FIELD_NAME_BYTES)%nat.
Definition value_fits (v : string) : bool := bool_decide (str_len (escape v) ≤ MAX_FIELD_VALUE_BYTES)%nat.
Lemma valid_field_byte_not_eq c : valid_field_byte (byte_of c) = true → c ≠ "="%char.
Proof. by intros Hc ->. Qed.
Lemma name_ok_lacks n : name_ok n = true → lacks "=" n = true.
Proof.
  intros [[_ Hv]%andb_true_iff _]%andb_true_iff. unfold str_bytes in Hv.
  induction n as [|c n IH]; [done|]. simpl in *. apply andb_true_iff in Hv as [Hc Hv].
  rewrite IH, andb_true_r by done. apply bool_decide_eq_true. by apply valid_field_byte_not_eq.
Qed.
Lemma fields_parse_parts f w :
  NoDup w.*1 → (∀ n, n ∈ w.*1 → bt_get n f = None) → (length f + length w ≤ MAX_FIELDS_PER_MESSAGE)%nat →
  Forall (λ p, name_ok p.1 = true ∧ utf8 p.2 = true) w →
  if forallb (λ p, value_fits p.2) w
  then ∃ f', fields_parse f (part <$> w) = Ok f' ∧
         ∀ n, bt_get n f' = match find_field n w with Some v => Some v | None => bt_get n f end
  else fields_parse f (part <$> w) = Err FieldValueTooLong.
Proof.
  revert f. induction w as [|[n v] w IH]; intros f Hnd Hf Hlen Hw.
  { exists f. by split. }
  apply Forall_cons in Hw as [[Hn Hv] Hw]. simpl in Hn, Hv, Hlen. rewrite fmap_cons in Hnd. apply NoDup_cons in Hnd as [Hnin Hnd].
  assert (Hfn : bt_get n f = None) by (apply Hf; by left).
  assert (Hparse : fields_parse f (part <$> (n, v) :: w) =
    if value_fits v then fields_parse (bt_insert n v f) (part <$> w) else Err FieldValueTooLong).
  { rewrite fmap_cons. cbn [fields_parse]. rewrite decide_False by lia. change (part (n, v)) with (n +:+ String "=" (escape v)).
    rewrite split_once_app by by apply name_ok_lacks. simpl.
    apply andb_true_iff in Hn as [Hv1 Hl%bool_decide_eq_true].
    rewrite decide_False by lia. unfold value_fits. destruct (decide _) as [Hgt|Hle].
    { by rewrite bool_decide_eq_false_2 by lia. }
    rewrite bool_decide_eq_true_2 by lia. rewrite decide_False by congruence.
    unfold bt_contains. rewrite Hfn. simpl. by rewrite unescape_escape. }
  rewrite Hparse. simpl. destruct (value_fits v); [|done]. simpl.
  specialize (IH (bt_insert n v f) Hnd).
  assert (Hpre : ∀ m, m ∈ w.*1 → bt_get m (bt_insert n v f) = None).
  { intros m Hm. rewrite bt_get_insert_ne by set_solver. apply Hf. by right. }
  specialize (IH Hpre). rewrite bt_length_insert_fresh in IH by done. specialize (IH ltac:(lia) Hw).
  destruct (forallb _ w); [|done]. destruct IH as (f'&Hf'&Hget). exists f'. split; [done|].
  intros m. rewrite Hget. destruct (String.eqb_spec m n) as [->|Hmn].
  - rewrite find_None by done. by rewrite bt_get_insert_eq.
  - by rewrite bt_get_insert_ne.
Qed.

(** ** Lines *)

Lemma name_ok_lacks_sep c n : valid_field_byte (byte_of c) = false → name_ok n = true → lacks c n = true.
Proof.
  intros Hc [[_ Hv]%andb_true_iff _]%andb_true_iff. unfold str_bytes in Hv.
  induction n as [|d n IH]; [done|]. simpl in *. apply andb_true_iff in Hv as [Hd Hv].
  rewrite IH, andb_true_r by done. apply bool_decide_eq_true. intros ->. congruence.
Qed.
Lemma part_lacks c p :
  valid_field_byte (byte_of c) = false → plain c = false → bool_decide (c = "%"%char) = false →
  lacks c "=" = true → name_ok p.1 = true → lacks c (part p) = true.
Proof.
  intros Hv Hp Hpc Heq Hn. unfold part. change (String "=" ?x) with ("=" +:+ x).
  by rewrite !lacks_app, name_ok_lacks_sep, Heq, escape_lacks_b.
Qed.
(** The fields [w] under [kind] are read back as [message]. *)
Record record_decodes (kind : string) (w : list (string * string)) (message : Protocol.WireMessage.t) : Prop := {
  rd_kind : bool_decide (kind ≠ "") && bool_decide (str_len kind ≤ MAX_LINE_BYTES)%nat &&
    lacks "009" kind && lacks "010" kind && lacks "013" kind && ascii_only kind = true;
  rd_names : NoDup w.*1;
  rd_fields : Forall (λ p, name_ok p.1 = true ∧ utf8 p.2 = true) w;
  rd_length : (length w ≤ MAX_FIELDS_PER_MESSAGE)%nat;
  rd_message : ∀ f, holds f w → wp (decode_message kind) (λ r f', r = Ret message ∧ f' = []) f
}.
Lemma decode_record r line message :
  record_finish r = Ok line → record_decodes (kind r) (record_fields r) message →
  decode_line line = if forallb (λ p, value_fits p.2) (record_fields r) then Ret message
                     else Throw FieldValueTooLong.
Proof.
  destruct r as [kind w]. simpl. intros Hfin [Hk Hnd Hw Hlen Hm].
  repeat (apply andb_true_iff in Hk as [Hk ?]).
  apply bool_decide_eq_true in Hk. match goal with H : bool_decide _ = true |- _ => apply bool_decide_eq_true in H end.
  apply record_finish_Ok in Hfin as [-> Hmax]; [|done]. simpl in *. unfold decode_line.
  rewrite decide_False by lia. rewrite strip_newline_app, parts_join.
  assert (Hlacks : ∀ c, valid_field_byte (byte_of c) = false → plain c = false →
    bool_decide (c = "%"%char) = false → lacks c "=" = true → lacks c kind = true →
    Forall (λ s, lacks c s = true) (kind :: (part <$> w))).
  { intros c Hv Hp Hpc Heq Hkc. constructor; [done|]. apply Forall_fmap. eapply Forall_impl; [exact Hw|].
    intros p [Hn _]. by apply part_lacks. }
  rewrite (lacks_join "010"), (lacks_join "013") by (done || by apply Hlacks).
  cbn [negb andb]. rewrite split_join by (done || by apply Hlacks).
  rewrite decide_False by done.
  pose proof (fields_parse_parts [] w Hnd ltac:(done) Hlen Hw) as Hp.
  destruct (forallb _ w); [|by rewrite Hp]. destruct Hp as (f&->&Hget).
  assert (Hh : holds f w) by (intros n; rewrite Hget; by destruct (find_field n w)).
  specialize (Hm f Hh). unfold wp in Hm. destruct (decode_message kind f) as [f' r]. simpl in Hm.
  by destruct Hm as [-> ->].
Qed.

(** ** Taking fields *)

Lemma wp_optional n f w (Q : outcome CodecError (option string) → Fields → Prop) :
  holds f w → (∀ f', holds f' (drop_field n w) → Q (Ret (find_field n w)) f') → wp (optional n) Q f.
Proof. intros Hf HQ. unfold wp, optional. simpl. rewrite (Hf n). apply HQ. by apply holds_remove. Qed.
Lemma wp_required n f w v (Q : outcome CodecError string → Fields → Prop) :
  holds f w → find_field n w = Some v → (∀ f', holds f' (drop_field n w) → Q (Ret v) f') →
  wp (required n) Q f.
Proof.
  intros Hf Hn HQ. unfold required. apply wp_bind. eapply wp_optional; [done|]. intros f' Hf'.
  rewrite Hn. by apply HQ.
Qed.
Lemma wp_required_as {A} (parse : string → option A) n f w v a (Q : outcome CodecError A → Fields → Prop) :
  holds f w → find_field n w = Some v → parse v = Some a →
  (∀ f', holds f' (drop_field n w) → Q (Ret a) f') → wp (required_as parse n) Q f.
Proof.
  intros Hf Hn Hp HQ. unfold required_as. apply wp_bind. eapply wp_required; [done..|]. intros f' Hf'.
  rewrite Hp. by apply HQ.
Qed.
Lemma wp_required_list {A} (parse : string → result CodecError A) n f w v a
    (Q : outcome CodecError A → Fields → Prop) :
  holds f w → find_field n w = Some v → parse v = Ok a →
  (∀ f', holds f' (drop_field n w) → Q (Ret a) f') → wp (required_list parse n) Q f.
Proof.
  intros Hf Hn Hp HQ. unfold required_list. apply wp_bind. eapply wp_required; [done..|]. intros f' Hf'.
  rewrite Hp. by apply HQ.
Qed.
Lemma wp_parse_required t n f w z (Q : outcome CodecError Z → Fields → Prop) :
  holds f w → find_field n w = Some (pretty z) → in_ty t z →
  (∀ f', holds f' (drop_field n w) → Q (Ret z) f') → wp (parse_required t n) Q f.
Proof. intros Hf Hn Hz. by eapply wp_required_as; [..|apply parse_pretty]. Qed.
Lemma wp_parse_some t n f w z (Q : outcome CodecError (option Z) → Fields → Prop) :
  holds f w → find_field n w = Some (pretty z) → in_ty t z →
  (∀ f', holds f' (drop_field n w) → Q (Ret (Some z)) f') → wp (parse_optional t n) Q f.
Proof.
  intros Hf Hn Hz HQ. unfold parse_optional. apply wp_bind. eapply wp_optional; [done|]. intros f' Hf'.
  rewrite Hn. simpl. rewrite parse_pretty by done. by apply HQ.
Qed.
Lemma wp_parse_none t n f w (Q : outcome CodecError (option Z) → Fields → Prop) :
  holds f w → find_field n w = None →
  (∀ f', holds f' (drop_field n w) → Q (Ret None) f') → wp (parse_optional t n) Q f.
Proof.
  intros Hf Hn HQ. unfold parse_optional. apply wp_bind. eapply wp_optional; [done|]. intros f' Hf'.
  rewrite Hn. by apply HQ.
Qed.
Lemma wp_boolean n f w b (Q : outcome CodecError bool → Fields → Prop) :
  holds f w → find_field n w = Some (bit b) →
  (∀ f', holds f' (drop_field n w) → Q (Ret b) f') → wp (boolean n) Q f.
Proof. intros Hf Hn. by eapply wp_required_as; [..|apply parse_bit_bit]. Qed.
Lemma wp_input n f w z (Q : outcome CodecError InputId → Fields → Prop) :
  holds f w → find_field n w = Some (pretty z) → wire_id z →
  (∀ f', holds f' (drop_field n w) → Q (Ret z) f') → wp (required_as parse_input n) Q f.
Proof. intros Hf Hn Hz. by eapply wp_required_as; [..|apply parse_input_pretty]. Qed.
Lemma wp_numbered new n f w z (Q : outcome CodecError Z → Fields → Prop) :
  holds f w → find_field n w = Some (pretty z) → in_ty U8 z → new z = Some z →
  (∀ f', holds f' (drop_field n w) → Q (Ret z) f') → wp (parse_numbered new n) Q f.
Proof.
  intros Hf Hn Hz Hnew HQ. unfold parse_numbered. apply wp_bind. eapply wp_parse_required; [done..|].
  intros f' Hf'. rewrite Hnew. by apply HQ.
Qed.
Lemma wp_lift_Ok {A} (r : result CodecError A) a f (Q : outcome CodecError A → Fields → Prop) :
  r = Ok a → Q (Ret a) f → wp (st_lift r) Q f.
Proof. by intros ->. Qed.
Lemma wp_require_true (P : Prop) `{Decision P} e f (Q : outcome CodecError unit → Fields → Prop) :
  P → Q (Ret tt) f → wp (st_require P e) Q f.
Proof. intros HP HQ. unfold wp, st_require. by rewrite decide_True. Qed.

(** ** Writing fields *)

(** The encoder returns only in states that satisfy [P]. *)
Definition writes (P : WireRecord → Prop) : outcome CodecError unit → WireRecord → Prop := λ r s,
  match r with
  | Ret _ => P s
  | _ => True
  end.
Lemma wp_field n v k w (Q : outcome CodecError unit → WireRecord → Prop) :
  Q (Ret tt) (mk_record k (w ++ [(n, v)])) → (∀ e, Q (Throw e) (mk_record k w)) →
  wp (field n v) Q (mk_record k w).
Proof. intros HQ He. unfold field. apply wp_bind, wp_require; [done|]. intros _. apply He. Qed.
Lemma wp_field_result n r k w (Q : outcome CodecError unit → WireRecord → Prop) :
  (∀ v, r = Ok v → Q (Ret tt) (mk_record k (w ++ [(n, v)]))) → (∀ e, Q (Throw e) (mk_record k w)) →
  wp (field_result n r) Q (mk_record k w).
Proof.
  intros HQ He. unfold field_result. apply wp_bind, wp_lift; [|intros; apply He].
  intros v Hv. apply wp_field; [by apply HQ|done].
Qed.
Lemma wp_optional_int n o k w (Q : outcome CodecError unit → WireRecord → Prop) :
  Q (Ret tt) (mk_record k (w ++ match o with Some z => [(n, pretty z)] | None => [] end)) →
  (∀ e, Q (Throw e) (mk_record k w)) → wp (optional_int n o) Q (mk_record k w).
Proof.
  intros HQ He. destruct o as [z|]; simpl; [by apply wp_field|]. rewrite app_nil_r in HQ. exact HQ.
Qed.
