(* ===== verification/CodecLaws.v ===== *)
(** The round trip of the wire format: what [encode_line] writes, [decode_line] reads,
    for every message that the types of the source allow, up to the few values that
    only the decoder refuses. *)
From S2P Require Import Prelude BTree Text Types CodecValue ValueLaws Encode Decode StateLaws RecordLaws.
From S2P Require Command Protocol.
From Stdlib Require Import Ascii.
From stdpp Require Import pretty.
#[local] Open Scope Z_scope.

(** ** Messages that the types allow

    Strings are UTF-8, integers have their widths, identifiers are not zero.  What the
    encoder accepts and the decoder does not is excluded too: no strip and no input in a
    snapshot, no domain, overlay durations out of range, repeated channels, an empty
    permission, a failure that is empty or long. *)

Definition str_ok (s : string) : Prop := utf8 s = true.
Definition id_str_ok (s : option string) : Prop := ∀ x, s = Some x → str_ok x.
Definition opt_u64 (o : option Z) : Prop := ∀ z, o = Some z → in_ty U64 z.
Lemma opt_u64_in z : opt_u64 (Some z) → in_ty U64 z.
Proof. intros Hz. by apply Hz. Qed.
Definition identity_ok (x : Protocol.EngineIdentity) : Prop :=
  str_ok (Protocol.engine_id x) ∧ in_ty U64 (Protocol.state_epoch x) ∧ str_ok (Protocol.log_id x).
Definition server_ok (x : Protocol.ServerIdentity) : Prop :=
  str_ok (Protocol.server_engine_id x) ∧ str_ok (Protocol.server_project_id x) ∧
  in_ty U64 (Protocol.server_state_epoch x) ∧ str_ok (Protocol.server_log_id x).
Definition cursor_ok (x : Protocol.ResumeCursor) : Prop :=
  server_ok (Protocol.resume_server x) ∧ in_ty U64 (Protocol.resume_revision x).
Definition error_ok (x : Protocol.StructuredError) : Prop :=
  str_ok (Protocol.error_code x) ∧ str_ok (Protocol.error_message x) ∧ Forall issue_ok (Protocol.error_fields x).
Definition summary_ok (x : Protocol.CapabilityReportSummary) : Prop :=
  str_ok (Protocol.digest x) ∧ in_ty U32 (Protocol.total x) ∧ in_ty U32 (Protocol.available x) ∧
  in_ty U32 (Protocol.degraded x) ∧ in_ty U32 (Protocol.unavailable x).
Definition manual_ok (x : Protocol.ManualTransitionStatus) : Prop :=
  match x with
  | Protocol.Inactive => True
  | Protocol.Active s =>
      wire_id (Protocol.manual_from s) ∧ wire_id (Protocol.manual_to s) ∧
      0 ≤ Protocol.manual_interval_start s ≤ 10000 ∧ 0 ≤ Protocol.manual_position s ≤ 10000
  end.
Definition fade_ok (x : Protocol.FadeToBlackState) : Prop := in_ty U16 (Protocol.fade_position x).
Definition strips_ok (x : list Protocol.InputAudioStripStatus) : Prop := x ≠ [] ∧ Forall strip_ok x.

Module PayloadOk.
Import Protocol.CommandPayload.
Definition payload_ok (x : t) : Prop :=
  match x with
  | ReorderInputs inputs => Forall wire_id inputs
  | RenameInput input name => wire_id input ∧ str_ok name
  | SetInputAudioStrip input gain balance _ _ _ delay =>
      wire_id input ∧ in_ty I32 gain ∧ in_ty I32 balance ∧ in_ty U32 delay
  | SelectPreview input => wire_id input
  | Fade d | AlphaFade d | Slide d | Zoom d | Wipe d | FadeToBlack _ d => in_ty U32 d
  | Stinger slot d => 1 ≤ slot ≤ 8 ∧ in_ty U32 d
  | ConfigureStinger slot input _ cut _ _ => 1 ≤ slot ≤ 8 ∧ wire_id input ∧ in_ty U32 cut
  | RemoveStinger slot => 1 ≤ slot ≤ 8
  | TakeOverlay channel source | UpdateOverlay channel source | QueueOverlay channel source =>
      1 ≤ channel ≤ 8 ∧ wire_id source
  | OverlayOff channel | TakeNextOverlay channel | ConfigureOverlayAppearance channel _ _ =>
      1 ≤ channel ≤ 8
  | SetOverlayOutputInclusion channel output _ => 1 ≤ channel ≤ 8 ∧ wire_id output
  | ConfigureOverlayTransition channel _ d => 1 ≤ channel ≤ 8 ∧ 1 ≤ d ≤ 3600
  | SetManualTransitionPosition position => 0 ≤ position ≤ 10000
  | StreamStart target | StreamStop target => wire_id target
  | Cut | StartManualTransition _ | CommitManualTransition | CancelManualTransition
  | RecordStart | RecordStop => True
  end.
End PayloadOk.
Definition command_ok (x : Protocol.CommandMessage) : Prop :=
  version_ok (Protocol.protocol x) ∧ str_ok (Protocol.id x) ∧ str_ok (Protocol.idempotency_key x) ∧
  opt_u64 (Protocol.expected_revision x) ∧ opt_u64 (Protocol.deadline_ms x) ∧
  PayloadOk.payload_ok (Protocol.payload x).
Definition result_ok (x : Protocol.CommandResult.t) : Prop :=
  match x with
  | Protocol.CommandResult.Accepted id revision frame => str_ok id ∧ in_ty U64 revision ∧ opt_u64 frame
  | Protocol.CommandResult.Rejected id code message fields revision _ =>
      str_ok id ∧ str_ok code ∧ str_ok message ∧ Forall issue_ok fields ∧ in_ty U64 revision
  end.

Definition named_input_ok (x : Protocol.InputStatus) : Prop :=
  utf8 (Protocol.status_input_name x) = true ∧ wire_id (Protocol.status_input x).
Definition named_output_ok (x : Protocol.OutputStatus) : Prop :=
  utf8 (Protocol.status_output_name x) = true ∧ wire_id (Protocol.status_output x).
Definition snapshot_ok (x : Protocol.SnapshotMessage) : Prop :=
  identity_ok (Protocol.snapshot_engine x) ∧ in_ty U64 (Protocol.snapshot_revision x) ∧
  str_ok (Protocol.show_name x) ∧ Protocol.inputs x ≠ [] ∧ Forall named_input_ok (Protocol.inputs x) ∧
  Forall named_output_ok (Protocol.outputs x) ∧ strips_ok (Protocol.input_audio_strips x) ∧
  wire_id (Protocol.desired_program x) ∧ wire_id (Protocol.desired_preview x) ∧
  wire_id (Protocol.realized_program x) ∧ wire_id (Protocol.realized_preview x) ∧
  manual_ok (Protocol.desired_manual_transition x) ∧ manual_ok (Protocol.realized_manual_transition x) ∧
  fade_ok (Protocol.desired_fade_to_black x) ∧ fade_ok (Protocol.realized_fade_to_black x) ∧
  Forall stinger_ok (Protocol.stingers x) ∧ Forall stream_ok (Protocol.streams x) ∧
  overlays_ok (Protocol.desired_overlays x) ∧ overlays_ok (Protocol.realized_overlays x).
Definition event_payload_ok (x : Protocol.EventPayload.t) : Prop :=
  match x with
  | Protocol.EventPayload.InputOrderChanged inputs => Forall wire_id inputs
  | Protocol.EventPayload.InputRenamed input name => wire_id input ∧ str_ok name
  | Protocol.EventPayload.DesiredSwitcher program preview manual fade overlays strips =>
      wire_id program ∧ wire_id preview ∧ manual_ok manual ∧ fade_ok fade ∧ overlays_ok overlays ∧
      strips_ok strips
  | Protocol.EventPayload.StingerSlotsChanged program preview manual fade stingers overlays strips =>
      wire_id program ∧ wire_id preview ∧ manual_ok manual ∧ fade_ok fade ∧ Forall stinger_ok stingers ∧
      overlays_ok overlays ∧ strips_ok strips
  | Protocol.EventPayload.StreamsChanged streams => Forall stream_ok streams
  | Protocol.EventPayload.RecordingChanged _ => True
  end.
Definition event_message_ok (x : Protocol.EventMessage) : Prop :=
  identity_ok (Protocol.cursor_engine (Protocol.cursor x)) ∧
  in_ty U64 (Protocol.cursor_revision (Protocol.cursor x)) ∧ event_payload_ok (Protocol.event_payload x).
Definition handshake_request_ok (x : Protocol.HandshakeRequest) : Prop :=
  version_ok (Protocol.request_protocol x) ∧ str_ok (Protocol.request_build x) ∧
  (∀ c, Protocol.resume_cursor x = Some c → cursor_ok c).
Definition outcome_ok (x : Protocol.HandshakeOutcome) : Prop :=
  match x with
  | Protocol.OutcomeSnapshot _ => True
  | Protocol.OutcomeResume cursor => cursor_ok cursor
  | Protocol.OutcomeRejected error => error_ok error
  end.
Definition handshake_response_ok (x : Protocol.HandshakeResponse) : Prop :=
  version_ok (Protocol.response_protocol x) ∧ names_ok (Protocol.permissions x) ∧
  summary_ok (Protocol.capabilities x) ∧ server_ok (Protocol.server x) ∧
  in_ty U64 (Protocol.current_revision x) ∧ outcome_ok (Protocol.response_outcome x).
Definition batch_ok (x : Protocol.DurableEventBatch) : Prop :=
  cursor_ok (Protocol.batch_cursor x) ∧ Forall event_ok (Protocol.batch x).
Definition gap_ok (x : Protocol.DurableGap) : Prop :=
  server_ok (Protocol.gap_server x) ∧ in_ty U64 (Protocol.requested_after_revision x) ∧
  in_ty U64 (Protocol.available_from_revision x) ∧ in_ty U64 (Protocol.gap_current_revision x).
Definition lifecycle_ok (x : Protocol.RuntimeLifecycleEvent.t) : Prop :=
  match x with
  | Protocol.RuntimeLifecycleEvent.Accepted | Protocol.RuntimeLifecycleEvent.Preparing => True
  | Protocol.RuntimeLifecycleEvent.Scheduled domains => domains ≠ [] ∧ Forall boundary_ok domains
  | Protocol.RuntimeLifecycleEvent.Realized domain manual fade =>
      str_ok domain ∧ manual_ok manual ∧ fade_ok fade
  | Protocol.RuntimeLifecycleEvent.Failed error _ => error_ok error
  | Protocol.RuntimeLifecycleEvent.Superseded by_revision => in_ty U64 by_revision
  end.
Definition runtime_ok (x : Protocol.RuntimeEventMessage) : Prop :=
  server_ok (Protocol.runtime_server x) ∧ in_ty U64 (Protocol.runtime_revision x) ∧
  in_ty U64 (Protocol.generation x) ∧ in_ty U64 (Protocol.sequence x) ∧
  lifecycle_ok (Protocol.runtime_event x).
Definition heartbeat_ok (x : Protocol.HeartbeatMessage) : Prop :=
  server_ok (Protocol.heartbeat_server x) ∧ in_ty U64 (Protocol.heartbeat_sequence x) ∧
  in_ty U64 (Protocol.sent_at_ms x) ∧ (∀ c, Protocol.last_applied x = Some c → cursor_ok c).
Definition ack_ok (x : Protocol.HeartbeatAcknowledgementMessage) : Prop :=
  server_ok (Protocol.ack_server x) ∧ in_ty U64 (Protocol.ack_sequence x) ∧
  in_ty U64 (Protocol.received_at_ms x).
Definition meters_ok (x : Protocol.AudioMetersMessage) : Prop :=
  server_ok (Protocol.meters_server x) ∧ in_ty U64 (Protocol.meters_sequence x) ∧
  in_ty U64 (Protocol.meters_frame x) ∧ in_ty U64 (Protocol.start_sample x) ∧
  in_ty U64 (Protocol.end_sample x) ∧ Forall meter_ok (Protocol.master x) ∧
  Forall input_meters_ok (Protocol.meter_inputs x).
Definition stream_message_ok (x : Protocol.StreamStatusMessage) : Prop :=
  server_ok (Protocol.streams_server x) ∧ in_ty U64 (Protocol.streams_sequence x) ∧
  Forall sample_ok (Protocol.samples x).
Definition report_ok (x : Protocol.CapabilityReportMessage) : Prop :=
  server_ok (Protocol.report_server x) ∧ in_ty U64 (Protocol.report_revision x) ∧
  summary_ok (Protocol.summary x).
Definition diagnostics_request_ok (x : Protocol.DiagnosticsRequest) : Prop :=
  version_ok (Protocol.diagnostics_protocol x).
Definition diagnostics_response_ok (x : Protocol.DiagnosticsResponse) : Prop :=
  version_ok (Protocol.diagnosed_protocol x) ∧ identity_ok (Protocol.diagnosed_engine x) ∧
  in_ty U64 (Protocol.diagnosed_revision x) ∧ opt_u64 (Protocol.oldest_retained_revision x) ∧
  opt_u64 (Protocol.newest_retained_revision x) ∧ in_ty U32 (Protocol.subscriber_count x) ∧
  in_ty U32 (Protocol.retained_events_limit x) ∧ in_ty U32 (Protocol.subscriber_limit x) ∧
  in_ty U32 (Protocol.subscriber_queue_limit x).
Definition error_message_ok (x : Protocol.ErrorMessage) : Prop :=
  id_str_ok (Protocol.error_request_id x) ∧ opt_u64 (Protocol.error_current_revision x) ∧
  error_ok (Protocol.message_error x).
Definition wire_ok (m : Protocol.WireMessage.t) : Prop :=
  match m with
  | Protocol.WireMessage.Command m => command_ok m
  | Protocol.WireMessage.CommandResult m => result_ok m
  | Protocol.WireMessage.Snapshot m => snapshot_ok m
  | Protocol.WireMessage.Event m => event_message_ok m
  | Protocol.WireMessage.HandshakeRequest m => handshake_request_ok m
  | Protocol.WireMessage.HandshakeResponse m => handshake_response_ok m
  | Protocol.WireMessage.DurableEventBatch m => batch_ok m
  | Protocol.WireMessage.DurableGap m => gap_ok m
  | Protocol.WireMessage.RuntimeEvent m => runtime_ok m
  | Protocol.WireMessage.Heartbeat m => heartbeat_ok m
  | Protocol.WireMessage.HeartbeatAcknowledgement m => ack_ok m
  | Protocol.WireMessage.AudioMeters m => meters_ok m
  | Protocol.WireMessage.StreamStatus m => stream_message_ok m
  | Protocol.WireMessage.CapabilityReport m => report_ok m
  | Protocol.WireMessage.DiagnosticsRequest m => diagnostics_request_ok m
  | Protocol.WireMessage.DiagnosticsResponse m => diagnostics_response_ok m
  | Protocol.WireMessage.Error m => error_message_ok m
  end.

(** ** Automation *)

Lemma ok_or_known {A} (e : CodecError) (o : option A) a : o = Some a → ok_or e o = Ok a.
Proof. by intros ->. Qed.
Lemma validate_duration_known d f : 1 ≤ d ≤ 3600 → validate_overlay_duration d f = Ok tt.
Proof.
  intros Hd. unfold validate_overlay_duration, overlay_duration_valid. by rewrite bool_decide_eq_true_2.
Qed.
Lemma manual_position_known p : 0 ≤ p ≤ 10000 → Protocol.manual_position_new p = Some p.
Proof.
  intros Hp. unfold Protocol.manual_position_new, Protocol.MANUAL_POSITION_MAX.
  by rewrite decide_True by lia.
Qed.
Lemma parse_position_known p :
  0 ≤ p ≤ 10000 → parse_int U16 (pretty p) ≫= Protocol.manual_position_new = Some p.
Proof. intros Hp. rewrite parse_pretty by int_lia. by apply manual_position_known. Qed.
Create HintDb wire.
#[export] Hint Resolve parse_version_ok parse_client_type_ok parse_role_ok parse_manual_kind_ok
  decode_overlay_transition_ok decode_overlay_position_ok decode_overlay_border_ok
  parse_audio_policy_ok parse_missing_media_fallback_ok parse_snapshot_reason_ok
  parse_failure_disposition_ok parse_input_pretty parse_bit_bit wire_slot_ok wire_channel_ok opt_u64_in
  ok_or_known validate_duration_known manual_position_known parse_position_known : wire.

Ltac unfold_head m :=
  lazymatch m with
  | ?f _ => unfold_head f
  | ?f => unfold f
  end.
(** Project the fields of the message that is encoded. *)
Ltac projections :=
  cbn beta iota; cbn [is_some negb kind record_fields manual_names fade_names cursor_names
    Protocol.major Protocol.minor Protocol.server_engine_id Protocol.server_project_id
    Protocol.server_state_epoch Protocol.server_log_id Protocol.resume_server
    Protocol.resume_revision Protocol.engine_id Protocol.state_epoch Protocol.log_id
    Protocol.cursor_engine Protocol.cursor_revision Protocol.error_code Protocol.error_message
    Protocol.error_fields Protocol.error_retryable Protocol.request_protocol Protocol.request_build
    Protocol.request_client_type Protocol.desired_role Protocol.resume_cursor Protocol.digest
    Protocol.total Protocol.available Protocol.degraded Protocol.unavailable
    Protocol.response_protocol Protocol.granted_role Protocol.permissions Protocol.capabilities
    Protocol.server Protocol.current_revision Protocol.response_outcome Protocol.manual_kind
    Protocol.manual_from Protocol.manual_to Protocol.manual_interval_start Protocol.manual_position
    Protocol.target_active Protocol.fade_position Protocol.slot Protocol.media_input
    Protocol.preload Protocol.cut_point_frames Protocol.audio_policy Protocol.missing_media_fallback
    Protocol.readiness Protocol.channel Protocol.source Protocol.active Protocol.opacity
    Protocol.overlay_transition Protocol.overlay_duration_frames Protocol.position Protocol.border
    Protocol.queued_sources Protocol.included_outputs Protocol.stream_target Protocol.stream_name
    Protocol.desired_running Protocol.realized Protocol.detail Protocol.strip_input
    Protocol.gain_millidb Protocol.balance_basis_points Protocol.muted Protocol.soloed
    Protocol.follow_video Protocol.delay_samples Protocol.status_input Protocol.status_input_name
    Protocol.status_output Protocol.status_output_name Protocol.protocol Protocol.id
    Protocol.idempotency_key Protocol.expected_revision Protocol.deadline_ms Protocol.payload
    Protocol.snapshot_engine Protocol.snapshot_revision Protocol.show_name Protocol.inputs
    Protocol.outputs Protocol.input_audio_strips Protocol.desired_program Protocol.desired_preview
    Protocol.realized_program Protocol.realized_preview Protocol.desired_manual_transition
    Protocol.realized_manual_transition Protocol.desired_fade_to_black
    Protocol.realized_fade_to_black Protocol.stingers Protocol.streams
    Protocol.record_desired_active Protocol.desired_overlays Protocol.realized_overlays
    Protocol.cursor Protocol.event_payload Protocol.gap_server Protocol.requested_after_revision
    Protocol.available_from_revision Protocol.gap_current_revision Protocol.boundary_domain
    Protocol.boundary Protocol.runtime_server Protocol.runtime_revision Protocol.generation
    Protocol.sequence Protocol.runtime_event Protocol.heartbeat_server Protocol.heartbeat_sequence
    Protocol.sent_at_ms Protocol.last_applied Protocol.ack_server Protocol.ack_sequence
    Protocol.received_at_ms Protocol.peak_millionths Protocol.rms_millionths Protocol.meter_input
    Protocol.channels Protocol.meters_server Protocol.meters_sequence Protocol.meters_frame
    Protocol.start_sample Protocol.end_sample Protocol.master Protocol.meter_inputs
    Protocol.sample_target Protocol.sample_realized Protocol.connected Protocol.muxed_bytes
    Protocol.enqueued_pairs Protocol.dropped_pairs Protocol.failure Protocol.streams_server
    Protocol.streams_sequence Protocol.samples Protocol.report_server Protocol.report_revision
    Protocol.summary Protocol.diagnostics_protocol Protocol.request_id Protocol.diagnosed_protocol
    Protocol.diagnosed_request_id Protocol.diagnosed_engine Protocol.diagnosed_revision
    Protocol.oldest_retained_revision Protocol.newest_retained_revision Protocol.subscriber_count
    Protocol.retained_events_limit Protocol.subscriber_limit Protocol.subscriber_queue_limit
    Protocol.durable_sequence Protocol.event_type Protocol.durable_payload Protocol.batch_cursor
    Protocol.batch Protocol.error_request_id Protocol.error_current_revision Protocol.message_error].
(** Run an encoder: every error is a return that [writes] does not speak of. *)
Ltac put :=
  repeat (projections; match goal with
  | |- wp (mbind _ _) _ _ => apply wp_bind
  | |- wp (field _ _) _ _ => apply wp_field; [|intros ?; exact I]
  | |- wp (field_int _ _) _ _ => unfold field_int
  | |- wp (field_bool _ _) _ _ => unfold field_bool
  | |- wp (field_result _ _) _ _ => apply wp_field_result; [intros ? ?|intros ?; exact I]
  | |- wp (optional_int _ ?o) _ _ => destruct o; unfold optional_int at 1
  | |- wp (match ?o with Some _ => _ | None => _ end) _ _ => destruct o
  | |- wp (set_kind _) _ _ => apply wp_modify
  | |- wp (mret _) _ _ => apply wp_ret
  | |- wp (st_lift _) _ _ => apply wp_lift; [intros ? ?|intros ? ?; exact I]
  | |- wp (st_require _ _) _ _ => apply wp_require; [intros ?|intros ?; exact I]
  | |- wp (st_expect _) _ _ => apply wp_expect; [intros ? [= <-]|intros ?; exact I]
  | |- wp st_panic _ _ => exact I
  | |- wp (match _ with _ => _ end) _ _ => fail 1
  | |- wp ?m _ _ => unfold_head m
  end).
(** The side conditions of a decoder, from what is known of the message. *)
Ltac known := cbn beta; first [eassumption | solve [eauto with wire] | int_lia].
Ltac taken :=
  let f := fresh "f" in let Hf := fresh "Hf" in
  intros f Hf; cbn [drop_field String.eqb Ascii.eqb Bool.eqb] in Hf.
Ltac take :=
  repeat (projections; match goal with
  | |- wp (mbind _ _) _ _ => apply wp_bind
  | |- wp (mret _) _ _ => apply wp_ret
  | H : holds ?f _ |- wp (optional _) _ ?f => eapply wp_optional; [exact H|]; clear H; taken
  | H : holds ?f _ |- wp (required _) _ ?f => eapply wp_required; [exact H|reflexivity|]; clear H; taken
  | H : holds ?f _ |- wp (boolean _) _ ?f => eapply wp_boolean; [exact H|reflexivity|]; clear H; taken
  | H : holds ?f _ |- wp (input _) _ ?f => eapply wp_input; [exact H|reflexivity|known|]; clear H; taken
  | H : holds ?f _ |- wp (required_as parse_input _) _ ?f =>
      eapply wp_input; [exact H|reflexivity|known|]; clear H; taken
  | H : holds ?f _ |- wp (required_as _ _) _ ?f =>
      eapply wp_required_as; [exact H|reflexivity|known|]; clear H; taken
  | H : holds ?f _ |- wp (required_list _ _) _ ?f =>
      eapply wp_required_list; [exact H|reflexivity|known|]; clear H; taken
  | H : holds ?f _ |- wp (parse_required _ _) _ ?f =>
      eapply wp_parse_required; [exact H|reflexivity|known|]; clear H; taken
  | H : holds ?f _ |- wp (parse_numbered _ _) _ ?f =>
      eapply wp_numbered; [exact H|reflexivity|int_lia|known|]; clear H; taken
  | H : holds ?f _ |- wp (parse_optional _ _) _ ?f =>
      first [eapply wp_parse_some; [exact H|reflexivity|known|]
            |eapply wp_parse_none; [exact H|reflexivity|]]; clear H; taken
  | |- wp (st_lift _) _ _ => eapply wp_lift_Ok; [known|]
  | |- wp (st_require _ _) _ _ => apply wp_require_true; [known|]
  | |- wp (st_expect _) _ _ => apply wp_expect; [intros ? [= <-]|discriminate]
  | |- wp (required_as _ _) _ _ => fail 1
  | |- wp (required_list _ _) _ _ => fail 1
  | |- wp (parse_required _ _) _ _ => fail 1
  | |- wp (parse_optional _ _) _ _ => fail 1
  | |- wp (parse_numbered _ _) _ _ => fail 1
  | |- wp (st_require _ _) _ _ => fail 1
  | |- wp (st_lift _) _ _ => fail 1
  | |- wp ?m _ _ => unfold_head m
  end).
(** The other parts of [record_decodes]: the names are known, the values are strings of
    the message or ASCII. *)
Ltac string_ok := simpl; first [eassumption | apply ascii_only_utf8; text | solve [eauto with wire]].
Ltac decodes :=
  split; [reflexivity
    | apply (bool_decide_eq_true_1 _); vm_compute; reflexivity
    | repeat (apply Forall_cons; split; [split; [reflexivity|string_ok]|]); apply Forall_nil; exact I
    | cbn [length app]; unfold MAX_FIELDS_PER_MESSAGE; lia
    | let f := fresh "f" in let Hf := fresh "Hf" in intros f Hf; cbn [app] in Hf ].

Lemma version_ascii v : ascii_only (version v) = true.
Proof. unfold version. text. Qed.
Lemma client_type_ascii x : ascii_only (client_type x) = true.
Proof. by destruct x. Qed.
Lemma role_ascii x : ascii_only (role x) = true.
Proof. by destruct x. Qed.
Lemma manual_kind_ascii x : ascii_only (manual_kind x) = true.
Proof. by destruct x. Qed.
Lemma snapshot_reason_ascii x : ascii_only (snapshot_reason x) = true.
Proof. by destruct x. Qed.
Lemma failure_disposition_ascii x : ascii_only (failure_disposition x) = true.
Proof. by destruct x. Qed.
#[export] Hint Rewrite version_ascii client_type_ascii role_ascii manual_kind_ascii snapshot_reason_ascii
  failure_disposition_ascii : text.
Lemma request_id_ascii s a : validate_request_id s = Ok a → ascii_only s = true.
Proof.
  unfold validate_request_id, ascii_only. destruct (decide _) as [|Hv]; [done|]. intros _.
  destruct (forallb (λ b, bool_decide (33 ≤ b ≤ 126)) (str_bytes s)) eqn:Hb; [|naive_solver]. clear Hv.
  induction (str_bytes s) as [|b l IH]; [done|]. simpl in *. apply andb_true_iff in Hb as [Hb Hl].
  rewrite IH, andb_true_r by done. apply bool_decide_eq_true. apply bool_decide_eq_true in Hb. lia.
Qed.
(** What the lists that were encoded are known to be. *)
Ltac facts :=
  repeat match goal with
  | H : validate_request_id ?v = Ok _ |- _ =>
      lazymatch goal with
      | _ : ascii_only v = true |- _ => fail
      | _ => pose proof (request_id_ascii _ _ H)
      end
  | H : _ = Ok _ |- _ =>
      first [ apply input_ids_roundtrip in H; [|assumption]
            | apply string_list_roundtrip in H; [|assumption]
            | apply field_issues_roundtrip in H; [|assumption]
            | apply input_statuses_roundtrip in H; [|assumption..]
            | apply output_statuses_roundtrip in H; [|assumption]
            | apply stream_statuses_roundtrip in H; [|assumption]
            | apply durable_events_roundtrip in H; [|assumption..]
            | apply runtime_domains_roundtrip in H; [|assumption..]
            | apply strips_roundtrip in H; [|assumption..]
            | apply stingers_roundtrip in H; [|assumption]
            | apply overlays_roundtrip in H; [|assumption]
            | apply samples_roundtrip in H; [|assumption] ];
      destruct H as [? ?]
  end.

Definition decodes_as (m : Protocol.WireMessage.t) (r : WireRecord) : Prop :=
  record_decodes (kind r) (record_fields r) m.
Ltac finished :=
  split; [reflexivity | match goal with H : holds ?f _ |- ?f = [] => exact (holds_nil f H) end].
Ltac round_trip :=
  unfold record_default; put; destruct_and?; facts; unfold decodes_as; cbn [kind record_fields writes]; decodes; take;
  try finished.
Lemma command_writes m :
  command_ok m → wp (encode_command m) (writes (decodes_as (Protocol.WireMessage.Command m))) record_default.
Proof.
  destruct m as [v i k e d p]. intros (Hv&Hi&Hk&He&Hd&Hp).
  destruct p; simpl in *; destruct_and?; round_trip.
Qed.
Lemma result_writes m :
  result_ok m → wp (encode_result m) (writes (decodes_as (Protocol.WireMessage.CommandResult m))) record_default.
Proof. destruct m; simpl; intros ?; destruct_and!; round_trip. Qed.
Ltac take_apart := simpl in *; repeat (match goal with
  | H : identity_ok ?x |- _ => destruct x; destruct H as (?&?&?)
  | H : server_ok ?x |- _ => destruct x; destruct H as (?&?&?&?)
  | H : cursor_ok ?x |- _ => destruct x; destruct H as (?&?)
  | H : error_ok ?x |- _ => destruct x; destruct H as (?&?&?)
  | H : summary_ok ?x |- _ => destruct x; destruct H as (?&?&?&?&?)
  | H : fade_ok ?x |- _ => destruct x; unfold fade_ok in H
  | H : strips_ok _ |- _ => destruct H as [? ?]
  | H : manual_ok ?x |- _ => destruct x as [|[]]; [clear H|destruct H as (?&?&?&?)]
  | H : ∀ c, ?x = Some c → cursor_ok c |- _ => destruct x; [specialize (H _ eq_refl)|clear H]
  | H : id_str_ok ?x |- _ => destruct x; [specialize (H _ eq_refl)|clear H]
  end; simpl in *).
Lemma snapshot_writes m :
  snapshot_ok m → wp (encode_snapshot m) (writes (decodes_as (Protocol.WireMessage.Snapshot m))) record_default.
Proof.
  destruct m. intros Hm. unfold snapshot_ok in Hm. simpl in Hm. destruct_and!. take_apart; round_trip.
Qed.
Lemma event_writes m :
  event_message_ok m → wp (encode_event m) (writes (decodes_as (Protocol.WireMessage.Event m))) record_default.
Proof.
  destruct m as [[i r] p]. intros (Hi&Hr&Hp). simpl in *.
  destruct p; simpl in Hp; destruct_and?; take_apart; round_trip.
Qed.
Lemma handshake_request_writes m :
  handshake_request_ok m →
  wp (encode_handshake_request m) (writes (decodes_as (Protocol.WireMessage.HandshakeRequest m))) record_default.
Proof. destruct m. intros (?&?&?). simpl in *. take_apart; round_trip. Qed.
Lemma handshake_response_writes m :
  handshake_response_ok m →
  wp (encode_handshake_response m) (writes (decodes_as (Protocol.WireMessage.HandshakeResponse m))) record_default.
Proof.
  destruct m as [????? rev outcome]. intros (?&?&?&?&?&Ho). simpl in *.
  destruct outcome; simpl in Ho; take_apart; round_trip.
Qed.
Lemma gap_writes m :
  gap_ok m → wp (encode_durable_gap m) (writes (decodes_as (Protocol.WireMessage.DurableGap m))) record_default.
Proof. destruct m. intros (?&?&?&?). simpl in *. take_apart. round_trip. Qed.
Lemma batch_writes m :
  batch_ok m → wp (encode_durable_batch m) (writes (decodes_as (Protocol.WireMessage.DurableEventBatch m))) record_default.
Proof. destruct m. intros (?&?). simpl in *. take_apart. round_trip. Qed.
Lemma runtime_writes m :
  runtime_ok m → wp (encode_runtime_event m) (writes (decodes_as (Protocol.WireMessage.RuntimeEvent m))) record_default.
Proof.
  destruct m as [???? e]. intros (?&?&?&?&He). simpl in *.
  destruct e; simpl in He; destruct_and?; take_apart; round_trip.
Qed.
Lemma heartbeat_writes m :
  heartbeat_ok m → wp (encode_heartbeat m) (writes (decodes_as (Protocol.WireMessage.Heartbeat m))) record_default.
Proof. destruct m. intros (?&?&?&?). simpl in *. take_apart; round_trip. Qed.
Lemma ack_writes m :
  ack_ok m →
  wp (encode_heartbeat_acknowledgement m)
    (writes (decodes_as (Protocol.WireMessage.HeartbeatAcknowledgement m))) record_default.
Proof. destruct m. intros (?&?&?). simpl in *. take_apart; round_trip. Qed.
Lemma report_writes m :
  report_ok m → wp (encode_capability_report m) (writes (decodes_as (Protocol.WireMessage.CapabilityReport m))) record_default.
Proof. destruct m. intros (?&?&?). simpl in *. take_apart; round_trip. Qed.
Lemma diagnostics_response_writes m :
  diagnostics_response_ok m →
  wp (encode_diagnostics_response m) (writes (decodes_as (Protocol.WireMessage.DiagnosticsResponse m))) record_default.
Proof. destruct m. intros (?&?&?&?&?&?&?&?&?). simpl in *. take_apart; round_trip. Qed.
Lemma error_message_writes m :
  error_message_ok m → wp (encode_error_message m) (writes (decodes_as (Protocol.WireMessage.Error m))) record_default.
Proof. destruct m. intros (?&?&?). simpl in *. take_apart; round_trip. Qed.
Lemma diagnostics_request_writes m :
  diagnostics_request_ok m →
  wp (encode_diagnostics_request m) (writes (decodes_as (Protocol.WireMessage.DiagnosticsRequest m))) record_default.
Proof. destruct m. intros ?. unfold diagnostics_request_ok in *. take_apart. round_trip. Qed.
Lemma stream_status_writes m :
  stream_message_ok m →
  wp (encode_stream_status m) (writes (decodes_as (Protocol.WireMessage.StreamStatus m))) record_default.
Proof. destruct m. intros (?&?&?). take_apart. round_trip. Qed.
Lemma meters_writes m :
  meters_ok m → wp (encode_audio_meters m) (writes (decodes_as (Protocol.WireMessage.AudioMeters m))) record_default.
Proof.
  destruct m as [server seq frame s e master inputs]. intros (?&?&?&?&?&Hm&Hi). take_apart.
  unfold encode_audio_meters, record_default. put.
  match goal with H : encode_meter_channels _ _ = Ok ?v, H1 : mapM_seen _ _ _ = Ok ?encs, Hc : (1 ≤ length master ≤ _)%nat |- _ =>
    pose proof (meters_roundtrip _ _ "master" _ H Hm Hc);
    assert (ascii_only v = true) by (apply encode_meter_Ok in H as [_ ->]; apply meters_text);
    apply meter_inputs_roundtrip in H1 as [? ?]; [|done|done|lia] end.
  unfold decodes_as. cbn [kind record_fields writes]. decodes. take. finished.
Qed.

(** ** The round trip *)

Lemma message_writes m :
  wire_ok m → wp (encode_message m) (writes (decodes_as m)) record_default.
Proof.
  destruct m; simpl; [apply command_writes|apply result_writes|apply snapshot_writes|apply event_writes
    |apply handshake_request_writes|apply handshake_response_writes|apply batch_writes|apply gap_writes
    |apply runtime_writes|apply heartbeat_writes|apply ack_writes|apply meters_writes
    |apply stream_status_writes|apply report_writes|apply diagnostics_request_writes
    |apply diagnostics_response_writes|apply error_message_writes].
Qed.
(** The escapes of a message leave every field within what the decoder takes. *)
Definition fields_fit (m : Protocol.WireMessage.t) : bool :=
  forallb (λ p, value_fits p.2) (record_fields (encode_message m record_default).1).
Lemma line_decodes m line :
  encode_line m = Ret line → wire_ok m →
  decode_line line = if fields_fit m then Ret m else Throw FieldValueTooLong.
Proof.
  intros He Hm. unfold encode_line in He. pose proof (message_writes m Hm) as Hw. unfold fields_fit, wp in *.
  destruct (encode_message m record_default) as [r [[]|e|]]; [|done..]. simpl in Hw.
  destruct (record_finish r) as [l|] eqn:Hr; [|done]. injection He as <-. simpl.
  exact (decode_record _ _ _ Hr Hw).
Qed.
