(* ===== verification/CodecSafety.v ===== *)
(** What the wire format guarantees: lines are read back as they were meant, nothing a
    peer sends panics the decoder, a line is framed, and [LineDecoder] delivers what was
    sent, however the stream is cut. *)
From S2P Require Import Prelude BTree Text Types CodecValue ValueLaws Encode Decode StateLaws.
From S2P Require Import RecordLaws CodecLaws.
From S2P Require Command Protocol.
From Stdlib Require Import Ascii.
#[local] Open Scope Z_scope.

(** ** No panic *)

Definition safe {S A} (m : stm S CodecError A) : Prop := ∀ s, (m s).2 ≠ Panic.
Lemma safe_bind {S A B} (m : stm S CodecError A) (k : A → stm S CodecError B) : safe m → (∀ a, safe (k a)) → safe (m ≫= k).
Proof.
  intros Hm Hk s. specialize (Hm s). unfold mbind, stm_bind. destruct (m s) as [s' [a|e|]]; [apply Hk|done..].
Qed.
Lemma safe_ret {S A} (a : A) : safe (mret a : stm S CodecError A).
Proof. done. Qed.
Lemma safe_throw {S A} (e : CodecError) : safe (mthrow e : stm S CodecError A).
Proof. done. Qed.
Lemma safe_lift {S A} (r : result CodecError A) : safe (st_lift r : stm S CodecError A).
Proof. intros s. unfold st_lift. by destruct r. Qed.
Lemma safe_require {S} (P : Prop) `{Decision P} e : safe (st_require P e : stm S CodecError unit).
Proof. intros s. unfold st_require. by case_decide. Qed.
Lemma safe_modify {S} (f : S → S) : safe (st_modify f : stm S CodecError unit).
Proof. done. Qed.
Lemma safe_optional n : safe (optional n).
Proof. done. Qed.
Ltac safely :=
  repeat (cbn [cursor_names manual_names fade_names]; match goal with
  | |- safe (mbind _ _) => apply safe_bind; [|intros ?]
  | |- safe (mret _) => apply safe_ret
  | |- safe (mthrow _) => apply safe_throw
  | |- safe (st_lift _) => apply safe_lift
  | |- safe (st_require _ _) => apply safe_require
  | |- safe (st_modify _) => apply safe_modify
  | |- safe (optional _) => apply safe_optional
  | |- safe (match ?x with _ => _ end) => destruct x
  | |- safe (st_expect (Some _)) => exact (safe_ret _)
  | |- safe (Payload.decode_command_payload _) => fail 1
  | |- safe (decode_event_payload _) => fail 1
  | |- safe (decode_lifecycle_event _) => fail 1
  | |- safe (decode_outcome _ _ _) => fail 1
  | |- safe decode_result => fail 1
  | |- safe ?m => unfold_head m
  end).
Lemma decode_overlay_command_safe n : n ∈ ["overlay_take";"overlay_update";"overlay_off";"overlay_output";"overlay_transition";
 "overlay_appearance";"overlay_queue";"overlay_next"] → safe (Payload.decode_overlay_command n).
Proof.
  intros Hn. repeat (apply elem_of_cons in Hn as [->|Hn]); [safely..|]. by apply not_elem_of_nil in Hn.
Qed.
Lemma decode_payload_safe n : safe (Payload.decode_command_payload n).
Proof.
  refine (match n with
    "input_reorder"
  | "input_rename"
  | "input_audio_strip"
  | "select_preview"
  | "cut"
  | "fade"
  | "alpha_fade"
  | "slide"
  | "zoom"
  | "stinger"
  | "configure_stinger"
  | "remove_stinger"
  | "overlay_take"
  | "overlay_update"
  | "overlay_off"
  | "overlay_output"
  | "overlay_transition"
  | "overlay_appearance"
  | "overlay_queue"
  | "overlay_next"
  | "stream_start"
  | "stream_stop"
  | "record_start"
  | "record_stop"
  | "wipe"
  | "fade_to_black"
  | "manual_start"
  | "manual_position"
  | "manual_commit"
  | "manual_cancel" => _
    | other => safe_throw (InvalidField "payload" other)
    end).
  all: unfold Payload.decode_command_payload; safely.
Qed.

Lemma decode_event_payload_safe n : safe (decode_event_payload n).
Proof.
  refine (match n with
    "input_order_changed"
  | "input_renamed"
  | "desired_switcher"
  | "stinger_slots_changed"
  | "streams_changed"
  | "recording_changed" => _
    | other => safe_throw (InvalidField "event" other)
    end).
  all: unfold decode_event_payload; safely.
Qed.
Lemma decode_lifecycle_safe n : safe (decode_lifecycle_event n).
Proof.
  refine (match n with
    "accepted"
  | "preparing"
  | "scheduled"
  | "realized"
  | "failed"
  | "superseded" => _
    | other => safe_throw (InvalidField "event" other)
    end).
  all: unfold decode_lifecycle_event; safely.
Qed.
Lemma decode_outcome_safe server revision n : safe (decode_outcome server revision n).
Proof.
  refine (match n with
    "snapshot"
  | "resume"
  | "rejected" => _
    | other => safe_throw (InvalidField "outcome" other)
    end).
  all: unfold decode_outcome; safely.
Qed.
Lemma decode_result_safe : safe decode_result.
Proof.
  unfold decode_result. apply safe_bind; [safely|]. intros n.
  refine (match n with
    "accepted" | "rejected" => _
    | other => safe_throw (InvalidField "status" other)
    end).
  all: safely.
Qed.
Lemma decode_message_safe n : safe (decode_message n).
Proof.
  refine (match n with
    "command"
  | "command_result"
  | "snapshot"
  | "event"
  | "handshake_request"
  | "handshake_response"
  | "durable_event_batch"
  | "durable_gap"
  | "runtime_event"
  | "heartbeat"
  | "heartbeat_acknowledgement"
  | "audio_meters"
  | "stream_status"
  | "capability_report"
  | "diagnostics_request"
  | "diagnostics_response"
  | "error" => _
    | other => safe_throw (UnknownMessage other)
    end).
  all: unfold decode_message; safely; apply decode_payload_safe || apply decode_event_payload_safe || apply decode_lifecycle_safe || apply decode_outcome_safe || apply decode_result_safe.
Qed.

Lemma decode_line_safe line : decode_line line ≠ Panic.
Proof.
  unfold decode_line. destruct (decide _); [done|]. destruct (strip_newline line); [|done].
  destruct (negb _); [done|]. destruct (str_split _ _) as [|kind parts]; [done|]. destruct (decide _); [done|].
  destruct (fields_parse [] parts) as [f|]; [|done]. pose proof (decode_message_safe kind f) as Hs.
  destruct (decode_message kind f) as [f' [m|e|]]; [|done..]. by destruct (fields_finish f').
Qed.
Lemma encode_message_safe m : safe (encode_message m).
Proof. destruct m; unfold encode_message; safely. Qed.
Lemma encode_line_safe m : encode_line m ≠ Panic.
Proof.
  unfold encode_line. pose proof (encode_message_safe m record_default) as Hs.
  destruct (encode_message m record_default) as [r [u|e|]]; [|done..]. by destruct (record_finish r).
Qed.

(** ** Framing *)

(** [line] is one record: its only newline is its last byte. *)
Definition framed (line : string) : Prop :=
  ∃ body, line = body +:+ String "010" "" ∧ lacks "010" body = true ∧ ascii_only line = true ∧
    (str_len line ≤ MAX_LINE_BYTES)%nat.
Lemma part_ascii p : name_ok p.1 = true → ascii_only (part p) = true.
Proof.
  intros [[_ Hv]%andb_true_iff _]%andb_true_iff. unfold part. change (String "=" ?x) with ("=" +:+ x).
  assert (Hn : ascii_only p.1 = true); [|text].
  unfold ascii_only. induction (str_bytes p.1) as [|b l IH]; [done|]. simpl in *.
  apply andb_true_iff in Hv as [Hb Hl]. rewrite IH, andb_true_r by done. apply bool_decide_eq_true.
  unfold valid_field_byte in Hb. apply bool_decide_eq_true in Hb. lia.
Qed.
(** What is written before a value: the kind and the names of the fields. *)
Definition framing (r : WireRecord) : Prop :=
  (lacks "010" (kind r) && ascii_only (kind r) && bool_decide (str_len (kind r) ≤ MAX_LINE_BYTES)%nat = true) ∧
  Forall (λ p, name_ok p.1 = true) (record_fields r).
Lemma record_framed r line : record_finish r = Ok line → framing r → framed line.
Proof.
  destruct r as [k w]. intros Hfin [[[Hk Ha]%andb_true_iff Hlen%bool_decide_eq_true]%andb_true_iff Hw]. simpl in *.
  apply record_finish_Ok in Hfin as [-> Hmax]; [|done]. simpl in *.
  exists (k +:+ parts_text w). split; [done|]. rewrite parts_join in *.
  assert (Hparts : Forall (λ p, lacks "010" (part p) = true ∧ ascii_only (part p) = true) w).
  { eapply Forall_impl; [exact Hw|]. intros p Hn. split; [by apply part_lacks|by apply part_ascii]. }
  split_and!; [apply lacks_join; [done|]|rewrite ascii_only_app, andb_true_r; apply ascii_only_join; [done|]|done];
    (constructor; [done|]; apply Forall_fmap; eapply Forall_impl; [exact Hparts|]; intros p [??]; done).
Qed.

(** An encoder that names its fields properly, whatever the values in them. *)
Definition tidy {A} (m : encoder A) : Prop := ∀ r, framing r → framing (m r).1.
Lemma tidy_bind {A B} (m : encoder A) (k : A → encoder B) : tidy m → (∀ a, tidy (k a)) → tidy (m ≫= k).
Proof.
  intros Hm Hk r Hr. specialize (Hm r Hr). unfold mbind, stm_bind.
  destruct (m r) as [s [a|e|]]; [by apply Hk|done..].
Qed.
Lemma tidy_ret {A} (a : A) : tidy (mret a : encoder A).
Proof. by intros r. Qed.
Lemma tidy_panic {A} : tidy (st_panic : encoder A).
Proof. by intros r. Qed.
Lemma tidy_lift {A} (x : result CodecError A) : tidy (st_lift x : encoder A).
Proof. intros r. unfold st_lift. by destruct x. Qed.
Lemma tidy_require (P : Prop) `{Decision P} e : tidy (st_require P e : encoder unit).
Proof. intros r. unfold st_require. by case_decide. Qed.
Lemma tidy_field n v : name_ok n = true → tidy (field n v).
Proof.
  intros Hn. apply tidy_bind; [apply tidy_require|]. intros _ r [Hk Hw]. split; [done|]. simpl.
  apply Forall_app. split; [done|]. by apply Forall_singleton.
Qed.
Lemma tidy_kind k :
  lacks "010" k && ascii_only k && bool_decide (str_len k ≤ MAX_LINE_BYTES)%nat = true → tidy (set_kind k).
Proof. intros Hk r [_ Hw]. by split. Qed.
Lemma tidy_expect {A B} (a : A) (k : A → encoder B) : tidy (k a) → tidy (st_expect (Some a) ≫= k).
Proof. done. Qed.
Ltac tidies :=
  repeat (cbn [cursor_names manual_names fade_names]; match goal with
  | |- tidy (mbind _ (st_expect (Some _))) => apply tidy_expect
  | |- tidy (mbind _ _) => apply tidy_bind; [|intros ?]
  | |- tidy (mret _) => apply tidy_ret
  | |- tidy st_panic => apply tidy_panic
  | |- tidy (st_lift _) => apply tidy_lift
  | |- tidy (st_require _ _) => apply tidy_require
  | |- tidy (field _ _) => apply tidy_field; vm_compute; reflexivity
  | |- tidy (set_kind _) => apply tidy_kind; vm_compute; reflexivity
  | |- tidy (match ?x with _ => _ end) => destruct x
  | |- tidy ?m => unfold_head m
  end).
Lemma encode_message_tidy m : tidy (encode_message m).
Proof. destruct m; unfold encode_message; tidies. Qed.
Lemma encode_line_framed m line : encode_line m = Ret line → framed line.
Proof.
  unfold encode_line. intros He.
  assert (Hr : framing record_default) by (split; [vm_compute; reflexivity|constructor]).
  apply (encode_message_tidy m) in Hr. destruct (encode_message m record_default) as [r [[]|e|]]; [|done..].
  destruct (record_finish r) as [l|] eqn:Hl; [|done]. injection He as <-. exact (record_framed _ _ Hl Hr).
Qed.

(** ** Streams *)

(** The reference: one byte at a time. *)
Fixpoint feed (messages : list Protocol.WireMessage.t) (bytes : string) :
    stm LineDecoder CodecError (list Protocol.WireMessage.t) :=
  match bytes with
  | EmptyString => mret messages
  | String c bytes => messages ← push_part messages (String c ""); feed messages bytes
  end.
Definition short (d : LineDecoder) : Prop := (str_len (buffer d) < MAX_LINE_BYTES)%nat.

Lemma ends_line_cons c part : part ≠ "" → ends_line (String c part) = ends_line part.
Proof. by destruct part. Qed.
Lemma str_len_cons c s : str_len (String c s) = S (str_len s).
Proof. done. Qed.
Lemma str_len_pos s : s ≠ "" → (0 < str_len s)%nat.
Proof. destruct s; [done|]. rewrite str_len_cons. lia. Qed.

(** A part may be pushed byte by byte. *)
Lemma push_part_cons messages c part d :
  c ≠ "010"%char → part ≠ "" → short d →
  push_part messages (String c part) d =
  (messages ← push_part messages (String c ""); push_part messages part) d.
Proof.
  intros Hc Hp Hd. pose proof (str_len_pos _ Hp) as Hpos. unfold short in Hd.
  unfold mbind, stm_bind. unfold push_part at 2. cbn [mbind stm_bind st_get].
  unfold mbind, stm_bind, st_get.
  rewrite decide_False by (rewrite str_len_cons; unfold str_len at 2; simpl; lia).
  cbn [ends_line]. rewrite bool_decide_eq_false_2 by done. unfold st_put.
  rewrite str_len_app, str_len_cons. change (str_len "") with 0%nat.
  destruct (decide (str_len (buffer d) + 1 = MAX_LINE_BYTES)%nat) as [Hfull|Hfull].
  - unfold push_part, mbind, stm_bind, st_get. rewrite decide_True by (rewrite str_len_cons; lia). done.
  - unfold mret, stm_ret. unfold push_part, mbind, stm_bind, st_get. cbn [buffer].
    assert (Happ : (buffer d +:+ String c "") +:+ part = buffer d +:+ String c part).
    { by rewrite <-string_app_assoc. }
    assert (Hn : (str_len (buffer d +:+ String c "") + str_len part = str_len (buffer d) + str_len (String c part))%nat).
    { rewrite str_len_app, !str_len_cons. change (str_len "") with 0%nat. lia. }
    rewrite ends_line_cons, Happ, Hn by done. by destruct (decide (MAX_LINE_BYTES < _)%nat).
Qed.
Lemma max_line_pos : (str_len "" < MAX_LINE_BYTES)%nat.
Proof. change (str_len "") with 0%nat. unfold MAX_LINE_BYTES. lia. Qed.
(** What is left after a part is short again, whatever the outcome. *)
Lemma push_part_short messages part d : short (push_part messages part d).1.
Proof.
  unfold push_part, mbind, stm_bind, st_get, short. destruct (decide _) as [|Hl]; [exact max_line_pos|].
  unfold st_put. destruct (ends_line part).
  - destruct (decide _); [exact max_line_pos|]. destruct (negb _); [exact max_line_pos|].
    unfold line_clear, st_put. destruct (decode_line _); exact max_line_pos.
  - destruct (decide _) as [|He]; [exact max_line_pos|]. cbn [fst buffer mret stm_ret]. unfold mret, stm_ret.
    cbn [fst buffer]. rewrite str_len_app in *. lia.
Qed.
Lemma push_parts_short messages parts d : short d → short (push_parts messages parts d).1.
Proof.
  revert messages d. induction parts as [|part parts IH]; intros messages d Hd; [done|].
  cbn [push_parts]. unfold mbind, stm_bind. pose proof (push_part_short messages part d) as Hp.
  destruct (push_part messages part d) as [d' [r|e|]]; [by apply IH|done..].
Qed.
Lemma push_parts_feed messages chunk d :
  short d → push_parts messages (split_inclusive chunk) d = feed messages chunk d.
Proof.
  revert messages d. induction chunk as [|c chunk IH]; intros messages d Hd; [done|]. cbn [split_inclusive feed].
  assert (Hstep : push_parts messages (String c "" :: split_inclusive chunk) d =
    (messages ← push_part messages (String c ""); feed messages chunk) d).
  { cbn [push_parts]. unfold mbind, stm_bind. destruct (push_part messages (String c "") d) as [d' [r|e|]] eqn:Hp; [|done..].
    apply IH. pose proof (push_part_short messages (String c "") d) as Hs. by rewrite Hp in Hs. }
  destruct (decide (c = "010"%char)) as [->|Hc]; [exact Hstep|].
  destruct (split_inclusive chunk) as [|part parts] eqn:Hs; [exact Hstep|]. rewrite <-Hstep. cbn [push_parts].
  assert (Hpart : part ≠ "").
  { clear -Hs. destruct chunk as [|a chunk]; [done|]. simpl in Hs. destruct (decide _); [by injection Hs as <- _|].
    destruct (split_inclusive chunk); by injection Hs as <- _. }
  unfold mbind, stm_bind. rewrite (push_part_cons messages c part d Hc Hpart Hd).
  unfold mbind, stm_bind. destruct (push_part messages (String c "") d) as [d' [r|e|]]; done.
Qed.

(** ** Delivery *)

(** Lines and the messages that they carry. *)
Definition carries (line : string) (m : Protocol.WireMessage.t) : Prop :=
  framed line ∧ decode_line line = Ret m.
Fixpoint str_concat (l : list string) : string :=
  match l with
  | [] => ""
  | s :: l => s +:+ str_concat l
  end.
(** The bytes [txt] are what remains of the lines [rem], of the first of which the
    decoder holds the prefix [b]. *)
Definition remains (b : string) (rem : list (string * Protocol.WireMessage.t)) (txt : string) : Prop :=
  match rem with
  | [] => b = "" ∧ txt = ""
  | (l, m) :: rem =>
      ∃ q, l = (b +:+ q) +:+ String "010" "" ∧ lacks "010" (b +:+ q) = true ∧
        txt = q +:+ String "010" (str_concat rem.*1)
  end.
Lemma remains_start rem :
  Forall (λ p, carries p.1 p.2) rem → remains "" rem (str_concat rem.*1).
Proof.
  destruct rem as [|[l m] rem]; [done|]. intros [[(body&Hl&Hb&_) _] _]%Forall_cons. simpl in Hl. subst l.
  exists body. split_and!; [done..|]. simpl. by rewrite <-string_app_assoc, str_cons.
Qed.
Fixpoint newlines (s : string) : nat :=
  match s with
  | EmptyString => 0
  | String c s => (if decide (c = "010"%char) then 1 else 0) + newlines s
  end.
Lemma feed_delivers chunk b rem txt messages :
  Forall (λ p, carries p.1 p.2) rem → remains b rem (chunk +:+ txt) →
  (length messages + newlines chunk ≤ MAX_MESSAGES_PER_PUSH)%nat →
  ∃ rem1 rem2 b', rem = rem1 ++ rem2 ∧
    feed messages chunk (mk_decoder b) = (mk_decoder b', Ret (messages ++ rem1.*2)) ∧ remains b' rem2 txt.
Proof.
  revert b rem messages. induction chunk as [|c chunk IH]; intros b rem messages Hok Hrem Hlen.
  { exists [], rem, b. rewrite app_nil_r. done. }
  destruct rem as [|[l m] rem]; [by destruct Hrem|]. destruct Hrem as (q&Hl&Hq&Htxt).
  pose proof Hok as [[(body&_&_&Hascii&Hmax) Hdec] Hrest]%Forall_cons. simpl in Hascii, Hmax, Hdec.
  cbn [newlines] in Hlen. rewrite str_cons in Htxt. cbn [feed]. unfold mbind, stm_bind.
  destruct q as [|a q].
  - injection Htxt as -> Htxt. rewrite string_app_nil_r in Hl, Hq. subst l. rewrite decide_True in Hlen by done.
    assert (Hp : push_part messages (String "010" "") (mk_decoder b) = (line_decoder_new, Ret (messages ++ [m]))).
    { unfold push_part, mbind, stm_bind, st_get. cbn [buffer]. rewrite str_len_app in Hmax.
      rewrite decide_False by lia. unfold st_put. cbn [ends_line]. rewrite bool_decide_eq_true_2 by done.
      rewrite decide_False by lia. rewrite ascii_only_utf8 by done. cbn [negb]. unfold line_clear, st_put.
      by rewrite Hdec. }
    rewrite Hp. destruct (IH "" rem (messages ++ [m]) Hrest) as (rem1&rem2&b'&->&Hf&Hr).
    { rewrite Htxt. by apply remains_start. }
    { rewrite length_app. simpl. lia. }
    exists ((b +:+ String "010" "", m) :: rem1), rem2, b'. split_and!; [done| |done].
    unfold line_decoder_new. rewrite Hf. simpl. by rewrite <-(assoc_L (++)).
  - rewrite str_cons in Htxt. injection Htxt as -> Htxt.
    assert (Ha : a ≠ "010"%char).
    { rewrite lacks_app in Hq. apply andb_true_iff in Hq as [_ Hq]. simpl in Hq.
      apply andb_true_iff in Hq as [Hq _]. by apply bool_decide_eq_true in Hq. }
    rewrite decide_False in Hlen by done.
    assert (Hp : push_part messages (String a "") (mk_decoder b) = (mk_decoder (b +:+ String a ""), Ret messages)).
    { unfold push_part, mbind, stm_bind, st_get. cbn [buffer]. subst l.
      rewrite !str_len_app, str_len_cons in Hmax. change (str_len (String "010" "")) with 1%nat in Hmax.
      rewrite decide_False by (change (str_len (String a "")) with 1%nat; lia). unfold st_put. cbn [ends_line].
      rewrite bool_decide_eq_false_2 by done. rewrite str_len_app. change (str_len (String a "")) with 1%nat.
      by rewrite decide_False by lia. }
    rewrite Hp. apply IH; [done| |lia]. exists q.
    assert (Hb : (b +:+ String a "") +:+ q = b +:+ String a q) by (by rewrite <-string_app_assoc).
    by rewrite Hb.
Qed.

(** Pushing the chunks of a stream, one after the other. *)
Fixpoint push_all (chunks : list string) : stm LineDecoder CodecError (list Protocol.WireMessage.t) :=
  match chunks with
  | [] => mret []
  | chunk :: chunks => messages ← push chunk; rest ← push_all chunks; mret (messages ++ rest)
  end.
Lemma remains_short b rem txt :
  Forall (λ p, carries p.1 p.2) rem → remains b rem txt → short (mk_decoder b).
Proof.
  destruct rem as [|[l m] rem]; [by intros _ [-> _]; exact max_line_pos|].
  intros [[(_&_&_&_&Hmax) _] _]%Forall_cons (q&->&_). simpl in Hmax. rewrite !str_len_app in Hmax.
  change (str_len (String "010" "")) with 1%nat in Hmax. unfold short. cbn [buffer]. lia.
Qed.
Lemma chunks_deliver chunks b rem :
  Forall (λ p, carries p.1 p.2) rem → remains b rem (str_concat chunks) →
  Forall (λ c, (newlines c ≤ MAX_MESSAGES_PER_PUSH)%nat) chunks →
  push_all chunks (mk_decoder b) = (line_decoder_new, Ret rem.*2).
Proof.
  revert b rem. induction chunks as [|c chunks IH]; intros b rem Hok Hrem Hn.
  - destruct rem as [|[l m] rem]; [by destruct Hrem as [-> _]|]. destruct Hrem as (q&_&_&Htxt). by destruct q.
  - apply Forall_cons in Hn as [Hc Hn]. cbn [push_all]. unfold mbind, stm_bind, push.
    rewrite push_parts_feed by by eapply remains_short.
    destruct (feed_delivers c b rem (str_concat chunks) [] Hok Hrem) as (rem1&rem2&b'&->&->&Hr); [simpl; lia|].
    apply Forall_app in Hok as [_ Hok]. rewrite (IH b' rem2 Hok Hr Hn). by rewrite fmap_app.
Qed.

(** ** Examples *)

Definition some_server : Protocol.ServerIdentity := Protocol.mk_server "engine 1" "show" 7 "log%".
Definition some_command : Protocol.WireMessage.t :=
  Protocol.WireMessage.Command
    (Protocol.mk_command Protocol.CURRENT_PROTOCOL_VERSION "c-1" "key 1" (Some 3) None
       (Protocol.CommandPayload.RenameInput 5 "Käse")).
Definition some_event : Protocol.WireMessage.t :=
  Protocol.WireMessage.RuntimeEvent
    (Protocol.mk_runtime_event some_server 9 2 0
       (Protocol.RuntimeLifecycleEvent.Scheduled [Protocol.mk_boundary "video~a" 12; Protocol.mk_boundary "" 0])).
Definition line_of (m : Protocol.WireMessage.t) : string :=
  match encode_line m with
  | Ret line => line
  | _ => ""
  end.

(** The types of a message that is given in full. *)
Ltac given :=
  repeat match goal with
  | |- _ ∧ _ => split
  | |- version_ok _ => split
  | |- str_ok _ => vm_compute; reflexivity
  | |- utf8 _ = true => vm_compute; reflexivity
  | |- Z.le _ _ => vm_compute; discriminate
  | |- in_ty _ _ => vm_compute; split; discriminate
  | |- wire_id _ => vm_compute; split; discriminate
  | |- opt_u64 _ => intros ? Ho; vm_compute in Ho; first [discriminate Ho | injection Ho as <-]
  | |- Forall _ [] => constructor
  | |- Forall _ _ => constructor
  | |- _ ≠ _ => discriminate
  | |- _ => progress hnf
  end.

(** C6: [decode_line] reads back what [encode_line] wrote, whatever the strings in it
    contain, for every message that both directions admit ([wire_ok]): its strings are
    UTF-8, its integers have their widths and its identifiers are not zero, as the types of
    the source guarantee, and it has none of the values that [encode_line] writes and the
    decoder does not take: no strip in a switcher state, no input in a snapshot, no domain in
    a schedule, a repeated overlay channel, an overlay duration outside 1 to 3600 frames, a
    permission that is empty, a failure that is empty or longer than 64 bytes
    ([codec_disagrees] shows what happens to these).  For a message that is admitted there is
    one exception, and it is exact: when the escapes of a field take more than 48 KiB, the
    line is refused as [FieldValueTooLong]. *)
Theorem wire_roundtrip m line :
  encode_line m = Ret line → wire_ok m →
  decode_line line = if fields_fit m then Ret m else Throw FieldValueTooLong.
Proof. exact (line_decodes m line). Qed.
Lemma wire_roundtrip_witness :
  encode_line some_command = Ret (line_of some_command) ∧ wire_ok some_command ∧
  decode_line (line_of some_command) = Ret some_command.
Proof.
  assert (He : encode_line some_command = Ret (line_of some_command)) by (vm_compute; reflexivity).
  assert (Hok : wire_ok some_command).
  { given. }
  split_and!; [exact He|exact Hok|].
  rewrite (wire_roundtrip some_command (line_of some_command) He Hok). vm_compute. reflexivity.
Defined.

(** C23: neither direction of the codec panics, whatever it is given, and every line the
    encoder writes, whatever the message, is one ASCII record of at most 64 KiB whose only
    newline is its last byte: no string in a message can forge the end of a line. *)
Theorem codec_total :
  (∀ line, decode_line line ≠ Panic) ∧ (∀ m, encode_line m ≠ Panic) ∧
  ∀ m line, encode_line m = Ret line → framed line.
Proof. split_and!; [exact decode_line_safe|exact encode_line_safe|exact encode_line_framed]. Qed.
(** A name with a newline, a tab and an equals sign in it. *)
Lemma codec_total_witness :
  let m := Protocol.WireMessage.Command
    (Protocol.mk_command Protocol.CURRENT_PROTOCOL_VERSION "c" "k" None None
       (Protocol.CommandPayload.RenameInput 0 ("a" +:+ String "010" (String "009" "payload=cut")))) in
  encode_line m = Ret (line_of m) ∧ framed (line_of m) ∧ decode_line (line_of m) ≠ Panic.
Proof.
  intros m. assert (He : encode_line m = Ret (line_of m)) by (vm_compute; reflexivity).
  split; [exact He|]. destruct codec_total as (Hd & _ & Hf). split; [exact (Hf m _ He)|exact (Hd _)].
Defined.

(** [LineDecoder::push] does with a chunk what pushing its bytes one at a time does, the
    state after it, the messages and the error included, and it never holds a whole line:
    how a stream is cut decides nothing but how many messages a call may return. *)
Theorem push_bytewise chunk d :
  short d → push chunk d = feed [] chunk d ∧ short (push chunk d).1.
Proof. intros Hd. split; [exact (push_parts_feed [] chunk d Hd)|exact (push_parts_short [] _ d Hd)]. Qed.
Lemma push_bytewise_witness :
  short (mk_decoder "comm") ∧
  push (String "a" (String "010" "x")) (mk_decoder "comm") =
  feed [] (String "a" (String "010" "x")) (mk_decoder "comm").
Proof.
  assert (Hd : short (mk_decoder "comm")) by (apply (bool_decide_eq_true_1 _); vm_compute; reflexivity).
  split; [exact Hd|]. exact (proj1 (push_bytewise _ _ Hd)).
Defined.

(** C7: a stream of encoded messages is delivered whole and in order, and nothing is left in
    the buffer, so [finish] accepts, under three conditions and whatever the stream: its
    messages are admitted by both directions ([wire_ok], as for one line), the escapes of
    each field fit in 48 KiB ([fields_fit]), and no chunk ends more than 1024 lines, which
    is where [push] refuses.  Within that the cuts may fall anywhere, in the middle of a line
    or of an escape, and chunks may be empty. *)
Theorem stream_delivers ms lines chunks :
  Forall2 (λ m line, encode_line m = Ret line ∧ wire_ok m ∧ fields_fit m = true) ms lines →
  str_concat chunks = str_concat lines →
  Forall (λ chunk, (newlines chunk ≤ MAX_MESSAGES_PER_PUSH)%nat) chunks →
  push_all chunks line_decoder_new = (line_decoder_new, Ret ms) ∧ line_finish line_decoder_new = Ok tt.
Proof.
  intros Hlines Hcut Hn. split; [|done].
  assert (Hok : Forall (λ p, carries p.1 p.2) (zip lines ms) ∧ (zip lines ms).*1 = lines ∧ (zip lines ms).*2 = ms).
  { clear Hcut. induction Hlines as [|m line ms lines (He&Hm&Hfit) _ (IH&IH1&IH2)]; [done|].
    change (zip (line :: lines) (m :: ms)) with ((line, m) :: zip lines ms). rewrite !fmap_cons, IH1, IH2. split_and!; [|done..]. constructor; [|exact IH]. split; simpl.
    - by apply encode_line_framed in He.
    - rewrite (line_decodes _ _ He Hm), Hfit. done. }
  destruct Hok as (Hok&H1&H2). pose proof (remains_start _ Hok) as Hr. rewrite H1, <-Hcut in Hr.
  unfold line_decoder_new. rewrite (chunks_deliver chunks "" _ Hok Hr Hn). by rewrite H2.
Qed.
Definition two_lines : string := line_of some_command +:+ line_of some_event.
Lemma stream_delivers_witness :
  Forall2 (λ m line, encode_line m = Ret line ∧ wire_ok m ∧ fields_fit m = true) [some_command; some_event]
    [line_of some_command; line_of some_event] ∧
  push_all [String.substring 0 50 two_lines; String.substring 50 1000 two_lines] line_decoder_new =
    (line_decoder_new, Ret [some_command; some_event]).
Proof.
  assert (Hl : Forall2 (λ m line, encode_line m = Ret line ∧ wire_ok m ∧ fields_fit m = true)
    [some_command; some_event] [line_of some_command; line_of some_event]).
  { apply Forall2_cons; split; [split_and!; [vm_compute; reflexivity| |vm_compute; reflexivity]|].
    - given.
    - apply Forall2_cons; split; [split_and!; [vm_compute; reflexivity| |vm_compute; reflexivity]|constructor].
      given. }
  split; [exact Hl|].
  refine (proj1 (stream_delivers [some_command; some_event] [line_of some_command; line_of some_event]
    [String.substring 0 50 two_lines; String.substring 50 1000 two_lines] Hl _ _)).
  - vm_compute. reflexivity.
  - apply (bool_decide_eq_true_1 _). vm_compute. reflexivity.
Defined.

(** ** What only the decoder refuses *)

Definition plain_overlay (channel duration : Z) : Protocol.OverlayStatus :=
  Protocol.mk_overlay_status channel None false 0 Protocol.OverlayCut duration Protocol.FullFrame
    Protocol.NoBorder [] [].
Definition overlays_from (channels : list Z) (duration : Z) : list Protocol.OverlayStatus :=
  (λ c, plain_overlay c duration) <$> channels.
Definition a_strip : Protocol.InputAudioStripStatus := Protocol.mk_strip_status 1 0 0 false false false 0.
Definition switcher_event (overlays : list Protocol.OverlayStatus)
    (strips : list Protocol.InputAudioStripStatus) : Protocol.WireMessage.t :=
  Protocol.WireMessage.Event (Protocol.mk_event_message
    (Protocol.mk_cursor (Protocol.mk_identity "e" 0 "l") 0)
    (Protocol.EventPayload.DesiredSwitcher 1 2 Protocol.Inactive (Protocol.mk_fade_state false 0) overlays strips)).
Definition scheduled (domains : list Protocol.RuntimeDomainBoundary) : Protocol.WireMessage.t :=
  Protocol.WireMessage.RuntimeEvent
    (Protocol.mk_runtime_event some_server 9 2 0 (Protocol.RuntimeLifecycleEvent.Scheduled domains)).
Definition one_sample (failure : option string) : Protocol.WireMessage.t :=
  Protocol.WireMessage.StreamStatus (Protocol.mk_stream_message some_server 1
    [Protocol.mk_stream_sample 1 Protocol.StreamFailed false 0 0 0 failure]).
Definition transition_command (duration : Z) : Protocol.WireMessage.t :=
  Protocol.WireMessage.Command
    (Protocol.mk_command Protocol.CURRENT_PROTOCOL_VERSION "c" "k" None None
       (Protocol.CommandPayload.ConfigureOverlayTransition 1 Protocol.OverlayFade duration)).
Definition granting (permissions : list string) : Protocol.WireMessage.t :=
  Protocol.WireMessage.HandshakeResponse (Protocol.mk_handshake_response
    Protocol.CURRENT_PROTOCOL_VERSION Protocol.Viewer permissions
    (Protocol.mk_capability_summary "d" 0 0 0 0) some_server 0 (Protocol.OutcomeSnapshot Protocol.NoCursor)).
Definition is_throw {E A} (r : outcome E A) : bool := match r with Throw _ => true | _ => false end.
Definition is_ret {E A} (r : outcome E A) : bool := match r with Ret _ => true | _ => false end.
(** No strip; a channel twice; a duration of no frame; no domain; a failure of 65 bytes; an
    overlay transition of 3601 frames. *)
Definition refused : list Protocol.WireMessage.t :=
  [ switcher_event (overlays_from [1;2;3;4;5;6;7;8] 1) [];
    switcher_event (overlays_from [1;1;3;4;5;6;7;8] 1) [a_strip];
    switcher_event (overlays_from [1;2;3;4;5;6;7;8] 0) [a_strip];
    scheduled [];
    one_sample (Some (String.concat "" (replicate 65 "x")));
    transition_command 3601 ].

(** The two directions do not agree on every message: [encode_line] writes lines that
    [decode_line] refuses (no audio strip, a repeated overlay channel, an overlay duration
    outside 1 to 3600, no runtime domain, a failure of more than 64 bytes), and two that it
    reads as another message (an empty failure, an empty permission): these are the
    exclusions of [wire_ok], and next to them the message does come back. *)
Theorem codec_disagrees :
  Forall (λ m, is_ret (encode_line m) && is_throw (decode_line (line_of m)) = true) refused ∧
  decode_line (line_of (one_sample (Some ""))) = Ret (one_sample None) ∧
  decode_line (line_of (granting [""; "a"])) = Ret (granting ["a"]) ∧
  decode_line (line_of (switcher_event (overlays_from [1;2;3;4;5;6;7;8] 1) [a_strip])) =
    Ret (switcher_event (overlays_from [1;2;3;4;5;6;7;8] 1) [a_strip]) ∧
  decode_line (line_of (granting ["b"; "a"])) = Ret (granting ["b"; "a"]).
Proof.
  split_and!; [|vm_compute; reflexivity..]. apply (bool_decide_eq_true_1 _). vm_compute. reflexivity.
Qed.
