(* ===== verification/Auth.v ===== *)
(** Authentication and authorization, [crates/services/fm-auth/src]: identities
    ([id.rs]), roles and the permissions they grant ([policy.rs]), one-use
    pairing codes ([pairing.rs]). *)
From S2P Require Import Prelude BTree.
#[local] Open Scope Z_scope.

(** ** Identities *)

(** The characters of a string: the scalar values that its bytes encode. *)
Fixpoint utf8_chars (l : list Z) : list Z :=
  match l with
  | [] => []
  | a :: l1 =>
      if bool_decide (a < 128) then a :: utf8_chars l1 else
      match l1 with
      | [] => []
      | b :: l2 =>
          if bool_decide (a < 224) then (a mod 32 * 64 + b mod 64) :: utf8_chars l2 else
          match l2 with
          | [] => []
          | c :: l3 =>
              if bool_decide (a < 240)
              then (a mod 16 * 4096 + b mod 64 * 64 + c mod 64) :: utf8_chars l3 else
              match l3 with
              | [] => []
              | d :: l4 =>
                  (a mod 8 * 262144 + b mod 64 * 4096 + c mod 64 * 64 + d mod 64) :: utf8_chars l4
              end
          end
      end
  end.
Definition chars (s : string) : list Z := utf8_chars (str_bytes s).

Definition is_ascii_lowercase (c : Z) : bool := bool_decide (97 ≤ c ≤ 122).
Definition is_ascii_digit (c : Z) : bool := bool_decide (48 ≤ c ≤ 57).
(** [_] and [-] are 95 and 45. *)
Definition identity_char (c : Z) : bool :=
  is_ascii_lowercase c || is_ascii_digit c || bool_decide (c = 95) || bool_decide (c = 45).

Inductive InvalidIdentity :=
  | IdentityEmpty
  | InvalidStart (found : Z)
  | InvalidCharacter (found : Z).
#[global] Instance InvalidIdentity_eq_dec : EqDecision InvalidIdentity.
Proof. solve_decision. Defined.

Definition validate (value : string) : result InvalidIdentity unit :=
  match chars value with
  | [] => Err IdentityEmpty
  | first :: rest =>
      if is_ascii_lowercase first then
        match list_find (λ c, identity_char c = false) rest with
        | Some (_, found) => Err (InvalidCharacter found)
        | None => Ok tt
        end
      else Err (InvalidStart first)
  end.
Definition identity_new (value : string) : result InvalidIdentity string :=
  _ ← validate value; Ok value.

(** ** Policy *)

Inductive Role := Viewer | Graphics | Audio | Operator | Admin.
Inductive Permission :=
  ViewStatus | SelectPreview | Transition | ControlAudio | EditProject | ManageUsers.
#[global] Instance Role_eq_dec : EqDecision Role.
Proof. solve_decision. Defined.
#[global] Instance Permission_eq_dec : EqDecision Permission.
Proof. solve_decision. Defined.

(** The derived orders, by declaration. *)
Definition role_rank (r : Role) : Z :=
  match r with
  | Viewer => 0 | Graphics => 1 | Audio => 2 | Operator => 3 | Admin => 4
  end.
Definition permission_rank (p : Permission) : Z :=
  match p with
  | ViewStatus => 0 | SelectPreview => 1 | Transition => 2 | ControlAudio => 3
  | EditProject => 4 | ManageUsers => 5
  end.
#[global] Instance Role_ord_key : OrdKey Role := λ x y, key_cmp (role_rank x) (role_rank y).
#[global] Instance Permission_ord_key : OrdKey Permission := λ x y,
  key_cmp (permission_rank x) (permission_rank y).
#[global] Instance Role_ord_key_laws : OrdKeyLaws Role.
Proof. by apply (ord_key_laws_via role_rank); [intros [] []|]. Qed.
#[global] Instance Permission_ord_key_laws : OrdKeyLaws Permission.
Proof. by apply (ord_key_laws_via permission_rank); [intros [] []|]. Qed.

Module CommandClass.
Inductive t := ViewStatus | SelectPreview | Transition | ControlAudio | EditProject | ManageUsers.
End CommandClass.
#[global] Instance CommandClass_eq_dec : EqDecision CommandClass.t.
Proof. solve_decision. Defined.
Definition required_permission (self : CommandClass.t) : Permission :=
  match self with
  | CommandClass.ViewStatus => ViewStatus
  | CommandClass.SelectPreview => SelectPreview
  | CommandClass.Transition => Transition
  | CommandClass.ControlAudio => ControlAudio
  | CommandClass.EditProject => EditProject
  | CommandClass.ManageUsers => ManageUsers
  end.

Inductive PrincipalKind := Authenticated | DevelopmentOnly.
#[global] Instance PrincipalKind_eq_dec : EqDecision PrincipalKind.
Proof. solve_decision. Defined.
Record Principal := mk_principal {
  user_id : string;
  session_id : string;
  roles : btset Role;
  kind : PrincipalKind
}.
Definition authenticated (user_id session_id : string) (roles : list Role) : Principal :=
  mk_principal user_id session_id (bs_of_list roles) Authenticated.
Definition development_principal (user_id session_id : string) (roles : list Role) : Principal :=
  mk_principal user_id session_id (bs_of_list roles) DevelopmentOnly.

Record Policy := mk_policy {
  grants : btmap Role (btset Permission);
  allow_development_principals : bool
}.
Definition production : Policy :=
  mk_policy
    (bt_insert Admin
       (bs_of_list [ViewStatus; SelectPreview; Transition; ControlAudio; EditProject; ManageUsers])
    (bt_insert Operator (bs_of_list [ViewStatus; SelectPreview; Transition; ControlAudio])
    (bt_insert Audio (bs_of_list [ViewStatus; ControlAudio])
    (bt_insert Graphics (bs_of_list [ViewStatus; EditProject])
    (bt_insert Viewer (bs_of_list [ViewStatus]) [])))))
    false.
Definition development : Policy := mk_policy (grants production) true.
Definition permissions_for (role : Role) (self : Policy) : option (btset Permission) :=
  bt_get role (grants self).
Definition effective_permissions (principal : Principal) (self : Policy) : btset Permission :=
  bs_of_list (concat (omap (λ role, bt_get role (grants self)) (roles principal))).

Inductive DenialReason := MissingPermission | DevelopmentPrincipalDisabled.
Record AuthorizationDenial := mk_denial {
  denied_command : CommandClass.t;
  required : Permission;
  reason : DenialReason
}.
#[global] Instance DenialReason_eq_dec : EqDecision DenialReason.
Proof. solve_decision. Defined.
#[global] Instance AuthorizationDenial_eq_dec : EqDecision AuthorizationDenial.
Proof. solve_decision. Defined.

Definition authorize (principal : Principal) (command : CommandClass.t) (self : Policy) :
    result AuthorizationDenial unit :=
  if decide (kind principal = DevelopmentOnly ∧ allow_development_principals self = false) then
    Err (mk_denial command (required_permission command) DevelopmentPrincipalDisabled)
  else
    let required := required_permission command in
    if decide (required ∈ effective_permissions principal self) then Ok tt
    else Err (mk_denial command required MissingPermission).

(** ** Pairing *)

Definition MAX_PAIRING_LIFETIME_SECONDS : Z := 600.

Inductive InvalidPairingCode := invalid_pairing_code.
Definition PairingCode := string.
Definition pairing_code_new (value : string) : result InvalidPairingCode PairingCode :=
  if decide (value = "") then Err invalid_pairing_code else Ok value.
(** The comparison looks at every byte. *)
Definition matches (self candidate : PairingCode) : bool :=
  if decide (str_len self ≠ str_len candidate) then false else
  bool_decide (foldl (λ difference p, Z.lor difference (Z.lxor p.1 p.2)) 0
    (zip (str_bytes self) (str_bytes candidate)) = 0).

Record PairingCodeValidator := mk_validator {
  expected : PairingCode;
  expires_at : Z;
  consumed : bool
}.
Inductive PairingConfigurationError :=
  | LifetimeTooLong (provided maximum : Z)
  | ExpiryOverflow.
Inductive PairingError := PairingInvalid | Expired | AlreadyConsumed.
#[global] Instance PairingError_eq_dec : EqDecision PairingError.
Proof. solve_decision. Defined.

Definition validator_new (expected : PairingCode) (issued_at lifetime_seconds : Z) :
    result PairingConfigurationError PairingCodeValidator :=
  if decide (MAX_PAIRING_LIFETIME_SECONDS < lifetime_seconds) then
    Err (LifetimeTooLong lifetime_seconds MAX_PAIRING_LIFETIME_SECONDS)
  else
    expires_at ← ok_or ExpiryOverflow (checked U64 (issued_at + lifetime_seconds));
    Ok (mk_validator expected expires_at false).
Definition consume (candidate : PairingCode) (now : Z) :
    stm PairingCodeValidator PairingError unit :=
  self ← st_get;
  _ ← st_require (consumed self = false) AlreadyConsumed;
  _ ← st_require (¬ expires_at self ≤ now) Expired;
  _ ← st_require (matches (expected self) candidate = true) PairingInvalid;
  st_put (mk_validator (expected self) (expires_at self) true).

(** ** Lemmas *)

Lemma elem_of_effective principal policy p :
  p ∈ effective_permissions principal policy ↔
  ∃ role ps, role ∈ roles principal ∧ permissions_for role policy = Some ps ∧ p ∈ ps.
Proof.
  unfold effective_permissions, permissions_for. rewrite elem_of_bs_of_list, list_elem_of_In, in_concat.
  setoid_rewrite <-list_elem_of_In. setoid_rewrite list_elem_of_omap. naive_solver.
Qed.

Lemma lor_zero a b : Z.lor a b = 0 ↔ a = 0 ∧ b = 0.
Proof. apply Z.lor_eq_0_iff. Qed.
Lemma difference_zero l d :
  foldl (λ difference p, Z.lor difference (Z.lxor p.1 p.2)) d l = 0 ↔
  d = 0 ∧ Forall (λ p : Z * Z, p.1 = p.2) l.
Proof.
  revert d. induction l as [|p l IH]; intros d; simpl.
  { split; [by intros ->|by intros [? _]]. }
  rewrite IH, lor_zero, Z.lxor_eq_0_iff, Forall_cons. tauto.
Qed.
Lemma zip_equal (l k : list Z) :
  length l = length k → Forall (λ p, p.1 = p.2) (zip l k) → l = k.
Proof.
  revert k. induction l as [|x l IH]; intros [|y k]; simpl; intros Hl; try done.
  rewrite Forall_cons. intros [? ?]. simpl in *. subst. f_equal. apply IH; [lia|done].
Qed.
Lemma zip_refl (l : list Z) : Forall (λ p, p.1 = p.2) (zip l l).
Proof. by induction l; constructor. Qed.
Lemma byte_of_inj : Inj (=) (=) byte_of.
Proof.
  intros a b Hab. unfold byte_of in Hab. apply Nat2Z.inj in Hab.
  by rewrite <-(Ascii.ascii_nat_embedding a), Hab, Ascii.ascii_nat_embedding.
Qed.
Lemma str_bytes_inj : Inj (=) (=) str_bytes.
Proof.
  intros s t Hst. unfold str_bytes in Hst. apply (list_fmap_eq_inj _ byte_of_inj) in Hst.
  by rewrite <-(String.string_of_list_ascii_of_string s), Hst,
    String.string_of_list_ascii_of_string.
Qed.
Lemma str_bytes_length s : length (str_bytes s) = str_len s.
Proof. unfold str_bytes. rewrite length_fmap. by induction s; simpl; [|f_equal]. Qed.
(** The comparison that looks at every byte is equality. *)
Lemma matches_equal self candidate : matches self candidate = true ↔ self = candidate.
Proof.
  unfold matches. rewrite <-!str_bytes_length. case_decide as Hl.
  - split; [done|]. by intros ->.
  - rewrite bool_decide_eq_true, difference_zero. split.
    + intros [_ Hz]. apply str_bytes_inj, zip_equal; [lia|done].
    + intros ->. split; [done|]. apply zip_refl.
Qed.

Lemma validate_spec s :
  match validate s with
  | Ok _ => ∃ c rest, chars s = c :: rest ∧ is_ascii_lowercase c = true ∧
      Forall (λ c, identity_char c = true) rest
  | Err IdentityEmpty => chars s = []
  | Err (InvalidStart c) => ∃ rest, chars s = c :: rest ∧ is_ascii_lowercase c = false
  | Err (InvalidCharacter c) => ∃ first good rest, chars s = first :: good ++ c :: rest ∧
      is_ascii_lowercase first = true ∧ Forall (λ c, identity_char c = true) good ∧
      identity_char c = false
  end.
Proof.
  unfold validate. destruct (chars s) as [|c rest]; [done|].
  destruct (is_ascii_lowercase c) eqn:Hc; [|eauto].
  destruct (list_find _ rest) as [[i f]|] eqn:Hf.
  - apply list_find_Some in Hf as (Hi&Hf&Hb). exists c, (take i rest), (drop (S i) rest).
    split; [by rewrite take_drop_middle|]. split_and!; try done.
    apply Forall_forall. intros x (j&Hj)%list_elem_of_lookup.
    apply lookup_take_Some in Hj as [Hj Hlt].
    specialize (Hb j x Hj Hlt). by destruct (identity_char x).
  - apply list_find_None in Hf. exists c, rest. split_and!; try done.
    eapply Forall_impl; [exact Hf|]. intros x Hx. simpl in Hx. by destruct (identity_char x).
Qed.

(** Attempts at one code, with the times they are made at. *)
Fixpoint consume_all (l : list (PairingCode * Z)) (v : PairingCodeValidator) :
    list (outcome PairingError unit) :=
  match l with
  | [] => []
  | (candidate, now) :: l => let '(v, r) := consume candidate now v in r :: consume_all l v
  end.
(** The right code in time. *)
Definition good_attempt (v : PairingCodeValidator) (a : PairingCode * Z) : Prop :=
  a.1 = expected v ∧ a.2 < expires_at v.
#[global] Instance good_attempt_dec v a : Decision (good_attempt v a).
Proof. unfold good_attempt. apply _. Defined.

Lemma consume_spec candidate now v :
  consume candidate now v =
    if decide (consumed v = true) then (v, Throw AlreadyConsumed) else
    if decide (good_attempt v (candidate, now))
    then (mk_validator (expected v) (expires_at v) true, Ret tt)
    else (v, Throw (if decide (expires_at v ≤ now) then Expired else PairingInvalid)).
Proof.
  unfold consume, good_attempt, mbind, stm_bind, st_get, st_require, st_put. simpl.
  repeat case_decide; try done; try (by destruct (consumed v)).
  all: repeat match goal with
    | H : matches _ _ = true |- _ => apply matches_equal in H
    | H : ¬ matches _ _ = true |- _ => rewrite matches_equal in H
    end; destruct_and?; subst; exfalso; first [congruence|lia|auto with lia].
Qed.
Lemma consumed_refuses l v i :
  consumed v = true → consume_all l v !! i ≠ Some (Ret tt).
Proof.
  revert i. induction l as [|[c n] l IH]; intros i Hv; [done|].
  cbn [consume_all]. rewrite consume_spec, decide_True by done.
  destruct i; [done|]. by apply IH.
Qed.

(** ** Theorems *)

(** Authorization is exact: a command is allowed exactly when one of the roles
    of the principal grants the permission it needs and, for a development
    principal, the policy admits such; a denial says which of the two failed. *)
Theorem authorize_exact principal command policy :
  let needed := required_permission command in
  let granted := ∃ role ps, role ∈ roles principal ∧
    permissions_for role policy = Some ps ∧ needed ∈ ps in
  match authorize principal command policy with
  | Ok _ => granted ∧
      (kind principal = Authenticated ∨ allow_development_principals policy = true)
  | Err (mk_denial c r MissingPermission) => ¬ granted ∧ c = command ∧ r = needed ∧
      (kind principal = Authenticated ∨ allow_development_principals policy = true)
  | Err (mk_denial c r DevelopmentPrincipalDisabled) => c = command ∧ r = needed ∧
      kind principal = DevelopmentOnly ∧ allow_development_principals policy = false
  end.
Proof.
  unfold authorize. simpl. case_decide as Hdev; [naive_solver|].
  assert (kind principal = Authenticated ∨ allow_development_principals policy = true).
  { destruct (kind principal), (allow_development_principals policy); naive_solver. }
  case_decide as Hp; rewrite elem_of_effective in Hp; naive_solver.
Qed.

(** The production policy gives least privilege: to an authenticated principal it
    allows exactly what the table of roles says, users are managed by
    administrators only, and no development principal may do anything. *)
Theorem production_exact user session rs command :
  (authorize (authenticated user session rs) command production = Ok tt ↔
   Admin ∈ rs ∨
   match command with
   | CommandClass.ViewStatus => rs ≠ []
   | CommandClass.SelectPreview | CommandClass.Transition => Operator ∈ rs
   | CommandClass.ControlAudio => Audio ∈ rs ∨ Operator ∈ rs
   | CommandClass.EditProject => Graphics ∈ rs
   | CommandClass.ManageUsers => False
   end) ∧
  is_ok (authorize (development_principal user session rs) command production) = false.
Proof.
  split; [|done]. unfold authorize. rewrite decide_False by (by intros [? ?]).
  assert (∀ p, p ∈ effective_permissions (authenticated user session rs) production ↔
    ∃ role ps, role ∈ rs ∧ permissions_for role production = Some ps ∧ p ∈ ps) as He.
  { intros p. rewrite elem_of_effective. cbn [roles authenticated].
    by setoid_rewrite elem_of_bs_of_list. }
  transitivity (required_permission command ∈
    effective_permissions (authenticated user session rs) production); [by case_decide|].
  rewrite He. split.
  - intros (role&ps&Hr&Hp&Hin). destruct role; injection Hp as <-; destruct command;
      first [by left|right]; first
      [exact Hr|by left|by right|by intros ->; inversion Hr|by apply elem_of_bs_of_list in Hin; repeat (apply elem_of_cons in Hin as [Hin|Hin]; [discriminate Hin|]);
         apply not_elem_of_nil in Hin].
  - assert (∀ r, r ∈ rs →
      required_permission command ∈ default [] (permissions_for r production) →
      ∃ role ps, role ∈ rs ∧ permissions_for role production = Some ps ∧
        required_permission command ∈ ps) as Hex.
    { intros r Hr. destruct (permissions_for r production) as [ps|] eqn:Hp; [by eauto|].
      by intros ?%not_elem_of_nil. }
    intros [Ha|Hc]; [by apply (Hex Admin); [|destruct command; apply (bool_decide_unpack _); by vm_compute]|].
    destruct command; try done.
    + destruct rs as [|r rs]; [done|]. apply (Hex r); [by left|destruct r; apply (bool_decide_unpack _); by vm_compute].
    + apply (Hex Operator); [done|apply (bool_decide_unpack _); by vm_compute].
    + apply (Hex Operator); [done|apply (bool_decide_unpack _); by vm_compute].
    + destruct Hc; [apply (Hex Audio)|apply (Hex Operator)]; try done; apply (bool_decide_unpack _); by vm_compute.
    + apply (Hex Graphics); [done|apply (bool_decide_unpack _); by vm_compute].
Qed.

(** A pairing code is used at most once: of any attempts at it exactly the first
    one with the right code and before its expiry succeeds, wrong and late ones do
    not use it up, and the code cannot live longer than ten minutes. *)
Theorem pairing_once expected issued_at lifetime v l :
  validator_new expected issued_at lifetime = Ok v →
  expires_at v = issued_at + lifetime ∧ lifetime ≤ 600 ∧
  ∀ i, consume_all l v !! i = Some (Ret tt) ↔
    (∃ a, l !! i = Some a ∧ a.1 = expected ∧ a.2 < expires_at v) ∧
    ∀ j a, (j < i)%nat → l !! j = Some a → ¬ (a.1 = expected ∧ a.2 < expires_at v).
Proof.
  unfold validator_new. case_decide as Hlt; [done|].
  intros (x&Hx%ok_or_Ok&[= <-])%result_bind_Ok. apply checked_Some in Hx as [<- _].
  unfold MAX_PAIRING_LIFETIME_SECONDS in Hlt. cbn [expires_at].
  split_and!; [done|lia|]. clear Hlt.
  induction l as [|[c n] l IH]; intros i; [split; [done|naive_solver]|].
  cbn [consume_all]. rewrite consume_spec. cbn [consumed]. rewrite decide_False by done.
  unfold good_attempt. cbn [Auth.expected expires_at fst snd].
  destruct i as [|i].
  - case_decide; simpl; naive_solver lia.
  - case_decide as Hg; simpl.
    + split.
      * intros Hc. by apply consumed_refuses in Hc.
      * intros [_ Hno]. destruct (Hno 0%nat (c, n)); [lia|done|done].
    + rewrite IH. split; intros [Ha Hno]; split; try done.
      * intros [|j] a Hj; simpl; [by intros [= <-]|]. apply Hno. lia.
      * intros j a Hj Hl. apply (Hno (S j)); [lia|done].
Qed.

(** ** Witnesses *)

Lemma pairing_once_witness :
  ∃ v, validator_new "4711" 100 60 = Ok v ∧
    consume_all [("0000", 110); ("4711", 120); ("4711", 121)] v !! 1%nat = Some (Ret tt) ∧
    consume_all [("0000", 110); ("4711", 120); ("4711", 121)] v !! 2%nat ≠ Some (Ret tt).
Proof.
  exists (mk_validator "4711" 160 false). split; [reflexivity|].
  destruct (pairing_once "4711" 100 60 (mk_validator "4711" 160 false)
    [("0000", 110); ("4711", 120); ("4711", 121)] eq_refl) as (_&_&Hall).
  split; [reflexivity|]. intros H2. destruct (proj1 (Hall 2%nat) H2) as [_ Hno].
  exact (Hno 1%nat ("4711", 120) ltac:(lia) eq_refl (conj eq_refl eq_refl)).
Defined.
