(* ===== verification/ControlWire.v ===== *)
(** What crosses the wire in the control service, the conversions of
    [crates/services/fm-control/src/lib.rs]: payloads to commands of the engine and
    the permission they need, and states of the engine to the messages that clients
    see.  [None] is a panic ([expect] or [unreachable!]). *)
From stdpp Require Import pretty.
From S2P Require Import Prelude Types.
From S2P Require BTree Command Clock Plans Scheduler FadeToBlack Overlay SwitcherTypes Switcher.
From S2P Require EngineShow Engine Protocol Auth.
#[local] Open Scope Z_scope.

Abbreviation Engine := Engine.Engine.
Abbreviation ret_value r :=
  (match r with
   | Ret a => Some a
   | _ => None
   end).

(** ** Authorization *)

Class AuthorizationHook (A : Type) :=
  hook_authorize : A → Auth.Principal → Auth.CommandClass.t → result Auth.AuthorizationDenial unit.
#[global] Instance policy_hook : AuthorizationHook Auth.Policy := λ self principal command,
  Auth.authorize principal command self.

(** [{:?}] of the permission and of the reason. *)
Definition permission_name (p : Auth.Permission) : string :=
  match p with
  | Auth.ViewStatus => "ViewStatus"
  | Auth.SelectPreview => "SelectPreview"
  | Auth.Transition => "Transition"
  | Auth.ControlAudio => "ControlAudio"
  | Auth.EditProject => "EditProject"
  | Auth.ManageUsers => "ManageUsers"
  end.
Definition reason_name (r : Auth.DenialReason) : string :=
  match r with
  | Auth.MissingPermission => "MissingPermission"
  | Auth.DevelopmentPrincipalDisabled => "DevelopmentPrincipalDisabled"
  end.
Definition denial_message (d : Auth.AuthorizationDenial) : string :=
  ("command denied: " +:+ permission_name (Auth.required d) +:+ " (" +:+
   reason_name (Auth.reason d) +:+ ")")%string.
Definition code_name (c : Command.RejectionCode) : string :=
  match c with
  | Command.PermissionDenied => "permission_denied"
  | Command.DeadlineExceeded => "deadline_exceeded"
  | Command.RevisionConflict => "revision_conflict"
  | Command.InvalidCommand => "invalid_command"
  | Command.NotFound => "not_found"
  | Command.Conflict => "conflict"
  | Command.Unavailable => "unavailable"
  | Command.ResourceExhausted => "resource_exhausted"
  | Command.Internal => "internal"
  end.

(** ** Commands from the wire *)

Definition command_class (payload : Protocol.CommandPayload.t) : Auth.CommandClass.t :=
  match payload with
  | Protocol.CommandPayload.ReorderInputs _ | Protocol.CommandPayload.RenameInput _ _ =>
      Auth.CommandClass.EditProject
  | Protocol.CommandPayload.SetInputAudioStrip _ _ _ _ _ _ _ => Auth.CommandClass.ControlAudio
  | Protocol.CommandPayload.SelectPreview _ => Auth.CommandClass.SelectPreview
  | _ => Auth.CommandClass.Transition
  end.

Definition domain_manual_kind (kind : Protocol.ManualTransitionKind) :
    Engine.EngineManualTransitionKind :=
  match kind with
  | Protocol.ManualFade => Engine.ManualFade
  | Protocol.ManualWipe => Engine.ManualWipe
  | Protocol.ManualAlphaFade => Engine.ManualAlphaFade
  | Protocol.ManualSlide => Engine.ManualSlide
  end.
Definition domain_audio_policy (p : Protocol.StingerAudioPolicy) : SwitcherTypes.StingerAudioPolicy :=
  match p with
  | Protocol.Muted => SwitcherTypes.Muted
  | Protocol.StingerOnly => SwitcherTypes.StingerOnly
  | Protocol.MixWithProgram => SwitcherTypes.MixWithProgram
  end.
Definition domain_fallback (f : Protocol.StingerMissingMediaFallback) :
    SwitcherTypes.MissingMediaFallback :=
  match f with
  | Protocol.FallbackCut => SwitcherTypes.FallbackCut
  | Protocol.FallbackFade => SwitcherTypes.FallbackFade
  | Protocol.KeepProgram => SwitcherTypes.KeepProgram
  end.
Definition domain_overlay_transition (t : Protocol.OverlayTransitionKind) :
    Overlay.OverlayTransitionKind :=
  match t with
  | Protocol.OverlayCut => Overlay.OverlayCut
  | Protocol.OverlayFade => Overlay.OverlayFade
  end.
Definition domain_overlay_position (p : Protocol.OverlayPositionPreset) :
    Overlay.OverlayPositionPreset :=
  match p with
  | Protocol.FullFrame => Overlay.FullFrame
  | Protocol.TopLeft => Overlay.TopLeft
  | Protocol.TopRight => Overlay.TopRight
  | Protocol.BottomLeft => Overlay.BottomLeft
  | Protocol.BottomRight => Overlay.BottomRight
  end.
Definition domain_overlay_border (b : Protocol.OverlayBorderPreset) : Overlay.OverlayBorderPreset :=
  match b with
  | Protocol.NoBorder => Overlay.NoBorder
  | Protocol.ThinWhite => Overlay.ThinWhite
  | Protocol.ThickWhite => Overlay.ThickWhite
  end.

(** The commands that are delegated; [None] is a panic. *)
Definition stinger_engine_command (payload : Protocol.CommandPayload.t) :
    option Engine.EngineCommand.t :=
  match payload with
  | Protocol.CommandPayload.Stinger slot d =>
      slot ← SwitcherTypes.slot_new slot; Some (Engine.EngineCommand.Stinger slot d)
  | Protocol.CommandPayload.ConfigureStinger slot media preload cut policy fallback =>
      slot ← SwitcherTypes.slot_new slot;
      Some (Engine.EngineCommand.ConfigureStinger slot
        (SwitcherTypes.mk_stinger media preload cut (domain_audio_policy policy)
           (domain_fallback fallback)))
  | Protocol.CommandPayload.RemoveStinger slot =>
      slot ← SwitcherTypes.slot_new slot; Some (Engine.EngineCommand.RemoveStinger slot)
  | _ => None
  end.
Definition overlay_engine_command (payload : Protocol.CommandPayload.t) :
    option Engine.EngineCommand.t :=
  match payload with
  | Protocol.CommandPayload.TakeOverlay channel source =>
      channel ← Overlay.channel_new channel; Some (Engine.EngineCommand.TakeOverlay channel source)
  | Protocol.CommandPayload.UpdateOverlay channel source =>
      channel ← Overlay.channel_new channel; Some (Engine.EngineCommand.UpdateOverlay channel source)
  | Protocol.CommandPayload.OverlayOff channel =>
      channel ← Overlay.channel_new channel; Some (Engine.EngineCommand.OverlayOff channel)
  | Protocol.CommandPayload.SetOverlayOutputInclusion channel output included =>
      channel ← Overlay.channel_new channel;
      Some (Engine.EngineCommand.SetOverlayOutputInclusion channel output included)
  | Protocol.CommandPayload.ConfigureOverlayTransition channel transition d =>
      channel ← Overlay.channel_new channel;
      Some (Engine.EngineCommand.ConfigureOverlayTransition channel
        (domain_overlay_transition transition) d)
  | Protocol.CommandPayload.ConfigureOverlayAppearance channel position border =>
      channel ← Overlay.channel_new channel;
      Some (Engine.EngineCommand.ConfigureOverlayAppearance channel
        (domain_overlay_position position) (domain_overlay_border border))
  | Protocol.CommandPayload.QueueOverlay channel source =>
      channel ← Overlay.channel_new channel; Some (Engine.EngineCommand.QueueOverlay channel source)
  | Protocol.CommandPayload.TakeNextOverlay channel =>
      channel ← Overlay.channel_new channel; Some (Engine.EngineCommand.TakeNextOverlay channel)
  | _ => None
  end.
Definition engine_command (payload : Protocol.CommandPayload.t) : option Engine.EngineCommand.t :=
  match payload with
  | Protocol.CommandPayload.ReorderInputs inputs => Some (Engine.EngineCommand.ReorderInputs inputs)
  | Protocol.CommandPayload.RenameInput input name =>
      Some (Engine.EngineCommand.RenameInput input name)
  | Protocol.CommandPayload.SetInputAudioStrip input gain balance muted soloed follow delay =>
      Some (Engine.EngineCommand.SetInputAudioStrip input
        (EngineShow.mk_strip gain balance muted soloed follow delay))
  | Protocol.CommandPayload.SelectPreview input => Some (Engine.EngineCommand.SelectPreview input)
  | Protocol.CommandPayload.Cut => Some Engine.EngineCommand.Cut
  | Protocol.CommandPayload.Fade d => Some (Engine.EngineCommand.Fade d)
  | Protocol.CommandPayload.AlphaFade d => Some (Engine.EngineCommand.AlphaFade d)
  | Protocol.CommandPayload.Slide d => Some (Engine.EngineCommand.Slide d)
  | Protocol.CommandPayload.Zoom d => Some (Engine.EngineCommand.Zoom d)
  | Protocol.CommandPayload.Stinger _ _ | Protocol.CommandPayload.ConfigureStinger _ _ _ _ _ _
  | Protocol.CommandPayload.RemoveStinger _ => stinger_engine_command payload
  | Protocol.CommandPayload.TakeOverlay _ _ | Protocol.CommandPayload.UpdateOverlay _ _
  | Protocol.CommandPayload.OverlayOff _
  | Protocol.CommandPayload.SetOverlayOutputInclusion _ _ _
  | Protocol.CommandPayload.ConfigureOverlayTransition _ _ _
  | Protocol.CommandPayload.ConfigureOverlayAppearance _ _ _
  | Protocol.CommandPayload.QueueOverlay _ _
  | Protocol.CommandPayload.TakeNextOverlay _ => overlay_engine_command payload
  | Protocol.CommandPayload.Wipe d => Some (Engine.EngineCommand.Wipe d)
  | Protocol.CommandPayload.FadeToBlack active d => Some (Engine.EngineCommand.FadeToBlack active d)
  | Protocol.CommandPayload.StartManualTransition kind =>
      Some (Engine.EngineCommand.StartManualTransition (domain_manual_kind kind))
  | Protocol.CommandPayload.SetManualTransitionPosition position =>
      position ← SwitcherTypes.t_bar_position_new position;
      Some (Engine.EngineCommand.SetManualTransitionPosition position)
  | Protocol.CommandPayload.CommitManualTransition => Some Engine.EngineCommand.CommitManualTransition
  | Protocol.CommandPayload.CancelManualTransition => Some Engine.EngineCommand.CancelManualTransition
  | Protocol.CommandPayload.StreamStart target => Some (Engine.EngineCommand.StreamStart target)
  | Protocol.CommandPayload.StreamStop target => Some (Engine.EngineCommand.StreamStop target)
  | Protocol.CommandPayload.RecordStart => Some Engine.EngineCommand.RecordStart
  | Protocol.CommandPayload.RecordStop => Some Engine.EngineCommand.RecordStop
  end.

Definition runtime_domain (command : Engine.EngineCommand.t) : string :=
  match command with
  | Engine.EngineCommand.ReorderInputs _ | Engine.EngineCommand.RenameInput _ _ => "project"
  | Engine.EngineCommand.SetInputAudioStrip _ _ => "audio"
  | _ => "switcher"
  end.
Definition is_program_transition (command : Engine.EngineCommand.t) : bool :=
  match command with
  | Engine.EngineCommand.Fade _ | Engine.EngineCommand.AlphaFade _ | Engine.EngineCommand.Slide _
  | Engine.EngineCommand.Zoom _ | Engine.EngineCommand.Stinger _ _ | Engine.EngineCommand.Wipe _ =>
      true
  | _ => false
  end.
Definition is_fade_to_black (command : Engine.EngineCommand.t) : bool :=
  match command with
  | Engine.EngineCommand.FadeToBlack _ _ => true
  | _ => false
  end.

(** ** States on the wire *)

Definition wire_manual_kind (kind : Engine.EngineManualTransitionKind) :
    Protocol.ManualTransitionKind :=
  match kind with
  | Engine.ManualFade => Protocol.ManualFade
  | Engine.ManualWipe => Protocol.ManualWipe
  | Engine.ManualAlphaFade => Protocol.ManualAlphaFade
  | Engine.ManualSlide => Protocol.ManualSlide
  end.
Definition protocol_manual_status (state : option Engine.EngineManualTransitionState) :
    option Protocol.ManualTransitionStatus :=
  match state with
  | None => Some Protocol.Inactive
  | Some state =>
      interval_start ← Protocol.manual_position_new (Engine.manual_interval_start state);
      position ← Protocol.manual_position_new (Engine.manual_position state);
      Some (Protocol.Active (Protocol.mk_manual (wire_manual_kind (Engine.manual_kind state))
        (Engine.manual_from state) (Engine.manual_to state) interval_start position))
  end.
Definition protocol_fade_to_black_state (state : Engine.EngineFadeToBlackState) :
    option Protocol.FadeToBlackState :=
  position ← checked U16 (Engine.fade_at state);
  Some (Protocol.mk_fade_state (Engine.fade_to_active state) position).

Definition wire_overlay_transition (t : Overlay.OverlayTransitionKind) :
    Protocol.OverlayTransitionKind :=
  match t with
  | Overlay.OverlayCut => Protocol.OverlayCut
  | Overlay.OverlayFade => Protocol.OverlayFade
  end.
Definition wire_overlay_position (p : Overlay.OverlayPositionPreset) :
    Protocol.OverlayPositionPreset :=
  match p with
  | Overlay.FullFrame => Protocol.FullFrame
  | Overlay.TopLeft => Protocol.TopLeft
  | Overlay.TopRight => Protocol.TopRight
  | Overlay.BottomLeft => Protocol.BottomLeft
  | Overlay.BottomRight => Protocol.BottomRight
  end.
Definition wire_overlay_border (b : Overlay.OverlayBorderPreset) : Protocol.OverlayBorderPreset :=
  match b with
  | Overlay.NoBorder => Protocol.NoBorder
  | Overlay.ThinWhite => Protocol.ThinWhite
  | Overlay.ThickWhite => Protocol.ThickWhite
  end.
Definition protocol_overlay (index : nat) (overlay : Overlay.OverlayChannelState) :
    option Protocol.OverlayStatus :=
  number ← checked U8 (Z.of_nat index + 1);
  channel ← Protocol.wire_channel_new number;
  Some (Protocol.mk_overlay_status channel (Overlay.source overlay) (Overlay.active overlay)
    (Overlay.opacity overlay) (wire_overlay_transition (Overlay.transition overlay))
    (Overlay.duration_frames overlay) (wire_overlay_position (Overlay.position overlay))
    (wire_overlay_border (Overlay.border overlay)) (Overlay.queue overlay)
    (Overlay.included_outputs overlay)).
Definition protocol_overlays (overlays : list Overlay.OverlayChannelState) :
    option (list Protocol.OverlayStatus) :=
  mapM (λ p, protocol_overlay p.1 p.2) (imap pair overlays).

Definition wire_audio_policy (p : SwitcherTypes.StingerAudioPolicy) : Protocol.StingerAudioPolicy :=
  match p with
  | SwitcherTypes.Muted => Protocol.Muted
  | SwitcherTypes.StingerOnly => Protocol.StingerOnly
  | SwitcherTypes.MixWithProgram => Protocol.MixWithProgram
  end.
Definition wire_fallback (f : SwitcherTypes.MissingMediaFallback) :
    Protocol.StingerMissingMediaFallback :=
  match f with
  | SwitcherTypes.FallbackCut => Protocol.FallbackCut
  | SwitcherTypes.FallbackFade => Protocol.FallbackFade
  | SwitcherTypes.KeepProgram => Protocol.KeepProgram
  end.
Definition wire_readiness (r : SwitcherTypes.StingerPreloadState) : Protocol.StingerReadiness :=
  match r with
  | SwitcherTypes.NotRequested => Protocol.NotRequested
  | SwitcherTypes.Ready => Protocol.Ready
  | SwitcherTypes.Missing => Protocol.Missing
  end.
Definition protocol_stinger_status (slot : Z) (d : SwitcherTypes.StingerDescriptor)
    (readiness : SwitcherTypes.StingerPreloadState) : option Protocol.StingerStatus :=
  slot ← Protocol.wire_slot_new slot;
  Some (Protocol.mk_stinger_status slot (SwitcherTypes.media_input d) (SwitcherTypes.preload d)
    (SwitcherTypes.cut_point_frames d) (wire_audio_policy (SwitcherTypes.audio_policy d))
    (wire_fallback (SwitcherTypes.missing_media_fallback d)) (wire_readiness readiness)).
(** The configured slots in order, each with the readiness that [readiness_of] gives. *)
Definition stinger_statuses
    (readiness_of : Z → SwitcherTypes.StingerSlotState → SwitcherTypes.StingerDescriptor →
       option SwitcherTypes.StingerPreloadState)
    (slots : list SwitcherTypes.StingerSlotState) : option (list Protocol.StingerStatus) :=
  omap id <$> mapM (λ p,
    match SwitcherTypes.descriptor p.2 with
    | None => Some None
    | Some d =>
        slot ← SwitcherTypes.slot_from_index p.1;
        readiness ← readiness_of slot p.2 d;
        Some <$> protocol_stinger_status slot d readiness
    end) (imap pair slots).
Definition protocol_stingers (engine : Engine) : option (list Protocol.StingerStatus) :=
  stinger_statuses (λ slot _ d,
    realized ← ret_value
      (Switcher.stinger (E := Empty_set) slot (Engine.realized_switcher engine)).2;
    Some (if decide (SwitcherTypes.descriptor realized = Some d)
          then SwitcherTypes.preload_state realized else SwitcherTypes.NotRequested))
    (Switcher.stingers (EngineShow.desired_switcher (Engine.show engine))).
Definition protocol_desired_stingers (engine : Engine) : option (list Protocol.StingerStatus) :=
  stinger_statuses (λ _ desired _, Some (SwitcherTypes.preload_state desired))
    (Switcher.stingers (EngineShow.desired_switcher (Engine.show engine))).

Definition protocol_streams (engine : Engine) : option (list Protocol.StreamStatus) :=
  let desired := EngineShow.desired_switcher (Engine.show engine) in
  mapM (λ stream,
    running ← Switcher.stream_running (SwitcherTypes.stream_id stream) desired;
    Some (Protocol.mk_stream_status (SwitcherTypes.stream_id stream)
      (SwitcherTypes.stream_name stream) running Protocol.StreamStopped None))
  (Switcher.streams desired).
Definition protocol_input_audio_strips (engine : Engine) : list Protocol.InputAudioStripStatus :=
  (λ p, Protocol.mk_strip_status p.1 (EngineShow.gain_millidb p.2)
     (EngineShow.balance_basis_points p.2) (EngineShow.muted p.2) (EngineShow.soloed p.2)
     (EngineShow.follow_video p.2) (EngineShow.delay_samples p.2))
  <$> EngineShow.input_audio_strips (Engine.show engine).

Record SnapshotRecord := mk_record {
  record_cursor : Protocol.EventCursor;
  record_snapshot : Protocol.SnapshotMessage
}.
#[global] Instance SnapshotRecord_eq_dec : EqDecision SnapshotRecord.
Proof. solve_decision. Defined.
Definition snapshot_record (engine : Engine) (identity : Protocol.EngineIdentity) :
    option SnapshotRecord :=
  let show := Engine.show engine in
  let desired := EngineShow.desired_switcher show in
  let realized := Engine.realized_switcher engine in
  let revision := Command.revision (Engine.commands engine) in
  desired_manual ← Engine.desired_manual_transition engine ≫= protocol_manual_status;
  realized_manual ← Engine.realized_manual_transition engine ≫= protocol_manual_status;
  desired_fade ← protocol_fade_to_black_state (Engine.desired_fade_to_black engine);
  realized_fade ← protocol_fade_to_black_state (Engine.realized_fade_to_black engine);
  stingers ← protocol_stingers engine;
  streams ← protocol_streams engine;
  desired_overlays ← protocol_overlays (Switcher.overlays desired);
  realized_overlays ← protocol_overlays (Switcher.overlays realized);
  Some (mk_record (Protocol.mk_cursor identity revision) {|
    Protocol.snapshot_engine := identity;
    Protocol.snapshot_revision := revision;
    Protocol.show_name := EngineShow.show_name show;
    Protocol.inputs := zip_with Protocol.mk_input_status (EngineShow.show_inputs show)
                         (EngineShow.input_names show);
    Protocol.outputs := (λ p, Protocol.mk_output_status p.1 p.2) <$> EngineShow.outputs show;
    Protocol.input_audio_strips := protocol_input_audio_strips engine;
    Protocol.desired_program := Switcher.program desired;
    Protocol.desired_preview := Switcher.preview desired;
    Protocol.realized_program := Switcher.program realized;
    Protocol.realized_preview := Switcher.preview realized;
    Protocol.desired_manual_transition := desired_manual;
    Protocol.realized_manual_transition := realized_manual;
    Protocol.desired_fade_to_black := desired_fade;
    Protocol.realized_fade_to_black := realized_fade;
    Protocol.stingers := stingers;
    Protocol.streams := streams;
    Protocol.record_desired_active := Switcher.recording_desired desired;
    Protocol.desired_overlays := desired_overlays;
    Protocol.realized_overlays := realized_overlays
  |}).

(** ** Answers and events *)

Definition command_result (receipt : Engine.Receipt) : Protocol.CommandResult.t :=
  match receipt with
  | Command.Accepted id revision result =>
      Protocol.CommandResult.Accepted id revision (Some (Engine.acc_target_frame result))
  | Command.Rejected id rejection current_revision =>
      Protocol.CommandResult.Rejected id (code_name (Command.code rejection))
        (Command.message rejection) (Command.fields rejection) current_revision
        (Command.retryable rejection)
  end.

Definition event_payloads (outcome : Engine.EngineCommandOutcome) : list Engine.EngineEvent.t :=
  Command.ev_payload <$> Command.events outcome.
Definition streams_changed (e : Engine.EngineEvent.t) : bool :=
  match e with
  | Engine.EngineEvent.StreamsChanged _ => true
  | _ => false
  end.
Definition recording_changed (e : Engine.EngineEvent.t) : bool :=
  match e with
  | Engine.EngineEvent.RecordingChanged _ => true
  | _ => false
  end.
Definition input_renamed (e : Engine.EngineEvent.t) : option Protocol.EventPayload.t :=
  match e with
  | Engine.EngineEvent.InputRenamed input name => Some (Protocol.EventPayload.InputRenamed input name)
  | _ => None
  end.
Definition input_order_changed (e : Engine.EngineEvent.t) : option Protocol.EventPayload.t :=
  match e with
  | Engine.EngineEvent.InputOrderChanged inputs =>
      Some (Protocol.EventPayload.InputOrderChanged inputs)
  | _ => None
  end.
Definition stinger_slots_changed (e : Engine.EngineEvent.t) : bool :=
  match e with
  | Engine.EngineEvent.DesiredSwitcherChanged
      (Engine.EngineCommand.ConfigureStinger _ _ | Engine.EngineCommand.RemoveStinger _) => true
  | _ => false
  end.
Definition accepted_event_payload (engine : Engine) (outcome : Engine.EngineCommandOutcome) :
    option Protocol.EventPayload.t :=
  let desired := EngineShow.desired_switcher (Engine.show engine) in
  let events := event_payloads outcome in
  if existsb streams_changed events then
    Protocol.EventPayload.StreamsChanged <$> protocol_streams engine
  else if existsb recording_changed events then
    Some (Protocol.EventPayload.RecordingChanged (Switcher.recording_desired desired))
  else match head (omap input_renamed events) with
  | Some payload => Some payload
  | None =>
      let program := Switcher.program desired in
      let preview := Switcher.preview desired in
      manual_transition ← Engine.desired_manual_transition engine ≫= protocol_manual_status;
      fade_to_black ← protocol_fade_to_black_state (Engine.desired_fade_to_black engine);
      overlays ← protocol_overlays (Switcher.overlays desired);
      let input_audio_strips := protocol_input_audio_strips engine in
      if existsb stinger_slots_changed events then
        stingers ← protocol_desired_stingers engine;
        Some (Protocol.EventPayload.StingerSlotsChanged program preview manual_transition
          fade_to_black stingers overlays input_audio_strips)
      else match head (omap input_order_changed events) with
      | Some payload => Some payload
      | None =>
          Some (Protocol.EventPayload.DesiredSwitcher program preview manual_transition
            fade_to_black overlays input_audio_strips)
      end
  end.
