(* ===== verification/Control.v ===== *)
(** The control service, [crates/services/fm-control/src/lib.rs]: it authorizes and
    submits the commands of clients to the engine, keeps the bounded log that
    clients resume from, ticks the engine, reports what became of every accepted
    command and feeds the live subscribers.

    [ControlService] maps to the record of the same name; [prepare_submit],
    [commit], [submit], [resume], [tick_with_realizer_inner], [publish] to
    definitions of theirs.  A prepared submission borrows the service exclusively,
    so it is a value here.  A channel of a subscriber is shared by the service and
    the [Subscription] it returned: the map [channels] holds them, and the service
    holds the senders of the identifiers in [subscribers].  The order in which the
    [HashMap] of subscribers is visited is not specified; the model takes that of
    [elements].

    At the end, laws of live subscribers: [publish] offers every event to the
    bounded channel of every subscriber.  Channels do not disturb each other: what
    happens to one is [offer_all], whatever the order in which the subscribers are
    visited, and nothing but channels and subscribers changes. *)
From S2P Require Import Prelude Types ControlWire.
From S2P Require BTree Command Plans Scheduler FadeToBlack Overlay SwitcherTypes Switcher EngineShow Engine Protocol Auth.
#[local] Open Scope Z_scope.

(** ** Data *)

Record ControlLimits := mk_limits {
  retained_events : nat;
  max_subscribers : nat;
  subscriber_queue : nat
}.
Definition limits_default : ControlLimits := mk_limits 1024 64 64.

Inductive ResumeDecision :=
  | ResumeEvents (events : list Protocol.EventMessage)
  | ResumeSnapshot (record : SnapshotRecord).
Record ResultBeforeEvents := mk_output {
  output_result : Protocol.CommandResult.t;
  output_events : list Protocol.EventMessage
}.
Definition into_wire_messages (self : ResultBeforeEvents) : list Protocol.WireMessage.t :=
  Protocol.WireMessage.CommandResult (output_result self) ::
  (Protocol.WireMessage.Event <$> output_events self).
Record AcceptedOutcome := mk_accepted {
  accepted_key : string;
  accepted_receipt : Engine.Receipt;
  accepted_events : list (Command.DurableEvent Engine.EngineEvent.t)
}.

Abbreviation SubscriberId := Z (only parsing).
Inductive SubscriberFailureReason := SlowClient | Disconnected.
#[global] Instance SubscriberFailureReason_eq_dec : EqDecision SubscriberFailureReason.
Proof. solve_decision. Defined.
Record SubscriberFailure := mk_failure {
  failed_subscriber : SubscriberId;
  failure_reason : SubscriberFailureReason
}.
Record CommandSubmission := mk_submission {
  output : ResultBeforeEvents;
  submission_replayed : bool;
  submission_accepted : option AcceptedOutcome;
  subscriber_failures : list SubscriberFailure
}.
Definition set_failures (l : list SubscriberFailure) (s : CommandSubmission) : CommandSubmission :=
  mk_submission (output s) (submission_replayed s) (submission_accepted s) l.

Inductive PreparedSubmissionKind :=
  | PreparedEngine (execution : Engine.PreparedEngineExecution) (command : Engine.EngineCommand.t)
  | PreparedDenial.
Record PreparedSubmission := mk_prepared {
  prepared_key : string;
  prepared_submission : CommandSubmission;
  prepared_kind : PreparedSubmissionKind
}.
Inductive PrepareSubmitOutcome :=
  | ReplayedSubmit (submission : CommandSubmission)
  | PreparedSubmit (prepared : PreparedSubmission).

Record TickOutcome := mk_tick_outcome {
  tick_frame : Engine.FrameResult;
  tick_runtime_events : list Protocol.RuntimeEventMessage;
  tick_failures : list SubscriberFailure
}.
Inductive LiveEvent :=
  | LiveDurable (m : Protocol.EventMessage)
  | LiveRuntime (m : Protocol.RuntimeEventMessage).
#[global] Instance LiveEvent_eq_dec : EqDecision LiveEvent.
Proof. solve_decision. Defined.

(** A [sync_channel], the liveness of its receiver, and the failure cell. *)
Record Channel := mk_channel {
  queued : list LiveEvent;
  bound : nat;
  receiver_alive : bool;
  channel_failure : option SubscriberFailureReason
}.

Inductive SubscribeError := LimitReached | IdentifierExhausted.
Inductive ControlError :=
  | CtlEngine (e : Engine.EngineError)
  | ServerIdentityMismatch
  | RuntimeGenerationOutOfOrder
  | RuntimeActionMismatch
  | RuntimeSequenceExhausted.
Inductive TickWithRealizerError (E : Type) :=
  | TickFailed (e : ControlError)
  | RealizationFailed (e : E).
Arguments TickFailed {E} e.
Arguments RealizationFailed {E} e.

Record PendingRuntimeAction := mk_pending {
  pending_revision : Z;
  pending_command : Engine.EngineCommand.t
}.
Record ActiveTransition := mk_active {
  active_revision : Z;
  active_generation : Z
}.

Record ControlService (A : Type) := mk_control {
  engine : Engine;
  authorizer : A;
  identity : Protocol.EngineIdentity;
  limits : ControlLimits;
  authorization_denials : gmap string Protocol.CommandResult.t;
  authorization_denial_order : list string;
  log : list Protocol.EventMessage;
  snapshot : SnapshotRecord;
  subscribers : gset SubscriberId;
  next_subscriber_id : Z;
  pending_runtime_actions : list PendingRuntimeAction;
  active_transition : option ActiveTransition;
  active_fade_to_black : option ActiveTransition;
  runtime_sequence_generation : Z;
  runtime_sequence : Z;
  channels : gmap SubscriberId Channel
}.
Arguments mk_control {A}.
Arguments engine {A}.
Arguments authorizer {A}.
Arguments identity {A}.
Arguments limits {A}.
Arguments authorization_denials {A}.
Arguments authorization_denial_order {A}.
Arguments log {A}.
Arguments snapshot {A}.
Arguments subscribers {A}.
Arguments next_subscriber_id {A}.
Arguments pending_runtime_actions {A}.
Arguments active_transition {A}.
Arguments active_fade_to_black {A}.
Arguments runtime_sequence_generation {A}.
Arguments runtime_sequence {A}.
Arguments channels {A}.

Section control.
Context {A : Type} `{AuthorizationHook A}.
Abbreviation service := (ControlService A).
Implicit Types self : service.

Definition set_engine (x : Engine) self : service :=
  mk_control x (authorizer self) (identity self) (limits self) (authorization_denials self)
    (authorization_denial_order self) (log self) (snapshot self) (subscribers self)
    (next_subscriber_id self) (pending_runtime_actions self) (active_transition self)
    (active_fade_to_black self) (runtime_sequence_generation self) (runtime_sequence self)
    (channels self).
Definition set_denials (x : gmap string Protocol.CommandResult.t) (order : list string) self : service :=
  mk_control (engine self) (authorizer self) (identity self) (limits self) x
    order (log self) (snapshot self) (subscribers self)
    (next_subscriber_id self) (pending_runtime_actions self) (active_transition self)
    (active_fade_to_black self) (runtime_sequence_generation self) (runtime_sequence self)
    (channels self).
Definition set_log (x : list Protocol.EventMessage) self : service :=
  mk_control (engine self) (authorizer self) (identity self) (limits self) (authorization_denials self)
    (authorization_denial_order self) x (snapshot self) (subscribers self)
    (next_subscriber_id self) (pending_runtime_actions self) (active_transition self)
    (active_fade_to_black self) (runtime_sequence_generation self) (runtime_sequence self)
    (channels self).
Definition set_snapshot (x : SnapshotRecord) self : service :=
  mk_control (engine self) (authorizer self) (identity self) (limits self) (authorization_denials self)
    (authorization_denial_order self) (log self) x (subscribers self)
    (next_subscriber_id self) (pending_runtime_actions self) (active_transition self)
    (active_fade_to_black self) (runtime_sequence_generation self) (runtime_sequence self)
    (channels self).
Definition set_subscribers (x : gset SubscriberId) (next : Z) (ch : gmap SubscriberId Channel) self :
    service :=
  mk_control (engine self) (authorizer self) (identity self) (limits self) (authorization_denials self)
    (authorization_denial_order self) (log self) (snapshot self) x
    next (pending_runtime_actions self) (active_transition self)
    (active_fade_to_black self) (runtime_sequence_generation self) (runtime_sequence self)
    ch.
Definition set_pending (x : list PendingRuntimeAction) self : service :=
  mk_control (engine self) (authorizer self) (identity self) (limits self) (authorization_denials self)
    (authorization_denial_order self) (log self) (snapshot self) (subscribers self)
    (next_subscriber_id self) x (active_transition self)
    (active_fade_to_black self) (runtime_sequence_generation self) (runtime_sequence self)
    (channels self).
Definition set_active_transition (x : option ActiveTransition) self : service :=
  mk_control (engine self) (authorizer self) (identity self) (limits self) (authorization_denials self)
    (authorization_denial_order self) (log self) (snapshot self) (subscribers self)
    (next_subscriber_id self) (pending_runtime_actions self) x
    (active_fade_to_black self) (runtime_sequence_generation self) (runtime_sequence self)
    (channels self).
Definition set_active_fade (x : option ActiveTransition) self : service :=
  mk_control (engine self) (authorizer self) (identity self) (limits self) (authorization_denials self)
    (authorization_denial_order self) (log self) (snapshot self) (subscribers self)
    (next_subscriber_id self) (pending_runtime_actions self) (active_transition self)
    x (runtime_sequence_generation self) (runtime_sequence self)
    (channels self).
Definition set_sequence (generation sequence : Z) self : service :=
  mk_control (engine self) (authorizer self) (identity self) (limits self) (authorization_denials self)
    (authorization_denial_order self) (log self) (snapshot self) (subscribers self)
    (next_subscriber_id self) (pending_runtime_actions self) (active_transition self)
    (active_fade_to_black self) generation sequence
    (channels self).

Abbreviation control_stm := (stm service ControlError).

Definition current_revision (self : service) : Z := Command.revision (Engine.commands (engine self)).
Definition generation (self : service) : Z := Engine.runtime_generation (engine self).

(** [ControlService::new]; [None] is a panic of the snapshot. *)
Definition control_new (e : Engine) (authorizer : A) (engine_id log_id : string)
    (limits : ControlLimits) : option service :=
  let identity := Protocol.mk_identity engine_id (Command.state_epoch (Engine.commands e)) log_id in
  snapshot ← snapshot_record e identity;
  Some (mk_control e authorizer identity limits ∅ [] [] snapshot ∅ 1 [] None None
          (Engine.runtime_generation e) 0 ∅).

Record ControlDiagnostics := mk_diagnostics {
  diagnosed_engine : Protocol.EngineIdentity;
  diagnosed_revision : Z;
  oldest_retained_revision : option Z;
  newest_retained_revision : option Z;
  subscriber_count : nat;
  diagnosed_limits : ControlLimits
}.
Definition diagnostics (self : service) : ControlDiagnostics :=
  mk_diagnostics (identity self) (current_revision self)
    ((λ event, Protocol.cursor_revision (Protocol.cursor event)) <$> head (log self))
    ((λ event, Protocol.cursor_revision (Protocol.cursor event)) <$> last (log self))
    (size (subscribers self)) (limits self).

(** [project_next_frame]: a tick of a copy. *)
Definition project_next_frame (self : service) : outcome ControlError Engine.FrameResult :=
  outcome_map_err CtlEngine (Engine.tick (engine self)).2.
Definition idle_engine_snapshot (self : service) :
    result Engine.SnapshotError Engine.EngineSnapshot :=
  if decide (pending_runtime_actions self ≠ [] ∨ is_Some (active_transition self) ∨
             is_Some (active_fade_to_black self))
  then Err Engine.WorkInFlight
  else Engine.snapshot (engine self).

(** ** Subscribers *)

Definition subscribe : stm service SubscribeError SubscriberId :=
  self ← st_get;
  _ ← st_require (¬ max_subscribers (limits self) ≤ size (subscribers self))%nat LimitReached;
  let id := next_subscriber_id self in
  next ← st_lift (ok_or IdentifierExhausted (checked U64 (next_subscriber_id self + 1)));
  _ ← st_put (set_subscribers ({[id]} ∪ subscribers self) next
        (<[id := mk_channel [] (subscriber_queue (limits self)) true None]> (channels self)) self);
  mret id.
Definition unsubscribe (id : SubscriberId) self : service * bool :=
  (set_subscribers (subscribers self ∖ {[id]}) (next_subscriber_id self) (channels self) self,
   bool_decide (id ∈ subscribers self)).

(** The receiving half: [Subscription::try_recv], and dropping it. *)
Inductive TryRecv :=
  | Received (e : LiveEvent)
  | RecvEmpty
  | RecvDisconnected.
Definition try_recv (id : SubscriberId) self : service * TryRecv :=
  match channels self !! id with
  | Some ch =>
      match queued ch with
      | e :: l =>
          (set_subscribers (subscribers self) (next_subscriber_id self)
             (<[id := mk_channel l (bound ch) (receiver_alive ch) (channel_failure ch)]>
                (channels self)) self, Received e)
      | [] => (self, if decide (id ∈ subscribers self) then RecvEmpty else RecvDisconnected)
      end
  | None => (self, RecvDisconnected)
  end.
Definition drop_subscription (id : SubscriberId) self : service :=
  set_subscribers (subscribers self) (next_subscriber_id self)
    (alter (λ ch, mk_channel (queued ch) (bound ch) false (channel_failure ch)) id (channels self))
    self.

(** [try_send]. *)
Definition try_send (event : LiveEvent) (ch : Channel) : Channel * option SubscriberFailureReason :=
  if receiver_alive ch then
    if decide (length (queued ch) < bound ch)%nat
    then (mk_channel (queued ch ++ [event]) (bound ch) true (channel_failure ch), None)
    else (ch, Some SlowClient)
  else (ch, Some Disconnected).
(** One subscriber of [publish]: it is kept, or fails and is removed. *)
Definition publish_to (event : LiveEvent) (acc : service * list SubscriberFailure)
    (id : SubscriberId) : service * list SubscriberFailure :=
  let '(self, failures) := acc in
  match channels self !! id with
  | None => (self, failures)
  | Some ch =>
      let '(ch, failure) := try_send event ch in
      match failure with
      | None =>
          (set_subscribers (subscribers self) (next_subscriber_id self)
             (<[id := ch]> (channels self)) self, failures)
      | Some reason =>
          (set_subscribers (subscribers self ∖ {[id]}) (next_subscriber_id self)
             (<[id := mk_channel (queued ch) (bound ch) (receiver_alive ch) (Some reason)]>
                (channels self)) self,
           failures ++ [mk_failure id reason])
      end
  end.
Definition publish_event (acc : service * list SubscriberFailure) (event : LiveEvent) :
    service * list SubscriberFailure :=
  foldl (publish_to event) acc (elements (subscribers acc.1)).
Definition publish (events : list LiveEvent) self : service * list SubscriberFailure :=
  foldl publish_event (self, []) events.

(** ** Resuming *)

Fixpoint contiguous_from (expected : option Z) (l : list Protocol.EventMessage) : bool :=
  match l with
  | [] => true
  | event :: l =>
      let revision := Protocol.cursor_revision (Protocol.cursor event) in
      bool_decide (expected = Some revision) && contiguous_from (checked U64 (revision + 1)) l
  end.
Definition event_revision (event : Protocol.EventMessage) : Z :=
  Protocol.cursor_revision (Protocol.cursor event).
Definition resume (cursor : Protocol.EventCursor) (self : service) : ResumeDecision :=
  let revision := Protocol.cursor_revision cursor in
  if decide (Protocol.cursor_engine cursor ≠ identity self ∨ current_revision self < revision)
  then ResumeSnapshot (snapshot self)
  else if decide (revision = current_revision self) then ResumeEvents []
  else
    let events := filter (λ event, revision < event_revision event) (log self) in
    if bool_decide (events ≠ []) && contiguous_from (checked U64 (revision + 1)) events &&
       bool_decide (event_revision <$> last events = Some (current_revision self))
    then ResumeEvents events
    else ResumeSnapshot (snapshot self).

(** ** Submitting commands *)

(** [engine_submission]; [None] is a panic. *)
Definition engine_submission (identity : Protocol.EngineIdentity) (key : string) (e : Engine)
    (outcome : Engine.EngineCommandOutcome) : option CommandSubmission :=
  let result := command_result (Command.receipt outcome) in
  let fresh := negb (Command.replayed outcome) &&
               bool_decide (is_Some (Engine.accepted (Command.receipt outcome))) in
  events ← (if fresh then
              payload ← accepted_event_payload e outcome;
              Some [Protocol.mk_event_message
                (Protocol.mk_cursor identity (Command.revision (Engine.commands e))) payload]
            else Some []);
  Some (mk_submission (mk_output result events) (Command.replayed outcome)
    (if fresh then Some (mk_accepted key (Command.receipt outcome) (Command.events outcome))
     else None) []).

Definition prepare_submit (principal : Auth.Principal) (message : Protocol.CommandMessage)
    (now_millis : Z) (self : service) : outcome ControlError PrepareSubmitOutcome :=
  let key := Protocol.idempotency_key message in
  match authorization_denials self !! key with
  | Some result => Ret (ReplayedSubmit (mk_submission (mk_output result []) true None []))
  | None =>
      match hook_authorize (authorizer self) principal
              (command_class (Protocol.payload message)) with
      | Err denial =>
          let result := Protocol.CommandResult.Rejected (Protocol.id message)
            (code_name Command.PermissionDenied) (denial_message denial) []
            (current_revision self) false in
          Ret (PreparedSubmit (mk_prepared key
            (mk_submission (mk_output result []) false None []) PreparedDenial))
      | Ok _ =>
          match engine_command (Protocol.payload message) with
          | None => Panic
          | Some command =>
              match Engine.prepare_execute (engine self)
                      (Protocol.domain_envelope message command) now_millis with
              | Ret (Engine.Replayed outcome) =>
                  match engine_submission (identity self) key (engine self) outcome with
                  | Some submission => Ret (ReplayedSubmit submission)
                  | None => Panic
                  end
              | Ret (Engine.Prepared execution) =>
                  match engine_submission (identity self) key (Engine.staged execution)
                          (Engine.prepared_outcome execution) with
                  | Some submission => Ret (PreparedSubmit
                      (mk_prepared key submission (PreparedEngine execution command)))
                  | None => Panic
                  end
              | Throw e => Throw (CtlEngine e)
              | Panic => Panic
              end
          end
      end
  end.

(** The loop that makes room for a denial. *)
Fixpoint expire_denials (n : nat) (order : list string)
    (denials : gmap string Protocol.CommandResult.t) :
    list string * gmap string Protocol.CommandResult.t :=
  if decide (n ≤ size denials)%nat then
    match order with
    | [] => ([], denials)
    | expired :: order => expire_denials n order (delete expired denials)
    end
  else (order, denials).
Definition remember_authorization_denial (key : string) (result : Protocol.CommandResult.t) self :
    service :=
  let n := retained_events (limits self) in
  if decide (n = 0)%nat then self else
  let '(order, denials) := expire_denials n (authorization_denial_order self)
                             (authorization_denials self) in
  set_denials (<[key := result]> denials) (order ++ [key]) self.

(** The last [n] elements: [pop_front] while there are more. *)
Definition keep_last {B} (n : nat) (l : list B) : list B := drop (length l - n) l.

Definition commit (prepared : PreparedSubmission) : control_stm CommandSubmission :=
  let submission := prepared_submission prepared in
  match prepared_kind prepared with
  | PreparedEngine execution command =>
      _ ← st_zoom engine set_engine (st_map_err CtlEngine (Engine.commit_execute execution));
      self ← st_get;
      _ ← (match submission_accepted submission with
           | Some _ => st_put (set_pending
               (pending_runtime_actions self ++ [mk_pending (current_revision self) command])
               (set_log (keep_last (retained_events (limits self))
                  (log self ++ output_events (output submission))) self))
           | None => mret tt
           end);
      self ← st_get;
      snapshot ← st_expect (snapshot_record (engine self) (identity self));
      let '(self, failures) := publish (LiveDurable <$> output_events (output submission))
                                 (set_snapshot snapshot self) in
      _ ← st_put self;
      mret (set_failures failures submission)
  | PreparedDenial =>
      _ ← st_modify (remember_authorization_denial (prepared_key prepared)
                       (output_result (output submission)));
      mret submission
  end.
Definition submit (principal : Auth.Principal) (message : Protocol.CommandMessage)
    (now_millis : Z) : control_stm CommandSubmission :=
  self ← st_get;
  match prepare_submit principal message now_millis self with
  | Ret (ReplayedSubmit submission) => mret submission
  | Ret (PreparedSubmit prepared) => commit prepared
  | Throw e => mthrow e
  | Panic => st_panic
  end.

(** [PreparedSubmission::project] and [overlay_transition_ticks]. *)
Definition project_engine (e : Engine) (n : nat) : outcome ControlError Engine.EngineSnapshot :=
  match Engine.ticks n e with
  | (projected, Ret _) =>
      match Engine.snapshot projected with
      | Ok snapshot => Ret snapshot
      | Err x => Throw (CtlEngine (Engine.ErrSnapshot x))
      end
  | (_, Throw x) => Throw (CtlEngine x)
  | (_, Panic) => Panic
  end.
Definition prepared_project (prepared : PreparedSubmission) (n : nat) (self : service) :
    outcome ControlError Engine.EngineSnapshot :=
  match prepared_kind prepared with
  | PreparedEngine execution _ => outcome_map_err CtlEngine (Engine.project execution n)
  | PreparedDenial => project_engine (engine self) n
  end.
Definition overlay_transition_ticks (prepared : PreparedSubmission) (channel : Z) (self : service) :
    option Z :=
  let e := match prepared_kind prepared with
           | PreparedEngine execution _ => Engine.staged execution
           | PreparedDenial => engine self
           end in
  overlay ← ret_value
    (Switcher.overlay (E := Empty_set) channel (EngineShow.desired_switcher (Engine.show e))).2;
  Some (match Overlay.transition overlay with
        | Overlay.OverlayCut => 1
        | Overlay.OverlayFade => Overlay.duration_frames overlay
        end).

(** ** Ticking *)

Definition runtime_event (server : Protocol.ServerIdentity) (revision gen : Z)
    (event : Protocol.RuntimeLifecycleEvent.t) : control_stm Protocol.RuntimeEventMessage :=
  self ← st_get;
  _ ← (if decide (gen ≠ runtime_sequence_generation self) then
         _ ← st_require (¬ gen < runtime_sequence_generation self) RuntimeGenerationOutOfOrder;
         st_put (set_sequence gen 0 self)
       else mret tt);
  self ← st_get;
  sequence ← st_lift (ok_or RuntimeSequenceExhausted (checked U64 (runtime_sequence self + 1)));
  _ ← st_put (set_sequence (runtime_sequence_generation self) sequence self);
  mret (Protocol.mk_runtime_event server revision gen sequence event).
Definition runtime_realized (server : Protocol.ServerIdentity) (revision gen : Z)
    (domain : string) : control_stm Protocol.RuntimeEventMessage :=
  self ← st_get;
  manual ← st_expect (Engine.realized_manual_transition (engine self) ≫= protocol_manual_status);
  fade ← st_expect (protocol_fade_to_black_state (Engine.realized_fade_to_black (engine self)));
  runtime_event server revision gen (Protocol.RuntimeLifecycleEvent.Realized domain manual fade).
Definition runtime_superseded (server : Protocol.ServerIdentity) (revision gen by_revision : Z) :
    control_stm Protocol.RuntimeEventMessage :=
  runtime_event server revision gen (Protocol.RuntimeLifecycleEvent.Superseded by_revision).

(** One action of the frame. *)
Definition apply_pending (server : Protocol.ServerIdentity) (publish_realization : bool)
    (previous_generation offset : Z) : control_stm (list Protocol.RuntimeEventMessage) :=
  self ← st_get;
  pending ← (match pending_runtime_actions self with
             | [] => mthrow RuntimeActionMismatch
             | pending :: l => _ ← st_put (set_pending l self); mret pending
             end);
  gen ← st_lift (ok_or RuntimeGenerationOutOfOrder (checked U64 (previous_generation + offset)));
  let active := mk_active (pending_revision pending) gen in
  if is_program_transition (pending_command pending) then
    _ ← st_modify (set_active_transition (Some active)); mret []
  else if is_fade_to_black (pending_command pending) then
    self ← st_get;
    _ ← st_put (set_active_fade (Some active) self);
    match active_fade_to_black self with
    | Some superseded =>
        if publish_realization then
          event ← runtime_superseded server (active_revision superseded) gen
                    (pending_revision pending);
          mret [event]
        else mret []
    | None => mret []
    end
  else if publish_realization then
    event ← runtime_realized server (pending_revision pending) gen
              (runtime_domain (pending_command pending));
    mret [event]
  else mret [].
Fixpoint apply_all_pending (server : Protocol.ServerIdentity) (publish_realization : bool)
    (previous_generation offset : Z) (n : nat) : control_stm (list Protocol.RuntimeEventMessage) :=
  match n with
  | O => mret []
  | S n =>
      events ← apply_pending server publish_realization previous_generation offset;
      more ← apply_all_pending server publish_realization previous_generation (offset + 1) n;
      mret (events ++ more)
  end.

Definition transition_complete (e : Engine) : Prop :=
  let realized := Engine.realized_switcher e in
  let desired := EngineShow.desired_switcher (Engine.show e) in
  Switcher.transition realized = None ∧ Switcher.program realized = Switcher.program desired ∧
  Switcher.preview realized = Switcher.preview desired.
Definition fade_complete (e : Engine) : Prop :=
  ¬ Engine.fade_is_automatic (Engine.realized_switcher e) ∧
  Engine.realized_fade_to_black e = Engine.desired_fade_to_black e.
#[global] Instance transition_complete_dec e : Decision (transition_complete e).
Proof.
  unfold transition_complete. apply and_dec; [|apply _].
  destruct (Switcher.transition (Engine.realized_switcher e)); [right|left]; done.
Defined.
#[global] Instance fade_complete_dec e : Decision (fade_complete e).
Proof. unfold fade_complete. apply _. Defined.

Definition generation_le (a b : ActiveTransition) : Prop :=
  active_generation a ≤ active_generation b.
#[global] Instance generation_le_dec a b : Decision (generation_le a b).
Proof. unfold generation_le. apply _. Defined.
Definition take_completed_switcher_operations : control_stm (list ActiveTransition) :=
  self ← st_get;
  transition ← (if decide (transition_complete (engine self)) then
                  _ ← st_modify (set_active_transition None);
                  mret (option_list (active_transition self))
                else mret []);
  fade ← (if decide (fade_complete (engine self)) then
            _ ← st_modify (set_active_fade None);
            mret (option_list (active_fade_to_black self))
          else mret []);
  mret (merge_sort generation_le (transition ++ fade)).
Fixpoint realize_operations (server : Protocol.ServerIdentity) (gen : Z)
    (l : list ActiveTransition) : control_stm (list Protocol.RuntimeEventMessage) :=
  match l with
  | [] => mret []
  | operation :: l =>
      event ← runtime_realized server (active_revision operation) gen "switcher";
      more ← realize_operations server gen l;
      mret (event :: more)
  end.

Definition server_matches (server : Protocol.ServerIdentity) (id : Protocol.EngineIdentity) : Prop :=
  Protocol.server_engine_id server = Protocol.engine_id id ∧
  Protocol.server_state_epoch server = Protocol.state_epoch id ∧
  Protocol.server_log_id server = Protocol.log_id id.
#[global] Instance server_matches_dec server id : Decision (server_matches server id).
Proof. unfold server_matches. apply _. Defined.

(** What follows a tick of the engine and the realization of its frame. *)
Definition finish_tick (server : Protocol.ServerIdentity) (publish_realization : bool)
    (previous_generation : Z) (frame : Engine.FrameResult) : control_stm TickOutcome :=
  let current_generation := Engine.result_generation frame in
  applied ← st_lift (ok_or RuntimeGenerationOutOfOrder
              (checked U64 (current_generation - previous_generation)));
  events ← apply_all_pending server publish_realization previous_generation 1 (Z.to_nat applied);
  completions ← take_completed_switcher_operations;
  more ← (if publish_realization then realize_operations server current_generation completions
          else mret []);
  self ← st_get;
  snapshot ← st_expect (snapshot_record (engine self) (identity self));
  let runtime_events := events ++ more in
  let '(self, failures) := publish (LiveRuntime <$> runtime_events) (set_snapshot snapshot self) in
  _ ← st_put self;
  mret (mk_tick_outcome frame runtime_events failures).
Definition tick_with_realizer_inner {E} (server : Protocol.ServerIdentity)
    (realizer : Engine.FrameResult → result E unit) (publish_realization : bool) :
    stm service (TickWithRealizerError E) TickOutcome :=
  self ← st_get;
  _ ← st_require (server_matches server (identity self)) (TickFailed ServerIdentityMismatch);
  let previous_generation := generation self in
  frame ← st_zoom engine set_engine
            (st_map_err (λ e, TickFailed (CtlEngine e)) Engine.tick);
  _ ← st_lift (result_map_err RealizationFailed (realizer frame));
  st_map_err TickFailed (finish_tick server publish_realization previous_generation frame).
Definition tick_with_realizer {E} (server : Protocol.ServerIdentity)
    (realizer : Engine.FrameResult → result E unit) :
    stm service (TickWithRealizerError E) TickOutcome :=
  tick_with_realizer_inner server realizer true.
Definition tick_error (e : TickWithRealizerError Empty_set) : ControlError :=
  match e with
  | TickFailed e => e
  | RealizationFailed e => match e with end
  end.
Definition tick (server : Protocol.ServerIdentity) : control_stm TickOutcome :=
  st_map_err tick_error (tick_with_realizer server (λ _, Ok tt)).
Definition tick_for_shutdown (server : Protocol.ServerIdentity) : control_stm TickOutcome :=
  st_map_err tick_error (tick_with_realizer_inner server (λ _, Ok tt) false).
End control.

Section publish.
Context {A : Type}.
Abbreviation service := (ControlService A).
Implicit Types self : service.

(** ** Frame *)

(** The service but for its subscribers and their channels. *)
Definition core self : service := set_subscribers ∅ 0 ∅ self.
Definition subscribers_wf self : Prop :=
  ∀ id, id ∈ subscribers self → is_Some (channels self !! id).

Lemma publish_to_core event self failures id :
  core (publish_to event (self, failures) id).1 = core self ∧
  next_subscriber_id (publish_to event (self, failures) id).1 = next_subscriber_id self.
Proof.
  unfold publish_to. destruct (channels self !! id) as [ch|]; [|done].
  by destruct (try_send event ch) as [ch' [r|]].
Qed.
Lemma publish_core events self :
  core (publish events self).1 = core self ∧
  next_subscriber_id (publish events self).1 = next_subscriber_id self.
Proof.
  assert (Hone : ∀ ev l acc, core (foldl (publish_to ev) acc l).1 = core acc.1 ∧
    next_subscriber_id (foldl (publish_to ev) acc l).1 = next_subscriber_id acc.1).
  { intros ev l. induction l as [|id l IH]; [done|]. intros [s f]. cbn [foldl].
    destruct (IH (publish_to ev (s, f) id)) as [-> ->]. apply publish_to_core. }
  unfold publish. change self with (self, [] : list SubscriberFailure).1 at 2 4.
  generalize (self, [] : list SubscriberFailure). induction events as [|ev l IH]; [done|].
  intros acc. cbn [foldl]. destruct (IH (publish_event acc ev)) as [-> ->]. apply Hone.
Qed.

(** ** One channel *)

(** The events are offered until one cannot be sent. *)
Fixpoint offer_all (events : list LiveEvent) (ch : Channel) : Channel * option SubscriberFailureReason :=
  match events with
  | [] => (ch, None)
  | event :: events =>
      match try_send event ch with
      | (ch, None) => offer_all events ch
      | (ch, Some reason) =>
          (mk_channel (queued ch) (bound ch) (receiver_alive ch) (Some reason), Some reason)
      end
  end.

(** What offering [events] to the subscribers in [l] does to [id]. *)
Record offered (l : list SubscriberId) events (acc acc' : service * list SubscriberFailure) id : Prop := {
  of_channel : channels acc'.1 !! id =
    if decide (id ∈ l) then (λ ch, (offer_all events ch).1) <$> channels acc.1 !! id
    else channels acc.1 !! id;
  of_subscribed : id ∈ subscribers acc'.1 ↔
    id ∈ subscribers acc.1 ∧
    (id ∈ l → ∀ ch, channels acc.1 !! id = Some ch → (offer_all events ch).2 = None);
  of_failed : ∀ reason, mk_failure id reason ∈ acc'.2 ↔
    mk_failure id reason ∈ acc.2 ∨ id ∈ l ∧ ∃ ch, channels acc.1 !! id = Some ch ∧
      (offer_all events ch).2 = Some reason
}.

Lemma offer_app l1 l2 ch :
  offer_all (l1 ++ l2) ch =
  match offer_all l1 ch with
  | (ch, None) => offer_all l2 ch
  | r => r
  end.
Proof.
  revert ch. induction l1 as [|ev l1 IH]; intros ch; simpl; [done|].
  by destruct (try_send ev ch) as [ch' [r|]].
Qed.

(** One subscriber is offered one event. *)
Lemma publish_to_offered event acc i id :
  offered [i] [event] acc (publish_to event acc i) id.
Proof.
  destruct acc as [self fs]. unfold publish_to.
  destruct (channels self !! i) as [ch|] eqn:Hi.
  2: { split; simpl.
    - case_decide as H; [|done]. apply list_elem_of_singleton in H as ->. by rewrite Hi.
    - split; [|by intros [? _]]. intros H. split; [done|].
      intros ->%list_elem_of_singleton. by rewrite Hi.
    - intros r. split; [by left|]. intros [?|[->%list_elem_of_singleton (ch&Hch&_)]]; [done|].
      by rewrite Hi in Hch. }
  destruct (try_send event ch) as [ch' [r|]] eqn:Hs.
  - assert (Ho : offer_all [event] ch =
      (mk_channel (queued ch') (bound ch') (receiver_alive ch') (Some r), Some r))
      by by simpl; rewrite Hs.
    split; simpl.
    + case_decide as H.
      * apply list_elem_of_singleton in H as ->. by rewrite lookup_insert_eq, Hi; simpl; rewrite Hs.
      * rewrite list_elem_of_singleton in H. by rewrite lookup_insert_ne.
    + rewrite elem_of_difference, elem_of_singleton, list_elem_of_singleton. split.
      * intros [H Hne]. by split.
      * intros [H Hn]. split; [done|]. intros ->. specialize (Hn eq_refl ch Hi).
        by rewrite Hs in Hn.
    + intros r'. rewrite elem_of_app, !list_elem_of_singleton. split.
      * intros [?|[= -> ->]]; [by left|]. right. split; [done|]. exists ch. by rewrite Hs.
      * intros [?|[-> (ch0&Hch&Hr)]]; [by left|]. right. rewrite Hi in Hch.
        injection Hch as <-. rewrite Hs in Hr. by injection Hr as <-.
  - assert (Ho : offer_all [event] ch = (ch', None)) by by simpl; rewrite Hs.
    split; simpl.
    + case_decide as H.
      * apply list_elem_of_singleton in H as ->. by rewrite lookup_insert_eq, Hi; simpl; rewrite Hs.
      * rewrite list_elem_of_singleton in H. by rewrite lookup_insert_ne.
    + rewrite list_elem_of_singleton. split; [|by intros [? _]]. intros H. split; [done|].
      intros -> ch0 Hch. rewrite Hi in Hch. injection Hch as <-. by rewrite Hs.
    + intros r'. rewrite list_elem_of_singleton. split; [by left|].
      intros [?|[-> (ch0&Hch&Hr)]]; [done|]. rewrite Hi in Hch. injection Hch as <-.
      by rewrite Hs in Hr.
Qed.
(** Subscribers one after the other: an event does not disturb the others. *)
Lemma offered_subscribers event l acc id :
  NoDup l → offered l [event] acc (foldl (publish_to event) acc l) id.
Proof.
  revert acc. induction l as [|i l IH]; intros acc.
  { intros _. split; simpl; [done| |]; set_solver. }
  intros [Hi Hl]%NoDup_cons. cbn [foldl].
  pose proof (publish_to_offered event acc i id) as [C1 S1 F1].
  pose proof (IH (publish_to event acc i) Hl) as [C2 S2 F2].
  destruct (decide (id = i)) as [->|Hne].
  - rewrite decide_False in C2 by done. rewrite decide_True in C1 by set_solver.
    split.
    + rewrite C2, C1. by rewrite decide_True by set_solver.
    + rewrite S2, S1. set_solver.
    + intros r. rewrite F2, F1. set_solver.
  - rewrite decide_False in C1 by set_solver. split.
    + rewrite C2, C1. destruct (decide (id ∈ l)).
      * by rewrite !decide_True by set_solver.
      * by rewrite !decide_False by set_solver.
    + rewrite S2, S1, C1. set_solver.
    + intros r. rewrite F2, F1, C1. set_solver.
Qed.
(** All events: who fails at one is not offered the next. *)
Lemma offered_events events acc id :
  subscribers_wf acc.1 →
  offered (elements (subscribers acc.1)) events acc (foldl publish_event acc events) id.
Proof.
  revert acc. induction events as [|ev events IH]; intros acc Hwf.
  { split; simpl.
    - case_decide; [|done]. by destruct (channels acc.1 !! id).
    - naive_solver.
    - naive_solver. }
  cbn [foldl].
  pose proof (offered_subscribers ev (elements (subscribers acc.1)) acc id
    (NoDup_elements _)) as [C1 S1 F1].
  change (foldl (publish_to ev) acc _) with (publish_event acc ev) in *.
  assert (Hwf1 : subscribers_wf (publish_event acc ev).1).
  { intros i Hi. pose proof (offered_subscribers ev (elements (subscribers acc.1)) acc i
      (NoDup_elements _)) as [Ci Si _].
    change (foldl (publish_to ev) acc _) with (publish_event acc ev) in *.
    apply Si in Hi as [Hi _]. destruct (Hwf i Hi) as [ch Hch]. rewrite Ci, Hch.
    case_decide; by eexists. }
  pose proof (IH (publish_event acc ev) Hwf1) as [C2 S2 F2].
  rewrite !elem_of_elements in S1, S2. setoid_rewrite elem_of_elements in F1.
  setoid_rewrite elem_of_elements in F2.
  destruct (decide (id ∈ subscribers acc.1)) as [Hin|Hout].
  2: { rewrite decide_False in C1 by (by rewrite elem_of_elements).
    assert (Hout1 : id ∉ subscribers (publish_event acc ev).1) by (rewrite S1; naive_solver).
    rewrite decide_False in C2 by (by rewrite elem_of_elements). split; rewrite ?elem_of_elements.
    - by rewrite C2, C1, decide_False by (by rewrite elem_of_elements).
    - rewrite S2. naive_solver.
    - intros r. rewrite F2, F1, !elem_of_elements. naive_solver. }
  destruct (Hwf id Hin) as [ch Hch].
  rewrite decide_True in C1 by (by rewrite elem_of_elements). rewrite Hch in C1. cbn [fmap option_fmap option_map] in C1.
  pose proof (offer_app [ev] events ch) as Happ. cbn [app] in Happ.
  destruct (offer_all [ev] ch) as [ch1 [reason|]] eqn:H1.
  - assert (Hout1 : id ∉ subscribers (publish_event acc ev).1).
    { rewrite S1. intros [_ H]. specialize (H Hin ch Hch). by rewrite H1 in H. }
    rewrite decide_False in C2 by (by rewrite elem_of_elements). split; rewrite ?elem_of_elements.
    + rewrite C2, C1, decide_True, Hch by (by rewrite elem_of_elements). cbn [fmap option_fmap option_map]. by rewrite Happ.
    + rewrite S2. split; [naive_solver|]. intros [_ H]. specialize (H Hin ch Hch).
      by rewrite Happ in H.
    + intros r. rewrite F2, F1, !elem_of_elements, Hch. split.
      * intros [[?|(_&c&[= <-]&Hr)]|(?&_)]; [by left| |done].
        right. split; [done|]. exists ch. split; [done|]. rewrite Happ. by rewrite H1 in Hr.
      * intros [?|(_&c&[= <-]&Hr)]; [by left; left|]. left. right. split; [done|].
        exists ch. split; [done|]. rewrite H1. by rewrite Happ in Hr.
  - assert (Hin1 : id ∈ subscribers (publish_event acc ev).1).
    { apply S1. split; [done|]. intros _ c. rewrite Hch. intros [= <-]. by rewrite H1. }
    rewrite decide_True in C2 by (by rewrite elem_of_elements). rewrite C1 in C2, S2. simpl in C2.
    split; rewrite ?elem_of_elements.
    + rewrite C2, decide_True, Hch by (by rewrite elem_of_elements). cbn [fmap option_fmap option_map]. by rewrite Happ.
    + rewrite S2, Hch. split.
      * intros [_ H]. split; [done|]. intros _ c [= <-]. rewrite Happ. by apply H.
      * intros [_ H]. split; [done|]. intros _ c [= <-]. rewrite <-Happ. by apply H.
    + intros r. rewrite F2, F1, !elem_of_elements, C1, Hch. split.
      * intros [[?|(_&c&[= <-]&Hr)]|(_&c&[= <-]&Hr)]; [by left|by rewrite H1 in Hr|].
        right. split; [done|]. exists ch. split; [done|]. by rewrite Happ.
      * intros [?|(_&c&[= <-]&Hr)]; [by left; left|]. right. split; [done|].
        exists ch1. split; [done|]. by rewrite <-Happ.
Qed.
Lemma publish_wf events self :
  subscribers_wf self → subscribers_wf (publish events self).1.
Proof.
  intros Hwf i Hi. pose proof (offered_events events (self, []) i Hwf) as [C S _].
  apply S in Hi as [Hi _]. destruct (Hwf i Hi) as [ch Hch]. unfold publish. rewrite C.
  cbn [fst]. rewrite Hch. destruct (decide _); eexists; reflexivity.
Qed.
(** What a channel takes of the events: as many as fit, in order. *)
Lemma offer_spec events ch :
  receiver_alive ch = true → (length (queued ch) ≤ bound ch)%nat →
  offer_all events ch =
    let room := (bound ch - length (queued ch))%nat in
    let fits := (length events <=? room)%nat in
    (mk_channel (queued ch ++ take room events) (bound ch) true
       (if fits then channel_failure ch else Some SlowClient),
     if fits then None else Some SlowClient).
Proof.
  intros Ha Hb. revert ch Ha Hb. induction events as [|ev events IH]; intros ch Ha Hb.
  { simpl. rewrite take_nil, app_nil_r. destruct ch; simpl in *; by subst. }
  cbn [offer_all]. unfold try_send. rewrite Ha. case_decide as Hlt.
  - rewrite IH by (simpl; rewrite ?length_app; simpl; lia). simpl. rewrite length_app. simpl.
    replace (bound ch - length (queued ch))%nat with
      (S (bound ch - (length (queued ch) + 1)))%nat by lia.
    cbn [take Nat.leb]. by rewrite <-app_assoc.
  - replace (bound ch - length (queued ch))%nat with 0%nat by lia. simpl.
    by rewrite app_nil_r, Ha.
Qed.
End publish.
