(* ===== verification/UiModel.v ===== *)
(** The replicated model of a client, [crates/ui/fm-ui-model/src/lib.rs]: a reducer of
    snapshots, durable events, runtime realizations and command results.

    [ClientModel] and [ProjectState] map to the records of the same names.  The
    status records of the crate repeat those of the wire with their identifiers
    unwrapped; identifiers are integers here, so the records of [Protocol] serve for
    both and the conversions between them are identities. *)
From S2P Require Import Prelude Types.
From S2P Require Text Command Protocol EngineShow.
Import Protocol.
#[local] Open Scope Z_scope.

(** ** Data *)

Definition MAX_STREAM_STATUSES : nat := 64.
Definition MAX_STREAM_NAME_BYTES : nat := 128.

Abbreviation ProjectId := Z (only parsing).
Record ProjectCursor := mk_project_cursor {
  project_id : ProjectId;
  project_engine : EngineIdentity;
  project_revision : Z
}.
#[global] Instance ProjectCursor_eq_dec : EqDecision ProjectCursor.
Proof. solve_decision. Defined.
Record BusSelection := mk_selection { sel_program : InputId; sel_preview : InputId }.
#[global] Instance BusSelection_eq_dec : EqDecision BusSelection.
Proof. solve_decision. Defined.
Record SwitcherStatus := mk_switcher_status {
  desired : BusSelection;
  realized_selection : BusSelection;
  desired_manual : ManualTransitionStatus;
  realized_manual : ManualTransitionStatus;
  desired_fade : FadeToBlackState;
  realized_fade : FadeToBlackState;
  runtime_generation : option Z
}.
Record ProjectState := mk_project_state {
  project_show_name : string;
  project_inputs : list InputId;
  project_input_names : list string;
  project_outputs : list OutputStatus;
  project_strips : list InputAudioStripStatus;
  project_stingers : list StingerStatus;
  project_streams : list StreamStatus;
  project_record : bool;
  project_overlays : list OverlayStatus;
  project_realized_overlays : list OverlayStatus;
  switcher : SwitcherStatus
}.
(** The fields of a [ProjectSnapshot] are those of a [ProjectState] and a cursor. *)
Record ProjectSnapshot := mk_project_snapshot {
  snap_cursor : ProjectCursor;
  snap_state : ProjectState
}.
Module DurableChange.
Inductive t :=
  | InputOrderChanged (inputs : list InputId)
  | InputRenamed (input : InputId) (name : string)
  | DesiredSwitcher (selection : BusSelection) (manual_transition : ManualTransitionStatus)
      (fade_to_black : FadeToBlackState) (overlays : list OverlayStatus)
      (input_audio_strips : list InputAudioStripStatus)
  | StingerSlotsChanged (selection : BusSelection) (manual_transition : ManualTransitionStatus)
      (fade_to_black : FadeToBlackState) (stingers : list StingerStatus)
      (overlays : list OverlayStatus) (input_audio_strips : list InputAudioStripStatus)
  | StreamsChanged (streams : list StreamStatus)
  | RecordingChanged (active : bool).
End DurableChange.
#[global] Instance DurableChange_eq_dec : EqDecision DurableChange.t.
Proof. solve_decision. Defined.
Record DurableProjectEvent := mk_project_event {
  event_cursor : ProjectCursor;
  change : DurableChange.t
}.
#[global] Instance DurableProjectEvent_eq_dec : EqDecision DurableProjectEvent.
Proof. solve_decision. Defined.
Record RuntimeRealization := mk_realization {
  rr_project : ProjectId;
  rr_engine : EngineIdentity;
  rr_revision : Z;
  rr_generation : Z;
  rr_sequence : Z;
  rr_manual : ManualTransitionStatus;
  rr_fade : FadeToBlackState
}.
#[global] Instance RuntimeRealization_eq_dec : EqDecision RuntimeRealization.
Proof. solve_decision. Defined.

(** [ProjectSnapshot::from_protocol], [DurableProjectEvent::from_protocol]. *)
Definition snapshot_from_protocol (project : ProjectId) (m : SnapshotMessage) : ProjectSnapshot :=
  mk_project_snapshot
    (mk_project_cursor project (snapshot_engine m) (snapshot_revision m)) {|
    project_show_name := show_name m;
    project_inputs := status_input <$> inputs m;
    project_input_names := status_input_name <$> inputs m;
    project_outputs := outputs m;
    project_strips := input_audio_strips m;
    project_stingers := stingers m;
    project_streams := streams m;
    project_record := record_desired_active m;
    project_overlays := desired_overlays m;
    project_realized_overlays := realized_overlays m;
    switcher := mk_switcher_status
      (mk_selection (desired_program m) (desired_preview m))
      (mk_selection (realized_program m) (realized_preview m))
      (desired_manual_transition m) (realized_manual_transition m)
      (desired_fade_to_black m) (realized_fade_to_black m) None
  |}.
Definition event_from_protocol (project : ProjectId) (m : EventMessage) : DurableProjectEvent :=
  mk_project_event
    (mk_project_cursor project (cursor_engine (cursor m)) (cursor_revision (cursor m)))
    (match event_payload m with
     | EventPayload.InputOrderChanged inputs => DurableChange.InputOrderChanged inputs
     | EventPayload.InputRenamed input name => DurableChange.InputRenamed input name
     | EventPayload.DesiredSwitcher program preview manual fade overlays strips =>
         DurableChange.DesiredSwitcher (mk_selection program preview) manual fade overlays strips
     | EventPayload.StingerSlotsChanged program preview manual fade stingers overlays strips =>
         DurableChange.StingerSlotsChanged (mk_selection program preview) manual fade stingers
           overlays strips
     | EventPayload.StreamsChanged streams => DurableChange.StreamsChanged streams
     | EventPayload.RecordingChanged active => DurableChange.RecordingChanged active
     end).

Inductive OptimisticChange :=
  | OptimisticSwitcher (value : BusSelection)
  | OptimisticProgram (value : InputId)
  | OptimisticPreview (value : InputId).
#[global] Instance OptimisticChange_eq_dec : EqDecision OptimisticChange.
Proof. solve_decision. Defined.
Definition optimistic_apply (self : OptimisticChange) (selection : BusSelection) : BusSelection :=
  match self with
  | OptimisticSwitcher value => value
  | OptimisticProgram value => mk_selection value (sel_preview selection)
  | OptimisticPreview value => mk_selection (sel_program selection) value
  end.
Definition optimistic_inputs (self : OptimisticChange) : list InputId :=
  match self with
  | OptimisticSwitcher value => [sel_program value; sel_preview value]
  | OptimisticProgram value | OptimisticPreview value => [value]
  end.

Inductive PendingStatus := AwaitingResult | AwaitingEvent (accepted_revision : Z).
#[global] Instance PendingStatus_eq_dec : EqDecision PendingStatus.
Proof. solve_decision. Defined.
Record PendingCommand := mk_pending_command {
  pending_id : string;
  optimistic : option OptimisticChange;
  pending_status : PendingStatus
}.
#[global] Instance PendingCommand_eq_dec : EqDecision PendingCommand.
Proof. solve_decision. Defined.
Record RejectedCommand := mk_rejected {
  rejected_id : string;
  rejected_code : string;
  rejected_message : string;
  rejected_fields : list FieldIssue;
  rejected_revision : Z;
  rejected_retryable : bool
}.
Inductive SyncStatus :=
  | AwaitingSnapshot
  | Current
  | Behind (local_revision known_revision : Z)
  | RequiresSnapshot.
#[global] Instance SyncStatus_eq_dec : EqDecision SyncStatus.
Proof. solve_decision. Defined.
Definition is_stale (self : SyncStatus) : bool :=
  match self with
  | Current => false
  | _ => true
  end.
Record SnapshotInstalled := mk_installed {
  installed_reconciled : list string;
  discarded_commands : list string
}.
Inductive EventApplied := AppliedEvent (reconciled_commands : list string) | DuplicateEvent.
Inductive RuntimeRealizationApplied := AppliedRealization | DuplicateRealization.
Inductive CommandReconciled :=
  | ReconciledAccepted (revision : Z) (awaiting_event : bool)
  | ReconciledRejected (r : RejectedCommand).

Inductive ModelError :=
  | ProjectMismatch (expected observed : ProjectId)
  | ProtocolProjectMismatch (expected : ProjectId) (observed : string)
  | EngineMismatch (expected observed : EngineIdentity)
  | InvalidEngineIdentity
  | SnapshotRequired
  | RevisionGap (expected observed : Z)
  | OutOfOrder (current observed : Z)
  | ConflictingDuplicate (revision : Z)
  | UnknownDurableRevision (revision : Z)
  | RuntimeOutOfOrder (current_sequence observed_sequence : Z)
  | RuntimeGenerationOutOfOrder (current_generation observed_generation : Z)
  | ConflictingRuntimeSequence (sequence : Z)
  | RevisionExhausted
  | DuplicateInput (input : InputId)
  | InvalidInputNames
  | DuplicateOutput (output : OutputId)
  | InvalidOutputNames
  | InvalidInputOrder
  | InvalidInputAudioStrips
  | DuplicateStingerSlot (slot : Z)
  | InvalidStingerSlot (slot : Z)
  | InvalidStreamCount (n : nat)
  | DuplicateStreamTarget (target : Z)
  | InvalidStreamNames
  | InvalidOverlayCount (n : nat)
  | InvalidOverlayChannel (channel : Z)
  | InvalidOverlayTransitionDuration (channel duration_frames : Z)
  | ActiveOverlayMissingSource (channel : Z)
  | InvalidOverlayQueueDepth (channel : Z) (depth : nat)
  | DuplicateOverlayOutput (channel : Z)
  | UnknownInput (input : InputId)
  | UnknownOutput (output : OutputId)
  | InvalidManualTransitionRouting
  | DuplicateCommand (id : string)
  | UnknownCommand (id : string)
  | StateUnavailable.
#[global] Instance ModelError_eq_dec : EqDecision ModelError.
Proof. solve_decision. Defined.

Abbreviation desired_entry :=
  (BusSelection * ManualTransitionStatus * FadeToBlackState * list OverlayStatus)%type.
Record ClientModel := mk_model {
  model_project : ProjectId;
  model_cursor : option ProjectCursor;
  expected_engine : option EngineIdentity;
  model_state : option ProjectState;
  applied_events : gmap Z DurableProjectEvent;
  desired_by_revision : gmap Z desired_entry;
  last_runtime_realization : option RuntimeRealization;
  pending : list PendingCommand;
  last_rejection : option RejectedCommand;
  sync_status : SyncStatus;
  known_revision : option Z
}.
Definition model_new (project : ProjectId) : ClientModel :=
  mk_model project None None None ∅ ∅ None [] None AwaitingSnapshot None.

(** ** Validation *)

Definition require {E} (P : Prop) `{Decision P} (e : E) : result E unit :=
  if decide P then Ok tt else Err e.
(** A loop that checks every element. *)
Fixpoint check_all {E B} (f : B → result E unit) (l : list B) : result E unit :=
  match l with
  | [] => Ok tt
  | x :: l => _ ← f x; check_all f l
  end.

Definition validate_engine (engine : EngineIdentity) : result ModelError unit :=
  require (¬ (engine_id engine = "" ∨ log_id engine = "")) InvalidEngineIdentity.
Definition valid_input_name (name : string) : bool :=
  negb (str_blank name) && bool_decide (str_len name ≤ MAX_INPUT_NAME_BYTES)%nat.
Definition valid_output_name (name : string) : bool := negb (str_blank name).

(** [insert] into a set of what was seen. *)
Fixpoint check_names (names : gset string) (l : list string) : result ModelError unit :=
  match l with
  | [] => Ok tt
  | name :: l =>
      _ ← require (valid_input_name name = true ∧ name ∉ names) InvalidInputNames;
      check_names ({[name]} ∪ names) l
  end.
Fixpoint check_inputs (seen : gset InputId) (l : list InputId) : result ModelError unit :=
  match l with
  | [] => Ok tt
  | input :: l =>
      _ ← require (input ∉ seen) (DuplicateInput input); check_inputs ({[input]} ∪ seen) l
  end.
Fixpoint check_outputs (names : gset string) (seen : gset OutputId) (l : list OutputStatus) :
    result ModelError unit :=
  match l with
  | [] => Ok tt
  | output :: l =>
      let name := Text.to_ascii_lowercase (status_output_name output) in
      _ ← require (valid_output_name (status_output_name output) = true ∧ name ∉ names)
            InvalidOutputNames;
      _ ← require (status_output output ∉ seen) (DuplicateOutput (status_output output));
      check_outputs ({[name]} ∪ names) ({[status_output output]} ∪ seen) l
  end.

Fixpoint validate_stingers (slots : gset Z) (inputs : gset InputId) (l : list StingerStatus) :
    result ModelError unit :=
  match l with
  | [] => Ok tt
  | stinger :: l =>
      _ ← require (1 ≤ slot stinger ≤ 8) (InvalidStingerSlot (slot stinger));
      _ ← require (slot stinger ∉ slots) (DuplicateStingerSlot (slot stinger));
      _ ← require (media_input stinger ∈ inputs) (UnknownInput (media_input stinger));
      validate_stingers ({[slot stinger]} ∪ slots) inputs l
  end.
Fixpoint check_streams (targets : gset Z) (l : list StreamStatus) : result ModelError unit :=
  match l with
  | [] => Ok tt
  | stream :: l =>
      _ ← require (¬ (str_blank (stream_name stream) = true ∨
                      MAX_STREAM_NAME_BYTES < str_len (stream_name stream))%nat)
            InvalidStreamNames;
      _ ← require (stream_target stream ∉ targets) (DuplicateStreamTarget (stream_target stream));
      check_streams ({[stream_target stream]} ∪ targets) l
  end.
Definition validate_streams (l : list StreamStatus) : result ModelError unit :=
  _ ← require (¬ MAX_STREAM_STATUSES < length l)%nat (InvalidStreamCount (length l));
  check_streams ∅ l.
Definition strip_in_range (s : InputAudioStripStatus) : Prop :=
  (-96000 ≤ gain_millidb s ≤ 24000) ∧ (-10000 ≤ balance_basis_points s ≤ 10000) ∧
  ¬ 48000 < delay_samples s.
#[global] Instance strip_in_range_dec s : Decision (strip_in_range s).
Proof. unfold strip_in_range. apply _. Defined.
Fixpoint check_strips (seen inputs : gset InputId) (l : list InputAudioStripStatus) :
    result ModelError unit :=
  match l with
  | [] => Ok tt
  | strip :: l =>
      _ ← require (strip_in_range strip ∧ strip_input strip ∈ inputs ∧ strip_input strip ∉ seen)
            InvalidInputAudioStrips;
      check_strips ({[strip_input strip]} ∪ seen) inputs l
  end.
Definition validate_input_audio_strips (l : list InputAudioStripStatus) (inputs : gset InputId) :
    result ModelError unit :=
  _ ← require (length l = size inputs) InvalidInputAudioStrips; check_strips ∅ inputs l.

Definition validate_overlay (inputs : gset InputId) (outputs : gset OutputId)
    (overlay : OverlayStatus) : result ModelError unit :=
  _ ← require (¬ (active overlay = true ∧ source overlay = None))
        (ActiveOverlayMissingSource (channel overlay));
  _ ← require (1 ≤ overlay_duration_frames overlay ≤ 3600)
        (InvalidOverlayTransitionDuration (channel overlay) (overlay_duration_frames overlay));
  _ ← (match source overlay with
       | Some source => require (source ∈ inputs) (UnknownInput source)
       | None => Ok tt
       end);
  _ ← require (¬ 64 < length (queued_sources overlay))%nat
        (InvalidOverlayQueueDepth (channel overlay) (length (queued_sources overlay)));
  _ ← check_all (λ source, require (source ∈ inputs) (UnknownInput source))
        (queued_sources overlay);
  _ ← (match list_find (λ output, output ∉ outputs) (included_outputs overlay) with
       | Some (_, output) => Err (UnknownOutput output)
       | None => Ok tt
       end);
  require (size (list_to_set (included_outputs overlay) : gset OutputId) =
           length (included_outputs overlay)) (DuplicateOverlayOutput (channel overlay)).
Fixpoint check_overlays (channels : gset Z) (inputs : gset InputId) (outputs : gset OutputId)
    (l : list OverlayStatus) : result ModelError unit :=
  match l with
  | [] => Ok tt
  | overlay :: l =>
      _ ← require (1 ≤ channel overlay ≤ 8 ∧ channel overlay ∉ channels)
            (InvalidOverlayChannel (channel overlay));
      _ ← validate_overlay inputs outputs overlay;
      check_overlays ({[channel overlay]} ∪ channels) inputs outputs l
  end.
Definition validate_overlays (l : list OverlayStatus) (inputs : gset InputId)
    (outputs : gset OutputId) : result ModelError unit :=
  _ ← require (length l = 8)%nat (InvalidOverlayCount (length l)); check_overlays ∅ inputs outputs l.
Definition validate_manual_transition (status : ManualTransitionStatus) (selection : BusSelection)
    (inputs : gset InputId) : result ModelError unit :=
  match status with
  | Inactive => Ok tt
  | Active state =>
      _ ← require (manual_from state ∈ inputs) (UnknownInput (manual_from state));
      _ ← require (manual_to state ∈ inputs) (UnknownInput (manual_to state));
      require (manual_from state = sel_program selection ∧ manual_to state = sel_preview selection)
        InvalidManualTransitionRouting
  end.

Definition validate_snapshot_inputs (s : ProjectState) : result ModelError unit :=
  _ ← require (length (project_input_names s) = length (project_inputs s)) InvalidInputNames;
  _ ← check_names ∅ (project_input_names s);
  _ ← check_inputs ∅ (project_inputs s);
  _ ← check_outputs ∅ ∅ (project_outputs s);
  let inputs := list_to_set (project_inputs s) : gset InputId in
  let outputs := list_to_set (status_output <$> project_outputs s) : gset OutputId in
  let sw := switcher s in
  _ ← check_all (λ input, require (input ∈ inputs) (UnknownInput input))
        [sel_program (desired sw); sel_preview (desired sw);
         sel_program (realized_selection sw); sel_preview (realized_selection sw)];
  _ ← validate_stingers ∅ inputs (project_stingers s);
  _ ← validate_streams (project_streams s);
  _ ← validate_input_audio_strips (project_strips s) inputs;
  _ ← validate_overlays (project_overlays s) inputs outputs;
  _ ← validate_overlays (project_realized_overlays s) inputs outputs;
  _ ← validate_manual_transition (desired_manual sw) (desired sw) inputs;
  validate_manual_transition (realized_manual sw) (realized_selection sw) inputs.

(** [self.inputs.iter().position(..)] *)
Abbreviation position_of := EngineShow.position_of.
(** The part of [validate_change] that the two switcher changes share. *)
Definition validate_switcher_change (selection : BusSelection) (manual : ManualTransitionStatus)
    (stingers : option (list StingerStatus)) (overlays : list OverlayStatus)
    (strips : list InputAudioStripStatus) (state : ProjectState) : result ModelError unit :=
  let inputs := list_to_set (project_inputs state) : gset InputId in
  _ ← check_all (λ input, require (input ∈ project_inputs state) (UnknownInput input))
        [sel_program selection; sel_preview selection];
  _ ← validate_manual_transition manual selection inputs;
  _ ← (match stingers with
       | Some stingers => validate_stingers ∅ inputs stingers
       | None => Ok tt
       end);
  _ ← validate_overlays overlays inputs
        (list_to_set (status_output <$> project_outputs state));
  validate_input_audio_strips strips inputs.
Definition validate_change (c : DurableChange.t) (state : ProjectState) : result ModelError unit :=
  match c with
  | DurableChange.InputOrderChanged inputs =>
      require (¬ (length inputs ≠ length (project_inputs state) ∨
                  size (list_to_set inputs : gset InputId) ≠ length inputs ∨
                  list_to_set (project_inputs state) ≠ (list_to_set inputs : gset InputId)))
        InvalidInputOrder
  | DurableChange.InputRenamed input name =>
      index ← ok_or (UnknownInput input) (position_of input (project_inputs state));
      require (¬ (valid_input_name name = false ∨
                  EngineShow.name_taken index name (project_input_names state) = true))
        InvalidInputNames
  | DurableChange.DesiredSwitcher selection manual _ overlays strips =>
      validate_switcher_change selection manual None overlays strips state
  | DurableChange.StingerSlotsChanged selection manual _ stingers overlays strips =>
      validate_switcher_change selection manual (Some stingers) overlays strips state
  | DurableChange.StreamsChanged streams => validate_streams streams
  | DurableChange.RecordingChanged _ => Ok tt
  end.
Definition validate_optimistic (c : OptimisticChange) (inputs : list InputId) :
    result ModelError unit :=
  check_all (λ input, require (input ∈ inputs) (UnknownInput input)) (optimistic_inputs c).

(** ** Changes *)

Definition set_switcher (x : SwitcherStatus) (s : ProjectState) : ProjectState :=
  mk_project_state (project_show_name s) (project_inputs s) (project_input_names s)
    (project_outputs s) (project_strips s) (project_stingers s) (project_streams s)
    (project_record s) (project_overlays s) (project_realized_overlays s) x.
(** What both switcher changes write. *)
Definition put_desired (selection : BusSelection) (manual : ManualTransitionStatus)
    (fade : FadeToBlackState) (stingers : list StingerStatus) (overlays : list OverlayStatus)
    (strips : list InputAudioStripStatus) (s : ProjectState) : ProjectState :=
  let sw := switcher s in
  mk_project_state (project_show_name s) (project_inputs s) (project_input_names s)
    (project_outputs s) strips stingers (project_streams s)
    (project_record s) overlays (project_realized_overlays s)
    (mk_switcher_status selection (realized_selection sw) manual (realized_manual sw) fade
       (realized_fade sw) (runtime_generation sw)).
Definition put_roster (inputs : list InputId) (names : list string) (s : ProjectState) :
    ProjectState :=
  mk_project_state (project_show_name s) inputs names
    (project_outputs s) (project_strips s) (project_stingers s) (project_streams s)
    (project_record s) (project_overlays s) (project_realized_overlays s) (switcher s).
Definition project_input_name (s : ProjectState) (input : InputId) : option string :=
  index ← position_of input (project_inputs s); project_input_names s !! index.

(** [None] is a panic: [validate_change] rules it out. *)
Definition apply_change (c : DurableChange.t) (s : ProjectState) : option ProjectState :=
  match c with
  | DurableChange.InputOrderChanged inputs =>
      names ← mapM (project_input_name s) inputs; Some (put_roster inputs names s)
  | DurableChange.InputRenamed input name =>
      index ← position_of input (project_inputs s);
      _ ← project_input_names s !! index;
      Some (put_roster (project_inputs s) (<[index := name]> (project_input_names s)) s)
  | DurableChange.DesiredSwitcher selection manual fade overlays strips =>
      Some (put_desired selection manual fade (project_stingers s) overlays strips s)
  | DurableChange.StingerSlotsChanged selection manual fade stingers overlays strips =>
      Some (put_desired selection manual fade stingers overlays strips s)
  | DurableChange.StreamsChanged streams =>
      Some (mk_project_state (project_show_name s) (project_inputs s) (project_input_names s)
        (project_outputs s) (project_strips s) (project_stingers s) streams
        (project_record s) (project_overlays s) (project_realized_overlays s) (switcher s))
  | DurableChange.RecordingChanged active =>
      Some (mk_project_state (project_show_name s) (project_inputs s) (project_input_names s)
        (project_outputs s) (project_strips s) (project_stingers s) (project_streams s)
        active (project_overlays s) (project_realized_overlays s) (switcher s))
  end.

(** ** Methods *)

Abbreviation model_stm := (stm ClientModel ModelError).

Definition set_sync (x : SyncStatus) (known : option Z) (m : ClientModel) : ClientModel :=
  mk_model (model_project m) (model_cursor m) (expected_engine m) (model_state m)
    (applied_events m) (desired_by_revision m) (last_runtime_realization m) (pending m)
    (last_rejection m) x known.
Definition set_pending (x : list PendingCommand) (m : ClientModel) : ClientModel :=
  mk_model (model_project m) (model_cursor m) (expected_engine m) (model_state m)
    (applied_events m) (desired_by_revision m) (last_runtime_realization m) x
    (last_rejection m) (sync_status m) (known_revision m).

Definition validate_project (observed : ProjectId) : model_stm unit :=
  self ← st_get;
  st_require (observed = model_project self) (ProjectMismatch (model_project self) observed).
Definition desired_of (s : ProjectState) : desired_entry :=
  (desired (switcher s), desired_manual (switcher s), desired_fade (switcher s), project_overlays s).

(** A pending command whose accepted revision is covered. *)
Definition covered (revision : Z) (c : PendingCommand) : bool :=
  match pending_status c with
  | AwaitingEvent accepted => bool_decide (accepted ≤ revision)
  | AwaitingResult => false
  end.
(** [retain] over the pending commands, with the identifiers of the reconciled and
    of the discarded ones. *)
Fixpoint retain_pending (revision : Z) (keep : PendingCommand → bool) (l : list PendingCommand) :
    list PendingCommand * list string * list string :=
  match l with
  | [] => ([], [], [])
  | c :: l =>
      let '(kept, reconciled, discarded) := retain_pending revision keep l in
      if covered revision c then (kept, pending_id c :: reconciled, discarded)
      else if keep c then (c :: kept, reconciled, discarded)
      else (kept, reconciled, pending_id c :: discarded)
  end.
Definition reconcile_through (revision : Z) : model_stm (list string) :=
  self ← st_get;
  let '(kept, reconciled, _) := retain_pending revision (λ _, true) (pending self) in
  _ ← st_put (set_pending kept self);
  mret reconciled.
Definition note_known_revision (revision : Z) : model_stm unit :=
  self ← st_get;
  let known := Some (from_option (λ known, Z.max known revision) revision (known_revision self)) in
  match model_cursor self with
  | Some cursor =>
      st_put (set_sync
        (if decide (project_revision cursor < revision ∧ sync_status self ≠ RequiresSnapshot)
         then Behind (project_revision cursor) revision else sync_status self) known self)
  | None => st_put (set_sync (sync_status self) known self)
  end.

Definition install_snapshot (s : ProjectSnapshot) : model_stm SnapshotInstalled :=
  let cursor := snap_cursor s in
  let state := snap_state s in
  _ ← validate_project (project_id cursor);
  _ ← st_lift (validate_engine (project_engine cursor));
  self ← st_get;
  _ ← (match expected_engine self with
       | Some expected => st_require (expected = project_engine cursor)
           (EngineMismatch expected (project_engine cursor))
       | None => mret tt
       end);
  _ ← (match model_cursor self with
       | Some current =>
           st_require (¬ (project_engine current = project_engine cursor ∧
                          project_revision cursor < project_revision current))
             (OutOfOrder (project_revision current) (project_revision cursor))
       | None => mret tt
       end);
  _ ← (match expected_engine self, known_revision self with
       | Some expected, Some known =>
           st_require (¬ (expected = project_engine cursor ∧ project_revision cursor < known))
             (OutOfOrder known (project_revision cursor))
       | _, _ => mret tt
       end);
  _ ← st_lift (validate_snapshot_inputs state);
  let identity_changed :=
    match model_cursor self with
    | Some current => bool_decide (project_engine current ≠ project_engine cursor)
    | None => false
    end in
  let valid c :=
    forallb (λ input, bool_decide (input ∈ project_inputs state))
      (from_option optimistic_inputs [] (optimistic c)) in
  let '(kept, reconciled, discarded) :=
    retain_pending (project_revision cursor) (λ c, negb identity_changed && valid c)
      (pending self) in
  _ ← st_put (mk_model (model_project self) (Some cursor) (Some (project_engine cursor))
        (Some state) ∅
        (<[project_revision cursor := desired_of state]>
           (if identity_changed then ∅ else desired_by_revision self))
        (if identity_changed then None else last_runtime_realization self) kept
        (last_rejection self) Current (Some (project_revision cursor)));
  mret (mk_installed reconciled discarded).

Definition apply_event (event : DurableProjectEvent) : model_stm EventApplied :=
  let at_ := event_cursor event in
  let revision := project_revision at_ in
  _ ← validate_project (project_id at_);
  _ ← st_lift (validate_engine (project_engine at_));
  self ← st_get;
  cursor ← st_lift (ok_or StateUnavailable (model_cursor self));
  if decide (project_engine cursor ≠ project_engine at_) then
    _ ← st_put (set_sync RequiresSnapshot (known_revision self) self);
    mthrow (EngineMismatch (project_engine cursor) (project_engine at_))
  else
  _ ← st_require (sync_status self ≠ RequiresSnapshot) SnapshotRequired;
  match applied_events self !! revision with
  | Some applied =>
      if decide (applied = event) then mret DuplicateEvent else
      _ ← st_put (set_sync RequiresSnapshot (known_revision self) self);
      mthrow (ConflictingDuplicate revision)
  | None =>
      _ ← st_require (¬ revision ≤ project_revision cursor)
            (OutOfOrder (project_revision cursor) revision);
      expected ← st_lift (ok_or RevisionExhausted (checked U64 (project_revision cursor + 1)));
      if decide (revision ≠ expected) then
        _ ← st_put (set_sync (Behind (project_revision cursor) revision)
              (Some (from_option (λ known, Z.max known revision) revision (known_revision self)))
              self);
        mthrow (RevisionGap expected revision)
      else
      state ← st_lift (ok_or StateUnavailable (model_state self));
      _ ← st_lift (validate_change (change event) state);
      state ← st_expect (apply_change (change event) state);
      _ ← st_put (mk_model (model_project self) (Some at_) (expected_engine self) (Some state)
            (<[revision := event]> (applied_events self))
            (<[revision := desired_of state]> (desired_by_revision self))
            (last_runtime_realization self) (pending self) (last_rejection self)
            (sync_status self) (known_revision self));
      reconciled ← reconcile_through revision;
      self ← st_get;
      let known := from_option (λ known, Z.max known revision) revision (known_revision self) in
      _ ← st_put (set_sync (if decide (revision < known) then Behind revision known else Current)
            (Some known) self);
      mret (AppliedEvent reconciled)
  end.

Definition apply_runtime_realization (r : RuntimeRealization) :
    model_stm RuntimeRealizationApplied :=
  _ ← validate_project (rr_project r);
  _ ← st_lift (validate_engine (rr_engine r));
  self ← st_get;
  cursor ← st_lift (ok_or StateUnavailable (model_cursor self));
  _ ← st_require (project_engine cursor = rr_engine r)
        (EngineMismatch (project_engine cursor) (rr_engine r));
  duplicate ← (match last_runtime_realization self with
    | None => mret false
    | Some previous =>
        match rr_generation r ?= rr_generation previous with
        | Lt => mthrow (RuntimeGenerationOutOfOrder (rr_generation previous) (rr_generation r))
        | Gt => mret false
        | Eq =>
            match rr_sequence r ?= rr_sequence previous with
            | Lt => mthrow (RuntimeOutOfOrder (rr_sequence previous) (rr_sequence r))
            | Eq => if decide (previous = r) then mret true
                    else mthrow (ConflictingRuntimeSequence (rr_sequence r))
            | Gt => mret false
            end
        end
    end);
  if (duplicate : bool) then mret DuplicateRealization else
  '(selection, _, _, overlays) ← st_lift (ok_or (UnknownDurableRevision (rr_revision r))
                                   (desired_by_revision self !! rr_revision r));
  state ← st_lift (ok_or StateUnavailable (model_state self));
  _ ← st_lift (validate_manual_transition (rr_manual r) selection
        (list_to_set (project_inputs state)));
  let sw := switcher state in
  let state := mk_project_state (project_show_name state) (project_inputs state)
    (project_input_names state) (project_outputs state) (project_strips state)
    (project_stingers state) (project_streams state) (project_record state)
    (project_overlays state) overlays
    (mk_switcher_status (desired sw) selection (desired_manual sw) (rr_manual r)
       (desired_fade sw) (rr_fade r) (Some (rr_generation r))) in
  _ ← st_put (mk_model (model_project self) (model_cursor self) (expected_engine self) (Some state)
        (applied_events self) (desired_by_revision self) (Some r) (pending self)
        (last_rejection self) (sync_status self) (known_revision self));
  mret AppliedRealization.

Definition track_command (id : string) (change : option OptimisticChange) : model_stm unit :=
  self ← st_get;
  _ ← st_require (id ∉ pending_id <$> pending self) (DuplicateCommand id);
  state ← st_lift (ok_or StateUnavailable (model_state self));
  _ ← (match change with
       | Some change => st_lift (validate_optimistic change (project_inputs state))
       | None => mret tt
       end);
  st_put (set_pending (pending self ++ [mk_pending_command id change AwaitingResult]) self).
(** The index of the first pending command with this identifier. *)
Definition pending_index (id : string) : model_stm nat :=
  self ← st_get;
  st_lift (ok_or (UnknownCommand id) (fst <$> list_find (λ c, pending_id c = id) (pending self))).
Definition reconcile_command (result : CommandResult.t) : model_stm CommandReconciled :=
  match result with
  | CommandResult.Accepted id revision _ =>
      index ← pending_index id;
      self ← st_get;
      let awaiting_event :=
        match model_cursor self with
        | Some cursor => bool_decide (project_revision cursor < revision)
        | None => true
        end in
      _ ← (if awaiting_event then
             _ ← st_put (set_pending (alter (λ c, mk_pending_command (pending_id c) (optimistic c)
                    (AwaitingEvent revision)) index (pending self)) self);
             note_known_revision revision
           else st_put (set_pending (delete index (pending self)) self));
      mret (ReconciledAccepted revision awaiting_event)
  | CommandResult.Rejected id code message fields current_revision retryable =>
      index ← pending_index id;
      self ← st_get;
      _ ← st_put (set_pending (delete index (pending self)) self);
      let rejection := mk_rejected id code message fields current_revision retryable in
      _ ← note_known_revision current_revision;
      self ← st_get;
      _ ← st_put (mk_model (model_project self) (model_cursor self) (expected_engine self)
            (model_state self) (applied_events self) (desired_by_revision self)
            (last_runtime_realization self) (pending self) (Some rejection) (sync_status self)
            (known_revision self));
      mret (ReconciledRejected rejection)
  end.
Definition observe_server (hello : ServerHello) : model_stm unit :=
  _ ← st_lift (validate_engine (hello_engine hello));
  self ← st_get;
  let known := hello_current_revision hello in
  let status :=
    match model_cursor self with
    | None => AwaitingSnapshot
    | Some cursor =>
        if decide (project_engine cursor ≠ hello_engine hello ∨ hello_resume hello = false)
        then RequiresSnapshot
        else match known ?= project_revision cursor with
             | Eq => Current
             | Gt => Behind (project_revision cursor) known
             | Lt => RequiresSnapshot
             end
    end in
  st_put (mk_model (model_project self) (model_cursor self) (Some (hello_engine hello))
    (model_state self) (applied_events self) (desired_by_revision self)
    (last_runtime_realization self) (pending self) (last_rejection self) status (Some known)).

(** [view]: the state with the pending intent layered over the desired one. *)
Definition view (self : ClientModel) : option (ProjectCursor * ProjectState) :=
  state ← model_state self;
  cursor ← model_cursor self;
  let sw := switcher state in
  let selection := foldl (λ selection c, from_option (λ change, optimistic_apply change selection)
                     selection (optimistic c)) (desired sw) (pending self) in
  Some (cursor, set_switcher (mk_switcher_status selection (realized_selection sw)
    (desired_manual sw) (realized_manual sw) (desired_fade sw) (realized_fade sw)
    (runtime_generation sw)) state).

(** ** Dispatch *)

Module Action.
Inductive t :=
  | InstallSnapshot (s : ProjectSnapshot)
  | ApplyEvent (e : DurableProjectEvent)
  | ApplyRuntimeRealization (r : RuntimeRealization)
  | TrackCommand (id : string) (optimistic : option OptimisticChange)
  | ReconcileCommand (r : CommandResult.t)
  | ObserveServer (hello : ServerHello).
End Action.
Inductive Reduction :=
  | ReducedSnapshot (i : SnapshotInstalled)
  | ReducedEvent (e : EventApplied)
  | ReducedRealization (r : RuntimeRealizationApplied)
  | CommandTracked
  | ReducedCommand (c : CommandReconciled)
  | ServerObserved.
Definition reduce (action : Action.t) : model_stm Reduction :=
  match action with
  | Action.InstallSnapshot s => i ← install_snapshot s; mret (ReducedSnapshot i)
  | Action.ApplyEvent e => a ← apply_event e; mret (ReducedEvent a)
  | Action.ApplyRuntimeRealization r =>
      a ← apply_runtime_realization r; mret (ReducedRealization a)
  | Action.TrackCommand id change => _ ← track_command id change; mret CommandTracked
  | Action.ReconcileCommand r => c ← reconcile_command r; mret (ReducedCommand c)
  | Action.ObserveServer hello => _ ← observe_server hello; mret ServerObserved
  end.
(** [reduced]: on a clone. *)
Definition reduced (self : ClientModel) (action : Action.t) :
    outcome ModelError (ClientModel * Reduction) :=
  match reduce action self with
  | (next, Ret reduction) => Ret (next, reduction)
  | (_, Throw e) => Throw e
  | (_, Panic) => Panic
  end.
