(* ===== verification/Client.v ===== *)
(** The protocol client, [crates/services/fm-client/src/lib.rs]: a deterministic state
    machine of the connection, the synchronization with the server, the outbound
    queue and the commands that await their results, over the replicated model of
    [UiModel].  Sockets and clocks belong to its callers. *)
From stdpp Require Import pretty.
From S2P Require Import Prelude BTree Types.
From S2P Require Command Protocol UiModel.
Import Protocol.
#[local] Open Scope Z_scope.

(** ** Data *)

Definition DEFAULT_COMPLETED_COMMAND_CAPACITY : Z := 256.
Definition MAX_COMPLETED_COMMAND_CAPACITY : Z := 65536.

Record ClientConfig := mk_config {
  build : string;
  client_type : ClientType;
  config_role : Role;
  client_id : string;
  config_project : UiModel.ProjectId;
  outbound_capacity : Z;
  completed_command_capacity : Z;
  initial_backoff_ms : Z;
  max_backoff_ms : Z
}.
Definition config_new (build : string) (client_type : ClientType) (role : Role)
    (client_id : string) (project : UiModel.ProjectId) : ClientConfig :=
  mk_config build client_type role client_id project 256 DEFAULT_COMPLETED_COMMAND_CAPACITY
    250 30000.

Inductive SyncMode := SyncSnapshot | SyncResume.
#[global] Instance SyncMode_eq_dec : EqDecision SyncMode.
Proof. solve_decision. Defined.
Record ReconnectBackoff := mk_backoff { attempt : Z; delay_ms : Z }.
#[global] Instance ReconnectBackoff_eq_dec : EqDecision ReconnectBackoff.
Proof. solve_decision. Defined.
Module ConnectionState.
Inductive t :=
  | Disconnected
  | Connecting
  | AwaitingHandshake
  | Synchronizing (mode : SyncMode) (target_revision : Z)
  | Ready
  | Backoff (backoff : ReconnectBackoff)
  | ResyncRequired (expected_revision received_revision : Z)
  | ProtocolMismatch (protocol : ProtocolVersion).
End ConnectionState.
#[global] Instance ConnectionState_eq_dec : EqDecision ConnectionState.t.
Proof. solve_decision. Defined.
Record Session := mk_session {
  session_protocol : ProtocolVersion;
  session_role : Role;
  session_permissions : list string;
  session_server : ServerIdentity;
  capabilities_digest : string
}.
Inductive Outbound :=
  | OutboundCommand (m : CommandMessage)
  | OutboundHeartbeat (m : HeartbeatMessage).
Inductive CommandUncertainty := IdempotencyReplayCollision (received_command_id : string).
#[global] Instance CommandUncertainty_eq_dec : EqDecision CommandUncertainty.
Proof. solve_decision. Defined.
Module CommandStatus.
Inductive t :=
  | Queued
  | Sent
  | Completed (r : CommandResult.t)
  | TerminalUncertain (u : CommandUncertainty).
End CommandStatus.
#[global] Instance CommandStatus_eq_dec : EqDecision CommandStatus.t.
Proof. solve_decision. Defined.
Definition is_terminal (self : CommandStatus.t) : bool :=
  match self with
  | CommandStatus.Completed _ | CommandStatus.TerminalUncertain _ => true
  | _ => false
  end.
Definition is_active (self : CommandStatus.t) : bool :=
  match self with
  | CommandStatus.Queued | CommandStatus.Sent => true
  | _ => false
  end.
Record CommandRecord := mk_command_record {
  record_command : CommandMessage;
  record_status : CommandStatus.t
}.
Inductive Intake :=
  | IntakeHandshake | SnapshotApplied | EventApplied | RuntimeEventObserved | ResultReconciled
  | DuplicateResult | HeartbeatAcknowledged | ResyncRequested.

Module ClientError.
Inductive t :=
  | InvalidConfig (message : string)
  | InvalidState (operation : string) (state : ConnectionState.t)
  | ProtocolMismatch (v : ProtocolVersion)
  | HandshakeRejected (e : StructuredError)
  | InvalidHandshake (message : string)
  | InvalidSnapshot (message : string)
  | Model (e : UiModel.ModelError)
  | StaleEvent (expected_revision received_revision : Z)
  | ResyncRequired (expected_revision received_revision : Z)
  | RuntimeIdentityMismatch (expected received : ServerIdentity)
  | RuntimeRevisionAhead (current_revision received_revision : Z)
  | RuntimeSequenceGap (generation expected_sequence received_sequence : Z)
  | QueueFull (capacity : Z)
  | EmptyIdempotencyKey
  | DuplicateIdempotencyKey (key : string)
  | CommandIdExhausted
  | HeartbeatSequenceExhausted
  | HeartbeatAcknowledgementPending
  | InvalidHeartbeatAcknowledgement (message : string)
  | UnknownCommand (id : string)
  | CommandAlreadyCompleted (id : string)
  | CommandTerminalUncertain (id : string)
  | ConflictingResult (id : string)
  | IdempotencyReplayCollision (received_command_id : string) (affected_command_ids : list string)
  | UnexpectedMessage.
End ClientError.

Record Client := mk_client {
  config : ClientConfig;
  state : ConnectionState.t;
  session : option Session;
  model : UiModel.ClientModel;
  outbound : list Outbound;
  commands : btmap string CommandRecord;
  idempotency_keys : gset string;
  completed_command_ids : list string;
  next_command_id : Z;
  next_heartbeat_sequence : Z;
  expected_heartbeat_sequence : option Z;
  reconnect_attempt : Z;
  force_snapshot : bool;
  runtime_server : option ServerIdentity;
  runtime_sequences : btmap Z Z
}.

(** ** Assignments *)

Definition set_state (x : ConnectionState.t) (c : Client) : Client :=
  mk_client (config c) x (session c) (model c) (outbound c) (commands c) (idempotency_keys c)
    (completed_command_ids c) (next_command_id c) (next_heartbeat_sequence c)
    (expected_heartbeat_sequence c) (reconnect_attempt c) (force_snapshot c) (runtime_server c)
    (runtime_sequences c).
Definition set_session (x : option Session) (c : Client) : Client :=
  mk_client (config c) (state c) x (model c) (outbound c) (commands c) (idempotency_keys c)
    (completed_command_ids c) (next_command_id c) (next_heartbeat_sequence c)
    (expected_heartbeat_sequence c) (reconnect_attempt c) (force_snapshot c) (runtime_server c)
    (runtime_sequences c).
Definition set_model (x : UiModel.ClientModel) (c : Client) : Client :=
  mk_client (config c) (state c) (session c) x (outbound c) (commands c) (idempotency_keys c)
    (completed_command_ids c) (next_command_id c) (next_heartbeat_sequence c)
    (expected_heartbeat_sequence c) (reconnect_attempt c) (force_snapshot c) (runtime_server c)
    (runtime_sequences c).
Definition set_outbound (x : list Outbound) (c : Client) : Client :=
  mk_client (config c) (state c) (session c) (model c) x (commands c) (idempotency_keys c)
    (completed_command_ids c) (next_command_id c) (next_heartbeat_sequence c)
    (expected_heartbeat_sequence c) (reconnect_attempt c) (force_snapshot c) (runtime_server c)
    (runtime_sequences c).
Definition set_records (x : btmap string CommandRecord) (keys : gset string)
    (completed : list string) (c : Client) : Client :=
  mk_client (config c) (state c) (session c) (model c) (outbound c) x keys
    completed (next_command_id c) (next_heartbeat_sequence c)
    (expected_heartbeat_sequence c) (reconnect_attempt c) (force_snapshot c) (runtime_server c)
    (runtime_sequences c).
Definition set_next_command (x : Z) (c : Client) : Client :=
  mk_client (config c) (state c) (session c) (model c) (outbound c) (commands c) (idempotency_keys c)
    (completed_command_ids c) x (next_heartbeat_sequence c)
    (expected_heartbeat_sequence c) (reconnect_attempt c) (force_snapshot c) (runtime_server c)
    (runtime_sequences c).
Definition set_heartbeat (next : Z) (expected : option Z) (c : Client) : Client :=
  mk_client (config c) (state c) (session c) (model c) (outbound c) (commands c) (idempotency_keys c)
    (completed_command_ids c) (next_command_id c) next
    expected (reconnect_attempt c) (force_snapshot c) (runtime_server c)
    (runtime_sequences c).
Definition set_reconnect (attempt : Z) (force : bool) (c : Client) : Client :=
  mk_client (config c) (state c) (session c) (model c) (outbound c) (commands c) (idempotency_keys c)
    (completed_command_ids c) (next_command_id c) (next_heartbeat_sequence c)
    (expected_heartbeat_sequence c) attempt force (runtime_server c)
    (runtime_sequences c).
Definition set_runtime (server : option ServerIdentity) (sequences : btmap Z Z) (c : Client) : Client :=
  mk_client (config c) (state c) (session c) (model c) (outbound c) (commands c) (idempotency_keys c)
    (completed_command_ids c) (next_command_id c) (next_heartbeat_sequence c)
    (expected_heartbeat_sequence c) (reconnect_attempt c) (force_snapshot c) server sequences.

Abbreviation client_stm := (stm Client ClientError.t).
(** A method of the model. *)
Definition on_model {B} (m : stm UiModel.ClientModel UiModel.ModelError B) : client_stm B :=
  st_map_err ClientError.Model (st_zoom model set_model m).

(** ** Construction and connection *)

Definition client_new (config : ClientConfig) : result ClientError.t Client :=
  if decide (client_id config = "") then
    Err (ClientError.InvalidConfig "client ID must not be empty")
  else if decide (outbound_capacity config = 0) then
    Err (ClientError.InvalidConfig "outbound capacity must be greater than zero")
  else if decide (completed_command_capacity config = 0 ∨
                  MAX_COMPLETED_COMMAND_CAPACITY < completed_command_capacity config) then
    Err (ClientError.InvalidConfig
      "completed command capacity must be finite and between 1 and 65536")
  else if decide (initial_backoff_ms config = 0 ∨
                  max_backoff_ms config < initial_backoff_ms config) then
    Err (ClientError.InvalidConfig "invalid reconnect backoff range")
  else Ok (mk_client config ConnectionState.Disconnected None
             (UiModel.model_new (config_project config)) [] [] ∅ [] 1 1 None 0 false None []).

Definition invalid_state {B} (operation : string) : client_stm B :=
  self ← st_get; mthrow (ClientError.InvalidState operation (state self)).
Definition last_applied_cursor (self : Client) : option ResumeCursor :=
  cursor ← UiModel.model_cursor (model self);
  let engine := UiModel.project_engine cursor in
  Some (mk_resume (mk_server (engine_id engine) (pretty (config_project (config self)))
          (state_epoch engine) (log_id engine)) (UiModel.project_revision cursor)).

Definition start_connect : client_stm unit :=
  self ← st_get;
  match state self with
  | ConnectionState.Disconnected | ConnectionState.Backoff _
  | ConnectionState.ResyncRequired _ _ => st_put (set_state ConnectionState.Connecting self)
  | _ => invalid_state "start a connection"
  end.
Definition transport_connected : client_stm HandshakeRequest :=
  self ← st_get;
  if decide (state self ≠ ConnectionState.Connecting)
  then invalid_state "report transport connected"
  else
    _ ← st_put (set_state ConnectionState.AwaitingHandshake self);
    mret (mk_handshake_request CURRENT_PROTOCOL_VERSION (build (config self))
      (client_type (config self)) (config_role (config self))
      (if force_snapshot self then None else last_applied_cursor self)).

Definition next_reconnect_backoff (self : Client) : Client * ReconnectBackoff :=
  let attempt := saturating U32 (reconnect_attempt self + 1) in
  let exponent := Z.min (saturating U32 (attempt - 1)) 63 in
  let delay := Z.min (saturating U64 (initial_backoff_ms (config self) * Z.shiftl 1 exponent))
                 (max_backoff_ms (config self)) in
  (set_reconnect attempt (force_snapshot self) self, mk_backoff attempt delay).
Definition reset_runtime_sequences (self : Client) : Client := set_runtime None [] self.
Definition is_command (o : Outbound) : bool :=
  match o with
  | OutboundCommand _ => true
  | OutboundHeartbeat _ => false
  end.
Definition transport_disconnected (self : Client) : Client * ReconnectBackoff :=
  let self := set_heartbeat (next_heartbeat_sequence self) None (set_session None self) in
  let self := reset_runtime_sequences self in
  let self := set_outbound (filter (λ o, is_command o = true) (outbound self)) self in
  let '(self, backoff) := next_reconnect_backoff self in
  (set_state (ConnectionState.Backoff backoff) self, backoff).

Definition finish_sync (self : Client) : Client :=
  set_reconnect 0 false (set_state ConnectionState.Ready self).
Definition require_resync {B} (expected_revision received_revision : Z) : client_stm B :=
  _ ← st_modify (λ self, set_state
        (ConnectionState.ResyncRequired expected_revision received_revision)
        (set_reconnect (reconnect_attempt self) true self));
  mthrow (ClientError.ResyncRequired expected_revision received_revision).
Definition engine_identity (server : ServerIdentity) : EngineIdentity :=
  mk_identity (server_engine_id server) (server_state_epoch server) (server_log_id server).

(** ** The handshake *)

Definition with_protocol (v : ProtocolVersion) (m : CommandMessage) : CommandMessage :=
  mk_command v (id m) (idempotency_key m) (expected_revision m) (deadline_ms m) (payload m).
Definition accept_handshake (response : HandshakeResponse) : client_stm unit :=
  self ← st_get;
  if decide (state self ≠ ConnectionState.AwaitingHandshake)
  then invalid_state "accept a handshake"
  else if decide (response_protocol response ≠ CURRENT_PROTOCOL_VERSION) then
    _ ← st_put (set_state (ConnectionState.ProtocolMismatch (response_protocol response)) self);
    mthrow (ClientError.ProtocolMismatch (response_protocol response))
  else if decide (server_project_id (server response) ≠ pretty (config_project (config self))) then
    mthrow (ClientError.InvalidHandshake "server selected a different project")
  else
  resume ← (match response_outcome response with
    | OutcomeSnapshot _ => mret false
    | OutcomeResume cursor =>
        _ ← st_require (¬ (force_snapshot self = true ∨ resume_server cursor ≠ server response ∨
                           last_applied_cursor self ≠ Some cursor ∨
                           current_revision response < resume_revision cursor))
              (ClientError.InvalidHandshake "server offered an invalid resume cursor");
        mret true
    | OutcomeRejected error =>
        _ ← st_put (set_state ConnectionState.Disconnected self);
        mthrow (ClientError.HandshakeRejected error)
    end);
  let engine := engine_identity (server response) in
  _ ← (match runtime_server self with
       | Some s => if decide (s ≠ server response) then st_modify reset_runtime_sequences
                   else mret tt
       | None => mret tt
       end);
  _ ← on_model (UiModel.observe_server (mk_hello (response_protocol response)
        (granted_role response) (permissions response) (digest (capabilities response)) engine
        (current_revision response) resume));
  let protocol := response_protocol response in
  _ ← st_modify (λ self,
        set_state (ConnectionState.Synchronizing (if (resume : bool) then SyncResume else SyncSnapshot)
                     (current_revision response))
        (set_outbound ((λ o, match o with
             | OutboundCommand m => OutboundCommand (with_protocol protocol m)
             | OutboundHeartbeat m => OutboundHeartbeat m
             end) <$> outbound self)
        (set_records (bt_map (λ r, if is_active (record_status r)
             then mk_command_record (with_protocol protocol (record_command r)) (record_status r)
             else r) (commands self)) (idempotency_keys self) (completed_command_ids self)
        (set_session (Some (mk_session protocol (granted_role response) (permissions response)
             (server response) (digest (capabilities response)))) self))));
  self ← st_get;
  if decide (resume = true ∧ UiModel.project_revision <$> UiModel.model_cursor (model self) =
                              Some (current_revision response))
  then st_put (finish_sync self)
  else mret tt.

(** ** Snapshots and events *)

Definition apply_snapshot (snapshot : SnapshotMessage) : client_stm unit :=
  self ← st_get;
  match state self with
  | ConnectionState.Synchronizing _ target_revision =>
      session ← st_lift (ok_or (ClientError.InvalidSnapshot "snapshot has no session")
                  (session self));
      _ ← st_require (snapshot_engine snapshot = engine_identity (session_server session))
            (ClientError.InvalidSnapshot "snapshot identity does not match the session");
      _ ← st_require (snapshot_revision snapshot = target_revision)
            (ClientError.InvalidSnapshot "snapshot revision does not match the handshake");
      _ ← on_model (UiModel.install_snapshot
            (UiModel.snapshot_from_protocol (config_project (config self)) snapshot));
      st_modify finish_sync
  | _ => invalid_state "apply a snapshot"
  end.

Definition event_target (s : ConnectionState.t) : option (option Z) :=
  match s with
  | ConnectionState.Synchronizing SyncResume target_revision => Some (Some target_revision)
  | ConnectionState.Ready => Some None
  | _ => None
  end.
Definition apply_event (event : EventMessage) : client_stm unit :=
  self ← st_get;
  match event_target (state self) with
  | None => invalid_state "apply an event"
  | Some target_revision =>
      current ← st_lift (ok_or (ClientError.InvalidSnapshot "event has no base snapshot")
                  (UiModel.model_cursor (model self)));
      _ ← st_lift (ok_or (ClientError.InvalidSnapshot "event has no session") (session self));
      expected ← st_lift (ok_or (ClientError.InvalidSnapshot "event revision overflow")
                   (checked U64 (UiModel.project_revision current + 1)));
      let received := cursor_revision (cursor event) in
      _ ← st_require (¬ received < expected) (ClientError.StaleEvent expected received);
      if decide (cursor_engine (cursor event) ≠ UiModel.project_engine current ∨
                 expected < received ∨
                 default false ((λ target, bool_decide (target < received)) <$> target_revision) = true)
      then require_resync expected received
      else
      match UiModel.apply_event
              (UiModel.event_from_protocol (config_project (config self)) event) (model self) with
      | (model, Ret _) =>
          _ ← st_put (set_model model self);
          if decide (target_revision = Some received) then st_modify finish_sync else mret tt
      | (model, Throw error) =>
          _ ← st_put (set_state (ConnectionState.ResyncRequired expected received)
                (set_reconnect (reconnect_attempt self) true (set_model model self)));
          mthrow (ClientError.Model error)
      | (model, Panic) => _ ← st_put (set_model model self); st_panic
      end
  end.

Definition apply_runtime_event (event : RuntimeEventMessage) : client_stm unit :=
  self ← st_get;
  match event_target (state self), session self with
  | Some _, Some session =>
      _ ← st_require (Protocol.runtime_server event = session_server session)
            (ClientError.RuntimeIdentityMismatch (session_server session) (Protocol.runtime_server event));
      current ← st_lift (ok_or (ClientError.InvalidSnapshot "runtime event has no base snapshot")
                  (UiModel.model_cursor (model self)));
      let current_revision := UiModel.project_revision current in
      _ ← st_require (¬ current_revision < runtime_revision event)
            (ClientError.RuntimeRevisionAhead current_revision (runtime_revision event));
      let expected_sequence :=
        from_option (λ sequence, saturating U64 (sequence + 1)) 1
          (bt_get (generation event) (runtime_sequences self)) in
      _ ← st_require (sequence event = expected_sequence)
            (ClientError.RuntimeSequenceGap (generation event) expected_sequence (sequence event));
      _ ← (match runtime_event event with
           | RuntimeLifecycleEvent.Realized domain manual fade =>
               if decide (domain = "switcher") then
                 _ ← on_model (UiModel.apply_runtime_realization
                       (UiModel.mk_realization (config_project (config self))
                          (engine_identity (Protocol.runtime_server event)) (runtime_revision event)
                          (generation event) (sequence event) manual fade));
                 mret tt
               else mret tt
           | _ => mret tt
           end);
      st_modify (λ self, set_runtime (Some (Protocol.runtime_server event))
        (bt_insert (generation event) (sequence event) (runtime_sequences self)) self)
  | _, _ => invalid_state "apply a runtime event"
  end.

(** ** Commands *)

Definition ensure_queue_space : client_stm unit :=
  self ← st_get;
  st_require (¬ outbound_capacity (config self) ≤ Z.of_nat (length (outbound self)))
    (ClientError.QueueFull (outbound_capacity (config self))).
Definition optimistic_change (payload : CommandPayload.t) : option UiModel.OptimisticChange :=
  match payload with
  | CommandPayload.SelectPreview input => Some (UiModel.OptimisticPreview input)
  | _ => None
  end.
Definition queue_command (payload : CommandPayload.t) (key : string)
    (expected_revision deadline_ms : option Z) : client_stm CommandMessage :=
  self ← st_get;
  if decide (state self ≠ ConnectionState.Ready) then invalid_state "queue a command" else
  match session self with
  | None => invalid_state "queue a command"
  | Some session =>
      _ ← ensure_queue_space;
      _ ← st_require (str_blank key = false) ClientError.EmptyIdempotencyKey;
      _ ← st_require (key ∉ idempotency_keys self) (ClientError.DuplicateIdempotencyKey key);
      next ← st_lift (ok_or ClientError.CommandIdExhausted
               (checked U64 (next_command_id self + 1)));
      let command_id :=
        (client_id (config self) +:+ ":" +:+ pretty (next_command_id self))%string in
      let command := mk_command (session_protocol session) command_id key expected_revision
                       deadline_ms payload in
      _ ← on_model (UiModel.track_command command_id (optimistic_change payload));
      _ ← st_modify (λ self,
            set_outbound (outbound self ++ [OutboundCommand command])
            (set_records
               (bt_insert command_id (mk_command_record command CommandStatus.Queued) (commands self))
               ({[key]} ∪ idempotency_keys self) (completed_command_ids self)
            (set_next_command next self)));
      mret command
  end.
Definition put_record (id : string) (r : CommandRecord) (self : Client) : Client :=
  set_records (bt_insert id r (commands self)) (idempotency_keys self)
    (completed_command_ids self) self.
Definition retry_command (id : string) : client_stm unit :=
  self ← st_get;
  if decide (state self ≠ ConnectionState.Ready) then invalid_state "retry a command" else
  _ ← ensure_queue_space;
  record ← st_lift (ok_or (ClientError.UnknownCommand id) (bt_get id (commands self)));
  match record_status record with
  | CommandStatus.Completed _ => mthrow (ClientError.CommandAlreadyCompleted id)
  | CommandStatus.TerminalUncertain _ => mthrow (ClientError.CommandTerminalUncertain id)
  | CommandStatus.Queued => mret tt
  | CommandStatus.Sent =>
      st_put (set_outbound (outbound self ++ [OutboundCommand (record_command record)])
        (put_record id (mk_command_record (record_command record) CommandStatus.Queued) self))
  end.
Definition in_session (s : ConnectionState.t) : bool :=
  match s with
  | ConnectionState.Synchronizing _ _ | ConnectionState.Ready => true
  | _ => false
  end.
Definition queue_heartbeat (sent_at_ms : Z) : client_stm HeartbeatMessage :=
  self ← st_get;
  if decide (in_session (state self) = false) then invalid_state "queue a heartbeat" else
  _ ← st_require (expected_heartbeat_sequence self = None)
        ClientError.HeartbeatAcknowledgementPending;
  _ ← ensure_queue_space;
  next ← st_lift (ok_or ClientError.HeartbeatSequenceExhausted
           (checked U64 (next_heartbeat_sequence self + 1)));
  match session self with
  | None => invalid_state "queue a heartbeat"
  | Some session =>
      let heartbeat := mk_heartbeat (session_server session) (next_heartbeat_sequence self)
                         sent_at_ms (last_applied_cursor self) in
      _ ← st_put (set_outbound (outbound self ++ [OutboundHeartbeat heartbeat])
            (set_heartbeat next (Some (next_heartbeat_sequence self)) self));
      mret heartbeat
  end.
Definition accept_heartbeat_acknowledgement (ack : HeartbeatAcknowledgementMessage) :
    client_stm unit :=
  self ← st_get;
  if decide (in_session (state self) = false)
  then invalid_state "accept a heartbeat acknowledgement" else
  _ ← st_require (session_server <$> session self = Some (ack_server ack))
        (ClientError.InvalidHeartbeatAcknowledgement
           "heartbeat acknowledgement server identity does not match the session");
  _ ← st_require (expected_heartbeat_sequence self = Some (ack_sequence ack))
        (ClientError.InvalidHeartbeatAcknowledgement
           "heartbeat acknowledgement sequence does not match the pending heartbeat");
  st_put (set_heartbeat (next_heartbeat_sequence self) None self).
Definition pop_outbound (self : Client) : Client * option Outbound :=
  match outbound self with
  | [] => (self, None)
  | item :: l =>
      if decide (is_command item = true ∧ state self ≠ ConnectionState.Ready)
      then (self, None)
      else
        let self := set_outbound l self in
        (match item with
         | OutboundCommand command =>
             match bt_get (id command) (commands self) with
             | Some record =>
                 if is_terminal (record_status record) then self
                 else put_record (id command)
                        (mk_command_record (record_command record) CommandStatus.Sent) self
             | None => self
             end
         | OutboundHeartbeat _ => self
         end, Some item)
  end.

(** ** Results *)

Definition result_id (r : CommandResult.t) : string :=
  match r with
  | CommandResult.Accepted id _ _ | CommandResult.Rejected id _ _ _ _ _ => id
  end.
Definition result_revision (r : CommandResult.t) : Z :=
  match r with
  | CommandResult.Accepted _ revision _ => revision
  | CommandResult.Rejected _ _ _ _ current_revision _ => current_revision
  end.
(** The identifier of a queued command. *)
Definition outbound_id (o : Outbound) : option string :=
  match o with
  | OutboundCommand command => Some (id command)
  | OutboundHeartbeat _ => None
  end.
Fixpoint prune_fuel (fuel : nat) : client_stm unit :=
  self ← st_get;
  if decide (completed_command_capacity (config self) <
             Z.of_nat (length (completed_command_ids self))) then
    match fuel, completed_command_ids self with
    | S fuel, id :: l =>
        record ← st_expect (bt_get id (commands self));
        _ ← st_put (set_records (bt_remove id (commands self))
              (idempotency_keys self ∖ {[idempotency_key (record_command record)]}) l self);
        prune_fuel fuel
    | _, _ => st_panic
    end
  else mret tt.
Definition prune_completed_commands : client_stm unit :=
  self ← st_get; prune_fuel (length (completed_command_ids self)).

Definition collision_result (id received : string) (current_revision : Z) : CommandResult.t :=
  CommandResult.Rejected id "idempotency_replay_collision"
    ("server returned retained receipt for unknown command " +:+ received)%string [] current_revision
    false.
(** The loop over the commands that may have been decided. *)
Fixpoint mark_uncertain (received : string) (current_revision : Z) (l : list string) :
    client_stm unit :=
  match l with
  | [] => mret tt
  | id :: l =>
      _ ← on_model (UiModel.reconcile_command (collision_result id received current_revision));
      self ← st_get;
      let self := match bt_get id (commands self) with
        | Some record => put_record id (mk_command_record (record_command record)
            (CommandStatus.TerminalUncertain (IdempotencyReplayCollision received))) self
        | None => self
        end in
      _ ← st_put (set_records (commands self) (idempotency_keys self)
            (completed_command_ids self ++ [id]) self);
      mark_uncertain received current_revision l
  end.
Definition is_sent (r : CommandRecord) : bool :=
  match record_status r with
  | CommandStatus.Sent => true
  | _ => false
  end.
Definition handle_unknown_result_collision {B} (result : CommandResult.t) : client_stm B :=
  self ← st_get;
  let received := result_id result in
  let affected := (filter (λ p, is_sent p.2 = true) (commands self)).*1 in
  if decide (affected = []) then mthrow (ClientError.UnknownCommand received) else
  let current_revision := from_option resume_revision 0 (last_applied_cursor self) in
  _ ← mark_uncertain received current_revision affected;
  _ ← st_modify (λ self, set_outbound
        (filter (λ o, default true ((λ id, bool_decide (id ∉ affected)) <$> outbound_id o) = true)
          (outbound self)) self);
  _ ← prune_completed_commands;
  _ ← st_modify (λ self, set_state (ConnectionState.ResyncRequired
        (saturating U64 (current_revision + 1)) (result_revision result))
        (set_reconnect (reconnect_attempt self) true self));
  mthrow (ClientError.IdempotencyReplayCollision received affected).
Definition reconcile_result (result : CommandResult.t) : client_stm Intake :=
  self ← st_get;
  let id := result_id result in
  match bt_get id (commands self) with
  | None => handle_unknown_result_collision result
  | Some record =>
      match record_status record with
      | CommandStatus.Completed previous =>
          if decide (previous = result) then mret DuplicateResult
          else mthrow (ClientError.ConflictingResult id)
      | CommandStatus.TerminalUncertain _ => mthrow (ClientError.CommandTerminalUncertain id)
      | _ =>
          _ ← on_model (UiModel.reconcile_command result);
          _ ← st_modify (λ self, set_outbound
                (filter (λ o, outbound_id o ≠ Some id) (outbound self))
                (put_record id (mk_command_record (record_command record)
                   (CommandStatus.Completed result)) self));
          self ← st_get;
          _ ← st_put (set_records (commands self) (idempotency_keys self)
                (completed_command_ids self ++ [id]) self);
          _ ← prune_completed_commands;
          mret ResultReconciled
      end
  end.

Definition apply_gap {B} (gap : DurableGap) : client_stm B :=
  self ← st_get;
  match session self with
  | None => invalid_state "apply a durable gap"
  | Some session =>
      _ ← st_require (gap_server gap = session_server session)
            (ClientError.InvalidHandshake "durable gap identity does not match the session");
      require_resync (saturating U64 (requested_after_revision gap + 1))
        (available_from_revision gap)
  end.

(** ** Dispatch *)

Definition intake (message : WireMessage.t) : client_stm Intake :=
  match message with
  | WireMessage.HandshakeResponse response => _ ← accept_handshake response; mret IntakeHandshake
  | WireMessage.Snapshot snapshot => _ ← apply_snapshot snapshot; mret SnapshotApplied
  | WireMessage.Event event => _ ← apply_event event; mret EventApplied
  | WireMessage.RuntimeEvent event => _ ← apply_runtime_event event; mret RuntimeEventObserved
  | WireMessage.HeartbeatAcknowledgement ack =>
      _ ← accept_heartbeat_acknowledgement ack; mret HeartbeatAcknowledged
  | WireMessage.CommandResult result => reconcile_result result
  | WireMessage.DurableGap gap => apply_gap gap
  | _ => mthrow ClientError.UnexpectedMessage
  end.
