(* ===== verification/Server.v ===== *)
(** Server sessions, [crates/services/fm-server/src]: the configuration and its
    validation ([config.rs]), the readiness of the service ([status.rs]), the
    handshake over any control plane ([server.rs], [control.rs]) and the accounting
    of a session ([session.rs]).

    [Server] and [Session] map to the structs of the same names; [ControlPlane] is
    the trait.  Times and sizes are [u64] and [usize] values. *)
From S2P Require Import Prelude BTree Types.
From S2P Require Auth Protocol ControlWire.
#[local] Open Scope Z_scope.

(** ** Configuration *)

Inductive IpAddr :=
  | V4 (a b c d : Z)
  | V6 (bits : Z).
Definition is_loopback (address : IpAddr) : bool :=
  match address with
  | V4 a _ _ _ => bool_decide (a = 127)
  | V6 bits => bool_decide (bits = 1)
  end.

Inductive ServerMode := Development | Production.
Inductive AuthenticationMode := Required | DevelopmentAuth.
#[global] Instance ServerMode_eq_dec : EqDecision ServerMode.
Proof. solve_decision. Defined.
#[global] Instance AuthenticationMode_eq_dec : EqDecision AuthenticationMode.
Proof. solve_decision. Defined.
Record RateLimit := mk_rate_limit { maximum : Z; window_ms : Z }.
Record SessionLimits := mk_session_limits {
  max_command_bytes : Z;
  max_inflight_commands : Z;
  inbound_commands : RateLimit;
  max_outbound_messages : Z;
  max_outbound_bytes : Z;
  outbound_messages : RateLimit;
  heartbeat_timeout_ms : Z
}.
Definition session_limits_default : SessionLimits :=
  mk_session_limits (64 * 1024) 32 (mk_rate_limit 100 1000) 256 (4 * 1024 * 1024)
    (mk_rate_limit 1000 1000) 15000.
Record ServerConfig := mk_server_config {
  mode : ServerMode;
  authentication : AuthenticationMode;
  bind_address : IpAddr;
  capabilities_digest : string;
  session_limits : SessionLimits
}.
Definition server_config_new (mode : ServerMode) (authentication : AuthenticationMode)
    (bind_address : IpAddr) (capabilities_digest : string) : ServerConfig :=
  mk_server_config mode authentication bind_address capabilities_digest session_limits_default.
Definition with_session_limits (limits : SessionLimits) (self : ServerConfig) : ServerConfig :=
  mk_server_config (mode self) (authentication self) (bind_address self)
    (capabilities_digest self) limits.

Inductive ConfigError :=
  | DevelopmentAuthInProduction
  | DevelopmentAuthRequiresLoopback
  | ZeroLimit (name : string).
#[global] Instance ConfigError_eq_dec : EqDecision ConfigError.
Proof. solve_decision. Defined.
(** The loops over the named limits. *)
Fixpoint check_sizes (l : list (string * Z)) : result ConfigError unit :=
  match l with
  | [] => Ok tt
  | (name, value) :: l => if decide (value = 0) then Err (ZeroLimit name) else check_sizes l
  end.
Fixpoint check_rates (l : list (string * RateLimit)) : result ConfigError unit :=
  match l with
  | [] => Ok tt
  | (name, limit) :: l =>
      if decide (maximum limit = 0 ∨ window_ms limit = 0) then Err (ZeroLimit name)
      else check_rates l
  end.
Definition validate (self : ServerConfig) : result ConfigError unit :=
  _ ← (if decide (authentication self = DevelopmentAuth) then
         if decide (mode self = Production) then Err DevelopmentAuthInProduction
         else if is_loopback (bind_address self) then Ok tt
         else Err DevelopmentAuthRequiresLoopback
       else Ok tt);
  let limits := session_limits self in
  _ ← check_sizes
        [("max_command_bytes"%string, max_command_bytes limits);
         ("max_inflight_commands"%string, max_inflight_commands limits);
         ("max_outbound_messages"%string, max_outbound_messages limits);
         ("max_outbound_bytes"%string, max_outbound_bytes limits)];
  _ ← check_rates
        [("inbound_commands"%string, inbound_commands limits);
         ("outbound_messages"%string, outbound_messages limits)];
  if decide (heartbeat_timeout_ms limits = 0) then Err (ZeroLimit "heartbeat_timeout_ms")
  else Ok tt.

(** ** Status *)

Inductive HealthState := Healthy | Unhealthy.
Inductive ReadinessState := Starting | Ready | Draining | NotHealthy.
#[global] Instance ReadinessState_eq_dec : EqDecision ReadinessState.
Proof. solve_decision. Defined.
Record ServiceStatus := mk_status { health : HealthState; readiness : ReadinessState }.
Definition status_new : ServiceStatus := mk_status Healthy Starting.
Record StatusTransitionError := mk_transition_error {
  transition_from : ReadinessState;
  transition_requested : ReadinessState
}.
Abbreviation status_stm := (stm ServiceStatus StatusTransitionError).
Definition mark_ready : status_stm unit :=
  self ← st_get;
  _ ← st_require (readiness self = Starting) (mk_transition_error (readiness self) Ready);
  st_put (mk_status (health self) Ready).
Definition begin_draining : status_stm unit :=
  self ← st_get;
  _ ← st_require (readiness self = Ready) (mk_transition_error (readiness self) Draining);
  st_put (mk_status (health self) Draining).
Definition mark_unhealthy (self : ServiceStatus) : ServiceStatus := mk_status Unhealthy NotHealthy.

(** ** Sessions *)

Inductive DisconnectReason := SlowClient | HeartbeatTimeout | ServerShutdown.
Inductive SessionState := Connected | Disconnected (reason : DisconnectReason).
#[global] Instance SessionState_eq_dec : EqDecision SessionState.
Proof. unfold EqDecision, Decision. decide equality. decide equality. Defined.
Record Heartbeat := mk_heartbeat {
  last_applied : option Protocol.EventCursor;
  clock_sample_ms : Z
}.
Record HeartbeatState := mk_heartbeat_state {
  hb_last_applied : option Protocol.EventCursor;
  client_clock_sample_ms : option Z;
  last_received_at_ms : Z;
  received_total : Z
}.
Record SessionAccounting := mk_accounting {
  inbound_commands_admitted_total : Z;
  inbound_commands_inflight : Z;
  outbound_messages_queued_total : Z;
  outbound_messages_queued : Z;
  outbound_bytes_queued : Z
}.
Definition accounting_default : SessionAccounting := mk_accounting 0 0 0 0 0.

(** A fixed window: when it started, and what it counted. *)
Record WindowCounter := mk_window { started_at_ms : Z; count : Z }.
Definition window_new (started_at_ms : Z) : WindowCounter := mk_window started_at_ms 0.
Definition refresh (now_ms window_ms : Z) (self : WindowCounter) : WindowCounter :=
  if decide (window_ms ≤ Z.max 0 (now_ms - started_at_ms self)) then mk_window now_ms 0 else self.
Definition has_capacity (now_ms : Z) (limit : RateLimit) (self : WindowCounter) :
    WindowCounter * bool :=
  let self := refresh now_ms (window_ms limit) self in
  (self, bool_decide (count self < maximum limit)).
Definition record (self : WindowCounter) : WindowCounter :=
  mk_window (started_at_ms self) (saturating U64 (count self + 1)).

Inductive SessionError :=
  | SessionDisconnected (reason : DisconnectReason)
  | Authorization (denial : Auth.AuthorizationDenial)
  | SessionProtocolMismatch (expected received : Protocol.ProtocolVersion)
  | CommandTooLarge (size maximum : Z)
  | TooManyInflightCommands
  | InboundRateLimited
  | OutboundRateLimited
  | NoInflightCommand
  | NoQueuedOutboundMessage
  | CursorIdentityMismatch
  | CursorRegression.
Record Session := mk_session {
  state : SessionState;
  protocol : Protocol.ProtocolVersion;
  engine : Protocol.EngineIdentity;
  session_revision : Z;
  principal : Auth.Principal;
  session_policy : Auth.Policy;
  limits : SessionLimits;
  inbound_window : WindowCounter;
  outbound_window : WindowCounter;
  outbound_sizes : list Z;
  accounting : SessionAccounting;
  heartbeat : HeartbeatState
}.
Definition session_new (protocol : Protocol.ProtocolVersion) (engine : Protocol.EngineIdentity)
    (current_revision : Z) (principal : Auth.Principal) (policy : Auth.Policy)
    (limits : SessionLimits) (now_ms : Z) : Session :=
  mk_session Connected protocol engine current_revision principal policy limits
    (window_new now_ms) (window_new now_ms) [] accounting_default
    (mk_heartbeat_state None None now_ms 0).

(** Field updates. *)
Definition set_state (x : SessionState) (self : Session) : Session :=
  mk_session x (protocol self) (engine self) (session_revision self) (principal self)
    (session_policy self) (limits self) (inbound_window self) (outbound_window self)
    (outbound_sizes self) (accounting self) (heartbeat self).
Definition set_inbound (x : WindowCounter) (self : Session) : Session :=
  mk_session (state self) (protocol self) (engine self) (session_revision self) (principal self)
    (session_policy self) (limits self) x (outbound_window self)
    (outbound_sizes self) (accounting self) (heartbeat self).
Definition set_outbound (x : WindowCounter) (self : Session) : Session :=
  mk_session (state self) (protocol self) (engine self) (session_revision self) (principal self)
    (session_policy self) (limits self) (inbound_window self) x
    (outbound_sizes self) (accounting self) (heartbeat self).
Definition set_sizes (x : list Z) (self : Session) : Session :=
  mk_session (state self) (protocol self) (engine self) (session_revision self) (principal self)
    (session_policy self) (limits self) (inbound_window self) (outbound_window self)
    x (accounting self) (heartbeat self).
Definition set_accounting (x : SessionAccounting) (self : Session) : Session :=
  mk_session (state self) (protocol self) (engine self) (session_revision self) (principal self)
    (session_policy self) (limits self) (inbound_window self) (outbound_window self)
    (outbound_sizes self) x (heartbeat self).
Definition set_heartbeat (x : HeartbeatState) (self : Session) : Session :=
  mk_session (state self) (protocol self) (engine self) (session_revision self) (principal self)
    (session_policy self) (limits self) (inbound_window self) (outbound_window self)
    (outbound_sizes self) (accounting self) x.

Abbreviation session_stm := (stm Session SessionError).

Definition disconnect (reason : DisconnectReason) (self : Session) : Session :=
  if decide (state self = Connected) then set_state (Disconnected reason) self else self.
Definition ensure_connected : session_stm unit :=
  self ← st_get;
  match state self with
  | Connected => mret tt
  | Disconnected reason => mthrow (SessionDisconnected reason)
  end.
(** The class that [admit_command] finds for a payload. *)
Definition admitted_class (payload : Protocol.CommandPayload.t) : Auth.CommandClass.t :=
  match payload with
  | Protocol.CommandPayload.RenameInput _ _ | Protocol.CommandPayload.ReorderInputs _ =>
      Auth.CommandClass.EditProject
  | Protocol.CommandPayload.SetInputAudioStrip _ _ _ _ _ _ _ => Auth.CommandClass.ControlAudio
  | Protocol.CommandPayload.SelectPreview _ => Auth.CommandClass.SelectPreview
  | _ => Auth.CommandClass.Transition
  end.
(** Capacity in the window of inbound or outbound messages, which is refreshed
    whatever the answer. *)
Definition inbound_capacity (now_ms : Z) : session_stm unit :=
  self ← st_get;
  let '(window, ok) := has_capacity now_ms (inbound_commands (limits self)) (inbound_window self) in
  _ ← st_put (set_inbound window self);
  st_require (ok = true) InboundRateLimited.
Definition outbound_capacity (now_ms : Z) : session_stm unit :=
  self ← st_get;
  let '(window, ok) := has_capacity now_ms (outbound_messages (limits self)) (outbound_window self) in
  _ ← st_put (set_outbound window self);
  st_require (ok = true) OutboundRateLimited.

Definition admit_command (command : Protocol.CommandMessage) (encoded_bytes now_ms : Z) :
    session_stm unit :=
  _ ← ensure_connected;
  self ← st_get;
  _ ← st_lift (result_map_err Authorization
        (Auth.authorize (principal self) (admitted_class (Protocol.payload command))
           (session_policy self)));
  _ ← st_require (Protocol.protocol command = protocol self)
        (SessionProtocolMismatch (protocol self) (Protocol.protocol command));
  _ ← st_require (¬ max_command_bytes (limits self) < encoded_bytes)
        (CommandTooLarge encoded_bytes (max_command_bytes (limits self)));
  _ ← st_require (¬ max_inflight_commands (limits self) ≤
                    inbound_commands_inflight (accounting self)) TooManyInflightCommands;
  _ ← inbound_capacity now_ms;
  self ← st_get;
  let a := accounting self in
  inflight ← st_expect (checked U64 (inbound_commands_inflight a + 1));
  st_put (set_accounting (mk_accounting
      (saturating U64 (inbound_commands_admitted_total a + 1)) inflight
      (outbound_messages_queued_total a) (outbound_messages_queued a) (outbound_bytes_queued a))
    (set_inbound (record (inbound_window self)) self)).
Definition admit_diagnostics (request : Protocol.DiagnosticsRequest) (encoded_bytes now_ms : Z) :
    session_stm unit :=
  _ ← ensure_connected;
  self ← st_get;
  _ ← st_lift (result_map_err Authorization
        (Auth.authorize (principal self) Auth.CommandClass.ViewStatus (session_policy self)));
  _ ← st_require (Protocol.diagnostics_protocol request = protocol self)
        (SessionProtocolMismatch (protocol self) (Protocol.diagnostics_protocol request));
  _ ← st_require (¬ max_command_bytes (limits self) < encoded_bytes)
        (CommandTooLarge encoded_bytes (max_command_bytes (limits self)));
  _ ← inbound_capacity now_ms;
  st_modify (λ self, set_inbound (record (inbound_window self)) self).
Definition command_completed : session_stm unit :=
  self ← st_get;
  let a := accounting self in
  _ ← st_require (inbound_commands_inflight a ≠ 0) NoInflightCommand;
  inflight ← st_expect (checked U64 (inbound_commands_inflight a - 1));
  st_put (set_accounting (mk_accounting (inbound_commands_admitted_total a) inflight
      (outbound_messages_queued_total a) (outbound_messages_queued a) (outbound_bytes_queued a)) self).

Definition slow_client {B} : session_stm B :=
  _ ← st_modify (disconnect SlowClient);
  mthrow (SessionDisconnected SlowClient).
Definition queue_outbound (encoded_bytes now_ms : Z) : session_stm unit :=
  _ ← ensure_connected;
  _ ← outbound_capacity now_ms;
  self ← st_get;
  let a := accounting self in
  match checked U64 (outbound_bytes_queued a + encoded_bytes) with
  | None => slow_client
  | Some bytes =>
      if decide (max_outbound_messages (limits self) ≤ outbound_messages_queued a ∨
                 max_outbound_bytes (limits self) < bytes)
      then slow_client
      else
        messages ← st_expect (checked U64 (outbound_messages_queued a + 1));
        st_put (set_accounting (mk_accounting (inbound_commands_admitted_total a)
            (inbound_commands_inflight a)
            (saturating U64 (outbound_messages_queued_total a + 1)) messages bytes)
          (set_sizes (outbound_sizes self ++ [encoded_bytes])
            (set_outbound (record (outbound_window self)) self)))
  end.
Definition release_outbound (index : nat) : session_stm Z :=
  self ← st_get;
  match outbound_sizes self !! index with
  | None => mthrow NoQueuedOutboundMessage
  | Some bytes =>
      let a := accounting self in
      messages ← st_expect (checked U64 (outbound_messages_queued a - 1));
      queued ← st_expect (checked U64 (outbound_bytes_queued a - bytes));
      _ ← st_put (set_accounting (mk_accounting (inbound_commands_admitted_total a)
              (inbound_commands_inflight a) (outbound_messages_queued_total a) messages queued)
            (set_sizes (delete index (outbound_sizes self)) self));
      mret bytes
  end.
Definition outbound_delivered : session_stm Z := release_outbound 0.
Definition discard_outbound (index : nat) : session_stm Z := release_outbound index.

Definition record_heartbeat (h : Heartbeat) (received_at_ms : Z) : session_stm unit :=
  _ ← ensure_connected;
  self ← st_get;
  _ ← (match last_applied h with
       | None => mret tt
       | Some cursor =>
           _ ← st_require (Protocol.cursor_engine cursor = engine self) CursorIdentityMismatch;
           let regresses previous :=
             bool_decide (Protocol.cursor_revision cursor < Protocol.cursor_revision previous) in
           _ ← st_require (from_option regresses false (hb_last_applied (heartbeat self)) = false)
                 CursorRegression;
           st_modify (λ self, set_heartbeat (mk_heartbeat_state (Some cursor)
             (client_clock_sample_ms (heartbeat self)) (last_received_at_ms (heartbeat self))
             (received_total (heartbeat self))) self)
       end);
  st_modify (λ self, set_heartbeat (mk_heartbeat_state (hb_last_applied (heartbeat self))
    (Some (clock_sample_ms h)) received_at_ms
    (saturating U64 (received_total (heartbeat self) + 1))) self).
Definition check_heartbeat (now_ms : Z) : session_stm unit :=
  _ ← ensure_connected;
  self ← st_get;
  if decide (heartbeat_timeout_ms (limits self) ≤
             Z.max 0 (now_ms - last_received_at_ms (heartbeat self)))
  then _ ← st_modify (disconnect HeartbeatTimeout); mthrow (SessionDisconnected HeartbeatTimeout)
  else mret tt.

(** ** The handshake *)

Inductive SyncPayload :=
  | SyncSnapshot (snapshot : Protocol.SnapshotMessage)
  | SyncResume (events : list Protocol.EventMessage).
Definition is_resume (self : SyncPayload) : bool :=
  match self with SyncResume _ => true | _ => false end.
Record InitialSync := mk_initial_sync {
  sync_engine : Protocol.EngineIdentity;
  sync_revision : Z;
  sync_payload : SyncPayload
}.
(** The trait: [X] is its associated error. *)
Class ControlPlane (C X : Type) :=
  initial_sync : C → option Protocol.EventCursor → result X InitialSync.

Inductive HandshakeError (X : Type) :=
  | NotReady (state : ReadinessState)
  | HandshakeProtocolMismatch
  | DevelopmentPrincipalDenied
  | RoleDenied (role : Protocol.Role)
  | ControlFailed (e : X)
  | InvalidControlSync.
Arguments NotReady {_}.
Arguments HandshakeProtocolMismatch {_}.
Arguments DevelopmentPrincipalDenied {_}.
Arguments RoleDenied {_}.
Arguments ControlFailed {_}.
Arguments InvalidControlSync {_}.

Definition map_role (role : Protocol.Role) : option Auth.Role :=
  match role with
  | Protocol.Viewer => Some Auth.Viewer
  | Protocol.Graphics => Some Auth.Graphics
  | Protocol.Audio => Some Auth.Audio
  | Protocol.Operator => Some Auth.Operator
  | Protocol.Admin => Some Auth.Admin
  | Protocol.Replay => None
  end.
Definition scoped_principal (principal : Auth.Principal) (role : Auth.Role) : Auth.Principal :=
  match Auth.kind principal with
  | Auth.Authenticated =>
      Auth.authenticated (Auth.user_id principal) (Auth.session_id principal) [role]
  | Auth.DevelopmentOnly =>
      Auth.development_principal (Auth.user_id principal) (Auth.session_id principal) [role]
  end.
Definition permission_name (p : Auth.Permission) : string :=
  match p with
  | Auth.ViewStatus => "view_status"
  | Auth.SelectPreview => "select_preview"
  | Auth.Transition => "transition"
  | Auth.ControlAudio => "control_audio"
  | Auth.EditProject => "edit_project"
  | Auth.ManageUsers => "manage_users"
  end.

(** The loop over the events; the revision it ends at. *)
Fixpoint check_events {X} (identity : Protocol.EngineIdentity) (expected : Z)
    (l : list Protocol.EventMessage) : result (HandshakeError X) Z :=
  match l with
  | [] => Ok expected
  | event :: l =>
      next_revision ← ok_or InvalidControlSync (checked U64 (expected + 1));
      if decide (Protocol.cursor_engine (Protocol.cursor event) ≠ identity ∨
                 Protocol.cursor_revision (Protocol.cursor event) ≠ next_revision)
      then Err InvalidControlSync
      else check_events identity next_revision l
  end.
Definition validate_initial_sync {X} (initial : InitialSync)
    (requested : option Protocol.EventCursor) : result (HandshakeError X) unit :=
  match sync_payload initial with
  | SyncSnapshot snapshot =>
      if decide (Protocol.snapshot_engine snapshot ≠ sync_engine initial ∨
                 Protocol.snapshot_revision snapshot ≠ sync_revision initial)
      then Err InvalidControlSync else Ok tt
  | SyncResume events =>
      requested ← ok_or InvalidControlSync requested;
      if decide (Protocol.cursor_engine requested ≠ sync_engine initial ∨
                 sync_revision initial < Protocol.cursor_revision requested)
      then Err InvalidControlSync else
      expected ← check_events (sync_engine initial) (Protocol.cursor_revision requested) events;
      if decide (expected ≠ sync_revision initial) then Err InvalidControlSync else Ok tt
  end.

Record HandshakeOutcome := mk_handshake_outcome {
  server_hello : Protocol.ServerHello;
  outcome_sync : SyncPayload;
  outcome_session : Session
}.
Record Server (C : Type) := mk_server {
  config : ServerConfig;
  control : C;
  policy : Auth.Policy;
  status : ServiceStatus
}.
Arguments mk_server {_}.
Arguments config {_}.
Arguments control {_}.
Arguments policy {_}.
Arguments status {_}.

Section server.
Context {C X : Type} `{ControlPlane C X}.

Definition server_new (config : ServerConfig) (control : C) : result ConfigError (Server C) :=
  _ ← validate config;
  Ok (mk_server config control
        (match authentication config with
         | Required => Auth.production
         | DevelopmentAuth => Auth.development
         end) status_new).
Definition set_status (x : ServiceStatus) (self : Server C) : Server C :=
  mk_server (config self) (control self) (policy self) x.
Definition server_mark_ready : stm (Server C) StatusTransitionError unit :=
  st_zoom status set_status mark_ready.
Definition server_begin_draining : stm (Server C) StatusTransitionError unit :=
  st_zoom status set_status begin_draining.
Definition server_mark_unhealthy (self : Server C) : Server C :=
  set_status (mark_unhealthy (status self)) self.

(** The cursor of the request, in terms of the engine. *)
Definition cached_cursor (hello : Protocol.HandshakeRequest) : option Protocol.EventCursor :=
  (λ cursor, let server := Protocol.resume_server cursor in
     Protocol.mk_cursor (Protocol.mk_identity (Protocol.server_engine_id server)
        (Protocol.server_state_epoch server) (Protocol.server_log_id server))
      (Protocol.resume_revision cursor)) <$> Protocol.resume_cursor hello.
Definition handshake (self : Server C) (hello : Protocol.HandshakeRequest)
    (principal : Auth.Principal) (now_ms : Z) : result (HandshakeError X) HandshakeOutcome :=
  if decide (readiness (status self) ≠ Ready) then Err (NotReady (readiness (status self))) else
  if decide (Auth.kind principal = Auth.DevelopmentOnly ∧
             authentication (config self) ≠ DevelopmentAuth)
  then Err DevelopmentPrincipalDenied else
  if decide (Protocol.request_protocol hello ≠ Protocol.CURRENT_PROTOCOL_VERSION)
  then Err HandshakeProtocolMismatch else
  requested_role ← ok_or (RoleDenied (Protocol.desired_role hello))
                     (map_role (Protocol.desired_role hello));
  if decide (requested_role ∉ Auth.roles principal ∧ Auth.Admin ∉ Auth.roles principal)
  then Err (RoleDenied (Protocol.desired_role hello)) else
  let scoped := scoped_principal principal requested_role in
  let cursor := cached_cursor hello in
  initial ← result_map_err ControlFailed (initial_sync (control self) cursor);
  _ ← validate_initial_sync initial cursor;
  let permissions := permission_name <$> default [] (Auth.permissions_for requested_role (policy self)) in
  let sync := sync_payload initial in
  Ok (mk_handshake_outcome
    (Protocol.mk_hello Protocol.CURRENT_PROTOCOL_VERSION (Protocol.desired_role hello) permissions
       (capabilities_digest (config self)) (sync_engine initial) (sync_revision initial)
       (is_resume sync))
    sync
    (session_new Protocol.CURRENT_PROTOCOL_VERSION (sync_engine initial) (sync_revision initial)
       scoped (policy self) (session_limits (config self)) now_ms)).
End server.
