(* ===== verification/SessionLaws.v ===== *)
(** Sessions over their lifetime, [crates/services/fm-server/src/session.rs]: the
    accounting invariant [session_wf], the histories [session_run], and the bound on
    the rate of admission.

    A window counts at most its maximum and starts no sooner than its length after
    the one before; [window_ok] adds to a window the times it has counted and says
    what follows for every span of that length. *)
From S2P Require Import Prelude BTree Types Server.
From S2P Require Auth Protocol ControlWire.
#[local] Open Scope Z_scope.

(** ** The accounting *)

Definition sum_bytes (l : list Z) : Z := foldr Z.add 0 l.
Lemma sum_bytes_app l1 l2 : sum_bytes (l1 ++ l2) = sum_bytes l1 + sum_bytes l2.
Proof. unfold sum_bytes. induction l1; simpl; lia. Qed.
Lemma sum_bytes_nonneg l : Forall (λ x, 0 ≤ x) l → 0 ≤ sum_bytes l.
Proof. unfold sum_bytes. induction 1; simpl; lia. Qed.
Lemma sum_bytes_delete l i x :
  l !! i = Some x → sum_bytes (delete i l) = sum_bytes l - x.
Proof.
  revert i. unfold sum_bytes. induction l as [|y l IH]; intros [|i]; simpl; [done|done| |].
  - intros [= ->]. lia.
  - intros Hi. rewrite (IH i Hi). lia.
Qed.

Definition limits_wf (l : SessionLimits) : Prop :=
  in_ty U64 (max_inflight_commands l) ∧ in_ty U64 (max_outbound_messages l) ∧
  in_ty U64 (max_outbound_bytes l).
Record session_wf (self : Session) : Prop := {
  sw_limits : limits_wf (limits self);
  sw_inflight : 0 ≤ inbound_commands_inflight (accounting self) ≤ max_inflight_commands (limits self);
  sw_messages : outbound_messages_queued (accounting self) = Z.of_nat (length (outbound_sizes self));
  sw_bytes : outbound_bytes_queued (accounting self) = sum_bytes (outbound_sizes self);
  sw_sizes : Forall (λ x, 0 ≤ x) (outbound_sizes self);
  sw_messages_bound : outbound_messages_queued (accounting self) ≤ max_outbound_messages (limits self);
  sw_bytes_bound : outbound_bytes_queued (accounting self) ≤ max_outbound_bytes (limits self)
}.

Inductive session_op :=
  | OpAdmit (command : Protocol.CommandMessage) (encoded_bytes now_ms : Z)
  | OpDiagnostics (request : Protocol.DiagnosticsRequest) (encoded_bytes now_ms : Z)
  | OpCompleted
  | OpQueue (encoded_bytes now_ms : Z)
  | OpDelivered
  | OpDiscard (index : nat)
  | OpHeartbeat (h : Heartbeat) (received_at_ms : Z)
  | OpCheck (now_ms : Z)
  | OpDisconnect (reason : DisconnectReason).
Definition session_step (op : session_op) : stm Session SessionError (option Z) :=
  match op with
  | OpAdmit command bytes now => _ ← admit_command command bytes now; mret None
  | OpDiagnostics request bytes now => _ ← admit_diagnostics request bytes now; mret None
  | OpCompleted => _ ← command_completed; mret None
  | OpQueue bytes now => _ ← queue_outbound bytes now; mret None
  | OpDelivered => bytes ← outbound_delivered; mret (Some bytes)
  | OpDiscard index => bytes ← discard_outbound index; mret (Some bytes)
  | OpHeartbeat h now => _ ← record_heartbeat h now; mret None
  | OpCheck now => _ ← check_heartbeat now; mret None
  | OpDisconnect reason => _ ← st_modify (disconnect reason); mret None
  end.
(** Sizes are not negative. *)
Definition op_ok (op : session_op) : Prop :=
  match op with
  | OpQueue bytes _ => 0 ≤ bytes
  | _ => True
  end.
(** The session but for its windows and its state. *)
Definition books (self : Session) : SessionAccounting * list Z * HeartbeatState :=
  (accounting self, outbound_sizes self, heartbeat self).
(** Nothing but what can be refused refuses: the books stay, and a session ends only
    as a slow or silent client. *)
Definition stays (self self' : Session) (e : SessionError) : Prop :=
  books self' = books self ∧
  (state self' = state self ∨
   state self = Connected ∧ ∃ r, e = SessionDisconnected r ∧ state self' = Disconnected r).
Definition fixed (self : Session) :=
  (protocol self, engine self, session_revision self, principal self, session_policy self,
   limits self).
Definition accounted (self : Session) {A} (r : outcome SessionError A) (self' : Session) : Prop :=
  session_wf self' ∧ fixed self' = fixed self ∧
  match r with
  | Ret _ => True
  | Throw e => stays self self' e
  | Panic => False
  end.

Lemma same_books_wf self self' :
  books self' = books self → limits self' = limits self → session_wf self → session_wf self'.
Proof. unfold books. intros [= Ha Hs Hh] Hl []. split; rewrite ?Ha, ?Hs, ?Hl; done. Qed.
Lemma refused {A} self e self' :
  session_wf self → books self' = books self → fixed self' = fixed self →
  (state self' = state self ∨
   state self = Connected ∧ ∃ r, e = SessionDisconnected r ∧ state self' = Disconnected r) →
  accounted self (Throw e : outcome SessionError A) self'.
Proof.
  intros Hwf Hb Hf Hs. split_and!; [|done|by split]. eapply same_books_wf; [done| |done].
  by injection Hf.
Qed.

(** A refusal that leaves the books and ends no session. *)
Ltac refusal := apply refused; [assumption|reflexivity|reflexivity|by left].
(** A checked operation that the invariant keeps in range. *)
Ltac in_range := match goal with
  | H : checked _ _ = None |- _ => exfalso; apply checked_None in H; apply H; simpl; int_lia
  | H : checked _ _ = Some _ |- _ => apply checked_Some in H as [<- _]
  end.
Lemma accounted_books {A} (a : A) self self' :
  session_wf self → books self' = books self → fixed self' = fixed self →
  accounted self (Ret a : outcome SessionError A) self'.
Proof.
  intros Hwf Hb Hf. split_and!; [|done..]. eapply same_books_wf; [done| |done]. by injection Hf.
Qed.

Section step.
Context (self : Session) (Hwf : session_wf self).

Lemma admit_accounted command bytes now :
  wp (admit_command command bytes now) (accounted self) self.
Proof.
  destruct Hwf as [(Hl1&Hl2&Hl3) Hi Hm Hb Hs Hmb Hbb].
  unfold admit_command, ensure_connected, inbound_capacity. wp_run; try refusal; in_range.
  split_and!; [|done..]. split; simpl in *; try done. lia.
Qed.
Lemma diagnostics_accounted request bytes now :
  wp (admit_diagnostics request bytes now) (accounted self) self.
Proof.
  unfold admit_diagnostics, ensure_connected, inbound_capacity.
  wp_run; try refusal. by apply accounted_books.
Qed.
Lemma completed_accounted : wp command_completed (accounted self) self.
Proof.
  destruct Hwf as [(Hl1&Hl2&Hl3) Hi Hm Hb Hs Hmb Hbb].
  unfold command_completed. wp_run; try refusal; in_range.
  split_and!; [|done..]. split; simpl in *; try done. lia.
Qed.
Lemma disconnect_wf reason : accounted self (Ret tt) (disconnect reason self).
Proof. unfold disconnect. case_decide; by apply accounted_books. Qed.
(** A session that is connected ends. *)
Lemma ended {A} w reason :
  state self = Connected →
  accounted self (Throw (SessionDisconnected reason) : outcome SessionError A)
    (disconnect reason (set_outbound w self)) ∧
  accounted self (Throw (SessionDisconnected reason) : outcome SessionError A)
    (disconnect reason self).
Proof.
  intros Hc. unfold disconnect. simpl. rewrite !decide_True by done.
  split; (apply refused; [done..|]); right; (split; [done|]); by eexists.
Qed.
Lemma queue_accounted bytes now :
  0 ≤ bytes → wp (queue_outbound bytes now) (accounted self) self.
Proof.
  intros Hn. pose proof Hwf as [(Hl1&Hl2&Hl3) Hi Hm Hb Hs Hmb Hbb].
  unfold queue_outbound, ensure_connected, outbound_capacity, slow_client.
  wp_run; try refusal; try (by apply ended).
  - apply checked_Some in Heqo as [<- _]. in_range. clear Heqs0. simpl in *.
    apply Decidable.not_or in n as [??].
    split_and!; [|done..]. split; simpl in *; try done.
    + rewrite length_app. simpl. lia.
    + rewrite sum_bytes_app, Hb. change (sum_bytes [bytes]) with (bytes + 0). lia.
    + apply Forall_app. by split; [|constructor].
    + lia.
    + lia.
  - simpl in *. in_range.
Qed.
Lemma release_accounted index : wp (release_outbound index) (accounted self) self.
Proof.
  pose proof Hwf as [(Hl1&Hl2&Hl3) Hi Hm Hb Hs Hmb Hbb].
  unfold release_outbound. apply wp_bind, wp_get. cbn beta iota.
  destruct (outbound_sizes self !! index) as [x|] eqn:Hx; [|apply wp_throw; refusal].
  pose proof (sum_bytes_delete _ _ _ Hx) as Hd. pose proof (lookup_lt_Some _ _ _ Hx) as Hlt.
  assert (Hx0 : 0 ≤ x) by by eapply (Forall_lookup_1 _ _ _ _ Hs).
  assert (Hs' : Forall (λ y, 0 ≤ y) (delete index (outbound_sizes self))) by by apply Forall_delete.
  pose proof (sum_bytes_nonneg _ Hs').
  wp_run; in_range.
  - in_range. split_and!; [|done..]. split; simpl in *; try done; [|lia..].
    rewrite length_delete by done. lia.
Qed.
End step.

Lemma step_accounted op self :
  session_wf self → op_ok op → wp (session_step op) (accounted self) self.
Proof.
  intros Hwf Hok.
  assert (Hbind : ∀ {A} (m : stm Session SessionError A) (f : A → option Z),
    wp m (accounted self) self → wp (x ← m; mret (f x)) (accounted self) self).
  { intros A m f Hm. apply wp_bind. eapply wp_mono; [exact Hm|]. by intros [a|e|] s' ?. }
  destruct op as [command bytes now|request bytes now| |bytes now| |index|h now|now|reason];
    cbn [session_step]; apply Hbind.
  - by apply admit_accounted.
  - by apply diagnostics_accounted.
  - by apply completed_accounted.
  - by apply queue_accounted.
  - by apply release_accounted.
  - by apply release_accounted.
  - unfold record_heartbeat, ensure_connected.
    wp_run; try refusal; (split_and!; [|done..]); by destruct Hwf; split.
  - unfold check_heartbeat, ensure_connected. wp_run; try refusal; by first [apply ended|apply accounted_books].
  - apply wp_modify. by apply disconnect_wf.
Qed.

(** ** Rates *)

(** The times of [l] from [a] on, before [b]. *)
Definition within (a b : Z) (l : list Z) : Z :=
  Z.of_nat (length (filter (λ t, a ≤ t < b) l)).
Lemma within_app a b l1 l2 : within a b (l1 ++ l2) = within a b l1 + within a b l2.
Proof. unfold within. rewrite filter_app, length_app. lia. Qed.
Lemma within_one a b t : within a b [t] = if decide (a ≤ t < b) then 1 else 0.
Proof. unfold within. rewrite filter_cons. by case_decide. Qed.
Lemma within_split a b c l : a ≤ b ≤ c → within a c l = within a b l + within b c l.
Proof.
  intros Hab. induction l as [|t l IH]; [done|].
  change (t :: l) with ([t] ++ l). rewrite !within_app, IH, !within_one.
  repeat case_decide; lia.
Qed.
Lemma within_nonneg a b l : 0 ≤ within a b l.
Proof. unfold within. lia. Qed.
Lemma within_mono a a' b b' l : a' ≤ a → b ≤ b' → within a b l ≤ within a' b' l.
Proof.
  intros. induction l as [|t l IH]; [done|].
  change (t :: l) with ([t] ++ l). rewrite !within_app, !within_one.
  repeat case_decide; lia.
Qed.
Lemma within_none a b l : Forall (λ t, t < a) l → within a b l = 0.
Proof.
  induction 1 as [|t l Ht Hl IH]; [done|].
  change (t :: l) with ([t] ++ l). rewrite within_app, IH, within_one. case_decide; lia.
Qed.

(** What a window knows of the times it has counted, at the time [now]. *)
Record window_ok (limit : RateLimit) (hist : list Z) (now : Z) (w : WindowCounter) : Prop := {
  wo_current : within (started_at_ms w) (started_at_ms w + window_ms limit) hist = count w;
  wo_count : count w ≤ maximum limit;
  wo_before : Forall (λ t, t < started_at_ms w + window_ms limit) hist;
  wo_last : ∀ a, started_at_ms w < a + window_ms limit →
    within a (started_at_ms w) hist ≤ maximum limit;
  wo_any : ∀ a, within a (a + window_ms limit) hist ≤ 2 * maximum limit;
  wo_now : started_at_ms w ≤ now
}.
Definition rate_wf (limit : RateLimit) : Prop :=
  0 < window_ms limit ∧ in_ty U64 (maximum limit).
Lemma window_new_ok limit now : rate_wf limit → window_ok limit [] now (window_new now).
Proof.
  intros [Hw Hm]. assert (0 ≤ maximum limit) by int_lia. split; simpl; try done; try lia.
  all: intros; unfold within; simpl; lia.
Qed.
Lemma refresh_ok limit hist now0 now w :
  rate_wf limit → now0 ≤ now → window_ok limit hist now0 w →
  window_ok limit hist now (refresh now (window_ms limit) w) ∧
  now < started_at_ms (refresh now (window_ms limit) w) + window_ms limit.
Proof.
  intros [Hw Hm] Hn [Hc Hcm Hb Hl Ha Hs]. unfold refresh. case_decide as Hd; simpl.
  2: { split; [split; try done; lia|lia]. }
  assert (started_at_ms w + window_ms limit ≤ now) by lia.
  assert (Hlt : Forall (λ t, t < now) hist).
  { eapply Forall_impl; [exact Hb|]. simpl. intros. lia. }
  assert (0 ≤ maximum limit) by int_lia.
  split; [split; simpl; try done|lia].
  - by apply within_none.
  - eapply Forall_impl; [exact Hlt|]. simpl. intros. lia.
  - intros a Hlast.
    transitivity (within (started_at_ms w) now hist).
    { apply within_mono; lia. }
    rewrite (within_split _ (started_at_ms w + window_ms limit)) by lia. rewrite Hc.
    rewrite within_none by done. lia.
Qed.
Lemma record_ok limit hist now w :
  rate_wf limit → window_ok limit hist now w → count w < maximum limit →
  now < started_at_ms w + window_ms limit →
  window_ok limit (hist ++ [now]) now (record w).
Proof.
  intros [Hw Hm] [Hc Hcm Hb Hl Ha Hs] Hlt Hn.
  assert (Hc0 : 0 ≤ count w) by (rewrite <-Hc; apply within_nonneg).
  assert (Hsat : saturating U64 (count w + 1) = count w + 1).
  { apply saturating_id. int_lia. }
  unfold record. rewrite Hsat. split; simpl; try done; try lia.
  - rewrite within_app, within_one, decide_True by lia. lia.
  - apply Forall_app. split; [done|]. constructor; [lia|done].
  - intros a Hlast. rewrite within_app, within_one, decide_False by lia. specialize (Hl a Hlast). lia.
  - intros a. rewrite within_app, within_one. case_decide as Hd; [|specialize (Ha a); lia].
    destruct (decide (started_at_ms w ≤ a)) as [Hsa|Hsa].
    + transitivity (within (started_at_ms w) (started_at_ms w + window_ms limit) hist + 1); [|lia].
      apply Z.add_le_mono_r. etrans; [apply (within_mono a (started_at_ms w) _ (a + window_ms limit)); lia|].
      rewrite (within_split _ (started_at_ms w + window_ms limit)) by lia.
      rewrite (within_none (started_at_ms w + window_ms limit)) by done. lia.
    + rewrite (within_split a (started_at_ms w)) by lia. specialize (Hl a ltac:(lia)).
      assert (within (started_at_ms w) (a + window_ms limit) hist ≤ count w); [|lia].
      rewrite <-Hc. apply within_mono; lia.
Qed.

(** The two directions, with their windows and what each operation counts in them. *)
Inductive direction := Inbound | Outbound.
Definition rate_of (d : direction) (l : SessionLimits) : RateLimit :=
  match d with Inbound => inbound_commands l | Outbound => outbound_messages l end.
Definition window_of (d : direction) (self : Session) : WindowCounter :=
  match d with Inbound => inbound_window self | Outbound => outbound_window self end.
Definition timed (d : direction) (op : session_op) : option Z :=
  match d, op with
  | Inbound, OpAdmit _ _ now | Inbound, OpDiagnostics _ _ now | Outbound, OpQueue _ now => Some now
  | _, _ => None
  end.

(** What a step does to a window. *)
Definition window_step (d : direction) (op : session_op) (self : Session) {A}
    (r : outcome SessionError A) (self' : Session) : Prop :=
  limits self' = limits self ∧
  match timed d op with
  | None => window_of d self' = window_of d self
  | Some now =>
      let w := refresh now (window_ms (rate_of d (limits self))) (window_of d self) in
      match r with
      | Ret _ => window_of d self' = record w ∧ count w < maximum (rate_of d (limits self))
      | _ => window_of d self' = window_of d self ∨ window_of d self' = w
      end
  end.
Lemma disconnect_window d reason self :
  limits (disconnect reason self) = limits self ∧
  window_of d (disconnect reason self) = window_of d self.
Proof. unfold disconnect. case_decide; [|done]. by destruct d. Qed.
Lemma has_capacity_inv now limit w w' b :
  has_capacity now limit w = (w', b) →
  w' = refresh now (window_ms limit) w ∧ (b = true → count w' < maximum limit).
Proof. unfold has_capacity. intros [= <- <-]. split; [done|]. apply bool_decide_eq_true. Qed.
Lemma step_window d op self : wp (session_step op) (window_step d op self) self.
Proof.
  destruct op as [command bytes now|request bytes now| |bytes now| |index|h now|now|reason], d;
    cbn [session_step]; unfold admit_command, admit_diagnostics, command_completed, queue_outbound,
      slow_client, outbound_delivered, discard_outbound, release_outbound, record_heartbeat,
      check_heartbeat, inbound_capacity, outbound_capacity, ensure_connected.
  all: wp_run; unfold window_step; simpl.
  all: try match goal with H : has_capacity _ _ _ = _ |- _ =>
    apply has_capacity_inv in H as [-> Hcap] end.
  all: rewrite ?(proj1 (disconnect_window Inbound _ _)), ?(proj2 (disconnect_window Inbound _ _)),
    ?(proj2 (disconnect_window Outbound _ _)); simpl; auto.
Qed.

(** ** Histories *)

(** The session after operations, and the times at which the window of [d] counted
    one of them. *)
Fixpoint session_after (l : list session_op) (self : Session) : Session :=
  match l with
  | [] => self
  | op :: l => session_after l (session_step op self).1
  end.
Definition counted (d : direction) (op : session_op) (self : Session) : list Z :=
  match timed d op, (session_step op self).2 with
  | Some now, Ret _ => [now]
  | _, _ => []
  end.
Fixpoint admissions (d : direction) (l : list session_op) (self : Session) : list Z :=
  match l with
  | [] => []
  | op :: l => counted d op self ++ admissions d l (session_step op self).1
  end.
(** The clock does not run back. *)
Fixpoint times_from (start : Z) (l : list Z) : Prop :=
  match l with
  | [] => True
  | t :: l => start ≤ t ∧ times_from t l
  end.

Lemma session_after_app l1 l2 self :
  session_after (l1 ++ l2) self = session_after l2 (session_after l1 self).
Proof. revert self. induction l1; intros self; simpl; auto. Qed.
(** What no operation changes. *)
Lemma disconnect_fixed reason self : fixed (disconnect reason self) = fixed self.
Proof. unfold disconnect. by case_decide. Qed.
Lemma step_fixed op self : wp (session_step op) (λ _ s', fixed s' = fixed self) self.
Proof.
  destruct op; cbn [session_step]; unfold admit_command, admit_diagnostics, command_completed,
    queue_outbound, slow_client, outbound_delivered, discard_outbound, release_outbound,
    record_heartbeat, check_heartbeat, inbound_capacity, outbound_capacity, ensure_connected.
  all: wp_run; rewrite ?disconnect_fixed; done.
Qed.
Lemma session_after_fixed l self : fixed (session_after l self) = fixed self.
Proof.
  revert self. induction l as [|op l IH]; intros self; [done|]. simpl. rewrite IH.
  apply (step_fixed op self).
Qed.
Lemma session_after_wf l self :
  session_wf self → Forall op_ok l → session_wf (session_after l self).
Proof.
  intros Hwf Hl. revert self Hwf. induction Hl as [|op l Hop Hl IH]; intros self Hwf; [done|].
  simpl. apply IH. pose proof (step_accounted op self Hwf Hop) as Hs. apply Hs.
Qed.
Lemma session_new_wf protocol engine revision principal policy limits now :
  limits_wf limits → session_wf (session_new protocol engine revision principal policy limits now).
Proof. intros Hl. split; simpl; try done; destruct Hl as (?&?&?); int_lia. Qed.

Lemma window_run d l self hist now0 :
  rate_wf (rate_of d (limits self)) → times_from now0 (omap (timed d) l) →
  window_ok (rate_of d (limits self)) hist now0 (window_of d self) →
  ∃ now w, window_ok (rate_of d (limits self)) (hist ++ admissions d l self) now w.
Proof.
  revert self hist now0. induction l as [|op l IH]; intros self hist now0 Hr Ht Hw; simpl.
  { exists now0, (window_of d self). by rewrite app_nil_r. }
  pose proof (step_window d op self) as Hs. unfold wp, window_step in Hs.
  unfold counted. destruct (session_step op self) as [self' r] eqn:Hst. simpl in *.
  destruct Hs as [Hl Hs]. rewrite <-Hl in Hr, Hw |- *. simpl in Ht.
  destruct (timed d op) as [now|]; simpl in Ht.
  2: { apply (IH self' hist now0); [done..|by rewrite Hs]. }
  destruct Ht as [Hnow Ht]. rewrite <-Hl in Hs.
  destruct (refresh_ok _ hist now0 now (window_of d self) Hr Hnow Hw) as [Hok Hin].
  assert (Hthrow : window_of d self' = window_of d self ∨
      window_of d self' = refresh now (window_ms (rate_of d (limits self'))) (window_of d self) →
    ∃ now w, window_ok (rate_of d (limits self')) (hist ++ admissions d l self') now w).
  { intros [Heq|Heq]; apply (IH self' hist now); try done; rewrite Heq; [|done].
    destruct Hw. split; try done. lia. }
  destruct r as [a|e|]; simpl; try (by apply Hthrow).
  destruct Hs as [Heq Hcap]. rewrite cons_middle, app_assoc.
  apply (IH self' (hist ++ [now]) now); [done..|]. rewrite Heq. by apply record_ok.
Qed.

(** An ended session stays ended. *)
Lemma ended_refuses op self reason :
  state self = Disconnected reason →
  state (session_step op self).1 = Disconnected reason ∧
  match op with
  | OpAdmit _ _ _ | OpDiagnostics _ _ _ | OpQueue _ _ | OpHeartbeat _ _ | OpCheck _ =>
      session_step op self = (self, Throw (SessionDisconnected reason))
  | _ => True
  end.
Proof.
  intros Hst.
  assert (Hend : ∀ {A} (m : stm Session SessionError A) (k : A → option Z),
    (∀ s, wp m (λ _ s', state s' = state s) s) →
    state ((x ← m; mret (k x)) self).1 = Disconnected reason).
  { intros A m k Hm. rewrite <-Hst. apply (wp_bind m _ (λ _ s', state s' = state self)).
    eapply wp_mono; [apply Hm|]. by intros [a|e|] s' ?. }
  destruct op; cbn [session_step];
    try (unfold admit_command, admit_diagnostics, queue_outbound, record_heartbeat, check_heartbeat,
      ensure_connected, mbind, stm_bind, st_get; rewrite Hst; done).
  - split; [|done]. apply Hend. intros s. unfold command_completed. by wp_run.
  - split; [|done]. apply Hend. intros s. unfold outbound_delivered, release_outbound. by wp_run.
  - split; [|done]. apply Hend. intros s. unfold discard_outbound, release_outbound. by wp_run.
  - split; [|done]. unfold mbind, stm_bind, st_modify, disconnect. simpl.
    by rewrite Hst.
Qed.

(** ** The ledger

    What a reader of the answers alone knows: a command is in flight from its
    admission to its completion, a message is queued from its acceptance until it is
    delivered, the oldest first, or discarded. *)

Record Ledger := mk_ledger { in_flight : Z; in_queue : list Z }.
Definition recorded (op : session_op) (r : outcome SessionError (option Z)) (g : Ledger) : Ledger :=
  match r with
  | Ret _ =>
      match op with
      | OpAdmit _ _ _ => mk_ledger (in_flight g + 1) (in_queue g)
      | OpCompleted => mk_ledger (in_flight g - 1) (in_queue g)
      | OpQueue bytes _ => mk_ledger (in_flight g) (in_queue g ++ [bytes])
      | OpDelivered => mk_ledger (in_flight g) (tail (in_queue g))
      | OpDiscard index => mk_ledger (in_flight g) (delete index (in_queue g))
      | _ => g
      end
  | _ => g
  end.
Fixpoint ledger (l : list session_op) (self : Session) (g : Ledger) : Ledger :=
  match l with
  | [] => g
  | op :: l => let '(self, r) := session_step op self in ledger l self (recorded op r g)
  end.
(** What an operation that succeeds answers. *)
Definition answer_of (op : session_op) (g : Ledger) : option Z :=
  match op with
  | OpDelivered => head (in_queue g)
  | OpDiscard index => in_queue g !! index
  | _ => None
  end.
Definition posted (self : Session) : Ledger :=
  mk_ledger (inbound_commands_inflight (accounting self)) (outbound_sizes self).

Lemma disconnect_posted reason self : posted (disconnect reason self) = posted self.
Proof. unfold disconnect. by case_decide. Qed.
Lemma step_posted op self :
  wp (session_step op) (λ r s', posted s' = recorded op r (posted self) ∧
    ∀ a, r = Ret a → a = answer_of op (posted self)) self.
Proof.
  destruct op as [command bytes now|request bytes now| |bytes now| |index|h now|now|reason];
    cbn [session_step]; unfold admit_command, admit_diagnostics, command_completed,
    queue_outbound, slow_client, outbound_delivered, discard_outbound, release_outbound,
    record_heartbeat, check_heartbeat, inbound_capacity, outbound_capacity, ensure_connected.
  all: wp_run; rewrite ?disconnect_posted; split; try done; try (by intros ? [= <-]).
  all: repeat match goal with
    | H : checked _ _ = Some _ |- _ => apply checked_Some in H as [<- _]
    end; try done.
  all: unfold posted; destruct (outbound_sizes self); simplify_eq/=; try done; by intros ? [= <-].
Qed.
Lemma ledger_posted l self : ledger l self (posted self) = posted (session_after l self).
Proof.
  revert self. induction l as [|op l IH]; intros self; [done|]. simpl.
  pose proof (step_posted op self) as Hs. unfold wp in Hs.
  destruct (session_step op self) as [self' r]. simpl in *. destruct Hs as [<- _]. apply IH.
Qed.

(** ** Properties *)

(** C21: A session keeps its books over any history of its operations.  The commands
    in flight are those admitted and not yet completed, the messages queued are those
    accepted and not yet delivered, the oldest first, or discarded, their bytes are
    the sum of their sizes, and neither ever exceeds its limit.  Nothing panics; a
    refused operation leaves the books as they were; an operation that succeeds
    answers with the size of the message it released; and a session that has ended
    refuses all further work for the same reason. *)
Theorem session_safe protocol engine revision principal policy lim now l op :
  limits_wf lim → Forall op_ok l → op_ok op →
  let start := session_new protocol engine revision principal policy lim now in
  let self := session_after l start in
  let a := accounting self in
  let g := ledger l start (mk_ledger 0 []) in
  (inbound_commands_inflight a = in_flight g ∧
   0 ≤ inbound_commands_inflight a ≤ max_inflight_commands lim) ∧
  (outbound_sizes self = in_queue g ∧
   outbound_messages_queued a = Z.of_nat (length (in_queue g)) ∧
   outbound_messages_queued a ≤ max_outbound_messages lim) ∧
  (outbound_bytes_queued a = sum_bytes (in_queue g) ∧
   outbound_bytes_queued a ≤ max_outbound_bytes lim) ∧
  (let '(self', r) := session_step op self in
   match r with
   | Ret x => x = answer_of op g
   | Throw e => stays self self' e
   | Panic => False
   end) ∧
  (∀ reason, state self = Disconnected reason →
   state (session_step op self).1 = Disconnected reason ∧
   match op with
   | OpAdmit _ _ _ | OpDiagnostics _ _ _ | OpQueue _ _ | OpHeartbeat _ _ | OpCheck _ =>
       session_step op self = (self, Throw (SessionDisconnected reason))
   | _ => True
   end).
Proof.
  intros Hlim Hl Hop start self a g.
  assert (Hwf : session_wf self) by (apply session_after_wf; [by apply session_new_wf|done]).
  assert (Hlimits : limits self = lim).
  { pose proof (session_after_fixed l start) as Hfix. by injection Hfix. }
  assert (Hg : g = posted self) by apply (ledger_posted l start).
  pose proof (step_accounted op self Hwf Hop) as Hs. pose proof (step_posted op self) as Hp.
  unfold wp in Hs, Hp. rewrite Hg. destruct Hwf as [_ Hi Hm Hb _ Hmb Hbb]. rewrite Hlimits in *.
  split_and!; [done|apply Hi|apply Hi|done|exact Hm|exact Hmb|exact Hb|exact Hbb| |].
  - destruct (session_step op self) as [self' r]. simpl in Hs, Hp. destruct Hs as (_&_&Hs).
    destruct r as [x|e|]; [by apply Hp|done|done].
  - by apply ended_refuses.
Qed.

(** C22: Admission is rate limited: in every span as long as the window of the limit,
    over any history of a session, at most twice the maximum is admitted, inbound
    (commands and diagnostics) and outbound (messages), however the operations are
    spread, as long as the clock does not run back. *)
Theorem rate_limited d protocol engine revision principal policy lim now l a :
  rate_wf (rate_of d lim) → times_from now (omap (timed d) l) →
  within a (a + window_ms (rate_of d lim))
    (admissions d l (session_new protocol engine revision principal policy lim now)) ≤
  2 * maximum (rate_of d lim).
Proof.
  intros Hr Ht. set (s := session_new _ _ _ _ _ _ _).
  destruct (window_run d l s [] now Hr Ht) as (now'&w&Hw).
  { change (rate_of d (limits s)) with (rate_of d lim).
    replace (window_of d s) with (window_new now) by by destruct d. by apply window_new_ok. }
  apply (wo_any _ _ _ _ Hw).
Qed.

(** ** Witnesses *)

Definition demo_limits : SessionLimits :=
  mk_session_limits 100 1 (mk_rate_limit 2 1000) 2 50 (mk_rate_limit 3 1000) 5000.
Definition demo_request : Protocol.DiagnosticsRequest :=
  Protocol.mk_diagnostics_request Protocol.CURRENT_PROTOCOL_VERSION "a".
Definition demo_ops : list session_op :=
  [OpDiagnostics demo_request 10 0; OpDiagnostics demo_request 10 999;
   OpDiagnostics demo_request 10 999; OpDiagnostics demo_request 10 1000;
   OpDiagnostics demo_request 10 1001; OpQueue 20 5; OpQueue 30 6; OpDiscard 0; OpQueue 31 7].
Definition demo_viewer : Auth.Principal := Auth.authenticated "u" "s" [Auth.Viewer].
Definition demo_session : Session :=
  session_new Protocol.CURRENT_PROTOCOL_VERSION (Protocol.mk_identity "e" 0 "l") 0 demo_viewer
    Auth.production demo_limits 0.

Definition demo_command : Protocol.CommandMessage :=
  Protocol.mk_command Protocol.CURRENT_PROTOCOL_VERSION "c" "c" None None Protocol.CommandPayload.Cut.
Definition demo_operator_session : Session :=
  session_new Protocol.CURRENT_PROTOCOL_VERSION (Protocol.mk_identity "e" 0 "l") 0
    (Auth.authenticated "u" "s" [Auth.Operator]) Auth.production demo_limits 0.
Definition demo_commands : list session_op :=
  [OpAdmit demo_command 10 0; OpAdmit demo_command 10 1; OpQueue 20 5; OpQueue 30 6; OpDelivered].

(** The message that overflows the queue ends a session; in another one a command is
    in flight, the next is refused, and the oldest of two messages is delivered. *)
Lemma session_safe_witness :
  state (session_after demo_ops demo_session) = Disconnected SlowClient ∧
  outbound_sizes (session_after demo_ops demo_session) = [30] ∧
  session_step (OpCheck 8) (session_after demo_ops demo_session) =
    (session_after demo_ops demo_session, Throw (SessionDisconnected SlowClient)) ∧
  inbound_commands_inflight (accounting (session_after demo_commands demo_operator_session)) = 1 ∧
  outbound_sizes (session_after demo_commands demo_operator_session) = [30] ∧
  (session_step OpDelivered (session_after demo_commands demo_operator_session)).2 = Ret (Some 30).
Proof.
  split; [vm_compute; reflexivity|]. split; [vm_compute; reflexivity|].
  split.
  - destruct (session_safe Protocol.CURRENT_PROTOCOL_VERSION (Protocol.mk_identity "e" 0 "l") 0
      demo_viewer Auth.production demo_limits 0 demo_ops (OpCheck 8)) as (_&_&_&_&Hend).
    + split_and!; vm_compute; done.
    + repeat constructor; done.
    + done.
    + apply (Hend SlowClient). vm_compute. reflexivity.
  - destruct (session_safe Protocol.CURRENT_PROTOCOL_VERSION (Protocol.mk_identity "e" 0 "l") 0
      (Auth.authenticated "u" "s" [Auth.Operator]) Auth.production demo_limits 0 demo_commands
      OpDelivered) as ((Hi&_)&(Hq&_)&_&Hstep&_).
    + split_and!; vm_compute; done.
    + repeat constructor; done.
    + done.
    + split; [exact Hi|]. split; [exact Hq|]. revert Hstep. vm_compute. congruence.
Defined.
Lemma rate_limited_witness :
  within 999 1999 (admissions Inbound demo_ops demo_session) = 3 ∧
  within 999 1999 (admissions Inbound demo_ops demo_session) ≤ 2 * 2.
Proof.
  split; [vm_compute; reflexivity|].
  apply (rate_limited Inbound Protocol.CURRENT_PROTOCOL_VERSION (Protocol.mk_identity "e" 0 "l") 0
    demo_viewer Auth.production demo_limits 0 demo_ops 999).
  - split; vm_compute; done.
  - simpl. lia.
Defined.
