(* ===== verification/Handshake.v ===== *)
(** The handshake, [crates/services/fm-server/src/server.rs], against its declarative
    contract: when it grants a session, which, and what the session may do.

    [in_step] is what the control plane promises, a [ControlPlane] with
    [ControlPlaneLaws]: the snapshot it offers is of its current revision, and the
    events it offers lead from the cursor of the client to it without a gap. *)
From S2P Require Import Prelude BTree Types Server SessionLaws.
From S2P Require Auth Protocol ControlWire.
#[local] Open Scope Z_scope.

(** A sync that takes a client from [requested] to the state it names. *)
Definition in_step (requested : option Protocol.EventCursor) (initial : InitialSync) : Prop :=
  match sync_payload initial with
  | SyncSnapshot snapshot =>
      Protocol.snapshot_engine snapshot = sync_engine initial ∧
      Protocol.snapshot_revision snapshot = sync_revision initial
  | SyncResume events =>
      ∃ c, requested = Some c ∧ Protocol.cursor_engine c = sync_engine initial ∧
        sync_revision initial = Protocol.cursor_revision c + Z.of_nat (length events) ∧
        Protocol.cursor <$> events = Protocol.mk_cursor (sync_engine initial) <$>
          seqZ (Protocol.cursor_revision c + 1) (Z.of_nat (length events))
  end.
Lemma check_events_exact {X} identity l rev :
  0 ≤ rev → rev + Z.of_nat (length l) ≤ ty_max U64 →
  check_events (X := X) identity rev l = Ok (rev + Z.of_nat (length l)) ↔
  Protocol.cursor <$> l = Protocol.mk_cursor identity <$> seqZ (rev + 1) (Z.of_nat (length l)).
Proof.
  revert rev. induction l as [|e l IH]; intros rev Hr Hmax; cbn [length] in *.
  { rewrite Z.add_0_r. by split. }
  rewrite Nat2Z.inj_succ in Hmax. cbn [check_events]. rewrite checked_in by int_lia. cbn [ok_or mbind result_bind].
  assert (Hseq : seqZ (rev + 1) (Z.of_nat (S (length l))) =
    (rev + 1) :: seqZ (rev + 1 + 1) (Z.of_nat (length l))).
  { rewrite seqZ_cons by lia. f_equal. f_equal; lia. }
  rewrite Hseq. cbn [fmap list_fmap]. destruct (Protocol.cursor e) as [i r].
  cbn [Protocol.cursor_engine Protocol.cursor_revision].
  case_decide as Hne.
  { split; [done|]. intros [= -> -> _]. destruct Hne; done. }
  apply Decidable.not_or in Hne as [Hi Hrev]. apply dec_stable in Hi, Hrev. subst i r.
  replace (rev + Z.of_nat (S (length l))) with (rev + 1 + Z.of_nat (length l)) by lia.
  rewrite IH by lia. split; [by intros ->|by intros [=]].
Qed.
Lemma check_events_length {X} identity l rev r :
  0 ≤ rev → check_events (X := X) identity rev l = Ok r → r = rev + Z.of_nat (length l) ∧
    (l ≠ [] → r ≤ ty_max U64).
Proof.
  revert rev. induction l as [|e l IH]; intros rev Hr; simpl.
  { intros [= <-]. split; [lia|done]. }
  destruct (checked U64 (rev + 1)) as [n|] eqn:Hn; [|done]. apply checked_Some in Hn as [<- Hn].
  simpl. case_decide; [done|]. intros Hc. destruct (IH (rev + 1) ltac:(lia) Hc) as [-> Hm].
  split; [lia|]. intros _. destruct l; [simpl in *; int_lia|by apply Hm].
Qed.
Lemma validate_exact {X} initial requested :
  in_ty U64 (sync_revision initial) →
  (∀ c, requested = Some c → 0 ≤ Protocol.cursor_revision c) →
  validate_initial_sync (X := X) initial requested = Ok tt ↔ in_step requested initial.
Proof.
  intros Hrev Hc. unfold validate_initial_sync, in_step.
  destruct (sync_payload initial) as [snapshot|events].
  { case_decide as Hd; [naive_solver|]. apply Decidable.not_or in Hd as [H1 H2].
    apply dec_stable in H1, H2. by split. }
  destruct requested as [c|]; simpl; [|naive_solver]. specialize (Hc c eq_refl).
  case_decide as Hd; simpl.
  { split; [done|]. intros (c'&[= <-]&He&Hr&_). destruct Hd as [Hd|Hd]; [done|lia]. }
  apply Decidable.not_or in Hd as [He Hle]. apply dec_stable in He.
  destruct (check_events _ _ events) as [r|x] eqn:Hch; simpl.
  - destruct (check_events_length _ _ _ _ Hc Hch) as [-> Hm]. case_decide as Hr.
    + split; [done|]. intros (c'&[= <-]&_&Hs&_). by destruct Hr.
    + split; [|done]. intros _. exists c. split_and!; [done..|lia|].
      apply (check_events_exact (X := X)); [done|int_lia|]. done.
  - split; [done|]. intros (c'&[= <-]&_&Hs&Hcur).
    apply (check_events_exact (X := X)) in Hcur; [|done|int_lia]. congruence.
Qed.

(** ** What is granted *)

(** The revisions of the plane and of the request are [u64] values. *)
Definition plane_typed {C X} `{ControlPlane C X} (c : C) : Prop :=
  ∀ cursor initial, initial_sync c cursor = Ok initial → in_ty U64 (sync_revision initial).
Definition hello_typed (hello : Protocol.HandshakeRequest) : Prop :=
  ∀ c, Protocol.resume_cursor hello = Some c → in_ty U64 (Protocol.resume_revision c).
Lemma cached_typed hello c :
  hello_typed hello → cached_cursor hello = Some c → 0 ≤ Protocol.cursor_revision c.
Proof.
  unfold hello_typed, cached_cursor. destruct (Protocol.resume_cursor hello) as [x|]; [|done].
  intros Ht [= <-]. simpl. specialize (Ht x eq_refl). int_lia.
Qed.

(** The role that is granted for the one that is asked for. *)
Definition may_play (principal : Auth.Principal) (asked : Protocol.Role) (role : Auth.Role) : Prop :=
  map_role asked = Some role ∧ (role ∈ Auth.roles principal ∨ Auth.Admin ∈ Auth.roles principal).
(** The names of the permissions of a role. *)
Definition granted_permissions {C} (self : Server C) (role : Auth.Role) : list string :=
  permission_name <$> default [] (Auth.permissions_for role (policy self)).

Section handshake.
Context {C X : Type} `{ControlPlane C X}.
Implicit Types self : Server C.

Definition admits self (hello : Protocol.HandshakeRequest) (principal : Auth.Principal) : Prop :=
  readiness (status self) = Ready ∧
  (Auth.kind principal = Auth.DevelopmentOnly → authentication (config self) = DevelopmentAuth) ∧
  Protocol.request_protocol hello = Protocol.CURRENT_PROTOCOL_VERSION.
Record grants self hello principal now role initial out : Prop := {
  gr_hello : server_hello out = Protocol.mk_hello Protocol.CURRENT_PROTOCOL_VERSION
    (Protocol.desired_role hello) (granted_permissions self role)
    (capabilities_digest (config self)) (sync_engine initial) (sync_revision initial)
    (is_resume (sync_payload initial));
  gr_sync : outcome_sync out = sync_payload initial;
  gr_session : outcome_session out = session_new Protocol.CURRENT_PROTOCOL_VERSION
    (sync_engine initial) (sync_revision initial) (scoped_principal principal role) (policy self)
    (session_limits (config self)) now
}.

Lemma handshake_granted self hello principal now role initial out :
  plane_typed (control self) → hello_typed hello → admits self hello principal →
  may_play principal (Protocol.desired_role hello) role →
  initial_sync (control self) (cached_cursor hello) = Ok initial →
  in_step (cached_cursor hello) initial → grants self hello principal now role initial out →
  handshake self hello principal now = Ok out.
Proof.
  intros Hpt Hht (Hr&Hdev&Hproto) [Hrole Hplay] Hi Hin [Hh Hs Hse]. unfold handshake.
  rewrite decide_False by naive_solver. rewrite decide_False by naive_solver.
  rewrite decide_False by naive_solver. rewrite Hrole. simpl. rewrite decide_False by naive_solver.
  rewrite Hi. simpl.
  apply (validate_exact (X := X) initial (cached_cursor hello) (Hpt _ _ Hi)
    (λ c, cached_typed hello c Hht)) in Hin. rewrite Hin. simpl.
  destruct out. simpl in *. by subst.
Qed.
Lemma handshake_inv self hello principal now out :
  plane_typed (control self) → hello_typed hello →
  handshake self hello principal now = Ok out →
  admits self hello principal ∧ ∃ role initial,
    may_play principal (Protocol.desired_role hello) role ∧
    initial_sync (control self) (cached_cursor hello) = Ok initial ∧
    in_step (cached_cursor hello) initial ∧
    grants self hello principal now role initial out.
Proof.
  intros Hpt Hht. unfold handshake, admits, may_play.
  case_decide as Hr; [done|]. case_decide as Hdev; [done|]. case_decide as Hproto; [done|].
  destruct (map_role (Protocol.desired_role hello)) as [role|] eqn:Hrole; simpl; [|done].
  case_decide as Hden; [done|].
  destruct (initial_sync (control self) (cached_cursor hello)) as [initial|x] eqn:Hi; simpl; [|done].
  pose proof (validate_exact (X := X) initial (cached_cursor hello) (Hpt _ _ Hi)
    (λ c, cached_typed hello c Hht)) as Hv.
  destruct (validate_initial_sync initial (cached_cursor hello)) as [[]|x]; simpl; [|done].
  intros [= <-]. split; [split_and!; [done| |done]|].
  - intros Hk. destruct (decide (authentication (config self) = DevelopmentAuth)); [done|].
    by destruct Hdev.
  - exists role, initial. split_and!; [done| |done|by apply Hv|by split].
    destruct (decide (role ∈ Auth.roles principal)); [by left|]. right.
    destruct (decide (Auth.Admin ∈ Auth.roles principal)); [done|]. by destruct Hden.
Qed.

(** C20: The handshake grants a session exactly when the server is ready, the
    principal is allowed on it, the client speaks the current protocol and asks for
    a role that the principal has or administers, and the control plane offers a
    sync that leads from the cursor of the client to the state it names without a
    gap; what it grants is that sync, the permissions of that role and a fresh
    session of that role. *)
Theorem handshake_exact self hello principal now out :
  plane_typed (control self) → hello_typed hello →
  handshake self hello principal now = Ok out ↔
  admits self hello principal ∧ ∃ role initial,
    may_play principal (Protocol.desired_role hello) role ∧
    initial_sync (control self) (cached_cursor hello) = Ok initial ∧
    in_step (cached_cursor hello) initial ∧
    grants self hello principal now role initial out.
Proof.
  intros Hpt Hht. split; [by apply handshake_inv|].
  intros (Had&role&initial&Hrole&Hi&Hin&Hg). by eapply handshake_granted.
Qed.

(** Only what the role allows. *)
Lemma scoped_permission principal role (policy : Auth.Policy) p :
  p ∈ Auth.effective_permissions (scoped_principal principal role) policy ↔
  p ∈ default [] (Auth.permissions_for role policy).
Proof.
  rewrite Auth.elem_of_effective.
  assert (Hroles : ∀ r, r ∈ Auth.roles (scoped_principal principal role) ↔ r = role).
  { intros r. unfold scoped_principal. destruct (Auth.kind principal); simpl;
      rewrite elem_of_bs_of_list; apply list_elem_of_singleton. }
  setoid_rewrite Hroles. split.
  - intros (r&ps&->&->&Hp). done.
  - destruct (Auth.permissions_for role policy) as [ps|] eqn:Hps; [|by intros ?%not_elem_of_nil].
    intros Hp. by exists role, ps.
Qed.

(** An admitted command is authorized. *)
Lemma admitted_authorized command bytes now s s' x :
  session_step (OpAdmit command bytes now) s = (s', Ret x) →
  let p := Auth.required_permission (ControlWire.command_class (Protocol.payload command)) in
  p ∈ Auth.effective_permissions (Server.principal s) (session_policy s).
Proof.
  intros Hst p.
  assert (Hwp : wp (session_step (OpAdmit command bytes now)) (λ r _, ∀ x, r = Ret x →
    p ∈ Auth.effective_permissions (Server.principal s) (session_policy s)) s).
  { cbn [session_step]. unfold admit_command, ensure_connected, inbound_capacity.
    wp_run; try done. intros ? _.
    assert (Hc : admitted_class (Protocol.payload command) =
      ControlWire.command_class (Protocol.payload command)) by by destruct (Protocol.payload command).
    match goal with H : result_map_err _ _ = Ok _ |- _ => rewrite Hc in H; revert H end.
    unfold Auth.authorize. case_decide; [done|]. by case_decide. }
  unfold wp in Hwp. rewrite Hst in Hwp. by apply (Hwp x).
Qed.

(** A session never does more than the role it was granted: a command that it
    admits, whenever in its life, needs a permission that the role has, which the
    client was told of, and the role is one that the principal has or administers. *)
Theorem session_scoped self hello principal now out l command bytes now' s' x :
  handshake self hello principal now = Ok out →
  session_step (OpAdmit command bytes now') (session_after l (outcome_session out)) = (s', Ret x) →
  ∃ role, may_play principal (Protocol.desired_role hello) role ∧
    let p := Auth.required_permission (ControlWire.command_class (Protocol.payload command)) in
    p ∈ default [] (Auth.permissions_for role (policy self)) ∧
    permission_name p ∈ Protocol.hello_permissions (server_hello out).
Proof.
  unfold handshake, may_play. case_decide; [done|]. case_decide; [done|]. case_decide; [done|].
  destruct (map_role (Protocol.desired_role hello)) as [role|]; simpl; [|done].
  case_decide as Hden; [done|].
  destruct (initial_sync (control self) (cached_cursor hello)) as [initial|e]; simpl; [|done].
  destruct (validate_initial_sync initial (cached_cursor hello)) as [[]|e]; simpl; [|done].
  intros [= <-] Hst. exists role. simpl in Hst.
  set (s := session_new _ _ _ _ _ _ _) in Hst.
  pose proof (admitted_authorized _ _ _ _ _ _ Hst) as Hauth.
  split; [split; [done|]|].
  - destruct (decide (role ∈ Auth.roles principal)); [by left|]. right.
    destruct (decide (Auth.Admin ∈ Auth.roles principal)); [done|]. by destruct Hden.
  - pose proof (session_after_fixed l s) as Hfix. injection Hfix as _ _ _ Hpr Hpo _.
    rewrite Hpr, Hpo in Hauth. apply scoped_permission in Hauth. split; [done|].
    by apply list_elem_of_fmap_2.
Qed.
End handshake.

(** ** Witnesses *)

(** A control plane that retains the last event. *)
Definition demo_identity : Protocol.EngineIdentity := Protocol.mk_identity "engine" 1 "log".
Definition demo_event (rev : Z) : Protocol.EventMessage :=
  Protocol.mk_event_message (Protocol.mk_cursor demo_identity rev)
    (Protocol.EventPayload.RecordingChanged true).
Record DemoPlane := mk_demo_plane { demo_revision : Z }.
#[local] Instance demo_plane : ControlPlane DemoPlane unit := λ plane cursor,
  match cursor with
  | Some _ => Ok (mk_initial_sync demo_identity (demo_revision plane)
                    (SyncResume [demo_event (demo_revision plane)]))
  | None => Err tt
  end.
Definition demo_server : Server DemoPlane :=
  mk_server (server_config_new Production Required (V4 127 0 0 1) "digest") (mk_demo_plane 5)
    Auth.production (mk_status Healthy Ready).
Definition demo_hello : Protocol.HandshakeRequest :=
  Protocol.mk_handshake_request Protocol.CURRENT_PROTOCOL_VERSION "1.0" Protocol.Web Protocol.Audio
    (Some (Protocol.mk_resume (Protocol.mk_server "engine" "project" 1 "log") 4)).
Definition demo_admin : Auth.Principal := Auth.authenticated "u" "s" [Auth.Admin].
Definition demo_granted : option HandshakeOutcome :=
  match handshake demo_server demo_hello demo_admin 0 with Ok out => Some out | _ => None end.
Lemma demo_granted_Some : is_Some demo_granted.
Proof. apply (bool_decide_unpack _). by vm_compute. Defined.
Definition demo_outcome : HandshakeOutcome := is_Some_proj demo_granted_Some.
Lemma demo_outcome_eq : handshake demo_server demo_hello demo_admin 0 = Ok demo_outcome.
Proof. vm_compute. reflexivity. Qed.
Lemma handshake_exact_witness :
  admits demo_server demo_hello demo_admin ∧
  outcome_sync demo_outcome = SyncResume [demo_event 5] ∧
  Protocol.hello_permissions (server_hello demo_outcome) = ["view_status"; "control_audio"]%string.
Proof.
  assert (Hx := demo_outcome_eq). apply (handshake_exact demo_server) in Hx.
  - split; [exact (proj1 Hx)|]. split; vm_compute; reflexivity.
  - intros cursor initial. unfold initial_sync, demo_plane. destruct cursor; [|done].
    intros [= <-]. vm_compute. by split.
  - intros c [= <-]. vm_compute. by split.
Defined.
Definition demo_strip : Protocol.CommandMessage :=
  Protocol.mk_command Protocol.CURRENT_PROTOCOL_VERSION "1" "k" None None
    (Protocol.CommandPayload.SetInputAudioStrip 1 0 0 true false false 0).
Lemma session_scoped_witness :
  (∃ s', session_step (OpAdmit demo_strip 10 7) (session_after [OpCheck 5] (outcome_session demo_outcome)) =
     (s', Ret None)) ∧
  ∃ role, may_play demo_admin Protocol.Audio role ∧
    Auth.ControlAudio ∈ default [] (Auth.permissions_for role (policy demo_server)).
Proof.
  destruct (session_step (OpAdmit demo_strip 10 7) (session_after [OpCheck 5] (outcome_session demo_outcome)))
    as [s' r] eqn:Hst.
  assert (r = Ret None) as ->.
  { assert (Hr : (session_step (OpAdmit demo_strip 10 7)
      (session_after [OpCheck 5] (outcome_session demo_outcome))).2 = Ret None) by by vm_compute.
    by rewrite Hst in Hr. }
  split; [by exists s'|].
  destruct (session_scoped demo_server demo_hello demo_admin 0 demo_outcome [OpCheck 5] demo_strip 10 7
    s' None demo_outcome_eq Hst) as (role&Hrole&Hp&_).
  exists role. split; [exact Hrole|exact Hp].
Defined.
