(* ===== verification/Daemon.v ===== *)
(** How the daemon joins clients to the control service: [apps/freemixd/src/main.rs]
    and the session loop of [apps/freemixd/src/non_native_sessions.rs], in the parts
    that decide.

    [ControlHandle] makes the control service the [ControlPlane] of the server.
    [runtime_handshake] is [Runtime::handshake] up to the queueing of the response;
    the state of [Server] stands for the shared control.  Sockets, encoding and the
    clock are outside: the clock is an argument. *)
From S2P Require Import Prelude BTree Types ControlWire Control Server.
From S2P Require Command Engine Auth Protocol.
#[local] Open Scope Z_scope.

(** A fallible call whose result is matched on. *)
Definition st_catch {S E E' B} (m : stm S E B) : stm S E' (result E B) := λ s,
  match m s with
  | (s, Ret b) => (s, Ret (Ok b))
  | (s, Throw e) => (s, Ret (Err e))
  | (s, Panic) => (s, Panic)
  end.

(** ** The control plane *)

Section daemon.
Context {A : Type} `{AuthorizationHook A}.
Abbreviation service := (ControlService A).

#[global] Instance ControlHandle : ControlPlane service Empty_set := λ control cursor,
  let payload :=
    match cursor with
    | Some cursor =>
        match resume cursor control with
        | ResumeEvents events => SyncResume events
        | ResumeSnapshot record => SyncSnapshot (record_snapshot record)
        end
    | None => SyncSnapshot (record_snapshot (snapshot control))
    end in
  let d := diagnostics control in
  Ok (mk_initial_sync (diagnosed_engine d) (diagnosed_revision d) payload).

(** ** Identities and responses *)

(** [control_server_identity], with the project identifier as text. *)
Definition control_server_identity (control : service) (project_id : string) :
    Protocol.ServerIdentity :=
  let e := diagnosed_engine (diagnostics control) in
  Protocol.mk_server (Protocol.engine_id e) project_id (Protocol.state_epoch e) (Protocol.log_id e).
Definition server_identity (hello : Protocol.ServerHello) (project_id : string) :
    Protocol.ServerIdentity :=
  let e := Protocol.hello_engine hello in
  Protocol.mk_server (Protocol.engine_id e) project_id (Protocol.state_epoch e) (Protocol.log_id e).
Definition event_cursor (cursor : Protocol.ResumeCursor) : Protocol.EventCursor :=
  let server := Protocol.resume_server cursor in
  Protocol.mk_cursor (Protocol.mk_identity (Protocol.server_engine_id server)
    (Protocol.server_state_epoch server) (Protocol.server_log_id server))
    (Protocol.resume_revision cursor).

(** The request as the server will see it, and the outcome it announces. *)
Definition current_handshake (request : Protocol.HandshakeRequest) (control : service)
    (project_id : string) : Protocol.HandshakeRequest * Protocol.HandshakeOutcome :=
  let d := diagnostics control in
  let e := diagnosed_engine d in
  let server := Protocol.mk_server (Protocol.engine_id e) project_id (Protocol.state_epoch e)
                  (Protocol.log_id e) in
  let available_from_revision :=
    default (saturating U64 (diagnosed_revision d + 1)) (oldest_retained_revision d) in
  let outcome := Protocol.choose_handshake_outcome server (diagnosed_revision d)
                   available_from_revision (Protocol.resume_cursor request) in
  let resume_cursor :=
    match outcome with
    | Protocol.OutcomeResume _ => Protocol.resume_cursor request
    | _ => None
    end in
  (Protocol.mk_handshake_request (Protocol.request_protocol request)
     (Protocol.request_build request) (Protocol.request_client_type request)
     (Protocol.desired_role request) resume_cursor, outcome).
Definition reconciled_handshake_outcome (outcome : Protocol.HandshakeOutcome) (sync : SyncPayload) :
    Protocol.HandshakeOutcome :=
  match outcome, sync with
  | Protocol.OutcomeResume _, SyncSnapshot _ =>
      Protocol.OutcomeSnapshot Protocol.HistoryUnavailable
  | _, _ => outcome
  end.
Definition handshake_response (hello : Protocol.ServerHello) (server : Protocol.ServerIdentity)
    (outcome : Protocol.HandshakeOutcome) : Protocol.HandshakeResponse :=
  Protocol.mk_handshake_response (Protocol.hello_protocol hello)
    (Protocol.hello_granted_role hello) (Protocol.hello_permissions hello)
    (Protocol.mk_capability_summary (Protocol.hello_capabilities_digest hello) 0 0 0 0)
    server (Protocol.hello_current_revision hello) outcome.
Definition rejected_handshake_response (server : Server service) (project_id : string)
    (hello : Protocol.HandshakeRequest) (code message : string) : Protocol.HandshakeResponse :=
  Protocol.mk_handshake_response Protocol.CURRENT_PROTOCOL_VERSION
    (Protocol.desired_role hello) []
    (Protocol.mk_capability_summary (capabilities_digest (config server)) 0 0 0 0)
    (control_server_identity (control server) project_id)
    (diagnosed_revision (diagnostics (control server)))
    (Protocol.OutcomeRejected (Protocol.mk_error code message [] false)).
Definition make_retryable (response : Protocol.HandshakeResponse) : Protocol.HandshakeResponse :=
  Protocol.mk_handshake_response (Protocol.response_protocol response)
    (Protocol.granted_role response) (Protocol.permissions response)
    (Protocol.capabilities response) (Protocol.server response)
    (Protocol.current_revision response)
    (match Protocol.response_outcome response with
     | Protocol.OutcomeRejected e => Protocol.OutcomeRejected (Protocol.mk_error
         (Protocol.error_code e) (Protocol.error_message e) (Protocol.error_fields e) true)
     | outcome => outcome
     end).

Definition readiness_name (r : ReadinessState) : string :=
  match r with
  | Starting => "starting" | Ready => "ready" | Draining => "draining" | NotHealthy => "unhealthy"
  end.
Definition role_name (r : Protocol.Role) : string :=
  match r with
  | Protocol.Viewer => "Viewer" | Protocol.Graphics => "Graphics" | Protocol.Audio => "Audio"
  | Protocol.Replay => "Replay" | Protocol.Operator => "Operator" | Protocol.Admin => "Admin"
  end.
Definition handshake_code (error : HandshakeError Empty_set) : string :=
  match error with
  | HandshakeProtocolMismatch => "protocol_mismatch"
  | NotReady _ => "not_ready"
  | DevelopmentPrincipalDenied | RoleDenied _ => "permission_denied"
  | InvalidControlSync => "invalid_control_sync"
  | ControlFailed never => match never with end
  end.
(** [HandshakeError::fmt]. *)
Definition handshake_message (error : HandshakeError Empty_set) : string :=
  match error with
  | NotReady state => ("server is not ready: " +:+ readiness_name state)%string
  | HandshakeProtocolMismatch => "client did not request the exact current protocol"
  | DevelopmentPrincipalDenied => "development principal is disabled"
  | RoleDenied role => ("requested role " +:+ role_name role +:+ " is denied")%string
  | ControlFailed never => match never with end
  | InvalidControlSync => "control plane returned an inconsistent initial sync"
  end.
Definition subscribe_message (error : SubscribeError) : string :=
  match error with
  | LimitReached => "subscriber limit reached"
  | IdentifierExhausted => "subscriber identifier space exhausted"
  end.

(** ** The handshake of a peer *)

(** What the peer holds once its handshake has been answered. *)
Record Established := mk_established {
  est_response : Protocol.HandshakeResponse;
  est_initial_sync : list Protocol.WireMessage.t;
  est_session : Session;
  est_identity : Protocol.ServerIdentity;
  est_subscription : SubscriberId;
  est_audio_meters : bool
}.
Inductive PeerHandshake :=
  | Refused (response : Protocol.HandshakeResponse)
  | SyncTooLong
  | Accepted (e : Established).
Definition set_control (x : service) (self : Server service) : Server service :=
  mk_server (config self) x (policy self) (status self).
Definition sync_messages (sync : SyncPayload) : list Protocol.WireMessage.t :=
  match sync with
  | SyncSnapshot snapshot => [Protocol.WireMessage.Snapshot snapshot]
  | SyncResume events => Protocol.WireMessage.Event <$> events
  end.

Definition runtime_handshake (principal : Auth.Principal) (is_web : bool)
    (request : Protocol.HandshakeRequest) (project_id : string) (now_ms : Z) :
    stm (Server service) Empty_set PeerHandshake :=
  self ← st_get;
  let '(hello, outcome) := current_handshake request (control self) project_id in
  match handshake self hello principal now_ms with
  | Err error =>
      mret (Refused (rejected_handshake_response self project_id hello (handshake_code error)
        (handshake_message error)))
  | Ok h =>
      subscription ← st_catch (st_zoom control set_control subscribe);
      self ← st_get;
      match subscription with
      | Ok subscription =>
          let identity := server_identity (server_hello h) project_id in
          let response := handshake_response (server_hello h) identity
            (reconciled_handshake_outcome outcome (outcome_sync h)) in
          let initial_sync := sync_messages (outcome_sync h) in
          let sync_limit :=
            Nat.max (retained_events (diagnosed_limits (diagnostics (control self)))) 1 in
          if decide (sync_limit < length initial_sync)%nat then
            _ ← st_put (set_control (unsubscribe subscription (control self)).1 self);
            mret SyncTooLong
          else
            mret (Accepted (mk_established response initial_sync (outcome_session h) identity
               subscription
               (negb is_web && bool_decide (Protocol.request_client_type request = Protocol.Studio))))
      | Err error =>
          mret (Refused (make_retryable (rejected_handshake_response self project_id hello
            "unavailable" (subscribe_message error))))
      end
  end.

(** [record_heartbeat] of the daemon; its errors are text. *)
Definition peer_heartbeat (control : service) (server : Protocol.ServerIdentity)
    (heartbeat : Protocol.HeartbeatMessage) (now_ms : Z) : stm Session (string + SessionError) Z :=
  _ ← st_require (Protocol.heartbeat_server heartbeat = server)
        (inl "heartbeat server identity does not match the session"%string);
  last_applied ← (match Protocol.last_applied heartbeat with
    | Some cursor =>
        _ ← st_require (Protocol.resume_server cursor = server)
              (inl "heartbeat cursor identity does not match the session"%string);
        _ ← st_require (¬ diagnosed_revision (diagnostics control) < Protocol.resume_revision cursor)
              (inl "heartbeat cursor is ahead of the server revision"%string);
        mret (Some (event_cursor cursor))
    | None => mret None
    end);
  _ ← st_map_err inr (record_heartbeat
        (mk_heartbeat last_applied (Protocol.sent_at_ms heartbeat)) now_ms);
  mret now_ms.
End daemon.
