(* ===== verification/EngineEffect.v ===== *)
(** What the mutation of each command of the engine changes and which event it
    emits ([mutation_effect]): a switching or overlay command leaves the roster, the
    stinger slots, the streams and the recording alone, a renaming changes one
    name, and so on.  [command_effect] reads this off a decision of the engine.

    The outputs that overlays are included in stay outputs of the show
    ([outputs_known]), on the desired and on the realized switcher, through every
    mutation and every frame: the mutation checks what it includes, and nothing
    else adds to it. *)
From S2P Require Import Prelude BTree Types EngineShow Engine EngineSim EngineRun.
From S2P Require Command Overlay SwitcherTypes Switcher Settle EngineSafety.
Import SwitcherTypes.
#[local] Open Scope Z_scope.

(** ** Frames *)

Record same_roster (s s' : ShowState) : Prop := {
  rs_name : show_name s' = show_name s;
  rs_inputs : show_inputs s' = show_inputs s;
  rs_names : input_names s' = input_names s;
  rs_outputs : outputs s' = outputs s
}.
Record same_lines (d d' : Switcher.SwitcherState) : Prop := {
  sl_streams : Switcher.streams d' = Switcher.streams d;
  sl_running : Switcher.streams_running d' = Switcher.streams_running d;
  sl_recording : Switcher.recording_desired d' = Switcher.recording_desired d
}.
#[global] Instance same_lines_refl : Reflexive same_lines.
Proof. by split. Qed.
#[global] Instance same_lines_trans : Transitive same_lines.
Proof. intros a b c [] []. split; congruence. Qed.
#[global] Instance same_roster_refl : Reflexive same_roster.
Proof. by split. Qed.

(** The commands that change the stinger slots. *)
Definition slot_command (c : EngineCommand.t) : bool :=
  match c with
  | EngineCommand.ConfigureStinger _ _ | EngineCommand.RemoveStinger _ => true
  | _ => false
  end.
(** What an accepted command does to the show, and the events it emits. *)
Definition effect (c : EngineCommand.t) (s s' : ShowState) (evs : list EngineEvent.t) : Prop :=
  let d := desired_switcher s in
  let d' := desired_switcher s' in
  match c with
  | EngineCommand.StreamStart _ | EngineCommand.StreamStop _ =>
      ∃ l x, evs = [EngineEvent.StreamsChanged l] ∧ s' = set_desired (Switcher.set_running x d) s
  | EngineCommand.RecordStart | EngineCommand.RecordStop =>
      ∃ b, s' = set_desired (Switcher.set_recording b d) s ∧
        evs = if decide (Switcher.recording_desired d ≠ b)
              then [EngineEvent.RecordingChanged b] else []
  | EngineCommand.RenameInput input name =>
      ∃ k, evs = [EngineEvent.InputRenamed input name] ∧
        position_of input (show_inputs s) = Some k ∧ validate_input_name name = Ok tt ∧
        name_taken k name (input_names s) = false ∧ is_Some (input_names s !! k) ∧
        s' = mk_show (show_name s) (show_inputs s) (<[k := name]> (input_names s)) (outputs s)
               (input_audio_strips s) d
  | EngineCommand.ReorderInputs l =>
      ∃ names, evs = [EngineEvent.InputOrderChanged l] ∧
        validate_input_order (show_inputs s) l = Ok tt ∧ mapM (input_name s) l = Some names ∧
        s' = mk_show (show_name s) l names (outputs s) (input_audio_strips s)
               (Switcher.set_inputs l d)
  | _ =>
      evs = [EngineEvent.DesiredSwitcherChanged c] ∧ same_roster s s' ∧ same_lines d d' ∧
      (slot_command c = false → Switcher.stingers d' = Switcher.stingers d)
  end.

(** ** Methods of the desired switcher *)

(** A method that keeps the streams, the recording and, for [b], the stinger slots. *)
Definition tame (b : bool) {E A} (s : Switcher.SwitcherState) (_ : outcome E A)
    (s' : Switcher.SwitcherState) : Prop :=
  same_lines s s' ∧ (b = true → Switcher.stingers s' = Switcher.stingers s).
Definition is_line_command (c : SwitcherCommand.t) : bool :=
  match c with
  | SwitcherCommand.SetStreamRunning _ _ | SwitcherCommand.SetRecordingDesired _ => true
  | _ => false
  end.
Lemma apply_tame c s :
  is_line_command c = false → wp (Switcher.apply c) (tame true s) s.
Proof.
  intros Hc.
  assert (Hstart : ∀ k d, wp (Switcher.start_transition k d) (tame true s) s).
  { intros k d. unfold Switcher.start_transition. cbn [Switcher.start_transition_fuel].
    unfold Switcher.begin_transition, Switcher.stinger_playback_decision,
      Switcher.apply_stinger_fallback, Switcher.complete_take, Switcher.stinger.
    destruct k; wp_run; by simplify_eq. }
  destruct c; try done; simpl.
  3, 4: unfold Switcher.require_idle; wp_step; wp_step; wp_step; cbn beta iota;
    wp_step; intros; [|done]; cbn beta iota; apply wp_bind, wp_require; intros; [apply Hstart|done].
  all: unfold Switcher.start_t_bar, Switcher.set_t_bar_position, Switcher.commit_t_bar,
    Switcher.cancel_t_bar, Switcher.take_overlay, Switcher.update_overlay, Switcher.with_source,
    Switcher.overlay_off, Switcher.configure_overlay_transition,
    Switcher.configure_overlay_appearance, Switcher.queue_overlay, Switcher.take_next_overlay,
    Switcher.advance_queue, Switcher.set_overlay_output_inclusion,
    Switcher.overlay, Switcher.put_overlay, Switcher.take_t_bar,
    Switcher.complete_take, Switcher.require_idle, Switcher.require_input.
  all: wp_run; by simplify_eq.
Qed.
Lemma configure_tame n d s : wp (Switcher.configure_stinger n d) (tame false s) s.
Proof.
  unfold Switcher.configure_stinger, Switcher.require_input, Switcher.stinger, Switcher.put_stinger.
  wp_run; by simplify_eq.
Qed.
Lemma preload_tame n b s : wp (Switcher.preload_stinger n b) (tame false s) s.
Proof.
  unfold Switcher.preload_stinger, Switcher.stinger, Switcher.put_stinger. wp_run; by simplify_eq.
Qed.
Lemma remove_tame n s : wp (Switcher.remove_stinger n) (tame false s) s.
Proof.
  unfold Switcher.remove_stinger, Switcher.stinger, Switcher.put_stinger. wp_run; by simplify_eq.
Qed.

(** ** Mutations *)

(** A draft that differs from [show] by tame changes of the desired switcher. *)
Definition tamed (b : bool) (show : ShowState) (evs : list EngineEvent.t) {A}
    (r : outcome Rejection A) (s : ShowState * list EngineEvent.t) : Prop :=
  (∀ a, r = Ret a → s.2 = evs) ∧ same_roster show s.1 ∧
  tame b (desired_switcher show) r (desired_switcher s.1).
Lemma tamed_done b {A B} (a : A) (r : outcome Rejection B) show evs s :
  tamed b show evs (Ret a) s → tamed b show evs r s.
Proof. intros (He&?&?&?). split; [by intros; apply (He a)|]. done. Qed.
Lemma desired_tamed b {A} (m : stm Switcher.SwitcherState SwitcherError A) show evs s :
  tamed b show evs (Ret tt) s →
  (∀ d, wp m (tame b d) d) →
  wp (desired m) (tamed b show evs) s.
Proof.
  intros (He&Hr&Hl&Hs) Hm. destruct s as [sh l]. apply wp_desired.
  eapply wp_mono; [apply Hm|]. intros r d [Hl' Hs']. split; [by intros; apply (He tt)|]. simpl in *.
  destruct Hr. split; [done|]. split; [by etrans|]. intros Hb. rewrite Hs', Hs by done. done.
Qed.
Lemma tamed_bind b {A B} (m : draft_stm A) (f : A → draft_stm B) show evs s :
  wp m (tamed b show evs) s →
  (∀ a s', tamed b show evs (Ret tt) s' → wp (f a) (tamed b show evs) s') →
  wp (m ≫= f) (tamed b show evs) s.
Proof.
  intros Hm Hf. apply wp_bind. eapply wp_mono; [exact Hm|].
  intros [a|e|] s' Hs'; [|by destruct Hs' as (?&?&?&?)..].
  by eapply Hf, tamed_done.
Qed.

(** Symbolic execution that only follows the frame. *)
Ltac tame_step :=
  lazymatch goal with
  | |- wp (mbind _ _) (tamed _ _ _) _ => apply tamed_bind; [|intros ? ? ?]
  | |- wp (st_lift ?r) _ _ => apply wp_lift; intros; by eapply tamed_done
  | |- wp (st_expect ?r) _ _ => apply wp_expect; intros; by eapply tamed_done
  | |- wp (st_require _ _) _ _ => apply wp_require; intros; by eapply tamed_done
  | |- wp (match ?x with _ => _ end) _ _ => destruct x
  | |- wp _ _ _ => by eapply tamed_done
  end.
Ltac tame_run := repeat (cbn beta iota; tame_step).

Lemma stinger_tame n s : wp (Switcher.stinger (E := SwitcherError) n) (tame true s) s.
Proof. unfold Switcher.stinger. wp_run; by simplify_eq. Qed.
Lemma decision_tame n s :
  wp (Switcher.stinger_playback_decision (E := SwitcherError) n) (tame true s) s.
Proof. unfold Switcher.stinger_playback_decision, Switcher.stinger. wp_run; by simplify_eq. Qed.

Lemma switching_tamed c show evs s :
  tamed true show evs (Ret tt) s → wp (switching_command c) (tamed true show evs) s.
Proof.
  intros Hs. destruct c; cbn [switching_command]; repeat (cbn beta iota; first
    [ apply desired_tamed; [done|intros; first [apply decision_tame|apply stinger_tame]]
    | tame_step ]).
Qed.
Lemma switching_routes c s :
  wp (switching_command c) (λ r _, ∀ c', r = Ret (Some c') → is_line_command c' = false) s.
Proof.
  destruct c; cbn [switching_command]; try done;
    try (apply wp_bind, wp_lift; [|done]; intros [] _; by intros ? [= <-]);
    try (by intros ? [= <-]).
  apply wp_bind, wp_lift; [|done]. intros [] _. cbn beta iota. apply wp_bind.
  eapply (wp_mono _ (λ _ _, True)); [done|]. intros [[|f|]|e|] s' _; try done.
  - apply wp_bind. eapply (wp_mono _ (λ _ _, True)); [done|]. intros [o|e|] s1 _; try done.
    apply wp_bind, wp_expect; [|done]. intros d _. cbn beta iota.
    apply wp_bind, wp_require; [|done]. intros _. by intros ? [= <-].
  - destruct f; by intros ? [= <-].
Qed.
Lemma wp_conj {S E A} (m : stm S E A) (Q Q' : outcome E A → S → Prop) s :
  wp m Q s → wp m Q' s → wp m (λ r s', Q r s' ∧ Q' r s') s.
Proof. done. Qed.

Section effects.
Context (show : ShowState) (n : Z).
Definition has_effect (c : EngineCommand.t) (r : outcome Rejection EngineAcceptance)
    (s : ShowState * list EngineEvent.t) : Prop :=
  ∀ a, r = Ret a → effect c show s.1 s.2.

(** The end of a mutation whose draft is tame so far. *)
Lemma accept_effect b c s :
  (∀ s' evs, effect c show s' evs ↔ evs = [EngineEvent.DesiredSwitcherChanged c] ∧
    same_roster show s' ∧ same_lines (desired_switcher show) (desired_switcher s') ∧
    (slot_command c = false →
     Switcher.stingers (desired_switcher s') = Switcher.stingers (desired_switcher show))) →
  (slot_command c = false → b = true) →
  tamed b show [] (Ret tt) s →
  wp (_ ← push_event (EngineEvent.DesiredSwitcherChanged c); mret (mk_acceptance n)) (has_effect c) s.
Proof.
  intros He Hb (Hev&Hr&Hl&Hs). destruct s as [sh l]. apply wp_bind, wp_push_event, wp_ret.
  intros a _. apply He. simpl in *. rewrite (Hev tt eq_refl).
  split_and!; [done..|]. intros Hc. apply Hs. by apply Hb.
Qed.
Lemma effect_bind {B} b c (m : draft_stm B) (f : B → draft_stm EngineAcceptance) s :
  wp m (tamed b show []) s →
  (∀ a s', tamed b show [] (Ret tt) s' → wp (f a) (has_effect c) s') →
  wp (m ≫= f) (has_effect c) s.
Proof.
  intros Hm Hf. apply wp_bind. eapply wp_mono; [exact Hm|]. intros [a|e|] s' Hs'; [|done..].
  by eapply Hf, tamed_done.
Qed.
Lemma tamed_start b : tamed b show [] (Ret tt) (show, []).
Proof. split; [done|]. split; [done|]. by split. Qed.
#[local] Hint Resolve tamed_start : core.

Lemma switching_effect c :
  is_switching c = true →
  wp (mutation_apply (mk_mutation c n)) (has_effect c) (show, []).
Proof.
  intros Hc.
  assert (wp (c' ← switching_command c;
      _ ← (match c' with Some c' => _ ← desired (Switcher.apply c'); mret tt | None => mret tt end);
      _ ← push_event (EngineEvent.DesiredSwitcherChanged c); mret (mk_acceptance n))
     (has_effect c) (show, [])); [|by destruct c].
  apply wp_bind. eapply wp_mono;
    [apply wp_conj; [apply (switching_tamed c show [] (show, [])); done|apply switching_routes]|].
  intros [c'|e|] s [Ht Hl]; [|done..].
  apply (effect_bind true).
  - destruct c' as [c'|]; [|by eapply wp_ret, tamed_done].
    apply tamed_bind; [|intros; by eapply wp_ret, tamed_done].
    apply desired_tamed; [by eapply tamed_done|]. intros d. apply apply_tame. by apply Hl.
  - intros _ s' Hs'. apply (accept_effect true); [by destruct c|done|done].
Qed.
Lemma overlay_effect c :
  is_overlay_command c = true →
  wp (mutation_apply (mk_mutation c n)) (has_effect c) (show, []).
Proof.
  intros Hc. assert (wp (apply_overlay_mutation c n) (has_effect c) (show, [])); [|by destruct c].
  unfold apply_overlay_mutation. wp_step. wp_step. cbn beta iota.
  apply (effect_bind true).
  { destruct c; try (apply wp_ret; apply tamed_start). apply wp_require; intros; by eapply tamed_done, tamed_start. }
  intros _ s Hs. unfold is_overlay_command in Hc.
  destruct (overlay_command c) as [c'|] eqn:Ho; [|done].
  apply wp_bind, wp_expect; [|done]. intros c2 [= <-]. cbn beta iota.
  apply (effect_bind true).
  - apply desired_tamed; [done|]. intros d. apply apply_tame. by destruct c; simplify_eq/=.
  - intros _ s' Hs'. apply (accept_effect true); [by destruct c|done|done].
Qed.
Lemma slot_effect c :
  slot_command c = true →
  wp (mutation_apply (mk_mutation c n)) (has_effect c) (show, []).
Proof.
  intros Hc. assert (wp (apply_stinger_mutation c n) (has_effect c) (show, [])); [|by destruct c].
  unfold apply_stinger_mutation. wp_step. wp_step. cbn beta iota.
  apply wp_bind, wp_require; [intros _|done]. cbn beta iota.
  apply (effect_bind false).
  2: { intros _ s' Hs'. apply (accept_effect false); [by destruct c|by rewrite Hc|done]. }
  destruct c; try done.
  - apply tamed_bind; [apply desired_tamed; [done|intros; apply configure_tame]|].
    intros _ s Hs. cbn beta iota. destruct (preload descriptor); [|by apply wp_ret].
    apply tamed_bind; [apply desired_tamed; [done|intros; apply preload_tame]|]. by intros.
  - apply wp_unwrap, wp_on_show. unfold show_remove_stinger, on_desired. apply wp_zoom.
    eapply wp_mono; [apply remove_tame|]. intros r d [Hl _].
    destruct r as [u|[]|]; (split; [done|]; split; [done|]; by split).
Qed.
Lemma stream_effect target running :
  let c := if running : bool then EngineCommand.StreamStart target
           else EngineCommand.StreamStop target in
  wp (apply_stream_mutation target running n) (has_effect c) (show, []).
Proof.
  intros c. unfold apply_stream_mutation. apply wp_bind, wp_desired.
  unfold Switcher.set_stream_running. wp_step. wp_step. cbn beta iota.
  apply wp_bind, wp_require; [intros _|done]. cbn beta iota. apply wp_bind.
  assert (Hend : ∀ x, wp (
    '(state, _) ← st_get; streams ← st_expect (desired_stream_statuses state);
    _ ← push_event (EngineEvent.StreamsChanged streams); mret (mk_acceptance n)) (has_effect c)
    (set_desired (Switcher.set_running x (desired_switcher show)) show, [])).
  { intros x. wp_step. wp_step. cbn beta iota. apply wp_bind, wp_expect; [|done].
    intros l _. cbn beta iota. apply wp_bind, wp_push_event, wp_ret. intros a _.
    unfold c. destruct running; by eexists _, _. }
  destruct running; apply wp_modify; cbn beta iota; apply wp_ret; apply Hend.
Qed.
Lemma recording_effect (b : bool) :
  let c := if b then EngineCommand.RecordStart else EngineCommand.RecordStop in
  wp (apply_recording_mutation b n) (has_effect c) (show, []).
Proof.
  intros c. unfold apply_recording_mutation. wp_step. wp_step. cbn beta iota.
  apply wp_bind, wp_desired. unfold Switcher.set_recording_desired. wp_step. wp_step. cbn beta iota.
  case_decide as Hb.
  - apply wp_ret. cbn beta iota. rewrite decide_False by congruence.
    apply wp_bind, wp_ret, wp_ret. intros a _. simpl.
    assert (∃ b', set_desired (desired_switcher show) show =
        set_desired (Switcher.set_recording b' (desired_switcher show)) show ∧
      [] = if decide (Switcher.recording_desired (desired_switcher show) ≠ b')
           then [EngineEvent.RecordingChanged b'] else []) as Hx.
    { exists b. rewrite decide_False by congruence. split; [|done]. f_equal.
      rewrite <-Hb. by destruct (desired_switcher show). }
    unfold c. by destruct b.
  - apply wp_bind, wp_modify, wp_ret. cbn beta iota. rewrite decide_True by congruence.
    apply wp_bind, wp_push_event, wp_ret. intros a _. simpl.
    assert (∃ b', set_desired (Switcher.set_recording b (desired_switcher show)) show =
        set_desired (Switcher.set_recording b' (desired_switcher show)) show ∧
      [EngineEvent.RecordingChanged b] =
        if decide (Switcher.recording_desired (desired_switcher show) ≠ b')
        then [EngineEvent.RecordingChanged b'] else []) as Hx.
    { exists b. by rewrite decide_True by done. }
    unfold c. by destruct b.
Qed.
Lemma rename_effect input name :
  wp (apply_rename_mutation input name n) (has_effect (EngineCommand.RenameInput input name)) (show, []).
Proof.
  unfold apply_rename_mutation. apply wp_bind, wp_map_err, wp_on_show. unfold rename_input.
  wp_step. wp_step. cbn beta iota.
  apply wp_bind, wp_lift; [intros k Hk%ok_or_Ok|done]. cbn beta iota.
  apply wp_bind, wp_lift; [intros [] Hv|done]. cbn beta iota.
  apply wp_bind, wp_require; [intros Ht|done]. cbn beta iota.
  apply wp_bind, wp_expect; [intros old Hold|done]. cbn beta iota.
  apply wp_put. cbn beta iota. apply wp_bind, wp_push_event, wp_ret.
  intros a _. exists k. split_and!; by eauto.
Qed.
Lemma reorder_effect l :
  wp (apply_reorder_mutation l n) (has_effect (EngineCommand.ReorderInputs l)) (show, []).
Proof.
  unfold apply_reorder_mutation. apply wp_bind, wp_map_err, wp_on_show. unfold show_reorder_inputs.
  wp_step. wp_step. cbn beta iota. apply wp_bind.
  assert (Hsw : ∀ d' u, Switcher.reorder_inputs l (desired_switcher show) = (d', Ret u) →
    d' = Switcher.set_inputs l (desired_switcher show)).
  { unfold Switcher.reorder_inputs, mbind, stm_bind, st_get, st_lift, st_put.
    destruct (validate_input_order _ _); by intros ?? [= <-]. }
  destruct (Switcher.reorder_inputs l (desired_switcher show)) as [d' [u|x|]]; [|done..].
  apply wp_ret. cbn beta iota. rewrite (Hsw _ _ eq_refl).
  apply wp_bind, wp_lift; [intros [] Hv|done]. cbn beta iota.
  apply wp_bind, wp_expect; [intros names Hn|done]. cbn beta iota.
  apply wp_put. cbn beta iota. apply wp_bind, wp_push_event, wp_ret.
  intros a _. exists names. by split_and!.
Qed.
Lemma strip_effect input strip :
  wp (apply_strip_mutation input strip n) (has_effect (EngineCommand.SetInputAudioStrip input strip))
    (show, []).
Proof.
  unfold apply_strip_mutation. do 3 (apply wp_bind, wp_require; [intros _|done]; cbn beta iota).
  apply wp_bind, wp_map_err, wp_on_show. unfold set_input_audio_strip. wp_step. wp_step.
  cbn beta iota. apply wp_bind, wp_require; [intros _|done]. cbn beta iota. apply wp_put.
  cbn beta iota. apply wp_bind, wp_push_event, wp_ret. intros a _. by split_and!.
Qed.
Lemma fade_effect active d :
  wp (apply_fade_to_black_mutation active d n) (has_effect (EngineCommand.FadeToBlack active d))
    (show, []).
Proof.
  unfold apply_fade_to_black_mutation. apply wp_bind, wp_lift; [intros _ _|done]. cbn beta iota.
  apply wp_bind, wp_on_show. unfold on_desired. apply wp_zoom, wp_modify. cbn beta iota.
  apply wp_bind, wp_push_event, wp_ret. intros a _. by split_and!.
Qed.

(** What a mutation that succeeds changes and emits. *)
Lemma mutation_effect c :
  wp (mutation_apply (mk_mutation c n)) (has_effect c) (show, []).
Proof.
  destruct c; try (by apply switching_effect); try (by apply overlay_effect);
    try (by apply slot_effect).
  - apply reorder_effect.
  - apply rename_effect.
  - apply strip_effect.
  - apply fade_effect.
  - apply (stream_effect target true).
  - apply (stream_effect target false).
  - apply (recording_effect true).
  - apply (recording_effect false).
Qed.
End effects.

(** ** Decisions *)

(** The events of an accepted command, as its mutation emitted them. *)
Lemma command_effect e env now cs o a :
  Command.receipts (commands e) !! Command.idempotency_key env = None →
  decide_command e env now = (cs, o) → accepted (Command.receipt o) = Some a →
  effect (Command.command env) (show e) (Command.state cs)
    (Command.ev_payload <$> Command.events o).
Proof.
  intros Hfresh Hd Ha. destruct (Command.apply_spec _ _ _ _ _ _ Hfresh Hd) as (p&Hp&Hcom).
  destruct (Command.commit_decision _ _ _ _ _ _ _ Hp Hcom) as (_&_&_&Ho).
  destruct (Command.receipt o) as [cid rev result|cid rej cur]; [|done].
  destruct Ho as (_&_&_&_&_&_&(mut&Hprep&Hmut)&_).
  assert (mut = run_mutation (mk_mutation (Command.command env) (frame_cursor e))) as ->.
  { unfold prepare_mutation in Hprep. destruct (transition_in_flight e) as [k|]; [|congruence].
    destruct (allowed_in_flight _); congruence. }
  pose proof (mutation_effect (show e) (frame_cursor e) (Command.command env)) as Hm.
  unfold run_mutation in Hmut. change (Command.state (commands e)) with (show e) in Hmut.
  unfold wp in Hm.
  destruct (mutation_apply (mk_mutation (Command.command env) (frame_cursor e)) (show e, []))
    as [[s evs] [x|rej|]]; [|done..].
  injection Hmut as <- <- _. by apply (Hm x).
Qed.

Definition includes (X : list OutputId) (d : Switcher.SwitcherState) : Prop :=
  Forall (λ o, Overlay.included_outputs o ⊆ X) (Switcher.overlays d).
Definition outputs_known (s : ShowState) : Prop := includes (outputs s).*1 (desired_switcher s).

(** ** The switcher *)

Lemma includes_insert X i o o' d s :
  includes X s → Switcher.overlays s !! i = Some o →
  Overlay.included_outputs o' = Overlay.included_outputs o →
  Switcher.overlays d = <[i := o']> (Switcher.overlays s) → includes X d.
Proof.
  intros Hs Ho Hi Hd. unfold includes. rewrite Hd. apply Forall_insert; [done|].
  rewrite Hi. by apply (Forall_lookup_1 _ _ _ _ Hs Ho).
Qed.
Lemma take_includes src o : Overlay.included_outputs (Overlay.request_take src o) = Overlay.included_outputs o.
Proof. unfold Overlay.request_take. by destruct (Overlay.transition o). Qed.
Lemma off_includes o : Overlay.included_outputs (Overlay.request_off o) = Overlay.included_outputs o.
Proof. unfold Overlay.request_off. by destruct (Overlay.transition o), (Overlay.active o). Qed.
Lemma enqueue_includes src o : Overlay.included_outputs (Overlay.enqueue src o).1 = Overlay.included_outputs o.
Proof. unfold Overlay.enqueue. by case_decide. Qed.
Lemma take_next_includes o : Overlay.included_outputs (Overlay.take_next o).1 = Overlay.included_outputs o.
Proof. unfold Overlay.take_next. by destruct (Overlay.queue o). Qed.
Lemma inclusion_includes X out b o :
  out ∈ X → Overlay.included_outputs o ⊆ X →
  Overlay.included_outputs (Overlay.set_output_inclusion out b o) ⊆ X.
Proof.
  intros Ho Hs. unfold Overlay.set_output_inclusion. simpl. destruct b.
  - case_decide; set_solver.
  - intros x [_ Hx]%list_elem_of_filter. by apply Hs.
Qed.
Lemma apply_includes X c s :
  match c with SwitcherCommand.SetOverlayOutputInclusion _ out _ => out ∈ X | _ => True end →
  includes X s → wp (Switcher.apply c) (λ _, includes X) s.
Proof.
  intros Hc Hs.
  assert (Hstart : ∀ k d, wp (Switcher.start_transition k d) (λ _, includes X) s).
  { intros k d. unfold Switcher.start_transition. cbn [Switcher.start_transition_fuel].
    unfold Switcher.begin_transition, Switcher.stinger_playback_decision,
      Switcher.apply_stinger_fallback, Switcher.complete_take, Switcher.stinger.
    destruct k; wp_run; by simplify_eq. }
  destruct c; try done; simpl.
  3, 4: unfold Switcher.require_idle; wp_step; wp_step; wp_step; cbn beta iota;
    wp_step; intros; [|done]; cbn beta iota; apply wp_bind, wp_require; intros; [apply Hstart|done].
  all: unfold Switcher.start_t_bar, Switcher.set_t_bar_position, Switcher.commit_t_bar,
    Switcher.cancel_t_bar, Switcher.take_overlay, Switcher.update_overlay, Switcher.with_source,
    Switcher.overlay_off, Switcher.configure_overlay_transition,
    Switcher.configure_overlay_appearance, Switcher.queue_overlay, Switcher.take_next_overlay,
    Switcher.advance_queue, Switcher.set_overlay_output_inclusion, Switcher.set_stream_running,
    Switcher.set_recording_desired,
    Switcher.overlay, Switcher.put_overlay, Switcher.take_t_bar,
    Switcher.complete_take, Switcher.require_idle, Switcher.require_input.
  all: wp_run; simplify_eq; try done.
  all: try (eapply includes_insert; [done|done| |reflexivity]; done).
  all: try match goal with
    | H : Overlay.enqueue ?src ?o0 = (?o, _) |- _ =>
        assert (Ho : Overlay.included_outputs o = Overlay.included_outputs o0)
          by by rewrite <-(enqueue_includes src o0), H
    | H : Overlay.take_next ?o0 = (?o, _) |- _ =>
        assert (Ho : Overlay.included_outputs o = Overlay.included_outputs o0)
          by by rewrite <-(take_next_includes o0), H
    end.
  all: try (eapply includes_insert; [done|done|exact Ho|reflexivity]).
  unfold includes. simpl. apply Forall_insert; [done|].
  apply inclusion_includes; [done|]. by eapply (Forall_lookup_1 _ _ _ _ Hs).
Qed.
Lemma stingers_includes {E A} X (m : stm Switcher.SwitcherState E A) s :
  (∀ d, wp m (λ _ d', Switcher.overlays d' = Switcher.overlays d) d) →
  includes X s → wp m (λ _, includes X) s.
Proof.
  intros Hm Hs. eapply wp_mono; [apply Hm|]. intros r d Hd. unfold includes. by rewrite Hd.
Qed.
Lemma configure_overlays n d s :
  wp (Switcher.configure_stinger n d) (λ _ d', Switcher.overlays d' = Switcher.overlays s) s.
Proof.
  unfold Switcher.configure_stinger, Switcher.require_input, Switcher.stinger, Switcher.put_stinger.
  wp_run; by simplify_eq.
Qed.
Lemma preload_overlays n b s :
  wp (Switcher.preload_stinger n b) (λ _ d', Switcher.overlays d' = Switcher.overlays s) s.
Proof.
  unfold Switcher.preload_stinger, Switcher.stinger, Switcher.put_stinger. wp_run; by simplify_eq.
Qed.
Lemma remove_overlays n s :
  wp (Switcher.remove_stinger n) (λ _ d', Switcher.overlays d' = Switcher.overlays s) s.
Proof.
  unfold Switcher.remove_stinger, Switcher.stinger, Switcher.put_stinger. wp_run; by simplify_eq.
Qed.
Lemma decision_overlays n s :
  wp (Switcher.stinger_playback_decision (E := SwitcherError) n)
    (λ _ d', Switcher.overlays d' = Switcher.overlays s) s.
Proof. unfold Switcher.stinger_playback_decision, Switcher.stinger. wp_run; by simplify_eq. Qed.
Lemma running_overlays t b s :
  wp (Switcher.set_stream_running t b) (λ _ d', Switcher.overlays d' = Switcher.overlays s) s.
Proof. unfold Switcher.set_stream_running. wp_run; by simplify_eq. Qed.
Lemma recording_overlays b s :
  wp (Switcher.set_recording_desired b) (λ _ d', Switcher.overlays d' = Switcher.overlays s) s.
Proof. unfold Switcher.set_recording_desired. wp_run; by simplify_eq. Qed.
Lemma slot_overlays n s :
  wp (Switcher.stinger (E := SwitcherError) n) (λ _ d', Switcher.overlays d' = Switcher.overlays s) s.
Proof. unfold Switcher.stinger. wp_run; by simplify_eq. Qed.

(** ** Mutations *)

(** A draft whose overlays include outputs of the original show only. *)
Definition drafted {A} (X : list OutputId) (_ : outcome Rejection A)
    (s : ShowState * list EngineEvent.t) : Prop :=
  includes X (desired_switcher s.1).
Lemma desired_drafted {A} X (m : stm Switcher.SwitcherState SwitcherError A) s :
  drafted X (Ret tt) s → (∀ d, includes X d → wp m (λ _, includes X) d) →
  wp (desired m) (drafted X) s.
Proof.
  intros Hs Hm. destruct s as [sh l]. apply wp_desired. eapply wp_mono; [by apply Hm|]. done.
Qed.
Lemma drafted_bind {A B} X (m : draft_stm A) (f : A → draft_stm B) s :
  wp m (drafted X) s → (∀ a s', drafted X (Ret tt) s' → wp (f a) (drafted X) s') →
  wp (m ≫= f) (drafted X) s.
Proof.
  intros Hm Hf. apply wp_bind. eapply wp_mono; [exact Hm|]. intros [a|e|] s' Hs'; [|done..].
  by apply Hf.
Qed.
Ltac draft_step :=
  lazymatch goal with
  | |- wp (mbind _ _) (drafted _) _ => apply drafted_bind; [|intros ? ? ?]
  | |- wp (desired _) _ _ =>
      apply desired_drafted; [done|]; intros ? ?;
      first [ by apply apply_includes
            | apply stingers_includes; [|done]; intros;
              first [ apply configure_overlays | apply preload_overlays | apply decision_overlays
                    | apply slot_overlays | apply running_overlays | apply recording_overlays ] ]
  | |- wp (st_lift ?r) _ _ => by apply wp_lift
  | |- wp (st_expect ?r) _ _ => by apply wp_expect
  | |- wp (st_require _ _) _ _ => by apply wp_require
  | |- wp (match ?x with _ => _ end) _ _ => destruct x
  | |- wp _ _ _ => done
  end.
Ltac draft_run := repeat (cbn beta iota; draft_step).
Definition includes_output (c : SwitcherCommand.t) : bool :=
  match c with SwitcherCommand.SetOverlayOutputInclusion _ _ _ => true | _ => false end.
Lemma switching_routed c s :
  wp (switching_command c) (λ r _, ∀ c', r = Ret (Some c') → includes_output c' = false) s.
Proof.
  destruct c; cbn [switching_command]; try done;
    try (apply wp_bind, wp_lift; [|done]; intros [] _; by intros ? [= <-]);
    try (by intros ? [= <-]).
  apply wp_bind, wp_lift; [|done]. intros [] _. cbn beta iota. apply wp_bind.
  eapply (wp_mono _ (λ _ _, True)); [done|]. intros [[|f|]|e|] s' _; try done.
  - apply wp_bind. eapply (wp_mono _ (λ _ _, True)); [done|]. intros [o|e|] s1 _; try done.
    apply wp_bind, wp_expect; [|done]. intros d _. cbn beta iota.
    apply wp_bind, wp_require; [|done]. intros _. by intros ? [= <-].
  - destruct f; by intros ? [= <-].
Qed.
Lemma switching_drafted X c s :
  drafted X (Ret tt) s → wp (switching_command c) (drafted X) s.
Proof. intros Hs. destruct c; cbn [switching_command]; draft_run. Qed.
Lemma overlay_drafted c n show evs :
  outputs_known show →
  wp (apply_overlay_mutation c n) (drafted (outputs show).*1) (show, evs).
Proof.
  intros Hk. assert (H0 : drafted (outputs show).*1 (Ret tt) (show, evs)) by done.
  unfold apply_overlay_mutation. apply wp_bind, wp_get. cbn beta iota. apply wp_bind.
  apply (wp_mono _ (λ r s, s = (show, evs) ∧ (∀ a, r = Ret a → match c with
    | EngineCommand.SetOverlayOutputInclusion _ out _ => out ∈ (outputs show).*1
    | _ => True end))).
  { destruct c; try (by apply wp_ret). apply wp_require; [|done]. by intros. }
  intros [a|e|] s [-> Hc]; [|done..]. specialize (Hc a eq_refl).
  apply wp_bind, wp_expect; [|done]. intros c' Hc'. apply wp_bind.
  eapply wp_mono; [apply (desired_drafted (outputs show).*1); [done|]; intros d Hd;
    apply apply_includes; [|done]; destruct c; try done; injection Hc' as <-; done|].
  intros [[]|e|] s Hs; [|done..]. draft_run.
Qed.
Lemma on_show_drafted {E A} X (m : stm ShowState E A) (f : E → Rejection) s :
  (∀ sh, wp m (λ _ sh', Switcher.overlays (desired_switcher sh') =
    Switcher.overlays (desired_switcher sh)) sh) →
  drafted X (Ret tt) s → wp (st_map_err f (on_show m)) (drafted X) s.
Proof.
  intros Hm Hs. destruct s as [sh l]. apply wp_map_err, wp_on_show.
  eapply wp_mono; [apply Hm|]. intros r sh' Hsh. unfold drafted, includes. simpl. by rewrite Hsh.
Qed.
Lemma rename_overlays i name s :
  wp (rename_input i name) (λ _ s', Switcher.overlays (desired_switcher s') =
    Switcher.overlays (desired_switcher s)) s.
Proof. unfold rename_input. wp_run; by simplify_eq. Qed.
Lemma reorder_overlays l s :
  wp (show_reorder_inputs l) (λ _ s', Switcher.overlays (desired_switcher s') =
    Switcher.overlays (desired_switcher s)) s.
Proof.
  unfold show_reorder_inputs. wp_run; simplify_eq; try done. simpl.
  revert Heqp. unfold Switcher.reorder_inputs, mbind, stm_bind, st_get, st_lift, st_put.
  destruct (validate_input_order (Switcher.inputs _) l); simpl; [by intros [= <- _]|done].
Qed.
Lemma mutation_drafted m show evs :
  outputs_known show → wp (mutation_apply m) (drafted (outputs show).*1) (show, evs).
Proof.
  intros Hk. assert (H0 : drafted (outputs show).*1 (Ret tt) (show, evs)) by done.
  destruct m as [c n].
  assert (Hsw : wp (c0 ← switching_command c;
      _ ← (match c0 with Some c => _ ← desired (Switcher.apply c); mret tt | None => mret tt end);
      _ ← push_event (EngineEvent.DesiredSwitcherChanged c); mret (mk_acceptance n))
    (drafted (outputs show).*1) (show, evs)).
  { apply wp_bind.
    eapply wp_mono; [apply EngineEffect.wp_conj; [by apply switching_drafted|apply switching_routed]|].
    intros [c'|e|] s [Hs Hc]; [|done..]. destruct c' as [c'|]; [|draft_run].
    specialize (Hc c' eq_refl). apply drafted_bind; [|intros; draft_run].
    apply drafted_bind; [|intros; draft_run]. apply desired_drafted; [done|]. intros d Hd.
    apply apply_includes; [|done]. by destruct c'. }
  destruct c; try exact Hsw; try (by apply overlay_drafted); clear Hsw;
    unfold mutation_apply, apply_strip_mutation, apply_stinger_mutation, apply_rename_mutation,
      apply_reorder_mutation, apply_fade_to_black_mutation, apply_stream_mutation,
      apply_recording_mutation; cbn [mut_command mut_target_frame].
  all: draft_run.
  - by apply on_show_drafted; [apply reorder_overlays|].
  - by apply on_show_drafted; [apply rename_overlays|].
  - apply on_show_drafted; [|done]. intros sh. unfold set_input_audio_strip. wp_run; by simplify_eq.
  - destruct s'0 as [sh evs']. apply wp_unwrap, wp_on_show.
    unfold show_remove_stinger, on_desired. apply wp_zoom.
    eapply wp_mono; [apply remove_overlays|]. intros [?|?|] d Hd; try done.
    all: unfold drafted, includes in *; simpl in *; by rewrite Hd.
Qed.

(** ** The engine *)

Definition engine_outputs (e : Engine) : Prop :=
  outputs_known (show e) ∧ includes (outputs (show e)).*1 (realized_switcher e).
Lemma settle_includes X r : includes X (Settle.settle r) ↔ includes X r.
Proof.
  unfold includes. simpl. rewrite Forall_fmap. apply Forall_proper; [|done]. intros o. simpl.
  unfold Settle.settle_overlay. by destruct (Overlay.automatic o).
Qed.
Lemma new_outputs s rate domain :
  outputs_known s → engine_outputs (engine_new s rate domain).
Proof. done. Qed.
Lemma execute_outputs e env now e' o :
  engine_wf e → command_ok (Command.command env) → fires_idle (show e) (Command.command env) →
  execute env now e = (e', Ret o) → engine_outputs e → engine_outputs e'.
Proof.
  intros Hwf Hc Hf Hx [Hk Hr].
  destruct (Command.receipts (commands e) !! Command.idempotency_key env) as [r|] eqn:Hkey.
  { rewrite (EngineSafety.execute_known env now e r Hkey) in Hx. by injection Hx as <- _. }
  pose proof (execute_spec e Hwf env now Hc Hkey Hf) as Hs. rewrite Hx in Hs.
  destruct Hs as (Hwf'&Hsame&Hd&Hcase).
  pose proof (decision_cases e Hwf env now Hkey _ _ Hd) as (_&_&_&Hdc).
  assert (Hshow : show e' = Command.state (commands e')) by done.
  assert (Hre : realized_switcher e' = realized_switcher e) by apply Hsame.
  unfold engine_outputs. rewrite Hre.
  destruct (accepted (Command.receipt o)) as [a|].
  - destruct Hdc as (_&_&evs&Hm).
    pose proof (mutation_drafted (mk_mutation (Command.command env) (frame_cursor e)) (show e) [] Hk) as Hdr.
    pose proof (mutation_roster (mk_mutation (Command.command env) (frame_cursor e)) (show e) []
      (ew_show _ Hwf)) as Hro.
    unfold wp in Hdr, Hro. rewrite Hm in Hdr, Hro. destruct Hro as (_&Ho&_). simpl in Ho.
    unfold outputs_known. rewrite Hshow, Ho. by split.
  - destruct Hcase as (Hsh&_). rewrite Hsh. by split.
Qed.
Lemma tick_outputs e e' fr :
  engine_wf e → tick e = (e', Ret fr) → engine_outputs e → engine_outputs e'.
Proof.
  intros Hwf Ht [Hk Hr]. destruct (decide (can_tick e)) as [Hcan|Hcan].
  - destruct (tick_wf e Hwf Hcan) as (r'&e1&fr1&_&Ht1&Htk&_&_&Ha). rewrite Ht1 in Ht.
    injection Ht as <- <-. assert (Hs : show e1 = show e) by (unfold show; by rewrite (tk_commands _ _ _ Htk)).
    unfold engine_outputs. rewrite Hs. split; [done|].
    apply settle_includes. rewrite <-(ag_settled _ _ Ha), Hs. done.
  - destruct (tick_exhausted e Hwf Hcan) as (e1&y&Ht1&_). by rewrite Ht1 in Ht.
Qed.
