(* ===== verification/ControlView.v ===== *)
(** What clients see of the engine.  A snapshot can always be taken
    ([snapshot_total]); [Shared] is the durable state that all clients share, and
    [shared_apply] what a durable event does to it.  [mutation_effect] tells what
    the mutation of each command changes and which event it emits, and
    [event_follows] that the event the control service sends for an accepted
    command takes the shared state before it to the shared state after it. *)
From S2P Require Import Prelude BTree Types EngineShow ControlWire.
From S2P Require Command Clock Plans Scheduler FadeToBlack Overlay SwitcherTypes Switcher Settle.
From S2P Require Engine EngineSim EngineRun EngineEffect Protocol.
#[local] Open Scope Z_scope.

(** ** Snapshots are total *)

(** The conversions, where they do not panic. *)
Definition wire_kind (k : SwitcherTypes.TransitionKind) : Protocol.ManualTransitionKind :=
  match k with
  | SwitcherTypes.Fade => Protocol.ManualFade
  | SwitcherTypes.Wipe => Protocol.ManualWipe
  | SwitcherTypes.AlphaFade => Protocol.ManualAlphaFade
  | _ => Protocol.ManualSlide
  end.
Definition manual_status (s : Switcher.SwitcherState) : Protocol.ManualTransitionStatus :=
  match Switcher.t_bar s with
  | None => Protocol.Inactive
  | Some t => Protocol.Active (Protocol.mk_manual (wire_kind (SwitcherTypes.t_kind t))
      (SwitcherTypes.t_from t) (SwitcherTypes.t_to t) (SwitcherTypes.t_interval_start t)
      (SwitcherTypes.t_position t))
  end.
Lemma manual_status_total s :
  Switcher.switcher_wf s →
  Engine.manual_transition_of s ≫= protocol_manual_status = Some (manual_status s).
Proof.
  intros Hwf. pose proof (Switcher.wf_route _ Hwf) as Hr.
  unfold Engine.manual_transition_of, manual_status.
  destruct (Switcher.t_bar s) as [t|]; [|done].
  destruct (Switcher.transition s); [done|]. destruct Hr as (_&_&Hk&[_ Hi]&[_ Hp]).
  unfold Engine.engine_manual_state, SwitcherTypes.t_bar_position_new, SwitcherTypes.TBAR_MAX in *.
  destruct (SwitcherTypes.t_kind t); try done; simpl;
    rewrite !decide_True by done; simpl; unfold Protocol.manual_position_new,
    Protocol.MANUAL_POSITION_MAX; by rewrite !decide_True by done.
Qed.
Definition fade_status (s : Switcher.SwitcherState) : Protocol.FadeToBlackState :=
  Protocol.mk_fade_state (Engine.fade_active s) (Engine.fade_position s).
Lemma fade_state_total s :
  Switcher.switcher_wf s →
  protocol_fade_to_black_state (Engine.engine_fade_to_black_state s) =
    Some (fade_status s).
Proof.
  intros Hwf. unfold protocol_fade_to_black_state. simpl.
  by rewrite checked_in by apply (FadeToBlack.ftb_position_in _ (Switcher.wf_ftb _ Hwf)).
Qed.
Lemma elem_of_imap_pair {A} (l : list A) i x : (i, x) ∈ imap pair l ↔ l !! i = Some x.
Proof.
  rewrite list_elem_of_lookup. setoid_rewrite list_lookup_imap. split.
  - intros (j&H). destruct (l !! j) eqn:Hj; simpl in H; congruence.
  - intros H. exists i. by rewrite H.
Qed.

(** The status of an overlay, once its index is known to be below 8. *)
Definition overlay_status (index : nat) (o : Overlay.OverlayChannelState) : Protocol.OverlayStatus :=
  Protocol.mk_overlay_status (Z.of_nat index + 1) (Overlay.source o) (Overlay.active o)
    (Overlay.opacity o) (wire_overlay_transition (Overlay.transition o))
    (Overlay.duration_frames o) (wire_overlay_position (Overlay.position o))
    (wire_overlay_border (Overlay.border o)) (Overlay.queue o) (Overlay.included_outputs o).
Lemma mapM_total {A B} (f : A → option B) (g : A → B) l :
  (∀ x, x ∈ l → f x = Some (g x)) → mapM f l = Some (g <$> l).
Proof.
  intros Hf. apply mapM_Some_2. induction l as [|x l IH]; simpl; constructor.
  - apply Hf. by left.
  - apply IH. intros. apply Hf. by right.
Qed.
Lemma overlays_total l :
  length l = 8%nat → protocol_overlays l = Some (imap overlay_status l).
Proof.
  intros Hl. unfold protocol_overlays.
  rewrite (mapM_total _ (λ p, overlay_status p.1 p.2)); [by rewrite fmap_imap|].
  intros [i o] Hi%elem_of_imap_pair%lookup_lt_Some. unfold protocol_overlay. simpl.
  rewrite checked_in by int_lia. simpl. unfold Protocol.wire_channel_new.
  by rewrite decide_True by lia.
Qed.

Lemma stinger_total {E} n s :
  Switcher.switcher_wf s → Switcher.slot_ok n →
  ∃ o, Switcher.stinger (E := E) n s = (s, Ret o) ∧
    Switcher.stingers s !! Z.to_nat (n - 1) = Some o.
Proof.
  intros Hwf Hn.
  assert (wp (Switcher.stinger (E := E) n) (λ r s', ∃ o, r = Ret o ∧ s' = s ∧
    Switcher.stingers s !! Z.to_nat (n - 1) = Some o) s) as (o&Hr&Hs&Ho).
  { apply Switcher.wp_stinger; [done..|]. eauto. }
  exists o. split; [|done]. by destruct (Switcher.stinger n s); simpl in *; subst.
Qed.
Definition stinger_status (r : SwitcherTypes.StingerPreloadState) (index : nat)
    (d : SwitcherTypes.StingerDescriptor) : Protocol.StingerStatus :=
  Protocol.mk_stinger_status (Z.of_nat index + 1) (SwitcherTypes.media_input d)
    (SwitcherTypes.preload d) (SwitcherTypes.cut_point_frames d)
    (wire_audio_policy (SwitcherTypes.audio_policy d))
    (wire_fallback (SwitcherTypes.missing_media_fallback d)) (wire_readiness r).
Lemma omap_id_fmap {A B} (f : A → option B) (l : list A) : omap id (f <$> l) = omap f l.
Proof. induction l as [|x l IH]; [done|]. cbn. unfold id at 1. destruct (f x); [f_equal|]; exact IH. Qed.
(** The statuses, for a readiness that is always known. *)
Lemma stinger_statuses_total f (g : nat → SwitcherTypes.StingerSlotState → SwitcherTypes.StingerPreloadState) l :
  length l = 8%nat →
  (∀ i o d, l !! i = Some o → SwitcherTypes.descriptor o = Some d →
    f (Z.of_nat i + 1) o d = Some (g i o)) →
  stinger_statuses f l = Some (omap (λ p, stinger_status (g p.1 p.2) p.1 <$>
    SwitcherTypes.descriptor p.2) (imap pair l)).
Proof.
  intros Hl Hf. unfold stinger_statuses.
  rewrite (mapM_total _ (λ p, stinger_status (g p.1 p.2) p.1 <$> SwitcherTypes.descriptor p.2)).
  { simpl. f_equal. apply omap_id_fmap. }
  intros [i o] Hi%elem_of_imap_pair. simpl.
  destruct (SwitcherTypes.descriptor o) as [d|] eqn:Hd; [|done]. simpl.
  pose proof (lookup_lt_Some _ _ _ Hi). unfold SwitcherTypes.slot_from_index.
  rewrite decide_True by (unfold SwitcherTypes.STINGER_SLOT_COUNT; lia).
  rewrite checked_in by int_lia. simpl. rewrite checked_in by int_lia. simpl.
  rewrite (Hf i o d) by done. simpl.
  unfold protocol_stinger_status, Protocol.wire_slot_new. by rewrite decide_True by lia.
Qed.

Definition stream_list (s : Switcher.SwitcherState) : list Protocol.StreamStatus :=
  (λ d, Protocol.mk_stream_status (SwitcherTypes.stream_id d) (SwitcherTypes.stream_name d)
     (bool_decide (SwitcherTypes.stream_id d ∈ Switcher.streams_running s))
     Protocol.StreamStopped None) <$> Switcher.streams s.
Lemma streams_total e :
  protocol_streams e = Some (stream_list (desired_switcher (Engine.show e))).
Proof.
  unfold protocol_streams, stream_list. apply mapM_total. intros d Hd.
  unfold Switcher.stream_running. by rewrite decide_True by by apply list_elem_of_fmap_2.
Qed.
(** The configured slots, with the readiness that [g] gives. *)
Definition stinger_list (g : nat → SwitcherTypes.StingerSlotState → SwitcherTypes.StingerPreloadState)
    (l : list SwitcherTypes.StingerSlotState) : list Protocol.StingerStatus :=
  omap (λ p, stinger_status (g p.1 p.2) p.1 <$> SwitcherTypes.descriptor p.2) (imap pair l).
Definition desired_stinger_list (s : Switcher.SwitcherState) : list Protocol.StingerStatus :=
  stinger_list (λ _, SwitcherTypes.preload_state) (Switcher.stingers s).
(** The readiness of a slot on the realized switcher. *)
Definition realized_readiness (r : Switcher.SwitcherState) (i : nat)
    (o : SwitcherTypes.StingerSlotState) : SwitcherTypes.StingerPreloadState :=
  match Switcher.stingers r !! i with
  | Some o' => if decide (SwitcherTypes.descriptor o' = SwitcherTypes.descriptor o)
               then SwitcherTypes.preload_state o' else SwitcherTypes.NotRequested
  | None => SwitcherTypes.NotRequested
  end.

Lemma desired_stingers_total e :
  Switcher.switcher_wf (desired_switcher (Engine.show e)) →
  protocol_desired_stingers e = Some (desired_stinger_list (desired_switcher (Engine.show e))).
Proof.
  intros Hwf. unfold protocol_desired_stingers.
  by rewrite (stinger_statuses_total _ (λ _, SwitcherTypes.preload_state)) by first
    [ apply (Switcher.wf_stingers _ Hwf) | done ].
Qed.
Lemma stingers_total e :
  Switcher.switcher_wf (desired_switcher (Engine.show e)) →
  Switcher.switcher_wf (Engine.realized_switcher e) →
  protocol_stingers e = Some (stinger_list (realized_readiness (Engine.realized_switcher e))
    (Switcher.stingers (desired_switcher (Engine.show e)))).
Proof.
  intros Hwf Hr. unfold protocol_stingers.
  rewrite (stinger_statuses_total _ (realized_readiness (Engine.realized_switcher e)));
    [done|apply (Switcher.wf_stingers _ Hwf)|].
  intros i o d Hi Hd. pose proof (lookup_lt_Some _ _ _ Hi) as Hlt.
  rewrite (Switcher.wf_stingers _ Hwf) in Hlt. unfold SwitcherTypes.STINGER_SLOT_COUNT in Hlt.
  destruct (stinger_total (E := Empty_set) (Z.of_nat i + 1) _ Hr) as (o'&->&Ho');
    [unfold Switcher.slot_ok; lia|].
  replace (Z.to_nat (Z.of_nat i + 1 - 1)) with i in Ho' by lia. simpl.
  unfold realized_readiness. rewrite Ho', Hd. by case_decide.
Qed.

Lemma snapshot_total e identity :
  EngineRun.engine_wf e →
  let d := desired_switcher (Engine.show e) in
  let r := Engine.realized_switcher e in
  snapshot_record e identity = Some (mk_record
    (Protocol.mk_cursor identity (Command.revision (Engine.commands e))) {|
    Protocol.snapshot_engine := identity;
    Protocol.snapshot_revision := Command.revision (Engine.commands e);
    Protocol.show_name := show_name (Engine.show e);
    Protocol.inputs := zip_with Protocol.mk_input_status (show_inputs (Engine.show e))
                         (input_names (Engine.show e));
    Protocol.outputs := (λ p, Protocol.mk_output_status p.1 p.2) <$> outputs (Engine.show e);
    Protocol.input_audio_strips := protocol_input_audio_strips e;
    Protocol.desired_program := Switcher.program d;
    Protocol.desired_preview := Switcher.preview d;
    Protocol.realized_program := Switcher.program r;
    Protocol.realized_preview := Switcher.preview r;
    Protocol.desired_manual_transition := manual_status d;
    Protocol.realized_manual_transition := manual_status r;
    Protocol.desired_fade_to_black := fade_status d;
    Protocol.realized_fade_to_black := fade_status r;
    Protocol.stingers := stinger_list (realized_readiness r) (Switcher.stingers d);
    Protocol.streams := stream_list d;
    Protocol.record_desired_active := Switcher.recording_desired d;
    Protocol.desired_overlays := imap overlay_status (Switcher.overlays d);
    Protocol.realized_overlays := imap overlay_status (Switcher.overlays r)
  |}).
Proof.
  intros Hwf d r. pose proof (sh_switcher _ (EngineRun.ew_show _ Hwf)) as Hd.
  pose proof (EngineRun.ew_realized _ Hwf) as Hr. unfold snapshot_record.
  unfold Engine.desired_manual_transition, Engine.realized_manual_transition,
    Engine.desired_fade_to_black, Engine.realized_fade_to_black.
  rewrite !manual_status_total by done. cbn [mbind option_bind].
  rewrite !fade_state_total by done. cbn [mbind option_bind].
  rewrite stingers_total by done. cbn [mbind option_bind].
  rewrite streams_total. cbn [mbind option_bind].
  rewrite !overlays_total by first [apply (Switcher.wf_overlays _ Hd)|apply (Switcher.wf_overlays _ Hr)].
  done.
Qed.

(** ** The state that clients share *)

(** The durable state: what a snapshot tells, but for the readiness of stingers and
    what is realized, which no durable event tells. *)
Record Shared := mk_shared {
  sh_name : string;
  sh_inputs : list InputId;
  sh_names : list string;
  sh_outputs : list Protocol.OutputStatus;
  sh_strips : list Protocol.InputAudioStripStatus;
  sh_stingers : list Protocol.StingerStatus;
  sh_streams : list Protocol.StreamStatus;
  sh_record : bool;
  sh_program : InputId;
  sh_preview : InputId;
  sh_manual : Protocol.ManualTransitionStatus;
  sh_fade : Protocol.FadeToBlackState;
  sh_overlays : list Protocol.OverlayStatus
}.
Definition unready (s : Protocol.StingerStatus) : Protocol.StingerStatus :=
  Protocol.mk_stinger_status (Protocol.slot s) (Protocol.media_input s) (Protocol.preload s)
    (Protocol.cut_point_frames s) (Protocol.audio_policy s) (Protocol.missing_media_fallback s)
    Protocol.NotRequested.
Definition shared_of (m : Protocol.SnapshotMessage) : Shared :=
  mk_shared (Protocol.show_name m) (Protocol.status_input <$> Protocol.inputs m)
    (Protocol.status_input_name <$> Protocol.inputs m) (Protocol.outputs m)
    (Protocol.input_audio_strips m) (unready <$> Protocol.stingers m) (Protocol.streams m)
    (Protocol.record_desired_active m) (Protocol.desired_program m) (Protocol.desired_preview m)
    (Protocol.desired_manual_transition m) (Protocol.desired_fade_to_black m)
    (Protocol.desired_overlays m).
Definition shared_name (s : Shared) (input : InputId) : option string :=
  index ← position_of input (sh_inputs s); sh_names s !! index.

(** What an event does: [None] where it does not fit the state. *)
Definition shared_apply (p : Protocol.EventPayload.t) (s : Shared) : option Shared :=
  match p with
  | Protocol.EventPayload.InputOrderChanged l =>
      names ← mapM (shared_name s) l;
      Some (mk_shared (sh_name s) l names (sh_outputs s) (sh_strips s) (sh_stingers s)
        (sh_streams s) (sh_record s) (sh_program s) (sh_preview s) (sh_manual s) (sh_fade s)
        (sh_overlays s))
  | Protocol.EventPayload.InputRenamed input name =>
      k ← position_of input (sh_inputs s);
      Some (mk_shared (sh_name s) (sh_inputs s) (<[k := name]> (sh_names s)) (sh_outputs s)
        (sh_strips s) (sh_stingers s) (sh_streams s) (sh_record s) (sh_program s)
        (sh_preview s) (sh_manual s) (sh_fade s) (sh_overlays s))
  | Protocol.EventPayload.DesiredSwitcher program preview manual fade overlays strips =>
      Some (mk_shared (sh_name s) (sh_inputs s) (sh_names s) (sh_outputs s) strips
        (sh_stingers s) (sh_streams s) (sh_record s) program preview manual fade overlays)
  | Protocol.EventPayload.StingerSlotsChanged program preview manual fade stingers overlays strips =>
      Some (mk_shared (sh_name s) (sh_inputs s) (sh_names s) (sh_outputs s) strips
        (unready <$> stingers) (sh_streams s) (sh_record s) program preview manual fade overlays)
  | Protocol.EventPayload.StreamsChanged streams =>
      Some (mk_shared (sh_name s) (sh_inputs s) (sh_names s) (sh_outputs s) (sh_strips s)
        (sh_stingers s) streams (sh_record s) (sh_program s) (sh_preview s) (sh_manual s)
        (sh_fade s) (sh_overlays s))
  | Protocol.EventPayload.RecordingChanged active =>
      Some (mk_shared (sh_name s) (sh_inputs s) (sh_names s) (sh_outputs s) (sh_strips s)
        (sh_stingers s) (sh_streams s) active (sh_program s) (sh_preview s) (sh_manual s)
        (sh_fade s) (sh_overlays s))
  end.

Definition strip_list (s : ShowState) : list Protocol.InputAudioStripStatus :=
  (λ p, Protocol.mk_strip_status p.1 (gain_millidb p.2) (balance_basis_points p.2) (muted p.2)
     (soloed p.2) (follow_video p.2) (delay_samples p.2)) <$> input_audio_strips s.
(** What the show shares. *)
Definition show_shared (s : ShowState) : Shared :=
  let d := desired_switcher s in
  mk_shared (show_name s) (show_inputs s) (input_names s)
    ((λ p, Protocol.mk_output_status p.1 p.2) <$> outputs s) (strip_list s)
    (unready <$> desired_stinger_list d) (stream_list d) (Switcher.recording_desired d)
    (Switcher.program d) (Switcher.preview d) (manual_status d) (fade_status d)
    (imap overlay_status (Switcher.overlays d)).

Lemma unready_list g l :
  unready <$> stinger_list g l =
  stinger_list (λ _ _, SwitcherTypes.NotRequested) l.
Proof.
  unfold stinger_list. induction (imap pair l) as [|[i o] k IH]; [done|]. cbn.
  destruct (SwitcherTypes.descriptor o); cbn; [f_equal|]; exact IH.
Qed.
Lemma zip_inputs (l : list InputId) (l' : list string) :
  length l' = length l →
  Protocol.status_input <$> zip_with Protocol.mk_input_status l l' = l ∧
  Protocol.status_input_name <$> zip_with Protocol.mk_input_status l l' = l'.
Proof.
  revert l'. induction l as [|i l IH]; intros [|x l']; try done. intros [= Hl]. cbn [zip_with].
  rewrite !fmap_cons. destruct (IH l' Hl) as [-> ->]. done.
Qed.
Lemma snapshot_shared e identity r :
  EngineRun.engine_wf e → snapshot_record e identity = Some r →
  shared_of (record_snapshot r) = show_shared (Engine.show e).
Proof.
  intros Hwf Hr. rewrite snapshot_total in Hr by done. injection Hr as <-.
  unfold shared_of, show_shared. simpl.
  destruct (zip_inputs (show_inputs (Engine.show e)) (input_names (Engine.show e))) as [-> ->].
  { apply (EngineRun.ew_show _ Hwf). }
  unfold desired_stinger_list. by rewrite !unready_list.
Qed.

(** ** Events *)

Ltac read_effect :=
  repeat match goal with
  | H : ∃ _, _ |- _ => destruct H
  | H : _ ∧ _ |- _ => destruct H
  end.

(** The event for an accepted command. *)
Definition event_for (c : Engine.EngineCommand.t) (s s' : ShowState) : Protocol.EventPayload.t :=
  let d := desired_switcher s' in
  let strips := strip_list s' in
  match c with
  | Engine.EngineCommand.StreamStart _ | Engine.EngineCommand.StreamStop _ =>
      Protocol.EventPayload.StreamsChanged (stream_list d)
  | Engine.EngineCommand.RenameInput input name => Protocol.EventPayload.InputRenamed input name
  | Engine.EngineCommand.ReorderInputs l => Protocol.EventPayload.InputOrderChanged l
  | Engine.EngineCommand.ConfigureStinger _ _ | Engine.EngineCommand.RemoveStinger _ =>
      Protocol.EventPayload.StingerSlotsChanged (Switcher.program d) (Switcher.preview d)
        (manual_status d) (fade_status d) (desired_stinger_list d)
        (imap overlay_status (Switcher.overlays d)) strips
  | Engine.EngineCommand.RecordStart | Engine.EngineCommand.RecordStop =>
      if decide (Switcher.recording_desired (desired_switcher s) ≠ Switcher.recording_desired d)
      then Protocol.EventPayload.RecordingChanged (Switcher.recording_desired d)
      else Protocol.EventPayload.DesiredSwitcher (Switcher.program d) (Switcher.preview d)
        (manual_status d) (fade_status d) (imap overlay_status (Switcher.overlays d)) strips
  | _ => Protocol.EventPayload.DesiredSwitcher (Switcher.program d) (Switcher.preview d)
        (manual_status d) (fade_status d) (imap overlay_status (Switcher.overlays d)) strips
  end.
Lemma accepted_event_total c s e o :
  show_wf (Engine.show e) →
  EngineEffect.effect c s (Engine.show e) (event_payloads o) →
  accepted_event_payload e o = Some (event_for c s (Engine.show e)).
Proof.
  intros Hwf He. pose proof (sh_switcher _ Hwf) as Hd. unfold accepted_event_payload.
  unfold Engine.desired_manual_transition, Engine.desired_fade_to_black.
  rewrite manual_status_total, fade_state_total, overlays_total, streams_total,
    desired_stingers_total by first [done|apply (Switcher.wf_overlays _ Hd)].
  change (protocol_input_audio_strips e) with (strip_list (Engine.show e)).
  destruct c; simpl in He; read_effect;
    try match goal with H : event_payloads o = _ |- _ => rewrite H end; try done.
  - unfold event_for. rewrite H. simpl. by repeat case_decide.
  - unfold event_for. rewrite H. simpl. by repeat case_decide.
Qed.
Lemma event_follows c s s' evs :
  EngineEffect.effect c s s' evs →
  shared_apply (event_for c s s') (show_shared s) = Some (show_shared s').
Proof.
  intros He.
  assert (Hsame : EngineEffect.same_roster s s' →
    EngineEffect.same_lines (desired_switcher s) (desired_switcher s') →
    Switcher.stingers (desired_switcher s') = Switcher.stingers (desired_switcher s) →
    let d := desired_switcher s' in
    shared_apply (Protocol.EventPayload.DesiredSwitcher (Switcher.program d) (Switcher.preview d)
      (manual_status d) (fade_status d) (imap overlay_status (Switcher.overlays d)) (strip_list s'))
      (show_shared s) = Some (show_shared s')).
  { intros [Hn Hi Hm Ho] [Hst Hr Hrec] Hs d. unfold show_shared, desired_stinger_list, stream_list.
    simpl. by rewrite Hn, Hi, Hm, Ho, Hst, Hr, Hrec, Hs. }
  destruct c; simpl in He; read_effect; try (by apply Hsame; auto).
  all: try match goal with H : ?x = _ |- context [event_for _ _ ?x] => rewrite H end;
    unfold event_for; simpl.
  - unfold shared_name. simpl. change (mapM _ _) with (mapM (input_name s) inputs).
    match goal with H : mapM _ _ = _ |- _ => rewrite H end. done.
  - match goal with H : position_of _ _ = _ |- _ => rewrite H end. done.
  - match goal with H : EngineEffect.same_roster _ _, H' : EngineEffect.same_lines _ _ |- _ =>
      destruct H as [Hn Hi Hm Ho], H' as [Hst Hr Hrec] end.
    unfold show_shared, stream_list. simpl. by rewrite Hn, Hi, Hm, Ho, Hst, Hr, Hrec.
  - match goal with H : EngineEffect.same_roster _ _, H' : EngineEffect.same_lines _ _ |- _ =>
      destruct H as [Hn Hi Hm Ho], H' as [Hst Hr Hrec] end.
    unfold show_shared, stream_list. simpl. by rewrite Hn, Hi, Hm, Ho, Hst, Hr, Hrec.
  - done.
  - done.
  - case_decide as Hb; [done|]. simpl. unfold show_shared. simpl.
    by rewrite <-Hb.
  - case_decide as Hb; [done|]. simpl. unfold show_shared. simpl.
    by rewrite <-Hb.
Qed.
