(* ===== verification/ControlRun.v ===== *)
(** Operating the control service: its invariant [control_wf] and what [submit]
    ([submit_cases]) and a tick ([control_tick_spec]) do.

    The heart of the invariant is that the service follows its engine: the pending
    runtime actions are the commands the engine has pending, under the revisions
    they will realize, the snapshot is that of the engine, and the log holds the
    events of the last revisions without a gap.  Within one generation at most
    three runtime events are numbered, since an operation in flight is reported
    once and only a new generation starts another. *)
From S2P Require Import Prelude BTree Types ControlWire Control ControlView.
From S2P Require Command Actions Plans Scheduler SwitcherTypes Switcher Settle.
From S2P Require EngineShow Engine EngineSim EngineRun EngineSnapshot EngineSafety EngineEffect.
From S2P Require Protocol Auth.
#[local] Open Scope Z_scope.

(** ** What clients send *)

(** The ranges of the wire types. *)
Definition payload_ok (p : Protocol.CommandPayload.t) : Prop :=
  match p with
  | Protocol.CommandPayload.Fade d | Protocol.CommandPayload.AlphaFade d
  | Protocol.CommandPayload.Slide d | Protocol.CommandPayload.Zoom d
  | Protocol.CommandPayload.Wipe d | Protocol.CommandPayload.FadeToBlack _ d => in_ty U32 d
  | Protocol.CommandPayload.Stinger n d => 1 ≤ n ≤ 8 ∧ in_ty U32 d
  | Protocol.CommandPayload.ConfigureStinger n _ _ _ _ _
  | Protocol.CommandPayload.RemoveStinger n => 1 ≤ n ≤ 8
  | Protocol.CommandPayload.TakeOverlay n _ | Protocol.CommandPayload.UpdateOverlay n _
  | Protocol.CommandPayload.OverlayOff n | Protocol.CommandPayload.SetOverlayOutputInclusion n _ _
  | Protocol.CommandPayload.ConfigureOverlayAppearance n _ _
  | Protocol.CommandPayload.QueueOverlay n _ | Protocol.CommandPayload.TakeNextOverlay n => 1 ≤ n ≤ 8
  | Protocol.CommandPayload.ConfigureOverlayTransition n _ d => 1 ≤ n ≤ 8 ∧ in_ty U32 d
  | Protocol.CommandPayload.SetManualTransitionPosition p =>
      0 ≤ p ≤ Protocol.MANUAL_POSITION_MAX
  | _ => True
  end.
(** No payload makes the conversion panic. *)
Lemma engine_command_total p :
  payload_ok p → ∃ c, engine_command p = Some c ∧ EngineSim.command_ok c.
Proof.
  intros Hp. destruct p; simpl in Hp; destruct_and?;
    unfold engine_command, stinger_engine_command, overlay_engine_command,
      SwitcherTypes.slot_new, Overlay.channel_new, SwitcherTypes.t_bar_position_new;
    rewrite ?decide_True by (unfold Overlay.OVERLAY_CHANNEL_COUNT, SwitcherTypes.TBAR_MAX,
      Protocol.MANUAL_POSITION_MAX in *; lia);
    eexists; (split; [reflexivity|]); try done.
Qed.

(** ** The invariant *)

Section run.
Context {A : Type} `{AuthorizationHook A}.
Abbreviation service := (ControlService A).
Implicit Types self : service.

(** The operations in flight whose end is still to be reported. *)
Definition load self : Z :=
  (if decide (is_Some (active_transition self)) then 1 else 0) +
  (if decide (is_Some (active_fade_to_black self)) then 1 else 0).
(** The runtime events up to generation [gen] are numbered within bounds. *)
Definition sequence_ok (gen : Z) self : Prop :=
  runtime_sequence_generation self ≤ gen ∧ 0 ≤ runtime_sequence self ≤ 3 ∧
  (runtime_sequence_generation self = gen → runtime_sequence self + load self ≤ 3).
Definition pending_ok self : Prop :=
  pending_command <$> pending_runtime_actions self = EngineRun.pending_commands (engine self) ∧
  pending_revision <$> pending_runtime_actions self =
    seqZ (generation self + 1) (Z.of_nat (length (pending_runtime_actions self))).
(** The log ends at the current revision and has no gap. *)
Definition log_ok self : Prop :=
  Protocol.cursor <$> log self = Protocol.mk_cursor (identity self) <$>
    seqZ (current_revision self - Z.of_nat (length (log self)) + 1) (Z.of_nat (length (log self))) ∧
  (length (log self) ≤ retained_events (limits self))%nat.
Record control_wf self : Prop := {
  cw_engine : EngineSafety.reached (engine self);
  cw_snapshot : snapshot_record (engine self) (identity self) = Some (snapshot self);
  cw_pending : pending_ok self;
  cw_log : log_ok self;
  cw_sequence : sequence_ok (generation self) self;
  cw_subscribers : subscribers_wf self;
  cw_fresh : ∀ id, id ∈ subscribers self → id < next_subscriber_id self
}.

(** Everything but the last two clauses depends on [core] only. *)
Lemma core_eq self self' :
  core self' = core self →
  engine self' = engine self ∧ authorizer self' = authorizer self ∧ identity self' = identity self ∧
  limits self' = limits self ∧ authorization_denials self' = authorization_denials self ∧
  authorization_denial_order self' = authorization_denial_order self ∧ log self' = log self ∧
  snapshot self' = snapshot self ∧
  pending_runtime_actions self' = pending_runtime_actions self ∧
  active_transition self' = active_transition self ∧
  active_fade_to_black self' = active_fade_to_black self ∧
  runtime_sequence_generation self' = runtime_sequence_generation self ∧
  runtime_sequence self' = runtime_sequence self.
Proof. destruct self, self'. unfold core, set_subscribers. simpl. intros [=]. by split_and!. Qed.
Lemma core_wf self self' :
  core self' = core self → subscribers_wf self' →
  (∀ id, id ∈ subscribers self' → id < next_subscriber_id self') →
  control_wf self → control_wf self'.
Proof.
  intros Hc Hs Hn []. apply core_eq in Hc as (He&_&Hi&Hl&_&_&Hlog&Hsn&Hp&Ht&Hf&Hg&Hq).
  split; try done; unfold pending_ok, log_ok, sequence_ok, load, generation, current_revision;
    rewrite ?He, ?Hi, ?Hl, ?Hlog, ?Hsn, ?Hp, ?Ht, ?Hf, ?Hg, ?Hq; done.
Qed.

(** ** Submitting *)

Definition envelope_of (message : Protocol.CommandMessage) (c : Engine.EngineCommand.t) :
    Engine.Envelope := Protocol.domain_envelope message c.
(** The event of an accepted command. *)
Definition durable_event self (c : Engine.EngineCommand.t) (e' : Engine) : Protocol.EventMessage :=
  Protocol.mk_event_message
    (Protocol.mk_cursor (identity self) (Command.revision (Engine.commands e')))
    (event_for c (Engine.show (engine self)) (Engine.show e')).
(** The service after an accepted command, but for its subscribers. *)
Definition accepted_service self (c : Engine.EngineCommand.t) (e' : Engine) (snap : SnapshotRecord) :
    service :=
  set_snapshot snap
    (set_pending (pending_runtime_actions self ++
                    [mk_pending (Command.revision (Engine.commands e')) c])
      (set_log (keep_last (retained_events (limits self)) (log self ++ [durable_event self c e']))
        (set_engine e' self))).
Definition denial_result (message : Protocol.CommandMessage) (denial : Auth.AuthorizationDenial) self :
    Protocol.CommandResult.t :=
  Protocol.CommandResult.Rejected (Protocol.id message) (code_name Command.PermissionDenied)
    (denial_message denial) [] (current_revision self) false.

(** The ways in which [submit] ends. *)
Inductive submit_case (principal : Auth.Principal) (message : Protocol.CommandMessage) (now : Z) self :
    service → outcome ControlError CommandSubmission → Prop :=
  | case_denied_before result :
      authorization_denials self !! Protocol.idempotency_key message = Some result →
      submit_case principal message now self self
        (Ret (mk_submission (mk_output result []) true None []))
  | case_denied denial :
      authorization_denials self !! Protocol.idempotency_key message = None →
      hook_authorize (authorizer self) principal
        (command_class (Protocol.payload message)) = Err denial →
      submit_case principal message now self
        (remember_authorization_denial (Protocol.idempotency_key message)
           (denial_result message denial self) self)
        (Ret (mk_submission (mk_output (denial_result message denial self) []) false None []))
  | case_known u receipt :
      authorization_denials self !! Protocol.idempotency_key message = None →
      hook_authorize (authorizer self) principal
        (command_class (Protocol.payload message)) = Ok u →
      Command.receipts (Engine.commands (engine self)) !! Protocol.idempotency_key message =
        Some receipt →
      submit_case principal message now self self
        (Ret (mk_submission (mk_output (command_result receipt) []) true None []))
  | case_rejected u c e' o snap :
      authorization_denials self !! Protocol.idempotency_key message = None →
      hook_authorize (authorizer self) principal
        (command_class (Protocol.payload message)) = Ok u →
      engine_command (Protocol.payload message) = Some c →
      Command.receipts (Engine.commands (engine self)) !! Protocol.idempotency_key message = None →
      Engine.execute (envelope_of message c) now (engine self) = (e', Ret o) →
      Engine.accepted (Command.receipt o) = None →
      snapshot_record e' (identity self) = Some snap →
      submit_case principal message now self (set_snapshot snap (set_engine e' self))
        (Ret (mk_submission (mk_output (command_result (Command.receipt o)) []) false None []))
  | case_accepted u c e' o a snap self' failures :
      authorization_denials self !! Protocol.idempotency_key message = None →
      hook_authorize (authorizer self) principal
        (command_class (Protocol.payload message)) = Ok u →
      engine_command (Protocol.payload message) = Some c →
      Command.receipts (Engine.commands (engine self)) !! Protocol.idempotency_key message = None →
      Engine.execute (envelope_of message c) now (engine self) = (e', Ret o) →
      Engine.accepted (Command.receipt o) = Some a →
      snapshot_record e' (identity self) = Some snap →
      publish [LiveDurable (durable_event self c e')] (accepted_service self c e' snap) =
        (self', failures) →
      submit_case principal message now self self'
        (Ret (mk_submission (mk_output (command_result (Command.receipt o)) [durable_event self c e'])
           false (Some (mk_accepted (Protocol.idempotency_key message) (Command.receipt o)
                          (Command.events o))) failures))
  | case_exhausted u :
      authorization_denials self !! Protocol.idempotency_key message = None →
      hook_authorize (authorizer self) principal
        (command_class (Protocol.payload message)) = Ok u →
      submit_case principal message now self self
        (Throw (CtlEngine (Engine.ErrSchedule Actions.SequenceExhausted))).

(** Arguments in their ranges, and no stinger while a T-bar is held. *)
Definition message_ok self (message : Protocol.CommandMessage) : Prop :=
  payload_ok (Protocol.payload message) ∧
  ∀ c, engine_command (Protocol.payload message) = Some c →
    EngineSim.fires_idle (Engine.show (engine self)) c.

Lemma domain_envelope_fields message c :
  Command.idempotency_key (envelope_of message c) = Protocol.idempotency_key message ∧
  Command.command (envelope_of message c) = c.
Proof.
  unfold envelope_of, Protocol.domain_envelope.
  by destruct (Protocol.expected_revision message), (Protocol.deadline_ms message).
Qed.
(** [commit_execute] of what was prepared is [execute]. *)
Lemma prepared_commit e env now execution :
  Engine.prepare_execute e env now = Ret (Engine.Prepared execution) →
  Engine.commit_execute execution e =
    (Engine.staged execution, Ret (Engine.prepared_outcome execution)) ∧
  Engine.execute env now e =
    (Engine.staged execution, Ret (Engine.prepared_outcome execution)).
Proof.
  intros Hp.
  assert (Hc : Engine.commit_execute execution e =
    (Engine.staged execution, Ret (Engine.prepared_outcome execution))).
  { revert Hp. unfold Engine.prepare_execute. destruct (_ !! _); [done|].
    destruct (Engine.execute_immediate env now e) as [st [o|x|]]; [|done..].
    intros [= <-]. unfold Engine.commit_execute, mbind, stm_bind, st_get, st_require, st_put.
    simpl. by rewrite decide_True. }
  split; [done|]. unfold Engine.execute, mbind, stm_bind, st_get. by rewrite Hp.
Qed.
(** What a fresh, authorized command leads to. *)
Lemma engine_submission_rejected identity key e o :
  Command.replayed o = false → Engine.accepted (Command.receipt o) = None →
  engine_submission identity key e o =
    Some (mk_submission (mk_output (command_result (Command.receipt o)) []) false None []).
Proof.
  intros Hr Ha. unfold engine_submission. by rewrite Hr, Ha.
Qed.
Lemma engine_submission_accepted identity key e o a p :
  Command.replayed o = false → Engine.accepted (Command.receipt o) = Some a →
  accepted_event_payload e o = Some p →
  engine_submission identity key e o = Some (mk_submission
    (mk_output (command_result (Command.receipt o))
       [Protocol.mk_event_message (Protocol.mk_cursor identity (Command.revision (Engine.commands e))) p])
    false (Some (mk_accepted key (Command.receipt o) (Command.events o))) []).
Proof.
  intros Hr Ha Hp. unfold engine_submission. rewrite Hr, Ha, Hp.
  by rewrite (bool_decide_eq_true_2 (is_Some (Some a))) by by eexists.
Qed.

Section submit.
Context (principal : Auth.Principal) (message : Protocol.CommandMessage) (now : Z).
Context (self : service) (Hwf : control_wf self) (Hok : message_ok self message).

Lemma commit_case execution c u :
  authorization_denials self !! Protocol.idempotency_key message = None →
  hook_authorize (authorizer self) principal
    (command_class (Protocol.payload message)) = Ok u →
  engine_command (Protocol.payload message) = Some c → EngineSim.command_ok c →
  Command.receipts (Engine.commands (engine self)) !! Protocol.idempotency_key message = None →
  Engine.prepare_execute (engine self) (envelope_of message c) now =
    Ret (Engine.Prepared execution) →
  ∃ submission,
    engine_submission (identity self) (Protocol.idempotency_key message) (Engine.staged execution)
      (Engine.prepared_outcome execution) = Some submission ∧
    let r := commit (mk_prepared (Protocol.idempotency_key message) submission
               (PreparedEngine execution c)) self in
    submit_case principal message now self r.1 r.2.
Proof.
  intros Hd Ha Hc Hcok Hk Hp. pose proof (EngineSafety.reached_wf _ (cw_engine _ Hwf)) as He.
  destruct (prepared_commit _ _ _ _ Hp) as [Hcom Hx].
  destruct (domain_envelope_fields message c) as [Hkey Hcmd].
  pose proof (EngineRun.execute_spec (engine self) He (envelope_of message c) now
    ltac:(by rewrite Hcmd) ltac:(by rewrite Hkey) ltac:(rewrite Hcmd; by apply Hok)) as Hs.
  rewrite Hx in Hs. destruct Hs as (He'&_&Hdec&_).
  set (e' := Engine.staged execution) in *. set (o := Engine.prepared_outcome execution) in *.
  pose proof (EngineRun.decision_cases (engine self) He (envelope_of message c) now
    ltac:(by rewrite Hkey) _ _ Hdec) as (Hr&_).
  pose proof (snapshot_total e' (identity self) He') as Hsnap. simpl in Hsnap.
  set (snap := mk_record _ _) in Hsnap.
  destruct (Engine.accepted (Command.receipt o)) as [a|] eqn:Hacc.
  - pose proof (EngineEffect.command_effect _ _ _ _ _ _ ltac:(by rewrite Hkey) Hdec Hacc) as Heff.
    rewrite Hcmd in Heff.
    pose proof (accepted_event_total c (Engine.show (engine self)) e' o
      (EngineRun.ew_show _ He') Heff) as Hpay.
    eexists. split; [by eapply engine_submission_accepted|].
    unfold commit, mbind, stm_bind, st_zoom, st_map_err, st_get, st_put, st_expect, mret, stm_ret.
    cbn [prepared_kind prepared_submission]. rewrite Hcom.
    cbn [outcome_map_err submission_accepted output output_events set_pending engine identity
      set_engine set_log].
    rewrite Hsnap. cbn [fmap list_fmap].
    change (set_snapshot snap _) with (accepted_service self c e' snap).
    change (Protocol.mk_event_message _ _) with (durable_event self c e').
    destruct (publish _ _) as [self' failures] eqn:Hpub. by eapply case_accepted.
  - eexists. split; [by eapply engine_submission_rejected|].
    unfold commit, mbind, stm_bind, st_zoom, st_map_err, st_get, st_put, st_expect, mret, stm_ret.
    cbn [prepared_kind prepared_submission]. rewrite Hcom.
    cbn [outcome_map_err submission_accepted output output_events engine identity set_engine].
    rewrite Hsnap. cbn [fmap list_fmap publish foldl]. by eapply case_rejected.
Qed.
Lemma submit_cases :
  submit_case principal message now self (submit principal message now self).1
    (submit principal message now self).2.
Proof.
  unfold submit, prepare_submit, mbind, stm_bind, st_get.
  destruct (authorization_denials self !! _) as [result|] eqn:Hd; [by apply case_denied_before|].
  destruct (hook_authorize (authorizer self) principal _) as [u|denial] eqn:Ha.
  2: { by apply case_denied. }
  destruct Hok as [Hp Hf]. destruct (engine_command_total _ Hp) as (c&Hc&Hcok). rewrite Hc.
  change (Protocol.domain_envelope message c) with (envelope_of message c).
  destruct (domain_envelope_fields message c) as [Hkey Hcmd].
  pose proof (EngineSafety.reached_wf _ (cw_engine _ Hwf)) as He.
  destruct (Command.receipts (Engine.commands (engine self)) !! Protocol.idempotency_key message)
    as [receipt|] eqn:Hk.
  { unfold Engine.prepare_execute. rewrite Hkey, Hk. by eapply case_known. }
  pose proof (EngineRun.execute_spec (engine self) He (envelope_of message c) now
    ltac:(by rewrite Hcmd) ltac:(by rewrite Hkey) ltac:(rewrite Hcmd; by apply Hf)) as Hs.
  destruct (Engine.prepare_execute (engine self) (envelope_of message c) now)
    as [[o|execution]|x|] eqn:Hprep.
  - revert Hprep. unfold Engine.prepare_execute. rewrite Hkey, Hk.
    by destruct (Engine.execute_immediate _ _ _) as [? [| |]].
  - destruct (commit_case execution c u Hd Ha Hc Hcok Hk Hprep) as (sub&->&Hcase). exact Hcase.
  - revert Hs. unfold Engine.execute, mbind, stm_bind, st_get. rewrite Hprep.
    intros [_ ->]. by eapply case_exhausted.
  - revert Hs. unfold Engine.execute, mbind, stm_bind, st_get. by rewrite Hprep.
Qed.
End submit.

(** What the engine tells after a fresh command. *)
Lemma executed_facts self message c e' o now :
  control_wf self → message_ok self message →
  engine_command (Protocol.payload message) = Some c →
  Command.receipts (Engine.commands (engine self)) !! Protocol.idempotency_key message = None →
  Engine.execute (envelope_of message c) now (engine self) = (e', Ret o) →
  EngineSafety.reached e' ∧
  Engine.runtime_generation e' = generation self ∧
  match Engine.accepted (Command.receipt o) with
  | Some _ =>
      EngineRun.pending_commands e' = EngineRun.pending_commands (engine self) ++ [c] ∧
      Command.revision (Engine.commands e') = current_revision self + 1 ∧
      EngineEffect.effect c (Engine.show (engine self)) (Engine.show e') (event_payloads o)
  | None =>
      EngineRun.pending_commands e' = EngineRun.pending_commands (engine self) ∧
      Command.revision (Engine.commands e') = current_revision self ∧
      Engine.show e' = Engine.show (engine self)
  end.
Proof.
  intros Hwf [Hp Hf] Hc Hk Hx. destruct (engine_command_total _ Hp) as (c'&Hc'&Hcok).
  assert (c' = c) as -> by congruence.
  destruct (domain_envelope_fields message c) as [Hkey Hcmd].
  pose proof (EngineSafety.reached_wf _ (cw_engine _ Hwf)) as He.
  pose proof (EngineRun.execute_spec (engine self) He (envelope_of message c) now
    ltac:(by rewrite Hcmd) ltac:(by rewrite Hkey) ltac:(rewrite Hcmd; by apply Hf)) as Hs.
  rewrite Hx in Hs. destruct Hs as (He'&Hsame&Hdec&Hcase).
  pose proof (EngineRun.decision_cases (engine self) He (envelope_of message c) now
    ltac:(by rewrite Hkey) _ _ Hdec) as (_&_&_&Hdc).
  split; [|split; [apply (EngineRun.sr_generation _ _ Hsame)|]].
  - eapply (EngineSafety.reached_step _ (EngineSafety.OpExecute (envelope_of message c) now));
      [apply (cw_engine _ Hwf)|split; rewrite Hcmd; [done|by apply Hf]|].
    simpl. rewrite Hx. reflexivity.
  - destruct (Engine.accepted (Command.receipt o)) as [a|] eqn:Hacc.
    + destruct Hcase as (_&[Hpe Hrev _]). rewrite Hcmd in Hpe. split_and!; [done..|].
      pose proof (EngineEffect.command_effect _ _ _ _ _ _ ltac:(by rewrite Hkey) Hdec Hacc) as Heff.
      by rewrite Hcmd in Heff.
    + destruct Hcase as (Hsh&Hpl&_). split_and!; [|apply Hdc|done].
      unfold EngineRun.pending_commands. by rewrite Hpl.
Qed.

(** The last [n] of a run of revisions is such a run. *)
Lemma keep_last_fmap {B C} (f : B → C) n l : f <$> keep_last n l = keep_last n (f <$> l).
Proof. unfold keep_last. by rewrite length_fmap, fmap_drop. Qed.
Lemma keep_last_length {B} n (l : list B) : length (keep_last n l) = (length l `min` n)%nat.
Proof. unfold keep_last. rewrite length_drop. lia. Qed.
Lemma drop_seqZ k a m : drop k (seqZ a m) = seqZ (a + Z.of_nat k) (m - Z.of_nat k).
Proof.
  apply list_eq. intros i. rewrite lookup_drop.
  destruct (decide (Z.of_nat (k + i) < m)).
  - rewrite !lookup_seqZ_lt by lia. f_equal. lia.
  - rewrite !lookup_seqZ_ge by lia. done.
Qed.
Lemma keep_last_seqZ n m k :
  keep_last n (seqZ (m - Z.of_nat k + 1) (Z.of_nat k)) =
  seqZ (m - Z.of_nat (k `min` n) + 1) (Z.of_nat (k `min` n)).
Proof. unfold keep_last. rewrite length_seqZ, drop_seqZ. f_equal; lia. Qed.

Lemma seqZ_snoc a m : 0 ≤ m → seqZ a m ++ [a + m] = seqZ a (m + 1).
Proof. intros. rewrite seqZ_app by lia. f_equal. Qed.
(** The log after one more event. *)
Lemma log_append self e :
  log_ok self →
  Protocol.cursor e = Protocol.mk_cursor (identity self) (current_revision self + 1) →
  let l := keep_last (retained_events (limits self)) (log self ++ [e]) in
  Protocol.cursor <$> l = Protocol.mk_cursor (identity self) <$>
    seqZ (current_revision self + 1 - Z.of_nat (length l) + 1) (Z.of_nat (length l)) ∧
  (length l ≤ retained_events (limits self))%nat.
Proof.
  intros [Hc Hl] He l.
  assert (Hall : Protocol.cursor <$> log self ++ [e] = Protocol.mk_cursor (identity self) <$>
    seqZ (current_revision self + 1 - Z.of_nat (length (log self ++ [e])) + 1)
      (Z.of_nat (length (log self ++ [e])))).
  { rewrite fmap_app, Hc, length_app. simpl. rewrite He, Nat2Z.inj_add.
    change (Z.of_nat 1) with 1. rewrite <-seqZ_snoc by lia. rewrite fmap_app.
    do 2 f_equal; [f_equal; lia|]. simpl. do 2 f_equal. lia. }
  unfold l. rewrite keep_last_fmap, keep_last_length, Hall, <-keep_last_fmap, keep_last_seqZ.
  split; [done|lia].
Qed.

Lemma control_accepted_wf self message c e' o a snap now :
  control_wf self → message_ok self message →
  engine_command (Protocol.payload message) = Some c →
  Command.receipts (Engine.commands (engine self)) !! Protocol.idempotency_key message = None →
  Engine.execute (envelope_of message c) now (engine self) = (e', Ret o) →
  Engine.accepted (Command.receipt o) = Some a →
  snapshot_record e' (identity self) = Some snap →
  control_wf (accepted_service self c e' snap).
Proof.
  intros Hwf Hok Hc Hk Hx Ha Hsnap.
  destruct (executed_facts self message c e' o now Hwf Hok Hc Hk Hx) as (Hr&Hg&Hcase).
  rewrite Ha in Hcase. destruct Hcase as (Hp&Hrev&_). destruct Hwf as [_ _ [Hpc Hpr] Hlog Hseq Hs Hn].
  pose proof (EngineSafety.reached_wf _ Hr) as He'.
  split; try done.
  - unfold pending_ok, generation. cbn [accepted_service set_snapshot set_pending set_log set_engine
      pending_runtime_actions engine]. rewrite !fmap_app, Hpc, Hpr, Hp. split; [done|].
    cbn [fmap list_fmap pending_revision]. rewrite Hg, length_app. simpl.
    rewrite Nat2Z.inj_add. rewrite <-seqZ_snoc by lia. do 2 f_equal.
    pose proof (EngineRun.ew_generation _ He') as [_ Hgen].
    rewrite (EngineRun.ew_pending _ He') in Hgen. rewrite Hg in Hgen.
    apply (f_equal length) in Hp, Hpc. unfold EngineRun.pending_commands in Hp, Hpc.
    rewrite length_app, !length_fmap in Hp. rewrite !length_fmap in Hpc. simpl in Hp. lia.
  - unfold log_ok, current_revision.
    cbn [accepted_service set_snapshot set_pending set_log set_engine log engine identity limits].
    rewrite Hrev. apply (log_append self (durable_event self c e') Hlog).
    unfold durable_event. simpl. by rewrite Hrev.
  - unfold generation in *. simpl in *. by rewrite Hg.
Qed.
Lemma control_rejected_wf self message c e' o snap now :
  control_wf self → message_ok self message →
  engine_command (Protocol.payload message) = Some c →
  Command.receipts (Engine.commands (engine self)) !! Protocol.idempotency_key message = None →
  Engine.execute (envelope_of message c) now (engine self) = (e', Ret o) →
  Engine.accepted (Command.receipt o) = None →
  snapshot_record e' (identity self) = Some snap →
  control_wf (set_snapshot snap (set_engine e' self)).
Proof.
  intros Hwf Hok Hc Hk Hx Ha Hsnap.
  destruct (executed_facts self message c e' o now Hwf Hok Hc Hk Hx) as (Hr&Hg&Hcase).
  rewrite Ha in Hcase. destruct Hcase as (Hp&Hrev&_). destruct Hwf as [_ _ [Hpc Hpr] Hlog Hseq Hs Hn].
  split; try done.
  - unfold pending_ok, generation in *. simpl in *. by rewrite Hg, Hp.
  - unfold log_ok, current_revision in *. simpl in *. by rewrite Hrev.
  - unfold generation in *. simpl in *. by rewrite Hg.
Qed.
Lemma remember_fields key result self :
  ∃ denials order, remember_authorization_denial key result self = set_denials denials order self.
Proof.
  unfold remember_authorization_denial. case_decide.
  - exists (authorization_denials self), (authorization_denial_order self). by destruct self.
  - destruct (expire_denials _ _ _) as [order denials]. by eexists _, _.
Qed.
Lemma remember_wf key result self :
  control_wf self → control_wf (remember_authorization_denial key result self).
Proof.
  destruct (remember_fields key result self) as (d&o&->). intros []. by split.
Qed.
(** Publishing keeps the invariant. *)
Lemma publish_control_wf events self self' failures :
  publish events self = (self', failures) → control_wf self → control_wf self'.
Proof.
  intros Hp Hwf. destruct (publish_core events self) as [Hc Hn].
  pose proof (publish_wf events self (cw_subscribers _ Hwf)) as Hs.
  assert (Hsub : ∀ id, id ∈ subscribers (publish events self).1 → id ∈ subscribers self).
  { intros id Hid. by apply (offered_events events (self, []) id (cw_subscribers _ Hwf)) in Hid as [? _]. }
  rewrite Hp in *. simpl in *. eapply core_wf; [done..| |done].
  intros id Hid. rewrite Hn. apply (cw_fresh _ Hwf). auto.
Qed.
Lemma submit_wf principal message now self self' r :
  control_wf self → message_ok self message →
  submit_case principal message now self self' r → control_wf self'.
Proof.
  intros Hwf Hok Hcase. destruct Hcase; try done.
  - by apply remember_wf.
  - by eapply control_rejected_wf.
  - eapply publish_control_wf; [done|]. by eapply control_accepted_wf.
Qed.

(** ** Ticking *)

(** The service but for what the bookkeeping of a tick changes. *)
Definition rest self : service :=
  mk_control (engine self) (authorizer self) (identity self) (limits self)
    (authorization_denials self) (authorization_denial_order self) (log self) (snapshot self)
    (subscribers self) (next_subscriber_id self) [] None None 0 0 (channels self).
(** Runtime events are numbered on: from one within a generation, and generations
    only grow. *)
Fixpoint numbered (gen seq : Z) (l : list Protocol.RuntimeEventMessage) (gen' seq' : Z) : Prop :=
  match l with
  | [] => gen' = gen ∧ seq' = seq
  | event :: l =>
      (Protocol.generation event = gen ∧ Protocol.sequence event = seq + 1 ∨
       gen < Protocol.generation event ∧ Protocol.sequence event = 1) ∧
      numbered (Protocol.generation event) (Protocol.sequence event) l gen' seq'
  end.
Definition numbers self l self' : Prop :=
  numbered (runtime_sequence_generation self) (runtime_sequence self) l
    (runtime_sequence_generation self') (runtime_sequence self').
Lemma numbered_app gen seq l1 gen1 seq1 l2 gen2 seq2 :
  numbered gen seq l1 gen1 seq1 → numbered gen1 seq1 l2 gen2 seq2 →
  numbered gen seq (l1 ++ l2) gen2 seq2.
Proof.
  revert gen seq. induction l1 as [|ev l1 IH]; intros gen seq; cbn [numbered app].
  { by intros [-> ->]. }
  intros [H1 H2] H3. split; [done|]. by apply IH.
Qed.

(** [n] more events can be numbered in the generation [gen]. *)
Definition budget (gen n : Z) self : Prop :=
  runtime_sequence_generation self ≤ gen ∧ 0 ≤ runtime_sequence self ≤ 3 ∧
  (runtime_sequence_generation self = gen → runtime_sequence self + load self + n ≤ 3) ∧
  load self + n ≤ 3.
Lemma load_bounds self : 0 ≤ load self ≤ 2.
Proof. unfold load. repeat case_decide; lia. Qed.
Lemma budget_ok gen self : budget gen 0 self ↔ sequence_ok gen self.
Proof.
  unfold budget, sequence_ok. pose proof (load_bounds self).
  split; intros; destruct_and?; split_and!; try done; try lia.
  all: intros; rewrite ?Z.add_0_r in *; auto with lia.
Qed.

Lemma runtime_event_eq server revision gen event self :
  runtime_sequence_generation self ≤ gen → 0 ≤ runtime_sequence self ≤ 3 →
  let seq := if decide (gen ≠ runtime_sequence_generation self) then 1
             else runtime_sequence self + 1 in
  runtime_event server revision gen event self =
    (set_sequence gen seq self, Ret (Protocol.mk_runtime_event server revision gen seq event)).
Proof.
  intros Hg Hs. unfold runtime_event, mbind, stm_bind, st_get, st_require, st_put, st_lift, mret, stm_ret.
  case_decide as Hne.
  - rewrite decide_True by lia. simpl. done.
  - rewrite checked_in by int_lia. simpl. do 2 f_equal. unfold set_sequence. f_equal. lia.
Qed.
Lemma runtime_event_spec server revision gen event n self :
  budget gen n self → 1 ≤ n →
  ∃ self' ev, runtime_event server revision gen event self = (self', Ret ev) ∧
    rest self' = rest self ∧ pending_runtime_actions self' = pending_runtime_actions self ∧
    budget gen (n - 1) self' ∧ numbers self [ev] self' ∧
    Protocol.runtime_revision ev = revision ∧ Protocol.generation ev = gen ∧
    Protocol.runtime_event ev = event.
Proof.
  intros (Hg&Hs&Hload&Hn) H1. rewrite (runtime_event_eq _ _ _ _ _ Hg Hs).
  eexists _, _. split; [reflexivity|]. split_and!; try done.
  - unfold budget. change (load (set_sequence _ _ self)) with (load self).
    pose proof (load_bounds self). cbn [set_sequence runtime_sequence_generation runtime_sequence].
    case_decide as Hne; [|specialize (Hload ltac:(lia))]; split_and!; intros; lia.
  - unfold numbers. cbn. case_decide as Hne; (split; [lia|done]).
Qed.
Lemma runtime_realized_eq server revision gen domain self :
  Switcher.switcher_wf (Engine.realized_switcher (engine self)) →
  runtime_realized server revision gen domain self =
  runtime_event server revision gen (Protocol.RuntimeLifecycleEvent.Realized domain
    (manual_status (Engine.realized_switcher (engine self)))
    (fade_status (Engine.realized_switcher (engine self)))) self.
Proof.
  intros Hr. unfold runtime_realized, mbind, stm_bind, st_get, st_expect.
  unfold Engine.realized_manual_transition, Engine.realized_fade_to_black.
  change (option_bind _ _ ?f ?o) with (o ≫= f).
  by rewrite manual_status_total, fade_state_total.
Qed.

(** The commands that are realized by the frame that runs them. *)
Definition immediate (c : Engine.EngineCommand.t) : bool :=
  negb (is_program_transition c) && negb (is_fade_to_black c).
(** What the action [p], run as generation [gen], reports. *)
Definition reports (pub : bool) (r : Switcher.SwitcherState) (gen : Z) (p : PendingRuntimeAction)
    (evs : list Protocol.RuntimeEventMessage) : Prop :=
  pub = true → immediate (pending_command p) = true →
  ∃ ev, ev ∈ evs ∧ Protocol.runtime_revision ev = pending_revision p ∧
    Protocol.generation ev = gen ∧
    Protocol.runtime_event ev = Protocol.RuntimeLifecycleEvent.Realized
      (runtime_domain (pending_command p)) (manual_status r) (fade_status r).

Lemma budget_next gen gen0 n self :
  sequence_ok gen0 self → gen0 < gen → n ≤ 1 → budget gen n self.
Proof.
  intros (?&?&_) ??. pose proof (load_bounds self). unfold budget. split_and!; intros; lia.
Qed.
Lemma apply_pending_spec server pub prev offset p l gen0 self :
  pending_runtime_actions self = p :: l →
  Switcher.switcher_wf (Engine.realized_switcher (engine self)) →
  sequence_ok gen0 self → gen0 < prev + offset → in_ty U64 (prev + offset) →
  ∃ self' evs, apply_pending server pub prev offset self = (self', Ret evs) ∧
    rest self' = rest self ∧ pending_runtime_actions self' = l ∧
    sequence_ok (prev + offset) self' ∧ numbers self evs self' ∧
    reports pub (Engine.realized_switcher (engine self)) (prev + offset) p evs.
Proof.
  intros Hp Hr Hseq Hlt Hin. set (gen := prev + offset) in *.
  pose proof (budget_next gen gen0 1 self Hseq Hlt ltac:(lia)) as Hb.
  assert (Hnone : ∀ s, rest s = rest self → runtime_sequence_generation s =
    runtime_sequence_generation self → runtime_sequence s = runtime_sequence self →
    sequence_ok gen s ∧ numbers self [] s).
  { intros s _ Hg Hq. destruct Hseq as (?&?&_). unfold sequence_ok, numbers. rewrite Hg, Hq.
    split; [|done]. split_and!; intros; lia. }
  unfold apply_pending, mbind, stm_bind, st_get. rewrite Hp.
  unfold st_put, mret, stm_ret, st_lift, st_modify. fold gen. rewrite checked_in by done. simpl.
  destruct (is_program_transition (pending_command p)) eqn:Ht.
  { eexists _, _. split; [reflexivity|]. split; [done|]. split; [done|].
    destruct (Hnone (set_active_transition (Some (mk_active (pending_revision p) gen))
      (set_pending l self))) as [Hs Hn]; [done..|]. split; [done|]. split; [done|].
    intros _ Hi. unfold immediate in Hi. by rewrite Ht in Hi. }
  destruct (is_fade_to_black (pending_command p)) eqn:Hf.
  { assert (Hrep : ∀ evs, reports pub (Engine.realized_switcher (engine self)) gen p evs).
    { intros evs _ Hi. unfold immediate in Hi. by rewrite Hf, andb_false_r in Hi. }
    set (s1 := set_active_fade (Some (mk_active (pending_revision p) gen)) (set_pending l self)).
    destruct (Hnone s1) as [Hs1 Hn1]; [done..|].
    change (active_fade_to_black (set_pending l self)) with (active_fade_to_black self).
    destruct (active_fade_to_black self) as [old|] eqn:Ho; [|exists s1, []; split_and!; try done; apply Hrep].
    destruct pub; [|exists s1, []; split_and!; try done; apply Hrep].
    assert (Hb1 : budget gen 1 s1).
    { destruct Hseq as (?&?&_). pose proof (load_bounds s1). split_and!; simpl; intros; lia. }
    unfold runtime_superseded.
    destruct (runtime_event_spec server (active_revision old) gen
      (Protocol.RuntimeLifecycleEvent.Superseded (pending_revision p)) 1 s1 Hb1 ltac:(lia))
      as (s2&ev&->&Hrest&Hpend&Hb2&Hn2&_).
    exists s2, [ev]. split; [done|]. split; [done|]. split; [done|].
    split; [by apply budget_ok|]. split; [done|]. apply Hrep. }
  set (s1 := set_pending l self).
  destruct pub.
  - rewrite runtime_realized_eq by done.
    destruct (runtime_event_spec server (pending_revision p) gen
      (Protocol.RuntimeLifecycleEvent.Realized (runtime_domain (pending_command p))
        (manual_status (Engine.realized_switcher (engine s1)))
        (fade_status (Engine.realized_switcher (engine s1)))) 1 s1 Hb ltac:(lia))
      as (s2&ev&->&Hrest&Hpend&Hb2&Hn2&Hrev&Hgen&Hev).
    exists s2, [ev]. split; [done|]. split; [done|]. split; [done|].
    split; [by apply budget_ok|]. split; [done|]. intros _ _. exists ev. by rewrite list_elem_of_singleton.
  - destruct (Hnone s1) as [Hs1 Hn1]; [done..|]. by exists s1, [].
Qed.
Lemma rest_engine self self' : rest self' = rest self → engine self' = engine self.
Proof. by intros [=]. Qed.
Lemma apply_all_pending_spec server pub prev n l0 l offset gen0 self :
  length l0 = n → pending_runtime_actions self = l0 ++ l →
  Switcher.switcher_wf (Engine.realized_switcher (engine self)) →
  sequence_ok gen0 self → gen0 = prev + offset - 1 → 0 ≤ gen0 → prev + offset - 1 + Z.of_nat n ≤ ty_max U64 →
  ∃ self' evs, apply_all_pending server pub prev offset n self = (self', Ret evs) ∧
    rest self' = rest self ∧ pending_runtime_actions self' = l ∧
    sequence_ok (prev + offset - 1 + Z.of_nat n) self' ∧ numbers self evs self' ∧
    ∀ i p, l0 !! i = Some p →
      reports pub (Engine.realized_switcher (engine self)) (prev + offset + Z.of_nat i) p evs.
Proof.
  revert l0 offset gen0 self. induction n as [|n IH]; intros l0 offset gen0 self Hlen Hp Hr Hseq -> H0 Hmax.
  { exists self, []. destruct l0; [|done]. split; [done|]. split; [done|]. split; [done|].
    split; [|done]. by rewrite Z.add_0_r. }
  destruct l0 as [|p l0]; [done|]. cbn [apply_all_pending]. unfold mbind, stm_bind.
  destruct (apply_pending_spec server pub prev offset p (l0 ++ l) _ self Hp Hr Hseq ltac:(lia)
    ltac:(split; simpl ty_min; lia)) as (s1&evs1&->&Hrest1&Hp1&Hseq1&Hn1&Hrep1).
  pose proof (rest_engine _ _ Hrest1) as He1.
  destruct (IH l0 (offset + 1) (prev + offset) s1 ltac:(by injection Hlen) Hp1 ltac:(by rewrite He1)
    Hseq1 ltac:(lia) ltac:(lia) ltac:(lia)) as (s2&evs2&->&Hrest2&Hp2&Hseq2&Hn2&Hrep2).
  exists s2, (evs1 ++ evs2). split; [done|]. split; [congruence|]. split; [done|].
  split; [by replace (prev + offset - 1 + Z.of_nat (S n))
    with (prev + (offset + 1) - 1 + Z.of_nat n) by lia|].
  split; [by eapply numbered_app|]. rewrite He1 in Hrep2.
  intros [|i] q Hq Hpub Him.
  - injection Hq as <-. destruct (Hrep1 Hpub Him) as (ev&?&?&?&?). exists ev.
    rewrite elem_of_app, Z.add_0_r. by split_and!; [left|..].
  - destruct (Hrep2 i q Hq Hpub Him) as (ev&?&?&Hg&?). exists ev. rewrite elem_of_app.
    split_and!; [by right|done| |done]. rewrite Hg. lia.
Qed.
Lemma take_completed_spec self :
  ∃ self' l, take_completed_switcher_operations self = (self', Ret l) ∧
    rest self' = rest self ∧ pending_runtime_actions self' = pending_runtime_actions self ∧
    runtime_sequence_generation self' = runtime_sequence_generation self ∧
    runtime_sequence self' = runtime_sequence self ∧
    load self' + Z.of_nat (length l) = load self.
Proof.
  unfold take_completed_switcher_operations, mbind, stm_bind, st_get, st_modify, mret, stm_ret.
  destruct (decide (transition_complete (engine self))) as [Ht|Ht]; simpl;
    destruct (decide (fade_complete (engine self))) as [Hf|Hf].
  all: eexists _, _; split; [reflexivity|]; split_and!; try done.
  all: rewrite merge_sort_Permutation, ?length_app; unfold load; simpl;
    destruct (active_transition self), (active_fade_to_black self);
    repeat case_decide; simpl; try lia; exfalso;
    repeat match goal with
    | H : ¬ is_Some (Some _) |- _ => apply H; by eexists
    | H : is_Some None |- _ => by destruct H
    end.
Qed.
Lemma realize_operations_spec server gen l self :
  Switcher.switcher_wf (Engine.realized_switcher (engine self)) →
  budget gen (Z.of_nat (length l)) self →
  ∃ self' evs, realize_operations server gen l self = (self', Ret evs) ∧
    rest self' = rest self ∧ pending_runtime_actions self' = pending_runtime_actions self ∧
    sequence_ok gen self' ∧ numbers self evs self'.
Proof.
  revert self. induction l as [|op l IH]; intros self Hr Hb.
  { exists self, []. split; [done|]. split; [done|]. split; [done|]. split; [|done].
    by apply budget_ok. }
  cbn [realize_operations]. unfold mbind, stm_bind. rewrite runtime_realized_eq by done.
  destruct (runtime_event_spec server (active_revision op) gen
    (Protocol.RuntimeLifecycleEvent.Realized "switcher"
      (manual_status (Engine.realized_switcher (engine self)))
      (fade_status (Engine.realized_switcher (engine self)))) _ self Hb ltac:(simpl; lia))
    as (s1&ev&->&Hrest&Hpend&Hb1&Hn1&_).
  pose proof (rest_engine _ _ Hrest) as He.
  destruct (IH s1) as (s2&evs&->&Hrest2&Hpend2&Hs2&Hn2); [by rewrite He| |].
  { by replace (Z.of_nat (length l)) with (Z.of_nat (length (op :: l)) - 1) by (simpl; lia). }
  exists s2, (ev :: evs). split; [done|]. split; [congruence|]. split; [congruence|]. split; [done|].
  by apply (numbered_app _ _ [ev] (runtime_sequence_generation s1) (runtime_sequence s1)).
Qed.

(** What follows a tick of the engine that took all that was pending. *)
Lemma finish_tick_spec server pub prev l e' frame self :
  EngineSafety.reached e' → engine self = e' → Engine.result_generation frame = Engine.runtime_generation e' →
  pending_runtime_actions self = l →
  0 ≤ prev → Engine.runtime_generation e' = prev + Z.of_nat (length l) →
  Engine.runtime_generation e' ≤ ty_max U64 →
  sequence_ok prev self →
  ∃ self' snap evs failures s1,
    finish_tick server pub prev frame self = (self', Ret (mk_tick_outcome frame evs failures)) ∧
    publish (LiveRuntime <$> evs) (set_snapshot snap s1) = (self', failures) ∧
    snapshot_record e' (identity self) = Some snap ∧
    rest s1 = rest self ∧ pending_runtime_actions s1 = [] ∧
    sequence_ok (Engine.runtime_generation e') s1 ∧ numbers self evs s1 ∧
    ∀ i p, l !! i = Some p →
      reports pub (Engine.realized_switcher e') (prev + 1 + Z.of_nat i) p evs.
Proof.
  intros Hr He Hfr Hp H0 Hg Hmax Hseq. subst e'.
  pose proof (EngineSafety.reached_wf _ Hr) as Hew.
  pose proof (EngineRun.ew_realized _ Hew) as Hreal.
  unfold finish_tick, mbind, stm_bind, st_lift. rewrite Hfr.
  rewrite checked_in by (split; simpl ty_min; lia). cbn [ok_or].
  replace (Z.to_nat (Engine.runtime_generation (engine self) - prev)) with (length l) by lia.
  destruct (apply_all_pending_spec server pub prev (length l) l [] 1 prev self eq_refl
    ltac:(by rewrite app_nil_r) Hreal Hseq ltac:(lia) H0 ltac:(lia))
    as (s1&evs1&->&Hrest1&Hp1&Hseq1&Hn1&Hrep).
  replace (prev + 1 - 1 + Z.of_nat (length l)) with (Engine.runtime_generation (engine self))
    in Hseq1 by lia.
  destruct (take_completed_spec s1) as (s2&ops&->&Hrest2&Hp2&Hsg2&Hsq2&Hload).
  assert (Hb : budget (Engine.runtime_generation (engine self)) (Z.of_nat (length ops)) s2).
  { apply budget_ok in Hseq1. destruct Hseq1 as (?&?&Hl&?). unfold budget. rewrite Hsg2, Hsq2.
    split_and!; [done|lia|lia| |lia]. intros Heq. specialize (Hl Heq). lia. }
  pose proof (rest_engine _ _ Hrest1) as He1. pose proof (rest_engine _ _ Hrest2) as He2.
  assert (∃ s3 more, (if pub then realize_operations server (Engine.runtime_generation (engine self)) ops
      else mret []) s2 = (s3, Ret more) ∧ rest s3 = rest s2 ∧
      pending_runtime_actions s3 = pending_runtime_actions s2 ∧
      sequence_ok (Engine.runtime_generation (engine self)) s3 ∧ numbers s2 more s3)
    as (s3&more&->&Hrest3&Hp3&Hseq3&Hn3).
  { destruct pub.
    - apply realize_operations_spec; [by rewrite He2, He1|done].
    - exists s2, []. split; [done|]. split; [done|]. split; [done|]. split; [|done].
      apply budget_ok. destruct Hb as (?&?&Hl&?). split_and!; [done|lia|lia| |lia].
      intros Heq. specialize (Hl Heq). lia. }
  pose proof (rest_engine _ _ Hrest3) as He3.
  pose proof (snapshot_total (engine self) (identity self) Hew) as Hsnap. simpl in Hsnap.
  set (snap := mk_record _ _) in Hsnap. unfold st_get, st_expect, st_put.
  replace (identity s3) with (identity self).
  2: { assert (Hi : rest s3 = rest self) by congruence. by injection Hi. }
  rewrite He3, He2, He1, Hsnap.
  destruct (publish (LiveRuntime <$> (evs1 ++ more)) (set_snapshot snap s3)) as [s4 failures] eqn:Hpub.
  exists s4, snap, (evs1 ++ more), failures, s3. split; [done|]. split; [done|]. split; [done|].
  split; [congruence|]. split; [congruence|]. split; [done|]. split.
  - apply (numbered_app _ _ _ (runtime_sequence_generation s1) (runtime_sequence s1)); [done|].
    unfold numbers in Hn3. by rewrite Hsg2, Hsq2 in Hn3.
  - intros i p Hi Hpub' Him. destruct (Hrep i p Hi Hpub' Him) as (ev&?&?). exists ev.
    split; [|done]. apply elem_of_app. by left.
Qed.

(** What a tick leaves: the engine ticked, and every pending action reported. *)
Record ticked (pub : bool) self self' (out : TickOutcome) : Prop := {
  td_engine : Engine.tick (engine self) = (engine self', Ret (tick_frame out));
  td_wf : control_wf self';
  td_commands : Engine.commands (engine self') = Engine.commands (engine self);
  td_identity : identity self' = identity self;
  td_limits : limits self' = limits self;
  td_log : log self' = log self;
  td_numbers : numbers self (tick_runtime_events out) self';
  td_bound : runtime_sequence self' ≤ 3;
  td_none : pending_runtime_actions self' = [];
  td_published : ∃ s, engine s = engine self' ∧ subscribers s = subscribers self ∧
    channels s = channels self ∧ next_subscriber_id s = next_subscriber_id self ∧
    limits s = limits self ∧
    publish (LiveRuntime <$> tick_runtime_events out) s = (self', tick_failures out);
  td_reports : ∀ i p, pending_runtime_actions self !! i = Some p →
    reports pub (Engine.realized_switcher (engine self')) (pending_revision p) p
      (tick_runtime_events out)
}.

Lemma rest_wf self self' e' snap :
  rest self' = rest (set_engine e' self) → control_wf self → EngineSafety.reached e' →
  Engine.commands e' = Engine.commands (engine self) →
  snapshot_record e' (identity self) = Some snap →
  pending_runtime_actions self' = [] → EngineRun.pending_commands e' = [] →
  sequence_ok (Engine.runtime_generation e') self' →
  control_wf (set_snapshot snap self').
Proof.
  intros Hr Hwf He Hc Hsn Hp Hpc Hs. destruct Hwf as [_ _ _ [Hlog Hlen] _ Hsub Hfr].
  destruct self, self'. unfold rest in Hr. simpl in Hr. injection Hr as -> -> -> -> -> -> -> -> -> -> ->.
  simpl in *. subst. split; try done.
  unfold log_ok, current_revision in *. simpl in *. by rewrite Hc.
Qed.
Lemma control_tick_spec {E} server (realizer : Engine.FrameResult → result E unit) pub self :
  control_wf self → server_matches server (identity self) → (∀ frame, realizer frame = Ok tt) →
  match tick_with_realizer_inner server realizer pub self with
  | (self', Ret out) => EngineRun.can_tick (engine self) ∧ ticked pub self self' out
  | (self', Throw x) => ¬ EngineRun.can_tick (engine self) ∧
      ∃ e' y, x = TickFailed (CtlEngine (Engine.ErrTick (Scheduler.Pacing y))) ∧
        Engine.tick (engine self) = (e', Throw (Engine.ErrTick (Scheduler.Pacing y))) ∧
        self' = set_engine e' self
  | (_, Panic) => False
  end.
Proof.
  intros Hwf Hm Hreal. pose proof (EngineSafety.reached_wf _ (cw_engine _ Hwf)) as He.
  unfold tick_with_realizer_inner, mbind, stm_bind, st_get, st_require, st_zoom, st_map_err, st_lift.
  rewrite decide_True by done.
  destruct (decide (EngineRun.can_tick (engine self))) as [Hcan|Hcan].
  2: { destruct (EngineRun.tick_exhausted _ He Hcan) as (e'&y&Ht&_). rewrite Ht. simpl. eauto 10. }
  destruct (EngineRun.tick_wf _ He Hcan) as (r'&e'&fr&_&Ht&Htk&Hsh&He'&_).
  rewrite Ht. simpl. rewrite Hreal. simpl.
  assert (Hr' : EngineSafety.reached e').
  { eapply (EngineSafety.reached_step _ EngineSafety.OpTick); [apply (cw_engine _ Hwf)|done|].
    simpl. rewrite Ht. reflexivity. }
  pose proof (EngineRun.ew_generation _ He) as [Hg0 Hg].
  rewrite (EngineRun.ew_pending _ He) in Hg.
  pose proof (cw_pending _ Hwf) as [Hpc Hpr].
  assert (Hlen : length (pending_runtime_actions self) = length (EngineRun.pending_list (engine self))).
  { apply (f_equal length) in Hpc. unfold EngineRun.pending_commands in Hpc.
    by rewrite !length_fmap in Hpc. }
  destruct (finish_tick_spec server pub (generation self) (pending_runtime_actions self) e' fr
    (set_engine e' self) Hr' eq_refl) as (self'&snap&evs&failures&s1&Hfin&Hpub&Hsnap&Hrest&Hp1&Hseq&Hn&Hrep);
    try done.
  - by rewrite (EngineRun.fs_generation _ _ _ _ Hsh), (EngineRun.tk_generation _ _ _ Htk).
  - rewrite (EngineRun.tk_generation _ _ _ Htk). unfold generation. lia.
  - rewrite (EngineRun.tk_generation _ _ _ Htk).
    apply (Command.wf_revision _ (EngineRun.ew_commands _ He)).
  - apply (cw_sequence _ Hwf).
  - rewrite Hfin. simpl. split; [done|].
    assert (Hwf1 : control_wf (set_snapshot snap s1)).
    { eapply rest_wf; [done|done|done|apply (EngineRun.tk_commands _ _ _ Htk)|done|done| |done].
      unfold EngineRun.pending_commands. by rewrite (EngineRun.tk_pending _ _ _ Htk). }
    pose proof (publish_core (LiveRuntime <$> evs) (set_snapshot snap s1)) as [Hc _].
    rewrite Hpub in Hc. apply core_eq in Hc as (Hce&_&Hci&Hcl&_&_&Hclog&_&Hcp&_&_&Hcg&Hcq).
    assert (Hrs : engine s1 = e' ∧ identity s1 = identity self ∧ limits s1 = limits self ∧
      log s1 = log self ∧ subscribers s1 = subscribers self ∧ channels s1 = channels self ∧
      next_subscriber_id s1 = next_subscriber_id self).
    { injection Hrest. by intros. }
    destruct Hrs as (Hs1&Hs2&Hs3&Hs4&Hs5&Hs6&Hs7).
    simpl in Hce, Hci, Hcl, Hclog, Hcp, Hcg, Hcq.
    split; rewrite ?Hce, ?Hci, ?Hcl, ?Hclog, ?Hcp, ?Hcq, ?Hs1; try done.
    + by eapply publish_control_wf.
    + apply (EngineRun.tk_commands _ _ _ Htk).
    + unfold numbers in Hn |- *. by rewrite Hcg, Hcq.
    + apply Hseq.
    + exists (set_snapshot snap s1). split_and!; first [done|simpl; congruence].
    + intros i p Hi. apply (f_equal (.!! i)) in Hpr. rewrite list_lookup_fmap, Hi in Hpr.
      pose proof (lookup_lt_Some _ _ _ Hi). rewrite lookup_seqZ_lt in Hpr by lia.
      injection Hpr as ->. by apply Hrep.
Qed.
End run.
