(* ===== verification/ControlSafety.v ===== *)
(** The control service over its lifetime: created for an engine, given commands,
    ticks and subscribers in any order.  [served] are the histories, with the
    answers that were given; the theorems say what holds of every one of them. *)
From S2P Require Import Prelude BTree Types ControlWire Control ControlView ControlRun.
From S2P Require Command Actions Plans Scheduler SwitcherTypes Switcher.
From S2P Require EngineShow Engine EngineSim EngineRun EngineSafety EngineEffect.
From S2P Require Protocol Auth.
#[local] Open Scope Z_scope.

(** ** Histories *)

Inductive control_op :=
  | OpSubmit (principal : Auth.Principal) (message : Protocol.CommandMessage) (now_millis : Z)
  | OpTick (server : Protocol.ServerIdentity)
  | OpShutdownTick (server : Protocol.ServerIdentity)
  | OpSubscribe
  | OpUnsubscribe (id : SubscriberId)
  | OpReceive (id : SubscriberId)
  | OpDrop (id : SubscriberId).
Inductive control_answer :=
  | Submitted (s : CommandSubmission)
  | Ticked (out : TickOutcome)
  | Subscribed (id : SubscriberId)
  | Unsubscribed (present : bool)
  | Polled (id : SubscriberId) (r : TryRecv)
  | Dropped.
Inductive control_failure :=
  | ControlFailed (e : ControlError)
  | SubscribeFailed (e : SubscribeError).
Definition answered {S E B} (fe : E → control_failure) (f : B → control_answer)
    (p : S * outcome E B) : S * outcome control_failure control_answer :=
  (p.1, match p.2 with
        | Ret b => Ret (f b)
        | Throw e => Throw (fe e)
        | Panic => Panic
        end).

(** The durable events, the runtime events and the live events of an answer. *)
Definition durables (a : control_answer) : list Protocol.EventMessage :=
  match a with
  | Submitted s => output_events (output s)
  | _ => []
  end.
Definition runtimes (a : control_answer) : list Protocol.RuntimeEventMessage :=
  match a with
  | Ticked out => tick_runtime_events out
  | _ => []
  end.
Definition lives (a : control_answer) : list LiveEvent :=
  (LiveDurable <$> durables a) ++ (LiveRuntime <$> runtimes a).
(** The live events that the subscriber [id] took from its channel. *)
Definition heard (id : SubscriberId) (a : control_answer) : list LiveEvent :=
  match a with
  | Polled i (Received e) => if decide (i = id) then [e] else []
  | _ => []
  end.

Section histories.
Context {A : Type} `{AuthorizationHook A}.
Abbreviation service := (ControlService A).
Implicit Types self : service.

Definition control_step (op : control_op) self : service * outcome control_failure control_answer :=
  match op with
  | OpSubmit principal message now =>
      answered ControlFailed Submitted (submit principal message now self)
  | OpTick server => answered ControlFailed Ticked (tick server self)
  | OpShutdownTick server => answered ControlFailed Ticked (tick_for_shutdown server self)
  | OpSubscribe => answered SubscribeFailed Subscribed (subscribe self)
  | OpUnsubscribe id => let '(s, b) := unsubscribe id self in (s, Ret (Unsubscribed b))
  | OpReceive id => let '(s, r) := try_recv id self in (s, Ret (Polled id r))
  | OpDrop id => (drop_subscription id self, Ret Dropped)
  end.
Definition op_ok self (op : control_op) : Prop :=
  match op with
  | OpSubmit _ message _ => message_ok self message
  | _ => True
  end.
Inductive served : service → list control_answer → service → Prop :=
  | served_nil self : served self [] self
  | served_cons self op a self1 l self2 :
      op_ok self op → control_step op self = (self1, Ret a) → served self1 l self2 →
      served self (a :: l) self2.
Definition control_reached self : Prop :=
  ∃ e authorizer engine_id log_id limits self0 l,
    EngineSafety.reached e ∧ EngineRun.pending_commands e = [] ∧
    control_new e authorizer engine_id log_id limits = Some self0 ∧
    served self0 l self.

(** ** Steps *)

Lemma served_app self1 l1 self2 l2 self3 :
  served self1 l1 self2 → served self2 l2 self3 → served self1 (l1 ++ l2) self3.
Proof. induction 1; [done|]. intros. simpl. eapply served_cons; eauto. Qed.
Lemma control_new_wf e (authorizer : A) engine_id log_id limits self :
  EngineSafety.reached e → EngineRun.pending_commands e = [] →
  control_new e authorizer engine_id log_id limits = Some self → control_wf self.
Proof.
  intros He Hp Hn. unfold control_new in Hn.
  destruct (snapshot_record e _) as [snap|] eqn:Hs; [|done]. injection Hn as <-.
  split; try done.
  split; simpl; [done|lia].
Qed.

(** The part of a step that clients see. *)
Record step_effect self (a : control_answer) self' : Prop := {
  se_identity : identity self' = identity self;
  se_limits : limits self' = limits self;
  se_revision : current_revision self' =
    current_revision self + Z.of_nat (length (durables a));
  se_cursors : Protocol.cursor <$> durables a = Protocol.mk_cursor (identity self) <$>
    seqZ (current_revision self + 1) (Z.of_nat (length (durables a)));
  se_log : log self' = keep_last (retained_events (limits self)) (log self ++ durables a);
  se_numbers : numbers self (runtimes a) self'
}.
(** Why an operation is refused, and what it leaves. *)
Definition refused (op : control_op) self self' (x : control_failure) : Prop :=
  match op with
  | OpSubmit _ _ _ =>
      self' = self ∧ x = ControlFailed (CtlEngine (Engine.ErrSchedule Actions.SequenceExhausted))
  | OpTick server | OpShutdownTick server =>
      self' = self ∧ ¬ server_matches server (identity self) ∧
        x = ControlFailed ServerIdentityMismatch ∨
      server_matches server (identity self) ∧ ¬ EngineRun.can_tick (engine self) ∧
        ∃ e' y, Engine.tick (engine self) = (e', Throw (Engine.ErrTick (Scheduler.Pacing y))) ∧
          self' = set_engine e' self ∧
          x = ControlFailed (CtlEngine (Engine.ErrTick (Scheduler.Pacing y)))
  | OpSubscribe =>
      self' = self ∧
      (x = SubscribeFailed LimitReached ∧
         (max_subscribers (limits self) ≤ size (subscribers self))%nat ∨
       x = SubscribeFailed IdentifierExhausted ∧ ¬ in_ty U64 (next_subscriber_id self + 1))
  | _ => False
  end.

Lemma keep_last_all {B} n (l : list B) : (length l ≤ n)%nat → keep_last n l = l.
Proof. intros. unfold keep_last. by replace (length l - n)%nat with 0%nat by lia. Qed.
(** A step that changes neither the engine nor the log. *)
Lemma quiet_effect self self' a :
  control_wf self → durables a = [] → runtimes a = [] →
  identity self' = identity self → limits self' = limits self → log self' = log self →
  current_revision self' = current_revision self →
  runtime_sequence_generation self' = runtime_sequence_generation self →
  runtime_sequence self' = runtime_sequence self →
  step_effect self a self'.
Proof.
  intros Hwf Hd Hr Hi Hl Hlog Hrev Hg Hs. pose proof (cw_log _ Hwf) as [_ Hlen].
  split; rewrite ?Hd; try done.
  - rewrite Hrev. simpl. lia.
  - by rewrite app_nil_r, keep_last_all.
  - unfold numbers. rewrite Hr. simpl. by rewrite Hg, Hs.
Qed.
Lemma core_quiet self self' a :
  control_wf self → durables a = [] → runtimes a = [] → core self' = core self →
  step_effect self a self'.
Proof.
  intros Hwf Hd Hr Hc. apply core_eq in Hc as (He&_&Hi&Hl&_&_&Hlog&_&_&_&_&Hg&Hq).
  apply quiet_effect; try done. unfold current_revision. by rewrite He.
Qed.

Lemma submit_step principal message now self :
  control_wf self → message_ok self message →
  match control_step (OpSubmit principal message now) self with
  | (self', Ret a) => control_wf self' ∧ step_effect self a self'
  | (self', Throw x) => refused (OpSubmit principal message now) self self' x
  | (_, Panic) => False
  end.
Proof.
  intros Hwf Hok. pose proof (submit_cases principal message now self Hwf Hok) as Hcase.
  pose proof (submit_wf principal message now self _ _ Hwf Hok Hcase) as Hwf'.
  unfold control_step, answered.
  destruct (submit principal message now self) as [self' r]. simpl in *.
  destruct Hcase as [result ?|denial ??|u receipt ???|u c e' o snap ?? Hc Hk Hx Ha Hs
    |u c e' o a snap self' failures ?? Hc Hk Hx Ha Hs Hp|u ??].
  - split; [done|]. by apply core_quiet.
  - split; [done|]. destruct (remember_fields (Protocol.idempotency_key message)
      (denial_result message denial self) self) as (d&order&->). by apply quiet_effect.
  - split; [done|]. by apply core_quiet.
  - split; [done|]. destruct (executed_facts self message c e' o now Hwf Hok Hc Hk Hx) as (_&_&Hf).
    rewrite Ha in Hf. destruct Hf as (_&Hrev&_). by apply quiet_effect.
  - split; [done|]. destruct (executed_facts self message c e' o now Hwf Hok Hc Hk Hx) as (_&_&Hf).
    rewrite Ha in Hf. destruct Hf as (_&Hrev&_).
    pose proof (publish_core [LiveDurable (durable_event self c e')]
      (accepted_service self c e' snap)) as [Hcore _].
    rewrite Hp in Hcore. apply core_eq in Hcore as (He&_&Hi&Hl&_&_&Hlog&_&_&_&_&Hg&Hq).
    simpl in *. split; try done.
    + unfold current_revision in *. rewrite He. simpl. lia.
    + simpl. by rewrite Hrev.
  - done.
Qed.
Lemma tick_step (pub : bool) server self :
  control_wf self →
  let op := if pub then OpTick server else OpShutdownTick server in
  match control_step op self with
  | (self', Ret a) => control_wf self' ∧ step_effect self a self' ∧
      ∃ out, a = Ticked out ∧ ticked pub self self' out
  | (self', Throw x) => refused op self self' x
  | (_, Panic) => False
  end.
Proof.
  intros Hwf op.
  assert (Hstep : control_step op self = answered ControlFailed Ticked
    (st_map_err tick_error (tick_with_realizer_inner server (λ _, Ok tt) pub) self)) by by destruct pub.
  rewrite Hstep. unfold answered, st_map_err. clear Hstep.
  destruct (decide (server_matches server (identity self))) as [Hm|Hm].
  2: { unfold tick_with_realizer_inner, mbind, stm_bind, st_get, st_require.
    rewrite decide_False by done. simpl. unfold op. destruct pub; by left. }
  pose proof (control_tick_spec server (λ _, Ok tt : result Empty_set unit) pub self Hwf Hm ltac:(done)) as Hs.
  destruct (tick_with_realizer_inner server (λ _, Ok tt : result Empty_set unit) pub self)
    as [self' [out|x|]]; simpl; [| |done].
  - destruct Hs as [_ Ht]. pose proof (cw_log _ Hwf) as [_ Hlen]. destruct Ht as [? Hwf' Hc Hi Hl Hlog Hn ???].
    split; [done|]. split; [|eexists; split; [reflexivity|by split]]. split; simpl; try done.
    + unfold current_revision. rewrite Hc. lia.
    + by rewrite app_nil_r, keep_last_all.
  - destruct Hs as (Hno&e'&y&->&Ht&->). unfold op. destruct pub; right; split_and!; eauto.
Qed.
Lemma channel_step op self :
  control_wf self →
  match op with
  | OpSubscribe | OpUnsubscribe _ | OpReceive _ | OpDrop _ => True
  | _ => False
  end →
  match control_step op self with
  | (self', Ret a) => control_wf self' ∧ core self' = core self ∧ durables a = [] ∧ runtimes a = []
  | (self', Throw x) => refused op self self' x
  | (_, Panic) => False
  end.
Proof.
  intros Hwf Hop. pose proof (cw_subscribers _ Hwf) as Hs. pose proof (cw_fresh _ Hwf) as Hf.
  destruct op as [| | | |id|id|id]; try done; simpl.
  - unfold answered, subscribe, mbind, stm_bind, st_get, st_require, st_lift, st_put, mret, stm_ret.
    case_decide as Hlim; simpl; [|by split; [|left; split; [|lia]]].
    destruct (checked U64 _) as [next|] eqn:Hn; simpl.
    + apply checked_Some in Hn as [<- _]. split; [|done]. apply (core_wf self); [done| | |done].
      * intros i. simpl. rewrite elem_of_union, elem_of_singleton. intros Hi.
        destruct (decide (i = next_subscriber_id self)) as [->|Hne];
          [rewrite lookup_insert_eq; by eexists|]. rewrite lookup_insert_ne by done.
        apply Hs. by destruct Hi.
      * intros i. simpl. rewrite elem_of_union, elem_of_singleton. intros [->|Hi]; [lia|].
        specialize (Hf i Hi). lia.
    + apply checked_None in Hn. split; [done|]. by right.
  - split; [|done]. apply (core_wf self); [done| | |done]; intros i; simpl;
      rewrite elem_of_difference; intros [Hi _]; [by apply Hs|by apply Hf].
  - unfold try_recv. destruct (channels self !! id) as [ch|] eqn:Hch; [|done].
    destruct (queued ch) as [|e l]; [done|]. split; [|done].
    apply (core_wf self); [done| | |done]; intros i Hi; simpl in *; [|by apply Hf].
    destruct (decide (i = id)) as [->|]; [rewrite lookup_insert_eq; by eexists|].
    rewrite lookup_insert_ne by done. by apply Hs.
  - split; [|done]. apply (core_wf self); [done| | |done]; intros i Hi; simpl in *; [|by apply Hf].
    destruct (Hs i Hi) as [ch Hch]. unfold drop_subscription. simpl.
    destruct (decide (i = id)) as [->|]; [rewrite lookup_alter_eq, Hch; by eexists|].
    rewrite lookup_alter_ne by done. by rewrite Hch.
Qed.
Lemma control_step_spec op self :
  control_wf self → op_ok self op →
  match control_step op self with
  | (self', Ret a) => control_wf self' ∧ step_effect self a self'
  | (self', Throw x) => refused op self self' x
  | (_, Panic) => False
  end.
Proof.
  intros Hwf Hok. destruct op as [p m now|server|server|  |id|id|id].
  - by apply submit_step.
  - pose proof (tick_step true server self Hwf) as Hs. cbv zeta iota in Hs.
    destruct (control_step (OpTick server) self) as [? [| |]]; try done. by destruct Hs as (?&?&_).
  - pose proof (tick_step false server self Hwf) as Hs. cbv zeta iota in Hs.
    destruct (control_step (OpShutdownTick server) self) as [? [| |]]; try done. by destruct Hs as (?&?&_).
  - pose proof (channel_step OpSubscribe self Hwf I) as Hs.
    destruct (control_step _ self) as [? [| |]]; try done. destruct Hs as (?&?&?&?).
    split; [done|]. by apply core_quiet.
  - pose proof (channel_step (OpUnsubscribe id) self Hwf I) as Hs.
    destruct (control_step _ self) as [? [| |]]; try done. destruct Hs as (?&?&?&?).
    split; [done|]. by apply core_quiet.
  - pose proof (channel_step (OpReceive id) self Hwf I) as Hs.
    destruct (control_step _ self) as [? [| |]]; try done. destruct Hs as (?&?&?&?).
    split; [done|]. by apply core_quiet.
  - pose proof (channel_step (OpDrop id) self Hwf I) as Hs.
    destruct (control_step _ self) as [? [| |]]; try done. destruct Hs as (?&?&?&?).
    split; [done|]. by apply core_quiet.
Qed.

(** ** Runs *)

Definition all_durables (l : list control_answer) : list Protocol.EventMessage :=
  mjoin (durables <$> l).
Definition all_runtimes (l : list control_answer) : list Protocol.RuntimeEventMessage :=
  mjoin (runtimes <$> l).
Definition all_lives (l : list control_answer) : list LiveEvent := mjoin (lives <$> l).
Definition all_heard (id : SubscriberId) (l : list control_answer) : list LiveEvent :=
  mjoin (heard id <$> l).

(** A history, summed up. *)
Record run_effect self (l : list control_answer) self' : Prop := {
  re_wf : control_wf self';
  re_identity : identity self' = identity self;
  re_limits : limits self' = limits self;
  re_revision : current_revision self' =
    current_revision self + Z.of_nat (length (all_durables l));
  re_cursors : Protocol.cursor <$> all_durables l = Protocol.mk_cursor (identity self) <$>
    seqZ (current_revision self + 1) (Z.of_nat (length (all_durables l)));
  re_log : log self' = keep_last (retained_events (limits self)) (log self ++ all_durables l);
  re_numbers : numbered (runtime_sequence_generation self) (runtime_sequence self) (all_runtimes l)
    (runtime_sequence_generation self') (runtime_sequence self')
}.
Lemma keep_last_app {B} n (l l' : list B) : keep_last n (keep_last n l ++ l') = keep_last n (l ++ l').
Proof.
  unfold keep_last. rewrite !length_app, length_drop.
  destruct (decide (length l ≤ n)%nat).
  - replace (length l - n)%nat with 0%nat by lia. rewrite drop_0. do 2 f_equal. lia.
  - replace (length l - (length l - n) + length l' - n)%nat with (length l') by lia.
    replace (length l + length l' - n)%nat with (length l - n + length l')%nat by lia.
    rewrite <-(drop_app_le l l' (length l - n)) by lia. by rewrite drop_drop.
Qed.
Lemma served_effect self l self' :
  control_wf self → served self l self' → run_effect self l self'.
Proof.
  intros Hwf Hs. induction Hs as [self|self op a self1 l self2 Hok Hst _ IH].
  { pose proof (cw_log _ Hwf) as [_ Hlen]. split; try done; cbn.
    - lia.
    - by rewrite app_nil_r, keep_last_all. }
  pose proof (control_step_spec op self Hwf Hok) as Hstep. rewrite Hst in Hstep.
  destruct Hstep as (Hwf1&[Hi Hl Hr Hc Hlog Hn]).
  specialize (IH Hwf1). destruct IH as [Hwf2 Hi2 Hl2 Hr2 Hc2 Hlog2 Hn2].
  assert (Hd : all_durables (a :: l) = durables a ++ all_durables l) by done.
  split; rewrite ?Hd; try congruence.
  - rewrite Hr2, Hr, length_app. lia.
  - rewrite fmap_app, Hc, Hc2, Hi, Hr, length_app, Nat2Z.inj_add, seqZ_app by lia.
    rewrite fmap_app. do 3 f_equal. lia.
  - rewrite Hlog2, Hl, Hlog, keep_last_app, app_assoc. done.
  - change (all_runtimes (a :: l)) with (runtimes a ++ all_runtimes l).
    by eapply numbered_app.
Qed.
Lemma control_reached_wf self : control_reached self → control_wf self.
Proof.
  intros (e&au&eid&lid&lim&self0&l&He&Hp&Hn&Hs).
  pose proof (control_new_wf _ _ _ _ _ _ He Hp Hn) as Hwf0.
  apply (re_wf _ _ _ (served_effect _ _ _ Hwf0 Hs)).
Qed.
Lemma control_reached_step self l self' :
  control_reached self → served self l self' → control_reached self'.
Proof.
  intros (e&au&eid&lid&lim&self0&l0&He&Hp&Hn&Hs) Hl.
  exists e, au, eid, lid, lim, self0, (l0 ++ l). split_and!; try done. by eapply served_app.
Qed.

End histories.
