(* ===== verification/ControlLaws.v ===== *)
(** What the control service promises its clients: resuming from a cursor is exact,
    live subscribers are sent everything in order or are told that they were
    dropped, every command is decided once and reported, and an unauthorized one
    has no effect.  All of it holds over any history [served]. *)
From S2P Require Import Prelude BTree Types ControlWire Control ControlView ControlRun ControlSafety.
From S2P Require Command Actions Plans Scheduler SwitcherTypes Switcher.
From S2P Require EngineShow Engine EngineSim EngineRun EngineSafety EngineEffect.
From S2P Require Protocol Auth.
#[local] Open Scope Z_scope.

Section laws.
Context {A : Type} `{AuthorizationHook A}.
Abbreviation service := (ControlService A).
Implicit Types self : service.

(** ** Resuming *)

Lemma event_revisions l i a n :
  Protocol.cursor <$> l = Protocol.mk_cursor i <$> seqZ a n → event_revision <$> l = seqZ a n.
Proof.
  intros Hc. apply (f_equal (fmap Protocol.cursor_revision)) in Hc.
  rewrite <-!list_fmap_compose in Hc. etrans; [exact Hc|].
  rewrite <-(list_fmap_id (seqZ a n)) at 2. by apply list_fmap_ext.
Qed.
Lemma seqZ_S' a n : 0 < n → seqZ a n = a :: seqZ (a + 1) (n - 1).
Proof. intros. rewrite seqZ_cons by done. f_equal. Qed.
(** A run of revisions is contiguous from its first one. *)
Lemma contiguous_run l a n :
  event_revision <$> l = seqZ a n → 0 ≤ a → a + n ≤ ty_max U64 + 1 →
  contiguous_from (checked U64 a) l = true.
Proof.
  revert a n. induction l as [|ev l IH]; intros a n Hl Ha Hmax; [done|].
  assert (Hn : 0 < n).
  { destruct (decide (0 < n)); [done|]. by rewrite seqZ_nil in Hl by lia. }
  rewrite seqZ_S' in Hl by done. injection Hl as Hev Hl. cbn [contiguous_from].
  change (Protocol.cursor_revision _) with (event_revision ev). rewrite Hev.
  rewrite (IH (a + 1) (n - 1)) by (done || lia).
  rewrite checked_in by (split; simpl ty_min; lia). by rewrite bool_decide_eq_true_2.
Qed.
Lemma contiguous_gap l a b n :
  event_revision <$> l = seqZ b n → l ≠ [] → a ≠ b → contiguous_from (checked U64 a) l = false.
Proof.
  intros Hl Hne Hab. destruct l as [|ev l]; [done|].
  assert (Hn : 0 < n).
  { destruct (decide (0 < n)); [done|]. by rewrite seqZ_nil in Hl by lia. }
  rewrite seqZ_S' in Hl by done. injection Hl as Hev _. cbn [contiguous_from].
  change (Protocol.cursor_revision _) with (event_revision ev). rewrite Hev.
  rewrite bool_decide_eq_false_2; [done|]. intros Hc%checked_Some. naive_solver.
Qed.
Lemma last_run l a n :
  event_revision <$> l = seqZ a n → 0 < n → event_revision <$> last l = Some (a + n - 1).
Proof.
  intros Hl Hn. rewrite <-fmap_last, Hl.
  replace n with (n - 1 + 1) by lia. rewrite <-seqZ_snoc by lia. rewrite last_snoc. f_equal. lia.
Qed.
Lemma filter_above l a n r :
  event_revision <$> l = seqZ a n → r < a → filter (λ ev, r < event_revision ev) l = l.
Proof.
  intros Hl Hr. apply filter_all. intros ev Hev.
  assert (Hin : event_revision ev ∈ seqZ a n) by (rewrite <-Hl; by apply list_elem_of_fmap_2).
  apply elem_of_seqZ in Hin. lia.
Qed.
Lemma filter_below l a n r :
  event_revision <$> l = seqZ a n → a + n ≤ r + 1 → filter (λ ev, r < event_revision ev) l = [].
Proof.
  intros Hl Hr. apply filter_none. intros ev Hev.
  assert (Hin : event_revision ev ∈ seqZ a n) by (rewrite <-Hl; by apply list_elem_of_fmap_2).
  apply elem_of_seqZ in Hin. lia.
Qed.

(** Resuming from the revision at which a history began. *)
Lemma resume_served self l self' :
  control_wf self → served self l self' →
  resume (record_cursor (snapshot self)) self' =
    if decide (length (all_durables l) ≤ retained_events (limits self))%nat
    then ResumeEvents (all_durables l) else ResumeSnapshot (snapshot self').
Proof.
  intros Hwf Hs. destruct (served_effect _ _ _ Hwf Hs) as [Hwf' Hi Hl Hrev Hc Hlog _].
  set (new := all_durables l) in *. set (r := current_revision self) in *.
  pose proof (cw_log _ Hwf) as [Hold Hlen].
  apply event_revisions in Hc, Hold.
  assert (Hcur : record_cursor (snapshot self) = Protocol.mk_cursor (identity self) r).
  { pose proof (cw_snapshot _ Hwf) as Hsn.
    pose proof (snapshot_total (engine self) (identity self)
      (EngineSafety.reached_wf _ (cw_engine _ Hwf))) as Ht. simpl in Ht.
    rewrite Hsn in Ht. injection Ht as ->. reflexivity. }
  assert (Hmax : current_revision self' ≤ ty_max U64).
  { apply (Command.wf_revision _ (EngineRun.ew_commands _ (EngineSafety.reached_wf _ (cw_engine _ Hwf')))). }
  assert (Hmin : 0 ≤ r).
  { apply (Command.wf_revision _ (EngineRun.ew_commands _ (EngineSafety.reached_wf _ (cw_engine _ Hwf)))). }
  rewrite Hcur. unfold resume. cbn [Protocol.cursor_revision Protocol.cursor_engine].
  rewrite Hi, decide_False by (rewrite Hrev; intros [?|?]; [done|lia]).
  destruct (decide (r = current_revision self')) as [Heq|Hne].
  { assert (new = []) as -> by (apply length_zero_iff_nil; lia). by rewrite decide_True by (simpl; lia). }
  assert (Hpos : (0 < length new)%nat) by lia.
  rewrite Hlog. unfold keep_last. rewrite length_app.
  set (k := retained_events (limits self)) in *.
  destruct (decide (length new ≤ k)%nat) as [Hfit|Hbig].
  - rewrite drop_app_le by lia. rewrite filter_app.
    rewrite (filter_above new _ _ r Hc) by lia.
    rewrite (filter_none _ (drop _ _)).
    2: { intros ev Hev. apply list_elem_of_lookup in Hev as [i Hev]. rewrite lookup_drop in Hev.
      apply list_elem_of_lookup_2 in Hev.
      assert (Hin : event_revision ev ∈ event_revision <$> log self) by by apply list_elem_of_fmap_2.
      rewrite Hold in Hin. apply elem_of_seqZ in Hin. lia. }
    cbn [app]. rewrite (contiguous_run new (r + 1) (Z.of_nat (length new))) by (done || lia).
    rewrite (last_run new _ _ Hc) by lia.
    rewrite (bool_decide_eq_true_2 (new ≠ [])) by (intros Hn; rewrite Hn in Hpos; simpl in Hpos; lia).
    rewrite bool_decide_eq_true_2; [done|]. f_equal. lia.
  - rewrite drop_app_ge by lia.
    set (d := (length (log self) + length new - k - length (log self))%nat).
    assert (Hd : event_revision <$> drop d new =
      seqZ (r + 1 + Z.of_nat d) (Z.of_nat (length new) - Z.of_nat d)).
    { rewrite fmap_drop, Hc. apply drop_seqZ. }
    rewrite (filter_above _ _ _ r Hd) by lia.
    destruct (decide (drop d new = [])) as [->|Hnil]; [done|].
    rewrite (contiguous_gap _ (r + 1) _ _ Hd) by (done || lia).
    by rewrite andb_false_r.
Qed.

(** ** Subscribers *)

(** A channel takes the events in order, and all of them unless it fails. *)
Lemma offer_prefix events ch :
  let r := offer_all events ch in
  bound r.1 = bound ch ∧ (∃ n, queued r.1 = queued ch ++ take n events) ∧
  (r.2 = None → queued r.1 = queued ch ++ events) ∧
  ((length (queued ch) ≤ bound ch)%nat → (length (queued r.1) ≤ bound ch)%nat).
Proof.
  revert ch. induction events as [|ev events IH]; intros ch; cbn [offer_all].
  { split_and!; try done; [exists 0%nat|intros _]; by rewrite ?take_0, app_nil_r. }
  unfold try_send. destruct (receiver_alive ch).
  2: { split_and!; try done. exists 0%nat. by rewrite take_0, app_nil_r. }
  case_decide as Hlt.
  2: { split_and!; try done. exists 0%nat. by rewrite take_0, app_nil_r. }
  destruct (IH (mk_channel (queued ch ++ [ev]) (bound ch) true (channel_failure ch)))
    as (Hb&[n Hn]&Hall&Hlen). split_and!; [done| | |].
  - exists (S n). rewrite Hn. simpl. by rewrite <-app_assoc.
  - intros Hr. rewrite (Hall Hr). simpl. by rewrite <-app_assoc.
  - intros _. apply Hlen. simpl. rewrite length_app. simpl. lia.
Qed.
(** What the subscriber [id] has been sent since it subscribed is [sent]. *)
Definition follows (id : SubscriberId) (sent taken : list LiveEvent) self : Prop :=
  id < next_subscriber_id self ∧
  ∃ ch, channels self !! id = Some ch ∧ bound ch = subscriber_queue (limits self) ∧
    (length (queued ch) ≤ bound ch)%nat ∧ (taken ++ queued ch) `prefix_of` sent ∧
    (id ∈ subscribers self → taken ++ queued ch = sent).
Lemma publish_follows id sent taken events self :
  subscribers_wf self → follows id sent taken self →
  follows id (sent ++ events) taken (publish events self).1.
Proof.
  intros Hwf (Hid&ch&Hch&Hb&Hlen&Hpre&Hall).
  pose proof (offered_events events (self, []) id Hwf) as [C S _].
  destruct (publish_core events self) as [Hcore Hnext].
  apply core_eq in Hcore as (_&_&_&Hl&_). split; [by rewrite Hnext|].
  unfold publish in *. rewrite Hl. cbn [fst] in *. rewrite elem_of_elements in S. case_decide as Hin.
  - apply elem_of_elements in Hin. rewrite Hch in C. specialize (Hall Hin).
    destruct (offer_prefix events ch) as (Hb'&[n Hn]&Hall'&Hlen').
    eexists. split; [exact C|]. split_and!; [by rewrite Hb'|by rewrite Hb'; apply Hlen'| |].
    + rewrite Hn, app_assoc, Hall. apply prefix_app. apply prefix_take.
    + intros [_ Hs]%S. by rewrite (Hall' (Hs Hin ch Hch)), app_assoc, Hall.
  - rewrite elem_of_elements in Hin. exists ch. split; [by rewrite C|]. split_and!; [done..| |].
    + by apply prefix_app_r.
    + by intros [? _]%S.
Qed.
Lemma follows_channels id sent taken self self' :
  channels self' = channels self → subscribers self' = subscribers self →
  next_subscriber_id self' = next_subscriber_id self → limits self' = limits self →
  follows id sent taken self → follows id sent taken self'.
Proof. intros Hc Hs Hn Hl. unfold follows. by rewrite Hc, Hs, Hn, Hl. Qed.

(** An operation of the service: what it publishes is what its answer shows. *)
Lemma step_publishes op self self' a :
  control_wf self → op_ok self op →
  match op with OpSubmit _ _ _ | OpTick _ | OpShutdownTick _ => True | _ => False end →
  control_step op self = (self', Ret a) →
  ∃ s, channels s = channels self ∧ subscribers s = subscribers self ∧
    next_subscriber_id s = next_subscriber_id self ∧ limits s = limits self ∧
    (publish (lives a) s).1 = self'.
Proof.
  intros Hwf Hok Hop Hst. destruct op as [p m now|server|server| | | |]; try done; clear Hop.
  - pose proof (submit_cases p m now self Hwf Hok) as Hcase. revert Hst.
    unfold control_step, answered. destruct (submit p m now self) as [s1 r]. simpl in Hcase.
    destruct Hcase as [result ?|denial ??|u receipt ???|u c e' o snap ?? Hc Hk Hx Ha Hs
      |u c e' o ac snap s2 failures ?? Hc Hk Hx Ha Hs Hp|u ??]; intros [= <- <-].
    1,3: by exists self.
    + eexists. split_and!; [..|reflexivity]; unfold remember_authorization_denial;
        by (case_decide; [|destruct (expire_denials _ _ _)]).
    + eexists. by split_and!; [..|reflexivity].
    + exists (accepted_service self c e' snap). split_and!; try done. unfold lives. simpl. by rewrite Hp.
  - pose proof (tick_step true server self Hwf) as Ht. cbv zeta iota in Ht. rewrite Hst in Ht.
    destruct Ht as (_&_&out&->&Ht). destruct (td_published _ _ _ _ Ht) as (s&_&Hs&Hc&Hn&Hl&Hp).
    exists s. split_and!; try done. unfold lives. simpl. by rewrite Hp.
  - pose proof (tick_step false server self Hwf) as Ht. cbv zeta iota in Ht. rewrite Hst in Ht.
    destruct Ht as (_&_&out&->&Ht). destruct (td_published _ _ _ _ Ht) as (s&_&Hs&Hc&Hn&Hl&Hp).
    exists s. split_and!; try done. unfold lives. simpl. by rewrite Hp.
Qed.
Lemma step_follows id sent taken op self self' a :
  control_wf self → op_ok self op → control_step op self = (self', Ret a) →
  follows id sent taken self → follows id (sent ++ lives a) (taken ++ heard id a) self'.
Proof.
  intros Hwf Hok Hst Hf.
  assert (Hpub : match op with OpSubmit _ _ _ | OpTick _ | OpShutdownTick _ => True | _ => False end →
    heard id a = [] → follows id (sent ++ lives a) (taken ++ heard id a) self').
  { intros Hop ->. destruct (step_publishes op self self' a Hwf Hok Hop Hst) as (s&Hc&Hs&Hn&Hl&<-).
    rewrite app_nil_r. apply publish_follows; [|by eapply follows_channels].
    intros i. rewrite Hs, Hc. apply (cw_subscribers _ Hwf). }
  destruct op as [p m now|server|server| |i|i|i].
  1-3: apply Hpub; [done|]; revert Hst; unfold control_step, answered;
    intros Hst; injection Hst as _ Hst; revert Hst;
    match goal with |- context [match ?x with Ret _ => _ | _ => _ end] => destruct x end;
    by intros [= <-].
  all: clear Hpub; revert Hst; simpl.
  - unfold answered, subscribe, mbind, stm_bind, st_get, st_require, st_lift, st_put, mret, stm_ret.
    case_decide; simpl; [|done]. destruct (checked U64 _) as [next|] eqn:Hn; simpl; [|done].
    apply checked_Some in Hn as [<- _]. intros [= <- <-]. rewrite !app_nil_r.
    destruct Hf as (Hid&ch&Hch&Hrest). split; simpl; [lia|]. exists ch.
    rewrite lookup_insert_ne by lia. destruct Hrest as (?&?&?&Hall). split_and!; try done.
    intros Hin%elem_of_union. apply Hall. destruct Hin as [Hin|Hin]; [|done].
    apply elem_of_singleton in Hin. lia.
  - intros [= <- <-]. rewrite !app_nil_r. destruct Hf as (Hid&ch&Hch&?&?&?&Hall).
    split; [done|]. exists ch. split_and!; try done.
    cbn [set_subscribers subscribers]. intros [Hin _]%elem_of_difference. by apply Hall.
  - unfold try_recv. destruct Hf as (Hid&ch&Hch&Hb&Hlen&Hpre&Hall).
    destruct (decide (i = id)) as [->|Hne].
    + rewrite Hch. destruct (queued ch) as [|ev q] eqn:Hq.
      * intros [= <- <-]. assert (Hnone : heard id (Polled id
          (if decide (id ∈ subscribers self) then RecvEmpty else RecvDisconnected)) = [])
          by by case_decide.
        rewrite Hnone, !app_nil_r. split; [done|]. exists ch. rewrite Hq. rewrite app_nil_r in *.
        by split_and!.
      * intros [= <- <-]. simpl. rewrite decide_True by done. unfold lives. simpl. rewrite app_nil_r.
        split; [done|]. simpl. eexists. rewrite lookup_insert_eq. split; [done|]. simpl.
        rewrite <-app_assoc. simpl. split_and!; try done. simpl in Hlen. lia.
    + intros Heq. assert (Hh : heard id a = []).
      { destruct (channels self !! i) as [c|]; [|by injection Heq as _ <-].
        destruct (queued c); injection Heq as _ <-; simpl; [by case_decide|by rewrite decide_False]. }
      assert (Hv : lives a = []).
      { destruct (channels self !! i) as [c|]; [|by injection Heq as _ <-].
        destruct (queued c); injection Heq as _ <-; done. }
      rewrite Hh, Hv, !app_nil_r.
      destruct (channels self !! i) as [c|]; [|by injection Heq as <- _; split; eauto 10].
      destruct (queued c); injection Heq as <- _; split; simpl; try done; exists ch;
        rewrite ?lookup_insert_ne by done; by split_and!.
  - intros [= <- <-]. rewrite !app_nil_r. destruct Hf as (Hid&ch&Hch&?&?&?&Hall). split; [done|].
    unfold drop_subscription. simpl. destruct (decide (i = id)) as [->|].
    + rewrite lookup_alter_eq, Hch. eexists. split; [done|]. by split_and!.
    + rewrite lookup_alter_ne by done. exists ch. by split_and!.
Qed.
Lemma served_follows id sent taken self l self' :
  control_wf self → served self l self' → follows id sent taken self →
  follows id (sent ++ all_lives l) (taken ++ all_heard id l) self'.
Proof.
  intros Hwf Hs. revert sent taken. induction Hs as [self|self op a self1 l self2 Hok Hst _ IH];
    intros sent taken Hf; [by rewrite !app_nil_r|].
  change (all_lives (a :: l)) with (lives a ++ all_lives l).
  change (all_heard id (a :: l)) with (heard id a ++ all_heard id l).
  rewrite !app_assoc. pose proof (control_step_spec op self Hwf Hok) as Hsp. rewrite Hst in Hsp.
  apply IH; [apply Hsp|]. by eapply step_follows.
Qed.

(** ** Receipts *)

(** The receipts of the engine. *)
Definition receipt_of self (key : string) : option Engine.Receipt :=
  Command.receipts (Engine.commands (engine self)) !! key.
Lemma executed_receipts self message c e' o now key r :
  control_wf self → message_ok self message →
  engine_command (Protocol.payload message) = Some c →
  receipt_of self (Protocol.idempotency_key message) = None →
  Engine.execute (envelope_of message c) now (engine self) = (e', Ret o) →
  Command.receipts (Engine.commands e') !! Protocol.idempotency_key message =
    Some (Command.receipt o) ∧
  (receipt_of self key = Some r → Command.receipts (Engine.commands e') !! key = Some r).
Proof.
  intros Hwf [Hp Hf] Hc Hk Hx. destruct (engine_command_total _ Hp) as (c'&Hc'&Hcok).
  assert (c' = c) as -> by congruence.
  destruct (domain_envelope_fields message c) as [Hkey Hcmd].
  pose proof (EngineSafety.reached_wf _ (cw_engine _ Hwf)) as He.
  pose proof (EngineRun.execute_spec (engine self) He (envelope_of message c) now
    ltac:(by rewrite Hcmd) ltac:(by rewrite Hkey) ltac:(rewrite Hcmd; by apply Hf)) as Hs.
  rewrite Hx in Hs. destruct Hs as (He'&_&Hdec&_). split.
  - rewrite <-Hkey. by eapply Command.apply_records.
  - intros Hr. by eapply Command.apply_receipts_mono.
Qed.

Lemma step_receipt op self self' a key r :
  control_wf self → op_ok self op → control_step op self = (self', Ret a) →
  receipt_of self key = Some r → receipt_of self' key = Some r.
Proof.
  intros Hwf Hok Hst Hr. unfold receipt_of in *.
  assert (Hq : ∀ s, core s = core self → engine s = engine self) by (intros s Hc; by apply core_eq in Hc as [-> _]).
  destruct op as [p m now|server|server| |i|i|i].
  2: { pose proof (tick_step true server self Hwf) as Hs. cbv zeta iota in Hs. rewrite Hst in Hs.
    destruct Hs as (_&_&out&_&Ht). by rewrite (td_commands _ _ _ _ Ht). }
  2: { pose proof (tick_step false server self Hwf) as Hs. cbv zeta iota in Hs. rewrite Hst in Hs.
    destruct Hs as (_&_&out&_&Ht). by rewrite (td_commands _ _ _ _ Ht). }
  - pose proof (submit_cases p m now self Hwf Hok) as Hcase. revert Hst.
    unfold control_step, answered. destruct (submit p m now self) as [s1 q]. simpl in Hcase.
    destruct Hcase as [result ?|denial ??|u receipt ???|u c e' o snap ?? Hc Hk Hx Ha Hs
      |u c e' o ac snap s2 failures ?? Hc Hk Hx Ha Hs Hp|u ??]; intros [= <- _]; try done.
    + destruct (remember_fields (Protocol.idempotency_key m) (denial_result m denial self) self)
        as (d&order&->). done.
    + by apply (executed_receipts self m c e' o now key r Hwf Hok Hc Hk Hx).
    + pose proof (publish_core [LiveDurable (durable_event self c e')]
        (accepted_service self c e' snap)) as [Hcore _]. rewrite Hp in Hcore.
      apply core_eq in Hcore as [He _]. cbn [fst] in He. rewrite He.
      by apply (executed_receipts self m c e' o now key r Hwf Hok Hc Hk Hx).
  - pose proof (channel_step OpSubscribe self Hwf I) as Hs. rewrite Hst in Hs.
    by rewrite (Hq self') by apply Hs.
  - pose proof (channel_step (OpUnsubscribe i) self Hwf I) as Hs. rewrite Hst in Hs.
    by rewrite (Hq self') by apply Hs.
  - pose proof (channel_step (OpReceive i) self Hwf I) as Hs. rewrite Hst in Hs.
    by rewrite (Hq self') by apply Hs.
  - pose proof (channel_step (OpDrop i) self Hwf I) as Hs. rewrite Hst in Hs.
    by rewrite (Hq self') by apply Hs.
Qed.
Lemma served_receipt self l self' key r :
  control_wf self → served self l self' → receipt_of self key = Some r →
  receipt_of self' key = Some r.
Proof.
  intros Hwf Hs. induction Hs as [self|self op a self1 l self2 Hok Hst _ IH]; [done|]. intros Hr.
  pose proof (control_step_spec op self Hwf Hok) as Hsp. rewrite Hst in Hsp.
  apply IH; [apply Hsp|]. by eapply step_receipt.
Qed.
(** A submission that the engine decided is answered from its receipt. *)
Lemma submit_receipt principal message now self self1 s :
  control_wf self → message_ok self message →
  authorization_denials self !! Protocol.idempotency_key message = None →
  is_ok (hook_authorize (authorizer self) principal
    (command_class (Protocol.payload message))) = true →
  submit principal message now self = (self1, Ret s) →
  ∃ r, receipt_of self1 (Protocol.idempotency_key message) = Some r ∧
    output_result (output s) = command_result r.
Proof.
  intros Hwf Hok Hd Hau Hst. pose proof (submit_cases principal message now self Hwf Hok) as Hcase.
  rewrite Hst in Hcase. simpl in Hcase. unfold receipt_of.
  inversion Hcase as [result Hd'|denial ? Hau'|u receipt ?? Hk|u c e' o snap ?? Hc Hk Hx Ha Hs
      |u c e' o ac snap s2 failures ?? Hc Hk Hx Ha Hs Hp|u ??]; subst.
  - by rewrite Hd in Hd'.
  - by rewrite Hau' in Hau.
  - by exists receipt.
  - exists (Command.receipt o). split; [|done].
    by apply (executed_receipts self message c e' o now "" (Command.receipt o) Hwf Hok Hc Hk Hx).
  - exists (Command.receipt o). split; [|done].
    pose proof (publish_core [LiveDurable (durable_event self c e')]
      (accepted_service self c e' snap)) as [Hcore _]. rewrite Hp in Hcore.
    apply core_eq in Hcore as [He _]. cbn [fst] in He. rewrite He.
    by apply (executed_receipts self message c e' o now "" (Command.receipt o) Hwf Hok Hc Hk Hx).
Qed.

(** ** Reporting *)

Definition is_tick (a : control_answer) : bool :=
  match a with Ticked _ => true | _ => false end.
(** Between ticks the pending actions only grow. *)
Lemma step_pending op self self' a :
  control_wf self → op_ok self op → control_step op self = (self', Ret a) → is_tick a = false →
  pending_runtime_actions self `prefix_of` pending_runtime_actions self'.
Proof.
  intros Hwf Hok Hst Ht. destruct op as [p m now|server|server| |i|i|i].
  2: { pose proof (tick_step true server self Hwf) as Hs. cbv zeta iota in Hs. rewrite Hst in Hs.
    destruct Hs as (_&_&out&->&_). done. }
  2: { pose proof (tick_step false server self Hwf) as Hs. cbv zeta iota in Hs. rewrite Hst in Hs.
    destruct Hs as (_&_&out&->&_). done. }
  - pose proof (submit_cases p m now self Hwf Hok) as Hcase. revert Hst.
    unfold control_step, answered. destruct (submit p m now self) as [s1 r]. simpl in Hcase.
    destruct Hcase as [result ?|denial ??|u receipt ???|u c e' o snap ?? Hc Hk Hx Ha Hs
      |u c e' o ac snap s2 failures ?? Hc Hk Hx Ha Hs Hp|u ??]; intros [= <- _]; try done.
    + destruct (remember_fields (Protocol.idempotency_key m) (denial_result m denial self) self)
        as (d&order&->). done.
    + pose proof (publish_core [LiveDurable (durable_event self c e')]
        (accepted_service self c e' snap)) as [Hcore _]. rewrite Hp in Hcore.
      apply core_eq in Hcore as (_&_&_&_&_&_&_&_&Hpend&_). simpl in Hpend. rewrite Hpend.
      by apply prefix_app_r.
  - pose proof (channel_step OpSubscribe self Hwf I) as Hs. rewrite Hst in Hs.
    destruct Hs as (_&Hc&_). by apply core_eq in Hc as (_&_&_&_&_&_&_&_&->&_).
  - pose proof (channel_step (OpUnsubscribe i) self Hwf I) as Hs. rewrite Hst in Hs.
    destruct Hs as (_&Hc&_). by apply core_eq in Hc as (_&_&_&_&_&_&_&_&->&_).
  - pose proof (channel_step (OpReceive i) self Hwf I) as Hs. rewrite Hst in Hs.
    destruct Hs as (_&Hc&_). by apply core_eq in Hc as (_&_&_&_&_&_&_&_&->&_).
  - pose proof (channel_step (OpDrop i) self Hwf I) as Hs. rewrite Hst in Hs.
    destruct Hs as (_&Hc&_). by apply core_eq in Hc as (_&_&_&_&_&_&_&_&->&_).
Qed.
Lemma served_pending self l self' :
  control_wf self → served self l self' → Forall (λ a, is_tick a = false) l →
  pending_runtime_actions self `prefix_of` pending_runtime_actions self'.
Proof.
  intros Hwf Hs. induction Hs as [self|self op a self1 l self2 Hok Hst _ IH]; [done|].
  intros [Ha Hl]%Forall_cons. pose proof (control_step_spec op self Hwf Hok) as Hsp.
  rewrite Hst in Hsp. etrans; [by eapply step_pending|]. apply IH; [apply Hsp|done].
Qed.

Lemma submitted_pending self principal message now self1 s c :
  control_wf self → op_ok self (OpSubmit principal message now) →
  control_step (OpSubmit principal message now) self = (self1, Ret (Submitted s)) →
  is_Some (submission_accepted s) → engine_command (Protocol.payload message) = Some c →
  mk_pending (current_revision self1) c ∈ pending_runtime_actions self1.
Proof.
  intros Hwf Hok Hst Hacc Hcmd. pose proof (submit_cases principal message now self Hwf Hok) as Hcase.
  revert Hst Hacc. unfold control_step, answered.
  destruct (submit principal message now self) as [s1 r]. simpl in Hcase.
  destruct Hcase as [result ?|denial ??|u receipt ???|u c' e' o snap ?? Hc Hk Hx Ha Hs
    |u c' e' o ac snap s2 failures ?? Hc Hk Hx Ha Hs Hp|u ??]; intros [= <- <-] [? Hacc]; try done.
  assert (c' = c) as -> by congruence.
  pose proof (publish_core [LiveDurable (durable_event self c e')]
    (accepted_service self c e' snap)) as [Hcore _]. rewrite Hp in Hcore.
  apply core_eq in Hcore as (He&_&_&_&_&_&_&_&Hpend&_). simpl in Hpend, He. rewrite Hpend.
  unfold current_revision. rewrite He. apply elem_of_app. right. by apply list_elem_of_singleton.
Qed.

(** ** Theorems *)

(** C4: The control service is safe: over any history of commands, ticks and
    subscribers, on an engine created or restored, the next operation never panics,
    fails only for the reason the specification names, leaving everything but the
    clock unchanged, and the snapshot that resuming clients are given is always
    that of the engine as it is.  The histories, and the operation, are those that
    fire no stinger while a T-bar is held ([EngineSim.fires_idle]), with arguments
    that their types allow. *)
Theorem control_safe self op :
  control_reached self → op_ok self op →
  snapshot_record (engine self) (identity self) = Some (snapshot self) ∧
  match control_step op self with
  | (self', Ret _) => control_reached self'
  | (self', Throw x) => refused op self self' x
  | (_, Panic) => False
  end.
Proof.
  intros Hr Hok. pose proof (control_reached_wf _ Hr) as Hwf. split; [apply (cw_snapshot _ Hwf)|].
  pose proof (control_step_spec op self Hwf Hok) as Hs.
  destruct (control_step op self) as [self' [a|x|]] eqn:Hst; try done.
  eapply control_reached_step; [done|]. by eapply served_cons, served_nil.
Qed.

(** C12: Resuming is exact.  A client that holds the snapshot the service gave out at
    some moment is sent, whenever it comes back, exactly the durable events
    published since, in order, as long as the log retains them all, and otherwise
    the snapshot of the engine as it is now; never a part of the events.  The histories
    are those that fire no stinger while a T-bar is held ([EngineSim.fires_idle]). *)
Theorem resume_exact self l self' :
  control_reached self → served self l self' →
  resume (record_cursor (snapshot self)) self' =
    if decide (length (all_durables l) ≤ retained_events (limits self))%nat
    then ResumeEvents (all_durables l) else ResumeSnapshot (snapshot self').
Proof. intros Hr%control_reached_wf Hs. by apply resume_served. Qed.

(** C13: A live subscriber misses nothing it is not told about: what it has received
    and what waits in its channel is a prefix of all that was published since it
    subscribed, in order; as long as the service counts it as a subscriber it is
    all of it; and its channel never holds more than its bound.  The histories
    are those that fire no stinger while a T-bar is held ([EngineSim.fires_idle]). *)
Theorem subscriber_fifo self id self1 l self2 :
  control_reached self → control_step OpSubscribe self = (self1, Ret (Subscribed id)) →
  served self1 l self2 →
  ∃ ch, channels self2 !! id = Some ch ∧
    (length (queued ch) ≤ subscriber_queue (limits self2))%nat ∧
    (all_heard id l ++ queued ch) `prefix_of` all_lives l ∧
    (id ∈ subscribers self2 → all_heard id l ++ queued ch = all_lives l).
Proof.
  intros Hr Hst Hs. apply control_reached_wf in Hr as Hwf.
  assert (Hwf1 : control_wf self1).
  { pose proof (channel_step OpSubscribe self Hwf I) as Hc. rewrite Hst in Hc. apply Hc. }
  assert (Hf : follows id [] [] self1).
  { revert Hst. simpl. unfold answered, subscribe, mbind, stm_bind, st_get, st_require, st_lift,
      st_put, mret, stm_ret. case_decide; simpl; [|done].
    destruct (checked U64 _) as [next|] eqn:Hn; simpl; [|done].
    apply checked_Some in Hn as [<- _]. intros [= <- <-]. split; simpl; [lia|].
    eexists. rewrite lookup_insert_eq. split; [done|]. split_and!; try done. simpl. lia. }
  destruct (served_follows id [] [] _ _ _ Hwf1 Hs Hf) as (_&ch&Hch&Hb&Hlen&Hpre&Hall).
  exists ch. rewrite <-Hb. by split_and!.
Qed.

(** Runtime events are numbered without a gap over any history: within a runtime
    generation from one on, and generations only grow. *)
Theorem runtime_order self l self' :
  control_reached self → served self l self' →
  numbered (runtime_sequence_generation self) (runtime_sequence self) (all_runtimes l)
    (runtime_sequence_generation self') (runtime_sequence self').
Proof.
  intros Hr%control_reached_wf Hs. apply (re_numbers _ _ _ (served_effect _ _ _ Hr Hs)).
Qed.

(** C14: Every accepted command that takes effect at once is reported: whatever was
    submitted or received in between, the next tick, as long as frames are left,
    succeeds and publishes a runtime event that names its revision and shows the
    realized state.  The histories are those in which no stinger is fired while a
    T-bar is held ([EngineSim.fires_idle]): after such a command the tick fails
    and reports nothing ([EngineSafety.held_stinger_breaks_tick]). *)
Theorem commands_reported self principal message now self1 s c l self2 server :
  control_reached self → op_ok self (OpSubmit principal message now) →
  control_step (OpSubmit principal message now) self = (self1, Ret (Submitted s)) →
  is_Some (submission_accepted s) →
  engine_command (Protocol.payload message) = Some c → immediate c = true →
  served self1 l self2 → Forall (λ a, is_tick a = false) l →
  server_matches server (identity self2) → EngineRun.can_tick (engine self2) →
  ∃ self3 out ev, control_step (OpTick server) self2 = (self3, Ret (Ticked out)) ∧
    ev ∈ tick_runtime_events out ∧
    Protocol.runtime_revision ev = current_revision self1 ∧
    Protocol.generation ev = current_revision self1 ∧
    Protocol.runtime_event ev = Protocol.RuntimeLifecycleEvent.Realized (runtime_domain c)
      (manual_status (Engine.realized_switcher (engine self3)))
      (fade_status (Engine.realized_switcher (engine self3))).
Proof.
  intros Hr Hok Hst Hacc Hc Him Hs Hl Hserver Hcan. apply control_reached_wf in Hr as Hwf.
  pose proof (submitted_pending _ _ _ _ _ _ _ Hwf Hok Hst Hacc Hc) as Hin.
  assert (Hwf1 : control_wf self1).
  { pose proof (control_step_spec _ self Hwf Hok) as Hsp. rewrite Hst in Hsp. apply Hsp. }
  destruct (served_pending _ _ _ Hwf1 Hs Hl) as [more Hmore].
  assert (Hin2 : mk_pending (current_revision self1) c ∈ pending_runtime_actions self2).
  { rewrite Hmore. apply elem_of_app. by left. }
  apply list_elem_of_lookup in Hin2 as [i Hi].
  pose proof (tick_step true server self2 (re_wf _ _ _ (served_effect _ _ _ Hwf1 Hs))) as Ht.
  cbv zeta iota in Ht. destruct (control_step (OpTick server) self2) as [self3 [a|x|]];
    [|by destruct Ht as [(_&?&_)|(_&?&_)]|done].
  destruct Ht as (_&_&out&->&Ht). destruct (td_reports _ _ _ _ Ht i _ Hi eq_refl Him) as (ev&?&?&?&?).
  by exists self3, out, ev.
Qed.

(** An unauthorized command is inert: it is answered with a rejection that names
    the missing permission, or with the rejection its idempotency key was answered
    with before; nothing is published and nothing but the memory of denials
    changes; and while the denial is remembered, any later command under that key
    is answered with the same rejection. *)
Theorem unauthorized_inert self principal message now denial :
  hook_authorize (authorizer self) principal (command_class (Protocol.payload message)) =
    Err denial →
  ∃ result again self', submit principal message now self =
      (self', Ret (mk_submission (mk_output result []) again None [])) ∧
    (result = denial_result message denial self ∧ again = false ∨
     authorization_denials self !! Protocol.idempotency_key message = Some result ∧
       again = true ∧ self' = self) ∧
    (∃ denials order, self' = set_denials denials order self) ∧
    (retained_events (limits self) ≠ 0%nat → ∀ principal' message' now',
      Protocol.idempotency_key message' = Protocol.idempotency_key message →
      submit principal' message' now' self' =
        (self', Ret (mk_submission (mk_output result []) true None []))).
Proof.
  intros Ha. unfold submit, prepare_submit, mbind, stm_bind, st_get.
  destruct (authorization_denials self !! Protocol.idempotency_key message) as [result|] eqn:Hd.
  - exists result, true, self. split; [done|]. split; [by right|]. split.
    { exists (authorization_denials self), (authorization_denial_order self). by destruct self. }
    intros _ ??? ->. by rewrite Hd.
  - rewrite Ha. eexists (denial_result message denial self), false, _. split; [reflexivity|].
    split; [by left|]. split; [apply remember_fields|].
    intros Hn ??? ->. unfold remember_authorization_denial. rewrite decide_False by done.
    destruct (expire_denials _ _ _) as [order denials]. simpl.
    by rewrite lookup_insert_eq.
Qed.

(** C10: A command is decided once, whoever repeats it: once the engine has answered a
    submission, every later authorized submission under the same idempotency key
    publishes nothing and changes nothing, however the service went on in between.
    It is answered with the result of the first, unless the service remembers under
    the key the denial of an unauthorized attempt made meanwhile, and then with
    that denial.  The histories
    are those that fire no stinger while a T-bar is held ([EngineSim.fires_idle]). *)
Theorem submit_once self principal message now self1 s l self2 principal' message' now' :
  control_reached self → message_ok self message →
  authorization_denials self !! Protocol.idempotency_key message = None →
  is_ok (hook_authorize (authorizer self) principal
    (command_class (Protocol.payload message))) = true →
  submit principal message now self = (self1, Ret s) →
  served self1 l self2 →
  Protocol.idempotency_key message' = Protocol.idempotency_key message →
  is_ok (hook_authorize (authorizer self2) principal'
    (command_class (Protocol.payload message'))) = true →
  is_Some (engine_command (Protocol.payload message')) →
  submit principal' message' now' self2 =
    (self2, Ret (mk_submission
       (mk_output (default (output_result (output s))
          (authorization_denials self2 !! Protocol.idempotency_key message)) []) true None [])).
Proof.
  intros Hr Hok Hd Hau Hst Hs Hkey Hau2 [c Hc]. apply control_reached_wf in Hr as Hwf.
  destruct (submit_receipt _ _ _ _ _ _ Hwf Hok Hd Hau Hst) as (r&Hrec&->).
  assert (Hwf1 : control_wf self1).
  { pose proof (submit_step principal message now self Hwf Hok) as Hsp. unfold control_step, answered in Hsp.
    rewrite Hst in Hsp. apply Hsp. }
  pose proof (served_receipt _ _ _ _ _ Hwf1 Hs Hrec) as Hrec2. unfold receipt_of in Hrec2.
  unfold submit, prepare_submit, mbind, stm_bind, st_get. rewrite Hkey.
  destruct (authorization_denials self2 !! _) as [denial|]; [reflexivity|].
  destruct (hook_authorize (authorizer self2) principal' _) as [u|]; [|done]. rewrite Hc. unfold Engine.prepare_execute.
  change (Protocol.domain_envelope message' c) with (envelope_of message' c).
  destruct (domain_envelope_fields message' c) as [-> _]. rewrite Hkey, Hrec2. reflexivity.
Qed.
End laws.

(** ** Witnesses *)

Definition demo_identity : string := "engine".
Definition demo_new : option (ControlService Auth.Policy) :=
  control_new EngineSafety.demo_engine Auth.production demo_identity "log" (mk_limits 2 2 4).
Lemma demo_new_Some : is_Some demo_new.
Proof. apply (bool_decide_unpack _). by vm_compute. Defined.
Definition demo_control : ControlService Auth.Policy := is_Some_proj demo_new_Some.
Definition demo_operator : Auth.Principal := Auth.authenticated "alice" "s1" [Auth.Operator].
Definition demo_guest : Auth.Principal := Auth.authenticated "bob" "s2" [Auth.Viewer].
Definition demo_message (key : string) (p : Protocol.CommandPayload.t) : Protocol.CommandMessage :=
  Protocol.mk_command Protocol.CURRENT_PROTOCOL_VERSION key key None None p.
Definition demo_submit (key : string) (p : Protocol.CommandPayload.t) : control_op :=
  OpSubmit demo_operator (demo_message key p) 0.
Definition demo_server : Protocol.ServerIdentity :=
  Protocol.mk_server demo_identity "project"
    (Protocol.state_epoch (identity demo_control)) "log".

Fixpoint serve {A} `{AuthorizationHook A} (ops : list control_op) (self : ControlService A) :
    option (ControlService A * list control_answer) :=
  match ops with
  | [] => Some (self, [])
  | op :: ops =>
      match control_step op self with
      | (self, Ret a) => '(self, l) ← serve ops self; Some (self, a :: l)
      | _ => None
      end
  end.
(** An operation whose preconditions hold in every state. *)
Definition plain_op (op : control_op) : Prop :=
  match op with
  | OpSubmit _ message _ =>
      payload_ok (Protocol.payload message) ∧
      ∀ c, engine_command (Protocol.payload message) = Some c → ∀ show, EngineSim.fires_idle show c
  | _ => True
  end.
Lemma plain_op_ok {A} (self : ControlService A) op : plain_op op → op_ok self op.
Proof. destruct op; try done. intros [Hp Hf]. split; [done|]. intros c Hc. by apply Hf. Qed.
Lemma serve_served {A} `{AuthorizationHook A} ops (self self' : ControlService A) l :
  Forall plain_op ops → serve ops self = Some (self', l) → served self l self'.
Proof.
  revert self l. induction ops as [|op ops IH]; intros self l Hops; cbn [serve].
  { intros [= <- <-]. apply served_nil. }
  apply Forall_cons in Hops as [Hop Hops].
  destruct (control_step op self) as [self1 [a|x|]] eqn:Hst; [|done..].
  destruct (serve ops self1) as [[self2 l2]|] eqn:Hs; [|done]. intros [= <- <-].
  eapply served_cons; [by apply plain_op_ok|exact Hst|by apply IH].
Qed.
Lemma demo_control_reached : control_reached demo_control.
Proof.
  exists EngineSafety.demo_engine, Auth.production, demo_identity, "log", (mk_limits 2 2 4), demo_control, [].
  split_and!; [apply EngineSafety.demo_engine_reached|by vm_compute| |apply served_nil].
  unfold demo_control. change (control_new _ _ _ _ _) with demo_new.
  generalize demo_new_Some. generalize demo_new. intros [x|] H; [done|by destruct H].
Qed.
(** A subscriber, a fade under way and a command pending. *)
Definition demo_ops : list control_op :=
  [OpSubscribe; demo_submit "a" (Protocol.CommandPayload.Fade 3); OpTick demo_server;
   demo_submit "b" (Protocol.CommandPayload.FadeToBlack true 2); OpReceive 1].
Definition demo_served : option (ControlService Auth.Policy * list control_answer) :=
  serve demo_ops demo_control.
Lemma demo_served_Some : is_Some demo_served.
Proof. apply (bool_decide_unpack _). by vm_compute. Defined.
Definition demo_live : ControlService Auth.Policy := (is_Some_proj demo_served_Some).1.
Definition demo_answers : list control_answer := (is_Some_proj demo_served_Some).2.
Lemma plain_ops_ok ops :
  Forall (λ op, match op with
    | OpSubmit _ m _ => match Protocol.payload m with
                        | Protocol.CommandPayload.Cut => True
                        | Protocol.CommandPayload.Fade d => in_ty U32 d
                        | Protocol.CommandPayload.FadeToBlack _ d => in_ty U32 d
                        | Protocol.CommandPayload.SelectPreview _ => True
                        | _ => False
                        end
    | _ => True
    end) ops → Forall plain_op ops.
Proof.
  intros Hf. eapply Forall_impl; [exact Hf|]. intros [p m now| | | | | |]; try done. simpl.
  destruct (Protocol.payload m); try done; intros Hd; (split; [exact Hd|]); by intros c [= <-].
Qed.
Lemma demo_ops_plain : Forall plain_op demo_ops.
Proof. apply plain_ops_ok. repeat (apply Forall_cons; split; [try exact I; int_lia|]). apply Forall_nil. exact I. Qed.
Lemma demo_live_served : served demo_control demo_answers demo_live.
Proof.
  apply (serve_served demo_ops); [apply demo_ops_plain|]. change (serve _ _) with demo_served.
  unfold demo_answers, demo_live. generalize demo_served_Some. generalize demo_served.
  intros [[x y]|] H; [done|by destruct H].
Qed.
Lemma demo_live_reached : control_reached demo_live.
Proof. eapply control_reached_step; [apply demo_control_reached|apply demo_live_served]. Qed.

Definition returns {E B} (r : outcome E B) : bool :=
  match r with Ret _ => true | _ => false end.
(** A service after one more operation, and the answer to it. *)
Definition step_answer (op : control_op) (self : ControlService Auth.Policy) :
    ControlService Auth.Policy * option control_answer :=
  let p := control_step op self in
  (p.1, match p.2 with Ret a => Some a | _ => None end).
Lemma step_answer_Some op self a :
  (step_answer op self).2 = Some a → control_step op self = ((step_answer op self).1, Ret a).
Proof.
  unfold step_answer. destruct (control_step op self) as [s [b|x|]]; simpl; [|done..].
  by intros [= <-].
Qed.

Lemma control_safe_witness :
  snapshot_record (engine demo_live) (identity demo_live) = Some (snapshot demo_live) ∧
  ∃ self' a, control_step (OpTick demo_server) demo_live = (self', Ret a) ∧ control_reached self'.
Proof.
  destruct (control_safe demo_live (OpTick demo_server) demo_live_reached I) as [Hs Hst].
  split; [exact Hs|].
  assert (Hret : returns (control_step (OpTick demo_server) demo_live).2 = true) by by vm_compute.
  revert Hret Hst. generalize (control_step (OpTick demo_server) demo_live).
  intros [self' [a|x|]] Hret Hst; [|discriminate Hret..].
  exists self', a. split; [reflexivity|exact Hst].
Defined.
Lemma resume_exact_witness :
  length (all_durables demo_answers) = 2%nat ∧
  resume (record_cursor (snapshot demo_control)) demo_live =
    ResumeEvents (all_durables demo_answers).
Proof.
  split; [by vm_compute|].
  rewrite (resume_exact demo_control demo_answers demo_live demo_control_reached demo_live_served).
  apply decide_True. by vm_compute.
Defined.

Lemma subscriber_fifo_witness :
  ∃ ch, channels demo_live !! 1 = Some ch ∧ length (queued ch) = 1%nat ∧
    all_heard 1 (tail demo_answers) ++ queued ch = all_lives (tail demo_answers).
Proof.
  set (self1 := (step_answer OpSubscribe demo_control).1).
  assert (Hst : control_step OpSubscribe demo_control = (self1, Ret (Subscribed 1)))
    by (apply step_answer_Some; by vm_compute).
  assert (Hs : served self1 (tail demo_answers) demo_live).
  { apply (serve_served (tail demo_ops)); [exact (Forall_inv_tail demo_ops_plain)|by vm_compute]. }
  destruct (subscriber_fifo demo_control 1 self1 _ demo_live demo_control_reached Hst Hs)
    as (ch&Hch&_&_&Hall).
  exists ch. split; [exact Hch|]. split.
  - assert (Hc : (length ∘ queued) <$> channels demo_live !! 1 = Some 1%nat) by by vm_compute.
    rewrite Hch in Hc. by injection Hc.
  - apply Hall. apply (bool_decide_unpack _). by vm_compute.
Defined.
Lemma runtime_order_witness :
  numbered 0 0 (all_runtimes demo_answers) (runtime_sequence_generation demo_live)
    (runtime_sequence demo_live).
Proof.
  exact (runtime_order demo_control demo_answers demo_live demo_control_reached demo_live_served).
Defined.
Lemma unauthorized_inert_witness :
  ∃ result self', submit demo_guest (demo_message "c" Protocol.CommandPayload.Cut) 0 demo_live =
    (self', Ret (mk_submission (mk_output result []) false None [])) ∧
    submit demo_operator (demo_message "c" Protocol.CommandPayload.RecordStart) 9 self' =
      (self', Ret (mk_submission (mk_output result []) true None [])).
Proof.
  destruct (unauthorized_inert demo_live demo_guest (demo_message "c" Protocol.CommandPayload.Cut) 0
    (Auth.mk_denial Auth.CommandClass.Transition Auth.Transition Auth.MissingPermission) ltac:(by vm_compute))
    as (result&again&self'&Hs&Hcase&_&Hlater).
  destruct Hcase as [[_ ->]|(Hd&_)].
  - exists result, self'. split; [exact Hs|]. apply Hlater; [by vm_compute|reflexivity].
  - assert (Hn : authorization_denials demo_live !! "c" = None) by by vm_compute.
    change (authorization_denials demo_live !! "c" = Some result) in Hd.
    rewrite Hn in Hd. discriminate Hd.
Defined.

Definition demo_preview : control_op := demo_submit "p" (Protocol.CommandPayload.SelectPreview 3).
Definition demo_previewed : ControlService Auth.Policy := (step_answer demo_preview demo_control).1.
Definition demo_subscribed : ControlService Auth.Policy := (step_answer OpSubscribe demo_previewed).1.
Lemma demo_preview_ok self : op_ok (A := Auth.Policy) self demo_preview.
Proof. apply plain_op_ok. split; [exact I|]. by intros c [= <-]. Qed.
Lemma step_submitted p m now self :
  returns (control_step (OpSubmit p m now) self).2 = true →
  ∃ s, submit p m now self = ((step_answer (OpSubmit p m now) self).1, Ret s) ∧
    control_step (OpSubmit p m now) self = ((step_answer (OpSubmit p m now) self).1, Ret (Submitted s)).
Proof.
  unfold step_answer, control_step, answered.
  destruct (submit p m now self) as [s' [s|x|]]; simpl; [|done..]. intros _. by exists s.
Qed.
Lemma step_ticked server self :
  returns (control_step (OpTick server) self).2 = true →
  ∃ out, control_step (OpTick server) self = ((step_answer (OpTick server) self).1, Ret (Ticked out)).
Proof.
  unfold step_answer, control_step, answered.
  destruct (tick server self) as [s' [out|x|]]; simpl; [|done..]. intros _. by exists out.
Qed.
Lemma commands_reported_witness :
  ∃ self3 out ev, control_step (OpTick demo_server) demo_subscribed = (self3, Ret (Ticked out)) ∧
    ev ∈ tick_runtime_events out ∧ Protocol.runtime_revision ev = 1.
Proof.
  destruct (step_submitted demo_operator
    (demo_message "p" (Protocol.CommandPayload.SelectPreview 3)) 0 demo_control
    ltac:(by vm_compute)) as (s&Hs&Hst).
  assert (Hsub : control_step OpSubscribe demo_previewed = (demo_subscribed, Ret (Subscribed 1)))
    by (apply step_answer_Some; vm_compute; reflexivity).
  assert (Hacc : is_Some (submission_accepted s)).
  { assert (Ha : match (control_step demo_preview demo_control).2 with
                 | Ret (Submitted s) => bool_decide (is_Some (submission_accepted s)) = true
                 | _ => False
                 end) by (vm_compute; reflexivity).
    unfold demo_preview, demo_submit in Ha. rewrite Hst in Ha. exact (bool_decide_eq_true_1 _ Ha). }
  destruct (commands_reported demo_control demo_operator
    (demo_message "p" (Protocol.CommandPayload.SelectPreview 3)) 0 demo_previewed s
    (Engine.EngineCommand.SelectPreview 3) [Subscribed 1] demo_subscribed demo_server
    demo_control_reached (demo_preview_ok demo_control) Hst Hacc eq_refl eq_refl
    (served_cons _ OpSubscribe _ _ _ _ I Hsub (served_nil _))
    ltac:(apply Forall_cons; split; [reflexivity|apply Forall_nil; exact I])
    ltac:(apply (bool_decide_unpack _); vm_compute; reflexivity)
    ltac:(apply (bool_decide_unpack _); vm_compute; reflexivity))
    as (self3&out&ev&Ht&Hev&Hrev&_).
  exists self3, out, ev. split; [exact Ht|]. split; [exact Hev|].
  rewrite Hrev. vm_compute. reflexivity.
Defined.
Lemma submit_once_witness :
  ∃ s self2, (submit demo_operator (demo_message "p" (Protocol.CommandPayload.SelectPreview 3)) 0
      demo_control).2 = Ret s ∧
    (submit demo_operator (demo_message "p" Protocol.CommandPayload.Cut) 7 self2) =
      (self2, Ret (mk_submission (mk_output (output_result (output s)) []) true None [])).
Proof.
  destruct (step_submitted demo_operator
    (demo_message "p" (Protocol.CommandPayload.SelectPreview 3)) 0 demo_control
    ltac:(by vm_compute)) as (s&Hs&Hst).
  assert (Hsub : control_step OpSubscribe demo_previewed = (demo_subscribed, Ret (Subscribed 1)))
    by (apply step_answer_Some; vm_compute; reflexivity).
  exists s, demo_subscribed. split; [rewrite Hs; reflexivity|].
  apply (submit_once demo_control demo_operator
    (demo_message "p" (Protocol.CommandPayload.SelectPreview 3)) 0 demo_previewed s [Subscribed 1]
    demo_subscribed demo_operator (demo_message "p" Protocol.CommandPayload.Cut) 7
    demo_control_reached (demo_preview_ok demo_control));
    [vm_compute; reflexivity|vm_compute; reflexivity|exact Hs| |reflexivity
    |vm_compute; reflexivity|eexists; reflexivity].
  exact (served_cons _ OpSubscribe _ _ _ _ I Hsub (served_nil _)).
Defined.
