(* ===== verification/AutomationPlane.v ===== *)
(** Automation at the authority, [crates/services/fm-control/src/automation.rs]:
    shortcuts, triggers, schedules and programmed GO lists that submit ordinary
    commands to the control service, under the authority that whoever armed them
    holds at that moment.

    [AutomationPlane] maps to the record of the same name.  Its methods that submit
    run on the plane and the service together.  [AuthorityResolver] is the trait of
    that name; [ArmTimeAuthority] is its default instance. *)
From S2P Require Import Prelude BTree Automation Timers ControlWire Control.
From S2P Require Command Protocol Auth.
From stdpp Require Import pretty.
#[local] Open Scope Z_scope.

(** ** Data *)

Record AutomationLimits := mk_automation_limits {
  max_shortcuts : nat;
  max_triggers : nat;
  max_pending_trigger_actions : nat;
  max_schedules : nat;
  max_go_programs : nat;
  max_active_go_runs : nat;
  max_commands_per_tick : nat;
  max_presses_per_frame : nat;
  default_deadline_after_due_ms : Z
}.
Definition automation_limits_default : AutomationLimits :=
  mk_automation_limits 512 256 1024 256 256 16 32 64 1000.

Module AutomationResource.
Inductive t :=
  Shortcuts | Triggers | PendingTriggerActions | Schedules | GoPrograms | ActiveGoRuns | Presses.
End AutomationResource.
Inductive AutomationError :=
  | AutoLimitReached (resource : AutomationResource.t) (limit : nat)
  | UnboundChord
  | AutoShortcut (e : ShortcutError)
  | AutoTrigger (e : TriggerError)
  | AutoSchedule (e : ScheduleError)
  | AutoGo (e : GoError)
  | AutoControl (e : ControlError).

Record AutomationIdentity := mk_identity { user : string; session : string }.
#[global] Instance AutomationIdentity_eq_dec : EqDecision AutomationIdentity.
Proof. solve_decision. Defined.
#[global] Instance AutomationIdentity_ord_key : OrdKey AutomationIdentity := λ x y,
  key_cmp (user x, session x) (user y, session y).
#[global] Instance AutomationIdentity_ord_key_laws : OrdKeyLaws AutomationIdentity.
Proof. apply (ord_key_laws_via (λ x, (user x, session x))); [|done]. by intros [] [] [= -> ->]. Qed.
Definition identity_of (principal : Auth.Principal) : AutomationIdentity :=
  mk_identity (Auth.user_id principal) (Auth.session_id principal).

(** The authority an identity holds now. *)
Class AuthorityResolver (R : Type) := {
  resolve_authority : AutomationIdentity → R → option Auth.Principal;
  observe : Auth.Principal → R → R;
  forget : AutomationIdentity → R → R
}.
Definition ArmTimeAuthority := btmap AutomationIdentity Auth.Principal.
#[global] Instance arm_time_authority : AuthorityResolver ArmTimeAuthority := {
  resolve_authority := bt_get;
  observe := λ principal self, bt_insert (identity_of principal) principal self;
  forget := bt_remove
}.

Module AutomationBinding.
Inductive t := Trigger (id : string) | Schedule (id : string) | GoRun (run : Z).
End AutomationBinding.
#[global] Instance AutomationBinding_eq_dec : EqDecision AutomationBinding.t.
Proof. solve_decision. Defined.
(** The derived order: by constructor, then by its argument. *)
Definition binding_rank (b : AutomationBinding.t) : Z * (string * Z) :=
  match b with
  | AutomationBinding.Trigger id => (0, (id, 0))
  | AutomationBinding.Schedule id => (1, (id, 0))
  | AutomationBinding.GoRun run => (2, ("", run))
  end.
#[global] Instance AutomationBinding_ord_key : OrdKey AutomationBinding.t := λ x y,
  key_cmp (binding_rank x) (binding_rank y).
#[global] Instance AutomationBinding_ord_key_laws : OrdKeyLaws AutomationBinding.t.
Proof. apply (ord_key_laws_via binding_rank); [|done]. by intros [] [] [=]; subst. Qed.

Record AutomationRequest := mk_request {
  payload : Protocol.CommandPayload.t;
  expected_revision : option Z;
  deadline_after_due_ms : option Z
}.
Record AutomationCommand := mk_command { identity : AutomationIdentity; request : AutomationRequest }.

Module AutomationSource.
Inductive t :=
  | Shortcut (id : string)
  | Trigger (id : string)
  | Schedule (id : string)
  | Go (run : Z) (index : nat).
End AutomationSource.
#[global] Instance AutomationSource_eq_dec : EqDecision AutomationSource.t.
Proof. solve_decision. Defined.
Definition source_rank (s : AutomationSource.t) : Z * (string * (Z * Z)) :=
  match s with
  | AutomationSource.Shortcut id => (0, (id, (0, 0)))
  | AutomationSource.Trigger id => (1, (id, (0, 0)))
  | AutomationSource.Schedule id => (2, (id, (0, 0)))
  | AutomationSource.Go run index => (3, ("", (run, Z.of_nat index)))
  end.
#[global] Instance AutomationSource_ord_key : OrdKey AutomationSource.t := λ x y,
  key_cmp (source_rank x) (source_rank y).
#[global] Instance AutomationSource_ord_key_laws : OrdKeyLaws AutomationSource.t.
Proof.
  apply (ord_key_laws_via source_rank); [|done].
  by intros [] [] Heq; simpl in Heq; simplify_eq.
Qed.
Definition source_display (self : AutomationSource.t) : string :=
  match self with
  | AutomationSource.Shortcut id => "shortcut/" +:+ id
  | AutomationSource.Trigger id => "trigger/" +:+ id
  | AutomationSource.Schedule id => "schedule/" +:+ id
  | AutomationSource.Go run index => "go/" +:+ pretty run +:+ "/" +:+ pretty index
  end.

Record AutomationSubmission := mk_automation_submission {
  submission_source : AutomationSource.t;
  submission_due_ms : Z;
  submission_key : string;
  submission : CommandSubmission
}.
Module AutomationRefusalReason.
Inductive t := TickBudget (limit : nat) | Coalesced | IdentityRevoked | Aborted.
End AutomationRefusalReason.
Record AutomationRefusal := mk_refusal {
  refusal_source : AutomationSource.t;
  refusal_due_ms : Z;
  refusal_identity : AutomationIdentity;
  refusal_request : AutomationRequest;
  refusal_reason : AutomationRefusalReason.t
}.
Record AutomationMissedOccurrences := mk_missed {
  missed_id : string;
  missed_occurrence_ms : Z;
  missed : Z
}.
Record AutomationTick := mk_automation_tick {
  submitted : list AutomationSubmission;
  refusals : list AutomationRefusal;
  missed_list : list AutomationMissedOccurrences;
  tick_error : option AutomationError
}.

Record PlannedCommand := mk_planned {
  planned_source : AutomationSource.t;
  due_ms : Z;
  intent_index : nat;
  planned_command : AutomationCommand
}.
Definition refuse (reason : AutomationRefusalReason.t) (planned : PlannedCommand) : AutomationRefusal :=
  mk_refusal (planned_source planned) (due_ms planned) (identity (planned_command planned))
    (request (planned_command planned)) reason.
Definition stamp (i : AutomationIdentity) (r : AutomationRequest) : AutomationCommand := mk_command i r.

Record AutomationPlane (R : Type) := mk_plane {
  limits : AutomationLimits;
  resolver : R;
  shortcuts : ShortcutRegistry AutomationRequest;
  plane_triggers : TriggerEngine AutomationCommand;
  schedules : ScheduleSet AutomationCommand;
  go : GoEngine AutomationRequest;
  go_runs : btmap Z AutomationIdentity;
  armed : btmap AutomationBinding.t AutomationIdentity;
  presses_this_frame : nat
}.
Arguments mk_plane {R}.
Arguments limits {R}.
Arguments resolver {R}.
Arguments shortcuts {R}.
Arguments plane_triggers {R}.
Arguments schedules {R}.
Arguments go {R}.
Arguments go_runs {R}.
Arguments armed {R}.
Arguments presses_this_frame {R}.

Section plane.
Context {R : Type} `{AuthorityResolver R}.
Implicit Types self : AutomationPlane R.

Definition set_resolver (x : R) self : AutomationPlane R :=
  mk_plane (limits self) x (shortcuts self) (plane_triggers self) (schedules self) (go self)
    (go_runs self) (armed self) (presses_this_frame self).
Definition set_shortcuts (x : ShortcutRegistry AutomationRequest) self : AutomationPlane R :=
  mk_plane (limits self) (resolver self) x (plane_triggers self) (schedules self) (go self)
    (go_runs self) (armed self) (presses_this_frame self).
Definition set_triggers (x : TriggerEngine AutomationCommand) self : AutomationPlane R :=
  mk_plane (limits self) (resolver self) (shortcuts self) x (schedules self) (go self)
    (go_runs self) (armed self) (presses_this_frame self).
Definition set_schedules (x : ScheduleSet AutomationCommand) self : AutomationPlane R :=
  mk_plane (limits self) (resolver self) (shortcuts self) (plane_triggers self) x (go self)
    (go_runs self) (armed self) (presses_this_frame self).
Definition set_go (x : GoEngine AutomationRequest) self : AutomationPlane R :=
  mk_plane (limits self) (resolver self) (shortcuts self) (plane_triggers self) (schedules self) x
    (go_runs self) (armed self) (presses_this_frame self).
Definition set_go_runs (x : btmap Z AutomationIdentity) self : AutomationPlane R :=
  mk_plane (limits self) (resolver self) (shortcuts self) (plane_triggers self) (schedules self)
    (go self) x (armed self) (presses_this_frame self).
Definition set_armed (x : btmap AutomationBinding.t AutomationIdentity) self : AutomationPlane R :=
  mk_plane (limits self) (resolver self) (shortcuts self) (plane_triggers self) (schedules self)
    (go self) (go_runs self) x (presses_this_frame self).
Definition set_presses (x : nat) self : AutomationPlane R :=
  mk_plane (limits self) (resolver self) (shortcuts self) (plane_triggers self) (schedules self)
    (go self) (go_runs self) (armed self) x.

Definition with_resolver (limits : AutomationLimits) (resolver : R) : AutomationPlane R :=
  mk_plane limits resolver [] triggers_default schedules_default go_default [] [] 0.

(** ** Bindings *)

Definition arm (binding : AutomationBinding.t) (principal : Auth.Principal) (i : AutomationIdentity)
    self : AutomationPlane R :=
  set_armed (bt_insert binding i (armed self)) (set_resolver (observe principal (resolver self)) self).
Definition release (binding : AutomationBinding.t) self : AutomationPlane R :=
  match bt_get binding (armed self) with
  | None => self
  | Some i =>
      let self := set_armed (bt_remove binding (armed self)) self in
      if decide (i ∈ bt_values (armed self)) then self
      else set_resolver (forget i (resolver self)) self
  end.

Definition bindings_for (i : AutomationIdentity) self : list AutomationBinding.t :=
  (filter (λ p, p.2 = i) (armed self)).*1.
(** One step of the loop of [revoke_identity]. *)
Definition revoke_binding self (binding : AutomationBinding.t) : AutomationPlane R :=
  let self :=
    match binding with
    | AutomationBinding.Trigger id => set_triggers (Timers.remove_trigger id (plane_triggers self)).1 self
    | AutomationBinding.Schedule id => set_schedules (Timers.cancel_schedule id (schedules self)).1 self
    | AutomationBinding.GoRun run =>
        set_go_runs (bt_remove run (go_runs self)) (set_go (Timers.go_cancel run (go self)).1 self)
    end in
  set_armed (bt_remove binding (armed self)) self.
Definition revoke_identity (i : AutomationIdentity) self :
    AutomationPlane R * list AutomationBinding.t :=
  let revoked := bindings_for i self in
  let self := foldl revoke_binding self revoked in
  (set_resolver (forget i (resolver self)) self, revoked).

Definition limit_reached {A} (n limit : nat) (resource : AutomationResource.t)
    (m : stm (AutomationPlane R) AutomationError A) : stm (AutomationPlane R) AutomationError A :=
  if decide (limit ≤ n)%nat then mthrow (AutoLimitReached resource limit) else m.

Definition insert_shortcut (shortcut : Shortcut AutomationRequest) :
    stm (AutomationPlane R) AutomationError unit :=
  self ← st_get;
  limit_reached (length (shortcuts self)) (max_shortcuts (limits self)) AutomationResource.Shortcuts
    (st_map_err AutoShortcut (st_zoom shortcuts set_shortcuts (Automation.insert_shortcut shortcut))).
Definition remove_shortcut (id : string) self : AutomationPlane R * bool :=
  let '(l, removed) := Automation.remove_shortcut id (shortcuts self) in
  (set_shortcuts l self, bool_decide (is_Some removed)).

Definition insert_trigger (principal : Auth.Principal) (trigger : Trigger AutomationRequest) :
    stm (AutomationPlane R) AutomationError unit :=
  self ← st_get;
  limit_reached (registered_len (plane_triggers self)) (max_triggers (limits self))
    AutomationResource.Triggers (
  let i := identity_of principal in
  _ ← st_map_err AutoTrigger (st_zoom plane_triggers set_triggers (Timers.insert_trigger
        (mk_trigger (trigger_id trigger) (trigger_filter trigger) (trigger_delay_ms trigger)
           (trigger_conditions trigger) (intent_map (stamp i) <$> trigger_intents trigger))));
  st_modify (arm (AutomationBinding.Trigger (trigger_id trigger)) principal i)).
Definition remove_trigger (id : string) self : AutomationPlane R * bool :=
  let '(x, removed) := Timers.remove_trigger id (plane_triggers self) in
  let self := set_triggers x self in
  if removed then (release (AutomationBinding.Trigger id) self, true) else (self, false).

Definition schedule (principal : Auth.Principal) (id : string) (at_ms : Z) (kind : ScheduleKind)
    (intent : CommandIntent AutomationRequest) : stm (AutomationPlane R) AutomationError unit :=
  self ← st_get;
  limit_reached (schedules_len (schedules self)) (max_schedules (limits self))
    AutomationResource.Schedules (
  let i := identity_of principal in
  _ ← st_map_err AutoSchedule (st_zoom schedules set_schedules
        (schedule_at id at_ms kind (intent_map (stamp i) intent)));
  st_modify (arm (AutomationBinding.Schedule id) principal i)).
Definition cancel_schedule (id : string) self : AutomationPlane R * bool :=
  let '(x, cancelled) := Timers.cancel_schedule id (schedules self) in
  let self := set_schedules x self in
  match cancelled with
  | None => (self, false)
  | Some _ => (release (AutomationBinding.Schedule id) self, true)
  end.

Definition program_go (input : Z) (p : ProgrammedGo AutomationRequest) :
    stm (AutomationPlane R) AutomationError unit :=
  self ← st_get;
  _ ← st_require (¬ (has_program input (go self) = false ∧
                     (max_go_programs (limits self) ≤ program_len (go self))%nat))
        (AutoLimitReached AutomationResource.GoPrograms (max_go_programs (limits self)));
  st_put (set_go (program input p (go self)).1 self).

Definition ingest_event (event : AutomationEvent) : stm (AutomationPlane R) AutomationError unit :=
  self ← st_get;
  limit_reached (pending_len (plane_triggers self)) (max_pending_trigger_actions (limits self))
    AutomationResource.PendingTriggerActions (
  _ ← st_map_err AutoTrigger (st_zoom plane_triggers set_triggers (ingest event));
  mret tt).

Definition start_go (principal : Auth.Principal) (input : Z) (key : string) (now_ms : Z) :
    stm (AutomationPlane R) AutomationError Z :=
  self ← st_get;
  _ ← st_require (¬ (started key (go self) = None ∧
                     (max_active_go_runs (limits self) ≤ active_run_len (go self))%nat))
        (AutoLimitReached AutomationResource.ActiveGoRuns (max_active_go_runs (limits self)));
  start ← st_map_err AutoGo (st_zoom go set_go (go_start input key now_ms));
  if replayed start then mret (started_run start) else
  let i := identity_of principal in
  _ ← st_modify (λ self, arm (AutomationBinding.GoRun (started_run start)) principal i
        (set_go_runs (bt_insert (started_run start) i (go_runs self)) self));
  mret (started_run start).
Definition cancel_go (run : Z) self : AutomationPlane R * bool :=
  let self := release (AutomationBinding.GoRun run) (set_go_runs (bt_remove run (go_runs self)) self) in
  let '(x, cancelled) := go_cancel run (go self) in
  (set_go x self, cancelled).

(** ** Collecting a frame *)

(** What is being planned: the buffer, the commands superseded, and the bindings
    that fired for the last time. *)
Record Collecting := mk_collecting {
  buffer : IntentBuffer PlannedCommand AutomationSource.t;
  coalesced : list PlannedCommand;
  completed : list AutomationBinding.t
}.
Definition plan_intent (source : AutomationSource.t) (intent : CommandIntent PlannedCommand)
    (c : Collecting) : Collecting :=
  let '(b, superseded) := push source intent (buffer c) in
  mk_collecting b (coalesced c ++ option_list superseded) (completed c).
Definition complete_binding (b : AutomationBinding.t) (c : Collecting) : Collecting :=
  mk_collecting (buffer c) (coalesced c) (completed c ++ [b]).

Definition collect_schedule (set : ScheduleSet AutomationCommand) (c : Collecting)
    (fire : ScheduleFire AutomationCommand) : Collecting :=
  let c := if contains_schedule (fire_id fire) set then c
           else complete_binding (AutomationBinding.Schedule (fire_id fire)) c in
  let source := AutomationSource.Schedule (fire_id fire) in
  plan_intent source (intent_map (mk_planned source (occurrence_ms fire) 0) (fire_intent fire)) c.
Definition missed_of (fire : ScheduleFire AutomationCommand) : list AutomationMissedOccurrences :=
  if decide (0 < missed_occurrences fire)
  then [mk_missed (fire_id fire) (occurrence_ms fire) (missed_occurrences fire)] else [].

Definition collect_trigger (c : Collecting) (fire : TriggerFire AutomationCommand) : Collecting :=
  let source := AutomationSource.Trigger (fired_trigger fire) in
  foldl (λ c p, plan_intent source (intent_map (mk_planned source (scheduled_for_ms fire) p.1) p.2) c)
    c (imap pair (fired_intents fire)).

Definition collect_go_fire (runs : btmap Z AutomationIdentity) (c : Collecting)
    (fire : GoActionFire AutomationRequest) : Collecting :=
  match bt_get (fire_run fire) runs with
  | None => c
  | Some i =>
      let source := AutomationSource.Go (fire_run fire) (index (fire_action fire)) in
      plan_intent source (intent_map (λ r, mk_planned source (fire_due_ms fire) 0 (mk_command i r))
        (go_intent (fire_action fire))) c
  end.
Definition collect_go (now_ms : Z) (c : Collecting) self : AutomationPlane R * Collecting :=
  let '(x, fires) := poll_go now_ms (go self) in
  let self := set_go x self in
  let c := foldl (collect_go_fire (go_runs self)) c fires in
  let finished := filter (λ run, is_active run (go self) = false) (bt_keys (go_runs self)) in
  (set_go_runs (foldl (λ m run, bt_remove run m) (go_runs self) finished) self,
   foldl (λ c run, complete_binding (AutomationBinding.GoRun run) c) c finished).

(** A failed poll of the schedules is reported and fires nothing. *)
Definition collect (now_ms : Z) (state : ConditionContext) (tick : AutomationTick) :
    stm (AutomationPlane R) Empty_set (list PlannedCommand * list AutomationBinding.t * AutomationTick) := λ self,
  let '(set, r) := poll_schedules now_ms (schedules self) in
  let self := set_schedules set self in
  match r with
  | Panic => (self, Panic)
  | _ =>
      let fires := match r with Ret fires => fires | _ => [] end in
      let error := match r with Throw e => Some (AutoSchedule e) | _ => tick_error tick end in
      let c := foldl (collect_schedule set) (mk_collecting buffer_default [] []) fires in
      let '(x, fired) := poll_triggers now_ms state (plane_triggers self) in
      let self := set_triggers x self in
      let c := foldl collect_trigger c fired in
      let '(self, c) := collect_go now_ms c self in
      let '(b, discrete) := drain_discrete (buffer c) in
      let '(_, continuous) := drain_continuous b in
      (self, Ret ((into_command <$> discrete) ++ (into_command <$> continuous), completed c,
        mk_automation_tick (submitted tick)
          (refusals tick ++ (refuse AutomationRefusalReason.Coalesced <$> coalesced c))
          (missed_list tick ++ (fires ≫= missed_of)) error))
  end.
End plane.

(** ** Submitting *)

Section submitting.
Context {R A : Type} `{AuthorityResolver R} `{AuthorizationHook A}.
Implicit Types self : AutomationPlane R.

(** The identity of an action: who armed it, which binding, which occurrence, which
    intent. *)
Definition automation_key (planned : PlannedCommand) : string :=
  "auto/" +:+ user (identity (planned_command planned)) +:+ "/" +:+
  source_display (planned_source planned) +:+ "@" +:+ pretty (due_ms planned) +:+ "#" +:+
  pretty (intent_index planned).
Definition automation_message (limits : AutomationLimits) (planned : PlannedCommand) :
    Protocol.CommandMessage :=
  let key := automation_key planned in
  let r := request (planned_command planned) in
  let budget := default (default_deadline_after_due_ms limits) (deadline_after_due_ms r) in
  Protocol.mk_command Protocol.CURRENT_PROTOCOL_VERSION key key (expected_revision r)
    (Some (saturating U64 (due_ms planned + budget))) (payload r).

Definition emit (limits : AutomationLimits) (principal : Auth.Principal) (planned : PlannedCommand)
    (now_ms : Z) : stm (ControlService A) ControlError AutomationSubmission :=
  submission ← submit principal (automation_message limits planned) now_ms;
  mret (mk_automation_submission (planned_source planned) (due_ms planned)
          (automation_key planned) submission).

Definition on_control {E B} (m : stm (ControlService A) E B) :
    stm (AutomationPlane R * ControlService A) E B := st_zoom snd (λ c s, (s.1, c)) m.

Definition press (principal : Auth.Principal) (scope : option string) (chord : Chord) (now_ms : Z) :
    stm (AutomationPlane R * ControlService A) AutomationError AutomationSubmission :=
  '(self, _) ← st_get;
  _ ← st_require (¬ (max_presses_per_frame (limits self) ≤ presses_this_frame self)%nat)
        (AutoLimitReached AutomationResource.Presses (max_presses_per_frame (limits self)));
  shortcut ← st_lift (ok_or UnboundChord (resolve scope chord (shortcuts self)));
  let planned := mk_planned (AutomationSource.Shortcut (shortcut_id shortcut)) now_ms 0
    (mk_command (identity_of principal) (into_command (shortcut_intent shortcut))) in
  _ ← st_modify (λ s, (set_presses (S (presses_this_frame s.1)) s.1, s.2));
  st_map_err AutoControl (on_control (emit (limits self) principal planned now_ms)).

(** The loop over the plan: the first error of the service stops it. *)
Fixpoint submit_all (self : AutomationPlane R) (now_ms : Z) (aborted : bool) (plan : list PlannedCommand)
    (tick : AutomationTick) : stm (ControlService A) Empty_set AutomationTick := λ control,
  match plan with
  | [] => (control, Ret tick)
  | planned :: plan =>
      let refused reason := mk_automation_tick (submitted tick)
        (refusals tick ++ [refuse reason planned]) (missed_list tick) (tick_error tick) in
      if aborted then
        submit_all self now_ms aborted plan (refused AutomationRefusalReason.Aborted) control
      else
        match resolve_authority (identity (planned_command planned)) (resolver self) with
        | None =>
            submit_all self now_ms aborted plan (refused AutomationRefusalReason.IdentityRevoked) control
        | Some principal =>
            match emit (limits self) principal planned now_ms control with
            | (control, Ret submission) =>
                submit_all self now_ms aborted plan
                  (mk_automation_tick (submitted tick ++ [submission]) (refusals tick)
                     (missed_list tick) (tick_error tick)) control
            | (control, Throw error) =>
                submit_all self now_ms true plan
                  (mk_automation_tick (submitted tick)
                     (refusals tick ++ [refuse AutomationRefusalReason.Aborted planned])
                     (missed_list tick) (Some (AutoControl error))) control
            | (control, Panic) => (control, Panic)
            end
        end
  end.

Definition automation_tick (now_ms : Z) (state : ConditionContext) :
    stm (AutomationPlane R * ControlService A) Empty_set AutomationTick :=
  _ ← st_modify (λ s, (set_presses 0 s.1, s.2));
  '(plan, completed, tick) ← st_zoom fst (λ p s, (p, s.2))
      (collect now_ms state (mk_automation_tick [] [] [] None));
  '(self, _) ← st_get;
  let limit := max_commands_per_tick (limits self) in
  let overflow := (length plan - limit)%nat in
  let tick := mk_automation_tick (submitted tick)
    (refusals tick ++ (refuse (AutomationRefusalReason.TickBudget limit) <$> take overflow plan))
    (missed_list tick) (tick_error tick) in
  tick ← on_control (submit_all self now_ms false (drop overflow plan) tick);
  _ ← st_modify (λ s, (foldl (λ p b, release b p) s.1 completed, s.2));
  mret tick.
End submitting.
