(* ===== verification/PlaneLaws.v ===== *)
(** The automation plane between calls: [plane_wf] — everything that is armed or
    pending carries the identity that its binding is armed under — is kept by every
    operation ([plane_step_wf]); a frame plans what is due and hands it to the service
    one command after the other ([automation_tick_spec]); revoking an identity leaves
    nothing armed under it ([revoke_identity_spec]), and only arming arms
    ([plane_step_auth]). *)
From S2P Require Import Prelude BTree Automation Timers TimerLaws.
From S2P Require Import ControlWire Control ControlSafety AutomationPlane.
From S2P Require Command Actions Protocol Auth.
From stdpp Require Import pretty.
#[local] Open Scope Z_scope.

(** ** The invariant *)

Abbreviation Armed := (btmap AutomationBinding.t AutomationIdentity) (only parsing).

(** An intent that carries the identity [i]. *)
Definition stamped (i : AutomationIdentity) (x : CommandIntent AutomationCommand) : Prop :=
  identity (into_command x) = i.
Definition registered (t : TriggerEngine AutomationCommand) : list string :=
  trigger_id <$> triggers t.
Definition waiting (t : TriggerEngine AutomationCommand) :
    list (Actions.ScheduledAction (PendingTrigger AutomationCommand)) :=
  Actions.pending (trigger_queue t).

Record triggers_armed (m : Armed) (t : TriggerEngine AutomationCommand) : Prop := {
  ta_wf : triggers_wf t;
  ta_registered : ∀ x, x ∈ triggers t →
    ∃ i, bt_get (AutomationBinding.Trigger (trigger_id x)) m = Some i ∧
      Forall (stamped i) (trigger_intents x);
  ta_pending : ∀ a, a ∈ waiting t → armed_by a ∈ registered t ∧
    ∃ i, bt_get (AutomationBinding.Trigger (armed_by a)) m = Some i ∧
      Forall (stamped i) (pending_intents (Actions.action a))
}.
Record schedules_armed (m : Armed) (s : ScheduleSet AutomationCommand) : Prop := {
  sd_wf : schedules_wf s;
  sd_booked : ∀ b, b ∈ bookings s →
    ∃ i, bt_get (AutomationBinding.Schedule (scheduled_id b.2)) m = Some i ∧
      stamped i (scheduled_intent b.2)
}.
Record runs_armed (m : Armed) (runs : btmap Z AutomationIdentity) (g : GoEngine AutomationRequest) : Prop := {
  ra_ok : engine_ok g;
  ra_sorted : bt_sorted runs;
  ra_active : ∀ r, r ∈ active g → is_Some (bt_get r runs);
  ra_armed : ∀ r i, bt_get r runs = Some i →
    bt_get (AutomationBinding.GoRun r) m = Some i ∧ r ≤ next_run_id g
}.

(** A binding that nothing refers to may be armed and released. *)
Lemma triggers_armed_other m m' t :
  triggers_armed m t →
  (∀ id, id ∈ registered t → bt_get (AutomationBinding.Trigger id) m' = bt_get (AutomationBinding.Trigger id) m) →
  triggers_armed m' t.
Proof.
  intros [Hwf Hr Hp] Hm. split; [done| |].
  - intros x Hx. rewrite Hm; [by apply Hr|]. by apply list_elem_of_fmap_2.
  - intros a Ha. destruct (Hp a Ha) as [Hreg Hi]. split; [done|]. by rewrite Hm.
Qed.
Lemma schedules_armed_other m m' s :
  schedules_armed m s →
  (∀ b, b ∈ bookings s → bt_get (AutomationBinding.Schedule (scheduled_id b.2)) m' =
                         bt_get (AutomationBinding.Schedule (scheduled_id b.2)) m) →
  schedules_armed m' s.
Proof. intros [Hwf Hb] Hm. split; [done|]. intros b Hin. rewrite Hm by done. by apply Hb. Qed.
Lemma runs_armed_other m m' runs g :
  runs_armed m runs g →
  (∀ r, is_Some (bt_get r runs) → bt_get (AutomationBinding.GoRun r) m' = bt_get (AutomationBinding.GoRun r) m) →
  runs_armed m' runs g.
Proof.
  intros [Hok Hs Ha Hr] Hm. split; [done..|]. intros r i Hi. rewrite Hm by eauto. by apply Hr.
Qed.

Section invariant.
Context {R : Type} `{AuthorityResolver R}.
Implicit Types self : AutomationPlane R.

Record plane_wf self : Prop := {
  pw_sorted : bt_sorted (armed self);
  pw_triggers : triggers_armed (armed self) (plane_triggers self);
  pw_schedules : schedules_armed (armed self) (schedules self);
  pw_runs : runs_armed (armed self) (go_runs self) (go self)
}.

Lemma with_resolver_wf lim (r : R) : plane_wf (with_resolver lim r).
Proof.
  split; simpl; [apply bt_sorted_nil|..].
  - split; simpl; [apply triggers_default_wf|by intros x ?%elem_of_nil..].
  - split; [apply schedules_default_wf|]. by intros b ?%elem_of_nil.
  - split; simpl; [apply engine_default_ok|apply bt_sorted_nil| |done].
    intros r'. simpl. intros Hr. by apply not_elem_of_empty in Hr.
Qed.

(** Nothing refers to the binding. *)
Definition unused (b : AutomationBinding.t) self : Prop :=
  match b with
  | AutomationBinding.Trigger id => id ∉ registered (plane_triggers self)
  | AutomationBinding.Schedule id => ∀ x, x ∈ bookings (schedules self) → scheduled_id x.2 ≠ id
  | AutomationBinding.GoRun r => bt_get r (go_runs self) = None
  end.
(** Changing what an unused binding is armed under. *)
Lemma rearm_wf b (m' : Armed) self :
  plane_wf self → unused b self → bt_sorted m' →
  (∀ b', b' ≠ b → bt_get b' m' = bt_get b' (armed self)) → plane_wf (set_armed m' self).
Proof.
  intros [Hs Ht Hd Hr] Hu Hs' Hm. split; simpl; [done|..].
  - apply (triggers_armed_other (armed self)); [done|]. intros id Hid. apply Hm. intros <-. done.
  - apply (schedules_armed_other (armed self)); [done|]. intros x Hx. apply Hm. intros <-. by apply (Hu x).
  - apply (runs_armed_other (armed self)); [done|]. intros r Hi. apply Hm. intros <-.
    simpl in Hu. rewrite Hu in Hi. by destruct Hi.
Qed.
Lemma set_resolver_wf (r : R) self : plane_wf self → plane_wf (set_resolver r self).
Proof. by intros []. Qed.
Lemma release_wf b self : plane_wf self → unused b self → plane_wf (release b self).
Proof.
  intros Hwf Hu. unfold release. destruct (bt_get b (armed self)) as [i|]; [|done].
  assert (plane_wf (set_armed (bt_remove b (armed self)) self)).
  { apply (rearm_wf b); [done|done|apply bt_remove_sorted, Hwf|].
    intros b' Hb. by apply bt_get_remove_ne. }
  case_decide; [done|by apply set_resolver_wf].
Qed.
End invariant.

(** ** Operations keep the invariant *)

Section operations.
Context {R : Type} `{AuthorityResolver R}.
Implicit Types self : AutomationPlane R.

Lemma stamped_map i (x : CommandIntent AutomationRequest) : stamped i (intent_map (stamp i) x).
Proof. by destruct x. Qed.
Lemma stamped_all i (l : list (CommandIntent AutomationRequest)) :
  Forall (stamped i) (intent_map (stamp i) <$> l).
Proof. apply Forall_fmap, Forall_forall. intros x _. apply stamped_map. Qed.

(** The methods of the plane, with what they answer. *)
Definition keeps {A} (m : stm (AutomationPlane R) AutomationError A) : Prop :=
  ∀ self, plane_wf self → wp m (λ r self', plane_wf self' ∧ r ≠ Panic) self.
Lemma limit_reached_keeps {A} n k r (m : stm (AutomationPlane R) AutomationError A) self :
  plane_wf self → (plane_wf self → wp m (λ r self', plane_wf self' ∧ r ≠ Panic) self) →
  wp (limit_reached n k r m) (λ r self', plane_wf self' ∧ r ≠ Panic) self.
Proof. intros Hwf Hm. unfold limit_reached. case_decide; [by apply wp_throw|by apply Hm]. Qed.

Lemma insert_shortcut_keeps x : keeps (insert_shortcut x).
Proof.
  intros self Hwf. unfold insert_shortcut. apply wp_bind, wp_get. apply limit_reached_keeps; [done|].
  intros _. apply wp_map_err, wp_zoom. unfold Automation.insert_shortcut.
  wp_run; (split; [by destruct Hwf|done]).
Qed.

Lemma insert_trigger_keeps p t : keeps (insert_trigger p t).
Proof.
  intros self Hwf. unfold insert_trigger. apply wp_bind, wp_get. apply limit_reached_keeps; [done|].
  intros _. apply wp_bind, wp_map_err, wp_zoom. set (t' := mk_trigger _ _ _ _ _).
  pose proof Hwf as [Hs [Htw Hreg Hp] Hd Hr].
  eapply wp_mono; [by apply insert_trigger_spec|]. intros [[]|e|] x (Hxw&Hq&Hx); simpl; [| |done].
  - destruct Hx as (Hl&_&Hnew). wp_run. split; [|done].
    set (b := AutomationBinding.Trigger (trigger_id t)).
    assert (Hfresh : unused b self).
    { simpl. intros (y&Hy&Hin)%list_elem_of_fmap. by apply (Hnew y Hin). }
    assert (Hother : plane_wf (set_armed (bt_insert b (identity_of p) (armed self)) self)).
    { apply (rearm_wf b); [done|done|by apply bt_insert_sorted|]. intros b' Hb. by apply bt_get_insert_ne. }
    destruct Hother as [Hs' [_ Hreg' Hp'] Hd' Hr']. split; try done. simpl. split.
    + done.
    + intros y. rewrite Hl, elem_of_app, list_elem_of_singleton. intros [Hy| ->]; [by apply Hreg'|].
      exists (identity_of p). split; [apply bt_get_insert_eq|apply stamped_all].
    + intros a. unfold waiting. rewrite Hq. intros Ha. destruct (Hp' a Ha) as [Hin Hi].
      split; [|done]. unfold registered. rewrite Hl, fmap_app. apply elem_of_app. by left.
  - subst x. split; [|done]. by destruct self.
Qed.

Lemma remove_trigger_wf id self : plane_wf self → plane_wf (remove_trigger id self).1.
Proof.
  intros Hwf. unfold remove_trigger. pose proof Hwf as [Hs [Htw Hreg Hp] Hd Hr].
  pose proof (remove_trigger_spec (plane_triggers self) id Htw) as Hrm.
  destruct (Timers.remove_trigger id (plane_triggers self)) as [x removed].
  destruct Hrm as (Hxw&Hl&Hno&Hyes). destruct removed; simpl.
  - apply release_wf.
    + split; simpl; try done. split; [done| |].
      * intros y. rewrite Hl, list_elem_of_filter. intros [_ Hy]. by apply Hreg.
      * intros a. unfold waiting. rewrite Hyes, list_elem_of_filter by done. intros [Hne Ha].
        destruct (Hp a Ha) as [(y&Hy&Hin)%list_elem_of_fmap Hi]. split; [|done].
        apply list_elem_of_fmap. exists y. split; [done|]. rewrite Hl. apply list_elem_of_filter.
        split; [congruence|done].
    + simpl. unfold registered. rewrite Hl. intros (y&->&[Hne _]%list_elem_of_filter)%list_elem_of_fmap. done.
  - destruct (Hno eq_refl) as [-> _]. by destruct self.
Qed.

Lemma schedule_keeps p id at_ms kind intent :
  0 ≤ at_ms → (∀ i, kind = Every i → 0 ≤ i) → keeps (schedule p id at_ms kind intent).
Proof.
  intros Hat Hk self Hwf. unfold schedule. apply wp_bind, wp_get. apply limit_reached_keeps; [done|].
  intros _. apply wp_bind, wp_map_err, wp_zoom. pose proof Hwf as [Hs Ht [Hdw Hb] Hr].
  eapply wp_mono; [by apply schedule_at_spec|]. intros [[]|e|] x; simpl; [| |done].
  - intros (Hxw&Hfree&Hbk&_). wp_run. split; [|done].
    set (b := AutomationBinding.Schedule id).
    assert (Hfresh : unused b self).
    { simpl. intros y (z&->&Hz)%list_elem_of_fmap Hid. pose proof (so_pending _ _ Hdw z) as Hpz.
      rewrite app_nil_r in Hpz. specialize (Hpz Hz). unfold sid in Hpz. simpl in Hid. congruence. }
    assert (Hother : plane_wf (set_armed (bt_insert b (identity_of p) (armed self)) self)).
    { apply (rearm_wf b); [done|done|by apply bt_insert_sorted|]. intros b' Hb'. by apply bt_get_insert_ne. }
    destruct Hother as [Hs' Ht' [_ Hd'] Hr']. split; try done. simpl. split; [done|].
    intros y. rewrite Hbk. intros [->|Hy]%elem_of_cons; [|by apply Hd'].
    exists (identity_of p). split; [apply bt_get_insert_eq|apply stamped_map].
  - intros (Hxw&Hbk&_). split; [|done]. split; simpl; try done. split; [done|]. by rewrite Hbk.
Qed.

Lemma cancelled_schedule_armed m id x s :
  schedules_armed m s → (Timers.cancel_schedule id s).1 = x →
  schedules_armed m x ∧ ∀ b, b ∈ bookings x → scheduled_id b.2 ≠ id.
Proof.
  intros [Hw Hb] Hx. pose proof (cancel_schedule_spec s id Hw) as Hc.
  destruct (Timers.cancel_schedule id s) as [x' r]. simpl in Hx. subst x'. destruct Hc as (Hxw&Hbk&_).
  split; [split; [done|]|]; intros b; rewrite Hbk, list_elem_of_filter; [|tauto].
  intros [_ Hin]. by apply Hb.
Qed.
Lemma cancel_schedule_wf id self : plane_wf self → plane_wf (cancel_schedule id self).1.
Proof.
  intros [Hs Ht Hd Hr]. unfold cancel_schedule.
  destruct (Timers.cancel_schedule id (schedules self)) as [x c] eqn:Hc.
  destruct (cancelled_schedule_armed _ id x _ Hd) as [Hd' Hno]; [by rewrite Hc|].
  assert (plane_wf (set_schedules x self)) by by split. destruct c; [|done]. by apply release_wf.
Qed.

Lemma program_go_keeps input p : program_ok p → keeps (program_go input p).
Proof.
  intros Hp self Hwf. unfold program_go. wp_run; [|by split].
  split; [|done]. pose proof Hwf as [Hs Ht Hd [Hok Hss Ha Hr]]. split; simpl; try done. split; simpl; try done.
  destruct Hok as [Hgo Hrc].
  pose proof (go_step_spec (ProgramGo input p) (go self) (next_run_id (go self) )) as Hst. simpl in Hst.
  by destruct Hst as [? _]; [..|by right|].
Qed.

Lemma ingest_event_keeps event : keeps (ingest_event event).
Proof.
  intros self Hwf. unfold ingest_event. apply wp_bind, wp_get. apply limit_reached_keeps; [done|].
  intros _. apply wp_bind, wp_map_err, wp_zoom. pose proof Hwf as [Hs [Htw Hreg Hp] Hd Hr].
  eapply wp_mono; [by apply ingest_spec|]. intros [ids|e|] x (Hxw&Hl&Hx); simpl; [| |done].
  - wp_run. split; [|done]. split; simpl; try done. unfold registered in *. split; [done|by rewrite Hl|].
    destruct Hx as (l&Hm&Hperm). intros a Ha.
    assert (Hin : arming a ∈ arming <$> waiting x) by by apply list_elem_of_fmap_2.
    unfold waiting in Hin. rewrite Hperm, elem_of_app in Hin. unfold registered. rewrite Hl.
    destruct Hin as [(y&Hy&Hin)%list_elem_of_fmap|(a'&Ha'&Hin)%list_elem_of_fmap].
    + destruct (matching_elem _ _ _ _ Hm Hin) as (Hy1&_). unfold arming, armed_action in Hy.
      injection Hy as _ Hact. unfold armed_by. rewrite Hact. simpl. split; [by apply list_elem_of_fmap_2|].
      by apply Hreg.
    + injection Ha' as _ Hact. unfold armed_by. rewrite Hact. by apply Hp.
  - split; [|done]. split; simpl; try done. split; [done|by rewrite Hl|].
    unfold registered, waiting. rewrite Hl, Hx. exact Hp.
Qed.

Lemma start_go_keeps p input key now_ms : keeps (start_go p input key now_ms).
Proof.
  intros self Hwf. unfold start_go. apply wp_bind, wp_get, wp_bind, wp_require; intros _; [|by split].
  apply wp_bind, wp_map_err, wp_zoom. pose proof Hwf as [Hs Ht Hd [[Hgo Hrc] Hss Ha Hr]].
  eapply wp_mono; [by apply go_start_spec|]. intros [s|e|] x (Hxg&Hxr&Hx); simpl; [| |done].
  - destruct (replayed s).
    + destruct Hx as [-> _]. wp_run. split; [|done]. by destruct self.
    + destruct Hx as (_&Hnew&Hn&_&Hact&_&_&_). wp_run. split; [|done].
      set (r := started_run s) in *. set (b := AutomationBinding.GoRun r).
      assert (Hnone : bt_get r (go_runs self) = None).
      { destruct (bt_get r (go_runs self)) as [i|] eqn:Hi; [|done]. apply Hr in Hi as [_ ?]. lia. }
      assert (Hother : plane_wf (set_armed (bt_insert b (identity_of p) (armed self)) self)).
      { apply (rearm_wf b); [done|done|by apply bt_insert_sorted|]. intros b' Hb'. by apply bt_get_insert_ne. }
      destruct Hother as [Hs' Ht' Hd' [_ _ Ha' Hr']]. split; try done. simpl in *. split; simpl.
      * by split.
      * by apply bt_insert_sorted.
      * intros r'. rewrite Hact, elem_of_union, elem_of_singleton. intros [->|Hr0].
        -- rewrite bt_get_insert_eq. by eexists.
        -- rewrite bt_get_insert. case_decide; [by eexists|by apply Ha].
      * intros r' i. rewrite bt_get_insert. case_decide as Hrr.
        -- intros [= <-]. subst r'. split; [apply bt_get_insert_eq|lia].
        -- intros Hi. destruct (Hr' r' i Hi). split; [done|lia].
  - destruct Hx as (_&Hact&_&_&_&Hn). split; [|done]. split; simpl; try done. split; try done.
    + by rewrite Hact.
    + by rewrite Hn.
Qed.

Lemma go_cancel_next (r : Z) (g : GoEngine AutomationRequest) : next_run_id (go_cancel r g).1 = next_run_id g.
Proof. unfold go_cancel. by case_decide. Qed.
Lemma go_cancel_ok (r : Z) (g : GoEngine AutomationRequest) :
  engine_ok g → engine_ok (go_cancel r g).1.
Proof.
  intros [Hgo Hrc]. split; [by apply go_cancel_spec|]. unfold go_cancel. case_decide; [|done].
  destruct Hrc. by split.
Qed.
(** A run that is cancelled and forgotten. *)
Lemma cancelled_run_armed m r runs g :
  runs_armed m runs g → runs_armed m (bt_remove r runs) (go_cancel r g).1.
Proof.
  intros [Hok Hs Ha Hr]. destruct (go_cancel_spec g r (eo_go _ Hok)) as (_&Hni&Hsame&_). split.
  - by apply go_cancel_ok.
  - by apply bt_remove_sorted.
  - intros r' Hr'. assert (r' ≠ r) by by intros ->. rewrite bt_get_remove_ne by done.
    by apply Ha, Hsame.
  - intros r' i. rewrite bt_get_remove, go_cancel_next. case_decide; [done|apply Hr].
Qed.
Lemma cancel_go_wf r self : plane_wf self → plane_wf (cancel_go r self).1.
Proof.
  intros Hwf. unfold cancel_go.
  assert (Hgo : go (release (AutomationBinding.GoRun r) (set_go_runs (bt_remove r (go_runs self)) self)) = go self).
  { unfold release. destruct (bt_get _ _); [|done]. by case_decide. }
  rewrite Hgo. destruct (go_cancel r (go self)) as [x c] eqn:Hc. simpl.
  assert (Hx : (go_cancel r (go self)).1 = x) by by rewrite Hc.
  assert (Hwf1 : plane_wf (set_go x (set_go_runs (bt_remove r (go_runs self)) self))).
  { destruct Hwf as [Hs Ht Hd Hr]. split; simpl; try done. rewrite <-Hx. by apply cancelled_run_armed. }
  assert (Hwf2 : plane_wf (release (AutomationBinding.GoRun r)
    (set_go x (set_go_runs (bt_remove r (go_runs self)) self)))).
  { apply release_wf; [done|]. simpl. apply bt_get_remove_eq. }
  assert (Heq : release (AutomationBinding.GoRun r) (set_go x (set_go_runs (bt_remove r (go_runs self)) self)) =
    set_go x (release (AutomationBinding.GoRun r) (set_go_runs (bt_remove r (go_runs self)) self))).
  { unfold release. simpl. destruct (bt_get _ _); [|done]. by case_decide. }
  by rewrite Heq in Hwf2.
Qed.
End operations.

(** ** Revoking *)

Section revoking.
Context {R : Type} `{AuthorityResolver R}.
Implicit Types self : AutomationPlane R.

Lemma revoke_binding_spec b self :
  plane_wf self →
  plane_wf (revoke_binding self b) ∧ armed (revoke_binding self b) = bt_remove b (armed self) ∧
  resolver (revoke_binding self b) = resolver self ∧ limits (revoke_binding self b) = limits self.
Proof.
  intros Hwf. split; [|by destruct b]. pose proof Hwf as [Hs Ht Hd Hr]. unfold revoke_binding.
  assert (Hm : ∀ b', b' ≠ b → bt_get b' (bt_remove b (armed self)) = bt_get b' (armed self)).
  { intros b' Hb. by apply bt_get_remove_ne. }
  destruct b as [id|id|r].
  - apply (rearm_wf (AutomationBinding.Trigger id)); [| |by apply bt_remove_sorted|exact Hm].
    + destruct Ht as [Htw Hreg Hp]. pose proof (remove_trigger_spec (plane_triggers self) id Htw) as Hrm.
      destruct (Timers.remove_trigger id (plane_triggers self)) as [x removed].
      destruct Hrm as (Hxw&Hl&Hno&Hyes). split; simpl; try done. split; [done| |].
      * intros y. rewrite Hl, list_elem_of_filter. intros [_ Hy]. by apply Hreg.
      * destruct removed; [|by destruct (Hno eq_refl) as [-> _]].
        intros a. unfold waiting. rewrite Hyes, list_elem_of_filter by done. intros [Hne Ha].
        destruct (Hp a Ha) as [(y&Hy&Hin)%list_elem_of_fmap Hi]. split; [|done].
        apply list_elem_of_fmap. exists y. split; [done|]. rewrite Hl. apply list_elem_of_filter.
        split; [congruence|done].
    + simpl. destruct Ht as [Htw Hreg Hp]. pose proof (remove_trigger_spec (plane_triggers self) id Htw) as Hrm.
      destruct (Timers.remove_trigger id (plane_triggers self)) as [x removed].
      destruct Hrm as (_&Hl&_). simpl. unfold registered. rewrite Hl.
      by intros (y&->&[Hne _]%list_elem_of_filter)%list_elem_of_fmap.
  - destruct (cancelled_schedule_armed _ id _ _ Hd eq_refl) as [Hd' Hno].
    apply (rearm_wf (AutomationBinding.Schedule id)); [by split|done|by apply bt_remove_sorted|exact Hm].
  - apply (rearm_wf (AutomationBinding.GoRun r)); [| |by apply bt_remove_sorted|exact Hm].
    + split; simpl; try done. by apply cancelled_run_armed.
    + simpl. apply bt_get_remove_eq.
Qed.

Lemma revoke_all_spec l self :
  plane_wf self →
  let self' := foldl revoke_binding self l in
  plane_wf self' ∧ resolver self' = resolver self ∧ limits self' = limits self ∧
  ∀ b, bt_get b (armed self') = if decide (b ∈ l) then None else bt_get b (armed self).
Proof.
  revert self. induction l as [|b l IH]; intros self Hwf; simpl.
  { split_and!; try done. }
  destruct (revoke_binding_spec b self Hwf) as (Hwf1&Ha1&Hr1&Hl1).
  destruct (IH _ Hwf1) as (Hwf2&Hr2&Hl2&Hg). split_and!; [done|congruence..|].
  intros b'. rewrite Hg, Ha1, bt_get_remove. repeat case_decide; set_solver.
Qed.

(** Nothing is armed under the identity. *)
Definition unarmed (i : AutomationIdentity) self : Prop := ∀ b, bt_get b (armed self) ≠ Some i.

Lemma revoke_identity_spec i self :
  plane_wf self →
  let self' := (revoke_identity i self).1 in
  plane_wf self' ∧ unarmed i self' ∧ limits self' = limits self ∧
  resolver self' = forget i (resolver self) ∧
  (∀ b j, j ≠ i → bt_get b (armed self') = Some j ↔ bt_get b (armed self) = Some j).
Proof.
  intros Hwf. unfold revoke_identity. simpl.
  destruct (revoke_all_spec (bindings_for i self) self Hwf) as (Hwf'&Hr&Hl&Hg).
  assert (Hin : ∀ b, b ∈ bindings_for i self ↔ bt_get b (armed self) = Some i).
  { intros b. unfold bindings_for. rewrite list_elem_of_fmap. setoid_rewrite list_elem_of_filter.
    rewrite (bt_get_Some b i (armed self) (pw_sorted _ Hwf)). split.
    - intros ([b' i']&->&Hi&Hb). simpl in *. by subst.
    - intros Hb. by exists (b, i). }
  split_and!.
  - by apply set_resolver_wf.
  - intros b. simpl. rewrite Hg. case_decide as Hb; [done|]. by rewrite Hin in Hb.
  - done.
  - simpl. by rewrite Hr.
  - intros b j Hj. simpl. rewrite Hg. case_decide as Hb; [|done]. rewrite Hin in Hb. split; [done|].
    rewrite Hb. congruence.
Qed.
End revoking.

(** ** Collecting a frame *)

Definition schedule_commands (fires : list (ScheduleFire AutomationCommand)) : list PlannedCommand :=
  (λ f, mk_planned (AutomationSource.Schedule (fire_id f)) (occurrence_ms f) 0
          (into_command (fire_intent f))) <$> fires.
Definition trigger_commands (fires : list (TriggerFire AutomationCommand)) : list PlannedCommand :=
  fires ≫= λ f, (λ p, mk_planned (AutomationSource.Trigger (fired_trigger f)) (scheduled_for_ms f) p.1
                        (into_command p.2)) <$> imap pair (fired_intents f).
Definition go_commands (runs : btmap Z AutomationIdentity) (fires : list (GoActionFire AutomationRequest)) :
    list PlannedCommand :=
  omap (λ f, (λ i, mk_planned (AutomationSource.Go (fire_run f) (index (fire_action f)))
                     (fire_due_ms f) 0 (mk_command i (into_command (go_intent (fire_action f))))) <$>
             bt_get (fire_run f) runs) fires.

Section collecting.
Context {R : Type} `{AuthorityResolver R}.
Implicit Types self : AutomationPlane R.

(** What automation is due to do at [now_ms], besides what the schedules [fires]: one
    command for every intent of what a trigger armed for [now_ms] or before and whose
    conditions hold, and for every action of a GO run that is due. *)
Definition planned_for (now_ms : Z) (state : ConditionContext) self
    (fires : list (ScheduleFire AutomationCommand)) : list PlannedCommand :=
  schedule_commands fires ++
  trigger_commands (due_triggers now_ms state (plane_triggers self)) ++
  go_commands (go_runs self) (due_steps now_ms (go self)).
(** All of it: one command for every schedule that is due, too. *)
Definition due_commands (now_ms : Z) (state : ConditionContext) self : list PlannedCommand :=
  planned_for now_ms state self (fire_of now_ms <$> due_at now_ms (schedules self)).
(** What a frame plans: everything that is due, but for the schedules when their
    poll fails, which it does only for want of room for their next boundaries. *)
Definition plans (now_ms : Z) (state : ConditionContext) self (l : list PlannedCommand) : Prop :=
  l ≡ₚ due_commands now_ms state self ∨
  ¬ poll_fits now_ms (schedules self) ∧ l ≡ₚ planned_for now_ms state self [].

(** The commands [l] are in the buffer or superseded. *)
Definition holds (c : Collecting) (l : list PlannedCommand) : Prop :=
  buffer_wf (buffer c) ∧ buffered (buffer c) ++ coalesced c ≡ₚ l.

Lemma into_command_map {C D} (f : C → D) (x : CommandIntent C) :
  into_command (intent_map f x) = f (into_command x).
Proof. by destruct x. Qed.
Lemma plan_intent_holds source x c l :
  holds c l →
  holds (plan_intent source x c) (into_command x :: l) ∧ completed (plan_intent source x c) = completed c.
Proof.
  intros [Hwf Hp]. unfold plan_intent. pose proof (push_accounts source x (buffer c) Hwf) as Hpush.
  destruct (push source x (buffer c)) as [b superseded]. destruct Hpush as [Hwf' Hp'].
  split; [|done]. split; [done|]. simpl.
  rewrite (Permutation_app_comm (coalesced c)), (assoc_L (++)), (Permutation_app_comm (buffered b)), Hp'.
  simpl. by rewrite Hp.
Qed.

Lemma collect_schedules_holds set fires c l :
  holds c l →
  let c' := foldl (collect_schedule set) c fires in
  holds c' (schedule_commands fires ++ l) ∧
  ∀ b, b ∈ completed c' → b ∈ completed c ∨
    ∃ f, f ∈ fires ∧ contains_schedule (fire_id f) set = false ∧ b = AutomationBinding.Schedule (fire_id f).
Proof.
  revert c l. induction fires as [|f fires IH]; intros c l Hc; simpl; [split; auto|].
  set (c1 := if contains_schedule (fire_id f) set then c
             else complete_binding (AutomationBinding.Schedule (fire_id f)) c).
  assert (Hc1 : holds c1 l) by by unfold c1; destruct (contains_schedule _ _).
  set (source := AutomationSource.Schedule (fire_id f)).
  set (x := intent_map (mk_planned source (occurrence_ms f) 0) (fire_intent f)).
  assert (collect_schedule set c f = plan_intent source x c1) as -> by done.
  destruct (plan_intent_holds source x c1 l Hc1) as [Hc2 Hcomp].
  destruct (IH _ _ Hc2) as [Hh Hb]. replace (into_command x) with (mk_planned source (occurrence_ms f) 0 (into_command (fire_intent f))) in Hh
    by (unfold x; by rewrite into_command_map). split.
  - destruct Hh as [? Hh]. split; [done|]. rewrite Hh. simpl. symmetry. apply Permutation_middle.
  - intros b [Hin|(f'&?&?&?)]%Hb; [|right; exists f'; set_solver]. rewrite Hcomp in Hin. unfold c1 in Hin.
    destruct (contains_schedule (fire_id f) set) eqn:Hct; [by left|]. simpl in Hin.
    apply elem_of_app in Hin as [?| ->%list_elem_of_singleton]; [by left|right].
    exists f. split; [by left|done].
Qed.

Lemma plan_all_holds source due (l : list (nat * CommandIntent AutomationCommand)) c k :
  holds c k →
  let c' := foldl (λ c p, plan_intent source (intent_map (mk_planned source due p.1) p.2) c) c l in
  holds c' (((λ p, mk_planned source due p.1 (into_command p.2)) <$> l) ++ k) ∧
  completed c' = completed c.
Proof.
  revert c k. induction l as [|p l IH]; intros c k Hc; simpl; [done|].
  destruct (plan_intent_holds source (intent_map (mk_planned source due p.1) p.2) c k Hc) as [Hc1 Hcomp].
  destruct (IH _ _ Hc1) as [[? Hh] Hb]. rewrite into_command_map in Hh. split; [|by rewrite Hb].
  split; [done|]. rewrite Hh. symmetry. apply Permutation_middle.
Qed.
Lemma collect_triggers_holds fires c l :
  holds c l →
  let c' := foldl collect_trigger c fires in
  holds c' (trigger_commands fires ++ l) ∧ completed c' = completed c.
Proof.
  revert c l. induction fires as [|f fires IH]; intros c l Hc; simpl; [done|].
  destruct (plan_all_holds (AutomationSource.Trigger (fired_trigger f)) (scheduled_for_ms f)
    (imap pair (fired_intents f)) c l Hc) as [Hc1 Hcomp].
  destruct (IH _ _ Hc1) as [[? Hh] Hb]. split; [|etrans; [exact Hb|exact Hcomp]].
  split; [done|]. rewrite Hh. unfold trigger_commands. simpl. rewrite !(assoc_L (++)).
  apply Permutation_app_tail, Permutation_app_comm.
Qed.
Lemma collect_go_holds runs fires c l :
  holds c l →
  let c' := foldl (collect_go_fire runs) c fires in
  holds c' (go_commands runs fires ++ l) ∧ completed c' = completed c.
Proof.
  revert c l. induction fires as [|f fires IH]; intros c l Hc; simpl; [done|].
  unfold collect_go_fire at 2 4. unfold go_commands. simpl.
  destruct (bt_get (fire_run f) runs) as [i|]; simpl; [|by apply IH].
  set (source := AutomationSource.Go _ _). set (x := intent_map _ _).
  destruct (plan_intent_holds source x c l Hc) as [Hc1 Hcomp].
  destruct (IH _ _ Hc1) as [[? Hh] Hb]. replace (into_command x) with (mk_planned source (fire_due_ms f) 0
    (mk_command i (into_command (go_intent (fire_action f))))) in Hh by (unfold x; by rewrite into_command_map).
  split; [|etrans; [exact Hb|exact Hcomp]]. split; [done|]. rewrite Hh. symmetry. apply Permutation_middle.
Qed.
Lemma complete_all l c :
  let c' := foldl (λ c run, complete_binding (AutomationBinding.GoRun run) c) c l in
  buffer c' = buffer c ∧ coalesced c' = coalesced c ∧
  completed c' = completed c ++ (AutomationBinding.GoRun <$> l).
Proof.
  revert c. induction l as [|r l IH]; intros c; simpl; [by rewrite app_nil_r|].
  destruct (IH (complete_binding (AutomationBinding.GoRun r) c)) as (->&->&->).
  split_and!; [done..|]. simpl. by rewrite <-(assoc_L (++)).
Qed.
End collecting.

Section ticking.
Context {R : Type} `{AuthorityResolver R}.
Implicit Types self : AutomationPlane R.

Lemma poll_go_ok now_ms (g : GoEngine AutomationRequest) :
  engine_ok g → engine_ok (poll_go now_ms g).1.
Proof.
  intros Hok. pose proof (run_go_ok [PollGo now_ms] g Hok) as Hr. simpl in Hr.
  destruct (poll_go now_ms g) as [g' fires]. apply Hr. by repeat constructor.
Qed.
Lemma remove_all_get {V} (l : list Z) (m : btmap Z V) :
  bt_sorted m →
  let m' := foldl (λ m r, bt_remove r m) m l in
  bt_sorted m' ∧ ∀ r, bt_get r m' = if decide (r ∈ l) then None else bt_get r m.
Proof.
  revert m. induction l as [|x l IH]; intros m Hs; simpl; [done|].
  destruct (IH (bt_remove x m)) as [? Hg]; [by apply bt_remove_sorted|]. split; [done|].
  intros r. rewrite Hg, bt_get_remove. repeat case_decide; set_solver.
Qed.

(** Polling and retiring the runs that are over. *)
Lemma collect_go_spec now_ms c l self :
  plane_wf self → holds c l →
  let '(self', c') := collect_go now_ms c self in
  plane_wf self' ∧ armed self' = armed self ∧ resolver self' = resolver self ∧
  limits self' = limits self ∧ schedules self' = schedules self ∧
  plane_triggers self' = plane_triggers self ∧
  holds c' (go_commands (go_runs self) (poll_go now_ms (go self)).2 ++ l) ∧
  ∀ b, b ∈ completed c' → b ∈ completed c ∨ ∃ r, b = AutomationBinding.GoRun r ∧ unused b self'.
Proof.
  intros [Hs Ht Hd [Hok Hss Ha Hr]] Hc. unfold collect_go.
  pose proof (poll_go_ok now_ms _ Hok) as Hok'.
  pose proof (poll_go_spec (go self) now_ms (eo_go _ Hok)) as Hpoll.
  destruct (poll_go now_ms (go self)) as [x fires]. simpl in Hok'.
  destruct Hpoll as (_&_&_&Hn&_&_&_&Hsub).
  destruct (collect_go_holds (go_runs self) fires c l Hc) as [Hc1 Hcomp1].
  cbn [go go_runs set_go].
  set (c1 := foldl (collect_go_fire (go_runs self)) c fires) in *.
  set (finished := filter (λ run, is_active run x = false) (bt_keys (go_runs self))).
  destruct (remove_all_get finished (go_runs self) Hss) as [Hss' Hg].
  destruct (complete_all finished c1) as (Hb&Hco&Hcp).
  set (c2 := foldl _ c1 finished) in *.
  split_and!; try done.
  - split; simpl; try done. split; simpl; [done|done| |].
    + intros r Hr'. rewrite Hg. rewrite decide_False; [by apply Ha, Hsub|]. unfold finished, is_active.
      rewrite list_elem_of_filter, bool_decide_eq_false. tauto.
    + intros r i. rewrite Hg, Hn. case_decide; [done|apply Hr].
  - split; [by rewrite Hb; apply Hc1|]. rewrite Hb, Hco. apply Hc1.
  - intros b. rewrite Hcp, Hcomp1, elem_of_app. intros [?|(r&->&Hf)%list_elem_of_fmap]; [by left|right].
    exists r. split; [done|]. simpl. rewrite Hg. by rewrite decide_True.
Qed.

Lemma fired_identity m now_ms (s : ScheduleSet AutomationCommand) p :
  schedules_armed m s → p ∈ schedule_commands (fire_of now_ms <$> due_at now_ms s) →
  ∃ b, bt_get b m = Some (identity (planned_command p)).
Proof.
  intros [_ Hb] (f&->&(x&->&Hx)%list_elem_of_fmap)%list_elem_of_fmap.
  apply list_elem_of_filter in Hx as [_ Hx].
  destruct (Hb (booking x)) as (i&Hi&Hst); [by apply list_elem_of_fmap_2|].
  eexists. rewrite Hi. simpl. by rewrite <-Hst.
Qed.
Lemma triggered_identity m now_ms state t p :
  triggers_armed m t → p ∈ trigger_commands (due_triggers now_ms state t) →
  ∃ b, bt_get b m = Some (identity (planned_command p)).
Proof.
  intros [Hw _ Hp]. rewrite <-(poll_triggers_due t now_ms state Hw).
  pose proof (poll_triggers_spec t now_ms state Hw) as Hpoll.
  destruct (poll_triggers now_ms state t) as [t' fires]. destruct Hpoll as (_&_&_&Hf).
  intros (f&Hin&Hfin)%list_elem_of_bind. apply list_elem_of_fmap in Hin as ([n x]&->&Hx).
  destruct (Hf f Hfin) as (a&Ha&_&->). destruct (Hp a Ha) as (_&i&Hi&Hst). eexists. rewrite Hi. f_equal.
  simpl. rewrite Forall_forall in Hst. symmetry. apply Hst.
  apply elem_of_lookup_imap in Hx as (k&y&[= -> ->]&Hy). by eapply list_elem_of_lookup_2.
Qed.
Lemma go_identity m runs g (fires : list (GoActionFire AutomationRequest)) p :
  runs_armed m runs g → p ∈ go_commands runs fires →
  ∃ b, bt_get b m = Some (identity (planned_command p)).
Proof.
  intros [_ _ _ Hr] (f&_&Hp)%list_elem_of_omap. apply fmap_Some in Hp as (i&Hi&->).
  apply Hr in Hi as [Hi _]. by eexists.
Qed.
(** Everything that is due carries an identity that is armed. *)
Lemma due_identity now_ms state self p :
  plane_wf self → p ∈ due_commands now_ms state self →
  ∃ b, bt_get b (armed self) = Some (identity (planned_command p)).
Proof.
  intros [Hs Ht Hd Hr]. unfold due_commands, planned_for. rewrite !elem_of_app. intros [?|[?|?]].
  - by eapply fired_identity.
  - by eapply triggered_identity.
  - by eapply go_identity.
Qed.

Lemma plans_due now_ms state self l p :
  plans now_ms state self l → p ∈ l → p ∈ due_commands now_ms state self.
Proof.
  intros [->|[_ ->]]; [done|]. unfold due_commands, planned_for. rewrite !elem_of_app. simpl. set_solver.
Qed.
Lemma collect_spec now_ms state tick self :
  plane_wf self → in_ty U64 now_ms →
  wp (collect now_ms state tick) (λ r self',
    plane_wf self' ∧ armed self' = armed self ∧ resolver self' = resolver self ∧
    limits self' = limits self ∧
    match r with
    | Ret (plan, completed, tick') =>
        Forall (λ b, unused b self') completed ∧ submitted tick' = submitted tick ∧
        ∃ coalesced, refusals tick' = refusals tick ++ (refuse AutomationRefusalReason.Coalesced <$> coalesced) ∧
          plans now_ms state self (coalesced ++ plan)
    | Throw _ => False
    | Panic => False
    end) self.
Proof.
  intros Hwf Hn. pose proof Hwf as [Hs Ht Hd Hr]. unfold wp, collect.
  pose proof (poll_schedules_spec now_ms (schedules self) (sd_wf _ _ Hd) Hn) as Hpoll. unfold wp in Hpoll.
  pose proof (poll_succeeds now_ms (schedules self) (sd_wf _ _ Hd)) as Hfits.
  destruct (poll_schedules now_ms (schedules self)) as [set r]. simpl in Hpoll, Hfits.
  destruct Hpoll as (Hsw&_&Hbk).
  assert (Hd' : schedules_armed (armed self) set).
  { split; [done|]. intros b Hb.
    assert (Hin : b ∈ (due_at now_ms (schedules self) ≫= rebooked now_ms) ++
      filter (λ b, now_ms < b.1) (bookings (schedules self))).
    { destruct r; [destruct Hbk as [_ <-]; done|by apply Hbk|done]. }
    rewrite elem_of_app in Hin. destruct Hin as [(x&Hin&Hx)%list_elem_of_bind|[_ Hin]%list_elem_of_filter].
    - apply list_elem_of_filter in Hx as [_ Hx].
      destruct (sd_booked _ _ Hd (booking x)) as (i&Hi&Hst); [by apply list_elem_of_fmap_2|].
      unfold rebooked in Hin. destruct (scheduled_kind (Actions.action x)); [by apply elem_of_nil in Hin|].
      apply list_elem_of_singleton in Hin as ->. by exists i.
    - by apply Hd. }
  set (fires := match r with Ret fires => fires | _ => [] end).
  assert (Hfires : fires = [] ∧ (∃ e, r = Throw e) ∨
    fires = fire_of now_ms <$> due_at now_ms (schedules self) ∧ r = Ret fires).
  { destruct r as [fs|e|]; [right; by destruct Hbk as [-> _]|left; eauto|done]. }
  clearbody fires.
  destruct (collect_schedules_holds set fires (mk_collecting buffer_default [] []) []) as [Hc1 Hb1].
  { split; [apply buffer_default_wf|done]. }
  rewrite app_nil_r in Hc1. set (c1 := foldl (collect_schedule set) _ fires) in *.
  pose proof (poll_triggers_spec (plane_triggers self) now_ms state (ta_wf _ _ Ht)) as Htp.
  pose proof (poll_triggers_due (plane_triggers self) now_ms state (ta_wf _ _ Ht)) as Hfired.
  destruct (poll_triggers now_ms state (plane_triggers self)) as [t fired] eqn:Htpoll. simpl in Hfired.
  destruct Htp as (Htw&Htr&Htpend&_).
  destruct (collect_triggers_holds fired c1 _ Hc1) as [Hc2 Hb2].
  set (c2 := foldl collect_trigger c1 fired) in *.
  set (self1 := set_triggers t (set_schedules set self)).
  assert (Hwf1 : plane_wf self1).
  { split; simpl; try done. destruct Ht as [_ Hreg Hp]. split; simpl; [done|by rewrite Htr|].
    unfold waiting, registered. rewrite Htpend, Htr. intros a [_ Ha]%list_elem_of_filter. by apply Hp. }
  pose proof (collect_go_spec now_ms c2 _ self1 Hwf1 Hc2) as Hcg.
  destruct (collect_go now_ms c2 self1) as [self2 c3] eqn:Hcg'.
  destruct Hcg as (Hwf2&Ha2&Hr2&Hl2&Hs2&Ht2&[Hbw3 Hh3]&Hb3).
  set (plan := (into_command <$> discrete (buffer c3)) ++
    (into_command <$> ((λ e : AutomationSource.t * string * PlannedCommand, Continuous e.1.2 e.2) <$>
       continuous (buffer c3)))).
  assert (Hplan : plan = buffered (buffer c3)) by by rewrite <-drained_commands.
  assert (Hsteps : (poll_go now_ms (go self)).2 = due_steps now_ms (go self)).
  { pose proof (poll_go_spec (go self) now_ms (eo_go _ (ra_ok _ _ _ Hr))) as Hpg.
    destruct (poll_go now_ms (go self)). apply Hpg. }
  assert (Hcases : coalesced c3 ++ plan ≡ₚ
    go_commands (go_runs self) (poll_go now_ms (go self)).2 ++ trigger_commands fired ++ schedule_commands fires).
  { by rewrite Hplan, Permutation_app_comm, Hh3. }
  assert (Hdone : Forall (λ b, unused b self2) (completed c3)).
  { apply Forall_forall. intros b [Hin|(r'&->&?)]%Hb3; [|done]. rewrite Hb2 in Hin.
    apply Hb1 in Hin as [Hin|(f&_&Hct&->)]; [by apply elem_of_nil in Hin|]. simpl. rewrite Hs2. simpl.
    intros x (y&->&Hy)%list_elem_of_fmap Hid. unfold contains_schedule in Hct.
    apply bool_decide_eq_false in Hct. apply Hct. pose proof (so_pending _ _ Hsw y) as Hpy.
    rewrite app_nil_r in Hpy. specialize (Hpy Hy). unfold sid in Hpy. simpl in Hid. rewrite <-Hid. by eexists. }
  assert (Hall : coalesced c3 ++ plan ≡ₚ planned_for now_ms state self fires).
  { rewrite Hcases. unfold planned_for. rewrite <-Hfired, Hsteps.
    rewrite (assoc_L (++)), Permutation_app_comm. apply Permutation_app_head, Permutation_app_comm. }
  destruct Hfires as [[Hf [e ->]]|[Hf ->]];
    cbn [plane_triggers set_schedules]; rewrite Htpoll; fold c2; fold self1; rewrite Hcg'; simpl;
    (split_and!; [done..|]); exists (coalesced c3); (split; [done|]); fold plan; rewrite Hf in Hall.
  - right. split; [|done]. by intros ?%Hfits.
  - by left.
Qed.
End ticking.

(** ** Submitting *)

(** What became of a planned command: it reached the service, the service failed on
    it, or it was refused. *)
Inductive Handling :=
  | Reached (principal : Auth.Principal) (s : AutomationSubmission)
  | Failed (principal : Auth.Principal) (e : ControlError)
  | Refused (reason : AutomationRefusalReason.t).
Definition submissions (l : list (PlannedCommand * Handling)) : list AutomationSubmission :=
  omap (λ x, match x.2 with Reached _ s => Some s | _ => None end) l.
Definition refusals_of (l : list (PlannedCommand * Handling)) : list AutomationRefusal :=
  omap (λ x, match x.2 with
             | Reached _ _ => None
             | Failed _ _ => Some (refuse AutomationRefusalReason.Aborted x.1)
             | Refused reason => Some (refuse reason x.1)
             end) l.

Section ticks.
Context {R A : Type} `{AuthorityResolver R} `{AuthorizationHook A}.
Implicit Types self : AutomationPlane R.
Implicit Types control : ControlService A.

(** The service goes from [control] to [control'] by submitting, one after the other,
    the commands that were handled, each for the principal that its identity
    resolves to. *)
Fixpoint handles (lim : AutomationLimits) (res : R) (now_ms : Z) control
    (l : list (PlannedCommand * Handling)) control' : Prop :=
  match l with
  | [] => control' = control
  | (p, Reached principal s) :: l =>
      resolve_authority (identity (planned_command p)) res = Some principal ∧
      ∃ control1 sub, submit principal (automation_message lim p) now_ms control = (control1, Ret sub) ∧
        s = mk_automation_submission (planned_source p) (due_ms p) (automation_key p) sub ∧
        handles lim res now_ms control1 l control'
  | (p, Failed principal e) :: l =>
      resolve_authority (identity (planned_command p)) res = Some principal ∧
      ∃ control1, submit principal (automation_message lim p) now_ms control = (control1, Throw e) ∧
        handles lim res now_ms control1 l control'
  | (p, Refused reason) :: l =>
      (reason = AutomationRefusalReason.IdentityRevoked →
       resolve_authority (identity (planned_command p)) res = None) ∧
      handles lim res now_ms control l control'
  end.
Lemma handles_refused lim res now_ms reason control ps l control' :
  reason ≠ AutomationRefusalReason.IdentityRevoked →
  handles lim res now_ms control l control' →
  handles lim res now_ms control (((λ p, (p, Refused reason)) <$> ps) ++ l) control'.
Proof. intros Hne. induction ps as [|p ps IH]; [done|]. simpl. intros Hl. split; [done|by apply IH]. Qed.
Lemma refused_of reason ps :
  refusals_of ((λ p, (p, Refused reason)) <$> ps) = refuse reason <$> ps ∧
  submissions ((λ p, (p, Refused reason)) <$> ps) = [].
Proof.
  unfold refusals_of, submissions. induction ps as [|p ps [IH1 IH2]]; [done|].
  cbn [fmap list_fmap omap list_omap snd fst]. split; [by f_equal|done].
Qed.
Lemma submissions_app l k : submissions (l ++ k) = submissions l ++ submissions k.
Proof. apply omap_app. Qed.
Lemma refusals_app l k : refusals_of (l ++ k) = refusals_of l ++ refusals_of k.
Proof. apply omap_app. Qed.
Lemma submissions_length l : (length (submissions l) ≤ length l)%nat.
Proof.
  induction l as [|[p []] l IH]; simpl; unfold submissions in *; simpl in *; lia.
Qed.

Lemma submit_all_spec self now_ms aborted plan tick control control' tick' :
  submit_all self now_ms aborted plan tick control = (control', Ret tick') →
  ∃ l, l.*1 = plan ∧ handles (limits self) (resolver self) now_ms control l control' ∧
    submitted tick' = submitted tick ++ submissions l ∧
    refusals tick' = refusals tick ++ refusals_of l.
Proof.
  revert aborted tick control. induction plan as [|p plan IH]; intros aborted tick control; simpl.
  { intros [= <- <-]. exists []. by rewrite !app_nil_r. }
  assert (Hcons : ∀ (x : Handling) aborted tick1 control1,
    submit_all self now_ms aborted plan tick1 control1 = (control', Ret tick') →
    (∀ l, handles (limits self) (resolver self) now_ms control1 l control' →
          handles (limits self) (resolver self) now_ms control ((p, x) :: l) control') →
    submitted tick1 = submitted tick ++ submissions [(p, x)] →
    refusals tick1 = refusals tick ++ refusals_of [(p, x)] →
    ∃ l, l.*1 = p :: plan ∧ handles (limits self) (resolver self) now_ms control l control' ∧
      submitted tick' = submitted tick ++ submissions l ∧
      refusals tick' = refusals tick ++ refusals_of l).
  { intros x ab tick1 control1 Hrun Hh Hs Hr. destruct (IH _ _ _ Hrun) as (l&Hl&Hhl&Hsl&Hrl).
    exists ((p, x) :: l). split; [by rewrite fmap_cons, Hl|]. split; [by apply Hh|].
    change ((p, x) :: l) with ([(p, x)] ++ l). rewrite submissions_app, refusals_app, Hsl, Hrl, Hs, Hr.
    by rewrite !(assoc_L (++)). }
  destruct aborted.
  { intros Hrun. eapply (Hcons (Refused AutomationRefusalReason.Aborted)); [exact Hrun|by simpl| |done].
    by rewrite app_nil_r. }
  destruct (resolve_authority _ (resolver self)) as [principal|] eqn:Hres.
  2: { intros Hrun. eapply (Hcons (Refused AutomationRefusalReason.IdentityRevoked)); [exact Hrun|by simpl| |done].
       by rewrite app_nil_r. }
  unfold emit, mbind, stm_bind.
  destruct (submit principal (automation_message (limits self) p) now_ms control) as [control1 [sub|e|]] eqn:Hsub;
    [| |done]; intros Hrun.
  - eapply (Hcons (Reached principal _)); [exact Hrun| |done|by rewrite app_nil_r].
    intros l Hl. simpl. split; [done|]. by exists control1, sub.
  - eapply (Hcons (Failed principal e)); [exact Hrun| |by rewrite app_nil_r|done].
    intros l Hl. simpl. split; [done|]. by exists control1.
Qed.

(** Releasing unused bindings. *)
Lemma release_unused b b' self : unused b self → unused b (release b' self).
Proof. unfold release. destruct (bt_get b' (armed self)); [|done]. by case_decide; destruct b. Qed.
Lemma release_limits b self : limits (release b self) = limits self.
Proof. unfold release. destruct (bt_get b (armed self)); [|done]. by case_decide. Qed.
Lemma release_all_wf l self :
  plane_wf self → Forall (λ b, unused b self) l →
  plane_wf (foldl (λ p b, release b p) self l) ∧
  limits (foldl (λ p b, release b p) self l) = limits self.
Proof.
  revert self. induction l as [|b l IH]; intros self Hwf Hu; [done|].
  apply Forall_cons in Hu as [Hb Hu]. simpl. rewrite <-(release_limits b self). apply IH.
  - by apply release_wf.
  - eapply Forall_impl; [exact Hu|]. intros b'. apply release_unused.
Qed.

(** One frame. *)
Lemma automation_tick_spec now_ms state self control self' control' tick :
  plane_wf self → in_ty U64 now_ms →
  automation_tick now_ms state (self, control) = ((self', control'), Ret tick) →
  plane_wf self' ∧ limits self' = limits self ∧
  ∃ l, handles (limits self) (resolver self) now_ms control l control' ∧
    submitted tick = submissions l ∧ refusals tick = refusals_of l ∧
    (length (submissions l) ≤ max_commands_per_tick (limits self))%nat ∧
    plans now_ms state self l.*1.
Proof.
  intros Hwf Hn. unfold automation_tick, mbind, stm_bind, st_modify, st_zoom, st_get. simpl.
  set (self0 := set_presses 0 self). assert (Hwf0 : plane_wf self0) by by destruct Hwf.
  pose proof (collect_spec now_ms state (mk_automation_tick [] [] [] None) self0 Hwf0 Hn) as Hc.
  unfold wp in Hc. destruct (collect now_ms state _ self0) as [self1 [[[plan completed] tick1]|e|]];
    simpl in Hc; [|by destruct e|naive_solver].
  destruct Hc as (Hwf1&Ha1&Hr1&Hl1&Hun&Hs1&coal&Href1&Hdue).
  unfold on_control, st_zoom. simpl. rewrite Hl1. cbn [limits self0 set_presses].
  set (limit := max_commands_per_tick (limits self)).
  set (over := (length plan - limit)%nat). set (tick2 := mk_automation_tick _ _ _ _).
  destruct (submit_all self1 now_ms false (drop over plan) tick2 control) as [control2 [tick3|e|]] eqn:Hsub;
    [|by destruct e|done].
  intros [= <- <- <-].
  destruct (release_all_wf completed self1 Hwf1 Hun) as [Hwf2 Hl2].
  split; [done|]. split; [by rewrite Hl2, Hl1|].
  destruct (submit_all_spec _ _ _ _ _ _ _ _ Hsub) as (l&Hl&Hh&Hs3&Hr3). rewrite Hr1, Hl1 in Hh.
  set (early := ((λ p, (p, Refused AutomationRefusalReason.Coalesced)) <$> coal) ++
    ((λ p, (p, Refused (AutomationRefusalReason.TickBudget limit))) <$> take over plan)).
  assert (Hfst : (early ++ l).*1 = coal ++ plan).
  { unfold early. rewrite !fmap_app, <-!list_fmap_compose, Hl. simpl.
    rewrite !list_fmap_id. by rewrite <-(assoc_L (++)), take_drop. }
  exists (early ++ l). split_and!.
  - unfold early. rewrite <-(assoc_L (++)). by apply handles_refused, handles_refused.
  - rewrite Hs3. unfold tick2. simpl. rewrite Hs1, submissions_app. unfold early.
    rewrite submissions_app. by rewrite !(proj2 (refused_of _ _)).
  - rewrite Hr3. unfold tick2. simpl. rewrite Href1, refusals_app. unfold early.
    rewrite refusals_app. by rewrite !(proj1 (refused_of _ _)).
  - rewrite submissions_app. unfold early. rewrite submissions_app, !(proj2 (refused_of _ _)). simpl.
    etrans; [apply submissions_length|]. rewrite <-(length_fmap fst), Hl, length_drop. unfold over. lia.
  - by rewrite Hfst.
Qed.
End ticks.

(** ** Histories *)

Section histories.
Context {R A : Type} `{AuthorityResolver R} `{AuthorizationHook A}.
Implicit Types self : AutomationPlane R.
Implicit Types control : ControlService A.

Inductive plane_op :=
  | POInsertShortcut (x : Shortcut AutomationRequest)
  | PORemoveShortcut (id : string)
  | POInsertTrigger (principal : Auth.Principal) (t : Trigger AutomationRequest)
  | PORemoveTrigger (id : string)
  | POSchedule (principal : Auth.Principal) (id : string) (at_ms : Z) (kind : ScheduleKind)
      (intent : CommandIntent AutomationRequest)
  | POCancelSchedule (id : string)
  | POProgramGo (input : Z) (p : ProgrammedGo AutomationRequest)
  | POIngest (event : AutomationEvent)
  | POStartGo (principal : Auth.Principal) (input : Z) (key : string) (now_ms : Z)
  | POCancelGo (r : Z)
  | PORevoke (i : AutomationIdentity)
  | POPress (principal : Auth.Principal) (scope : option string) (c : Chord) (now_ms : Z)
  | POTick (now_ms : Z) (state : ConditionContext)
  | POControl (op : control_op).
(** The arguments are values of their types. *)
Definition plane_op_ok (op : plane_op) : Prop :=
  match op with
  | POSchedule _ _ at_ms kind _ => 0 ≤ at_ms ∧ (∀ i, kind = Every i → 0 ≤ i)
  | POProgramGo _ p => program_ok p
  | POTick now_ms _ => in_ty U64 now_ms
  | _ => True
  end.
(** The call arms a binding under the identity [i]. *)
Definition arms (i : AutomationIdentity) (op : plane_op) : Prop :=
  match op with
  | POInsertTrigger p _ | POSchedule p _ _ _ _ | POStartGo p _ _ _ => identity_of p = i
  | _ => False
  end.

(** One call on the plane and the service, with the frame it reported, if it was a
    tick; [None] is a panic. *)
Definition quiet {B} control (x : AutomationPlane R * outcome AutomationError B) :
    option ((AutomationPlane R * ControlService A) * list AutomationTick) :=
  match x with
  | (_, Panic) => None
  | (self, _) => Some ((self, control), [])
  end.
Definition plane_step (op : plane_op) (s : AutomationPlane R * ControlService A) :
    option ((AutomationPlane R * ControlService A) * list AutomationTick) :=
  let '(self, control) := s in
  match op with
  | POInsertShortcut x => quiet control (insert_shortcut x self)
  | PORemoveShortcut id => Some (((remove_shortcut id self).1, control), [])
  | POInsertTrigger p t => quiet control (insert_trigger p t self)
  | PORemoveTrigger id => Some (((remove_trigger id self).1, control), [])
  | POSchedule p id at_ms kind intent => quiet control (schedule p id at_ms kind intent self)
  | POCancelSchedule id => Some (((cancel_schedule id self).1, control), [])
  | POProgramGo input p => quiet control (program_go input p self)
  | POIngest event => quiet control (ingest_event event self)
  | POStartGo p input key now_ms => quiet control (start_go p input key now_ms self)
  | POCancelGo r => Some (((cancel_go r self).1, control), [])
  | PORevoke i => Some (((revoke_identity i self).1, control), [])
  | POPress p scope c now_ms =>
      match press p scope c now_ms s with
      | (_, Panic) => None
      | (s, _) => Some (s, [])
      end
  | POTick now_ms state =>
      match automation_tick now_ms state s with
      | (s, Ret tick) => Some (s, [tick])
      | _ => None
      end
  | POControl op => Some ((self, (control_step op control).1), [])
  end.
Fixpoint run_plane (ops : list plane_op) (s : AutomationPlane R * ControlService A) :
    option ((AutomationPlane R * ControlService A) * list AutomationTick) :=
  match ops with
  | [] => Some (s, [])
  | op :: ops =>
      '(s, ticks) ← plane_step op s; '(s, later) ← run_plane ops s; Some (s, ticks ++ later)
  end.

Lemma press_plane p scope c now_ms self control :
  ∃ n, (press p scope c now_ms (self, control)).1.1 = set_presses n self.
Proof.
  unfold press, mbind, stm_bind, st_get, st_require, st_lift, st_modify, st_map_err, on_control, st_zoom.
  simpl. assert (Hsame : self = set_presses (presses_this_frame self) self) by by destruct self.
  case_decide; [|by eexists]. destruct (resolve _ _ _); [|by eexists]. simpl.
  destruct (emit _ _ _ _ _). by eexists.
Qed.
Lemma set_presses_wf n self : plane_wf self → plane_wf (set_presses n self).
Proof. by intros []. Qed.
Lemma quiet_keeps {B} (m : stm (AutomationPlane R) AutomationError B) self control s ticks :
  keeps m → plane_wf self → quiet control (m self) = Some (s, ticks) →
  s.1 = (m self).1 ∧ plane_wf s.1 ∧ ticks = [].
Proof.
  intros Hm Hwf. pose proof (Hm self Hwf) as Hk. unfold wp in Hk. unfold quiet.
  destruct (m self) as [self' []]; intros [= <- <-]; by destruct Hk.
Qed.

Lemma plane_step_wf op s s' ticks :
  plane_wf s.1 → plane_op_ok op → plane_step op s = Some (s', ticks) → plane_wf s'.1.
Proof.
  destruct s as [self control]. simpl. intros Hwf Hop Hst. destruct op; simpl in Hop; cbn [plane_step] in Hst.
  - by apply (quiet_keeps _ _ _ _ _ (insert_shortcut_keeps x) Hwf) in Hst as (_&?&_).
  - injection Hst as <- <-. simpl. unfold remove_shortcut.
    destruct (Automation.remove_shortcut _ _). by destruct Hwf.
  - by apply (quiet_keeps _ _ _ _ _ (insert_trigger_keeps principal t) Hwf) in Hst as (_&?&_).
  - injection Hst as <- <-. by apply remove_trigger_wf.
  - destruct Hop as [Hat Hk].
    by apply (quiet_keeps _ _ _ _ _ (schedule_keeps principal id at_ms kind intent Hat Hk) Hwf) in Hst as (_&?&_).
  - injection Hst as <- <-. by apply cancel_schedule_wf.
  - by apply (quiet_keeps _ _ _ _ _ (program_go_keeps input p Hop) Hwf) in Hst as (_&?&_).
  - by apply (quiet_keeps _ _ _ _ _ (ingest_event_keeps event) Hwf) in Hst as (_&?&_).
  - by apply (quiet_keeps _ _ _ _ _ (start_go_keeps principal input key now_ms) Hwf) in Hst as (_&?&_).
  - injection Hst as <- <-. by apply cancel_go_wf.
  - injection Hst as <- <-. by apply revoke_identity_spec.
  - destruct (press_plane principal scope c now_ms self control) as [n Hn].
    destruct (press principal scope c now_ms (self, control)) as [s1 [sub|e|]]; [..|done];
      injection Hst as <- <-; simpl in Hn; rewrite Hn; by apply set_presses_wf.
  - destruct (automation_tick now_ms state (self, control)) as [[self1 control1] [tick| |]] eqn:Ht;
      [|done..]. injection Hst as <- <-. by apply (automation_tick_spec now_ms state self control self1 control1 tick).
  - by injection Hst as <- <-.
Qed.
Lemma run_plane_wf ops s s' ticks :
  plane_wf s.1 → Forall plane_op_ok ops → run_plane ops s = Some (s', ticks) → plane_wf s'.1.
Proof.
  revert s ticks. induction ops as [|op ops IH]; intros s ticks Hwf Hops; [by intros [= <- _]|].
  apply Forall_cons in Hops as [Hop Hops]. cbn [run_plane].
  destruct (plane_step op s) as [[s1 t1]|] eqn:Hst; [|done]. simpl.
  destruct (run_plane ops s1) as [[s2 t2]|] eqn:Hr; [|done]. simpl. intros [= <- <-].
  eapply IH; [|done..]. by eapply plane_step_wf.
Qed.
(** A plane some history leads to. *)
Definition plane_reached self : Prop :=
  ∃ lim (r : R) control0 ops control ticks, Forall plane_op_ok ops ∧
    run_plane ops (with_resolver lim r, control0) = Some ((self, control), ticks).
Lemma plane_reached_wf self : plane_reached self → plane_wf self.
Proof.
  intros (lim&r&control0&ops&control&ticks&Hops&Hrun).
  by apply (run_plane_wf ops (with_resolver lim r, control0) _ _ (with_resolver_wf lim r) Hops) in Hrun.
Qed.

(** *** What is armed *)

(** The bindings and the resolver are as they were. *)
Definition same_auth self self' : Prop := armed self' = armed self ∧ resolver self' = resolver self.
(** How a call changes them: not at all, by arming one binding, by releasing some, or
    by revoking an identity. *)
Inductive auth_change (op : plane_op) self self' : Prop :=
  | auth_same : same_auth self self' → auth_change op self self'
  | auth_arm b p : arms (identity_of p) op →
      armed self' = bt_insert b (identity_of p) (armed self) →
      resolver self' = observe p (resolver self) → auth_change op self self'
  | auth_release l self1 : same_auth self self1 →
      same_auth (foldl (λ p b, release b p) self1 l) self' → auth_change op self self'
  | auth_revoke i : self' = (revoke_identity i self).1 → auth_change op self self'.

Lemma map_zoom_auth {X E B} (get : AutomationPlane R → X) put (wrap : E → AutomationError)
    (m : stm X E B) self :
  (∀ x, same_auth self (put x self)) → same_auth self (st_map_err wrap (st_zoom get put m) self).1.
Proof. intros Hput. unfold st_map_err, st_zoom. destruct (m (get self)) as [x r]. apply Hput. Qed.
Lemma quiet_auth {B} control (x : AutomationPlane R * outcome AutomationError B) s ticks :
  quiet control x = Some (s, ticks) → s.1 = x.1.
Proof. unfold quiet. destruct x as [self []]; by intros [= <- <-]. Qed.
Lemma quiet_ticks {B} control (x : AutomationPlane R * outcome AutomationError B) s ticks :
  quiet control x = Some (s, ticks) → ticks = [].
Proof. unfold quiet. destruct x as [self []]; by intros [= <- <-]. Qed.
Lemma limit_reached_auth {B} n k r (m : stm (AutomationPlane R) AutomationError B) self op :
  auth_change op self (m self).1 → auth_change op self (limit_reached n k r m self).1.
Proof. intros Hm. unfold limit_reached. case_decide; [by apply auth_same|exact Hm]. Qed.
(** Running a method of a part and then arming. *)
Lemma then_arm_auth {X E B} (get : AutomationPlane R → X) put (wrap : E → AutomationError)
    (m : stm X E B) binding p self op :
  (∀ x, same_auth self (put x self)) → arms (identity_of p) op →
  auth_change op self ((_ ← st_map_err wrap (st_zoom get put m);
    st_modify (arm binding p (identity_of p)) : stm (AutomationPlane R) AutomationError unit) self).1.
Proof.
  intros Hput Hop. unfold mbind, stm_bind. pose proof (map_zoom_auth get put wrap m self Hput) as Hz.
  destruct (st_map_err wrap (st_zoom get put m) self) as [self1 [x|e|]]; simpl in *; [|by apply auth_same..].
  destruct Hz as [Ha Hr]. apply (auth_arm _ _ _ binding p); simpl; [done|by rewrite Ha|by rewrite Hr].
Qed.
Lemma start_go_auth p input key now_ms self :
  auth_change (POStartGo p input key now_ms) self (start_go p input key now_ms self).1.
Proof.
  unfold start_go, mbind, stm_bind, st_get, st_require. simpl. case_decide; [|by apply auth_same]. simpl.
  pose proof (map_zoom_auth go set_go AutoGo (go_start input key now_ms) self (λ _, conj eq_refl eq_refl)) as Hz.
  destruct (st_map_err AutoGo _ self) as [self1 [s|e|]]; simpl in *; [|by apply auth_same..].
  destruct (replayed s); [by apply auth_same|]. destruct Hz as [Ha Hr].
  apply (auth_arm _ _ _ (AutomationBinding.GoRun (started_run s)) p); simpl; [done|by rewrite Ha|by rewrite Hr].
Qed.
Lemma collect_auth now_ms state tick self : same_auth self (collect now_ms state tick self).1.
Proof.
  unfold collect. destruct (poll_schedules now_ms (schedules self)) as [set [fires|e|]]; [| |done].
  all: destruct (poll_triggers now_ms state _) as [t fired]; unfold collect_go;
    destruct (poll_go now_ms _) as [x gfires]; done.
Qed.
Lemma tick_auth now_ms state self control op :
  auth_change op self (automation_tick now_ms state (self, control)).1.1.
Proof.
  unfold automation_tick, mbind, stm_bind, st_modify, st_zoom, st_get, on_control, st_zoom. simpl.
  pose proof (collect_auth now_ms state (mk_automation_tick [] [] [] None) (set_presses 0 self)) as Hc.
  destruct (collect now_ms state _ (set_presses 0 self)) as [self1 [[[plan completed] tick1]|e|]];
    simpl in *; [|by apply auth_same..].
  destruct (submit_all _ _ _ _ _ control) as [control2 [tick3|e|]]; simpl; [|by apply auth_same..].
  by apply (auth_release _ _ _ completed self1).
Qed.
Lemma one_release_auth op b self self1 : same_auth self self1 → auth_change op self (release b self1).
Proof. intros Hs. by apply (auth_release _ _ _ [b] self1). Qed.

Lemma plane_step_auth op s s' ticks : plane_step op s = Some (s', ticks) → auth_change op s.1 s'.1.
Proof.
  destruct s as [self control]. simpl. intros Hst.
  destruct op; cbn [plane_step] in Hst; try (apply quiet_auth in Hst; rewrite Hst);
    try (injection Hst as <- <-; simpl).
  - unfold insert_shortcut. unfold mbind at 1, stm_bind at 1, st_get. apply limit_reached_auth.
    by apply auth_same, map_zoom_auth.
  - unfold remove_shortcut. destruct (Automation.remove_shortcut _ _). by apply auth_same.
  - unfold insert_trigger. unfold mbind at 1, stm_bind at 1, st_get. apply limit_reached_auth.
    by apply then_arm_auth.
  - unfold remove_trigger. destruct (Timers.remove_trigger _ _) as [x []]; [|by apply auth_same].
    by apply one_release_auth.
  - unfold schedule. unfold mbind at 1, stm_bind at 1, st_get. apply limit_reached_auth.
    by apply then_arm_auth.
  - unfold cancel_schedule. destruct (Timers.cancel_schedule _ _) as [x []]; [|by apply auth_same].
    by apply one_release_auth.
  - unfold program_go, mbind, stm_bind, st_get, st_require, st_put. simpl. case_decide; by apply auth_same.
  - unfold ingest_event. unfold mbind at 1, stm_bind at 1, st_get. apply limit_reached_auth.
    unfold mbind, stm_bind.
    pose proof (map_zoom_auth plane_triggers set_triggers AutoTrigger (ingest event) self
      (λ _, conj eq_refl eq_refl)) as Hz.
    destruct (st_map_err AutoTrigger _ self) as [self1 [x|e|]]; by apply auth_same.
  - apply start_go_auth.
  - unfold cancel_go. destruct (go_cancel _ _) as [x c]. simpl.
    by apply (auth_release _ _ _ [AutomationBinding.GoRun r] (set_go_runs (bt_remove r (go_runs self)) self)).
  - by apply (auth_revoke _ _ _ i).
  - destruct (press_plane principal scope c now_ms self control) as [n Hn].
    destruct (press principal scope c now_ms (self, control)) as [s1 [sub|e|]]; [..|done];
      injection Hst as <- <-; simpl in Hn; rewrite Hn; by apply auth_same.
  - pose proof (tick_auth now_ms state self control (POTick now_ms state)) as Ht.
    destruct (automation_tick now_ms state (self, control)) as [s1 [tick| |]]; [|done..].
    by injection Hst as <- <-.
  - by apply auth_same.
Qed.

Lemma release_armed b b' i self :
  bt_get b (armed (release b' self)) = Some i → bt_get b (armed self) = Some i.
Proof.
  unfold release. destruct (bt_get b' (armed self)) as [j|]; [|done].
  case_decide; simpl; rewrite bt_get_remove; by case_decide.
Qed.
Lemma release_all_armed l b i self :
  bt_get b (armed (foldl (λ p b, release b p) self l)) = Some i → bt_get b (armed self) = Some i.
Proof. revert self. induction l as [|b' l IH]; intros self; [done|]. simpl. by intros ?%IH%release_armed. Qed.
(** Only arming arms: what is armed after a call was armed before it, or the call
    armed it. *)
Lemma auth_change_armed op self self' b i :
  plane_wf self → auth_change op self self' → bt_get b (armed self') = Some i →
  bt_get b (armed self) = Some i ∨ arms i op.
Proof.
  intros Hwf Hc. destruct Hc as [[Ha _]|b' p Hop Ha _|l self1 [Ha1 _] [Ha _]|j ->].
  - rewrite Ha. by left.
  - rewrite Ha, bt_get_insert. case_decide; [intros [= <-]; by right|by left].
  - rewrite Ha. intros Hb%release_all_armed. left. by rewrite <-Ha1.
  - destruct (revoke_identity_spec j self Hwf) as (_&Hu&_&_&Hother). intros Hb. left.
    apply Hother; [|done]. intros ->. by apply Hu in Hb.
Qed.
(** Only a frame reports a tick. *)
Lemma plane_step_ticks op s s' ticks :
  plane_step op s = Some (s', ticks) →
  ticks = [] ∨ ∃ now_ms state tick, op = POTick now_ms state ∧ ticks = [tick] ∧
    automation_tick now_ms state s = (s', Ret tick).
Proof.
  destruct s as [self control]. intros Hst. destruct op; cbn [plane_step] in Hst.
  12: { left. destruct (press principal scope c now_ms (self, control)) as [s1 [sub|e|]]; [..|done];
        by injection Hst as <- <-. }
  12: { right. exists now_ms, state. destruct (automation_tick now_ms state (self, control)) as [s1 [tick| |]] eqn:Ht;
        [|done..]. injection Hst as <- <-. by exists tick. }
  all: left; first [by injection Hst as <- <- | by apply quiet_ticks in Hst].
Qed.
Lemma run_plane_unarmed i ops s s' ticks :
  plane_wf s.1 → unarmed i s.1 → Forall plane_op_ok ops → Forall (λ op, ¬ arms i op) ops →
  run_plane ops s = Some (s', ticks) → plane_wf s'.1 ∧ unarmed i s'.1.
Proof.
  revert s ticks. induction ops as [|op ops IH]; intros s ticks Hwf Hu Hops Harm; [by intros [= <- <-]|].
  apply Forall_cons in Hops as [Hop Hops]. apply Forall_cons in Harm as [Ha Harm]. cbn [run_plane].
  destruct (plane_step op s) as [[s1 t1]|] eqn:Hst; [|done]. simpl.
  destruct (run_plane ops s1) as [[s2 t2]|] eqn:Hr; [|done]. simpl. intros [= <- <-].
  apply (IH s1 t2); [by eapply plane_step_wf| |done..].
  intros b Hb. destruct (auth_change_armed op s.1 s1.1 b i Hwf (plane_step_auth _ _ _ _ Hst) Hb); [|done].
  by apply (Hu b).
Qed.
End histories.
