(* ===== verification/AutomationSafety.v ===== *)
(** What automation at the authority guarantees: whatever is planned is accounted for
    and reaches the service only as an ordinary submission under the authority its
    identity holds at that moment ([automation_accounts]), a revoked identity is
    silent ([revoked_is_silent]), the default resolver forgets nobody who is armed
    ([arming_remembered]), every cap holds ([automation_bounded]), and two actions
    share an idempotency key only if they are the same ([automation_key_injective]). *)
From S2P Require Import Prelude BTree Text Automation Timers TimerLaws.
From S2P Require Import ControlWire Control ControlSafety AutomationPlane PlaneLaws.
From S2P Require Command Actions Protocol Auth ControlLaws.
From Stdlib Require Import Ascii.
From stdpp Require Import pretty.
#[local] Open Scope Z_scope.

(** ** Keys *)

Lemma source_display_inj s t : source_display s = source_display t → s = t.
Proof.
  destruct s as [i|i|i|r n], t as [j|j|j|r' m]; simpl; intros Heq; try discriminate Heq;
    simplify_eq/=; try done.
  apply split_first in Heq as [?%(inj _) ?%(inj _)]; [by subst|by apply pretty_Z_lacks; unfold digits; set_solver..].
Qed.

(** the idempotency key names the action: two planned commands of users whose
    names hold no slash have the same key only if the same user armed them and they are
    the same intent of the same occurrence of the same binding, so a replayed frame
    dispatches nothing twice and no two different actions are taken for one. *)
Theorem automation_key_injective p q :
  lacks "/" (user (identity (planned_command p))) = true →
  lacks "/" (user (identity (planned_command q))) = true →
  automation_key p = automation_key q →
  user (identity (planned_command p)) = user (identity (planned_command q)) ∧
  planned_source p = planned_source q ∧ due_ms p = due_ms q ∧ intent_index p = intent_index q.
Proof.
  intros Hp Hq. unfold automation_key. intros Heq%app_inj_first.
  apply split_first in Heq as [Hu Heq]; [|done..]. split; [done|].
  assert (Hat : ∀ r, lacks "@" (pretty (due_ms r) +:+ "#" +:+ pretty (intent_index r)) = true).
  { intros r. rewrite !lacks_app. rewrite pretty_Z_lacks, pretty_nat_lacks by (unfold digits; set_solver). done. }
  apply (split_last "@") in Heq as [Hd Heq]; [|apply Hat..].
  apply (split_first "#") in Heq as [Hz Hi]; [|apply pretty_Z_lacks; unfold digits; set_solver..].
  by apply source_display_inj in Hd; apply (inj _) in Hz, Hi.
Qed.
Lemma automation_key_injective_witness :
  let p n := mk_planned (AutomationSource.Trigger "break@7#1") 12 n
    (mk_command (mk_identity "anna" "desk") (mk_request Protocol.CommandPayload.Cut None None)) in
  automation_key (p 3%nat) = "auto/anna/trigger/break@7#1@12#3" ∧
  (∀ n, automation_key (p 3%nat) = automation_key (p n) → 3%nat = n).
Proof.
  split; [vm_compute; reflexivity|]. intros n Heq.
  by apply automation_key_injective in Heq as (_&_&_&Heq); [|vm_compute; reflexivity..].
Defined.

(** ** Who may act *)

Section known.
Context {A : Type} `{AuthorizationHook A}.
Implicit Types self : AutomationPlane ArmTimeAuthority.

(** Every identity that is armed resolves. *)
Definition known self : Prop :=
  ∀ b i, bt_get b (armed self) = Some i → is_Some (resolve_authority i (resolver self)).

Lemma same_auth_known self self' : same_auth self self' → known self → known self'.
Proof. intros [Ha Hr] Hk b i. rewrite Ha, Hr. apply Hk. Qed.
Lemma release_known b self :
  bt_sorted (armed self) → known self → bt_sorted (armed (release b self)) ∧ known (release b self).
Proof.
  intros Hs Hk. unfold release. destruct (bt_get b (armed self)) as [i|] eqn:Hb; [|done].
  assert (Hsub : ∀ b' j, bt_get b' (bt_remove b (armed self)) = Some j → bt_get b' (armed self) = Some j).
  { intros b' j. rewrite bt_get_remove. by case_decide. }
  assert (Hs' : bt_sorted (bt_remove b (armed self))) by by apply bt_remove_sorted.
  case_decide as Hin; (split; [done|]); intros b' j Hj; simpl in Hj; simpl; [by eapply Hk, Hsub|].
  rewrite bt_get_remove. case_decide as Heq; [|by eapply Hk, Hsub]. subst j. exfalso. apply Hin.
  apply bt_elem_values; [done|]. by exists b'.
Qed.
Lemma release_all_known l self :
  bt_sorted (armed self) → known self → known (foldl (λ p b, release b p) self l).
Proof.
  revert self. induction l as [|b l IH]; intros self Hs Hk; [done|]. simpl.
  by destruct (release_known b self Hs Hk) as [? ?]; apply IH.
Qed.
Lemma auth_change_known op self self' :
  plane_wf self → auth_change op self self' → known self → known self'.
Proof.
  intros Hwf Hc Hk. destruct Hc as [Hs|b p _ Ha Hr|l self1 Hs1 Hs|i ->].
  - by eapply same_auth_known.
  - intros b' i. rewrite Ha, Hr. simpl. rewrite !bt_get_insert. case_decide.
    + intros [= <-]. by rewrite decide_True.
    + intros Hi%Hk. case_decide; [by eexists|done].
  - eapply same_auth_known; [exact Hs|]. apply release_all_known; [|by eapply same_auth_known].
    destruct Hs1 as [-> _]. apply Hwf.
  - destruct (revoke_identity_spec i self Hwf) as (_&Hu&_&Hr&Ho). intros b j Hj. rewrite Hr. simpl.
    assert (j ≠ i) by (intros ->; by apply (Hu b)). rewrite bt_get_remove_ne by done.
    apply Ho in Hj; [|done]. by apply (Hk b).
Qed.

Definition remembers (tick : AutomationTick) : Prop :=
  Forall (λ r, refusal_reason r ≠ AutomationRefusalReason.IdentityRevoked) (refusals tick).
Lemma handles_remembered lim (res : ArmTimeAuthority) now_ms (control : ControlService A) l control' :
  handles lim res now_ms control l control' →
  (∀ p, p ∈ l.*1 → is_Some (resolve_authority (identity (planned_command p)) res)) →
  Forall (λ r, refusal_reason r ≠ AutomationRefusalReason.IdentityRevoked) (refusals_of l).
Proof.
  revert control. induction l as [|[p x] l IH]; intros control Hh Hk; [constructor|].
  change ((p, x) :: l) with ([(p, x)] ++ l). rewrite refusals_app. apply Forall_app.
  assert (Hl : ∀ c, handles lim res now_ms c l control' →
    Forall (λ r, refusal_reason r ≠ AutomationRefusalReason.IdentityRevoked) (refusals_of l)).
  { intros c Hc. apply (IH c Hc). intros q Hq. apply Hk. by right. }
  destruct x as [principal s|principal e|reason]; cbn [handles] in Hh.
  - destruct Hh as (_&c&sub&_&_&Hh). split; [constructor|by eapply Hl].
  - destruct Hh as (_&c&_&Hh). split; [by repeat constructor|by eapply Hl].
  - destruct Hh as [Hr Hh]. split; [|by eapply Hl]. constructor; [|constructor]. simpl.
    intros ->. specialize (Hr eq_refl). destruct (Hk p) as [? Hp]; [by left|]. congruence.
Qed.
Lemma run_plane_known ops s s' ticks :
  plane_wf s.1 → known s.1 → Forall plane_op_ok ops → run_plane ops s = Some (s', ticks) →
  Forall remembers ticks.
Proof.
  revert s ticks. induction ops as [|op ops IH]; intros s ticks Hwf Hk Hops; [by intros [= <- <-]|].
  apply Forall_cons in Hops as [Hop Hops]. cbn [run_plane].
  destruct (plane_step op s) as [[s1 t1]|] eqn:Hst; [|done]. simpl.
  destruct (run_plane ops s1) as [[s2 t2]|] eqn:Hr; [|done]. simpl. intros [= <- <-].
  assert (Hwf1 : plane_wf s1.1) by by eapply plane_step_wf.
  assert (Hk1 : known s1.1) by exact (auth_change_known op s.1 s1.1 Hwf (plane_step_auth _ _ _ _ Hst) Hk).
  apply Forall_app. split; [|by apply (IH s1)].
  destruct (plane_step_ticks _ _ _ _ Hst) as [->|(now_ms&state&tick&->&->&Ht)]; [done|].
  destruct s as [self control], s1 as [self3 control3]. constructor; [|done].
  destruct (automation_tick_spec now_ms state self control self3 control3 tick Hwf Hop Ht)
    as (_&_&l&Hh&_&Hrf&_&Hin).
  unfold remembers. rewrite Hrf. eapply handles_remembered; [exact Hh|]. intros p Hp.
  apply (plans_due _ _ _ _ _ Hin) in Hp.
  destruct (due_identity now_ms state self p Hwf Hp) as [b Hb]. by apply (Hk b).
Qed.

(** the default resolver remembers whoever armed something for as long as it
    stays armed: whatever is inserted, scheduled, started, cancelled, removed, revoked
    and ticked, in any order, no frame ever refuses an action for want of authority. *)
Theorem arming_remembered lim ops (control control' : ControlService A) self' ticks :
  Forall plane_op_ok ops →
  run_plane ops (with_resolver lim ([] : ArmTimeAuthority), control) = Some ((self', control'), ticks) →
  Forall remembers ticks.
Proof.
  intros Hops Hrun. apply run_plane_known in Hrun; [done|apply with_resolver_wf| |done].
  by intros b i.
Qed.
End known.

(** ** Caps *)

(** How much of everything there is, and how much there may be. *)
Definition usage {R} (self : AutomationPlane R) : list nat :=
  [length (shortcuts self); registered_len (plane_triggers self); pending_len (plane_triggers self);
   schedules_len (schedules self); program_len (go self); active_run_len (go self);
   presses_this_frame self].
Definition caps (lim : AutomationLimits) : list nat :=
  [max_shortcuts lim; max_triggers lim; (max_pending_trigger_actions lim + max_triggers lim)%nat;
   max_schedules lim; max_go_programs lim; max_active_go_runs lim; max_presses_per_frame lim].
Definition within {R} (self : AutomationPlane R) : Prop := Forall2 le (usage self) (caps (limits self)).

Ltac usages := repeat (refine (List.Forall2_cons _ _ _ _); [simpl; try (assumption || lia)|]); try apply List.Forall2_nil.

Section parts.
Context {C : Type}.
Lemma insert_shortcut_length (x : Shortcut C) l :
  (length (Automation.insert_shortcut x l).1 ≤ S (length l))%nat.
Proof.
  assert (Hw : wp (Automation.insert_shortcut x) (λ _ l', (length l' ≤ S (length l))%nat) l).
  { unfold Automation.insert_shortcut. wp_run; try lia. rewrite length_app. simpl. lia. }
  exact Hw.
Qed.
Lemma remove_shortcut_length id (l : list (Shortcut C)) :
  (length (Automation.remove_shortcut id l).1 ≤ length l)%nat.
Proof.
  unfold Automation.remove_shortcut. destruct (list_find _ l) as [[i x]|] eqn:Hf; [|done]. simpl.
  apply list_find_Some in Hf as (Hi&_). revert i Hi. clear. induction l as [|y l IH]; intros [|i] Hi; simpl in *; try done; [lia|].
  exact (le_n_S _ _ (IH i Hi)).
Qed.
Lemma mapM_result_length {E A B} (f : A → result E B) (l : list A) (m : list B) :
  mapM f l = Ok m → length l = length m.
Proof.
  revert m. induction l as [|x l IH]; intros m; simpl; [by intros [= <-]|].
  intros (y&_&(k&Hk&[= <-])%result_bind_Ok)%result_bind_Ok. simpl. f_equal. by apply IH.
Qed.
Lemma matching_length event (l : list (Trigger C)) m :
  matching event l = Ok m → (length m ≤ length l)%nat.
Proof.
  intros Hm. rewrite <-(mapM_result_length _ _ _ Hm). apply length_filter.
Qed.
Lemma schedules_len_le (s s' : ScheduleSet C) :
  (∀ id, is_Some (actions s' !! id) → is_Some (actions s !! id)) → (schedules_len s' ≤ schedules_len s)%nat.
Proof.
  intros Hs. unfold schedules_len. rewrite <-!size_dom. apply subseteq_size. intros id.
  rewrite !elem_of_dom. apply Hs.
Qed.
Lemma schedules_len_add (s s' : ScheduleSet C) id :
  (∀ id', is_Some (actions s' !! id') ↔ id' = id ∨ is_Some (actions s !! id')) →
  (schedules_len s' ≤ S (schedules_len s))%nat.
Proof.
  intros Hs. unfold schedules_len. rewrite <-!size_dom.
  etrans; [apply (subseteq_size _ ({[id]} ∪ dom (actions s)))|rewrite size_union_alt, size_singleton].
  - intros id'. rewrite elem_of_union, !elem_of_dom, elem_of_singleton. apply Hs.
  - pose proof (subseteq_size (dom (actions s) ∖ {[id]}) (dom (actions s)) ltac:(set_solver)). lia.
Qed.
Lemma program_len_insert input p (g : GoEngine C) :
  (program_len (program input p g).1 ≤ if has_program input g then program_len g else S (program_len g))%nat.
Proof.
  unfold program_len, has_program. simpl. rewrite map_size_insert.
  destruct (programs g !! input); simpl; lia.
Qed.
Lemma go_cancel_active r (g : GoEngine C) : active (go_cancel r g).1 ⊆ active g.
Proof. unfold go_cancel. case_decide; [|done]. simpl. set_solver. Qed.
Lemma go_cancel_programs r (g : GoEngine C) : programs (go_cancel r g).1 = programs g.
Proof. unfold go_cancel. by case_decide. Qed.
End parts.

Section bounds.
Context {R A : Type} `{AuthorityResolver R} `{AuthorizationHook A}.
Implicit Types self : AutomationPlane R.

(** There is no more of anything than there was. *)
Definition no_larger self self' : Prop :=
  limits self' = limits self ∧ Forall2 le (usage self') (usage self).
Lemma le_list_trans (l k m : list nat) : Forall2 le l k → Forall2 le k m → Forall2 le l m.
Proof.
  intros Hlk. revert m. induction Hlk; intros m Hkm; inversion Hkm; subst; constructor; [lia|auto].
Qed.
Lemma no_larger_refl self : no_larger self self.
Proof. split; [done|]. usages. Qed.
Lemma no_larger_trans self1 self2 self3 :
  no_larger self1 self2 → no_larger self2 self3 → no_larger self1 self3.
Proof.
  intros [Hl1 Hu1] [Hl2 Hu2]. split; [congruence|]. by eapply le_list_trans.
Qed.
Lemma no_larger_within self self' : no_larger self self' → within self → within self'.
Proof.
  intros [Hl Hu] Hw. unfold within. rewrite Hl. by eapply le_list_trans.
Qed.

Lemma release_no_larger b self : no_larger self (release b self).
Proof. unfold release. destruct (bt_get b (armed self)); [|apply no_larger_refl]. by case_decide. Qed.
Lemma release_all_no_larger l self : no_larger self (foldl (λ p b, release b p) self l).
Proof.
  revert self. induction l as [|b l IH]; intros self; [apply no_larger_refl|].
  eapply no_larger_trans; [apply (release_no_larger b)|apply IH].
Qed.
Lemma removed_triggers_fit id self :
  plane_wf self → no_larger self (set_triggers (Timers.remove_trigger id (plane_triggers self)).1 self).
Proof.
  intros Hwf. pose proof (remove_trigger_spec (plane_triggers self) id (ta_wf _ _ (pw_triggers _ Hwf))) as Hrm.
  destruct (Timers.remove_trigger id (plane_triggers self)) as [x removed]. destruct Hrm as (_&Hl&Hno&Hyes).
  split; [done|]. usages.
  - unfold registered_len. rewrite Hl. apply length_filter.
  - unfold pending_len. destruct removed; [|by destruct Hno as [-> _]]. rewrite Hyes by done. apply length_filter.
Qed.
Lemma cancelled_schedules_fit id self :
  plane_wf self → no_larger self (set_schedules (Timers.cancel_schedule id (schedules self)).1 self).
Proof.
  intros Hwf. pose proof (cancel_schedule_spec (schedules self) id (sd_wf _ _ (pw_schedules _ Hwf))) as Hc.
  destruct (Timers.cancel_schedule id (schedules self)) as [x r]. destruct Hc as (_&_&Ha).
  split; [done|]. usages. apply schedules_len_le. intros id'. rewrite Ha. tauto.
Qed.
Lemma cancelled_run_fit r runs self :
  no_larger self (set_go_runs runs (set_go (Timers.go_cancel r (go self)).1 self)).
Proof.
  split; [done|]. usages.
  - unfold program_len. by rewrite go_cancel_programs.
  - apply subseteq_size, go_cancel_active.
Qed.
Lemma revoke_binding_no_larger b self : plane_wf self → no_larger self (revoke_binding self b).
Proof.
  intros Hwf. destruct b as [id|id|r].
  - exact (removed_triggers_fit id self Hwf).
  - exact (cancelled_schedules_fit id self Hwf).
  - exact (cancelled_run_fit r _ self).
Qed.
Lemma revoke_no_larger i self : plane_wf self → no_larger self (revoke_identity i self).1.
Proof.
  intros Hwf. unfold revoke_identity. cbn [fst].
  assert (Hall : ∀ l self, plane_wf self → no_larger self (foldl revoke_binding self l)).
  { intros l. induction l as [|b l IH]; intros self0 Hwf0; [apply no_larger_refl|].
    eapply no_larger_trans; [by apply (revoke_binding_no_larger b)|]. apply IH.
    by apply revoke_binding_spec. }
  exact (Hall (bindings_for i self) self Hwf).
Qed.
Lemma remove_trigger_no_larger id self : plane_wf self → no_larger self (remove_trigger id self).1.
Proof.
  intros Hwf. pose proof (removed_triggers_fit id self Hwf) as Hf. unfold remove_trigger.
  destruct (Timers.remove_trigger id (plane_triggers self)) as [x []]; [|exact Hf].
  eapply no_larger_trans; [exact Hf|apply release_no_larger].
Qed.
Lemma cancel_schedule_no_larger id self : plane_wf self → no_larger self (cancel_schedule id self).1.
Proof.
  intros Hwf. pose proof (cancelled_schedules_fit id self Hwf) as Hf. unfold cancel_schedule.
  destruct (Timers.cancel_schedule id (schedules self)) as [x [c|]]; [|exact Hf].
  eapply no_larger_trans; [exact Hf|apply release_no_larger].
Qed.
Lemma cancel_go_no_larger r self : no_larger self (cancel_go r self).1.
Proof.
  unfold cancel_go. set (self1 := release _ _).
  assert (H1 : no_larger self self1).
  { eapply no_larger_trans; [|apply release_no_larger]. split; [done|]. usages. }
  pose proof (cancelled_run_fit r (go_runs self1) self1) as H2.
  destruct (go_cancel r (go self1)) as [x c]. eapply no_larger_trans; [exact H1|exact H2].
Qed.
Lemma remove_shortcut_no_larger id self : no_larger self (remove_shortcut id self).1.
Proof.
  unfold remove_shortcut. pose proof (remove_shortcut_length id (shortcuts self)) as Hl.
  destruct (Automation.remove_shortcut id (shortcuts self)) as [l r]. split; [done|]. usages.
Qed.

(** A frame. *)
Lemma collect_no_larger now_ms state tick self :
  plane_wf self → in_ty U64 now_ms → no_larger self (collect now_ms state tick self).1.
Proof.
  intros Hwf Hn. unfold collect.
  pose proof (poll_schedules_spec now_ms (schedules self) (sd_wf _ _ (pw_schedules _ Hwf)) Hn) as Hps.
  unfold wp in Hps. destruct (poll_schedules now_ms (schedules self)) as [set r].
  destruct Hps as (_&Hids&_). apply schedules_len_le in Hids.
  assert (Hgo : ∀ c self1, no_larger self self1 → plane_wf self → go self1 = go self →
    no_larger self (collect_go now_ms c self1).1).
  { intros c self1 Hl _ Hg. unfold collect_go. rewrite Hg.
    pose proof (poll_go_spec (go self) now_ms (eo_go _ (ra_ok _ _ _ (pw_runs _ Hwf)))) as Hpg.
    destruct (poll_go now_ms (go self)) as [x fires]. destruct Hpg as (_&_&_&_&Hp&_&_&Ha). cbn [fst].
    eapply no_larger_trans; [exact Hl|]. split; [done|]. usages; rewrite Hg.
    - unfold program_len. by rewrite Hp.
    - by apply subseteq_size. }
  pose proof (poll_triggers_spec (plane_triggers self) now_ms state (ta_wf _ _ (pw_triggers _ Hwf))) as Hpt.
  assert (Hsched : no_larger self (set_schedules set self)) by (split; [done|]; usages).
  destruct r as [fires|e|]; [..|exact Hsched]; cbn [plane_triggers set_schedules];
    destruct (poll_triggers now_ms state (plane_triggers self)) as [t fired]; destruct Hpt as (_&Htr&Htp&_);
    (assert (Htrig : no_larger self (set_triggers t (set_schedules set self)));
     [split; [done|]; usages;
       [unfold registered_len; by rewrite Htr|unfold pending_len; rewrite Htp; apply length_filter]|]);
    match goal with |- context [collect_go now_ms ?c ?s] => pose proof (Hgo c s Htrig Hwf eq_refl) as Hg;
      destruct (collect_go now_ms c s) end; exact Hg.
Qed.
Lemma tick_no_larger now_ms state self control self' control' tick :
  plane_wf self → in_ty U64 now_ms →
  automation_tick now_ms state (self, control) = ((self', control' : ControlService A), Ret tick) →
  no_larger self self'.
Proof.
  intros Hwf Hn. unfold automation_tick, mbind, stm_bind, st_modify, st_zoom, st_get, on_control, st_zoom. simpl.
  assert (Hwf0 : plane_wf (set_presses 0 self)) by by destruct Hwf.
  pose proof (collect_no_larger now_ms state (mk_automation_tick [] [] [] None) _ Hwf0 Hn) as Hc.
  destruct (collect now_ms state _ (set_presses 0 self)) as [self1 [[[plan completed] tick1]|e|]]; [..|done];
    [|by destruct e].
  unfold on_control, st_zoom. simpl. destruct (submit_all _ _ _ _ _ control) as [control2 [tick3|e|]]; [..|done]; [|by destruct e].
  intros [= <- <- <-]. apply (no_larger_trans _ self1); [|apply release_all_no_larger].
  apply (no_larger_trans _ (set_presses 0 self)); [|exact Hc]. split; [done|]. usages.
Qed.

(** The operations that add something. *)
Definition fits {B} (m : stm (AutomationPlane R) AutomationError B) : Prop :=
  ∀ self, plane_wf self → within self → wp m (λ _ self', within self' ∧ limits self' = limits self) self.
Lemma within_same self self' :
  usage self' = usage self → limits self' = limits self → within self → within self'.
Proof. intros Hu Hl Hw. unfold within. by rewrite Hu, Hl. Qed.
Lemma limit_reached_fits {B} n k r (m : stm (AutomationPlane R) AutomationError B) self :
  within self → ((n < k)%nat → wp m (λ _ self', within self' ∧ limits self' = limits self) self) →
  wp (limit_reached n k r m) (λ _ self', within self' ∧ limits self' = limits self) self.
Proof. intros Hw Hm. unfold limit_reached. case_decide; [by apply wp_throw|]. apply Hm. lia. Qed.
Ltac split_caps Hw :=
  unfold within, usage, caps in Hw; rewrite !Forall2_cons in Hw; destruct Hw as (?&?&?&?&?&?&?&_).

Lemma insert_shortcut_fits x : fits (insert_shortcut x).
Proof.
  intros self Hwf Hw. unfold insert_shortcut. apply wp_bind, wp_get, limit_reached_fits; [done|]. intros Hlt.
  unfold wp, st_map_err, st_zoom. pose proof (insert_shortcut_length x (shortcuts self)) as Hl.
  destruct (Automation.insert_shortcut x (shortcuts self)) as [l o]. split; [|done]. split_caps Hw.
  simpl in Hl. usages.
Qed.
Lemma insert_trigger_fits p t : fits (insert_trigger p t).
Proof.
  intros self Hwf Hw. unfold insert_trigger. apply wp_bind, wp_get, limit_reached_fits; [done|]. intros Hlt.
  apply wp_bind, wp_map_err, wp_zoom.
  eapply wp_mono; [apply insert_trigger_spec, (ta_wf _ _ (pw_triggers _ Hwf))|].
  intros [[]|e|] x (_&Hq&Hx); simpl; [| |done].
  - destruct Hx as (Hl&_). wp_run. split; [|done]. split_caps Hw. unfold registered_len, pending_len in *.
    usages; unfold registered_len, pending_len; rewrite ?Hl, ?Hq, ?length_app; simpl; lia.
  - subst x. split; [by apply (within_same self)|done].
Qed.
Lemma schedule_fits p id at_ms kind intent :
  0 ≤ at_ms → (∀ i, kind = Every i → 0 ≤ i) → fits (schedule p id at_ms kind intent).
Proof.
  intros Hat Hk self Hwf Hw. unfold schedule. apply wp_bind, wp_get, limit_reached_fits; [done|]. intros Hlt.
  apply wp_bind, wp_map_err, wp_zoom.
  eapply wp_mono; [apply schedule_at_spec; [apply (sd_wf _ _ (pw_schedules _ Hwf))|done..]|].
  intros [[]|e|] x; simpl; [| |done].
  - intros (_&_&_&Ha). apply schedules_len_add in Ha. wp_run. split; [|done]. split_caps Hw. usages.
  - intros (_&_&Ha). split; [|done]. apply (within_same self); [|done..]. unfold usage, schedules_len. simpl. by rewrite Ha.
Qed.
Lemma program_go_fits input p : fits (program_go input p).
Proof.
  intros self Hwf Hw. unfold program_go. apply wp_bind, wp_get, wp_bind, wp_require; [|done]. intros Hlt.
  apply wp_put. split; [|done]. pose proof (program_len_insert input p (go self)) as Hl. split_caps Hw.
  usages. etrans; [exact Hl|]. destruct (has_program input (go self)); [done|].
  assert (¬ (max_go_programs (limits self) ≤ program_len (go self))%nat) by tauto. lia.
Qed.
Lemma ingest_event_fits event : fits (ingest_event event).
Proof.
  intros self Hwf Hw. unfold ingest_event. apply wp_bind, wp_get, limit_reached_fits; [done|]. intros Hlt.
  apply wp_bind, wp_map_err, wp_zoom.
  eapply wp_mono; [apply ingest_spec, (ta_wf _ _ (pw_triggers _ Hwf))|].
  intros [ids|e|] x (_&Hl&Hx); simpl; [| |done].
  - wp_run. split; [|done]. destruct Hx as (l&Hm&Hp). apply matching_length in Hm.
    apply Permutation_length in Hp. rewrite length_app, !length_fmap in Hp. split_caps Hw.
    unfold registered_len, pending_len in *. usages; unfold registered_len, pending_len; rewrite ?Hl; lia.
  - split; [|done]. apply (within_same self); [|done..]. unfold usage, registered_len, pending_len. simpl. by rewrite Hl, Hx.
Qed.
Lemma start_go_fits p input key now_ms : fits (start_go p input key now_ms).
Proof.
  intros self Hwf Hw. unfold start_go. apply wp_bind, wp_get, wp_bind, wp_require; [|done]. intros Hlt.
  apply wp_bind, wp_map_err, wp_zoom. destruct (ra_ok _ _ _ (pw_runs _ Hwf)) as [Hgo Hrc].
  eapply wp_mono; [by apply go_start_spec|]. intros [s|e|] x (_&_&Hx); simpl; [| |done].
  - destruct (replayed s).
    + destruct Hx as [-> _]. wp_run. split; [by apply (within_same self)|done].
    + destruct Hx as (Hnew&_&_&Hpr&Hact&_). wp_run. split; [|done]. split_caps Hw.
      assert ((active_run_len (go self) < max_active_go_runs (limits self))%nat).
      { unfold started in Hlt. rewrite Hnew in Hlt. simpl in Hlt.
        destruct (decide (max_active_go_runs (limits self) ≤ active_run_len (go self))%nat); [tauto|lia]. }
      unfold program_len, active_run_len in *. usages; unfold program_len, active_run_len.
      * by rewrite Hpr.
      * rewrite Hact, size_union_alt, size_singleton.
        pose proof (subseteq_size (active (go self) ∖ {[started_run s]}) (active (go self)) ltac:(set_solver)). lia.
  - destruct Hx as (_&Ha&Hp&_). split; [|done]. apply (within_same self); [|done..]. unfold usage, program_len, active_run_len. simpl.
    by rewrite Ha, Hp.
Qed.
Lemma press_fits p scope c now_ms self (control : ControlService A) :
  within self → within (press p scope c now_ms (self, control)).1.1 ∧
  limits (press p scope c now_ms (self, control)).1.1 = limits self.
Proof.
  intros Hw. unfold press, mbind, stm_bind, st_get, st_require, st_lift, st_modify, st_map_err, on_control, st_zoom.
  simpl. case_decide as Hlt; [|done]. destruct (resolve _ _ _); [|done]. simpl.
  destruct (emit _ _ _ _ _). split; [|done]. simpl. split_caps Hw. usages.
Qed.
End bounds.

Section theorems.
Context {R A : Type} `{AuthorityResolver R} `{AuthorizationHook A}.
Implicit Types self : AutomationPlane R.
Implicit Types control : ControlService A.

Lemma quiet_fits {B} (m : stm (AutomationPlane R) AutomationError B) self control s ticks :
  fits m → plane_wf self → within self → quiet control (m self) = Some (s, ticks) →
  within s.1 ∧ limits s.1 = limits self.
Proof. intros Hm Hwf Hw Hq. apply quiet_auth in Hq as ->. exact (Hm self Hwf Hw). Qed.
Lemma no_larger_fits self self' : no_larger self self' → within self → within self' ∧ limits self' = limits self.
Proof. intros Hn Hw. split; [by eapply no_larger_within|]. apply Hn. Qed.
Lemma plane_step_within op s s' ticks :
  plane_wf s.1 → plane_op_ok op → within s.1 → plane_step op s = Some (s', ticks) →
  within s'.1 ∧ limits s'.1 = limits s.1.
Proof.
  destruct s as [self control]. simpl. intros Hwf Hop Hw Hst. destruct op; simpl in Hop; cbn [plane_step] in Hst.
  - by eapply quiet_fits; [apply (insert_shortcut_fits x)|..|exact Hst].
  - injection Hst as <- <-. by apply no_larger_fits; [apply remove_shortcut_no_larger|].
  - by eapply quiet_fits; [apply (insert_trigger_fits principal t)|..|exact Hst].
  - injection Hst as <- <-. by apply no_larger_fits; [apply remove_trigger_no_larger|].
  - destruct Hop. by eapply quiet_fits; [apply (schedule_fits principal id at_ms kind intent)|..|exact Hst].
  - injection Hst as <- <-. by apply no_larger_fits; [apply cancel_schedule_no_larger|].
  - by eapply quiet_fits; [apply (program_go_fits input p)|..|exact Hst].
  - by eapply quiet_fits; [apply (ingest_event_fits event)|..|exact Hst].
  - by eapply quiet_fits; [apply (start_go_fits principal input key now_ms)|..|exact Hst].
  - injection Hst as <- <-. by apply no_larger_fits; [apply cancel_go_no_larger|].
  - injection Hst as <- <-. by apply no_larger_fits; [apply revoke_no_larger|].
  - pose proof (press_fits principal scope c now_ms self control Hw) as Hp.
    destruct (press principal scope c now_ms (self, control)) as [s1 [sub|e|]]; [..|done];
      by injection Hst as <- <-.
  - destruct (automation_tick now_ms state (self, control)) as [[self1 control1] [tick| |]] eqn:Ht; [|done..].
    injection Hst as <- <-. apply no_larger_fits; [|done]. by eapply tick_no_larger.
  - by injection Hst as <- <-.
Qed.
Lemma run_plane_within ops s s' ticks :
  plane_wf s.1 → within s.1 → Forall plane_op_ok ops → run_plane ops s = Some (s', ticks) →
  within s'.1 ∧ limits s'.1 = limits s.1 ∧
  Forall (λ tick, (length (submitted tick) ≤ max_commands_per_tick (limits s.1))%nat) ticks.
Proof.
  revert s ticks. induction ops as [|op ops IH]; intros s ticks Hwf Hw Hops; [by intros [= <- <-]|].
  apply Forall_cons in Hops as [Hop Hops]. cbn [run_plane].
  destruct (plane_step op s) as [[s1 t1]|] eqn:Hst; [|done]. simpl.
  destruct (run_plane ops s1) as [[s2 t2]|] eqn:Hr; [|done]. simpl. intros [= <- <-].
  assert (Hwf1 : plane_wf s1.1) by by eapply plane_step_wf.
  destruct (plane_step_within _ _ _ _ Hwf Hop Hw Hst) as [Hw1 Hl1].
  destruct (IH s1 t2 Hwf1 Hw1 Hops Hr) as (Hw2&Hl2&Ht2). rewrite Hl1 in Hl2, Ht2.
  split_and!; [done..|]. apply Forall_app. split; [|done].
  destruct (plane_step_ticks _ _ _ _ Hst) as [->|(now_ms&state&tick&->&->&Ht)]; [done|].
  destruct s as [self control], s1 as [self3 control3]. constructor; [|done].
  destruct (automation_tick_spec now_ms state self control self3 control3 tick Hwf Hop Ht)
    as (_&_&l&_&Hs&_&Hlen&_). by rewrite Hs.
Qed.

(** C15: whatever is planned in a frame is accounted for: the plan is exactly one
    command for every schedule whose time has come, for every intent of what a trigger
    armed for that time and whose conditions all hold, and for every GO step that is
    due; only when a poll of the schedules finds no room in 64 bits for their next
    boundaries may the schedules be left out, the rest is planned even then.  Every
    command of the plan is handled once, and it either reached the service as an
    ordinary submission of the principal that its identity resolves to at that
    moment, or made the service fail, or is reported as refused, with the reason. *)
Theorem automation_accounts now_ms state self control self' control' tick :
  plane_reached (A := A) self → in_ty U64 now_ms →
  automation_tick now_ms state (self, control) = ((self', control'), Ret tick) →
  ∃ l, handles (limits self) (resolver self) now_ms control l control' ∧
    submitted tick = submissions l ∧ refusals tick = refusals_of l ∧
    (l.*1 ≡ₚ due_commands now_ms state self ∨
     ¬ poll_fits now_ms (schedules self) ∧ l.*1 ≡ₚ planned_for now_ms state self []).
Proof.
  intros Hr Hn Ht.
  destruct (automation_tick_spec now_ms state self control self' control' tick (plane_reached_wf _ Hr) Hn Ht)
    as (_&_&l&Hh&Hs&Hrf&_&Hp).
  by exists l.
Qed.

(** C16: a revoked identity is silent: once it is revoked, whatever else is inserted,
    cancelled, pressed and ticked, as long as nothing is armed under it again, no frame
    hands the service a command that it armed, nor reports one as refused. *)
Theorem revoked_is_silent i self control ops self1 control1 ticks now_ms state self' control' tick :
  plane_reached (A := A) self → Forall plane_op_ok ops → Forall (λ op, ¬ arms i op) ops →
  run_plane ops ((revoke_identity i self).1, control) = Some ((self1, control1), ticks) →
  in_ty U64 now_ms →
  automation_tick now_ms state (self1, control1) = ((self', control'), Ret tick) →
  Forall (λ r, refusal_identity r ≠ i) (refusals tick) ∧
  ∃ l, handles (limits self1) (resolver self1) now_ms control1 l control' ∧
    submitted tick = submissions l ∧ refusals tick = refusals_of l ∧
    Forall (λ p, identity (planned_command p) ≠ i) l.*1.
Proof.
  intros Hr Hops Harm Hrun Hn Ht.
  destruct (revoke_identity_spec i self (plane_reached_wf _ Hr)) as (Hwf&Hu&_).
  destruct (run_plane_unarmed i ops ((revoke_identity i self).1, control) (self1, control1) ticks Hwf Hu Hops Harm Hrun) as [Hwf1 Hu1].
  destruct (automation_tick_spec now_ms state self1 control1 self' control' tick Hwf1 Hn Ht)
    as (_&_&l&Hh&Hs&Hrf&_&Hin).
  assert (Hall : ∀ p, p ∈ l.*1 → identity (planned_command p) ≠ i).
  { intros p Hp. apply (plans_due _ _ _ _ _ Hin) in Hp. destruct (due_identity now_ms state self1 p Hwf1 Hp) as [b Hb].
    intros Heq. apply (Hu1 b). simpl. congruence. }
  split; [|exists l; split_and!; [done..|by apply Forall_forall]].
  rewrite Hrf. apply Forall_forall. intros r ([p x]&Hx&Hr')%list_elem_of_omap.
  assert (Hp : p ∈ l.*1) by (apply list_elem_of_fmap; by exists (p, x)).
  specialize (Hall p Hp). destruct x; simpl in Hr'; [done|..]; by injection Hr' as <-.
Qed.

(** every cap holds after every history: shortcuts, triggers, pending trigger
    actions (at most one more per registered trigger than their own cap), schedules, GO
    programs, active GO runs and presses of a frame, and no frame submits more commands
    than its budget. *)
Theorem automation_bounded lim (r : R) control ops self' control' ticks :
  Forall plane_op_ok ops →
  run_plane ops (with_resolver lim r, control) = Some ((self', control'), ticks) →
  Forall2 le (usage self') (caps lim) ∧
  Forall (λ tick, (length (submitted tick) ≤ max_commands_per_tick lim)%nat) ticks.
Proof.
  intros Hops Hrun. apply run_plane_within in Hrun as (Hw&Hl&Ht); [|apply with_resolver_wf| |done].
  - simpl in Hl. unfold within in Hw. simpl in Hw. by rewrite Hl in Hw.
  - unfold within. usages; apply Nat.le_0_l.
Qed.
End theorems.

(** ** Witnesses *)

Definition demo_intent (p : Protocol.CommandPayload.t) : CommandIntent AutomationRequest :=
  Discrete (mk_request p None None).
Definition demo_slider (input : Z) : CommandIntent AutomationRequest :=
  Continuous "preview" (mk_request (Protocol.CommandPayload.SelectPreview input) None None).
Definition demo_trigger : Trigger AutomationRequest :=
  mk_trigger "start" (mk_filter "go" None []) 10 [] [demo_slider 1; demo_slider 2].
Definition demo_program : ProgrammedGo AutomationRequest :=
  default (mk_programmed [] 0)
    match programmed_new [GoIntent (demo_intent Protocol.CommandPayload.Cut); Delay 500;
                          GoIntent (demo_intent Protocol.CommandPayload.Cut)] with
    | Ok p => Some p
    | Err _ => None
    end.
(** A schedule and a trigger of the operator and a GO run of the guest. *)
Definition demo_plane_ops : list plane_op :=
  [POSchedule ControlLaws.demo_operator "break" 100 (Every 50) (demo_intent Protocol.CommandPayload.Cut);
   POInsertTrigger ControlLaws.demo_operator demo_trigger;
   POIngest (mk_automation_event "go" None [] 90);
   POProgramGo 4 demo_program;
   POStartGo ControlLaws.demo_guest 4 "press" 95].
Definition Run : Type := (AutomationPlane ArmTimeAuthority * ControlService Auth.Policy) * list AutomationTick.
Definition demo_plane_run : option Run :=
  run_plane demo_plane_ops (with_resolver automation_limits_default [], ControlLaws.demo_control).
Lemma demo_plane_run_Some : is_Some demo_plane_run.
Proof. apply (bool_decide_unpack _). by vm_compute. Defined.
Definition demo_plane : AutomationPlane ArmTimeAuthority := (is_Some_proj demo_plane_run_Some).1.1.
Lemma split_run (o : option Run) (H : is_Some o) :
  o = Some (((is_Some_proj H).1.1, (is_Some_proj H).1.2), (is_Some_proj H).2).
Proof. by destruct o as [[[self control] ticks]|]; [|by destruct H]. Qed.
Lemma demo_plane_ops_ok : Forall plane_op_ok demo_plane_ops.
Proof.
  assert (Hp : program_ok demo_program).
  { unfold demo_program. destruct (programmed_new _) as [p|e] eqn:Hp; [|by vm_compute in Hp].
    eapply programmed_new_ok; [|exact Hp]. by repeat constructor. }
  repeat (apply Forall_cons; split; [try exact I; try exact Hp|]); [|by apply Forall_nil].
  split; [done|]. intros i [= <-]. done.
Qed.
Lemma demo_plane_reached : plane_reached (A := Auth.Policy) demo_plane.
Proof.
  eexists automation_limits_default, [], ControlLaws.demo_control, demo_plane_ops, _, _.
  split; [apply demo_plane_ops_ok|]. exact (split_run demo_plane_run demo_plane_run_Some).
Qed.
(** The frame at 120 of a plane. *)
Definition demo_frame (self : AutomationPlane ArmTimeAuthority) :=
  automation_tick 120 [] (self, ControlLaws.demo_control).
Lemma split_frame self tick :
  (demo_frame self).2 = Ret tick →
  automation_tick 120 [] (self, ControlLaws.demo_control) =
    (((demo_frame self).1.1, (demo_frame self).1.2), Ret tick).
Proof. unfold demo_frame. destruct (automation_tick _ _ _) as [[? ?] ?]. simpl. by intros ->. Qed.
Definition demo_tick : AutomationTick :=
  match (demo_frame demo_plane).2 with Ret tick => tick | _ => mk_automation_tick [] [] [] None end.
Lemma demo_tick_ret : (demo_frame demo_plane).2 = Ret demo_tick.
Proof. vm_compute. reflexivity. Qed.
Lemma automation_accounts_witness :
  (submission_source <$> submitted demo_tick) =
    [AutomationSource.Schedule "break"; AutomationSource.Go 1 0; AutomationSource.Trigger "start"] ∧
  (refusal_reason <$> refusals demo_tick) = [AutomationRefusalReason.Coalesced] ∧
  ∃ l, length l = 4%nat ∧ submitted demo_tick = submissions l ∧ refusals demo_tick = refusals_of l ∧
    l.*1 ≡ₚ due_commands 120 [] demo_plane.
Proof.
  split; [vm_compute; reflexivity|]. split; [vm_compute; reflexivity|].
  assert (Hn : in_ty U64 120) by int_lia.
  destruct (automation_accounts 120 [] demo_plane ControlLaws.demo_control _ _ demo_tick
    demo_plane_reached Hn (split_frame _ _ demo_tick_ret)) as (l&_&Hs&Hr&[Hp|[Hno _]]).
  2: { exfalso. apply Hno. apply (bool_decide_unpack _). vm_compute. exact I. }
  exists l. split_and!; [|exact Hs|exact Hr|exact Hp].
  apply Permutation_length in Hp. rewrite length_fmap in Hp. rewrite Hp. vm_compute. reflexivity.
Defined.

(** The operator is revoked; the frame at 120 runs what the guest armed, and nothing
    else. *)
Definition demo_revoked : AutomationPlane ArmTimeAuthority :=
  (revoke_identity (identity_of ControlLaws.demo_operator) demo_plane).1.
Definition demo_revoked_tick : AutomationTick :=
  match (demo_frame demo_revoked).2 with Ret tick => tick | _ => mk_automation_tick [] [] [] None end.
Lemma demo_revoked_ret : (demo_frame demo_revoked).2 = Ret demo_revoked_tick.
Proof. vm_compute. reflexivity. Qed.
Lemma revoked_is_silent_witness :
  (submission_source <$> submitted demo_revoked_tick) = [AutomationSource.Go 1 0] ∧
  ∃ l, submitted demo_revoked_tick = submissions l ∧
    Forall (λ p, identity (planned_command p) ≠ mk_identity "alice" "s1") l.*1.
Proof.
  split; [vm_compute; reflexivity|].
  assert (Hn : in_ty U64 120) by int_lia.
  destruct (revoked_is_silent (identity_of ControlLaws.demo_operator) demo_plane ControlLaws.demo_control
    [] demo_revoked ControlLaws.demo_control [] 120 [] _ _ demo_revoked_tick demo_plane_reached
    (Forall_nil_2 _) (Forall_nil_2 _) eq_refl Hn (split_frame _ _ demo_revoked_ret)) as [_ (l&_&Hs&_&Hl)].
  exact (ex_intro _ l (conj Hs Hl)).
Defined.

Definition demo_history : list plane_op :=
  demo_plane_ops ++ [POTick 120 []; POCancelSchedule "break"; PORevoke (mk_identity "bob" "s2"); POTick 700 []].
Definition demo_history_run : option Run :=
  run_plane demo_history (with_resolver automation_limits_default [], ControlLaws.demo_control).
Lemma demo_history_run_Some : is_Some demo_history_run.
Proof. apply (bool_decide_unpack _). by vm_compute. Defined.
Definition demo_ticks : list AutomationTick := (is_Some_proj demo_history_run_Some).2.
Lemma demo_history_ok : Forall plane_op_ok demo_history.
Proof.
  apply Forall_app. split; [apply demo_plane_ops_ok|].
  repeat (apply Forall_cons; split; [first [exact I | simpl; int_lia]|]). by apply Forall_nil.
Qed.
Lemma arming_remembered_witness : length demo_ticks = 2%nat ∧ Forall remembers demo_ticks.
Proof.
  split; [vm_compute; reflexivity|].
  exact (arming_remembered automation_limits_default demo_history ControlLaws.demo_control _ _ _
    demo_history_ok (split_run demo_history_run demo_history_run_Some)).
Defined.
Lemma automation_bounded_witness :
  (length ∘ submitted <$> demo_ticks) = [3%nat; 0%nat] ∧
  Forall (λ tick, (length (submitted tick) ≤ 32)%nat) demo_ticks.
Proof.
  split; [vm_compute; reflexivity|].
  exact (proj2 (automation_bounded automation_limits_default [] ControlLaws.demo_control demo_history _ _ _
    demo_history_ok (split_run demo_history_run demo_history_run_Some))).
Defined.
