(* ===== verification/ReplicaValid.v ===== *)
(** What the server sends passes the validation of a client: the state that
    [view_of] derives from an engine is accepted by [validate_snapshot_inputs], and
    so are the parts of it that durable events carry. *)
From S2P Require Import Prelude Text BTree Types EngineShow ControlWire UiModel ControlView.
From S2P Require Command FadeToBlack Overlay SwitcherTypes Switcher Settle.
From S2P Require Engine EngineSim EngineRun EngineCalm EngineEffect Protocol ControlWire.
Import Protocol.
#[local] Open Scope Z_scope.

(** ** The loops *)

Lemma require_Ok {E} (P : Prop) `{Decision P} (e : E) : P → require P e = Ok tt.
Proof. intros. unfold require. by rewrite decide_True. Qed.
Lemma check_all_Ok {E B} (f : B → result E unit) l :
  (∀ x, x ∈ l → f x = Ok tt) → check_all f l = Ok tt.
Proof.
  induction l as [|x l IH]; intros Hl; [done|]. simpl. rewrite Hl by by left. simpl.
  apply IH. intros. apply Hl. by right.
Qed.
Lemma check_names_Ok names l :
  Forall (λ n, str_blank n = false ∧ (str_len n ≤ MAX_INPUT_NAME_BYTES)%nat) l →
  NoDup l → (∀ n, n ∈ l → n ∉ names) → check_names names l = Ok tt.
Proof.
  revert names. induction l as [|n l IH]; intros names; [done|].
  intros [[Hb Hl] Hf]%Forall_cons [Hn Hd]%NoDup_cons Hnew. simpl. rewrite require_Ok; simpl.
  - apply IH; [done..|]. intros m Hm. rewrite elem_of_union, elem_of_singleton.
    intros [->|Hin]; [done|]. by apply (Hnew m); [right|].
  - split; [|apply Hnew; by left]. unfold valid_input_name. rewrite Hb. by apply bool_decide_eq_true_2.
Qed.
Lemma client_inputs_Ok seen l :
  NoDup l → (∀ i, i ∈ l → i ∉ seen) → check_inputs seen l = Ok tt.
Proof.
  revert seen. induction l as [|i l IH]; intros seen; [done|].
  intros [Hi Hd]%NoDup_cons Hnew. simpl. rewrite require_Ok by (apply Hnew; by left). simpl.
  apply IH; [done|]. intros m Hm. rewrite elem_of_union, elem_of_singleton.
  intros [->|Hin]; [done|]. by apply (Hnew m); [right|].
Qed.
Lemma client_outputs_Ok names seen l :
  Forall (λ o, str_blank (status_output_name o) = false) l →
  NoDup ((λ o, to_ascii_lowercase (status_output_name o)) <$> l) → NoDup (status_output <$> l) →
  (∀ o, o ∈ l → (to_ascii_lowercase (status_output_name o) ∉ names) ∧ status_output o ∉ seen) →
  check_outputs names seen l = Ok tt.
Proof.
  revert names seen. induction l as [|o l IH]; intros names seen; [done|].
  rewrite !fmap_cons. intros [Hb Hf]%Forall_cons [Hn Hdn]%NoDup_cons [Ho Hdo]%NoDup_cons Hnew.
  destruct (Hnew o ltac:(by left)) as [Hn1 Ho1]. simpl. unfold valid_output_name. rewrite Hb.
  rewrite require_Ok by done. simpl. rewrite require_Ok by done. simpl. apply IH; [done..|].
  intros p Hp. destruct (Hnew p ltac:(by right)) as [Hn2 Ho2]. split.
  - rewrite elem_of_union, elem_of_singleton. intros [Heq|?]; [|done]. apply Hn.
    rewrite <-Heq. by apply (list_elem_of_fmap_2 (λ o, to_ascii_lowercase (status_output_name o))).
  - rewrite elem_of_union, elem_of_singleton. intros [Heq|?]; [|done]. apply Ho. rewrite <-Heq.
    by apply list_elem_of_fmap_2.
Qed.
Lemma validate_stingers_Ok slots inputs l :
  (∀ s, s ∈ l → 1 ≤ slot s ≤ 8 ∧ media_input s ∈ inputs ∧ slot s ∉ slots) →
  NoDup (slot <$> l) → validate_stingers slots inputs l = Ok tt.
Proof.
  revert slots. induction l as [|s l IH]; intros slots Hl; [done|].
  rewrite fmap_cons. intros [Hs Hd]%NoDup_cons. destruct (Hl s ltac:(by left)) as (H1&H2&H3). simpl.
  rewrite !require_Ok by done. simpl. apply IH; [|done]. intros p Hp.
  destruct (Hl p ltac:(by right)) as (?&?&?). split_and!; [lia..|done|].
  rewrite elem_of_union, elem_of_singleton. intros [Heq|?]; [|done]. apply Hs. rewrite <-Heq.
  by apply list_elem_of_fmap_2.
Qed.
Lemma client_streams_Ok targets l :
  (∀ s, s ∈ l → str_blank (stream_name s) = false ∧
    (str_len (stream_name s) ≤ MAX_STREAM_NAME_BYTES)%nat ∧ stream_target s ∉ targets) →
  NoDup (stream_target <$> l) → UiModel.check_streams targets l = Ok tt.
Proof.
  revert targets. induction l as [|s l IH]; intros targets Hl; [done|].
  rewrite fmap_cons. intros [Hs Hd]%NoDup_cons. destruct (Hl s ltac:(by left)) as (H1&H2&H3).
  cbn [UiModel.check_streams]. unfold require.
  rewrite !decide_True by first [done | rewrite H1; intros [?|?]; [done|lia]]. cbn [mbind result_bind]. apply IH; [|done].
  intros p Hp. destruct (Hl p ltac:(by right)) as (?&?&?). split_and!; [done..|].
  rewrite elem_of_union, elem_of_singleton. intros [Heq|?]; [|done]. apply Hs. rewrite <-Heq.
  by apply list_elem_of_fmap_2.
Qed.
Lemma check_strips_Ok seen inputs l :
  (∀ s, s ∈ l → strip_in_range s ∧ strip_input s ∈ inputs ∧ strip_input s ∉ seen) →
  NoDup (strip_input <$> l) → check_strips seen inputs l = Ok tt.
Proof.
  revert seen. induction l as [|s l IH]; intros seen Hl; [done|].
  rewrite fmap_cons. intros [Hs Hd]%NoDup_cons. destruct (Hl s ltac:(by left)) as (H1&H2&H3). simpl.
  rewrite require_Ok by done. simpl. apply IH; [|done].
  intros p Hp. destruct (Hl p ltac:(by right)) as (?&?&?). split_and!; [done..|].
  rewrite elem_of_union, elem_of_singleton. intros [Heq|?]; [|done]. apply Hs. rewrite <-Heq.
  by apply list_elem_of_fmap_2.
Qed.
Lemma check_overlays_Ok channels inputs outputs l :
  (∀ o, o ∈ l → (1 ≤ channel o ≤ 8) ∧ (channel o ∉ channels) ∧
    validate_overlay inputs outputs o = Ok tt) →
  NoDup (channel <$> l) → check_overlays channels inputs outputs l = Ok tt.
Proof.
  revert channels. induction l as [|o l IH]; intros channels Hl; [done|].
  rewrite fmap_cons. intros [Ho Hd]%NoDup_cons. destruct (Hl o ltac:(by left)) as (H1&H2&H3). simpl.
  rewrite require_Ok by done. simpl. rewrite H3. simpl. apply IH; [|done].
  intros p Hp. destruct (Hl p ltac:(by right)) as (?&?&?). split_and!; [lia..| |done].
  rewrite elem_of_union, elem_of_singleton. intros [Heq|?]; [|done]. apply Ho. rewrite <-Heq.
  by apply list_elem_of_fmap_2.
Qed.

(** ** What the server derives *)

(** Keys of a filtered, indexed list are still distinct. *)
Lemma omap_keys {A B} (f : A → option B) (k : B → Z) (h : A → Z) l :
  (∀ x y, f x = Some y → k y = h x) → k <$> omap f l `sublist_of` h <$> l.
Proof.
  intros Hk. induction l as [|x l IH]; [done|]. cbn.
  destruct (f x) as [y|] eqn:Hf; cbn.
  - rewrite (Hk x y Hf). by apply sublist_skip.
  - by apply sublist_cons.
Qed.
Lemma index_NoDup {A} (l : list A) :
  NoDup ((λ p : nat * A, Z.of_nat p.1 + 1) <$> imap pair l).
Proof.
  rewrite fmap_imap. cbn.
  assert (Heq : imap (λ i (_ : A), Z.of_nat i + 1) l = (λ i, Z.of_nat i + 1) <$> seq 0 (length l)).
  { apply list_eq. intros i. rewrite list_lookup_imap, list_lookup_fmap.
    destruct (l !! i) eqn:Hi; simpl.
    - rewrite lookup_seq_lt; [done|]. by eapply lookup_lt_Some.
    - rewrite lookup_seq_ge; [done|]. by apply lookup_ge_None. }
  change (NoDup (imap (λ i (_ : A), Z.of_nat i + 1) l)). rewrite Heq.
  apply NoDup_fmap_2; [|apply NoDup_seq]. intros i j. lia.
Qed.
Lemma stinger_list_valid g (inputs : list InputId) l :
  length l = 8%nat → Forall (Switcher.slot_wf inputs) l →
  validate_stingers ∅ (list_to_set inputs) (stinger_list g l) = Ok tt.
Proof.
  intros Hlen Hl. apply validate_stingers_Ok.
  - intros s. unfold stinger_list. rewrite list_elem_of_omap.
    intros ([i o]&Hin%elem_of_imap_pair&Hs). simpl in Hs.
    destruct (SwitcherTypes.descriptor o) as [d|] eqn:Hd; [|done]. injection Hs as <-.
    pose proof (lookup_lt_Some _ _ _ Hin). pose proof (Forall_lookup_1 _ _ _ _ Hl Hin) as Ho.
    unfold Switcher.slot_wf in Ho. rewrite Hd in Ho. simpl.
    split_and!; [lia..|by apply elem_of_list_to_set|set_solver].
  - eapply sublist_NoDup; [|apply (omap_keys _ _ (λ p, Z.of_nat p.1 + 1))]; [apply index_NoDup|].
    intros [i o] y. simpl. destruct (SwitcherTypes.descriptor o); [|done]. by intros [= <-].
Qed.
Lemma stream_list_valid d :
  SwitcherTypes.streams_wf (Switcher.streams d) → validate_streams (stream_list d) = Ok tt.
Proof.
  intros [Hc Hi Hn]. unfold validate_streams, stream_list. rewrite require_Ok.
  2: { rewrite length_fmap. unfold MAX_STREAM_STATUSES, SwitcherTypes.MAX_STREAM_COUNT in *. lia. }
  simpl. apply client_streams_Ok.
  - intros s (x&->&Hx)%list_elem_of_fmap. simpl. rewrite Forall_forall in Hn.
    destruct (Hn x Hx) as [Hb Hl]. split_and!; [exact Hb|exact Hl|set_solver].
  - rewrite <-list_fmap_compose. exact Hi.
Qed.
Lemma size_NoDup {A} `{Countable A} (l : list A) : NoDup l → size (list_to_set l : gset A) = length l.
Proof. apply size_list_to_set. Qed.
Lemma strip_list_valid s (inputs : list InputId) :
  show_wf s → list_to_set inputs =@{gset InputId} list_to_set (show_inputs s) →
  validate_input_audio_strips (strip_list s) (list_to_set inputs) = Ok tt.
Proof.
  intros Hwf Hin. unfold validate_input_audio_strips. rewrite Hin.
  pose proof (bt_sorted_NoDup _ (sh_strips_sorted _ Hwf)) as Hnd.
  assert (Hkeys : strip_input <$> strip_list s = bt_keys (EngineShow.input_audio_strips s)).
  { unfold strip_list, bt_keys. by rewrite <-list_fmap_compose. }
  assert (Helem : ∀ i, i ∈ bt_keys (EngineShow.input_audio_strips s) ↔ i ∈ show_inputs s).
  { intros i. rewrite <-bt_get_is_Some. apply (EngineShow.sh_strips _ Hwf). }
  rewrite require_Ok.
  2: { rewrite size_NoDup by apply (sh_distinct _ Hwf).
    rewrite <-(length_fmap strip_input), Hkeys. apply Permutation_length, NoDup_Permutation;
      [done|apply (sh_distinct _ Hwf)|exact Helem]. }
  simpl. apply check_strips_Ok; [|by rewrite Hkeys].
  intros st ([i x]&->&Hx)%list_elem_of_fmap. simpl.
  apply (bt_elem_get _ _ _ (sh_strips_sorted _ Hwf)) in Hx.
  destruct (sh_strip _ Hwf i x Hx) as (?&?&?). split_and!.
  - unfold strip_in_range. simpl. lia.
  - apply elem_of_list_to_set, (EngineShow.sh_strips _ Hwf). by rewrite Hx.
  - set_solver.
Qed.
Lemma overlay_status_valid inputs (outputs : list OutputId) i o :
  Overlay.overlay_wf inputs o → Overlay.included_outputs o ⊆ outputs →
  validate_overlay (list_to_set inputs) (list_to_set outputs) (overlay_status i o) = Ok tt.
Proof.
  intros [Hs _ Hd Hq Hqd Ho] Hout. unfold validate_overlay. simpl.
  unfold Overlay.MAX_OVERLAY_TRANSITION_DURATION_FRAMES, Overlay.MAX_OVERLAY_QUEUE_DEPTH in *.
  assert (H1 : require (¬ (Overlay.active o = true ∧ Overlay.source o = None))
    (ActiveOverlayMissingSource (Z.of_nat i + 1)) = Ok tt).
  { apply require_Ok. intros [Ha Hn]. rewrite Hn in Hs. congruence. }
  rewrite H1. simpl.
  assert (H2 : ∀ e : ModelError, require (1 ≤ Overlay.duration_frames o ≤ 3600) e = Ok tt)
    by (intros; by apply require_Ok).
  rewrite H2. simpl.
  assert (H3 : (match Overlay.source o with
    | Some source => require (source ∈ (list_to_set inputs : gset InputId)) (UnknownInput source)
    | None => Ok tt end) = Ok tt).
  { destruct (Overlay.source o); [|done]. apply require_Ok. by apply elem_of_list_to_set. }
  rewrite H3. simpl.
  assert (H4 : ∀ e : ModelError, require (¬ (64 < length (Overlay.queue o))%nat) e = Ok tt)
    by (intros; apply require_Ok; lia).
  rewrite H4. simpl.
  rewrite check_all_Ok.
  2: { intros x Hx. apply require_Ok, elem_of_list_to_set. rewrite Forall_forall in Hqd. by apply Hqd. }
  simpl.
  assert (H5 : list_find (λ output, output ∉ (list_to_set outputs : gset OutputId))
    (Overlay.included_outputs o) = None).
  { apply list_find_None, Forall_forall. intros x Hx Hn. apply Hn, elem_of_list_to_set. by apply Hout. }
  rewrite H5. simpl. apply require_Ok. by apply size_NoDup.
Qed.
Lemma overlay_list_valid inputs (outputs : list OutputId) l :
  length l = 8%nat → Forall (Overlay.overlay_wf inputs) l →
  Forall (λ o, Overlay.included_outputs o ⊆ outputs) l →
  validate_overlays (imap overlay_status l) (list_to_set inputs) (list_to_set outputs) = Ok tt.
Proof.
  intros Hlen Hl Ho. unfold validate_overlays. rewrite require_Ok by by rewrite length_imap.
  simpl. apply check_overlays_Ok.
  - intros s (i&o&->&Hi)%elem_of_lookup_imap_1. pose proof (lookup_lt_Some _ _ _ Hi).
    split_and!; [simpl; lia..|set_solver|].
    apply overlay_status_valid; [by eapply (Forall_lookup_1 _ _ _ _ Hl)|].
    by eapply (Forall_lookup_1 _ _ _ _ Ho).
  - rewrite fmap_imap. pose proof (index_NoDup l) as Hi. rewrite fmap_imap in Hi. exact Hi.
Qed.
Lemma manual_status_valid d :
  Switcher.switcher_wf d →
  validate_manual_transition (manual_status d)
    (mk_selection (Switcher.program d) (Switcher.preview d)) (list_to_set (Switcher.inputs d)) = Ok tt.
Proof.
  intros [Hp Hv Hr _ _ _ _ _ _ _]. unfold manual_status.
  destruct (Switcher.t_bar d) as [t|]; [|done]. destruct (Switcher.transition d); [done|].
  destruct Hr as (Hf&Ht&_). simpl. rewrite Hf, Ht.
  rewrite !require_Ok by first [by apply elem_of_list_to_set|done]. done.
Qed.

(** ** The realized inputs

    The realized switcher has the inputs of the show, though perhaps in another
    order: a reordering reaches it at the next frame. *)

Lemma run_inputs l r r' :
  EngineRun.runtime_run l r = Some r' → Switcher.inputs r' ≡ₚ Switcher.inputs r.
Proof.
  revert r. induction l as [|c l IH]; intros r; simpl; [by intros [= ->]|].
  pose proof (EngineCalm.runtime_inputs c r) as Hr. unfold wp, EngineCalm.inputs_permuted in Hr.
  destruct (Engine.apply_runtime c r) as [r1 [x|e|]]; [|done..].
  intros Hrun. by rewrite (IH _ Hrun).
Qed.
Lemma realized_inputs e :
  EngineRun.engine_wf e → Switcher.inputs (Engine.realized_switcher e) ≡ₚ show_inputs (Engine.show e).
Proof.
  intros Hwf. destruct (EngineRun.ew_agree _ Hwf) as [r' Ha].
  rewrite (EngineShow.sh_inputs _ (EngineRun.ew_show _ Hwf)), (EngineRun.ag_settled _ _ Ha). simpl.
  by rewrite (run_inputs _ _ _ (EngineRun.ag_run _ _ Ha)).
Qed.

(** ** The snapshot *)

Lemma size_length {A} `{Countable A} (l : list A) : NoDup l → size (list_to_set l : gset A) = length l.
Proof. apply size_list_to_set. Qed.
Lemma client_names_valid s :
  show_wf s → check_names ∅ (input_names s) = Ok tt.
Proof. intros Hwf. apply check_names_Ok; [apply Hwf..|set_solver]. Qed.
Lemma client_inputs_valid s : show_wf s → check_inputs ∅ (show_inputs s) = Ok tt.
Proof. intros Hwf. apply client_inputs_Ok; [apply Hwf|set_solver]. Qed.
Definition output_list (s : ShowState) : list OutputStatus :=
  (λ p, mk_output_status p.1 p.2) <$> EngineShow.outputs s.
Lemma output_list_keys s : status_output <$> output_list s = (EngineShow.outputs s).*1.
Proof. unfold output_list. by rewrite <-list_fmap_compose. Qed.
Lemma output_list_valid s : show_wf s → check_outputs ∅ ∅ (output_list s) = Ok tt.
Proof.
  intros Hwf. apply client_outputs_Ok.
  - pose proof (sh_output_valid _ Hwf) as Hv. unfold output_list. rewrite Forall_fmap.
    rewrite Forall_fmap in Hv. exact Hv.
  - pose proof (sh_output_names _ Hwf) as Hn. unfold output_list. rewrite <-list_fmap_compose.
    rewrite <-list_fmap_compose in Hn. exact Hn.
  - rewrite output_list_keys. apply Hwf.
  - set_solver.
Qed.

(** The routing of a switcher, in the parts that a validation reads. *)
Lemma routing_valid d (inputs : gset InputId) :
  Switcher.switcher_wf d → list_to_set (Switcher.inputs d) = inputs →
  Switcher.program d ∈ inputs ∧ Switcher.preview d ∈ inputs ∧
  validate_manual_transition (manual_status d)
    (mk_selection (Switcher.program d) (Switcher.preview d)) inputs = Ok tt.
Proof.
  intros Hwf <-. rewrite !elem_of_list_to_set. split_and!; [apply Hwf..|by apply manual_status_valid].
Qed.
Lemma overlays_valid d (inputs : gset InputId) X :
  Switcher.switcher_wf d → list_to_set (Switcher.inputs d) = inputs → EngineEffect.includes X d →
  validate_overlays (imap overlay_status (Switcher.overlays d)) inputs (list_to_set X) = Ok tt.
Proof.
  intros Hwf <- Hx. apply overlay_list_valid; [apply Hwf..|done].
Qed.
Lemma stingers_valid d (inputs : gset InputId) g :
  Switcher.switcher_wf d → list_to_set (Switcher.inputs d) = inputs →
  validate_stingers ∅ inputs (stinger_list g (Switcher.stingers d)) = Ok tt.
Proof.
  intros Hwf <-. apply stinger_list_valid; apply Hwf.
Qed.
Lemma show_inputs_set s :
  show_wf s →
  list_to_set (Switcher.inputs (desired_switcher s)) =@{gset InputId} list_to_set (show_inputs s).
Proof. intros Hwf. by rewrite (EngineShow.sh_inputs _ Hwf). Qed.
Lemma realized_inputs_set e :
  EngineRun.engine_wf e →
  list_to_set (Switcher.inputs (Engine.realized_switcher e)) =@{gset InputId}
  list_to_set (show_inputs (Engine.show e)).
Proof.
  intros Hwf. apply set_eq. intros i. rewrite !elem_of_list_to_set. by rewrite (realized_inputs _ Hwf).
Qed.

Lemma bind_Ok {E A} (r : result E unit) (k : unit → result E A) :
  r = Ok tt → r ≫= k = k tt.
Proof. by intros ->. Qed.

(** A client accepts every snapshot of a well-formed engine. *)
Lemma snapshot_valid e identity r project :
  EngineRun.engine_wf e → EngineEffect.engine_outputs e →
  snapshot_record e identity = Some r →
  validate_snapshot_inputs (snap_state (snapshot_from_protocol project (record_snapshot r))) = Ok tt.
Proof.
  intros Hwf [Hk Hkr] Hr. rewrite snapshot_total in Hr by done. injection Hr as <-.
  pose proof (EngineRun.ew_show _ Hwf) as Hs. pose proof (sh_switcher _ Hs) as Hd.
  pose proof (EngineRun.ew_realized _ Hwf) as Hr.
  destruct (routing_valid _ _ Hd (show_inputs_set _ Hs)) as (Hp&Hv&Hm).
  destruct (routing_valid _ _ Hr (realized_inputs_set _ Hwf)) as (Hrp&Hrv&Hrm).
  unfold validate_snapshot_inputs. cbn -[validate_overlays validate_stingers validate_streams].
  destruct (zip_inputs (show_inputs (Engine.show e)) (input_names (Engine.show e)) (sh_length _ Hs))
    as [-> ->].
  change ((λ p, mk_output_status p.1 p.2) <$> EngineShow.outputs (Engine.show e))
    with (output_list (Engine.show e)).
  rewrite !output_list_keys.
  rewrite bind_Ok by (apply require_Ok, Hs).
  rewrite bind_Ok by by apply client_names_valid.
  rewrite bind_Ok by by apply client_inputs_valid.
  rewrite bind_Ok by by apply output_list_valid.
  rewrite !(bind_Ok (require _ _)) by by apply require_Ok. cbn -[validate_overlays validate_stingers validate_streams].
  rewrite bind_Ok by (apply stingers_valid; [done|by apply show_inputs_set]).
  rewrite bind_Ok by (apply stream_list_valid, Hd).
  rewrite bind_Ok by by apply (strip_list_valid _ (show_inputs (Engine.show e))).
  rewrite bind_Ok by (apply overlays_valid; [done|by apply show_inputs_set|done]).
  rewrite bind_Ok by (apply overlays_valid; [done|by apply realized_inputs_set|done]).
  by rewrite bind_Ok by exact Hm.
Qed.
