(* ===== verification/Replica.v ===== *)
(** The replica of a client refines the show of the engine: the state of a
    [ClientModel] that installed a snapshot of the control service and applied the
    durable events since is, as far as clients share it ([Shared]), the show as the
    engine has it, whatever the service did in between.

    [shown] is the history of the show that a list of durable events tells; every
    history of the service has one ([served_shown]), and a model that replicates its
    start replicates, event by event, its end ([replicates_all]). *)
From S2P Require Import Prelude BTree Types EngineShow ControlWire Control UiModel.
From S2P Require Import ControlView ControlRun ControlSafety ReplicaValid.
From S2P Require Command Switcher SwitcherTypes Engine EngineSim EngineRun EngineSafety.
From S2P Require EngineEffect Protocol.
#[local] Open Scope Z_scope.

(** ** The state of a replica *)

Definition replica_of (st : ProjectState) : Shared :=
  mk_shared (project_show_name st) (project_inputs st) (project_input_names st)
    (project_outputs st) (project_strips st) (unready <$> project_stingers st)
    (project_streams st) (project_record st) (sel_program (desired (switcher st)))
    (sel_preview (desired (switcher st))) (desired_manual (switcher st))
    (desired_fade (switcher st)) (project_overlays st).
Lemma snapshot_replica project m :
  replica_of (snap_state (snapshot_from_protocol project m)) = shared_of m.
Proof. done. Qed.

Definition change_of (p : Protocol.EventPayload.t) : DurableChange.t :=
  change (event_from_protocol 0 (Protocol.mk_event_message
    (Protocol.mk_cursor (Protocol.mk_identity "" 0 "") 0) p)).

(** Applying a change to a replica is applying the event to what it shares. *)
Lemma apply_change_shared p st sh' :
  length (project_input_names st) = length (project_inputs st) →
  shared_apply p (replica_of st) = Some sh' →
  ∃ st', apply_change (change_of p) st = Some st' ∧ replica_of st' = sh'.
Proof.
  intros Hlen. destruct p; simpl; try (intros [= <-]; by eexists).
  - change (mapM (shared_name _) inputs) with (mapM (project_input_name st) inputs).
    destruct (mapM _ _) as [names|]; [|done]. intros [= <-]. by eexists.
  - destruct (position_of input (project_inputs st)) as [k|] eqn:Hk; [|done]. intros [= <-].
    apply EngineShow.position_of_Some in Hk as [Hk _]. apply lookup_lt_Some in Hk.
    destruct (lookup_lt_is_Some_2 (project_input_names st) k) as [n Hn]; [lia|]. cbn. rewrite Hn. by eexists.
Qed.

(** The events of the engine pass the validation of a replica. *)
Lemma switcher_change_valid st s stingers :
  show_wf s → EngineEffect.outputs_known s →
  project_inputs st = show_inputs s → project_outputs st = output_list s →
  (∀ l, stingers = Some l → l = desired_stinger_list (desired_switcher s)) →
  let d := desired_switcher s in
  validate_switcher_change (mk_selection (Switcher.program d) (Switcher.preview d))
    (manual_status d) stingers (imap overlay_status (Switcher.overlays d)) (strip_list s) st = Ok tt.
Proof.
  intros Hwf Hk Hi Ho Hl d. pose proof (sh_switcher _ Hwf) as Hd.
  destruct (routing_valid _ _ Hd (show_inputs_set _ Hwf)) as (Hp&Hv&Hm).
  unfold validate_switcher_change. rewrite Hi, Ho, output_list_keys.
  rewrite (bind_Ok (check_all _ _)).
  2: { cbn [check_all sel_program sel_preview].
       apply elem_of_list_to_set in Hp, Hv.
       rewrite bind_Ok by by apply require_Ok.
       rewrite bind_Ok; [done|]. by apply require_Ok. }
  rewrite bind_Ok by exact Hm.
  rewrite bind_Ok.
  2: { destruct stingers as [l|]; [|done]. rewrite (Hl l eq_refl).
       apply stingers_valid; [done|by apply show_inputs_set]. }
  rewrite bind_Ok by (apply overlays_valid; [done|by apply show_inputs_set|done]).
  by apply (strip_list_valid s (show_inputs s)).
Qed.

(** What a replica of [s] tells of [s]. *)
Lemma replica_roster st s :
  replica_of st = show_shared s →
  project_inputs st = show_inputs s ∧ project_input_names st = input_names s ∧
  project_outputs st = output_list s.
Proof. by intros [=]. Qed.
Lemma valid_name name : validate_input_name name = Ok tt → valid_input_name name = true.
Proof.
  unfold validate_input_name, valid_input_name. destruct (str_blank name); [done|]. simpl. case_decide as Hl; [done|]. intros _. apply bool_decide_eq_true_2. lia.
Qed.
Lemma event_valid c s s' evs st :
  EngineEffect.effect c s s' evs → show_wf s → show_wf s' → EngineEffect.outputs_known s' →
  replica_of st = show_shared s →
  validate_change (change_of (event_for c s s')) st = Ok tt.
Proof.
  intros He Hs Hs' Hk Hr. destruct (replica_roster _ _ Hr) as (Hi&Hn&Ho).
  assert (Hsw : EngineEffect.same_roster s s' → ∀ stingers,
    (∀ l, stingers = Some l → l = desired_stinger_list (desired_switcher s')) →
    let d := desired_switcher s' in
    validate_switcher_change (mk_selection (Switcher.program d) (Switcher.preview d))
      (manual_status d) stingers (imap overlay_status (Switcher.overlays d)) (strip_list s') st = Ok tt).
  { intros [_ Hi' _ Ho'] stingers Hl. apply switcher_change_valid; try done; [by rewrite Hi, Hi'|].
    unfold output_list. by rewrite Ho, Ho'. }
  assert (Hdes : EngineEffect.same_roster s s' → let d := desired_switcher s' in
    validate_change (change_of (Protocol.EventPayload.DesiredSwitcher (Switcher.program d)
      (Switcher.preview d) (manual_status d) (fade_status d)
      (imap overlay_status (Switcher.overlays d)) (strip_list s'))) st = Ok tt).
  { intros Hro. by apply Hsw. }
  destruct c; simpl in He; read_effect; try (by apply Hdes);
    try match goal with H : s' = _ |- _ => symmetry in H end.
  - simpl. apply require_Ok. rewrite Hi.
    match goal with H : validate_input_order _ _ = _ |- _ =>
      apply validate_input_order_Ok in H as (_&Hnd&Hp) end.
    intros [Hx|[Hx|Hx]].
    + by apply Hx, Permutation_length.
    + by apply Hx, size_list_to_set.
    + apply Hx, set_eq. intros i. rewrite !elem_of_list_to_set. by rewrite Hp.
  - simpl. rewrite Hi, Hn. match goal with H : position_of _ _ = _ |- _ => rewrite H end. simpl.
    apply require_Ok. match goal with H : validate_input_name _ = _ |- _ => apply valid_name in H end.
    intros [?|?]; congruence.
  - apply Hsw; [done|]. by intros l [= <-].
  - apply Hsw; [done|]. by intros l [= <-].
  - apply stream_list_valid, Hs'.
  - apply stream_list_valid, Hs'.
  - unfold event_for. match goal with H : evs = _ |- _ => clear H end. case_decide; [reflexivity|]. apply Hdes. subst s'. by split.
  - unfold event_for. match goal with H : evs = _ |- _ => clear H end. case_decide; [reflexivity|]. apply Hdes. subst s'. by split.
Qed.

(** ** The history that durable events tell *)

Inductive shown (identity : Protocol.EngineIdentity) :
    Z → ShowState → list Protocol.EventMessage → Z → ShowState → Prop :=
  | shown_nil rev s : shown identity rev s [] rev s
  | shown_cons rev s c s' evs l rev2 s2 :
      in_ty U64 (rev + 1) → EngineEffect.effect c s s' evs → show_wf s → show_wf s' →
      EngineEffect.outputs_known s' →
      shown identity (rev + 1) s' l rev2 s2 →
      shown identity rev s
        (Protocol.mk_event_message (Protocol.mk_cursor identity (rev + 1)) (event_for c s s') :: l)
        rev2 s2.
Lemma shown_app identity rev1 s1 l1 rev2 s2 l2 rev3 s3 :
  shown identity rev1 s1 l1 rev2 s2 → shown identity rev2 s2 l2 rev3 s3 →
  shown identity rev1 s1 (l1 ++ l2) rev3 s3.
Proof. induction 1; [done|]. intros. simpl. eapply shown_cons; eauto. Qed.
Lemma shown_revision identity rev s l rev' s' :
  shown identity rev s l rev' s' → rev' = rev + Z.of_nat (length l).
Proof. induction 1; simpl; lia. Qed.

Lemma shown_empty identity rev s rev' s' : shown identity rev s [] rev' s' → rev' = rev ∧ s' = s.
Proof. by inversion 1. Qed.

Section history.
Context {A : Type} `{AuthorizationHook A}.
Abbreviation service := (ControlService A).
Implicit Types self : service.
Abbreviation show_of self := (Engine.show (engine self)).

(** The engine between two moments, as the durable events tell it. *)
Definition tells self (l : list Protocol.EventMessage) self' : Prop :=
  EngineEffect.engine_outputs (engine self') ∧ identity self' = identity self ∧
  shown (identity self) (current_revision self) (show_of self) l (current_revision self')
    (show_of self').
Lemma tells_same self self' :
  EngineEffect.engine_outputs (engine self) → engine self' = engine self →
  identity self' = identity self → tells self [] self'.
Proof.
  intros Ho He Hi. unfold tells, current_revision. rewrite He. split_and!; [done..|]. constructor.
Qed.
Lemma executed_outputs self message c e' o now :
  control_wf self → message_ok self message →
  engine_command (Protocol.payload message) = Some c →
  Engine.execute (envelope_of message c) now (engine self) = (e', Ret o) →
  EngineEffect.engine_outputs (engine self) → EngineEffect.engine_outputs e'.
Proof.
  intros Hwf [Hp Hf] Hc Hx Ho. destruct (engine_command_total _ Hp) as (c'&Hc'&Hcok).
  assert (c' = c) as -> by congruence. destruct (domain_envelope_fields message c) as [_ Hcmd].
  eapply EngineEffect.execute_outputs; [| | |exact Hx|exact Ho]; rewrite ?Hcmd; auto.
  apply EngineSafety.reached_wf, (cw_engine _ Hwf).
Qed.
Lemma submit_tells principal message now self self' r :
  control_wf self → message_ok self message → EngineEffect.engine_outputs (engine self) →
  submit_case principal message now self self' r →
  match r with
  | Ret s => tells self (output_events (output s)) self'
  | _ => True
  end.
Proof.
  intros Hwf Hok Ho Hcase.
  destruct Hcase as [result ?|denial ??|u receipt ???|u c e' o snap ?? Hc Hk Hx Ha Hs
    |u c e' o a snap self' failures ?? Hc Hk Hx Ha Hs Hp|u ??]; try done.
  - by apply tells_same.
  - destruct (remember_fields (Protocol.idempotency_key message)
      (denial_result message denial self) self) as (d&order&->). by apply tells_same.
  - by apply tells_same.
  - destruct (executed_facts self message c e' o now Hwf Hok Hc Hk Hx) as (_&_&Hf).
    rewrite Ha in Hf. destruct Hf as (_&Hrev&Hshow). split_and!; [by eapply executed_outputs|done|].
    unfold current_revision in *. simpl. rewrite Hrev, Hshow. constructor.
  - destruct (executed_facts self message c e' o now Hwf Hok Hc Hk Hx) as (He'&_&Hf).
    rewrite Ha in Hf. destruct Hf as (_&Hrev&Heff).
    pose proof (EngineSafety.reached_wf _ He') as Hwf'.
    pose proof (executed_outputs self message c e' o now Hwf Hok Hc Hx Ho) as Ho'.
    pose proof (publish_core [LiveDurable (durable_event self c e')]
      (accepted_service self c e' snap)) as [Hcore _].
    rewrite Hp in Hcore. apply core_eq in Hcore as (He&_&Hi&_). simpl in He, Hi.
    unfold tells, current_revision in *. rewrite He, Hi. split_and!; [done..|]. simpl.
    unfold durable_event. rewrite Hrev. eapply shown_cons; [|exact Heff| |apply Hwf'|apply Ho'|constructor].
    + rewrite <-Hrev. apply (Command.wf_revision _ (EngineRun.ew_commands _ Hwf')).
    + apply EngineSafety.reached_wf, (cw_engine _ Hwf).
Qed.
Lemma tick_tells (pub : bool) self self' out :
  control_wf self → EngineEffect.engine_outputs (engine self) →
  ticked pub self self' out → tells self [] self'.
Proof.
  intros Hwf Ho [Ht _ Hc Hi _ _ _ _ _ _ _].
  unfold tells, current_revision, Engine.show. rewrite Hc, Hi. split_and!; [|done|constructor].
  eapply EngineEffect.tick_outputs; [|exact Ht|exact Ho].
  apply EngineSafety.reached_wf, (cw_engine _ Hwf).
Qed.
Lemma step_tells op self self' a :
  control_wf self → op_ok self op → EngineEffect.engine_outputs (engine self) →
  control_step op self = (self', Ret a) → tells self (durables a) self'.
Proof.
  intros Hwf Hok Ho Hst.
  assert (Hquiet : match op with
      | OpSubscribe | OpUnsubscribe _ | OpReceive _ | OpDrop _ => True | _ => False end →
    tells self (durables a) self').
  { intros Hop. pose proof (channel_step op self Hwf Hop) as Hs. rewrite Hst in Hs.
    destruct Hs as (_&Hc&->&_). apply core_eq in Hc as (He&_&Hi&_). by apply tells_same. }
  assert (Htick : ∀ (pub : bool) server, op = (if pub then OpTick server else OpShutdownTick server) →
    tells self (durables a) self').
  { intros pub server ->. pose proof (tick_step pub server self Hwf) as Hs. cbv zeta in Hs.
    rewrite Hst in Hs. destruct Hs as (_&_&out&->&Ht). by eapply tick_tells. }
  destruct op as [p m now|server|server| |id|id|id]; try (by apply Hquiet).
  - pose proof (submit_cases p m now self Hwf Hok) as Hcase.
    pose proof (submit_tells p m now self _ _ Hwf Hok Ho Hcase) as Hs. simpl in Hst.
    destruct (submit p m now self) as [s1 [sub|x|]]; try done. by injection Hst as <- <-.
  - by apply (Htick true server).
  - by apply (Htick false server).
Qed.
Lemma served_tells self l self' :
  control_wf self → EngineEffect.engine_outputs (engine self) → served self l self' →
  tells self (all_durables l) self' ∧ control_wf self'.
Proof.
  intros Hwf Ho Hs. induction Hs as [self|self op a self1 l self2 Hok Hst Hs IH].
  { split; [by apply tells_same|done]. }
  destruct (step_tells _ _ _ _ Hwf Hok Ho Hst) as (Ho1&Hi1&Hsh1).
  pose proof (control_step_spec op self Hwf Hok) as Hsp. rewrite Hst in Hsp. destruct Hsp as [Hwf1 _].
  destruct (IH Hwf1 Ho1) as [(Ho2&Hi2&Hsh2) Hwf2]. split; [|done].
  split_and!; [done|by rewrite Hi2|]. unfold all_durables. simpl.
  eapply shown_app; [exact Hsh1|]. by rewrite <-Hi1.
Qed.
End history.

(** ** The replica *)

(** A method that returns, with a result in [Q]. *)
Definition returning {S E A} (Q : A → S → Prop) (r : outcome E A) (s' : S) : Prop :=
  match r with
  | Ret a => Q a s'
  | _ => False
  end.
Lemma wp_returns {S E A} (m : stm S E A) (Q : A → S → Prop) s :
  wp m (returning Q) s → ∃ s' a, m s = (s', Ret a) ∧ Q a s'.
Proof. unfold wp. destruct (m s) as [s' [a|e|]]; [|done..]. intros HQ. by exists s', a. Qed.

Section replica.
Context (project : ProjectId) (identity : Protocol.EngineIdentity).
Context (Hidentity : Protocol.engine_id identity ≠ "" ∧ Protocol.log_id identity ≠ "").

(** The model [m] stands at the revision [rev], knows of [known], and its state is
    the show [s]. *)
Record replicates (m : ClientModel) (rev known : Z) (s : ShowState) : Prop := {
  rp_project : model_project m = project;
  rp_cursor : model_cursor m = Some (mk_project_cursor project identity rev);
  rp_expected : expected_engine m = Some identity;
  rp_state : replica_of <$> model_state m = Some (show_shared s);
  rp_events : ∀ r, is_Some (applied_events m !! r) → r ≤ rev;
  rp_known : known_revision m = Some known;
  rp_ahead : rev ≤ known;
  rp_sync : sync_status m = if decide (rev < known) then Behind rev known else Current
}.

Lemma identity_valid : validate_engine identity = Ok tt.
Proof. apply require_Ok. by intros [?|?]; destruct Hidentity. Qed.
Lemma event_eq rev p :
  event_from_protocol project (Protocol.mk_event_message (Protocol.mk_cursor identity rev) p) =
    mk_project_event (mk_project_cursor project identity rev) (change_of p).
Proof. done. Qed.

Lemma replicates_event m rev known s c s' evs :
  replicates m rev known s →
  in_ty U64 (rev + 1) → EngineEffect.effect c s s' evs → show_wf s → show_wf s' →
  EngineEffect.outputs_known s' →
  ∃ m' ids, apply_event (event_from_protocol project (Protocol.mk_event_message
      (Protocol.mk_cursor identity (rev + 1)) (event_for c s s'))) m =
    (m', Ret (AppliedEvent ids)) ∧
    replicates m' (rev + 1) (Z.max known (rev + 1)) s'.
Proof.
  intros [Hp Hc He Hst Hev Hk Ha Hsy] Hin Heff Hs Hs' Hout.
  destruct (model_state m) as [st|] eqn:Hstate; [|done]. apply (inj Some) in Hst.
  destruct (apply_change_shared (event_for c s s') st (show_shared s')) as (st'&Happ&Hst').
  { destruct (replica_roster _ _ Hst) as (->&->&_). apply Hs. }
  { rewrite Hst. by eapply event_follows. }
  pose proof (event_valid c s s' evs st Heff Hs Hs' Hout Hst) as Hval.
  rewrite event_eq. unfold apply_event. cbn [event_cursor project_revision project_id project_engine change].
  unfold validate_project, mbind, stm_bind, st_get, st_require, st_lift.
  rewrite decide_True by done. rewrite identity_valid, Hc. cbn [ok_or].
  rewrite decide_False by naive_solver. rewrite decide_True.
  2: { rewrite Hsy. by case_decide. }
  assert (Hno : applied_events m !! (rev + 1) = None).
  { destruct (applied_events m !! (rev + 1)) eqn:Hl; [|done].
    specialize (Hev (rev + 1) ltac:(by eexists)). lia. }
  rewrite Hno. cbn [project_revision]. rewrite decide_True by lia. rewrite checked_in by done.
  cbn [ok_or]. rewrite decide_False by naive_solver. rewrite Hstate. cbn [ok_or]. rewrite Hval.
  unfold st_expect. rewrite Happ. unfold reconcile_through, st_put, mbind, stm_bind, st_get.
  destruct (retain_pending _ _ _) as [[kept reconciled] discarded].
  eexists _, reconciled. split; [reflexivity|]. split; try done; cbn [set_sync set_pending
    model_state applied_events known_revision sync_status mret stm_ret from_option].
  - simpl. by rewrite Hst'.
  - intros r. simpl. rewrite lookup_insert_is_Some. intros [->|[_ Hr]]; [lia|].
    specialize (Hev r Hr). lia.
  - by rewrite Hk.
  - lia.
  - rewrite Hk. simpl. by repeat case_decide; try lia.
Qed.

(** The events of a history, one after the other. *)
Definition apply_all (l : list Protocol.EventMessage) : stm ClientModel ModelError unit :=
  foldr (λ e k, _ ← apply_event (event_from_protocol project e); k) (mret tt) l.
Lemma replicates_all l m rev known s rev' s' :
  shown identity rev s l rev' s' → replicates m rev known s →
  ∃ m', apply_all l m = (m', Ret tt) ∧ replicates m' rev' (Z.max known rev') s'.
Proof.
  intros Hsh. revert m known. induction Hsh as [rev s|rev s c s' evs l rev2 s2 Hin Heff Hs Hs' Ho Hsh IH];
    intros m known Hr.
  { exists m. split; [done|]. by rewrite Z.max_l by apply (rp_ahead _ _ _ _ Hr). }
  destruct (replicates_event m rev known s c s' evs Hr Hin Heff Hs Hs' Ho) as (m1&ids&Hx&Hr1).
  destruct (IH m1 _ Hr1) as (m'&Hx'&Hr'). exists m'. split.
  - cbn [apply_all foldr]. unfold mbind, stm_bind. by rewrite Hx.
  - pose proof (shown_revision _ _ _ _ _ _ Hsh). by replace (Z.max known rev2) with
      (Z.max (Z.max known (rev + 1)) rev2) by lia.
Qed.

(** A model that may install the snapshot of a server at revision [rev]. *)
Definition may_install (m : ClientModel) (rev : Z) : Prop :=
  model_project m = project ∧
  (∀ e, expected_engine m = Some e → e = identity ∧
    ∀ k, known_revision m = Some k → k ≤ rev) ∧
  (∀ c, model_cursor m = Some c → project_engine c = identity → project_revision c ≤ rev).
Lemma replicates_install m e r :
  EngineRun.engine_wf e → EngineEffect.engine_outputs e →
  snapshot_record e identity = Some r →
  may_install m (Command.revision (Engine.commands e)) →
  ∃ m' i, install_snapshot (snapshot_from_protocol project (record_snapshot r)) m = (m', Ret i) ∧
    replicates m' (Command.revision (Engine.commands e)) (Command.revision (Engine.commands e))
      (Engine.show e).
Proof.
  intros Hwf Ho Hr (Hp&Hexp&Hcur).
  pose proof (snapshot_valid e identity r project Hwf Ho Hr) as Hval.
  pose proof (snapshot_shared e identity r Hwf Hr) as Hsh.
  assert (Hc : snap_cursor (snapshot_from_protocol project (record_snapshot r)) =
    mk_project_cursor project identity (Command.revision (Engine.commands e))).
  { rewrite snapshot_total in Hr by done. by injection Hr as <-. }
  rewrite <-(snapshot_replica project) in Hsh.
  destruct (snapshot_from_protocol project (record_snapshot r)) as [cursor st]. simpl in *. subst cursor.
  apply wp_returns. unfold install_snapshot, validate_project.
  cbn [snap_cursor snap_state project_id project_engine project_revision].
  rewrite identity_valid. wp_run; simplify_eq; cbn [returning]; try congruence.
  all: try (split; simpl; try done; [by rewrite Hsh|by intros r0 [? Hr0%lookup_empty_Some]|
    by rewrite decide_False by lia]).
  all: try (destruct (Hexp _ ltac:(done)) as [? Hle]; done).
  all: try match goal with H : ¬ ¬ _ |- _ => apply H; intros [? Hlt] end.
  all: try (specialize (Hcur _ ltac:(done) ltac:(done)); lia).
  all: try (destruct (Hexp _ ltac:(done)) as [_ Hle]; specialize (Hle _ ltac:(done)); lia).
Qed.

(** What a model replicates of the server at one moment lets it take over any later
    one. *)
Lemma replicates_may_install m rev known s rev' :
  replicates m rev known s → known ≤ rev' → may_install m rev'.
Proof.
  intros [Hp Hc He _ _ Hk Ha _] Hle. split_and!; [done| |].
  - intros e. rewrite He. intros [= <-]. split; [done|]. intros k. rewrite Hk. by intros [= <-].
  - intros c. rewrite Hc. intros [= <-] _. simpl. lia.
Qed.
Lemma fresh_may_install rev : may_install (model_new project) rev.
Proof. done. Qed.

(** Hearing of the server again. *)
Lemma replicates_observe m rev known s hello :
  replicates m rev known s → Protocol.hello_engine hello = identity →
  Protocol.hello_resume hello = true → rev ≤ Protocol.hello_current_revision hello →
  ∃ m', observe_server hello m = (m', Ret tt) ∧
    replicates m' rev (Protocol.hello_current_revision hello) s.
Proof.
  intros [Hp Hc He Hst Hev Hk Ha Hsy] Hi Hres Hle.
  unfold observe_server, mbind, stm_bind, st_get, st_lift. rewrite Hi, identity_valid, Hc, Hres.
  eexists. split; [reflexivity|]. split; try done; simpl.
  rewrite decide_False by naive_solver.
  destruct (Z.compare_spec (Protocol.hello_current_revision hello) rev);
    clear Hsy; case_decide; try lia; done.
Qed.
End replica.
