(* ===== verification/Reconnect.v ===== *)
(** Clients and the server together: a client that connects, for the first time or
    again, ends up with the show as the engine has it.

    The control service keeps the promise that the handshake relies on
    ([plane_in_step]).  A client that [stands] at a moment of the server's history
    (it is new, or its model replicates that moment) and goes through
    [Client.transport_connected], [Daemon.runtime_handshake] and
    [Client.intake] of what it is sent, whether the server resumes it or sends a
    snapshot, is ready and replicates the current moment ([reconnect_converges]),
    and goes on to replicate every later one. *)
From S2P Require Import Prelude BTree Types EngineShow Server Handshake ControlWire Control Daemon.
From S2P Require Import ControlView ControlRun ControlSafety ReplicaValid Replica.
From S2P Require Command Engine EngineSim EngineRun EngineSafety EngineEffect.
From S2P Require ControlLaws Auth Protocol UiModel Client.
From stdpp Require Import pretty.
#[local] Open Scope Z_scope.

(** ** The promise of the control service *)

Section plane.
Context {A : Type} `{AuthorizationHook A}.
Abbreviation service := (ControlService A).
Implicit Types self : service.

Lemma contiguous_seq l a :
  contiguous_from (Some a) l = true → event_revision <$> l = seqZ a (Z.of_nat (length l)).
Proof.
  revert a. induction l as [|e l IH]; intros a; [done|]. cbn [contiguous_from].
  intros [Ha%bool_decide_eq_true Hl]%andb_true_iff. injection Ha as Ha.
  cbn [length fmap list_fmap]. rewrite Nat2Z.inj_succ, seqZ_cons by lia.
  f_equal; [by unfold event_revision|]. destruct l as [|e' l]; [done|].
  destruct (checked U64 _) as [n|] eqn:Hn.
  - apply checked_Some in Hn as [<- _]. rewrite (IH _ Hl). rewrite <-Ha. f_equal; lia.
  - exfalso. revert Hl. cbn [contiguous_from]. by rewrite bool_decide_eq_false_2.
Qed.
Lemma log_event self e : control_wf self → e ∈ log self →
  Protocol.cursor_engine (Protocol.cursor e) = identity self.
Proof.
  intros Hwf He. destruct (cw_log _ Hwf) as [Hc _].
  assert (Hin : Protocol.cursor e ∈ Protocol.cursor <$> log self) by by apply list_elem_of_fmap_2.
  rewrite Hc in Hin. by apply list_elem_of_fmap in Hin as (r&->&_).
Qed.
Lemma revision_typed self : control_wf self → in_ty U64 (current_revision self).
Proof.
  intros Hwf. apply (Command.wf_revision _ (EngineRun.ew_commands _
    (EngineSafety.reached_wf _ (cw_engine _ Hwf)))).
Qed.
Lemma resume_events self cursor events :
  control_wf self → resume cursor self = ResumeEvents events →
  Protocol.cursor_engine cursor = identity self ∧
  current_revision self = Protocol.cursor_revision cursor + Z.of_nat (length events) ∧
  Protocol.cursor <$> events = Protocol.mk_cursor (identity self) <$>
    seqZ (Protocol.cursor_revision cursor + 1) (Z.of_nat (length events)) ∧
  (length events ≤ retained_events (limits self))%nat.
Proof.
  intros Hwf. unfold resume. case_decide as Hc; [done|]. apply Decidable.not_or in Hc as [He Hle].
  apply dec_stable in He. case_decide as Hr.
  { intros [= <-]. split_and!; [done|simpl; lia|done|simpl; lia]. }
  destruct (_ && _ && _) eqn:Hok; [|done]. intros [= <-].
  apply andb_true_iff in Hok as [[_ Hcon]%andb_true_iff Hlast%bool_decide_eq_true].
  set (l := filter _ (log self)) in *.
  assert (Hne : l ≠ []) by by intros Hl; rewrite Hl in Hlast.
  destruct (checked U64 _) as [n|] eqn:Hn.
  2: { exfalso. destruct l as [|e l']; [done|]. revert Hcon. cbn [contiguous_from].
       by rewrite bool_decide_eq_false_2. }
  apply checked_Some in Hn as [<- _]. apply contiguous_seq in Hcon.
  split_and!; [done| | |].
  - assert (Hl2 : last (event_revision <$> l) = Some (current_revision self)).
    { rewrite fmap_last. exact Hlast. }
    rewrite Hcon, last_lookup, length_seqZ, Nat2Z.id in Hl2.
    destruct l as [|e l']; [done|]. apply lookup_seqZ in Hl2 as [Hj _]. rewrite Hj. simpl. lia.
  - apply list_eq. intros i. rewrite !list_lookup_fmap.
    assert (Hi : event_revision <$> l !! i = seqZ (Protocol.cursor_revision cursor + 1)
      (Z.of_nat (length l)) !! i) by by rewrite <-Hcon, list_lookup_fmap.
    rewrite <-Hi. destruct (l !! i) as [e|] eqn:Hli; [|done]. simpl. f_equal.
    assert (Hin : e ∈ log self).
    { apply list_elem_of_lookup_2 in Hli. by apply list_elem_of_filter in Hli as [_ ?]. }
    pose proof (log_event _ _ Hwf Hin) as Heng. unfold event_revision.
    destruct (Protocol.cursor e). simpl in *. by subst.
  - destruct (cw_log _ Hwf) as [_ Hlen]. etrans; [|exact Hlen]. apply length_filter.
Qed.
Lemma snapshot_fields self :
  control_wf self →
  Protocol.snapshot_engine (record_snapshot (snapshot self)) = identity self ∧
  Protocol.snapshot_revision (record_snapshot (snapshot self)) = current_revision self.
Proof.
  intros Hwf. pose proof (cw_snapshot _ Hwf) as Hs.
  rewrite snapshot_total in Hs by apply (EngineSafety.reached_wf _ (cw_engine _ Hwf)).
  by injection Hs as <-.
Qed.
Lemma resume_snapshot self cursor r :
  resume cursor self = ResumeSnapshot r → r = snapshot self.
Proof.
  unfold resume. case_decide; [by intros [=]|]. case_decide; [done|].
  destruct (_ && _ && _); [done|]. by intros [=].
Qed.

(** What the control plane answers. *)
Lemma initial_sync_eq self cursor :
  initial_sync self cursor = Ok (mk_initial_sync (identity self) (current_revision self)
    (match cursor with
     | Some c => match resume c self with
                 | ResumeEvents events => SyncResume events
                 | ResumeSnapshot _ => SyncSnapshot (record_snapshot (snapshot self))
                 end
     | None => SyncSnapshot (record_snapshot (snapshot self))
     end)).
Proof.
  unfold initial_sync, ControlHandle. destruct cursor as [c|]; [|done].
  destruct (resume c self) as [events|r] eqn:Hr; [done|]. by apply resume_snapshot in Hr as ->.
Qed.
(** Every sync that the control service offers is in step. *)
Lemma plane_in_step self cursor initial :
  control_wf self → initial_sync self cursor = Ok initial →
  in_step cursor initial ∧ in_ty U64 (sync_revision initial).
Proof.
  intros Hwf. rewrite initial_sync_eq. intros [= <-]. split; [|by apply revision_typed].
  unfold in_step. cbn [sync_payload sync_engine sync_revision]. pose proof (snapshot_fields _ Hwf) as Hs.
  destruct cursor as [c|]; [|exact Hs].
  destruct (resume c self) as [events|r] eqn:Hr; [|exact Hs].
  destruct (resume_events _ _ _ Hwf Hr) as (He&Hrev&Hc&_). by exists c.
Qed.
End plane.

(** ** The server's side *)

Section connect.
Context {A : Type} `{AuthorizationHook A}.
Abbreviation service := (ControlService A).
Implicit Types self : service.

(** What a connecting client is sent: the events since its cursor, or the snapshot. *)
Inductive sent self (request : Protocol.HandshakeRequest) :
    Protocol.HandshakeOutcome → list Protocol.WireMessage.t → Prop :=
  | sent_events cursor events :
      Protocol.resume_cursor request = Some cursor →
      resume (event_cursor cursor) self = ResumeEvents events →
      sent self request (Protocol.OutcomeResume cursor) (Protocol.WireMessage.Event <$> events)
  | sent_snapshot reason :
      sent self request (Protocol.OutcomeSnapshot reason)
        [Protocol.WireMessage.Snapshot (record_snapshot (snapshot self))].
Record connected (server : Server service) self (principal : Auth.Principal)
    (request : Protocol.HandshakeRequest) (project_id : string) (now : Z) (est : Established) :
    Prop := {
  cn_protocol : Protocol.response_protocol (est_response est) = Protocol.CURRENT_PROTOCOL_VERSION;
  cn_server : Protocol.server (est_response est) = control_server_identity self project_id;
  cn_revision : Protocol.current_revision (est_response est) = current_revision self;
  cn_sent : sent self request (Protocol.response_outcome (est_response est)) (est_initial_sync est);
  cn_identity : est_identity est = control_server_identity self project_id;
  cn_session : ∃ role, may_play principal (Protocol.desired_role request) role ∧
    est_session est = session_new Protocol.CURRENT_PROTOCOL_VERSION (identity self)
      (current_revision self) (scoped_principal principal role) (Server.policy server)
      (session_limits (Server.config server)) now
}.
(** A subscriber slot is free. *)
Definition may_subscribe self : Prop :=
  (size (subscribers self) < max_subscribers (limits self))%nat ∧
  in_ty U64 (next_subscriber_id self + 1).
Lemma subscribe_ok self :
  may_subscribe self → ∃ self', subscribe self = (self', Ret (next_subscriber_id self)) ∧
    core self' = core self.
Proof.
  intros [Hs Hn]. unfold subscribe, mbind, stm_bind, st_get, st_require, st_lift, st_put, mret, stm_ret.
  rewrite decide_True by lia. rewrite checked_in by done. simpl. by eexists.
Qed.

Lemma cached_eq request :
  cached_cursor request = event_cursor <$> Protocol.resume_cursor request.
Proof. done. Qed.
Lemma choose_cases server current available cursor :
  (∃ reason, Protocol.choose_handshake_outcome server current available cursor =
     Protocol.OutcomeSnapshot reason) ∨
  ∃ c, cursor = Some c ∧
    Protocol.choose_handshake_outcome server current available cursor = Protocol.OutcomeResume c.
Proof.
  unfold Protocol.choose_handshake_outcome.
  destruct cursor as [c|]; [|left; by eexists]. repeat (case_decide; [left; by eexists|]).
  right. by exists c.
Qed.
(** What is sent, whatever was announced first. *)
Definition offered self (request : Protocol.HandshakeRequest) (project_id : string) : SyncPayload :=
  match cached_cursor (current_handshake request self project_id).1 with
  | Some c => match resume c self with
              | ResumeEvents events => SyncResume events
              | ResumeSnapshot _ => SyncSnapshot (record_snapshot (snapshot self))
              end
  | None => SyncSnapshot (record_snapshot (snapshot self))
  end.
Lemma offered_sent self request project_id :
  sent self request
    (reconciled_handshake_outcome (current_handshake request self project_id).2
       (offered self request project_id))
    (sync_messages (offered self request project_id)).
Proof.
  unfold offered, current_handshake. cbn [fst snd]. rewrite cached_eq.
  cbn [Protocol.resume_cursor].
  match goal with |- context [Protocol.choose_handshake_outcome ?s ?n ?a ?c] =>
    destruct (choose_cases s n a c) as [[reason ->]|(cu&Hc&->)] end; simpl; [constructor|].
  rewrite Hc. simpl. destruct (resume (event_cursor cu) self) as [events|r] eqn:Hr; simpl.
  - by constructor.
  - constructor.
Qed.
Lemma offered_bound self request project_id :
  control_wf self →
  (length (sync_messages (offered self request project_id)) ≤
   Nat.max (retained_events (limits self)) 1)%nat.
Proof.
  intros Hwf. unfold offered. destruct (cached_cursor _) as [c|]; [|simpl; lia].
  destruct (resume c self) as [events|r] eqn:Hr; [|simpl; lia].
  destruct (resume_events _ _ _ Hwf Hr) as (_&_&_&Hlen). simpl. rewrite length_fmap. lia.
Qed.
Lemma connect_server (server : Server service) principal web request project_id now role :
  let self := Server.control server in
  control_wf self → admits server request principal →
  may_play principal (Protocol.desired_role request) role →
  hello_typed request → may_subscribe self →
  ∃ self' est, subscribe self = (self', Ret (next_subscriber_id self)) ∧
    runtime_handshake principal web request project_id now server =
      (Daemon.set_control self' server, Ret (Accepted est)) ∧
    connected server self principal request project_id now est.
Proof.
  intros self Hwf Had Hrole Hty Hsub.
  destruct (subscribe_ok self Hsub) as (self'&Hs&Hcore).
  apply core_eq in Hcore as (_&_&_&Hl&_).
  set (hello := (current_handshake request self project_id).1).
  set (outcome := (current_handshake request self project_id).2).
  assert (Hplane : plane_typed (X := Empty_set) self).
  { intros c i Hi. by apply (plane_in_step _ _ _ Hwf Hi). }
  assert (Hhello : hello_typed hello).
  { intros c. unfold hello, current_handshake. simpl.
    destruct (Protocol.choose_handshake_outcome _ _ _ _); simpl; [done|apply Hty|done]. }
  pose proof (initial_sync_eq self (cached_cursor hello)) as Hsync.
  set (initial := mk_initial_sync _ _ _) in Hsync.
  pose proof (proj1 (plane_in_step _ _ _ Hwf Hsync)) as Hin.
  set (out := mk_handshake_outcome (Protocol.mk_hello Protocol.CURRENT_PROTOCOL_VERSION
    (Protocol.desired_role hello) (granted_permissions server role)
    (capabilities_digest (Server.config server)) (sync_engine initial) (sync_revision initial)
    (is_resume (sync_payload initial))) (sync_payload initial)
    (session_new Protocol.CURRENT_PROTOCOL_VERSION (sync_engine initial) (sync_revision initial)
      (scoped_principal principal role) (Server.policy server)
      (session_limits (Server.config server)) now)).
  assert (Hh : handshake server hello principal now = Ok out).
  { apply (handshake_granted server hello principal now role initial); done. }
  assert (Hoff : sync_payload initial = offered self request project_id) by done.
  exists self'. eexists. split; [done|]. split.
  - unfold runtime_handshake, mbind, stm_bind, st_get.
    rewrite (surjective_pairing (current_handshake request _ project_id)).
    change (current_handshake request (Server.control server) project_id).1 with hello. rewrite Hh.
    unfold st_catch, st_zoom. fold self. rewrite Hs. cbn [server_hello outcome_sync out].
    rewrite Hoff. change (Server.control (Daemon.set_control self' server)) with self'.
    cbn [diagnostics diagnosed_limits]. rewrite Hl.
    rewrite decide_False by (pose proof (offered_bound self request project_id Hwf); lia).
    reflexivity.
  - split; try done.
    + apply offered_sent.
    + exists role. by split.
Qed.
End connect.

(** ** The client's side *)

Section client.
Context (project : UiModel.ProjectId) (identity : Protocol.EngineIdentity).
Context (Hidentity : Protocol.engine_id identity ≠ "" ∧ Protocol.log_id identity ≠ "").
Abbreviation replicates := (replicates project identity).
Abbreviation Client := Client.Client.
Implicit Types c : Client.

Definition wire_server : Protocol.ServerIdentity :=
  Protocol.mk_server (Protocol.engine_id identity) (pretty project) (Protocol.state_epoch identity)
    (Protocol.log_id identity).
Lemma wire_engine : Client.engine_identity wire_server = identity.
Proof. unfold Client.engine_identity, wire_server. simpl. by destruct identity. Qed.

(** A client in a session with the server, whose model stands at [rev]. *)
Record in_session c (rev known : Z) (s : ShowState) : Prop := {
  is_project : Client.config_project (Client.config c) = project;
  is_session : Client.session_server <$> Client.session c = Some wire_server;
  is_model : replicates (Client.model c) rev known s
}.
Definition caught_up c (rev : Z) (s : ShowState) : Prop :=
  in_session c rev rev s ∧ Client.state c = Client.ConnectionState.Ready.

(** The run of what arrives. *)
Definition intake_all (l : list Protocol.WireMessage.t) : Client.client_stm unit :=
  foldr (λ m k, _ ← Client.intake m; k) (mret tt) l.

Lemma client_event c target rev known s cmd s' evs :
  Client.event_target (Client.state c) = Some target →
  (∀ t, target = Some t → rev + 1 ≤ t) → in_session c rev known s →
  in_ty U64 (rev + 1) → EngineEffect.effect cmd s s' evs → show_wf s → show_wf s' →
  EngineEffect.outputs_known s' →
  ∃ c', Client.intake (Protocol.WireMessage.Event (Protocol.mk_event_message
      (Protocol.mk_cursor identity (rev + 1)) (event_for cmd s s'))) c =
    (c', Ret Client.EventApplied) ∧
    in_session c' (rev + 1) (Z.max known (rev + 1)) s' ∧
    Client.state c' = if decide (target = Some (rev + 1)) then Client.ConnectionState.Ready
                      else Client.state c.
Proof.
  intros Ht Htar [Hp Hses Hm] Hin Heff Hs Hs' Ho.
  destruct (replicates_event project identity Hidentity (Client.model c) rev known s cmd s' evs
    Hm Hin Heff Hs Hs' Ho) as (m'&ids&Hx&Hm').
  destruct (Client.session c) as [session|] eqn:Hse; [|done]. injection Hses as Hses.
  set (event := Protocol.mk_event_message _ _) in *.
  assert (Happ : Client.apply_event event c = (
    if decide (target = Some (rev + 1)) then Client.finish_sync (Client.set_model m' c)
    else Client.set_model m' c, Ret tt)).
  { unfold Client.apply_event, mbind, stm_bind, st_get. rewrite Ht.
    unfold st_lift, st_require, st_put, st_modify. rewrite (rp_cursor _ _ _ _ _ _ Hm), Hse.
    cbn [ok_or UiModel.project_revision UiModel.project_engine]. rewrite checked_in by done.
    cbn [ok_or event Protocol.cursor Protocol.cursor_revision Protocol.cursor_engine].
    rewrite decide_True by lia. rewrite decide_False.
    2: { intros [?|[?|Hd]]; [done|lia|]. destruct target as [t|]; [|done]. simpl in Hd.
         apply bool_decide_eq_true in Hd. specialize (Htar t eq_refl). lia. }
    rewrite Hp. fold event. rewrite Hx. by case_decide. }
  eexists. unfold Client.intake, mbind, stm_bind. rewrite Happ. split; [reflexivity|].
  split; [|by case_decide]. case_decide; (split; simpl; [done|by rewrite Hse; simpl; f_equal|done]).
Qed.
Lemma client_events_ready c l rev known s rev' s' :
  shown identity rev s l rev' s' → in_session c rev known s →
  Client.state c = Client.ConnectionState.Ready →
  ∃ c', intake_all (Protocol.WireMessage.Event <$> l) c = (c', Ret tt) ∧
    in_session c' rev' (Z.max known rev') s' ∧ Client.state c' = Client.ConnectionState.Ready.
Proof.
  intros Hsh. revert c known.
  induction Hsh as [rev s|rev s cmd s' evs l rev2 s2 Hin Heff Hs Hs' Ho Hsh IH];
    intros c known Hc Hr.
  { exists c. split; [done|]. rewrite Z.max_l by apply (rp_ahead _ _ _ _ _ _ (is_model _ _ _ _ Hc)).
    done. }
  destruct (client_event c None rev known s cmd s' evs) as (c1&Hx&Hc1&Hst); try done.
  { by rewrite Hr. }
  rewrite decide_False in Hst by done. destruct (IH c1 _ Hc1) as (c'&Hx'&Hc'&Hr'); [congruence|].
  exists c'. split; [|split; [|done]].
  - cbn [fmap list_fmap intake_all foldr]. unfold mbind, stm_bind. by rewrite Hx.
  - pose proof (shown_revision _ _ _ _ _ _ Hsh). by replace (Z.max known rev2) with
      (Z.max (Z.max known (rev + 1)) rev2) by lia.
Qed.
Lemma client_events_resume c l rev s rev' s' :
  shown identity rev s l rev' s' → rev < rev' → in_session c rev rev' s →
  Client.state c = Client.ConnectionState.Synchronizing Client.SyncResume rev' →
  ∃ c', intake_all (Protocol.WireMessage.Event <$> l) c = (c', Ret tt) ∧ caught_up c' rev' s'.
Proof.
  intros Hsh. revert c.
  induction Hsh as [rev s|rev s cmd s' evs l rev2 s2 Hin Heff Hs Hs' Ho Hsh IH];
    intros c Hlt Hc Hr; [lia|].
  pose proof (shown_revision _ _ _ _ _ _ Hsh) as Hrev.
  destruct (client_event c (Some rev2) rev rev2 s cmd s' evs) as (c1&Hx&Hc1&Hst); try done.
  { by rewrite Hr. }
  { intros t [= <-]. lia. }
  rewrite Z.max_l in Hc1 by lia.
  cbn [fmap list_fmap intake_all foldr]. unfold mbind, stm_bind. rewrite Hx.
  destruct (decide (rev2 = rev + 1)) as [->|Hne].
  - rewrite decide_True in Hst by done. assert (l = []) as ->.
    { apply length_zero_iff_nil. lia. }
    exists c1. split; [done|]. apply shown_empty in Hsh as [_ ->]. by split.
  - rewrite decide_False in Hst by congruence. apply IH; [lia|done|congruence].
Qed.

(** A step that returns. *)
Lemma run_bind {S E B D} (m : stm S E B) (f : B → stm S E D) s s' b :
  m s = (s', Ret b) → (m ≫= f) s = f b s'.
Proof. unfold mbind, stm_bind. by intros ->. Qed.
(** Nothing but the runtime sequences. *)
Definition same_client c c' : Prop :=
  Client.config c' = Client.config c ∧ Client.model c' = Client.model c ∧
  Client.state c' = Client.state c ∧ Client.force_snapshot c' = Client.force_snapshot c.
Lemma reset_same (P : Prop) `{Decision P} c :
  ∃ c', (if decide P then st_modify Client.reset_runtime_sequences else mret tt :
    Client.client_stm unit) c = (c', Ret tt) ∧ same_client c c'.
Proof. case_decide; eexists; (split; [reflexivity|]); done. Qed.

(** A response of the server, accepted: in a session, at the model that has heard of
    the server. *)
Record accepted_response (resume : bool) c (R : Z) (m' : UiModel.ClientModel) c' : Prop := {
  ar_config : Client.config c' = Client.config c;
  ar_session : Client.session_server <$> Client.session c' = Some wire_server;
  ar_model : Client.model c' = m';
  ar_state : Client.state c' =
    if decide (resume = true ∧ UiModel.project_revision <$> UiModel.model_cursor m' = Some R)
    then Client.ConnectionState.Ready
    else Client.ConnectionState.Synchronizing
      (if resume then Client.SyncResume else Client.SyncSnapshot) R
}.
Lemma accept_response c response (resume : bool) m' :
  Client.state c = Client.ConnectionState.AwaitingHandshake →
  Client.config_project (Client.config c) = project →
  Protocol.response_protocol response = Protocol.CURRENT_PROTOCOL_VERSION →
  Protocol.server response = wire_server →
  (if resume then
     ∃ cursor, Protocol.response_outcome response = Protocol.OutcomeResume cursor ∧
       Client.force_snapshot c = false ∧ Protocol.resume_server cursor = wire_server ∧
       Client.last_applied_cursor c = Some cursor ∧
       Protocol.resume_revision cursor ≤ Protocol.current_revision response
   else ∃ reason, Protocol.response_outcome response = Protocol.OutcomeSnapshot reason) →
  (∀ hello, Protocol.hello_engine hello = identity → Protocol.hello_resume hello = resume →
     Protocol.hello_current_revision hello = Protocol.current_revision response →
     UiModel.observe_server hello (Client.model c) = (m', Ret tt)) →
  ∃ c', Client.intake (Protocol.WireMessage.HandshakeResponse response) c =
      (c', Ret Client.IntakeHandshake) ∧
    accepted_response resume c (Protocol.current_revision response) m' c'.
Proof.
  intros Hst Hp Hproto Hsrv Hout Hobs.
  assert (Hres : (match Protocol.response_outcome response with
    | Protocol.OutcomeSnapshot _ => mret false
    | Protocol.OutcomeResume cursor =>
        _ ← st_require (¬ (Client.force_snapshot c = true ∨
              Protocol.resume_server cursor ≠ Protocol.server response ∨
              Client.last_applied_cursor c ≠ Some cursor ∨
              Protocol.current_revision response < Protocol.resume_revision cursor))
              (Client.ClientError.InvalidHandshake "server offered an invalid resume cursor");
        mret true
    | Protocol.OutcomeRejected error =>
        _ ← st_put (Client.set_state Client.ConnectionState.Disconnected c);
        mthrow (Client.ClientError.HandshakeRejected error)
    end : Client.client_stm bool) c = (c, Ret resume)).
  { destruct resume.
    - destruct Hout as (cursor&->&Hf&Hs&Hl&Hle). unfold mbind, stm_bind, st_require.
      rewrite decide_True; [done|]. intros [Hx|[Hx|[Hx|Hx]]]; try congruence. lia.
    - by destruct Hout as [reason ->]. }
  assert (Hrt : ∃ c1, (match Client.runtime_server c with
      | Some s => if decide (s ≠ Protocol.server response)
                  then st_modify Client.reset_runtime_sequences else mret tt
      | None => mret tt
      end : Client.client_stm unit) c = (c1, Ret tt) ∧ same_client c c1).
  { destruct (Client.runtime_server c) as [s|]; [apply reset_same|]. by exists c. }
  destruct Hrt as (c1&Hrt&(Hc1&Hm1&Hs1&_)).
  assert (Hacc : ∃ c', Client.accept_handshake response c = (c', Ret tt) ∧
    accepted_response resume c (Protocol.current_revision response) m' c').
  { unfold Client.accept_handshake. rewrite (run_bind _ _ c c c) by done.
    rewrite decide_False by naive_solver. rewrite decide_False by naive_solver.
    rewrite decide_False by (rewrite Hsrv, Hp; naive_solver).
    rewrite (run_bind _ _ _ _ _ Hres), (run_bind _ _ _ _ _ Hrt).
    rewrite (run_bind _ _ c1 (Client.set_model m' c1) tt).
    2: { unfold Client.on_model, st_map_err, st_zoom. rewrite Hm1, Hobs; [done| |done..].
         simpl. rewrite Hsrv. apply wire_engine. }
    erewrite run_bind by reflexivity. erewrite run_bind by reflexivity.
    clear Hres Hout Hrt Hobs. case_decide as Hd; (eexists; split; [reflexivity|]).
    - split; simpl; [done|by rewrite Hsrv|done|by rewrite decide_True].
    - split; simpl; [done|by rewrite Hsrv|done|by rewrite decide_False]. }
  destruct Hacc as (c'&Hx&Hc'). exists c'. split; [|done].
  unfold Client.intake. by rewrite (run_bind _ _ _ _ _ Hx).
Qed.

Lemma client_snapshot c R r e :
  Client.config_project (Client.config c) = project →
  Client.session_server <$> Client.session c = Some wire_server →
  Client.state c = Client.ConnectionState.Synchronizing Client.SyncSnapshot R →
  EngineRun.engine_wf e → EngineEffect.engine_outputs e →
  snapshot_record e identity = Some r → R = Command.revision (Engine.commands e) →
  may_install project identity (Client.model c) R →
  ∃ c', Client.intake (Protocol.WireMessage.Snapshot (record_snapshot r)) c =
      (c', Ret Client.SnapshotApplied) ∧ caught_up c' R (Engine.show e).
Proof.
  intros Hp Hses Hst Hwf Ho Hr -> Hmay.
  destruct (replicates_install project identity Hidentity (Client.model c) e r Hwf Ho Hr Hmay)
    as (m'&i&Hx&Hm').
  assert (Hf : Protocol.snapshot_engine (record_snapshot r) = identity ∧
    Protocol.snapshot_revision (record_snapshot r) = Command.revision (Engine.commands e)).
  { rewrite snapshot_total in Hr by done. by injection Hr as <-. }
  destruct Hf as [Hfe Hfr].
  destruct (Client.session c) as [session|] eqn:Hse; [|done]. injection Hses as Hses.
  assert (Happ : Client.apply_snapshot (record_snapshot r) c =
    (Client.finish_sync (Client.set_model m' c), Ret tt)).
  { unfold Client.apply_snapshot. rewrite (run_bind _ _ c c c) by done. rewrite Hst.
    rewrite Hse. rewrite (run_bind _ _ c c session) by done.
    rewrite (run_bind _ _ c c tt).
    2: { unfold st_require. rewrite decide_True; [done|]. by rewrite Hses, wire_engine. }
    rewrite (run_bind _ _ c c tt).
    2: { unfold st_require. by rewrite decide_True. }
    rewrite (run_bind _ _ c (Client.set_model m' c) i); [done|].
    unfold Client.on_model, st_map_err, st_zoom. by rewrite Hp, Hx. }
  eexists. unfold Client.intake. rewrite (run_bind _ _ _ _ _ Happ). split; [reflexivity|].
  split; [split; simpl; [done|by rewrite Hse; simpl; f_equal|done]|done].
Qed.

(** Only three fields of the greeting matter. *)
Definition same_hello (hello hello' : Protocol.ServerHello) : Prop :=
  Protocol.hello_engine hello' = Protocol.hello_engine hello ∧
  Protocol.hello_resume hello' = Protocol.hello_resume hello ∧
  Protocol.hello_current_revision hello' = Protocol.hello_current_revision hello.
Lemma observe_same hello hello' m :
  same_hello hello hello' → UiModel.observe_server hello' m = UiModel.observe_server hello m.
Proof. intros (He&Hr&Hc). unfold UiModel.observe_server. by rewrite He, Hr, Hc. Qed.
Definition greeting (resume : bool) (R : Z) : Protocol.ServerHello :=
  Protocol.mk_hello Protocol.CURRENT_PROTOCOL_VERSION Protocol.Viewer [] "" identity R resume.
(** Hearing of the server before its snapshot. *)
Lemma observe_may_install m R :
  UiModel.model_project m = project →
  (∀ cu, UiModel.model_cursor m = Some cu → UiModel.project_engine cu = identity →
     UiModel.project_revision cu ≤ R) →
  ∃ m', UiModel.observe_server (greeting false R) m = (m', Ret tt) ∧
    may_install project identity m' R.
Proof.
  intros Hp Hc. unfold UiModel.observe_server. rewrite (run_bind _ _ m m tt).
  2: { unfold st_lift. simpl. by rewrite (identity_valid identity Hidentity). }
  eexists. split; [reflexivity|].
  split_and!; simpl; [done| |done]. intros e [= <-]. split; [done|]. by intros k [= <-].
Qed.
End client.

(** ** Connecting *)

Section reconnect.
Context {A : Type} `{AuthorizationHook A}.
Abbreviation service := (ControlService A).
Implicit Types self : service.

(** The client is new, or its model replicates the moment [self0]. *)
Definition stands (c : Client.Client) self0 (R : Z) : Prop :=
  let project := Client.config_project (Client.config c) in
  Client.model c = UiModel.model_new project ∨
  ∃ known, known ≤ R ∧ replicates project (identity self0) (Client.model c)
    (current_revision self0) known (Engine.show (engine self0)).
Definition named (i : Protocol.EngineIdentity) : Prop :=
  Protocol.engine_id i ≠ "" ∧ Protocol.log_id i ≠ "".
(** Nothing stops the client. *)
Record welcome (server : Server service) (c : Client.Client) (principal : Auth.Principal)
    (role : Auth.Role) : Prop := {
  wl_ready : readiness (Server.status server) = Ready;
  wl_principal : Auth.kind principal = Auth.DevelopmentOnly →
    authentication (Server.config server) = DevelopmentAuth;
  wl_role : may_play principal (Client.config_role (Client.config c)) role;
  wl_slot : may_subscribe (Server.control server);
  wl_connecting : Client.state c = Client.ConnectionState.Connecting
}.

(** What the client holds once it is connected. *)
Definition current (c : Client.Client) self : Prop :=
  caught_up (Client.config_project (Client.config c)) (identity self) c (current_revision self)
    (Engine.show (engine self)).

Lemma record_cursor_eq self :
  control_wf self →
  record_cursor (snapshot self) = Protocol.mk_cursor (identity self) (current_revision self).
Proof.
  intros Hwf. pose proof (cw_snapshot _ Hwf) as Hsn.
  rewrite snapshot_total in Hsn by apply (EngineSafety.reached_wf _ (cw_engine _ Hwf)).
  by injection Hsn as <-.
Qed.

Section step.
Context (server : Server service) (self0 : service) (l : list control_answer) (c : Client.Client).
Context (principal : Auth.Principal) (role : Auth.Role) (web : bool) (now : Z).
Let self := Server.control server.
Let project := Client.config_project (Client.config c).
Context (Hwf0 : control_wf self0) (Hout : EngineEffect.engine_outputs (engine self0)).
Context (Hnamed : named (identity self0)) (Hserved : served self0 l self).
Context (Hstands : stands c self0 (current_revision self)) (Hwl : welcome server c principal role).

Let c1 := Client.set_state Client.ConnectionState.AwaitingHandshake c.
Let request := Protocol.mk_handshake_request Protocol.CURRENT_PROTOCOL_VERSION
  (Client.build (Client.config c)) (Client.client_type (Client.config c))
  (Client.config_role (Client.config c))
  (if Client.force_snapshot c then None else Client.last_applied_cursor c).

Lemma connect_request : Client.transport_connected c = (c1, Ret request).
Proof.
  unfold Client.transport_connected. rewrite (run_bind _ _ c c c) by done.
  by rewrite decide_False by (rewrite (wl_connecting _ _ _ _ Hwl); naive_solver).
Qed.
(** The history up to now. *)
Lemma history_facts :
  control_wf self ∧ EngineEffect.engine_outputs (engine self) ∧ identity self = identity self0 ∧
  shown (identity self) (current_revision self0) (Engine.show (engine self0)) (all_durables l)
    (current_revision self) (Engine.show (engine self)).
Proof.
  destruct (served_tells self0 l self Hwf0 Hout Hserved) as [(Ho&Hi&Hsh) Hwf].
  split_and!; try done. by rewrite Hi.
Qed.
Lemma wire_server_eq :
  wire_server project (identity self) = control_server_identity self (pretty project).
Proof. done. Qed.
(** The cursor of a client that stands somewhere. *)
Lemma stands_cursor cursor :
  Protocol.resume_cursor request = Some cursor →
  Client.force_snapshot c = false ∧
  cursor = Protocol.mk_resume (wire_server project (identity self)) (current_revision self0) ∧
  ∃ known, known ≤ current_revision self ∧ replicates project (identity self) (Client.model c)
    (current_revision self0) known (Engine.show (engine self0)).
Proof.
  destruct history_facts as (_&_&Hi&_). unfold request. simpl.
  destruct (Client.force_snapshot c); [done|]. unfold Client.last_applied_cursor. intros Hc.
  destruct Hstands as [Hnew|(known&Hk&Hr)]; [by rewrite Hnew in Hc|].
  fold project in Hr. rewrite (rp_cursor _ _ _ _ _ _ Hr) in Hc. simpl in Hc. injection Hc as <-.
  split_and!; [done|by rewrite Hi|]. exists known. by rewrite Hi.
Qed.
Lemma request_typed : hello_typed request.
Proof.
  intros cursor Hc. destruct (stands_cursor cursor Hc) as (_&->&_). by apply revision_typed.
Qed.
Lemma request_admits : admits server request principal.
Proof. split_and!; [apply Hwl|apply Hwl|done]. Qed.

(** A client that is resumed. *)
Lemma resumed est cursor events :
  Protocol.response_protocol (est_response est) = Protocol.CURRENT_PROTOCOL_VERSION →
  Protocol.server (est_response est) = control_server_identity self (pretty project) →
  Protocol.current_revision (est_response est) = current_revision self →
  Protocol.response_outcome (est_response est) = Protocol.OutcomeResume cursor →
  Protocol.resume_cursor request = Some cursor →
  resume (event_cursor cursor) self = ResumeEvents events →
  ∃ c2 c3, Client.intake (Protocol.WireMessage.HandshakeResponse (est_response est)) c1 =
      (c2, Ret Client.IntakeHandshake) ∧
    intake_all (Protocol.WireMessage.Event <$> events) c2 = (c3, Ret tt) ∧
    caught_up project (identity self) c3 (current_revision self) (Engine.show (engine self)).
Proof.
  intros Hproto Hsrv Hrev Hoc Hreq Hres.
  destruct history_facts as (Hwf&Ho&Hi&Hsh).
  destruct (stands_cursor cursor Hreq) as (Hforce&Hcur&known&Hk&Hr).
  assert (Hev : events = all_durables l).
  { pose proof (ControlLaws.resume_served self0 l self Hwf0 Hserved) as Hrs.
    rewrite (record_cursor_eq _ Hwf0) in Hrs. revert Hres. rewrite Hcur. unfold event_cursor.
    simpl. replace (Protocol.mk_identity _ _ _) with (identity self) by by destruct (identity self).
    rewrite Hi, Hrs. case_decide; [by intros [= <-]|done]. }
  subst events. pose proof (shown_revision _ _ _ _ _ _ Hsh) as Hlen.
  assert (Hid : named (identity self)) by by rewrite Hi.
  destruct (replicates_observe project (identity self) Hid (Client.model c) (current_revision self0)
    known (Engine.show (engine self0)) (greeting (identity self) true (current_revision self)))
    as (m'&Hm'&Hr'); [done..|simpl; lia|]. simpl in Hr'.
  destruct (accept_response project (identity self) Hid c1 (est_response est) true m') as (c2&Hx&Hc2);
    try done.
  { exists cursor. rewrite Hrev, Hcur. split_and!; [by rewrite <-Hcur|done|done| |simpl; lia].
    change (Client.last_applied_cursor c1) with (Client.last_applied_cursor c).
    rewrite <-Hcur, <-Hreq. unfold request. simpl. by rewrite Hforce. }
  { intros hello H1 H2 H3. rewrite <-Hm'. apply observe_same. split_and!; [done..|by rewrite H3]. }
  exists c2. destruct Hc2 as [Hcf Hse Hmo Hst]. rewrite Hrev in Hst.
  assert (Hin : in_session project (identity self) c2 (current_revision self0)
    (current_revision self) (Engine.show (engine self0))).
  { split; [by rewrite Hcf|done|by rewrite Hmo]. }
  rewrite (rp_cursor _ _ _ _ _ _ Hr') in Hst. simpl in Hst.
  destruct (decide (current_revision self0 = current_revision self)) as [Heq|Hne].
  - rewrite decide_True in Hst by (split; congruence).
    assert (Hnil : all_durables l = []) by (apply length_zero_iff_nil; lia).
    rewrite Hnil in Hsh |- *. exists c2. split_and!; [done..|].
    apply shown_empty in Hsh as [_ ->]. split; [|done]. rewrite Heq in Hin. exact Hin.
  - rewrite decide_False in Hst by naive_solver.
    destruct (client_events_resume project (identity self) Hid c2 (all_durables l) _ _ _ _ Hsh
      ltac:(lia) Hin Hst) as (c3&Hx3&Hc3).
    by exists c3.
Qed.

(** A client that is sent the snapshot. *)
Lemma snapshotted est reason :
  Protocol.response_protocol (est_response est) = Protocol.CURRENT_PROTOCOL_VERSION →
  Protocol.server (est_response est) = control_server_identity self (pretty project) →
  Protocol.current_revision (est_response est) = current_revision self →
  Protocol.response_outcome (est_response est) = Protocol.OutcomeSnapshot reason →
  ∃ c2 c3, Client.intake (Protocol.WireMessage.HandshakeResponse (est_response est)) c1 =
      (c2, Ret Client.IntakeHandshake) ∧
    intake_all [Protocol.WireMessage.Snapshot (record_snapshot (snapshot self))] c2 = (c3, Ret tt) ∧
    caught_up project (identity self) c3 (current_revision self) (Engine.show (engine self)).
Proof.
  intros Hproto Hsrv Hrev Hoc. destruct history_facts as (Hwf&Ho&Hi&Hsh).
  assert (Hid : named (identity self)) by by rewrite Hi.
  pose proof (shown_revision _ _ _ _ _ _ Hsh) as Hlen.
  destruct (observe_may_install project (identity self) Hid (Client.model c) (current_revision self))
    as (m'&Hm'&Hmay).
  { destruct Hstands as [->|(known&Hk&Hr)]; [done|]. apply (rp_project _ _ _ _ _ _ Hr). }
  { intros cu. destruct Hstands as [->|(known&Hk&Hr)]; [done|].
    rewrite (rp_cursor _ _ _ _ _ _ Hr). intros [= <-] _. simpl. lia. }
  destruct (accept_response project (identity self) Hid c1 (est_response est) false m') as (c2&Hx&Hc2);
    try done; [by exists reason| |].
  { intros hello H1 H2 H3. rewrite <-Hm'. apply observe_same. split_and!; [done..|by rewrite H3]. }
  exists c2. destruct Hc2 as [Hcf Hse Hmo Hst]. rewrite Hrev in Hst.
  rewrite decide_False in Hst by naive_solver. rewrite <-Hmo in Hmay.
  destruct (client_snapshot project (identity self) Hid c2 (current_revision self) (snapshot self)
    (engine self)) as (c3&Hx3&Hc3); try done.
  - by rewrite Hcf.
  - apply EngineSafety.reached_wf, (cw_engine _ Hwf).
  - apply (cw_snapshot _ Hwf).
  - exists c3. split_and!; [done| |done]. unfold intake_all. cbn [foldr].
    by rewrite (run_bind _ _ _ _ _ Hx3).
Qed.

Lemma reconnect :
  ∃ server' est c2 c3 self1,
    runtime_handshake principal web request (pretty project) now server =
      (server', Ret (Accepted est)) ∧
    Client.intake (Protocol.WireMessage.HandshakeResponse (est_response est)) c1 =
      (c2, Ret Client.IntakeHandshake) ∧
    intake_all (est_initial_sync est) c2 = (c3, Ret tt) ∧
    caught_up project (identity self) c3 (current_revision self) (Engine.show (engine self)) ∧
    server' = Daemon.set_control self1 server ∧ core self1 = core self ∧ control_wf self1.
Proof.
  destruct history_facts as (Hwf&_).
  destruct (connect_server server principal web request (pretty project) now role Hwf request_admits
    (wl_role _ _ _ _ Hwl) request_typed (wl_slot _ _ _ _ Hwl)) as (self1&est&Hsub&Hh&Hcn).
  fold self in Hsub, Hcn. destruct Hcn as [Hproto Hsrv Hrev Hsent _ _].
  assert (H1 : control_wf self1 ∧ core self1 = core self).
  { pose proof (channel_step OpSubscribe self Hwf I) as Hc. simpl in Hc. rewrite Hsub in Hc.
    simpl in Hc. by destruct Hc as (?&?&_). }
  assert (Hdone : ∃ c2 c3, Client.intake (Protocol.WireMessage.HandshakeResponse (est_response est)) c1 =
      (c2, Ret Client.IntakeHandshake) ∧ intake_all (est_initial_sync est) c2 = (c3, Ret tt) ∧
    caught_up project (identity self) c3 (current_revision self) (Engine.show (engine self))).
  { inversion Hsent as [cursor events Hreq Hres Ho Hl|reason Ho Hl].
    - by eapply resumed.
    - by eapply snapshotted. }
  destruct Hdone as (c2&c3&Hx2&Hx3&Hc3). destruct H1 as [Hwf1 Hcore].
  by exists (Daemon.set_control self1 server), est, c2, c3, self1.
Qed.
End step.

(** A client that is current stays so. *)
Lemma stays_current c self l self2 :
  control_wf self → EngineEffect.engine_outputs (engine self) → named (identity self) →
  served self l self2 → current c self →
  ∃ c', intake_all (Protocol.WireMessage.Event <$> all_durables l) c = (c', Ret tt) ∧ current c' self2.
Proof.
  intros Hwf Ho Hid Hs [Hin Hst]. destruct (served_tells self l self2 Hwf Ho Hs) as [(_&Hi&Hsh) _].
  destruct (client_events_ready _ _ Hid c _ _ _ _ _ _ Hsh Hin Hst) as (c'&Hx&Hin'&Hst').
  exists c'. split; [done|]. pose proof (shown_revision _ _ _ _ _ _ Hsh).
  rewrite Z.max_r in Hin' by lia. unfold current, caught_up. rewrite Hi. split; [|done].
  by rewrite (is_project _ _ _ _ _ _ Hin').
Qed.

(** C1: Clients converge.  A client that is new, or that last stood at any earlier
    moment of the server, connects: its request is granted, what it is sent (the
    events it missed, if the server still has them, or a snapshot) is taken without
    an error, and it is then ready, with a replica that is the show of the engine at
    the current revision; and from then on, whatever the server does, the durable
    events that it is sent keep it so.  The histories
    are those that fire no stinger while a T-bar is held ([EngineSim.fires_idle]). *)
Theorem reconnect_converges (server : Server service) self0 l c principal role web now :
  let self := Server.control server in
  let project := Client.config_project (Client.config c) in
  control_reached self0 → EngineEffect.engine_outputs (engine self0) → named (identity self0) →
  served self0 l self → stands c self0 (current_revision self) → welcome server c principal role →
  ∃ c1 request server' est c2 c3,
    Client.transport_connected c = (c1, Ret request) ∧
    runtime_handshake principal web request (pretty project) now server =
      (server', Ret (Accepted est)) ∧
    Client.intake (Protocol.WireMessage.HandshakeResponse (est_response est)) c1 =
      (c2, Ret Client.IntakeHandshake) ∧
    intake_all (est_initial_sync est) c2 = (c3, Ret tt) ∧ current c3 self ∧
    ∀ l2 self2, served (Server.control server') l2 self2 →
      ∃ c4, intake_all (Protocol.WireMessage.Event <$> all_durables l2) c3 = (c4, Ret tt) ∧
        current c4 self2.
Proof.
  intros self project Hr%control_reached_wf Ho Hid Hs Hst Hwl.
  destruct (reconnect server self0 l c principal role web now Hr Ho Hid Hs Hst Hwl)
    as (server'&est&c2&c3&self1&Hh&Hx2&Hx3&Hc3&->&Hcore&Hwf1).
  destruct (history_facts server self0 l Hr Ho Hs) as (Hwf&Hout&Hi&_).
  assert (Hp : Client.config_project (Client.config c3) = project).
  { apply (is_project _ _ _ _ _ _ (proj1 Hc3)). }
  assert (Hcur : current c3 self) by by unfold current; rewrite Hp.
  eexists _, _, _, _, _, _. split; [by eapply connect_request|]. split_and!; [exact Hh|done..|].
  intros l2 self2 Hs2. simpl in Hs2. apply core_eq in Hcore as (He&_&Hi1&_).
  eapply stays_current; [exact Hwf1|by rewrite He|by rewrite Hi1, Hi|exact Hs2|].
  unfold current, current_revision. by rewrite He, Hi1.
Qed.
End reconnect.

(** ** Witness *)

(** A client that took the snapshot of [demo_control] and then lost the connection,
    while a fade and a fade to black were submitted. *)
Definition demo_project : UiModel.ProjectId := 7.
Definition demo_model : UiModel.ClientModel :=
  (UiModel.install_snapshot (UiModel.snapshot_from_protocol demo_project
     (record_snapshot (snapshot ControlLaws.demo_control))) (UiModel.model_new demo_project)).1.
Definition demo_client : Client.Client :=
  Client.mk_client (Client.config_new "1.0" Protocol.Studio Protocol.Operator "studio" demo_project)
    Client.ConnectionState.Connecting None demo_model [] [] ∅ [] 1 1 None 0 false None [].
Definition demo_config : ServerConfig :=
  server_config_new Production Required (V4 127 0 0 1) "digest".
Definition demo_daemon : Server (ControlService Auth.Policy) :=
  mk_server demo_config ControlLaws.demo_live Auth.production (mk_status Healthy Ready).
Lemma demo_outputs : EngineEffect.engine_outputs (engine ControlLaws.demo_control).
Proof. split; apply (bool_decide_unpack _); by vm_compute. Qed.
Lemma demo_stands :
  stands demo_client ControlLaws.demo_control (current_revision ControlLaws.demo_live).
Proof.
  right. pose proof (ControlLaws.demo_control_reached) as Hr%control_reached_wf.
  destruct (replicates_install demo_project (identity ControlLaws.demo_control) ltac:(by vm_compute)
    (UiModel.model_new demo_project) (engine ControlLaws.demo_control)
    (snapshot ControlLaws.demo_control)) as (m'&i&Hx&Hm').
  - apply EngineSafety.reached_wf, (cw_engine _ Hr).
  - apply demo_outputs.
  - apply (cw_snapshot _ Hr).
  - apply fresh_may_install.
  - eexists. split; [|]. 2: { unfold demo_client, demo_model. cbn [Client.model Client.config].
      rewrite Hx. exact Hm'. }
    vm_compute. discriminate.
Qed.
Lemma reconnect_converges_witness :
  (let request := (Client.transport_connected demo_client).2 in
   match request with
   | Ret request =>
       match (runtime_handshake ControlLaws.demo_operator false request (pretty demo_project) 0
                demo_daemon).2 with
       | Ret (Accepted est) => length (est_initial_sync est) = 2%nat
       | _ => False
       end
   | _ => False
   end) ∧
  ∃ request server' est c2 c3,
    runtime_handshake ControlLaws.demo_operator false request (pretty demo_project) 0 demo_daemon =
      (server', Ret (Accepted est)) ∧
    intake_all (est_initial_sync est) c2 = (c3, Ret tt) ∧ current c3 ControlLaws.demo_live.
Proof.
  split; [by vm_compute|].
  destruct (reconnect_converges demo_daemon ControlLaws.demo_control ControlLaws.demo_answers
    demo_client ControlLaws.demo_operator Auth.Operator false 0 ControlLaws.demo_control_reached
    demo_outputs ltac:(by vm_compute) ControlLaws.demo_live_served demo_stands)
    as (c1&request&server'&est&c2&c3&_&Hh&_&Hx&Hc&_).
  - split; [reflexivity|discriminate| |split; vm_compute; done|reflexivity].
    split; [reflexivity|]. left. apply (bool_decide_unpack _). by vm_compute.
  - exists request, server', est, c2, c3. split; [exact Hh|]. split; [exact Hx|exact Hc].
Defined.
