(* ===== verification/Guest.v ===== *)
(** Guests, [crates/features/fm-guest/src/lib.rs]: invitations, the lobby, sessions and
    their slots, mix-minus routing, and chat.

    [GuestManager] maps to the struct of the same name, one definition per method; the
    identifiers, non-zero 128-bit integers, are [Z].  A [GuestSlot] is the [Z] that
    [slot_new] accepts.  [guest_op] lists the methods that take [&mut self] and
    [guest_run] a history of calls with the answers they give. *)
From S2P Require Import Prelude BTree Floats.
#[local] Open Scope Z_scope.

(** ** Data *)

Definition MAX_GUEST_SESSIONS : nat := 8.
Definition MAX_DISPLAY_NAME_BYTES : nat := 128.
Definition MAX_CHAT_BODY_BYTES : nat := 2000.
Definition MAX_CHAT_MESSAGES : nat := 256.
Definition MAX_CHAT_GROUPS : nat := 64.
Definition MAX_CHAT_GROUP_MEMBERS : nat := MAX_GUEST_SESSIONS.
Definition MAX_REASON_BYTES : nat := 512.

Inductive GuestError :=
  | InvalidSlot (number : Z)
  | InvalidDisplayName
  | InvalidEchoReturnLoss
  | InvalidExpiry
  | InvalidReconnectWindow
  | InvitationExists
  | InvitationNotFound
  | InvitationExpired
  | InvitationConsumed
  | InvitationRevoked
  | GuestExists
  | GuestNotFound
  | LobbyEntryNotFound
  | LobbyEntryNotWaiting
  | PreflightNotReady
  | InvalidReason
  | SlotUnavailable (slot : Z)
  | SessionLimitReached
  | SessionExists
  | SessionNotFound
  | SessionAlreadyConnected
  | ReconnectExpired
  | InvalidPrivateAudience
  | ChatGroupExists
  | ChatGroupNotFound
  | ChatGroupLimitReached
  | ChatGroupEmpty
  | ChatGroupTooLarge
  | ChatParticipantNotFound
  | ChatAccessDenied
  | InvalidChatBody
  | ChatMessageExists
  | ChatMessageNotFound.

(** [GuestSlot::new]. *)
Definition slot_new (number : Z) : result GuestError Z :=
  if decide (number = 0 ∨ Z.of_nat MAX_GUEST_SESSIONS < number) then Err (InvalidSlot number)
  else Ok number.

(** [text.trim().is_empty() || text.len() > limit]. *)
Definition text_invalid (limit : nat) (text : string) : bool :=
  str_blank text || bool_decide (limit < str_len text)%nat.

Record GuestIdentity := mk_identity { guest_id : Z; display_name : string }.
Definition identity_new (id : Z) (display_name : string) : result GuestError GuestIdentity :=
  if text_invalid MAX_DISPLAY_NAME_BYTES display_name then Err InvalidDisplayName
  else Ok (mk_identity id display_name).

Module DeviceHealth.
Inductive t := Unknown | Ready | Disabled | PermissionDenied | Unavailable.
End DeviceHealth.
Module HealthSeverity.
Inductive t := Unknown | Healthy | Degraded | Unhealthy.
End HealthSeverity.
#[global] Instance DeviceHealth_eq_dec : EqDecision DeviceHealth.t.
Proof. solve_decision. Defined.
#[global] Instance HealthSeverity_eq_dec : EqDecision HealthSeverity.t.
Proof. solve_decision. Defined.

Record LatencyEchoHealth := mk_signal {
  round_trip_ms : option Z;
  echo_return_loss_db : option f32
}.
Definition signal_new (round_trip_ms : option Z) (echo_return_loss_db : option f32) :
    result GuestError LatencyEchoHealth :=
  match echo_return_loss_db with
  | Some value =>
      if negb (is_finite value) || SFltb value (f32_of_Z 0) then Err InvalidEchoReturnLoss
      else Ok (mk_signal round_trip_ms echo_return_loss_db)
  | None => Ok (mk_signal round_trip_ms echo_return_loss_db)
  end.
Definition latency_severity (self : LatencyEchoHealth) : HealthSeverity.t :=
  match round_trip_ms self with
  | None => HealthSeverity.Unknown
  | Some value =>
      if decide (value ≤ 150) then HealthSeverity.Healthy
      else if decide (value ≤ 300) then HealthSeverity.Degraded
      else HealthSeverity.Unhealthy
  end.
Definition echo_severity (self : LatencyEchoHealth) : HealthSeverity.t :=
  match echo_return_loss_db self with
  | None => HealthSeverity.Unknown
  | Some value =>
      if SFleb (f32_of_Z 35) value then HealthSeverity.Healthy
      else if SFleb (f32_of_Z 20) value then HealthSeverity.Degraded
      else HealthSeverity.Unhealthy
  end.
Definition combine_health (left right : HealthSeverity.t) : HealthSeverity.t :=
  if decide (left = HealthSeverity.Unhealthy ∨ right = HealthSeverity.Unhealthy)
  then HealthSeverity.Unhealthy
  else if decide (left = HealthSeverity.Degraded ∨ right = HealthSeverity.Degraded)
  then HealthSeverity.Degraded
  else if decide (left = HealthSeverity.Healthy ∨ right = HealthSeverity.Healthy)
  then HealthSeverity.Healthy
  else HealthSeverity.Unknown.
Definition severity (self : LatencyEchoHealth) : HealthSeverity.t :=
  combine_health (latency_severity self) (echo_severity self).

Record LobbyPreflight := mk_preflight {
  camera : DeviceHealth.t;
  microphone : DeviceHealth.t;
  speaker : DeviceHealth.t;
  signal : LatencyEchoHealth
}.
Definition is_ready (self : LobbyPreflight) : bool :=
  bool_decide (camera self = DeviceHealth.Ready ∨ camera self = DeviceHealth.Disabled) &&
  bool_decide (microphone self = DeviceHealth.Ready) &&
  bool_decide (speaker self = DeviceHealth.Ready) &&
  bool_decide (severity (signal self) ≠ HealthSeverity.Unhealthy).

Module InvitationState.
Inductive t := Available | Consumed (guest : Z) | Revoked.
End InvitationState.
Module InvitationStatus.
Inductive t := Available | Expired | Consumed (guest : Z) | Revoked.
End InvitationStatus.
#[global] Instance InvitationState_eq_dec : EqDecision InvitationState.t.
Proof. solve_decision. Defined.
#[global] Instance InvitationStatus_eq_dec : EqDecision InvitationStatus.t.
Proof. solve_decision. Defined.

Record Invitation := mk_invitation {
  invitation_id : Z;
  expires_at_ms : Z;
  reserved_slot : option Z;
  invitation_state : InvitationState.t
}.
Definition set_invitation_state (state : InvitationState.t) (self : Invitation) : Invitation :=
  mk_invitation (invitation_id self) (expires_at_ms self) (reserved_slot self) state.
Definition status_at (now_ms : Z) (self : Invitation) : InvitationStatus.t :=
  match invitation_state self with
  | InvitationState.Available =>
      if decide (expires_at_ms self ≤ now_ms) then InvitationStatus.Expired
      else InvitationStatus.Available
  | InvitationState.Consumed guest => InvitationStatus.Consumed guest
  | InvitationState.Revoked => InvitationStatus.Revoked
  end.

Inductive LobbyState := Waiting | Rejected (reason : string).
#[global] Instance LobbyState_eq_dec : EqDecision LobbyState.
Proof. solve_decision. Defined.
Record LobbyEntry := mk_entry {
  entry_identity : GuestIdentity;
  entry_invitation : Z;
  entry_slot : option Z;
  preflight : LobbyPreflight;
  lobby_state : LobbyState;
  entered_at_ms : Z
}.
Definition set_preflight (preflight : LobbyPreflight) (self : LobbyEntry) : LobbyEntry :=
  mk_entry (entry_identity self) (entry_invitation self) (entry_slot self) preflight
    (lobby_state self) (entered_at_ms self).
Definition set_lobby_state (state : LobbyState) (self : LobbyEntry) : LobbyEntry :=
  mk_entry (entry_identity self) (entry_invitation self) (entry_slot self) (preflight self)
    state (entered_at_ms self).

Module ReturnVideoSelection.
Inductive t := None | Program | Preview | Input (input : Z).
End ReturnVideoSelection.
Inductive TalkbackState := Off | On.
#[global] Instance TalkbackState_eq_dec : EqDecision TalkbackState.
Proof. solve_decision. Defined.
Inductive SessionConnection := Connected | Disconnected (reconnect_until_ms : Z).
#[global] Instance SessionConnection_eq_dec : EqDecision SessionConnection.
Proof. solve_decision. Defined.

Record GuestSession := mk_session {
  session_id : Z;
  session_identity : GuestIdentity;
  slot : Z;
  connection : SessionConnection;
  return_video : ReturnVideoSelection.t;
  talkback : TalkbackState;
  health : LatencyEchoHealth;
  admitted_at_ms : Z
}.
Definition set_connection (connection : SessionConnection) (self : GuestSession) : GuestSession :=
  mk_session (session_id self) (session_identity self) (slot self) connection
    (return_video self) (talkback self) (health self) (admitted_at_ms self).
Definition set_video (selection : ReturnVideoSelection.t) (self : GuestSession) : GuestSession :=
  mk_session (session_id self) (session_identity self) (slot self) (connection self)
    selection (talkback self) (health self) (admitted_at_ms self).
Definition set_talk (state : TalkbackState) (self : GuestSession) : GuestSession :=
  mk_session (session_id self) (session_identity self) (slot self) (connection self)
    (return_video self) state (health self) (admitted_at_ms self).
Definition set_health (health : LatencyEchoHealth) (self : GuestSession) : GuestSession :=
  mk_session (session_id self) (session_identity self) (slot self) (connection self)
    (return_video self) (talkback self) health (admitted_at_ms self).

Inductive MixSource := CleanProgram | GuestMicrophone (guest : Z) | ManagerTalkback.
Inductive MixDestination := Program | GuestReturn (guest : Z).
#[global] Instance MixSource_eq_dec : EqDecision MixSource.
Proof. solve_decision. Defined.
#[global] Instance MixDestination_eq_dec : EqDecision MixDestination.
Proof. solve_decision. Defined.
(** [Gain::UNITY] of [crates/media/fm-audio/src/lib.rs]. *)
Definition UNITY : f32 := f32_of_Z 1.
Record MixRoute := mk_route { source : MixSource; destination : MixDestination; gain : f32 }.

Inductive ChatAudience := Private (first second : Z) | Group (group : Z).
#[global] Instance ChatAudience_eq_dec : EqDecision ChatAudience.
Proof. solve_decision. Defined.
Definition private (left right : Z) : result GuestError ChatAudience :=
  if decide (left = right) then Err InvalidPrivateAudience
  else if decide (left < right) then Ok (Private left right) else Ok (Private right left).
Definition contains_private_guest (guest : Z) (self : ChatAudience) : bool :=
  match self with
  | Private first second => bool_decide (first = guest ∨ second = guest)
  | Group _ => false
  end.

Inductive RedactionFlag := Sender | Moderator.
Definition redaction_rank (self : RedactionFlag) : Z :=
  match self with
  | Sender => 0
  | Moderator => 1
  end.
#[global] Instance RedactionFlag_ord_key : OrdKey RedactionFlag :=
  λ x y, key_cmp (redaction_rank x) (redaction_rank y).
#[global] Instance RedactionFlag_ord_key_laws : OrdKeyLaws RedactionFlag.
Proof. by apply (ord_key_laws_via redaction_rank); [intros [] []|]. Qed.

Record ChatMessage := mk_chat {
  chat_id : Z;
  sender : Z;
  audience : ChatAudience;
  sent_at_ms : Z;
  body : option string;
  redaction_flags : btset RedactionFlag
}.
Definition is_redacted (self : ChatMessage) : bool := bool_decide (redaction_flags self ≠ []).
Definition redacted (flag : RedactionFlag) (self : ChatMessage) : ChatMessage :=
  mk_chat (chat_id self) (sender self) (audience self) (sent_at_ms self) None
    (bs_insert flag (redaction_flags self)).

(** ** Permissions of a manager *)

Inductive GuestScope := AllGuests | OneGuest (guest : Z).
Inductive ChatScope := AllChats | PrivateWith (guest : Z) | OneGroup (group : Z).
#[global] Instance GuestScope_eq_dec : EqDecision GuestScope.
Proof. solve_decision. Defined.
#[global] Instance ChatScope_eq_dec : EqDecision ChatScope.
Proof. solve_decision. Defined.
Inductive GuestManagerPermission :=
  | ManageInvitations
  | ManageLobby
  | ManageSession (scope : GuestScope)
  | SelectReturnVideo (scope : GuestScope)
  | UseTalkback (scope : GuestScope)
  | ModerateChat (scope : ChatScope)
  | ViewHealth (scope : GuestScope).
Definition guest_scope_allows (granted required : GuestScope) : bool :=
  bool_decide (granted = AllGuests) || bool_decide (granted = required).
Definition chat_scope_allows (granted required : ChatScope) : bool :=
  bool_decide (granted = AllChats) || bool_decide (granted = required).
Definition allows (required self : GuestManagerPermission) : bool :=
  match self, required with
  | ManageInvitations, ManageInvitations | ManageLobby, ManageLobby => true
  | ManageSession granted, ManageSession required
  | SelectReturnVideo granted, SelectReturnVideo required
  | UseTalkback granted, UseTalkback required
  | ViewHealth granted, ViewHealth required => guest_scope_allows granted required
  | ModerateChat granted, ModerateChat required => chat_scope_allows granted required
  | _, _ => false
  end.

(** ** The manager *)

Record GuestManager := mk_manager {
  invitations : btmap Z Invitation;
  identities : btmap Z GuestIdentity;
  lobby : btmap Z LobbyEntry;
  sessions : btmap Z GuestSession;
  chat_groups : btmap Z (btset Z);
  chat_messages : list ChatMessage
}.
Definition manager_default : GuestManager := mk_manager [] [] [] [] [] [].
Definition set_invitations (x : btmap Z Invitation) (self : GuestManager) : GuestManager :=
  mk_manager x (identities self) (lobby self) (sessions self) (chat_groups self) (chat_messages self).
Definition set_identities (x : btmap Z GuestIdentity) (self : GuestManager) : GuestManager :=
  mk_manager (invitations self) x (lobby self) (sessions self) (chat_groups self) (chat_messages self).
Definition set_lobby (x : btmap Z LobbyEntry) (self : GuestManager) : GuestManager :=
  mk_manager (invitations self) (identities self) x (sessions self) (chat_groups self)
    (chat_messages self).
Definition set_sessions (x : btmap Z GuestSession) (self : GuestManager) : GuestManager :=
  mk_manager (invitations self) (identities self) (lobby self) x (chat_groups self)
    (chat_messages self).
Definition set_chat_groups (x : btmap Z (btset Z)) (self : GuestManager) : GuestManager :=
  mk_manager (invitations self) (identities self) (lobby self) (sessions self) x
    (chat_messages self).
Definition set_chat_messages (x : list ChatMessage) (self : GuestManager) : GuestManager :=
  mk_manager (invitations self) (identities self) (lobby self) (sessions self)
    (chat_groups self) x.

Definition slot_in_session (slot' : Z) (self : GuestManager) : bool :=
  existsb (λ session, bool_decide (slot session = slot')) (bt_values (sessions self)).
Definition slot_is_reserved (slot' now_ms : Z) (except_lobby_guest : option Z)
    (self : GuestManager) : bool :=
  slot_in_session slot' self ||
  existsb (λ invitation,
      bool_decide (reserved_slot invitation = Some slot') &&
      bool_decide (status_at now_ms invitation = InvitationStatus.Available))
    (bt_values (invitations self)) ||
  existsb (λ p,
      bool_decide (Some p.1 ≠ except_lobby_guest) &&
      bool_decide (lobby_state p.2 = Waiting) &&
      bool_decide (entry_slot p.2 = Some slot'))
    (lobby self).

(** Invitations. *)
Definition create_invitation (id expires_at_ms : Z) (reserved_slot : option Z) (now_ms : Z) :
    stm GuestManager GuestError unit :=
  self ← st_get;
  _ ← st_require (bt_get id (invitations self) = None) InvitationExists;
  _ ← st_require (now_ms < expires_at_ms) InvalidExpiry;
  _ ← match reserved_slot with
      | Some slot =>
          if slot_is_reserved slot now_ms None self then mthrow (SlotUnavailable slot) else mret tt
      | None => mret tt
      end;
  st_put (set_invitations
    (bt_insert id (mk_invitation id expires_at_ms reserved_slot InvitationState.Available)
       (invitations self)) self).

Definition revoke_invitation (id : Z) : stm GuestManager GuestError unit :=
  self ← st_get;
  invitation ← st_lift (ok_or InvitationNotFound (bt_get id (invitations self)));
  match invitation_state invitation with
  | InvitationState.Available =>
      st_put (set_invitations
        (bt_insert id (set_invitation_state InvitationState.Revoked invitation) (invitations self)) self)
  | InvitationState.Consumed _ => mthrow InvitationConsumed
  | InvitationState.Revoked => mthrow InvitationRevoked
  end.

(** The lobby. *)
Definition enter_lobby (invitation : Z) (identity : GuestIdentity) (preflight : LobbyPreflight)
    (now_ms : Z) : stm GuestManager GuestError unit :=
  self ← st_get;
  _ ← st_require (bt_get (guest_id identity) (identities self) = None) GuestExists;
  found ← st_lift (ok_or InvitationNotFound (bt_get invitation (invitations self)));
  _ ← match status_at now_ms found with
      | InvitationStatus.Available => mret tt
      | InvitationStatus.Expired => mthrow InvitationExpired
      | InvitationStatus.Consumed _ => mthrow InvitationConsumed
      | InvitationStatus.Revoked => mthrow InvitationRevoked
      end;
  _ ← st_modify (set_invitations
        (bt_insert invitation
           (set_invitation_state (InvitationState.Consumed (guest_id identity)) found)
           (invitations self)));
  _ ← st_modify (set_identities (bt_insert (guest_id identity) identity (identities self)));
  st_modify (set_lobby
    (bt_insert (guest_id identity)
       (mk_entry identity invitation (reserved_slot found) preflight Waiting now_ms) (lobby self))).

Definition update_preflight (guest : Z) (preflight : LobbyPreflight) :
    stm GuestManager GuestError unit :=
  self ← st_get;
  entry ← st_lift (ok_or LobbyEntryNotFound (bt_get guest (lobby self)));
  _ ← st_require (lobby_state entry = Waiting) LobbyEntryNotWaiting;
  st_put (set_lobby (bt_insert guest (set_preflight preflight entry) (lobby self)) self).

Definition reject_lobby_guest (guest : Z) (reason : string) : stm GuestManager GuestError unit :=
  _ ← st_require (text_invalid MAX_REASON_BYTES reason = false) InvalidReason;
  self ← st_get;
  entry ← st_lift (ok_or LobbyEntryNotFound (bt_get guest (lobby self)));
  _ ← st_require (lobby_state entry = Waiting) LobbyEntryNotWaiting;
  st_put (set_lobby (bt_insert guest (set_lobby_state (Rejected reason) entry) (lobby self)) self).

Definition admit_lobby_guest (guest session now_ms : Z) : stm GuestManager GuestError Z :=
  self ← st_get;
  entry ← st_lift (ok_or LobbyEntryNotFound (bt_get guest (lobby self)));
  _ ← st_require (lobby_state entry = Waiting) LobbyEntryNotWaiting;
  _ ← st_require (is_ready (preflight entry) = true) PreflightNotReady;
  _ ← st_require (length (sessions self) < MAX_GUEST_SESSIONS)%nat SessionLimitReached;
  _ ← st_require (Forall (λ s, session_id s ≠ session) (bt_values (sessions self))) SessionExists;
  slot ← match entry_slot entry with
         | Some slot =>
             if slot_in_session slot self then mthrow (SlotUnavailable slot) else mret slot
         | None =>
             st_lift (ok_or SessionLimitReached
               (head (filter (λ slot, slot_is_reserved slot now_ms (Some guest) self = false)
                        (seqZ 1 8))))
         end;
  _ ← st_modify (set_sessions
        (bt_insert guest
           (mk_session session (entry_identity entry) slot Connected ReturnVideoSelection.Program
              Off (signal (preflight entry)) now_ms) (sessions self)));
  _ ← st_modify (set_lobby (bt_remove guest (lobby self)));
  mret slot.

(** Sessions. *)
(** [self.sessions.get_mut(&guest_id).ok_or(SessionNotFound)?] and an assignment. *)
Definition with_session (guest : Z) (f : GuestSession → GuestSession) :
    stm GuestManager GuestError unit :=
  self ← st_get;
  session ← st_lift (ok_or SessionNotFound (bt_get guest (sessions self)));
  st_put (set_sessions (bt_insert guest (f session) (sessions self)) self).

Definition disconnect_guest (guest now_ms reconnect_until_ms : Z) :
    stm GuestManager GuestError unit :=
  _ ← st_require (now_ms < reconnect_until_ms) InvalidReconnectWindow;
  with_session guest (set_connection (Disconnected reconnect_until_ms)).

Definition reconnect_guest (guest now_ms : Z) : stm GuestManager GuestError unit :=
  self ← st_get;
  session ← st_lift (ok_or SessionNotFound (bt_get guest (sessions self)));
  _ ← match connection session with
      | Connected => mthrow SessionAlreadyConnected
      | Disconnected reconnect_until_ms =>
          if decide (reconnect_until_ms < now_ms) then mthrow ReconnectExpired else mret tt
      end;
  st_put (set_sessions (bt_insert guest (set_connection Connected session) (sessions self)) self).

Definition end_session (guest : Z) : stm GuestManager GuestError GuestSession :=
  self ← st_get;
  session ← st_lift (ok_or SessionNotFound (bt_get guest (sessions self)));
  _ ← st_put (set_sessions (bt_remove guest (sessions self)) self);
  mret session.

Definition set_return_video (guest : Z) (selection : ReturnVideoSelection.t) :
    stm GuestManager GuestError unit := with_session guest (set_video selection).
Definition set_talkback (guest : Z) (state : TalkbackState) : stm GuestManager GuestError unit :=
  with_session guest (set_talk state).
Definition update_session_health (guest : Z) (health : LatencyEchoHealth) :
    stm GuestManager GuestError unit := with_session guest (set_health health).

(** Mix-minus routing.  No two sessions have the same slot and guest, so the order of
    equal keys does not matter to the sort. *)
Definition session_le (x y : GuestSession) : Prop :=
  key_le (slot x, guest_id (session_identity x)) (slot y, guest_id (session_identity y)).
#[global] Instance session_le_dec x y : Decision (session_le x y).
Proof. unfold session_le. apply _. Defined.
Definition connected (self : GuestManager) : list GuestSession :=
  merge_sort session_le
    (filter (λ session, connection session = Connected) (bt_values (sessions self))).
Definition program_route (session : GuestSession) : MixRoute :=
  mk_route (GuestMicrophone (guest_id (session_identity session))) Program UNITY.
Definition return_routes (all : list GuestSession) (d : GuestSession) : list MixRoute :=
  let target := GuestReturn (guest_id (session_identity d)) in
  mk_route CleanProgram target UNITY ::
  ((λ s, mk_route (GuestMicrophone (guest_id (session_identity s))) target UNITY) <$>
     filter (λ s, guest_id (session_identity s) ≠ guest_id (session_identity d)) all) ++
  (if decide (talkback d = On) then [mk_route ManagerTalkback target UNITY] else []).
Definition mix_minus_matrix (self : GuestManager) : list MixRoute :=
  (program_route <$> connected self) ++ (connected self ≫= return_routes (connected self)).

(** Chat. *)
Definition create_chat_group (id : Z) (members : list Z) : stm GuestManager GuestError unit :=
  self ← st_get;
  _ ← st_require (bt_get id (chat_groups self) = None) ChatGroupExists;
  _ ← st_require (length (chat_groups self) < MAX_CHAT_GROUPS)%nat ChatGroupLimitReached;
  let members := bs_of_list members in
  _ ← st_require (members ≠ []) ChatGroupEmpty;
  _ ← st_require (length members ≤ MAX_CHAT_GROUP_MEMBERS)%nat ChatGroupTooLarge;
  _ ← st_require (Forall (λ guest, is_Some (bt_get guest (identities self))) members)
        ChatParticipantNotFound;
  st_put (set_chat_groups (bt_insert id members (chat_groups self)) self).

Definition send_chat (id sender : Z) (audience : ChatAudience) (body : string) (sent_at_ms : Z) :
    stm GuestManager GuestError unit :=
  _ ← st_require (text_invalid MAX_CHAT_BODY_BYTES body = false) InvalidChatBody;
  self ← st_get;
  _ ← st_require (is_Some (bt_get sender (identities self))) ChatParticipantNotFound;
  _ ← st_require (Forall (λ message, chat_id message ≠ id) (chat_messages self)) ChatMessageExists;
  _ ← match audience with
      | Private first second =>
          _ ← st_require (first ≠ second ∧ contains_private_guest sender audience = true)
                ChatAccessDenied;
          st_require (is_Some (bt_get first (identities self)) ∧
                      is_Some (bt_get second (identities self))) ChatParticipantNotFound
      | Group group =>
          members ← st_lift (ok_or ChatGroupNotFound (bt_get group (chat_groups self)));
          st_require (sender ∈ members) ChatAccessDenied
      end;
  let kept := if decide (length (chat_messages self) = MAX_CHAT_MESSAGES)
              then tail (chat_messages self) else chat_messages self in
  st_put (set_chat_messages
    (kept ++ [mk_chat id sender audience sent_at_ms (Some body) []]) self).

(** [iter_mut().find(..)] and the changes to what it finds. *)
Fixpoint redact_first (id : Z) (flag : RedactionFlag) (l : list ChatMessage) :
    option (list ChatMessage) :=
  match l with
  | [] => None
  | message :: l =>
      if decide (chat_id message = id) then Some (redacted flag message :: l)
      else (message ::.) <$> redact_first id flag l
  end.
Definition redact_chat (id : Z) (flag : RedactionFlag) : stm GuestManager GuestError unit :=
  self ← st_get;
  messages ← st_lift (ok_or ChatMessageNotFound (redact_first id flag (chat_messages self)));
  st_put (set_chat_messages messages self).

Definition audience_contains (audience : ChatAudience) (guest : Z) (self : GuestManager) :
    result GuestError bool :=
  match audience with
  | Private _ _ => Ok (contains_private_guest guest audience)
  | Group group =>
      ok_or ChatGroupNotFound
        ((λ members, bool_decide (guest ∈ members)) <$> bt_get group (chat_groups self))
  end.
Definition chat_messages_for_manager (a : ChatAudience) (self : GuestManager) : list ChatMessage :=
  filter (λ message, audience message = a) (chat_messages self).
Definition chat_messages_for (viewer : Z) (a : ChatAudience) (self : GuestManager) :
    result GuestError (list ChatMessage) :=
  contained ← audience_contains a viewer self;
  if negb contained then Err ChatAccessDenied
  else Ok (filter (λ message, audience message = a) (chat_messages self)).

(** ** Histories *)

Inductive guest_op :=
  | OpInvite (id expires_at_ms : Z) (reserved_slot : option Z) (now_ms : Z)
  | OpRevoke (id : Z)
  | OpEnter (invitation : Z) (identity : GuestIdentity) (preflight : LobbyPreflight) (now_ms : Z)
  | OpPreflight (guest : Z) (preflight : LobbyPreflight)
  | OpReject (guest : Z) (reason : string)
  | OpAdmit (guest session now_ms : Z)
  | OpDisconnect (guest now_ms reconnect_until_ms : Z)
  | OpReconnect (guest now_ms : Z)
  | OpEnd (guest : Z)
  | OpVideo (guest : Z) (selection : ReturnVideoSelection.t)
  | OpTalkback (guest : Z) (state : TalkbackState)
  | OpHealth (guest : Z) (health : LatencyEchoHealth)
  | OpGroup (id : Z) (members : list Z)
  | OpSend (id sender : Z) (audience : ChatAudience) (body : string) (sent_at_ms : Z)
  | OpRedact (id : Z) (flag : RedactionFlag).
Inductive guest_answer := Done | Seated (slot : Z) | Ended (session : GuestSession).

Definition st_done {S E} (m : stm S E unit) : stm S E guest_answer := _ ← m; mret Done.
Definition guest_step (op : guest_op) : stm GuestManager GuestError guest_answer :=
  match op with
  | OpInvite id expires slot now => st_done (create_invitation id expires slot now)
  | OpRevoke id => st_done (revoke_invitation id)
  | OpEnter invitation identity preflight now =>
      st_done (enter_lobby invitation identity preflight now)
  | OpPreflight guest preflight => st_done (update_preflight guest preflight)
  | OpReject guest reason => st_done (reject_lobby_guest guest reason)
  | OpAdmit guest session now => slot ← admit_lobby_guest guest session now; mret (Seated slot)
  | OpDisconnect guest now until => st_done (disconnect_guest guest now until)
  | OpReconnect guest now => st_done (reconnect_guest guest now)
  | OpEnd guest => session ← end_session guest; mret (Ended session)
  | OpVideo guest selection => st_done (set_return_video guest selection)
  | OpTalkback guest state => st_done (set_talkback guest state)
  | OpHealth guest health => st_done (update_session_health guest health)
  | OpGroup id members => st_done (create_chat_group id members)
  | OpSend id sender audience body at_ => st_done (send_chat id sender audience body at_)
  | OpRedact id flag => st_done (redact_chat id flag)
  end.
(** The manager after a history of calls, and the calls it answered without an error. *)
Fixpoint guest_run (ops : list guest_op) (self : GuestManager) :
    GuestManager * list (guest_op * guest_answer) :=
  match ops with
  | [] => (self, [])
  | op :: ops =>
      let '(self', r) := guest_step op self in
      let '(final, done) := guest_run ops self' in
      (final, match r with Ret a => (op, a) :: done | _ => done end)
  end.
