(* ===== verification/GuestLaws.v ===== *)
(** Laws of guests that the theorems of [GuestSafety] rest on: histories of calls and
    induction over them, the roster invariant of invitations, lobby and sessions, the slots
    that are taken or reserved, who holds and who entered what ([booked]), and what a call
    does to a session. *)
From S2P Require Import Prelude BTree Floats Guest.
#[local] Open Scope Z_scope.

(** ** Histories *)

(** A slot in an argument is a [GuestSlot]. *)
Definition op_ok (op : guest_op) : Prop :=
  match op with
  | OpInvite _ _ (Some k) _ => 1 ≤ k ≤ 8
  | _ => True
  end.
#[global] Instance op_ok_dec op : Decision (op_ok op).
Proof. destruct op; simpl; try apply _. destruct reserved_slot; apply _. Defined.

(** The times that calls are given do not run back. *)
Definition op_time (now : Z) (op : guest_op) : Z :=
  match op with
  | OpInvite _ _ _ t | OpEnter _ _ _ t | OpAdmit _ _ t | OpDisconnect _ t _ | OpReconnect _ t => t
  | _ => now
  end.
Fixpoint timed (now : Z) (ops : list guest_op) : Prop :=
  match ops with
  | [] => True
  | op :: ops => now ≤ op_time now op ∧ timed (op_time now op) ops
  end.
Definition clock (now : Z) (ops : list guest_op) : Z := foldl op_time now ops.
#[global] Instance timed_dec now ops : Decision (timed now ops).
Proof. revert now. induction ops; intros; simpl; apply _. Defined.

(** A refused call changes nothing, and none panics. *)
Lemma guest_step_cases op m :
  wp (guest_step op) (λ r m', match r with Ret _ => True | Throw _ => m' = m | Panic => False end) m.
Proof.
  destruct op; unfold guest_step, st_done, create_invitation, revoke_invitation, enter_lobby,
    update_preflight, reject_lobby_guest, admit_lobby_guest, disconnect_guest, reconnect_guest,
    end_session, set_return_video, set_talkback, update_session_health, with_session,
    create_chat_group, send_chat, redact_chat; wp_run; done.
Qed.
Lemma guest_step_Throw op m m' e : guest_step op m = (m', Throw e) → m' = m.
Proof. intros H. by apply (wp_elim _ _ _ _ _ (guest_step_cases op m) H). Qed.
Lemma guest_step_Panic op m m' : guest_step op m ≠ (m', Panic).
Proof. intros H. by apply (wp_elim _ _ _ _ _ (guest_step_cases op m) H). Qed.

Lemma guest_run_cons op ops m m' done :
  guest_run (op :: ops) m = (m', done) →
  (∃ m1 a done1, guest_step op m = (m1, Ret a) ∧ guest_run ops m1 = (m', done1) ∧
                 done = (op, a) :: done1) ∨
  (∃ e, guest_step op m = (m, Throw e) ∧ guest_run ops m = (m', done)).
Proof.
  simpl. destruct (guest_step op m) as [m1 [a|e|]] eqn:Hs.
  - destruct (guest_run ops m1) as [m2 done1] eqn:Hr. intros [= <- <-]. left. eauto 10.
  - apply guest_step_Throw in Hs as H. subst m1.
    destruct (guest_run ops m) as [m2 done1] eqn:Hr. intros [= <- <-]. right. eauto.
  - by apply guest_step_Panic in Hs.
Qed.

(** An invariant of the manager, the clock and the accepted calls. *)
Lemma guest_run_invariant (I : Z → GuestManager → list (guest_op * guest_answer) → Prop)
    ops now m done0 m' done :
  (∀ op now m done, op_ok op → now ≤ op_time now op → I now m done →
     wp (guest_step op) (λ r m', match r with
                                 | Ret a => I (op_time now op) m' (done ++ [(op, a)])
                                 | _ => True
                                 end) m) →
  (∀ now now' m done, now ≤ now' → I now m done → I now' m done) →
  Forall op_ok ops → timed now ops → I now m done0 → guest_run ops m = (m', done) →
  I (clock now ops) m' (done0 ++ done).
Proof.
  intros Hstep Hlater. revert now m done0 done.
  induction ops as [|op ops IH]; intros now m done0 done Hok Ht HI Hr.
  { simpl in Hr. simplify_eq. by rewrite app_nil_r. }
  apply Forall_cons in Hok as [Hop Hok]. destruct Ht as [Hnow Ht].
  apply guest_run_cons in Hr as [(m1&a&done1&Hs&Hr&->)|(e&Hs&Hr)].
  - pose proof (wp_elim _ _ _ _ _ (Hstep op now m done0 Hop Hnow HI) Hs) as H. simpl in H.
    rewrite cons_middle, (assoc_L (++)). by apply (IH _ m1).
  - apply (IH _ m); [done|done|by apply Hlater with now|done].
Qed.
(** An invariant that does not depend on the clock. *)
Lemma guest_run_untimed (I : GuestManager → list (guest_op * guest_answer) → Prop)
    ops m done0 m' done :
  (∀ op m done, op_ok op → I m done →
     wp (guest_step op) (λ r m', match r with Ret a => I m' (done ++ [(op, a)]) | _ => True end) m) →
  Forall op_ok ops → I m done0 → guest_run ops m = (m', done) → I m' (done0 ++ done).
Proof.
  intros Hstep. revert m done0 done.
  induction ops as [|op ops IH]; intros m done0 done Hok HI Hr.
  { simpl in Hr. simplify_eq. by rewrite app_nil_r. }
  apply Forall_cons in Hok as [Hop Hok].
  apply guest_run_cons in Hr as [(m1&a&done1&Hs&Hr&->)|(e&Hs&Hr)]; [|by apply (IH m)].
  pose proof (wp_elim _ _ _ _ _ (Hstep op m done0 Hop HI) Hs) as H. simpl in H.
  rewrite cons_middle, (assoc_L (++)). by apply (IH m1).
Qed.

(** ** The roster *)

Definition slot_ok (k : option Z) : Prop := match k with Some k => 1 ≤ k ≤ 8 | None => True end.

Record roster_ok (m : GuestManager) : Prop := mk_roster_ok {
  ro_invitations : bt_sorted (invitations m);
  ro_identities : bt_sorted (identities m);
  ro_lobby : bt_sorted (lobby m);
  ro_sessions : bt_sorted (sessions m);
  ro_invitation : ∀ i v, bt_get i (invitations m) = Some v → slot_ok (reserved_slot v);
  ro_entry : ∀ g e, bt_get g (lobby m) = Some e →
    guest_id (entry_identity e) = g ∧ is_Some (bt_get g (identities m)) ∧
    bt_get g (sessions m) = None ∧ slot_ok (entry_slot e);
  ro_session : ∀ g s, bt_get g (sessions m) = Some s →
    guest_id (session_identity s) = g ∧ is_Some (bt_get g (identities m)) ∧ 1 ≤ slot s ≤ 8;
  ro_slots : ∀ g1 g2 s1 s2, bt_get g1 (sessions m) = Some s1 → bt_get g2 (sessions m) = Some s2 →
    slot s1 = slot s2 → g1 = g2
}.

Lemma slot_in_session_true k m : bt_sorted (sessions m) →
  slot_in_session k m = true ↔ ∃ g s, bt_get g (sessions m) = Some s ∧ slot s = k.
Proof.
  intros Hs. unfold slot_in_session. rewrite existsb_exists. split.
  - intros (s&Hin&Hk%bool_decide_eq_true_1). apply list_elem_of_In, bt_elem_values in Hin as [g Hg]; eauto.
  - intros (g&s&Hg&Hk). exists s. rewrite bool_decide_true by done. split; [|done].
    apply list_elem_of_In, bt_elem_values; eauto.
Qed.
Lemma slot_in_session_false k m g s : bt_sorted (sessions m) →
  slot_in_session k m = false → bt_get g (sessions m) = Some s → slot s ≠ k.
Proof.
  intros Hs Hf Hg Hk. assert (slot_in_session k m = true) as Ht; [|congruence].
  apply slot_in_session_true; eauto.
Qed.

(** Replacing a session by one in the same slot of the same guest. *)
Lemma roster_update m g s s' :
  bt_get g (sessions m) = Some s → slot s' = slot s → session_identity s' = session_identity s →
  roster_ok m → roster_ok (set_sessions (bt_insert g s' (sessions m)) m).
Proof.
  intros Hg Hslot Hid H. destruct H. split; simpl; try done; try (by apply bt_insert_sorted).
  - intros g' e He. destruct (ro_entry0 _ _ He) as (?&?&Hn&?). split_and!; try done.
    rewrite bt_get_insert. case_decide; congruence.
  - intros g' x. rewrite bt_get_insert. case_decide; [|eauto]. intros [= <-]. subst g'.
    destruct (ro_session0 _ _ Hg) as (?&?&?). rewrite Hid, Hslot. done.
  - intros g1 g2 s1 s2. rewrite !bt_get_insert.
    repeat case_decide; intros; simplify_eq; try done; rewrite ?Hslot in *; eauto.
Qed.
(** Replacing a lobby entry by one of the same guest and reservation. *)
Lemma roster_entry m g e e' :
  bt_get g (lobby m) = Some e → entry_identity e' = entry_identity e → entry_slot e' = entry_slot e →
  roster_ok m → roster_ok (set_lobby (bt_insert g e' (lobby m)) m).
Proof.
  intros Hg Hid Hslot H. destruct H. split; simpl; try done; try (by apply bt_insert_sorted).
  intros g' x. rewrite bt_get_insert. case_decide; [|eauto]. intros [= <-]. subst g'.
  rewrite Hid, Hslot. eauto.
Qed.

Lemma head_filter_seqZ (P : Z → Prop) `{∀ x, Decision (P x)} a n k :
  head (filter P (seqZ a n)) = Some k → P k ∧ a ≤ k < a + n ∧ ∀ x, a ≤ x < k → ¬ P x.
Proof.
  destruct (decide (0 ≤ n)) as [Hn|Hn]; [|by rewrite seqZ_nil by lia].
  revert a. pattern n. apply natlike_ind; [| |done].
  { intros a. by rewrite seqZ_nil by lia. }
  intros x Hx IH a. rewrite seqZ_cons by lia. rewrite filter_cons. case_decide as HP; simpl.
  - intros [= <-]. split_and!; [done|lia..|intros; lia].
  - rewrite Z.pred_succ. intros (?&?&Hlow)%IH. split_and!; [done|lia|lia|].
    intros y Hy. destruct (decide (y = a)) as [->|]; [done|]. apply Hlow. lia.
Qed.
Lemma head_filter_seqZ_None (P : Z → Prop) `{∀ x, Decision (P x)} a n x :
  head (filter P (seqZ a n)) = None → a ≤ x < a + n → ¬ P x.
Proof.
  intros Hh Hx HP. assert (Hin : x ∈ filter P (seqZ a n)).
  { apply list_elem_of_filter. split; [done|]. by apply elem_of_seqZ. }
  destruct (filter P (seqZ a n)); [by apply not_elem_of_nil in Hin|done].
Qed.
Lemma seqZ_head_bounds now g m k :
  head (filter (λ k, slot_is_reserved k now (Some g) m = false) (seqZ 1 8)) = Some k → 1 ≤ k ≤ 8.
Proof. intros (_&?&_)%head_filter_seqZ. lia. Qed.

Lemma roster_admit m g e s :
  bt_get g (lobby m) = Some e → guest_id (session_identity s) = guest_id (entry_identity e) →
  1 ≤ slot s ≤ 8 → slot_in_session (slot s) m = false →
  roster_ok m →
  roster_ok (set_lobby (bt_remove g (lobby m)) (set_sessions (bt_insert g s (sessions m)) m)).
Proof.
  intros Hg Hid Hslot Hfree H. destruct H.
  split; simpl; try done; try (by apply bt_insert_sorted); try (by apply bt_remove_sorted).
  - intros g' x. rewrite bt_get_remove. case_decide; [done|]. intros (?&?&Hn&?)%ro_entry0.
    split_and!; try done. by rewrite bt_get_insert_ne.
  - intros g' x. rewrite bt_get_insert. case_decide; [|eauto]. intros [= <-]. subst g'.
    destruct (ro_entry0 _ _ Hg) as (?&?&_). split_and!; [congruence|done|lia..].
  - intros g1 g2 s1 s2. rewrite !bt_get_insert.
    repeat case_decide; intros; simplify_eq; try done; [| |by eauto]; exfalso;
      by eapply (slot_in_session_false _ m).
Qed.
Lemma roster_enter m i v identity pf now :
  bt_get (guest_id identity) (identities m) = None → bt_get i (invitations m) = Some v →
  roster_ok m →
  roster_ok (set_lobby (bt_insert (guest_id identity)
      (mk_entry identity i (reserved_slot v) pf Waiting now) (lobby m))
    (set_identities (bt_insert (guest_id identity) identity (identities m))
      (set_invitations (bt_insert i
         (set_invitation_state (InvitationState.Consumed (guest_id identity)) v) (invitations m)) m))).
Proof.
  intros Hnew Hi H. destruct H.
  assert (Hkeep : ∀ g, is_Some (bt_get g (identities m)) →
    is_Some (bt_get g (bt_insert (guest_id identity) identity (identities m)))).
  { intros g. rewrite bt_get_insert. by case_decide. }
  split; simpl; try done; try (by apply bt_insert_sorted).
  - intros i' x. rewrite bt_get_insert. case_decide; [|eauto]. intros [= <-]. simpl. eauto.
  - intros g' x. rewrite bt_get_insert. case_decide as Hg.
    + intros [= <-]. subst g'. simpl. rewrite bt_get_insert_eq. split_and!; [done|done| |by eauto].
      destruct (bt_get _ (sessions m)) eqn:Hs; [|done].
      destruct (ro_session0 _ _ Hs) as (_&[? ?]&_). congruence.
    + intros (?&?&?&?)%ro_entry0. eauto.
  - intros g' x (?&?&?)%ro_session0. eauto.
Qed.
Lemma roster_invite m i v : slot_ok (reserved_slot v) →
  roster_ok m → roster_ok (set_invitations (bt_insert i v (invitations m)) m).
Proof.
  intros Hk H. destruct H. split; simpl; try done; try (by apply bt_insert_sorted).
  intros i' x. rewrite bt_get_insert. case_decide; [|eauto]. by intros [= <-].
Qed.
Lemma roster_end m g : roster_ok m → roster_ok (set_sessions (bt_remove g (sessions m)) m).
Proof.
  intros H. destruct H. split; simpl; try done; try (by apply bt_remove_sorted).
  - intros g' e (?&?&Hn&?)%ro_entry0. split_and!; try done. rewrite bt_get_remove. by case_decide.
  - intros g' x. rewrite bt_get_remove. case_decide; [done|]. eauto.
  - intros g1 g2 s1 s2. rewrite !bt_get_remove. repeat case_decide; try done. eauto.
Qed.

(** Runs a call to the end and turns what it looked up into equations. *)
Ltac guest_unfold :=
  unfold guest_step, st_done, create_invitation, revoke_invitation, enter_lobby,
    update_preflight, reject_lobby_guest, admit_lobby_guest, disconnect_guest, reconnect_guest,
    end_session, set_return_video, set_talkback, update_session_health, with_session,
    create_chat_group, send_chat, redact_chat.
Ltac guest_run :=
  guest_unfold; wp_run; try done;
  repeat match goal with
         | H : ok_or _ _ = Ok _ |- _ => apply ok_or_Ok in H
         | H : ok_or _ _ = Err _ |- _ => clear H
         | H : negb _ = _ |- _ => apply negb_true_iff in H || apply negb_false_iff in H
         end.

(** The roster is in the invitations, identities, lobby and sessions. *)
Lemma roster_same m m' :
  invitations m' = invitations m → identities m' = identities m → lobby m' = lobby m →
  sessions m' = sessions m → roster_ok m → roster_ok m'.
Proof.
  intros Hi Hd Hl Hs H. destruct H. split; rewrite ?Hi, ?Hd, ?Hl, ?Hs; done.
Qed.

(** ** Slots *)

(** Who holds a slot: a session, a waiting guest or an open invitation that reserves it. *)
Inductive holder := HSession (guest : Z) | HWaiting (guest : Z) | HInvitation (id : Z).
Definition holds (now : Z) (m : GuestManager) (h : holder) (k : Z) : Prop :=
  match h with
  | HSession g => ∃ s, bt_get g (sessions m) = Some s ∧ slot s = k
  | HWaiting g => ∃ e, bt_get g (lobby m) = Some e ∧ lobby_state e = Waiting ∧ entry_slot e = Some k
  | HInvitation i => ∃ v, bt_get i (invitations m) = Some v ∧
      status_at now v = InvitationStatus.Available ∧ reserved_slot v = Some k
  end.

(** [slot_is_reserved] finds every holder but the guest it is asked to leave out. *)
Lemma slot_is_reserved_false k now except m : roster_ok m →
  slot_is_reserved k now except m = false ↔
  ∀ h, holds now m h k → ∃ g, except = Some g ∧ h = HWaiting g.
Proof.
  intros H. unfold slot_is_reserved. rewrite !orb_false_iff. split.
  - intros [[Hs Hi] Hl] [g|g|i].
    + intros (s&Hg&Hk). by apply (slot_in_session_false k m g s (ro_sessions _ H) Hs Hg) in Hk.
    + intros (e&Hg&Hw&Hk). exists g. split; [|done]. destruct (decide (Some g = except)) as [|Hne]; [done|].
      exfalso. rewrite <-not_true_iff_false, existsb_exists in Hl. apply Hl.
      exists (g, e). split; [by apply list_elem_of_In, bt_get_elem|]. simpl.
      by rewrite !bool_decide_true.
    + intros (v&Hg&Ha&Hk). exfalso. rewrite <-not_true_iff_false, existsb_exists in Hi. apply Hi.
      exists v. rewrite !bool_decide_true by done. split; [|done].
      apply list_elem_of_In, bt_elem_values; [apply H|eauto].
  - intros Hh. rewrite <-!not_true_iff_false. split_and!.
    + intros (g&s&Hg&Hk)%slot_in_session_true; [|apply H].
      destruct (Hh (HSession g)) as (?&_&?); [by exists s|done].
    + intros (v&Hv&[Hk%bool_decide_eq_true_1 Ha%bool_decide_eq_true_1]%andb_true_iff)%existsb_exists.
      apply list_elem_of_In, bt_elem_values in Hv as [i Hi]; [|apply H].
      destruct (Hh (HInvitation i)) as (?&_&?); [by exists v|done].
    + intros ([g e]&Hv&Ht)%existsb_exists. simpl in Ht.
      rewrite !andb_true_iff, !bool_decide_eq_true in Ht. destruct Ht as [[Hne Hw] Hk].
      apply list_elem_of_In, bt_elem_get in Hv; [|apply H].
      destruct (Hh (HWaiting g)) as (?&->&[= <-]); [by exists e|done].
Qed.
Lemma slot_is_reserved_true k now except m : roster_ok m →
  slot_is_reserved k now except m = true → ∃ h, holds now m h k.
Proof.
  intros H. unfold slot_is_reserved. rewrite !orb_true_iff. intros [[Hs|Hi]|Hl].
  - apply slot_in_session_true in Hs as (g&s&?&?); [|apply H]. by exists (HSession g), s.
  - apply existsb_exists in Hi as (v&Hv&[Hk%bool_decide_eq_true_1 Ha%bool_decide_eq_true_1]%andb_true_iff).
    apply list_elem_of_In, bt_elem_values in Hv as [i Hi]; [|apply H]. by exists (HInvitation i), v.
  - apply existsb_exists in Hl as ([g e]&Hv&Ht). simpl in Ht.
    rewrite !andb_true_iff, !bool_decide_eq_true in Ht. destruct Ht as [[Hne Hw] Hk].
    apply list_elem_of_In, bt_elem_get in Hv; [|apply H]. by exists (HWaiting g), e.
Qed.
Lemma unreserved_slot k now except m : roster_ok m →
  slot_is_reserved k now except m = false → slot_in_session k m = false.
Proof. intros _. unfold slot_is_reserved. rewrite !orb_false_iff. tauto. Qed.

Lemma roster_step op m : op_ok op → roster_ok m → wp (guest_step op) (λ _ m', roster_ok m') m.
Proof.
  intros Hok H. destruct op; guest_run;
    eauto using roster_invite, roster_end, roster_enter, roster_update, roster_entry.
  all: try (by apply (roster_same m)).
  - eapply roster_invite; [|done]. simpl. by eapply ro_invitation.
  - eapply roster_admit; [done|done| |done|done]. simpl.
    eapply ro_entry in H0 as (?&?&?&Hk); [|done]. by rewrite Heqo in Hk.
  - select (head _ = _) (fun Hh => apply head_filter_seqZ in Hh as (Hk&?&_)).
    eapply roster_admit; [done|done|simpl; lia|by eapply unreserved_slot|done].
Qed.

Definition exclusive (now : Z) (m : GuestManager) : Prop :=
  ∀ h1 h2 k, holds now m h1 k → holds now m h2 k → h1 = h2.

Lemma holds_later now now' m h k : now ≤ now' → holds now' m h k → holds now m h k.
Proof.
  intros Hn. destruct h; simpl; try done. intros (v&Hv&Ha&Hk). exists v. split_and!; [done| |done].
  revert Ha. unfold status_at. destruct (invitation_state v); try done.
  repeat case_decide; try done. lia.
Qed.
Lemma exclusive_later now now' m : now ≤ now' → exclusive now m → exclusive now' m.
Proof. intros Hn H h1 h2 k H1 H2. by apply (H h1 h2 k); apply holds_later with now'. Qed.
Lemma exclusive_fewer now m m' :
  (∀ h k, holds now m' h k → holds now m h k) → exclusive now m → exclusive now m'.
Proof. intros Hf H h1 h2 k H1 H2. by apply (H h1 h2 k); apply Hf. Qed.
(** One holder more, of a slot that no other holds any longer. *)
Lemma exclusive_more now m m' h' k' :
  (∀ h k, holds now m' h k → h = h' ∧ k = k' ∨ h ≠ h' ∧ holds now m h k) →
  (∀ h, h ≠ h' → holds now m' h k' → ¬ holds now m h k') →
  exclusive now m → exclusive now m'.
Proof.
  intros Hmore Hfree H h1 h2 k H1 H2.
  destruct (Hmore _ _ H1) as [[-> ->]|[Hn1 H1']], (Hmore _ _ H2) as [[-> Hk]|[Hn2 H2']];
    [done|exfalso..|by apply (H h1 h2 k)]; subst; [by apply (Hfree h2)|by apply (Hfree h1)].
Qed.

(** What a holder after a call was before it. *)
Ltac holder_cases h :=
  destruct h as [?g|?g|?i]; simpl; intros (?x&?Hx&?Hr); revert Hx;
  rewrite ?bt_get_insert, ?bt_get_remove; repeat case_decide; intros ?; destruct_and?; simplify_eq/=.

Lemma exclusive_same now m m' :
  invitations m' = invitations m → lobby m' = lobby m → sessions m' = sessions m →
  exclusive now m → exclusive now m'.
Proof.
  intros Hi Hl Hs. apply exclusive_fewer. intros []; simpl; rewrite ?Hi, ?Hl, ?Hs; done.
Qed.
Lemma exclusive_invite now m i v :
  bt_get i (invitations m) = None →
  (∀ h k, reserved_slot v = Some k → ¬ holds now m h k) →
  exclusive now m → exclusive now (set_invitations (bt_insert i v (invitations m)) m).
Proof.
  intros Hi Hfree H. destruct (reserved_slot v) as [k|] eqn:Hk.
  - apply (exclusive_more now m _ (HInvitation i) k); [| |done].
    + intros h k'. holder_cases h; [right; eauto..|by left|right]. split; [congruence|eauto].
    + intros h _ _. by apply Hfree.
  - apply (exclusive_fewer now m); [|done]. intros h k. holder_cases h; eauto.
Qed.
Lemma exclusive_revoke now m i v :
  exclusive now m →
  exclusive now (set_invitations (bt_insert i (set_invitation_state InvitationState.Revoked v)
                                    (invitations m)) m).
Proof.
  apply (exclusive_fewer now m). intros h k. holder_cases h; eauto.
Qed.
Lemma exclusive_update now m g s s' :
  bt_get g (sessions m) = Some s → slot s' = slot s →
  exclusive now m → exclusive now (set_sessions (bt_insert g s' (sessions m)) m).
Proof.
  intros Hg Hs. apply (exclusive_fewer now m). intros h k. holder_cases h; eauto. 
Qed.
Lemma exclusive_end now m g :
  exclusive now m → exclusive now (set_sessions (bt_remove g (sessions m)) m).
Proof. apply (exclusive_fewer now m). intros h k. holder_cases h; eauto. Qed.
Lemma exclusive_entry now m g e e' :
  bt_get g (lobby m) = Some e → lobby_state e = Waiting → entry_slot e' = entry_slot e →
  exclusive now m → exclusive now (set_lobby (bt_insert g e' (lobby m)) m).
Proof.
  intros Hg Hw Hs. apply (exclusive_fewer now m). intros h k. holder_cases h; eauto.
  rewrite Hs in *. eauto.
Qed.
Lemma exclusive_enter now m i v identity pf :
  bt_get (guest_id identity) (lobby m) = None →
  bt_get i (invitations m) = Some v → status_at now v = InvitationStatus.Available →
  exclusive now m →
  exclusive now (set_lobby (bt_insert (guest_id identity)
      (mk_entry identity i (reserved_slot v) pf Waiting now) (lobby m))
    (set_identities (bt_insert (guest_id identity) identity (identities m))
      (set_invitations (bt_insert i
         (set_invitation_state (InvitationState.Consumed (guest_id identity)) v) (invitations m)) m))).
Proof.
  intros Hnew Hi Ha H. destruct (reserved_slot v) as [k|] eqn:Hk.
  - apply (exclusive_more now m _ (HWaiting (guest_id identity)) k); [| |done].
    + intros h k'. holder_cases h; [right; eauto|by left|right; split; [congruence|eauto]|right; eauto].
    + intros h Hne Hh Hh'.
      assert (h = HInvitation i) as -> by (apply (H _ _ k); [done|by exists v]).
      revert Hh. simpl. rewrite bt_get_insert_eq. intros (x&Hx&Hst&_). by simplify_eq/=.
  - apply (exclusive_fewer now m); [|done]. intros h k. holder_cases h; eauto.
Qed.
Lemma exclusive_admit now m g e s :
  bt_get g (lobby m) = Some e →
  (∀ h, holds now m h (slot s) → h = HWaiting g) →
  exclusive now m →
  exclusive now (set_lobby (bt_remove g (lobby m)) (set_sessions (bt_insert g s (sessions m)) m)).
Proof.
  intros Hg Hfree. apply (exclusive_more now m _ (HSession g) (slot s)).
  - intros h k. holder_cases h; [by left|right; split; [congruence|eauto]|right; eauto..].
  - intros h Hne Hh ->%Hfree. revert Hh. simpl. rewrite bt_get_remove_eq. by intros (?&?&_).
Qed.

Lemma exclusive_step op now m : roster_ok m → now ≤ op_time now op → exclusive now m →
  wp (guest_step op) (λ r m', match r with Ret _ => exclusive (op_time now op) m' | _ => True end) m.
Proof.
  intros Hm Hn H. apply (exclusive_later _ _ _ Hn) in H. clear Hn.
  destruct op; guest_run;
    eauto using exclusive_revoke, exclusive_update, exclusive_end, exclusive_entry.
  all: try (by apply (exclusive_same _ m)).
  - apply exclusive_invite; [done| |done]. simpl. intros h k [= <-] Hh.
    select (slot_is_reserved _ _ _ _ = _) (fun Hf => rewrite slot_is_reserved_false in Hf by done;
      by destruct (Hf h Hh) as (?&?&_)).
  - by apply exclusive_invite.
  - apply exclusive_enter; [|done..]. destruct (bt_get _ (lobby m)) as [e|] eqn:He; [|done].
    apply ro_entry in He as (_&[? ?]&_); [congruence|done].
  - eapply exclusive_admit; [done| |done]. simpl. intros h Hh.
    eapply H; [exact Hh|by eexists].
  - eapply exclusive_admit; [done| |done]. simpl. intros h Hh.
    select (head _ = _) (fun Hf => apply head_filter_seqZ in Hf as (Hk&_&_)).
    rewrite slot_is_reserved_false in Hk by done. destruct (Hk h Hh) as (g&[= <-]&->). done.
Qed.

Lemma manager_default_ok : roster_ok manager_default.
Proof. split; try done; try apply bt_sorted_nil. Qed.
Lemma guest_run_slots ops m done :
  Forall op_ok ops → timed 0 ops → guest_run ops manager_default = (m, done) →
  roster_ok m ∧ exclusive (clock 0 ops) m.
Proof.
  intros Hok Ht Hr.
  refine (guest_run_invariant (λ now m _, roster_ok m ∧ exclusive now m) ops 0 manager_default [] m done
    _ _ Hok Ht _ Hr).
  - intros op now m' done' Hop Hn [Hm He].
    pose proof (roster_step op m' Hop Hm) as H1. pose proof (exclusive_step op now m' Hm Hn He) as H2.
    revert H1 H2. unfold wp. by destruct (guest_step op m').2.
  - intros now now' m' _ Hn [Hm He]. split; [done|by apply exclusive_later with now].
  - split; [apply manager_default_ok|]. by intros [] h2 k (?&?&_).
Qed.

Lemma guest_run_roster ops m done :
  Forall op_ok ops → guest_run ops manager_default = (m, done) → roster_ok m.
Proof.
  intros Hok Hr. refine (guest_run_untimed (λ m _, roster_ok m) ops manager_default [] m done _ Hok _ Hr).
  - intros op m' done' Hop Hm. eapply wp_mono; [by apply roster_step|]. by intros [].
  - apply manager_default_ok.
Qed.
Definition session_slots (m : GuestManager) : list Z := (λ p, slot p.2) <$> sessions m.
Lemma session_slots_sub m : roster_ok m → session_slots m ⊆ seqZ 1 8.
Proof.
  intros H k ([g s]&->&Hp)%list_elem_of_fmap.
  apply bt_elem_get in Hp; [|apply H]. apply ro_session in Hp as (_&_&?); [|done].
  apply elem_of_seqZ. simpl. lia.
Qed.
Lemma session_slots_NoDup m : roster_ok m → NoDup (session_slots m).
Proof.
  intros H. pose proof (bt_sorted_NoDup _ (ro_sessions _ H)) as Hnd. unfold bt_keys in Hnd.
  assert (Hinj : ∀ p q, p ∈ sessions m → q ∈ sessions m → slot p.2 = slot q.2 → p = q).
  { intros [g1 s1] [g2 s2] H1 H2 Hs. apply bt_elem_get in H1; [|apply H]. apply bt_elem_get in H2; [|apply H].
    assert (g1 = g2) as -> by eauto using ro_slots. congruence. }
  unfold session_slots. revert Hinj Hnd. generalize (sessions m) as l.
  intros l. induction l as [|p l IH]; intros Hinj Hnd; simpl; [constructor|].
  apply NoDup_cons in Hnd as [Hp Hnd]. apply NoDup_cons. split.
  - intros (q&Hq&Hin)%list_elem_of_fmap. apply Hp, list_elem_of_fmap. exists q. split; [|done].
    by rewrite (Hinj p q); [|left|by right|].
  - apply IH; [|done]. intros. apply Hinj; [by right..|done].
Qed.
Lemma sessions_bound m : roster_ok m → (length (sessions m) ≤ MAX_GUEST_SESSIONS)%nat.
Proof.
  intros H. rewrite <-(length_fmap (λ p, slot p.2)).
  transitivity (length (seqZ 1 8)); [|by rewrite length_seqZ].
  apply submseteq_length, NoDup_submseteq; [by apply session_slots_NoDup|by apply session_slots_sub].
Qed.
(** With all sessions taken, every slot is. *)
Lemma sessions_full now m k : roster_ok m → ¬ (length (sessions m) < MAX_GUEST_SESSIONS)%nat →
  1 ≤ k ≤ 8 → ∃ g, holds now m (HSession g) k.
Proof.
  intros H Hlen Hk.
  assert (session_slots m ≡ₚ seqZ 1 8) as Hp.
  { apply NoDup_length_Permutation; [by apply session_slots_NoDup|by apply session_slots_sub|].
    rewrite length_seqZ. unfold session_slots. rewrite length_fmap. unfold MAX_GUEST_SESSIONS in Hlen. lia. }
  assert (Hin : k ∈ session_slots m) by (rewrite Hp; apply elem_of_seqZ; lia).
  apply list_elem_of_fmap in Hin as ([g s]&->&Hin). apply bt_elem_get in Hin; [|apply H].
  exists g, s. done.
Qed.

(** The first free slot: the answer for a guest without a reservation. *)
Lemma first_free now m g e k : roster_ok m →
  bt_get g (lobby m) = Some e → entry_slot e = None →
  head (filter (λ k, slot_is_reserved k now (Some g) m = false) (seqZ 1 8)) = Some k →
  1 ≤ k ≤ 8 ∧ (∀ h, ¬ holds now m h k) ∧ ∀ k', 1 ≤ k' < k → ∃ h, holds now m h k'.
Proof.
  intros H He Hs (Hf&?&Hlow)%head_filter_seqZ. split_and!; [lia|lia| |].
  - rewrite slot_is_reserved_false in Hf by done. intros h Hh.
    destruct (Hf h Hh) as (?&[= <-]&->). destruct Hh as (x&?&_&?). congruence.
  - intros k' Hk'. eapply slot_is_reserved_true; [done|].
    apply not_false_iff_true. exact (Hlow k' Hk').
Qed.
Lemma none_free now m g k : roster_ok m →
  head (filter (λ k, slot_is_reserved k now (Some g) m = false) (seqZ 1 8)) = None →
  1 ≤ k ≤ 8 → ∃ h, holds now m h k.
Proof.
  intros H Hh Hk. eapply slot_is_reserved_true; [done|].
  apply not_false_iff_true. apply (head_filter_seqZ_None _ _ _ _ Hh). lia.
Qed.

Lemma admit_spec now m g sid e :
  roster_ok m → exclusive now m → bt_get g (lobby m) = Some e →
  lobby_state e = Waiting → is_ready (preflight e) = true →
  (∀ g' s, bt_get g' (sessions m) = Some s → session_id s ≠ sid) →
  wp (admit_lobby_guest g sid now) (λ r m',
    match r with
    | Ret k =>
        m' = set_lobby (bt_remove g (lobby m)) (set_sessions (bt_insert g
               (mk_session sid (entry_identity e) k Connected ReturnVideoSelection.Program Off
                  (signal (preflight e)) now) (sessions m)) m) ∧
        match entry_slot e with
        | Some k' => k = k'
        | None => 1 ≤ k ≤ 8 ∧ (∀ h, ¬ holds now m h k) ∧ ∀ k', 1 ≤ k' < k → ∃ h, holds now m h k'
        end
    | Throw err =>
        m' = m ∧ err = SessionLimitReached ∧ entry_slot e = None ∧
        ∀ k, 1 ≤ k ≤ 8 → ∃ h, holds now m h k
    | Panic => False
    end) m.
Proof.
  intros H Hex He Hw Hready Hid.
  assert (Hres : ∀ k, entry_slot e = Some k → 1 ≤ k ≤ 8 ∧ holds now m (HWaiting g) k).
  { intros k Hk. split; [|by exists e]. apply ro_entry in He as (_&_&_&Hok); [|done]. by rewrite Hk in Hok. }
  unfold admit_lobby_guest. wp_run; rewrite ?He in *; simplify_eq/=; try done.
  - exfalso. select (slot_in_session _ _ = _) (fun Hs => apply slot_in_session_true in Hs as (g'&s&Hg&Hk); [|apply H]).
    destruct (Hres z) as [_ Hz]; [done|]. assert (Hs : holds now m (HSession g') z) by (by exists s). discriminate (Hex (HSession g') (HWaiting g) z Hs Hz).
  - split; [done|]. by select (entry_slot _ = _) (fun Hs => rewrite Hs).
  - split; [done|]. select (entry_slot _ = _) (fun Hs => rewrite Hs).
    select (ok_or _ _ = _) (fun Ho => apply ok_or_Ok in Ho). by eapply first_free.
  - select (ok_or _ _ = _) (fun Ho => apply ok_or_Err in Ho as [Hh <-]).
    split_and!; [done..|]. intros k Hk. by eapply none_free.
  - exfalso. select (¬ _) (fun Hn => apply Hn). apply Forall_forall. intros s Hs.
    apply bt_elem_values in Hs as [g' Hg]; [|apply H]. by eapply Hid.
  - destruct (entry_slot a) as [k|] eqn:Hk.
    + exfalso. destruct (Hres k) as [? Hz]; [done|]. destruct (sessions_full now m k H) as [g' Hg]; [done..|].
      discriminate (Hex (HSession g') (HWaiting g) k Hg Hz).
    + split_and!; [done..|]. intros k' Hk'. destruct (sessions_full now m k' H) as [g' Hg]; [done..|]. by exists (HSession g').
Qed.

(** ** Invitations *)

Definition entered (p : guest_op * guest_answer) : option (Z * Z) :=
  match p.1 with
  | OpEnter i identity _ _ => Some (i, guest_id identity)
  | _ => None
  end.
Definition entries (done : list (guest_op * guest_answer)) : list (Z * Z) := omap entered done.

Record booked (m : GuestManager) (done : list (guest_op * guest_answer)) : Prop := mk_booked {
  bk_invitations : NoDup (entries done).*1;
  bk_guests : NoDup (entries done).*2;
  bk_consumed : ∀ i g, (i, g) ∈ entries done → ∃ v, bt_get i (invitations m) = Some v ∧
    invitation_state v = InvitationState.Consumed g ∧ is_Some (bt_get g (identities m));
  bk_issued : ∀ i v, bt_get i (invitations m) = Some v →
    ∃ now, (OpInvite i (expires_at_ms v) (reserved_slot v) now, Done) ∈ done;
  bk_revoked : ∀ i a, (OpRevoke i, a) ∈ done → ∃ v, bt_get i (invitations m) = Some v ∧
    invitation_state v = InvitationState.Revoked;
  bk_in_time : ∀ i identity pf t a, (OpEnter i identity pf t, a) ∈ done →
    ∃ expires k now, (OpInvite i expires k now, Done) ∈ done ∧ t < expires
}.

Lemma NoDup_append_one {A} (l : list A) x : x ∉ l → NoDup l → NoDup (l ++ [x]).
Proof.
  intros Hx Hl. apply NoDup_app. split_and!; [done| |apply NoDup_singleton].
  by intros y Hy ->%list_elem_of_singleton.
Qed.
Lemma entries_snoc done p : entries (done ++ [p]) = entries done ++ option_list (entered p).
Proof. unfold entries. rewrite omap_app. simpl. by destruct (entered p). Qed.
Lemma booked_other m m' done op a :
  invitations m' = invitations m → identities m' = identities m →
  match op with OpInvite _ _ _ _ | OpRevoke _ | OpEnter _ _ _ _ => False | _ => True end →
  booked m done → booked m' (done ++ [(op, a)]).
Proof.
  intros Hi Hd Hop H. destruct H.
  split; rewrite ?entries_snoc, ?Hi, ?Hd; (replace (entered (op, a)) with (@None (Z * Z)) by (by destruct op)) ||
    idtac; simpl; rewrite ?app_nil_r; try done.
  - intros i v (now&?)%bk_issued0. exists now. set_solver.
  - intros i a'. rewrite elem_of_app, list_elem_of_singleton. intros [?|[= <- <-]]; [eauto|done].
  - intros i identity pf t a'. rewrite elem_of_app, list_elem_of_singleton. intros [Hin|[= <- <-]]; [|done].
    destruct (bk_in_time0 _ _ _ _ _ Hin) as (e&k&now&?&?). exists e, k, now. set_solver.
Qed.
Lemma booked_invite m done i expires k now :
  bt_get i (invitations m) = None → booked m done →
  booked (set_invitations (bt_insert i (mk_invitation i expires k InvitationState.Available)
            (invitations m)) m) (done ++ [(OpInvite i expires k now, Done)]).
Proof.
  intros Hi H. destruct H.
  assert (Hkeep : ∀ i' v, bt_get i' (invitations m) = Some v →
    bt_get i' (bt_insert i (mk_invitation i expires k InvitationState.Available) (invitations m)) = Some v).
  { intros i' v Hv. rewrite bt_get_insert. case_decide; congruence. }
  split; rewrite ?entries_snoc; simpl; rewrite ?app_nil_r; try done.
  - intros i' g (v&?&?&?)%bk_consumed0. exists v. auto.
  - intros i' v. rewrite bt_get_insert. case_decide.
    + intros [= <-]. subst. exists now. simpl. set_solver.
    + intros (t&?)%bk_issued0. exists t. set_solver.
  - intros i' a. rewrite elem_of_app, list_elem_of_singleton. intros [(v&?&?)%bk_revoked0|[=]]. exists v. auto.
  - intros i' identity pf t a'. rewrite elem_of_app, list_elem_of_singleton. intros [Hin|[=]].
    destruct (bk_in_time0 _ _ _ _ _ Hin) as (e&k'&now'&?&?). exists e, k', now'. set_solver.
Qed.
Lemma booked_revoke m done i v :
  bt_get i (invitations m) = Some v → invitation_state v = InvitationState.Available →
  booked m done →
  booked (set_invitations (bt_insert i (set_invitation_state InvitationState.Revoked v)
            (invitations m)) m) (done ++ [(OpRevoke i, Done)]).
Proof.
  intros Hi Ha H. destruct H.
  split; rewrite ?entries_snoc; simpl; rewrite ?app_nil_r; try done.
  - intros i' g (x&?&?&?)%bk_consumed0. exists x. rewrite bt_get_insert. case_decide; [congruence|done].
  - intros i' x. rewrite bt_get_insert. case_decide.
    + intros [= <-]. subst. destruct (bk_issued0 _ _ Hi) as [t ?]. exists t. simpl. set_solver.
    + intros (t&?)%bk_issued0. exists t. set_solver.
  - intros i' a. rewrite elem_of_app, list_elem_of_singleton, bt_get_insert.
    intros [(x&?&?)%bk_revoked0|[= -> ->]]; case_decide; try done; eauto.
  - intros i' identity pf t a'. rewrite elem_of_app, list_elem_of_singleton. intros [Hin|[=]].
    destruct (bk_in_time0 _ _ _ _ _ Hin) as (e&k'&now'&?&?). exists e, k', now'. set_solver.
Qed.
Lemma booked_enter m done i v identity pf now x :
  bt_get (guest_id identity) (identities m) = None →
  bt_get i (invitations m) = Some v → status_at now v = InvitationStatus.Available →
  booked m done →
  booked (set_lobby x
    (set_identities (bt_insert (guest_id identity) identity (identities m))
      (set_invitations (bt_insert i
         (set_invitation_state (InvitationState.Consumed (guest_id identity)) v) (invitations m)) m)))
    (done ++ [(OpEnter i identity pf now, Done)]).
Proof.
  intros Hnew Hi Hst H. destruct H.
  assert (invitation_state v = InvitationState.Available ∧ now < expires_at_ms v) as [Ha Hnow].
  { revert Hst. unfold status_at. destruct (invitation_state v); try done. case_decide; [done|]. split; [done|lia]. }
  split; rewrite ?entries_snoc; simpl.
  - rewrite fmap_app. apply NoDup_append_one; [|done]. intros ([i' g]&Hi'&Hin)%list_elem_of_fmap. simpl in Hi'. subst i'.
    destruct (bk_consumed0 _ _ Hin) as (y&?&?&?). congruence.
  - rewrite fmap_app. apply NoDup_append_one; [|done]. intros ([i' g]&Hi'&Hin)%list_elem_of_fmap. simpl in Hi'. subst g.
    destruct (bk_consumed0 _ _ Hin) as (y&?&?&[? ?]). congruence.
  - intros i' g. rewrite elem_of_app, list_elem_of_singleton, !bt_get_insert. intros [Hin|[= -> ->]].
    + destruct (bk_consumed0 _ _ Hin) as (y&?&?&?). exists y. case_decide; [congruence|].
      split_and!; [done|done|]. by case_decide.
    + rewrite !decide_True by done. eauto.
  - intros i' y. rewrite bt_get_insert. case_decide.
    + intros [= <-]. subst. destruct (bk_issued0 _ _ Hi) as [t ?]. exists t. simpl. set_solver.
    + intros (t&?)%bk_issued0. exists t. set_solver.
  - intros i' a. rewrite elem_of_app, list_elem_of_singleton, bt_get_insert.
    intros [(y&?&?)%bk_revoked0|[=]]. case_decide; [congruence|eauto].
  - intros i' identity' pf' t a'. rewrite elem_of_app, list_elem_of_singleton. intros [Hin|[= -> -> -> -> ->]].
    + destruct (bk_in_time0 _ _ _ _ _ Hin) as (e&k'&now'&?&?). exists e, k', now'. set_solver.
    + destruct (bk_issued0 _ _ Hi) as [now' ?]. exists (expires_at_ms v), (reserved_slot v), now'. set_solver.
Qed.

Lemma booked_step op m done : booked m done →
  wp (guest_step op) (λ r m', match r with Ret a => booked m' (done ++ [(op, a)]) | _ => True end) m.
Proof.
  intros H. destruct op; guest_run; try (by apply (booked_other m));
    eauto using booked_invite, booked_revoke, booked_enter.
Qed.
Lemma guest_run_booked ops m done : guest_run ops manager_default = (m, done) →
  Forall op_ok ops → booked m done.
Proof.
  intros Hr Hok. refine (guest_run_untimed booked ops manager_default [] m done _ Hok _ Hr).
  - intros. by apply booked_step.
  - split; try done; try apply NoDup_nil_2; by intros; set_solver.
Qed.

(** ** Sessions *)

(** What an accepted call does to the session of a guest that it does not end. *)
Definition session_after (g : Z) (s : GuestSession) (p : guest_op * guest_answer) : GuestSession :=
  match p.1 with
  | OpDisconnect g' _ until => if decide (g' = g) then set_connection (Disconnected until) s else s
  | OpReconnect g' _ => if decide (g' = g) then set_connection Connected s else s
  | OpVideo g' selection => if decide (g' = g) then set_video selection s else s
  | OpTalkback g' state => if decide (g' = g) then set_talk state s else s
  | OpHealth g' health => if decide (g' = g) then set_health health s else s
  | _ => s
  end.
Definition ends (g : Z) (p : guest_op * guest_answer) : Prop :=
  match p.1 with
  | OpEnd g' => g' = g
  | _ => False
  end.
#[global] Instance ends_dec g p : Decision (ends g p).
Proof. destruct p as [[] ?]; unfold ends; simpl; apply _. Defined.

Lemma session_step op m g s : roster_ok m → bt_get g (sessions m) = Some s →
  wp (guest_step op) (λ r m', match r with
    | Ret a => ¬ ends g (op, a) → bt_get g (sessions m') = Some (session_after g s (op, a))
    | _ => True
    end) m.
Proof.
  intros H Hg. destruct op; guest_run; intros Hend; unfold session_after, ends in *; simpl in *;
    rewrite ?bt_get_insert, ?bt_get_remove; repeat case_decide; simplify_eq; try done.
  all: select (bt_get _ (lobby m) = _) (fun He => apply ro_entry in He as (_&_&?&_); [congruence|done]).
Qed.
Lemma session_run ops m g s m' done : Forall op_ok ops → roster_ok m →
  bt_get g (sessions m) = Some s → guest_run ops m = (m', done) → Forall (λ p, ¬ ends g p) done →
  bt_get g (sessions m') = Some (foldl (session_after g) s done).
Proof.
  revert m s done. induction ops as [|op ops IH]; intros m s done Hok H Hg Hr Hend.
  { simpl in Hr. by simplify_eq. }
  apply Forall_cons in Hok as [Hop Hok].
  apply guest_run_cons in Hr as [(m1&a&done1&Hs&Hr&->)|(e&Hs&Hr)]; [|by eapply IH].
  apply Forall_cons in Hend as [He Hend]. simpl. eapply IH; [done| | |exact Hr|done].
  - by apply (wp_elim _ _ _ _ _ (roster_step op m Hop H) Hs).
  - by apply (wp_elim _ _ _ _ _ (session_step op m g s H Hg) Hs).
Qed.
(** No call changes whose session it is. *)
Lemma session_after_same g s done :
  let s' := foldl (session_after g) s done in
  session_id s' = session_id s ∧ session_identity s' = session_identity s ∧ slot s' = slot s ∧
  admitted_at_ms s' = admitted_at_ms s.
Proof.
  revert s. induction done as [|[op a] done IH]; intros s; simpl; [done|].
  destruct (IH (session_after g s (op, a))) as (->&->&->&->).
  unfold session_after. destruct op; simpl; try done; by case_decide.
Qed.
