(* ===== verification/GuestSafety.v ===== *)
(** What guests can rely on: the theorems about slots, admission, invitations, sessions,
    the mix-minus matrix and chat, and a run that shows them at work. *)
From S2P Require Import Prelude BTree Floats Guest GuestLaws.
#[local] Open Scope Z_scope.

(** ** Routing *)

#[global] Instance session_le_transitive : Transitive session_le.
Proof. intros x y z. unfold session_le. apply key_le_trans. Qed.
#[global] Instance session_le_total : Total session_le.
Proof. intros x y. unfold session_le. apply (total key_le). Qed.

Definition session_guest (s : GuestSession) : Z := guest_id (session_identity s).
(** A guest with a connected session. *)
Definition live (g : Z) (m : GuestManager) : Prop :=
  ∃ s, bt_get g (sessions m) = Some s ∧ connection s = Connected.
Definition talks (g : Z) (m : GuestManager) : Prop :=
  ∃ s, bt_get g (sessions m) = Some s ∧ talkback s = On.

Lemma elem_of_connected m s : roster_ok m →
  s ∈ connected m ↔ bt_get (session_guest s) (sessions m) = Some s ∧ connection s = Connected.
Proof.
  intros H. unfold connected. rewrite merge_sort_Permutation, list_elem_of_filter, bt_elem_values by apply H.
  split; [|by intros [? ?]; eauto]. intros (Hc&g&Hg). split; [|done].
  destruct (ro_session _ H _ _ Hg) as (Hid&_). unfold session_guest. by rewrite Hid.
Qed.
Lemma connected_guests_NoDup m : roster_ok m → NoDup (session_guest <$> connected m).
Proof.
  intros H. unfold connected. rewrite merge_sort_Permutation.
  pose proof (bt_sorted_NoDup _ (ro_sessions _ H)) as Hnd.
  assert (Hid : ∀ p, p ∈ sessions m → session_guest p.2 = p.1).
  { intros [g s] Hp. apply bt_elem_get in Hp; [|apply H]. by apply ro_session in Hp as (?&_). }
  revert Hnd Hid. unfold bt_keys, bt_values. generalize (sessions m) as l.
  induction l as [|[g s] l IH]; intros Hnd Hid; simpl; [constructor|].
  apply NoDup_cons in Hnd as [Hg Hnd]. assert (IH' := IH Hnd ltac:(intros; apply Hid; by right)).
  rewrite filter_cons. case_decide; [|done]. simpl. apply NoDup_cons. split; [|done].
  intros (s'&Hs'&[_ Hin]%list_elem_of_filter)%list_elem_of_fmap. apply list_elem_of_fmap in Hin as ([g' x]&->&Hin).
  apply Hg, list_elem_of_fmap. exists (g', x). split; [|done].
  rewrite <-(Hid (g', x)) by (by right). by rewrite <-(Hid (g, s)) by (by left).
Qed.
Lemma connected_sorted m : roster_ok m → StronglySorted Z.lt (slot <$> connected m).
Proof.
  intros H. pose proof (StronglySorted_merge_sort session_le
    (filter (λ s, connection s = Connected) (bt_values (sessions m)))) as Hs.
  pose proof (connected_guests_NoDup m H) as Hnd.
  assert (Hel : ∀ s, s ∈ connected m → bt_get (session_guest s) (sessions m) = Some s)
    by (intros s Hin; by apply elem_of_connected in Hin as [? _]).
  change (StronglySorted session_le (connected m)) in Hs. revert Hs Hnd Hel.
  induction (connected m) as [|s l IH]; intros Hs Hnd Hel; simpl; [constructor|].
  apply StronglySorted_inv in Hs as [Hs Hle]. apply NoDup_cons in Hnd as [Hn Hnd].
  constructor; [apply IH; [done..|intros; apply Hel; by right]|].
  apply Forall_fmap, Forall_forall. intros x Hx. simpl.
  rewrite Forall_forall in Hle. specialize (Hle x Hx).
  assert (slot s ≠ slot x).
  { intros Heq. apply Hn, list_elem_of_fmap. exists x. split; [|done].
    apply (ro_slots _ H _ _ s x); [apply Hel; by left|apply Hel; by right|done]. }
  unfold session_le, key_le, key_cmp, prod_ord_key, key_cmp, Z_ord_key in Hle. simpl in Hle.
  destruct (slot s ?= slot x) eqn:Hc; [by apply Z.compare_eq in Hc|done|done].
Qed.

Lemma elem_of_return_routes all d r :
  r ∈ return_routes all d ↔ gain r = UNITY ∧ destination r = GuestReturn (session_guest d) ∧
    match source r with
    | CleanProgram => True
    | GuestMicrophone g => g ∈ session_guest <$> all ∧ g ≠ session_guest d
    | ManagerTalkback => talkback d = On
    end.
Proof.
  unfold return_routes. rewrite elem_of_cons, elem_of_app, list_elem_of_fmap.
  change (λ s, guest_id (session_identity s) ≠ guest_id (session_identity d)) with
    (λ s, session_guest s ≠ session_guest d).
  split.
  - intros [->|[(s&->&[Hn Hs]%list_elem_of_filter)|Hr]]; simpl; [done|split_and!; try done|].
    + apply list_elem_of_fmap. by exists s.
    + case_decide; [|by apply not_elem_of_nil in Hr]. by apply list_elem_of_singleton in Hr as ->.
  - destruct r as [[|g|] dest gn]; simpl; intros (->&->&Hs).
    + by left.
    + destruct Hs as [(s&->&Hs)%list_elem_of_fmap Hn]. right; left. exists s. split; [done|].
      by apply list_elem_of_filter.
    + right; right. rewrite decide_True by done. by left.
Qed.
Lemma elem_of_mix_minus m r : roster_ok m →
  r ∈ mix_minus_matrix m ↔ gain r = UNITY ∧
    match source r, destination r with
    | GuestMicrophone g, Program => live g m
    | CleanProgram, GuestReturn d => live d m
    | GuestMicrophone g, GuestReturn d => live g m ∧ live d m ∧ g ≠ d
    | ManagerTalkback, GuestReturn d => live d m ∧ talks d m
    | CleanProgram, Program | ManagerTalkback, Program => False
    end.
Proof.
  intros H.
  assert (Hlive : ∀ g, live g m ↔ g ∈ session_guest <$> connected m).
  { intros g. rewrite list_elem_of_fmap. split.
    - intros (s&Hg&Hc). destruct (ro_session _ H _ _ Hg) as (Hid&_). exists s.
      split; [done|]. apply elem_of_connected; [done|]. unfold session_guest. by rewrite Hid.
    - intros (s&->&[Hg Hc]%elem_of_connected); [|done]. by exists s. }
  unfold mix_minus_matrix. rewrite elem_of_app, list_elem_of_fmap, list_elem_of_bind. split.
  - intros [(s&->&Hs)|(d&Hr&Hd)]; simpl.
    + split; [done|]. apply Hlive. by apply (list_elem_of_fmap_2 session_guest).
    + apply elem_of_return_routes in Hr as (->&->&Hs). split; [done|].
      assert (live (session_guest d) m) by (by apply Hlive, list_elem_of_fmap_2).
      destruct (source r) as [|g|]; [done| |].
      * destruct Hs as [? ?]. rewrite Hlive. done.
      * split; [done|]. exists d. apply elem_of_connected in Hd as [? ?]; done.
  - destruct r as [src [|d] gn]; simpl; intros [-> Hs].
    + destruct src as [|g|]; [done| |done]. left. apply Hlive, list_elem_of_fmap in Hs as (s&->&Hs). by exists s.
    + right. assert (live d m) as Hd by (destruct src; tauto). pose proof Hd as Hd'.
      apply Hlive, list_elem_of_fmap in Hd' as (s&->&Hin). exists s. split; [|done].
      apply elem_of_return_routes. split_and!; [done..|]. simpl. destruct src as [|g|]; [done| |].
      * destruct Hs as (?%Hlive&_&?). done.
      * destruct Hs as (_&x&Hx&?). apply elem_of_connected in Hin as [Hg _]; [|done]. congruence.
Qed.

Lemma NoDup_fmap_inj {A B} (f : A → B) (l : list A) x y :
  NoDup (f <$> l) → x ∈ l → y ∈ l → f x = f y → x = y.
Proof.
  induction l as [|z l IH]; [by intros _ ?%not_elem_of_nil|]. simpl.
  intros [Hz Hnd]%NoDup_cons Hx Hy Hf. apply elem_of_cons in Hx as [->|Hx], Hy as [->|Hy]; [done| | |by apply IH].
  - destruct Hz. rewrite Hf. by apply list_elem_of_fmap_2.
  - destruct Hz. rewrite <-Hf. by apply list_elem_of_fmap_2.
Qed.
Lemma return_routes_NoDup all d : NoDup (session_guest <$> all) → NoDup (return_routes all d).
Proof.
  intros Hnd. unfold return_routes.
  change (λ s, guest_id (session_identity s) ≠ guest_id (session_identity d)) with
    (λ s, session_guest s ≠ session_guest d).
  apply NoDup_cons. split.
  { rewrite elem_of_app, list_elem_of_fmap. intros [(?&?&_)|Hr]; [done|].
    case_decide; [by apply list_elem_of_singleton in Hr|by apply not_elem_of_nil in Hr]. }
  apply NoDup_app. split_and!.
  - apply NoDup_fmap_2_strong; [|by eapply NoDup_filter, NoDup_fmap_1].
    intros x y [_ Hx]%list_elem_of_filter [_ Hy]%list_elem_of_filter [= Hxy].
    by apply (NoDup_fmap_inj session_guest all).
  - intros r (s&->&_)%list_elem_of_fmap Hr.
    case_decide; [by apply list_elem_of_singleton in Hr|by apply not_elem_of_nil in Hr].
  - case_decide; [apply NoDup_singleton|apply NoDup_nil_2].
Qed.
Lemma mix_minus_NoDup m : roster_ok m → NoDup (mix_minus_matrix m).
Proof.
  intros H. pose proof (connected_guests_NoDup m H) as Hnd. unfold mix_minus_matrix.
  assert (Hinj : ∀ x y, x ∈ connected m → y ∈ connected m → session_guest x = session_guest y → x = y).
  { intros x y. by apply NoDup_fmap_inj. }
  apply NoDup_app. split_and!.
  - apply NoDup_fmap_2_strong; [|by eapply NoDup_fmap_1].
    intros x y Hx Hy [= Hxy]. by apply Hinj.
  - intros r (s&->&_)%list_elem_of_fmap (d&Hr&_)%list_elem_of_bind.
    by apply elem_of_return_routes in Hr as (_&?&_).
  - apply NoDup_bind; [|by intros; apply return_routes_NoDup|by eapply NoDup_fmap_1].
    intros x y r Hx Hy (_&Hdx&_)%elem_of_return_routes (_&Hdy&_)%elem_of_return_routes.
    rewrite Hdx in Hdy. injection Hdy as Hxy. by apply Hinj.
Qed.

(** ** Chat *)

(** The newest messages, as many as the manager retains. *)
Definition window (log : list ChatMessage) : list ChatMessage :=
  drop (length log - MAX_CHAT_MESSAGES) log.
Definition redact_if (id : Z) (flag : RedactionFlag) (x : ChatMessage) : ChatMessage :=
  if decide (chat_id x = id) then redacted flag x else x.
(** What an accepted call adds to the log of all messages, or redacts in its window. *)
Definition chat_after (log : list ChatMessage) (p : guest_op * guest_answer) : list ChatMessage :=
  match p.1 with
  | OpSend id sender audience body t => log ++ [mk_chat id sender audience t (Some body) []]
  | OpRedact id flag =>
      take (length log - MAX_CHAT_MESSAGES) log ++ (redact_if id flag <$> window log)
  | _ => log
  end.
Definition chat_log (done : list (guest_op * guest_answer)) : list ChatMessage :=
  foldl chat_after [] done.

Lemma window_length log : (length (window log) ≤ MAX_CHAT_MESSAGES)%nat.
Proof. unfold window. rewrite length_drop. lia. Qed.
Lemma window_snoc log x :
  window (log ++ [x]) =
  (if decide (length (window log) = MAX_CHAT_MESSAGES) then tail (window log) else window log) ++ [x].
Proof.
  assert (0 < MAX_CHAT_MESSAGES)%nat as HM by (unfold MAX_CHAT_MESSAGES; lia).
  revert HM. unfold window. generalize MAX_CHAT_MESSAGES as M. intros M HM.
  rewrite length_app, length_drop. simpl. case_decide as Hl.
  - rewrite drop_app_le by lia. f_equal.
    assert (∀ l : list ChatMessage, tail l = drop 1 l) as -> by (by intros []).
    rewrite drop_drop. f_equal. lia.
  - replace (length log - M)%nat with 0%nat by lia.
    by replace (length log + 1 - M)%nat with 0%nat by lia.
Qed.
Lemma window_redact id flag log :
  window (take (length log - MAX_CHAT_MESSAGES) log ++ (redact_if id flag <$> window log)) =
  redact_if id flag <$> window log.
Proof.
  unfold window. generalize MAX_CHAT_MESSAGES as M. intros M.
  rewrite length_app, length_take, length_fmap, length_drop.
  apply drop_app_length'. rewrite length_take. lia.
Qed.

Lemma redact_first_fmap id flag l l' : NoDup (chat_id <$> l) →
  redact_first id flag l = Some l' → l' = redact_if id flag <$> l.
Proof.
  revert l'. induction l as [|x l IH]; intros l'; simpl; [done|]. intros [Hx Hnd]%NoDup_cons.
  unfold redact_if at 1. case_decide as Hid.
  - intros [= <-]. f_equal. symmetry. rewrite <-(list_fmap_id l) at 2. apply list_fmap_ext.
    intros k y Hy%list_elem_of_lookup_2. unfold redact_if. case_decide as Hy'; [|done].
    destruct Hx. rewrite Hid, <-Hy'. by apply list_elem_of_fmap_2.
  - intros (l1&Hl&->)%fmap_Some. simpl. f_equal. by apply IH.
Qed.
Lemma redact_if_same id flag x :
  chat_id (redact_if id flag x) = chat_id x ∧ sender (redact_if id flag x) = sender x ∧
  audience (redact_if id flag x) = audience x.
Proof. unfold redact_if. by case_decide. Qed.

(** A message is of a member of its audience, and redacted exactly when it has no body. *)
Definition proper (m : GuestManager) (x : ChatMessage) : Prop :=
  audience_contains (audience x) (sender x) m = Ok true ∧ (body x = None ↔ is_redacted x = true).
Record chat_ok (m : GuestManager) (log : list ChatMessage) : Prop := mk_chat_ok {
  co_window : chat_messages m = window log;
  co_ids : NoDup (chat_id <$> chat_messages m);
  co_proper : Forall (proper m) log
}.

Lemma redact_proper m id flag x : proper m x → proper m (redact_if id flag x).
Proof.
  unfold proper, redact_if. case_decide; [|done]. intros [Ha Hb]. split; [done|]. simpl. split; [intros _|done].
  apply bool_decide_eq_true_2. simpl. pose proof (elem_of_bs_insert flag (redaction_flags x) flag) as Hin.
  intros Hnil. rewrite Hnil in Hin. apply (not_elem_of_nil flag), Hin. by left.
Qed.
Lemma chat_same m m' log :
  chat_groups m' = chat_groups m → chat_messages m' = chat_messages m → chat_ok m log → chat_ok m' log.
Proof.
  intros Hg Hc H. destruct H. split; rewrite ?Hc; try done.
  eapply Forall_impl; [exact co_proper0|]. intros x. unfold proper, audience_contains. by rewrite Hg.
Qed.
Lemma chat_group m id members log :
  bt_get id (chat_groups m) = None → chat_ok m log →
  chat_ok (set_chat_groups (bt_insert id members (chat_groups m)) m) log.
Proof.
  intros Hg H. destruct H. split; [done|done|].
  eapply Forall_impl; [exact co_proper0|]. intros x [Ha Hb]. split; [|done].
  revert Ha. unfold audience_contains. destruct (audience x) as [|g]; [done|]. simpl.
  rewrite bt_get_insert. case_decide; [|done]. subst. by rewrite Hg.
Qed.
Lemma chat_send m log x :
  Forall (λ y, chat_id y ≠ chat_id x) (chat_messages m) → proper m x → chat_ok m log →
  chat_ok (set_chat_messages
    ((if decide (length (chat_messages m) = MAX_CHAT_MESSAGES)
      then tail (chat_messages m) else chat_messages m) ++ [x]) m) (log ++ [x]).
Proof.
  intros Hnew Hx H. destruct H. split; simpl.
  - by rewrite co_window0, window_snoc.
  - rewrite fmap_app. apply NoDup_append_one.
    + intros (y&Hy&Hin)%list_elem_of_fmap. rewrite Forall_forall in Hnew. apply (Hnew y); [|done].
      case_decide; [|done]. destruct (chat_messages m); [done|]. by right.
    + case_decide; [|done]. destruct (chat_messages m); [done|]. by apply NoDup_cons in co_ids0 as [_ ?].
  - apply Forall_app. split; [done|]. by apply Forall_singleton.
Qed.
Lemma chat_redact m log id flag l :
  redact_first id flag (chat_messages m) = Some l → chat_ok m log →
  chat_ok (set_chat_messages l m)
    (take (length log - MAX_CHAT_MESSAGES) log ++ (redact_if id flag <$> window log)).
Proof.
  intros Hl H. destruct H. apply redact_first_fmap in Hl as ->; [|done]. split; simpl.
  - by rewrite window_redact, co_window0.
  - rewrite <-list_fmap_compose. erewrite list_fmap_ext; [exact co_ids0|].
    intros k x _. simpl. apply redact_if_same.
  - apply Forall_app. split; [by apply Forall_take|]. apply Forall_fmap.
    eapply Forall_impl; [by apply Forall_drop, co_proper0|]. intros x Hx. exact (redact_proper m id flag x Hx).
Qed.
Lemma chat_step op m log : chat_ok m log →
  wp (guest_step op) (λ r m', match r with Ret a => chat_ok m' (chat_after log (op, a)) | _ => True end) m.
Proof.
  intros H. destruct op; guest_run; unfold chat_after; simpl; try (by apply (chat_same m));
    eauto using chat_group, chat_redact; (apply chat_send; [done| |done]); (split; [|done]); simpl.
  - f_equal. tauto.
  - select (bt_get _ (chat_groups m) = _) (fun Hg => rewrite Hg). simpl. f_equal. by apply bool_decide_eq_true_2.
Qed.
Lemma guest_run_chat ops m done : Forall op_ok ops → guest_run ops manager_default = (m, done) →
  chat_ok m (chat_log done).
Proof.
  intros Hok Hr.
  refine (guest_run_untimed (λ m done, chat_ok m (chat_log done)) ops manager_default [] m done _ Hok _ Hr).
  - intros op m' done' _ H. eapply wp_mono; [by apply chat_step|].
    intros [a|e|] m''; try done. unfold chat_log. by rewrite foldl_app.
  - split; [done|apply NoDup_nil_2|constructor].
Qed.

(** Who is in an audience, by the calls alone: the two guests of a private one, and
    those a group was created with. *)
Definition in_audience (done : list (guest_op * guest_answer)) (guest : Z) (a : ChatAudience) : Prop :=
  match a with
  | Private first second => guest = first ∨ guest = second
  | Group g => ∃ members, (OpGroup g members, Done) ∈ done ∧ guest ∈ members
  end.
(** A private audience always exists, a group once it was created. *)
Definition audience_exists (done : list (guest_op * guest_answer)) (a : ChatAudience) : Prop :=
  match a with
  | Private _ _ => True
  | Group g => ∃ members, (OpGroup g members, Done) ∈ done
  end.

(** A group is there with the members of the one call that created it. *)
Definition groups_ok (m : GuestManager) (done : list (guest_op * guest_answer)) : Prop :=
  ∀ g, match bt_get g (chat_groups m) with
       | None => ∀ members, (OpGroup g members, Done) ∉ done
       | Some set => (∃ members, (OpGroup g members, Done) ∈ done) ∧
                     ∀ members, (OpGroup g members, Done) ∈ done → set = bs_of_list members
       end.
Lemma groups_same m m' done op a : chat_groups m' = chat_groups m →
  (∀ g members, op ≠ OpGroup g members) → groups_ok m done → groups_ok m' (done ++ [(op, a)]).
Proof.
  intros Hg Hop H g. specialize (H g). rewrite Hg.
  assert (Hin : ∀ members, (OpGroup g members, Done) ∈ done ++ [(op, a)] ↔ (OpGroup g members, Done) ∈ done).
  { intros members. rewrite elem_of_app, list_elem_of_singleton. split; [|tauto].
    intros [?|[= Heq _]]; [done|]. by destruct (Hop g members). }
  destruct (bt_get g (chat_groups m)); by setoid_rewrite Hin.
Qed.
Lemma groups_created m done id members : bt_get id (chat_groups m) = None → groups_ok m done →
  groups_ok (set_chat_groups (bt_insert id (bs_of_list members) (chat_groups m)) m)
    (done ++ [(OpGroup id members, Done)]).
Proof.
  intros Hid H g. assert (Hg := H g). simpl. rewrite bt_get_insert.
  assert (Hin : ∀ members', (OpGroup g members', Done) ∈ done ++ [(OpGroup id members, Done)] ↔
    (OpGroup g members', Done) ∈ done ∨ g = id ∧ members' = members).
  { intros members'. rewrite elem_of_app, list_elem_of_singleton. split; intros [?|Heq]; auto.
    - injection Heq as -> ->. by right.
    - destruct Heq as [-> ->]. by right. }
  case_decide as Hgid; [|destruct (bt_get g (chat_groups m))]; setoid_rewrite Hin.
  - subst g. rewrite Hid in Hg. split; [exists members; by right|].
    intros members' [Hin'|[_ ->]]; [by destruct (Hg members')|done].
  - destruct Hg as [[members' ?] Hall]. split; [exists members'; by left|].
    intros members'' [Hin'|[? _]]; [by apply Hall|done].
  - intros members' [Hin'|[? _]]; [by eapply Hg|done].
Qed.
Lemma groups_step op m done : groups_ok m done →
  wp (guest_step op) (λ r m', match r with Ret a => groups_ok m' (done ++ [(op, a)]) | _ => True end) m.
Proof. intros H. destruct op; guest_run; (by apply (groups_same m)) || by apply groups_created. Qed.
Lemma guest_run_groups ops m done : Forall op_ok ops → guest_run ops manager_default = (m, done) →
  groups_ok m done.
Proof.
  intros Hok Hr. refine (guest_run_untimed groups_ok ops manager_default [] m done _ Hok _ Hr).
  - intros op m' done' _. apply groups_step.
  - intros g. simpl. intros members. apply not_elem_of_nil.
Qed.

(** What the manager finds of an audience is what the calls say. *)
Lemma audience_contains_spec m done a guest : groups_ok m done →
  match audience_contains a guest m with
  | Ok b => audience_exists done a ∧ (b = true ↔ in_audience done guest a)
  | Err e => e = ChatGroupNotFound ∧ ¬ audience_exists done a
  end.
Proof.
  intros H. unfold audience_contains. destruct a as [first second|g]; simpl.
  { split; [done|]. rewrite bool_decide_eq_true. split; by intros [->| ->]; [left|right]. }
  specialize (H g). destruct (bt_get g (chat_groups m)) as [set|]; simpl.
  - destruct H as [[members Hin] Hall]. split; [by exists members|].
    rewrite bool_decide_eq_true, (Hall _ Hin), elem_of_bs_of_list. split; [by exists members|].
    intros (members' & Hin' & Hg). apply (elem_of_bs_of_list members). rewrite <-(Hall _ Hin), (Hall _ Hin').
    by apply elem_of_bs_of_list.
  - split; [done|]. intros [members Hin]. by apply (H members).
Qed.

(** ** The theorems *)

(** C24: admission, after any history of calls whose times do not run back: a waiting guest
    that is ready gets the slot its invitation reserved, always; one without a reservation
    gets the first slot that no session, no waiting guest and no open invitation holds, and
    is refused, without a change, exactly when there is none. *)
Theorem admission_exact ops m done now g sid e
    (Hok : Forall op_ok ops) (Htimed : timed 0 ops)
    (Hrun : guest_run ops manager_default = (m, done)) (Hnow : clock 0 ops ≤ now)
    (Hentry : bt_get g (lobby m) = Some e) (Hwaiting : lobby_state e = Waiting)
    (Hready : is_ready (preflight e) = true)
    (Hfresh : ∀ g' s, bt_get g' (sessions m) = Some s → session_id s ≠ sid) :
  match admit_lobby_guest g sid now m with
  | (m', Ret k) =>
      m' = set_lobby (bt_remove g (lobby m)) (set_sessions (bt_insert g
             (mk_session sid (entry_identity e) k Connected ReturnVideoSelection.Program Off
                (signal (preflight e)) now) (sessions m)) m) ∧
      match entry_slot e with
      | Some k' => k = k'
      | None => 1 ≤ k ≤ 8 ∧ (∀ h, ¬ holds now m h k) ∧ ∀ k', 1 ≤ k' < k → ∃ h, holds now m h k'
      end
  | (m', Throw err) =>
      m' = m ∧ err = SessionLimitReached ∧ entry_slot e = None ∧
      ∀ k, 1 ≤ k ≤ 8 → ∃ h, holds now m h k
  | (_, Panic) => False
  end.
Proof.
  destruct (guest_run_slots ops m done Hok Htimed Hrun) as [Hm Hex].
  pose proof (admit_spec now m g sid e Hm (exclusive_later _ _ _ Hnow Hex) Hentry Hwaiting Hready Hfresh) as H.
  unfold wp in H. destruct (admit_lobby_guest g sid now m) as [m' [k|err|]]; exact H.
Qed.

(** C26: over any history of calls whose times do not run back, every slot has at most one
    holder, be it a session, a waiting guest or an open invitation, there are at most eight
    sessions, an invitation that let a guest in did so once, before it expired, and was
    never revoked, and no guest enters twice. *)
Theorem slots_exclusive ops m done
    (Hok : Forall op_ok ops) (Htimed : timed 0 ops)
    (Hrun : guest_run ops manager_default = (m, done)) :
  (∀ h1 h2 k, holds (clock 0 ops) m h1 k → holds (clock 0 ops) m h2 k → h1 = h2) ∧
  (length (sessions m) ≤ MAX_GUEST_SESSIONS)%nat ∧
  NoDup (entries done).*1 ∧ NoDup (entries done).*2 ∧
  ∀ i identity pf t a, (OpEnter i identity pf t, a) ∈ done →
    (∀ a, (OpRevoke i, a) ∉ done) ∧
    ∃ expires k now, (OpInvite i expires k now, Done) ∈ done ∧ t < expires.
Proof.
  destruct (guest_run_slots ops m done Hok Htimed Hrun) as [Hm Hex].
  pose proof (guest_run_booked ops m done Hrun Hok) as Hb.
  split_and!; [exact Hex|by apply sessions_bound|apply Hb|apply Hb|].
  intros i identity pf t a Hin. split; [|by eapply bk_in_time].
  intros a' (v&Hv&Hs)%(bk_revoked _ _ Hb).
  assert (Hentry : (i, guest_id identity) ∈ entries done).
  { apply list_elem_of_omap. by exists (OpEnter i identity pf t, a). }
  destruct (bk_consumed _ _ Hb _ _ Hentry) as (v'&?&?&_). congruence.
Qed.

(** a session survives everything but being ended: whatever else is called, drops and
    reconnects of the guest included, it keeps its identifier, guest and slot, and its
    connection, return video, talkback and health are those of the last calls that set
    them. *)
Theorem session_retained before ops m0 done0 m done g s
    (Hok0 : Forall op_ok before) (Hrun0 : guest_run before manager_default = (m0, done0))
    (Hok : Forall op_ok ops) (Hrun : guest_run ops m0 = (m, done))
    (Hsession : bt_get g (sessions m0) = Some s) (Hkept : Forall (λ p, ¬ ends g p) done) :
  ∃ s', bt_get g (sessions m) = Some s' ∧ s' = foldl (session_after g) s done ∧
    session_id s' = session_id s ∧ session_identity s' = session_identity s ∧
    slot s' = slot s ∧ admitted_at_ms s' = admitted_at_ms s.
Proof.
  pose proof (guest_run_roster before m0 done0 Hok0 Hrun0) as Hm.
  exists (foldl (session_after g) s done).
  split_and!; [by eapply session_run|done|apply session_after_same..].
Qed.

(** C25: the mix-minus matrix of every reachable manager: a route is in it exactly when it
    has unity gain and takes the microphone of a connected guest to the program or to
    another connected guest, the clean program to a connected guest, or the talkback of the
    manager to a connected guest it is on for.  So nobody hears its own microphone and
    talkback reaches neither the program nor another guest.  No route is listed twice, and
    guests come in the order of their slots. *)
Theorem mix_minus_exact ops m done
    (Hok : Forall op_ok ops) (Hrun : guest_run ops manager_default = (m, done)) :
  (∀ r, r ∈ mix_minus_matrix m ↔ gain r = UNITY ∧
    match source r, destination r with
    | GuestMicrophone g, Program => live g m
    | CleanProgram, GuestReturn d => live d m
    | GuestMicrophone g, GuestReturn d => live g m ∧ live d m ∧ g ≠ d
    | ManagerTalkback, GuestReturn d => live d m ∧ talks d m
    | CleanProgram, Program | ManagerTalkback, Program => False
    end) ∧
  NoDup (mix_minus_matrix m) ∧ StronglySorted Z.lt (slot <$> connected m).
Proof.
  pose proof (guest_run_roster ops m done Hok Hrun) as Hm.
  split_and!; [intros r; by apply elem_of_mix_minus|by apply mix_minus_NoDup|by apply connected_sorted].
Qed.

(** C27: chat implements a log, and keeps it to its audiences.  After any history of calls
    the manager shows, for an audience, the messages to it among the 256 newest of all
    accepted ones, redacted as asked for.  A guest is shown these messages exactly when it
    is one of the two guests of the private audience, or was named when the group was
    created; any other guest is denied, and a group that was never created is not found.
    Every message was sent by such a member, and has a body exactly as long as nobody
    redacted it. *)
Theorem chat_exact ops m done
    (Hok : Forall op_ok ops) (Hrun : guest_run ops manager_default = (m, done)) :
  (∀ a, chat_messages_for_manager a m = filter (λ x, audience x = a) (window (chat_log done))) ∧
  (∀ viewer a,
     match chat_messages_for viewer a m with
     | Ok messages => audience_exists done a ∧ in_audience done viewer a ∧
         messages = filter (λ x, audience x = a) (window (chat_log done))
     | Err ChatAccessDenied => audience_exists done a ∧ ¬ in_audience done viewer a
     | Err e => e = ChatGroupNotFound ∧ ¬ audience_exists done a
     end) ∧
  ∀ x, x ∈ chat_log done →
    in_audience done (sender x) (audience x) ∧ (body x = None ↔ is_redacted x = true).
Proof.
  destruct (guest_run_chat ops m done Hok Hrun) as [Hw _ Hp].
  assert (Hspec := λ a guest, audience_contains_spec m done a guest (guest_run_groups ops m done Hok Hrun)).
  unfold chat_messages_for_manager, chat_messages_for. rewrite Hw. split_and!; [done| |].
  - intros viewer a. specialize (Hspec a viewer).
    destruct (audience_contains a viewer m) as [[]|e]; simpl; [| |by destruct Hspec as [-> ?]].
    all: destruct Hspec as [He Hb]; split; [done|]; intuition congruence.
  - rewrite Forall_forall in Hp. intros x [Ha Hb]%Hp. split; [|done].
    specialize (Hspec (audience x) (sender x)). rewrite Ha in Hspec. by apply Hspec.
Qed.

(** ** A run *)

Definition demo_signal : LatencyEchoHealth := mk_signal (Some 80) (Some (f32_of_Z 40)).
Definition demo_ready : LobbyPreflight :=
  mk_preflight DeviceHealth.Ready DeviceHealth.Ready DeviceHealth.Ready demo_signal.
Definition demo_identity (g : Z) : GuestIdentity := mk_identity g "Guest".
(** Guest 2 is in slot 1, guest 3 in slot 4 with talkback, guest 1 waits with a reservation
    of slot 2, guest 4 waits without one; invitation 5 was revoked, a call was refused. *)
Definition demo_guests : list guest_op :=
  [OpInvite 1 100 (Some 2) 0; OpInvite 2 100 None 0; OpInvite 3 100 (Some 4) 1; OpInvite 4 100 None 1;
   OpInvite 5 100 (Some 2) 1; OpInvite 5 100 None 1; OpRevoke 5;
   OpEnter 2 (demo_identity 2) demo_ready 2; OpEnter 3 (demo_identity 3) demo_ready 2;
   OpAdmit 2 20 3; OpAdmit 3 30 3; OpEnter 1 (demo_identity 1) demo_ready 4;
   OpEnter 4 (demo_identity 4) demo_ready 4; OpTalkback 3 On;
   OpGroup 7 [3; 2]; OpSend 1 2 (Group 7) "hello" 5; OpSend 2 1 (Group 7) "intrusion" 5;
   OpSend 3 1 (Private 1 2) "secret" 5; OpRedact 3 Moderator].
Definition demo_manager : GuestManager := (guest_run demo_guests manager_default).1.
Definition demo_done : list (guest_op * guest_answer) := (guest_run demo_guests manager_default).2.
Lemma demo_guests_ok : Forall op_ok demo_guests.
Proof. apply (bool_decide_eq_true_1 _). vm_compute. reflexivity. Qed.
Lemma demo_guests_timed : timed 0 demo_guests.
Proof. apply (bool_decide_eq_true_1 _). vm_compute. reflexivity. Qed.
Lemma demo_guests_run : guest_run demo_guests manager_default = (demo_manager, demo_done).
Proof. unfold demo_manager, demo_done. by destruct (guest_run _ _). Qed.
Definition demo_entry (g : Z) (k : option Z) : LobbyEntry :=
  mk_entry (demo_identity g) g k demo_ready Waiting 4.
Lemma demo_sessions_fresh g s : bt_get g (sessions demo_manager) = Some s → session_id s ≠ 40.
Proof.
  intros Hg%bt_get_elem%(list_elem_of_fmap_2 snd). revert Hg.
  assert (Forall (λ s, session_id s ≠ 40) (sessions demo_manager).*2) as Hall.
  { apply (bool_decide_eq_true_1 _). vm_compute. reflexivity. }
  rewrite Forall_forall in Hall. apply Hall.
Qed.

(** Guest 4 has no reservation and gets slot 3: 1 and 4 are taken and 2 is reserved. *)
Lemma admission_exact_witness :
  (admit_lobby_guest 4 40 5 demo_manager).2 = Ret 3 ∧
  (∀ h, ¬ holds 5 demo_manager h 3) ∧ ∃ h, holds 5 demo_manager h 2.
Proof.
  pose proof (admission_exact demo_guests demo_manager demo_done 5 4 40 (demo_entry 4 None)
    demo_guests_ok demo_guests_timed demo_guests_run ltac:(vm_compute; discriminate)
    ltac:(vm_compute; reflexivity) eq_refl ltac:(vm_compute; reflexivity) demo_sessions_fresh) as H.
  assert (Hr : (admit_lobby_guest 4 40 5 demo_manager).2 = Ret 3) by (vm_compute; reflexivity).
  destruct (admit_lobby_guest 4 40 5 demo_manager) as [m' r]. simpl in Hr. rewrite Hr in H.
  destruct H as (_&_&Hfree&Hlow). split; [exact Hr|]. split; [exact Hfree|]. apply Hlow. lia.
Defined.
Lemma slots_exclusive_witness : NoDup (entries demo_done).*1 ∧ entries demo_done = [(2, 2); (3, 3); (1, 1); (4, 4)].
Proof.
  split; [|vm_compute; reflexivity].
  exact (proj1 (proj2 (proj2 (slots_exclusive demo_guests demo_manager demo_done
    demo_guests_ok demo_guests_timed demo_guests_run)))).
Defined.
Definition demo_later : list guest_op :=
  [OpVideo 3 ReturnVideoSelection.Preview; OpDisconnect 3 10 50; OpEnd 2; OpReconnect 3 51; OpReconnect 3 50].
Lemma session_retained_witness :
  ∃ s, bt_get 3 (sessions (guest_run demo_later demo_manager).1) = Some s ∧ slot s = 4.
Proof.
  destruct (guest_run demo_later demo_manager) as [m done] eqn:Hrun.
  assert (Hs : ∃ s, bt_get 3 (sessions demo_manager) = Some s ∧ slot s = 4)
    by (eexists; vm_compute; split; reflexivity).
  destruct Hs as (s&Hs&Hslot).
  assert (Hdone : Forall (λ p, ¬ ends 3 p) done).
  { assert (done = (guest_run demo_later demo_manager).2) as -> by (rewrite Hrun; reflexivity).
    apply (bool_decide_eq_true_1 _). vm_compute. reflexivity. }
  destruct (session_retained demo_guests demo_later demo_manager demo_done m done 3 s
    demo_guests_ok demo_guests_run ltac:(repeat constructor) Hrun Hs Hdone) as (s'&Hs'&_&_&_&Hk&_).
  exists s'. split; [exact Hs'|]. rewrite Hk. exact Hslot.
Defined.
Lemma mix_minus_exact_witness :
  length (mix_minus_matrix demo_manager) = 7%nat ∧ NoDup (mix_minus_matrix demo_manager).
Proof.
  split; [vm_compute; reflexivity|].
  exact (proj1 (proj2 (mix_minus_exact demo_guests demo_manager demo_done demo_guests_ok demo_guests_run))).
Defined.
(** Guest 2 reads the group it is in; guest 3 is kept out of the talk of the others. *)
Lemma chat_exact_witness :
  (∃ messages, chat_messages_for 2 (Group 7) demo_manager = Ok messages ∧ length messages = 1%nat ∧
     in_audience demo_done 2 (Group 7)) ∧
  chat_messages_for 3 (Private 1 2) demo_manager = Err ChatAccessDenied ∧
  ¬ in_audience demo_done 3 (Private 1 2).
Proof.
  destruct (chat_exact demo_guests demo_manager demo_done demo_guests_ok demo_guests_run) as (_&Hv&_).
  split.
  - assert (∃ messages, chat_messages_for 2 (Group 7) demo_manager = Ok messages ∧ length messages = 1%nat)
      as (messages&Hm&Hl) by (eexists; split; vm_compute; reflexivity).
    exists messages. split; [exact Hm|]. split; [exact Hl|].
    specialize (Hv 2 (Group 7)). rewrite Hm in Hv. exact (proj1 (proj2 Hv)).
  - assert (chat_messages_for 3 (Private 1 2) demo_manager = Err ChatAccessDenied) as Hd
      by (vm_compute; reflexivity).
    split; [exact Hd|]. specialize (Hv 3 (Private 1 2)). rewrite Hd in Hv. exact (proj2 Hv).
Defined.

(** The constructor of a private audience orders its guests, but the fields are public and
    [send_chat] takes them in either order: the message is then not in the conversation
    that the constructor names. *)
Definition unordered_run : GuestManager * list (guest_op * guest_answer) :=
  guest_run (take 16 demo_guests ++ [OpSend 4 1 (Private 2 1) "aside" 6]) manager_default.
Lemma unordered_private_splits :
  private 2 1 = Ok (Private 1 2) ∧ (λ p, p.1) <$> last unordered_run.2 = Some (OpSend 4 1 (Private 2 1) "aside" 6) ∧
  chat_messages_for_manager (Private 1 2) unordered_run.1 = [].
Proof. split_and!; vm_compute; reflexivity. Qed.
