(* ===== verification/PluginExchange.v ===== *)
(** What plugins and the engine exchange, [exchange.rs] and [types.rs] of
    [crates/features/fm-plugin-host-api/src]: identifiers, manifests, snapshots, crash
    reports, messages and batches, and the limits they are checked against.

    A Rust string is a [string], a [Vec<u8>] a list of bytes, and a [usize] a [Z].  The
    macros [payload_message!] and [batch!] are instantiated twice each; [message_new] and
    [batch_new] take what the instances differ in as arguments. *)
From stdpp Require Import pretty.
From S2P Require Import Prelude Command.
#[local] Open Scope Z_scope.

Definition HARD_MAX_PAYLOAD_BYTES : Z := 16 * 1024 * 1024.
Definition HARD_MAX_BATCH_ITEMS : Z := 4096.
Definition HARD_MAX_CAPABILITIES : Z := 4096.
Definition HARD_MAX_IDENTIFIER_BYTES : Z := 1024.

Definition len {A} (l : list A) : Z := Z.of_nat (length l).
Definition bytes_of (s : string) : Z := Z.of_nat (str_len s).

(** ** Limits *)

Inductive ExchangeError :=
  | InvalidLimits
  | EmptyIdentifier (field : string)
  | PayloadTooLarge (kind : string) (actual maximum : Z)
  | BatchTooLarge (kind : string) (actual maximum : Z)
  | DuplicateCapability.
Definition exchange_error_display (self : ExchangeError) : string :=
  match self with
  | InvalidLimits => "protocol limits are zero or excessive"
  | EmptyIdentifier field => field +:+ " must not be empty"
  | PayloadTooLarge kind actual maximum =>
      kind +:+ " is " +:+ pretty actual +:+ " bytes, exceeding the " +:+ pretty maximum +:+ " byte limit"
  | BatchTooLarge kind actual maximum =>
      kind +:+ " has " +:+ pretty actual +:+ " items, exceeding the " +:+ pretty maximum +:+ " item limit"
  | DuplicateCapability => "capability appears more than once"
  end.

Record ProtocolLimits := mk_limits {
  max_event_bytes : Z;
  max_data_bytes : Z;
  max_events_per_batch : Z;
  max_data_per_batch : Z;
  max_snapshot_bytes : Z;
  max_crash_report_bytes : Z;
  max_identifier_bytes : Z;
  max_capabilities : Z
}.
Definition limits_default : ProtocolLimits :=
  mk_limits (64 * 1024) (1024 * 1024) 256 64 (4 * 1024 * 1024) (256 * 1024) 256 256.

(** [limit == 0 || limit > hard]. *)
Definition limit_invalid (hard limit : Z) : bool := bool_decide (limit = 0) || bool_decide (hard < limit).
Definition limits_validate (self : ProtocolLimits) : result ExchangeError ProtocolLimits :=
  let payloads := [max_event_bytes self; max_data_bytes self; max_snapshot_bytes self;
                   max_crash_report_bytes self] in
  if existsb (limit_invalid HARD_MAX_PAYLOAD_BYTES) payloads ||
     limit_invalid HARD_MAX_BATCH_ITEMS (max_events_per_batch self) ||
     limit_invalid HARD_MAX_BATCH_ITEMS (max_data_per_batch self) ||
     limit_invalid HARD_MAX_IDENTIFIER_BYTES (max_identifier_bytes self) ||
     limit_invalid HARD_MAX_CAPABILITIES (max_capabilities self)
  then Err InvalidLimits else Ok self.

Definition validate_identifier (field value : string) (self : ProtocolLimits) :
    result ExchangeError unit :=
  if decide (value = "") then Err (EmptyIdentifier field) else
  let maximum := Z.min (max_identifier_bytes self) HARD_MAX_IDENTIFIER_BYTES in
  if decide (maximum < bytes_of value) then Err (PayloadTooLarge field (bytes_of value) maximum)
  else Ok tt.
Definition validate_payload (kind : string) (actual maximum : Z) : result ExchangeError unit :=
  let maximum := if decide (maximum < HARD_MAX_PAYLOAD_BYTES) then maximum else HARD_MAX_PAYLOAD_BYTES in
  if decide (maximum < actual) then Err (PayloadTooLarge kind actual maximum) else Ok tt.

(** The loop of [validate_capabilities] over what it has seen. *)
Fixpoint check_capabilities (limits : ProtocolLimits) (unique : gset string)
    (capabilities : list string) : result ExchangeError unit :=
  match capabilities with
  | [] => Ok tt
  | capability :: capabilities =>
      _ ← validate_identifier "capability" capability limits;
      if decide (capability ∈ unique) then Err DuplicateCapability
      else check_capabilities limits ({[capability]} ∪ unique) capabilities
  end.
Definition validate_capabilities (capabilities : list string) (limits : ProtocolLimits) :
    result ExchangeError unit :=
  let maximum := Z.min (max_capabilities limits) HARD_MAX_CAPABILITIES in
  if decide (maximum < len capabilities)
  then Err (BatchTooLarge "capabilities" (len capabilities) maximum)
  else check_capabilities limits ∅ capabilities.

(** ** Data *)

Record ApiVersion := mk_api { major : Z; minor : Z }.
#[global] Instance ApiVersion_eq_dec : EqDecision ApiVersion.
Proof. solve_decision. Defined.

Record PluginManifest := mk_manifest {
  manifest_id : string;
  api_version : ApiVersion;
  state_version : Z;
  manifest_capabilities : list string
}.
Definition manifest_new (id : string) (api_version : ApiVersion) (state_version : Z) : PluginManifest :=
  mk_manifest id api_version state_version [].
Definition requesting (capability : string) (self : PluginManifest) : PluginManifest :=
  mk_manifest (manifest_id self) (api_version self) (state_version self)
    (manifest_capabilities self ++ [capability]).

Inductive PluginState := Discovered | Validated | Loaded | Started | Stopped | Quarantined.
#[global] Instance PluginState_eq_dec : EqDecision PluginState.
Proof. solve_decision. Defined.
Definition plugin_state_debug (self : PluginState) : string :=
  match self with
  | Discovered => "Discovered"
  | Validated => "Validated"
  | Loaded => "Loaded"
  | Started => "Started"
  | Stopped => "Stopped"
  | Quarantined => "Quarantined"
  end.
Inductive CapabilityDecision := Granted | Denied.
#[global] Instance CapabilityDecision_eq_dec : EqDecision CapabilityDecision.
Proof. solve_decision. Defined.
Inductive QuarantineReason := Policy (reason : string) | DeadlineMissed (deadline_millis : Z) | Crashed.

Record StateSnapshot := mk_snapshot {
  snapshot_plugin : string;
  snapshot_version : Z;
  snapshot_data : list Byte.byte
}.
Definition snapshot_new (plugin : string) (version : Z) (data : list Byte.byte)
    (limits : ProtocolLimits) : result ExchangeError StateSnapshot :=
  _ ← limits_validate limits;
  _ ← validate_identifier "plugin_id" plugin limits;
  _ ← validate_payload "snapshot" (len data) (max_snapshot_bytes limits);
  Ok (mk_snapshot plugin version data).

Record CrashReport := mk_crash {
  crash_plugin : string;
  occurred_at_millis : Z;
  summary : string;
  details : list Byte.byte
}.
Definition crash_new (plugin : string) (occurred_at_millis : Z) (summary : string)
    (details : list Byte.byte) (limits : ProtocolLimits) : result ExchangeError CrashReport :=
  _ ← limits_validate limits;
  _ ← validate_identifier "plugin_id" plugin limits;
  _ ← validate_identifier "crash summary" summary limits;
  _ ← validate_payload "crash report" (len details) (max_crash_report_bytes limits);
  Ok (mk_crash plugin occurred_at_millis summary details).

(** [EventMessage] and [DataMessage]. *)
Record PluginMessage := mk_message {
  message_plugin : string;
  channel : string;
  payload : list Byte.byte
}.
Definition message_new (kind : string) (limit : ProtocolLimits → Z) (plugin channel : string)
    (payload : list Byte.byte) (limits : ProtocolLimits) : result ExchangeError PluginMessage :=
  _ ← limits_validate limits;
  _ ← validate_identifier "plugin_id" plugin limits;
  _ ← validate_identifier "channel" channel limits;
  _ ← validate_payload kind (len payload) (limit limits);
  Ok (mk_message plugin channel payload).
Definition event_message_new := message_new "event" max_event_bytes.
Definition data_message_new := message_new "data" max_data_bytes.

Fixpoint check_items (kind : string) (limit : Z) (limits : ProtocolLimits)
    (items : list PluginMessage) : result ExchangeError unit :=
  match items with
  | [] => Ok tt
  | item :: items =>
      _ ← validate_identifier "plugin_id" (message_plugin item) limits;
      _ ← validate_identifier "channel" (channel item) limits;
      _ ← validate_payload kind (len (payload item)) limit;
      check_items kind limit limits items
  end.
Definition batch_new (limit : ProtocolLimits → Z) (kind : string) (payload_limit : ProtocolLimits → Z)
    (payload_kind : string) (items : list PluginMessage) (limits : ProtocolLimits) :
    result ExchangeError (list PluginMessage) :=
  _ ← limits_validate limits;
  if decide (limit limits < len items) then Err (BatchTooLarge kind (len items) (limit limits)) else
  _ ← check_items payload_kind (payload_limit limits) limits items;
  Ok items.
Definition event_batch_new := batch_new max_events_per_batch "event batch" max_event_bytes "event".
Definition data_batch_new := batch_new max_data_per_batch "data batch" max_data_bytes "data".

Record HeartbeatMessage := mk_heartbeat {
  heartbeat_sequence : Z;
  sent_at_millis : Z;
  reply_deadline : Z
}.
Definition deadline_exceeded_at (now_millis : Z) (self : HeartbeatMessage) : bool :=
  is_exceeded_at (reply_deadline self) now_millis.

(** A [MutationIntent] is the command it wraps. *)
Inductive PluginToEngine (C : Type) :=
  | Events (batch : list PluginMessage)
  | Data (batch : list PluginMessage)
  | CapabilityRequest (plugin capability : string)
  | MessageSnapshot (snapshot : StateSnapshot)
  | MessageHeartbeat (plugin : string) (heartbeat : HeartbeatMessage)
  | MessageCrash (report : CrashReport)
  | MutationIntent (command : CommandEnvelope C).
