(* ===== verification/PluginHost.v ===== *)
(** The plugin registry of the engine, [crates/features/fm-plugin-host-api/src/host.rs].

    [PluginHost] is a command machine of fm-command over [HostState]; [execute] runs
    [apply_command] as its mutation, whose handlers work on the draft of the state and the
    pending events.  [HashMap] and [HashSet] are [gmap] and [gset]: nothing iterates them. *)
From S2P Require Import Prelude Command PluginExchange.
#[local] Open Scope Z_scope.

(** ** Data *)

Module PluginCommand.
Inductive t :=
  | Discover (manifest : PluginManifest)
  | Validate (plugin : string)
  | Load (plugin : string) (snapshot : option StateSnapshot)
  | Start (plugin : string)
  | Stop (plugin : string)
  | RequestCapability (plugin capability : string)
  | DecideCapability (plugin capability : string) (decision : CapabilityDecision)
  | StoreSnapshot (snapshot : StateSnapshot)
  | Heartbeat (plugin : string) (heartbeat : HeartbeatMessage)
  | CheckHeartbeatDeadline (plugin : string) (deadline : Z)
  | Quarantine (plugin : string) (reason : QuarantineReason)
  | ReportCrash (report : CrashReport).
End PluginCommand.
Module PluginCommandResult.
Inductive t :=
  | Discovered | Validated | Loaded | Started | Stopped | CapabilityRequested
  | CapabilityDecided (decision : CapabilityDecision)
  | SnapshotStored | HeartbeatRecorded | Quarantined.
End PluginCommandResult.
Module PluginEvent.
Inductive t :=
  | StateChanged (plugin : string) (from : option PluginState) (to : PluginState)
  | CapabilityRequested (plugin capability : string)
  | CapabilityDecided (plugin capability : string) (decision : CapabilityDecision)
  | SnapshotStored (plugin : string) (version : Z)
  | HeartbeatRecorded (plugin : string) (sequence : Z)
  | CrashReported (report : CrashReport).
End PluginEvent.

Record PluginRecord := mk_record {
  manifest : PluginManifest;
  plugin_state : PluginState;
  requested_capabilities : gset string;
  capability_decisions : gmap string CapabilityDecision;
  snapshot : option StateSnapshot;
  last_heartbeat : option HeartbeatMessage;
  quarantine_reason : option QuarantineReason;
  crash_report : option CrashReport
}.
Definition set_plugin_state (x : PluginState) (self : PluginRecord) : PluginRecord :=
  mk_record (manifest self) x (requested_capabilities self) (capability_decisions self)
    (snapshot self) (last_heartbeat self) (quarantine_reason self) (crash_report self).
Definition set_requested (x : gset string) (self : PluginRecord) : PluginRecord :=
  mk_record (manifest self) (plugin_state self) x (capability_decisions self)
    (snapshot self) (last_heartbeat self) (quarantine_reason self) (crash_report self).
Definition set_decisions (x : gmap string CapabilityDecision) (self : PluginRecord) : PluginRecord :=
  mk_record (manifest self) (plugin_state self) (requested_capabilities self) x
    (snapshot self) (last_heartbeat self) (quarantine_reason self) (crash_report self).
Definition set_snapshot (x : option StateSnapshot) (self : PluginRecord) : PluginRecord :=
  mk_record (manifest self) (plugin_state self) (requested_capabilities self)
    (capability_decisions self) x (last_heartbeat self) (quarantine_reason self) (crash_report self).
Definition set_heartbeat (x : option HeartbeatMessage) (self : PluginRecord) : PluginRecord :=
  mk_record (manifest self) (plugin_state self) (requested_capabilities self)
    (capability_decisions self) (snapshot self) x (quarantine_reason self) (crash_report self).
Definition set_reason (x : option QuarantineReason) (self : PluginRecord) : PluginRecord :=
  mk_record (manifest self) (plugin_state self) (requested_capabilities self)
    (capability_decisions self) (snapshot self) (last_heartbeat self) x (crash_report self).
Definition set_crash (x : option CrashReport) (self : PluginRecord) : PluginRecord :=
  mk_record (manifest self) (plugin_state self) (requested_capabilities self)
    (capability_decisions self) (snapshot self) (last_heartbeat self) (quarantine_reason self) x.

(** The effective decision: what was not decided is denied. *)
Definition capability_decision (capability : string) (self : PluginRecord) : CapabilityDecision :=
  default Denied (capability_decisions self !! capability).
Definition capability_requested (capability : string) (self : PluginRecord) : bool :=
  bool_decide (capability ∈ requested_capabilities self).

Record HostState := mk_host {
  plugins : gmap string PluginRecord;
  host_api_version : ApiVersion;
  limits : ProtocolLimits
}.
Definition set_plugins (x : gmap string PluginRecord) (self : HostState) : HostState :=
  mk_host x (host_api_version self) (limits self).

(** ** Handlers *)

(** The draft of the state and the pending events. *)
Definition HostDraft : Type := HostState * list PluginEvent.t.
Definition handler (A : Type) : Type := stm HostDraft Rejection A.

Definition rejection (code : RejectionCode) (message : string) : Rejection := rejection_new code message.
Definition exchange_rejection (error : ExchangeError) : Rejection :=
  let code := match error with
              | PayloadTooLarge _ _ _ | BatchTooLarge _ _ _ => ResourceExhausted
              | _ => InvalidCommand
              end in
  rejection code (exchange_error_display error).
(** [.map_err(exchange_rejection)?]. *)
Definition checked_by {A} (f : ProtocolLimits → result ExchangeError A) : handler A :=
  s ← st_get;
  st_lift (result_map_err exchange_rejection (f (limits s.1))).

Definition push_event (event : PluginEvent.t) : handler unit := st_modify (λ s, (s.1, s.2 ++ [event])).
Definition plugin_mut (plugin : string) : handler PluginRecord :=
  s ← st_get;
  st_lift (ok_or (rejection NotFound "plugin was not discovered") (plugins s.1 !! plugin)).
(** An assignment through what [plugin_mut] returned. *)
Definition put_plugin (plugin : string) (record : PluginRecord) : handler unit :=
  st_modify (λ s, (set_plugins (<[plugin := record]> (plugins s.1)) s.1, s.2)).
Definition set_state (plugin : string) (record : PluginRecord) (to : PluginState) : handler unit :=
  _ ← put_plugin plugin (set_plugin_state to record);
  push_event (PluginEvent.StateChanged plugin (Some (plugin_state record)) to).
Definition require_state (record : PluginRecord) (allowed : list PluginState) (to : PluginState) :
    handler unit :=
  st_require (plugin_state record ∈ allowed)
    (rejection Conflict ("invalid plugin lifecycle transition from " +:+
       plugin_state_debug (plugin_state record) +:+ " to " +:+ plugin_state_debug to)).
Definition transition (plugin : string) (allowed : list PluginState) (to : PluginState)
    (r : PluginCommandResult.t) : handler PluginCommandResult.t :=
  record ← plugin_mut plugin;
  _ ← require_state record allowed to;
  _ ← set_state plugin record to;
  mret r.
Definition validate_snapshot (plugin : string) (snapshot : StateSnapshot) : handler unit :=
  _ ← st_require (snapshot_plugin snapshot = plugin)
        (rejection InvalidCommand "snapshot plugin identity does not match command plugin");
  checked_by (λ limits, validate_payload "snapshot" (len (snapshot_data snapshot))
                          (max_snapshot_bytes limits)).

Definition discover (manifest : PluginManifest) : handler PluginCommandResult.t :=
  _ ← checked_by (validate_identifier "plugin_id" (manifest_id manifest));
  _ ← checked_by (validate_capabilities (manifest_capabilities manifest));
  s ← st_get;
  _ ← st_require (plugins s.1 !! manifest_id manifest = None)
        (rejection Conflict "plugin has already been discovered");
  _ ← put_plugin (manifest_id manifest)
        (mk_record manifest Discovered (list_to_set (manifest_capabilities manifest)) ∅
           None None None None);
  _ ← push_event (PluginEvent.StateChanged (manifest_id manifest) None Discovered);
  mret PluginCommandResult.Discovered.

Definition validate (plugin : string) : handler PluginCommandResult.t :=
  s ← st_get;
  record ← plugin_mut plugin;
  _ ← require_state record [Discovered] Validated;
  _ ← st_require (api_version (manifest record) = host_api_version s.1)
        (rejection InvalidCommand "plugin API version is not supported");
  _ ← set_state plugin record Validated;
  mret PluginCommandResult.Validated.

Definition load (plugin : string) (snapshot : option StateSnapshot) : handler PluginCommandResult.t :=
  _ ← match snapshot with
      | Some snapshot => validate_snapshot plugin snapshot
      | None => mret tt
      end;
  record ← plugin_mut plugin;
  _ ← require_state record [Validated] Loaded;
  record ← match snapshot with
           | Some snapshot =>
               _ ← st_require (snapshot_version snapshot = state_version (manifest record))
                     (rejection InvalidCommand
                        "snapshot state version does not match the current manifest");
               mret (set_snapshot (Some snapshot) record)
           | None => mret record
           end;
  _ ← set_state plugin record Loaded;
  mret PluginCommandResult.Loaded.

Definition request_capability (plugin capability : string) : handler PluginCommandResult.t :=
  _ ← checked_by (validate_identifier "capability" capability);
  s ← st_get;
  record ← plugin_mut plugin;
  _ ← st_require (plugin_state record ≠ Quarantined)
        (rejection Unavailable "quarantined plugin cannot request capabilities");
  _ ← st_require (capability ∈ requested_capabilities record ∨
                  Z.of_nat (size (requested_capabilities record)) < max_capabilities (limits s.1))
        (rejection ResourceExhausted "capability request limit exceeded");
  _ ← put_plugin plugin (set_requested ({[capability]} ∪ requested_capabilities record) record);
  _ ← push_event (PluginEvent.CapabilityRequested plugin capability);
  mret PluginCommandResult.CapabilityRequested.

Definition decide_capability (plugin capability : string) (decision : CapabilityDecision) :
    handler PluginCommandResult.t :=
  record ← plugin_mut plugin;
  _ ← st_require (capability ∈ requested_capabilities record)
        (rejection InvalidCommand "capability must be requested before it can be decided");
  _ ← st_require (¬ (plugin_state record = Quarantined ∧ decision = Granted))
        (rejection Unavailable "cannot grant capability to quarantined plugin");
  _ ← put_plugin plugin
        (set_decisions (<[capability := decision]> (capability_decisions record)) record);
  _ ← push_event (PluginEvent.CapabilityDecided plugin capability decision);
  mret (PluginCommandResult.CapabilityDecided decision).

Definition store_snapshot (snapshot : StateSnapshot) : handler PluginCommandResult.t :=
  let plugin := snapshot_plugin snapshot in
  _ ← validate_snapshot plugin snapshot;
  record ← plugin_mut plugin;
  _ ← st_require (plugin_state record ∈ [Loaded; Started; Stopped])
        (rejection Conflict "plugin state cannot be snapshotted in its current lifecycle state");
  _ ← st_require (snapshot_version snapshot = state_version (manifest record))
        (rejection InvalidCommand "snapshot state version does not match the manifest");
  _ ← put_plugin plugin (set_snapshot (Some snapshot) record);
  _ ← push_event (PluginEvent.SnapshotStored plugin (snapshot_version snapshot));
  mret PluginCommandResult.SnapshotStored.

Definition heartbeat (plugin : string) (heartbeat : HeartbeatMessage) (now_millis : Z) :
    handler PluginCommandResult.t :=
  _ ← st_require (deadline_exceeded_at now_millis heartbeat = false)
        (rejection DeadlineExceeded "heartbeat reply deadline exceeded");
  record ← plugin_mut plugin;
  _ ← st_require (plugin_state record = Started)
        (rejection Conflict "heartbeats are accepted only from started plugins");
  _ ← st_require (from_option (λ previous,
                    bool_decide (heartbeat_sequence heartbeat ≤ heartbeat_sequence previous))
                    false (last_heartbeat record) = false)
        (rejection InvalidCommand "heartbeat sequence must increase");
  _ ← put_plugin plugin (set_heartbeat (Some heartbeat) record);
  _ ← push_event (PluginEvent.HeartbeatRecorded plugin (heartbeat_sequence heartbeat));
  mret PluginCommandResult.HeartbeatRecorded.

Definition quarantine (plugin : string) (reason : QuarantineReason) (report : option CrashReport) :
    handler PluginCommandResult.t :=
  _ ← match reason with
      | Policy message => checked_by (validate_identifier "quarantine reason" message)
      | _ => mret tt
      end;
  _ ← match report with
      | Some report =>
          _ ← st_require (crash_plugin report = plugin)
                (rejection InvalidCommand "crash report plugin identity does not match command plugin");
          _ ← checked_by (validate_identifier "plugin_id" (crash_plugin report));
          _ ← checked_by (validate_identifier "crash summary" (summary report));
          checked_by (λ limits, validate_payload "crash report" (len (details report))
                                  (max_crash_report_bytes limits))
      | None => mret tt
      end;
  record ← plugin_mut plugin;
  _ ← require_state record [Discovered; Validated; Loaded; Started; Stopped] Quarantined;
  let record := set_decisions ∅ (set_reason (Some reason) record) in
  record ← match report with
           | Some report =>
               _ ← push_event (PluginEvent.CrashReported report);
               mret (set_crash (Some report) record)
           | None => mret record
           end;
  _ ← set_state plugin record Quarantined;
  mret PluginCommandResult.Quarantined.

Definition check_heartbeat_deadline (plugin : string) (deadline now_millis : Z) :
    handler PluginCommandResult.t :=
  _ ← st_require (is_exceeded_at deadline now_millis = true)
        (rejection InvalidCommand "heartbeat deadline has not expired");
  quarantine plugin (DeadlineMissed deadline) None.

Definition apply_command (command : PluginCommand.t) (now_millis : Z) : handler PluginCommandResult.t :=
  match command with
  | PluginCommand.Discover manifest => discover manifest
  | PluginCommand.Validate plugin => validate plugin
  | PluginCommand.Load plugin snapshot => load plugin snapshot
  | PluginCommand.Start plugin =>
      transition plugin [Loaded; Stopped] Started PluginCommandResult.Started
  | PluginCommand.Stop plugin => transition plugin [Started] Stopped PluginCommandResult.Stopped
  | PluginCommand.RequestCapability plugin capability => request_capability plugin capability
  | PluginCommand.DecideCapability plugin capability decision =>
      decide_capability plugin capability decision
  | PluginCommand.StoreSnapshot snapshot => store_snapshot snapshot
  | PluginCommand.Heartbeat plugin message => heartbeat plugin message now_millis
  | PluginCommand.CheckHeartbeatDeadline plugin deadline =>
      check_heartbeat_deadline plugin deadline now_millis
  | PluginCommand.Quarantine plugin reason => quarantine plugin reason None
  | PluginCommand.ReportCrash report => quarantine (crash_plugin report) Crashed (Some report)
  end.

(** ** The host *)

(** [HostMutation]: no handler panics ([PluginLaws.apply_command_safe]). *)
Definition host_mutation (command : PluginCommand.t) (now_millis : Z) :
    Mutation HostState PluginEvent.t PluginCommandResult.t := λ state events,
  match apply_command command now_millis (state, events) with
  | ((state, events), Ret r) => (state, events, Ok r)
  | ((state, events), Throw e) => (state, events, Err e)
  | ((state, events), Panic) => (state, events, Err (rejection Internal "panicked"))
  end.

Abbreviation PluginHost := (CommandState HostState PluginCommandResult.t).
Definition host_new (api_version : ApiVersion) (limits : ProtocolLimits) (state_epoch : StateEpoch) :
    result ExchangeError PluginHost :=
  limits ← limits_validate limits;
  Ok (state_new (mk_host ∅ api_version limits) state_epoch).
(** The closure that [execute] passes. *)
Definition host_prepare (now_millis : Z) (_ : HostState) (command : PluginCommand.t) :
    result Rejection (Mutation HostState PluginEvent.t PluginCommandResult.t) :=
  Ok (host_mutation command now_millis).
Definition execute (envelope : CommandEnvelope PluginCommand.t) (now_millis : Z) (self : PluginHost) :
    PluginHost * ApplyOutcome PluginCommandResult.t PluginEvent.t :=
  apply self envelope now_millis (host_prepare now_millis).
Definition plugin (id : string) (self : PluginHost) : option PluginRecord := plugins (state self) !! id.

(** A history of calls and the durable events they emit. *)
Fixpoint host_run (calls : list (CommandEnvelope PluginCommand.t * Z)) (self : PluginHost) :
    PluginHost * list PluginEvent.t :=
  match calls with
  | [] => (self, [])
  | call :: calls =>
      let '(self, outcome) := execute call.1 call.2 self in
      let '(final, rest) := host_run calls self in
      (final, (ev_payload <$> events outcome) ++ rest)
  end.
