(* ===== verification/PluginLaws.v ===== *)
(** Laws of the plugin registry: its durable events, replayed, give the lifecycle of every
    plugin ([host_replays]), records stay within the limits ([host_safe]), and a quarantine
    is final ([quarantine_final]). *)
From S2P Require Import Prelude Command PluginExchange PluginHost.
#[local] Open Scope Z_scope.

(** ** The abstract registry: what the durable events say *)

Record plugin_view := mk_view {
  view_state : PluginState;
  view_decisions : gmap string CapabilityDecision;
  view_heartbeat : option Z;
  view_crash : option CrashReport
}.
Abbreviation registry := (gmap string plugin_view).
Definition view_of (r : PluginRecord) : plugin_view :=
  mk_view (plugin_state r) (capability_decisions r) (heartbeat_sequence <$> last_heartbeat r)
    (crash_report r).
Definition registry_of (s : HostState) : registry := view_of <$> plugins s.

Definition update (p : string) (f : plugin_view → plugin_view) (v : registry) : registry :=
  match v !! p with
  | Some x => <[p := f x]> v
  | None => v
  end.
Definition replay (v : registry) (e : PluginEvent.t) : registry :=
  match e with
  | PluginEvent.StateChanged p None to => <[p := mk_view to ∅ None None]> v
  | PluginEvent.StateChanged p (Some _) to =>
      update p (λ x, mk_view to (if decide (to = Quarantined) then ∅ else view_decisions x)
                       (view_heartbeat x) (view_crash x)) v
  | PluginEvent.CapabilityRequested _ _ | PluginEvent.SnapshotStored _ _ => v
  | PluginEvent.CapabilityDecided p c d =>
      update p (λ x, mk_view (view_state x) (<[c := d]> (view_decisions x)) (view_heartbeat x)
                       (view_crash x)) v
  | PluginEvent.HeartbeatRecorded p n =>
      update p (λ x, mk_view (view_state x) (view_decisions x) (Some n) (view_crash x)) v
  | PluginEvent.CrashReported r =>
      update (crash_plugin r) (λ x, mk_view (view_state x) (view_decisions x) (view_heartbeat x)
                                      (Some r)) v
  end.

(** The edges of the lifecycle. *)
Definition lifecycle_edge (from to : PluginState) : bool :=
  match from, to with
  | Discovered, Validated | Validated, Loaded | Loaded, Started | Stopped, Started
  | Started, Stopped
  | (Discovered | Validated | Loaded | Started | Stopped), Quarantined => true
  | _, _ => false
  end.
(** When the registry allows an event. *)
Definition legal (v : registry) (e : PluginEvent.t) : Prop :=
  match e with
  | PluginEvent.StateChanged p None to => v !! p = None ∧ to = Discovered
  | PluginEvent.StateChanged p (Some from) to =>
      ∃ x, v !! p = Some x ∧ view_state x = from ∧ lifecycle_edge from to = true
  | PluginEvent.CapabilityRequested p _ => ∃ x, v !! p = Some x ∧ view_state x ≠ Quarantined
  | PluginEvent.CapabilityDecided p _ d =>
      ∃ x, v !! p = Some x ∧ (view_state x = Quarantined → d = Denied)
  | PluginEvent.SnapshotStored p _ => ∃ x, v !! p = Some x ∧ view_state x ∈ [Loaded; Started; Stopped]
  | PluginEvent.HeartbeatRecorded p n =>
      ∃ x, v !! p = Some x ∧ view_state x = Started ∧ ∀ k, view_heartbeat x = Some k → k < n
  | PluginEvent.CrashReported r =>
      ∃ x, v !! crash_plugin r = Some x ∧ view_state x ≠ Quarantined
  end.
Fixpoint legal_run (v : registry) (es : list PluginEvent.t) : Prop :=
  match es with
  | [] => True
  | e :: es => legal v e ∧ legal_run (replay v e) es
  end.

Lemma legal_run_app v es es' :
  legal_run v (es ++ es') ↔ legal_run v es ∧ legal_run (foldl replay v es) es'.
Proof. revert v. induction es as [|e es IH]; intros v; simpl; [tauto|]. rewrite IH. tauto. Qed.

(** ** Records *)

Record record_ok (s : HostState) (p : string) (r : PluginRecord) : Prop := mk_record_ok {
  rec_id : manifest_id (manifest r) = p;
  rec_id_bytes : 0 < bytes_of p ≤ max_identifier_bytes (limits s);
  rec_api : plugin_state r ∈ [Validated; Loaded; Started; Stopped] →
    api_version (manifest r) = host_api_version s;
  rec_requested : Z.of_nat (size (requested_capabilities r)) ≤ max_capabilities (limits s);
  rec_decided : dom (capability_decisions r) ⊆ requested_capabilities r;
  rec_denied : plugin_state r = Quarantined → ∀ c, capability_decisions r !! c ≠ Some Granted;
  rec_snapshot : ∀ x, snapshot r = Some x → snapshot_plugin x = p ∧
    snapshot_version x = state_version (manifest r) ∧
    len (snapshot_data x) ≤ max_snapshot_bytes (limits s);
  rec_reason : is_Some (quarantine_reason r) ↔ plugin_state r = Quarantined;
  rec_crash : ∀ x, crash_report r = Some x → crash_plugin x = p ∧ plugin_state r = Quarantined ∧
    len (details x) ≤ max_crash_report_bytes (limits s)
}.
Definition host_ok (s : HostState) : Prop :=
  limits_validate (limits s) = Ok (limits s) ∧ ∀ p r, plugins s !! p = Some r → record_ok s p r.

Lemma limits_valid l l' : limits_validate l = Ok l' →
  l' = l ∧ max_snapshot_bytes l ≤ HARD_MAX_PAYLOAD_BYTES ∧
  max_crash_report_bytes l ≤ HARD_MAX_PAYLOAD_BYTES ∧
  max_identifier_bytes l ≤ HARD_MAX_IDENTIFIER_BYTES ∧ max_capabilities l ≤ HARD_MAX_CAPABILITIES.
Proof.
  unfold limits_validate. destruct (_ || _) eqn:Hb; [done|]. intros [= <-]. split; [done|].
  rewrite !orb_false_iff in Hb. destruct Hb as [[[[Hp _] _] Hi] Hc]. simpl in Hp.
  unfold limit_invalid in *. rewrite !orb_false_iff, !bool_decide_eq_false in *. lia.
Qed.
Lemma validate_identifier_Ok f v l u : validate_identifier f v l = Ok u →
  0 < bytes_of v ≤ max_identifier_bytes l.
Proof.
  unfold validate_identifier. case_decide as Hv; [done|]. case_decide; [done|]. intros _.
  split; [|lia]. unfold bytes_of, str_len. destruct v; [done|simpl; lia].
Qed.
Lemma validate_payload_Ok k a m u : validate_payload k a m = Ok u → a ≤ m.
Proof. unfold validate_payload. repeat case_decide; try done; lia. Qed.
Lemma check_capabilities_Ok l seen cs u : check_capabilities l seen cs = Ok u →
  NoDup cs ∧ Forall (λ c, 0 < bytes_of c ≤ max_identifier_bytes l) cs ∧ ∀ c, c ∈ cs → c ∉ seen.
Proof.
  revert seen. induction cs as [|c cs IH]; intros seen; simpl.
  { intros _. split_and!; [constructor|constructor|by intros ? ?%not_elem_of_nil]. }
  intros ([]&Hc&Hr)%result_bind_Ok. case_decide as Hs; [done|]. apply IH in Hr as (Hnd&Hf&Hn).
  split_and!.
  - constructor; [|done]. intros Hin. apply Hn in Hin. set_solver.
  - constructor; [by eapply validate_identifier_Ok|done].
  - intros x [->|Hx]%elem_of_cons; [done|]. apply Hn in Hx. set_solver.
Qed.
Lemma validate_capabilities_Ok cs l u : validate_capabilities cs l = Ok u →
  Z.of_nat (size (list_to_set cs : gset string)) ≤ max_capabilities l.
Proof.
  unfold validate_capabilities. case_decide; [done|]. intros (Hnd&_&_)%check_capabilities_Ok.
  rewrite size_list_to_set by done. unfold len in *. lia.
Qed.

Lemma update_lookup p f (v : registry) x : v !! p = Some x → update p f v = <[p := f x]> v.
Proof. unfold update. by intros ->. Qed.
Lemma registry_lookup s p r : plugins s !! p = Some r → registry_of s !! p = Some (view_of r).
Proof. intros H. unfold registry_of. by rewrite lookup_fmap, H. Qed.
Lemma registry_put s p r : registry_of (set_plugins (<[p := r]> (plugins s)) s) = <[p := view_of r]> (registry_of s).
Proof. unfold registry_of. simpl. apply fmap_insert. Qed.
Lemma record_ok_same s s' p r :
  limits s' = limits s → host_api_version s' = host_api_version s → record_ok s p r → record_ok s' p r.
Proof. intros Hl Ha H. destruct H. split; rewrite ?Hl, ?Ha; done. Qed.
Lemma host_put s p r : host_ok s → record_ok s p r → host_ok (set_plugins (<[p := r]> (plugins s)) s).
Proof.
  intros [Hl H] Hr. split; [done|]. simpl. intros p' r' [[-> ->]|[_ Hp]]%lookup_insert_Some.
  - by apply (record_ok_same s).
  - apply (record_ok_same s); [done..|by apply H].
Qed.

(** ** One command *)

(** A quarantined record changes in its decisions at most. *)
Definition keeps_quarantine (r r' : PluginRecord) : Prop :=
  plugin_state r = Quarantined → ∃ d, r' = set_decisions d r.

(** The effect of an accepted command. *)
Definition accepted_by (s s' : HostDraft) : Prop :=
  ∃ new, s'.2 = s.2 ++ new ∧ registry_of s'.1 = foldl replay (registry_of s.1) new ∧
    legal_run (registry_of s.1) new ∧ host_ok s'.1 ∧
    limits s'.1 = limits s.1 ∧ host_api_version s'.1 = host_api_version s.1 ∧
    ∀ p r, plugins s.1 !! p = Some r → ∃ r', plugins s'.1 !! p = Some r' ∧ keeps_quarantine r r'.
Definition step_post (s : HostDraft) {A} (r : outcome Rejection A) (s' : HostDraft) : Prop :=
  match r with
  | Ret _ => accepted_by s s'
  | Throw _ => True
  | Panic => False
  end.

Lemma keeps_same r : keeps_quarantine r r.
Proof. intros _. exists (capability_decisions r). by destruct r. Qed.
Lemma accepted_one h ev p r1 new :
  host_ok h → record_ok h p r1 →
  foldl replay (registry_of h) new = <[p := view_of r1]> (registry_of h) →
  legal_run (registry_of h) new →
  (∀ r0, plugins h !! p = Some r0 → keeps_quarantine r0 r1) →
  accepted_by (h, ev) (set_plugins (<[p := r1]> (plugins h)) h, ev ++ new).
Proof.
  intros Hh Hr Hf Hl Hk. exists new. simpl. split_and!; try done.
  - by rewrite registry_put.
  - by apply host_put.
  - intros p' r. destruct (decide (p' = p)) as [->|Hne]; intros Hp.
    + exists r1. rewrite lookup_insert_eq. split; [done|by apply Hk].
    + exists r. rewrite lookup_insert_ne by done. split; [done|apply keeps_same].
Qed.
(** The same for a record that was there. *)
Lemma accepted_update h ev p r0 r1 new :
  host_ok h → plugins h !! p = Some r0 → record_ok h p r1 →
  foldl replay (registry_of h) new = <[p := view_of r1]> (registry_of h) →
  legal_run (registry_of h) new → keeps_quarantine r0 r1 →
  accepted_by (h, ev) (set_plugins (<[p := r1]> (plugins h)) h, ev ++ new).
Proof. intros Hh Hp Hr Hf Hl Hk. apply accepted_one; try done. intros r Hr'. by simplify_eq. Qed.
Lemma not_quarantined r r' : plugin_state r ≠ Quarantined → keeps_quarantine r r'.
Proof. by intros H ?. Qed.

(** A record that moves along an edge that is not a quarantine. *)
Lemma accepted_edge h ev p r r1 :
  host_ok h → plugins h !! p = Some r → record_ok h p r1 →
  lifecycle_edge (plugin_state r) (plugin_state r1) = true → plugin_state r1 ≠ Quarantined →
  capability_decisions r1 = capability_decisions r → last_heartbeat r1 = last_heartbeat r →
  crash_report r1 = crash_report r →
  accepted_by (h, ev) (set_plugins (<[p := r1]> (plugins h)) h,
    ev ++ [PluginEvent.StateChanged p (Some (plugin_state r)) (plugin_state r1)]).
Proof.
  intros Hh Hp Hr He Hq Hd Hb Hc.
  eapply accepted_update; [done|exact Hp|done| | |].
  - simpl. rewrite (update_lookup _ _ _ (view_of r)) by (by apply registry_lookup).
    rewrite decide_False by done. unfold view_of. by rewrite Hd, Hb, Hc.
  - simpl. split; [|done]. exists (view_of r). split_and!; [by apply registry_lookup|done|done].
  - apply not_quarantined. intros Hq'. rewrite Hq' in He. by destruct (plugin_state r1).
Qed.
(** What moving to such a state asks of a record. *)
Lemma record_move h p r to :
  record_ok h p r → plugin_state r ≠ Quarantined → to ≠ Quarantined →
  (to ∈ [Validated; Loaded; Started; Stopped] → api_version (manifest r) = host_api_version h) →
  record_ok h p (set_plugin_state to r).
Proof.
  intros [] Hr Hto Ha. split; simpl; try done.
  - rewrite rec_reason0. tauto.
  - intros x Hx. by destruct (rec_crash0 x Hx) as (_&?&_).
Qed.
Lemma record_snapshot h p r x :
  record_ok h p r → snapshot_plugin x = p → snapshot_version x = state_version (manifest r) →
  len (snapshot_data x) ≤ max_snapshot_bytes (limits h) → record_ok h p (set_snapshot (Some x) r).
Proof. intros [] ???. split; simpl; try done. by intros ? [= <-]. Qed.

(** What [checked_by] and the lookups found. *)
Ltac host_facts :=
  repeat match goal with
         | H : result_map_err _ ?r = Ok _ |- _ =>
             destruct r eqn:?; simpl in H; [|discriminate H]; clear H
         | H : ok_or _ _ = Ok _ |- _ => apply ok_or_Ok in H
         end; simpl in *.
Ltac host_run :=
  unfold set_state, require_state, checked_by, push_event, plugin_mut, put_plugin; wp_run;
  unfold step_post; simpl; try exact I; host_facts.

(** The cases of a membership in a list of states. *)
Ltac state_cases :=
  repeat match goal with
         | H : plugin_state _ ∈ _ :: _ |- _ => apply elem_of_cons in H as [H|H]
         | H : plugin_state _ ∈ [] |- _ => by apply not_elem_of_nil in H
         end.

Lemma transition_spec p allowed to r h ev :
  host_ok h → allowed = [Loaded; Stopped] ∧ to = Started ∨ allowed = [Started] ∧ to = Stopped →
  wp (transition p allowed to r) (step_post (h, ev)) (h, ev).
Proof.
  intros Hh Hal. unfold transition. host_run.
  select (plugins _ !! _ = _) (fun H => rename H into Hp; pose proof (proj2 Hh _ _ Hp) as Hr).
  destruct Hal as [[-> ->]|[-> ->]]; state_cases.
  all: eapply accepted_edge; [done|exact Hp| |by select (plugin_state _ = _) (fun Hs => rewrite Hs)|done..].
  all: apply record_move; [done|congruence|done|].
  all: intros _; apply Hr; select (plugin_state _ = _) (fun Hs => rewrite Hs); set_solver.
Qed.
Lemma discover_spec m h ev : host_ok h → wp (discover m) (step_post (h, ev)) (h, ev).
Proof.
  intros Hh. unfold discover. host_run.
  select (plugins _ !! _ = None) (fun H => rename H into Hp).
  apply accepted_one; [done| | | |intros r Hr; congruence].
  - split; simpl; [done|by eapply validate_identifier_Ok|set_solver|by eapply validate_capabilities_Ok|
      set_solver|done|done|by split; [intros [? ?]|]|done].
  - done.
  - simpl. split; [|done]. split; [|done]. unfold registry_of. by rewrite lookup_fmap, Hp.
Qed.
Lemma validate_plugin_spec p h ev : host_ok h → wp (validate p) (step_post (h, ev)) (h, ev).
Proof.
  intros Hh. unfold validate. host_run. state_cases.
  select (plugins _ !! _ = Some _) (fun H => rename H into Hp; pose proof (proj2 Hh _ _ Hp) as Hr).
  select (plugin_state _ = _) (fun H => rename H into Hs).
  eapply accepted_edge; [done|exact Hp| |by rewrite Hs|done..].
  apply record_move; [done|congruence|done|done].
Qed.
Lemma load_spec p x h ev : host_ok h → wp (load p x) (step_post (h, ev)) (h, ev).
Proof.
  intros Hh. unfold load, validate_snapshot. host_run; state_cases.
  all: select (plugins _ !! _ = Some _) (fun H => rename H into Hp; pose proof (proj2 Hh _ _ Hp) as Hr).
  all: select (plugin_state _ = _) (fun H => rename H into Hs).
  all: eapply (accepted_edge h ev p _ (set_plugin_state Loaded _)); [done|exact Hp| |by rewrite Hs|done..].
  all: apply record_move; [|simpl; congruence|done|intros _; apply Hr; rewrite Hs; set_solver].
  - apply record_snapshot; [done..|]. by eapply validate_payload_Ok.
  - done.
Qed.
Lemma request_capability_spec p c h ev : host_ok h → wp (request_capability p c) (step_post (h, ev)) (h, ev).
Proof.
  intros Hh. unfold request_capability. host_run.
  select (plugins _ !! _ = Some _) (fun H => rename H into Hp; pose proof (proj2 Hh _ _ Hp) as Hr).
  select (plugin_state _ ≠ _) (fun H => rename H into Hs).
  eapply accepted_update; [done|exact Hp| |simpl|simpl|by apply not_quarantined].
  - destruct Hr. split; simpl; try done; [|set_solver].
    select (_ ∨ _) (fun H => destruct H as [Hin|Hlt]).
    + by rewrite subseteq_union_1_L by set_solver.
    + rewrite size_union_alt, size_singleton.
      pose proof (subseteq_size (requested_capabilities a0 ∖ {[c]}) (requested_capabilities a0)
        ltac:(set_solver)). lia.
  - symmetry. apply insert_id. exact (registry_lookup _ _ _ Hp).
  - split; [|done]. eexists. split; [by apply registry_lookup|done].
Qed.
Lemma decide_spec p c d h ev : host_ok h → wp (decide_capability p c d) (step_post (h, ev)) (h, ev).
Proof.
  intros Hh. unfold decide_capability. host_run.
  select (plugins _ !! _ = Some _) (fun H => rename H into Hp; pose proof (proj2 Hh _ _ Hp) as Hr).
  select (¬ (_ ∧ _)) (fun H => rename H into Hs).
  eapply accepted_update; [done|exact Hp| |simpl|simpl|].
  - destruct Hr. split; simpl; try done; [set_solver|].
    intros Hq c'. destruct (decide (c' = c)) as [->|].
    + rewrite lookup_insert_eq. intros [= ->]. tauto.
    + rewrite lookup_insert_ne by done. by apply rec_denied0.
  - by rewrite (update_lookup _ _ _ _ (registry_lookup _ _ _ Hp)).
  - split; [|done]. eexists. split; [by apply registry_lookup|]. simpl. intros Hq. destruct d; [tauto|done].
  - intros _. by eexists.
Qed.
Lemma store_spec x h ev : host_ok h → wp (store_snapshot x) (step_post (h, ev)) (h, ev).
Proof.
  intros Hh. unfold store_snapshot, validate_snapshot. host_run.
  select (plugins _ !! _ = Some _) (fun H => rename H into Hp; pose proof (proj2 Hh _ _ Hp) as Hr).
  select (plugin_state _ ∈ _) (fun H => rename H into Hs).
  eapply accepted_update; [done|exact Hp| |simpl|simpl|].
  - apply record_snapshot; [done..|]. by eapply validate_payload_Ok.
  - symmetry. apply insert_id. exact (registry_lookup _ _ _ Hp).
  - split; [|done]. eexists. split; [by apply registry_lookup|done].
  - apply not_quarantined. intros Hq. rewrite Hq in Hs. set_solver.
Qed.
Lemma heartbeat_spec p b now h ev : host_ok h → wp (heartbeat p b now) (step_post (h, ev)) (h, ev).
Proof.
  intros Hh. unfold heartbeat. host_run.
  select (plugins _ !! _ = Some _) (fun H => rename H into Hp; pose proof (proj2 Hh _ _ Hp) as Hr).
  select (plugin_state _ = _) (fun H => rename H into Hs).
  select (from_option _ _ _ = _) (fun H => rename H into Hb).
  eapply accepted_update; [done|exact Hp| |simpl|simpl|by apply not_quarantined; rewrite Hs].
  - destruct Hr. by split.
  - by rewrite (update_lookup _ _ _ _ (registry_lookup _ _ _ Hp)).
  - split; [|done]. eexists. split_and!; [by apply registry_lookup|done|]. simpl.
    intros k (y&Hy&->)%fmap_Some. rewrite Hy in Hb. simpl in Hb. apply bool_decide_eq_false in Hb. lia.
Qed.
Definition crashed_with (x : option CrashReport) (r : PluginRecord) : PluginRecord :=
  match x with
  | Some x => set_crash (Some x) r
  | None => r
  end.
Lemma crashed_with_same x r :
  manifest (crashed_with x r) = manifest r ∧ requested_capabilities (crashed_with x r) = requested_capabilities r ∧
  capability_decisions (crashed_with x r) = capability_decisions r ∧
  snapshot (crashed_with x r) = snapshot r ∧ quarantine_reason (crashed_with x r) = quarantine_reason r.
Proof. by destruct x. Qed.
Lemma accepted_quarantine h ev p r reason x :
  host_ok h → plugins h !! p = Some r → plugin_state r ≠ Quarantined →
  (∀ c, x = Some c → crash_plugin c = p ∧ len (details c) ≤ max_crash_report_bytes (limits h)) →
  accepted_by (h, ev)
    (set_plugins (<[p := set_plugin_state Quarantined
        (crashed_with x (set_decisions ∅ (set_reason (Some reason) r)))]> (plugins h)) h,
     ev ++ (PluginEvent.CrashReported <$> option_list x) ++
       [PluginEvent.StateChanged p (Some (plugin_state r)) Quarantined]).
Proof.
  intros Hh Hp Hs Hx. pose proof (proj2 Hh _ _ Hp) as Hr.
  pose proof (registry_lookup _ _ _ Hp) as Hv.
  assert (He : lifecycle_edge (plugin_state r) Quarantined = true) by (by destruct (plugin_state r)).
  eapply accepted_update; [done|exact Hp| | | |by apply not_quarantined].
  - destruct (crashed_with_same x (set_decisions ∅ (set_reason (Some reason) r))) as (Em&Eq&Ed&Es&Er).
    destruct Hr. split; simpl; rewrite ?Em, ?Eq, ?Ed, ?Es, ?Er; simpl;
      [done|done|intros; set_solver|done|set_solver|done|done|by split; [|eexists]|].
    intros c. destruct x as [c'|]; simpl.
    + intros [= <-]. by destruct (Hx c' eq_refl).
    + intros Hc. by destruct (rec_crash0 _ Hc) as (?&_&?).
  - destruct x as [c|]; simpl.
    + destruct (Hx c eq_refl) as [-> _]. rewrite (update_lookup _ _ _ _ Hv).
      rewrite (update_lookup _ _ _ _ (lookup_insert_eq _ _ _)). by rewrite insert_insert_eq.
    + by rewrite (update_lookup _ _ _ _ Hv).
  - destruct x as [c|]; simpl.
    + destruct (Hx c eq_refl) as [-> _]. split; [by exists (view_of r)|]. split; [|done].
      rewrite (update_lookup _ _ _ _ Hv), lookup_insert_eq. eexists. split_and!; [done|done|done].
    + split; [|done]. by exists (view_of r).
Qed.
Lemma quarantine_spec p reason x h ev : host_ok h →
  wp (quarantine p reason x) (step_post (h, ev)) (h, ev).
Proof.
  intros Hh. unfold quarantine. host_run.
  all: select (plugins _ !! _ = Some _) (fun H => rename H into Hp).
  all: assert (Hs : plugin_state _ ≠ Quarantined) by
    (intros Hq; select (_ ∈ _) (fun H => rewrite Hq in H); set_solver).
  all: rewrite <-?(assoc_L (++)).
  all: try (apply (accepted_quarantine h ev p _ _ None); [done..|intros ? [=]]).
  all: apply (accepted_quarantine h ev p _ _ (Some _)); [done..|].
  all: intros ? [= <-]; split; [done|by eapply validate_payload_Ok].
Qed.
Lemma apply_command_spec c now h ev : host_ok h →
  wp (apply_command c now) (step_post (h, ev)) (h, ev).
Proof.
  intros Hh. destruct c; simpl; eauto using discover_spec, validate_plugin_spec, load_spec, request_capability_spec,
    decide_spec, store_spec, heartbeat_spec, quarantine_spec.
  - apply transition_spec; [done|]. by left.
  - apply transition_spec; [done|]. by right.
  - unfold check_heartbeat_deadline. wp_run; [by apply quarantine_spec|done].
Qed.

(** ** Histories *)

(** An executed command is refused without an effect, or has the effect of an accepted one. *)
Lemma plugin_execute_spec env now h h' out :
  host_ok (state h) → execute env now h = (h', out) →
  accepted_by (state h, []) (state h', ev_payload <$> events out).
Proof.
  intros Hh He.
  assert (Hsame : accepted_by (state h, []) (state h, [])).
  { exists []. split_and!; try done. intros p r Hp. exists r. split; [done|apply keeps_same]. }
  unfold execute in He. destruct (receipts h !! idempotency_key env) as [r|] eqn:Hk.
  { rewrite (apply_known _ _ _ _ r) in He by done. by simplify_eq. }
  destruct (apply_spec _ _ _ _ _ _ Hk He) as (p&Hd&Hc).
  destruct (commit_decision _ _ _ _ _ _ _ Hd Hc) as (_&_&_&Hr).
  destruct (receipt out) as [cid rev res|cid rej cur].
  - destruct Hr as (_&_&_&_&_&_&(mutation&Hm&Hrun)&_). injection Hm as <-.
    unfold host_mutation in Hrun. pose proof (apply_command_spec (command env) now (state h) [] Hh) as Hw.
    unfold wp, step_post in Hw.
    destruct (apply_command (command env) now (state h, [])) as [[s es] [r|e|]]; [|done..].
    by simplify_eq/=.
  - destruct Hr as (_&_&->&->&_). done.
Qed.

Lemma accepted_trans s1 s2 s3 es1 es2 :
  accepted_by (s1, []) (s2, es1) → accepted_by (s2, []) (s3, es2) → accepted_by (s1, []) (s3, es1 ++ es2).
Proof.
  intros (n1&E1&R1&L1&_&Hl1&Ha1&K1) (n2&E2&R2&L2&Hh&Hl2&Ha2&K2). simpl in *. subst n1 n2.
  exists (es1 ++ es2). simpl. split_and!; [done| | |done|congruence|congruence|].
  - by rewrite foldl_app, <-R1.
  - apply legal_run_app. by rewrite <-R1.
  - intros p r Hp. destruct (K1 p r Hp) as (r1&Hp1&Q1), (K2 _ _ (proj1 (conj Hp1 I))) as (r2&Hp2&Q2).
    exists r2. split; [done|]. intros Hq. destruct (Q1 Hq) as [d ->]. destruct (Q2 Hq) as [d' ->].
    by exists d'.
Qed.
Lemma host_run_spec calls h h' es : host_ok (state h) → host_run calls h = (h', es) →
  accepted_by (state h, []) (state h', es).
Proof.
  revert h es. induction calls as [|[env now] calls IH]; intros h es Hh; simpl.
  { intros [= <- <-]. exists []. split_and!; try done. intros p r Hp. exists r. split; [done|apply keeps_same]. }
  destruct (execute env now h) as [h1 out] eqn:He. destruct (host_run calls h1) as [h2 rest] eqn:Hr.
  intros [= <- <-]. pose proof (plugin_execute_spec _ _ _ _ _ Hh He) as H1.
  eapply accepted_trans; [exact H1|]. apply IH; [|done]. by destruct H1 as (?&_&_&_&?&_).
Qed.
Lemma host_new_ok api l epoch h : host_new api l epoch = Ok h →
  host_ok (state h) ∧ registry_of (state h) = ∅ ∧ limits (state h) = l ∧ host_api_version (state h) = api.
Proof.
  intros (l'&Hl&[= <-])%result_bind_Ok. pose proof Hl as (->&_)%limits_valid. split; [split; [done|intros p r; simpl; by rewrite lookup_empty]|].
  split; [unfold registry_of; simpl; apply fmap_empty|done].
Qed.

(** C28: the registry is its event log: over any history of commands, replayed and refused
    ones included, the durable events alone rebuild the lifecycle state, the capability
    decisions, the last heartbeat and the crash report of every plugin, and every event is
    one that the lifecycle allows after those before it. *)
Theorem host_replays api l epoch calls h0 h es
    (Hnew : host_new api l epoch = Ok h0) (Hrun : host_run calls h0 = (h, es)) :
  registry_of (state h) = foldl replay ∅ es ∧ legal_run ∅ es.
Proof.
  destruct (host_new_ok _ _ _ _ Hnew) as (Hh&Hr&_).
  destruct (host_run_spec _ _ _ _ Hh Hrun) as (new&E&R&L&_). simpl in *. subst new.
  by rewrite Hr in *.
Qed.

(** over any history every record is well-formed: identifiers, capabilities, snapshots
    and crash reports within the limits, only requested capabilities decided, none granted
    in quarantine, which always has a reason, snapshots of the manifest's version, and
    only plugins of the host's API version past discovery. *)
Theorem host_safe api l epoch calls h0 h es p r
    (Hnew : host_new api l epoch = Ok h0) (Hrun : host_run calls h0 = (h, es))
    (Hplugin : plugin p h = Some r) :
  record_ok (state h) p r ∧ limits (state h) = l ∧ host_api_version (state h) = api.
Proof.
  destruct (host_new_ok _ _ _ _ Hnew) as (Hh&_&Hl&Ha).
  destruct (host_run_spec _ _ _ _ Hh Hrun) as (new&_&_&_&Hh'&Hl'&Ha'&_). simpl in *.
  split_and!; [by apply Hh'|congruence|congruence].
Qed.

(** C29: quarantine is final: whatever is executed later, a quarantined plugin stays in
    quarantine with its reason, crash report and snapshot, and has no capability. *)
Theorem quarantine_final api l epoch before calls h0 h es h' es' p r
    (Hnew : host_new api l epoch = Ok h0) (Hbefore : host_run before h0 = (h, es))
    (Hplugin : plugin p h = Some r) (Hquarantined : plugin_state r = Quarantined)
    (Hrun : host_run calls h = (h', es')) :
  ∃ d, plugin p h' = Some (set_decisions d r) ∧
    ∀ c, capability_decision c (set_decisions d r) = Denied.
Proof.
  destruct (host_new_ok _ _ _ _ Hnew) as (Hh&_).
  destruct (host_run_spec _ _ _ _ Hh Hbefore) as (_&_&_&_&Hh1&_). simpl in *.
  destruct (host_run_spec _ _ _ _ Hh1 Hrun) as (_&_&_&_&Hh2&_&_&Hk). simpl in *.
  destruct (Hk p r Hplugin) as (r'&Hp'&Hq). destruct (Hq Hquarantined) as [d ->].
  exists d. split; [done|]. intros c. unfold capability_decision. simpl.
  pose proof (rec_denied _ _ _ (proj2 Hh2 _ _ Hp') Hquarantined c) as Hc. simpl in Hc.
  destruct (d !! c) as [[]|]; done.
Qed.

(** ** A run *)

Definition demo_call (key : string) (c : PluginCommand.t) : CommandEnvelope PluginCommand.t * Z :=
  (envelope_new key key c, 100).
Definition demo_plugin : string := "com.example.test".
Definition demo_manifest : PluginManifest :=
  requesting "network.read" (manifest_new demo_plugin (mk_api 1 1) 2).
(** A plugin is started, granted a capability, beats twice, the second time late in its
    sequence, crashes, and is refused a start. *)
Definition demo_calls : list (CommandEnvelope PluginCommand.t * Z) :=
  [demo_call "a" (PluginCommand.Discover demo_manifest); demo_call "b" (PluginCommand.Validate demo_plugin);
   demo_call "c" (PluginCommand.Load demo_plugin None); demo_call "d" (PluginCommand.Start demo_plugin);
   demo_call "e" (PluginCommand.DecideCapability demo_plugin "network.read" Granted);
   demo_call "f" (PluginCommand.Heartbeat demo_plugin (mk_heartbeat 5 90 120));
   demo_call "g" (PluginCommand.Heartbeat demo_plugin (mk_heartbeat 5 90 120));
   demo_call "h" (PluginCommand.ReportCrash (mk_crash demo_plugin 99 "abort" []))].
Definition demo_after : list (CommandEnvelope PluginCommand.t * Z) :=
  [demo_call "i" (PluginCommand.Start demo_plugin);
   demo_call "j" (PluginCommand.DecideCapability demo_plugin "network.read" Granted);
   demo_call "k" (PluginCommand.DecideCapability demo_plugin "network.read" Denied)].
Definition demo_host : PluginHost := state_new (mk_host ∅ (mk_api 1 1) limits_default) 1.
Definition demo_run : PluginHost * list PluginEvent.t := host_run demo_calls demo_host.
Definition demo_after_run : PluginHost * list PluginEvent.t := host_run demo_after demo_run.1.
Lemma demo_host_new : host_new (mk_api 1 1) limits_default 1 = Ok demo_host.
Proof. reflexivity. Qed.
Lemma demo_run_eq : host_run demo_calls demo_host = (demo_run.1, demo_run.2).
Proof. unfold demo_run. by destruct (host_run _ _). Qed.
Lemma demo_after_eq : host_run demo_after demo_run.1 = (demo_after_run.1, demo_after_run.2).
Proof. unfold demo_after_run. by destruct (host_run _ _). Qed.
Lemma demo_quarantined : ∃ r, plugin demo_plugin demo_run.1 = Some r ∧ plugin_state r = Quarantined.
Proof. eexists. split; vm_compute; reflexivity. Qed.

Lemma host_replays_witness :
  length demo_run.2 = 8%nat ∧
  registry_of (state demo_run.1) !! demo_plugin = foldl replay ∅ demo_run.2 !! demo_plugin.
Proof.
  split; [vm_compute; reflexivity|].
  rewrite (proj1 (host_replays _ _ _ _ _ _ _ demo_host_new demo_run_eq)). reflexivity.
Defined.
Lemma host_safe_witness :
  ∃ r, plugin demo_plugin demo_run.1 = Some r ∧ is_Some (quarantine_reason r).
Proof.
  destruct demo_quarantined as (r&Hr&Hq). exists r. split; [exact Hr|].
  exact (proj2 (rec_reason _ _ _ (proj1 (host_safe _ _ _ _ _ _ _ _ _ demo_host_new demo_run_eq Hr))) Hq).
Defined.
Lemma quarantine_final_witness :
  ∃ r, plugin demo_plugin demo_after_run.1 = Some r ∧ plugin_state r = Quarantined ∧
    capability_decision "network.read" r = Denied ∧ length demo_after_run.2 = 1%nat.
Proof.
  destruct demo_quarantined as (r&Hr&Hq).
  destruct (quarantine_final _ _ _ _ _ _ _ _ _ _ _ _ demo_host_new demo_run_eq Hr Hq demo_after_eq)
    as (d&Hd&Hc).
  exists (set_decisions d r). split; [exact Hd|]. split; [exact Hq|]. split; [exact (Hc _)|].
  vm_compute. reflexivity.
Defined.
