(* ===== verification/ProjectModel.v ===== *)
(** The data of a project document, [crates/foundation/fm-model/src]: its streaming
    destinations ([stream.rs]: ingest endpoints, stream keys, and the URLs that are composed
    from them), and ([project.rs]) its settings, inputs and their audio strips, scenes and
    layers, audio buses, outputs, stingers, and the [Project] that holds them.

    [StreamEndpoint] and [StreamKey] are the text they hold, which only [parse_for] and
    [key_parse] make; the text is a byte string. *)
From S2P Require Import Prelude Text Types.
From Stdlib Require Import Ascii.
#[local] Open Scope Z_scope.

Definition MAX_STREAM_TARGET_NAME_BYTES : nat := 128.
Definition MAX_STREAM_ENDPOINT_BYTES : nat := 1024.
Definition MIN_STREAM_KEY_BYTES : nat := 4.
Definition MAX_STREAM_KEY_BYTES : nat := 512.
Definition REDACTED_STREAM_KEY : string := "****".
Definition MIN_VIDEO_BITRATE_KBPS : Z := 1000.
Definition MAX_VIDEO_BITRATE_KBPS : Z := 100000.
Definition DEFAULT_VIDEO_BITRATE_KBPS : Z := 4500.
Definition MAX_URL_BYTES : nat := 2048.

Inductive StreamProtocol := Rtmp | Rtmps | Srt.
#[global] Instance StreamProtocol_eq_dec : EqDecision StreamProtocol.
Proof. solve_decision. Defined.
Definition scheme (self : StreamProtocol) : string :=
  match self with
  | Rtmp => "rtmp"
  | Rtmps => "rtmps"
  | Srt => "srt"
  end.

Inductive StreamEndpointError :=
  | EndpointEmpty
  | EndpointTooLong
  | EndpointInvalidCharacter
  | UnsupportedScheme
  | EmbeddedScheme
  | MissingHost
  | EmbeddedCredentials
  | MissingApplicationPath
  | PathNotAllowed
  | EmptyPathSegment
  | QueryOrFragment.
Inductive StreamKeyError := KeyEmpty | KeyTooShort | KeyTooLong | KeyInvalidCharacter | PathSeparator.
Inductive StreamVideoBitrateError := TooLow | TooHigh.
Inductive StreamTargetError := TargetEmptyName | TargetNameTooLong | UrlTooLong.

(** [text.bytes().all(|byte| (0x21..=0x7e).contains(&byte))]. *)
Definition printable (text : string) : bool :=
  forallb (λ b, bool_decide (33 ≤ b ≤ 126)) (str_bytes text).
(** [text.contains(pattern)] for a string that is not empty. *)
Fixpoint str_contains (pattern text : string) : bool :=
  String.prefix pattern text ||
  match text with
  | EmptyString => false
  | String _ text => str_contains pattern text
  end.
(** [text.strip_prefix(pattern)]. *)
Fixpoint strip_prefix (pattern text : string) : option string :=
  match pattern, text with
  | EmptyString, _ => Some text
  | String c pattern, String d text => if decide (c = d) then strip_prefix pattern text else None
  | String _ _, EmptyString => None
  end.

(** [StreamEndpoint::parse_for]. *)
Definition parse_for (protocol : StreamProtocol) (text : string) :
    result StreamEndpointError string :=
  if decide (text = "") then Err EndpointEmpty else
  if decide (MAX_STREAM_ENDPOINT_BYTES < str_len text)%nat then Err EndpointTooLong else
  if negb (printable text) then Err EndpointInvalidCharacter else
  if str_contains "://" text then Err EmbeddedScheme else
  if negb (lacks "?" text) || negb (lacks "#" text) then Err QueryOrFragment else
  match protocol with
  | Rtmp | Rtmps =>
      '(authority, path) ← ok_or MissingApplicationPath (str_split_once "/" text);
      if decide (authority = "") then Err MissingHost else
      if negb (lacks "@" authority) then Err EmbeddedCredentials else
      if existsb (λ segment, bool_decide (segment = "")) (str_split "/" path)
      then Err EmptyPathSegment else Ok text
  | Srt =>
      if negb (lacks "/" text) then Err PathNotAllowed else
      if match str_split ":" text with
         | [] => true
         | host :: _ => bool_decide (host = "")
         end then Err MissingHost else
      if negb (lacks "@" text) then Err EmbeddedCredentials else Ok text
  end.
(** [StreamEndpoint::parse]. *)
Definition endpoint_parse (text : string) : result StreamEndpointError string := parse_for Rtmp text.

(** [StreamEndpoint::parse_url]. *)
Definition parse_url (url : string) : result StreamEndpointError (StreamProtocol * string) :=
  '(protocol, rest) ←
    match strip_prefix "rtmps://" url with
    | Some rest => Ok (Rtmps, rest)
    | None =>
        match strip_prefix "rtmp://" url with
        | Some rest => Ok (Rtmp, rest)
        | None =>
            match strip_prefix "srt://" url with
            | Some rest => Ok (Srt, rest)
            | None => if decide (url = "") then Err EndpointEmpty else Err UnsupportedScheme
            end
        end
    end;
  endpoint ← parse_for protocol rest;
  Ok (protocol, endpoint).

(** [StreamKey::parse]. *)
Definition key_parse (secret : string) : result StreamKeyError string :=
  if decide (secret = "") then Err KeyEmpty else
  if negb (printable secret) then Err KeyInvalidCharacter else
  if negb (lacks "/" secret) then Err PathSeparator else
  if decide (str_len secret < MIN_STREAM_KEY_BYTES)%nat then Err KeyTooShort else
  if decide (MAX_STREAM_KEY_BYTES < str_len secret)%nat then Err KeyTooLong else
  Ok secret.

Inductive StartupPolicy := Stopped | ReconcileDesiredState.
#[global] Instance StartupPolicy_eq_dec : EqDecision StartupPolicy.
Proof. solve_decision. Defined.

(** A [StreamTargetId] is its value. *)
Record StreamTarget := mk_target {
  tg_id : Z;
  tg_name : string;
  tg_protocol : StreamProtocol;
  tg_endpoint : string;
  tg_backup_endpoint : option string;
  tg_key : string;
  tg_startup : StartupPolicy;
  tg_running : bool;
  tg_video_bitrate_kbps : Z;
  tg_output : OutputId
}.
#[global] Instance StreamTarget_eq_dec : EqDecision StreamTarget.
Proof. solve_decision. Defined.

Definition compose_url (protocol : StreamProtocol) (endpoint tail : string) : string :=
  match protocol with
  | Rtmp | Rtmps => scheme protocol +:+ "://" +:+ endpoint +:+ "/" +:+ tail
  | Srt => scheme protocol +:+ "://" +:+ endpoint +:+ "?streamid=" +:+ tail
  end.
Definition url_bytes (protocol : StreamProtocol) (endpoint key : string) : nat :=
  let separator := match protocol with Rtmp | Rtmps => 1%nat | Srt => str_len "?streamid=" end in
  (str_len (scheme protocol) + str_len "://" + str_len endpoint + separator + str_len key)%nat.
Definition validate_video_bitrate (kbps : Z) : result StreamVideoBitrateError unit :=
  if decide (kbps < MIN_VIDEO_BITRATE_KBPS) then Err TooLow else
  if decide (MAX_VIDEO_BITRATE_KBPS < kbps) then Err TooHigh else Ok tt.

(** The checks of a name that [StreamTarget::new] and [rename] make. *)
Definition check_target_name (name : string) : result StreamTargetError unit :=
  if str_blank name then Err TargetEmptyName else
  if decide (MAX_STREAM_TARGET_NAME_BYTES < str_len name)%nat then Err TargetNameTooLong else Ok tt.
(** [StreamTarget::new]. *)
Definition target_new (id : Z) (name : string) (protocol : StreamProtocol) (endpoint key : string)
    (output : OutputId) : result StreamTargetError StreamTarget :=
  _ ← check_target_name name;
  if decide (MAX_URL_BYTES < url_bytes protocol endpoint key)%nat then Err UrlTooLong else
  Ok (mk_target id name protocol endpoint None key Stopped false DEFAULT_VIDEO_BITRATE_KBPS output).
Definition with_backup_endpoint (backup : option string) (self : StreamTarget) :
    result StreamTargetError StreamTarget :=
  if match backup with
     | Some endpoint =>
         bool_decide (MAX_URL_BYTES < url_bytes (tg_protocol self) endpoint (tg_key self))%nat
     | None => false
     end then Err UrlTooLong else
  Ok (mk_target (tg_id self) (tg_name self) (tg_protocol self) (tg_endpoint self) backup (tg_key self)
        (tg_startup self) (tg_running self) (tg_video_bitrate_kbps self) (tg_output self)).
Definition with_startup (startup : StartupPolicy) (self : StreamTarget) : StreamTarget :=
  mk_target (tg_id self) (tg_name self) (tg_protocol self) (tg_endpoint self) (tg_backup_endpoint self)
    (tg_key self) startup (tg_running self) (tg_video_bitrate_kbps self) (tg_output self).
Definition set_running (running : bool) (self : StreamTarget) : StreamTarget :=
  mk_target (tg_id self) (tg_name self) (tg_protocol self) (tg_endpoint self) (tg_backup_endpoint self)
    (tg_key self) (tg_startup self) running (tg_video_bitrate_kbps self) (tg_output self).
Definition with_video_bitrate (kbps : Z) (self : StreamTarget) :
    result StreamVideoBitrateError StreamTarget :=
  _ ← validate_video_bitrate kbps;
  Ok (mk_target (tg_id self) (tg_name self) (tg_protocol self) (tg_endpoint self)
        (tg_backup_endpoint self) (tg_key self) (tg_startup self) (tg_running self) kbps
        (tg_output self)).
(** [StreamTarget::rename]. *)
Definition target_rename (name : string) : stm StreamTarget StreamTargetError unit :=
  _ ← st_lift (check_target_name name);
  st_modify (λ self,
    mk_target (tg_id self) name (tg_protocol self) (tg_endpoint self) (tg_backup_endpoint self)
      (tg_key self) (tg_startup self) (tg_running self) (tg_video_bitrate_kbps self) (tg_output self)).

Definition expose_url (self : StreamTarget) : string :=
  compose_url (tg_protocol self) (tg_endpoint self) (tg_key self).
Definition expose_backup_url (self : StreamTarget) : option string :=
  (λ endpoint, compose_url (tg_protocol self) endpoint (tg_key self)) <$> tg_backup_endpoint self.
Definition redacted_url (self : StreamTarget) : string :=
  compose_url (tg_protocol self) (tg_endpoint self) REDACTED_STREAM_KEY.
Definition redacted_backup_url (self : StreamTarget) : option string :=
  (λ endpoint, compose_url (tg_protocol self) endpoint REDACTED_STREAM_KEY) <$> tg_backup_endpoint self.

Abbreviation SceneId := Z (only parsing).
Abbreviation BusId := Z (only parsing).
Abbreviation ProjectId := Z (only parsing).
Abbreviation StreamTargetId := Z (only parsing).

(** [SchemaVersion] is its number. *)
Definition CURRENT_SCHEMA_VERSION : Z := 20.

(** ** Settings *)

Record OutputFormat := mk_format { of_video : VideoFormat; of_audio : AudioFormat }.
Record ProjectSettings := mk_settings {
  ps_frame_rate : FrameRate;
  ps_video : VideoFormat;
  ps_audio : AudioFormat
}.
Definition MIN_FRAME_RATE_FPS : Z := 1.
Definition MAX_FRAME_RATE_FPS : Z := 240.
Definition MAX_VIDEO_WIDTH : Z := 8192.
Definition MAX_VIDEO_HEIGHT : Z := 8192.
Definition MIN_AUDIO_SAMPLE_RATE_HZ : Z := 8000.
Definition MAX_AUDIO_SAMPLE_RATE_HZ : Z := 384000.
Definition MAX_AUDIO_CHANNELS : nat := 8.
Definition settings_new (frame_rate : FrameRate) (output : OutputFormat) : ProjectSettings :=
  mk_settings frame_rate (of_video output) (of_audio output).
Definition output_format (self : ProjectSettings) : OutputFormat :=
  mk_format (ps_video self) (ps_audio self).

Inductive RestartPolicy := Never | OnFailure (max_attempts : Z) | Always.
Definition MAX_RESTART_ATTEMPTS : Z := 100.

(** ** Inputs *)

Definition gain_new (value : Z) : option Z :=
  if decide (-96000 ≤ value ≤ 24000) then Some value else None.
Definition balance_new (value : Z) : option Z :=
  if decide (-10000 ≤ value ≤ 10000) then Some value else None.
Definition delay_new (value : Z) : option Z := if decide (value ≤ 48000) then Some value else None.
Record InputAudioStripState := mk_strip_state {
  gain : Z;
  balance : Z;
  delay_samples : Z;
  muted : bool;
  soloed : bool;
  follow_video : bool
}.
Definition strip_state_default : InputAudioStripState := mk_strip_state 0 0 0 false false true.
Record InputAudioStrip := mk_strip { strip_input : InputId; strip_state : InputAudioStripState }.

Record SolidColor := mk_solid { sc_red : Z; sc_green : Z; sc_blue : Z; sc_alpha : Z }.
Inductive SimulatedVideo := Solid (color : SolidColor) | Bars.
Inductive SimulatedAudio := Silence | Sine (frequency_hz : Z).
Definition MIN_SINE_FREQUENCY_HZ : Z := 1.
Definition MAX_SINE_FREQUENCY_HZ : Z := 20000.
Record SimulatedInput := mk_simulated { sim_video : SimulatedVideo; sim_audio : SimulatedAudio }.
Inductive InputKind :=
  | KindColor
  | KindMedia (asset_uri : string)
  | KindDevice (stable_key : string)
  | KindNetwork (endpoint : string)
  | KindScene (scene_id : SceneId) (audio_source : option InputId)
  | KindSimulated (simulated : SimulatedInput).
Record Input := mk_input {
  in_id : InputId;
  in_name : string;
  in_kind : InputKind;
  in_required_capabilities : list string
}.

(** ** Scenes *)

Inductive SourceRef := SourceInput (input : InputId) | SourceScene (scene : SceneId).
#[global] Instance SourceRef_eq_dec : EqDecision SourceRef.
Proof. solve_decision. Defined.
Inductive Rotation := Deg0 | Deg90 | Deg180 | Deg270.
Record LayerGeometry := mk_geometry {
  translation_x : Z;
  translation_y : Z;
  geo_width : Z;
  geo_height : Z;
  rotation : Rotation
}.
(** Coordinates that are not negative are numbers in [N]. *)
Record CropRect := mk_crop { crop_x : N; crop_y : N; crop_width : N; crop_height : N }.
Record RectMask := mk_mask {
  mask_x : N; mask_y : N; mask_width : N; mask_height : N; mask_invert : bool
}.
Definition mask_new (x y width height : N) : RectMask := mk_mask x y width height false.
Definition inverted (invert : bool) (self : RectMask) : RectMask :=
  mk_mask (mask_x self) (mask_y self) (mask_width self) (mask_height self) invert.
Record Rgba8 := mk_rgba { red : Z; green : Z; blue : Z; alpha : Z }.
Definition OPAQUE_BLACK : Rgba8 := mk_rgba 0 0 0 255.
Definition is_premultiplied (self : Rgba8) : bool :=
  bool_decide (red self ≤ alpha self ∧ green self ≤ alpha self ∧ blue self ≤ alpha self).
Record Layer := mk_layer {
  layer_name : string;
  layer_source : SourceRef;
  layer_enabled : bool;
  layer_geometry : LayerGeometry;
  layer_crop : option CropRect;
  layer_mask : option RectMask;
  layer_opacity : Z;
  layer_z_order : Z
}.
Record Scene := mk_scene {
  scene_id : SceneId;
  scene_name : string;
  scene_background : Rgba8;
  scene_layers : list Layer
}.

(** ** Audio buses, outputs, the main mix and stingers *)

(** A [BusSend] is its destination. *)
Record AudioBus := mk_bus { bus_id : BusId; bus_name : string; bus_sends : list BusId }.
Record Output := mk_output {
  out_id : OutputId;
  out_name : string;
  out_video_source : SceneId;
  out_audio_source : BusId;
  out_startup : StartupPolicy;
  out_required_capabilities : list string
}.
Record MainMix := mk_mix { desired_program : InputId; desired_preview : InputId }.
Definition slot_new (number : Z) : option Z :=
  if decide (1 ≤ number ≤ 8) then Some number else None.
Inductive StingerAudioPolicy := Muted | StingerOnly | MixWithProgram.
Inductive StingerMissingMediaFallback := FallbackCut | FallbackFade | FallbackKeepProgram.
Record StingerConfig := mk_stinger {
  slot : Z;
  media_input : InputId;
  preload : bool;
  cut_point_frames : Z;
  audio_policy : StingerAudioPolicy;
  missing_media_fallback : StingerMissingMediaFallback
}.

(** ** The project *)

Record Project := mk_project {
  schema_version : Z;
  project_id : ProjectId;
  project_name : string;
  settings : ProjectSettings;
  inputs : list Input;
  input_audio_strips : list InputAudioStrip;
  scenes : list Scene;
  audio_buses : list AudioBus;
  outputs : list Output;
  stream_targets : list StreamTarget;
  main_mix : option MainMix;
  recording_desired_active : bool;
  stingers : list StingerConfig;
  restart_policy : RestartPolicy
}.
(** [Project::new]. *)
Definition project_new (id : ProjectId) (name : string) (settings : ProjectSettings) : Project :=
  mk_project CURRENT_SCHEMA_VERSION id name settings [] [] [] [] [] [] None false [] Never.

(** [Project::input_audio_strip]. *)
Definition input_audio_strip (input : InputId) (self : Project) : option InputAudioStripState :=
  '(_, strip) ← list_find (λ strip, strip_input strip = input) (input_audio_strips self);
  Some (strip_state strip).

(** Assignments to a field. *)
Definition set_name v (x : Project) : Project :=
  mk_project (schema_version x) (project_id x) v (settings x) (inputs x) (input_audio_strips x)
    (scenes x) (audio_buses x) (outputs x) (stream_targets x) (main_mix x)
    (recording_desired_active x) (stingers x) (restart_policy x).
Definition set_inputs v (x : Project) : Project :=
  mk_project (schema_version x) (project_id x) (project_name x) (settings x) v
    (input_audio_strips x) (scenes x) (audio_buses x) (outputs x) (stream_targets x)
    (main_mix x) (recording_desired_active x) (stingers x) (restart_policy x).
Definition set_strips v (x : Project) : Project :=
  mk_project (schema_version x) (project_id x) (project_name x) (settings x) (inputs x) v
    (scenes x) (audio_buses x) (outputs x) (stream_targets x) (main_mix x)
    (recording_desired_active x) (stingers x) (restart_policy x).
Definition set_scenes v (x : Project) : Project :=
  mk_project (schema_version x) (project_id x) (project_name x) (settings x) (inputs x)
    (input_audio_strips x) v (audio_buses x) (outputs x) (stream_targets x) (main_mix x)
    (recording_desired_active x) (stingers x) (restart_policy x).
Definition set_buses v (x : Project) : Project :=
  mk_project (schema_version x) (project_id x) (project_name x) (settings x) (inputs x)
    (input_audio_strips x) (scenes x) v (outputs x) (stream_targets x) (main_mix x)
    (recording_desired_active x) (stingers x) (restart_policy x).
Definition set_outputs v (x : Project) : Project :=
  mk_project (schema_version x) (project_id x) (project_name x) (settings x) (inputs x)
    (input_audio_strips x) (scenes x) (audio_buses x) v (stream_targets x) (main_mix x)
    (recording_desired_active x) (stingers x) (restart_policy x).
Definition set_targets v (x : Project) : Project :=
  mk_project (schema_version x) (project_id x) (project_name x) (settings x) (inputs x)
    (input_audio_strips x) (scenes x) (audio_buses x) (outputs x) v (main_mix x)
    (recording_desired_active x) (stingers x) (restart_policy x).
Definition set_mix v (x : Project) : Project :=
  mk_project (schema_version x) (project_id x) (project_name x) (settings x) (inputs x)
    (input_audio_strips x) (scenes x) (audio_buses x) (outputs x) (stream_targets x) v
    (recording_desired_active x) (stingers x) (restart_policy x).
Definition set_recording v (x : Project) : Project :=
  mk_project (schema_version x) (project_id x) (project_name x) (settings x) (inputs x)
    (input_audio_strips x) (scenes x) (audio_buses x) (outputs x) (stream_targets x)
    (main_mix x) v (stingers x) (restart_policy x).
Definition set_stingers v (x : Project) : Project :=
  mk_project (schema_version x) (project_id x) (project_name x) (settings x) (inputs x)
    (input_audio_strips x) (scenes x) (audio_buses x) (outputs x) (stream_targets x)
    (main_mix x) (recording_desired_active x) v (restart_policy x).
Definition set_restart v (x : Project) : Project :=
  mk_project (schema_version x) (project_id x) (project_name x) (settings x) (inputs x)
    (input_audio_strips x) (scenes x) (audio_buses x) (outputs x) (stream_targets x)
    (main_mix x) (recording_desired_active x) (stingers x) v.
Definition set_in_name v (x : Input) : Input :=
  mk_input (in_id x) v (in_kind x) (in_required_capabilities x).
Definition set_in_kind v (x : Input) : Input :=
  mk_input (in_id x) (in_name x) v (in_required_capabilities x).
Definition set_in_capabilities v (x : Input) : Input :=
  mk_input (in_id x) (in_name x) (in_kind x) v.
Definition set_layer_name v (x : Layer) : Layer :=
  mk_layer v (layer_source x) (layer_enabled x) (layer_geometry x) (layer_crop x) (layer_mask x)
    (layer_opacity x) (layer_z_order x).
Definition set_layer_source v (x : Layer) : Layer :=
  mk_layer (layer_name x) v (layer_enabled x) (layer_geometry x) (layer_crop x) (layer_mask x)
    (layer_opacity x) (layer_z_order x).
Definition set_layer_geometry v (x : Layer) : Layer :=
  mk_layer (layer_name x) (layer_source x) (layer_enabled x) v (layer_crop x) (layer_mask x)
    (layer_opacity x) (layer_z_order x).
Definition set_layer_crop v (x : Layer) : Layer :=
  mk_layer (layer_name x) (layer_source x) (layer_enabled x) (layer_geometry x) v (layer_mask x)
    (layer_opacity x) (layer_z_order x).
Definition set_layer_mask v (x : Layer) : Layer :=
  mk_layer (layer_name x) (layer_source x) (layer_enabled x) (layer_geometry x) (layer_crop x) v
    (layer_opacity x) (layer_z_order x).
Definition set_layer_z v (x : Layer) : Layer :=
  mk_layer (layer_name x) (layer_source x) (layer_enabled x) (layer_geometry x) (layer_crop x)
    (layer_mask x) (layer_opacity x) v.
Definition set_scene_name v (x : Scene) : Scene :=
  mk_scene (scene_id x) v (scene_background x) (scene_layers x).
Definition set_background v (x : Scene) : Scene :=
  mk_scene (scene_id x) (scene_name x) v (scene_layers x).
Definition set_layers v (x : Scene) : Scene :=
  mk_scene (scene_id x) (scene_name x) (scene_background x) v.
Definition set_bus_name v (x : AudioBus) : AudioBus :=
  mk_bus (bus_id x) v (bus_sends x).
Definition set_sends v (x : AudioBus) : AudioBus :=
  mk_bus (bus_id x) (bus_name x) v.
Definition set_out_name v (x : Output) : Output :=
  mk_output (out_id x) v (out_video_source x) (out_audio_source x) (out_startup x)
    (out_required_capabilities x).
Definition set_startup v (x : Output) : Output :=
  mk_output (out_id x) (out_name x) (out_video_source x) (out_audio_source x) v
    (out_required_capabilities x).
Definition set_strip_state v (x : InputAudioStrip) : InputAudioStrip :=
  mk_strip (strip_input x) v.
