(* ===== verification/Validation.v ===== *)
(** Validation of a project, [crates/foundation/fm-model/src/validation.rs] and
    [cycles.rs]: every problem of a project, in the order in which it is found.

    A function that appends to [errors] returns what it appends.  The three searches for
    cycles share [reaches], a depth-first search along a stack of visited nodes, which
    decides the transitive closure of its successors.  They have one more fuel than there
    are nodes, and [None] is one that has not ended. *)
From S2P Require Import Prelude Text Types ProjectModel.
From Stdlib Require Import Ascii.
#[local] Open Scope Z_scope.

(** [any], whose test may not end. *)
Fixpoint any {A} (f : A → option bool) (l : list A) : option bool :=
  match l with
  | [] => Some false
  | x :: l => b ← f x; if b : bool then Some true else any f l
  end.
(** The common shape of [reaches_scene], [reaches_audio_input] and [reaches_bus]: from
    [current] to [target] along [successors]; the stack is as it was when a call returns.
    [None] is a search that has not ended. *)
Fixpoint reaches (successors : Z → list Z) (target : Z) (fuel : nat) (visited : list Z)
    (current : Z) : option bool :=
  match fuel with
  | O => None
  | S fuel =>
      if bool_decide (current ∈ visited) then Some false else
      any (λ next,
        if decide (next = target) then Some true
        else reaches successors target fuel (visited ++ [current]) next)
        (successors current)
  end.

Lemma any_spec {A} (f : A → option bool) (P : A → Prop) l :
  (∀ x, x ∈ l → ∃ b, f x = Some b ∧ (b = true ↔ P x)) →
  ∃ b, any f l = Some b ∧ (b = true ↔ ∃ x, x ∈ l ∧ P x).
Proof.
  induction l as [|x l IH]; intros Hf; simpl.
  { exists false. split; [done|]. split; [done|]. by intros (?&?%elem_of_nil&_). }
  destruct (Hf x) as (b & -> & Hb); [by left|]. simpl. destruct b.
  - exists true. split; [done|]. split; [|done]. intros _. exists x. split; [by left|by apply Hb].
  - destruct IH as (c & -> & Hc); [intros; apply Hf; by right|]. exists c. split; [done|].
    rewrite Hc. setoid_rewrite elem_of_cons. naive_solver.
Qed.

Section reach.
Context (successors : Z → list Z) (target : Z).
Definition edge (a b : Z) : Prop := b ∈ successors a.

(** A path from a node to [target] that visits the nodes of [l] in order. *)
Fixpoint path (l : list Z) : Prop :=
  match l with
  | [] => False
  | a :: l => match l with [] => edge a target | b :: _ => edge a b ∧ path l end
  end.
Definition simple_path (avoid : list Z) (a : Z) : Prop :=
  ∃ l, path (a :: l) ∧ NoDup (a :: l) ∧ ∀ x, x ∈ a :: l → x ∉ avoid.

Lemma simple_path_step avoid a :
  simple_path avoid a ↔
  (a ∉ avoid) ∧ (∃ b, edge a b ∧ (b = target ∨ simple_path (avoid ++ [a]) b)).
Proof.
  split.
  - intros (l & Hp & Hnd & Hav). split; [apply Hav; by left|].
    destruct l as [|b l]; [by exists target; auto|]. destruct Hp as [Hab Hp].
    exists b. split; [done|]. right. exists l. apply NoDup_cons in Hnd as [Ha Hnd].
    split_and!; [done..|]. intros x Hx [Hx'|Hx']%elem_of_app.
    + by apply (Hav x); [right|].
    + apply list_elem_of_singleton in Hx' as ->. done.
  - intros (Ha & b & Hab & [->|(l & Hp & Hnd & Hav)]).
    + exists []. split_and!; [done|apply NoDup_singleton|]. by intros x ->%list_elem_of_singleton.
    + exists (b :: l). split_and!; [done| |].
      * apply NoDup_cons. split; [|done]. intros Hin. apply (Hav a Hin). set_solver.
      * intros x [->|Hx]%elem_of_cons; [done|]. intros Hx'. apply (Hav x Hx). set_solver.
Qed.

Lemma path_tc a l : path (a :: l) → tc edge a target.
Proof.
  revert a. induction l as [|b l IH]; intros a Hp; [by apply tc_once|].
  destruct Hp as [Hab Hp]. eapply tc_l; [done|by apply IH].
Qed.
Lemma path_suffix k l : l ≠ [] → path (k ++ l) → path l.
Proof.
  intros Hl. induction k as [|a k IH]; [done|]. intros Hp. apply IH.
  destruct k as [|b k]; simpl in *; [|by destruct Hp]. destruct l; [done|by destruct Hp].
Qed.
Lemma tc_simple_path a : tc edge a target ↔ simple_path [] a.
Proof.
  split; [|by intros (l & Hp & _); apply (path_tc a l)].
  intros Htc. remember target as t eqn:Ht. induction Htc as [a b Hab|a b c Hab _ IH]; subst.
  - exists []. split_and!; [done|apply NoDup_singleton|]. intros x _. apply not_elem_of_nil.
  - destruct (IH eq_refl) as (l & Hp & Hnd & _).
    destruct (decide (a ∈ b :: l)) as [Hin|Hin].
    + apply list_elem_of_split in Hin as (k & l' & Heq). rewrite Heq in Hp, Hnd. exists l'.
      split_and!; [by apply (path_suffix k)|by apply NoDup_app in Hnd as (_&_&?)|].
      intros x _. apply not_elem_of_nil.
    + exists (b :: l). split_and!; [by split|by apply NoDup_cons|]. intros x _. apply not_elem_of_nil.
Qed.

(** The search ends and is exact when its fuel exceeds the nodes not yet visited. *)
Lemma reaches_path nodes fuel visited a :
  (∀ x, x ∉ nodes → successors x = []) →
  NoDup visited → visited ⊆ nodes → (length nodes < fuel + length visited)%nat →
  ∃ b, reaches successors target fuel visited a = Some b ∧ (b = true ↔ simple_path visited a).
Proof.
  intros Hnodes. revert visited a. induction fuel as [|fuel IH]; intros visited a Hnd Hsub Hfuel.
  { pose proof (submseteq_length _ _ (NoDup_submseteq _ _ Hnd Hsub)). lia. }
  simpl. case_bool_decide as Ha.
  { exists false. split; [done|]. split; [done|]. intros [? _]%simple_path_step. done. }
  destruct (any_spec
    (λ next, if decide (next = target) then Some true
             else reaches successors target fuel (visited ++ [a]) next)
    (λ b, b = target ∨ simple_path (visited ++ [a]) b) (successors a)) as (r & -> & Hr).
  - intros b Hb. case_decide as Hbt; [exists true; naive_solver|].
    destruct (decide (a ∈ nodes)) as [Hain|Hain]; [|by rewrite Hnodes in Hb; [apply elem_of_nil in Hb|]].
    destruct (IH (visited ++ [a]) b) as (r & -> & Hr).
    + apply NoDup_app. split_and!; [done| |apply NoDup_singleton]. by intros x Hx ->%list_elem_of_singleton.
    + intros x [Hx| ->%list_elem_of_singleton]%elem_of_app; [by apply Hsub|done].
    + rewrite length_app. simpl. lia.
    + exists r. split; [done|]. rewrite Hr. naive_solver.
  - exists r. split; [done|]. rewrite Hr, simple_path_step. naive_solver.
Qed.

Lemma reaches_exact nodes a :
  (∀ x, x ∉ nodes → successors x = []) →
  ∃ b, reaches successors target (S (length nodes)) [] a = Some b ∧
       (b = true ↔ tc edge a target).
Proof.
  intros Hnodes.
  destruct (reaches_path nodes (S (length nodes)) [] a) as (b & Hb & Hp); [done|constructor|intros x Hx; by apply elem_of_nil in Hx|simpl; lia|].
  exists b. split; [done|]. by rewrite Hp, tc_simple_path.
Qed.
End reach.

(** One error for each of [nodes] that reaches itself. *)
Fixpoint mark_cycles {E} (successors : Z → list Z) (fuel : nat) (error : Z → E) (nodes : list Z) :
    option (list E) :=
  match nodes with
  | [] => Some []
  | node :: nodes =>
      cyclic ← reaches successors node fuel [] node;
      errors ← mark_cycles successors fuel error nodes;
      Some ((if cyclic : bool then [error node] else []) ++ errors)
  end.
Lemma mark_cycles_exact {E} successors (error : Z → E) nodes :
  (∀ x, x ∉ nodes → successors x = []) →
  ∃ errors, mark_cycles successors (S (length nodes)) error nodes = Some errors ∧
    ∀ e, e ∈ errors ↔ ∃ a, a ∈ nodes ∧ e = error a ∧ tc (edge successors) a a.
Proof.
  intros Hnodes. cut (∀ l, ∃ errors,
    mark_cycles successors (S (length nodes)) error l = Some errors ∧
    ∀ e, e ∈ errors ↔ ∃ a, a ∈ l ∧ e = error a ∧ tc (edge successors) a a); [auto|].
  induction l as [|a l (errors & He & IH)]; cbn [mark_cycles].
  { exists []. split; [done|]. set_solver. }
  destruct (reaches_exact successors a nodes a Hnodes) as (b & -> & Hb).
  rewrite He. eexists. split; [done|]. intros e. rewrite elem_of_app, IH.
  setoid_rewrite elem_of_cons. destruct b.
  - rewrite list_elem_of_singleton. split; [|naive_solver].
    intros [->|(x & ? & ? & ?)]; [exists a|by exists x; auto].
    split_and!; [by left|done|by apply Hb].
  - split; [intros [?%elem_of_nil|(x & ? & ? & ?)]; [done|by exists x; auto]|].
    intros (x & [->|Hx] & ? & Htc); [by apply Hb in Htc|]. right. by exists x.
Qed.

Lemma tc_iff {A} (R R' : relation A) a b : (∀ x y, R x y ↔ R' x y) → tc R a b ↔ tc R' a b.
Proof.
  intros HR. split; induction 1 as [a b Hab|a b c Hab _ IH];
    solve [by apply tc_once, HR|eapply tc_l; [by apply HR|done]].
Qed.

Definition acyclic (R : relation Z) : Prop := ∀ a, ¬ tc R a a.

(** A relation [R] that differs from [R0] only in what [s] is related to: anything it was
    related to, and the new [B].  It closes a cycle exactly when one of [B] led to [s]. *)
Section closing.
Context (R0 R : relation Z) (s : Z) (B : Z → Prop).
Context (Hother : ∀ a b, a ≠ s → R a b ↔ R0 a b).
Context (Hold : ∀ b, R s b → R0 s b ∨ B b).
Context (Hnew : ∀ b, B b → R s b).

(** Up to the first time it comes to [s], a path does not leave [s]. *)
Definition away (Q : relation Z) : relation Z := λ a b, a ≠ s ∧ Q a b.
Lemma first_arrival Q a : rtc Q a s → rtc (away Q) a s.
Proof.
  intros H. remember s as t eqn:Ht in H. induction H as [a|a b c Hab Hbc IH]; subst; [done|].
  destruct (decide (a = s)) as [->|Ha]; [done|]. eapply rtc_l; [by split|by apply IH].
Qed.
Lemma away_sub Q Q' a b : (∀ x y, x ≠ s → Q x y → Q' x y) → rtc (away Q) a b → rtc Q' a b.
Proof.
  intros HQ. induction 1 as [a|a b c [Ha Hab] _ IH]; [done|]. eapply rtc_l; [by apply HQ|done].
Qed.
Lemma closes_cycle : acyclic R0 → tc R s s ↔ ∃ b, B b ∧ rtc R0 b s.
Proof.
  intros Hac. split.
  - intros Htc.
    assert (∃ b, R s b ∧ rtc R b s) as (b & Hb & Hrest).
    { inversion Htc as [? ? H|? ? ? H H']; subst; [by exists s|]. eexists. split; [done|by apply tc_rtc]. }
    apply first_arrival, (away_sub _ R0) in Hrest; [|by intros x y Hx; apply Hother].
    destruct (Hold b Hb) as [H0|HB]; [|by exists b].
    destruct (Hac s). eapply tc_rtc_r; [by apply tc_once|done].
  - intros (b & HB & Hrest). apply first_arrival, (away_sub _ R) in Hrest;
      [|by intros x y Hx; apply Hother].
    eapply tc_rtc_r; [by apply tc_once, Hnew|done].
Qed.
Lemma acyclic_closing : acyclic R0 → ¬ tc R s s → acyclic R.
Proof.
  intros Hac Hs a Ha.
  assert (∀ b, tc R a b → tc R0 a b ∨ (rtc R a s ∧ tc R s b)) as Hsplit.
  { clear Ha. intros b Htc. induction Htc as [a b Hab|a c b Hac' Hcb IH].
    - destruct (decide (a = s)) as [->|Hne]; [right|left; by apply tc_once, Hother].
      split; [done|by apply tc_once].
    - destruct (decide (a = s)) as [->|Hne]; [right; split; [done|by eapply tc_l]|].
      destruct IH as [?|[Hcs ?]]; [left; eapply tc_l; [by apply Hother|done]|].
      right. split; [|done]. by eapply rtc_l. }
  destruct (Hsplit a Ha) as [?|[Has Hsa]]; [by apply (Hac a)|].
  apply Hs. by eapply tc_rtc_r, Has.
Qed.
End closing.

Inductive EntityRef :=
  | RefMainMix
  | RefInput (input : InputId)
  | RefScene (scene : SceneId)
  | RefAudioBus (bus : BusId)
  | RefOutput (output : OutputId)
  | RefStreamTarget (target : StreamTargetId).
#[global] Instance EntityRef_eq_dec : EqDecision EntityRef.
Proof. solve_decision. Defined.
Inductive ValidationErrorKind :=
  | KindEmpty
  | KindDuplicateId
  | KindDuplicateName
  | MissingReference (entity : EntityRef)
  | SelfReference
  | Cycle
  | MalformedCapabilityKey
  | DuplicateReference
  | OutOfRange
  | FormatMismatch.
#[global] Instance ValidationErrorKind_eq_dec : EqDecision ValidationErrorKind.
Proof. solve_decision. Defined.
Record ValidationError := mk_error {
  err_entity : option EntityRef;
  err_field : string;
  err_kind : ValidationErrorKind
}.
#[global] Instance ValidationError_eq_dec : EqDecision ValidationError.
Proof. solve_decision. Defined.

(** [if b { errors.push(e) }]. *)
Definition report (b : bool) (e : ValidationError) : list ValidationError := if b then [e] else [].
Definition require_name (entity : option EntityRef) (field value : string) : list ValidationError :=
  report (str_blank value) (mk_error entity field KindEmpty).

(** ** What exists *)

Definition has_input (self : Project) (id : InputId) : bool :=
  existsb (λ input, bool_decide (in_id input = id)) (inputs self).
Definition has_scene (self : Project) (id : SceneId) : bool :=
  existsb (λ scene, bool_decide (scene_id scene = id)) (scenes self).
Definition has_bus (self : Project) (id : BusId) : bool :=
  existsb (λ bus, bool_decide (bus_id bus = id)) (audio_buses self).
Definition has_output (self : Project) (id : OutputId) : bool :=
  existsb (λ output, bool_decide (out_id output = id)) (outputs self).
Definition has_target (self : Project) (id : StreamTargetId) : bool :=
  existsb (λ target, bool_decide (tg_id target = id)) (stream_targets self).

(** ** Names and identities *)

(** [str::eq_ignore_ascii_case]. *)
Definition eq_ignore_ascii_case (s t : string) : bool :=
  bool_decide (to_ascii_lowercase s = to_ascii_lowercase t).
(** The loop of [duplicates] behind the items [prior]. *)
Fixpoint duplicates_after (case_sensitive : bool) (prior items : list (Z * string * EntityRef)) :
    list ValidationError :=
  match items with
  | [] => []
  | (id, name, entity) :: rest =>
      report (existsb (λ p, bool_decide (p.1.1 = id)) prior)
        (mk_error (Some entity) "id" KindDuplicateId) ++
      report (negb (str_blank name) &&
              existsb (λ p, if case_sensitive then bool_decide (p.1.2 = name)
                            else eq_ignore_ascii_case p.1.2 name) prior)
        (mk_error (Some entity) "name" KindDuplicateName) ++
      duplicates_after case_sensitive (prior ++ [(id, name, entity)]) rest
  end.
Definition duplicates (items : list (Z * string * EntityRef)) (case_sensitive : bool) :
    list ValidationError := duplicates_after case_sensitive [] items.
Definition validate_unique_entities (self : Project) : list ValidationError :=
  duplicates ((λ x, (in_id x, in_name x, RefInput (in_id x))) <$> inputs self) true ++
  duplicates ((λ x, (scene_id x, scene_name x, RefScene (scene_id x))) <$> scenes self) false ++
  duplicates ((λ x, (bus_id x, bus_name x, RefAudioBus (bus_id x))) <$> audio_buses self) false ++
  duplicates ((λ x, (out_id x, out_name x, RefOutput (out_id x))) <$> outputs self) false ++
  duplicates ((λ x, (tg_id x, tg_name x, RefStreamTarget (tg_id x))) <$> stream_targets self) false.

Definition capability_byte (b : Z) : bool :=
  bool_decide (97 ≤ b ≤ 122 ∨ 48 ≤ b ≤ 57 ∨ b = 95).
Definition capability_key_valid (key : string) : bool :=
  bool_decide (2 ≤ length (str_split "." key))%nat &&
  forallb (λ segment, negb (bool_decide (segment = "")) && forallb capability_byte (str_bytes segment))
    (str_split "." key).
Definition validate_capabilities (entity : option EntityRef) (keys : list string) :
    list ValidationError :=
  keys ≫= λ key,
    report (negb (capability_key_valid key))
      (mk_error entity "required_capabilities" MalformedCapabilityKey).

(** ** Settings *)

(** Does an element occur before itself? *)
Definition repeats {A} `{EqDecision A} (l : list A) : bool :=
  bool_decide (first_repeat [] l ≠ None).
(** The products are those of 32-bit values in 64 bits. *)
Definition validate_settings (self : Project) : list ValidationError :=
  let rate := ps_frame_rate (settings self) in
  let video := ps_video (settings self) in
  let audio := ps_audio (settings self) in
  report (bool_decide (numerator rate < MIN_FRAME_RATE_FPS * denominator rate ∨
                       MAX_FRAME_RATE_FPS * denominator rate < numerator rate))
    (mk_error None "settings.frame_rate" OutOfRange) ++
  report (bool_decide (vf_frame_rate video ≠ rate))
    (mk_error None "settings.video.frame_rate" FormatMismatch) ++
  report (bool_decide (MAX_VIDEO_WIDTH < width (vf_dimensions video) ∨
                       MAX_VIDEO_HEIGHT < height (vf_dimensions video)))
    (mk_error None "settings.video.dimensions" OutOfRange) ++
  report (negb (bool_decide (MIN_AUDIO_SAMPLE_RATE_HZ ≤ sample_rate audio ≤ MAX_AUDIO_SAMPLE_RATE_HZ)))
    (mk_error None "settings.audio.sample_rate" OutOfRange) ++
  report (bool_decide (MAX_AUDIO_CHANNELS < length (channels audio))%nat)
    (mk_error None "settings.audio.channels" OutOfRange) ++
  report (repeats (channels audio))
    (mk_error None "settings.audio.channels" DuplicateReference) ++
  match restart_policy self with
  | OnFailure max_attempts =>
      report (negb (bool_decide (1 ≤ max_attempts ≤ MAX_RESTART_ATTEMPTS)))
        (mk_error None "restart_policy.max_attempts" OutOfRange)
  | Never | Always => []
  end.

(** ** Inputs, the main mix and stingers *)

Definition validate_kind (self : Project) (entity : option EntityRef) (input : Input) :
    list ValidationError :=
  match in_kind input with
  | KindColor => []
  | KindMedia asset_uri => require_name entity "asset_uri" asset_uri
  | KindDevice stable_key => require_name entity "stable_key" stable_key
  | KindNetwork endpoint => require_name entity "endpoint" endpoint
  | KindScene scene audio_source =>
      report (negb (has_scene self scene))
        (mk_error entity "kind.scene.scene_id" (MissingReference (RefScene scene))) ++
      match audio_source with
      | None => []
      | Some source =>
          if decide (source = in_id input) then
            [mk_error entity "kind.scene.audio_source" SelfReference]
          else report (negb (has_input self source))
            (mk_error entity "kind.scene.audio_source" (MissingReference (RefInput source)))
      end
  | KindSimulated simulated =>
      match sim_audio simulated with
      | Silence => []
      | Sine frequency_hz =>
          let nyquist_hz := sample_rate (ps_audio (settings self)) `quot` 2 in
          report (negb (bool_decide (MIN_SINE_FREQUENCY_HZ ≤ frequency_hz ≤
                                     Z.min MAX_SINE_FREQUENCY_HZ nyquist_hz)))
            (mk_error entity "kind.simulated.audio.frequency_hz" OutOfRange)
      end
  end.
Definition validate_input (self : Project) (input : Input) : list ValidationError :=
  let entity := Some (RefInput (in_id input)) in
  require_name entity "name" (in_name input) ++
  report (bool_decide (MAX_INPUT_NAME_BYTES < str_len (in_name input))%nat)
    (mk_error entity "name" OutOfRange) ++
  validate_kind self entity input ++
  validate_capabilities entity (in_required_capabilities input).
Definition validate_inputs (self : Project) : list ValidationError :=
  inputs self ≫= validate_input self.

Definition validate_input_audio_strips (self : Project) : list ValidationError :=
  (inputs self ≫= λ input,
     report (bool_decide (length (filter (λ strip, strip_input strip = in_id input)
                                    (input_audio_strips self)) ≠ 1%nat))
       (mk_error (Some (RefInput (in_id input))) "audio_strip" DuplicateReference)) ++
  (input_audio_strips self ≫= λ strip,
     report (negb (has_input self (strip_input strip)))
       (mk_error (Some (RefInput (strip_input strip))) "audio_strip.input"
          (MissingReference (RefInput (strip_input strip))))).

Definition validate_main_mix (self : Project) : list ValidationError :=
  match main_mix self with
  | None => []
  | Some mix =>
      report (negb (has_input self (desired_program mix)))
        (mk_error (Some RefMainMix) "main_mix.desired_program"
           (MissingReference (RefInput (desired_program mix)))) ++
      report (negb (has_input self (desired_preview mix)))
        (mk_error (Some RefMainMix) "main_mix.desired_preview"
           (MissingReference (RefInput (desired_preview mix)))) ++
      report (bool_decide (desired_program mix = desired_preview mix))
        (mk_error (Some RefMainMix) "main_mix.desired_preview" DuplicateReference)
  end.

(** The loop of [validate_stingers] behind the slots [prior]. *)
Fixpoint validate_stingers_after (self : Project) (prior : list Z) (l : list StingerConfig) :
    list ValidationError :=
  match l with
  | [] => []
  | stinger :: rest =>
      report (existsb (λ previous, bool_decide (previous = slot stinger)) prior)
        (mk_error None "stingers.slot" KindDuplicateId) ++
      report (negb (has_input self (media_input stinger)))
        (mk_error None "stingers.media_input" (MissingReference (RefInput (media_input stinger)))) ++
      validate_stingers_after self (prior ++ [slot stinger]) rest
  end.
Definition validate_stingers (self : Project) : list ValidationError :=
  validate_stingers_after self [] (stingers self).

(** ** Scenes, buses, outputs and destinations *)

(** [offset.checked_add(size).is_none_or(|end| end > limit)]. *)
Definition exceeds (offset size : N) (limit : Z) : bool :=
  match checked U32 (Z.of_N offset + Z.of_N size) with
  | Some end_ => bool_decide (limit < end_)
  | None => true
  end.
(** Is the rectangle empty or outside [width] by [height]? *)
Definition rect_invalid (x y w h : N) (width height : Z) : bool :=
  bool_decide (w = 0%N) || bool_decide (h = 0%N) || exceeds x w width || exceeds y h height.
Definition geometry_invalid (geometry : LayerGeometry) : bool :=
  bool_decide (geo_width geometry = 0) || bool_decide (geo_height geometry = 0) ||
  bool_decide (MAX_VIDEO_WIDTH < geo_width geometry) ||
  bool_decide (MAX_VIDEO_HEIGHT < geo_height geometry).
Definition crop_invalid (crop : CropRect) (width height : Z) : bool :=
  rect_invalid (crop_x crop) (crop_y crop) (crop_width crop) (crop_height crop) width height.
Definition mask_invalid (mask : RectMask) (width height : Z) : bool :=
  rect_invalid (mask_x mask) (mask_y mask) (mask_width mask) (mask_height mask) width height.
Definition project_width (self : Project) : Z := width (vf_dimensions (ps_video (settings self))).
Definition project_height (self : Project) : Z := height (vf_dimensions (ps_video (settings self))).
(** What a mask of the layer may cover. *)
Definition source_size (self : Project) (crop : option CropRect) : Z * Z :=
  match crop with
  | None => (project_width self, project_height self)
  | Some crop => (Z.of_N (crop_width crop), Z.of_N (crop_height crop))
  end.

Definition validate_layer (self : Project) (scene : SceneId) (layer : Layer) : list ValidationError :=
  let entity := Some (RefScene scene) in
  require_name entity "layers.name" (layer_name layer) ++
  report (geometry_invalid (layer_geometry layer)) (mk_error entity "layers.geometry" OutOfRange) ++
  report (match layer_crop layer with
          | Some crop => crop_invalid crop (project_width self) (project_height self)
          | None => false
          end) (mk_error entity "layers.crop" OutOfRange) ++
  (let '(source_width, source_height) := source_size self (layer_crop layer) in
   report (match layer_mask layer with
           | Some mask => mask_invalid mask source_width source_height
           | None => false
           end) (mk_error entity "layers.mask" OutOfRange)) ++
  match layer_source layer with
  | SourceInput id =>
      report (negb (has_input self id))
        (mk_error entity "layers.source" (MissingReference (RefInput id)))
  | SourceScene id =>
      if decide (id = scene) then [mk_error entity "layers.source" SelfReference]
      else report (negb (has_scene self id))
        (mk_error entity "layers.source" (MissingReference (RefScene id)))
  end.
Definition validate_scene (self : Project) (scene : Scene) : list ValidationError :=
  let entity := Some (RefScene (scene_id scene)) in
  require_name entity "name" (scene_name scene) ++
  report (negb (is_premultiplied (scene_background scene))) (mk_error entity "background" OutOfRange) ++
  (scene_layers scene ≫= validate_layer self (scene_id scene)).
Definition validate_scenes (self : Project) : list ValidationError := scenes self ≫= validate_scene self.

(** The loop over the sends of a bus behind the sends [prior]. *)
Fixpoint validate_sends_after (self : Project) (bus : BusId) (prior l : list BusId) :
    list ValidationError :=
  match l with
  | [] => []
  | destination :: rest =>
      let entity := Some (RefAudioBus bus) in
      (if decide (destination = bus) then [mk_error entity "sends.destination" SelfReference]
       else if negb (has_bus self destination) then
         [mk_error entity "sends.destination" (MissingReference (RefAudioBus destination))]
       else report (existsb (λ p, bool_decide (p = destination)) prior)
         (mk_error entity "sends.destination" DuplicateReference)) ++
      validate_sends_after self bus (prior ++ [destination]) rest
  end.
Definition validate_buses (self : Project) : list ValidationError :=
  audio_buses self ≫= λ bus,
    require_name (Some (RefAudioBus (bus_id bus))) "name" (bus_name bus) ++
    validate_sends_after self (bus_id bus) [] (bus_sends bus).

Definition validate_output (self : Project) (output : Output) : list ValidationError :=
  let entity := Some (RefOutput (out_id output)) in
  require_name entity "name" (out_name output) ++
  report (negb (has_scene self (out_video_source output)))
    (mk_error entity "video_source" (MissingReference (RefScene (out_video_source output)))) ++
  report (negb (has_bus self (out_audio_source output)))
    (mk_error entity "audio_source" (MissingReference (RefAudioBus (out_audio_source output)))) ++
  validate_capabilities entity (out_required_capabilities output).
Definition validate_outputs (self : Project) : list ValidationError :=
  outputs self ≫= validate_output self.

Definition validate_target (self : Project) (target : StreamTarget) : list ValidationError :=
  let entity := Some (RefStreamTarget (tg_id target)) in
  require_name entity "name" (tg_name target) ++
  report (bool_decide (MAX_STREAM_TARGET_NAME_BYTES < str_len (tg_name target))%nat)
    (mk_error entity "name" OutOfRange) ++
  report (negb (has_output self (tg_output target)))
    (mk_error entity "output" (MissingReference (RefOutput (tg_output target)))).
Definition validate_stream_targets (self : Project) : list ValidationError :=
  stream_targets self ≫= validate_target self.

(** ** Cycles *)

(** The scene that a layer shows, through a scene input or directly. *)
Definition layer_scene (self : Project) (layer : Layer) : option SceneId :=
  match layer_source layer with
  | SourceScene next => Some next
  | SourceInput input =>
      '(_, candidate) ← list_find (λ candidate, in_id candidate = input) (inputs self);
      match in_kind candidate with
      | KindScene scene_id _ => Some scene_id
      | _ => None
      end
  end.
Definition scene_successors (self : Project) (current : SceneId) : list SceneId :=
  match list_find (λ scene, scene_id scene = current) (scenes self) with
  | Some (_, scene) => omap (layer_scene self) (scene_layers scene)
  | None => []
  end.
Definition audio_successors (self : Project) (current : InputId) : list InputId :=
  match list_find (λ input, in_id input = current) (inputs self) with
  | Some (_, input) =>
      match in_kind input with
      | KindScene _ (Some next) => [next]
      | _ => []
      end
  | None => []
  end.
Definition bus_successors (self : Project) (current : BusId) : list BusId :=
  match list_find (λ bus, bus_id bus = current) (audio_buses self) with
  | Some (_, bus) => bus_sends bus
  | None => []
  end.

Definition mark_scene_cycles (self : Project) : option (list ValidationError) :=
  mark_cycles (scene_successors self) (S (length (scenes self)))
    (λ scene, mk_error (Some (RefScene scene)) "layers.source" Cycle) (scene_id <$> scenes self).
Definition mark_audio_input_cycles (self : Project) : option (list ValidationError) :=
  mark_cycles (audio_successors self) (S (length (inputs self)))
    (λ input, mk_error (Some (RefInput input)) "kind.scene.audio_source" Cycle)
    (in_id <$> inputs self).
Definition mark_bus_cycles (self : Project) : option (list ValidationError) :=
  mark_cycles (bus_successors self) (S (length (audio_buses self)))
    (λ bus, mk_error (Some (RefAudioBus bus)) "sends.destination" Cycle)
    (bus_id <$> audio_buses self).

Definition validate_project (self : Project) : option (list ValidationError) :=
  scene_cycles ← mark_scene_cycles self;
  audio_cycles ← mark_audio_input_cycles self;
  bus_cycles ← mark_bus_cycles self;
  Some (require_name None "name" (project_name self) ++
        validate_settings self ++
        validate_unique_entities self ++
        validate_inputs self ++
        validate_input_audio_strips self ++
        validate_main_mix self ++
        validate_stingers self ++
        validate_scenes self ++
        validate_buses self ++
        validate_outputs self ++
        validate_stream_targets self ++
        scene_cycles ++ audio_cycles ++ bus_cycles).
