(* ===== verification/ProjectEdits.v ===== *)
(** The operations of a project, [crates/foundation/fm-model/src/project.rs]: the checked
    edits of [Project], each a method of its name, and the unchecked ones that decoders use.

    An index that [position] found is the first element of the given identity; changing
    it is [alter].  A panic is an [expect], an [unreachable!] or a search for cycles that
    does not end. *)
From S2P Require Import Prelude Text Types ProjectModel Validation.
#[local] Open Scope Z_scope.

(** ** Errors *)

Inductive RemoveInputError := RemoveUnknownInput (input : InputId) | DomainReference (input : InputId).
Module AddInputError.
Inductive t := DuplicateId (input : InputId) | EmptyName | NameTooLong | DuplicateName.
End AddInputError.
Inductive RenameProjectError := ProjectEmptyName.
Inductive AudioBusSendError :=
  | UnknownSource (bus : BusId)
  | UnknownDestination (bus : BusId)
  | SelfSend (bus : BusId)
  | DuplicateSend
  | MissingSend
  | SendCycle
  | SendInvalidProject (errors : list ValidationError).
Inductive SetStingerError := StingerUnknownInput (input : InputId).
Inductive RemoveSceneError :=
  | RemoveUnknownScene (scene : SceneId)
  | InputReference (input : InputId) (scene : SceneId)
  | LayerReference (owner source : SceneId)
  | SceneOutputReference (output : OutputId) (scene : SceneId).
Module RenameSceneError.
Inductive t := UnknownScene (scene : SceneId) | EmptyName | DuplicateName.
End RenameSceneError.
Module AddSceneInputError.
Inductive t :=
  | DuplicateSceneId (scene : SceneId)
  | DuplicateInputId (input : InputId)
  | EmptySceneName
  | DuplicateSceneName
  | EmptyInputName
  | InputNameTooLong
  | DuplicateInputName
  | InvalidProject (errors : list ValidationError).
End AddSceneInputError.
(** [DuplicateSceneInputError] has one constructor more than the errors it is made from. *)
Inductive DuplicateSceneInputError :=
  | UnknownSourceScene (scene : SceneId)
  | DuplicateFrom (error : AddSceneInputError.t).
Inductive ReplaceInputError := ReplaceUnknownInput (input : InputId).
Inductive RelinkMediaInputError := RelinkUnknownInput (input : InputId) | NotMediaInput (input : InputId).
Module SetOutputRouteError.
Inductive t := UnknownOutput (output : OutputId) | UnknownScene (scene : SceneId) | UnknownBus (bus : BusId).
End SetOutputRouteError.
Inductive SetOutputStartupError := StartupUnknownOutput (output : OutputId).
Module AddAudioBusError.
Inductive t := DuplicateId (bus : BusId) | EmptyName | DuplicateName.
End AddAudioBusError.
Module RenameAudioBusError.
Inductive t := UnknownBus (bus : BusId) | EmptyName | DuplicateName.
End RenameAudioBusError.
Module AddOutputError.
Inductive t :=
  | DuplicateId (output : OutputId) | EmptyName | DuplicateName
  | UnknownScene (scene : SceneId) | UnknownBus (bus : BusId).
End AddOutputError.
Module RenameOutputError.
Inductive t := UnknownOutput (output : OutputId) | EmptyName | DuplicateName.
End RenameOutputError.
Inductive RemoveOutputError :=
  | RemoveUnknownOutput (output : OutputId)
  | StreamTargetReference (output : OutputId) (target : StreamTargetId).
Module AddStreamTargetError.
Inductive t := DuplicateId (target : StreamTargetId) | DuplicateName | UnknownOutput (output : OutputId).
End AddStreamTargetError.
Module UpdateStreamTargetError.
Inductive t := UnknownStreamTarget (target : StreamTargetId) | DuplicateName | UnknownOutput (output : OutputId).
End UpdateStreamTargetError.
Inductive RemoveStreamTargetError := RemoveUnknownTarget (target : StreamTargetId).
Inductive RemoveAudioBusError :=
  | RemoveUnknownBus (bus : BusId)
  | BusOutputReference (bus : BusId) (output : OutputId)
  | OutgoingSend (bus destination : BusId)
  | IncomingSend (bus source : BusId).
Module AddSceneLayerError.
Inductive t :=
  | UnknownScene (scene : SceneId) | EmptyName | MissingInput (input : InputId)
  | MissingScene (scene : SceneId) | SourceCycle.
End AddSceneLayerError.
Inductive SetSceneBackgroundError := BackgroundUnknownScene (scene : SceneId) | NotPremultiplied.
Module SceneLayerError.
Inductive t :=
  | UnknownScene (scene : SceneId)
  | SameScene (scene : SceneId)
  | LayerIndexOutOfRange (scene : SceneId) (index length : nat)
  | EmptyName
  | InvalidGeometry (scene : SceneId) (index : nat)
  | InvalidCrop (scene : SceneId) (index : nat)
  | InvalidMask (scene : SceneId) (index : nat)
  | CropWouldInvalidateMask (scene : SceneId) (index : nat)
  | MissingInput (input : InputId)
  | MissingScene (scene : SceneId)
  | SourceCycle.
End SceneLayerError.
Inductive SceneInputAudioSourceError :=
  | MissingTargetInput (input : InputId)
  | NonSceneTargetInput (input : InputId)
  | MissingSourceInput (input : InputId)
  | AudioSourceCycle.

(** ** Finding *)

(** [l.iter().position(|x| id(x) == key)]. *)
Definition position {A} (ident : A → Z) (key : Z) (l : list A) : option nat :=
  fst <$> list_find (λ x, ident x = key) l.
Definition position_or {A E} (ident : A → Z) (key : Z) (l : Project → list A) (e : E) :
    stm Project E nat :=
  self ← st_get;
  st_lift (ok_or e (position ident key (l self))).
(** Does an element other than that at [index] satisfy [f]? *)
Definition other_exists {A} (index : nat) (f : A → bool) (l : list A) : bool :=
  existsb f (take index l ++ drop (S index) l).
Definition alter_input (f : Input → Input) (index : nat) (self : Project) : Project :=
  set_inputs (alter f index (inputs self)) self.
Definition alter_scene (f : Scene → Scene) (index : nat) (self : Project) : Project :=
  set_scenes (alter f index (scenes self)) self.
Definition alter_layer (f : Layer → Layer) (scene index : nat) (self : Project) : Project :=
  alter_scene (λ s, set_layers (alter f index (scene_layers s)) s) scene self.
Definition alter_bus (f : AudioBus → AudioBus) (index : nat) (self : Project) : Project :=
  set_buses (alter f index (audio_buses self)) self.
Definition alter_output (f : Output → Output) (index : nat) (self : Project) : Project :=
  set_outputs (alter f index (outputs self)) self.

(** [Project::validate]; a search that does not end is a panic. *)
Definition st_validate {E} (candidate : Project) : stm Project E (list ValidationError) :=
  st_expect (validate_project candidate).

(** ** The project and its inputs *)

Definition rename_project (name : string) : stm Project RenameProjectError unit :=
  _ ← st_require (str_blank name = false) ProjectEmptyName;
  st_modify (set_name name).

Definition add_input (input : Input) (self : Project) : Project :=
  set_inputs (inputs self ++ [input])
    (set_strips (input_audio_strips self ++ [mk_strip (in_id input) strip_state_default]) self).
Definition add_input_checked (input : Input) : stm Project AddInputError.t unit :=
  self ← st_get;
  _ ← st_require (has_input self (in_id input) = false) (AddInputError.DuplicateId (in_id input));
  _ ← match validate_input_name (in_name input) with
      | Ok _ => mret tt
      | Err EmptyName => mthrow AddInputError.EmptyName
      | Err NameTooLong => mthrow AddInputError.NameTooLong
      | Err (RenameUnknownInput _) | Err DuplicateName => st_panic
      end;
  _ ← st_require (existsb (λ x, bool_decide (in_name x = in_name input)) (inputs self) = false)
        AddInputError.DuplicateName;
  st_modify (add_input input).

(** Is the input used by the main mix, a stinger, a layer or as an audio source? *)
Definition input_referenced (input : InputId) (self : Project) : bool :=
  match main_mix self with
  | Some mix => bool_decide (desired_program mix = input ∨ desired_preview mix = input)
  | None => false
  end ||
  existsb (λ stinger, bool_decide (media_input stinger = input)) (stingers self) ||
  existsb (λ scene, existsb (λ layer, bool_decide (layer_source layer = SourceInput input))
                      (scene_layers scene)) (scenes self) ||
  existsb (λ candidate, match in_kind candidate with
                        | KindScene _ (Some source) => bool_decide (source = input)
                        | _ => false
                        end) (inputs self).
Definition remove_input (input : InputId) : stm Project RemoveInputError unit :=
  self ← st_get;
  _ ← st_require (has_input self input = true) (RemoveUnknownInput input);
  _ ← st_require (input_referenced input self = false) (DomainReference input);
  _ ← st_modify (λ p, set_inputs (filter (λ x, in_id x ≠ input) (inputs p)) p);
  st_modify (λ p, set_strips (filter (λ x, strip_input x ≠ input) (input_audio_strips p)) p).

Definition rename_input (input : InputId) (name : string) : stm Project RenameInputError unit :=
  index ← position_or in_id input inputs (RenameUnknownInput input);
  _ ← st_lift (validate_input_name name);
  self ← st_get;
  _ ← st_require (other_exists index (λ x, bool_decide (in_name x = name)) (inputs self) = false)
        DuplicateName;
  st_modify (alter_input (set_in_name name) index).

Definition replace_input_source (input : InputId) (kind : InputKind)
    (required_capabilities : list string) : stm Project ReplaceInputError unit :=
  index ← position_or in_id input inputs (ReplaceUnknownInput input);
  st_modify (alter_input (λ x, set_in_capabilities required_capabilities (set_in_kind kind x)) index).

Definition relink_media_input (input : InputId) (asset_uri : string) :
    stm Project RelinkMediaInputError unit :=
  index ← position_or in_id input inputs (RelinkUnknownInput input);
  self ← st_get;
  candidate ← st_expect (inputs self !! index);
  match in_kind candidate with
  | KindMedia _ => st_modify (alter_input (set_in_kind (KindMedia asset_uri)) index)
  | _ => mthrow (NotMediaInput input)
  end.

Definition reorder_inputs (order : list InputId) : stm Project InputOrderError unit :=
  self ← st_get;
  _ ← st_lift (validate_input_order (in_id <$> inputs self) order);
  reordered ← st_expect (mapM (λ input,
                snd <$> list_find (λ candidate, in_id candidate = input) (inputs self)) order);
  st_modify (set_inputs reordered).

(** [Project::set_input_audio_strip]: did the strip exist? *)
Definition set_input_audio_strip {E} (input : InputId) (state : InputAudioStripState) :
    stm Project E bool :=
  self ← st_get;
  match position strip_input input (input_audio_strips self) with
  | None => mret false
  | Some index =>
      _ ← st_modify (set_strips (alter (set_strip_state state) index (input_audio_strips self)));
      mret true
  end.

(** ** Scenes *)

Definition add_scene (scene : Scene) (self : Project) : Project :=
  set_scenes (scenes self ++ [scene]) self.
Definition validate_new_scene_input (scene : SceneId) (scene_name_ : string) (input : InputId)
    (input_name : string) : stm Project AddSceneInputError.t unit :=
  self ← st_get;
  _ ← st_require (has_scene self scene = false) (AddSceneInputError.DuplicateSceneId scene);
  _ ← st_require (has_input self input = false) (AddSceneInputError.DuplicateInputId input);
  _ ← st_require (str_blank scene_name_ = false) AddSceneInputError.EmptySceneName;
  _ ← st_require (existsb (λ x, eq_ignore_ascii_case (scene_name x) scene_name_) (scenes self) = false)
        AddSceneInputError.DuplicateSceneName;
  _ ← st_require (str_blank input_name = false) AddSceneInputError.EmptyInputName;
  _ ← st_require (str_len input_name ≤ MAX_INPUT_NAME_BYTES)%nat AddSceneInputError.InputNameTooLong;
  st_require (existsb (λ x, bool_decide (in_name x = input_name)) (inputs self) = false)
    AddSceneInputError.DuplicateInputName.
(** Installs a candidate that passes validation. *)
Definition install_valid (candidate : Project) : stm Project AddSceneInputError.t unit :=
  errors ← st_validate candidate;
  _ ← st_require (errors = []) (AddSceneInputError.InvalidProject errors);
  st_put candidate.
Definition scene_input (input : InputId) (name : string) (scene : SceneId) : Input :=
  mk_input input name (KindScene scene None) [].
Definition add_scene_input_checked (scene : SceneId) (scene_name : string) (input : InputId)
    (input_name : string) : stm Project AddSceneInputError.t unit :=
  _ ← validate_new_scene_input scene scene_name input input_name;
  self ← st_get;
  install_valid (add_input (scene_input input input_name scene)
                   (add_scene (mk_scene scene scene_name OPAQUE_BLACK []) self)).
Definition duplicate_scene_input_checked (source_scene new_scene : SceneId) (scene_name : string)
    (new_input : InputId) (input_name : string) : stm Project DuplicateSceneInputError unit :=
  self ← st_get;
  '(_, source) ← st_lift (ok_or (UnknownSourceScene source_scene)
                   (list_find (λ scene, scene_id scene = source_scene) (scenes self)));
  st_map_err DuplicateFrom (
    _ ← validate_new_scene_input new_scene scene_name new_input input_name;
    install_valid (add_input (scene_input new_input input_name new_scene)
      (add_scene (mk_scene new_scene scene_name (scene_background source) (scene_layers source)) self))).

Definition rename_scene (scene : SceneId) (name : string) : stm Project RenameSceneError.t unit :=
  index ← position_or scene_id scene scenes (RenameSceneError.UnknownScene scene);
  _ ← st_require (str_blank name = false) RenameSceneError.EmptyName;
  self ← st_get;
  _ ← st_require (other_exists index (λ x, eq_ignore_ascii_case (scene_name x) name) (scenes self)
                  = false) RenameSceneError.DuplicateName;
  st_modify (alter_scene (set_scene_name name) index).

(** [matches!(input.kind, InputKind::Scene { scene_id, .. } if scene_id == scene)]. *)
Definition shows_scene (scene : SceneId) (input : Input) : bool :=
  match in_kind input with
  | KindScene id _ => bool_decide (id = scene)
  | _ => false
  end.
Definition remove_scene (scene : SceneId) : stm Project RemoveSceneError unit :=
  self ← st_get;
  _ ← st_require (has_scene self scene = true) (RemoveUnknownScene scene);
  _ ← match list_find (λ input, shows_scene scene input = true) (inputs self) with
      | Some (_, input) => mthrow (InputReference (in_id input) scene)
      | None => mret tt
      end;
  _ ← match list_find (λ owner, Exists (λ layer, layer_source layer = SourceScene scene)
                                  (scene_layers owner)) (scenes self) with
      | Some (_, owner) => mthrow (LayerReference (scene_id owner) scene)
      | None => mret tt
      end;
  _ ← match list_find (λ output, out_video_source output = scene) (outputs self) with
      | Some (_, output) => mthrow (SceneOutputReference (out_id output) scene)
      | None => mret tt
      end;
  st_modify (λ p, set_scenes (filter (λ x, scene_id x ≠ scene) (scenes p)) p).

Definition set_scene_background (scene : SceneId) (background : Rgba8) :
    stm Project SetSceneBackgroundError unit :=
  index ← position_or scene_id scene scenes (BackgroundUnknownScene scene);
  _ ← st_require (is_premultiplied background = true) NotPremultiplied;
  st_modify (alter_scene (set_background background) index).

(** ** Layers *)

(** Does what a layer shows exist? *)
Definition check_source {E} (missing_input missing_scene : Z → E) (source : SourceRef) :
    stm Project E unit :=
  self ← st_get;
  match source with
  | SourceInput input => st_require (has_input self input = true) (missing_input input)
  | SourceScene scene => st_require (has_scene self scene = true) (missing_scene scene)
  end.
Definition add_layer_to_scene (scene : SceneId) (layer : Layer) :
    stm Project AddSceneLayerError.t unit :=
  index ← position_or scene_id scene scenes (AddSceneLayerError.UnknownScene scene);
  _ ← st_require (str_blank (layer_name layer) = false) AddSceneLayerError.EmptyName;
  _ ← check_source AddSceneLayerError.MissingInput AddSceneLayerError.MissingScene
        (layer_source layer);
  self ← st_get;
  let candidate := alter_scene (λ s, set_layers (scene_layers s ++ [layer]) s) index self in
  errors ← st_validate candidate;
  _ ← st_require
        (existsb (λ e, bool_decide (err_entity e = Some (RefScene scene) ∧
                                    err_field e = "layers.source" ∧
                                    (err_kind e = SelfReference ∨ err_kind e = Cycle))) errors = false)
        AddSceneLayerError.SourceCycle;
  st_put candidate.

(** The scene of the given identity and a layer of it that exists. *)
Definition find_layer (scene : SceneId) (index : nat) :
    stm Project SceneLayerError.t (nat * Layer) :=
  scene_index ← position_or scene_id scene scenes (SceneLayerError.UnknownScene scene);
  self ← st_get;
  target ← st_expect (scenes self !! scene_index);
  layer ← st_lift (ok_or (SceneLayerError.LayerIndexOutOfRange scene index
                            (length (scene_layers target)))
                     (scene_layers target !! index));
  mret (scene_index, layer).

Definition remove_layer_from_scene (scene : SceneId) (index : nat) :
    stm Project SceneLayerError.t Layer :=
  '(scene_index, layer) ← find_layer scene index;
  _ ← st_modify (alter_scene (λ s, set_layers (delete index (scene_layers s)) s) scene_index);
  mret layer.

(** [layers.remove(source)] and [layers.insert(destination, layer)]. *)
Definition move_element {A} (source destination : nat) (x : A) (l : list A) : list A :=
  let rest := delete source l in
  take destination rest ++ x :: drop destination rest.
Definition move_scene_layer (scene : SceneId) (source_index destination_index : nat) :
    stm Project SceneLayerError.t unit :=
  '(scene_index, layer) ← find_layer scene source_index;
  _ ← find_layer scene destination_index;
  if decide (source_index = destination_index) then mret tt else
  st_modify (alter_scene (λ s,
    set_layers (move_element source_index destination_index layer (scene_layers s)) s) scene_index).

(** The error of appending a copy. *)
Definition layer_error (e : AddSceneLayerError.t) : SceneLayerError.t :=
  match e with
  | AddSceneLayerError.UnknownScene scene => SceneLayerError.UnknownScene scene
  | AddSceneLayerError.EmptyName => SceneLayerError.EmptyName
  | AddSceneLayerError.MissingInput input => SceneLayerError.MissingInput input
  | AddSceneLayerError.MissingScene scene => SceneLayerError.MissingScene scene
  | AddSceneLayerError.SourceCycle => SceneLayerError.SourceCycle
  end.
Definition duplicate_scene_layer (scene : SceneId) (index : nat) (name : string) :
    stm Project SceneLayerError.t unit :=
  '(_, layer) ← find_layer scene index;
  _ ← st_require (str_blank name = false) SceneLayerError.EmptyName;
  st_map_err layer_error (add_layer_to_scene scene (set_layer_name name layer)).
Definition copy_scene_layer (source_scene : SceneId) (index : nat) (target_scene : SceneId)
    (name : string) : stm Project SceneLayerError.t unit :=
  '(_, layer) ← find_layer source_scene index;
  self ← st_get;
  _ ← st_require (has_scene self target_scene = true) (SceneLayerError.UnknownScene target_scene);
  _ ← st_require (source_scene ≠ target_scene) (SceneLayerError.SameScene source_scene);
  _ ← st_require (str_blank name = false) SceneLayerError.EmptyName;
  st_map_err layer_error (add_layer_to_scene target_scene (set_layer_name name layer)).

Definition set_scene_layer_z_order (scene : SceneId) (index : nat) (z_order : Z) :
    stm Project SceneLayerError.t unit :=
  '(scene_index, _) ← find_layer scene index;
  st_modify (alter_layer (set_layer_z z_order) scene_index index).
Definition rename_scene_layer (scene : SceneId) (index : nat) (name : string) :
    stm Project SceneLayerError.t unit :=
  '(scene_index, _) ← find_layer scene index;
  _ ← st_require (str_blank name = false) SceneLayerError.EmptyName;
  st_modify (alter_layer (set_layer_name name) scene_index index).

(** The probe for cycles keeps only the layer in question. *)
Definition set_scene_layer_source (scene : SceneId) (index : nat) (source : SourceRef) :
    stm Project SceneLayerError.t unit :=
  '(scene_index, layer) ← find_layer scene index;
  _ ← check_source SceneLayerError.MissingInput SceneLayerError.MissingScene source;
  self ← st_get;
  errors ← st_validate (alter_scene (set_layers [set_layer_source source layer]) scene_index self);
  _ ← st_require
        (existsb (λ e, bool_decide (err_kind e = Cycle ∧ err_entity e = Some (RefScene scene) ∧
                                    err_field e = "layers.source")) errors = false)
        SceneLayerError.SourceCycle;
  st_modify (alter_layer (set_layer_source source) scene_index index).

Definition set_scene_layer_appearance (scene : SceneId) (index : nat) (enabled : bool)
    (opacity : Z) : stm Project SceneLayerError.t unit :=
  '(scene_index, _) ← find_layer scene index;
  st_modify (alter_layer (λ l,
    mk_layer (layer_name l) (layer_source l) enabled (layer_geometry l) (layer_crop l)
      (layer_mask l) opacity (layer_z_order l)) scene_index index).
Definition set_scene_layer_geometry (scene : SceneId) (index : nat) (geometry : LayerGeometry) :
    stm Project SceneLayerError.t unit :=
  '(scene_index, _) ← find_layer scene index;
  _ ← st_require (geometry_invalid geometry = false) (SceneLayerError.InvalidGeometry scene index);
  st_modify (alter_layer (set_layer_geometry geometry) scene_index index).
Definition set_scene_layer_crop (scene : SceneId) (index : nat) (crop : option CropRect) :
    stm Project SceneLayerError.t unit :=
  '(scene_index, layer) ← find_layer scene index;
  self ← st_get;
  _ ← match crop with
      | None => mret tt
      | Some crop =>
          _ ← st_require (crop_invalid crop (project_width self) (project_height self) = false)
                (SceneLayerError.InvalidCrop scene index);
          match layer_mask layer with
          | None => mret tt
          | Some mask =>
              st_require (mask_invalid mask (Z.of_N (crop_width crop)) (Z.of_N (crop_height crop)) = false)
                (SceneLayerError.CropWouldInvalidateMask scene index)
          end
      end;
  st_modify (alter_layer (set_layer_crop crop) scene_index index).
Definition set_scene_layer_mask (scene : SceneId) (index : nat) (mask : option RectMask) :
    stm Project SceneLayerError.t unit :=
  '(scene_index, layer) ← find_layer scene index;
  self ← st_get;
  _ ← match mask with
      | None => mret tt
      | Some mask =>
          let '(width, height) := source_size self (layer_crop layer) in
          st_require (mask_invalid mask width height = false) (SceneLayerError.InvalidMask scene index)
      end;
  st_modify (alter_layer (set_layer_mask mask) scene_index index).

(** ** Audio buses *)

Definition add_audio_bus_checked (bus : AudioBus) : stm Project AddAudioBusError.t unit :=
  self ← st_get;
  _ ← st_require (has_bus self (bus_id bus) = false) (AddAudioBusError.DuplicateId (bus_id bus));
  _ ← st_require (str_blank (bus_name bus) = false) AddAudioBusError.EmptyName;
  _ ← st_require (existsb (λ x, eq_ignore_ascii_case (bus_name x) (bus_name bus)) (audio_buses self)
                  = false) AddAudioBusError.DuplicateName;
  st_modify (λ p, set_buses (audio_buses p ++ [bus]) p).
Definition rename_audio_bus (bus : BusId) (name : string) : stm Project RenameAudioBusError.t unit :=
  index ← position_or bus_id bus audio_buses (RenameAudioBusError.UnknownBus bus);
  _ ← st_require (str_blank name = false) RenameAudioBusError.EmptyName;
  self ← st_get;
  _ ← st_require (other_exists index (λ x, eq_ignore_ascii_case (bus_name x) name) (audio_buses self)
                  = false) RenameAudioBusError.DuplicateName;
  st_modify (alter_bus (set_bus_name name) index).

(** Both buses exist and differ. *)
Definition check_send (source destination : BusId) : stm Project AudioBusSendError nat :=
  index ← position_or bus_id source audio_buses (UnknownSource source);
  self ← st_get;
  _ ← st_require (has_bus self destination = true) (UnknownDestination destination);
  _ ← st_require (source ≠ destination) (SelfSend source);
  mret index.
Definition add_audio_bus_send (source destination : BusId) : stm Project AudioBusSendError unit :=
  index ← check_send source destination;
  self ← st_get;
  bus ← st_expect (audio_buses self !! index);
  _ ← st_require (destination ∉ bus_sends bus) DuplicateSend;
  errors ← st_validate self;
  _ ← st_require (errors = []) (SendInvalidProject errors);
  _ ← st_modify (alter_bus (λ b, set_sends (bus_sends b ++ [destination]) b) index);
  changed ← st_get;
  errors ← st_validate changed;
  if decide (errors = []) then mret tt else
  _ ← st_modify (alter_bus (λ b, set_sends (removelast (bus_sends b)) b) index);
  if existsb (λ e, bool_decide (err_kind e = Cycle)) errors then mthrow SendCycle
  else mthrow (SendInvalidProject errors).
Definition remove_audio_bus_send (source destination : BusId) : stm Project AudioBusSendError unit :=
  index ← check_send source destination;
  self ← st_get;
  bus ← st_expect (audio_buses self !! index);
  '(send_index, _) ← st_lift (ok_or MissingSend (list_find (λ d, d = destination) (bus_sends bus)));
  st_modify (alter_bus (λ b, set_sends (delete send_index (bus_sends b)) b) index).

Definition remove_audio_bus (bus : BusId) : stm Project RemoveAudioBusError unit :=
  self ← st_get;
  _ ← st_require (has_bus self bus = true) (RemoveUnknownBus bus);
  _ ← match list_find (λ output, out_audio_source output = bus) (outputs self) with
      | Some (_, output) => mthrow (BusOutputReference bus (out_id output))
      | None => mret tt
      end;
  _ ← match list_find (λ candidate, bus_id candidate = bus) (audio_buses self) with
      | Some (_, candidate) =>
          match bus_sends candidate with
          | destination :: _ => mthrow (OutgoingSend bus destination)
          | [] => mret tt
          end
      | None => mret tt
      end;
  _ ← match list_find (λ candidate, bus_id candidate ≠ bus ∧ bus ∈ bus_sends candidate)
              (audio_buses self) with
      | Some (_, source) => mthrow (IncomingSend bus (bus_id source))
      | None => mret tt
      end;
  st_modify (λ p, set_buses (filter (λ x, bus_id x ≠ bus) (audio_buses p)) p).

(** ** Outputs and streaming destinations *)

Definition add_output_checked (output : Output) : stm Project AddOutputError.t unit :=
  self ← st_get;
  _ ← st_require (has_output self (out_id output) = false) (AddOutputError.DuplicateId (out_id output));
  _ ← st_require (str_blank (out_name output) = false) AddOutputError.EmptyName;
  _ ← st_require (existsb (λ x, eq_ignore_ascii_case (out_name x) (out_name output)) (outputs self)
                  = false) AddOutputError.DuplicateName;
  _ ← st_require (has_scene self (out_video_source output) = true)
        (AddOutputError.UnknownScene (out_video_source output));
  _ ← st_require (has_bus self (out_audio_source output) = true)
        (AddOutputError.UnknownBus (out_audio_source output));
  st_modify (λ p, set_outputs (outputs p ++ [output]) p).
Definition set_output_route (output : OutputId) (scene : SceneId) (bus : BusId) :
    stm Project SetOutputRouteError.t unit :=
  index ← position_or out_id output outputs (SetOutputRouteError.UnknownOutput output);
  self ← st_get;
  _ ← st_require (has_scene self scene = true) (SetOutputRouteError.UnknownScene scene);
  _ ← st_require (has_bus self bus = true) (SetOutputRouteError.UnknownBus bus);
  st_modify (alter_output (λ x,
    mk_output (out_id x) (out_name x) scene bus (out_startup x) (out_required_capabilities x)) index).
Definition set_output_startup (output : OutputId) (startup : StartupPolicy) :
    stm Project SetOutputStartupError unit :=
  index ← position_or out_id output outputs (StartupUnknownOutput output);
  st_modify (alter_output (set_startup startup) index).
Definition rename_output (output : OutputId) (name : string) : stm Project RenameOutputError.t unit :=
  index ← position_or out_id output outputs (RenameOutputError.UnknownOutput output);
  _ ← st_require (str_blank name = false) RenameOutputError.EmptyName;
  self ← st_get;
  _ ← st_require (other_exists index (λ x, eq_ignore_ascii_case (out_name x) name) (outputs self)
                  = false) RenameOutputError.DuplicateName;
  st_modify (alter_output (set_out_name name) index).
Definition remove_output (output : OutputId) : stm Project RemoveOutputError unit :=
  self ← st_get;
  _ ← st_require (has_output self output = true) (RemoveUnknownOutput output);
  _ ← match list_find (λ target, tg_output target = output) (stream_targets self) with
      | Some (_, target) => mthrow (StreamTargetReference output (tg_id target))
      | None => mret tt
      end;
  st_modify (λ p, set_outputs (filter (λ x, out_id x ≠ output) (outputs p)) p).

Definition add_stream_target_checked (target : StreamTarget) :
    stm Project AddStreamTargetError.t unit :=
  self ← st_get;
  _ ← st_require (has_target self (tg_id target) = false)
        (AddStreamTargetError.DuplicateId (tg_id target));
  _ ← st_require (existsb (λ x, eq_ignore_ascii_case (tg_name x) (tg_name target))
                    (stream_targets self) = false) AddStreamTargetError.DuplicateName;
  _ ← st_require (has_output self (tg_output target) = true)
        (AddStreamTargetError.UnknownOutput (tg_output target));
  st_modify (λ p, set_targets (stream_targets p ++ [target]) p).
Definition replace_stream_target (target : StreamTarget) :
    stm Project UpdateStreamTargetError.t unit :=
  index ← position_or tg_id (tg_id target) stream_targets
            (UpdateStreamTargetError.UnknownStreamTarget (tg_id target));
  self ← st_get;
  _ ← st_require (other_exists index (λ x, eq_ignore_ascii_case (tg_name x) (tg_name target))
                    (stream_targets self) = false) UpdateStreamTargetError.DuplicateName;
  _ ← st_require (has_output self (tg_output target) = true)
        (UpdateStreamTargetError.UnknownOutput (tg_output target));
  st_modify (λ p, set_targets (<[index := target]> (stream_targets p)) p).
Definition remove_stream_target (target : StreamTargetId) :
    stm Project RemoveStreamTargetError unit :=
  self ← st_get;
  _ ← st_require (has_target self target = true) (RemoveUnknownTarget target);
  st_modify (λ p, set_targets (filter (λ x, tg_id x ≠ target) (stream_targets p)) p).

(** ** Stingers *)

Definition set_stinger (stinger : StingerConfig) (self : Project) : Project :=
  match position slot (slot stinger) (stingers self) with
  | Some index => set_stingers (<[index := stinger]> (stingers self)) self
  | None => set_stingers (stingers self ++ [stinger]) self
  end.
Definition set_stinger_checked (stinger : StingerConfig) : stm Project SetStingerError unit :=
  self ← st_get;
  _ ← st_require (has_input self (media_input stinger) = true)
        (StingerUnknownInput (media_input stinger));
  st_modify (set_stinger stinger).
Definition remove_stinger {E} (number : Z) : stm Project E (option StingerConfig) :=
  self ← st_get;
  match list_find (λ configured, slot configured = number) (stingers self) with
  | None => mret None
  | Some (index, configured) =>
      _ ← st_modify (set_stingers (delete index (stingers self)));
      mret (Some configured)
  end.

(** ** The audio source of a scene input *)

Definition set_scene_input_audio_source (scene_input : InputId) (audio_source : option InputId) :
    stm Project SceneInputAudioSourceError unit :=
  index ← position_or in_id scene_input inputs (MissingTargetInput scene_input);
  self ← st_get;
  target ← st_expect (inputs self !! index);
  match in_kind target with
  | KindScene scene _ =>
      _ ← match audio_source with
          | Some source => st_require (has_input self source = true) (MissingSourceInput source)
          | None => mret tt
          end;
      let candidate := alter_input (set_in_kind (KindScene scene audio_source)) index self in
      errors ← st_validate candidate;
      _ ← st_require
            (existsb (λ e, bool_decide (err_entity e = Some (RefInput scene_input) ∧
                                        err_field e = "kind.scene.audio_source" ∧
                                        (err_kind e = SelfReference ∨ err_kind e = Cycle))) errors
             = false) AudioSourceCycle;
      st_put candidate
  | _ => mthrow (NonSceneTargetInput scene_input)
  end.
