(* ===== verification/ProjectLaws.v ===== *)
(** Validation is exact: a project has no validation error exactly when it is
    well-formed ([project_valid]), and the errors of kind [Cycle] name exactly the entities
    that reach themselves.

    Every edit of a project keeps it valid: the calculus of changes.  [kept] says which
    references of a project survive a change; the lemmas [valid_inputs], [valid_scenes] and
    so on rebuild [project_valid] after the change of one list. *)
From S2P Require Import Prelude Text Types ProjectModel Validation ProjectEdits.
#[local] Open Scope Z_scope.

(** ** Well-formed projects *)

Definition name_ok (s : string) : Prop := str_blank s = false.
(** A rectangle that is not empty and lies within [width] by [height]. *)
Definition rect_ok (x y w h : N) (width height : Z) : Prop :=
  (w ≠ 0 ∧ h ≠ 0)%N ∧ in_ty U32 (Z.of_N (x + w)) ∧ Z.of_N (x + w) ≤ width ∧
  in_ty U32 (Z.of_N (y + h)) ∧ Z.of_N (y + h) ≤ height.
Definition geometry_ok (g : LayerGeometry) : Prop :=
  geo_width g ≠ 0 ∧ geo_height g ≠ 0 ∧ geo_width g ≤ MAX_VIDEO_WIDTH ∧
  geo_height g ≤ MAX_VIDEO_HEIGHT.
Definition crop_ok (crop : CropRect) (width height : Z) : Prop :=
  rect_ok (crop_x crop) (crop_y crop) (crop_width crop) (crop_height crop) width height.
Definition mask_ok (mask : RectMask) (width height : Z) : Prop :=
  rect_ok (mask_x mask) (mask_y mask) (mask_width mask) (mask_height mask) width height.

Definition input_ids (p : Project) : list InputId := in_id <$> inputs p.
Definition scene_ids (p : Project) : list SceneId := scene_id <$> scenes p.
Definition bus_ids (p : Project) : list BusId := bus_id <$> audio_buses p.
Definition output_ids (p : Project) : list OutputId := out_id <$> outputs p.

Definition source_ok (p : Project) (scene : SceneId) (source : SourceRef) : Prop :=
  match source with
  | SourceInput input => input ∈ input_ids p
  | SourceScene other => other ≠ scene ∧ other ∈ scene_ids p
  end.
Record layer_ok (p : Project) (scene : SceneId) (l : Layer) : Prop := {
  lo_name : name_ok (layer_name l);
  lo_geometry : geometry_ok (layer_geometry l);
  lo_crop : ∀ crop, layer_crop l = Some crop → crop_ok crop (project_width p) (project_height p);
  lo_mask : ∀ mask, layer_mask l = Some mask →
    mask_ok mask (source_size p (layer_crop l)).1 (source_size p (layer_crop l)).2;
  lo_source : source_ok p scene (layer_source l)
}.
Record scene_ok (p : Project) (s : Scene) : Prop := {
  so_name : name_ok (scene_name s);
  so_background : is_premultiplied (scene_background s) = true;
  so_layers : Forall (layer_ok p (scene_id s)) (scene_layers s)
}.
Definition kind_ok (p : Project) (input : InputId) (kind : InputKind) : Prop :=
  match kind with
  | KindColor => True
  | KindMedia text | KindDevice text | KindNetwork text => name_ok text
  | KindScene scene audio =>
      scene ∈ scene_ids p ∧ ∀ source, audio = Some source → source ≠ input ∧ source ∈ input_ids p
  | KindSimulated simulated =>
      match sim_audio simulated with
      | Silence => True
      | Sine hz => MIN_SINE_FREQUENCY_HZ ≤ hz ≤ MAX_SINE_FREQUENCY_HZ ∧
                   hz ≤ sample_rate (ps_audio (settings p)) `quot` 2
      end
  end.
Record input_ok (p : Project) (i : Input) : Prop := {
  io_name : name_ok (in_name i);
  io_length : (str_len (in_name i) ≤ MAX_INPUT_NAME_BYTES)%nat;
  io_kind : kind_ok p (in_id i) (in_kind i);
  io_capabilities : Forall (λ key, capability_key_valid key = true) (in_required_capabilities i)
}.
Record bus_ok (p : Project) (b : AudioBus) : Prop := {
  bo_name : name_ok (bus_name b);
  bo_self : bus_id b ∉ bus_sends b;
  bo_exist : bus_sends b ⊆ bus_ids p;
  bo_once : NoDup (bus_sends b)
}.
Record output_ok (p : Project) (o : Output) : Prop := {
  oo_name : name_ok (out_name o);
  oo_video : out_video_source o ∈ scene_ids p;
  oo_audio : out_audio_source o ∈ bus_ids p;
  oo_capabilities : Forall (λ key, capability_key_valid key = true) (out_required_capabilities o)
}.
Record target_ok (p : Project) (t : StreamTarget) : Prop := {
  to_name : name_ok (tg_name t);
  to_length : (str_len (tg_name t) ≤ MAX_STREAM_TARGET_NAME_BYTES)%nat;
  to_output : tg_output t ∈ output_ids p
}.
Record settings_ok (s : ProjectSettings) : Prop := {
  se_rate : MIN_FRAME_RATE_FPS * denominator (ps_frame_rate s) ≤ numerator (ps_frame_rate s) ≤
            MAX_FRAME_RATE_FPS * denominator (ps_frame_rate s);
  se_video_rate : vf_frame_rate (ps_video s) = ps_frame_rate s;
  se_dimensions : width (vf_dimensions (ps_video s)) ≤ MAX_VIDEO_WIDTH ∧
                  height (vf_dimensions (ps_video s)) ≤ MAX_VIDEO_HEIGHT;
  se_sample_rate : MIN_AUDIO_SAMPLE_RATE_HZ ≤ sample_rate (ps_audio s) ≤ MAX_AUDIO_SAMPLE_RATE_HZ;
  se_channels : (length (channels (ps_audio s)) ≤ MAX_AUDIO_CHANNELS)%nat;
  se_channels_once : NoDup (channels (ps_audio s))
}.
Definition restart_ok (r : RestartPolicy) : Prop :=
  match r with
  | OnFailure max_attempts => 1 ≤ max_attempts ≤ MAX_RESTART_ATTEMPTS
  | Never | Always => True
  end.
Definition mix_ok (p : Project) (mix : MainMix) : Prop :=
  desired_program mix ∈ input_ids p ∧ desired_preview mix ∈ input_ids p ∧
  desired_program mix ≠ desired_preview mix.

(** What a source shows, and the relations that must have no cycle. *)
Definition source_shows (p : Project) (source : SourceRef) (b : SceneId) : Prop :=
  source = SourceScene b ∨
  ∃ i audio, i ∈ inputs p ∧ source = SourceInput (in_id i) ∧ in_kind i = KindScene b audio.
Definition layer_shows (p : Project) (l : Layer) (b : SceneId) : Prop :=
  source_shows p (layer_source l) b.
Definition scene_shows (p : Project) (a b : SceneId) : Prop :=
  ∃ s l, s ∈ scenes p ∧ scene_id s = a ∧ l ∈ scene_layers s ∧ layer_shows p l b.
Definition audio_follows (p : Project) (a b : InputId) : Prop :=
  ∃ i scene, i ∈ inputs p ∧ in_id i = a ∧ in_kind i = KindScene scene (Some b).
Definition bus_feeds (p : Project) (a b : BusId) : Prop :=
  ∃ bus, bus ∈ audio_buses p ∧ bus_id bus = a ∧ b ∈ bus_sends bus.

(** Identities and names are used once. *)
Record names_unique (p : Project) : Prop := {
  nu_input_ids : NoDup (input_ids p);
  nu_input_names : NoDup (in_name <$> inputs p);
  nu_scene_ids : NoDup (scene_ids p);
  nu_scene_names : NoDup (to_ascii_lowercase ∘ scene_name <$> scenes p);
  nu_bus_ids : NoDup (bus_ids p);
  nu_bus_names : NoDup (to_ascii_lowercase ∘ bus_name <$> audio_buses p);
  nu_output_ids : NoDup (output_ids p);
  nu_output_names : NoDup (to_ascii_lowercase ∘ out_name <$> outputs p);
  nu_target_ids : NoDup (tg_id <$> stream_targets p);
  nu_target_names : NoDup (to_ascii_lowercase ∘ tg_name <$> stream_targets p)
}.
Record shape_valid (p : Project) : Prop := {
  pv_name : name_ok (project_name p);
  pv_settings : settings_ok (settings p);
  pv_restart : restart_ok (restart_policy p);
  pv_unique : names_unique p;
  pv_inputs : Forall (input_ok p) (inputs p);
  (* every input has its one strip *)
  pv_strips : strip_input <$> input_audio_strips p ≡ₚ input_ids p;
  pv_mix : ∀ mix, main_mix p = Some mix → mix_ok p mix;
  pv_slots : NoDup (slot <$> stingers p);
  pv_media : Forall (λ s, media_input s ∈ input_ids p) (stingers p);
  pv_scenes : Forall (scene_ok p) (scenes p);
  pv_buses : Forall (bus_ok p) (audio_buses p);
  pv_outputs : Forall (output_ok p) (outputs p);
  pv_targets : Forall (target_ok p) (stream_targets p)
}.
Record project_valid (p : Project) : Prop := {
  pv_shape : shape_valid p;
  pv_scene_acyclic : acyclic (scene_shows p);
  pv_audio_acyclic : acyclic (audio_follows p);
  pv_bus_acyclic : acyclic (bus_feeds p)
}.

(** ** The parts of the report *)

Lemma report_nil b e : report b e = [] ↔ b = false.
Proof. by destruct b. Qed.
Lemma bind_nil_Forall {A B} (f : A → list B) l : l ≫= f = [] ↔ Forall (λ x, f x = []) l.
Proof.
  induction l as [|x l IH]; [done|]. rewrite bind_cons, Forall_cons, <-IH. apply app_nil.
Qed.
Lemma existsb_id {A} (ident : A → Z) (k : Z) (l : list A) :
  existsb (λ x, bool_decide (ident x = k)) l = true ↔ k ∈ ident <$> l.
Proof.
  rewrite existsb_exists, list_elem_of_fmap. setoid_rewrite bool_decide_eq_true.
  setoid_rewrite <-list_elem_of_In. naive_solver.
Qed.
Lemma existsb_id_false {A} (ident : A → Z) (k : Z) (l : list A) :
  existsb (λ x, bool_decide (ident x = k)) l = false ↔ k ∉ ident <$> l.
Proof. rewrite <-not_true_iff_false. by rewrite existsb_id. Qed.

Lemma has_input_spec p i : has_input p i = true ↔ i ∈ input_ids p.
Proof. apply (existsb_id in_id). Qed.
Lemma has_scene_spec p i : has_scene p i = true ↔ i ∈ scene_ids p.
Proof. apply (existsb_id scene_id). Qed.
Lemma has_bus_spec p i : has_bus p i = true ↔ i ∈ bus_ids p.
Proof. apply (existsb_id bus_id). Qed.
Lemma has_output_spec p i : has_output p i = true ↔ i ∈ output_ids p.
Proof. apply (existsb_id out_id). Qed.
Lemma has_target_spec p i : has_target p i = true ↔ i ∈ tg_id <$> stream_targets p.
Proof. apply (existsb_id tg_id). Qed.
Create Rewrite HintDb project.
#[export] Hint Rewrite has_input_spec has_scene_spec has_bus_spec has_output_spec has_target_spec
  negb_false_iff negb_true_iff report_nil @bind_nil_Forall bool_decide_eq_false bool_decide_eq_true
  : project.

(** Reading a report: every test that must be false, as a proposition. *)
Ltac read_report := repeat (rewrite ?app_nil || (progress autorewrite with project)).

Lemma rect_invalid_spec x y w h width height :
  rect_invalid x y w h width height = false ↔ rect_ok x y w h width height.
Proof.
  unfold rect_invalid, rect_ok. rewrite !orb_false_iff, !bool_decide_eq_false.
  assert (∀ o s l, exceeds o s l = false ↔ in_ty U32 (Z.of_N (o + s)) ∧ Z.of_N (o + s) ≤ l) as He.
  { intros o s l. unfold exceeds, checked. rewrite <-N2Z.inj_add. case_decide; [|naive_solver].
    rewrite bool_decide_eq_false. naive_solver lia. }
  rewrite !He. naive_solver.
Qed.
Lemma geometry_invalid_spec g : geometry_invalid g = false ↔ geometry_ok g.
Proof.
  unfold geometry_invalid, geometry_ok. rewrite !orb_false_iff, !bool_decide_eq_false. lia.
Qed.

Lemma validate_layer_nil p scene l : validate_layer p scene l = [] ↔ layer_ok p scene l.
Proof.
  unfold validate_layer, require_name. destruct (source_size p (layer_crop l)) as [w h] eqn:Hs.
  rewrite !app_nil, !report_nil, geometry_invalid_spec.
  assert ((match layer_crop l with
           | Some crop => crop_invalid crop (project_width p) (project_height p)
           | None => false
           end = false) ↔
          ∀ crop, layer_crop l = Some crop → crop_ok crop (project_width p) (project_height p)) as ->.
  { destruct (layer_crop l); [|done]. unfold crop_invalid. rewrite rect_invalid_spec. naive_solver. }
  assert ((match layer_mask l with Some mask => mask_invalid mask w h | None => false end = false) ↔
          ∀ mask, layer_mask l = Some mask → mask_ok mask w h) as ->.
  { destruct (layer_mask l); [|done]. unfold mask_invalid. rewrite rect_invalid_spec. naive_solver. }
  assert ((match layer_source l with
           | SourceInput id => report (negb (has_input p id)) (mk_error (Some (RefScene scene))
               "layers.source" (MissingReference (RefInput id)))
           | SourceScene id => if decide (id = scene) then [mk_error (Some (RefScene scene))
               "layers.source" SelfReference]
             else report (negb (has_scene p id)) (mk_error (Some (RefScene scene)) "layers.source"
               (MissingReference (RefScene id)))
           end = []) ↔ source_ok p scene (layer_source l)) as ->.
  { destruct (layer_source l) as [id|id]; simpl; [by read_report|].
    case_decide; [naive_solver|]. read_report. naive_solver. }
  split.
  - intros (? & ? & ? & ? & ?). split; [done..| |done]. by rewrite Hs.
  - intros [? ? ? Hm ?]. rewrite Hs in Hm. done.
Qed.
Lemma validate_scene_nil p s : validate_scene p s = [] ↔ scene_ok p s.
Proof.
  unfold validate_scene, require_name. read_report. setoid_rewrite validate_layer_nil.
  split; [by intros (? & ? & ?)|by intros []].
Qed.

Lemma capability_keys_nil entity keys :
  validate_capabilities entity keys = [] ↔ Forall (λ key, capability_key_valid key = true) keys.
Proof.
  unfold validate_capabilities. rewrite bind_nil_Forall. apply Forall_proper; [|done].
  intros key. by read_report.
Qed.
Lemma validate_kind_nil p entity i :
  validate_kind p entity i = [] ↔ kind_ok p (in_id i) (in_kind i).
Proof.
  unfold validate_kind, require_name, kind_ok. destruct (in_kind i) as [| | | |s audio|s].
  - done.
  - by read_report.
  - by read_report.
  - by read_report.
  - read_report. destruct audio as [source|]; [|naive_solver].
    case_decide; [naive_solver|]. read_report. naive_solver.
  - destruct (sim_audio s); [done|]. read_report. lia.
Qed.
Lemma validate_input_nil p i : validate_input p i = [] ↔ input_ok p i.
Proof.
  unfold validate_input, require_name.
  rewrite !app_nil, validate_kind_nil, capability_keys_nil. read_report.
  split; [intros (? & ? & ? & ?); split; [done|lia|done..]|intros [? ? ? ?]; split_and!; [done|lia|done..]].
Qed.
Lemma validate_output_nil p o : validate_output p o = [] ↔ output_ok p o.
Proof.
  unfold validate_output, require_name. rewrite !app_nil, capability_keys_nil. read_report.
  split; [by intros (? & ? & ? & ?)|by intros []].
Qed.
Lemma validate_target_nil p t : validate_target p t = [] ↔ target_ok p t.
Proof.
  unfold validate_target, require_name. read_report.
  split; [intros (? & ? & ?); split; [done|lia|done]|intros [? ? ?]; split_and!; [done|lia|done]].
Qed.

(** The loops that look at the elements before the current one. *)
Lemma NoDup_snoc_iff {A} (x : A) (l k : list A) :
  NoDup l → NoDup (l ++ x :: k) ↔ (x ∉ l) ∧ NoDup ((l ++ [x]) ++ k).
Proof.
  intros Hl. rewrite <-(assoc_L (++)). simpl. split; [|naive_solver]. intros Hn. split; [|done].
  apply NoDup_app in Hn as (_ & Hn & _). intros Hx. by apply (Hn x Hx); left.
Qed.
Lemma NoDup_snoc_1 {A} (x : A) (l : list A) : NoDup l → x ∉ l → NoDup (l ++ [x]).
Proof.
  intros Hl Hx. apply NoDup_app. split_and!; [done| |apply NoDup_singleton].
  by intros y Hy ->%list_elem_of_singleton.
Qed.
Lemma sends_after_nil p bus prior l :
  NoDup prior →
  validate_sends_after p bus prior l = [] ↔
  (bus ∉ l) ∧ l ⊆ bus_ids p ∧ NoDup (prior ++ l).
Proof.
  revert prior. induction l as [|d l IH]; intros prior Hp; cbn [validate_sends_after].
  { rewrite app_nil_r. set_solver. }
  rewrite app_nil. rewrite (NoDup_snoc_iff d prior l Hp), not_elem_of_cons.
  case_decide as Hd; [naive_solver|].
  destruct (has_bus p d) eqn:Hb; simpl.
  - apply has_bus_spec in Hb. rewrite report_nil, (existsb_id_false id), list_fmap_id.
    split.
    + intros [Hn Hl]. apply IH in Hl as (? & ? & ?); [|by apply NoDup_snoc_1].
      split_and!; [done..| |done|done]. set_solver.
    + intros ([? ?] & Hsub & ? & ?). split; [done|]. apply IH; [by apply NoDup_snoc_1|].
      set_solver.
  - split; [by intros [? _]|]. intros (_ & Hsub & _). rewrite <-not_true_iff_false, has_bus_spec in Hb.
    destruct Hb. apply Hsub. by left.
Qed.
Lemma validate_buses_nil p : validate_buses p = [] ↔ Forall (bus_ok p) (audio_buses p).
Proof.
  unfold validate_buses. rewrite bind_nil_Forall. apply Forall_proper; [|done]. intros b.
  unfold require_name. rewrite app_nil, report_nil, sends_after_nil by constructor. simpl.
  split; [by intros (? & ? & ? & ?)|by intros []].
Qed.

Lemma stingers_after_nil p prior l :
  NoDup prior →
  validate_stingers_after p prior l = [] ↔
  NoDup (prior ++ (slot <$> l)) ∧ Forall (λ s, media_input s ∈ input_ids p) l.
Proof.
  revert prior. induction l as [|s l IH]; intros prior Hp; cbn [validate_stingers_after].
  { rewrite app_nil_r. naive_solver. }
  rewrite !app_nil, fmap_cons, NoDup_snoc_iff, Forall_cons by done.
  rewrite report_nil, (existsb_id_false id), list_fmap_id. read_report.
  split.
  - intros (? & ? & Hl). apply IH in Hl; [|by apply NoDup_snoc_1]. naive_solver.
  - intros ([? ?] & ? & ?). split_and!; [done..|]. apply IH; [by apply NoDup_snoc_1|done].
Qed.
Lemma validate_stingers_nil p :
  validate_stingers p = [] ↔
  NoDup (slot <$> stingers p) ∧ Forall (λ s, media_input s ∈ input_ids p) (stingers p).
Proof. apply (stingers_after_nil p []). constructor. Qed.

(** Names are compared as [key] makes them; blank names are reported elsewhere. *)
Definition name_key (case_sensitive : bool) (s : string) : string :=
  if case_sensitive then s else to_ascii_lowercase s.
Lemma duplicates_after_nil sensitive prior items :
  NoDup (prior.*1.*1) → NoDup (name_key sensitive <$> prior.*1.*2) →
  Forall (λ x, name_ok x.1.2) items →
  duplicates_after sensitive prior items = [] ↔
  NoDup ((prior ++ items).*1.*1) ∧ NoDup (name_key sensitive <$> (prior ++ items).*1.*2).
Proof.
  revert prior. induction items as [|[[i n] e] items IH]; intros prior Hi Hn Hok;
    cbn [duplicates_after].
  { rewrite app_nil_r. naive_solver. }
  apply Forall_cons in Hok as [Hname Hok]. simpl in Hname. unfold name_ok in Hname.
  rewrite !app_nil, !report_nil, Hname. simpl.
  assert (existsb (λ p : Z * string * EntityRef, bool_decide (p.1.1 = i)) prior = false ↔
          i ∉ prior.*1.*1) as ->.
  { rewrite (existsb_id_false (λ p : Z * string * EntityRef, p.1.1)), <-list_fmap_compose. done. }
  assert (existsb (λ p : Z * string * EntityRef, if sensitive then bool_decide (p.1.2 = n)
                   else eq_ignore_ascii_case p.1.2 n) prior = false ↔
          name_key sensitive n ∉ name_key sensitive <$> prior.*1.*2) as ->.
  { rewrite <-not_true_iff_false, existsb_exists, <-!list_fmap_compose, list_elem_of_fmap.
    setoid_rewrite <-list_elem_of_In. unfold eq_ignore_ascii_case, name_key. simpl.
    destruct sensitive; setoid_rewrite bool_decide_eq_true; naive_solver. }
  rewrite !fmap_app, !fmap_cons, !(NoDup_snoc_iff _ _ _ Hi), !(NoDup_snoc_iff _ _ _ Hn).
  split.
  - intros (? & ? & Hl). apply IH in Hl; [|rewrite !fmap_app; by apply NoDup_snoc_1..|done].
    rewrite !fmap_app in Hl. naive_solver.
  - intros ([? ?] & ? & ?). split_and!; [done..|].
    apply IH; [rewrite !fmap_app; by apply NoDup_snoc_1..|done|]. rewrite !fmap_app. done.
Qed.
Lemma duplicates_nil {A} (ident : A → Z) (name : A → string) (ref : A → EntityRef) sensitive l :
  Forall (λ x, name_ok (name x)) l →
  duplicates ((λ x, (ident x, name x, ref x)) <$> l) sensitive = [] ↔
  NoDup (ident <$> l) ∧ NoDup (name_key sensitive ∘ name <$> l).
Proof.
  intros Hl. unfold duplicates. rewrite duplicates_after_nil; [|constructor..|by apply Forall_fmap].
  rewrite app_nil_l, <-!list_fmap_compose. done.
Qed.

(** ** Settings, strips and the main mix *)

Lemma repeats_spec {A} `{EqDecision A} (l : list A) : repeats l = false ↔ NoDup l.
Proof.
  unfold repeats. rewrite bool_decide_eq_false.
  rewrite <-(first_repeat_None [] l) by constructor. split; [by apply dec_stable|naive_solver].
Qed.
Lemma validate_settings_nil p :
  validate_settings p = [] ↔ settings_ok (settings p) ∧ restart_ok (restart_policy p).
Proof.
  unfold validate_settings. rewrite !app_nil, !report_nil, repeats_spec, !bool_decide_eq_false.
  assert (match restart_policy p with
          | OnFailure n => report (negb (bool_decide (1 ≤ n ≤ MAX_RESTART_ATTEMPTS)))
              (mk_error None "restart_policy.max_attempts" OutOfRange)
          | Never | Always => []
          end = [] ↔ restart_ok (restart_policy p)) as ->.
  { destruct (restart_policy p); [done| |done]. by read_report. }
  rewrite negb_false_iff, bool_decide_eq_true. split.
  - intros (? & ? & ? & ? & ? & ? & ?). split; [|done]. split; [lia|by apply dec_stable|lia|lia|lia|done].
  - intros [[? ? ? ? ? ?] ?]. split_and!; first [done|lia|naive_solver].
Qed.

Lemma filter_length_one {A} `{EqDecision A} (k : A) (l : list A) :
  length (filter (λ x, x = k) l) = 1%nat → l ≡ₚ k :: filter (λ x, x ≠ k) l.
Proof.
  intros Hl. rewrite <-(filter_app_complement (λ x, x = k) l) at 1.
  destruct (filter (λ x, x = k) l) as [|x [|y r]] eqn:Hf; simplify_eq/=.
  assert (x ∈ filter (λ x, x = k) l) as Hx by (rewrite Hf; by left).
  by apply list_elem_of_filter in Hx as [-> _].
Qed.
Lemma filter_count_fmap {A} (ident : A → Z) k (l : list A) :
  length (filter (λ x, ident x = k) l) = length (filter (λ x, x = k) (ident <$> l)).
Proof. induction l as [|x l IH]; [done|]. rewrite fmap_cons, !filter_cons. repeat case_decide; simpl; lia. Qed.
(** Each of [ids] once in [l], and nothing else: the same elements. *)
Lemma counts_Permutation {A} `{EqDecision A} (ids l : list A) :
  NoDup ids →
  (∀ k, k ∈ ids → length (filter (λ x, x = k) l) = 1%nat) ∧ l ⊆ ids ↔ l ≡ₚ ids.
Proof.
  intros Hids. split.
  - revert l. induction ids as [|k ids IH]; intros l [Hone Hsub].
    { destruct l as [|x l]; [done|]. by destruct (not_elem_of_nil x); apply Hsub; left. }
    assert (l ≡ₚ k :: filter (λ x, x ≠ k) l) as Hl by (apply filter_length_one, Hone; by left).
    rewrite Hl. apply NoDup_cons in Hids as [Hk Hids]. f_equiv. apply IH; [done|]. split.
    + intros j Hj. rewrite <-(Hone j) by (by right). rewrite list_filter_filter. f_equal.
      apply list_filter_iff. naive_solver.
    + intros x [Hxk Hx]%list_elem_of_filter. apply Hsub, elem_of_cons in Hx. naive_solver.
  - intros Hl. split; [|by rewrite Hl]. intros k Hk. rewrite Hl.
    clear Hl. induction Hids as [|x ids Hx Hids IH]; [by apply elem_of_nil in Hk|].
    rewrite filter_cons. case_decide as Hxk; subst.
    + simpl. rewrite filter_none; [done|]. by intros y Hy ->.
    + apply IH. by apply elem_of_cons in Hk as [->|].
Qed.
Lemma validate_strips_nil p :
  NoDup (input_ids p) →
  validate_input_audio_strips p = [] ↔ strip_input <$> input_audio_strips p ≡ₚ input_ids p.
Proof.
  intros Hids. rewrite <-counts_Permutation by done. unfold validate_input_audio_strips.
  rewrite app_nil, !bind_nil_Forall, !Forall_forall. f_equiv.
  - split; intros H.
    + intros k (i & -> & Hi)%list_elem_of_fmap. specialize (H i Hi). rewrite filter_count_fmap in H.
      apply report_nil, bool_decide_eq_false in H. lia.
    + intros i Hi. apply report_nil, bool_decide_eq_false. rewrite filter_count_fmap, H; [lia|].
      by apply list_elem_of_fmap_2.
  - split; intros H.
    + intros k (s & -> & Hs)%list_elem_of_fmap. specialize (H s Hs). by autorewrite with project in H.
    + intros s Hs. autorewrite with project. apply H. by apply list_elem_of_fmap_2.
Qed.
Lemma validate_main_mix_nil p :
  validate_main_mix p = [] ↔ ∀ mix, main_mix p = Some mix → mix_ok p mix.
Proof.
  unfold validate_main_mix, mix_ok. destruct (main_mix p) as [mix|]; [|done]. read_report.
  naive_solver.
Qed.

(** ** The relations that the searches follow *)

Lemma find_ident {A} (ident : A → Z) (k : Z) (l : list A) i x :
  list_find (λ x, ident x = k) l = Some (i, x) → x ∈ l ∧ ident x = k ∧ l !! i = Some x.
Proof. intros (Hi & Hx & _)%list_find_Some. split_and!; [by eapply list_elem_of_lookup_2|done..]. Qed.
Lemma find_unique {A} (ident : A → Z) (l : list A) x :
  NoDup (ident <$> l) → x ∈ l → ∃ i, list_find (λ y, ident y = ident x) l = Some (i, x).
Proof.
  intros Hnd Hx. destruct (list_find_elem_of (λ y, ident y = ident x) l x Hx eq_refl) as [[i y] Hf].
  exists i. rewrite Hf. apply list_elem_of_lookup in Hx as [j Hj].
  apply list_find_Some in Hf as (Hi & Hy & _).
  assert (i = j) as ->; [|by rewrite Hi in Hj; simplify_eq].
  apply (NoDup_lookup _ i j (ident x) Hnd); rewrite list_lookup_fmap; by rewrite ?Hi, ?Hj; simpl; rewrite ?Hy.
Qed.
Lemma find_none {A} (ident : A → Z) (k : Z) (l : list A) :
  (k ∉ ident <$> l) → list_find (λ x, ident x = k) l = None.
Proof. intros Hk. apply list_find_None, Forall_forall. intros x Hx <-. by apply Hk, list_elem_of_fmap_2. Qed.

Lemma scene_successors_none p x : (x ∉ scene_ids p) → scene_successors p x = [].
Proof. intros Hx. unfold scene_successors. by rewrite find_none. Qed.
Lemma audio_successors_none p x : (x ∉ input_ids p) → audio_successors p x = [].
Proof. intros Hx. unfold audio_successors. by rewrite find_none. Qed.
Lemma bus_successors_none p x : (x ∉ bus_ids p) → bus_successors p x = [].
Proof. intros Hx. unfold bus_successors. by rewrite find_none. Qed.

Lemma layer_scene_spec p l b : NoDup (input_ids p) → layer_scene p l = Some b ↔ layer_shows p l b.
Proof.
  intros Hids. unfold layer_scene, layer_shows, source_shows. destruct (layer_source l) as [input|scene]; [|naive_solver].
  split.
  - intros Hb. apply bind_Some in Hb as ([i x] & Hf & Hk). apply find_ident in Hf as (Hx & <- & _).
    right. destruct (in_kind x) as [| | | |scene audio|] eqn:Hkind; simplify_eq. by exists x, audio.
  - intros [?|(x & audio & Hx & Heq & Hk)]; simplify_eq.
    destruct (find_unique in_id (inputs p) x Hids Hx) as [i Hi]. rewrite Hi. simpl. by rewrite Hk.
Qed.
Lemma scene_successors_spec p a b :
  NoDup (input_ids p) → NoDup (scene_ids p) → edge (scene_successors p) a b ↔ scene_shows p a b.
Proof.
  intros Hi Hs. unfold edge, scene_successors, scene_shows. split.
  - destruct (list_find _ _) as [[i s]|] eqn:Hf; [|by intros ?%elem_of_nil].
    apply find_ident in Hf as (Hin & <- & _). intros (l & Hl & Hb)%list_elem_of_omap.
    exists s, l. split_and!; [done..|]. by apply layer_scene_spec.
  - intros (s & l & Hin & <- & Hl & Hb). destruct (find_unique scene_id (scenes p) s Hs Hin) as [i ->].
    apply list_elem_of_omap. exists l. split; [done|]. by apply layer_scene_spec.
Qed.
Lemma audio_successors_spec p a b :
  NoDup (input_ids p) → edge (audio_successors p) a b ↔ audio_follows p a b.
Proof.
  intros Hi. unfold edge, audio_successors, audio_follows. split.
  - destruct (list_find _ _) as [[i x]|] eqn:Hf; [|by intros ?%elem_of_nil].
    apply find_ident in Hf as (Hin & <- & _). intros Hb.
    destruct (in_kind x) as [| | | |scene [s|]|] eqn:Hk; try by apply elem_of_nil in Hb.
    apply list_elem_of_singleton in Hb as ->. by exists x, scene.
  - intros (x & scene & Hin & <- & Hk). destruct (find_unique in_id (inputs p) x Hi Hin) as [i ->].
    rewrite Hk. by left.
Qed.
Lemma bus_successors_spec p a b :
  NoDup (bus_ids p) → edge (bus_successors p) a b ↔ bus_feeds p a b.
Proof.
  intros Hi. unfold edge, bus_successors, bus_feeds. split.
  - destruct (list_find _ _) as [[i x]|] eqn:Hf; [|by intros ?%elem_of_nil].
    apply find_ident in Hf as (Hin & <- & _). by exists x.
  - intros (x & Hin & <- & Hb). destruct (find_unique bus_id (audio_buses p) x Hi Hin) as [i ->]. done.
Qed.

(** The three kinds of cycles that a report tells. *)
Definition scene_cycle (scene : SceneId) : ValidationError :=
  mk_error (Some (RefScene scene)) "layers.source" Cycle.
Definition audio_cycle (input : InputId) : ValidationError :=
  mk_error (Some (RefInput input)) "kind.scene.audio_source" Cycle.
Definition bus_cycle (bus : BusId) : ValidationError :=
  mk_error (Some (RefAudioBus bus)) "sends.destination" Cycle.
Definition cycle_found (p : Project) (e : ValidationError) : Prop :=
  (∃ s, s ∈ scene_ids p ∧ e = scene_cycle s ∧ tc (edge (scene_successors p)) s s) ∨
  (∃ i, i ∈ input_ids p ∧ e = audio_cycle i ∧ tc (edge (audio_successors p)) i i) ∨
  (∃ b, b ∈ bus_ids p ∧ e = bus_cycle b ∧ tc (edge (bus_successors p)) b b).
(** The errors of a report that are not about cycles. *)
Definition plain_errors (p : Project) : list ValidationError :=
  require_name None "name" (project_name p) ++ validate_settings p ++ validate_unique_entities p ++
  validate_inputs p ++ validate_input_audio_strips p ++ validate_main_mix p ++ validate_stingers p ++
  validate_scenes p ++ validate_buses p ++ validate_outputs p ++ validate_stream_targets p.

Lemma validate_project_cycles p :
  ∃ cycles, validate_project p = Some (plain_errors p ++ cycles) ∧
    ∀ e, e ∈ cycles ↔ cycle_found p e.
Proof.
  unfold validate_project, mark_scene_cycles, mark_audio_input_cycles, mark_bus_cycles.
  destruct (mark_cycles_exact _ scene_cycle _ (scene_successors_none p)) as (l1 & H1 & E1).
  destruct (mark_cycles_exact _ audio_cycle _ (audio_successors_none p)) as (l2 & H2 & E2).
  destruct (mark_cycles_exact _ bus_cycle _ (bus_successors_none p)) as (l3 & H3 & E3).
  unfold scene_ids, input_ids, bus_ids in H1, H2, H3. rewrite length_fmap in H1. rewrite length_fmap in H2.
  rewrite length_fmap in H3.
  change (λ scene, mk_error (Some (RefScene scene)) _ _) with scene_cycle.
  change (λ input, mk_error (Some (RefInput input)) _ _) with audio_cycle.
  change (λ bus, mk_error (Some (RefAudioBus bus)) _ _) with bus_cycle.
  rewrite H1. simpl. rewrite H2. simpl. rewrite H3. simpl.
  exists (l1 ++ l2 ++ l3). split; [unfold plain_errors; by rewrite <-!(assoc_L (++))|].
  intros e. rewrite !elem_of_app, E1, E2, E3. done.
Qed.

(** ** The report as a whole *)

Lemma validate_unique_nil p :
  Forall (input_ok p) (inputs p) → Forall (scene_ok p) (scenes p) → Forall (bus_ok p) (audio_buses p) →
  Forall (output_ok p) (outputs p) → Forall (target_ok p) (stream_targets p) →
  validate_unique_entities p = [] ↔ names_unique p.
Proof.
  intros Hi Hs Hb Ho Ht. unfold validate_unique_entities. rewrite !app_nil.
  rewrite !duplicates_nil; [|eapply Forall_impl; [done|by intros ? []]..].
  split.
  - intros ([? ?] & [? ?] & [? ?] & [? ?] & [? ?]). by split.
  - by intros [].
Qed.
Lemma plain_errors_nil p : plain_errors p = [] ↔ shape_valid p.
Proof.
  unfold plain_errors, require_name, validate_inputs, validate_scenes, validate_outputs,
    validate_stream_targets.
  rewrite !app_nil, report_nil, validate_settings_nil, !bind_nil_Forall, validate_main_mix_nil,
    validate_stingers_nil, validate_buses_nil.
  setoid_rewrite validate_input_nil. setoid_rewrite validate_scene_nil.
  setoid_rewrite validate_output_nil. setoid_rewrite validate_target_nil.
  split.
  - intros (? & [? ?] & Hu & ? & Hs & ? & [? ?] & ? & ? & ? & ?).
    apply validate_unique_nil in Hu; [|done..]. apply validate_strips_nil in Hs; [|apply Hu]. by split.
  - intros []. split_and!; try done; [by apply validate_unique_nil|].
    apply validate_strips_nil; [by apply nu_input_ids|done].
Qed.

Lemma tc_edge_first (successors : Z → list Z) (nodes : list Z) a b :
  (∀ x, x ∉ nodes → successors x = []) → tc (edge successors) a b → a ∈ nodes.
Proof.
  intros Hnodes Htc. destruct (decide (a ∈ nodes)) as [Ha|Ha]; [done|].
  assert (∀ c, ¬ edge successors a c) as Hno.
  { intros c Hc. unfold edge in Hc. rewrite Hnodes in Hc by done. by apply elem_of_nil in Hc. }
  by inversion Htc as [? ? He|? ? ? He]; subst; apply Hno in He.
Qed.
(** Acyclic up to the way the relation is found. *)
Lemma acyclic_search (successors : Z → list Z) (R : relation Z) (nodes : list Z) :
  (∀ x, x ∉ nodes → successors x = []) → (∀ a b, edge successors a b ↔ R a b) →
  acyclic R ↔ ∀ a, a ∈ nodes → ¬ tc (edge successors) a a.
Proof.
  intros Hnodes HR. split.
  - intros Hac a _ Htc. by apply (Hac a), (tc_iff (edge successors)).
  - intros Hac a Htc. apply (tc_iff (edge successors)) in Htc; [|done].
    by apply (Hac a); [eapply tc_edge_first|].
Qed.
Lemma no_cycles p :
  names_unique p →
  (∀ e, ¬ cycle_found p e) ↔ acyclic (scene_shows p) ∧ acyclic (audio_follows p) ∧ acyclic (bus_feeds p).
Proof.
  intros Hu. pose proof (nu_input_ids _ Hu) as Hi. pose proof (nu_scene_ids _ Hu) as Hs.
  rewrite (acyclic_search _ _ _ (scene_successors_none p)) by (intros; by apply scene_successors_spec).
  rewrite (acyclic_search _ _ _ (audio_successors_none p)) by (intros; by apply audio_successors_spec).
  rewrite (acyclic_search _ _ _ (bus_successors_none p)) by (intros; by apply bus_successors_spec, Hu).
  unfold cycle_found. split.
  - intros Hno. split_and!; intros a Ha Htc.
    + apply (Hno (scene_cycle a)). left. by exists a.
    + apply (Hno (audio_cycle a)). right; left. by exists a.
    + apply (Hno (bus_cycle a)). right; right. by exists a.
  - intros (H1 & H2 & H3) e [(a & Ha & -> & Htc)|[(a & Ha & -> & Htc)|(a & Ha & -> & Htc)]];
      [by apply (H1 a)|by apply (H2 a)|by apply (H3 a)].
Qed.
Lemma validate_project_nil p :
  ∃ errors, validate_project p = Some errors ∧ (errors = [] ↔ project_valid p).
Proof.
  destruct (validate_project_cycles p) as (cycles & -> & Hc). eexists. split; [done|].
  rewrite app_nil, plain_errors_nil. split.
  - intros [Hshape ->]. pose proof (pv_unique _ Hshape) as Hu.
    destruct (proj1 (no_cycles p Hu)) as (? & ? & ?); [|by split].
    intros e He. by apply Hc, elem_of_nil in He.
  - intros [Hshape ? ? ?]. split; [done|]. destruct cycles as [|e cycles]; [done|].
    destruct (proj2 (no_cycles p (pv_unique _ Hshape)) (conj pv_scene_acyclic0
      (conj pv_audio_acyclic0 pv_bus_acyclic0)) e). apply Hc. by left.
Qed.

(** What the other errors never are, and what a self-reference says. *)
Record sound_error (p : Project) (e : ValidationError) : Prop := {
  sd_cycle : err_kind e ≠ Cycle;
  sd_scene : err_kind e = SelfReference → ∀ s, err_entity e = Some (RefScene s) → scene_shows p s s;
  sd_input : err_kind e = SelfReference → ∀ i, err_entity e = Some (RefInput i) → audio_follows p i i
}.
Lemma Forall_report (P : ValidationError → Prop) b e : P e → Forall P (report b e).
Proof. intros. destruct b; by repeat constructor. Qed.
Lemma Forall_bind_elem {A B} (P : B → Prop) (f : A → list B) l :
  (∀ x, x ∈ l → Forall P (f x)) → Forall P (l ≫= f).
Proof.
  intros H. apply Forall_forall. intros y (x & Hy & Hx)%list_elem_of_bind.
  by apply (proj1 (Forall_forall _ _) (H x Hx)).
Qed.
Ltac sound_with known :=
  repeat first
    [ known | apply Forall_nil_2 | apply Forall_app_2 | apply Forall_report | apply Forall_bind_elem; intros
    | apply Forall_cons_2 | case_match ];
  try (split; simpl; congruence).
Ltac sound := sound_with fail.
Lemma duplicates_sound p sensitive prior items :
  Forall (sound_error p) (duplicates_after sensitive prior items).
Proof.
  revert prior. induction items as [|[[i n] e] items IH]; intros prior; simpl; sound. apply IH.
Qed.
Lemma sends_sound p bus prior l : Forall (sound_error p) (validate_sends_after p bus prior l).
Proof. revert prior. induction l as [|d l IH]; intros prior; simpl; sound; apply IH. Qed.
Lemma stingers_sound p prior l : Forall (sound_error p) (validate_stingers_after p prior l).
Proof. revert prior. induction l as [|s l IH]; intros prior; simpl; sound; apply IH. Qed.
Lemma layer_sound p s l :
  s ∈ scenes p → l ∈ scene_layers s → Forall (sound_error p) (validate_layer p (scene_id s) l).
Proof.
  intros Hs Hl. unfold validate_layer, require_name. sound.
  split; simpl; [done| |done]. intros _ ? [= <-]. exists s, l. split_and!; [done..|].
  left. congruence.
Qed.
Lemma input_sound p i : i ∈ inputs p → Forall (sound_error p) (validate_input p i).
Proof.
  intros Hi. unfold validate_input, validate_kind, validate_capabilities, require_name. sound.
  split; simpl; [done|done|]. intros _ ? [= <-]. subst. by eexists i, _.
Qed.
Lemma plain_errors_sound p : Forall (sound_error p) (plain_errors p).
Proof.
  unfold plain_errors, require_name, validate_settings, validate_unique_entities, duplicates,
    validate_inputs, validate_input_audio_strips, validate_main_mix, validate_stingers,
    validate_scenes, validate_scene, validate_buses, validate_outputs, validate_output,
    validate_stream_targets, validate_target, validate_capabilities, require_name.
  sound_with ltac:(first [apply duplicates_sound | apply sends_sound | apply stingers_sound
    | by apply input_sound | by apply layer_sound]).
Qed.

(** ** What the callers of [validate] look for *)

Lemma errors_elem p errors e :
  validate_project p = Some errors → e ∈ errors → sound_error p e ∨ cycle_found p e.
Proof.
  intros He Hin. destruct (validate_project_cycles p) as (cycles & Hv & Hc). rewrite He in Hv. simplify_eq.
  apply elem_of_app in Hin as [Hin|Hin]; [left|right; by apply Hc].
  by apply (proj1 (Forall_forall _ _) (plain_errors_sound p)).
Qed.
Lemma errors_cycle p errors e :
  validate_project p = Some errors → cycle_found p e → e ∈ errors.
Proof.
  intros He Hf. destruct (validate_project_cycles p) as (cycles & Hv & Hc). rewrite He in Hv. simplify_eq.
  apply elem_of_app. right. by apply Hc.
Qed.
Lemma existsb_elem (P : ValidationError → Prop) `{∀ e, Decision (P e)} l :
  existsb (λ e, bool_decide (P e)) l = true ↔ ∃ e, e ∈ l ∧ P e.
Proof.
  rewrite existsb_exists. setoid_rewrite bool_decide_eq_true. by setoid_rewrite <-list_elem_of_In.
Qed.

Section callers.
Context (p : Project) (errors : list ValidationError) (Hv : validate_project p = Some errors).
Context (Hi : NoDup (input_ids p)) (Hs : NoDup (scene_ids p)) (Hb : NoDup (bus_ids p)).

Lemma found_scene s : cycle_found p (scene_cycle s) ↔ tc (scene_shows p) s s.
Proof.
  rewrite <-(tc_iff (edge (scene_successors p)) (scene_shows p))
    by (intros; by apply scene_successors_spec).
  unfold cycle_found. split.
  - intros [(x & _ & Heq & Htc)|[(x & _ & Heq & _)|(x & _ & Heq & _)]]; by inversion Heq; subst.
  - intros Htc. left. exists s. split_and!; [|done..].
    eapply tc_edge_first; [apply scene_successors_none|done].
Qed.
Lemma found_audio s : cycle_found p (audio_cycle s) ↔ tc (audio_follows p) s s.
Proof.
  rewrite <-(tc_iff (edge (audio_successors p)) (audio_follows p))
    by (intros; by apply audio_successors_spec).
  unfold cycle_found. split.
  - intros [(x & _ & Heq & _)|[(x & _ & Heq & Htc)|(x & _ & Heq & _)]]; by inversion Heq; subst.
  - intros Htc. right; left. exists s. split_and!; [|done..].
    eapply tc_edge_first; [apply audio_successors_none|done].
Qed.
Lemma found_bus s : cycle_found p (bus_cycle s) ↔ tc (bus_feeds p) s s.
Proof.
  rewrite <-(tc_iff (edge (bus_successors p)) (bus_feeds p)) by (intros; by apply bus_successors_spec).
  unfold cycle_found. split.
  - intros [(x & _ & Heq & _)|[(x & _ & Heq & _)|(x & _ & Heq & Htc)]]; by inversion Heq; subst.
  - intros Htc. right; right. exists s. split_and!; [|done..].
    eapply tc_edge_first; [apply bus_successors_none|done].
Qed.

Lemma scene_source_error s :
  existsb (λ e, bool_decide (err_entity e = Some (RefScene s) ∧ err_field e = "layers.source" ∧
                             (err_kind e = SelfReference ∨ err_kind e = Cycle))) errors = true ↔
  tc (scene_shows p) s s.
Proof.
  rewrite existsb_elem, <-found_scene. split.
  - intros (e & Hin & He & _ & Hk). destruct (errors_elem p errors e Hv Hin) as [[Hc Hself _]|Hf].
    + destruct Hk as [Hk|]; [|done]. apply found_scene, tc_once. by apply Hself.
    + destruct Hf as [(x & ? & -> & ?)|[(x & ? & -> & ?)|(x & ? & -> & ?)]]; simplify_eq/=.
      left. by exists s.
  - intros Hf. exists (scene_cycle s). split; [by eapply errors_cycle|naive_solver].
Qed.
Lemma scene_cycle_error s :
  existsb (λ e, bool_decide (err_kind e = Cycle ∧ err_entity e = Some (RefScene s) ∧
                             err_field e = "layers.source")) errors = true ↔
  tc (scene_shows p) s s.
Proof.
  rewrite existsb_elem, <-found_scene. split.
  - intros (e & Hin & Hk & He & _). destruct (errors_elem p errors e Hv Hin) as [[Hc _ _]|Hf]; [done|].
    destruct Hf as [(x & ? & -> & ?)|[(x & ? & -> & ?)|(x & ? & -> & ?)]]; simplify_eq/=.
    left. by exists s.
  - intros Hf. exists (scene_cycle s). split; [by eapply errors_cycle|naive_solver].
Qed.
Lemma audio_source_error s :
  existsb (λ e, bool_decide (err_entity e = Some (RefInput s) ∧ err_field e = "kind.scene.audio_source" ∧
                             (err_kind e = SelfReference ∨ err_kind e = Cycle))) errors = true ↔
  tc (audio_follows p) s s.
Proof.
  rewrite existsb_elem, <-found_audio. split.
  - intros (e & Hin & He & _ & Hk). destruct (errors_elem p errors e Hv Hin) as [[Hc _ Hself]|Hf].
    + destruct Hk as [Hk|]; [|done]. apply found_audio, tc_once. by apply Hself.
    + destruct Hf as [(x & ? & -> & ?)|[(x & ? & -> & ?)|(x & ? & -> & ?)]]; simplify_eq/=.
      right; left. by exists s.
  - intros Hf. exists (audio_cycle s). split; [by eapply errors_cycle|naive_solver].
Qed.
Lemma any_cycle_error :
  existsb (λ e, bool_decide (err_kind e = Cycle)) errors = true ↔ ∃ e, cycle_found p e.
Proof.
  rewrite existsb_elem. split.
  - intros (e & Hin & Hk). destruct (errors_elem p errors e Hv Hin) as [[Hc _ _]|Hf]; [done|by exists e].
  - intros (e & Hf). exists e. split; [by eapply errors_cycle|].
    by destruct Hf as [(x & ? & -> & ?)|[(x & ? & -> & ?)|(x & ? & -> & ?)]].
Qed.
End callers.

(** ** What survives a change *)

Record kept (p p' : Project) : Prop := {
  kept_settings : settings p' = settings p;
  kept_inputs : input_ids p ⊆ input_ids p';
  kept_scenes : scene_ids p ⊆ scene_ids p';
  kept_buses : bus_ids p ⊆ bus_ids p';
  kept_outputs : output_ids p ⊆ output_ids p'
}.
Lemma kept_refl p : kept p p.
Proof. by split. Qed.

Lemma layer_ok_transfer p p' s l :
  settings p' = settings p →
  (∀ i, layer_source l = SourceInput i → i ∈ input_ids p → i ∈ input_ids p') →
  (∀ x, layer_source l = SourceScene x → x ∈ scene_ids p → x ∈ scene_ids p') →
  layer_ok p s l → layer_ok p' s l.
Proof.
  intros Hset Hi Hs []. split; [done|done| | |].
  - unfold project_width, project_height in *. by rewrite Hset.
  - assert (source_size p' (layer_crop l) = source_size p (layer_crop l)) as ->; [|done].
    unfold source_size, project_width, project_height. by rewrite Hset.
  - unfold source_ok in *. destruct (layer_source l); naive_solver.
Qed.
Lemma scene_ok_transfer p p' s :
  settings p' = settings p →
  (∀ l i, l ∈ scene_layers s → layer_source l = SourceInput i → i ∈ input_ids p → i ∈ input_ids p') →
  (∀ l x, l ∈ scene_layers s → layer_source l = SourceScene x → x ∈ scene_ids p → x ∈ scene_ids p') →
  scene_ok p s → scene_ok p' s.
Proof.
  intros Hset Hi Hs []. split; [done|done|]. apply Forall_forall. intros l Hl.
  eapply layer_ok_transfer; [done|by intros; eapply Hi|by intros; eapply Hs|by eapply Forall_forall].
Qed.
Lemma input_ok_transfer p p' i :
  settings p' = settings p →
  (∀ s audio, in_kind i = KindScene s audio → s ∈ scene_ids p → s ∈ scene_ids p') →
  (∀ s x, in_kind i = KindScene s (Some x) → x ∈ input_ids p → x ∈ input_ids p') →
  input_ok p i → input_ok p' i.
Proof.
  intros Hset Hs Hi [? ? Hkind ?]. split; [done|done| |done]. unfold kind_ok in *.
  destruct (in_kind i) as [| | | |s audio|x]; try done.
  - destruct Hkind as [? Ha]. split; [by eapply Hs|]. intros x ->.
    destruct (Ha x eq_refl). split; [done|]. by eapply Hi.
  - by rewrite Hset.
Qed.
Lemma layer_ok_kept p p' s l : kept p p' → layer_ok p s l → layer_ok p' s l.
Proof. intros [? Hi Hs _ _]. apply layer_ok_transfer; naive_solver. Qed.
Lemma scene_ok_kept p p' s : kept p p' → scene_ok p s → scene_ok p' s.
Proof. intros [? Hi Hs _ _]. apply scene_ok_transfer; naive_solver. Qed.
Lemma input_ok_kept p p' i : kept p p' → input_ok p i → input_ok p' i.
Proof. intros [? Hi Hs _ _]. apply input_ok_transfer; naive_solver. Qed.
Lemma bus_ok_kept p p' b : kept p p' → bus_ok p b → bus_ok p' b.
Proof. intros [_ _ _ Hb _] []. split; [done|done| |done]. by etrans. Qed.
Lemma output_ok_kept p p' o : kept p p' → output_ok p o → output_ok p' o.
Proof. intros [_ _ Hs Hb _] []. split; [done|by apply Hs|by apply Hb|done]. Qed.
Lemma target_ok_kept p p' t : kept p p' → target_ok p t → target_ok p' t.
Proof. intros [_ _ _ _ Ho] []. split; [done|done|by apply Ho]. Qed.
Lemma mix_ok_kept p p' mix : kept p p' → mix_ok p mix → mix_ok p' mix.
Proof. intros [_ Hi _ _ _] (? & ? & ?). split_and!; [by apply Hi|by apply Hi|done]. Qed.
Lemma Forall_kept {A} (P : Project → A → Prop) p p' l :
  (∀ x, P p x → P p' x) → Forall (P p) l → Forall (P p') l.
Proof. intros H Hl. by eapply Forall_impl. Qed.

(** Fewer relations, no new cycles. *)
Lemma acyclic_sub (R R' : relation Z) : (∀ a b, R' a b → R a b) → acyclic R → acyclic R'.
Proof.
  intros HR Hac a Htc. apply (Hac a). clear Hac. revert Htc. generalize a at 2 4.
  intros b. induction 1 as [a b Hab|a b c Hab _ IH]; [by apply tc_once, HR|].
  eapply tc_l; [by apply HR|done].
Qed.

(** [keep Hk H]: every part of [project_valid] that a change does not touch. *)
Ltac keep Hk H :=
  destruct H as [[]]; destruct_and?; split; [split|..]; cbn [project_name settings restart_policy inputs
    input_audio_strips scenes audio_buses outputs stream_targets main_mix stingers] in *;
  try done;
  try (eapply Forall_kept; [intros ?|eassumption];
       first [apply (input_ok_kept _ _ _ Hk)|apply (scene_ok_kept _ _ _ Hk)|apply (bus_ok_kept _ _ _ Hk)
             |apply (output_ok_kept _ _ _ Hk)|apply (target_ok_kept _ _ _ Hk)]);
  try (eapply Forall_impl; [eassumption|]; intros ?; apply (kept_inputs _ _ Hk));
  try (intros ? ?; eapply (mix_ok_kept _ _ _ Hk); by auto).

(** The project is rebuilt from its parts. *)
Ltac rebuild Hk H := keep Hk H; select (names_unique _) (fun Hu => destruct Hu); by split.

Lemma valid_inputs p ins st (p' := set_inputs ins (set_strips st p)) :
  project_valid p →
  input_ids p ⊆ input_ids p' → NoDup (input_ids p') → NoDup (in_name <$> ins) →
  Forall (input_ok p') ins → strip_input <$> st ≡ₚ input_ids p' →
  acyclic (scene_shows p') → acyclic (audio_follows p') → project_valid p'.
Proof.
  intros H Hsub Hnd Hnames Hok Hst Hs Ha. assert (kept p p') as Hk by by split. subst p'.
  rebuild Hk H.
Qed.
Lemma valid_scenes p ss (p' := set_scenes ss p) :
  project_valid p →
  scene_ids p ⊆ scene_ids p' → NoDup (scene_ids p') →
  NoDup (to_ascii_lowercase ∘ scene_name <$> ss) →
  Forall (scene_ok p') ss → acyclic (scene_shows p') → project_valid p'.
Proof.
  intros H Hsub Hnd Hnames Hok Hs. assert (kept p p') as Hk by by split. subst p'.
  rebuild Hk H.
Qed.
Lemma valid_buses p bs (p' := set_buses bs p) :
  project_valid p →
  bus_ids p ⊆ bus_ids p' → NoDup (bus_ids p') → NoDup (to_ascii_lowercase ∘ bus_name <$> bs) →
  Forall (bus_ok p') bs → acyclic (bus_feeds p') → project_valid p'.
Proof.
  intros H Hsub Hnd Hnames Hok Hs. assert (kept p p') as Hk by by split. subst p'.
  rebuild Hk H.
Qed.
Lemma valid_outputs p os (p' := set_outputs os p) :
  project_valid p →
  output_ids p ⊆ output_ids p' → NoDup (output_ids p') →
  NoDup (to_ascii_lowercase ∘ out_name <$> os) → Forall (output_ok p') os → project_valid p'.
Proof.
  intros H Hsub Hnd Hnames Hok. assert (kept p p') as Hk by by split. subst p'.
  rebuild Hk H.
Qed.
Lemma valid_targets p ts (p' := set_targets ts p) :
  project_valid p →
  NoDup (tg_id <$> ts) → NoDup (to_ascii_lowercase ∘ tg_name <$> ts) → Forall (target_ok p') ts →
  project_valid p'.
Proof.
  intros H Hnd Hnames Hok. assert (kept p p') as Hk by by split. subst p'.
  rebuild Hk H.
Qed.
Lemma valid_stingers p ss (p' := set_stingers ss p) :
  project_valid p →
  NoDup (slot <$> ss) → Forall (λ s, media_input s ∈ input_ids p) ss → project_valid p'.
Proof.
  intros H Hnd Hok. assert (kept p p') as Hk by by split. subst p'. rebuild Hk H.
Qed.

(** ** Changing one element *)

Lemma fmap_alter_same {A B} (f : A → B) (g : A → A) i (l : list A) :
  (∀ x, f (g x) = f x) → f <$> alter g i l = f <$> l.
Proof.
  intros Hfg. revert i. induction l as [|x l IH]; intros [|i]; [done..| |].
  - cbn. by rewrite Hfg.
  - cbn. f_equal. apply IH.
Qed.
Lemma fmap_alter_insert {A B} (f : A → B) (g : A → A) y i (l : list A) :
  (∀ x, f (g x) = y) → f <$> alter g i l = <[i := y]> (f <$> l).
Proof.
  intros Hfg. revert i. induction l as [|x l IH]; intros [|i]; [done..| |].
  - cbn. by rewrite Hfg.
  - cbn. f_equal. apply IH.
Qed.
Lemma NoDup_insert {A} (l : list A) i y :
  NoDup l → (∀ j, j ≠ i → l !! j ≠ Some y) → NoDup (<[i := y]> l).
Proof.
  rewrite !NoDup_alt. intros Hl Hy j k x Hj Hk.
  apply list_lookup_insert_Some in Hj, Hk. naive_solver.
Qed.
(** The names of the other elements, as [other_exists] looks at them. *)
Lemma other_exists_false {A} (f : A → bool) index (l : list A) :
  other_exists index f l = false → ∀ j x, j ≠ index → l !! j = Some x → f x = false.
Proof.
  unfold other_exists. intros Hf j x Hj Hx. apply not_true_iff_false. intros Ht.
  apply not_true_iff_false in Hf. apply Hf, existsb_exists. exists x. split; [|done].
  apply list_elem_of_In, elem_of_app. destruct (decide (j < index)%nat).
  - left. apply list_elem_of_lookup. exists j. by rewrite lookup_take_lt.
  - right. apply list_elem_of_lookup. exists (j - S index)%nat. rewrite lookup_drop.
    by replace (S index + (j - S index))%nat with j by lia.
Qed.
Lemma other_names {A} (key : A → string) y index (l : list A) (f : A → bool) :
  (∀ x, f x = true ↔ key x = y) → NoDup (key <$> l) → other_exists index f l = false →
  NoDup (<[index := y]> (key <$> l)).
Proof.
  intros Hf Hl Ho. apply NoDup_insert; [done|]. intros j Hj (x & Hy & Hx)%list_lookup_fmap_Some.
  pose proof (other_exists_false f index l Ho j x Hj Hx) as Hfx.
  by rewrite (proj2 (Hf x)) in Hfx.
Qed.
Lemma fresh_name {A} (key : A → string) y (l : list A) (f : A → bool) :
  (∀ x, f x = true ↔ key x = y) → NoDup (key <$> l) → existsb f l = false → NoDup ((key <$> l) ++ [y]).
Proof.
  intros Hf Hl Ho. apply NoDup_snoc_1; [done|]. intros (x & -> & Hx)%list_elem_of_fmap.
  apply not_true_iff_false in Ho. apply Ho, existsb_exists. exists x.
  by rewrite <-list_elem_of_In, Hf.
Qed.
Lemma lower_eq (name : string) {A} (get : A → string) x :
  eq_ignore_ascii_case (get x) name = true ↔
  (to_ascii_lowercase ∘ get) x = to_ascii_lowercase name.
Proof. apply bool_decide_eq_true. Qed.
Lemma same_eq (name : string) {A} (get : A → string) x :
  bool_decide (get x = name) = true ↔ get x = name.
Proof. apply bool_decide_eq_true. Qed.
Lemma position_Some {A} (ident : A → Z) k (l : list A) i :
  position ident k l = Some i → ∃ x, l !! i = Some x ∧ ident x = k.
Proof.
  intros ([j x] & Hf & ->)%fmap_Some. exists x. by apply list_find_Some in Hf as (? & ? & _).
Qed.

Section scenes.
Context (p : Project) (Hp : project_valid p).

Lemma alter_scene_ids f i :
  (∀ s, scene_id (f s) = scene_id s) → scene_ids (alter_scene f i p) = scene_ids p.
Proof. apply fmap_alter_same. Qed.
Lemma alter_scene_kept f i :
  (∀ s, scene_id (f s) = scene_id s) → kept p (alter_scene f i p) ∧ kept (alter_scene f i p) p.
Proof. intros Hf. pose proof (alter_scene_ids f i Hf) as Heq. split; split; try done; by rewrite Heq. Qed.
(** What [a] shows after a change of the scene at [i]. *)
Lemma scene_shows_alter f i a b :
  (∀ s, scene_id (f s) = scene_id s) →
  scene_shows (alter_scene f i p) a b →
  scene_shows p a b ∨
  ∃ s l, scenes p !! i = Some s ∧ scene_id s = a ∧ l ∈ scene_layers (f s) ∧ layer_shows p l b.
Proof.
  intros Hf (s & l & Hs & <- & Hl & Hb). apply list_elem_of_lookup in Hs as [j Hj].
  unfold alter_scene in Hj. cbn in Hj.
  destruct (decide (i = j)) as [->|Hij].
  - rewrite list_lookup_alter_eq in Hj. apply fmap_Some in Hj as (s' & Hs' & ->). right.
    exists s', l. by rewrite Hf.
  - rewrite list_lookup_alter_ne in Hj by done. left. exists s, l.
    split_and!; [by eapply list_elem_of_lookup_2|done..].
Qed.
Lemma valid_alter_scene f i :
  (∀ s, scene_id (f s) = scene_id s) →
  NoDup (to_ascii_lowercase ∘ scene_name <$> alter f i (scenes p)) →
  (∀ s, scenes p !! i = Some s → scene_ok p s → scene_ok p (f s)) →
  acyclic (scene_shows (alter_scene f i p)) → project_valid (alter_scene f i p).
Proof.
  intros Hf Hnames Hok Hac. pose proof (alter_scene_ids f i Hf) as Hids.
  destruct (alter_scene_kept f i Hf) as [Hk Hk'].
  apply valid_scenes; [done|by rewrite <-Hids|unfold alter_scene in Hids; rewrite Hids; apply Hp|done| |done].
  eapply Forall_kept; [intros s; apply (scene_ok_kept _ _ _ Hk)|].
  apply Forall_alter; [apply Hp|]. intros s Hs Hsok. by apply Hok.
Qed.
(** A change that adds no source. *)
Lemma valid_same_sources f i :
  (∀ s, scene_id (f s) = scene_id s) →
  NoDup (to_ascii_lowercase ∘ scene_name <$> alter f i (scenes p)) →
  (∀ s, scenes p !! i = Some s → scene_ok p s → scene_ok p (f s)) →
  (∀ s l, scenes p !! i = Some s → l ∈ scene_layers (f s) →
     ∃ l', l' ∈ scene_layers s ∧ layer_source l = layer_source l') →
  project_valid (alter_scene f i p).
Proof.
  intros Hf Hnames Hok Hsub. apply valid_alter_scene; [done..|].
  apply (acyclic_sub (scene_shows p)); [|apply Hp]. intros a b Hab.
  destruct (scene_shows_alter f i a b Hf Hab) as [?|(s & l & Hs & <- & Hl & Hb)]; [done|].
  destruct (Hsub s l Hs Hl) as (l' & Hl' & Heq). exists s, l'.
  split_and!; [by eapply list_elem_of_lookup_2|done..|]. unfold layer_shows in *. by rewrite <-Heq.
Qed.
(** A change of the layers of a scene. *)
Lemma valid_layers (g : list Layer → list Layer) i :
  (∀ s, scenes p !! i = Some s → Forall (layer_ok p (scene_id s)) (g (scene_layers s))) →
  (∀ s l, scenes p !! i = Some s → l ∈ g (scene_layers s) →
     ∃ l', l' ∈ scene_layers s ∧ layer_source l = layer_source l') →
  project_valid (alter_scene (λ s, set_layers (g (scene_layers s)) s) i p).
Proof.
  intros Hok Hsub. apply valid_same_sources; [done| |..|done].
  - rewrite fmap_alter_same by done. apply Hp.
  - intros s Hs [? ? ?]. split; [done|done|]. by apply (Hok s).
Qed.
Lemma layers_ok i s : scenes p !! i = Some s → Forall (layer_ok p (scene_id s)) (scene_layers s).
Proof.
  intros Hs. apply (so_layers p). eapply (proj1 (Forall_forall _ _)); [apply Hp|].
  by eapply list_elem_of_lookup_2.
Qed.
Lemma valid_alter_layer (f : Layer → Layer) i j :
  (∀ l, layer_source (f l) = layer_source l) →
  (∀ s l, scenes p !! i = Some s → scene_layers s !! j = Some l →
     layer_ok p (scene_id s) l → layer_ok p (scene_id s) (f l)) →
  project_valid (alter_layer f i j p).
Proof.
  intros Hsrc Hok. apply valid_layers.
  - intros s Hs. apply Forall_alter; [by eapply layers_ok|]. intros l Hl. by apply Hok.
  - intros s l Hs (k & Hk)%list_elem_of_lookup. destruct (decide (j = k)) as [->|Hjk].
    + rewrite list_lookup_alter_eq in Hk. apply fmap_Some in Hk as (l' & Hl' & ->). exists l'.
      split; [by eapply list_elem_of_lookup_2|done].
    + rewrite list_lookup_alter_ne in Hk by done. exists l. split; [by eapply list_elem_of_lookup_2|done].
Qed.
End scenes.

(** ** Removing elements *)

Lemma ids_filter {A} (ident : A → Z) key (l : list A) k :
  k ∈ ident <$> filter (λ x, ident x ≠ key) l ↔ k ∈ ident <$> l ∧ k ≠ key.
Proof.
  rewrite !list_elem_of_fmap. setoid_rewrite list_elem_of_filter. naive_solver.
Qed.
Lemma NoDup_fmap_filter {A B} (f : A → B) (P : A → Prop) `{∀ x, Decision (P x)} (l : list A) :
  NoDup (f <$> l) → NoDup (f <$> filter P l).
Proof.
  induction l as [|x l IH]; [done|]. rewrite fmap_cons, NoDup_cons, filter_cons. intros [Hx Hl].
  case_decide; [|by apply IH]. rewrite fmap_cons. apply NoDup_cons. split; [|by apply IH].
  intros (y & Heq & Hy)%list_elem_of_fmap. apply list_elem_of_filter in Hy as [_ Hy].
  apply Hx. rewrite Heq. by apply list_elem_of_fmap_2.
Qed.
Lemma Forall_shrink {A} (P Q : A → Prop) (R : A → Prop) `{∀ x, Decision (R x)} l :
  (∀ x, x ∈ l → P x → Q x) → Forall P l → Forall Q (filter R l).
Proof.
  intros H1 Hl. apply Forall_forall. intros x [_ Hx]%list_elem_of_filter.
  apply H1; [done|]. by eapply Forall_forall.
Qed.
Lemma Forall_elem_impl {A} (P Q : A → Prop) l :
  (∀ x, x ∈ l → P x → Q x) → Forall P l → Forall Q l.
Proof. rewrite !Forall_forall. naive_solver. Qed.
Lemma find_None_elem {A} (P : A → Prop) `{∀ x, Decision (P x)} l :
  list_find P l = None → ∀ x, x ∈ l → ¬ P x.
Proof. intros Hf%list_find_None. by apply Forall_forall. Qed.

(** ** What an edit may do *)

(** An edit leaves a valid project, or refuses and changes nothing. *)
Definition edit_post {E A} (p : Project) (r : outcome E A) (p' : Project) : Prop :=
  match r with
  | Ret _ => project_valid p'
  | Throw _ => p' = p
  | Panic => False
  end.
Definition safe_edit {E A} (m : stm Project E A) : Prop :=
  ∀ p, project_valid p → wp m (edit_post p) p.

Lemma wp_position {A E} (ident : A → Z) k (l : Project → list A) (e : E) Q p :
  (∀ i x, l p !! i = Some x → ident x = k → Q (Ret i) p) →
  ((k ∉ ident <$> l p) → Q (Throw e) p) →
  wp (position_or ident k l e) Q p.
Proof.
  intros Hi He. unfold position_or. do 2 wp_step. apply wp_lift.
  - intros i Hpos%ok_or_Ok. apply position_Some in Hpos as (x & Hx & Hk). by eapply Hi.
  - intros e' [Hpos <-]%ok_or_Err. apply He. intros (x & -> & Hx)%list_elem_of_fmap.
    apply fmap_None in Hpos. by apply (find_None_elem _ _ Hpos x Hx).
Qed.
Lemma wp_validate {E} candidate (Q : outcome E (list ValidationError) → Project → Prop) p :
  (∀ errors, validate_project candidate = Some errors → Q (Ret errors) p) →
  wp (st_validate candidate) Q p.
Proof.
  intros HQ. unfold st_validate. destruct (validate_project_nil candidate) as (errors & He & _).
  apply wp_expect; [auto|congruence].
Qed.
Lemma wp_find_layer scene index Q p :
  (∀ i s l, scenes p !! i = Some s → scene_id s = scene → scene_layers s !! index = Some l →
     Q (Ret (i, l)) p) →
  (∀ e, (scene ∉ scene_ids p) ∨
        (∃ s, s ∈ scenes p ∧ scene_id s = scene ∧ scene_layers s !! index = None) →
     Q (Throw e) p) →
  wp (find_layer scene index) Q p.
Proof.
  intros Hi He. unfold find_layer. apply wp_bind, wp_position; [|auto]. intros i s Hs Hid. simpl.
  do 2 wp_step. apply wp_bind, wp_expect; [|congruence]. intros s' Hs'. simplify_eq. simpl.
  apply wp_bind, wp_lift.
  - intros l Hl%ok_or_Ok. wp_run. by eapply Hi.
  - intros e [Hnone _]%ok_or_Err. apply He. right. exists s.
    split_and!; [by eapply list_elem_of_lookup_2|done..].
Qed.
Lemma validate_valid p errors : validate_project p = Some errors → errors = [] ↔ project_valid p.
Proof. intros He. destruct (validate_project_nil p) as (? & ? & ?). by simplify_eq. Qed.

(** [edit_run]: run an edit up to its last assignment. *)
Ltac edit_run :=
  repeat first
    [ apply wp_bind, wp_position; [intros ? ? ? ?|intros _; exact eq_refl]
    | apply wp_bind, wp_find_layer; [intros ? ? ? ? ? ?|intros; exact eq_refl]
    | apply wp_bind, wp_validate; intros ? ?
    | wp_step ]; cbn beta iota.
