(* ===== verification/EditLaws.v ===== *)
(** What each edit of a project does to a valid one: scenes and layers, removals, audio
    buses, outputs and streaming targets, and inputs.  A [_safe] lemma says that an edit
    leaves a valid project or is refused without a change, a [_closes] lemma when a new
    source or send closes a cycle. *)
From S2P Require Import Prelude Text Types ProjectModel Validation ProjectEdits ProjectLaws.
#[local] Open Scope Z_scope.

(** ** Edits that add no source *)

Lemma rename_scene_safe scene name : safe_edit (rename_scene scene name).
Proof.
  intros p Hp. unfold rename_scene. edit_run; try done.
  apply valid_same_sources; [done|done| | |].
  - rewrite (fmap_alter_insert _ _ (to_ascii_lowercase name)) by done.
    eapply other_names; [apply lower_eq|apply Hp|done].
  - intros s Hs []. by split.
  - intros s l Hs Hl. by exists l.
Qed.
Lemma set_scene_background_safe scene background : safe_edit (set_scene_background scene background).
Proof.
  intros p Hp. unfold set_scene_background. edit_run; try done.
  apply valid_same_sources; [done|done| | |].
  - rewrite fmap_alter_same by done. apply Hp.
  - intros s Hs []. by split.
  - intros s l Hs Hl. by exists l.
Qed.
Lemma remove_layer_safe scene index : safe_edit (remove_layer_from_scene scene index).
Proof.
  intros p Hp. unfold remove_layer_from_scene. edit_run.
  apply (valid_layers p Hp (delete index)).
  - intros sc Hsc. apply Forall_delete. by eapply layers_ok.
  - intros sc k _ Hk. exists k. split; [|done]. by eapply list_elem_of_delete_inv.
Qed.
Lemma move_element_Permutation {A} source destination (x : A) l :
  l !! source = Some x → move_element source destination x l ≡ₚ l.
Proof.
  intros Hx. unfold move_element. rewrite <-Permutation_middle, take_drop.
  symmetry. by apply delete_Permutation.
Qed.
Lemma move_layer_safe scene source destination : safe_edit (move_scene_layer scene source destination).
Proof.
  intros p Hp. unfold move_scene_layer.
  apply wp_bind, wp_find_layer; [intros i s l Hs _ Hl|done].
  apply wp_bind, wp_find_layer; [intros _ _ _ _ _ _|done]. edit_run; [done|].
  assert (∀ s', scenes p !! i = Some s' →
    move_element source destination l (scene_layers s') ≡ₚ scene_layers s') as Hperm.
  { intros s' Hs'. simplify_eq. by apply move_element_Permutation. }
  apply (valid_layers p Hp (move_element source destination l)).
  - intros s' Hs'. rewrite Hperm by done. by eapply layers_ok.
  - intros s' k Hs'. rewrite Hperm by done. intros Hk. by exists k.
Qed.
Lemma set_z_order_safe scene index z_order : safe_edit (set_scene_layer_z_order scene index z_order).
Proof.
  intros p Hp. unfold set_scene_layer_z_order. edit_run. apply valid_alter_layer; [done..|].
  intros ? ? _ _ []. by split.
Qed.
Lemma rename_layer_safe scene index name : safe_edit (rename_scene_layer scene index name).
Proof.
  intros p Hp. unfold rename_scene_layer. edit_run; [|done]. apply valid_alter_layer; [done..|].
  intros ? ? _ _ []. by split.
Qed.
Lemma set_appearance_safe scene index enabled opacity :
  safe_edit (set_scene_layer_appearance scene index enabled opacity).
Proof.
  intros p Hp. unfold set_scene_layer_appearance. edit_run. apply valid_alter_layer; [done..|].
  intros ? ? _ _ []. by split.
Qed.
Lemma set_geometry_safe scene index geometry :
  safe_edit (set_scene_layer_geometry scene index geometry).
Proof.
  intros p Hp. unfold set_scene_layer_geometry. edit_run; [|done].
  apply valid_alter_layer; [done..|]. intros ? ? _ _ []. split; try done.
  by apply geometry_invalid_spec.
Qed.
Lemma crop_invalid_spec crop w h : crop_invalid crop w h = false ↔ crop_ok crop w h.
Proof. apply rect_invalid_spec. Qed.
Lemma mask_invalid_spec mask w h : mask_invalid mask w h = false ↔ mask_ok mask w h.
Proof. apply rect_invalid_spec. Qed.
(** A mask within a crop is within what the crop is cut from. *)
Lemma mask_ok_uncropped mask crop w h :
  mask_ok mask (Z.of_N (crop_width crop)) (Z.of_N (crop_height crop)) → crop_ok crop w h →
  mask_ok mask w h.
Proof. unfold mask_ok, crop_ok, rect_ok. intuition lia. Qed.
Lemma set_mask_safe scene index mask : safe_edit (set_scene_layer_mask scene index mask).
Proof.
  intros p Hp. unfold set_scene_layer_mask.
  apply wp_bind, wp_find_layer; [intros i s l Hs _ Hl|done]. edit_run; try done.
  all: apply valid_alter_layer; [done..|]; intros s' l' Hs' Hl' []; split; try done.
  simpl. intros mask' [= <-]. simplify_eq. rewrite Heqp0. by apply mask_invalid_spec.
Qed.
Lemma set_crop_safe scene index crop : safe_edit (set_scene_layer_crop scene index crop).
Proof.
  intros p Hp. unfold set_scene_layer_crop.
  apply wp_bind, wp_find_layer; [intros i s l Hs _ Hl|done]. edit_run; try done.
  all: apply valid_alter_layer; [done..|]; intros s' l' Hs' Hl' []; simplify_eq; split; try done; simpl.
  - intros crop' [= <-]. by apply crop_invalid_spec.
  - intros mask Hmask. simplify_eq. by apply mask_invalid_spec.
  - intros crop' [= <-]. by apply crop_invalid_spec.
  - intros mask Hmask. congruence.
  - intros mask Hmask. apply lo_mask in Hmask. destruct (layer_crop l) as [crop|]; [|done].
    apply (mask_ok_uncropped _ crop); [exact Hmask|by apply lo_crop].
Qed.

(** ** Edits that add a source *)

Section layers.
Context (p : Project) (Hp : project_valid p) (i : nat) (s : Scene) (Hs : scenes p !! i = Some s).
Context (g : list Layer → list Layer).
Let p' : Project := alter_scene (λ s, set_layers (g (scene_layers s)) s) i p.

Lemma scene_at_unique s' : s' ∈ scenes p → scene_id s' = scene_id s → s' = s.
Proof.
  intros (j & Hj)%list_elem_of_lookup Hid. assert (i = j) as ->; [|by simplify_eq].
  apply (NoDup_lookup (scene_ids p) i j (scene_id s)); [apply Hp|..];
    unfold scene_ids; rewrite list_lookup_fmap; [by rewrite Hs|by rewrite Hj, <-Hid].
Qed.
Lemma shows_at b : scene_shows p (scene_id s) b ↔ ∃ l, l ∈ scene_layers s ∧ layer_shows p l b.
Proof.
  split.
  - intros (s' & l & Hin & Hid & Hl & Hb). apply scene_at_unique in Hid as ->; [|done]. by exists l.
  - intros (l & Hl & Hb). exists s, l. split_and!; [by eapply list_elem_of_lookup_2|done..].
Qed.
Lemma shows_other a b : a ≠ scene_id s → scene_shows p' a b ↔ scene_shows p a b.
Proof.
  intros Ha. split.
  - intros [?|(s' & l & Hs' & <- & _)]%scene_shows_alter; [done| |done]. by simplify_eq.
  - intros (s' & l & (j & Hj)%list_elem_of_lookup & <- & Hl & Hb). exists s', l.
    split_and!; [|done..]. apply list_elem_of_lookup. exists j. unfold p', alter_scene. cbn.
    rewrite list_lookup_alter_ne; [done|]. intros ->. by simplify_eq.
Qed.
Lemma shows_changed b :
  scene_shows p' (scene_id s) b ↔ ∃ l, l ∈ g (scene_layers s) ∧ layer_shows p l b.
Proof.
  assert (scenes p' !! i = Some (set_layers (g (scene_layers s)) s)) as Hi.
  { unfold p', alter_scene. cbn. by rewrite list_lookup_alter_eq, Hs. }
  split.
  - intros (s' & l & (j & Hj)%list_elem_of_lookup & Hid & Hl & Hb).
    assert (j = i) as ->; [|simplify_eq; by exists l].
    apply (NoDup_lookup (scene_ids p') j i (scene_id s)).
    + unfold p'. rewrite alter_scene_ids by done. apply Hp.
    + unfold scene_ids. by rewrite list_lookup_fmap, Hj, <-Hid.
    + unfold scene_ids. by rewrite list_lookup_fmap, Hi.
  - intros (l & Hl & Hb). eexists _, l. split_and!; [by eapply list_elem_of_lookup_2|done..].
Qed.

(** The change adds at most what [source] shows: it closes a cycle exactly when that leads
    back to the scene. *)
Lemma change_closes source :
  (∀ l, l ∈ g (scene_layers s) → l ∈ scene_layers s ∨ layer_source l = source) →
  (∃ l, l ∈ g (scene_layers s) ∧ layer_source l = source) →
  tc (scene_shows p') (scene_id s) (scene_id s) ↔
  ∃ b, source_shows p source b ∧ rtc (scene_shows p) b (scene_id s).
Proof.
  intros Hsub (l & Hl & Hsrc). apply closes_cycle; [|intros b|intros b|apply Hp].
  - intros a b. apply shows_other.
  - rewrite shows_changed, shows_at. intros (l' & Hl' & Hb). unfold layer_shows in *.
    destruct (Hsub l' Hl') as [?| <-]; [left; by exists l'|by right].
  - rewrite shows_changed. intros Hb. exists l. split; [done|]. unfold layer_shows. by rewrite Hsrc.
Qed.
Lemma valid_changed_layers :
  Forall (layer_ok p (scene_id s)) (g (scene_layers s)) →
  ¬ tc (scene_shows p') (scene_id s) (scene_id s) → project_valid p'.
Proof.
  intros Hok Htc. apply valid_alter_scene; [done|done| | |].
  - rewrite fmap_alter_same by done. apply Hp.
  - intros s' Hs' []. simplify_eq. by split.
  - eapply (acyclic_closing (scene_shows p) _ (scene_id s)); [|apply Hp|done].
    intros a b. apply shows_other.
Qed.
End layers.

(** What the document of a layer must satisfy beside its name and source. *)
Record layer_shape (p : Project) (l : Layer) : Prop := {
  ls_geometry : geometry_ok (layer_geometry l);
  ls_crop : ∀ crop, layer_crop l = Some crop → crop_ok crop (project_width p) (project_height p);
  ls_mask : ∀ mask, layer_mask l = Some mask →
    mask_ok mask (source_size p (layer_crop l)).1 (source_size p (layer_crop l)).2
}.
Definition source_exists (p : Project) (source : SourceRef) : Prop :=
  match source with
  | SourceInput input => input ∈ input_ids p
  | SourceScene scene => scene ∈ scene_ids p
  end.
(** Does a source lead to the scene? *)
Definition leads_to (p : Project) (source : SourceRef) (scene : SceneId) : Prop :=
  ∃ b, source_shows p source b ∧ rtc (scene_shows p) b scene.
Lemma source_ok_exists p scene source :
  source_exists p source → ¬ leads_to p source scene → source_ok p scene source.
Proof.
  unfold leads_to. destruct source as [input|other]; simpl; [done|]. intros Hex Hno. split; [|done].
  intros ->. apply Hno. exists scene. split; [by left|done].
Qed.

Lemma wp_check_source {E} (mi ms : Z → E) source Q p :
  (source_exists p source → Q (Ret tt) p) →
  (∀ e, ¬ source_exists p source → Q (Throw e) p) →
  wp (check_source mi ms source) Q p.
Proof.
  intros Hok He. unfold check_source. apply wp_bind, wp_get. cbn.
  destruct source as [input|scene]; apply wp_require; rewrite ?has_input_spec, ?has_scene_spec; eauto.
Qed.

Section add_layer.
Context (p : Project) (Hp : project_valid p) (i : nat) (s : Scene) (Hs : scenes p !! i = Some s).
Context (l : Layer).
Let candidate := alter_scene (λ s, set_layers (scene_layers s ++ [l]) s) i p.

Lemma candidate_ids :
  NoDup (input_ids candidate) ∧ NoDup (scene_ids candidate) ∧ NoDup (bus_ids candidate).
Proof. unfold candidate. rewrite alter_scene_ids by done. split_and!; apply Hp. Qed.
Lemma add_layer_closes :
  tc (scene_shows candidate) (scene_id s) (scene_id s) ↔ leads_to p (layer_source l) (scene_id s).
Proof.
  apply (change_closes p Hp i s Hs (λ ls, ls ++ [l])).
  - intros l' [?| ->%list_elem_of_singleton]%elem_of_app; auto.
  - exists l. split; [set_solver|done].
Qed.
Lemma add_layer_valid :
  name_ok (layer_name l) → layer_shape p l → source_exists p (layer_source l) →
  ¬ leads_to p (layer_source l) (scene_id s) → project_valid candidate.
Proof.
  intros Hname [] Hsrc Hno. apply (valid_changed_layers p Hp i s Hs (λ ls, ls ++ [l])).
  - apply Forall_app. split; [by eapply layers_ok|]. apply Forall_singleton.
    split; [done..|]. by apply source_ok_exists.
  - intros Htc. by apply Hno, add_layer_closes.
Qed.
End add_layer.

Lemma add_layer_safe p scene l :
  project_valid p → layer_shape p l → wp (add_layer_to_scene scene l) (edit_post p) p.
Proof.
  intros Hp Hl. unfold add_layer_to_scene.
  apply wp_bind, wp_position; [intros i s Hs <-|done]. wp_step; wp_step; [|done].
  wp_step. apply wp_check_source; [intros Hsrc|done]. edit_run; [|done].
  destruct (candidate_ids p Hp i l) as (? & ? & ?).
  apply (add_layer_valid p Hp i s Hs); [done..|].
  rewrite <-(add_layer_closes p Hp i s Hs), <-scene_source_error by done. congruence.
Qed.
Lemma existing_shape p i s j l name :
  project_valid p → scenes p !! i = Some s → scene_layers s !! j = Some l →
  layer_shape p (set_layer_name name l).
Proof.
  intros Hp Hs Hl. pose proof (layers_ok p Hp i s Hs) as Hok.
  eapply Forall_lookup_1 in Hok as []; [|done]. by split.
Qed.
Lemma edit_post_map_err {E E' A} (f : E → E') p (r : outcome E A) p' :
  edit_post p r p' → edit_post p (outcome_map_err f r) p'.
Proof. by destruct r. Qed.
Lemma duplicate_layer_safe scene index name : safe_edit (duplicate_scene_layer scene index name).
Proof.
  intros p Hp. unfold duplicate_scene_layer.
  apply wp_bind, wp_find_layer; [intros i s l Hs _ Hl|done]. wp_step; wp_step; [|done].
  apply wp_map_err. eapply wp_mono; [apply add_layer_safe; [done|by eapply existing_shape]|].
  intros r p'. apply edit_post_map_err.
Qed.
Lemma copy_layer_safe source_scene index target_scene name :
  safe_edit (copy_scene_layer source_scene index target_scene name).
Proof.
  intros p Hp. unfold copy_scene_layer.
  apply wp_bind, wp_find_layer; [intros i s l Hs _ Hl|done].
  do 2 wp_step. do 3 (wp_step; wp_step; [|done]).
  apply wp_map_err. eapply wp_mono; [apply add_layer_safe; [done|by eapply existing_shape]|].
  intros r p'. apply edit_post_map_err.
Qed.

Section set_source.
Context (p : Project) (Hp : project_valid p) (i : nat) (s : Scene) (Hs : scenes p !! i = Some s).
Context (index : nat) (l : Layer) (Hl : scene_layers s !! index = Some l) (source : SourceRef).
Let probe := alter_scene (set_layers [set_layer_source source l]) i p.
Let changed := alter_layer (set_layer_source source) i index p.

Lemma probe_ids : NoDup (input_ids probe) ∧ NoDup (scene_ids probe) ∧ NoDup (bus_ids probe).
Proof. unfold probe. rewrite alter_scene_ids by done. split_and!; apply Hp. Qed.
(** The probe with its one layer finds the cycles of the change. *)
Lemma probe_closes :
  tc (scene_shows probe) (scene_id s) (scene_id s) ↔ leads_to p source (scene_id s).
Proof.
  apply (change_closes p Hp i s Hs (λ _, [set_layer_source source l])).
  - intros l' ->%list_elem_of_singleton. by right.
  - eexists. split; [by left|done].
Qed.
Lemma set_source_closes :
  tc (scene_shows changed) (scene_id s) (scene_id s) ↔ leads_to p source (scene_id s).
Proof.
  apply (change_closes p Hp i s Hs (alter (set_layer_source source) index)).
  - intros l' (j & Hj)%list_elem_of_lookup. destruct (decide (index = j)) as [->|Hne].
    + rewrite list_lookup_alter_eq, Hl in Hj. simplify_eq/=. by right.
    + rewrite list_lookup_alter_ne in Hj by done. left. by eapply list_elem_of_lookup_2.
  - exists (set_layer_source source l). split; [|done]. apply list_elem_of_lookup. exists index.
    by rewrite list_lookup_alter_eq, Hl.
Qed.
Lemma set_source_valid :
  source_exists p source → ¬ leads_to p source (scene_id s) → project_valid changed.
Proof.
  intros Hsrc Hno. apply (valid_changed_layers p Hp i s Hs (alter (set_layer_source source) index)).
  - apply Forall_alter; [by eapply layers_ok|]. intros l' _ []. split; [done..|].
    by apply source_ok_exists.
  - intros Htc. by apply Hno, set_source_closes.
Qed.
End set_source.
Lemma set_source_safe scene index source : safe_edit (set_scene_layer_source scene index source).
Proof.
  intros p Hp. unfold set_scene_layer_source.
  apply wp_bind, wp_find_layer; [intros i s l Hs <- Hl|done]. cbn beta iota.
  wp_step. apply wp_check_source; [intros Hsrc|done]. edit_run; [|done].
  destruct (probe_ids p Hp i l source) as (? & ? & ?).
  eapply set_source_valid; [done..|].
  rewrite <-(probe_closes p Hp i s Hs l), <-scene_cycle_error by done. congruence.
Qed.

Section remove_scene.
Context (p : Project) (Hp : project_valid p) (scene : SceneId).
Let p' : Project := set_scenes (filter (λ x, scene_id x ≠ scene) (scenes p)) p.
Lemma valid_without_scene :
  (∀ i, i ∈ inputs p → ¬ shows_scene scene i = true) →
  (∀ s l, s ∈ scenes p → l ∈ scene_layers s → layer_source l ≠ SourceScene scene) →
  (∀ o, o ∈ outputs p → out_video_source o ≠ scene) → project_valid p'.
Proof.
  intros Hi Hl Ho.
  assert (∀ k, k ∈ scene_ids p' ↔ k ∈ scene_ids p ∧ k ≠ scene) as Hids by apply ids_filter.
  destruct Hp as [[] Hscene]. subst p'. split; [split|..]; try done.
  - destruct pv_unique. split; try done; by apply NoDup_fmap_filter.
  - eapply Forall_elem_impl; [|done]. intros i Hin. apply input_ok_transfer; [done| |done].
    intros s audio Hk Hs. apply Hids. split; [done|]. intros ->. apply (Hi i Hin).
    unfold shows_scene. rewrite Hk. by apply bool_decide_eq_true.
  - eapply Forall_shrink; [|done]. intros s Hs. apply scene_ok_transfer; [done|done|].
    intros l x Hl' Hx Hin. apply Hids. split; [done|]. intros ->. by apply (Hl s l).
  - eapply Forall_impl; [done|]. intros b []. by split.
  - eapply Forall_elem_impl; [|done]. intros o Hin []. split; [done| |done|done].
    apply Hids. split; [done|]. by apply Ho.
  - eapply Forall_impl; [done|]. intros t []. by split.
  - apply (acyclic_sub (scene_shows p)); [|done].
    intros a b (s & l & [_ Hs]%list_elem_of_filter & Hrest). by exists s, l.
Qed.
End remove_scene.
Lemma remove_scene_safe scene : safe_edit (remove_scene scene).
Proof.
  intros p Hp. unfold remove_scene. edit_run; try done.
  repeat match goal with H : list_find _ _ = None |- _ => pose proof (find_None_elem _ _ H); clear H end.
  apply valid_without_scene; try done. intros s l Hs Hl Heq.
  match goal with H : ∀ x, x ∈ scenes p → _ |- _ => apply (H s Hs) end.
  apply Exists_exists. by exists l.
Qed.

Section remove_input.
Context (p : Project) (Hp : project_valid p) (input : InputId) (Href : input_referenced input p = false).
Let p' : Project :=
  set_strips (filter (λ x, strip_input x ≠ input) (input_audio_strips p))
    (set_inputs (filter (λ x, in_id x ≠ input) (inputs p)) p).
(** What [input_referenced] excludes. *)
Lemma unreferenced :
  (∀ mix, main_mix p = Some mix → desired_program mix ≠ input ∧ desired_preview mix ≠ input) ∧
  (∀ s, s ∈ stingers p → media_input s ≠ input) ∧
  (∀ s l, s ∈ scenes p → l ∈ scene_layers s → layer_source l ≠ SourceInput input) ∧
  (∀ i s, i ∈ inputs p → in_kind i ≠ KindScene s (Some input)).
Proof.
  unfold input_referenced in Href. rewrite !orb_false_iff in Href. destruct Href as [[[Hm Hst] Hl] Ha].
  apply not_true_iff_false in Hst, Hl, Ha. rewrite existsb_exists in Hst, Hl, Ha.
  split_and!.
  - intros mix Hmix. rewrite Hmix in Hm. apply bool_decide_eq_false in Hm. naive_solver.
  - intros s Hs Heq. apply Hst. exists s. rewrite <-list_elem_of_In, bool_decide_eq_true. done.
  - intros s l Hs Hin Heq. apply Hl. exists s. rewrite <-list_elem_of_In, existsb_exists. split; [done|].
    exists l. rewrite <-list_elem_of_In, bool_decide_eq_true. done.
  - intros i s Hi Heq. apply Ha. exists i. rewrite <-list_elem_of_In, Heq, bool_decide_eq_true. done.
Qed.
Lemma strips_filter (l : list InputAudioStrip) :
  strip_input <$> filter (λ x, strip_input x ≠ input) l = filter (λ x, x ≠ input) (strip_input <$> l).
Proof. induction l as [|x l IH]; [done|]. rewrite fmap_cons, !filter_cons. repeat case_decide; try done. by rewrite fmap_cons, IH. Qed.
Lemma inputs_filter (l : list Input) :
  in_id <$> filter (λ x, in_id x ≠ input) l = filter (λ x, x ≠ input) (in_id <$> l).
Proof. induction l as [|x l IH]; [done|]. rewrite fmap_cons, !filter_cons. repeat case_decide; try done. by rewrite fmap_cons, IH. Qed.
Lemma valid_without_input : project_valid p'.
Proof.
  destruct unreferenced as (Hm & Hst & Hl & Ha).
  assert (∀ k, k ∈ input_ids p' ↔ k ∈ input_ids p ∧ k ≠ input) as Hids by apply ids_filter.
  destruct Hp as [[] Hscene Haudio]. subst p'. split; [split|..]; try done.
  - destruct pv_unique. split; try done; by apply NoDup_fmap_filter.
  - eapply Forall_shrink; [|done]. intros i Hin. apply input_ok_transfer; [done|done|].
    intros s x Hk Hx. apply Hids. split; [done|]. intros ->. by apply (Ha i s).
  - unfold input_ids. cbn. by rewrite strips_filter, inputs_filter, pv_strips.
  - intros mix Hmix. destruct (pv_mix mix Hmix) as (? & ? & ?). destruct (Hm mix Hmix).
    split_and!; [by apply Hids..|done].
  - eapply Forall_elem_impl; [|done]. intros s Hs Hin. apply Hids. split; [done|by apply Hst].
  - eapply Forall_elem_impl; [|done]. intros s Hs. apply scene_ok_transfer; [done| |done].
    intros l i Hin Hi Hx. apply Hids. split; [done|]. intros ->. by apply (Hl s l).
  - eapply Forall_impl; [done|]. intros b []. by split.
  - eapply Forall_impl; [done|]. intros o []. by split.
  - eapply Forall_impl; [done|]. intros t []. by split.
  - apply (acyclic_sub (scene_shows p)); [|done].
    intros a b (s & l & Hs & Hid & Hin & [?|(i & audio & Hi & ? & ?)]); exists s, l;
      (split_and!; [done..|]); [by left|right]. apply list_elem_of_filter in Hi as [_ ?]. by exists i, audio.
  - apply (acyclic_sub (audio_follows p)); [|done].
    intros a b (i & s & [_ Hi]%list_elem_of_filter & Hrest). by exists i, s.
Qed.
End remove_input.
Lemma remove_input_safe input : safe_edit (remove_input input).
Proof. intros p Hp. unfold remove_input. edit_run; try done. by apply (valid_without_input p Hp). Qed.

Section remove_bus.
Context (p : Project) (Hp : project_valid p) (bus : BusId).
Let p' : Project := set_buses (filter (λ x, bus_id x ≠ bus) (audio_buses p)) p.
Lemma valid_without_bus :
  (∀ o, o ∈ outputs p → out_audio_source o ≠ bus) →
  (∀ b, b ∈ audio_buses p → bus_id b ≠ bus → bus ∉ bus_sends b) → project_valid p'.
Proof.
  intros Ho Hb.
  assert (∀ k, k ∈ bus_ids p' ↔ k ∈ bus_ids p ∧ k ≠ bus) as Hids by apply ids_filter.
  destruct Hp as [[] Hscene Haudio Hbus]. subst p'. split; [split|..]; try done.
  - destruct pv_unique. split; try done; by apply NoDup_fmap_filter.
  - eapply Forall_impl; [done|]. intros i [? ? Hk ?]. by split.
  - eapply Forall_impl; [done|]. intros s. by apply scene_ok_transfer.
  - apply Forall_forall. intros b [Hne Hin]%list_elem_of_filter.
    pose proof (proj1 (Forall_forall _ _) pv_buses b Hin) as []. split; [done|done| |done].
    intros k Hk. apply Hids. split; [by apply bo_exist|]. intros ->. by apply (Hb b).
  - eapply Forall_elem_impl; [|done]. intros o Hin []. split; [done|done| |done].
    apply Hids. split; [done|]. by apply Ho.
  - eapply Forall_impl; [done|]. intros t []. by split.
  - apply (acyclic_sub (bus_feeds p)); [|done].
    intros a b (s & [_ Hs]%list_elem_of_filter & Hrest). by exists s.
Qed.
End remove_bus.
Lemma remove_bus_safe bus : safe_edit (remove_audio_bus bus).
Proof.
  intros p Hp. unfold remove_audio_bus. edit_run; try done.
  all: repeat match goal with H : list_find _ _ = None |- _ => pose proof (find_None_elem _ _ H); clear H end.
  all: apply valid_without_bus; try done; intros b Hb Hne Hin;
    match goal with H : ∀ x, x ∈ audio_buses _ → _ |- _ => by apply (H b Hb) end.
Qed.

Lemma remove_output_safe output : safe_edit (remove_output output).
Proof.
  intros p Hp. unfold remove_output. edit_run; try done.
  match goal with H : list_find _ _ = None |- _ => pose proof (find_None_elem _ _ H) as Hno end.
  set (p' := set_outputs _ p).
  assert (∀ k, k ∈ output_ids p' ↔ k ∈ output_ids p ∧ k ≠ output) as Hids by apply ids_filter.
  destruct Hp as [[] Hscene Haudio Hbus]. subst p'. split; [split|..]; try done.
  - destruct pv_unique. split; try done; by apply NoDup_fmap_filter.
  - eapply Forall_impl; [done|]. intros i []. by split.
  - eapply Forall_impl; [done|]. intros s. by apply scene_ok_transfer.
  - eapply Forall_impl; [done|]. intros b []. by split.
  - eapply Forall_shrink; [|done]. intros o _ []. by split.
  - eapply Forall_elem_impl; [|done]. intros t Ht []. split; [done|done|].
    apply Hids. split; [done|]. by apply Hno.
Qed.
Lemma remove_target_safe target : safe_edit (remove_stream_target target).
Proof.
  intros p Hp. unfold remove_stream_target. edit_run; [|done].
  apply valid_targets; [done|by apply NoDup_fmap_filter, Hp..|].
  eapply Forall_shrink; [|apply Hp]. intros t _ []. by split.
Qed.
Lemma remove_stinger_edit_safe {E} number : safe_edit (remove_stinger (E := E) number).
Proof.
  intros p Hp. unfold remove_stinger. edit_run; [|done]. apply valid_stingers; [done| |].
  - rewrite list_fmap_delete. eapply sublist_NoDup; [|apply sublist_delete]. apply Hp.
  - apply Forall_delete, Hp.
Qed.

(** ** Buses *)

Section alter_bus.
Context (p : Project) (Hp : project_valid p) (f : AudioBus → AudioBus) (i : nat).
Context (Hf : ∀ b, bus_id (f b) = bus_id b).
Let p' : Project := alter_bus f i p.
Lemma alter_bus_ids : bus_ids p' = bus_ids p.
Proof. by apply fmap_alter_same. Qed.
Lemma alter_bus_kept : kept p p'.
Proof. split; try done. by rewrite alter_bus_ids. Qed.
Lemma valid_alter_bus :
  NoDup (to_ascii_lowercase ∘ bus_name <$> alter f i (audio_buses p)) →
  (∀ b, audio_buses p !! i = Some b → bus_ok p b → bus_ok p (f b)) →
  acyclic (bus_feeds p') → project_valid p'.
Proof.
  intros Hnames Hok Hac. pose proof alter_bus_ids as Hids.
  apply valid_buses; [done|by rewrite <-Hids| |done| |done].
  - change (NoDup (bus_ids p')). rewrite Hids. apply Hp.
  - eapply Forall_kept; [intros b; apply (bus_ok_kept _ _ _ alter_bus_kept)|].
    apply Forall_alter; [apply Hp|done].
Qed.
Lemma bus_feeds_alter a b :
  bus_feeds p' a b →
  bus_feeds p a b ∨ ∃ bus, audio_buses p !! i = Some bus ∧ bus_id bus = a ∧ b ∈ bus_sends (f bus).
Proof.
  intros (bus & (j & Hj)%list_elem_of_lookup & <- & Hb). unfold p', alter_bus in Hj. cbn in Hj.
  destruct (decide (i = j)) as [->|Hij].
  - rewrite list_lookup_alter_eq in Hj. apply fmap_Some in Hj as (bus' & Hbus & ->). right.
    exists bus'. by rewrite Hf.
  - rewrite list_lookup_alter_ne in Hj by done. left. exists bus.
    split_and!; [by eapply list_elem_of_lookup_2|done..].
Qed.
End alter_bus.
Lemma bus_ok_at p i b : project_valid p → audio_buses p !! i = Some b → bus_ok p b.
Proof. intros Hp Hb. eapply Forall_lookup_1; [apply Hp|done]. Qed.

Lemma tc_last {A} (R : relation A) a b : tc R a b → ∃ c, R c b.
Proof. induction 1 as [a b Hab|a b c _ _ IH]; [by exists a|done]. Qed.
(** What a new bus must satisfy beside its name and identity. *)
Definition sends_ok (p : Project) (bus : AudioBus) : Prop :=
  bus_sends bus ⊆ bus_ids p ∧ NoDup (bus_sends bus).
Lemma add_bus_safe p bus :
  project_valid p → sends_ok p bus → wp (add_audio_bus_checked bus) (edit_post p) p.
Proof.
  intros Hp [Hsub Honce]. unfold add_audio_bus_checked. edit_run; try done.
  set (p' := set_buses _ p).
  assert (bus_ids p' = bus_ids p ++ [bus_id bus]) as Hids by apply (fmap_app bus_id (audio_buses p) [bus]).
  assert (kept p p') as Hk by (split; try done; rewrite Hids; set_solver).
  assert (bus_id bus ∉ bus_ids p) as Hfresh by by rewrite <-has_bus_spec, not_true_iff_false.
  assert (Forall (bus_ok p') (audio_buses p')) as Hok.
  { apply Forall_app. split.
    - eapply Forall_kept; [intros b; apply (bus_ok_kept _ _ _ Hk)|apply Hp].
    - apply Forall_singleton. split; [done| | |done]; [by intros ?%Hsub|].
      etrans; [exact Hsub|apply Hk]. }
  apply valid_buses; [done|by apply Hk| | |done|].
  - change (NoDup (bus_ids p')). rewrite Hids. apply NoDup_snoc_1; [apply Hp|done].
  - rewrite fmap_app. eapply fresh_name; [apply lower_eq|apply Hp|done].
  - apply (acyclic_closing (bus_feeds p) _ (bus_id bus)); [|apply Hp|].
    + intros a b Ha. split.
      * intros (x & [Hx| ->%list_elem_of_singleton]%elem_of_app & Hid & Hb); [by exists x|done].
      * intros (x & Hx & Hrest). exists x. split; [|done]. apply elem_of_app. by left.
    + intros [c (x & [Hx| ->%list_elem_of_singleton]%elem_of_app & _ & Hb)]%tc_last;
        [|by apply Hsub in Hb].
      apply Hfresh. eapply bo_exist; [|exact Hb]. eapply Forall_forall; [apply Hp|done].
Qed.
Lemma rename_bus_safe bus name : safe_edit (rename_audio_bus bus name).
Proof.
  intros p Hp. unfold rename_audio_bus. edit_run; try done.
  apply valid_alter_bus; [done|done| | |].
  - rewrite (fmap_alter_insert _ _ (to_ascii_lowercase name)) by done.
    eapply other_names; [apply lower_eq|apply Hp|done].
  - intros b _ []. by split.
  - apply (acyclic_sub (bus_feeds p)); [|apply Hp].
    intros a b [?|(y & Hy & <- & Hb)]%bus_feeds_alter; [done| |done].
    exists y. split_and!; [by eapply list_elem_of_lookup_2|done..].
Qed.
Lemma wp_check_send source destination Q p :
  (∀ i b, audio_buses p !! i = Some b → bus_id b = source → destination ∈ bus_ids p →
     source ≠ destination → Q (Ret i) p) →
  (∀ e, (source ∉ bus_ids p) ∨ (destination ∉ bus_ids p) ∨ source = destination → Q (Throw e) p) →
  wp (check_send source destination) Q p.
Proof.
  intros Hok He. unfold check_send. apply wp_bind, wp_position; [intros i b Hb Hid|by auto].
  do 2 wp_step. cbn. wp_step. wp_step; [|rewrite has_bus_spec in *; auto].
  wp_step. wp_step; [|apply He; right; right; by apply dec_stable]. wp_step. apply (Hok i b); try done.
  by apply has_bus_spec.
Qed.
Lemma remove_send_safe source destination : safe_edit (remove_audio_bus_send source destination).
Proof.
  intros p Hp. unfold remove_audio_bus_send.
  apply wp_bind, wp_check_send; [intros i b Hb _ _ _|by intros]. edit_run; try (done || congruence).
  apply valid_alter_bus; [done|done| | |].
  - rewrite fmap_alter_same by done. apply Hp.
  - intros b' _ []. split; [done| | |]; simpl.
    + intros Hin%list_elem_of_delete_inv. done.
    + intros x Hin%list_elem_of_delete_inv. by apply bo_exist.
    + eapply sublist_NoDup; [|apply sublist_delete]. done.
  - apply (acyclic_sub (bus_feeds p)); [|apply Hp].
    intros a1 a2 [?|(x & Hx & <- & Hin%list_elem_of_delete_inv)]%bus_feeds_alter; [done| |done].
    exists x. split_and!; [by eapply list_elem_of_lookup_2|done..].
Qed.

Section add_send.
Context (p : Project) (Hp : project_valid p) (i : nat) (bus : AudioBus).
Context (Hbus : audio_buses p !! i = Some bus) (destination : BusId).
Let p' : Project := alter_bus (λ b, set_sends (bus_sends b ++ [destination]) b) i p.
Lemma add_send_ids : NoDup (input_ids p') ∧ NoDup (scene_ids p') ∧ NoDup (bus_ids p').
Proof. unfold p'. rewrite alter_bus_ids by done. split_and!; apply Hp. Qed.
Lemma bus_at_unique b : b ∈ audio_buses p → bus_id b = bus_id bus → b = bus.
Proof.
  intros (j & Hj)%list_elem_of_lookup Hid. assert (i = j) as ->; [|by simplify_eq].
  apply (NoDup_lookup (bus_ids p) i j (bus_id bus)); [apply Hp|..];
    unfold bus_ids; rewrite list_lookup_fmap; [by rewrite Hbus|by rewrite Hj, <-Hid].
Qed.
Lemma add_send_feeds a b :
  bus_feeds p' a b ↔ bus_feeds p a b ∨ (a = bus_id bus ∧ b = destination).
Proof.
  assert (audio_buses p' !! i = Some (set_sends (bus_sends bus ++ [destination]) bus)) as Hi.
  { unfold p', alter_bus. cbn. by rewrite list_lookup_alter_eq, Hbus. }
  split.
  - intros [?|(x & Hx & <- & Hin)]%bus_feeds_alter; [by left| |done]. simplify_eq/=.
    apply elem_of_app in Hin as [Hin| ->%list_elem_of_singleton]; [left|by right].
    exists bus. split_and!; [by eapply list_elem_of_lookup_2|done..].
  - intros [(x & Hx & <- & Hin)|[-> ->]].
    + apply list_elem_of_lookup in Hx as [j Hj]. destruct (decide (i = j)) as [<-|Hij].
      * simplify_eq. eexists. split_and!; [by eapply list_elem_of_lookup_2|done|].
        apply elem_of_app. by left.
      * exists x. split_and!; [|done..]. apply list_elem_of_lookup. exists j. unfold p', alter_bus. cbn.
        by rewrite list_lookup_alter_ne.
    + eexists. split_and!; [by eapply list_elem_of_lookup_2|done|]. apply elem_of_app. right. by left.
Qed.
Lemma add_send_closes :
  tc (bus_feeds p') (bus_id bus) (bus_id bus) ↔ rtc (bus_feeds p) destination (bus_id bus).
Proof.
  rewrite (closes_cycle (bus_feeds p) _ _ (λ b, b = destination)); [naive_solver| | | |apply Hp].
  - intros a b Ha. rewrite add_send_feeds. naive_solver.
  - intros b. rewrite add_send_feeds. naive_solver.
  - intros b ->. rewrite add_send_feeds. by right.
Qed.
Lemma add_send_valid :
  destination ∈ bus_ids p → bus_id bus ≠ destination → (destination ∉ bus_sends bus) →
  ¬ rtc (bus_feeds p) destination (bus_id bus) → project_valid p'.
Proof.
  intros Hdest Hself Hdup Hno. apply valid_alter_bus; [done|done| | |].
  - rewrite fmap_alter_same by done. apply Hp.
  - intros b Hb []. simplify_eq. split; [done| | |]; simpl.
    + intros [?| ?%list_elem_of_singleton]%elem_of_app; done.
    + intros x [?| ->%list_elem_of_singleton]%elem_of_app; [by apply bo_exist|done].
    + by apply NoDup_snoc_1.
  - apply (acyclic_closing (bus_feeds p) (bus_feeds p') (bus_id bus)); [|apply Hp|by intros ?%add_send_closes].
    intros a b Ha. rewrite add_send_feeds. naive_solver.
Qed.
(** The send that is taken back leaves what was there. *)
Lemma add_send_undone : alter_bus (λ b, set_sends (removelast (bus_sends b)) b) i p' = p.
Proof.
  unfold p', alter_bus. cbn. rewrite list_alter_alter_eq, list_alter_id; [by destruct p|].
  intros []. simpl. unfold set_sends. cbn. by rewrite removelast_last.
Qed.
End add_send.
Lemma add_send_safe source destination : safe_edit (add_audio_bus_send source destination).
Proof.
  intros p Hp. unfold add_audio_bus_send.
  apply wp_bind, wp_check_send; [intros i b Hb _ _ _|by intros]. edit_run; try (done || congruence).
  - by eapply validate_valid.
  - by eapply add_send_undone.
  - by eapply add_send_undone.
Qed.

(** ** Outputs *)

Section alter_output.
Context (p : Project) (Hp : project_valid p) (f : Output → Output) (i : nat).
Context (Hf : ∀ b, out_id (f b) = out_id b).
Lemma valid_alter_output :
  NoDup (to_ascii_lowercase ∘ out_name <$> alter f i (outputs p)) →
  (∀ b, outputs p !! i = Some b → output_ok p b → output_ok p (f b)) →
  project_valid (alter_output f i p).
Proof.
  intros Hnames Hok.
  assert (output_ids (alter_output f i p) = output_ids p) as Hids by by apply fmap_alter_same.
  apply valid_outputs; [done|by rewrite <-Hids| |done|].
  - unfold alter_output in Hids. rewrite Hids. apply Hp.
  - eapply Forall_impl; [by apply Forall_alter; [apply Hp|]|]. intros o []. by split.
Qed.
End alter_output.
(** What a new output must satisfy beside its name, identity and route. *)
Lemma add_output_safe p output :
  project_valid p → Forall (λ key, capability_key_valid key = true) (out_required_capabilities output) →
  wp (add_output_checked output) (edit_post p) p.
Proof.
  intros Hp Hcap. unfold add_output_checked. edit_run; try done.
  set (p' := set_outputs _ p).
  assert (output_ids p' = output_ids p ++ [out_id output]) as Hids
    by apply (fmap_app out_id (outputs p) [output]).
  apply valid_outputs; [done| | | |].
  - change (output_ids p ⊆ output_ids p'). rewrite Hids. set_solver.
  - change (NoDup (output_ids p')). rewrite Hids. apply NoDup_snoc_1; [apply Hp|].
    by rewrite <-has_output_spec, not_true_iff_false.
  - rewrite fmap_app. eapply fresh_name; [apply lower_eq|apply Hp|done].
  - apply Forall_app. split.
    + eapply Forall_impl; [apply Hp|]. intros o []. by split.
    + apply Forall_singleton. split; [done| | |done]; [by apply has_scene_spec|by apply has_bus_spec].
Qed.
Lemma set_output_route_safe output scene bus : safe_edit (set_output_route output scene bus).
Proof.
  intros p Hp. unfold set_output_route. edit_run; try done. apply valid_alter_output; [done|done| |].
  - rewrite fmap_alter_same by done. apply Hp.
  - intros o _ []. split; [done| | |done]; [by apply has_scene_spec|by apply has_bus_spec].
Qed.
Lemma set_output_startup_safe output startup : safe_edit (set_output_startup output startup).
Proof.
  intros p Hp. unfold set_output_startup. edit_run. apply valid_alter_output; [done|done| |].
  - rewrite fmap_alter_same by done. apply Hp.
  - intros o _ []. by split.
Qed.
Lemma rename_output_safe output name : safe_edit (rename_output output name).
Proof.
  intros p Hp. unfold rename_output. edit_run; try done. apply valid_alter_output; [done|done| |].
  - rewrite (fmap_alter_insert _ _ (to_ascii_lowercase name)) by done.
    eapply other_names; [apply lower_eq|apply Hp|done].
  - intros o _ []. by split.
Qed.

(** ** Destinations and stingers *)

(** The names that [StreamTarget] allows. *)
Definition target_named (t : StreamTarget) : Prop :=
  name_ok (tg_name t) ∧ (str_len (tg_name t) ≤ MAX_STREAM_TARGET_NAME_BYTES)%nat.
Lemma add_target_safe p target :
  project_valid p → target_named target → wp (add_stream_target_checked target) (edit_post p) p.
Proof.
  intros Hp [Hname Hlen]. unfold add_stream_target_checked. edit_run; try done.
  apply valid_targets; [done| | |].
  - rewrite fmap_app. apply NoDup_snoc_1; [apply Hp|]. by rewrite <-has_target_spec, not_true_iff_false.
  - rewrite fmap_app. eapply fresh_name; [apply lower_eq|apply Hp|done].
  - apply Forall_app. split.
    + eapply Forall_impl; [apply Hp|]. intros t []. by split.
    + apply Forall_singleton. split; [done..|]. by apply has_output_spec.
Qed.
Lemma replace_target_safe p target :
  project_valid p → target_named target → wp (replace_stream_target target) (edit_post p) p.
Proof.
  intros Hp [Hname Hlen]. unfold replace_stream_target.
  apply wp_bind, wp_position; [intros i t Ht Hid|done]. edit_run; try done.
  apply valid_targets; [done| | |].
  - rewrite list_fmap_insert, list_insert_id; [apply Hp|]. by rewrite list_lookup_fmap, Ht, <-Hid.
  - rewrite list_fmap_insert. eapply other_names; [apply lower_eq|apply Hp|done].
  - apply Forall_insert.
    + eapply Forall_impl; [apply Hp|]. intros t' []. by split.
    + split; [done..|]. by apply has_output_spec.
Qed.
Lemma set_stinger_safe stinger : safe_edit (set_stinger_checked stinger).
Proof.
  intros p Hp. unfold set_stinger_checked. edit_run; [|done].
  unfold set_stinger. destruct (position slot (slot stinger) (stingers p)) as [i|] eqn:Hpos.
  - apply position_Some in Hpos as (x & Hx & Hid). apply valid_stingers; [done| |].
    + rewrite list_fmap_insert, list_insert_id; [apply Hp|]. by rewrite list_lookup_fmap, Hx, <-Hid.
    + apply Forall_insert; [apply Hp|]. by apply has_input_spec.
  - apply valid_stingers; [done| |].
    + rewrite fmap_app. apply NoDup_snoc_1; [apply Hp|].
      intros (x & Heq & Hx)%list_elem_of_fmap. apply fmap_None in Hpos.
      by apply (find_None_elem _ _ Hpos x Hx).
    + apply Forall_app. split; [apply Hp|]. apply Forall_singleton. by apply has_input_spec.
Qed.

Lemma set_strips_id p : set_strips (input_audio_strips p) p = p.
Proof. by destruct p. Qed.
(** Layers show no more when the inputs they use show no more. *)
Lemma shows_inputs_sub p ins st a b :
  (∀ i b audio s l, i ∈ ins → in_kind i = KindScene b audio → s ∈ scenes p → l ∈ scene_layers s →
     layer_source l = SourceInput (in_id i) →
     ∃ i' audio', i' ∈ inputs p ∧ in_id i' = in_id i ∧ in_kind i' = KindScene b audio') →
  scene_shows (set_inputs ins (set_strips st p)) a b → scene_shows p a b.
Proof.
  intros Hins (s & l & Hs & Hid & Hl & [?|(i & audio & Hi & Hsrc & Hk)]); exists s, l;
    (split_and!; [done..|]); [by left|right].
  destruct (Hins i b audio s l) as (i' & audio' & ? & Hid' & ?); [done..|].
  exists i', audio'. by rewrite Hid'.
Qed.
Lemma kind_ok_ids p p' i k : kept p p' → kind_ok p i k → kind_ok p' i k.
Proof.
  intros Hk. unfold kind_ok. destruct k as [| | | |s audio|x]; try done.
  - intros [Hs Ha]. split; [by apply Hk|]. intros x Hx. destruct (Ha x Hx). split; [done|by apply Hk].
  - by rewrite (kept_settings _ _ Hk).
Qed.

(** ** Changing one input *)

Section alter_input.
Context (p : Project) (Hp : project_valid p) (f : Input → Input) (i : nat) (x : Input).
Context (Hx : inputs p !! i = Some x) (Hf : ∀ y, in_id (f y) = in_id y).
Let p' : Project := alter_input f i p.
Lemma alter_input_ids : input_ids p' = input_ids p.
Proof. by apply fmap_alter_same. Qed.
Lemma alter_input_kept : kept p p'.
Proof. split; try done. by rewrite alter_input_ids. Qed.
Lemma altered_input y : y ∈ inputs p' → y = f x ∨ (y ∈ inputs p ∧ in_id y ≠ in_id x).
Proof.
  intros (j & Hj)%list_elem_of_lookup. unfold p', alter_input in Hj. cbn in Hj.
  destruct (decide (i = j)) as [->|Hij].
  - rewrite list_lookup_alter_eq, Hx in Hj. simplify_eq/=. by left.
  - rewrite list_lookup_alter_ne in Hj by done. right. split; [by eapply list_elem_of_lookup_2|].
    intros Heq. apply Hij. apply (NoDup_lookup (input_ids p) i j (in_id x)); [apply Hp|..];
      unfold input_ids; rewrite list_lookup_fmap; [by rewrite Hx|by rewrite Hj, <-Heq].
Qed.
Lemma valid_alter_input :
  NoDup (in_name <$> alter f i (inputs p)) →
  (input_ok p x → input_ok p (f x)) →
  (∀ b audio, in_kind (f x) = KindScene b audio → ∃ audio', in_kind x = KindScene b audio') →
  acyclic (audio_follows p') → project_valid p'.
Proof.
  intros Hnames Hok Hshow Hac. pose proof alter_input_ids as Hids.
  assert (p' = set_inputs (alter f i (inputs p)) (set_strips (input_audio_strips p) p)) as Heq
    by by rewrite set_strips_id.
  rewrite Heq in *. apply valid_inputs; [done|by rewrite Hids|rewrite Hids; apply Hp|done|..].
  - eapply Forall_kept; [intros y; apply (input_ok_kept p); rewrite <-Heq; apply alter_input_kept|].
    apply Forall_alter; [apply Hp|]. intros y Hy. simplify_eq. apply Hok.
  - rewrite Hids. apply Hp.
  - apply (acyclic_sub (scene_shows p)); [|apply Hp]. intros a b. apply shows_inputs_sub.
    intros y b' audio s l Hy Hk _ _ _.
    assert (y ∈ inputs p') as [->|[? _]]%altered_input by by rewrite Heq.
    + destruct (Hshow b' audio Hk) as [audio' ?]. exists x, audio'.
      by split_and!; [eapply list_elem_of_lookup_2| |].
    + by exists y, audio.
  - done.
Qed.
(** A change that leaves the kind. *)
Lemma valid_same_kind :
  (in_kind (f x) = in_kind x ∨ ∀ s audio, in_kind (f x) ≠ KindScene s audio) →
  NoDup (in_name <$> alter f i (inputs p)) → (input_ok p x → input_ok p (f x)) → project_valid p'.
Proof.
  intros Hkind Hnames Hok. apply valid_alter_input; [done|done| |].
  - intros b audio Hk. destruct Hkind as [Heq|Hno]; [|by apply Hno in Hk].
    exists audio. by rewrite <-Heq.
  - apply (acyclic_sub (audio_follows p)); [|apply Hp].
    intros a b (y & s & [->|[Hy _]]%altered_input & <- & Hk); [|by exists y, s].
    destruct Hkind as [Heq|Hno]; [|by apply Hno in Hk]. exists x, s. rewrite Hf, <-Heq.
    split_and!; [by eapply list_elem_of_lookup_2|done..].
Qed.
End alter_input.
Lemma input_ok_at p i x : project_valid p → inputs p !! i = Some x → input_ok p x.
Proof. intros Hp Hb. eapply Forall_lookup_1; [apply Hp|done]. Qed.

Lemma validate_name_ok name : validate_input_name name = Ok tt →
  name_ok name ∧ (str_len name ≤ MAX_INPUT_NAME_BYTES)%nat.
Proof. by intros ?%validate_input_name_Ok. Qed.
Lemma rename_input_safe input name : safe_edit (rename_input input name).
Proof.
  intros p Hp. unfold rename_input.
  apply wp_bind, wp_position; [intros i x Hx Hid|done]. edit_run; try done.
  match goal with H : validate_input_name _ = Ok ?u |- _ => destruct u; apply validate_name_ok in H as [] end.
  eapply valid_same_kind; [done|done|done|by left| |].
  - rewrite (fmap_alter_insert _ _ name) by done. eapply other_names; [apply same_eq|apply Hp|done].
  - intros []. by split.
Qed.
(** A replacement that is not a scene, well-formed in itself. *)
Definition replacement_ok (p : Project) (input : InputId) (kind : InputKind) (keys : list string) : Prop :=
  kind_ok p input kind ∧ (∀ s audio, kind ≠ KindScene s audio) ∧
  Forall (λ key, capability_key_valid key = true) keys.
Lemma replace_source_safe p input kind keys :
  project_valid p → replacement_ok p input kind keys →
  wp (replace_input_source input kind keys) (edit_post p) p.
Proof.
  intros Hp (Hk & Hno & Hkeys). unfold replace_input_source.
  apply wp_bind, wp_position; [intros i x Hx Hid|done]. edit_run.
  eapply valid_same_kind; [done|done|done|by right| |].
  - rewrite fmap_alter_same by done. apply Hp.
  - intros []. split; try done. simpl. by rewrite Hid.
Qed.
Lemma relink_safe p input uri :
  project_valid p → name_ok uri → wp (relink_media_input input uri) (edit_post p) p.
Proof.
  intros Hp Huri. unfold relink_media_input.
  apply wp_bind, wp_position; [intros i x Hx Hid|done]. edit_run; try (done || congruence).
  simplify_eq. eapply valid_same_kind; [done|done|done|by right| |].
  - rewrite fmap_alter_same by done. apply Hp.
  - intros []. by split.
Qed.

(** ** Adding and ordering inputs *)

(** What a new input must satisfy beside its name and identity. *)
Definition new_input_ok (p : Project) (input : Input) : Prop :=
  kind_ok p (in_id input) (in_kind input) ∧
  Forall (λ key, capability_key_valid key = true) (in_required_capabilities input).
Lemma add_input_valid p input :
  project_valid p → new_input_ok p input → (in_id input ∉ input_ids p) →
  name_ok (in_name input) → (str_len (in_name input) ≤ MAX_INPUT_NAME_BYTES)%nat →
  NoDup (in_name <$> inputs p ++ [input]) → project_valid (add_input input p).
Proof.
  intros Hp [Hkind Hcap] Hfresh Hname Hlen Hnames. unfold add_input. set (p' := set_inputs _ _).
  assert (input_ids p' = input_ids p ++ [in_id input]) as Hids by apply (fmap_app in_id (inputs p) [input]).
  assert (kept p p') as Hk by (split; try done; rewrite Hids; set_solver).
  apply valid_inputs; fold p'; [done|by apply Hk| |done|..].
  - rewrite Hids. apply NoDup_snoc_1; [apply Hp|done].
  - apply Forall_app. split.
    + eapply Forall_kept; [intros y; apply (input_ok_kept _ _ _ Hk)|apply Hp].
    + apply Forall_singleton. split; [done|done| |done]. by apply (kind_ok_ids p).
  - rewrite Hids, fmap_app. apply Permutation_app; [apply Hp|done].
  - apply (acyclic_sub (scene_shows p)); [|apply Hp]. intros a b. apply shows_inputs_sub.
    intros y b' audio s l [Hy| ->%list_elem_of_singleton]%elem_of_app Hk' Hs Hl Hsrc; [by exists y, audio|].
    destruct Hfresh. apply list_elem_of_lookup in Hs as [j Hj].
    pose proof (layers_ok p Hp j s Hj) as Hok. apply Forall_forall with (x := l) in Hok as []; [|done].
    by rewrite Hsrc in lo_source.
  - apply (acyclic_closing (audio_follows p) _ (in_id input)); [|apply Hp|].
    + intros a b Ha. split.
      * intros (y & s & [Hy| ->%list_elem_of_singleton]%elem_of_app & Hid & Hb); [by exists y, s|done].
      * intros (y & s & Hy & Hrest). exists y, s. split; [|done]. apply elem_of_app. by left.
    + intros [c (y & s & [Hy| ->%list_elem_of_singleton]%elem_of_app & _ & Hb)]%tc_last.
      * apply Hfresh. pose proof (proj1 (Forall_forall _ _) (pv_inputs _ (pv_shape _ Hp)) y Hy) as [].
        rewrite Hb in io_kind. destruct io_kind as [_ Ha]. by destruct (Ha _ eq_refl).
      * rewrite Hb in Hkind. destruct Hkind as [_ Ha]. by destruct (Ha _ eq_refl).
Qed.
Lemma add_input_safe p input :
  project_valid p → new_input_ok p input → wp (add_input_checked input) (edit_post p) p.
Proof.
  intros Hp Hok. unfold add_input_checked. do 2 wp_step. cbn. wp_step; wp_step; [|done].
  destruct (validate_input_name (in_name input)) as [[]|e] eqn:Hn; last first.
  { unfold validate_input_name in Hn. repeat case_match; simplify_eq; by repeat wp_step. }
  apply validate_name_ok in Hn as []. edit_run; [|done].
  apply add_input_valid; [done|done| |done|done|].
  - by rewrite <-has_input_spec, not_true_iff_false.
  - rewrite fmap_app. eapply fresh_name; [apply same_eq|apply Hp|done].
Qed.

Lemma mapM_find (l : list Input) order :
  NoDup (in_id <$> l) → order ≡ₚ in_id <$> l →
  ∃ k, mapM (λ input, snd <$> list_find (λ candidate, in_id candidate = input) l) order = Some k ∧
       k ≡ₚ l ∧ in_id <$> k = order.
Proof.
  intros Hnd Hperm.
  assert (∀ k, k ⊆ in_id <$> l → ∃ m,
    mapM (λ input, snd <$> list_find (λ candidate, in_id candidate = input) l) k = Some m ∧
    m ⊆ l ∧ in_id <$> m = k) as Hgo.
  { induction k as [|i k IH]; intros Hsub; [exists []; split_and!; [done|apply list_subseteq_nil|done]|].
    destruct IH as (m & Hm & Hml & Hids); [set_solver|].
    assert (i ∈ in_id <$> l) as (x & -> & Hx)%list_elem_of_fmap by (apply Hsub; by left).
    destruct (find_unique in_id l x Hnd Hx) as [j Hj]. exists (x :: m). simpl. rewrite Hj. simpl.
    rewrite Hm. simpl. split_and!; [done|set_solver|simpl; f_equal; exact Hids]. }
  destruct (Hgo order) as (k & Hk & Hkl & Hids); [by rewrite Hperm|]. exists k. split_and!; [done| |done].
  apply NoDup_length_Permutation.
  - apply (NoDup_fmap_1 in_id). by rewrite Hids, Hperm.
  - done.
  - rewrite <-(length_fmap in_id l), <-Hperm, <-Hids, length_fmap. done.
Qed.
Lemma reorder_safe order : safe_edit (reorder_inputs order).
Proof.
  intros p Hp. unfold reorder_inputs. do 2 wp_step. cbn. wp_step. wp_step; [|done].
  match goal with H : validate_input_order _ _ = Ok ?u |- _ =>
    destruct u; apply validate_input_order_Ok in H as (_ & _ & Hperm) end.
  destruct (mapM_find (inputs p) order) as (k & Hk & Hkl & _); [apply Hp|done|].
  apply wp_bind, wp_expect; [|congruence]. intros k' Hk'. assert (k' = k) as -> by congruence.
  cbn.
  assert (project_valid (set_inputs k (set_strips (input_audio_strips p) p))) as Hv;
    [|by rewrite set_strips_id in Hv].
  set (p' := set_inputs _ _).
  assert (∀ x, x ∈ inputs p' ↔ x ∈ inputs p) as Hin by (intros x; simpl; by rewrite Hkl).
  assert (input_ids p' ≡ₚ input_ids p) as Hids by (unfold input_ids; simpl; by rewrite Hkl).
  assert (kept p p') as Hkept by (split; try done; by rewrite Hids).
  apply valid_inputs; fold p'; [done|by rewrite Hids|rewrite Hids; apply Hp|rewrite Hkl; apply Hp|..].
  - rewrite Hkl. eapply Forall_kept; [intros y; apply (input_ok_kept _ _ _ Hkept)|apply Hp].
  - rewrite Hids. apply Hp.
  - apply (acyclic_sub (scene_shows p)); [|apply Hp]. intros a b. apply shows_inputs_sub.
    intros y b' audio s l Hy Hkind _ _ _. exists y, audio. by split_and!; [apply Hin| |].
  - apply (acyclic_sub (audio_follows p)); [|apply Hp].
    intros a b (y & s & Hy & Hrest). exists y, s. by split; [apply Hin|].
Qed.

(** ** Fields *)

Lemma rename_project_safe name : safe_edit (rename_project name).
Proof.
  intros p Hp. unfold rename_project. edit_run; [|done].
  assert (kept p (set_name name p)) as Hk by by split. keep Hk Hp. destruct pv_unique. by split.
Qed.
Lemma set_strip_safe {E} input state : safe_edit (set_input_audio_strip (E := E) input state).
Proof.
  intros p Hp. unfold set_input_audio_strip. edit_run; [|done].
  set (p' := set_strips _ p). assert (kept p p') as Hk by by split. subst p'. keep Hk Hp.
  - destruct pv_unique. by split.
  - simpl. by rewrite fmap_alter_same.
Qed.
Lemma set_mix_valid p mix : project_valid p → mix_ok p mix → project_valid (set_mix (Some mix) p).
Proof.
  intros Hp Hmix. assert (kept p (set_mix (Some mix) p)) as Hk by by split. keep Hk Hp.
  - destruct pv_unique. by split.
  - by intros ? [= <-].
Qed.
Lemma set_recording_valid p b : project_valid p → project_valid (set_recording b p).
Proof.
  intros Hp. assert (kept p (set_recording b p)) as Hk by by split. keep Hk Hp.
  destruct pv_unique. by split.
Qed.
Lemma set_restart_valid p r : project_valid p → restart_ok r → project_valid (set_restart r p).
Proof.
  intros Hp Hr. assert (kept p (set_restart r p)) as Hk by by split. keep Hk Hp.
  destruct pv_unique. by split.
Qed.

(** ** Scenes with their inputs *)

Lemma install_valid_safe p candidate : wp (install_valid candidate) (edit_post p) p.
Proof.
  unfold install_valid. edit_run; [|done]. by eapply validate_valid.
Qed.
Lemma wp_new_scene_input scene scene_name input input_name Q p :
  Q (Ret tt) p → (∀ e, Q (Throw e) p) →
  wp (validate_new_scene_input scene scene_name input input_name) Q p.
Proof. intros Hok He. unfold validate_new_scene_input. by edit_run. Qed.
Lemma add_scene_input_safe scene scene_name input input_name :
  safe_edit (add_scene_input_checked scene scene_name input input_name).
Proof.
  intros p Hp. unfold add_scene_input_checked. apply wp_bind, wp_new_scene_input; [|done].
  do 2 wp_step. apply install_valid_safe.
Qed.
Lemma duplicate_scene_input_safe source_scene new_scene scene_name new_input input_name :
  safe_edit (duplicate_scene_input_checked source_scene new_scene scene_name new_input input_name).
Proof.
  intros p Hp. unfold duplicate_scene_input_checked. do 2 wp_step. cbn. wp_step. wp_step; [|done].
  cbn. case_match. wp_step. apply wp_bind, wp_new_scene_input; [|done].
  eapply wp_mono; [apply install_valid_safe|]. intros r p'. by destruct r.
Qed.

(** ** Audio sources *)

Section audio_source.
Context (p : Project) (Hp : project_valid p) (i : nat) (x : Input) (Hx : inputs p !! i = Some x).
Context (scene : SceneId) (old : option InputId) (Hkind : in_kind x = KindScene scene old).
Context (audio : option InputId).
Let p' : Project := alter_input (set_in_kind (KindScene scene audio)) i p.
Lemma audio_source_ids : NoDup (input_ids p') ∧ NoDup (scene_ids p') ∧ NoDup (bus_ids p').
Proof. unfold p'. rewrite alter_input_ids by done. split_and!; apply Hp. Qed.
Lemma follows_at b : audio_follows p (in_id x) b ↔ old = Some b.
Proof.
  split.
  - intros (y & s & Hy & Hid & Hk).
    destruct (find_unique in_id (inputs p) y) as [j1 H1]; [apply Hp|done|].
    destruct (find_unique in_id (inputs p) x) as [j2 H2]; [apply Hp|by eapply list_elem_of_lookup_2|].
    rewrite Hid, H2 in H1. simplify_eq. rewrite Hkind in Hk. by simplify_eq.
  - intros ->. exists x, scene. split_and!; [by eapply list_elem_of_lookup_2|done..].
Qed.
Lemma follows_changed a b :
  audio_follows p' a b ↔ (a ≠ in_id x ∧ audio_follows p a b) ∨ (a = in_id x ∧ audio = Some b).
Proof.
  split.
  - intros (y & s & Hy & <- & Hk). apply (altered_input p Hp _ i x Hx) in Hy as [->|[Hy Hne]].
    + simpl in Hk. simplify_eq. by right.
    + left. split; [done|]. by exists y, s.
  - intros [(Ha & y & s & Hy & <- & Hk)|[-> Heq]].
    + exists y, s. split_and!; [|done..]. apply list_elem_of_lookup in Hy as [j Hj].
      apply list_elem_of_lookup. exists j. unfold p', alter_input. cbn.
      rewrite list_lookup_alter_ne; [done|]. intros ->. by simplify_eq.
    + exists (set_in_kind (KindScene scene audio) x), scene. split_and!; [|done|by rewrite <-Heq].
      apply list_elem_of_lookup. exists i. unfold p', alter_input. cbn. by rewrite list_lookup_alter_eq, Hx.
Qed.
Lemma audio_source_closes :
  tc (audio_follows p') (in_id x) (in_id x) ↔
  ∃ source, audio = Some source ∧ rtc (audio_follows p) source (in_id x).
Proof.
  apply (closes_cycle (audio_follows p) _ _ (λ b, audio = Some b)); [| | |apply Hp].
  - intros a b Ha. rewrite follows_changed. naive_solver.
  - intros b. rewrite follows_changed. naive_solver.
  - intros b Hb. rewrite follows_changed. by right.
Qed.
Lemma audio_source_valid :
  (∀ source, audio = Some source → source ∈ input_ids p ∧ ¬ rtc (audio_follows p) source (in_id x)) →
  project_valid p'.
Proof.
  intros Hsrc. apply (valid_alter_input p Hp _ i x Hx); [done| | | |].
  - rewrite fmap_alter_same by done. apply Hp.
  - intros [? ? Hk ?]. rewrite Hkind in Hk. destruct Hk as [Hs _]. split; try done. simpl.
    split; [done|]. intros source Heq. destruct (Hsrc source Heq) as [Hin Hno]. split; [|done].
    intros ->. by apply Hno.
  - intros b a' Hk. simpl in Hk. simplify_eq. by exists old.
  - apply (acyclic_closing (audio_follows p) (audio_follows p') (in_id x)); [|apply Hp|].
    + intros a b Ha. rewrite follows_changed. naive_solver.
    + intros (source & Heq & Hr)%audio_source_closes. by destruct (Hsrc source Heq).
Qed.
End audio_source.
Lemma set_audio_source_safe input audio : safe_edit (set_scene_input_audio_source input audio).
Proof.
  intros p Hp. unfold set_scene_input_audio_source.
  apply wp_bind, wp_position; [intros i x Hx Hid|done]. do 2 wp_step. cbn.
  apply wp_bind, wp_expect; [|congruence]. intros y Hy. simplify_eq. cbn.
  destruct (in_kind x) as [| | | |scene old|] eqn:Hkind; try done.
  destruct (audio_source_ids p Hp i scene audio) as (? & ? & ?).
  destruct audio as [source|]; edit_run; try done; apply (audio_source_valid p Hp i x Hx scene old Hkind);
    intros ? [= <-]; (split; [by apply has_input_spec|]); intros Hr.
  assert (tc (audio_follows (alter_input (set_in_kind (KindScene scene (Some source))) i p))
            (in_id x) (in_id x)) as Htc.
  { apply (audio_source_closes p Hp i x Hx scene old Hkind). by exists source. }
  rewrite <-audio_source_error in Htc by done. congruence.
Qed.
