(* ===== verification/ProjectSafety.v ===== *)
(** Projects: what validation reports, what any history of edits keeps, and which sources
    and sends are refused as cycles. *)
From S2P Require Import Prelude Text Types ProjectModel Validation.
From S2P Require Import ProjectEdits ProjectLaws EditLaws.
#[local] Open Scope Z_scope.

Create HintDb edits discriminated.

(** ** Histories *)

(** The edits of a project, and the fields that are set without a check. *)
Inductive edit :=
  | RenameProject (name : string)
  | AddInput (input : Input)
  | RemoveInput (input : InputId)
  | RenameInput (input : InputId) (name : string)
  | ReplaceInputSource (input : InputId) (kind : InputKind) (keys : list string)
  | RelinkMediaInput (input : InputId) (uri : string)
  | ReorderInputs (order : list InputId)
  | SetInputAudioStrip (input : InputId) (state : InputAudioStripState)
  | AddSceneInput (scene : SceneId) (name : string) (input : InputId) (input_name : string)
  | DuplicateSceneInput (source new : SceneId) (name : string) (input : InputId) (input_name : string)
  | RenameScene (scene : SceneId) (name : string)
  | RemoveScene (scene : SceneId)
  | SetSceneBackground (scene : SceneId) (background : Rgba8)
  | AddLayer (scene : SceneId) (layer : Layer)
  | RemoveLayer (scene : SceneId) (index : nat)
  | MoveLayer (scene : SceneId) (source destination : nat)
  | DuplicateLayer (scene : SceneId) (index : nat) (name : string)
  | CopyLayer (source : SceneId) (index : nat) (target : SceneId) (name : string)
  | SetLayerZOrder (scene : SceneId) (index : nat) (z_order : Z)
  | RenameLayer (scene : SceneId) (index : nat) (name : string)
  | SetLayerSource (scene : SceneId) (index : nat) (source : SourceRef)
  | SetLayerAppearance (scene : SceneId) (index : nat) (enabled : bool) (opacity : Z)
  | SetLayerGeometry (scene : SceneId) (index : nat) (geometry : LayerGeometry)
  | SetLayerCrop (scene : SceneId) (index : nat) (crop : option CropRect)
  | SetLayerMask (scene : SceneId) (index : nat) (mask : option RectMask)
  | AddAudioBus (bus : AudioBus)
  | RenameAudioBus (bus : BusId) (name : string)
  | AddSend (source destination : BusId)
  | RemoveSend (source destination : BusId)
  | RemoveAudioBus (bus : BusId)
  | AddOutput (output : Output)
  | SetOutputRoute (output : OutputId) (scene : SceneId) (bus : BusId)
  | SetOutputStartup (output : OutputId) (startup : StartupPolicy)
  | RenameOutput (output : OutputId) (name : string)
  | RemoveOutput (output : OutputId)
  | AddTarget (target : StreamTarget)
  | ReplaceTarget (target : StreamTarget)
  | RemoveTarget (target : StreamTargetId)
  | SetStinger (stinger : StingerConfig)
  | RemoveStinger (number : Z)
  | SetMainMix (mix : MainMix)
  | SetRecording (active : bool)
  | SetRestartPolicy (policy : RestartPolicy)
  | SetAudioSource (input : InputId) (source : option InputId).

(** A call of any answer and error. *)
Definition call {E A} (m : stm Project E A) : stm Project unit unit :=
  st_map_err (λ _, tt) (_ ← m; mret tt).
Definition run_edit (e : edit) : stm Project unit unit :=
  match e with
  | RenameProject name => call (rename_project name)
  | AddInput input => call (add_input_checked input)
  | RemoveInput input => call (remove_input input)
  | RenameInput input name => call (rename_input input name)
  | ReplaceInputSource input kind keys => call (replace_input_source input kind keys)
  | RelinkMediaInput input uri => call (relink_media_input input uri)
  | ReorderInputs order => call (reorder_inputs order)
  | SetInputAudioStrip input state => call (set_input_audio_strip (E := unit) input state)
  | AddSceneInput scene name input input_name =>
      call (add_scene_input_checked scene name input input_name)
  | DuplicateSceneInput source new name input input_name =>
      call (duplicate_scene_input_checked source new name input input_name)
  | RenameScene scene name => call (rename_scene scene name)
  | RemoveScene scene => call (remove_scene scene)
  | SetSceneBackground scene background => call (set_scene_background scene background)
  | AddLayer scene layer => call (add_layer_to_scene scene layer)
  | RemoveLayer scene index => call (remove_layer_from_scene scene index)
  | MoveLayer scene source destination => call (move_scene_layer scene source destination)
  | DuplicateLayer scene index name => call (duplicate_scene_layer scene index name)
  | CopyLayer source index target name => call (copy_scene_layer source index target name)
  | SetLayerZOrder scene index z_order => call (set_scene_layer_z_order scene index z_order)
  | RenameLayer scene index name => call (rename_scene_layer scene index name)
  | SetLayerSource scene index source => call (set_scene_layer_source scene index source)
  | SetLayerAppearance scene index enabled opacity =>
      call (set_scene_layer_appearance scene index enabled opacity)
  | SetLayerGeometry scene index geometry => call (set_scene_layer_geometry scene index geometry)
  | SetLayerCrop scene index crop => call (set_scene_layer_crop scene index crop)
  | SetLayerMask scene index mask => call (set_scene_layer_mask scene index mask)
  | AddAudioBus bus => call (add_audio_bus_checked bus)
  | RenameAudioBus bus name => call (rename_audio_bus bus name)
  | AddSend source destination => call (add_audio_bus_send source destination)
  | RemoveSend source destination => call (remove_audio_bus_send source destination)
  | RemoveAudioBus bus => call (remove_audio_bus bus)
  | AddOutput output => call (add_output_checked output)
  | SetOutputRoute output scene bus => call (set_output_route output scene bus)
  | SetOutputStartup output startup => call (set_output_startup output startup)
  | RenameOutput output name => call (rename_output output name)
  | RemoveOutput output => call (remove_output output)
  | AddTarget target => call (add_stream_target_checked target)
  | ReplaceTarget target => call (replace_stream_target target)
  | RemoveTarget target => call (remove_stream_target target)
  | SetStinger stinger => call (set_stinger_checked stinger)
  | RemoveStinger number => call (remove_stinger (E := unit) number)
  | SetMainMix mix => st_modify (set_mix (Some mix))
  | SetRecording active => st_modify (set_recording active)
  | SetRestartPolicy policy => st_modify (set_restart policy)
  | SetAudioSource input source => call (set_scene_input_audio_source input source)
  end.

(** What an edit takes on trust from its caller. *)
Definition edit_fits (p : Project) (e : edit) : Prop :=
  match e with
  | AddInput input => new_input_ok p input
  | ReplaceInputSource input kind keys => replacement_ok p input kind keys
  | RelinkMediaInput _ uri => name_ok uri
  | AddLayer _ layer => layer_shape p layer
  | AddAudioBus bus => sends_ok p bus
  | AddOutput output =>
      Forall (λ key, capability_key_valid key = true) (out_required_capabilities output)
  | AddTarget target | ReplaceTarget target => target_named target
  | SetMainMix mix => mix_ok p mix
  | SetRestartPolicy policy => restart_ok policy
  | _ => True
  end.
Inductive edited (p : Project) : Project → Prop :=
  | edited_none : edited p p
  | edited_step p' e : edited p p' → edit_fits p' e → edited p (run_edit e p').1.

Lemma call_safe {E A} (m : stm Project E A) p :
  wp m (edit_post p) p → wp (call m) (edit_post p) p.
Proof.
  intros Hm. unfold call. apply wp_map_err, wp_bind. eapply wp_mono; [exact Hm|].
  by intros [a|err|] p'.
Qed.
Lemma safe_call {E A} (m : stm Project E A) p :
  safe_edit m → project_valid p → wp (call m) (edit_post p) p.
Proof. intros Hm Hp. by apply call_safe, Hm. Qed.
#[local] Hint Resolve rename_project_safe remove_input_safe rename_input_safe reorder_safe
  set_strip_safe add_scene_input_safe duplicate_scene_input_safe set_audio_source_safe : edits.
#[local] Hint Resolve rename_scene_safe remove_scene_safe set_scene_background_safe remove_layer_safe
  move_layer_safe duplicate_layer_safe copy_layer_safe set_z_order_safe rename_layer_safe
  set_source_safe set_appearance_safe set_geometry_safe set_crop_safe set_mask_safe : edits.
#[local] Hint Resolve rename_bus_safe add_send_safe remove_send_safe remove_bus_safe
  set_output_route_safe set_output_startup_safe rename_output_safe remove_output_safe
  remove_target_safe set_stinger_safe remove_stinger_edit_safe : edits.
#[local] Hint Resolve add_input_safe replace_source_safe relink_safe add_layer_safe add_bus_safe
  add_output_safe add_target_safe replace_target_safe : edits.
Lemma run_edit_safe e p :
  project_valid p → edit_fits p e → wp (run_edit e) (edit_post p) p.
Proof.
  intros Hp He. destruct e; simpl in *;
    try solve [apply safe_call; auto with edits | apply call_safe; auto with edits];
    apply wp_modify; simpl.
  - by apply set_mix_valid.
  - by apply set_recording_valid.
  - by apply set_restart_valid.
Qed.
Lemma edited_valid p p' : project_valid p → edited p p' → project_valid p'.
Proof.
  intros Hp. induction 1 as [|p' e _ IH He]; [done|].
  pose proof (run_edit_safe e p' IH He) as Hpost. unfold wp in Hpost.
  destruct (run_edit e p') as [p'' [a|err|]]; simpl in *; [done| |done]. by subst.
Qed.

Lemma validates p : validate_project p = Some [] ↔ project_valid p.
Proof.
  destruct (validate_project_nil p) as (errors & Hv & Hnil). rewrite Hv, <-Hnil. split; [by intros [= ->]|by intros ->].
Qed.

(** ** Cycles *)

(** The call refuses a cycle, changing nothing, if [P] holds, and otherwise succeeds. *)
Definition decides_cycle {E} (m : stm Project E unit) (cycle : E) (P : Prop) (p : Project) : Prop :=
  (P → m p = (p, Throw cycle)) ∧ (¬ P → ∃ p', m p = (p', Ret tt)).
Definition decided {E} (cycle : E) (P : Prop) (p : Project) (r : outcome E unit) (p' : Project) : Prop :=
  (P → r = Throw cycle ∧ p' = p) ∧ (¬ P → r = Ret tt).
Lemma wp_decides {E} (m : stm Project E unit) cycle P p :
  wp m (decided cycle P p) p → decides_cycle m cycle P p.
Proof.
  unfold wp, decided, decides_cycle. destruct (m p) as [p' r]. simpl. intros [H1 H2].
  split; [intros [-> ->]%H1; done|intros ->%H2; by exists p'].
Qed.
(** The test for a cycle in a report, at the end of a call. *)
Lemma decided_throw {E} (cycle : E) (P : Prop) p b :
  (b = true ↔ P) → b ≠ false → decided cycle P p (Throw cycle) p.
Proof. intros Hb Ht%not_false_iff_true. unfold decided. naive_solver. Qed.
Lemma decided_ret {E} (cycle : E) (P : Prop) p b p' :
  (b = true ↔ P) → b = false → decided cycle P p (Ret tt) p'.
Proof. intros Hb ->. unfold decided. naive_solver. Qed.

Lemma add_layer_decides p scene l :
  project_valid p → scene ∈ scene_ids p → name_ok (layer_name l) → source_exists p (layer_source l) →
  decides_cycle (add_layer_to_scene scene l) AddSceneLayerError.SourceCycle
    (leads_to p (layer_source l) scene) p.
Proof.
  intros Hp Hscene Hname Hsrc. apply wp_decides. unfold add_layer_to_scene.
  apply wp_bind, wp_position; [intros i s Hs <-|by intros ?].
  wp_step; wp_step; [|done]. wp_step. apply wp_check_source; [intros _|by intros].
  do 2 wp_step. cbn. apply wp_bind, wp_validate. intros errors Hv. cbn.
  destruct (candidate_ids p Hp i l) as (? & ? & ?).
  apply wp_bind, wp_require.
  - intros Hf. cbn. eapply decided_ret; [|exact Hf]. rewrite scene_source_error by done.
    by apply add_layer_closes.
  - intros Ht. cbn. eapply decided_throw; [|exact Ht].
    rewrite scene_source_error by done. by apply add_layer_closes.
Qed.
Lemma set_source_decides p s index l source :
  project_valid p → s ∈ scenes p → scene_layers s !! index = Some l → source_exists p source →
  decides_cycle (set_scene_layer_source (scene_id s) index source) SceneLayerError.SourceCycle
    (leads_to p source (scene_id s)) p.
Proof.
  intros Hp Hs Hl Hsrc. apply wp_decides. unfold set_scene_layer_source.
  apply wp_bind, wp_find_layer; last first.
  { intros e [Hno|(s' & Hs' & Hid & Hnone)]; [by destruct Hno; apply list_elem_of_fmap_2|].
    apply list_elem_of_lookup in Hs as [i Hi].
    assert (s' = s) as -> by by eapply scene_at_unique. congruence. }
  intros i s' l' Hs' Hid Hl'. cbn beta iota. rewrite <-Hid.
  wp_step. apply wp_check_source; [intros _|by intros].
  do 2 wp_step. cbn. apply wp_bind, wp_validate. intros errors Hv. cbn.
  destruct (probe_ids p Hp i l' source) as (? & ? & ?).
  apply wp_bind, wp_require.
  - intros Hf. cbn. eapply decided_ret; [|exact Hf]. rewrite scene_cycle_error by done.
    by apply probe_closes.
  - intros Ht. cbn. eapply decided_throw; [|exact Ht].
    rewrite scene_cycle_error by done. by apply probe_closes.
Qed.
Lemma audio_source_decides p x scene old source :
  project_valid p → x ∈ inputs p → in_kind x = KindScene scene old → source ∈ input_ids p →
  decides_cycle (set_scene_input_audio_source (in_id x) (Some source)) AudioSourceCycle
    (rtc (audio_follows p) source (in_id x)) p.
Proof.
  intros Hp Hx Hkind Hsrc. apply wp_decides. unfold set_scene_input_audio_source.
  apply wp_bind, wp_position; [|by intros []; apply list_elem_of_fmap_2].
  intros i y Hy Hid. do 2 wp_step. cbn. apply wp_bind, wp_expect; [|congruence].
  intros y' Hy'. simplify_eq. cbn.
  assert (y = x) as ->.
  { destruct (find_unique in_id (inputs p) x) as [j1 H1]; [apply Hp|done|].
    destruct (find_unique in_id (inputs p) y) as [j2 H2];
      [apply Hp|by eapply list_elem_of_lookup_2|]. rewrite Hid, H1 in H2. by simplify_eq. }
  rewrite Hkind. apply wp_bind, wp_require; [intros _|by rewrite has_input_spec; intros ?]. cbn.
  apply wp_bind, wp_validate. intros errors Hv. cbn.
  destruct (audio_source_ids p Hp i scene (Some source)) as (? & ? & ?).
  assert (tc (audio_follows (alter_input (set_in_kind (KindScene scene (Some source))) i p))
            (in_id x) (in_id x) ↔ rtc (audio_follows p) source (in_id x)) as Hcycle.
  { rewrite (audio_source_closes p Hp i x Hy scene old Hkind). naive_solver. }
  apply wp_bind, wp_require.
  - intros Hf. cbn. eapply decided_ret; [|exact Hf]. by rewrite audio_source_error.
  - intros Ht. cbn. eapply decided_throw; [|exact Ht]. by rewrite audio_source_error.
Qed.
Lemma add_send_decides p b destination :
  project_valid p → b ∈ audio_buses p → destination ∈ bus_ids p → bus_id b ≠ destination →
  (destination ∉ bus_sends b) →
  decides_cycle (add_audio_bus_send (bus_id b) destination) SendCycle
    (rtc (bus_feeds p) destination (bus_id b)) p.
Proof.
  intros Hp Hb Hdest Hself Hdup. apply wp_decides. unfold add_audio_bus_send.
  apply wp_bind, wp_check_send; last first.
  { intros e [[]|[[]|]]; [by apply list_elem_of_fmap_2|done|done]. }
  intros i b' Hb' Hid _ _. do 2 wp_step. cbn. apply wp_bind, wp_expect; [|congruence].
  intros b'' ?. simplify_eq. cbn.
  assert (b' = b) as -> by by symmetry; eapply bus_at_unique.
  apply wp_bind, wp_require; [intros _|done]. cbn. apply wp_bind, wp_validate. intros errors Hv. cbn.
  apply wp_bind, wp_require; [intros _|by intros []; eapply validate_valid]. cbn.
  do 4 wp_step. cbn. apply wp_bind, wp_validate. intros errors' Hv'. cbn.
  destruct (add_send_ids p Hp i destination) as (? & ? & ?).
  case_decide as Hnil.
  - apply wp_ret. split; [|done]. intros Hr. destruct (proj1 (validate_valid _ _ Hv') Hnil) as [_ _ _ Hac].
    destruct (Hac (bus_id b)). by apply (add_send_closes p Hp i b).
  - do 2 wp_step. cbn.
    assert (leads : rtc (bus_feeds p) destination (bus_id b) →
      existsb (λ e, bool_decide (err_kind e = Cycle)) errors' = true).
    { intros Hr. apply (any_cycle_error _ errors' Hv'). exists (bus_cycle (bus_id b)).
      apply found_bus; [done|]. by apply (add_send_closes p Hp i b). }
    assert (¬ rtc (bus_feeds p) destination (bus_id b) → False) as Hno.
    { intros Hr. apply Hnil, (validate_valid _ _ Hv'). by eapply add_send_valid. }
    destruct (existsb _ errors'); apply wp_throw; (split; [intros Hr|by intros ?%Hno]).
    + split; [done|]. by eapply add_send_undone.
    + by apply leads in Hr.
Qed.

Lemma project_new_valid id name settings :
  name_ok name → settings_ok settings → project_valid (project_new id name settings).
Proof.
  intros Hname Hset. split; [split; try done; by repeat constructor|..]; intros a [c Hc]%tc_last.
  - destruct Hc as (? & ? & Hin & _). by apply elem_of_nil in Hin.
  - destruct Hc as (? & ? & Hin & _). by apply elem_of_nil in Hin.
  - destruct Hc as (? & Hin & _). by apply elem_of_nil in Hin.
Qed.

(** ** The properties *)

(** Validation always ends; it reports nothing exactly for a well-formed project, and
    among its errors those of kind [Cycle] name exactly the scenes, inputs and buses that
    lead back to themselves, in any project. *)
Theorem project_report_exact p :
  ∃ errors, validate_project p = Some errors ∧ (errors = [] ↔ project_valid p) ∧
    ∀ e, err_kind e = Cycle → e ∈ errors ↔ cycle_found p e.
Proof.
  destruct (validate_project_nil p) as (errors & Hv & Hnil). exists errors.
  split_and!; [done|done|]. intros e Hk. split; [|by apply errors_cycle].
  intros He. by destruct (errors_elem p errors e Hv He) as [[Hc _ _]|?].
Qed.

(** C31: Edits keep a project valid.  Start from a project that validates without an error
    and edit it in any way, with whatever was refused in between: the project validates
    without an error, and so it does after the next edit, or that edit is refused and
    changes nothing; no edit panics, and validation always ends.  What it means to validate
    is [project_report_exact].  The arguments that an edit takes without a check are assumed
    to be sound ([edit_fits]): the parts of an input, layer, bus, output, target or restart
    policy that is handed over whole, the address a medium is relinked to, and a main mix of
    inputs of the project. *)
Theorem edits_keep_valid p p' e :
  validate_project p = Some [] → edited p p' → edit_fits p' e →
  validate_project p' = Some [] ∧
  match run_edit e p' with
  | (p'', Ret _) => validate_project p'' = Some []
  | (p'', Throw _) => p'' = p'
  | (_, Panic) => False
  end.
Proof.
  intros Hp%validates Hed He. pose proof (edited_valid p p' Hp Hed) as Hp'.
  split; [by apply validates|]. pose proof (run_edit_safe e p' Hp' He) as Hpost. unfold wp in Hpost.
  destruct (run_edit e p') as [p'' [a|x|]]; simpl in Hpost; [by apply validates|done..].
Qed.

(** In a valid project a layer's source, an audio source and a send are refused exactly
    when they would lead back to where they start, changing nothing, and otherwise accepted;
    checking a layer's new source on a copy with that layer alone decides the same. *)
Theorem cycles_refused_exactly p :
  project_valid p →
  (∀ scene l, scene ∈ scene_ids p → name_ok (layer_name l) → source_exists p (layer_source l) →
     decides_cycle (add_layer_to_scene scene l) AddSceneLayerError.SourceCycle
       (leads_to p (layer_source l) scene) p) ∧
  (∀ s index l source, s ∈ scenes p → scene_layers s !! index = Some l → source_exists p source →
     decides_cycle (set_scene_layer_source (scene_id s) index source) SceneLayerError.SourceCycle
       (leads_to p source (scene_id s)) p) ∧
  (∀ x scene old source, x ∈ inputs p → in_kind x = KindScene scene old → source ∈ input_ids p →
     decides_cycle (set_scene_input_audio_source (in_id x) (Some source)) AudioSourceCycle
       (rtc (audio_follows p) source (in_id x)) p) ∧
  (∀ b destination, b ∈ audio_buses p → destination ∈ bus_ids p → bus_id b ≠ destination →
     (destination ∉ bus_sends b) →
     decides_cycle (add_audio_bus_send (bus_id b) destination) SendCycle
       (rtc (bus_feeds p) destination (bus_id b)) p).
Proof.
  intros Hp. split_and!; intros.
  - by apply add_layer_decides.
  - by eapply set_source_decides.
  - by eapply audio_source_decides.
  - by apply add_send_decides.
Qed.

(** ** Examples *)

Definition ex_settings : ProjectSettings :=
  settings_new (mk_rate 60000 1001)
    (mk_format (mk_video_format (mk_dimensions 1920 1080) (mk_rate 60000 1001) Types.Nv12 Progressive
                  color_default)
       (mk_audio 48000 SampleFormat.F32 layout_stereo)).
Definition ex_layer (name : string) (source : SourceRef) : Layer :=
  mk_layer name source true (mk_geometry 0 0 1920 1080 Deg0)
    (Some (mk_crop 0 0 960 540)) (Some (mk_mask 10 10 100 100 false)) 255 0.
(** Two scenes with their inputs, the second showing the first, two buses and an output. *)
Definition ex_project : Project :=
  mk_project CURRENT_SCHEMA_VERSION 1 "Show" ex_settings
    [mk_input 1 "Colour" KindColor []; mk_input 2 "Wide" (KindScene 10 (Some 1)) [];
     mk_input 3 "Close" (KindScene 11 None) ["video.decode"]]
    [mk_strip 1 strip_state_default; mk_strip 2 strip_state_default; mk_strip 3 strip_state_default]
    [mk_scene 10 "Wide" OPAQUE_BLACK [ex_layer "Base" (SourceInput 1)];
     mk_scene 11 "Close" OPAQUE_BLACK [ex_layer "Base" (SourceInput 2); ex_layer "Logo" (SourceInput 1)]]
    [mk_bus 20 "Master" []; mk_bus 21 "Stage" [20]]
    [mk_output 30 "Programme" 11 20 Stopped []] [] (Some (mk_mix 2 3)) false [] Never.
Lemma ex_project_valid : project_valid ex_project.
Proof. by apply (validate_valid ex_project []); [vm_compute|]. Qed.

(** The scene is renamed; then its background is set, and then it cannot be removed,
    because the programme input shows it. *)
Lemma edits_keep_valid_witness :
  let p := (run_edit (RenameScene 10 "Total") ex_project).1 in
  validate_project ex_project = Some [] ∧
  validate_project (run_edit (SetSceneBackground 10 (mk_rgba 9 9 9 255)) p).1 = Some [] ∧
  (run_edit (SetSceneBackground 10 (mk_rgba 9 9 9 255)) p).1 ≠ p ∧
  run_edit (RemoveScene 10) p = (p, Throw tt).
Proof.
  assert (Hex : validate_project ex_project = Some []) by (vm_compute; reflexivity).
  intros p. split; [exact Hex|].
  assert (Hed : edited ex_project p)
    by exact (edited_step ex_project ex_project (RenameScene 10 "Total") (edited_none _) I).
  split; [|split].
  - destruct (edits_keep_valid ex_project p (SetSceneBackground 10 (mk_rgba 9 9 9 255)) Hex Hed I) as [_ Hpost].
    assert (Hr : (run_edit (SetSceneBackground 10 (mk_rgba 9 9 9 255)) p).2 = Ret tt) by (vm_compute; reflexivity).
    destruct (run_edit (SetSceneBackground 10 (mk_rgba 9 9 9 255)) p) as [p'' r]. simpl in Hr.
    rewrite Hr in Hpost. exact Hpost.
  - intros H. apply (f_equal (λ p, scene_background <$> scenes p)) in H. vm_compute in H. discriminate H.
  - destruct (edits_keep_valid ex_project p (RemoveScene 10) Hex Hed I) as [_ Hpost].
    assert (Hr : (run_edit (RemoveScene 10) p).2 = Throw tt) by (vm_compute; reflexivity).
    destruct (run_edit (RemoveScene 10) p) as [p'' r]. simpl in Hr. rewrite Hr in Hpost |- *.
    rewrite Hpost. reflexivity.
Defined.
Lemma cycles_refused_exactly_witness :
  set_scene_layer_source 10 0 (SourceInput 3) ex_project =
    (ex_project, Throw SceneLayerError.SourceCycle) ∧
  add_audio_bus_send 20 21 ex_project = (ex_project, Throw SendCycle).
Proof.
  destruct (cycles_refused_exactly ex_project ex_project_valid) as (_ & Hset & _ & Hsend). split.
  - apply (Hset (mk_scene 10 "Wide" OPAQUE_BLACK [ex_layer "Base" (SourceInput 1)]) 0%nat
      (ex_layer "Base" (SourceInput 1)) (SourceInput 3)).
    + left.
    + reflexivity.
    + vm_compute. do 2 right. left.
    + exists 11. split.
      * right. exists (mk_input 3 "Close" (KindScene 11 None) ["video.decode"]), None.
        split_and!; [do 2 right; left|reflexivity|reflexivity].
      * apply rtc_once. exists (mk_scene 11 "Close" OPAQUE_BLACK
          [ex_layer "Base" (SourceInput 2); ex_layer "Logo" (SourceInput 1)]), (ex_layer "Base" (SourceInput 2)).
        split_and!; [right; left|reflexivity|left|].
        right. exists (mk_input 2 "Wide" (KindScene 10 (Some 1)) []), (Some 1).
        split_and!; [right; left|reflexivity|reflexivity].
  - apply (Hsend (mk_bus 20 "Master" []) 21).
    + left.
    + vm_compute. right. left.
    + discriminate.
    + apply not_elem_of_nil.
    + apply rtc_once. exists (mk_bus 21 "Stage" [20]). split_and!; [right; left|reflexivity|left].
Defined.
